(* ===== verification/_CoqProject ===== *)
-Q . S2P
Prelude.v
Market.v
Jobs.v
Storage.v
Transfer.v
Vlq.v
Compress.v
ScriptNum.v
ScriptStack.v
Wire.v
Tokenizer.v
Builder.v
SigHash.v
SigCheck.v
Taproot.v
Opcodes.v
SigOpcodes.v
Engine.v
EngineSafe.v
EngineRun.v
EngineFacts.v
Merkle.v
Difficulty.v
Chain.v
ChainView.v
Utxo.v
Chainio.v
SizeHelper.v
UtxoCache.v
TxRules.v
ScriptVal.v
Deployments.v
BlockRules.v
ConnectBlock.v
ConnectSafe.v
Orphans.v
ChainState.v
ChainInv.v
ChainBest.v
ChainStart.v
Treap.v
TreapFacts.v
TreapMap.v
TreapIter.v
Standard.v
MempoolPolicy.v
Returns.v
Mempool.v
MempoolInv.v
MempoolRbf.v
MempoolRun.v
PrioQueue.v
Mining.v
MiningRun.v
Templates.v
