(* ===== verification/Prelude.v ===== *)
(** * OrcaNet verification library: overview and prelude

    ** The program

    The repository holds a file market over a network of peers (peer/), the
    coin the market pays with (coin/OrcaNet, a full node), and a wallet
    (coin/OrcaWallet).  The library models the parts whose correctness the
    others rely on: what a peer publishes, stores, sends and is paid for, and
    how the node decides which blocks and transactions are valid, which chain
    is the best one and which coins exist.

    ** Files

    Every file is one component and carries a header of its own.  In the
    order in which they build on each other:

    - the market.  [Market]: the records of the DHT, the validator
      (internal/server/validator.go) and the gRPC handlers
      (serverRPC.go).  [Jobs]: the download jobs and their HTTP handlers
      (internal/jobs).  [Storage]: name map, data store and chunks
      (internal/hash).  [Transfer]: the stream protocol of a download
      (HandleStoredFileStream, GetFileOnce), over [Jobs] and [Storage].
    - scripts (txscript).  [ScriptNum], [ScriptStack], [Tokenizer],
      [Builder], [SigHash], [SigCheck], [Taproot]: scriptnum.go, stack.go,
      tokenizer.go and script.go, scriptbuilder.go and standard.go,
      sighash.go, the signature encodings and sigcache.go, taproot.go.
      [Standard]: the classes of output scripts (standard.go).
      [Opcodes] and [SigOpcodes] are the handlers of opcode.go with the
      verifiers of sigvalidate.go; [Engine] is engine.go.  [EngineSafe],
      [EngineRun] and [EngineFacts] hold its theorems.
    - blocks and transactions.  [Wire]: their encoding (wire).  [Merkle],
      [Difficulty], [Chain], [ChainView]: merkle.go, difficulty.go,
      blockindex.go, chainview.go.  [Vlq] and [Compress]: compress.go.
      [Utxo], [Chainio], [SizeHelper], [UtxoCache]: utxoviewpoint.go,
      chainio.go, sizehelper.go, utxocache.go.
    - the rules.  [TxRules]: the checks of a transaction.  [ScriptVal]: the
      goroutines of scriptval.go.  [Deployments]: thresholdstate.go and
      versionbits.go.  [BlockRules]: the checks of a header and of a block,
      checkpoints.go and sequence locks.  [ConnectBlock]: checkConnectBlock,
      with its theorems in [ConnectSafe].
    - the chain.  [Orphans]: the pool of orphan blocks.  [ChainState]:
      connecting, disconnecting and reorganising on the whole state, and
      ProcessBlock.  [ChainInv] and [ChainBest]: the invariant of that state
      and what each operation does to it.  [ChainStart]: making the state,
      loading it, and replaying what the utxo set misses.
    - the transaction pool.  [MempoolPolicy]: what is relayed
      (mempool/policy.go, mining/policy.go).  [Mempool]: the pool and its
      operations (mempool.go).  [MempoolInv], [MempoolRbf], [MempoolRun]:
      its invariant, the walks along it and replacement by fee, and what
      any sequence of calls keeps.  [Returns]: the checks of a transaction
      on a view, which the pool and the templates share, end.
    - block templates.  [PrioQueue]: the queue of mining.go with the heap of
      container/heap.  [Mining]: the generator of templates, over the pool
      through the class [TxSource].  [MiningRun] and [Templates]: the
      invariants of its loops, and what every template is.
    - pending changes of the database (database/internal/treap).  [Treap]:
      the heap of nodes, the mutable and the immutable treap and their
      iterators.  [TreapFacts], [TreapMap], [TreapIter]: the shape of the
      trees, the maps they stand for, and what an iterator visits.

    This file holds what they share: the outcomes of a Go call ([outcome],
    [Ok], [Err], [Panic], [Hang]) with their monad, machine integers, lists,
    the monad [stateful] for code that changes state and fails, and the
    predicates [within] and [leads] that the invariants are stated with.

    ** How code becomes definitions

    A function keeps its name.  A pure one is a function; one that fails
    returns an [outcome]; one that changes its receiver takes it and returns
    it.  A Go error is [Err] with the code or the class the callers look at
    and without its text; a panic is [Panic], so that its absence is a
    theorem.  Integers are [Z] with the wrap-around of their width written
    where the code can reach it.  A slice is a list; an index that is out of
    range panics, an append never shares memory with what it extends.  A map
    is a [gmap]; where the code ranges over one, the order is an argument.
    The goroutines of ScriptVal are a step relation, and those of the other
    components take the lock of their component, so that a call is one step.

    What is not under src/ is an argument: hash functions, the curve and
    signatures, protobuf and JSON codecs, the operating system's answers, the
    clock, the block store and the key-value store beneath the buckets.  Its
    documented behaviour is a named law of a class or a hypothesis of the
    theorems that use it, and each such theorem has a witness with a concrete
    function in its place.

    ** What the theorems show

    - The engine: Execute returns with an explicit amount of fuel and never
      panics, unless a program of version 1 or higher is nested in a P2SH
      input ([Execute_returns], [nested_v1_panics]);
      its limits hold between steps ([engine_limits]); standard spends and
      lock times mean what they should ([p2pkh_spend], [lock_time_opcodes]);
      a digest commits to what its hash type covers
      ([legacy_sighash_covers], [witness_sighash_covers]).
    - Coins: the cache over the bucket is the set of coins, as long as no
      transaction creates an output that the cache holds
      ([cache_refines]); connecting and disconnecting a block are inverse
      ([connect_disconnect]); a connected block spends existing coins once
      and adds at most the subsidy, where its hashes are new and the code's
      one gap (a spend of a later output) is not used
      ([checkConnectBlock_safe], [chain_supply]); the stored forms are read back
      ([utxo_bucket_map], [spend_journal_roundtrip]).
    - Blocks and the chain: which blocks are sane ([checkBlockSanity_iff]),
      which deployments are active ([deploymentState_spec]), what difficulty
      is required ([next_difficulty]); in every reached state index, view,
      snapshot, database and journal agree ([chain_state_invariant]), the
      work of the best chain never falls ([best_chain_choice]) and a restart
      gives the state back ([restart_restores]); the orphans are bounded and
      their acceptance stops ([orphan_pool_bounded], [processOrphans_stops]);
      the concurrent validator agrees with the sequential check
      ([txValidator_correct]).
    - The pool: no two of its transactions spend one coin, its indexes agree
      with what it holds, the orphans are bounded and every call
      returns when the chain beneath the pool does ([mempool_invariant]); what is evicted is what spends the same coins
      and all that builds on it, for a higher fee ([replacement_pays]); a
      removal takes exactly that ([RemoveTransaction_exact]); which
      transactions are standard ([CheckTransactionStandard_iff]).
    - Templates: a template holds transactions of the pool, parents first,
      each valid after the earlier ones, within the limits of signatures and
      (a commitment to witnesses apart) of weight, and the chain accepts it;
      the call returns when the chain's functions do
      ([NewBlockTemplate_valid]);
      the queue sorts ([queue_sorts]).
    - Pending changes: every version of the immutable treap stays the map it
      was ([immutable_versions]), the mutable one is a map ([mutable_map]),
      and an iterator visits the keys of its range in order, after the first
      pair of all when it has a limit and no start ([iterator_walks]).
    - The market: what RegisterFile publishes is accepted and is the old
      registry with the record replaced ([RegisterFile_publishes],
      [RegisterFile_accepted]); an honest download delivers the file and pays
      once per chunk ([GetFileOnce_honest],
      [SaveChunkedFile_GetFileOnce]); a job list with nothing to save is in
      the history file, but after a start, a failed save or an unmarked clear
      ([history_durable]).

    ** Fuel

    Recursion that is not structural takes fuel, and [Hang] says that it ran
    out.  Execute: [EngineRun] shows that 5 units for each byte of the longest
    script or witness item that may run, and one more, are enough;
    [Returns.enough] says so for all inputs of a transaction.  Walks over a script: one unit per byte and one more.
    Walks along the parents of a block: its height and two more.  The search
    for the last checkpoint and for the last difficulty: the height of the
    node.  processOrphans: the size of the pool and one more.
    calcEasiestDifficulty: the binary logarithm of the limit and two more.
    The growth of a map in SizeHelper: 64 doublings, the width of the size.
    Walks in a treap: the nodes of the heap and one more.  Walks in the
    transaction pool: the transactions in it and one more; over its orphans:
    the orphans and one more.  The choice of transactions for a block: the
    transactions of the source and two more, one pop for each and one for the
    change of order.  The heap of the queue: its length and one more.
    Each of them is proved to be enough, for the entry points that use it.

    ** Not modelled

    Inside the modelled components: that two slices can share the room
    beyond their length; data races; the read-ahead of buffered readers; the
    free lists of buffers and keys and the hashes a transaction caches; the
    trace log and the debugging callback; floating point beyond the values
    the code can meet; transactions of the database, which are taken to
    succeed as a whole; pruning and the optional indexes, which are off by
    default; what subscribers do with a notification.  The signature cache
    has its own theorem of transparency and is not threaded through the
    validation of scripts.  The caches of the threshold states that a refused
    block has filled are computed again.  The migration of old databases and
    initThresholdCaches, which only warms caches, are left out.

    Components left out: configuration, logging, command lines, RPC and HTTP
    servers and clients, the peer protocol over sockets and the address
    manager (input and output, timers, random choices); the goroutines of the
    miner and the estimator of fees; the storage engine
    beneath the database; curve arithmetic; the wallet's key store and
    transaction store (a program of its own over a bolt database); generated
    code and tests. *)

From Stdlib Require Export ZArith Lia.
From stdpp Require Export base numbers list strings gmap option.

#[global] Open Scope Z_scope.

#[global] Arguments Z.sub : simpl never.
#[global] Arguments Z.add : simpl never.
#[global] Arguments Z.mul : simpl never.
#[global] Arguments Z.pow : simpl never.
#[global] Arguments Z.div : simpl never.
#[global] Arguments Z.modulo : simpl never.
#[global] Arguments Z.ltb : simpl never.
#[global] Arguments Z.leb : simpl never.
#[global] Arguments Z.eqb : simpl never.
#[global] Arguments Z.land : simpl never.
#[global] Arguments Z.lor : simpl never.
#[global] Arguments Z.shiftl : simpl never.
#[global] Arguments Z.shiftr : simpl never.
#[global] Arguments Z.of_nat : simpl never.
#[global] Arguments Z.to_nat : simpl never.

(** ** Outcomes of a Go call

    A call returns a value ([Ok]), returns a non-nil error ([Err]), panics
    ([Panic]: index or slice out of range, nil dereference, negative shift),
    or, for a loop run with fuel, has not finished within the fuel ([Hang]).
    Every component whose loops carry fuel proves that [Hang] is unreachable
    with the fuel its entry points pass. *)
Inductive outcome (E A : Type) : Type :=
| Ok (a : A)
| Err (e : E)
| Panic
| Hang.
Arguments Ok {E A} a.
Arguments Err {E A} e.
Arguments Panic {E A}.
Arguments Hang {E A}.

#[export] Instance outcome_ret {E} : MRet (outcome E) := fun A a => Ok a.
#[export] Instance outcome_bind {E} : MBind (outcome E) := fun A B f m =>
  match m with
  | Ok a => f a
  | Err e => Err e
  | Panic => Panic
  | Hang => Hang
  end.
#[export] Instance outcome_fmap {E} : FMap (outcome E) := fun A B f m =>
  match m with
  | Ok a => Ok (f a)
  | Err e => Err e
  | Panic => Panic
  | Hang => Hang
  end.

#[export] Instance outcome_eq_dec {E A} `{EqDecision E} `{EqDecision A} :
  EqDecision (outcome E A).
Proof. solve_decision. Defined.

#[export] Instance Ok_inj {E A} : Inj (=) (=) (@Ok E A).
Proof. by intros a b [= ->]. Qed.

Definition returns {E A} (m : outcome E A) : Prop := exists a, m = Ok a.

Lemma outcome_bind_ok {E A B} (m : outcome E A) (f : A -> outcome E B) b :
  m ≫= f = Ok b <-> exists a, m = Ok a /\ f a = Ok b.
Proof. split; [destruct m; naive_solver | intros (a & -> & H); exact H]. Qed.

(** As an equation to rewrite with, so that checking a proof never has to
    compare the computations on both sides of a bind. *)
Lemma bind_Ok {E A B} (a : A) (f : A -> outcome E B) : Ok a ≫= f = f a.
Proof. done. Qed.

Lemma outcome_bind_hang {E A B} (m : outcome E A) (f : A -> outcome E B) :
  m <> Hang -> (forall a, m = Ok a -> f a <> Hang) -> m ≫= f <> Hang.
Proof. destruct m; naive_solver. Qed.

Lemma outcome_bind_assoc {E A B C} (m : outcome E A) (f : A -> outcome E B)
    (g : B -> outcome E C) :
  (m ≫= f) ≫= g = m ≫= (fun a => f a ≫= g).
Proof. by destruct m. Qed.

(** The call does not panic and does not run out of fuel, and [P] holds of
    the value it returns, when it returns one. *)
Definition safe {E A} (m : outcome E A) (P : A -> Prop) : Prop :=
  match m with
  | Ok a => P a
  | Err _ => True
  | Panic | Hang => False
  end.

Lemma safe_bind {E A B} (m : outcome E A) (f : A -> outcome E B) (P : A -> Prop) (Q : B -> Prop) :
  safe m P -> (forall a, m = Ok a -> P a -> safe (f a) Q) -> safe (m ≫= f) Q.
Proof. destruct m; naive_solver. Qed.

Lemma safe_mono {E A} (m : outcome E A) (P Q : A -> Prop) :
  safe m P -> (forall a, m = Ok a -> P a -> Q a) -> safe m Q.
Proof. destruct m; naive_solver. Qed.

Lemma safe_ok {E A} (m : outcome E A) (P : A -> Prop) a : safe m P -> m = Ok a -> P a.
Proof. by intros H ->. Qed.

Lemma safe_if {E A} (b : bool) (m n : outcome E A) (P : A -> Prop) :
  (b = true -> safe m P) -> (b = false -> safe n P) -> safe (if b then m else n) P.
Proof. destruct b; naive_solver. Qed.

(** ** Calls that change a state

    The state is there after an error too: a call that fails keeps the changes
    it made before. *)
Definition stateful (E S A : Type) : Type := S -> outcome E A * S.

#[export] Instance stateful_ret {E S} : MRet (stateful E S) := fun A a s => (Ok a, s).
#[export] Instance stateful_bind {E S} : MBind (stateful E S) := fun A B f m s =>
  match m s with
  | (Ok a, s) => f a s
  | (Err e, s) => (Err e, s)
  | (Panic, s) => (Panic, s)
  | (Hang, s) => (Hang, s)
  end.

(** A call without a state of its own. *)
Definition lift {E S A} (m : outcome E A) : stateful E S A := fun s => (m, s).
Definition gets {E S A} (f : S -> A) : stateful E S A := fun s => (Ok (f s), s).
Definition modify {E S} (f : S -> S) : stateful E S unit := fun s => (Ok (), f s).
Definition throw {E S A} (e : E) : stateful E S A := fun s => (Err e, s).

Lemma stateful_bind_ok {E S A B} (m : stateful E S A) (f : A -> stateful E S B) s b s' :
  (m ≫= f) s = (Ok b, s') <-> exists a s1, m s = (Ok a, s1) /\ f a s1 = (Ok b, s').
Proof.
  unfold mbind, stateful_bind. split.
  - destruct (m s) as [[a|e| |] s1]; try done. intros Hf. by exists a, s1.
  - by intros (a & s1 & -> & Hf).
Qed.

(** The first step of a call, when its result is known. *)
Lemma stateful_step {E S A B} (m : stateful E S A) (f : A -> stateful E S B) s a s1 :
  m s = (Ok a, s1) -> (m ≫= f) s = f a s1.
Proof. unfold mbind, stateful_bind. by intros ->. Qed.

(** A call changes the state within a relation, whatever it returns. *)
Definition within {E S A} (R : S -> S -> Prop) (m : stateful E S A) : Prop := forall s, R s (m s).2.

Section Within.
Context {E S : Type} (R : S -> S -> Prop) `{!PreOrder R}.

Lemma within_ret {A} (a : A) : within R (mret a : stateful E S A).
Proof using PreOrder0. intros s. by cbn. Qed.
Lemma within_lift {A} (m : outcome E A) : within R (lift m : stateful E S A).
Proof using PreOrder0. intros s. by cbn. Qed.
Lemma within_gets {A} (f : S -> A) : within R (gets f : stateful E S A).
Proof using PreOrder0. intros s. by cbn. Qed.
Lemma within_throw {A} (e : E) : within R (throw e : stateful E S A).
Proof using PreOrder0. intros s. by cbn. Qed.
Lemma within_bind {A B} (m : stateful E S A) (f : A -> stateful E S B) :
  within R m -> (forall a, within R (f a)) -> within R (m ≫= f).
Proof using PreOrder0.
  intros Hm Hf s. specialize (Hm s). unfold mbind, stateful_bind. destruct (m s) as [[a|e| |] s1]; [|done..]. cbn in Hm.
  etrans; [exact Hm|apply Hf].
Qed.
Lemma within_if {A} (c : bool) (m n : stateful E S A) : within R m -> within R n -> within R (if c then m else n).
Proof using. by destruct c. Qed.

End Within.

(** Where a call ends: [Q] of the value and the state when it returns one,
    [P] of the state otherwise. *)
Definition leads {E S A} (P : S -> Prop) (Q : A -> S -> Prop) (m : stateful E S A) (s : S) : Prop :=
  match m s with (Ok a, s') => Q a s' | (_, s') => P s' end.

Lemma leads_bind {E S A B} P Q (m : stateful E S A) (f : A -> stateful E S B) s :
  leads P (fun a => leads P Q (f a)) m s -> leads P Q (m ≫= f) s.
Proof. unfold leads, mbind, stateful_bind. by destruct (m s) as [[a|e| |] s1]. Qed.

Lemma leads_mono {E S A} (P P' : S -> Prop) (Q Q' : A -> S -> Prop) (m : stateful E S A) s :
  leads P Q m s -> (forall s', P s' -> P' s') -> (forall a s', Q a s' -> Q' a s') -> leads P' Q' m s.
Proof. unfold leads. destruct (m s) as [[a|e| |] s1]; auto. Qed.

Lemma leads_within {E S A} (R : S -> S -> Prop) (P : S -> Prop) (Q : A -> S -> Prop) (m : stateful E S A) s :
  within R m -> (forall s', R s s' -> P s') -> (forall a s', R s s' -> m s = (Ok a, s') -> Q a s') -> leads P Q m s.
Proof. intros Hm HP HQ. specialize (Hm s). unfold leads. destruct (m s) as [[a|e| |] s1]; auto. Qed.

Lemma leads_ok {E S A} (P : S -> Prop) (Q : A -> S -> Prop) (m : stateful E S A) s a s' :
  leads P Q m s -> m s = (Ok a, s') -> Q a s'.
Proof. unfold leads. by intros H Heq; rewrite Heq in H. Qed.

(** How a call ends: [Q] of the value and the state when it returns one,
    [P] of the error and the state when it fails, and [B] when it does
    neither, which [False] excludes. *)
Definition ends {E S A} (B : Prop) (P : E -> S -> Prop) (Q : A -> S -> Prop) (m : stateful E S A) (s : S) : Prop :=
  match m s with
  | (Ok a, s') => Q a s'
  | (Err e, s') => P e s'
  | _ => B
  end.

Section Ends.
Context {E S : Type} (B : Prop) (P : E -> S -> Prop).

Lemma ends_bind {A C} Q (m : stateful E S A) (f : A -> stateful E S C) s :
  ends B P (fun a => ends B P Q (f a)) m s -> ends B P Q (m ≫= f) s.
Proof using. unfold ends, mbind, stateful_bind. by destruct (m s) as [[a|e| |] s1]. Qed.

(** A call whose triple is known, before the rest. *)
Lemma ends_step {A C} (Q1 : A -> S -> Prop) Q (m : stateful E S A) (f : A -> stateful E S C) s :
  ends B P Q1 m s -> (forall a s', Q1 a s' -> ends B P Q (f a) s') -> ends B P Q (m ≫= f) s.
Proof using.
  unfold ends, mbind, stateful_bind. destruct (m s) as [[a|e| |] s1]; [|done..]. intros HQ Hf. by apply Hf.
Qed.

Lemma ends_lift {A} (Q : A -> S -> Prop) (m : outcome E A) s :
  (m = Panic \/ m = Hang -> B) -> (forall e, m = Err e -> P e s) -> (forall a, m = Ok a -> Q a s) -> ends B P Q (lift m) s.
Proof using. unfold ends, lift. destruct m; auto. Qed.

End Ends.

Lemma ends_mono {E S A} (B B' : Prop) (P P' : E -> S -> Prop) (Q Q' : A -> S -> Prop) (m : stateful E S A) s :
  ends B P Q m s -> (B -> B') -> (forall e s', P e s' -> P' e s') -> (forall a s', Q a s' -> Q' a s') -> ends B' P' Q' m s.
Proof. unfold ends. destruct (m s) as [[a|e| |] s1]; auto. Qed.

(** A call that always returns a value. *)
Definition runs {E S A} (Q : A -> S -> Prop) (m : stateful E S A) (s : S) : Prop := ends False (fun _ _ => False) Q m s.

Lemma runs_ends {E S A} (B : Prop) (P : E -> S -> Prop) (Q : A -> S -> Prop) (m : stateful E S A) s :
  runs Q m s -> ends B P Q m s.
Proof. intros H. by eapply ends_mono. Qed.

Lemma runs_mono {E S A} (Q Q' : A -> S -> Prop) (m : stateful E S A) s :
  runs Q m s -> (forall a s', Q a s' -> Q' a s') -> runs Q' m s.
Proof. intros H HQ. by eapply ends_mono. Qed.

(** Run a bind hypothesis backwards, one step of the monad at a time. *)
Ltac inv_ok :=
  repeat match goal with
  | H : Ok _ = Ok _ |- _ => injection H as H
  | H : Err _ = Ok _ |- _ => discriminate H
  | H : Panic = Ok _ |- _ => discriminate H
  | H : Hang = Ok _ |- _ => discriminate H
  | H : mret _ = Ok _ |- _ => unfold mret, outcome_ret in H
  | H : mbind _ _ = Ok _ |- _ => apply outcome_bind_ok in H as (? & ? & ?)
  end.

(** ** Go slices

    [Zlen] is [len], [index] is [s[i]], [slice] is [s[lo:hi]].  The model
    takes the capacity of a slice to be its length, so re-slicing past the
    length panics. *)
Definition Zlen {A} (l : list A) : Z := Z.of_nat (length l).

Definition index {E A} (l : list A) (i : Z) : outcome E A :=
  if decide (0 <= i)
  then match l !! Z.to_nat i with Some x => Ok x | None => Panic end
  else Panic.

Definition slice {E A} (l : list A) (lo hi : Z) : outcome E (list A) :=
  if decide (0 <= lo /\ lo <= hi /\ hi <= Zlen l)
  then Ok (take (Z.to_nat (hi - lo)) (drop (Z.to_nat lo) l))
  else Panic.

Lemma Zlen_nonneg {A} (l : list A) : 0 <= Zlen l.
Proof. unfold Zlen; lia. Qed.
Lemma Zlen_nil {A} : Zlen (@nil A) = 0.
Proof. done. Qed.
Lemma Zlen_cons {A} (x : A) l : Zlen (x :: l) = Zlen l + 1.
Proof. unfold Zlen; simpl; lia. Qed.
Lemma Zlen_app {A} (l1 l2 : list A) : Zlen (l1 ++ l2) = Zlen l1 + Zlen l2.
Proof. unfold Zlen; rewrite length_app; lia. Qed.

Lemma index_ok_iff {E A} (l : list A) i x :
  index (E:=E) l i = Ok x <-> 0 <= i /\ l !! Z.to_nat i = Some x.
Proof. unfold index; case_decide; destruct (l !! Z.to_nat i); naive_solver. Qed.

Lemma index_app_r {E A} (p l : list A) i :
  0 <= i -> index (E:=E) (p ++ l) (Zlen p + i) = index l i.
Proof.
  intros Hi; unfold index, Zlen. rewrite !decide_True by lia.
  rewrite lookup_app_r by lia. do 2 f_equal; try lia.
  replace (Z.to_nat (Z.of_nat (length p) + i) - length p)%nat with (Z.to_nat i) by lia.
  done.
Qed.

Lemma index_app_0 {E A} (p l : list A) : index (E:=E) (p ++ l) (Zlen p) = index l 0.
Proof. rewrite <- (index_app_r p l 0) by lia. by rewrite Z.add_0_r. Qed.

Lemma index_cons_0 {E A} (x : A) l : index (E:=E) (x :: l) 0 = Ok x.
Proof. done. Qed.
Lemma index_cons_S {E A} (x : A) l i :
  0 < i -> index (E:=E) (x :: l) i = index l (i - 1).
Proof.
  intros Hi; unfold index. rewrite !decide_True by lia.
  replace (Z.to_nat i) with (S (Z.to_nat (i - 1))) by lia. done.
Qed.

Lemma index_in_range {E A} (l : list A) i :
  0 <= i < Zlen l -> returns (index (E:=E) l i).
Proof.
  intros Hi; unfold index, returns, Zlen in *. rewrite decide_True by lia.
  destruct (lookup_lt_is_Some_2 l (Z.to_nat i)) as [x ->]; [lia|eauto].
Qed.

Lemma slice_ok_iff {E A} (l : list A) lo hi s :
  slice (E:=E) l lo hi = Ok s <->
  0 <= lo <= hi /\ hi <= Zlen l /\ s = take (Z.to_nat (hi - lo)) (drop (Z.to_nat lo) l).
Proof. unfold slice; case_decide; naive_solver. Qed.

(** Reading the middle of a concatenation. *)
Lemma slice_mid {E A} (p m s : list A) lo hi :
  lo = Zlen p -> hi = Zlen p + Zlen m ->
  slice (E:=E) (p ++ m ++ s) lo hi = Ok m.
Proof.
  intros -> ->. unfold slice. rewrite decide_True.
  - f_equal. unfold Zlen. rewrite Nat2Z.id, drop_app_length.
    replace (Z.to_nat _) with (length m) by lia. apply take_app_length.
  - rewrite !Zlen_app. pose proof (Zlen_nonneg p); pose proof (Zlen_nonneg m).
    pose proof (Zlen_nonneg s). lia.
Qed.

Lemma slice_suffix {E A} (p s : list A) lo hi :
  lo = Zlen p -> hi = Zlen p + Zlen s -> slice (E:=E) (p ++ s) lo hi = Ok s.
Proof.
  intros Hlo Hhi. pose proof (slice_mid (E:=E) p s [] lo hi Hlo Hhi) as H.
  by rewrite app_nil_r in H.
Qed.

Lemma slice_prefix {E A} (p s : list A) hi :
  hi = Zlen p -> slice (E:=E) (p ++ s) 0 hi = Ok p.
Proof. intros ->. by apply (slice_mid [] p s). Qed.

Lemma slice_length {E A} (l : list A) lo hi s :
  slice (E:=E) l lo hi = Ok s -> Zlen s = hi - lo.
Proof.
  rewrite slice_ok_iff. intros (? & ? & ->). unfold Zlen in *.
  rewrite length_take, length_drop. lia.
Qed.

(** ** Machine integers *)
Definition u8 (z : Z) : Z := z mod 2 ^ 8.
Definition u16 (z : Z) : Z := z mod 2 ^ 16.
Definition u32 (z : Z) : Z := z mod 2 ^ 32.
Definition u64 (z : Z) : Z := z mod 2 ^ 64.
Definition i32 (z : Z) : Z := (z + 2 ^ 31) mod 2 ^ 32 - 2 ^ 31.
Definition i64 (z : Z) : Z := (z + 2 ^ 63) mod 2 ^ 64 - 2 ^ 63.

Lemma u8_small z : 0 <= z < 2 ^ 8 -> u8 z = z.
Proof. apply Z.mod_small. Qed.
Lemma u16_small z : 0 <= z < 2 ^ 16 -> u16 z = z.
Proof. apply Z.mod_small. Qed.
Lemma u32_small z : 0 <= z < 2 ^ 32 -> u32 z = z.
Proof. apply Z.mod_small. Qed.
Lemma u64_small z : 0 <= z < 2 ^ 64 -> u64 z = z.
Proof. apply Z.mod_small. Qed.
Lemma i32_small z : - 2 ^ 31 <= z < 2 ^ 31 -> i32 z = z.
Proof. intros; unfold i32; rewrite Z.mod_small; lia. Qed.
Lemma i64_small z : - 2 ^ 63 <= z < 2 ^ 63 -> i64 z = z.
Proof. intros; unfold i64; rewrite Z.mod_small; lia. Qed.
Lemma u8_range z : 0 <= u8 z < 2 ^ 8.
Proof. apply Z.mod_pos_bound; lia. Qed.
Lemma u16_range z : 0 <= u16 z < 2 ^ 16.
Proof. apply Z.mod_pos_bound; lia. Qed.
Lemma u32_range z : 0 <= u32 z < 2 ^ 32.
Proof. apply Z.mod_pos_bound; lia. Qed.
Lemma u64_range z : 0 <= u64 z < 2 ^ 64.
Proof. apply Z.mod_pos_bound; lia. Qed.
Lemma i64_range z : - 2 ^ 63 <= i64 z < 2 ^ 63.
Proof. unfold i64. pose proof (Z.mod_pos_bound (z + 2 ^ 63) (2 ^ 64)). lia. Qed.

(** ** Bytes *)
Definition byte_ok (b : Z) : Prop := 0 <= b < 256.
Abbreviation bytes_ok := (Forall byte_ok).

#[export] Instance byte_ok_dec b : Decision (byte_ok b).
Proof. unfold byte_ok; apply _. Defined.

Lemma u8_byte_ok z : byte_ok (u8 z).
Proof. apply u8_range. Qed.

(** A property of every byte, checked by evaluation. *)
Lemma byte_cases (P : Z -> bool) :
  forallb P (Z.of_nat <$> seq 0 256) = true -> forall b, byte_ok b -> P b = true.
Proof.
  intros H b Hb. rewrite forallb_forall in H. apply H.
  rewrite <- list_elem_of_In. apply list_elem_of_fmap. exists (Z.to_nat b).
  unfold byte_ok in Hb. rewrite elem_of_seq. lia.
Qed.

(** Little-endian digits and their value. *)
Fixpoint le_bytes (n : nat) (z : Z) : list Z :=
  match n with
  | O => []
  | S n => z mod 256 :: le_bytes n (z / 256)
  end.

Fixpoint le_val (l : list Z) : Z :=
  match l with
  | [] => 0
  | b :: l => b + 256 * le_val l
  end.

Definition be_bytes (n : nat) (z : Z) : list Z := rev (le_bytes n z).
Definition be_val (l : list Z) : Z := le_val (rev l).

Lemma le_bytes_length n z : length (le_bytes n z) = n.
Proof. revert z; induction n; intros; simpl; auto. Qed.
Lemma Zlen_le_bytes n z : Zlen (le_bytes n z) = Z.of_nat n.
Proof. unfold Zlen. by rewrite le_bytes_length. Qed.
Lemma be_bytes_length n z : length (be_bytes n z) = n.
Proof. unfold be_bytes; rewrite length_rev; apply le_bytes_length. Qed.

Lemma le_bytes_ok n z : bytes_ok (le_bytes n z).
Proof.
  revert z; induction n; intros; simpl; constructor; auto.
  apply Z.mod_pos_bound; lia.
Qed.
Lemma be_bytes_ok n z : bytes_ok (be_bytes n z).
Proof. apply Forall_rev, le_bytes_ok. Qed.

Lemma le_val_bytes n z : 0 <= z < 256 ^ Z.of_nat n -> le_val (le_bytes n z) = z.
Proof.
  revert z; induction n as [|n IH]; intros z Hz; simpl.
  - rewrite Z.pow_0_r in Hz. lia.
  - rewrite IH.
    + pose proof (Z.div_mod z 256). lia.
    + rewrite Nat2Z.inj_succ, Z.pow_succ_r in Hz by lia.
      split; [apply Z.div_pos; lia | apply Z.div_lt_upper_bound; lia].
Qed.

Lemma be_val_bytes n z : 0 <= z < 256 ^ Z.of_nat n -> be_val (be_bytes n z) = z.
Proof. intros; unfold be_val, be_bytes; rewrite rev_involutive; by apply le_val_bytes. Qed.

Lemma le_val_range l : bytes_ok l -> 0 <= le_val l < 256 ^ Z.of_nat (length l).
Proof.
  induction 1 as [|b l Hb Hl IH]; simpl; [lia|].
  rewrite Nat2Z.inj_succ, Z.pow_succ_r by lia. unfold byte_ok in Hb. lia.
Qed.

Lemma le_bytes_val l : bytes_ok l -> le_bytes (length l) (le_val l) = l.
Proof.
  induction 1 as [|b l Hb Hl IH]; simpl; [done|].
  unfold byte_ok in Hb. f_equal.
  - rewrite (Z.mul_comm 256), Z.mod_add by lia. apply Z.mod_small; lia.
  - rewrite (Z.mul_comm 256), Z.div_add, (Z.div_small b) by lia.
    by rewrite Z.add_0_l.
Qed.

Lemma le_val_app a b : le_val (a ++ b) = le_val a + 256 ^ Zlen a * le_val b.
Proof.
  induction a as [|x a IH]; simpl; [by rewrite Z.mul_1_l|].
  rewrite IH, Zlen_cons, Z.pow_add_r by (pose proof (Zlen_nonneg a); lia). ring.
Qed.

(** Disjoint bit fields: [hi << k | lo] is a sum. *)
Lemma lor_shiftl_add hi lo k :
  0 <= k -> 0 <= lo < 2 ^ k -> Z.lor (Z.shiftl hi k) lo = hi * 2 ^ k + lo.
Proof.
  intros Hk Hlo. rewrite <- Z.shiftl_mul_pow2 by lia.
  rewrite Z.add_nocarry_lxor, Z.lxor_lor; trivial;
  apply Z.bits_inj'; intros n Hn; rewrite Z.land_spec, Z.bits_0.
  all: destruct (Z.lt_ge_cases n k);
    [rewrite Z.shiftl_spec_low by lia; done|].
  all: rewrite <- (Z.mod_small lo (2 ^ k)), Z.mod_pow2_bits_high by lia;
    apply andb_false_r.
Qed.

(** One bit. *)
Lemma land_pow2 n k : 0 <= k -> Z.land n (2 ^ k) = Z.b2z (Z.testbit n k) * 2 ^ k.
Proof.
  intros Hk. apply Z.bits_inj'. intros i Hi. rewrite Z.land_spec, Z.pow2_bits_eqb by lia.
  destruct (Z.testbit n k) eqn:Ht; cbn [Z.b2z].
  - rewrite Z.mul_1_l, Z.pow2_bits_eqb by lia. destruct (Z.eqb_spec k i) as [->|]; [by rewrite Ht|apply andb_false_r].
  - rewrite Z.mul_0_l, Z.bits_0. destruct (Z.eqb_spec k i) as [->|]; [by rewrite Ht|apply andb_false_r].
Qed.

(** ** Automation *)
Create HintDb orca discriminated.
Create Rewrite HintDb zlen.
Create HintDb within discriminated.
#[export] Hint Resolve within_ret within_lift within_gets within_throw within_bind within_if : within.
#[export] Hint Resolve Zlen_nonneg le_bytes_ok be_bytes_ok u8_byte_ok
  u8_range u16_range u32_range u64_range : orca.
#[export] Hint Rewrite @Zlen_app @Zlen_cons @Zlen_nil : zlen.

Ltac zlen := autorewrite with zlen in *; lia.

(** Known non-negativity of every length in sight, then [lia]. *)
Ltac len_lia :=
  autorewrite with zlen in *;
  repeat match goal with
  | |- context [Zlen ?l] =>
      lazymatch goal with
      | _ : 0 <= Zlen l |- _ => fail
      | _ => pose proof (Zlen_nonneg l)
      end
  | _ : context [Zlen ?l] |- _ =>
      lazymatch goal with
      | _ : 0 <= Zlen l |- _ => fail
      | _ => pose proof (Zlen_nonneg l)
      end
  end; lia.
