(* ===== verification/Market.v ===== *)
(** * The file market: DHT records, validator and gRPC service

    Models peer/internal/server/validator.go and the market part of
    peer/internal/server/serverRPC.go.  A DHT value is a sequence of signed
    user records followed by an eight byte timestamp.  [Validate] and [Select]
    are the methods of [OrcaValidator]; [RegisterFile] and [CheckHolders] are
    the gRPC handlers of [FileShareServerNode].  Protobuf, RSA and the Kademlia
    store are libraries: they are the operations of [MarketLib], [KeyPair] and
    [DhtLib]. *)

From S2P Require Import Prelude.

Module Market.

(** ** Data *)

(** The protobuf message [User]. *)
Record User := mkUser {
  GetId : list Z;
  GetName : string;
  GetIp : string;
  GetPort : Z;
  GetPrice : Z;
}.

Record RegisterFileRequest := mkRegisterFileRequest {
  GetUser : option User;
  GetFileKey : string;
}.

#[export] Instance User_eq_dec : EqDecision User.
Proof. solve_decision. Defined.

(** ** Library interfaces *)

(** proto.Marshal / proto.Unmarshal, crypto.UnmarshalRsaPublicKey and
    PubKey.Verify. *)
Class MarketLib := {
  PubKey : Type;
  proto_Marshal : User -> outcome string (list Z);
  proto_Unmarshal : list Z -> outcome string User;
  UnmarshalRsaPublicKey : list Z -> outcome string PubKey;
  Verify : PubKey -> list Z -> list Z -> outcome string bool;
}.

(** The node's own key pair: PubKey.Raw and PrivKey.Sign. *)
Record KeyPair := mkKeyPair {
  pub_Raw : outcome string (list Z);
  priv_Sign : list Z -> outcome string (list Z);
}.

(** The Kademlia store: K_DHT.GetValue and K_DHT.PutValue. *)
Class DhtLib := {
  DHT : Type;
  GetValue : DHT -> string -> outcome string (list Z);
  PutValue : DHT -> string -> list Z -> outcome string DHT;
}.

(** What the code relies on: unmarshalling inverts marshalling, and a
    signature made with the node's key verifies under the key its raw bytes
    parse to. *)
Class MarketLaws (L : MarketLib) (kp : KeyPair) : Prop := {
  unmarshal_marshal u b : proto_Marshal u = Ok b -> proto_Unmarshal b = Ok u;
  sign_verify id m s : pub_Raw kp = Ok id -> priv_Sign kp m = Ok s ->
    exists pk, UnmarshalRsaPublicKey id = Ok pk /\ Verify pk m s = Ok true;
}.

(** A stored value is read back. *)
Class DhtLaws (D : DhtLib) : Prop := {
  get_put d k v d' : PutValue d k v = Ok d' -> GetValue d' k = Ok v;
}.

(** ** The key format: ^[a-fA-F0-9]{64}$ *)
Definition isHexDigit (c : Ascii.ascii) : bool :=
  let n := Ascii.nat_of_ascii c in
  ((48 <=? n) && (n <=? 57) || (65 <=? n) && (n <=? 70) || (97 <=? n) && (n <=? 102))%nat.

Fixpoint allHex (s : string) : bool :=
  match s with
  | EmptyString => true
  | String c s => isHexDigit c && allHex s
  end.

Definition hexPattern (s : string) : bool :=
  (String.length s =? 64)%nat && allHex s.

(** strings.Replace(s, pat, "", -1) for a non-empty [pat]; [skip] counts the
    characters of the current match still to be dropped. *)
Fixpoint deleteAll (pat : string) (skip : nat) (s : string) : string :=
  match s with
  | EmptyString => EmptyString
  | String c s' =>
      match skip with
      | S skip => deleteAll pat skip s'
      | O => if String.prefix pat s
             then deleteAll pat (String.length pat - 1) s'
             else String c (deleteAll pat 0 s')
      end
  end.

Definition marketPrefix : string := "orcanet/market/".

(** ** Record headers *)

(** uint16(hi)<<8 | uint16(lo) *)
Definition uint16le (lo hi : Z) : Z := Z.lor (u16 (Z.shiftl hi 8)) lo.

(** The message length and the content length of the record at [i]. *)
Definition readHeader (value : list Z) (i : Z) : outcome string (Z * Z) :=
  b1 ← index value (i + 1); b0 ← index value i;
  let messageLength := uint16le b0 b1 in
  b3 ← index value (i + 3); b2 ← index value (i + 2);
  let digitalSignatureLength := uint16le b2 b3 in
  let contentLength := u16 (messageLength + digitalSignatureLength) in
  mret (messageLength, contentLength).

(** [ConvertBytesTo64BitInt]: a negative shift count panics. *)
Fixpoint convertLoop (value : list Z) (shift suppliedTime : Z) : outcome string Z :=
  match value with
  | [] => Ok suppliedTime
  | b :: value =>
      if shift * 8 <? 0 then Panic
      else convertLoop value (shift - 1)
             (Z.lor suppliedTime (u64 (Z.shiftl b (shift * 8))))
  end.

Definition ConvertBytesTo64BitInt (value : list Z) : outcome string Z :=
  convertLoop value 7 0.

(** ConvertBytesTo64BitInt(value[len(value)-8:]) *)
Definition suppliedTimeOf (value : list Z) : outcome string Z :=
  s ← slice value (Zlen value - 8) (Zlen value);
  ConvertBytesTo64BitInt s.

(** ** OrcaValidator.Select *)
Fixpoint selectLoop (rest : list (list Z)) (i max latestTime maxIndex : Z) : outcome string Z :=
  match rest with
  | [] => Ok maxIndex
  | v :: rest =>
      suppliedTime ← suppliedTimeOf v;
      if max <=? Zlen v then
        if latestTime <=? suppliedTime
        then selectLoop rest (i + 1) (Zlen v) suppliedTime i
        else selectLoop rest (i + 1) max latestTime maxIndex
      else selectLoop rest (i + 1) max latestTime maxIndex
  end.

Definition Select (value : list (list Z)) : outcome string Z :=
  match value with
  | [] => Panic
  | v0 :: rest =>
      latestTime ← suppliedTimeOf v0;
      selectLoop rest 1 (Zlen v0) latestTime 0
  end.

Section Service.
Context `{L : MarketLib} `{D : DhtLib}.

(** ** OrcaValidator.Validate *)
Fixpoint validateLoop (fuel : nat) (value : list Z) (i : Z)
    (pubKeySet : gset (list Z)) : outcome string unit :=
  match fuel with
  | O => Hang
  | S fuel =>
      if i <? Zlen value - 8 then
        '(messageLength, contentLength) ← readHeader value i;
        msg ← slice value (i + 4) (i + 4 + messageLength);
        user ← proto_Unmarshal msg;
        if decide (GetId user ∈ pubKeySet)
        then Err "Duplicate record for the same public key found!"%string
        else
          userMessageBytes ← slice value (i + 4) (i + 4 + messageLength);
          publicKey ← UnmarshalRsaPublicKey (GetId user);
          signatureBytes ← slice value (i + 4 + messageLength) (i + 4 + contentLength);
          valid ← Verify publicKey userMessageBytes signatureBytes;
          if negb valid then Err "Signature invalid!"%string
          else validateLoop fuel value (i + 4 + contentLength - 1 + 1)
                 ({[GetId user]} ∪ pubKeySet)
      else Ok tt
  end.

Definition Validate (now : Z) (key : string) (value : list Z) : outcome string unit :=
  if negb (hexPattern (deleteAll marketPrefix 0 key))
  then Err "Provided key is not in the form of a SHA-256 digest!"%string
  else
    _ ← validateLoop (S (length value)) value 0 ∅;
    let unixTimestampInt64 := u64 now in
    suppliedTime ← suppliedTimeOf value;
    if unixTimestampInt64 <? suppliedTime
    then Err "Supplied time cannot be less than current time"%string
    else Ok tt.

(** ** FileShareServerNode.CheckHolders *)
Fixpoint holdersLoop (fuel : nat) (value : list Z) (i : Z) (users : list User)
    : outcome string (list User) :=
  match fuel with
  | O => Hang
  | S fuel =>
      if i <? Zlen value - 8 then
        '(messageLength, contentLength) ← readHeader value i;
        msg ← slice value (i + 4) (i + 4 + messageLength);
        user ← proto_Unmarshal msg;
        holdersLoop fuel value (i + 4 + contentLength - 1 + 1) (users ++ [user])
      else Ok users
  end.

Definition CheckHolders (d : DHT) (fileKey : string) : outcome string (list User) :=
  match GetValue d (marketPrefix +:+ fileKey) with
  | Err _ => Ok []
  | Ok value => holdersLoop (S (length value)) value 0 []
  | Panic => Panic
  | Hang => Hang
  end.

(** ** FileShareServerNode.RegisterFile *)

(** The byte-by-byte comparison over [range in.GetUser().GetId()]. *)
Fixpoint recordExists (userId inId : list Z) : bool :=
  match inId, userId with
  | [], _ => true
  | b :: inId, a :: userId => if negb (a =? b) then false else recordExists userId inId
  | _ :: _, [] => false
  end.

Fixpoint removeLoop (fuel : nat) (id : list Z) (value : list Z) (i : Z) : outcome string (list Z) :=
  match fuel with
  | O => Hang
  | S fuel =>
      if i <? Zlen value - 8 then
        '(messageLength, contentLength) ← readHeader value i;
        msg ← slice value (i + 4) (i + 4 + messageLength);
        user ← proto_Unmarshal msg;
        if (Zlen (GetId user) =? Zlen id) && recordExists (GetId user) id then
          p ← slice value 0 i;
          s ← slice value (i + 4 + contentLength) (Zlen value);
          mret (p ++ s)
        else removeLoop fuel id value (i + 4 + contentLength - 1 + 1)
      else Ok value
  end.

(** The eight timestamp bytes, most significant first. *)
Definition timestampBytes (unixTimestampInt64 : Z) : list Z :=
  (fun i => u8 (Z.shiftr unixTimestampInt64 (i * 8))) <$> [7; 6; 5; 4; 3; 2; 1; 0].

Definition buildRecord (userProtoBytes signature : list Z) (unixTimestampInt64 : Z) : list Z :=
  let userProtoSize := Zlen userProtoBytes in
  let signatureLength := Zlen signature in
  [u8 userProtoSize; u8 (Z.shiftr userProtoSize 8);
   u8 signatureLength; u8 (Z.shiftr signatureLength 8)]
  ++ userProtoBytes ++ signature ++ timestampBytes unixTimestampInt64.

Definition RegisterFile (kp : KeyPair) (now : Z) (d : DHT) (req : RegisterFileRequest)
    : outcome string DHT :=
  let hash := GetFileKey req in
  pubKeyBytes ← pub_Raw kp;
  match GetUser req with
  | None => Panic
  | Some u =>
      let user := mkUser pubKeyBytes (GetName u) (GetIp u) (GetPort u) (GetPrice u) in
      value ← (match GetValue d (marketPrefix +:+ hash) with
               | Err _ => Ok []
               | r => r
               end);
      value ← removeLoop (S (length value)) (GetId user) value 0;
      userProtoBytes ← proto_Marshal user;
      signature ← priv_Sign kp userProtoBytes;
      let unixTimestampInt64 := u64 now in
      let record := buildRecord userProtoBytes signature unixTimestampInt64 in
      value ← (if negb (Zlen value =? 0) then slice value 0 (Zlen value - 8) else Ok value);
      PutValue d (marketPrefix +:+ hash) (value ++ record)
  end.

End Service.

(** ** Abstract registry

    The specification of a DHT value: the ordered list of its records, with
    the user each one decodes to. *)
Record entry := mkEntry {
  e_msg : list Z;
  e_sig : list Z;
  e_user : User;
}.

Definition e_id (e : entry) : list Z := GetId (e_user e).

Definition encEntry (e : entry) : list Z :=
  [u8 (Zlen (e_msg e)); u8 (Z.shiftr (Zlen (e_msg e)) 8);
   u8 (Zlen (e_sig e)); u8 (Z.shiftr (Zlen (e_sig e)) 8)]
  ++ e_msg e ++ e_sig e.

Definition encEntries (es : list entry) : list Z := concat (encEntry <$> es).

Definition encValue (es : list entry) (ts : Z) : list Z :=
  encEntries es ++ timestampBytes ts.

(** The two lengths and their sum are representable in a uint16. *)
Definition fits (msg sig : list Z) : Prop := Zlen msg + Zlen sig < 2 ^ 16.

(** Withdraw the first record of an owner; publish replaces it at the end. *)
Fixpoint withdraw (id : list Z) (es : list entry) : list entry :=
  match es with
  | [] => []
  | e :: es => if decide (e_id e = id) then es else e :: withdraw id es
  end.

Definition publish (e : entry) (es : list entry) : list entry :=
  withdraw (e_id e) es ++ [e].

Section Specification.
Context `{L : MarketLib}.

Definition decodes (e : entry) : Prop :=
  fits (e_msg e) (e_sig e) /\ proto_Unmarshal (e_msg e) = Ok (e_user e).

Definition authentic (msg sig id : list Z) : Prop :=
  exists pk, UnmarshalRsaPublicKey id = Ok pk /\ Verify pk msg sig = Ok true.

(** A well-formed registry: every record decodes and is signed by the owner
    it names, and no owner has two records. *)
Definition registry_ok (es : list entry) : Prop :=
  Forall decodes es /\
  Forall (fun e => authentic (e_msg e) (e_sig e) (e_id e)) es /\
  NoDup (e_id <$> es).

End Specification.

(** ** Lemmas: headers, timestamps and the walk over a value *)

Lemma uint16le_spec n :
  0 <= n < 2 ^ 16 -> uint16le (u8 n) (u8 (Z.shiftr n 8)) = n.
Proof.
  intros Hn. unfold uint16le. rewrite Z.shiftr_div_pow2 by lia.
  assert (0 <= n / 2 ^ 8 < 2 ^ 8) by
    (split; [apply Z.div_pos; lia | apply Z.div_lt_upper_bound; lia]).
  rewrite (u8_small (n / _)) by done.
  rewrite u16_small by (rewrite Z.shiftl_mul_pow2; lia).
  rewrite lor_shiftl_add by (lia || apply u8_range).
  unfold u8. pose proof (Z.div_mod n (2 ^ 8)). lia.
Qed.

Lemma timestampBytes_length ts : Zlen (timestampBytes ts) = 8.
Proof. done. Qed.
#[local] Hint Rewrite timestampBytes_length : zlen.

Lemma u8_shiftr_digit ts k : 0 <= k -> u8 (Z.shiftr ts k) = (ts / 2 ^ k) mod 256.
Proof. intros. unfold u8. by rewrite Z.shiftr_div_pow2 by lia. Qed.

Lemma convertLoop_step b l shift acc :
  0 <= shift -> byte_ok b -> 0 <= acc -> acc mod 2 ^ ((shift + 1) * 8) = 0 ->
  (shift + 1) * 8 <= 64 ->
  convertLoop (b :: l) shift acc = convertLoop l (shift - 1) (acc + b * 2 ^ (shift * 8)).
Proof.
  intros Hs Hb Ha Hm H64. unfold byte_ok in Hb. simpl.
  destruct (Z.ltb_spec (shift * 8) 0); [lia|]. f_equal.
  assert (Hpow : 2 ^ ((shift + 1) * 8) = 256 * 2 ^ (shift * 8)).
  { replace ((shift + 1) * 8) with (8 + shift * 8) by lia. rewrite Z.pow_add_r by lia. done. }
  assert (0 < 2 ^ (shift * 8)) by (apply Z.pow_pos_nonneg; lia).
  assert (2 ^ ((shift + 1) * 8) <= 2 ^ 64) by (apply Z.pow_le_mono_r; lia).
  rewrite u64_small, Z.shiftl_mul_pow2 by (rewrite ?Z.shiftl_mul_pow2; nia).
  rewrite (Z.div_mod acc (2 ^ ((shift + 1) * 8))) by lia.
  rewrite Hm, Z.add_0_r, (Z.mul_comm (2 ^ _)), <- Z.shiftl_mul_pow2 by lia.
  rewrite lor_shiftl_add by nia. by rewrite Z.shiftl_mul_pow2 by lia.
Qed.

Lemma be_val_cons b l : be_val (b :: l) = b * 2 ^ (Zlen l * 8) + be_val l.
Proof.
  unfold be_val. simpl. rewrite le_val_app. simpl. unfold Zlen. rewrite length_rev.
  change 256 with (2 ^ 8) at 1. rewrite <- Z.pow_mul_r by lia.
  replace (8 * Z.of_nat (length l)) with (Z.of_nat (length l) * 8) by lia. lia.
Qed.

Lemma be_val_nonneg l : bytes_ok l -> 0 <= be_val l.
Proof. intros H. by apply le_val_range, Forall_rev. Qed.

Lemma convertLoop_be l acc :
  bytes_ok l -> Zlen l <= 8 -> 0 <= acc -> acc mod 2 ^ (Zlen l * 8) = 0 ->
  convertLoop l (Zlen l - 1) acc = Ok (acc + be_val l).
Proof.
  intros Hl. revert acc. induction Hl as [|b l Hb Hl IH]; intros acc H8 Ha Hm.
  - simpl. f_equal. unfold be_val. simpl. lia.
  - rewrite Zlen_cons in *. pose proof (Zlen_nonneg l).
    replace (Zlen l + 1 - 1) with (Zlen l) by lia.
    rewrite convertLoop_step by (try done; lia).
    unfold byte_ok in Hb.
    assert (0 < 2 ^ (Zlen l * 8)) by (apply Z.pow_pos_nonneg; lia).
    rewrite IH; [f_equal; rewrite be_val_cons; lia | lia | nia |].
    rewrite Z.mod_add by lia.
    rewrite (Z.div_mod acc (2 ^ ((Zlen l + 1) * 8))), Hm by lia.
    replace ((Zlen l + 1) * 8) with (8 + Zlen l * 8) by lia.
    rewrite Z.pow_add_r, Z.add_0_r by lia.
    rewrite <- Z.mul_assoc, (Z.mul_comm (2 ^ (Zlen l * 8))), Z.mul_assoc.
    by rewrite Z.mod_mul by lia.
Qed.

Lemma timestampBytes_be ts : timestampBytes ts = be_bytes 8 ts.
Proof.
  unfold timestampBytes, be_bytes. simpl.
  rewrite !Z.div_div by lia. unfold u8. rewrite !Z.shiftr_div_pow2 by lia.
  by rewrite Z.div_1_r.
Qed.

Lemma convert_timestampBytes ts :
  0 <= ts < 2 ^ 64 -> ConvertBytesTo64BitInt (timestampBytes ts) = Ok ts.
Proof.
  intros Hts. rewrite timestampBytes_be. unfold ConvertBytesTo64BitInt.
  assert (Hlen : Zlen (be_bytes 8 ts) = 8) by (unfold Zlen; by rewrite be_bytes_length).
  pose proof (convertLoop_be (be_bytes 8 ts) 0 (be_bytes_ok 8 ts)) as H.
  rewrite Hlen in H. change 7 with (8 - 1). rewrite H by done. f_equal. rewrite be_val_bytes; lia.
Qed.

(** Reading a header out of the middle of a value. *)
Lemma readHeader_raw p e s :
  Zlen (e_msg e) < 2 ^ 16 -> Zlen (e_sig e) < 2 ^ 16 ->
  readHeader (p ++ encEntry e ++ s) (Zlen p)
  = Ok (Zlen (e_msg e), u16 (Zlen (e_msg e) + Zlen (e_sig e))).
Proof.
  intros Hm Hs. pose proof (Zlen_nonneg (e_msg e)).
  pose proof (Zlen_nonneg (e_sig e)). unfold readHeader.
  rewrite index_app_r by lia; simpl. rewrite index_app_0; simpl.
  rewrite index_app_r by lia; simpl. rewrite index_app_r by lia; simpl.
  by rewrite !uint16le_spec by lia.
Qed.

Lemma readHeader_at p e s :
  fits (e_msg e) (e_sig e) ->
  readHeader (p ++ encEntry e ++ s) (Zlen p)
  = Ok (Zlen (e_msg e), Zlen (e_msg e) + Zlen (e_sig e)).
Proof.
  unfold fits. intros Hf. pose proof (Zlen_nonneg (e_msg e)).
  pose proof (Zlen_nonneg (e_sig e)). rewrite readHeader_raw, u16_small by lia. done.
Qed.

Lemma readHeader_oversize p e s :
  Zlen (e_msg e) < 2 ^ 16 -> Zlen (e_sig e) < 2 ^ 16 ->
  2 ^ 16 <= Zlen (e_msg e) + Zlen (e_sig e) ->
  readHeader (p ++ encEntry e ++ s) (Zlen p)
  = Ok (Zlen (e_msg e), Zlen (e_msg e) + Zlen (e_sig e) - 2 ^ 16).
Proof.
  intros Hm Hs Ho. rewrite readHeader_raw by done. do 2 f_equal. unfold u16.
  rewrite <- (Z.mod_add _ (-1)) by lia. apply Z.mod_small. lia.
Qed.

Lemma Zlen_encEntry e : Zlen (encEntry e) = 4 + Zlen (e_msg e) + Zlen (e_sig e).
Proof. unfold encEntry. rewrite !Zlen_app. change (Zlen [_;_;_;_]) with 4. lia. Qed.

Lemma slice_msg p e s :
  slice (E:=string) (p ++ encEntry e ++ s) (Zlen p + 4) (Zlen p + 4 + Zlen (e_msg e))
  = Ok (e_msg e).
Proof.
  unfold encEntry. rewrite <- !app_assoc, !(app_assoc p).
  apply slice_mid; rewrite Zlen_app; change (Zlen [_;_;_;_]) with 4; lia.
Qed.

Lemma slice_sig p e s :
  slice (E:=string) (p ++ encEntry e ++ s) (Zlen p + 4 + Zlen (e_msg e))
    (Zlen p + 4 + (Zlen (e_msg e) + Zlen (e_sig e))) = Ok (e_sig e).
Proof.
  unfold encEntry. rewrite <- !app_assoc, !(app_assoc p), (app_assoc (p ++ _)).
  apply slice_mid; rewrite !Zlen_app; change (Zlen [_;_;_;_]) with 4; lia.
Qed.

(** The loop guard holds in front of a record and fails at the timestamp. *)
Lemma guard_record p e s :
  8 <= Zlen s -> (Zlen p <? Zlen (p ++ encEntry e ++ s) - 8) = true.
Proof.
  intros. rewrite !Zlen_app, Zlen_encEntry. apply Z.ltb_lt. len_lia.
Qed.

Lemma guard_end p ts : (Zlen p <? Zlen (p ++ timestampBytes ts) - 8) = false.
Proof. rewrite Zlen_app, timestampBytes_length. apply Z.ltb_ge. lia. Qed.

Lemma next_index p e :
  Zlen p + 4 + (Zlen (e_msg e) + Zlen (e_sig e)) - 1 + 1 = Zlen (p ++ encEntry e).
Proof. rewrite Zlen_app, Zlen_encEntry. lia. Qed.

Lemma encEntries_cons e es : encEntries (e :: es) = encEntry e ++ encEntries es.
Proof. done. Qed.

Lemma encEntries_app es1 es2 : encEntries (es1 ++ es2) = encEntries es1 ++ encEntries es2.
Proof. unfold encEntries. by rewrite fmap_app, concat_app. Qed.

Lemma encEntries_tail es ts : 8 <= Zlen (encEntries es ++ timestampBytes ts).
Proof. rewrite Zlen_app, timestampBytes_length. len_lia. Qed.

Lemma encEntries_length es : (4 * length es <= length (encEntries es))%nat.
Proof.
  induction es as [|e es IH]; [done|]. rewrite encEntries_cons, length_app.
  pose proof (Zlen_encEntry e). unfold Zlen in *. simpl. lia.
Qed.

Lemma value_fuel es ts : (length es < S (length (encValue es ts)))%nat.
Proof. unfold encValue. rewrite length_app. pose proof (encEntries_length es). lia. Qed.

Lemma buildRecord_enc e now :
  buildRecord (e_msg e) (e_sig e) now = encEntry e ++ timestampBytes now.
Proof. unfold buildRecord, encEntry. by rewrite <- !app_assoc. Qed.

(** ** The three walks over an encoded value *)
#[local] Opaque encEntry timestampBytes.

Section Walks.
Context `{L : MarketLib}.

(** One step of each loop at a record that decodes. *)
Ltac record_step Hd :=
  destruct Hd as [Hfits Hun];
  simpl; rewrite guard_record by apply encEntries_tail;
  rewrite readHeader_at by done; simpl; rewrite slice_msg; simpl; rewrite Hun; simpl.

Lemma holdersLoop_enc es ts : Forall decodes es -> forall p fuel users,
  (length es < fuel)%nat ->
  holdersLoop fuel (p ++ encEntries es ++ timestampBytes ts) (Zlen p) users
  = Ok (users ++ (e_user <$> es)).
Proof.
  induction 1 as [|e es Hd Hes IH]; intros p fuel users Hfuel;
    (destruct fuel as [|fuel]; [simpl in Hfuel; lia|]).
  - simpl. rewrite guard_end. by rewrite app_nil_r.
  - rewrite encEntries_cons, <- app_assoc. record_step Hd.
    rewrite next_index, app_assoc, IH by (simpl in Hfuel; lia).
    by rewrite <- app_assoc.
Qed.

Lemma recordExists_eq u id : Zlen u = Zlen id -> recordExists u id = true <-> u = id.
Proof.
  revert id; induction u as [|a u IH]; intros [|b id] Hlen; simpl;
    rewrite ?Zlen_cons, ?Zlen_nil in Hlen; try len_lia; try done.
  destruct (Z.eqb_spec a b) as [->|Hne]; simpl.
  - rewrite IH by len_lia. naive_solver.
  - naive_solver.
Qed.

Lemma same_id_spec u id :
  ((Zlen u =? Zlen id) && recordExists u id)%bool = bool_decide (u = id).
Proof.
  apply eq_true_iff_eq. rewrite andb_true_iff, Z.eqb_eq, bool_decide_eq_true.
  split; [intros [H1 H2]; by apply recordExists_eq in H2 | intros ->].
  split; [done | by apply recordExists_eq].
Qed.

Lemma removeLoop_enc id es ts : Forall decodes es -> forall p fuel,
  (length es < fuel)%nat ->
  removeLoop fuel id (p ++ encEntries es ++ timestampBytes ts) (Zlen p)
  = Ok (p ++ encEntries (withdraw id es) ++ timestampBytes ts).
Proof.
  induction 1 as [|e es Hd Hes IH]; intros p fuel Hfuel;
    (destruct fuel as [|fuel]; [simpl in Hfuel; lia|]).
  - simpl. by rewrite guard_end.
  - rewrite encEntries_cons, <- app_assoc. record_step Hd.
    rewrite same_id_spec. unfold e_id. case_bool_decide.
    + rewrite decide_True by done. rewrite slice_prefix by done. simpl.
      rewrite app_assoc, slice_suffix; [done| |];
        rewrite !Zlen_app, Zlen_encEntry; lia.
    + rewrite decide_False, encEntries_cons by done.
      rewrite next_index, app_assoc, IH by (simpl in Hfuel; lia).
      by rewrite <- !app_assoc.
Qed.

Lemma validateLoop_enc es ts : Forall decodes es ->
  Forall (fun e => authentic (e_msg e) (e_sig e) (e_id e)) es ->
  NoDup (e_id <$> es) ->
  forall p fuel seen, (length es < fuel)%nat -> (forall e, e ∈ es -> e_id e ∉ seen) ->
  validateLoop fuel (p ++ encEntries es ++ timestampBytes ts) (Zlen p) seen = Ok tt.
Proof.
  induction 1 as [|e es Hd Hes IH]; intros Hauth Hnd p fuel seen Hfuel Hseen;
    (destruct fuel as [|fuel]; [simpl in Hfuel; lia|]).
  - simpl. by rewrite guard_end.
  - rewrite list.Forall_cons in Hauth. destruct Hauth as [(pk & Hpk & Hver) Hauth].
    rewrite fmap_cons, list.NoDup_cons in Hnd. destruct Hnd as [Hni Hnd].
    rewrite encEntries_cons, <- app_assoc. record_step Hd.
    change (GetId (e_user e)) with (e_id e).
    rewrite decide_False by (apply (Hseen e); apply list_elem_of_here).
    rewrite Hpk; simpl. rewrite slice_sig; simpl. rewrite Hver; simpl.
    rewrite next_index, app_assoc. apply IH; [done|done|simpl in Hfuel; lia|].
    intros e' He' [Heq%elem_of_singleton | Hin]%elem_of_union.
    + apply Hni, list_elem_of_fmap. by exists e'.
    + by apply (Hseen e'); [apply list_elem_of_further|].
Qed.

Lemma suppliedTimeOf_enc es ts :
  0 <= ts < 2 ^ 64 -> suppliedTimeOf (encValue es ts) = Ok ts.
Proof.
  intros Hts. unfold suppliedTimeOf, encValue.
  rewrite slice_suffix; [by apply convert_timestampBytes| |];
    rewrite Zlen_app, timestampBytes_length; lia.
Qed.

(** ** Publishing keeps the registry well formed *)
Lemma withdraw_Forall (P : entry -> Prop) id es : Forall P es -> Forall P (withdraw id es).
Proof. induction 1; simpl; [constructor|]. case_decide; [done|by constructor]. Qed.

Lemma withdraw_sublist id es : withdraw id es `sublist_of` es.
Proof.
  induction es as [|e es IH]; simpl; [constructor|].
  case_decide; [by apply sublist_cons | by apply sublist_skip].
Qed.

Lemma withdraw_ids id es :
  NoDup (e_id <$> es) -> id ∉ (e_id <$> withdraw id es).
Proof.
  induction es as [|e es IH]; simpl; [intros _; apply not_elem_of_nil|].
  intros [Hni Hnd]%list.NoDup_cons. case_decide; [by subst|].
  simpl. rewrite not_elem_of_cons. naive_solver.
Qed.

Lemma publish_ok e es :
  registry_ok es -> decodes e -> authentic (e_msg e) (e_sig e) (e_id e) ->
  registry_ok (publish e es).
Proof.
  intros (Hd & Ha & Hnd) He Hae. unfold publish, registry_ok. split_and!.
  - apply list.Forall_app. split; [by apply withdraw_Forall|by apply Forall_singleton].
  - apply list.Forall_app. split; [by apply (withdraw_Forall (fun e => authentic _ _ _))|by apply Forall_singleton].
  - rewrite fmap_app. apply list.NoDup_app. split_and!.
    + eapply sublist_NoDup; [done|]. apply fmap_sublist, withdraw_sublist.
    + intros x Hx. simpl. rewrite list_elem_of_singleton. intros ->.
      by apply (withdraw_ids (e_id e) es).
    + simpl. apply NoDup_singleton.
Qed.

Lemma Validate_enc now key es ts :
  hexPattern (deleteAll marketPrefix 0 key) = true ->
  registry_ok es -> 0 <= ts <= u64 now ->
  Validate now key (encValue es ts) = Ok tt.
Proof.
  intros Hkey (Hd & Ha & Hnd) Hts. unfold Validate. rewrite Hkey. cbn [negb].
  pose proof (u64_range now).
  assert (Hloop : validateLoop (S (length (encValue es ts))) (encValue es ts) 0 ∅ = Ok tt)
    by (apply (validateLoop_enc es ts Hd Ha Hnd []); [apply value_fuel | set_solver]).
  rewrite Hloop.
  simpl. rewrite suppliedTimeOf_enc by lia. simpl.
  by rewrite (proj2 (Z.ltb_ge _ _)) by lia.
Qed.

End Walks.


(** ** Theorems of the market *)
Section Theorems.
Context `{L : MarketLib} `{D : DhtLib}.

(** The DHT holds registry [es]; an absent key is the empty registry. *)
Definition holds (d : DHT) (fileKey : string) (es : list entry) : Prop :=
  Forall decodes es /\
  ((exists ts, GetValue d (marketPrefix +:+ fileKey) = Ok (encValue es ts)) \/
   (es = [] /\ exists err, GetValue d (marketPrefix +:+ fileKey) = Err err)).

(** The entry a node's request stands for. *)
Definition own_entry (kp : KeyPair) (u : User) (id : list Z) (e : entry) : Prop :=
  e_user e = mkUser id (GetName u) (GetIp u) (GetPort u) (GetPrice u) /\
  proto_Marshal (e_user e) = Ok (e_msg e) /\
  priv_Sign kp (e_msg e) = Ok (e_sig e).

Lemma removeLoop_value id es ts :
  Forall decodes es ->
  removeLoop (S (length (encValue es ts))) id (encValue es ts) 0
  = Ok (encValue (withdraw id es) ts).
Proof. intros Hd. apply (removeLoop_enc id es ts Hd []), value_fuel. Qed.


Lemma encValue_publish e es ts now :
  exists body, encValue (withdraw (e_id e) es) ts = body ++ timestampBytes ts /\
    encValue (publish e es) now = body ++ encEntry e ++ timestampBytes now.
Proof.
  exists (encEntries (withdraw (e_id e) es)). split; [done|].
  unfold encValue, publish. rewrite encEntries_app, encEntries_cons, <- !app_assoc. done.
Qed.

Lemma RegisterFile_put kp now d req u id e es :
  pub_Raw kp = Ok id -> GetUser req = Some u ->
  own_entry kp u id e -> holds d (GetFileKey req) es ->
  RegisterFile kp now d req
  = PutValue d (marketPrefix +:+ GetFileKey req) (encValue (publish e es) (u64 now)).
Proof.
  intros Hraw Hreq Hown Hold.
  destruct Hown as (Hu & Hmsg & Hsig). destruct Hold as [Hd Hval].
  assert (Hid : e_id e = id) by (unfold e_id; by rewrite Hu).
  unfold RegisterFile. rewrite Hraw. cbn [mbind outcome_bind]. rewrite Hreq.
  rewrite <- Hu. change (GetId (e_user e)) with (e_id e).
  destruct Hval as [[ts ->] | [-> [err ->]]]; cbn [mbind outcome_bind].
  - rewrite removeLoop_value by done. cbn [mbind outcome_bind].
    rewrite Hmsg. cbn [mbind outcome_bind]. rewrite Hsig. cbn [mbind outcome_bind].
    destruct (encValue_publish e es ts (u64 now)) as (body & Hb & Hp).
    rewrite Hb, Hp, buildRecord_enc, Zlen_app, timestampBytes_length.
    destruct (Z.eqb_spec (Zlen body + 8) 0); [len_lia|]. cbn [negb].
    rewrite slice_prefix by lia. done.
  - change (removeLoop _ _ [] 0) with (@Ok string _ (@nil Z)). cbn [mbind outcome_bind].
    rewrite Hmsg. cbn [mbind outcome_bind]. rewrite Hsig. cbn [mbind outcome_bind].
    change (negb (Zlen [] =? 0)) with false. cbn [mbind outcome_bind].
    rewrite buildRecord_enc. unfold publish, encValue, encEntries. simpl.
    by rewrite app_nil_r.
Qed.

(** C33. [RegisterFile] stores under the market key exactly the registry with
    the node's previous record withdrawn, its new signed record appended and
    the timestamp of the call, whatever the earlier timestamp was. *)
Theorem RegisterFile_publishes kp now d req u id e es
    (Hraw : pub_Raw kp = Ok id) (Hreq : GetUser req = Some u)
    (Hown : own_entry kp u id e) (Hold : holds d (GetFileKey req) es) :
  RegisterFile kp now d req
  = PutValue d (marketPrefix +:+ GetFileKey req) (encValue (publish e es) (u64 now)).
Proof. by eapply RegisterFile_put. Qed.

Lemma own_entry_good kp `{!MarketLaws L kp} u id e :
  pub_Raw kp = Ok id -> own_entry kp u id e -> fits (e_msg e) (e_sig e) ->
  decodes e /\ authentic (e_msg e) (e_sig e) (e_id e).
Proof.
  intros Hraw (Hu & Hmsg & Hsig) Hf. split.
  - split; [done|]. by apply (unmarshal_marshal (kp := kp)).
  - unfold e_id. rewrite Hu. by apply (sign_verify (kp := kp)).
Qed.

Lemma deleteAll_hex k : allHex k = true -> deleteAll marketPrefix 0 k = k.
Proof.
  induction k as [|c k IH]; [done|]. cbn [allHex]. intros [Hc Hk]%andb_prop.
  cbn [deleteAll]. destruct (String.prefix marketPrefix (String c k)) eqn:Hp.
  - unfold marketPrefix in Hp. cbn [String.prefix] in Hp.
    by case_match; subst.
  - by rewrite IH.
Qed.

Lemma marketKey_hex k :
  hexPattern k = true -> hexPattern (deleteAll marketPrefix 0 (marketPrefix +:+ k)) = true.
Proof.
  intros Hk. assert (Hhex : allHex k = true) by (unfold hexPattern in Hk; apply andb_prop in Hk as [_ Hk]; exact Hk).
  destruct k as [|c k]; [done|].
  change (deleteAll marketPrefix 0 (marketPrefix +:+ String c k))
    with (deleteAll marketPrefix 0 (String c k)).
  by rewrite deleteAll_hex.
Qed.

(** C34. A node whose file key is a SHA-256 digest, registering against a
    well-formed registry, hands the DHT a value that every peer's validator
    accepts from then on, and the registry stays well formed (one verified
    record per owner). *)
Theorem RegisterFile_accepted kp `{!MarketLaws L kp} now now' d req u id e es
    (Hraw : pub_Raw kp = Ok id) (Hreq : GetUser req = Some u)
    (Hown : own_entry kp u id e) (Hfits : fits (e_msg e) (e_sig e))
    (Hold : holds d (GetFileKey req) es) (Hok : registry_ok es)
    (Hkey : hexPattern (GetFileKey req) = true)
    (Hclock : u64 now <= u64 now') :
  exists value,
    RegisterFile kp now d req = PutValue d (marketPrefix +:+ GetFileKey req) value /\
    Validate now' (marketPrefix +:+ GetFileKey req) value = Ok tt /\
    value = encValue (publish e es) (u64 now) /\ registry_ok (publish e es).
Proof.
  destruct (own_entry_good kp u id e) as [Hdec Hauth]; [done..|].
  assert (Hpub : registry_ok (publish e es)) by by apply publish_ok.
  eexists. split_and!; [by eapply RegisterFile_put | | done..].
  apply Validate_enc; [by apply marketKey_hex|done|]. pose proof (u64_range now). lia.
Qed.

Lemma CheckHolders_enc d k es ts :
  Forall decodes es -> GetValue d (marketPrefix +:+ k) = Ok (encValue es ts) ->
  CheckHolders d k = Ok (e_user <$> es).
Proof.
  intros Hd Hget. unfold CheckHolders. rewrite Hget.
  by apply (holdersLoop_enc es ts Hd []), value_fuel.
Qed.

(** After a successful [RegisterFile], [CheckHolders] on the same key
    lists the other holders in their old order, then the registering node
    with the price and address of this request. *)
Theorem CheckHolders_after_RegisterFile kp `{!MarketLaws L kp} `{!DhtLaws D} now d d' req u id e es
    (Hraw : pub_Raw kp = Ok id) (Hreq : GetUser req = Some u)
    (Hown : own_entry kp u id e) (Hfits : fits (e_msg e) (e_sig e))
    (Hold : holds d (GetFileKey req) es) (Hdone : RegisterFile kp now d req = Ok d') :
  CheckHolders d' (GetFileKey req)
  = Ok ((e_user <$> withdraw id es)
        ++ [mkUser id (GetName u) (GetIp u) (GetPort u) (GetPrice u)]).
Proof.
  destruct (own_entry_good kp u id e) as [Hdec _]; [done..|].
  rewrite (RegisterFile_put kp now d req u id e es) in Hdone by done.
  apply get_put in Hdone. destruct Hown as (Hu & _), Hold as [Hd _].
  assert (Hid : e_id e = id) by (unfold e_id; by rewrite Hu).
  rewrite (CheckHolders_enc _ _ (publish e es) (u64 now)); [|
    apply list.Forall_app; split; [by apply withdraw_Forall|by apply Forall_singleton] | done].
  unfold publish. by rewrite fmap_app, Hid, <- Hu.
Qed.

Definition verified (u : User) : Prop :=
  exists msg sig, proto_Unmarshal msg = Ok u /\ authentic msg sig (GetId u).

Lemma validateLoop_sound fuel value i seen users :
  validateLoop fuel value i seen = Ok tt ->
  exists us, holdersLoop fuel value i users = Ok (users ++ us) /\
    NoDup (GetId <$> us) /\ Forall verified us /\ Forall (fun u => GetId u ∉ seen) us.
Proof.
  revert i seen users; induction fuel as [|fuel IH]; intros i seen users; [done|].
  cbn [validateLoop holdersLoop]. destruct (i <? Zlen value - 8).
  2: { intros _. exists []. rewrite app_nil_r. by repeat constructor. }
  intros ([m c] & -> & H)%outcome_bind_ok. apply outcome_bind_ok in H as (msg & Hmsg & H).
  apply outcome_bind_ok in H as (u & Hu & H). case_decide as Hni; [done|].
  apply outcome_bind_ok in H as (msg' & Hmsg' & H). rewrite Hmsg in Hmsg'. injection Hmsg' as <-.
  apply outcome_bind_ok in H as (pk & Hpk & H). apply outcome_bind_ok in H as (sg & Hsg & H).
  apply outcome_bind_ok in H as ([] & Hver & H); [|done]. cbn [negb] in H.
  apply (IH _ _ (users ++ [u])) in H as (us & Hus & Hnd & Hvs & Hse).
  exists (u :: us). cbn [mbind outcome_bind]. rewrite Hmsg. cbn [mbind outcome_bind].
  rewrite Hu. cbn [mbind outcome_bind]. rewrite Hus, <- app_assoc. split_and!; [done| | |].
  - rewrite fmap_cons. apply list.NoDup_cons. split; [|done].
    intros (u' & Heq & Hin)%list_elem_of_fmap. rewrite list.Forall_forall in Hse.
    apply (Hse u' Hin). set_solver.
  - constructor; [|done]. exists msg, sg. split; [done|]. by exists pk.
  - constructor; [done|]. eapply list.Forall_impl; [exact Hse|]. set_solver.
Qed.

(** Soundness of the validator on arbitrary bytes: when [Validate] accepts
    a value, [CheckHolders] decodes it without error or panic, no two holders
    share a public key, and every holder is the decoding of a message whose
    signature verifies under that holder's own key. *)
Theorem Validate_sound now key d k value
    (Hval : Validate now key value = Ok tt)
    (Hget : GetValue d (marketPrefix +:+ k) = Ok value) :
  exists users, CheckHolders d k = Ok users /\ NoDup (GetId <$> users) /\
    Forall verified users.
Proof.
  unfold Validate in Hval. destruct (negb _); [done|].
  apply outcome_bind_ok in Hval as ([] & Hloop & _).
  destruct (validateLoop_sound _ _ _ _ [] Hloop) as (us & Hus & ? & ? & _).
  exists us. unfold CheckHolders. by rewrite Hget, Hus.
Qed.

(** The validator rejects a value by panicking, not by an error, when the
    value is shorter than its eight byte timestamp. *)
Theorem Validate_short_panics now key value
    (Hkey : hexPattern (deleteAll marketPrefix 0 key) = true) (Hshort : Zlen value < 8) :
  Validate now key value = Panic.
Proof.
  unfold Validate. rewrite Hkey. cbn [negb validateLoop].
  rewrite (proj2 (Z.ltb_ge _ _)) by lia. cbn [mbind outcome_bind].
  unfold suppliedTimeOf, slice. rewrite decide_False by lia. done.
Qed.

(** ** Termination of the walks *)
Context (unmarshal_total : forall b, proto_Unmarshal b <> Hang)
        (parse_total : forall b, UnmarshalRsaPublicKey b <> Hang)
        (verify_total : forall pk m s, Verify pk m s <> Hang).

Lemma slice_no_hang {A} (l : list A) lo hi : slice (E:=string) l lo hi <> Hang.
Proof. unfold slice. by case_decide. Qed.

Lemma readHeader_no_hang value i : readHeader value i <> Hang.
Proof.
  unfold readHeader. repeat (apply outcome_bind_hang; [|intros ? _]); try done;
    unfold index; case_decide; try done; by case_match.
Qed.

Lemma readHeader_content value i m c : readHeader value i = Ok (m, c) -> 0 <= c.
Proof.
  unfold readHeader. intros. inv_ok. simplify_eq. apply u16_range.
Qed.

Lemma validateLoop_no_hang fuel value i seen :
  0 < Z.of_nat fuel -> Zlen value - 8 - i < Z.of_nat fuel ->
  validateLoop fuel value i seen <> Hang.
Proof.
  revert i seen; induction fuel as [|fuel IH]; intros i seen Hf Hi; [lia|].
  cbn [validateLoop]. destruct (Z.ltb_spec i (Zlen value - 8)); [|done].
  apply outcome_bind_hang; [apply readHeader_no_hang|]. intros [m c] Hc%readHeader_content.
  apply outcome_bind_hang; [apply slice_no_hang|]. intros msg _.
  apply outcome_bind_hang; [apply unmarshal_total|]. intros u _. case_decide; [done|].
  repeat (apply outcome_bind_hang; [apply slice_no_hang || apply parse_total || apply verify_total|intros ? _]).
  case_match; [done|]. apply IH; lia.
Qed.

Lemma holdersLoop_no_hang fuel value i users :
  0 < Z.of_nat fuel -> Zlen value - 8 - i < Z.of_nat fuel ->
  holdersLoop fuel value i users <> Hang.
Proof.
  revert i users; induction fuel as [|fuel IH]; intros i users Hf Hi; [lia|].
  cbn [holdersLoop]. destruct (Z.ltb_spec i (Zlen value - 8)); [|done].
  apply outcome_bind_hang; [apply readHeader_no_hang|]. intros [m c] Hc%readHeader_content.
  apply outcome_bind_hang; [apply slice_no_hang|]. intros msg _.
  apply outcome_bind_hang; [apply unmarshal_total|]. intros u _. apply IH; lia.
Qed.

Lemma suppliedTimeOf_no_hang value : suppliedTimeOf value <> Hang.
Proof.
  apply outcome_bind_hang; [apply slice_no_hang|]. intros s _.
  unfold ConvertBytesTo64BitInt. generalize 7, 0. induction s as [|b s IH]; [done|].
  intros sh acc. cbn [convertLoop]. case_match; [done|]. apply IH.
Qed.

Lemma removeLoop_no_hang fuel id value i :
  0 < Z.of_nat fuel -> Zlen value - 8 - i < Z.of_nat fuel ->
  removeLoop fuel id value i <> Hang.
Proof.
  revert i; induction fuel as [|fuel IH]; intros i Hf Hi; [lia|].
  cbn [removeLoop]. destruct (Z.ltb_spec i (Zlen value - 8)); [|done].
  apply outcome_bind_hang; [apply readHeader_no_hang|]. intros [m c] Hc%readHeader_content.
  apply outcome_bind_hang; [apply slice_no_hang|]. intros msg _.
  apply outcome_bind_hang; [apply unmarshal_total|]. intros u _. case_match.
  - repeat (apply outcome_bind_hang; [apply slice_no_hang|intros ? _]). done.
  - apply IH; lia.
Qed.

Lemma start_fuel (value : list Z) : Zlen value - 8 - 0 < Z.of_nat (S (length value)).
Proof. unfold Zlen. lia. Qed.

(** On arbitrary bytes the three record walks terminate: each record
    header advances the index by at least four, so the fuel the entry points
    pass (one more than the number of bytes) is never exhausted. *)
Theorem market_walks_terminate now key value id :
  Validate now key value <> Hang /\
  removeLoop (S (length value)) id value 0 <> Hang /\
  holdersLoop (S (length value)) value 0 [] <> Hang.
Proof.
  pose proof (start_fuel value). split_and!.
  - unfold Validate. case_match; [done|].
    apply outcome_bind_hang; [by apply validateLoop_no_hang|]. intros _ _.
    apply outcome_bind_hang; [apply suppliedTimeOf_no_hang|]. intros t _. by case_match.
  - by apply removeLoop_no_hang.
  - by apply holdersLoop_no_hang.
Qed.

Lemma validateLoop_oversize fuel p e s seen pk :
  Zlen (e_msg e) < 2 ^ 16 -> Zlen (e_sig e) < 2 ^ 16 ->
  2 ^ 16 <= Zlen (e_msg e) + Zlen (e_sig e) -> 8 <= Zlen s ->
  proto_Unmarshal (e_msg e) = Ok (e_user e) -> e_id e ∉ seen ->
  UnmarshalRsaPublicKey (e_id e) = Ok pk ->
  validateLoop (S fuel) (p ++ encEntry e ++ s) (Zlen p) seen = Panic.
Proof.
  intros Hm Hs Hover Htail Hun Hni Hpk. cbn [validateLoop]. rewrite guard_record by done.
  rewrite readHeader_oversize by lia. cbn [mbind outcome_bind].
  rewrite slice_msg. cbn [mbind outcome_bind]. rewrite Hun. cbn [mbind outcome_bind].
  change (GetId (e_user e)) with (e_id e). rewrite decide_False by done.
  rewrite Hpk. cbn [mbind outcome_bind]. unfold slice at 1. rewrite decide_False by lia. done.
Qed.

(** uint16 overflow: a record whose message and signature each fit in
    sixteen bits but whose total length does not makes the validator slice
    backwards and panic. *)
Theorem Validate_oversize_panics now key e ts
    (Hkey : hexPattern (deleteAll marketPrefix 0 key) = true)
    (Hm : Zlen (e_msg e) < 2 ^ 16) (Hs : Zlen (e_sig e) < 2 ^ 16)
    (Hover : 2 ^ 16 <= Zlen (e_msg e) + Zlen (e_sig e))
    (Hun : proto_Unmarshal (e_msg e) = Ok (e_user e))
    (Hpk : returns (UnmarshalRsaPublicKey (e_id e))) :
  Validate now key (encValue [e] ts) = Panic.
Proof.
  destruct Hpk as [pk Hpk]. unfold Validate. rewrite Hkey. cbn [negb].
  assert (Hv : encValue [e] ts = [] ++ encEntry e ++ timestampBytes ts)
    by (unfold encValue, encEntries; simpl; by rewrite app_nil_r).
  rewrite Hv. change 0 with (Zlen (@nil Z)).
  by rewrite (validateLoop_oversize _ [] e _ ∅ pk).
Qed.

End Theorems.

(** ** Selection *)

(** [v] carries time [t]. *)
Definition timed (v : list Z) (t : Z) : Prop := suppliedTimeOf v = Ok t.

(** [v*] is at least as long and at least as late as every value of [vs]. *)
Definition dominates (l t : Z) (vs : list (list Z)) (ts : list Z) : Prop :=
  Forall (fun v => Zlen v <= l) vs /\ Forall (fun t' => t' <= t) ts.

Lemma dominates_cons l t v vs t0 ts :
  dominates l t (v :: vs) (t0 :: ts) -> Zlen v <= l /\ t0 <= t /\ dominates l t vs ts.
Proof. intros [H1 H2]. inversion_clear H1; inversion_clear H2. done. Qed.

Lemma dominates_lookup l t vs ts j v t0 :
  dominates l t vs ts -> vs !! j = Some v -> ts !! j = Some t0 -> Zlen v <= l /\ t0 <= t.
Proof.
  intros [H1 H2] Hv Ht. split.
  - exact (Forall_lookup_1 _ _ _ _ H1 Hv).
  - exact (Forall_lookup_1 _ _ _ _ H2 Ht).
Qed.

Lemma selectLoop_spec rest : forall ts i max latest mi,
  Forall2 timed rest ts ->
  exists k m' t', selectLoop rest i max latest mi = Ok k /\ max <= m' /\ latest <= t' /\
    ((k = mi /\ m' = max /\ t' = latest) \/
     (exists j v, k = i + Z.of_nat j /\ rest !! j = Some v /\ Zlen v = m' /\ ts !! j = Some t')) /\
    (forall j v t, rest !! j = Some v -> ts !! j = Some t ->
       max <= Zlen v -> latest <= t -> dominates (Zlen v) t rest ts ->
       m' = Zlen v /\ t' = t).
Proof.
  induction rest as [|v rest IH]; intros ts i max latest mi Hts.
  - apply Forall2_nil_inv_l in Hts as ->. exists mi, max, latest. naive_solver lia.
  - apply Forall2_cons_inv_l in Hts as (t & ts' & Ht & Hts & ->).
    cbn [selectLoop]. rewrite Ht. cbn [mbind outcome_bind].
    set (b := ((max <=? Zlen v) && (latest <=? t))%bool).
    set (m1 := if b then Zlen v else max). set (t1 := if b then t else latest).
    set (k1 := if b then i else mi).
    replace (if max <=? Zlen v then _ else _) with (selectLoop rest (i + 1) m1 t1 k1)
      by (unfold m1, t1, k1, b; by repeat case_match).
    destruct (IH ts' (i + 1) m1 t1 k1 Hts) as (k & m' & t' & Hk & Hm & Hl & Hwin & Hdom).
    assert (Hb : b = true /\ max <= Zlen v /\ latest <= t \/
                 b = false /\ (Zlen v < max \/ t < latest)).
    { unfold b. destruct (Z.leb_spec max (Zlen v)), (Z.leb_spec latest t); simpl; lia. }
    assert (max <= m1 /\ latest <= t1) by (unfold m1, t1; destruct Hb as [[-> ?]|[-> ?]]; lia).
    exists k, m', t'. split_and!; [done|lia|lia| |].
    + destruct Hwin as [(-> & -> & ->) | (j & w & -> & Hj & Hw & Htj)].
      * unfold k1, m1, t1. destruct b; [|by left]. right. exists O, v. simpl. split_and!; [lia|done..].
      * right. exists (S j), w. split_and!; [lia|done..].
    + intros [|j] w tw Hw Htw Hmw Hlw (Hvl & Hvt & Hd)%dominates_cons;
        simpl in Hw, Htw; simplify_eq.
      * destruct Hb as [[Hb _]|[_ ?]]; [|lia]. unfold m1, t1 in Hm, Hl. rewrite Hb in Hm, Hl.
        destruct Hwin as [(-> & -> & ->) | (j & w' & -> & Hj & Hw' & Htj)].
        { unfold m1, t1. by rewrite Hb. }
        pose proof (dominates_lookup _ _ _ _ _ _ _ Hd Hj Htj). lia.
      * apply (Hdom j w tw); [done|done| | |done];
          unfold m1, t1; destruct b; lia.
Qed.

(** [Select] on timed values returns an index in range, of a value at
    least as long and as late as the first one; and when some value is both
    the longest and the latest of all, the chosen value has that length and
    that time. *)
Theorem Select_spec vs ts (Hne : vs <> []) (Hts : Forall2 timed vs ts) :
  exists k v t, Select vs = Ok (Z.of_nat k) /\ vs !! k = Some v /\ ts !! k = Some t /\
    (forall v0 t0, vs !! 0%nat = Some v0 -> ts !! 0%nat = Some t0 -> Zlen v0 <= Zlen v /\ t0 <= t) /\
    (forall j vj tj, vs !! j = Some vj -> ts !! j = Some tj ->
       dominates (Zlen vj) tj vs ts -> Zlen v = Zlen vj /\ t = tj).
Proof.
  destruct vs as [|v0 rest]; [done|].
  apply Forall2_cons_inv_l in Hts as (t0 & ts' & Ht0 & Hts & ->).
  unfold Select. rewrite Ht0. cbn [mbind outcome_bind].
  destruct (selectLoop_spec rest ts' 1 (Zlen v0) t0 0 Hts) as (k & m' & t' & -> & Hm & Hl & Hwin & Hdom).
  destruct Hwin as [(-> & -> & ->) | (j & v & -> & Hj & <- & Htj)].
  - exists O, v0, t0. split_and!; [done..|naive_solver lia|].
    intros [|j] vj tj Hvj Htj (Hl0 & Ht0' & Hd)%dominates_cons; simpl in Hvj, Htj; [naive_solver|].
    by apply (Hdom j vj tj).
  - exists (S j), v, t'. split_and!; [f_equal; lia|done..|naive_solver lia|].
    intros [|i] vi ti Hvi Hti (Hl0 & Ht0' & Hd)%dominates_cons; simpl in Hvi, Hti.
    + simplify_eq. pose proof (dominates_lookup _ _ _ _ _ _ _ Hd Hj Htj). lia.
    + by apply (Hdom i vi ti).
Qed.

(** The longest value is not selected when an earlier, shorter one carries a
    later time: the choice depends on the order of the candidates. *)
Example Select_not_longest :
  Select [timestampBytes 10; 7 :: timestampBytes 5] = Ok 0.
Proof. vm_compute. reflexivity. Qed.

(** ** Witnesses: a concrete library, key pair and store *)
Module Toy.

(** Users with no name and address, encoded as the price followed by the id. *)
#[export] Instance toyLib : MarketLib := {|
  PubKey := list Z;
  proto_Marshal u :=
    if decide (u = mkUser (GetId u) "" "" 0 (GetPrice u)) then Ok (GetPrice u :: GetId u)
    else Err "proto: field contains invalid UTF-8"%string;
  proto_Unmarshal b :=
    match b with
    | p :: id => Ok (mkUser id "" "" 0 p)
    | [] => Err "proto: cannot parse invalid wire-format data"%string
    end;
  UnmarshalRsaPublicKey id := Ok id;
  Verify pk m s := Ok (bool_decide (s = pk ++ m));
|}.

Definition kp : KeyPair := mkKeyPair (Ok [1; 2]) (fun m => Ok ([1; 2] ++ m)).

#[export] Instance toyDht : DhtLib := {|
  DHT := gmap string (list Z);
  GetValue d k := match d !! k with Some v => Ok v | None => Err "routing: not found"%string end;
  PutValue d k v := Ok (<[k := v]> d);
|}.

#[export] Instance toyLaws : MarketLaws toyLib kp.
Proof.
  split; simpl.
  - intros u b. case_decide as Hu; [|done]. intros [= <-]. by rewrite Hu.
  - intros id m s [= <-] [= <-]. exists [1; 2]. split; [done|]. by rewrite bool_decide_true.
Qed.

#[export] Instance toyDhtLaws : DhtLaws toyDht.
Proof. split. intros d k v d' [= <-]. simpl. by rewrite lookup_insert_eq. Qed.

Definition fileKey : string :=
  "00112233445566778899aabbccddeeff00112233445566778899AABBCCDDEEFF".

(** Another holder, an older record of the node itself, and the new one. *)
Definition other : entry := mkEntry [9; 5; 6] [5; 6; 9; 5; 6] (mkUser [5; 6] "" "" 0 9).
Definition old : entry := mkEntry [3; 1; 2] [1; 2; 3; 1; 2] (mkUser [1; 2] "" "" 0 3).
Definition new : entry := mkEntry [4; 1; 2] [1; 2; 4; 1; 2] (mkUser [1; 2] "" "" 0 4).
Definition u : User := mkUser [] "" "" 0 4.
Definition req : RegisterFileRequest := mkRegisterFileRequest (Some u) fileKey.
Definition d : gmap string (list Z) := {[ marketPrefix +:+ fileKey := encValue [old; other] 77 ]}.

Lemma holds_d : holds (D := toyDht) d fileKey [old; other].
Proof. split; [by repeat constructor|]. left. by exists 77. Qed.

Lemma registry_d : registry_ok [old; other].
Proof.
  split_and!; [by repeat constructor| |].
  - repeat constructor; eexists; (split; [reflexivity|]); vm_compute; reflexivity.
  - apply (bool_decide_unpack _). vm_compute. exact I.
Qed.

Lemma RegisterFile_publishes_witness :
  RegisterFile (D := toyDht) kp 80 d req
  = Ok (<[marketPrefix +:+ fileKey := encValue [other; new] 80]> d).
Proof.
  exact (RegisterFile_publishes (D := toyDht) kp 80 d req u [1; 2] new [old; other]
           eq_refl eq_refl (conj eq_refl (conj eq_refl eq_refl)) holds_d).
Defined.

Lemma RegisterFile_accepted_witness :
  exists value, RegisterFile (D := toyDht) kp 80 d req = PutValue (DhtLib := toyDht) d (marketPrefix +:+ fileKey) value /\
    Validate 90 (marketPrefix +:+ fileKey) value = Ok tt /\
    value = encValue (publish new [old; other]) (u64 80) /\ registry_ok (publish new [old; other]).
Proof.
  apply (RegisterFile_accepted (D := toyDht) kp 80 90 d req u [1; 2] new [old; other]);
    [reflexivity|reflexivity|exact (conj eq_refl (conj eq_refl eq_refl))|reflexivity
    |exact holds_d|exact registry_d|vm_compute; reflexivity|vm_compute; discriminate].
Defined.

Lemma CheckHolders_after_RegisterFile_witness :
  CheckHolders (D := toyDht) (<[marketPrefix +:+ fileKey := encValue [other; new] 80]> d) fileKey
  = Ok [mkUser [5; 6] "" "" 0 9; mkUser [1; 2] "" "" 0 4].
Proof.
  apply (CheckHolders_after_RegisterFile (D := toyDht) kp 80 d _ req u [1; 2] new [old; other]);
    [reflexivity|reflexivity|exact (conj eq_refl (conj eq_refl eq_refl))|reflexivity
    |exact holds_d|exact RegisterFile_publishes_witness].
Defined.

Lemma Validate_sound_witness :
  exists users, CheckHolders (D := toyDht) d fileKey = Ok users /\ NoDup (GetId <$> users) /\
    Forall verified users.
Proof.
  apply (Validate_sound (D := toyDht) 90 (marketPrefix +:+ fileKey) d fileKey (encValue [old; other] 77));
    vm_compute; reflexivity.
Defined.

Lemma market_walks_terminate_witness :
  Validate 90 "k" [1; 2; 3] <> Hang /\
  removeLoop 4 [7] [1; 2; 3] 0 <> Hang /\ holdersLoop 4 [1; 2; 3] 0 [] <> Hang.
Proof.
  apply (market_walks_terminate (L := toyLib)).
  - intros [|p id]; discriminate.
  - discriminate.
  - discriminate.
Defined.

Lemma Validate_short_panics_witness : Validate 90 (marketPrefix +:+ fileKey) [1; 2; 3] = Panic.
Proof. apply Validate_short_panics; [vm_compute; reflexivity | vm_compute; reflexivity]. Defined.

(** A 40000 byte message and a 30000 byte signature. *)
Definition big : entry :=
  mkEntry (3 :: replicate (Z.to_nat 39999) 7) (replicate (Z.to_nat 30000) 0)
    (mkUser (replicate (Z.to_nat 39999) 7) "" "" 0 3).

Lemma Validate_oversize_panics_witness :
  Validate 90 (marketPrefix +:+ fileKey) (encValue [big] 77) = Panic.
Proof.
  apply Validate_oversize_panics;
    [vm_compute; reflexivity|vm_compute; reflexivity|vm_compute; reflexivity
    |vm_compute; discriminate|reflexivity|by eexists].
Defined.

Lemma Select_spec_witness :
  exists k v t, Select [timestampBytes 10; 7 :: timestampBytes 12] = Ok (Z.of_nat k) /\
    [timestampBytes 10; 7 :: timestampBytes 12] !! k = Some v /\ [10; 12] !! k = Some t /\
    (forall v0 t0, Some (timestampBytes 10) = Some v0 -> Some 10 = Some t0 -> Zlen v0 <= Zlen v /\ t0 <= t) /\
    (forall j vj tj, [timestampBytes 10; 7 :: timestampBytes 12] !! j = Some vj -> [10; 12] !! j = Some tj ->
       dominates (Zlen vj) tj [timestampBytes 10; 7 :: timestampBytes 12] [10; 12] ->
       Zlen v = Zlen vj /\ t = tj).
Proof.
  apply (Select_spec [timestampBytes 10; 7 :: timestampBytes 12] [10; 12]); [discriminate|].
  repeat constructor; vm_compute; reflexivity.
Defined.

End Toy.

End Market.
