(* ===== verification/Jobs.v ===== *)
(** * The download job manager and its HTTP handlers

    Models peer/internal/jobs/job.go, peer/internal/jobs/api.go and the job
    part of peer/internal/server/server.go.  The global [Manager] is a record
    passed from call to call (every operation runs under its mutex), the
    history file is the state of the disk, and a handler maps the manager and
    a decoded request to the new manager and the HTTP response. *)

From S2P Require Import Prelude.

Module Jobs.

(** ** Data *)
Record Job := mkJob {
  FileHash : string;
  JobId : string;
  TimeQueued : string;
  Status : string;
  AccumulatedCost : Z;
  ProjectedCost : Z;
  ETA : Z;
  PeerId : string;
}.

#[export] Instance Job_eq_dec : EqDecision Job.
Proof. solve_decision. Defined.

Record JobManager := mkManager {
  JobList : list Job;
  Changed : bool;
}.

Definition setStatus (s : string) (j : Job) : Job :=
  mkJob (FileHash j) (JobId j) (TimeQueued j) s (AccumulatedCost j) (ProjectedCost j) (ETA j) (PeerId j).

(** AccumulatedCost += additionalCost, on Go's 64-bit int. *)
Definition addCost (c : Z) (j : Job) : Job :=
  mkJob (FileHash j) (JobId j) (TimeQueued j) (Status j) (i64 (AccumulatedCost j + c))
    (ProjectedCost j) (ETA j) (PeerId j).

(** The loop shared by the updates: the first job with the id is changed in
    place; [None] when the range ends without a match. *)
Fixpoint updateFirst (jobId : string) (f : Job -> Job) (jobs : list Job) : option (list Job) :=
  match jobs with
  | [] => None
  | job :: jobs =>
      if decide (JobId job = jobId) then Some (f job :: jobs)
      else cons job <$> updateFirst jobId f jobs
  end.

(** ** Operations of job.go; [None] is the nil error *)
Definition AddJob (job : Job) (m : JobManager) : JobManager :=
  mkManager (JobList m ++ [job]) true.

Fixpoint removeFirst (jobId : string) (jobs : list Job) : option (list Job) :=
  match jobs with
  | [] => None
  | job :: jobs =>
      if decide (JobId job = jobId) then Some jobs
      else cons job <$> removeFirst jobId jobs
  end.

Definition RemoveFromHistory (jobId : string) (m : JobManager) : JobManager * option string :=
  match removeFirst jobId (JobList m) with
  | Some jobs => (mkManager jobs true, None)
  | None => (m, Some "unable to find job that matches jobID"%string)
  end.

(** The new slice and the flag, set once per kept job. *)
Fixpoint clearLoop (jobs newJobs : list Job) (changed : bool) : list Job * bool :=
  match jobs with
  | [] => (newJobs, changed)
  | job :: jobs =>
      if decide (Status job <> "completed"%string)
      then clearLoop jobs (newJobs ++ [job]) true
      else clearLoop jobs newJobs changed
  end.

Definition ClearHistory (m : JobManager) : JobManager :=
  let '(newJobs, changed) := clearLoop (JobList m) [] (Changed m) in
  mkManager newJobs changed.

Definition changeStatus (s jobId : string) (m : JobManager) : JobManager * option string :=
  match updateFirst jobId (setStatus s) (JobList m) with
  | Some jobs => (mkManager jobs true, None)
  | None => (m, Some ("Unable to find jobId: " +:+ jobId)%string)
  end.

Definition TerminateJob : string -> JobManager -> JobManager * option string :=
  changeStatus "terminated".
Definition PauseJob : string -> JobManager -> JobManager * option string :=
  changeStatus "paused".
Definition StartJob : string -> JobManager -> JobManager * option string :=
  changeStatus "active".

Fixpoint findFirst (jobId : string) (jobs : list Job) : option Job :=
  match jobs with
  | [] => None
  | job :: jobs => if decide (JobId job = jobId) then Some job else findFirst jobId jobs
  end.

Definition FindJob (jobId : string) (m : JobManager) : Job + string :=
  match findFirst jobId (JobList m) with
  | Some job => inl job
  | None => inr "unable to find job with specified jobId"%string
  end.

(** ** Operations of api.go *)
Definition UpdateJobStatus (jobId status : string) (m : JobManager) : JobManager :=
  match updateFirst jobId (setStatus status) (JobList m) with
  | Some jobs => mkManager jobs true
  | None => m
  end.

Definition GetJobStatus (jobId : string) (m : JobManager) : string :=
  match findFirst jobId (JobList m) with
  | Some job => Status job
  | None => ""
  end.

Definition UpdateJobCost (jobId : string) (additionalCost : Z) (m : JobManager) : JobManager :=
  match updateFirst jobId (addCost additionalCost) (JobList m) with
  | Some jobs => mkManager jobs true
  | None => m
  end.

(** ** The history file *)

(** What the file system and the encoder answer during one save: an encoding
    error, or a failed write that leaves [torn] in the file. *)
Inductive saveResult :=
| SaveOk
| EncodeFailed (e : string)
| WriteFailed (e : string) (torn : option (list Job)).

(** [SaveHistory]: the flag is cleared before the file is written. *)
Definition SaveHistory (r : saveResult) (m : JobManager) (disk : option (list Job))
    : JobManager * option (list Job) * option string :=
  let m := mkManager (JobList m) false in
  match r with
  | SaveOk => (m, Some (JobList m), None)
  | EncodeFailed e => (m, disk, Some e)
  | WriteFailed e torn => (m, torn, Some e)
  end.

(** [LoadHistory]: [None] on disk is a missing or undecodable file. *)
Definition LoadHistory (disk : option (list Job)) : list Job + string :=
  match disk with
  | Some jobs => inl jobs
  | None => inr "open ./internal/jobs/jobs.json: no such file or directory"%string
  end.

Definition InitialManager : JobManager := mkManager [] false.

(** One round of the loop of [InitPeriodicJobSave]. *)
Definition saveTick (r : saveResult) (m : JobManager) (disk : option (list Job))
    : JobManager * option (list Job) :=
  if Changed m then let '(m, disk, _) := SaveHistory r m disk in (m, disk) else (m, disk).

(** ** HTTP responses *)

(** What a handler hands to json.Marshal. *)
Inductive jsonValue :=
| JStatus (message : string)
| JJob (j : Job)
| JJobs (js : list Job)
| JNilJobs
| JJobId (id : string).

(** An http.ResponseWriter: the first status code wins, headers set after it
    are not sent, a body write implies 200. *)
Record Response := mkResponse {
  code : option Z;
  ctypeJson : bool;
  body : list string;
}.

Definition noResponse : Response := mkResponse None false [].

Definition WriteHeader (c : Z) (w : Response) : Response :=
  match code w with
  | Some _ => w
  | None => mkResponse (Some c) (ctypeJson w) (body w)
  end.

Definition SetJsonHeader (w : Response) : Response :=
  match code w with
  | Some _ => w
  | None => mkResponse None true (body w)
  end.

Definition Write (s : string) (w : Response) : Response :=
  let w := WriteHeader 200 w in mkResponse (code w) (ctypeJson w) (body w ++ [s]).

Section Handlers.
(** json.Marshal. *)
Context (json_Marshal : jsonValue -> outcome string string).

Definition writeStatusUpdate (message : string) (w : Response) : Response :=
  match json_Marshal (JStatus message) with
  | Ok s => Write s (SetJsonHeader w)
  | _ => w
  end.

Definition badPayload : string :=
  "Cannot marshal payload in Go object. Does the payload have the correct body structure?".

(** The replies shared by the handlers. *)
Definition reply (c : Z) (message : string) : Response :=
  writeStatusUpdate message (WriteHeader c noResponse).

Definition replyJson (v : jsonValue) (w : Response) : Response :=
  match json_Marshal v with
  | Ok s => Write s (WriteHeader 200 (SetJsonHeader w))
  | _ => writeStatusUpdate "Failed to convert JSON Data into a string" (WriteHeader 500 w)
  end.

Definition RemoveFromHistoryHandler (method : string) (payload : outcome string string)
    (m : JobManager) : JobManager * Response :=
  if decide (method = "PATCH"%string) then
    match payload with
    | Ok jobId =>
        let '(m, err) := RemoveFromHistory jobId m in
        match err with
        | Some e => (m, reply 400 e)
        | None => (m, reply 200 "success")
        end
    | _ => (m, reply 400 badPayload)
    end
  else (m, reply 405 "Only PATCH requests will be handled.").

Definition ClearHistoryHandler (method : string) (m : JobManager) : JobManager * Response :=
  if decide (method = "PATCH"%string)
  then (ClearHistory m, WriteHeader 200 (SetJsonHeader noResponse))
  else (m, reply 405 "Only PATCH requests will be handled.").

Definition JobInfoHandler (method jobId : string) (m : JobManager) : Response :=
  if decide (method = "GET"%string) then
    match FindJob jobId m with
    | inr e => reply 400 e
    | inl job => replyJson (JJob job) noResponse
    end
  else reply 405 "Only GET requests will be handled.".

(** The loop of the three status handlers: an unknown id writes an error and
    the loop goes on. *)
Fixpoint statusLoop (op : string -> JobManager -> JobManager * option string)
    (jobIds : list string) (m : JobManager) (w : Response) : JobManager * Response :=
  match jobIds with
  | [] => (m, w)
  | jobId :: jobIds =>
      let '(m, err) := op jobId m in
      match err with
      | Some e => statusLoop op jobIds m (writeStatusUpdate e (WriteHeader 400 w))
      | None => statusLoop op jobIds m w
      end
  end.

Definition statusHandler (op : string -> JobManager -> JobManager * option string)
    (method : string) (payload : outcome string (list string)) (m : JobManager)
    : JobManager * Response :=
  if decide (method = "PATCH"%string) then
    match payload with
    | Ok jobIds =>
        let '(m, w) := statusLoop op jobIds m noResponse in
        (m, writeStatusUpdate "Successfully added job." (WriteHeader 200 w))
    | _ => (m, reply 400 badPayload)
    end
  else (m, reply 405 "Only PATCH requests will be handled.").

Definition StartJobsHandler := statusHandler StartJob.
Definition PauseJobsHandler := statusHandler PauseJob.
Definition TerminateJobsHandler := statusHandler TerminateJob.

Definition JobListHandler (method : string) (m : JobManager) : Response :=
  if decide (method = "GET"%string) then replyJson (JJobs (JobList m)) noResponse
  else reply 405 "Only GET requests will be handled.".

Definition GetHistoryHandler (method : string) (disk : option (list Job)) : Response :=
  if decide (method = "GET"%string) then
    match LoadHistory disk with
    | inl histories => replyJson (JJobs histories) noResponse
    | inr _ => replyJson JNilJobs (reply 500 "Unable to read all histories")
    end
  else reply 405 "Only GET requests will be handled.".

(** [AddJobHandler] without the download goroutine it starts; [id] is the
    fresh uuid and [timeString] the formatted clock. *)
Definition AddJobHandler (method id timeString : string)
    (payload : outcome string (string * string)) (m : JobManager) : JobManager * Response :=
  if decide (method = "PUT"%string) then
    match payload with
    | Ok (fileHash, peerId) =>
        let newJob := mkJob fileHash id timeString "active" 0 (-1) (-1) peerId in
        let m := AddJob newJob m in
        let w := WriteHeader 200 noResponse in
        (m, replyJson (JJobId id) w)
    | _ => (m, reply 400 badPayload)
    end
  else (m, reply 405 "Only PUT requests will be handled.").

End Handlers.

(** ** Lemmas on the loops *)

Definition ids (jobs : list Job) : list string := JobId <$> jobs.

Lemma not_in_ids_cons id j l : id ∉ ids (j :: l) <-> id <> JobId j /\ id ∉ ids l.
Proof. unfold ids. by rewrite fmap_cons, not_elem_of_cons. Qed.

Lemma updateFirst_split jobId f jobs :
  match updateFirst jobId f jobs with
  | Some jobs' => exists pre j post, jobs = (pre ++ j :: post) /\ JobId j = jobId /\
      (jobId ∉ ids pre) /\ jobs' = (pre ++ f j :: post)
  | None => jobId ∉ ids jobs
  end.
Proof.
  induction jobs as [|job jobs IH]; simpl; [apply not_elem_of_nil|].
  case_decide as Hid.
  - exists [], job, jobs. split_and!; [done|done|apply not_elem_of_nil|done].
  - destruct (updateFirst jobId f jobs) as [jobs'|]; simpl.
    + destruct IH as (pre & j & post & -> & Hj & Hni & ->).
      exists (job :: pre), j, post. split_and!; [done|done| |done].
      apply not_in_ids_cons. split; [congruence|done].
    + apply not_in_ids_cons. split; [congruence|done].
Qed.

Lemma updateFirst_known jobId f jobs :
  jobId ∈ ids jobs <-> is_Some (updateFirst jobId f jobs).
Proof.
  pose proof (updateFirst_split jobId f jobs) as H.
  destruct (updateFirst jobId f jobs) as [jobs'|]; split; try by eauto.
  intros _. destruct H as (pre & j & post & -> & <- & _). unfold ids. set_solver.
Qed.

Lemma updateFirst_ids jobId f jobs jobs' :
  (forall j, JobId (f j) = JobId j) -> updateFirst jobId f jobs = Some jobs' -> ids jobs' = ids jobs.
Proof.
  intros Hf Hu. pose proof (updateFirst_split jobId f jobs) as H. rewrite Hu in H.
  destruct H as (pre & j & post & -> & _ & _ & ->). unfold ids.
  by rewrite !fmap_app, !fmap_cons, Hf.
Qed.

Lemma findFirst_app id pre l :
  id ∉ ids pre -> findFirst id (pre ++ l) = findFirst id l.
Proof.
  induction pre as [|p pre IH]; [done|]. rewrite not_in_ids_cons. intros [Hne Hni]. simpl. by rewrite decide_False, IH by congruence.
Qed.

Lemma findFirst_None id l : id ∉ ids l -> findFirst id l = None.
Proof. intros H. rewrite <- (app_nil_r l). by rewrite findFirst_app. Qed.

Lemma findFirst_Some id l : id ∈ ids l -> is_Some (findFirst id l).
Proof.
  induction l as [|j l IH]; unfold ids; [by intros ?%elem_of_nil|].
  rewrite fmap_cons, elem_of_cons. simpl. case_decide; [eauto|]. naive_solver.
Qed.

Lemma findFirst_id id l j : findFirst id l = Some j -> JobId j = id.
Proof. induction l; simpl; [done|]. case_decide; naive_solver. Qed.

(** Looking a job up after an update: the updated job under its own id, and
    every other id as before. *)
Lemma findFirst_update id f jobs jobs' id' :
  (forall j, JobId (f j) = JobId j) -> updateFirst id f jobs = Some jobs' ->
  findFirst id' jobs' = if decide (id' = id) then f <$> findFirst id jobs else findFirst id' jobs.
Proof.
  intros Hf. revert jobs'. induction jobs as [|job jobs IH]; intros jobs'; simpl; [done|].
  destruct (decide (JobId job = id)) as [Hid|Hid].
  - intros [= <-]. simpl. rewrite Hf. repeat case_decide; try congruence; done.
  - intros (l & Hl & ->)%fmap_Some. simpl. specialize (IH l Hl). rewrite IH.
    repeat case_decide; try congruence; done.
Qed.

Lemma removeFirst_split jobId jobs :
  match removeFirst jobId jobs with
  | Some jobs' => exists pre j post, jobs = (pre ++ j :: post) /\ JobId j = jobId /\
      (jobId ∉ ids pre) /\ jobs' = (pre ++ post)
  | None => jobId ∉ ids jobs
  end.
Proof.
  induction jobs as [|job jobs IH]; simpl; [apply not_elem_of_nil|].
  case_decide as Hid.
  - exists [], job, jobs. split_and!; [done|done|apply not_elem_of_nil|done].
  - destruct (removeFirst jobId jobs) as [jobs'|]; simpl.
    + destruct IH as (pre & j & post & -> & Hj & Hni & ->).
      exists (job :: pre), j, post. split_and!; [done|done| |done].
      apply not_in_ids_cons. split; [congruence|done].
    + apply not_in_ids_cons. split; [congruence|done].
Qed.

Lemma clearLoop_spec jobs acc c :
  clearLoop jobs acc c
  = (acc ++ filter (fun j => Status j <> "completed"%string) jobs,
     c || bool_decide (filter (fun j => Status j <> "completed"%string) jobs <> [])).
Proof.
  revert acc c; induction jobs as [|j jobs IH]; intros acc c; simpl.
  - by rewrite app_nil_r, orb_false_r.
  - rewrite filter_cons. case_decide; rewrite IH; [|done].
    rewrite <- app_assoc, orb_true_l. simpl. f_equal.
    by rewrite orb_true_r.
Qed.

(** ** Operations as a transition system *)
Inductive op :=
| OAdd (j : Job)
| ORemove (jobId : string)
| OClear
| OStart (jobId : string)
| OPause (jobId : string)
| OTerminate (jobId : string)
| OStatus (jobId status : string)
| OCost (jobId : string) (c : Z).

Definition run (o : op) (m : JobManager) : JobManager :=
  match o with
  | OAdd j => AddJob j m
  | ORemove id => fst (RemoveFromHistory id m)
  | OClear => ClearHistory m
  | OStart id => fst (StartJob id m)
  | OPause id => fst (PauseJob id m)
  | OTerminate id => fst (TerminateJob id m)
  | OStatus id s => UpdateJobStatus id s m
  | OCost id c => UpdateJobCost id c m
  end.

(** The manager and the history file. *)
Record Sys := mkSys { mgr : JobManager; disk : option (list Job) }.

(** A clear that empties the list without setting the flag. *)
Definition silent_clear (m : JobManager) : Prop :=
  JobList m <> [] /\ Forall (fun j => Status j = "completed"%string) (JobList m).

(** An operation, or a round of the loop that saves, with what the file
    system answers. *)
Inductive event := EOp (o : op) | ESave (r : saveResult).
Definition event_step (e : event) (s : Sys) : Sys :=
  match e with
  | EOp o => mkSys (run o (mgr s)) (disk s)
  | ESave r => let '(m, d) := saveTick r (mgr s) (disk s) in mkSys m d
  end.
(** The program starts with an empty list, whatever is in the file. *)
Definition started (file : option (list Job)) : Sys := mkSys InitialManager file.
Definition runs (es : list event) (s : Sys) : Sys := foldl (fun s e => event_step e s) s es.

(** The events after which the file and the list differ with no save
    pending: a save that fails, and a silent clear. *)
Definition loses (e : event) (s : Sys) : Prop :=
  match e with
  | EOp OClear => silent_clear (mgr s) /\ Changed (mgr s) = false
  | EOp _ => False
  | ESave r => Changed (mgr s) = true /\ r <> SaveOk
  end.

Lemma run_flag o m :
  (o = OClear -> ~ silent_clear m) ->
  Changed (run o m) = true \/ JobList (run o m) = JobList m /\ Changed (run o m) = Changed m.
Proof.
  intros Hc. destruct o; simpl;
    unfold RemoveFromHistory, StartJob, PauseJob, TerminateJob, changeStatus,
      UpdateJobStatus, UpdateJobCost;
    try (by left); try (case_match; simpl; by auto).
  unfold ClearHistory. rewrite clearLoop_spec. simpl.
  destruct (decide (JobList m = [])) as [->|Hne]; simpl.
  { right. by rewrite orb_false_r. }
  left. apply orb_true_iff. right. apply bool_decide_eq_true. intros Hf.
  apply Hc; [done|]. split; [done|]. apply list.Forall_forall. intros j Hj.
  destruct (decide (Status j = "completed"%string)) as [|Hs]; [done|].
  assert (j ∈ filter (fun j => Status j <> "completed"%string) (JobList m))
    by (by apply list_elem_of_filter). rewrite Hf in *. by apply elem_of_nil in H.
Qed.

(** An event that leaves no save pending either changes nothing, or saves
    the list, or loses the connection of the two. *)
Lemma event_cases e s : Changed (mgr (event_step e s)) = false ->
  event_step e s = s /\ Changed (mgr s) = false \/
  disk (event_step e s) = Some (JobList (mgr (event_step e s))) \/ loses e s.
Proof.
  destruct s as [m d]. destruct e as [o|r]; cbn [event_step mgr disk].
  - intros Hch. assert (Hdec : silent_clear m \/ ~ silent_clear m).
    { unfold silent_clear. destruct (decide (JobList m = [])) as [|Hne]; [right; tauto|].
      destruct (decide (Forall (fun j => Status j = "completed"%string) (JobList m))); [by left|right; tauto]. }
    assert (Hsame : (o = OClear -> ~ silent_clear m) -> mkSys (run o m) d = mkSys m d /\ Changed m = false).
    { intros Hc. destruct (run_flag o m Hc) as [Hf|[Hl Hf]]; [congruence|]. split; [|congruence]. f_equal.
      destruct (run o m), m. cbn in *. congruence. }
    destruct Hdec as [Hs|Hs]; [|left; by apply Hsame]. destruct o; try (left; by apply Hsame).
    right; right. cbn [loses mgr]. split; [done|]. cbn [run] in Hch. unfold ClearHistory in Hch. rewrite clearLoop_spec in Hch.
    cbn in Hch. by apply orb_false_iff in Hch as [? _].
  - unfold saveTick. destruct (Changed m) eqn:Hm; cbn [mgr disk]; [|by left]. intros _. right.
    destruct r; cbn; [by left|by right|by right].
Qed.

Lemma changeStatus_known s jobId m :
  jobId ∈ ids (JobList m) ->
  exists jobs, changeStatus s jobId m = (mkManager jobs true, None) /\
    ids jobs = ids (JobList m) /\
    forall id, findFirst id jobs
      = if decide (id = jobId) then setStatus s <$> findFirst jobId (JobList m)
        else findFirst id (JobList m).
Proof.
  intros [jobs Hu]%(updateFirst_known _ (setStatus s)). exists jobs.
  unfold changeStatus. rewrite Hu. split_and!; [done|by apply (updateFirst_ids jobId (setStatus s))|].
  intros id. by apply findFirst_update.
Qed.

Lemma changeStatus_unknown s jobId m :
  jobId ∉ ids (JobList m) ->
  changeStatus s jobId m = (m, Some ("Unable to find jobId: " +:+ jobId)%string).
Proof.
  intros Hni. unfold changeStatus.
  pose proof (updateFirst_known jobId (setStatus s) (JobList m)) as H.
  destruct (updateFirst _ _ _); [|done]. destruct Hni. apply H. eauto.
Qed.

(** The reply already started by earlier errors, after one more. *)
Lemma code_writeStatusUpdate jm e c w :
  code (writeStatusUpdate jm e (WriteHeader c w)) = Some (default c (code w)).
Proof.
  unfold writeStatusUpdate. destruct w as [[c'|] ct b]; by case_match.
Qed.

Lemma statusLoop_spec jm s jobIds m w :
  let '(m', w') := statusLoop jm (changeStatus s) jobIds m w in
  ids (JobList m') = ids (JobList m) /\
  (forall id, findFirst id (JobList m')
     = if decide (id ∈ jobIds) then setStatus s <$> findFirst id (JobList m)
       else findFirst id (JobList m)) /\
  code w' = match code w with
            | Some c => Some c
            | None => if decide (Forall (fun id => id ∈ ids (JobList m)) jobIds) then None else Some 400
            end.
Proof.
  revert m w; induction jobIds as [|jobId jobIds IH]; intros m w; simpl.
  - split_and!; [done|done|by destruct (code w)].
  - destruct (decide (jobId ∈ ids (JobList m))) as [Hk|Hk].
    + destruct (changeStatus_known s jobId m Hk) as (jobs & -> & Hids & Hfind).
      specialize (IH (mkManager jobs true) w).
      destruct (statusLoop _ _ _ _ _) as [m' w']. simpl in IH. destruct IH as (Hi & Hf & ->).
      split_and!; [congruence| |].
      * intros id. rewrite Hf, Hfind. destruct (decide (id = jobId)) as [->|Hne].
        -- rewrite (decide_True (P := jobId ∈ jobId :: jobIds)) by apply list_elem_of_here.
           case_decide; [|done]. by destruct (findFirst jobId (JobList m)).
        -- repeat case_decide; try done; exfalso; set_solver.
      * rewrite Hids. destruct (code w); [done|].
        repeat case_decide; try done; exfalso; rewrite list.Forall_cons in *; naive_solver.
    + rewrite changeStatus_unknown by done.
      specialize (IH m (writeStatusUpdate jm ("Unable to find jobId: " +:+ jobId) (WriteHeader 400 w))).
      destruct (statusLoop _ _ _ _ _) as [m' w']. destruct IH as (Hi & Hf & Hc).
      rewrite code_writeStatusUpdate in Hc. split_and!; [done| |].
      * intros id. rewrite Hf. destruct (decide (id = jobId)) as [->|Hne].
        -- rewrite (findFirst_None jobId) by done. by repeat case_decide.
        -- repeat case_decide; try done; exfalso; set_solver.
      * rewrite Hc. destruct (code w); [done|]. rewrite decide_False; [done|].
        by intros [? ?]%list.Forall_cons.
Qed.

(** ** Theorems *)

(** Starting, pausing or terminating a known job makes [GetJobStatus]
    report that status, leaves every other job and the list of ids as they
    were and marks the manager for saving; on an unknown id it is an error
    and changes nothing. *)
Theorem status_op_correct s op jobId m
    (Hop : (s, op) ∈ [("active"%string, StartJob); ("paused"%string, PauseJob);
                      ("terminated"%string, TerminateJob)]) :
  if decide (jobId ∈ ids (JobList m)) then
    exists m', op jobId m = (m', None) /\ Changed m' = true /\
      ids (JobList m') = ids (JobList m) /\ GetJobStatus jobId m' = s /\
      (forall id, id <> jobId -> FindJob id m' = FindJob id m)
  else op jobId m = (m, Some ("Unable to find jobId: " +:+ jobId)%string).
Proof.
  assert (op = changeStatus s) as ->.
  { rewrite !elem_of_cons in Hop. destruct Hop as [[= -> ->]|[[= -> ->]|[[= -> ->]|Hop]]]; try done.
    by apply elem_of_nil in Hop. }
  case_decide as Hk; [|by apply changeStatus_unknown].
  destruct (changeStatus_known s jobId m Hk) as (jobs & -> & Hids & Hfind).
  eexists. split_and!; [done|done|done| |].
  - unfold GetJobStatus. simpl. rewrite Hfind, decide_True by done.
    by destruct (findFirst_Some _ _ Hk) as [j ->].
  - intros id Hne. unfold FindJob. simpl. by rewrite Hfind, decide_False.
Qed.

(** A handler that changes statuses answers 200 exactly when every id of
    the request is known, 400 otherwise; either way every known job of the
    request has the new status and no other job changes. *)
Theorem statusHandler_correct jm s jobIds m :
  let '(m', w) := statusHandler jm (changeStatus s) "PATCH" (Ok jobIds) m in
  code w = Some (if decide (Forall (fun id => id ∈ ids (JobList m)) jobIds) then 200 else 400) /\
  ids (JobList m') = ids (JobList m) /\
  (forall id, id ∈ jobIds -> id ∈ ids (JobList m) -> GetJobStatus id m' = s) /\
  (forall id, id ∉ jobIds -> FindJob id m' = FindJob id m).
Proof.
  unfold statusHandler. rewrite decide_True by done.
  pose proof (statusLoop_spec jm s jobIds m noResponse) as H.
  destruct (statusLoop _ _ _ _ _) as [m' w]. destruct H as (Hids & Hfind & Hcode).
  simpl in Hcode. split_and!; [|done| |].
  - rewrite code_writeStatusUpdate, Hcode. by case_decide.
  - intros id Hin Hk. unfold GetJobStatus. rewrite Hfind, decide_True by done.
    by destruct (findFirst_Some _ _ Hk) as [j ->].
  - intros id Hni. unfold FindJob. by rewrite Hfind, decide_False.
Qed.

(** Removing a job from a history without duplicate ids makes it
    unknown, keeps every other job and keeps the ids free of duplicates. *)
Theorem RemoveFromHistory_correct jobId m
    (Hnd : NoDup (ids (JobList m))) (Hk : jobId ∈ ids (JobList m)) :
  exists m', RemoveFromHistory jobId m = (m', None) /\ Changed m' = true /\
    NoDup (ids (JobList m')) /\
    FindJob jobId m' = inr "unable to find job with specified jobId"%string /\
    (forall id, id <> jobId -> FindJob id m' = FindJob id m).
Proof.
  unfold RemoveFromHistory. pose proof (removeFirst_split jobId (JobList m)) as H.
  destruct (removeFirst jobId (JobList m)) as [jobs|]; [|done].
  destruct H as (pre & j & post & Hl & Hj & Hni & ->). rewrite Hl in *. unfold ids in *.
  rewrite fmap_app, fmap_cons in Hnd. apply list.NoDup_app in Hnd as (Hpre & Hdis & Hpost).
  apply list.NoDup_cons in Hpost as [Hnj Hpost].
  eexists. split_and!; [done|done| | |].
  - simpl. rewrite fmap_app. apply list.NoDup_app. split_and!; [done| |done].
    intros x Hx Hx'. apply (Hdis x Hx). by apply list_elem_of_further.
  - unfold FindJob. simpl. rewrite findFirst_None; [done|]. unfold ids. subst jobId.
    rewrite fmap_app, elem_of_app. naive_solver.
  - intros id Hne. unfold FindJob. simpl. rewrite Hl.
    assert (forall l, findFirst id (pre ++ l) = match findFirst id pre with Some x => Some x | None => findFirst id l end)
      as Happ by (intros l; clear; induction pre; simpl; [done|]; by case_decide).
    rewrite !Happ. simpl. by rewrite decide_False by congruence.
Qed.

(** C37. In every run of the program, whatever the operations and whatever
    the file system answers, a list with no save pending is what the file
    holds, or nothing has changed since the program started, since a save
    that failed, or since a clear that emptied the list without marking it. *)
Theorem history_durable file es (s := runs es (started file)) (Hch : Changed (mgr s) = false) :
  disk s = Some (JobList (mgr s)) \/
  exists es1 es2, es = es1 ++ es2 /\ s = runs es1 (started file) /\
    (es1 = [] \/ exists es0 e, es1 = es0 ++ [e] /\ loses e (runs es0 (started file))).
Proof.
  subst s. induction es as [|e es IH] using rev_ind; [right; exists [], []; split_and!; [done|done|by left]|].
  unfold runs in *. rewrite foldl_app in *. cbn [foldl] in *. fold (runs es (started file)) in *.
  destruct (event_cases e _ Hch) as [[Heq Hc]|[Hd|Hl]]; [|by left|].
  - rewrite Heq. destruct (IH Hc) as [Hd|(es1 & es2 & -> & Hs & Hr)]; [by left|right].
    exists es1, (es2 ++ [e]). split_and!; [by rewrite app_assoc|done|done].
  - right. exists (es ++ [e]), []. split_and!; [by rewrite app_nil_r|by rewrite foldl_app|]. right. by exists es, e.
Qed.

(** [ClearHistory] keeps exactly the jobs whose status is not
    "completed", so a job the downloader marked "finished" survives it; and
    clearing a saved, fully completed history empties the list without
    marking it, so that no later save writes the emptied list to the file. *)
Theorem ClearHistory_correct m :
  JobList (ClearHistory m) = filter (fun j => Status j <> "completed"%string) (JobList m) /\
  (forall j, j ∈ JobList m -> Status j = "finished"%string -> j ∈ JobList (ClearHistory m)) /\
  (forall r d, silent_clear m -> Changed m = false ->
     JobList (ClearHistory m) = [] /\ saveTick r (ClearHistory m) d = (ClearHistory m, d)).
Proof.
  assert (Hf : JobList (ClearHistory m) = filter (fun j => Status j <> "completed"%string) (JobList m))
    by (unfold ClearHistory; by rewrite clearLoop_spec).
  split_and!; [done| |].
  - intros j Hj Hs. rewrite Hf. apply list_elem_of_filter. by rewrite Hs.
  - intros r d [Hne Hall] Hch.
    assert (Hnil : filter (fun j => Status j <> "completed"%string) (JobList m) = []).
    { clear -Hall. induction Hall; [done|]. rewrite filter_cons, decide_False; naive_solver. }
    split; [congruence|]. unfold saveTick.
    assert (Changed (ClearHistory m) = false) as ->; [|done].
    unfold ClearHistory. rewrite clearLoop_spec, Hnil, Hch. done.
Qed.

(** ** Witnesses *)
Module Toy.

Definition job (id status : string) : Job := mkJob "f" id "t" status 0 (-1) (-1) "p".
Definition m : JobManager := mkManager [job "a" "active"; job "b" "completed"; job "c" "finished"] false.

Lemma status_op_correct_witness :
  exists m', PauseJob "a" m = (m', None) /\ Changed m' = true /\
    ids (JobList m') = ids (JobList m) /\ GetJobStatus "a" m' = "paused"%string /\
    (forall id, id <> "a"%string -> FindJob id m' = FindJob id m).
Proof.
  exact (status_op_correct "paused" PauseJob "a" m
           (list_elem_of_further _ _ _ (list_elem_of_here _ _))).
Defined.

Lemma RemoveFromHistory_correct_witness :
  exists m', RemoveFromHistory "b" m = (m', None) /\ Changed m' = true /\
    NoDup (ids (JobList m')) /\
    FindJob "b" m' = inr "unable to find job with specified jobId"%string /\
    (forall id, id <> "b"%string -> FindJob id m' = FindJob id m).
Proof.
  apply RemoveFromHistory_correct; apply (bool_decide_unpack _); vm_compute; exact I.
Defined.

(** A job is added, saved, paused and saved again. *)
Definition saved : list event := [EOp (OAdd (job "a" "active")); ESave SaveOk; EOp (OPause "a"); ESave SaveOk].
Lemma history_durable_witness : disk (runs saved (started None)) = Some [job "a" "paused"].
Proof.
  destruct (history_durable None saved eq_refl) as [Hd|(es1 & es2 & Hes & Hs & Hr)]; [exact Hd|exfalso].
  destruct Hr as [->|(es0 & e & -> & Hl)]; [discriminate Hs|].
  destruct es0 as [|e1 [|e2 [|e3 [|e4 es0]]]]; [..|destruct es0; discriminate Hes]; injection Hes; intros; subst; cbn in Hl; try done;
    destruct Hl as [_ Hl]; by apply Hl.
Defined.

(** A save that fails is not repeated. *)
Example failed_save : let s := runs [EOp (OAdd (job "a" "active")); ESave (EncodeFailed "e"); ESave SaveOk] (started None) in
  Changed (mgr s) = false /\ disk s = None /\ JobList (mgr s) = [job "a" "active"].
Proof. done. Qed.

End Toy.

End Jobs.
