(* ===== verification/Storage.v ===== *)
(** * Local storage: name map, data store and file chunking

    Models peer/internal/hash/file_hash.go and peer/internal/hash/file_chunk.go.
    A directory is a finite map from file names to contents; what the operating
    system decides (the order of a Go map range, the listing of a directory,
    the sizes of the reads, a failing write) is an argument.  SHA-256 is the
    operation of [HashLib]. *)

From stdpp Require Import pretty.
From S2P Require Import Prelude.

Module Storage.

(** SHA-256 of the bytes written to a hasher. *)
Class HashLib := { sha256 : list Z -> list Z }.

(** hex.EncodeToString *)
Definition hexDigit (n : Z) : Ascii.ascii :=
  Ascii.ascii_of_nat (Z.to_nat (if n <? 10 then 48 + n else 87 + n)).

Fixpoint EncodeToString (l : list Z) : string :=
  match l with
  | [] => EmptyString
  | b :: l => String (hexDigit (b / 16)) (String (hexDigit (b mod 16)) (EncodeToString l))
  end.

(** A directory. *)
Abbreviation dir := (gmap string (list Z)).

(** What the operating system answers to one os.WriteFile. *)
Inductive writeResult :=
| Written
| WriteError (e : string) (left : option (list Z)).

Definition WriteFile (r : writeResult) (name : string) (data : list Z) (d : dir)
    : dir * option string :=
  match r with
  | Written => (<[name := data]> d, None)
  | WriteError e None => (d, Some e)
  | WriteError e (Some torn) => (<[name := torn]> d, Some e)
  end.

(** ** NameMap *)
Record NameMap := mkNameMap { mapping : gmap string string }.

(** A missing key reads as the empty string. *)
Definition GetFileHash (name : string) (nmp : NameMap) : string :=
  default EmptyString (mapping nmp !! name).

(** The saved file is the JSON of the mapping: [saved] is what is on disk, and
    a failing save panics ([Assert]). *)
Definition PutFileHash (saveErr : option string) (name hash_val : string)
    (nmp : NameMap) : outcome string (NameMap * gmap string string) :=
  let nmp := mkNameMap (<[name := hash_val]> (mapping nmp)) in
  match saveErr with
  | None => Ok (nmp, mapping nmp)
  | Some _ => Panic
  end.

(** [NewNameStore]: recover the mapping when the file can be read. *)
Definition Recover (saved : option (gmap string string)) : NameMap :=
  match saved with
  | Some m => mkNameMap m
  | None => mkNameMap ∅
  end.

(** ** DataStore *)
Record DataStore := mkDataStore {
  buf : gmap string (list Z);
  buf_size : Z;
  buf_cap : Z;
  drive_size : Z;
  drive_cap : Z;
}.

Definition NewDataStore : DataStore := mkDataStore ∅ 0 (4 * 1000) 0 (100 * 1000 * 1000).

Definition setBuf (b : gmap string (list Z)) (ds : DataStore) : DataStore :=
  mkDataStore b (buf_size ds) (buf_cap ds) (drive_size ds) (drive_cap ds).

(** The search loop of both evictions: [largest_file_size] stays 0. *)
Fixpoint largestLoop (entries : list (string * Z)) (largest_file_hash : string)
    (largest_file_size : Z) : string :=
  match entries with
  | [] => largest_file_hash
  | (name, size) :: entries =>
      if largest_file_size <? size
      then largestLoop entries name largest_file_size
      else largestLoop entries largest_file_hash largest_file_size
  end.

(** [order] lists the buffer in the order of the map range. *)
Definition EvictBuffer (order : list (string * list Z)) (ds : DataStore) : DataStore :=
  let largest_file_hash :=
    largestLoop ((fun '(h, data) => (h, Zlen data)) <$> order) EmptyString 0 in
  if decide (largest_file_hash <> EmptyString)
  then setBuf (delete largest_file_hash (buf ds)) ds
  else ds.

Definition BufferPut (order : list (string * list Z)) (hash_val : string) (data : list Z)
    (ds : DataStore) : DataStore :=
  let ds := if buf_cap ds <? Zlen data + buf_size ds then EvictBuffer order ds else ds in
  setBuf (<[hash_val := data]> (buf ds)) ds.

(** [entries] is the result of os.ReadDir; a failing os.Remove panics. *)
Definition DriveEvict (entries : list (string * Z)) (d : dir) : outcome string dir :=
  let largest_file_hash := largestLoop entries EmptyString 0 in
  if decide (largest_file_hash <> EmptyString) then
    match d !! largest_file_hash with
    | Some _ => Ok (delete largest_file_hash d)
    | None => Panic
    end
  else Ok d.

Definition DrivePut (r : writeResult) (entries : list (string * Z)) (hash_val : string)
    (data : list Z) (ds : DataStore) (d : dir) : outcome string (dir * option string) :=
  d ← (if drive_cap ds <? Zlen data + drive_size ds then DriveEvict entries d else Ok d);
  mret (WriteFile r hash_val data d).

Section WithHash.
Context `{HashLib}.

(** The name of a content: fmt.Sprintf("%x", sha256.Sum256(data)). *)
Definition contentHash (data : list Z) : string := EncodeToString (sha256 data).

Definition GetFile (order : list (string * list Z)) (hash_val : string)
    (ds : DataStore) (d : dir) : DataStore * (list Z + string) :=
  match buf ds !! hash_val with
  | Some data => (ds, inl data)
  | None =>
      match d !! hash_val with
      | None => (ds, inr "no such file or directory"%string)
      | Some data => (BufferPut order hash_val data ds, inl data)
      end
  end.

Definition PutFile (r : writeResult) (entries : list (string * Z))
    (order : list (string * list Z)) (data : list Z) (ds : DataStore) (d : dir)
    : outcome string (DataStore * dir * (string + string)) :=
  let hash_val := contentHash data in
  '(d, err) ← DrivePut r entries hash_val data ds d;
  match err with
  | Some e => mret (ds, d, inr e)
  | None => mret (BufferPut order hash_val data ds, d, inl hash_val)
  end.

(** ** SaveChunkedFile *)

Record FileInfo := mkFileInfo {
  fi_FileHash : list Z;
  ChunkHashes : list string;
  FileSize : Z;
  FileName : string;
}.

Definition chunkSize : nat := 4 * 1024 * 1024.

(** file.Read(chunk): the bytes read overwrite the front of the buffer. *)
Definition fillBuffer (chunk bytesRead : list Z) : list Z :=
  bytesRead ++ drop (length bytesRead) chunk.

(** os.Remove: a missing file is an error. *)
Definition Remove (removeErr : string -> option string) (h : string) (d : dir)
    : dir * option string :=
  match removeErr h, d !! h with
  | Some e, _ => (d, Some e)
  | None, None => (d, Some "no such file or directory"%string)
  | None, Some _ => (delete h d, None)
  end.

(** Remove what was written so far, stopping at the first failure. *)
Fixpoint cleanup (removeErr : string -> option string) (hashes : list string) (d : dir)
    : dir * option string :=
  match hashes with
  | [] => (d, None)
  | h :: hashes =>
      match Remove removeErr h d with
      | (d, Some e) => (d, Some e)
      | (d, None) => cleanup removeErr hashes d
      end
  end.

(** How the loop ends: the hashes and the byte count, an error, or the early
    return after a clean-up, whose error variable the removals have reset. *)
Inductive chunkResult :=
| Chunked (hashes : list string) (size : Z)
| ChunkError (e : string)
| CleanedUp.

(** The read loop over the reads the file yields; [readErr] is the error, if
    any, of the read after them (not io.EOF).  The hash is taken of the
    bytes read, the file written is the whole buffer. *)
Fixpoint chunkLoop (write : nat -> writeResult) (removeErr : string -> option string)
    (readErr : option string) (reads : list (list Z)) (k : nat) (chunk : list Z)
    (hashes : list string) (size : Z) (d : dir) : dir * chunkResult :=
  match reads with
  | [] => match readErr with
          | Some e => (d, ChunkError e)
          | None => (d, Chunked hashes size)
          end
  | bytesRead :: reads =>
      if decide (bytesRead = []) then (d, Chunked hashes size)
      else
        let chunk := fillBuffer chunk bytesRead in
        let hash := contentHash bytesRead in
        let hashes := hashes ++ [hash] in
        match WriteFile (write k) hash chunk d with
        | (d, Some e) =>
            match cleanup removeErr hashes d with
            | (d, Some e') =>
                (d, ChunkError ("Failed to clean up removing partial chunks for error: " +:+ e')%string)
            | (d, None) => (d, CleanedUp)
            end
        | (d, None) =>
            chunkLoop write removeErr readErr reads (S k) chunk hashes (size + Zlen bytesRead) d
        end
  end.

(** The bytes of a Go string. *)
Fixpoint bytesOf (s : string) : list Z :=
  match s with
  | EmptyString => []
  | String c s => Z.of_nat (Ascii.nat_of_ascii c) :: bytesOf s
  end.

(** Key and file information on success ([inl]), or the error; [file] is the
    opened file (its reads) or the error of os.Open. *)
Definition SaveChunkedFile (write : nat -> writeResult) (removeErr : string -> option string)
    (file : (list (list Z) * option string) + string) (fileName : string) (d : dir)
    : dir * ((string * FileInfo) + string) :=
  match file with inr e => (d, inr e) | inl (reads, readErr) =>
  match chunkLoop write removeErr readErr reads 0 (replicate chunkSize 0) [] 0 d with
  | (d, ChunkError e) => (d, inr e)
  | (d, CleanedUp) => (d, inl (EmptyString, mkFileInfo [] [] 0 EmptyString))
  | (d, Chunked hashes size) =>
      let fileHash := sha256 [] in
      let fileKey := mkFileInfo fileHash hashes size fileName in
      let concatKey := fileHash ++ concat (bytesOf <$> hashes)
                       ++ bytesOf (pretty size) ++ bytesOf fileName in
      (d, inl (contentHash concatKey, fileKey))
  end
  end.

(** ** Lemmas *)

(** Every file is stored under the hash of its content. *)
Definition addressed (m : gmap string (list Z)) : Prop :=
  map_Forall (fun h data => h = contentHash data) m.

Lemma addressed_insert m data :
  addressed m -> addressed (<[contentHash data := data]> m).
Proof. intros Hm. by apply map_Forall_insert_2. Qed.

Lemma addressed_delete m h : addressed m -> addressed (delete h m).
Proof. apply map_Forall_delete. Qed.

Lemma EvictBuffer_addressed order ds :
  addressed (buf ds) -> addressed (buf (EvictBuffer order ds)).
Proof. intros Hm. unfold EvictBuffer. case_decide; [by apply addressed_delete|done]. Qed.

Lemma BufferPut_lookup order h data ds : buf (BufferPut order h data ds) !! h = Some data.
Proof. unfold BufferPut. simpl. apply lookup_insert_eq. Qed.

Lemma BufferPut_addressed order data ds :
  addressed (buf ds) -> addressed (buf (BufferPut order (contentHash data) data ds)).
Proof.
  intros Hm. unfold BufferPut. simpl. apply addressed_insert.
  case_match; [by apply EvictBuffer_addressed|done].
Qed.

Lemma DriveEvict_addressed entries d d' :
  addressed d -> DriveEvict entries d = Ok d' -> addressed d'.
Proof.
  unfold DriveEvict. intros Hd. repeat case_match; naive_solver eauto using addressed_delete.
Qed.

(** The buffer contents of the successive writes. *)
Fixpoint padded (chunk : list Z) (reads : list (list Z)) : list (list Z) :=
  match reads with
  | [] => []
  | r :: reads => let chunk := fillBuffer chunk r in chunk :: padded chunk reads
  end.

(** The directory after writing every chunk under the hash of its read. *)
Fixpoint storeChunks (reads chunks : list (list Z)) (d : dir) : dir :=
  match reads, chunks with
  | r :: reads, c :: chunks => storeChunks reads chunks (<[contentHash r := c]> d)
  | _, _ => d
  end.

Lemma chunkLoop_written removeErr reads k chunk hashes size d :
  Forall (fun r => r <> []) reads ->
  chunkLoop (fun _ => Written) removeErr None reads k chunk hashes size d
  = (storeChunks reads (padded chunk reads) d,
     Chunked (hashes ++ (contentHash <$> reads)) (size + Zlen (concat reads))).
Proof.
  intros Hr. revert k chunk hashes size d. induction Hr as [|r reads Hne Hr IH];
    intros k chunk hashes size d; simpl.
  - by rewrite app_nil_r, Z.add_0_r.
  - rewrite decide_False by done. rewrite IH, <- app_assoc, Zlen_app, Z.add_assoc. done.
Qed.

Lemma fillBuffer_length chunk r :
  (length r <= length chunk)%nat -> length (fillBuffer chunk r) = length chunk.
Proof. intros. unfold fillBuffer. rewrite length_app, length_drop. lia. Qed.

Lemma padded_lengths n chunk reads :
  length chunk = n -> Forall (fun r => length r <= n)%nat reads ->
  Forall (fun c => length c = n) (padded chunk reads).
Proof.
  intros Hc Hr. revert chunk Hc. induction Hr as [|r reads Hle Hr IH]; intros chunk Hc; [constructor|].
  simpl. assert (length (fillBuffer chunk r) = n) by (rewrite fillBuffer_length; lia).
  constructor; [done|by apply IH].
Qed.

(** Full reads are written as they are; only a last short one is padded, with
    what the buffer held before. *)
Lemma padded_full n chunk full lastRead :
  length chunk = n -> Forall (fun r => length r = n) full ->
  concat (padded chunk (full ++ [lastRead]))
  = concat (full ++ [lastRead]) ++ drop (length lastRead) (default chunk (list.last full)).
Proof.
  intros Hc Hf. revert chunk Hc. induction Hf as [|r full Hr Hf IH]; intros chunk Hc.
  - unfold fillBuffer. simpl. by rewrite !app_nil_r.
  - assert (fillBuffer chunk r = r) as Hfill
      by (unfold fillBuffer; rewrite drop_ge by lia; apply app_nil_r).
    simpl. rewrite Hfill, IH by done. rewrite <- app_assoc. do 3 f_equal.
    rewrite last_cons. by destruct (list.last full).
Qed.

(** ** Theorems *)

(** Content addressing: from stores whose files are named by their hash,
    a successful [PutFile] keeps that invariant in the buffer and on the drive
    (evictions included) and returns the hash under which [GetFile] then finds
    exactly the stored data. *)
Theorem PutFile_GetFile entries order order' data ds d r
    (Hbuf : addressed (buf ds)) (Hdir : addressed d)
    (Hput : PutFile Written entries order data ds d = Ok r) :
  exists ds' d', r = (ds', d', inl (contentHash data)) /\
    addressed (buf ds') /\ addressed d' /\
    GetFile order' (contentHash data) ds' d' = (ds', inl data).
Proof.
  unfold PutFile, DrivePut in Hput. apply outcome_bind_ok in Hput as ([d1 err] & Hd1 & Hput).
  apply outcome_bind_ok in Hd1 as (d0 & Hd0 & [= <- <-]). injection Hput as <-.
  eexists _, _. split; [done|]. split_and!.
  - by apply BufferPut_addressed.
  - apply addressed_insert. case_match; [by eapply DriveEvict_addressed|naive_solver].
  - unfold GetFile. by rewrite BufferPut_lookup.
Qed.

(** Integrity of reads: whatever [GetFile] returns hashes to the name it
    was asked for, and the buffer keeps the invariant. *)
Theorem GetFile_integrity order h ds d ds' data
    (Hbuf : addressed (buf ds)) (Hdir : addressed d)
    (Hget : GetFile order h ds d = (ds', inl data)) :
  contentHash data = h /\ addressed (buf ds').
Proof.
  unfold GetFile in Hget. destruct (buf ds !! h) as [b|] eqn:Hb.
  - injection Hget as <- <-. split; [|done]. symmetry. exact (Hbuf h b Hb).
  - destruct (d !! h) as [c|] eqn:Hc; [|done]. injection Hget as <- <-.
    pose proof (Hdir h c Hc) as ->. split; [done|by apply BufferPut_addressed].
Qed.

(** The buffer's size is never counted, so its capacity only ever bounds
    a single file: in a store started by [NewDataStore] putting a file of at
    most [buf_cap] bytes evicts nothing, however much the buffer holds. *)
Theorem BufferPut_never_evicts order h data ds
    (Hsize : buf_size ds = buf_size NewDataStore) (Hfit : Zlen data <= buf_cap ds) :
  BufferPut order h data ds = setBuf (<[h := data]> (buf ds)) ds /\
  buf_size (BufferPut order h data ds) = buf_size NewDataStore.
Proof.
  unfold BufferPut. rewrite (proj2 (Z.ltb_ge _ _)) by (rewrite Hsize; simpl; lia).
  split; [done|]. by rewrite <- Hsize.
Qed.

(** Chunking a file whose reads are full chunks and one last read: the
    key information lists the hash of every read in order and the true size,
    while the stored files, concatenated, are the file followed by the stale
    bytes of the buffer that the last write appends. *)
Theorem SaveChunkedFile_stores removeErr full lastRead fileName d
    (Hfull : Forall (fun r => length r = chunkSize) full)
    (Hlast : lastRead <> []) (Hle : (length lastRead <= chunkSize)%nat) :
  let reads := full ++ [lastRead] in
  let chunks := padded (replicate chunkSize 0) reads in
  exists key info,
    SaveChunkedFile (fun _ => Written) removeErr (inl (reads, None)) fileName d
    = (storeChunks reads chunks d, inl (key, info)) /\
    ChunkHashes info = contentHash <$> reads /\
    FileSize info = Zlen (concat reads) /\
    concat chunks = concat reads
      ++ drop (length lastRead) (default (replicate chunkSize 0) (list.last full)) /\
    Zlen (concat chunks) = Zlen (concat reads) + (Z.of_nat chunkSize - Zlen lastRead).
Proof.
  intros reads chunks. unfold SaveChunkedFile.
  assert (Hne : Forall (fun r => r <> []) reads).
  { apply list.Forall_app. split; [|by apply Forall_singleton].
    eapply list.Forall_impl; [exact Hfull|]. intros r Hr ->. by apply (Nat.lt_irrefl 0). }
  rewrite chunkLoop_written by done. eexists _, _. split; [done|].
  assert (Hcat : concat chunks = concat reads
      ++ drop (length lastRead) (default (replicate chunkSize 0) (list.last full)))
    by (apply (padded_full chunkSize); [apply length_replicate|done]).
  split_and!; [done|done|done|]. rewrite Hcat, Zlen_app. f_equal.
  assert (Hdl : length (default (replicate chunkSize 0) (list.last full)) = chunkSize).
  { destruct (list.last full) as [c|] eqn:Hl; [|apply length_replicate].
    apply last_Some_elem_of in Hl. rewrite list.Forall_forall in Hfull. by apply Hfull. }
  unfold Zlen. rewrite length_drop, Hdl. lia.
Qed.

(** A failed write whose partial file can be removed is reported as a
    success: [SaveChunkedFile] answers the empty key, empty file information
    and no error. *)
Theorem SaveChunkedFile_swallows_error lastRead fileName d e torn
    (Hne : lastRead <> []) :
  exists d', SaveChunkedFile (fun _ => WriteError e (Some torn)) (fun _ => None) (inl ([lastRead], None)) fileName d
  = (d', inl (EmptyString, mkFileInfo [] [] 0 EmptyString)).
Proof.
  unfold SaveChunkedFile. simpl. rewrite decide_False by done. unfold Remove.
  rewrite lookup_insert_eq. by eexists.
Qed.

End WithHash.

(** The evicted entry is not the largest: the last non-empty one of the range
    is taken. *)
Example EvictBuffer_not_largest :
  buf (EvictBuffer [("a"%string, [1; 2; 3]); ("b"%string, [1])]
         (setBuf {["a"%string := [1; 2; 3]; "b"%string := [1]]} NewDataStore))
  = {["a"%string := [1; 2; 3]]}.
Proof. vm_compute. reflexivity. Qed.

(** ** Witnesses *)
Module Toy.

(** A stand-in digest: the length and the sum of the bytes. *)
#[export] Instance toyHash : HashLib := {| sha256 l := [Zlen l mod 256; fold_right Z.add 0 l mod 256] |}.

Lemma PutFile_GetFile_witness :
  exists ds' d', Ok (E:=string) (setBuf {["0206"%string := [2; 4]]} NewDataStore,
                     {["0206"%string := [2; 4]]}, inl (A:=string) (B:=string) "0206"%string)
                 = Ok (ds', d', inl (contentHash [2; 4])) /\
    addressed (buf ds') /\ addressed d' /\
    GetFile [] (contentHash [2; 4]) ds' d' = (ds', inl [2; 4]).
Proof.
  destruct (PutFile_GetFile [] [] [] [2; 4] NewDataStore ∅
              (setBuf {["0206"%string := [2; 4]]} NewDataStore,
               {["0206"%string := [2; 4]]}, inl "0206"%string))
    as (ds' & d' & H1 & H2 & H3 & H4);
    [apply map_Forall_empty|apply map_Forall_empty|vm_compute; reflexivity|].
  exists ds', d'. split; [f_equal; exact H1|]. split; [exact H2|]. split; [exact H3|exact H4].
Defined.

Lemma GetFile_integrity_witness :
  contentHash [2; 4] = "0206"%string /\ addressed (buf (setBuf {["0206"%string := [2; 4]]} NewDataStore)).
Proof.
  apply (GetFile_integrity [] "0206" NewDataStore {["0206"%string := [2; 4]]}
           (setBuf {["0206"%string := [2; 4]]} NewDataStore) [2; 4]).
  - apply map_Forall_empty.
  - apply map_Forall_singleton. vm_compute. reflexivity.
  - vm_compute. reflexivity.
Defined.

Lemma BufferPut_never_evicts_witness :
  BufferPut [] "0206" [2; 4] NewDataStore = setBuf (<["0206"%string := [2; 4]]> (buf NewDataStore)) NewDataStore /\
  buf_size (BufferPut [] "0206" [2; 4] NewDataStore) = buf_size NewDataStore.
Proof. apply BufferPut_never_evicts; vm_compute; [reflexivity|discriminate]. Defined.

Lemma SaveChunkedFile_stores_witness :
  let reads := [] ++ [[5; 6; 7]] in
  let chunks := padded (replicate chunkSize 0) reads in
  exists key info,
    SaveChunkedFile (fun _ => Written) (fun _ => None) (inl (reads, None)) "f" ∅
    = (storeChunks reads chunks ∅, inl (key, info)) /\
    ChunkHashes info = contentHash <$> reads /\
    FileSize info = Zlen (concat reads) /\
    concat chunks = concat reads
      ++ drop (length [5; 6; 7]) (default (replicate chunkSize 0) (list.last (@nil (list Z)))) /\
    Zlen (concat chunks) = Zlen (concat reads) + (Z.of_nat chunkSize - Zlen [5; 6; 7]).
Proof.
  apply (SaveChunkedFile_stores (fun _ => None) [] [5; 6; 7] "f" ∅);
    [constructor|discriminate|apply Nat.leb_le; vm_compute; reflexivity].
Defined.

Lemma SaveChunkedFile_swallows_error_witness :
  exists d', SaveChunkedFile (fun _ => WriteError "disk full" (Some [5])) (fun _ => None) (inl ([[5; 6]], None)) "f" ∅
  = (d', inl (EmptyString, mkFileInfo [] [] 0 EmptyString)).
Proof. apply SaveChunkedFile_swallows_error. discriminate. Defined.

End Toy.

End Storage.
