(* ===== verification/Transfer.v ===== *)
(** * File transfer between peers

    Models the stream protocol of peer/internal/server/serverRPC.go
    ([HandleStoredFileStream]) and peer/internal/client/client.go
    ([GetFileOnce]), and the choice of the holder in
    peer/internal/server/server.go ([jobRoutine]).  The two sides exchange
    length-prefixed JSON messages in lock step; the client appends every chunk
    it has paid for to the requested file and reports to the job manager. *)

From S2P Require Import Prelude Market Jobs Storage.

Module Transfer.
Import Jobs Storage.

(** ** Messages *)
Record FileChunkRequest := mkReq {
  rq_FileHash : string;
  rq_ChunkIndex : Z;
  rq_JobId : string;
}.

Record FileChunk := mkChunk {
  ch_FileHash : string;
  ch_ChunkIndex : Z;
  ch_MaxChunk : Z;
  ch_JobId : string;
  ch_Data : list Z;
}.

(** json.Marshal and json.Unmarshal on the two message types. *)
Class WireJson := {
  marshalReq : FileChunkRequest -> list Z;
  unmarshalReq : list Z -> option FileChunkRequest;
  marshalChunk : FileChunk -> list Z;
  unmarshalChunk : list Z -> option FileChunk;
}.

Class WireJsonLaws (J : WireJson) : Prop := {
  unmarshal_marshalReq r : unmarshalReq (marshalReq r) = Some r;
  unmarshal_marshalChunk c : unmarshalChunk (marshalChunk c) = Some c;
}.

(** A length header (binary.LittleEndian.PutUint32) and the payload. *)
Definition frame (payload : list Z) : list Z := le_bytes 4 (u32 (Zlen payload)) ++ payload.

(** Four ReadByte calls: the length and the remaining bytes. *)
Definition readLength (s : list Z) : option (Z * list Z) :=
  match s with
  | b0 :: b1 :: b2 :: b3 :: rest => Some (le_val [b0; b1; b2; b3], rest)
  | _ => None
  end.

(** ** The serving side *)

(** The chunk a request asks for: a missing file hash reads as the zero
    [FileInfo], and an index outside the hash list panics. *)
Definition lookupChunk (infos : gmap string FileInfo) (d : dir) (req : FileChunkRequest)
    : outcome string FileChunk :=
  let orcaFileInfo := default (mkFileInfo [] [] 0 EmptyString) (infos !! rq_FileHash req) in
  chunkHash ← index (ChunkHashes orcaFileInfo) (rq_ChunkIndex req);
  match d !! chunkHash with
  | None => Err "open: no such file or directory"%string
  | Some chunkDataBytes =>
      Ok (mkChunk (rq_FileHash req) (rq_ChunkIndex req) (Zlen (ChunkHashes orcaFileInfo))
            (rq_JobId req) chunkDataBytes)
  end.

Section Wire.
Context `{J : WireJson}.

(** One round of the handler on the bytes that have arrived: the response, or
    [None] when the handler closes the stream.  A short payload keeps the
    zeros of its buffer, since the error of io.ReadFull is overwritten. *)
Definition handleRequest (infos : gmap string FileInfo) (d : dir) (input : list Z)
    : outcome string (option (list Z)) :=
  match readLength input with
  | None => Ok None
  | Some (length, rest) =>
      let n := Z.to_nat length in
      let payload := take n rest ++ replicate (n - List.length rest) 0 in
      match unmarshalReq payload with
      | None => Ok None
      | Some fileChunkReq =>
          match lookupChunk infos d fileChunkReq with
          | Ok fileChunk => Ok (Some (frame (marshalChunk fileChunk)))
          | Err _ => Ok None
          | Panic => Panic
          | Hang => Hang
          end
      end
  end.

(** ** The requesting side *)

(** What the network gives back for one request. *)
Inductive netResult :=
| WriteFailed
| Response (bytes : list Z).

(** The client's view of one download: the requested directory, the job
    manager and the number of payments made. *)
Record ClientState := mkClient {
  requested : dir;
  manager : JobManager;
  payments : nat;
}.

Definition setManager (f : JobManager -> JobManager) (st : ClientState) : ClientState :=
  mkClient (requested st) (f (manager st)) (payments st).

(** The world around a download: the peer, the wallet
    (orcaBlockchain.SendToAddress), the file system, and what other goroutines
    do to the job manager before the k-th poll and its j-th repetition. *)
Record World := mkWorld {
  peer : nat -> list Z -> netResult;
  payFee : nat -> option string;
  appendOk : nat -> bool;
  others : nat -> JobManager -> JobManager;
  otherWhilePaused : nat -> nat -> JobManager -> JobManager;
}.

(** The response to a request: the chunk, or the error returned. *)
Definition receiveChunk (bytes : list Z) : FileChunk + string :=
  match readLength bytes with
  | None => inr "EOF"%string
  | Some (length, rest) =>
      if Zlen rest <? length then inr "unexpected EOF"%string
      else match unmarshalChunk (take (Z.to_nat length) rest) with
           | None => inr "Error unmarshaling JSON"%string
           | Some fileChunk => inl fileChunk
           end
  end.

(** Sleep until the job is no longer paused; [Hang] when the fuel ends. *)
Fixpoint pausedLoop (fuel : nat) (w : World) (jobId : string) (k : nat) (j : nat)
    (st : ClientState) : outcome string ClientState :=
  match fuel with
  | O => Hang
  | S fuel =>
      let st := setManager (otherWhilePaused w k j) st in
      if decide (GetJobStatus jobId (manager st) <> "paused"%string) then Ok st
      else pausedLoop fuel w jobId k (S j) st
  end.

(** The request loop; [k] counts the rounds, so chunkIndex is [k - 1].
    The result is the final state and the returned error ([None] is nil);
    a failing append ends the process ([Panic]). *)
Fixpoint downloadLoop (fuel : nat) (w : World) (file_hash jobId : string) (priceInt : option Z)
    (k : nat) (st : ClientState) : outcome string (ClientState * option string) :=
  match fuel with
  | O => Hang
  | S fuel =>
      let terminated := UpdateJobStatus jobId "terminated" in
      let fileChunkReq := mkReq file_hash (Z.of_nat k) jobId in
      match peer w k (frame (marshalReq fileChunkReq)) with
      | WriteFailed => Ok (setManager terminated st, None)
      | Response bytes =>
          match receiveChunk bytes with
          | inr e => Ok (setManager terminated st, Some e)
          | inl fileChunk =>
              match payFee w k with
              | Some e => Ok (setManager terminated st, Some e)
              | None =>
                  let cost := match priceInt with
                              | Some p => UpdateJobCost jobId (i64 p)
                              | None => fun m => m
                              end in
                  let hash := ch_FileHash fileChunk in
                  if appendOk w k then
                    let st := mkClient
                      (<[hash := default [] (requested st !! hash) ++ ch_Data fileChunk]> (requested st))
                      (cost (manager st)) (S (payments st)) in
                    if ch_ChunkIndex fileChunk =? ch_MaxChunk fileChunk - 1 then
                      Ok (setManager (UpdateJobStatus jobId "finished") st, None)
                    else if decide (jobId = EmptyString) then
                      downloadLoop fuel w file_hash jobId priceInt (S k) st
                    else
                      let st := setManager (others w k) st in
                      let status := GetJobStatus jobId (manager st) in
                      if decide (status = "terminated"%string) then Ok (st, None)
                      else if decide (status = "paused"%string) then
                        st ← pausedLoop fuel w jobId k 0 st;
                        downloadLoop fuel w file_hash jobId priceInt (S k) st
                      else downloadLoop fuel w file_hash jobId priceInt (S k) st
                  else Panic
              end
          end
      end
  end.

(** [GetFileOnce] up to the stream: a peer that cannot be dialled ends the
    job at once. *)
Definition GetFileOnce (fuel : nat) (w : World) (dialErr : option string)
    (file_hash jobId : string) (priceInt : option Z) (st : ClientState)
    : outcome string (ClientState * option string) :=
  match dialErr with
  | Some e => Ok (setManager (UpdateJobStatus jobId "terminated") st, Some e)
  | None => downloadLoop fuel w file_hash jobId priceInt 0 st
  end.

(** The peer of a world that answers every request with the handler. *)
Definition honestPeer (infos : gmap string FileInfo) (d : dir) (k : nat) (bytes : list Z) : netResult :=
  match handleRequest infos d bytes with
  | Ok (Some response) => Response response
  | _ => Response []
  end.

End Wire.

(** ** jobRoutine: which holder to download from *)
Fixpoint holderLoop (peerId : list Z) (holders : list Market.User)
    (bestHolder selectedHolder : option Market.User)
    : option Market.User * option Market.User :=
  match holders with
  | [] => (bestHolder, selectedHolder)
  | holder :: holders =>
      let bestHolder :=
        match bestHolder with
        | None => Some holder
        | Some best =>
            if Market.GetPrice holder <? Market.GetPrice best then Some holder else Some best
        end in
      let selectedHolder :=
        if decide (Market.GetId holder = peerId) then Some holder else selectedHolder in
      holderLoop peerId holders bestHolder selectedHolder
  end.

(** The holder the download uses; [None] when there is none. *)
Definition chooseHolder (peerId : list Z) (holders : list Market.User) : option Market.User :=
  let '(bestHolder, selectedHolder) := holderLoop peerId holders None None in
  match selectedHolder with
  | Some h => Some h
  | None => bestHolder
  end.

(** ** Lemmas *)

Lemma readLength_frame payload :
  Zlen payload < 2 ^ 32 -> readLength (frame payload) = Some (Zlen payload, payload).
Proof.
  intros Hlen. pose proof (Zlen_nonneg payload). unfold frame.
  rewrite u32_small by lia.
  change (readLength (le_bytes 4 (Zlen payload) ++ payload))
    with (Some (le_val (le_bytes 4 (Zlen payload)), payload)).
  rewrite le_val_bytes by (change (256 ^ Z.of_nat 4) with (2 ^ 32); lia). done.
Qed.

Lemma GetJobStatus_updateFirst jobId id f m jobs :
  (forall j, JobId (f j) = JobId j) -> (forall j, Status (f j) = Status j) ->
  updateFirst id f (JobList m) = Some jobs ->
  GetJobStatus jobId (mkManager jobs true) = GetJobStatus jobId m.
Proof.
  intros Hid Hst Hu. unfold GetJobStatus. simpl.
  rewrite (findFirst_update id f (JobList m) jobs) by done.
  case_decide; [|done]. subst. destruct (findFirst id (JobList m)); simpl; congruence.
Qed.

Lemma GetJobStatus_cost jobId id c m :
  GetJobStatus jobId (UpdateJobCost id c m) = GetJobStatus jobId m.
Proof.
  unfold UpdateJobCost. case_match eqn:Hu; [|done].
  by apply (GetJobStatus_updateFirst jobId id (addCost c) m).
Qed.

Lemma storeChunks_other `{HashLib} reads chunks d h :
  h ∉ (contentHash <$> reads) -> storeChunks reads chunks d !! h = d !! h.
Proof.
  revert chunks d; induction reads as [|r reads IH]; intros chunks d; [by destruct chunks|].
  rewrite fmap_cons, not_elem_of_cons. intros [Hne Hni]. destruct chunks as [|c chunks]; [done|].
  simpl. rewrite IH by done. by rewrite lookup_insert_ne.
Qed.

(** Equal names hold equal contents. *)
Definition consistent `{HashLib} (reads chunks : list (list Z)) : Prop :=
  forall i j r r' c c', reads !! i = Some r -> reads !! j = Some r' ->
    chunks !! i = Some c -> chunks !! j = Some c' -> contentHash r = contentHash r' -> c = c'.

Lemma storeChunks_lookup `{HashLib} reads chunks d :
  length reads = length chunks -> consistent reads chunks ->
  Forall2 (fun r c => storeChunks reads chunks d !! contentHash r = Some c) reads chunks.
Proof.
  revert chunks d; induction reads as [|r reads IH]; intros [|c chunks] d Hlen Hcons; try done.
  assert (Htail : Forall2 (fun r0 c0 => storeChunks reads chunks (<[contentHash r := c]> d)
            !! contentHash r0 = Some c0) reads chunks).
  { apply IH; [by injection Hlen|]. intros i j. exact (Hcons (S i) (S j)). }
  constructor; [|exact Htail]. simpl.
  destruct (decide (contentHash r ∈ (contentHash <$> reads))) as [Hin|Hni].
  - apply list_elem_of_fmap in Hin as (r' & Heq & Hr'). apply list_elem_of_lookup in Hr' as [j Hj].
    destruct (Forall2_lookup_l _ _ _ _ _ Htail Hj) as (c' & Hc' & Hl).
    rewrite <- Heq in Hl. rewrite Hl. f_equal. symmetry. by apply (Hcons O (S j) r r').
  - rewrite storeChunks_other by done. apply lookup_insert_eq.
Qed.

Lemma padded_full_list n chunk full lastRead :
  length chunk = n -> Forall (fun r => length r = n) full ->
  padded chunk (full ++ [lastRead])
  = full ++ [fillBuffer (default chunk (list.last full)) lastRead].
Proof.
  intros Hc Hf. revert chunk Hc. induction Hf as [|r full Hr Hf IH]; intros chunk Hc; [done|].
  assert (fillBuffer chunk r = r) as Hfill
    by (unfold fillBuffer; rewrite drop_ge by lia; apply app_nil_r).
  simpl. rewrite Hfill, IH by done. rewrite last_cons. by destruct (list.last full).
Qed.

(** No two reads of the file collide under the hash. *)
Definition collision_free `{HashLib} (reads : list (list Z)) : Prop :=
  forall r r', r ∈ reads -> r' ∈ reads -> contentHash r = contentHash r' -> r = r'.

Lemma stored_consistent `{HashLib} n full lastRead lastChunk :
  Forall (fun r => length r = n) full ->
  (length lastRead = n -> lastChunk = lastRead) ->
  collision_free (full ++ [lastRead]) ->
  consistent (full ++ [lastRead]) (full ++ [lastChunk]).
Proof.
  intros Hf Hl Hcf i j r r' c c' Hi Hj Hci Hcj Heq.
  assert (Hrr : r = r') by (apply Hcf; [by eapply list_elem_of_lookup_2..|done]). subst r'.
  assert (Hcase : forall i r c, (full ++ [lastRead]) !! i = Some r -> (full ++ [lastChunk]) !! i = Some c ->
            (r ∈ full /\ c = r) \/ (r = lastRead /\ c = lastChunk)).
  { clear -Hf. intros i r c Hr Hc. apply lookup_app_Some in Hr as [Hr|[Hge Hr]].
    - rewrite lookup_app_l in Hc by (by eapply lookup_lt_Some). left.
      split; [by eapply list_elem_of_lookup_2|congruence].
    - rewrite lookup_app_r in Hc by done. right.
      apply list_lookup_singleton_Some in Hr as [_ <-].
      by apply list_lookup_singleton_Some in Hc as [_ <-]. }
  rewrite list.Forall_forall in Hf.
  destruct (Hcase i r c Hi Hci) as [[Hr1 ->]|[Hr1 ->]], (Hcase j r c' Hj Hcj) as [[Hr2 ->]|[Hr2 ->]];
    subst; try done.
  - symmetry. apply Hl. by apply Hf.
  - apply Hl. by apply Hf.
Qed.

Lemma chunkSize_Z : Z.of_nat chunkSize = 4194304.
Proof. unfold chunkSize. rewrite !Nat2Z.inj_mul. reflexivity. Qed.
#[local] Opaque chunkSize.

Section Theorems.
Context `{J : WireJson} `{!WireJsonLaws J}.

Lemma handleRequest_chunk infos d info fh jobId k h c :
  infos !! fh = Some info -> ChunkHashes info !! k = Some h -> d !! h = Some c ->
  Zlen (marshalReq (mkReq fh (Z.of_nat k) jobId)) < 2 ^ 32 ->
  handleRequest infos d (frame (marshalReq (mkReq fh (Z.of_nat k) jobId)))
  = Ok (Some (frame (marshalChunk
      (mkChunk fh (Z.of_nat k) (Zlen (ChunkHashes info)) jobId c)))).
Proof.
  intros Hinfo Hh Hc Hlen. unfold handleRequest. rewrite readLength_frame by done.
  unfold Zlen at 1. rewrite Nat2Z.id, take_ge by done.
  unfold Zlen at 1. rewrite Nat2Z.id, Nat.sub_diag. simpl. rewrite app_nil_r, unmarshal_marshalReq.
  unfold lookupChunk. simpl. rewrite Hinfo. simpl. unfold index. rewrite decide_True by lia.
  rewrite Nat2Z.id, Hh. simpl. by rewrite Hc.
Qed.

Lemma receiveChunk_frame c :
  Zlen (marshalChunk c) < 2 ^ 32 -> receiveChunk (frame (marshalChunk c)) = inl c.
Proof.
  intros Hlen. unfold receiveChunk. rewrite readLength_frame by done.
  rewrite (proj2 (Z.ltb_ge _ _)) by lia. unfold Zlen.
  by rewrite Nat2Z.id, take_ge, unmarshal_marshalChunk by done.
Qed.

(** A world that serves, pays, writes and leaves the job alone. *)
Definition smooth (infos : gmap string FileInfo) (d : dir) (w : World) : Prop :=
  (forall k bytes, peer w k bytes = honestPeer infos d k bytes) /\
  (forall k, payFee w k = None) /\ (forall k, appendOk w k = true) /\
  (forall k m, others w k m = m).

(** Every message of the transfer fits the 32-bit length header. *)
Definition messages_fit (fh jobId : string) (n : Z) (chunks : list (list Z)) : Prop :=
  (forall k, 0 <= k < n -> Zlen (marshalReq (mkReq fh k jobId)) < 2 ^ 32) /\
  (forall k c, 0 <= k < n -> c ∈ chunks -> Zlen (marshalChunk (mkChunk fh k n jobId c)) < 2 ^ 32).

Definition costOf (jobId : string) (priceInt : option Z) (m : JobManager) : JobManager :=
  match priceInt with Some p => UpdateJobCost jobId (i64 p) m | None => m end.

Definition running (jobId : string) (m : JobManager) : Prop :=
  GetJobStatus jobId m <> "terminated"%string /\ GetJobStatus jobId m <> "paused"%string.

Lemma running_cost jobId priceInt m : running jobId m -> running jobId (costOf jobId priceInt m).
Proof. unfold running, costOf. destruct priceInt; [|done]. by rewrite GetJobStatus_cost. Qed.

Lemma downloadLoop_honest infos d w info fh jobId priceInt chunks :
  smooth infos d w -> infos !! fh = Some info ->
  Forall2 (fun h c => d !! h = Some c) (ChunkHashes info) chunks ->
  messages_fit fh jobId (Zlen chunks) chunks ->
  forall rest fuel k st, chunks = take k chunks ++ rest -> length (take k chunks) = k ->
  rest <> [] -> (length rest <= fuel)%nat -> running jobId (manager st) ->
  downloadLoop fuel w fh jobId priceInt k st
  = Ok (mkClient
          (<[fh := default [] (requested st !! fh) ++ concat rest]> (requested st))
          (UpdateJobStatus jobId "finished"
             (Nat.iter (length rest) (costOf jobId priceInt) (manager st)))
          (payments st + length rest), None).
Proof.
  intros (Hpeer & Hfee & Hok & Hoth) Hinfo Hall [Hreq Hch].
  induction rest as [|c rest IH]; intros fuel k st Hsplit Hk Hne Hfuel Hrun; [done|].
  destruct fuel as [|fuel]; [simpl in Hfuel; lia|].
  assert (Hck : chunks !! k = Some c)
    by (rewrite Hsplit, lookup_app_r by lia; rewrite Hk, Nat.sub_diag; done).
  destruct (Forall2_lookup_r _ _ _ _ _ Hall Hck) as (h & Hh & Hc).
  assert (Hn : Zlen (ChunkHashes info) = Zlen chunks)
    by (unfold Zlen; by rewrite (Forall2_length Hall)).
  assert (Hlen : length chunks = (k + S (length rest))%nat)
    by (rewrite Hsplit, length_app, Hk; done).
  assert (Hbound : 0 <= Z.of_nat k < Zlen chunks) by (unfold Zlen; lia).
  cbn [downloadLoop]. rewrite Hpeer. unfold honestPeer.
  rewrite (handleRequest_chunk infos d info fh jobId k h c) by auto.
  rewrite Hn, receiveChunk_frame by (apply Hch; [done|by eapply list_elem_of_lookup_2]).
  rewrite Hfee, Hok. cbn [ch_FileHash ch_Data ch_ChunkIndex ch_MaxChunk].


  destruct rest as [|c' rest].
  - rewrite (proj2 (Z.eqb_eq _ _)) by (unfold Zlen; simpl in Hlen; lia).
    unfold setManager. simpl. rewrite app_nil_r. do 3 f_equal; [by destruct priceInt|lia].
  - rewrite (proj2 (Z.eqb_neq _ _)) by (unfold Zlen; simpl in Hlen; lia).
    set (st' := mkClient _ _ (S (payments st))).
    assert (Hst : manager st' = costOf jobId priceInt (manager st)) by (by destruct priceInt).
    assert (Hnext : downloadLoop fuel w fh jobId priceInt (S k) st'
       = Ok (mkClient
          (<[fh := default [] (requested st !! fh) ++ concat (c :: c' :: rest)]> (requested st))
          (UpdateJobStatus jobId "finished"
             (Nat.iter (length (c :: c' :: rest)) (costOf jobId priceInt) (manager st)))
          (payments st + length (c :: c' :: rest)), None)).
    { rewrite IH; [| | |done|simpl in *; lia|by rewrite Hst; apply running_cost].
      - rewrite Hst, Nat.iter_swap. unfold st'. simpl requested. simpl payments.
        rewrite lookup_insert_eq, insert_insert_eq. simpl default. simpl concat. rewrite <- app_assoc.
        do 3 f_equal. simpl. lia.
      - rewrite (take_S_r _ _ c), <- app_assoc by done. done.
      - rewrite length_take. lia. }
    destruct (running_cost jobId priceInt _ Hrun) as [Hnt Hnp].
    unfold setManager. rewrite Hoth. simpl manager. rewrite <- Hst in Hnt, Hnp.
    case_decide; [done|]. rewrite (decide_False (P := _ = "terminated"%string)) by done.
    rewrite decide_False by done. done.
Qed.

(** C35. Against a peer that runs the handler, with payments and writes that
    succeed, a download ends without error after exactly one payment per
    chunk: the requested file is what it held before followed by the stored
    chunks in order, every other file is untouched, the job is "finished" and
    charged the price once per chunk. *)
Theorem GetFileOnce_honest infos d w info fh jobId priceInt chunks fuel st
    (Hw : smooth infos d w) (Hinfo : infos !! fh = Some info)
    (Hstored : Forall2 (fun h c => d !! h = Some c) (ChunkHashes info) chunks)
    (Hfit : messages_fit fh jobId (Zlen chunks) chunks) (Hne : chunks <> [])
    (Hfuel : (length chunks <= fuel)%nat) (Hrun : running jobId (manager st)) :
  GetFileOnce fuel w None fh jobId priceInt st
  = Ok (mkClient (<[fh := default [] (requested st !! fh) ++ concat chunks]> (requested st))
          (UpdateJobStatus jobId "finished"
             (Nat.iter (length chunks) (costOf jobId priceInt) (manager st)))
          (payments st + length chunks), None).
Proof. by apply (downloadLoop_honest infos d w info fh jobId priceInt chunks). Qed.

(** C36. End to end: a file chunked by [SaveChunkedFile] and registered with
    the key information it returned is downloaded as the original bytes
    followed by the stale buffer bytes of its last chunk, so exactly as the
    original when its size is a multiple of the chunk size. *)
Theorem SaveChunkedFile_GetFileOnce `{HashLib} infos d key info removeErr w fh jobId priceInt
    full lastRead fileName fuel st d0
    (Hfull : Forall (fun r => length r = chunkSize) full)
    (Hlast : lastRead <> []) (Hle : (length lastRead <= chunkSize)%nat)
    (Hsave : SaveChunkedFile (fun _ => Written) removeErr (inl (full ++ [lastRead], None)) fileName d0
             = (d, inl (key, info)))
    (Hcf : collision_free (full ++ [lastRead]))
    (Hw : smooth infos d w) (Hinfo : infos !! fh = Some info) (Hfresh : requested st !! fh = None)
    (Hfit : messages_fit fh jobId (Zlen (full ++ [lastRead]))
              (padded (replicate chunkSize 0) (full ++ [lastRead])))
    (Hfuel : (length full < fuel)%nat) (Hrun : running jobId (manager st)) :
  exists st', GetFileOnce fuel w None fh jobId priceInt st = Ok (st', None) /\
    requested st' !! fh = Some (concat (full ++ [lastRead])
      ++ drop (length lastRead) (default (replicate chunkSize 0) (list.last full))) /\
    (length lastRead = chunkSize -> requested st' !! fh = Some (concat (full ++ [lastRead]))).
Proof.
  assert (Hreads : Forall (fun r => r <> []) (full ++ [lastRead])).
  { apply list.Forall_app. split; [|by apply Forall_singleton].
    eapply list.Forall_impl; [exact Hfull|]. intros r Hr ->. by apply (Nat.lt_irrefl 0). }
  unfold SaveChunkedFile in Hsave. rewrite chunkLoop_written in Hsave by done.
  injection Hsave as Hd _ <-.
  set (chunks := padded (replicate chunkSize 0) (full ++ [lastRead])) in *.
  assert (Hzeros : length (replicate chunkSize 0) = chunkSize) by apply length_replicate.
  assert (Hchunks := padded_full_list chunkSize _ full lastRead Hzeros Hfull). fold chunks in Hchunks.
  assert (Hcat := padded_full chunkSize _ full lastRead Hzeros Hfull). fold chunks in Hcat.
  assert (Hdl : length (default (replicate chunkSize 0) (list.last full)) = chunkSize).
  { destruct (list.last full) as [c|] eqn:Hl; [|done].
    apply last_Some_elem_of in Hl. rewrite list.Forall_forall in Hfull. by apply Hfull. }
  assert (Hn : length chunks = length (full ++ [lastRead])) by (rewrite Hchunks, !length_app; done).
  assert (Hstored : Forall2 (fun h c => d !! h = Some c) (contentHash <$> (full ++ [lastRead])) chunks).
  { apply Forall2_fmap_l. subst d. apply (storeChunks_lookup _ chunks d0); [done|].
    rewrite Hchunks. apply (stored_consistent chunkSize); [done| |done].
    intros Hfl. unfold fillBuffer. rewrite drop_ge by lia. apply app_nil_r. }
  assert (Hfit' : messages_fit fh jobId (Zlen chunks) chunks) by (unfold Zlen; by rewrite Hn).
  assert (Hne : chunks <> []) by (rewrite Hchunks; by destruct full).
  eexists. split.
  - apply (downloadLoop_honest infos d w _ fh jobId priceInt chunks Hw Hinfo Hstored Hfit'
             chunks fuel 0 st); [done|done|done| |done].
    rewrite Hn, length_app. simpl. lia.
  - simpl. rewrite lookup_insert_eq, Hfresh, Hcat. split; [done|].
    intros Hfl. simpl. f_equal. rewrite drop_ge by lia. by rewrite app_nil_r.
Qed.

(** A request for an unknown file or an index outside the hash list does
    not close the stream: it panics the serving node. *)
Theorem handleRequest_out_of_range infos d fh i jobId
    (Hrange : match infos !! fh with
              | Some info => i < 0 \/ Zlen (ChunkHashes info) <= i
              | None => True
              end)
    (Hfit : Zlen (marshalReq (mkReq fh i jobId)) < 2 ^ 32) :
  handleRequest infos d (frame (marshalReq (mkReq fh i jobId))) = Panic.
Proof.
  unfold handleRequest. rewrite readLength_frame by done.
  unfold Zlen at 1. rewrite Nat2Z.id, take_ge by done.
  unfold Zlen at 1. rewrite Nat2Z.id, Nat.sub_diag. simpl. rewrite app_nil_r, unmarshal_marshalReq.
  unfold lookupChunk. simpl. assert (forall l : list string, i < 0 \/ Zlen l <= i -> index (E:=string) l i = Panic) as Hp.
  { intros l Hl. unfold index, Zlen in *. case_decide; [|done].
    by rewrite lookup_ge_None_2 by lia. }
  destruct (infos !! fh) as [info|]; simpl; [by rewrite Hp|].
  rewrite Hp; [done|]. unfold Zlen. simpl. lia.
Qed.

(** The client trusts the index in the answer: a peer that keeps
    answering a chunk which is not the last one is paid in every round and
    the download never ends, whatever was requested. *)
Theorem downloadLoop_trusts_index w fh jobId priceInt c fuel k st
    (Hpeer : forall k bytes, peer w k bytes = Response (frame (marshalChunk c)))
    (Hfit : Zlen (marshalChunk c) < 2 ^ 32)
    (Hidx : ch_ChunkIndex c <> ch_MaxChunk c - 1)
    (Hfee : forall k, payFee w k = None) (Hok : forall k, appendOk w k = true)
    (Hoth : forall k m, others w k m = m) (Hrun : running jobId (manager st)) :
  downloadLoop fuel w fh jobId priceInt k st = Hang.
Proof.
  revert k st Hrun; induction fuel as [|fuel IH]; intros k st Hrun; [done|].
  cbn [downloadLoop]. rewrite Hpeer, receiveChunk_frame, Hfee, Hok by done.
  rewrite (proj2 (Z.eqb_neq _ _)) by done.
  destruct (running_cost jobId priceInt _ Hrun) as [Hnt Hnp].
  unfold setManager. rewrite Hoth. simpl manager.
  assert (Heq : (match priceInt with Some p => UpdateJobCost jobId (i64 p) | None => fun m => m end)
                  (manager st) = costOf jobId priceInt (manager st)) by (by destruct priceInt).
  rewrite Heq. case_decide; [by apply IH; simpl; apply running_cost|].
  rewrite !decide_False by done. apply IH. simpl. by apply running_cost.
Qed.

(** Terminating the job stops the download after the chunk in flight:
    one more payment, no error, and the file keeps what was received. *)
Theorem downloadLoop_terminated w fh jobId priceInt c fuel k st
    (Hpeer : peer w k (frame (marshalReq (mkReq fh (Z.of_nat k) jobId))) = Response (frame (marshalChunk c)))
    (Hfit : Zlen (marshalChunk c) < 2 ^ 32)
    (Hidx : ch_ChunkIndex c <> ch_MaxChunk c - 1) (Hjob : jobId <> EmptyString)
    (Hfee : payFee w k = None) (Hok : appendOk w k = true)
    (Hterm : GetJobStatus jobId (others w k (costOf jobId priceInt (manager st))) = "terminated"%string) :
  downloadLoop (S fuel) w fh jobId priceInt k st
  = Ok (mkClient
          (<[ch_FileHash c := default [] (requested st !! ch_FileHash c) ++ ch_Data c]> (requested st))
          (others w k (costOf jobId priceInt (manager st))) (S (payments st)), None).
Proof.
  cbn [downloadLoop]. rewrite Hpeer, receiveChunk_frame, Hfee, Hok by done.
  rewrite (proj2 (Z.eqb_neq _ _)), decide_False by done. unfold setManager. simpl manager.
  assert (Heq : (match priceInt with Some p => UpdateJobCost jobId (i64 p) | None => fun m => m end)
                  (manager st) = costOf jobId priceInt (manager st)) by (by destruct priceInt).
  rewrite Heq, decide_True by done. done.
Qed.

End Theorems.

(** ** The chosen holder *)
Lemma holderLoop_best peerId holders best selected :
  match fst (holderLoop peerId holders best selected) with
  | None => best = None /\ holders = []
  | Some b => (best = Some b \/ b ∈ holders) /\
      (forall b0, best = Some b0 -> Market.GetPrice b <= Market.GetPrice b0) /\
      Forall (fun h => Market.GetPrice b <= Market.GetPrice h) holders
  end.
Proof.
  revert best selected; induction holders as [|h holders IH]; intros best selected; simpl.
  - destruct best; [|done]. split_and!; [by left| |constructor]. intros b0 [= ->]. lia.
  - set (best' := match best with None => _ | Some _ => _ end).
    specialize (IH best' (if decide (Market.GetId h = peerId) then Some h else selected)).
    destruct (fst _) as [b|].
    + destruct IH as (Hin & Hbest & Hall).
      assert (exists b', best' = Some b' /\ Market.GetPrice b' <= Market.GetPrice h /\
               (b' = h \/ best = Some b') /\ (forall b0, best = Some b0 -> Market.GetPrice b' <= Market.GetPrice b0))
        as (b' & Hb' & Hle & Hor & Hb0).
      { unfold best'. destruct best as [b0|]; [|exists h; naive_solver lia].
        destruct (Z.ltb_spec (Market.GetPrice h) (Market.GetPrice b0));
          eexists; (split; [done|]); naive_solver lia. }
      specialize (Hbest b' Hb'). split_and!.
      * rewrite Hb' in Hin. rewrite elem_of_cons. naive_solver.
      * intros b0 Hb. specialize (Hb0 b0 Hb). lia.
      * constructor; [lia|done].
    + destruct IH as [IH _]. unfold best' in IH. destruct best; [|done]. by destruct (_ <? _).
Qed.

Lemma holderLoop_selected peerId holders best selected :
  snd (holderLoop peerId holders best selected)
  = match list.last (filter (fun h => Market.GetId h = peerId) holders) with
    | Some h => Some h
    | None => selected
    end.
Proof.
  revert best selected; induction holders as [|h holders IH]; intros best selected; simpl; [done|].
  rewrite IH, filter_cons. case_decide; [|done]. rewrite last_cons. by case_match.
Qed.

(** A download uses the holder the user named when it is listed (its last
    record), otherwise a cheapest holder of the list; it gives up only when
    there is no holder at all. *)
Theorem chooseHolder_spec peerId holders :
  match chooseHolder peerId holders with
  | None => holders = []
  | Some h =>
      if decide (peerId ∈ (Market.GetId <$> holders))
      then list.last (filter (fun h => Market.GetId h = peerId) holders) = Some h
      else h ∈ holders /\ Forall (fun h' => Market.GetPrice h <= Market.GetPrice h') holders
  end.
Proof.
  unfold chooseHolder.
  pose proof (holderLoop_best peerId holders None None) as Hb.
  pose proof (holderLoop_selected peerId holders None None) as Hs.
  destruct (holderLoop peerId holders None None) as [b s]. simpl in Hb, Hs.
  destruct (list.last _) as [h|] eqn:Hl; subst s.
  - rewrite decide_True; [done|]. apply last_Some_elem_of, list_elem_of_filter in Hl as [<- Hin].
    by apply list_elem_of_fmap_2.
  - apply last_None in Hl. destruct b as [b|]; [|by destruct Hb].
    rewrite decide_False.
    + destruct Hb as ([?|?] & _ & ?); done.
    + intros (h & -> & Hin)%list_elem_of_fmap.
      assert (h ∈ filter (fun h' => Market.GetId h' = Market.GetId h) holders) as Hf
        by (by apply list_elem_of_filter).
      rewrite Hl in Hf. by apply elem_of_nil in Hf.
Qed.

(** ** Witnesses *)
Module Toy.

(** A stand-in for JSON: length-prefixed strings. *)
Fixpoint stringOf (l : list Z) : string :=
  match l with
  | [] => EmptyString
  | b :: l => String (Ascii.ascii_of_nat (Z.to_nat b)) (stringOf l)
  end.

Definition encStr (s : string) : list Z := Zlen (bytesOf s) :: bytesOf s.

Definition decStr (l : list Z) : option (string * list Z) :=
  match l with
  | [] => None
  | n :: rest => Some (stringOf (take (Z.to_nat n) rest), drop (Z.to_nat n) rest)
  end.

Lemma stringOf_bytesOf s : stringOf (bytesOf s) = s.
Proof.
  induction s as [|c s IH]; simpl; [done|].
  by rewrite Nat2Z.id, Ascii.ascii_nat_embedding, IH.
Qed.

Lemma decStr_encStr s rest : decStr (encStr s ++ rest) = Some (s, rest).
Proof.
  unfold encStr, decStr, Zlen. simpl. rewrite Nat2Z.id, take_app_length, drop_app_length.
  by rewrite stringOf_bytesOf.
Qed.

#[local] Opaque encStr decStr.

#[export] Instance toyJson : WireJson := {|
  marshalReq r := rq_ChunkIndex r :: encStr (rq_FileHash r) ++ encStr (rq_JobId r);
  unmarshalReq l :=
    match l with
    | i :: l => '(fh, l) ← decStr l; '(job, _) ← decStr l; Some (mkReq fh i job)
    | [] => None
    end;
  marshalChunk c := ch_ChunkIndex c :: ch_MaxChunk c
    :: encStr (ch_FileHash c) ++ encStr (ch_JobId c) ++ ch_Data c;
  unmarshalChunk l :=
    match l with
    | i :: n :: l => '(fh, l) ← decStr l; '(job, l) ← decStr l; Some (mkChunk fh i n job l)
    | _ => None
    end;
|}.

#[export] Instance toyJsonLaws : WireJsonLaws toyJson.
Proof.
  split.
  - intros [fh i job]. simpl. rewrite decStr_encStr. simpl.
    rewrite <- (app_nil_r (encStr job)), decStr_encStr. done.
  - intros [fh i n job data]. simpl. rewrite decStr_encStr. simpl. by rewrite decStr_encStr.
Qed.

#[local] Transparent encStr decStr.

Definition world (infos : gmap string FileInfo) (d : dir) : World :=
  mkWorld (honestPeer infos d) (fun _ => None) (fun _ => true) (fun _ m => m) (fun _ _ m => m).

Definition info : FileInfo := mkFileInfo [] ["h0"; "h1"]%string 3 "f".
Definition infos : gmap string FileInfo := {["F"%string := info]}.
Definition d : dir := {["h0"%string := [1; 2]; "h1"%string := [3]]}.
Definition st : ClientState := mkClient ∅ (mkManager [Jobs.Toy.job "a" "active"] false) 0.

Lemma GetFileOnce_honest_witness :
  GetFileOnce 2 (world infos d) None "F" "a" (Some 7) st
  = Ok (mkClient (<["F"%string := [] ++ [1; 2; 3]]> ∅)
          (UpdateJobStatus "a" "finished"
             (Nat.iter 2 (costOf "a" (Some 7)) (manager st))) 2, None).
Proof.
  apply (GetFileOnce_honest infos d (world infos d) info "F" "a" (Some 7) [[1; 2]; [3]] 2 st).
  - split_and!; reflexivity.
  - reflexivity.
  - repeat constructor.
  - split.
    + intros k Hk. reflexivity.
    + intros k c Hk Hc. apply list_elem_of_In in Hc. simpl in Hc.
      destruct Hc as [<-|[<-|[]]]; reflexivity.
  - discriminate.
  - apply le_n.
  - split; discriminate.
Defined.

Lemma marshalChunk_length c :
  Zlen (marshalChunk c)
  = 4 + Zlen (bytesOf (ch_FileHash c)) + Zlen (bytesOf (ch_JobId c)) + Zlen (ch_Data c).
Proof.
  destruct c as [fh i n job data]. simpl. unfold encStr.
  rewrite !Zlen_cons, Zlen_app, !Zlen_cons, !Zlen_app. lia.
Qed.

(** A three byte file, chunked with the stand-in digest. *)
#[local] Existing Instance Storage.Toy.toyHash.

Definition short : list Z := [5; 6; 7].
Definition chunked : dir * ((string * FileInfo) + string) :=
  SaveChunkedFile (fun _ => Written) (fun _ => None) (inl ([] ++ [short], None)) "f" ∅.
Definition shortInfo : FileInfo := mkFileInfo (sha256 []) [contentHash short] 3 "f".

Lemma SaveChunkedFile_GetFileOnce_witness :
  exists st', GetFileOnce 1 (world {["F"%string := shortInfo]} (fst chunked)) None "F" "a" (Some 7) st
    = Ok (st', None) /\
    requested st' !! "F"%string = Some (concat ([] ++ [short])
      ++ drop (length short) (default (replicate chunkSize 0) (list.last (@nil (list Z))))) /\
    (length short = chunkSize -> requested st' !! "F"%string = Some (concat ([] ++ [short]))).
Proof.
  eapply (SaveChunkedFile_GetFileOnce {["F"%string := shortInfo]} (fst chunked) _ shortInfo
            (fun _ => None) _ "F" "a" (Some 7) [] short "f" 1 st ∅).
  - constructor.
  - discriminate.
  - apply Nat2Z.inj_le. rewrite chunkSize_Z. discriminate.
  - unfold chunked, SaveChunkedFile. rewrite chunkLoop_written by (repeat constructor; discriminate).
    reflexivity.
  - intros r r' [->|[]%elem_of_nil]%elem_of_cons [->|[]%elem_of_nil]%elem_of_cons _. reflexivity.
  - split_and!; reflexivity.
  - reflexivity.
  - reflexivity.
  - split.
    + intros k Hk. reflexivity.
    + intros k c Hk Hc. rewrite marshalChunk_length.
      assert (Hlen : Zlen c = 4194304).
      { rewrite <- chunkSize_Z. unfold Zlen. f_equal.
        assert (Hall : Forall (fun c => length c = chunkSize) (padded (replicate chunkSize 0) ([] ++ [short]))).
        { apply padded_lengths; [apply length_replicate|]. repeat constructor.
          apply Nat2Z.inj_le. rewrite chunkSize_Z. discriminate. }
        rewrite list.Forall_forall in Hall. by apply Hall. }
      simpl ch_Data. rewrite Hlen. reflexivity.
  - apply le_n.
  - split; discriminate.
Defined.

Lemma handleRequest_out_of_range_witness :
  handleRequest infos d (frame (marshalReq (mkReq "F" 2 "a"))) = Panic.
Proof. apply handleRequest_out_of_range; [right; discriminate|reflexivity]. Defined.

(** A peer that answers every request with an empty chunk 0 of 2. *)
Definition stubborn : World :=
  mkWorld (fun _ _ => Response (frame (marshalChunk (mkChunk "F" 0 2 "a" []))))
    (fun _ => None) (fun _ => true) (fun _ m => m) (fun _ _ m => m).

Lemma downloadLoop_trusts_index_witness : downloadLoop 50 stubborn "F" "a" (Some 7) 0 st = Hang.
Proof.
  apply (downloadLoop_trusts_index _ _ _ _ (mkChunk "F" 0 2 "a" [])); try reflexivity;
    [discriminate|split; discriminate].
Defined.

(** The user terminates the job before the first poll. *)
Definition stopping : World :=
  mkWorld (honestPeer infos d) (fun _ => None) (fun _ => true)
    (fun _ m => UpdateJobStatus "a" "terminated" m) (fun _ _ m => m).

Lemma downloadLoop_terminated_witness :
  downloadLoop 1 stopping "F" "a" (Some 7) 0 st
  = Ok (mkClient (<["F"%string := [] ++ [1; 2]]> ∅)
          (UpdateJobStatus "a" "terminated" (costOf "a" (Some 7) (manager st))) 1, None).
Proof.
  apply (downloadLoop_terminated stopping "F" "a" (Some 7) (mkChunk "F" 0 2 "a" [1; 2]) 0 0 st);
    try reflexivity; discriminate.
Defined.

End Toy.

End Transfer.
