(* ===== verification/Vlq.v ===== *)
(** * Variable length quantities

    Models the VLQ encoding of coin/OrcaNet/blockchain/compress.go:
    [serializeSizeVLQ], the in-place [putVLQ] with its reversal loop, and
    [deserializeVLQ].  The loops run on a uint64, at most ten times. *)

From S2P Require Import Prelude.

Module Vlq.

(** ** The code *)

(** for ; n > 0x7f; n = (n >> 7) - 1 { size++ } *)
Fixpoint sizeLoop (fuel : nat) (n size : Z) : outcome unit Z :=
  match fuel with
  | O => Hang
  | S fuel =>
      if 0x7f <? n then sizeLoop fuel (u64 (Z.shiftr n 7 - 1)) (size + 1) else Ok size
  end.

(** Ten groups of seven bits cover a uint64. *)
Definition vlqFuel : nat := 10.

Definition serializeSizeVLQ (n : Z) : outcome unit Z := sizeLoop vlqFuel n 1.

(** target[offset] = b, out of range panics. *)
Definition setByte (target : list Z) (offset : nat) (b : Z) : outcome unit (list Z) :=
  if decide (offset < length target)%nat then Ok (<[offset := b]> target) else Panic.

(** The digit loop: least significant group first. *)
Fixpoint putLoop (fuel : nat) (target : list Z) (offset : nat) (n : Z)
    : outcome unit (list Z * nat) :=
  match fuel with
  | O => Hang
  | S fuel =>
      let highBitMask := if decide (offset = 0%nat) then 0x00 else 0x80 in
      target ← setByte target offset (Z.lor (u8 (Z.land n 0x7f)) highBitMask);
      if n <=? 0x7f then Ok (target, offset)
      else putLoop fuel target (S offset) (u64 (Z.shiftr n 7 - 1))
  end.

(** for i, j := 0, offset; i < j; i, j = i+1, j-1 { swap } *)
Fixpoint swapLoop (fuel : nat) (target : list Z) (i j : nat) : list Z :=
  match fuel with
  | O => target
  | S fuel =>
      if decide (i < j)%nat then
        match target !! i, target !! j with
        | Some a, Some b => swapLoop fuel (<[j := a]> (<[i := b]> target)) (S i) (j - 1)
        | _, _ => target
        end
      else target
  end.

Definition putVLQ (target : list Z) (n : Z) : outcome unit (list Z * Z) :=
  '(target, offset) ← putLoop vlqFuel target 0 n;
  mret (swapLoop (S offset) target 0 offset, Z.of_nat offset + 1).

Fixpoint deserializeLoop (serialized : list Z) (n size : Z) : Z * Z :=
  match serialized with
  | [] => (n, size)
  | val :: serialized =>
      let size := size + 1 in
      let n := Z.lor (u64 (Z.shiftl n 7)) (Z.land val 0x7f) in
      if negb (Z.land val 0x80 =? 0x80) then (n, size)
      else deserializeLoop serialized (u64 (n + 1)) size
  end.

Definition deserializeVLQ (serialized : list Z) : Z * Z := deserializeLoop serialized 0 0.

(** ** The encoding as a function: most significant group first *)

(** The groups above the last, each with its high bit set. *)
Fixpoint highGroups (fuel : nat) (m : Z) : list Z :=
  match fuel with
  | O => []
  | S fuel => (if m <=? 0x7f then [] else highGroups fuel (m / 128 - 1)) ++ [m mod 128 + 128]
  end.

Definition vlq (n : Z) : list Z :=
  (if n <=? 0x7f then [] else highGroups vlqFuel (n / 128 - 1)) ++ [n mod 128].

Definition vlqLen (n : Z) : Z := Zlen (vlq n).

(** ** Bit facts *)

Lemma group_bits b : 0 <= b < 128 ->
  Z.lor b 0x80 = b + 128 /\ Z.land (b + 128) 0x7f = b /\ Z.land (b + 128) 0x80 = 0x80 /\
  Z.land b 0x7f = b /\ Z.land b 0x80 = 0.
Proof.
  intros Hb.
  pose proof (byte_cases (fun b => (128 <=? b)
    || ((Z.lor b 0x80 =? b + 128) && (Z.land (b + 128) 0x7f =? b)
    && (Z.land (b + 128) 0x80 =? 0x80) && (Z.land b 0x7f =? b) && (Z.land b 0x80 =? 0)))%bool
    ltac:(vm_compute; reflexivity) b ltac:(unfold byte_ok; lia)) as H.
  simpl in H. apply orb_true_iff in H as [H|H]; [lia|].
  rewrite !andb_true_iff, !Z.eqb_eq in H. tauto.
Qed.

Lemma land_7f n : Z.land n 0x7f = n mod 128.
Proof. change 0x7f with (Z.ones 7). by rewrite Z.land_ones by lia. Qed.

Lemma shiftr_7 n : Z.shiftr n 7 = n / 128.
Proof. by rewrite Z.shiftr_div_pow2 by lia. Qed.

Lemma group_range n : 0 <= n mod 128 < 128.
Proof. apply Z.mod_pos_bound. lia. Qed.

(** Dropping a group of a uint64 above 0x7f stays a uint64. *)
Lemma drop_group n : 0x7f < n < 2 ^ 64 -> u64 (Z.shiftr n 7 - 1) = n / 128 - 1.
Proof.
  intros Hn. rewrite shiftr_7. apply u64_small.
  pose proof (Z.div_mod n 128). pose proof (group_range n). lia.
Qed.

Lemma drop_group_bound n k :
  0x7f < n < 128 ^ (Z.of_nat (S k)) -> 0 <= n / 128 - 1 < 128 ^ Z.of_nat k.
Proof.
  intros Hn. rewrite Nat2Z.inj_succ, Z.pow_succ_r in Hn by lia.
  pose proof (Z.div_mod n 128). pose proof (group_range n). lia.
Qed.

(** ** putVLQ writes the encoding *)

(** The digits in the order of the loop. *)
Fixpoint lsbDigits (fuel : nat) (mask n : Z) : list Z :=
  match fuel with
  | O => []
  | S fuel => (n mod 128 + mask)
              :: (if n <=? 0x7f then [] else lsbDigits fuel 128 (n / 128 - 1))
  end.

Lemma rev_lsbDigits fuel n : rev (lsbDigits fuel 128 n) = highGroups fuel n.
Proof.
  revert n; induction fuel as [|fuel IH]; intros n; [done|]. simpl.
  case_match; [done|]. by rewrite IH.
Qed.

Lemma rev_digits n : rev (lsbDigits (S vlqFuel) 0 n) = vlq n.
Proof.
  unfold vlq. cbn [lsbDigits rev]. rewrite Z.add_0_r. f_equal.
  case_match; [done|]. apply rev_lsbDigits.
Qed.

(** Fuel beyond the number of groups is not used. *)
Lemma lsbDigits_fuel k fuel fuel' mask n :
  0 <= n < 128 ^ Z.of_nat k -> (k <= fuel)%nat -> (k <= fuel')%nat -> (0 < k)%nat ->
  lsbDigits fuel mask n = lsbDigits fuel' mask n.
Proof.
  revert fuel fuel' mask n; induction k as [|k IH]; intros fuel fuel' mask n Hn Hf Hf' Hk; [lia|].
  destruct fuel as [|fuel], fuel' as [|fuel']; try lia. simpl. f_equal.
  destruct (Z.leb_spec n 0x7f); [done|].
  destruct k as [|k]; [change (128 ^ Z.of_nat 1) with 128 in Hn; lia|].
  apply IH; [|lia..]. apply drop_group_bound. lia.
Qed.

Lemma setByte_mid pre x post b :
  setByte (pre ++ x :: post) (length pre) b = Ok (pre ++ b :: post).
Proof.
  unfold setByte. rewrite decide_True by (rewrite length_app; simpl; lia).
  f_equal. rewrite insert_app_r_alt by lia. by rewrite Nat.sub_diag.
Qed.

Lemma putLoop_spec fuel pre post n :
  0 <= n < 2 ^ 64 -> 0 <= n < 128 ^ Z.of_nat fuel -> (0 < fuel)%nat ->
  (length (lsbDigits fuel 0 n) <= length post)%nat ->
  let digits := lsbDigits fuel (if decide (length pre = 0%nat) then 0 else 128) n in
  putLoop fuel (pre ++ post) (length pre) n
  = Ok (pre ++ digits ++ drop (length digits) post, length pre + length digits - 1)%nat.
Proof.
  revert pre post n; induction fuel as [|fuel IH]; intros pre post n Hn Hf Hpos Hlen; [lia|].
  destruct post as [|x post]; [simpl in Hlen; lia|]. cbn [putLoop lsbDigits].
  rewrite land_7f, u8_small by (pose proof (group_range n); lia).
  replace (Z.lor (n mod 128) (if decide (length pre = 0%nat) then 0 else 128))
    with (n mod 128 + (if decide (length pre = 0%nat) then 0 else 128))
    by (case_decide; [by rewrite Z.lor_0_r, Z.add_0_r|by rewrite (proj1 (group_bits _ (group_range n)))]).
  rewrite setByte_mid. cbn [mbind outcome_bind].
  destruct (Z.leb_spec n 0x7f) as [Hle|Hgt].
  - simpl. do 2 f_equal. lia.
  - rewrite drop_group by lia.
    set (b := n mod 128 + _).
    assert (Hb : (length pre + 1 = length (pre ++ [b]))%nat) by (rewrite length_app; done).
    replace (pre ++ b :: post) with ((pre ++ [b]) ++ post) by (by rewrite <- app_assoc).
    replace (S (length pre)) with (length (pre ++ [b])) by lia.
    assert (Hfp : (0 < fuel)%nat)
      by (destruct fuel; [change (128 ^ Z.of_nat 1) with 128 in Hf; lia|lia]).
    assert (Hsame : forall f m1 m2 k, length (lsbDigits f m1 k) = length (lsbDigits f m2 k))
      by (intros [|f] m1 m2 k; done).
    cbn [lsbDigits] in Hlen. rewrite (proj2 (Z.leb_gt _ _)) in Hlen by done. simpl in Hlen.
    rewrite IH; [|pose proof (drop_group_bound n 9); lia|apply drop_group_bound; lia|done
                 |rewrite (Hsame _ 0 128); lia].
    rewrite decide_False by lia. simpl. rewrite <- app_assoc. simpl. do 2 f_equal. lia.
Qed.

Lemma swapLoop_rev fuel pre mid post :
  (length mid <= fuel)%nat ->
  swapLoop fuel (pre ++ mid ++ post) (length pre) (length pre + length mid - 1)
  = pre ++ rev mid ++ post.
Proof.
  revert pre mid post; induction fuel as [|fuel IH]; intros pre mid post Hf.
  - by destruct mid; [|simpl in Hf; lia].
  - destruct mid as [|a mid]; [simpl; by rewrite decide_False by lia|].
    destruct mid as [|b mid] using rev_ind; [simpl; by rewrite decide_False by lia|]. clear IHmid.
    rewrite length_cons, length_app. simpl length.
    cbn [swapLoop]. rewrite decide_True by lia.
    assert (Hi : (pre ++ (a :: mid ++ [b]) ++ post) !! length pre = Some a)
      by (rewrite lookup_app_r, Nat.sub_diag by lia; done).
    assert (Hsplit : pre ++ (a :: mid ++ [b]) ++ post = (pre ++ a :: mid) ++ b :: post)
      by (by simplify_list_eq).
    assert (Hlen : length (pre ++ a :: mid) = (length pre + S (length mid + 1) - 1)%nat)
      by (rewrite length_app; simpl; lia).
    assert (Hj : (pre ++ (a :: mid ++ [b]) ++ post) !! (length pre + S (length mid + 1) - 1)%nat = Some b)
      by (rewrite Hsplit, <- Hlen, lookup_app_r, Nat.sub_diag by lia; done).
    rewrite Hi, Hj.
    assert (Hupd : <[(length pre + S (length mid + 1) - 1)%nat := a]>
              (<[length pre := b]> (pre ++ (a :: mid ++ [b]) ++ post))
            = (pre ++ [b]) ++ mid ++ a :: post).
    { rewrite insert_app_r_alt, Nat.sub_diag by lia. simpl.
      replace (pre ++ b :: (mid ++ [b]) ++ post) with ((pre ++ b :: mid) ++ b :: post)
        by (by simplify_list_eq).
      rewrite insert_app_r_alt by (rewrite length_app; simpl; lia).
      replace (_ - length (pre ++ b :: mid))%nat with 0%nat by (rewrite length_app; simpl; lia).
      by simplify_list_eq. }
    rewrite Hupd.
    replace (S (length pre)) with (length (pre ++ [b])) by (rewrite length_app; simpl; lia).
    replace (length pre + S (length mid + 1) - 1 - 1)%nat
      with (length (pre ++ [b]) + length mid - 1)%nat by (rewrite length_app; simpl; lia).
    rewrite IH by (rewrite length_cons, length_app in Hf; simpl in Hf; lia).
    simpl. rewrite rev_app_distr. by simplify_list_eq.
Qed.

(** ** deserializeVLQ reads it back *)

Lemma join_group q g :
  0 <= g < 128 -> 0 <= q -> q * 128 + g < 2 ^ 64 ->
  Z.lor (u64 (Z.shiftl q 7)) g = q * 128 + g.
Proof.
  intros Hg Hq Hb. rewrite u64_small by (rewrite Z.shiftl_mul_pow2 by lia; lia).
  by rewrite lor_shiftl_add by lia.
Qed.

(** One byte with its high bit set, and a last byte. *)
Lemma deserializeLoop_high q g rest size :
  0 <= g < 128 -> 0 <= q -> q * 128 + g + 1 < 2 ^ 64 ->
  deserializeLoop ((g + 128) :: rest) q size = deserializeLoop rest (q * 128 + g + 1) (size + 1).
Proof.
  intros Hg Hq Hb. cbn [deserializeLoop]. destruct (group_bits g Hg) as (_ & -> & -> & _).
  rewrite join_group, u64_small by lia. done.
Qed.

Lemma deserializeLoop_last q g rest size :
  0 <= g < 128 -> 0 <= q -> q * 128 + g < 2 ^ 64 ->
  deserializeLoop (g :: rest) q size = (q * 128 + g, size + 1).
Proof.
  intros Hg Hq Hb. cbn [deserializeLoop]. destruct (group_bits g Hg) as (_ & _ & _ & -> & ->).
  by rewrite join_group by lia.
Qed.

Lemma deserializeLoop_highGroups fuel m rest size :
  0 <= m < 128 ^ Z.of_nat fuel -> (0 < fuel)%nat -> m + 1 < 2 ^ 64 ->
  deserializeLoop (highGroups fuel m ++ rest) 0 size
  = deserializeLoop rest (m + 1) (size + Zlen (highGroups fuel m)).
Proof.
  revert m rest size; induction fuel as [|fuel IH]; intros m rest size Hm Hf Hb; [lia|].
  cbn [highGroups]. pose proof (group_range m). pose proof (Z.div_mod m 128).
  destruct (Z.leb_spec m 0x7f).
  - cbn [app]. rewrite deserializeLoop_high by lia. rewrite Z.mod_small by lia.
    rewrite Zlen_cons, (@Zlen_nil Z). f_equal; lia.
  - assert (0 < fuel)%nat
      by (destruct fuel; [change (128 ^ Z.of_nat 1) with 128 in Hm; lia|lia]).
    rewrite <- app_assoc, IH; [|apply drop_group_bound; lia|done|lia].
    cbn [app]. rewrite deserializeLoop_high by lia. rewrite Zlen_app, Zlen_cons, (@Zlen_nil Z). f_equal; lia.
Qed.

Lemma uint64_groups n : 0 <= n < 2 ^ 64 -> 0 <= n < 128 ^ Z.of_nat vlqFuel.
Proof. change (128 ^ Z.of_nat vlqFuel) with (2 ^ 70). lia. Qed.

Lemma deserializeVLQ_vlq n rest :
  0 <= n < 2 ^ 64 -> deserializeVLQ (vlq n ++ rest) = (n, vlqLen n).
Proof.
  intros Hn. unfold deserializeVLQ, vlqLen, vlq. pose proof (group_range n).
  pose proof (Z.div_mod n 128). destruct (Z.leb_spec n 0x7f).
  - cbn [app]. rewrite deserializeLoop_last by lia. rewrite Z.mod_small by lia. f_equal; lia.
  - rewrite <- app_assoc, deserializeLoop_highGroups;
      [|pose proof (uint64_groups n Hn); lia|unfold vlqFuel; lia|lia].
    cbn [app]. rewrite deserializeLoop_last by lia. rewrite Zlen_app, Zlen_cons, (@Zlen_nil Z). f_equal; lia.
Qed.

(** ** Sizes *)
Lemma sizeLoop_spec fuel mask n size :
  0 <= n < 2 ^ 64 -> 0 <= n < 128 ^ Z.of_nat fuel -> (0 < fuel)%nat ->
  sizeLoop fuel n size = Ok (size + Zlen (lsbDigits fuel mask n) - 1).
Proof.
  revert mask n size; induction fuel as [|fuel IH]; intros mask n size Hn Hf Hpos; [lia|].
  cbn [sizeLoop lsbDigits]. destruct (Z.leb_spec n 0x7f).
  - rewrite (proj2 (Z.ltb_ge _ _)) by lia. rewrite Zlen_cons, (@Zlen_nil Z). f_equal. lia.
  - rewrite (proj2 (Z.ltb_lt _ _)), drop_group by lia.
    assert (0 < fuel)%nat
      by (destruct fuel; [change (128 ^ Z.of_nat 1) with 128 in Hf; lia|lia]).
    rewrite (IH 128); [|pose proof (drop_group_bound n 9); lia|apply drop_group_bound; lia|done].
    rewrite Zlen_cons. f_equal. lia.
Qed.

Lemma digits_vlq n : 0 <= n < 2 ^ 64 -> rev (lsbDigits vlqFuel 0 n) = vlq n.
Proof.
  intros Hn. rewrite <- rev_digits. f_equal.
  apply (lsbDigits_fuel vlqFuel); [by apply uint64_groups|unfold vlqFuel; lia..].
Qed.

Lemma digits_vlqLen n : 0 <= n < 2 ^ 64 -> Zlen (lsbDigits vlqFuel 0 n) = vlqLen n.
Proof. intros Hn. unfold vlqLen. rewrite <- digits_vlq by done. unfold Zlen. by rewrite length_rev. Qed.

Lemma serializeSizeVLQ_spec n : 0 <= n < 2 ^ 64 -> serializeSizeVLQ n = Ok (vlqLen n).
Proof.
  intros Hn. unfold serializeSizeVLQ.
  rewrite (sizeLoop_spec _ 0) by (auto using uint64_groups; unfold vlqFuel; lia).
  rewrite digits_vlqLen by done. f_equal. lia.
Qed.

Lemma lsbDigits_length f mask n :
  (length (lsbDigits f mask n) <= f /\ (0 < f -> 0 < length (lsbDigits f mask n)))%nat.
Proof.
  split; [|destruct f; simpl; lia]. revert mask n. induction f as [|f IH]; intros mask n; simpl; [lia|].
  case_match; simpl; [lia|]. specialize (IH 128 (n / 128 - 1)). lia.
Qed.

Lemma vlqLen_range n : 0 <= n < 2 ^ 64 -> 1 <= vlqLen n <= 10.
Proof.
  intros Hn. rewrite <- digits_vlqLen by done. destruct (lsbDigits_length vlqFuel 0 n) as [H1 H2].
  unfold Zlen. change (Z.of_nat 10) with 10 in *. unfold vlqFuel in H1 at 2. unfold vlqFuel in H2 at 1. lia.
Qed.

Lemma putVLQ_spec target n :
  0 <= n < 2 ^ 64 -> vlqLen n <= Zlen target ->
  putVLQ target n = Ok (vlq n ++ drop (length (vlq n)) target, vlqLen n).
Proof.
  intros Hn Hfit. rewrite <- digits_vlqLen in Hfit by done. unfold putVLQ.
  pose proof (putLoop_spec vlqFuel [] target n Hn (uint64_groups n Hn)) as Hput.
  simpl (length []) in Hput. cbn [app] in Hput. rewrite decide_True in Hput by done.
  rewrite Hput by (unfold vlqFuel in *; unfold Zlen in *; lia). clear Hput. cbn [mbind outcome_bind].
  pose proof (vlqLen_range n Hn) as Hr. rewrite <- digits_vlqLen in Hr by done.
  pose proof (digits_vlq n Hn) as Hrev. pose proof (digits_vlqLen n Hn) as Hl.
  set (ds := lsbDigits vlqFuel 0 n) in *. clearbody ds. rewrite <- Hrev, <- Hl.
  unfold Zlen in *. rewrite length_rev.
  pose proof (swapLoop_rev (S (length ds - 1)) [] ds (drop (length ds) target)) as Hswap.
  simpl (length []) in Hswap. cbn [app] in Hswap. rewrite !Nat.add_0_l in *.
  rewrite Hswap by lia. unfold mret, outcome_ret. do 2 f_equal. lia.
Qed.

(** A target too short for the encoding panics. *)
Lemma putLoop_panics fuel pre post n :
  0 <= n < 2 ^ 64 -> 0 <= n < 128 ^ Z.of_nat fuel -> (0 < fuel)%nat ->
  (length post < length (lsbDigits fuel 0 n))%nat ->
  putLoop fuel (pre ++ post) (length pre) n = Panic.
Proof.
  revert pre post n; induction fuel as [|fuel IH]; intros pre post n Hn Hf Hpos Hlen; [lia|].
  cbn [putLoop]. destruct post as [|x post].
  - unfold setByte. by rewrite app_nil_r, decide_False by lia.
  - rewrite setByte_mid. cbn [mbind outcome_bind]. cbn [lsbDigits] in Hlen.
    destruct (Z.leb_spec n 0x7f); [simpl in Hlen; lia|]. rewrite drop_group by lia.
    assert (0 < fuel)%nat
      by (destruct fuel; [change (128 ^ Z.of_nat 1) with 128 in Hf; lia|lia]).
    set (b := Z.lor _ _).
    replace (pre ++ b :: post) with ((pre ++ [b]) ++ post) by (by simplify_list_eq).
    replace (S (length pre)) with (length (pre ++ [b])) by (rewrite length_app; simpl; lia).
    apply IH; [pose proof (drop_group_bound n 9); lia|apply drop_group_bound; lia|done|].
    simpl in Hlen. destruct fuel; simpl in *; lia.
Qed.

Lemma putVLQ_panics target n :
  0 <= n < 2 ^ 64 -> Zlen target < vlqLen n -> putVLQ target n = Panic.
Proof.
  intros Hn Hshort. unfold putVLQ.
  rewrite <- digits_vlqLen in Hshort by done. unfold Zlen in Hshort.
  pose proof (putLoop_panics vlqFuel [] target n Hn (uint64_groups n Hn)) as Hp.
  cbn [app length] in Hp. rewrite Hp; [done|unfold vlqFuel; lia|lia].
Qed.

(** ** Theorems *)

(** For every uint64, [putVLQ] fills the front of a large enough buffer
    with an encoding of [serializeSizeVLQ] bytes and leaves the rest, a
    shorter buffer makes it panic, and [deserializeVLQ] reads the number and
    the size back whatever follows. *)
Theorem putVLQ_roundtrip n target (Hn : 0 <= n < 2 ^ 64) :
  exists size, serializeSizeVLQ n = Ok size /\ 1 <= size <= 10 /\
    (Zlen target < size -> putVLQ target n = Panic) /\
    (size <= Zlen target ->
       exists enc, putVLQ target n = Ok (enc ++ drop (length enc) target, size) /\
         Zlen enc = size /\ forall rest, deserializeVLQ (enc ++ rest) = (n, size)).
Proof.
  exists (vlqLen n). split_and!; [by apply serializeSizeVLQ_spec|by apply vlqLen_range..| |].
  - by apply putVLQ_panics.
  - intros Hfit. exists (vlq n). split_and!; [by apply putVLQ_spec|done|].
    intros rest. by apply deserializeVLQ_vlq.
Qed.

(** The largest one and two byte values, and the largest uint64. *)
Example vlq_127 : vlq 127 = [0x7f]. Proof. reflexivity. Qed.
Example vlq_128 : vlq 128 = [0x80; 0x00]. Proof. reflexivity. Qed.
Example vlq_16511 : vlq 16511 = [0xff; 0x7f]. Proof. reflexivity. Qed.
Example vlq_16512 : vlq 16512 = [0x80; 0x80; 0x00]. Proof. reflexivity. Qed.
Example vlq_max : vlq (2 ^ 64 - 1)
  = [0x80; 0xfe; 0xfe; 0xfe; 0xfe; 0xfe; 0xfe; 0xfe; 0xfe; 0x7f].
Proof. reflexivity. Qed.

Lemma putVLQ_roundtrip_witness :
  exists size, serializeSizeVLQ 32895 = Ok size /\ 1 <= size <= 10 /\
    (Zlen [0; 0; 0; 9] < size -> putVLQ [0; 0; 0; 9] 32895 = Panic) /\
    (size <= Zlen [0; 0; 0; 9] ->
       exists enc, putVLQ [0; 0; 0; 9] 32895 = Ok (enc ++ drop (length enc) [0; 0; 0; 9], size) /\
         Zlen enc = size /\ forall rest, deserializeVLQ (enc ++ rest) = (32895, size)).
Proof. apply (putVLQ_roundtrip 32895 [0; 0; 0; 9]). lia. Defined.

End Vlq.
