(* ===== verification/Compress.v ===== *)
(** * Compression of stored transaction outputs

    Models the script and amount compression of
    coin/OrcaNet/blockchain/compress.go on top of the VLQ encoding of [Vlq].
    Public keys are parsed by the secp256k1 library, the interface
    [PubKeyLib]. *)

From S2P Require Import Prelude Vlq.

Module Compress.
Import Vlq.

(** btcec.ParsePubKey and PublicKey.SerializeUncompressed. *)
Class PubKeyLib := {
  PublicKey : Type;
  ParsePubKey : list Z -> option PublicKey;
  SerializeUncompressed : PublicKey -> list Z;
}.

(** A valid uncompressed key is determined by its X coordinate and the
    oddness of its Y coordinate. *)
Class PubKeyLaws (L : PubKeyLib) : Prop := {
  recover_uncompressed x y k :
    length x = 32%nat -> length y = 32%nat -> ParsePubKey (0x04 :: x ++ y) = Some k ->
    exists k', ParsePubKey (0x02 + Z.land (nth 31 y 0) 0x01 :: x) = Some k' /\
      SerializeUncompressed k' = 0x04 :: x ++ y;
}.

(** ** Opcodes and script types *)
Definition OP_DATA_20 := 0x14.
Definition OP_DATA_33 := 0x21.
Definition OP_DATA_65 := 0x41.
Definition OP_DUP := 0x76.
Definition OP_EQUAL := 0x87.
Definition OP_EQUALVERIFY := 0x88.
Definition OP_HASH160 := 0xa9.
Definition OP_CHECKSIG := 0xac.

Definition cstPayToPubKeyHash := 0.
Definition cstPayToScriptHash := 1.
Definition cstPayToPubKeyComp2 := 2.
Definition cstPayToPubKeyComp3 := 3.
Definition cstPayToPubKeyUncomp4 := 4.
Definition cstPayToPubKeyUncomp5 := 5.
Definition numSpecialScripts := 6.

(** script[i] once the length has been checked. *)
Definition byteAt (script : list Z) (i : nat) : Z := nth i script 0.

(** script[lo:hi] once the length has been checked. *)
Definition sub (script : list Z) (lo hi : nat) : list Z := take (hi - lo) (drop lo script).

Definition isPubKeyHash (script : list Z) : option (list Z) :=
  if (Zlen script =? 25) && (byteAt script 0 =? OP_DUP) && (byteAt script 1 =? OP_HASH160)
     && (byteAt script 2 =? OP_DATA_20) && (byteAt script 23 =? OP_EQUALVERIFY)
     && (byteAt script 24 =? OP_CHECKSIG)
  then Some (sub script 3 23) else None.

Definition isScriptHash (script : list Z) : option (list Z) :=
  if (Zlen script =? 23) && (byteAt script 0 =? OP_HASH160) && (byteAt script 1 =? OP_DATA_20)
     && (byteAt script 22 =? OP_EQUAL)
  then Some (sub script 2 22) else None.

(** copy(target[lo:hi], src) *)
Definition copyInto (target : list Z) (lo hi : nat) (src : list Z) : outcome unit (list Z) :=
  if decide (lo <= hi /\ hi <= length target)%nat then
    let n := Nat.min (hi - lo) (length src) in
    Ok (take lo target ++ take n src ++ drop (lo + n) target)
  else Panic.

Section Scripts.
Context `{L : PubKeyLib}.

Definition isPubKey (script : list Z) : option (list Z) :=
  let comp :=
    if (Zlen script =? 35) && (byteAt script 0 =? OP_DATA_33) && (byteAt script 34 =? OP_CHECKSIG)
       && ((byteAt script 1 =? 0x02) || (byteAt script 1 =? 0x03))
    then match ParsePubKey (sub script 1 34) with Some _ => Some (sub script 1 34) | None => None end
    else None in
  match comp with
  | Some k => Some k
  | None =>
    if (Zlen script =? 67) && (byteAt script 0 =? OP_DATA_65) && (byteAt script 66 =? OP_CHECKSIG)
       && (byteAt script 1 =? 0x04)
    then match ParsePubKey (sub script 1 66) with Some _ => Some (sub script 1 66) | None => None end
    else None
  end.

Definition compressedScriptSize (pkScript : list Z) : outcome unit Z :=
  match isPubKeyHash pkScript with Some _ => Ok 21 | None =>
  match isScriptHash pkScript with Some _ => Ok 21 | None =>
  match isPubKey pkScript with Some _ => Ok 33 | None =>
    n ← serializeSizeVLQ (u64 (Zlen pkScript + numSpecialScripts));
    mret (n + Zlen pkScript)
  end end end.

(** The result is an int: a huge encoded size wraps to a negative one. *)
Definition decodeCompressedScriptSize (serialized : list Z) : Z :=
  let '(scriptSize, bytesRead) := deserializeVLQ serialized in
  if bytesRead =? 0 then 0
  else if scriptSize =? cstPayToPubKeyHash then 21
  else if scriptSize =? cstPayToScriptHash then 21
  else if (scriptSize =? cstPayToPubKeyComp2) || (scriptSize =? cstPayToPubKeyComp3)
          || (scriptSize =? cstPayToPubKeyUncomp4) || (scriptSize =? cstPayToPubKeyUncomp5) then 33
  else i64 (u64 (u64 (scriptSize - numSpecialScripts) + bytesRead)).

(** The general case: the size, then the script unmodified. *)
Definition putPlainScript (target pkScript : list Z) : outcome unit (list Z * Z) :=
  let encodedSize := u64 (Zlen pkScript + numSpecialScripts) in
  '(target, vlqSizeLen) ← putVLQ target encodedSize;
  target ← copyInto target (Z.to_nat vlqSizeLen) (length target) pkScript;
  mret (target, vlqSizeLen + Zlen pkScript).

(** A one byte type and a body copied to target[1:hi]. *)
Definition putSpecial (target : list Z) (ty : Z) (hi : nat) (body : list Z) (size : Z)
    : outcome unit (list Z * Z) :=
  target ← setByte target 0 ty;
  target ← copyInto target 1 hi body;
  mret (target, size).

Definition putCompressedScript (target pkScript : list Z) : outcome unit (list Z * Z) :=
  match isPubKeyHash pkScript with
  | Some hash => putSpecial target cstPayToPubKeyHash 21 hash 21
  | None =>
  match isScriptHash pkScript with
  | Some hash => putSpecial target cstPayToScriptHash 21 hash 21
  | None =>
  match isPubKey pkScript with
  | Some serializedPubKey =>
      let pubKeyFormat := byteAt serializedPubKey 0 in
      if (pubKeyFormat =? 0x02) || (pubKeyFormat =? 0x03) then
        putSpecial target pubKeyFormat 33 (sub serializedPubKey 1 33) 33
      else if pubKeyFormat =? 0x04 then
        putSpecial target (Z.lor pubKeyFormat (Z.land (byteAt serializedPubKey 64) 0x01)) 33
          (sub serializedPubKey 1 33) 33
      else putPlainScript target pkScript
  | None => putPlainScript target pkScript
  end end end.

(** [None] is the nil slice. *)
Definition decompressScript (compressedPkScript : list Z) : outcome unit (option (list Z)) :=
  if Zlen compressedPkScript =? 0 then Ok None
  else
    let '(encodedScriptSize, bytesRead) := deserializeVLQ compressedPkScript in
    if encodedScriptSize =? cstPayToPubKeyHash then
      hash ← slice compressedPkScript bytesRead (bytesRead + 20);
      mret (Some ([OP_DUP; OP_HASH160; OP_DATA_20] ++ hash ++ [OP_EQUALVERIFY; OP_CHECKSIG]))
    else if encodedScriptSize =? cstPayToScriptHash then
      hash ← slice compressedPkScript bytesRead (bytesRead + 20);
      mret (Some ([OP_HASH160; OP_DATA_20] ++ hash ++ [OP_EQUAL]))
    else if (encodedScriptSize =? cstPayToPubKeyComp2) || (encodedScriptSize =? cstPayToPubKeyComp3) then
      x ← slice compressedPkScript bytesRead (bytesRead + 32);
      mret (Some ([OP_DATA_33; u8 encodedScriptSize] ++ x ++ [OP_CHECKSIG]))
    else if (encodedScriptSize =? cstPayToPubKeyUncomp4) || (encodedScriptSize =? cstPayToPubKeyUncomp5) then
      let rest := take 32 (drop 1 compressedPkScript) in
      let compressedKey := u8 (encodedScriptSize - 2) :: rest ++ replicate (32 - length rest) 0 in
      match ParsePubKey compressedKey with
      | None => Ok None
      | Some key =>
          Ok (Some ([OP_DATA_65] ++ take 65 (SerializeUncompressed key ++ replicate 65 0)
                    ++ [OP_CHECKSIG]))
      end
    else
      let scriptSize := i64 (u64 (encodedScriptSize - numSpecialScripts)) in
      if scriptSize <? 0 then Panic
      else script ← slice compressedPkScript bytesRead (bytesRead + scriptSize);
           mret (Some script).

End Scripts.

(** ** Amounts *)

(** for amount%10 == 0 && exponent < 9 { amount /= 10; exponent++ }: at most
    nine rounds. *)
Fixpoint exponentLoop (fuel : nat) (amount exponent : Z) : Z * Z :=
  match fuel with
  | O => (amount, exponent)
  | S fuel =>
      if (amount mod 10 =? 0) && (exponent <? 9)
      then exponentLoop fuel (amount / 10) (exponent + 1)
      else (amount, exponent)
  end.

Definition compressTxOutAmount (amount : Z) : Z :=
  if amount =? 0 then 0
  else
    let '(amount, exponent) := exponentLoop 10 amount 0 in
    if exponent <? 9 then
      let lastDigit := amount mod 10 in
      let amount := amount / 10 in
      u64 (1 + 10 * (9 * amount + lastDigit - 1) + exponent)
    else u64 (10 + 10 * (amount - 1)).

(** for ; exponent > 0; exponent-- { n *= 10 } *)
Fixpoint applyExponent (exponent : nat) (n : Z) : Z :=
  match exponent with
  | O => n
  | S e => applyExponent e (u64 (n * 10))
  end.

Definition decompressTxOutAmount (amount : Z) : Z :=
  if amount =? 0 then 0
  else
    let amount := amount - 1 in
    let exponent := amount mod 10 in
    let amount := amount / 10 in
    let n := if exponent <? 9 then
               let lastDigit := amount mod 9 + 1 in
               u64 (amount / 9 * 10 + lastDigit)
             else u64 (amount + 1) in
    applyExponent (Z.to_nat exponent) n.

(** ** Transaction outputs *)
Section TxOut.
Context `{L : PubKeyLib}.

Definition compressedTxOutSize (amount : Z) (pkScript : list Z) : outcome unit Z :=
  a ← serializeSizeVLQ (compressTxOutAmount amount);
  s ← compressedScriptSize pkScript;
  mret (a + s).

Definition putCompressedTxOut (target : list Z) (amount : Z) (pkScript : list Z)
    : outcome unit (list Z * Z) :=
  '(target, offset) ← putVLQ target (compressTxOutAmount amount);
  '(tail, n) ← putCompressedScript (drop (Z.to_nat offset) target) pkScript;
  mret (take (Z.to_nat offset) target ++ tail, offset + n).

(** Amount, script and bytes read; the error carries its bytes read. *)
Definition decodeCompressedTxOut (serialized : list Z)
    : outcome (string * Z) (Z * option (list Z) * Z) :=
  let '(compressedAmount, bytesRead) := deserializeVLQ serialized in
  if Zlen serialized <=? bytesRead
  then Err ("unexpected end of data after compressed amount"%string, bytesRead)
  else
    let rest := drop (Z.to_nat bytesRead) serialized in
    let scriptSize := decodeCompressedScriptSize rest in
    if Zlen rest <? scriptSize
    then Err ("unexpected end of data after script size"%string, bytesRead)
    else
      let amount := decompressTxOutAmount compressedAmount in
      part ← slice serialized bytesRead (bytesRead + scriptSize);
      match decompressScript part with
      | Ok script => Ok (amount, script, bytesRead + scriptSize)
      | Err _ => Panic
      | Panic => Panic
      | Hang => Hang
      end.

End TxOut.

(** ** Amounts: lemmas *)
Lemma exponentLoop_spec fuel amount e :
  0 < amount -> 0 <= e <= 9 -> 9 - e < Z.of_nat fuel ->
  exists n e', exponentLoop fuel amount e = (n, e') /\ e <= e' <= 9 /\
    amount = n * 10 ^ (e' - e) /\ 0 < n /\ (e' < 9 -> n mod 10 <> 0).
Proof.
  revert amount e; induction fuel as [|fuel IH]; intros amount e Ha He Hf; [lia|].
  cbn [exponentLoop].
  destruct (Z.eqb_spec (amount mod 10) 0) as [Hz|Hnz], (Z.ltb_spec e 9) as [Hlt|Hge]; simpl;
    try (exists amount, e; rewrite Z.sub_diag, Z.pow_0_r; split_and!; lia || done).
  pose proof (Z.div_mod amount 10).
  destruct (IH (amount / 10) (e + 1)) as (n & e' & -> & He' & Heq & Hn & Hm); [lia..|].
  exists n, e'. split_and!; try lia; try done.
  replace (e' - e) with (Z.succ (e' - (e + 1))) by lia. rewrite Z.pow_succ_r by lia. lia.
Qed.

Lemma applyExponent_spec e n :
  0 <= n -> n * 10 ^ Z.of_nat e < 2 ^ 64 -> applyExponent e n = n * 10 ^ Z.of_nat e.
Proof.
  revert n; induction e as [|e IH]; intros n Hn Hb; simpl; [rewrite Z.pow_0_r; lia|].
  rewrite Nat2Z.inj_succ, Z.pow_succ_r in * by lia.
  assert (0 < 10 ^ Z.of_nat e) by (apply Z.pow_pos_nonneg; lia).
  rewrite u64_small by nia. rewrite IH by nia. lia.
Qed.

Lemma compressTxOutAmount_range amount : 0 <= compressTxOutAmount amount < 2 ^ 64.
Proof.
  unfold compressTxOutAmount. case_match; [lia|]. destruct (exponentLoop _ _ _).
  case_match; apply u64_range.
Qed.

(** The digits of a number in a base. *)
Lemma digit_split b d x : 0 <= d < b -> (d + x * b) mod b = d /\ (d + x * b) / b = x.
Proof.
  intros Hd. rewrite Z.mod_add, Z.div_add by lia.
  rewrite (Z.mod_small d), (Z.div_small d) by lia. lia.
Qed.

(** The largest amount whose compression cannot overflow a uint64. *)
Definition maxAmount : Z := (2 ^ 64 - 1) / 9.

Lemma amount_roundtrip amount :
  0 <= amount <= maxAmount -> decompressTxOutAmount (compressTxOutAmount amount) = amount.
Proof.
  change maxAmount with 2049638230412172401. intros Ha. unfold compressTxOutAmount.
  destruct (Z.eqb_spec amount 0) as [->|Hnz]; [done|].
  destruct (exponentLoop_spec 10 amount 0) as (n & e & -> & He & Heq & Hn & Hm); [lia..|].
  rewrite Z.sub_0_r in Heq.
  assert (Hpow : 1 <= 10 ^ e) by (apply (Z.pow_le_mono_r 10 0 e); lia).
  assert (Hpe : e <> 0 -> 10 <= 10 ^ e) by (intros; apply (Z.pow_le_mono_r 10 1 e); lia).
  assert (Hexp : applyExponent (Z.to_nat e) n = amount).
  { rewrite applyExponent_spec; rewrite ?Z2Nat.id by lia; lia. }
  assert (Hna : n <= amount) by nia.
  pose proof (Z.div_mod n 10) as Hdm. pose proof (Z.mod_pos_bound n 10) as Hmb.
  assert (Hc : forall x, 0 <= x -> 0 < 1 + 10 * x + e /\ (1 + 10 * x + e =? 0) = false).
  { intros x Hx. rewrite Z.eqb_neq. lia. }
  destruct (Z.ltb_spec e 9) as [Hlt|Hge]; unfold decompressTxOutAmount.
  - specialize (Hm Hlt). set (q := n / 10) in *. set (d := n mod 10) in *.
    assert (Hb : 0 < 1 + 10 * (9 * q + d - 1) + e < 2 ^ 64).
    { destruct (Z.eq_dec e 0) as [->|Hne]; [lia|]. specialize (Hpe Hne). nia. }
    rewrite u64_small by lia. rewrite (proj2 (Hc (9 * q + d - 1) ltac:(lia))).
    replace (1 + 10 * (9 * q + d - 1) + e - 1) with (e + (9 * q + d - 1) * 10) by lia.
    destruct (digit_split 10 e (9 * q + d - 1) ltac:(lia)) as [-> ->].
    rewrite (proj2 (Z.ltb_lt _ _)) by lia.
    replace (9 * q + d - 1) with (d - 1 + q * 9) by lia.
    destruct (digit_split 9 (d - 1) q ltac:(lia)) as [-> ->].
    replace (q * 10 + (d - 1 + 1)) with n by lia. by rewrite u64_small by lia.
  - assert (e = 9) as -> by lia.
    assert (10 * n <= amount) by (change (10 ^ 9) with 1000000000 in Heq; lia).
    rewrite u64_small by lia. rewrite (proj2 (Z.eqb_neq _ _)) by lia.
    replace (10 + 10 * (n - 1) - 1) with (9 + (n - 1) * 10) by lia.
    destruct (digit_split 10 9 (n - 1) ltac:(lia)) as [-> ->].
    change (9 <? 9) with false. cbv iota.
    replace (n - 1 + 1) with n by lia. by rewrite u64_small by lia.
Qed.

(** ** Scripts: lemmas *)
Section ScriptLemmas.
Context `{L : PubKeyLib}.

(** The compressed form of a script. *)
Definition compressed (pkScript : list Z) : list Z :=
  match isPubKeyHash pkScript with
  | Some hash => cstPayToPubKeyHash :: hash
  | None =>
  match isScriptHash pkScript with
  | Some hash => cstPayToScriptHash :: hash
  | None =>
  match isPubKey pkScript with
  | Some k =>
      (if byteAt k 0 =? 0x04 then 0x04 + Z.land (byteAt k 64) 0x01 else byteAt k 0) :: sub k 1 33
  | None => vlq (Zlen pkScript + numSpecialScripts) ++ pkScript
  end end end.

Lemma sub_length script lo hi :
  (lo <= hi <= length script)%nat -> length (sub script lo hi) = (hi - lo)%nat.
Proof. intros H. unfold sub. rewrite length_take, length_drop. lia. Qed.

Lemma isPubKeyHash_spec script hash :
  isPubKeyHash script = Some hash ->
  script = [OP_DUP; OP_HASH160; OP_DATA_20] ++ hash ++ [OP_EQUALVERIFY; OP_CHECKSIG] /\
  length hash = 20%nat.
Proof.
  unfold isPubKeyHash. destruct (_ && _) eqn:Hc; [|done]. intros [= <-].
  rewrite !andb_true_iff, !Z.eqb_eq in Hc. destruct Hc as (((((Hl & H0) & H1) & H2) & H23) & H24).
  assert (Hlen : length script = 25%nat) by (unfold Zlen in Hl; lia).
  split; [|apply sub_length; lia].
  do 25 (destruct script as [|? script]; [done|]). destruct script; [|done].
  unfold byteAt in *. simpl in *. by subst.
Qed.

Lemma isScriptHash_spec script hash :
  isScriptHash script = Some hash ->
  script = [OP_HASH160; OP_DATA_20] ++ hash ++ [OP_EQUAL] /\ length hash = 20%nat.
Proof.
  unfold isScriptHash. destruct (_ && _) eqn:Hc; [|done]. intros [= <-].
  rewrite !andb_true_iff, !Z.eqb_eq in Hc. destruct Hc as (((Hl & H0) & H1) & H22).
  assert (Hlen : length script = 23%nat) by (unfold Zlen in Hl; lia).
  split; [|apply sub_length; lia].
  do 23 (destruct script as [|? script]; [done|]). destruct script; [|done].
  unfold byteAt in *. simpl in *. by subst.
Qed.

(** The two shapes of a pay-to-pubkey script. *)
Lemma isPubKey_spec script key :
  isPubKey script = Some key ->
  is_Some (ParsePubKey key) /\
  ((exists f x, key = f :: x /\ (f = 0x02 \/ f = 0x03) /\ length x = 32%nat /\
      script = [OP_DATA_33] ++ key ++ [OP_CHECKSIG]) \/
   (exists x y, key = 0x04 :: x ++ y /\ length x = 32%nat /\ length y = 32%nat /\
      script = [OP_DATA_65] ++ key ++ [OP_CHECKSIG])).
Proof.
  unfold isPubKey. intros H.
  destruct ((_ && _ && _ && (_ || _))%bool) eqn:Hc; [destruct (ParsePubKey (sub script 1 34)) eqn:Hp|].
  1: { injection H as <-. split; [by rewrite Hp|]. left.
    rewrite !andb_true_iff, orb_true_iff, !Z.eqb_eq in Hc. destruct Hc as (((Hl & H0) & H34) & H1).
    assert (Hlen : length script = 35%nat) by (unfold Zlen in Hl; lia). clear Hl Hp.
    do 35 (destruct script as [|? script]; [done|]). destruct script; [|done].
    unfold byteAt in *. simpl in *. subst. do 2 eexists. split_and!; done. }
  all: destruct ((_ && _ && _ && (byteAt script 1 =? 4))%bool) eqn:Hc'; [|done];
    destruct (ParsePubKey (sub script 1 66)) eqn:Hp'; [|done]; injection H as <-;
    (split; [by rewrite Hp'|]); right;
    rewrite !andb_true_iff, !Z.eqb_eq in Hc'; destruct Hc' as (((Hl & H0) & H66) & H1);
    assert (Hlen : length script = 67%nat) by (unfold Zlen in Hl; lia); clear Hl Hp' Hc;
    exists (sub script 2 34), (sub script 34 66);
    (split_and!; [|apply sub_length; lia|apply sub_length; lia|]);
    do 67 (destruct script as [|? script]; [done|]); (destruct script; [|done]);
    unfold byteAt in *; simpl in *; by subst.
Qed.

Lemma setByte_0 x target b : setByte (x :: target) 0 b = Ok (b :: target).
Proof. done. Qed.

Lemma putSpecial_spec target ty hi body :
  (length body = hi - 1)%nat -> (1 <= hi <= length target)%nat ->
  putSpecial target ty hi body (Z.of_nat hi) = Ok (ty :: body ++ drop hi target, Z.of_nat hi).
Proof.
  intros Hb Ht. unfold putSpecial. destruct target as [|x target]; [simpl in *; lia|].
  rewrite setByte_0. cbn [mbind outcome_bind]. unfold copyInto.
  rewrite decide_True by (simpl in *; lia). cbn [mbind outcome_bind].
  rewrite Hb, Nat.min_id. rewrite (take_ge body) by lia.
  replace (1 + (hi - 1))%nat with hi by lia.
  by destruct hi; [lia|].
Qed.

Lemma copyInto_end target n src :
  (n + length src <= length target)%nat ->
  copyInto target n (length target) src = Ok (take n target ++ src ++ drop (n + length src) target).
Proof.
  intros H. unfold copyInto. rewrite decide_True by lia. rewrite Nat.min_r by lia.
  by rewrite (take_ge src) by lia.
Qed.

Lemma oddness b : Z.land b 1 = 0 \/ Z.land b 1 = 1.
Proof.
  assert (Z.land b 1 = b mod 2) as -> by (change 1 with (Z.ones 1); by rewrite Z.land_ones by lia).
  pose proof (Z.mod_pos_bound b 2). lia.
Qed.

(** The length a script can have for its compressed size to be an int. *)
Definition script_ok (pkScript : list Z) : Prop := Zlen pkScript + 10 < 2 ^ 63.

Lemma script_vlq pkScript : script_ok pkScript ->
  0 <= Zlen pkScript + numSpecialScripts < 2 ^ 64.
Proof. unfold script_ok, numSpecialScripts. len_lia. Qed.

(** The cases of a script, with its compressed form. *)
Lemma compressed_cases pkScript :
  (exists hash, isPubKeyHash pkScript = Some hash /\ length hash = 20%nat /\
     pkScript = [OP_DUP; OP_HASH160; OP_DATA_20] ++ hash ++ [OP_EQUALVERIFY; OP_CHECKSIG] /\
     compressed pkScript = cstPayToPubKeyHash :: hash) \/
  (exists hash, isPubKeyHash pkScript = None /\ isScriptHash pkScript = Some hash /\
     length hash = 20%nat /\ pkScript = [OP_HASH160; OP_DATA_20] ++ hash ++ [OP_EQUAL] /\
     compressed pkScript = cstPayToScriptHash :: hash) \/
  (exists f x, isPubKeyHash pkScript = None /\ isScriptHash pkScript = None /\
     isPubKey pkScript = Some (f :: x) /\ (f = 2 \/ f = 3) /\ length x = 32%nat /\
     pkScript = [OP_DATA_33] ++ (f :: x) ++ [OP_CHECKSIG] /\ compressed pkScript = f :: x) \/
  (exists x y, isPubKeyHash pkScript = None /\ isScriptHash pkScript = None /\
     isPubKey pkScript = Some (4 :: x ++ y) /\ is_Some (ParsePubKey (4 :: x ++ y)) /\
     length x = 32%nat /\ length y = 32%nat /\
     pkScript = [OP_DATA_65] ++ (4 :: x ++ y) ++ [OP_CHECKSIG] /\
     compressed pkScript = (4 + Z.land (nth 31 y 0) 1) :: x) \/
  (isPubKeyHash pkScript = None /\ isScriptHash pkScript = None /\ isPubKey pkScript = None /\
   compressed pkScript = vlq (Zlen pkScript + numSpecialScripts) ++ pkScript).
Proof.
  unfold compressed.
  destruct (isPubKeyHash pkScript) as [h|] eqn:H1.
  { left. exists h. apply isPubKeyHash_spec in H1 as [-> Hl]. done. }
  destruct (isScriptHash pkScript) as [h|] eqn:H2.
  { right; left. exists h. apply isScriptHash_spec in H2 as [-> Hl]. done. }
  destruct (isPubKey pkScript) as [k|] eqn:H3; [|by do 4 right].
  destruct (isPubKey_spec _ _ H3) as (Hp & [(f & x & -> & Hf & Hx & ->)|(x & y & -> & Hx & Hy & ->)]).
  - do 2 right; left. exists f, x. split_and!; try done.
    unfold sub, byteAt. simpl nth. simpl drop. rewrite drop_0, take_ge by lia.
    by destruct Hf as [-> | ->].
  - do 3 right; left. exists x, y. split_and!; try done.
    unfold sub, byteAt. simpl drop. simpl nth. rewrite drop_0.
    rewrite app_nth2 by lia. replace (63 - length x)%nat with 31%nat by lia.
    by rewrite take_app_le, take_ge by lia.
Qed.

Lemma compressedScriptSize_spec pkScript : script_ok pkScript ->
  compressedScriptSize pkScript = Ok (Zlen (compressed pkScript)).
Proof.
  intros Hok. unfold compressedScriptSize.
  destruct (compressed_cases pkScript)
    as [(h & -> & Hl & _ & ->)|[(h & -> & -> & Hl & _ & ->)|[(f & x & -> & -> & -> & _ & Hl & _ & ->)
       |[(x & y & -> & -> & -> & _ & Hl & _ & _ & ->)|(-> & -> & -> & ->)]]]];
    try (unfold Zlen; simpl; by rewrite Hl).
  pose proof (script_vlq _ Hok). rewrite u64_small, serializeSizeVLQ_spec by done.
  simpl. by rewrite Zlen_app.
Qed.

Lemma putPlainScript_spec target pkScript :
  script_ok pkScript ->
  let enc := vlq (Zlen pkScript + numSpecialScripts) ++ pkScript in
  (length enc <= length target)%nat ->
  putPlainScript target pkScript = Ok (enc ++ drop (length enc) target, Zlen enc).
Proof.
  intros Hok enc Hfit. pose proof (script_vlq _ Hok). unfold putPlainScript, enc in *.
  rewrite length_app in Hfit. rewrite u64_small by done.
  set (v := Zlen pkScript + numSpecialScripts) in *.
  rewrite putVLQ_spec by (done || (unfold vlqLen, Zlen; lia)). cbn [mbind outcome_bind].
  replace (Z.to_nat (vlqLen v)) with (length (vlq v)) by (unfold vlqLen, Zlen; lia).
  rewrite copyInto_end by (rewrite length_app, length_drop; lia).
  rewrite take_app_length. cbn [mbind outcome_bind]. unfold mret, outcome_ret, vlqLen.
  rewrite Zlen_app, drop_app_ge, drop_drop by lia. rewrite <- app_assoc. do 5 f_equal.
  rewrite length_app. lia.
Qed.

Lemma putCompressedScript_spec target pkScript :
  script_ok pkScript -> (length (compressed pkScript) <= length target)%nat ->
  putCompressedScript target pkScript
  = Ok (compressed pkScript ++ drop (length (compressed pkScript)) target, Zlen (compressed pkScript)).
Proof.
  intros Hok Hfit. unfold putCompressedScript.
  destruct (compressed_cases pkScript)
    as [(h & -> & Hl & _ & Hc)|[(h & -> & -> & Hl & _ & Hc)|[(f & x & -> & -> & -> & Hf & Hl & _ & Hc)
       |[(x & y & -> & -> & -> & _ & Hl & Hy & _ & Hc)|(-> & -> & -> & Hc)]]]];
    rewrite Hc in *; unfold Zlen; simpl length in *; rewrite ?Hl in *.
  - apply (putSpecial_spec target _ 21); lia.
  - apply (putSpecial_spec target _ 21); lia.
  - unfold byteAt, sub. simpl nth. simpl drop. rewrite drop_0, take_ge by lia.
    replace ((f =? 2) || (f =? 3))%bool with true by (by destruct Hf as [-> | ->]).
    apply (putSpecial_spec target _ 33); lia.
  - unfold byteAt, sub. simpl nth. simpl drop. rewrite drop_0. cbn [orb].
    change ((4 =? 2) || (4 =? 3))%bool with false. change (4 =? 4) with true. cbv iota.
    rewrite app_nth2 by lia. replace (63 - length x)%nat with 31%nat by lia.
    rewrite take_app_le, take_ge by lia.
    replace (Z.lor 4 (Z.land (nth 31 y 0) 1)) with (4 + Z.land (nth 31 y 0) 1)
      by (by destruct (oddness (nth 31 y 0)) as [-> | ->]).
    apply (putSpecial_spec target _ 33); lia.
  - apply putPlainScript_spec; done.
Qed.

(** A one byte VLQ below 6. *)
Lemma deserializeVLQ_type ty rest : 0 <= ty < 6 -> deserializeVLQ (ty :: rest) = (ty, 1).
Proof.
  intros Ht. pose proof (deserializeVLQ_vlq ty rest ltac:(lia)) as H.
  assert (ty = 0 \/ ty = 1 \/ ty = 2 \/ ty = 3 \/ ty = 4 \/ ty = 5) as Hc by lia.
  destruct_or! Hc; by subst ty.
Qed.

Lemma decodeCompressedScriptSize_spec pkScript rest : script_ok pkScript ->
  decodeCompressedScriptSize (compressed pkScript ++ rest) = Zlen (compressed pkScript).
Proof.
  intros Hok. unfold decodeCompressedScriptSize.
  destruct (compressed_cases pkScript)
    as [(h & _ & Hl & _ & ->)|[(h & _ & _ & Hl & _ & ->)|[(f & x & _ & _ & _ & Hf & Hl & _ & ->)
       |[(x & y & _ & _ & _ & _ & Hl & _ & _ & ->)|(_ & _ & _ & ->)]]]];
    cbn [app]; unfold cstPayToPubKeyHash, cstPayToScriptHash.
  1-2: rewrite deserializeVLQ_type by lia; unfold Zlen; simpl; by rewrite Hl.
  - rewrite deserializeVLQ_type by lia. unfold Zlen. simpl. rewrite Hl. by destruct Hf as [-> | ->].
  - destruct (oddness (nth 31 y 0)) as [-> | ->]; rewrite deserializeVLQ_type by lia;
      unfold Zlen; simpl; by rewrite Hl.
  - pose proof (script_vlq _ Hok) as Hv. rewrite <- app_assoc, deserializeVLQ_vlq by done.
    pose proof (vlqLen_range _ Hv). unfold cstPayToPubKeyComp2, cstPayToPubKeyComp3,
      cstPayToPubKeyUncomp4, cstPayToPubKeyUncomp5, script_ok, numSpecialScripts in *.
    pose proof (Zlen_nonneg pkScript).
    repeat rewrite (proj2 (Z.eqb_neq _ _)) by lia. simpl.
    rewrite (u64_small (_ - _)) by lia. rewrite u64_small by lia.
    rewrite i64_small; unfold vlqLen in *; zlen.
Qed.

Lemma compressed_nonempty pkScript : script_ok pkScript -> 0 < Zlen (compressed pkScript).
Proof.
  intros Hok.
  destruct (compressed_cases pkScript)
    as [(h & _ & Hl & _ & ->)|[(h & _ & _ & Hl & _ & ->)|[(f & x & _ & _ & _ & Hf & Hl & _ & ->)
       |[(x & y & _ & _ & _ & _ & Hl & _ & _ & ->)|(_ & _ & _ & ->)]]]];
    rewrite ?Zlen_cons; try len_lia.
  pose proof (vlqLen_range _ (script_vlq _ Hok)). unfold vlqLen in *. len_lia.
Qed.

Lemma slice_tail {E} (b : Z) l hi : hi = 1 + Zlen l -> slice (E:=E) (b :: l) 1 hi = Ok l.
Proof. by apply (slice_suffix [b]). Qed.

Lemma decompressScript_compressed `{!PubKeyLaws L} pkScript : script_ok pkScript ->
  decompressScript (compressed pkScript) = Ok (Some pkScript).
Proof.
  intros Hok. unfold decompressScript.
  pose proof (compressed_nonempty _ Hok). rewrite (proj2 (Z.eqb_neq _ 0)) by lia.
  destruct (compressed_cases pkScript)
    as [(h & _ & Hl & -> & ->)|[(h & _ & _ & Hl & -> & ->)|[(f & x & _ & _ & _ & Hf & Hl & -> & ->)
       |[(x & y & _ & _ & _ & [k Hk] & Hl & Hy & -> & ->)|(_ & _ & _ & ->)]]]].
  1-2: unfold cstPayToPubKeyHash, cstPayToScriptHash; rewrite deserializeVLQ_type by lia;
    cbn [Z.eqb]; simpl; rewrite slice_tail by (unfold Zlen; lia); done.
  - rewrite deserializeVLQ_type by lia. unfold cstPayToPubKeyHash, cstPayToScriptHash.
    by destruct Hf as [-> | ->]; simpl; rewrite slice_tail by (unfold Zlen; lia).
  - destruct (recover_uncompressed x y k Hl Hy Hk) as (k' & Hk' & Hser).
    destruct (oddness (nth 31 y 0)) as [Ho|Ho]; rewrite Ho in *; rewrite deserializeVLQ_type by lia;
      simpl; rewrite drop_0, take_ge, Hl, app_nil_r by lia; simpl in Hk'.
    + change (u8 (4 + 0 - 2)) with (2 + 0). rewrite Hk', Hser. simpl.
      do 4 f_equal. rewrite take_app_le, take_ge by (rewrite length_app; lia). done.
    + change (u8 (4 + 1 - 2)) with (2 + 1). rewrite Hk', Hser. simpl.
      do 4 f_equal. rewrite take_app_le, take_ge by (rewrite length_app; lia). done.
  - pose proof (script_vlq _ Hok) as Hv. rewrite deserializeVLQ_vlq by done.
    pose proof (Zlen_nonneg pkScript). unfold script_ok in Hok.
    unfold cstPayToPubKeyHash, cstPayToScriptHash, cstPayToPubKeyComp2, cstPayToPubKeyComp3,
      cstPayToPubKeyUncomp4, cstPayToPubKeyUncomp5, numSpecialScripts in *.
    repeat rewrite (proj2 (Z.eqb_neq _ _)) by lia. simpl.
    rewrite u64_small, i64_small by lia. rewrite (proj2 (Z.ltb_ge _ _)) by lia.
    rewrite (slice_suffix (vlq (Zlen pkScript + 6)) pkScript) by (unfold vlqLen; lia). done.
Qed.

(** The bytes of a stored output. *)
Definition txOutBytes (amount : Z) (pkScript : list Z) : list Z :=
  vlq (compressTxOutAmount amount) ++ compressed pkScript.

Lemma compressedTxOutSize_spec amount pkScript : script_ok pkScript ->
  compressedTxOutSize amount pkScript = Ok (Zlen (txOutBytes amount pkScript)).
Proof.
  intros Hok. unfold compressedTxOutSize, txOutBytes.
  rewrite serializeSizeVLQ_spec by apply compressTxOutAmount_range.
  cbn [mbind outcome_bind]. rewrite compressedScriptSize_spec by done. by rewrite Zlen_app.
Qed.

Lemma putCompressedTxOut_spec target amount pkScript : script_ok pkScript ->
  Zlen (txOutBytes amount pkScript) <= Zlen target ->
  putCompressedTxOut target amount pkScript
  = Ok (txOutBytes amount pkScript ++ drop (length (txOutBytes amount pkScript)) target, Zlen (txOutBytes amount pkScript)).
Proof.
  intros Hok Hfit. pose proof (compressTxOutAmount_range amount) as Ha. unfold txOutBytes in *.
  pose proof (compressed_nonempty _ Hok) as Hpos. set (va := vlq (compressTxOutAmount amount)) in *. set (cs := compressed pkScript) in *.
  rewrite Zlen_app in Hfit. unfold putCompressedTxOut.
  assert (vlqLen (compressTxOutAmount amount) <= Zlen target) by (unfold vlqLen; fold va; len_lia).
  rewrite putVLQ_spec by done. cbn [mbind outcome_bind]. fold va. unfold vlqLen. fold va.
  assert (Z.to_nat (Zlen va) = length va) as -> by (unfold Zlen; lia).
  rewrite drop_app_length, take_app_length.
  rewrite putCompressedScript_spec by (done || (fold cs; rewrite length_drop; unfold Zlen in *; lia)).
  cbn [mbind outcome_bind]. unfold mret, outcome_ret. fold cs.
  by rewrite drop_drop, length_app, <- app_assoc, Zlen_app.
Qed.

Lemma decodeCompressedTxOut_spec `{!PubKeyLaws L} amount pkScript rest :
  0 <= amount <= maxAmount -> script_ok pkScript ->
  decodeCompressedTxOut (txOutBytes amount pkScript ++ rest) = Ok (amount, Some pkScript, Zlen (txOutBytes amount pkScript)).
Proof.
  intros Hamount Hok. pose proof (compressTxOutAmount_range amount) as Ha. unfold txOutBytes.
  pose proof (compressed_nonempty _ Hok) as Hpos. set (va := vlq (compressTxOutAmount amount)) in *. set (cs := compressed pkScript) in *.
  unfold decodeCompressedTxOut. rewrite <- app_assoc, Zlen_app.
  assert (deserializeVLQ (va ++ cs ++ rest) = (compressTxOutAmount amount, Zlen va)) as ->
    by (by apply deserializeVLQ_vlq).
  rewrite (proj2 (Z.leb_gt _ _)) by len_lia.
  assert (Z.to_nat (Zlen va) = length va) as -> by (unfold Zlen; lia).
  rewrite drop_app_length.
  assert (decodeCompressedScriptSize (cs ++ rest) = Zlen cs) as ->
    by (by apply decodeCompressedScriptSize_spec).
  rewrite (proj2 (Z.ltb_ge _ _)) by len_lia.
  rewrite (slice_mid va cs rest); [|done|done]. cbn [mbind outcome_bind].
  unfold cs. rewrite decompressScript_compressed by done. by rewrite amount_roundtrip, Zlen_app by done.
Qed.

(** ** Theorems *)

(** Compressing a script fills the front of a large enough buffer with
    [compressedScriptSize] bytes and leaves the rest; whatever follows, the
    size is read back from the bytes, and decompressing them gives the
    script, for each of the special forms and for the general one. *)
Theorem compressed_script_roundtrip `{!PubKeyLaws L} pkScript target
    (Hok : script_ok pkScript) :
  exists size, compressedScriptSize pkScript = Ok size /\
    (size <= Zlen target ->
       exists enc, putCompressedScript target pkScript = Ok (enc ++ drop (length enc) target, size) /\
         Zlen enc = size /\ decompressScript enc = Ok (Some pkScript) /\
         forall rest, decodeCompressedScriptSize (enc ++ rest) = size).
Proof.
  exists (Zlen (compressed pkScript)). split; [by apply compressedScriptSize_spec|].
  intros Hfit. exists (compressed pkScript). split_and!; try done.
  - apply putCompressedScript_spec; [done|unfold Zlen in Hfit; lia].
  - by apply decompressScript_compressed.
  - intros rest. by apply decodeCompressedScriptSize_spec.
Qed.

(** A stored output of at most [maxAmount] satoshi (over 97 times the
    money supply) is written in [compressedTxOutSize] bytes and decodes to
    its amount and script and the number of bytes written, whatever follows
    it in the buffer. *)
Theorem compressed_txout_roundtrip `{!PubKeyLaws L} amount pkScript target
    (Hamount : 0 <= amount <= maxAmount) (Hok : script_ok pkScript) :
  exists size, compressedTxOutSize amount pkScript = Ok size /\
    (size <= Zlen target ->
       exists enc, putCompressedTxOut target amount pkScript = Ok (enc ++ drop (length enc) target, size) /\
         Zlen enc = size /\
         forall rest, decodeCompressedTxOut (enc ++ rest) = Ok (amount, Some pkScript, size)).
Proof.
  exists (Zlen (txOutBytes amount pkScript)). split; [by apply compressedTxOutSize_spec|].
  intros Hfit. exists (txOutBytes amount pkScript). split_and!; [|done|].
  - by apply putCompressedTxOut_spec.
  - intros rest. by apply decodeCompressedTxOut_spec.
Qed.

End ScriptLemmas.

(** ** Witnesses

    A curve whose Y coordinates are all 0 or 1. *)
Module Toy.

Definition parse (b : list Z) : option (list Z) :=
  match b with
  | 0x04 :: k =>
      if decide (length k = 64%nat /\
                 (drop 32 k = replicate 31 0 ++ [0] \/ drop 32 k = replicate 31 0 ++ [1]))
      then Some b else None
  | 0x02 :: x => if decide (length x = 32%nat) then Some (0x04 :: x ++ replicate 31 0 ++ [0]) else None
  | 0x03 :: x => if decide (length x = 32%nat) then Some (0x04 :: x ++ replicate 31 0 ++ [1]) else None
  | _ => None
  end.

#[export] Instance ToyLib : PubKeyLib :=
  {| PublicKey := list Z; ParsePubKey := parse; SerializeUncompressed := id |}.

#[export] Instance ToyLaws : PubKeyLaws ToyLib.
Proof.
  constructor. intros x y k Hx Hy. simpl.
  destruct (decide _) as [[_ Hd]|]; [|done]. intros [= <-].
  replace (drop 32 (x ++ y)) with y in Hd by (rewrite drop_app_ge, <- Hx, Nat.sub_diag by lia; done).
  destruct Hd as [-> | ->]; simpl; rewrite decide_True by done; eauto.
Qed.

Definition script : list Z := 0x41 :: (0x04 :: replicate 32 7 ++ replicate 31 0 ++ [1]) ++ [0xac].

Lemma compressed_script_roundtrip_witness :
  exists size, compressedScriptSize script = Ok size /\
    (size <= Zlen (replicate 40 9) ->
       exists enc, putCompressedScript (replicate 40 9) script = Ok (enc ++ drop (length enc) (replicate 40 9), size) /\
         Zlen enc = size /\ decompressScript enc = Ok (Some script) /\
         forall rest, decodeCompressedScriptSize (enc ++ rest) = size).
Proof. apply (compressed_script_roundtrip script (replicate 40 9)). reflexivity. Defined.

Lemma compressed_txout_roundtrip_witness :
  exists size, compressedTxOutSize 5000000000 script = Ok size /\
    (size <= Zlen (replicate 40 9) ->
       exists enc, putCompressedTxOut (replicate 40 9) 5000000000 script
                   = Ok (enc ++ drop (length enc) (replicate 40 9), size) /\
         Zlen enc = size /\
         forall rest, decodeCompressedTxOut (enc ++ rest) = Ok (5000000000, Some script, size)).
Proof.
  apply (compressed_txout_roundtrip 5000000000 script (replicate 40 9)); [|reflexivity].
  split; [lia|]. apply Z.leb_le. reflexivity.
Defined.

Example compress_special : compressedScriptSize script = Ok 33.
Proof. reflexivity. Qed.

End Toy.
End Compress.
