(* ===== verification/ScriptNum.v ===== *)
(** * Script numbers

    Models coin/OrcaNet/txscript/scriptnum.go: the little-endian
    sign-and-magnitude encoding of the numbers on the script stack, with its
    minimality rule and its length limit.  A scriptNum is an int64. *)

From S2P Require Import Prelude.

Module ScriptNum.

(** The error codes of txscript (error.go); [NotScriptError] is an error that
    is not a txscript Error, such as the parse errors of btcec. *)
Inductive ErrorCode :=
| ErrInternal
| ErrInvalidFlags
| ErrInvalidIndex
| ErrUnsupportedAddress
| ErrNotMultisigScript
| ErrTooManyRequiredSigs
| ErrTooMuchNullData
| ErrUnsupportedScriptVersion
| ErrEarlyReturn
| ErrEmptyStack
| ErrEvalFalse
| ErrScriptUnfinished
| ErrInvalidProgramCounter
| ErrScriptTooBig
| ErrElementTooBig
| ErrTooManyOperations
| ErrStackOverflow
| ErrInvalidPubKeyCount
| ErrInvalidSignatureCount
| ErrNumberTooBig
| ErrVerify
| ErrEqualVerify
| ErrNumEqualVerify
| ErrCheckSigVerify
| ErrCheckMultiSigVerify
| ErrDisabledOpcode
| ErrReservedOpcode
| ErrMalformedPush
| ErrInvalidStackOperation
| ErrUnbalancedConditional
| ErrMinimalData
| ErrInvalidSigHashType
| ErrSigTooShort
| ErrSigTooLong
| ErrSigInvalidSeqID
| ErrSigInvalidDataLen
| ErrSigMissingSTypeID
| ErrSigMissingSLen
| ErrSigInvalidSLen
| ErrSigInvalidRIntID
| ErrSigZeroRLen
| ErrSigNegativeR
| ErrSigTooMuchRPadding
| ErrSigInvalidSIntID
| ErrSigZeroSLen
| ErrSigNegativeS
| ErrSigTooMuchSPadding
| ErrSigHighS
| ErrNotPushOnly
| ErrSigNullDummy
| ErrPubKeyType
| ErrCleanStack
| ErrNullFail
| ErrWitnessMalleated
| ErrWitnessMalleatedP2SH
| ErrDiscourageUpgradableNOPs
| ErrNegativeLockTime
| ErrUnsatisfiedLockTime
| ErrMinimalIf
| ErrDiscourageUpgradableWitnessProgram
| ErrWitnessProgramEmpty
| ErrWitnessProgramMismatch
| ErrWitnessProgramWrongLength
| ErrWitnessUnexpected
| ErrWitnessPubKeyType
| ErrDiscourageOpSuccess
| ErrDiscourageUpgradeableTaprootVersion
| ErrTapscriptCheckMultisig
| ErrDiscourageUpgradeablePubKeyType
| ErrTaprootSigInvalid
| ErrTaprootMerkleProofInvalid
| ErrTaprootOutputKeyParityMismatch
| ErrControlBlockTooSmall
| ErrControlBlockTooLarge
| ErrControlBlockInvalidLength
| ErrWitnessHasNoAnnex
| ErrInvalidTaprootSigLen
| ErrTaprootPubkeyIsEmpty
| ErrTaprootMaxSigOps
| NotScriptError.

#[export] Instance ErrorCode_eq_dec : EqDecision ErrorCode.
Proof. intros x y. hnf. decide equality. Defined.

(** ** The code *)
Definition maxInt32 := 2 ^ 31 - 1.
Definition minInt32 := - 2 ^ 31.
Definition maxScriptNumLen := 4.

(** v[len(v)-1] and v[len(v)-2], once the lengths have been checked. *)
Definition lastByte (v : list Z) : Z := nth (length v - 1) v 0.
Definition secondLast (v : list Z) : Z := nth (length v - 2) v 0.

Definition checkMinimalDataEncoding (v : list Z) : outcome ErrorCode unit :=
  if Zlen v =? 0 then Ok ()
  else if Z.land (lastByte v) 0x7f =? 0 then
    if (Zlen v =? 1) || (Z.land (secondLast v) 0x80 =? 0) then Err ErrMinimalData else Ok ()
  else Ok ().

(** for n > 0 { result = append(result, byte(n&0xff)); n >>= 8 }: an int64
    has at most eight bytes. *)
Fixpoint bytesLoop (fuel : nat) (n : Z) (result : list Z) : list Z :=
  match fuel with
  | O => result
  | S fuel =>
      if 0 <? n then bytesLoop fuel (Z.shiftr n 8) (result ++ [u8 (Z.land n 0xff)]) else result
  end.

(** On the least int64 the negation wraps, the loop does not run, and the
    index of the last byte panics. *)
Definition Bytes (n : Z) : outcome ErrorCode (list Z) :=
  if n =? 0 then Ok []
  else
    let isNegative := n <? 0 in
    let n := if isNegative then i64 (- n) else n in
    let result := bytesLoop 8 n [] in
    last ← index result (Zlen result - 1);
    if negb (Z.land last 0x80 =? 0) then
      mret (result ++ [if isNegative then 0x80 else 0x00])
    else if isNegative then
      mret (<[(length result - 1)%nat := Z.lor last 0x80]> result)
    else mret result.

Definition Int32 (n : Z) : Z :=
  if maxInt32 <? n then maxInt32 else if n <? minInt32 then minInt32 else i32 n.

(** for i, val := range v { result |= int64(val) << uint8(8*i) } *)
Fixpoint decodeLoop (v : list Z) (i result : Z) : Z :=
  match v with
  | [] => result
  | val :: v => decodeLoop v (i + 1) (Z.lor result (i64 (Z.shiftl val (u8 (8 * i)))))
  end.

Definition MakeScriptNum (v : list Z) (requireMinimal : bool) (scriptNumLen : Z)
    : outcome ErrorCode Z :=
  if scriptNumLen <? Zlen v then Err ErrNumberTooBig
  else
    _ ← (if requireMinimal then checkMinimalDataEncoding v else Ok ());
    if Zlen v =? 0 then mret 0
    else
      let result := decodeLoop v 0 0 in
      if negb (Z.land (lastByte v) 0x80 =? 0) then
        let result := Z.land result
          (Z.lnot (i64 (Z.shiftl 0x80 (u8 (8 * (Zlen v - 1)))))) in
        mret (i64 (- result))
      else mret result.

(** ** The encoding as a function *)

(** The number of bytes of a positive number's magnitude. *)
Fixpoint magnitude (fuel : nat) (n : Z) : list Z :=
  match fuel with
  | O => []
  | S fuel => if 0 <? n then n mod 256 :: magnitude fuel (n / 256) else []
  end.

(** The value of an encoding that ends with [b]. *)
Definition valueOf (init : list Z) (b : Z) : Z :=
  if b <? 128 then le_val (init ++ [b]) else - le_val (init ++ [b - 128]).

(** Bytes of a nonzero number whose magnitude is [init ++ [t]]. *)
Definition signed (negative : bool) (init : list Z) (t : Z) : list Z :=
  if 128 <=? t then init ++ [t; if negative then 128 else 0]
  else init ++ [if negative then t + 128 else t].

(** ** Bit facts *)
Lemma byte_bits b : byte_ok b ->
  Z.land b 0x7f = b mod 128 /\ (Z.land b 0x80 =? 0) = (b <? 128) /\
  (b < 128 -> Z.lor b 0x80 = b + 128).
Proof.
  intros Hb.
  pose proof (byte_cases (fun b => (Z.land b 0x7f =? b mod 128) &&
    Bool.eqb (Z.land b 0x80 =? 0) (b <? 128) &&
    ((128 <=? b) || (Z.lor b 0x80 =? b + 128)))%bool
    ltac:(vm_compute; reflexivity) b Hb) as H. cbv beta in H.
  rewrite !andb_true_iff, orb_true_iff, !Z.eqb_eq, Bool.eqb_true_iff in H.
  destruct H as [[H1 H2] H3]. split_and!; [done|done|lia].
Qed.

(** Clearing the bit above a number. *)
Lemma clear_top_bit lo m : 0 <= m -> 0 <= lo < 2 ^ m ->
  Z.land (lo + 2 ^ m) (Z.lnot (2 ^ m)) = lo.
Proof.
  intros Hm Hlo. replace (lo + 2 ^ m) with (Z.lor (Z.shiftl 1 m) lo)
    by (rewrite lor_shiftl_add by lia; lia).
  rewrite Z.shiftl_1_l, Z.land_lor_distr_l, Z.land_lnot_diag, Z.lor_0_l.
  apply Z.bits_inj'. intros n Hn. rewrite Z.land_spec, Z.lnot_spec, Z.pow2_bits_eqb by lia.
  destruct (Z.eqb_spec m n) as [<-|]; [|apply andb_true_r].
  rewrite <- (Z.mod_small lo (2 ^ m)) by lia. by rewrite Z.mod_pow2_bits_high by lia.
Qed.

(** ** The digits of a magnitude *)
Lemma bytesLoop_spec fuel n acc :
  bytesLoop fuel n acc = acc ++ magnitude fuel n.
Proof.
  revert n acc; induction fuel as [|fuel IH]; intros n acc; simpl; [by rewrite app_nil_r|].
  destruct (Z.ltb_spec 0 n); [|by rewrite app_nil_r].
  rewrite IH, <- app_assoc. simpl. do 2 f_equal.
  - change 0xff with (Z.ones 8). rewrite Z.land_ones by lia.
    apply u8_small. apply Z.mod_pos_bound. lia.
  - by rewrite Z.shiftr_div_pow2 by lia.
Qed.

(** Canonical digits are the magnitude of their value. *)
Lemma magnitude_le_val fuel init t :
  bytes_ok (init ++ [t]) -> 0 < t -> (length init < fuel)%nat ->
  0 < le_val (init ++ [t]) /\ magnitude fuel (le_val (init ++ [t])) = init ++ [t].
Proof.
  revert init; induction fuel as [|fuel IH]; intros init Hb Ht Hf; [lia|].
  destruct init as [|b init]; simpl in *.
  - apply Forall_inv in Hb. unfold byte_ok in Hb.
    rewrite Z.mul_0_r, Z.add_0_r. split; [lia|]. rewrite (proj2 (Z.ltb_lt _ _)) by lia.
    rewrite Z.mod_small, Z.div_small by lia. by destruct fuel.
  - apply list.Forall_cons in Hb as [Hb Hbs]. unfold byte_ok in Hb.
    destruct (IH init Hbs Ht ltac:(lia)) as [Hpos Hm]. split; [lia|].
    rewrite (proj2 (Z.ltb_lt _ _)) by lia.
    rewrite (Z.mul_comm 256), Z.mod_add, Z.div_add, Z.mod_small, (Z.div_small b), Z.add_0_l by lia.
    by rewrite Hm.
Qed.

(** Every positive number has canonical digits. *)
Lemma magnitude_digits fuel n :
  0 < n < 256 ^ Z.of_nat fuel ->
  exists init t, magnitude fuel n = init ++ [t] /\ bytes_ok (init ++ [t]) /\ 0 < t /\
    le_val (init ++ [t]) = n /\ (length init < fuel)%nat.
Proof.
  revert n; induction fuel as [|fuel IH]; intros n Hn; [rewrite Z.pow_0_r in Hn; lia|].
  rewrite Nat2Z.inj_succ, Z.pow_succ_r in Hn by lia. cbn [magnitude].
  rewrite (proj2 (Z.ltb_lt _ _)) by lia.
  pose proof (Z.div_mod n 256) as Hd. pose proof (Z.mod_pos_bound n 256) as Hm.
  destruct (decide (n / 256 = 0)) as [Hz|Hnz].
  - exists [], (n mod 256). rewrite Hz. destruct fuel as [|fuel]; simpl;
      (split_and!; [done|apply Forall_singleton; unfold byte_ok; lia|lia|lia|lia]).
  - destruct (IH (n / 256)) as (init & t & -> & Hb & Ht & Hv & Hl); [lia|].
    exists (n mod 256 :: init), t. split_and!; [done| |done| |simpl; lia].
    + simpl. constructor; [unfold byte_ok; lia|done].
    + cbn [app le_val]. lia.
Qed.

Lemma le_val_snoc init t : le_val (init ++ [t]) = le_val init + 256 ^ Zlen init * t.
Proof. rewrite le_val_app. simpl. lia. Qed.

Lemma lastByte_snoc init t : lastByte (init ++ [t]) = t.
Proof.
  unfold lastByte. rewrite length_app. simpl.
  rewrite app_nth2 by lia. by replace (length init + 1 - 1 - length init)%nat with 0%nat by lia.
Qed.

(** ** Bytes *)
Lemma Bytes_digits (negative : bool) init t :
  bytes_ok (init ++ [t]) -> 0 < t -> le_val (init ++ [t]) < 2 ^ 63 -> (length init < 8)%nat ->
  Bytes (if negative then - le_val (init ++ [t]) else le_val (init ++ [t]))
  = Ok (signed negative init t).
Proof.
  intros Hb Ht Hv Hl. destruct (magnitude_le_val 8 init t Hb Ht Hl) as [Hpos Hm].
  set (m := le_val (init ++ [t])) in *. unfold Bytes, signed.
  rewrite (proj2 (Z.eqb_neq _ 0)) by (destruct negative; lia).
  replace ((if negative then - m else m) <? 0) with negative
    by (destruct negative; symmetry; [apply Z.ltb_lt|apply Z.ltb_ge]; lia).
  replace (if negative then i64 (- (if negative then - m else m)) else if negative then - m else m)
    with m by (destruct negative; rewrite ?i64_small; lia).
  rewrite bytesLoop_spec, Hm. cbn [app].
  replace (Zlen (init ++ [t]) - 1) with (Zlen init) by zlen.
  rewrite index_app_0, index_cons_0. cbn [mbind outcome_bind].
  apply list.Forall_app in Hb as [_ Htb]. apply Forall_inv in Htb.
  destruct (byte_bits t Htb) as (_ & -> & Hor). unfold byte_ok in Htb.
  destruct (Z.ltb_spec t 128), (Z.leb_spec 128 t); try lia; simpl.
  - destruct negative; [|done]. rewrite Hor by done. unfold mret, outcome_ret. f_equal.
    rewrite length_app. simpl. rewrite insert_app_r_alt by lia.
    by replace (length init + 1 - 1 - length init)%nat with 0%nat by lia.
  - unfold mret, outcome_ret. by rewrite <- app_assoc.
Qed.

Lemma Bytes_spec n : - 2 ^ 63 < n < 2 ^ 63 -> n <> 0 ->
  exists init t, bytes_ok (init ++ [t]) /\ 0 < t /\ le_val (init ++ [t]) = Z.abs n /\
    Bytes n = Ok (signed (n <? 0) init t).
Proof.
  intros Hn Hnz. destruct (magnitude_digits 8 (Z.abs n)) as (init & t & _ & Hb & Ht & Hv & Hl);
    [change (256 ^ Z.of_nat 8) with (2 ^ 64); lia|].
  exists init, t. split_and!; try done.
  rewrite <- (Bytes_digits (n <? 0) init t) by (done || lia). f_equal. rewrite Hv.
  destruct (Z.ltb_spec n 0); lia.
Qed.

(** ** MakeScriptNum *)
Lemma pow_256 i : 0 <= i -> 256 ^ i = 2 ^ (8 * i).
Proof. intros. by rewrite Z.pow_mul_r by lia. Qed.

Lemma pow_256_le i j : 0 <= i <= j -> 0 < 256 ^ i <= 256 ^ j.
Proof. intros. split; [apply Z.pow_pos_nonneg; lia|apply Z.pow_le_mono_r; lia]. Qed.

Lemma decodeLoop_spec v i r :
  bytes_ok v -> 0 <= i -> i + Zlen v <= 7 -> 0 <= r < 256 ^ i ->
  decodeLoop v i r = r + 256 ^ i * le_val v.
Proof.
  revert i r; induction v as [|b v IH]; intros i r Hb Hi Hlen Hr; simpl; [lia|].
  apply list.Forall_cons in Hb as [Hb Hv]. unfold byte_ok in Hb.
  rewrite Zlen_cons in Hlen. pose proof (Zlen_nonneg v).
  pose proof (pow_256_le i 6 ltac:(lia)) as Hp. rewrite (pow_256 i) in * by lia.
  rewrite (u8_small (8 * i)) by lia.
  rewrite i64_small by (rewrite Z.shiftl_mul_pow2 by lia; change (256 ^ 6) with (2 ^ 48) in Hp; nia).
  rewrite Z.lor_comm, lor_shiftl_add by lia.
  assert (H256 : 256 ^ (i + 1) = 2 ^ (8 * i) * 256) by (rewrite Z.pow_add_r, pow_256 by lia; done).
  rewrite IH; [rewrite H256; ring|done|lia|lia|rewrite H256; nia].
Qed.

Lemma MakeScriptNum_snoc init b requireMinimal len :
  bytes_ok (init ++ [b]) -> Zlen init + 1 <= len -> len <= 7 ->
  MakeScriptNum (init ++ [b]) requireMinimal len =
    (_ ← (if requireMinimal then checkMinimalDataEncoding (init ++ [b]) else Ok ());
     mret (valueOf init b)).
Proof.
  intros Hb Hlen H7. unfold MakeScriptNum, valueOf. pose proof (Zlen_nonneg init) as Hnn.
  assert (Hl : Zlen (init ++ [b]) = Zlen init + 1) by zlen. rewrite Hl.
  rewrite (proj2 (Z.ltb_ge _ _)), (proj2 (Z.eqb_neq _ 0)) by lia.
  rewrite lastByte_snoc, decodeLoop_spec by (done || lia).
  rewrite Z.add_0_l, Z.mul_1_l. pose proof Hb as Hb'.
  apply list.Forall_app in Hb' as [Hi Hbb]. apply Forall_inv in Hbb.
  destruct (byte_bits b Hbb) as (_ & -> & _). unfold byte_ok in Hbb.
  destruct (Z.ltb_spec b 128); [done|]. cbn [negb].
  pose proof (le_val_range init Hi) as Hr. fold (Zlen init) in Hr.
  pose proof (pow_256_le (Zlen init) 6 ltac:(lia)) as Hp. change (256 ^ 6) with (2 ^ 48) in Hp.
  rewrite !le_val_snoc in *. rewrite (u8_small (8 * _)) by lia.
  replace (8 * (Zlen init + 1 - 1)) with (8 * Zlen init) by lia.
  assert (Hs : Z.shiftl 128 (8 * Zlen init) = 2 ^ (8 * Zlen init + 7)).
  { rewrite Z.shiftl_mul_pow2, Z.pow_add_r by lia. lia. }
  assert (Hpow : 2 ^ (8 * Zlen init + 7) = 256 ^ Zlen init * 128)
    by (rewrite Z.pow_add_r, pow_256 by lia; done).
  rewrite Hs, (i64_small (2 ^ _)) by (rewrite Hpow; lia).
  replace (le_val init + 256 ^ Zlen init * b)
    with ((le_val init + 256 ^ Zlen init * (b - 128)) + 2 ^ (8 * Zlen init + 7)) by (rewrite Hpow; lia).
  rewrite clear_top_bit by (rewrite ?Hpow; nia). by rewrite i64_small by nia.
Qed.

Lemma secondLast_snoc init c b : secondLast (init ++ [c; b]) = c.
Proof.
  unfold secondLast. rewrite length_app. simpl.
  rewrite app_nth2 by lia. by replace (length init + 2 - 2 - length init)%nat with 0%nat by lia.
Qed.

(** Which encodings are minimal. *)
Lemma minimal_snoc init b : bytes_ok (init ++ [b]) ->
  checkMinimalDataEncoding (init ++ [b]) = Ok () <->
  b mod 128 <> 0 \/ exists init' c, init = init' ++ [c] /\ 128 <= c.
Proof.
  intros Hb. unfold checkMinimalDataEncoding.
  rewrite (proj2 (Z.eqb_neq (Zlen _) 0)) by len_lia. rewrite lastByte_snoc.
  pose proof Hb as Hb'. apply list.Forall_app in Hb' as [Hi Hbb]. apply Forall_inv in Hbb.
  destruct (byte_bits b Hbb) as (-> & _ & _).
  destruct (Z.eqb_spec (b mod 128) 0) as [Hz|Hnz]; [|split; [by left|done]].
  destruct init as [|c init _] using rev_ind.
  - rewrite (proj2 (Z.eqb_eq _ _)) by (unfold Zlen; done). simpl. split; [done|].
    intros [H|(init' & c & H & _)]; [done|]. by destruct init'.
  - apply list.Forall_app in Hi as [_ Hc]. apply Forall_inv in Hc.
    rewrite <- app_assoc in *. cbn [app] in *. rewrite secondLast_snoc.
    destruct (byte_bits c Hc) as (_ & -> & _).
    rewrite (proj2 (Z.eqb_neq (Zlen _) 1)) by len_lia. simpl.
    destruct (Z.ltb_spec c 128); split; try done.
    + intros [H'|(init' & c' & Heq & Hc')]; [done|]. apply app_inj_tail in Heq as [-> ->]. lia.
    + intros _. right. by exists init, c.
Qed.

(** A last byte without its sign is below 128. *)
Lemma valueOf_range init b :
  bytes_ok (init ++ [b]) -> Z.abs (valueOf init b) < 256 ^ Zlen init * 128.
Proof.
  intros Hb. apply list.Forall_app in Hb as [Hi Hb]. apply Forall_inv in Hb. unfold byte_ok in Hb.
  pose proof (le_val_range init Hi) as Hr. fold (Zlen init) in Hr. unfold valueOf.
  rewrite !le_val_snoc. destruct (Z.ltb_spec b 128); nia.
Qed.

Lemma Bytes_valueOf init b :
  bytes_ok (init ++ [b]) -> Zlen init <= 6 -> checkMinimalDataEncoding (init ++ [b]) = Ok () ->
  Bytes (valueOf init b) = Ok (init ++ [b]).
Proof.
  intros Hb Hlen Hmin. pose proof (valueOf_range init b Hb) as Hr.
  pose proof (pow_256_le (Zlen init) 6 ltac:(len_lia)) as Hp. change (256 ^ 6) with (2 ^ 48) in Hp.
  pose proof Hb as Hb'. apply list.Forall_app in Hb' as [Hi Hbb]. apply Forall_inv in Hbb.
  unfold byte_ok in Hbb. pose proof (Z.div_mod b 128) as Hdm. pose proof (Z.mod_pos_bound b 128).
  assert (Hi8 : (length init < 8)%nat) by (unfold Zlen in Hlen; lia).
  apply minimal_snoc in Hmin; [|done].
  destruct (decide (b mod 128 = 0)) as [Hz|Hnz].
  - destruct Hmin as [?|(init' & c & -> & Hc)]; [done|].
    apply list.Forall_app in Hi as [Hi' Hc']. pose proof (Forall_inv Hc') as Hcb.
    assert (Heq : forall k, le_val ((init' ++ [c]) ++ [k]) = le_val (init' ++ [c]) + 256 ^ Zlen (init' ++ [c]) * k)
      by (intros; apply le_val_snoc).
    assert (Hok : bytes_ok (init' ++ [c])) by (apply list.Forall_app; done).
    rewrite length_app in Hi8. simpl in Hi8. unfold byte_ok in Hcb.
    assert (b = 0 \/ b = 128) as [-> | ->] by lia; unfold valueOf in *;
      [change (0 <? 128) with true in *|change (128 <? 128) with false in *; change (128 - 128) with 0 in *];
      cbv iota in *; rewrite Heq, Z.mul_0_r, Z.add_0_r in *.
    + rewrite (Bytes_digits false init' c) by (done || lia). unfold signed.
      rewrite (proj2 (Z.leb_le _ _)) by lia. by rewrite <- app_assoc.
    + rewrite (Bytes_digits true init' c) by (done || lia). unfold signed.
      rewrite (proj2 (Z.leb_le _ _)) by lia. by rewrite <- app_assoc.
  - unfold valueOf in *. destruct (Z.ltb_spec b 128).
    + rewrite Z.mod_small in Hnz by lia.
      rewrite (Bytes_digits false init b) by (done || lia). unfold signed.
      by rewrite (proj2 (Z.leb_gt _ _)) by lia.
    + assert (bytes_ok (init ++ [b - 128]))
        by (apply list.Forall_app; split; [done|repeat constructor; unfold byte_ok; lia]).
      assert (b <> 128) by (by intros ->).
      rewrite (Bytes_digits true init (b - 128)) by (done || lia). unfold signed.
      rewrite (proj2 (Z.leb_gt _ _)) by lia. by replace (b - 128 + 128) with b by lia.
Qed.

(** The bytes of a number, in the form of the previous lemmas. *)
Lemma Bytes_shape n v len :
  - 2 ^ (8 * len - 1) < n < 2 ^ (8 * len - 1) -> 1 <= len <= 7 -> n <> 0 -> Bytes n = Ok v ->
  exists init b, v = init ++ [b] /\ bytes_ok (init ++ [b]) /\ Zlen init + 1 <= len /\
    valueOf init b = n /\ checkMinimalDataEncoding (init ++ [b]) = Ok ().
Proof.
  intros Hn Hlen Hnz Hv.
  assert (H48 : 2 ^ (8 * len - 1) <= 2 ^ 55) by (apply Z.pow_le_mono_r; lia).
  assert (Hp : 2 ^ (8 * len - 1) = 256 ^ (len - 1) * 128).
  { replace (8 * len - 1) with (8 * (len - 1) + 7) by lia. rewrite Z.pow_add_r, pow_256 by lia. done. }
  destruct (Bytes_spec n ltac:(lia) Hnz) as (init & t & Hb & Ht & Habs & Hs).
  rewrite Hs in Hv. injection Hv as <-. pose proof (Zlen_nonneg init) as Hnn.
  pose proof Hb as Hb'. apply list.Forall_app in Hb' as [Hi Htb]. apply Forall_inv in Htb.
  pose proof (le_val_range init Hi) as Hr. fold (Zlen init) in Hr.
  pose proof Htb as Htb'. unfold byte_ok in Htb'.
  rewrite le_val_snoc in Habs. unfold signed. destruct (Z.leb_spec 128 t) as [H128|H128].
  - assert (Hl : Zlen init + 1 < len).
    { destruct (Z.lt_ge_cases (Zlen init + 1) len) as [?|Hge]; [done|exfalso].
      pose proof (pow_256_le (len - 1) (Zlen init) ltac:(lia)). nia. }
    exists (init ++ [t]), (if n <? 0 then 128 else 0). split_and!.
    + by rewrite <- app_assoc.
    + apply list.Forall_app; split; [done|]. repeat constructor; unfold byte_ok; case_match; lia.
    + rewrite Zlen_app. unfold Zlen at 2. simpl. lia.
    + unfold valueOf. destruct (Z.ltb_spec n 0); simpl.
      * change (128 <? 128) with false. change (128 - 128) with 0. cbv iota.
        rewrite le_val_snoc, le_val_snoc. lia.
      * change (0 <? 128) with true. cbv iota. rewrite le_val_snoc, le_val_snoc. lia.
    + apply minimal_snoc; [|by right; exists init, t].
      apply list.Forall_app; split; [done|]. repeat constructor; unfold byte_ok; case_match; lia.
  - assert (Hl : Zlen init < len).
    { destruct (Z.lt_ge_cases (Zlen init) len) as [?|Hge]; [done|exfalso].
      pose proof (pow_256_le len (Zlen init) ltac:(lia)).
      assert (256 ^ len = 256 * 256 ^ (len - 1))
        by (rewrite <- Z.pow_succ_r by lia; f_equal; lia).
      nia. }
    set (b := if n <? 0 then t + 128 else t).
    assert (Hbok : byte_ok b) by (unfold b, byte_ok; case_match; lia).
    assert (Hbs : bytes_ok (init ++ [b])) by (apply list.Forall_app; split; [done|by constructor]).
    exists init, b. split_and!; [done|done|lia| |].
    + unfold valueOf, b. destruct (Z.ltb_spec n 0).
      * rewrite (proj2 (Z.ltb_ge _ _)) by lia. replace (t + 128 - 128) with t by lia.
        rewrite le_val_snoc. lia.
      * rewrite (proj2 (Z.ltb_lt _ _)) by lia. rewrite le_val_snoc. lia.
    + apply minimal_snoc; [done|]. left. unfold b. destruct (n <? 0).
      * replace (t + 128) with (t + 1 * 128) by lia. rewrite Z.mod_add, Z.mod_small by lia. lia.
      * rewrite Z.mod_small by lia. lia.
Qed.

(** ** Theorems *)

(** Every number but the least int64 has an encoding, of at most nine bytes. *)
Lemma Bytes_total n : - 2 ^ 63 < n < 2 ^ 63 ->
  exists v, Bytes n = Ok v /\ bytes_ok v /\ Zlen v <= 9.
Proof.
  intros Hn. destruct (Z.eq_dec n 0) as [->|Hnz]; [by exists []|].
  destruct (Bytes_spec n Hn Hnz) as (init & t & Hb & Ht & Hv & ->). eexists. split; [done|].
  rewrite le_val_snoc in Hv. apply list.Forall_app in Hb as [Hi Hb]. apply Forall_inv in Hb.
  unfold byte_ok in Hb.
  assert (Zlen init <= 7).
  { destruct (Z.le_gt_cases (Zlen init) 7) as [|Hgt]; [done|]. exfalso.
    pose proof (le_val_range _ Hi) as Hr.
    pose proof (pow_256_le 8 (Zlen init)) as Hp.
    assert (256 ^ 8 <= 256 ^ Zlen init) by lia. change (256 ^ 8) with (2 ^ 64) in *. nia. }
  unfold signed. destruct (128 <=? t) eqn:Hs; (split; [apply list.Forall_app; split; [done|]|len_lia]).
  - repeat apply Forall_cons_2; [done|by destruct (n <? 0)|apply Forall_nil_2].
  - apply Z.leb_gt in Hs. apply Forall_cons_2; [|apply Forall_nil_2]. unfold byte_ok. case_match; lia.
Qed.

(** Under the minimal-encoding rule the decoder and the encoder are
    inverse bijections: bytes of at most [len] bytes decode to [n] exactly
    when they are the encoding of [n] and [n] is in the range of [len]
    bytes, so no number has two accepted encodings.  (The engine uses
    [len] = 4 and 5.) *)
Theorem MakeScriptNum_iff_Bytes v n len (Hv : bytes_ok v) (Hlen : 1 <= len <= 7) :
  MakeScriptNum v true len = Ok n <->
  Bytes n = Ok v /\ - 2 ^ (8 * len - 1) < n < 2 ^ (8 * len - 1).
Proof.
  assert (Hp : 2 ^ (8 * len - 1) = 256 ^ (len - 1) * 128).
  { replace (8 * len - 1) with (8 * (len - 1) + 7) by lia. rewrite Z.pow_add_r, pow_256 by lia. done. }
  assert (H0 : 0 < 2 ^ (8 * len - 1)) by (apply Z.pow_pos_nonneg; lia).
  destruct v as [|b init _] using rev_ind.
  - unfold MakeScriptNum. rewrite (proj2 (Z.ltb_ge _ _)) by (unfold Zlen; simpl; lia).
    cbn. split; [intros [= <-]; split; [done|lia]|].
    intros [Hb Hn]. destruct (decide (n = 0)) as [->|Hnz]; [done|].
    destruct (Bytes_shape n [] len Hn Hlen Hnz Hb) as (init & b & Heq & _). by destruct init.
  - split.
    + intros H.
      assert (Hl : Zlen init + 1 <= len).
      { destruct (Z.le_gt_cases (Zlen init + 1) len); [done|]. unfold MakeScriptNum in H.
        rewrite (proj2 (Z.ltb_lt _ _)) in H by (rewrite Zlen_app; unfold Zlen in *; simpl; lia). done. }
      rewrite MakeScriptNum_snoc in H by (done || lia).
      destruct (checkMinimalDataEncoding (init ++ [b])) as [[]| | |] eqn:Hmin; try discriminate H.
      cbn in H. injection H as <-. split; [apply Bytes_valueOf; done || lia|].
      pose proof (valueOf_range init b Hv).
      pose proof (pow_256_le (Zlen init) (len - 1) ltac:(len_lia)). nia.
    + intros [Hb Hn]. destruct (decide (n = 0)) as [->|Hnz].
      { unfold Bytes in Hb. simpl in Hb. injection Hb as Hb. by destruct init. }
      destruct (Bytes_shape n _ len Hn Hlen Hnz Hb) as (init' & b' & Heq & Hok & Hl & Hval & Hmin).
      apply app_inj_tail in Heq as [-> ->]. rewrite MakeScriptNum_snoc by (done || lia).
      rewrite Hmin. cbn. by rewrite Hval.
Qed.

(** Without the flag the padded encodings are accepted too. *)
Example padded : MakeScriptNum [0x7f; 0x00] false 4 = Ok 127. Proof. reflexivity. Qed.
Example padded_minimal : MakeScriptNum [0x7f; 0x00] true 4 = Err ErrMinimalData. Proof. reflexivity. Qed.
Example negative_zero : MakeScriptNum [0x80] false 4 = Ok 0. Proof. reflexivity. Qed.
Example least_int64 : Bytes (- 2 ^ 63) = Panic. Proof. reflexivity. Qed.

Lemma MakeScriptNum_iff_Bytes_witness :
  MakeScriptNum [0x00; 0x80; 0x80] true 4 = Ok (-32768) <->
  Bytes (-32768) = Ok [0x00; 0x80; 0x80] /\ - 2 ^ (8 * 4 - 1) < -32768 < 2 ^ (8 * 4 - 1).
Proof.
  apply MakeScriptNum_iff_Bytes; [apply (bool_decide_unpack _); reflexivity|lia].
Defined.

End ScriptNum.
