(* ===== verification/ScriptStack.v ===== *)
(** * The script stack

    Models coin/OrcaNet/txscript/stack.go.  As in the code the stack is a
    slice whose last element is the top.  An operation that fails may have
    popped some of its operands already; the engine stops at the first error,
    so the stack of a failed operation is not modelled. *)

From S2P Require Import Prelude ScriptNum.

Module ScriptStack.
Import ScriptNum.

(** ** The code *)
Fixpoint asBool (t : list Z) : bool :=
  match t with
  | [] => false
  | b :: t =>
      if b =? 0 then asBool t
      else if (Zlen t =? 0) && (b =? 0x80) then false else true
  end.

Definition fromBool (v : bool) : list Z := if v then [1] else [].

Record stack := mkStack {
  stk : list (list Z);
  verifyMinimalData : bool;
}.

Definition setStk (l : list (list Z)) (s : stack) : stack := mkStack l (verifyMinimalData s).

Definition Depth (s : stack) : Z := i32 (Zlen (stk s)).

Definition PushByteArray (so : list Z) (s : stack) : stack := setStk (stk s ++ [so]) s.

Definition PushInt (val : Z) (s : stack) : outcome ErrorCode stack :=
  b ← Bytes val; mret (PushByteArray b s).

Definition PushBool (val : bool) (s : stack) : stack := PushByteArray (fromBool val) s.

Definition nipN (idx : Z) (s : stack) : outcome ErrorCode (list Z * stack) :=
  let sz := i32 (Zlen (stk s)) in
  if (idx <? 0) || (sz - 1 <? idx) then Err ErrInvalidStackOperation
  else
    so ← index (stk s) (sz - idx - 1);
    if idx =? 0 then
      l ← slice (stk s) 0 (sz - 1);
      mret (so, setStk l s)
    else if idx =? sz - 1 then
      l ← slice (stk s) 1 (Zlen (stk s));
      mret (so, setStk l s)
    else
      s1 ← slice (stk s) (sz - idx) sz;
      l ← slice (stk s) 0 (sz - idx - 1);
      mret (so, setStk (l ++ s1) s).

Definition PopByteArray (s : stack) : outcome ErrorCode (list Z * stack) := nipN 0 s.

Definition PopInt (s : stack) : outcome ErrorCode (Z * stack) :=
  '(so, s) ← PopByteArray s;
  n ← MakeScriptNum so (verifyMinimalData s) maxScriptNumLen;
  mret (n, s).

Definition PopBool (s : stack) : outcome ErrorCode (bool * stack) :=
  '(so, s) ← PopByteArray s;
  mret (asBool so, s).

Definition PeekByteArray (idx : Z) (s : stack) : outcome ErrorCode (list Z) :=
  let sz := i32 (Zlen (stk s)) in
  if (idx <? 0) || (sz <=? idx) then Err ErrInvalidStackOperation
  else index (stk s) (sz - idx - 1).

Definition PeekInt (idx : Z) (s : stack) : outcome ErrorCode Z :=
  so ← PeekByteArray idx s; MakeScriptNum so (verifyMinimalData s) maxScriptNumLen.

Definition PeekBool (idx : Z) (s : stack) : outcome ErrorCode bool :=
  so ← PeekByteArray idx s; mret (asBool so).

Definition NipN (idx : Z) (s : stack) : outcome ErrorCode stack :=
  '(_, s) ← nipN idx s; mret s.

Definition Tuck (s : stack) : outcome ErrorCode stack :=
  '(so2, s) ← PopByteArray s;
  '(so1, s) ← PopByteArray s;
  mret (PushByteArray so2 (PushByteArray so1 (PushByteArray so2 s))).

(** A loop that runs [n] times (for i := n; i > 0; i--). *)
Fixpoint times (n : nat) (f : stack -> outcome ErrorCode stack) (s : stack) : outcome ErrorCode stack :=
  match n with
  | O => Ok s
  | S n => s ← f s; times n f s
  end.

(** The loops of the N operations, guarded by n < 1. *)
Definition repeatN (n : Z) (f : stack -> outcome ErrorCode stack) (s : stack) : outcome ErrorCode stack :=
  if n <? 1 then Err ErrInvalidStackOperation else times (Z.to_nat n) f s.

(** Pop the entry at [idx] and push it. *)
Definition nipPush (idx : Z) (s : stack) : outcome ErrorCode stack :=
  '(so, s) ← nipN idx s; mret (PushByteArray so s).

(** Push a copy of the entry at [idx]. *)
Definition peekPush (idx : Z) (s : stack) : outcome ErrorCode stack :=
  so ← PeekByteArray idx s; mret (PushByteArray so s).

Definition pop1 (s : stack) : outcome ErrorCode stack := '(_, s) ← PopByteArray s; mret s.

Definition DropN (n : Z) : stack -> outcome ErrorCode stack :=
  repeatN n pop1.
Definition DupN (n : Z) : stack -> outcome ErrorCode stack := repeatN n (peekPush (i32 (n - 1))).
Definition RotN (n : Z) : stack -> outcome ErrorCode stack := repeatN n (nipPush (i32 (3 * n - 1))).
Definition SwapN (n : Z) : stack -> outcome ErrorCode stack := repeatN n (nipPush (i32 (2 * n - 1))).
Definition OverN (n : Z) : stack -> outcome ErrorCode stack := repeatN n (peekPush (i32 (2 * n - 1))).
Definition PickN (n : Z) : stack -> outcome ErrorCode stack := peekPush n.
Definition RollN (n : Z) : stack -> outcome ErrorCode stack := nipPush n.

(** ** Access from the top *)

(** A stack whose size fits the int32 the code keeps it in. *)
Definition sized (s : stack) : Prop := Zlen (stk s) < 2 ^ 31.

Lemma sized_i32 s : sized s -> i32 (Zlen (stk s)) = Zlen (stk s).
Proof. unfold sized. intros. apply i32_small. len_lia. Qed.

Lemma stack_eq s l : stk s = l -> s = setStk l s.
Proof. by destruct s; intros <-. Qed.

Lemma nipN_mid s xs x ys idx :
  sized s -> stk s = xs ++ [x] ++ ys -> idx = Zlen ys ->
  nipN idx s = Ok (x, setStk (xs ++ ys) s).
Proof.
  intros Hs Hstk ->. unfold nipN. rewrite sized_i32 by done.
  assert (Hl : Zlen (stk s) = Zlen xs + 1 + Zlen ys) by (rewrite Hstk; len_lia).
  pose proof (Zlen_nonneg xs). pose proof (Zlen_nonneg ys).
  rewrite Hl, (proj2 (Z.ltb_ge _ 0)), (proj2 (Z.ltb_ge _ (Zlen ys))) by lia. cbn [orb].
  replace (Zlen xs + 1 + Zlen ys - Zlen ys - 1) with (Zlen xs) by lia.
  replace (Zlen xs + 1 + Zlen ys - Zlen ys) with (Zlen (xs ++ [x])) by len_lia.
  rewrite Hstk, index_app_0. cbn [app]. rewrite index_cons_0. cbn [mbind outcome_bind].
  destruct (Z.eqb_spec (Zlen ys) 0) as [Hz|Hnz].
  { destruct ys; [|len_lia]. rewrite slice_prefix by (unfold Zlen; simpl; lia).
    by rewrite app_nil_r. }
  destruct (Z.eqb_spec (Zlen ys) (Zlen xs + 1 + Zlen ys - 1)) as [Ho|Hno].
  { destruct xs; [|len_lia]. cbn [app]. rewrite (slice_suffix [x] ys) by (unfold Zlen; simpl; lia). done. }
  replace (xs ++ x :: ys) with ((xs ++ [x]) ++ ys) at 1 by (by rewrite <- app_assoc).
  rewrite (slice_suffix (xs ++ [x]) ys) by len_lia. cbn [mbind outcome_bind]. by rewrite slice_prefix.
Qed.

Lemma nipN_short s idx :
  sized s -> Zlen (stk s) <= idx -> nipN idx s = Err ErrInvalidStackOperation.
Proof.
  intros Hs Hidx. unfold nipN. rewrite sized_i32 by done.
  rewrite (proj2 (Z.ltb_lt _ idx)) by lia. by rewrite orb_true_r.
Qed.

Lemma Peek_mid s xs x ys idx :
  sized s -> stk s = xs ++ [x] ++ ys -> idx = Zlen ys -> PeekByteArray idx s = Ok x.
Proof.
  intros Hs Hstk ->. unfold PeekByteArray. rewrite sized_i32 by done.
  assert (Hl : Zlen (stk s) = Zlen xs + 1 + Zlen ys) by (rewrite Hstk; len_lia).
  pose proof (Zlen_nonneg xs). pose proof (Zlen_nonneg ys).
  rewrite Hl, (proj2 (Z.ltb_ge _ 0)), (proj2 (Z.leb_gt _ (Zlen ys))) by lia. cbn [orb].
  replace (Zlen xs + 1 + Zlen ys - Zlen ys - 1) with (Zlen xs) by lia.
  by rewrite Hstk, index_app_0.
Qed.

Lemma Peek_short s idx :
  sized s -> Zlen (stk s) <= idx -> PeekByteArray idx s = Err ErrInvalidStackOperation.
Proof.
  intros Hs Hidx. unfold PeekByteArray. rewrite sized_i32 by done.
  rewrite (proj2 (Z.leb_le _ idx)) by lia. by rewrite orb_true_r.
Qed.

Lemma nipPush_mid s xs x ys idx :
  sized s -> stk s = xs ++ [x] ++ ys -> idx = Zlen ys ->
  nipPush idx s = Ok (setStk (xs ++ ys ++ [x]) s).
Proof.
  intros Hs Hstk Hidx. unfold nipPush. rewrite (nipN_mid s xs x ys) by done.
  cbn [mbind outcome_bind]. unfold mret, outcome_ret, PushByteArray, setStk. simpl. by simplify_list_eq.
Qed.

Lemma peekPush_mid s xs x ys idx :
  sized s -> stk s = xs ++ [x] ++ ys -> idx = Zlen ys ->
  peekPush idx s = Ok (setStk (xs ++ [x] ++ ys ++ [x]) s).
Proof.
  intros Hs Hstk Hidx. unfold peekPush. rewrite (Peek_mid s xs x ys) by done.
  cbn [mbind outcome_bind]. unfold mret, outcome_ret, PushByteArray. rewrite Hstk. by simplify_list_eq.
Qed.

Lemma pop1_snoc s xs x :
  sized s -> stk s = xs ++ [x] -> pop1 s = Ok (setStk xs s).
Proof.
  intros Hs Hstk. unfold pop1, PopByteArray. rewrite (nipN_mid s xs x []) by done. by rewrite app_nil_r.
Qed.

(** ** The loops *)

(** Moving the entry [idx] down to the top, once per element of [xs]. *)
Lemma times_nipPush xs base ys idx s :
  sized s -> stk s = base ++ xs ++ ys -> idx = Zlen xs + Zlen ys - 1 ->
  times (length xs) (nipPush idx) s = Ok (setStk (base ++ ys ++ xs) s).
Proof.
  revert base ys s; induction xs as [|x xs IH]; intros base ys s Hs Hstk Hidx.
  - simpl. rewrite app_nil_r. by rewrite <- (stack_eq s).
  - cbn [times length]. rewrite (nipPush_mid s base x (xs ++ ys)); [|done|done|len_lia].
    cbn [mbind outcome_bind]. rewrite <- app_assoc. rewrite (IH base (ys ++ [x])).
    + unfold setStk. simpl. by simplify_list_eq.
    + unfold sized in *. rewrite Hstk in Hs. simpl. len_lia.
    + simpl. by simplify_list_eq.
    + rewrite Zlen_cons in Hidx. len_lia.
Qed.

(** Copying the entry [idx] to the top, once per element of [xs]. *)
Lemma times_peekPush xs base ys idx s :
  Zlen (stk s) + Zlen xs < 2 ^ 31 -> stk s = base ++ xs ++ ys -> idx = Zlen xs + Zlen ys - 1 ->
  times (length xs) (peekPush idx) s = Ok (setStk (base ++ xs ++ ys ++ xs) s).
Proof.
  revert base ys s; induction xs as [|x xs IH]; intros base ys s Hs Hstk Hidx.
  - simpl. rewrite app_nil_r. by rewrite <- (stack_eq s).
  - cbn [times length].
    rewrite (peekPush_mid s base x (xs ++ ys)); [|unfold sized; len_lia|done|len_lia].
    cbn [mbind outcome_bind]. rewrite (IH (base ++ [x]) (ys ++ [x])).
    + unfold setStk. simpl. by simplify_list_eq.
    + rewrite Hstk, Zlen_cons in Hs. simpl. len_lia.
    + simpl. by simplify_list_eq.
    + rewrite Zlen_cons in Hidx. len_lia.
Qed.

Lemma times_drop xs base s :
  sized s -> stk s = base ++ xs ->
  times (length xs) pop1 s = Ok (setStk base s).
Proof.
  revert s; induction xs as [|x xs IH] using rev_ind; intros s Hs Hstk.
  - simpl. rewrite app_nil_r in Hstk. by rewrite <- (stack_eq s).
  - rewrite length_app, Nat.add_comm. cbn [times length Nat.add].
    rewrite (pop1_snoc s (base ++ xs) x); [|done|by rewrite Hstk, <- app_assoc].
    cbn [mbind outcome_bind]. rewrite IH; [done| |done].
    unfold sized in *. rewrite Hstk in Hs. simpl. len_lia.
Qed.

Lemma times_drop_short n s :
  sized s -> (length (stk s) < n)%nat ->
  times n pop1 s = Err ErrInvalidStackOperation.
Proof.
  revert s; induction n as [|n IH]; intros s Hs Hn; [lia|]. cbn [times].
  destruct (stk s) as [|x l _] eqn:Hl using rev_ind.
  - unfold pop1, PopByteArray. rewrite nipN_short; [done|done|by rewrite Hl].
  - rewrite (pop1_snoc s l x) by done. cbn [mbind outcome_bind].
    rewrite length_app in Hn. simpl in Hn. apply IH; [|simpl; lia].
    unfold sized in *. rewrite Hl in Hs. simpl. len_lia.
Qed.

Lemma repeatN_err n f s :
  1 <= n -> f s = Err ErrInvalidStackOperation -> repeatN n f s = Err ErrInvalidStackOperation.
Proof.
  intros Hn Hf. unfold repeatN. rewrite (proj2 (Z.ltb_ge _ _)) by lia.
  destruct (Z.to_nat n) eqn:Heq; [lia|]. cbn [times]. by rewrite Hf.
Qed.

Lemma repeatN_times n f s {A} (xs : list A) :
  1 <= n -> n = Zlen xs -> repeatN n f s = times (length xs) f s.
Proof.
  intros Hn ->. unfold repeatN. rewrite (proj2 (Z.ltb_ge _ _)) by lia. unfold Zlen. by rewrite Nat2Z.id.
Qed.

(** ** Theorems *)

(** Each N operation does what its comment draws: with enough items it
    performs exactly the drawn transformation of the top groups of [n]
    items, keeping everything below them, and with too few it fails with
    ErrInvalidStackOperation.  (The engine uses [n] from 1 to 3.) *)
Theorem stack_transformations s base xs ys zs n
    (Hn : 1 <= n) (H3n : 3 * n < 2 ^ 31) (Hsize : Zlen (stk s) + n < 2 ^ 31)
    (Hxs : Zlen xs = n) (Hys : Zlen ys = n) (Hzs : Zlen zs = n) :
  (stk s = base ++ xs ->
     DropN n s = Ok (setStk base s) /\ DupN n s = Ok (setStk (base ++ xs ++ xs) s)) /\
  (stk s = base ++ xs ++ ys ->
     SwapN n s = Ok (setStk (base ++ ys ++ xs) s) /\
     OverN n s = Ok (setStk (base ++ xs ++ ys ++ xs) s)) /\
  (stk s = base ++ xs ++ ys ++ zs -> RotN n s = Ok (setStk (base ++ ys ++ zs ++ xs) s)) /\
  (Zlen (stk s) < n -> DropN n s = Err ErrInvalidStackOperation /\ DupN n s = Err ErrInvalidStackOperation) /\
  (Zlen (stk s) < 2 * n -> SwapN n s = Err ErrInvalidStackOperation /\ OverN n s = Err ErrInvalidStackOperation) /\
  (Zlen (stk s) < 3 * n -> RotN n s = Err ErrInvalidStackOperation).
Proof.
  assert (Hs : sized s) by (unfold sized; lia).
  unfold DropN, DupN, SwapN, OverN, RotN.
  rewrite (i32_small (n - 1)), (i32_small (2 * n - 1)), (i32_small (3 * n - 1)) by lia.
  split_and!; intros Hstk; try split; try (rewrite (repeatN_times n _ _ xs) by lia).
  - by apply times_drop.
  - rewrite (times_peekPush xs base []); [done|lia|by rewrite app_nil_r|unfold Zlen in *; simpl; lia].
  - rewrite (times_nipPush xs base ys); [done|done|done|lia].
  - rewrite (times_peekPush xs base ys); [done|lia|done|lia].
  - rewrite (times_nipPush xs base (ys ++ zs)); [by simplify_list_eq|done|done|len_lia].
  - apply times_drop_short; [done|unfold Zlen in *; lia].
  - rewrite <- (repeatN_times n _ _ xs) by lia.
    apply repeatN_err; [done|]. unfold peekPush. by rewrite Peek_short by (done || lia).
  - rewrite <- (repeatN_times n _ _ xs) by lia.
    apply repeatN_err; [done|]. unfold nipPush. by rewrite nipN_short by (done || lia).
  - rewrite <- (repeatN_times n _ _ xs) by lia.
    apply repeatN_err; [done|]. unfold peekPush. by rewrite Peek_short by (done || lia).
  - rewrite <- (repeatN_times n _ _ xs) by lia.
    apply repeatN_err; [done|]. unfold nipPush. by rewrite nipN_short by (done || lia).
Qed.

Lemma stack_transformations_witness :
  RotN 2 (mkStack [[9]; [1]; [2]; [3]; [4]; [5]; [6]] false)
  = Ok (mkStack [[9]; [3]; [4]; [5]; [6]; [1]; [2]] false).
Proof.
  apply (stack_transformations (mkStack [[9]; [1]; [2]; [3]; [4]; [5]; [6]] false)
           [[9]] [[1]; [2]] [[3]; [4]] [[5]; [6]] 2); reflexivity || lia.
Defined.

(** The single item operations. *)
Lemma PickN_spec s base x ys :
  Zlen (stk s) < 2 ^ 31 -> stk s = base ++ [x] ++ ys ->
  PickN (Zlen ys) s = Ok (setStk (base ++ [x] ++ ys ++ [x]) s).
Proof.
  intros Hs Hstk. unfold PickN, peekPush. rewrite (Peek_mid s base x ys) by done.
  cbn. unfold mret, outcome_ret, PushByteArray. rewrite Hstk. by simplify_list_eq.
Qed.

Lemma RollN_spec s base x ys :
  Zlen (stk s) < 2 ^ 31 -> stk s = base ++ [x] ++ ys ->
  RollN (Zlen ys) s = Ok (setStk (base ++ ys ++ [x]) s).
Proof.
  intros Hs Hstk. unfold RollN, nipPush. rewrite (nipN_mid s base x ys) by done.
  cbn. unfold mret, outcome_ret, PushByteArray, setStk. simpl. by simplify_list_eq.
Qed.

Lemma Tuck_spec s base x1 x2 :
  Zlen (stk s) < 2 ^ 31 -> stk s = base ++ [x1; x2] ->
  Tuck s = Ok (setStk (base ++ [x2; x1; x2]) s).
Proof.
  intros Hs Hstk. unfold Tuck, PopByteArray.
  rewrite (nipN_mid s (base ++ [x1]) x2 []); [|done|by rewrite Hstk; simplify_list_eq|done].
  cbn [mbind outcome_bind]. rewrite app_nil_r.
  rewrite (nipN_mid _ base x1 []); [|rewrite Hstk in Hs; unfold sized; simpl; len_lia|done|done].
  cbn. unfold mret, outcome_ret, PushByteArray, setStk. simpl. by simplify_list_eq.
Qed.

(** What a successful pop removed. *)
Lemma PopByteArray_ok s so s' :
  sized s -> PopByteArray s = Ok (so, s') -> stk s = stk s' ++ [so] /\ s' = setStk (stk s') s.
Proof.
  intros Hs H. destruct (stk s) as [|x l _] eqn:Hl using rev_ind.
  - unfold PopByteArray in H. rewrite nipN_short in H; [done|done|by rewrite Hl].
  - unfold PopByteArray in H.
    rewrite (nipN_mid s l x []) in H; [|done|by rewrite Hl|done].
    rewrite app_nil_r in H. injection H as <- <-. done.
Qed.

End ScriptStack.
