(* ===== verification/Wire.v ===== *)
(** * The wire encoding of transactions and blocks

    Models the variable length integers and byte strings of
    coin/OrcaNet/wire/common.go, and the encodings of msgtx.go,
    blockheader.go and msgblock.go.  A reader is the list of the bytes left
    to read; a writer is the list written (writes to a buffer do not fail).
    The scratch buffers and free lists only save allocations and are not
    modelled, except for the length of the slab that scripts are read into,
    which the code slices without a check. *)

From S2P Require Import Prelude.

Module Wire.

(** ** Reading *)
Inductive WireError :=
| EOF
| ErrUnexpectedEOF
| MessageError (func : string).

#[export] Instance WireError_eq_dec : EqDecision WireError.
Proof. solve_decision. Defined.

Definition decoder (A : Type) : Type := list Z -> outcome WireError (A * list Z).

#[export] Instance decoder_ret : MRet decoder := fun A a r => Ok (a, r).
#[export] Instance decoder_bind : MBind decoder := fun A B f m r =>
  match m r with
  | Ok (a, r) => f a r
  | Err e => Err e
  | Panic => Panic
  | Hang => Hang
  end.

Definition fail {A} (func : string) : decoder A := fun _ => Err (MessageError func).

(** io.ReadFull into a buffer of [n] bytes. *)
Definition ReadFull (n : nat) : decoder (list Z) := fun r =>
  if decide (n <= length r)%nat then Ok (take n r, drop n r)
  else if decide (r = []) then Err EOF else Err ErrUnexpectedEOF.

Definition readUint16 : decoder Z := b ← ReadFull 2; mret (le_val b).
Definition readUint32 : decoder Z := b ← ReadFull 4; mret (le_val b).
Definition readUint64 : decoder Z := b ← ReadFull 8; mret (le_val b).

(** ** Variable length integers *)
Definition MaxMessagePayload := 1024 * 1024 * 32.
Definition MaxUint16 := 2 ^ 16 - 1.
Definition MaxUint32 := 2 ^ 32 - 1.

Definition ReadVarInt : decoder Z :=
  b ← ReadFull 1;
  let discriminant := nth 0 b 0 in
  if discriminant =? 0xff then
    rv ← readUint64;
    if rv <? 0x100000000 then fail "ReadVarInt" else mret rv
  else if discriminant =? 0xfe then
    rv ← readUint32;
    if rv <? 0x10000 then fail "ReadVarInt" else mret rv
  else if discriminant =? 0xfd then
    rv ← readUint16;
    if rv <? 0xfd then fail "ReadVarInt" else mret rv
  else mret discriminant.

Definition WriteVarInt (val : Z) : list Z :=
  if val <? 0xfd then [u8 val]
  else if val <=? MaxUint16 then 0xfd :: le_bytes 2 (u16 val)
  else if val <=? MaxUint32 then 0xfe :: le_bytes 4 (u32 val)
  else 0xff :: le_bytes 8 val.

Definition VarIntSerializeSize (val : Z) : Z :=
  if val <? 0xfd then 1
  else if val <=? MaxUint16 then 3
  else if val <=? MaxUint32 then 5
  else 9.

Definition ReadVarBytes (maxAllowed : Z) : decoder (list Z) :=
  count ← ReadVarInt;
  if maxAllowed <? count then fail "ReadVarBytes"
  else ReadFull (Z.to_nat count).

Definition WriteVarBytes (bytes : list Z) : list Z := WriteVarInt (Zlen bytes) ++ bytes.

(** A Go string is its bytes. *)
Definition ReadVarString : decoder (list Z) :=
  count ← ReadVarInt;
  if MaxMessagePayload <? count then fail "ReadVarString"
  else ReadFull (Z.to_nat count).

Definition WriteVarString (str : list Z) : list Z := WriteVarInt (Zlen str) ++ str.

(** ** Transactions: data *)
Definition MaxTxInSequenceNum := 0xffffffff.
Definition HashSize := 32%nat.
Definition minTxInPayload := 9 + 32.
Definition maxTxInPerMessage := MaxMessagePayload / minTxInPayload + 1.
Definition MinTxOutPayload := 9.
Definition maxTxOutPerMessage := MaxMessagePayload / MinTxOutPayload + 1.
Definition minTxPayload := 10.
Definition maxWitnessItemsPerInput := 4000000.
Definition maxWitnessItemSize := 4000000.
Definition scriptSlabSize := 2 ^ 22.
Definition TxFlagMarker := 0x00.
Definition WitnessFlag := 0x01.

Record OutPoint := mkOutPoint {
  Hash : list Z;
  Index : Z;
}.

Record TxIn := mkTxIn {
  PreviousOutPoint : OutPoint;
  SignatureScript : list Z;
  Witness : list (list Z);
  Sequence : Z;
}.

Record TxOut := mkTxOut {
  Value : Z;
  PkScript : list Z;
}.

Record MsgTx := mkMsgTx {
  Version : Z;
  TxIns : list TxIn;
  TxOuts : list TxOut;
  LockTime : Z;
}.

Inductive MessageEncoding := BaseEncoding | WitnessEncoding.

Definition HasWitness (msg : MsgTx) : bool :=
  existsb (fun txIn => negb (Zlen (Witness txIn) =? 0)) (TxIns msg).

(** ** Transactions: writing *)
Definition writeOutPoint (op : OutPoint) : list Z := Hash op ++ le_bytes 4 (Index op).

Definition writeTxIn (ti : TxIn) : list Z :=
  writeOutPoint (PreviousOutPoint ti) ++ WriteVarBytes (SignatureScript ti)
  ++ le_bytes 4 (Sequence ti).

Definition WriteTxOut (to : TxOut) : list Z :=
  le_bytes 8 (u64 (Value to)) ++ WriteVarBytes (PkScript to).

Definition writeTxWitness (wit : list (list Z)) : list Z :=
  WriteVarInt (Zlen wit) ++ concat (WriteVarBytes <$> wit).

Definition BtcEncode (enc : MessageEncoding) (msg : MsgTx) : list Z :=
  let doWitness := match enc with WitnessEncoding => HasWitness msg | BaseEncoding => false end in
  le_bytes 4 (u32 (Version msg))
  ++ (if doWitness then [TxFlagMarker; WitnessFlag] else [])
  ++ WriteVarInt (Zlen (TxIns msg)) ++ concat (writeTxIn <$> TxIns msg)
  ++ WriteVarInt (Zlen (TxOuts msg)) ++ concat (WriteTxOut <$> TxOuts msg)
  ++ (if doWitness then concat ((fun ti => writeTxWitness (Witness ti)) <$> TxIns msg) else [])
  ++ le_bytes 4 (LockTime msg).

Definition Serialize (msg : MsgTx) : list Z := BtcEncode WitnessEncoding msg.
Definition SerializeNoWitness (msg : MsgTx) : list Z := BtcEncode BaseEncoding msg.

(** ** Transactions: sizes *)
Definition sum (l : list Z) : Z := foldr Z.add 0 l.

Definition TxIn_SerializeSize (t : TxIn) : Z :=
  40 + VarIntSerializeSize (Zlen (SignatureScript t)) + Zlen (SignatureScript t).

Definition TxOut_SerializeSize (t : TxOut) : Z :=
  8 + VarIntSerializeSize (Zlen (PkScript t)) + Zlen (PkScript t).

Definition TxWitness_SerializeSize (t : list (list Z)) : Z :=
  VarIntSerializeSize (Zlen t)
  + sum ((fun item => VarIntSerializeSize (Zlen item) + Zlen item) <$> t).

Definition baseSize (msg : MsgTx) : Z :=
  8 + VarIntSerializeSize (Zlen (TxIns msg)) + VarIntSerializeSize (Zlen (TxOuts msg))
  + sum (TxIn_SerializeSize <$> TxIns msg) + sum (TxOut_SerializeSize <$> TxOuts msg).

Definition SerializeSize (msg : MsgTx) : Z :=
  baseSize msg
  + (if HasWitness msg
     then 2 + sum ((fun ti => TxWitness_SerializeSize (Witness ti)) <$> TxIns msg) else 0).

Definition SerializeSizeStripped (msg : MsgTx) : Z := baseSize msg.

(** ** Transactions: reading *)

(** Run [f] [n] times, threading the length of the slab that is left.
    [len] is the number of slab bytes an element takes. *)
Fixpoint readMany {A} (n : nat) (f : Z -> decoder A) (len : A -> Z) (slab : Z) : decoder (list A * Z) :=
  match n with
  | O => mret ([], slab)
  | S n => a ← f slab;
           '(l, slab) ← readMany n f len (slab - len a);
           mret (a :: l, slab)
  end.

(** The script is read into s[:count]: a count above the slab panics. *)
Definition readScriptBuf (maxAllowed slab : Z) : decoder (list Z) :=
  count ← ReadVarInt;
  if maxAllowed <? count then fail "readScript"
  else if slab <? count then fun _ => Panic
  else ReadFull (Z.to_nat count).

Definition readOutPoint : decoder OutPoint :=
  h ← ReadFull HashSize; i ← readUint32; mret (mkOutPoint h i).

Definition readTxIn (slab : Z) : decoder TxIn :=
  op ← readOutPoint;
  script ← readScriptBuf MaxMessagePayload slab;
  seq ← readUint32;
  mret (mkTxIn op script [] seq).

Definition readTxOut (slab : Z) : decoder TxOut :=
  value ← readUint64;
  script ← readScriptBuf MaxMessagePayload slab;
  mret (mkTxOut (i64 value) script).

(** The witness items of one input. *)
Definition readWitness (slab : Z) : decoder (list (list Z) * Z) :=
  witCount ← ReadVarInt;
  if maxWitnessItemsPerInput <? witCount then fail "MsgTx.BtcDecode"
  else readMany (Z.to_nat witCount) (readScriptBuf maxWitnessItemSize) Zlen slab.

(** The witnesses of all inputs. *)
Fixpoint readWitnesses (ins : list TxIn) (slab : Z) : decoder (list TxIn * Z) :=
  match ins with
  | [] => mret ([], slab)
  | ti :: ins =>
      '(wit, slab) ← readWitness slab;
      '(ins, slab) ← readWitnesses ins slab;
      mret (mkTxIn (PreviousOutPoint ti) (SignatureScript ti) wit (Sequence ti) :: ins, slab)
  end.

(** The count of inputs, after the witness flag if there is one. *)
Definition readInputCount (enc : MessageEncoding) : decoder (Z * bool) :=
  count ← ReadVarInt;
  match enc with
  | WitnessEncoding =>
      if count =? TxFlagMarker then
        flag ← ReadFull 1;
        if nth 0 flag 0 =? WitnessFlag then
          count ← ReadVarInt; mret (count, true)
        else fail "MsgTx.BtcDecode"
      else mret (count, false)
  | BaseEncoding => mret (count, false)
  end.

(** Copying the scripts to one allocation at the end keeps their contents. *)
Definition btcDecode (enc : MessageEncoding) (slab : Z) : decoder MsgTx :=
  version ← readUint32;
  '(count, flag) ← readInputCount enc;
  if maxTxInPerMessage <? count then fail "MsgTx.BtcDecode" else
  '(ins, slab) ← readMany (Z.to_nat count) readTxIn (fun ti => Zlen (SignatureScript ti)) slab;
  outCount ← ReadVarInt;
  if maxTxOutPerMessage <? outCount then fail "MsgTx.BtcDecode" else
  '(outs, slab) ← readMany (Z.to_nat outCount) readTxOut (fun to => Zlen (PkScript to)) slab;
  '(ins, slab) ← (if (flag : bool) then readWitnesses ins slab else mret (ins, slab));
  lockTime ← readUint32;
  mret (mkMsgTx (i32 version) ins outs lockTime).

Definition BtcDecode (enc : MessageEncoding) : decoder MsgTx := btcDecode enc scriptSlabSize.
Definition Deserialize : decoder MsgTx := BtcDecode WitnessEncoding.
Definition DeserializeNoWitness : decoder MsgTx := BtcDecode BaseEncoding.

(** ** Blocks *)
Definition MaxBlockPayload := 4000000.
Definition maxTxPerBlock := MaxBlockPayload / minTxPayload + 1.
Definition blockHeaderLen := 80.

(** The timestamp is its Unix time in seconds. *)
Record BlockHeader := mkBlockHeader {
  bh_Version : Z;
  PrevBlock : list Z;
  MerkleRoot : list Z;
  Timestamp : Z;
  Bits : Z;
  Nonce : Z;
}.

Record MsgBlock := mkMsgBlock {
  Header : BlockHeader;
  Transactions : list MsgTx;
}.

Definition writeBlockHeader (bh : BlockHeader) : list Z :=
  le_bytes 4 (u32 (bh_Version bh)) ++ PrevBlock bh ++ MerkleRoot bh
  ++ le_bytes 4 (u32 (Timestamp bh)) ++ le_bytes 4 (Bits bh) ++ le_bytes 4 (Nonce bh).

Definition readBlockHeader : decoder BlockHeader :=
  version ← readUint32;
  prevBlock ← ReadFull HashSize;
  merkleRoot ← ReadFull HashSize;
  timestamp ← readUint32;
  bits ← readUint32;
  nonce ← readUint32;
  mret (mkBlockHeader (i32 version) prevBlock merkleRoot timestamp bits nonce).

(** Every transaction is read into the whole slab again. *)
Fixpoint readTxs (n : nat) (enc : MessageEncoding) : decoder (list MsgTx) :=
  match n with
  | O => mret []
  | S n => tx ← btcDecode enc scriptSlabSize; txs ← readTxs n enc; mret (tx :: txs)
  end.

Definition MsgBlock_BtcDecode (enc : MessageEncoding) : decoder MsgBlock :=
  header ← readBlockHeader;
  txCount ← ReadVarInt;
  if maxTxPerBlock <? txCount then fail "MsgBlock.BtcDecode"
  else txs ← readTxs (Z.to_nat txCount) enc; mret (mkMsgBlock header txs).

Definition MsgBlock_BtcEncode (enc : MessageEncoding) (msg : MsgBlock) : list Z :=
  writeBlockHeader (Header msg) ++ WriteVarInt (Zlen (Transactions msg))
  ++ concat (BtcEncode enc <$> Transactions msg).

Definition MsgBlock_SerializeSize (msg : MsgBlock) : Z :=
  blockHeaderLen + VarIntSerializeSize (Zlen (Transactions msg))
  + sum (SerializeSize <$> Transactions msg).

Definition MsgBlock_SerializeSizeStripped (msg : MsgBlock) : Z :=
  blockHeaderLen + VarIntSerializeSize (Zlen (Transactions msg))
  + sum (SerializeSizeStripped <$> Transactions msg).

(** Where a transaction lies in the serialized block. *)
Record TxLoc := mkTxLoc { TxStart : Z; TxLen : Z }.

Fixpoint readTxLocs (n : nat) (fullLen : Z) : decoder (list MsgTx * list TxLoc) := fun r =>
  match n with
  | O => Ok (([], []), r)
  | S n =>
      let start := fullLen - Zlen r in
      match btcDecode WitnessEncoding scriptSlabSize r with
      | Ok (tx, r) =>
          let loc := mkTxLoc start (fullLen - Zlen r - start) in
          match readTxLocs n fullLen r with
          | Ok ((txs, locs), r) => Ok ((tx :: txs, loc :: locs), r)
          | Err e => Err e
          | Panic => Panic
          | Hang => Hang
          end
      | Err e => Err e
      | Panic => Panic
      | Hang => Hang
      end
  end.

Definition DeserializeTxLoc : decoder (MsgBlock * list TxLoc) := fun r =>
  (header ← readBlockHeader;
   txCount ← ReadVarInt;
   if maxTxPerBlock <? txCount then fail "MsgBlock.DeserializeTxLoc"
   else '(txs, locs) ← readTxLocs (Z.to_nat txCount) (Zlen r);
        mret (mkMsgBlock header txs, locs)) r.

(** ** Decoding an encoding *)

(** [f] reads [enc] as [a], whatever follows. *)
Definition decodes {A} (f : decoder A) (enc : list Z) (a : A) : Prop :=
  forall rest, f (enc ++ rest) = Ok (a, rest).

Lemma decodes_ret {A} (a : A) : decodes (mret a) [] a.
Proof. by intros rest. Qed.

Lemma decodes_bind {A B} (f : decoder A) (g : A -> decoder B) e1 e2 a b :
  decodes f e1 a -> decodes (g a) e2 b -> decodes (f ≫= g) (e1 ++ e2) b.
Proof.
  intros Hf Hg rest. rewrite <- app_assoc. unfold mbind, decoder_bind. rewrite Hf. apply Hg.
Qed.

(** The last bind of a sequence that ends in a return. *)
Lemma decodes_bind_ret {A B} (f : decoder A) (h : A -> B) e a :
  decodes f e a -> decodes (x ← f; mret (h x)) e (h a).
Proof. intros Hf. rewrite <- (app_nil_r e). by eapply decodes_bind; [|apply decodes_ret]. Qed.

Lemma decodes_ReadFull n l : length l = n -> decodes (ReadFull n) l l.
Proof.
  intros <- rest. unfold ReadFull. rewrite decide_True by (rewrite length_app; lia).
  by rewrite take_app_length, drop_app_length.
Qed.

Lemma decodes_uint n z : 0 <= z < 256 ^ Z.of_nat n ->
  decodes (b ← ReadFull n; mret (le_val b)) (le_bytes n z) z.
Proof.
  intros Hz. rewrite <- (le_val_bytes n z Hz) at 2.
  apply (decodes_bind_ret (ReadFull n) le_val). apply decodes_ReadFull, le_bytes_length.
Qed.

Lemma decodes_uint16 z : 0 <= z < 2 ^ 16 -> decodes readUint16 (le_bytes 2 z) z.
Proof. intros. by apply decodes_uint. Qed.
Lemma decodes_uint32 z : 0 <= z < 2 ^ 32 -> decodes readUint32 (le_bytes 4 z) z.
Proof. intros. by apply decodes_uint. Qed.
Lemma decodes_uint64 z : 0 <= z < 2 ^ 64 -> decodes readUint64 (le_bytes 8 z) z.
Proof. intros. by apply decodes_uint. Qed.

(** A discriminant byte and what it announces. *)
Lemma decodes_discriminant {B} d (g : list Z -> decoder B) e b :
  decodes (g [d]) e b -> decodes (x ← ReadFull 1; g x) (d :: e) b.
Proof. intros Hg. apply (decodes_bind _ _ [d] e [d] b); [by apply decodes_ReadFull|done]. Qed.

Lemma decodes_guard {A} (c : bool) func (f : decoder A) e a :
  c = false -> decodes f e a -> decodes (if c then fail func else f) e a.
Proof. by intros ->. Qed.

Lemma decodes_VarInt val : 0 <= val < 2 ^ 64 -> decodes ReadVarInt (WriteVarInt val) val.
Proof.
  intros Hv. unfold WriteVarInt, ReadVarInt, MaxUint16, MaxUint32.
  destruct (Z.ltb_spec val 0xfd) as [H1|H1].
  { apply decodes_discriminant. cbn [nth]. rewrite u8_small by lia.
    rewrite !(proj2 (Z.eqb_neq _ _)) by lia. apply decodes_ret. }
  destruct (Z.leb_spec val (2 ^ 16 - 1)) as [H2|H2];
    [|destruct (Z.leb_spec val (2 ^ 32 - 1)) as [H3|H3]];
    apply decodes_discriminant; cbn [nth]; simpl (_ =? _).
  - rewrite u16_small by lia. rewrite <- (app_nil_r (le_bytes _ _)).
    eapply decodes_bind; [apply decodes_uint16; lia|]. apply decodes_guard; [lia|apply decodes_ret].
  - rewrite u32_small by lia. rewrite <- (app_nil_r (le_bytes _ _)).
    eapply decodes_bind; [apply decodes_uint32; lia|]. apply decodes_guard; [lia|apply decodes_ret].
  - rewrite <- (app_nil_r (le_bytes _ _)).
    eapply decodes_bind; [apply decodes_uint64; lia|]. apply decodes_guard; [lia|apply decodes_ret].
Qed.

Lemma VarInt_size val : 0 <= val -> Zlen (WriteVarInt val) = VarIntSerializeSize val.
Proof.
  intros Hv. unfold WriteVarInt, VarIntSerializeSize, Zlen.
  repeat case_match; simpl; rewrite ?le_bytes_length; lia.
Qed.

(** ** What a successful read has read *)
Lemma ReadFull_ok n r l rest : ReadFull n r = Ok (l, rest) <-> r = l ++ rest /\ length l = n.
Proof.
  unfold ReadFull. split.
  - destruct (decide _); [|by destruct (decide _)]. intros [= <- <-].
    rewrite take_drop, length_take. split; [done|lia].
  - intros [-> <-]. rewrite decide_True by (rewrite length_app; lia).
    by rewrite take_app_length, drop_app_length.
Qed.

Lemma decoder_bind_ok {A B} (f : decoder A) (g : A -> decoder B) r b rest :
  (f ≫= g) r = Ok (b, rest) <-> exists a r', f r = Ok (a, r') /\ g a r' = Ok (b, rest).
Proof.
  unfold mbind, decoder_bind. split; [|by intros (a & r' & -> & H)].
  destruct (f r) as [[a r']| | |] eqn:Hf; [|done..]. eauto.
Qed.

Lemma read_uint_ok n r z rest : bytes_ok r ->
  (b ← ReadFull n; mret (le_val b)) r = Ok (z, rest) ->
  r = le_bytes n z ++ rest /\ 0 <= z < 256 ^ Z.of_nat n.
Proof.
  intros Hr H. apply decoder_bind_ok in H as (l & r' & Hl & H).
  apply ReadFull_ok in Hl as [-> <-]. injection H as <- <-.
  apply list.Forall_app in Hr as [Hl _]. rewrite le_bytes_val by done.
  split; [done|by apply le_val_range].
Qed.

Lemma guard_ok {A} (c : bool) func (f : decoder A) r a rest :
  (if c then fail func else f) r = Ok (a, rest) -> c = false /\ f r = Ok (a, rest).
Proof. by destruct c. Qed.

(** The variable length integers have one encoding each: on bytes,
    reading succeeds with [v] exactly when the input starts with the
    encoding that writing [v] produces, which has [VarIntSerializeSize v]
    bytes; a longer form of the same number is rejected. *)
Theorem ReadVarInt_iff r v rest (Hr : bytes_ok r) :
  ReadVarInt r = Ok (v, rest) <->
  0 <= v < 2 ^ 64 /\ r = WriteVarInt v ++ rest /\ Zlen (WriteVarInt v) = VarIntSerializeSize v.
Proof.
  split; [|intros (Hv & -> & _); by apply decodes_VarInt].
  intros H. cut (0 <= v < 2 ^ 64 /\ r = WriteVarInt v ++ rest).
  { intros [Hv Heq]. split_and!; [lia..|done|apply VarInt_size; lia]. }
  unfold ReadVarInt in H. apply decoder_bind_ok in H as (b & r' & Hb & H).
  apply ReadFull_ok in Hb as [-> Hlen]. destruct b as [|d [|]]; [done| |done].
  apply list.Forall_app in Hr as [Hd Hr]. apply Forall_inv in Hd. unfold byte_ok in Hd.
  cbn [nth] in H. unfold WriteVarInt, MaxUint16, MaxUint32.
  destruct (Z.eqb_spec d 0xff) as [->|Hff]; [|destruct (Z.eqb_spec d 0xfe) as [->|Hfe];
    [|destruct (Z.eqb_spec d 0xfd) as [->|Hfd]]].
  1-3: apply decoder_bind_ok in H as (rv & r'' & Hrv & H); apply guard_ok in H as [Hmin H];
    injection H as <- <-; apply Z.ltb_ge in Hmin; apply read_uint_ok in Hrv as [-> Hrange]; [|done].
  - change (256 ^ Z.of_nat 8) with (2 ^ 64) in Hrange. split; [lia|].
    repeat (case_match; try lia). done.
  - change (256 ^ Z.of_nat 4) with (2 ^ 32) in Hrange. split; [lia|].
    repeat (case_match; try lia). by rewrite u32_small by lia.
  - change (256 ^ Z.of_nat 2) with (2 ^ 16) in Hrange. split; [lia|].
    repeat (case_match; try lia). by rewrite u16_small by lia.
  - injection H as <- <-. split; [lia|]. rewrite (proj2 (Z.ltb_lt _ _)) by lia.
    by rewrite u8_small by lia.
Qed.

(** ** Byte strings *)
Lemma Zlen_small_range (l : list Z) m : Zlen l <= m -> m < 2 ^ 64 -> 0 <= Zlen l < 2 ^ 64.
Proof. len_lia. Qed.

Lemma decodes_counted {A} (max : Z) func (g : nat -> decoder A) n e a :
  0 <= n -> n <= max -> max < 2 ^ 64 -> decodes (g (Z.to_nat n)) e a ->
  decodes (count ← ReadVarInt; if max <? count then fail func else g (Z.to_nat count))
    (WriteVarInt n ++ e) a.
Proof.
  intros Hn Hmax Hm Hg. eapply decodes_bind; [apply decodes_VarInt; lia|].
  apply decodes_guard; [lia|done].
Qed.

Lemma decodes_VarBytes bytes max :
  Zlen bytes <= max -> max < 2 ^ 64 -> decodes (ReadVarBytes max) (WriteVarBytes bytes) bytes.
Proof.
  intros Hmax Hm. unfold WriteVarBytes. pose proof (Zlen_nonneg bytes).
  apply (decodes_counted max "ReadVarBytes" ReadFull); try done.
  apply decodes_ReadFull. unfold Zlen. lia.
Qed.

Lemma decodes_Script script max slab :
  Zlen script <= max -> max < 2 ^ 64 -> Zlen script <= slab ->
  decodes (readScriptBuf max slab) (WriteVarBytes script) script.
Proof.
  intros Hmax Hm Hslab. unfold readScriptBuf, WriteVarBytes. pose proof (Zlen_nonneg script).
  eapply decodes_bind; [apply decodes_VarInt; lia|]. apply decodes_guard; [lia|].
  rewrite (proj2 (Z.ltb_ge _ _)) by lia. apply decodes_ReadFull. unfold Zlen. lia.
Qed.

Lemma VarBytes_size bytes :
  Zlen (WriteVarBytes bytes) = VarIntSerializeSize (Zlen bytes) + Zlen bytes.
Proof. unfold WriteVarBytes. rewrite Zlen_app, VarInt_size by len_lia. done. Qed.

(** ** Sequences *)
Lemma sum_cons x l : sum (x :: l) = x + sum l.
Proof. done. Qed.

Lemma sum_nonneg {A} (f : A -> Z) l : (forall a, 0 <= f a) -> 0 <= sum (f <$> l).
Proof. intros Hf. induction l as [|a l IH]; [done|].
  rewrite fmap_cons, sum_cons. pose proof (Hf a). lia.
Qed.

Lemma Zlen_concat {A} (f : A -> list Z) (size : A -> Z) l :
  (forall a, Zlen (f a) = size a) -> Zlen (concat (f <$> l)) = sum (size <$> l).
Proof.
  intros Hf. induction l as [|a l IH]; [done|]. rewrite !fmap_cons, sum_cons. cbn [concat].
  rewrite Zlen_app, Hf. lia.
Qed.

Lemma decodes_readMany {A} (P : A -> Prop) (f : Z -> decoder A) (len : A -> Z) (enc : A -> list Z) l slab :
  (forall a, 0 <= len a) ->
  (forall a slab, P a -> len a <= slab -> decodes (f slab) (enc a) a) ->
  Forall P l -> sum (len <$> l) <= slab ->
  decodes (readMany (length l) f len slab) (concat (enc <$> l)) (l, slab - sum (len <$> l)).
Proof.
  intros Hlen Hf Hl. revert slab. induction Hl as [|a l Ha Hl IH]; intros slab Hslab.
  - cbn. replace (slab - 0) with slab by lia. apply decodes_ret.
  - rewrite fmap_cons, sum_cons in Hslab. rewrite !fmap_cons, sum_cons. cbn [readMany length concat]. pose proof (sum_nonneg len l Hlen). pose proof (Hlen a).
    eapply decodes_bind; [apply Hf; [done|lia]|].
    rewrite <- (app_nil_r (concat _)). eapply decodes_bind; [apply IH; lia|].
    cbn beta iota. replace (slab - (len a + sum (len <$> l))) with (slab - len a - sum (len <$> l)) by lia.
    apply decodes_ret.
Qed.

(** ** Transactions: round trip *)

(** The ranges of Go's types and the limits the decoder checks. *)
Record txin_ok (ti : TxIn) : Prop := {
  ti_hash : length (Hash (PreviousOutPoint ti)) = HashSize;
  ti_index : 0 <= Index (PreviousOutPoint ti) < 2 ^ 32;
  ti_script : Zlen (SignatureScript ti) <= MaxMessagePayload;
  ti_seq : 0 <= Sequence ti < 2 ^ 32;
  ti_items : Zlen (Witness ti) <= maxWitnessItemsPerInput;
  ti_item : Forall (fun item => Zlen item <= maxWitnessItemSize) (Witness ti);
}.

Record txout_ok (to : TxOut) : Prop := {
  to_value : - 2 ^ 63 <= Value to < 2 ^ 63;
  to_script : Zlen (PkScript to) <= MaxMessagePayload;
}.

(** The bytes of the slab an input, its witness and an output take. *)
Definition scriptLen (ti : TxIn) : Z := Zlen (SignatureScript ti).
Definition pkScriptLen (to : TxOut) : Z := Zlen (PkScript to).
Definition witnessLen (ti : TxIn) : Z := sum (Zlen <$> Witness ti).

Record tx_ok (msg : MsgTx) : Prop := {
  tx_version : - 2 ^ 31 <= Version msg < 2 ^ 31;
  tx_locktime : 0 <= LockTime msg < 2 ^ 32;
  tx_ins : Forall txin_ok (TxIns msg);
  tx_outs : Forall txout_ok (TxOuts msg);
  tx_in_count : Zlen (TxIns msg) <= maxTxInPerMessage;
  tx_out_count : Zlen (TxOuts msg) <= maxTxOutPerMessage;
  tx_slab : sum (scriptLen <$> TxIns msg) + sum (pkScriptLen <$> TxOuts msg)
            + sum (witnessLen <$> TxIns msg) <= scriptSlabSize;
}.

(** An input as it is read before the witnesses. *)
Definition stripWitness (ti : TxIn) : TxIn :=
  mkTxIn (PreviousOutPoint ti) (SignatureScript ti) [] (Sequence ti).

Definition stripTx (msg : MsgTx) : MsgTx :=
  mkMsgTx (Version msg) (stripWitness <$> TxIns msg) (TxOuts msg) (LockTime msg).

Lemma max_payload_bound : MaxMessagePayload < 2 ^ 64 /\ maxWitnessItemSize < 2 ^ 64 /\
  maxTxInPerMessage < 2 ^ 64 /\ maxTxOutPerMessage < 2 ^ 64 /\ maxWitnessItemsPerInput < 2 ^ 64 /\
  maxTxPerBlock < 2 ^ 64.
Proof. by vm_compute. Qed.

Lemma u32_i32 z : - 2 ^ 31 <= z < 2 ^ 31 -> 0 <= u32 z < 2 ^ 32 /\ i32 (u32 z) = z.
Proof.
  intros Hz. split; [apply u32_range|]. unfold i32, u32.
  rewrite Z.add_mod_idemp_l by lia. rewrite Z.mod_small by lia. lia.
Qed.

Lemma u64_i64 z : - 2 ^ 63 <= z < 2 ^ 63 -> 0 <= u64 z < 2 ^ 64 /\ i64 (u64 z) = z.
Proof.
  intros Hz. split; [apply u64_range|]. unfold i64, u64.
  rewrite Z.add_mod_idemp_l by lia. rewrite Z.mod_small by lia. lia.
Qed.

Lemma decodes_TxIn ti slab : txin_ok ti -> scriptLen ti <= slab ->
  decodes (readTxIn slab) (writeTxIn ti) (stripWitness ti).
Proof.
  intros [Hh Hi Hs Hq _ _] Hslab. unfold readTxIn, writeTxIn, writeOutPoint, readOutPoint, scriptLen in *.
  eapply decodes_bind.
  - eapply decodes_bind; [by apply decodes_ReadFull|].
    apply (decodes_bind_ret readUint32). by apply decodes_uint32.
  - eapply decodes_bind; [apply decodes_Script; [done|apply max_payload_bound|done]|].
    rewrite <- (app_nil_r (le_bytes _ _)). eapply decodes_bind; [by apply decodes_uint32|].
    destruct ti as [[h i] script wit seq]. apply decodes_ret.
Qed.

Lemma decodes_TxOut to slab : txout_ok to -> pkScriptLen to <= slab ->
  decodes (readTxOut slab) (WriteTxOut to) to.
Proof.
  intros [Hv Hs] Hslab. unfold readTxOut, WriteTxOut, pkScriptLen in *.
  destruct (u64_i64 _ Hv) as [Hu Heq].
  eapply decodes_bind; [by apply decodes_uint64|]. rewrite Heq.
  rewrite <- (app_nil_r (WriteVarBytes _)).
  eapply decodes_bind; [apply decodes_Script; [done|apply max_payload_bound|done]|].
  destruct to. apply decodes_ret.
Qed.

Lemma decodes_Witness ti slab : txin_ok ti -> witnessLen ti <= slab ->
  decodes (readWitness slab) (writeTxWitness (Witness ti)) (Witness ti, slab - witnessLen ti).
Proof.
  intros [_ _ _ _ Hn Hi] Hslab. unfold readWitness, writeTxWitness, witnessLen in *.
  pose proof (Zlen_nonneg (Witness ti)). pose proof max_payload_bound.
  eapply decodes_bind; [apply decodes_VarInt; lia|]. apply decodes_guard; [lia|].
  replace (Z.to_nat (Zlen (Witness ti))) with (length (Witness ti)) by (unfold Zlen; lia).
  eapply (decodes_readMany (fun item => Zlen item <= maxWitnessItemSize)); [apply Zlen_nonneg| |done|done].
  intros item s Hitem Hs. apply decodes_Script; [done|lia|done].
Qed.

Lemma decodes_Witnesses ins slab :
  Forall txin_ok ins -> sum (witnessLen <$> ins) <= slab ->
  decodes (readWitnesses (stripWitness <$> ins) slab)
    (concat ((fun ti => writeTxWitness (Witness ti)) <$> ins)) (ins, slab - sum (witnessLen <$> ins)).
Proof.
  intros Hok. revert slab. induction Hok as [|ti ins Hti Hins IH]; intros slab Hslab.
  - cbn. replace (slab - 0) with slab by lia. apply decodes_ret.
  - rewrite fmap_cons, sum_cons in Hslab. rewrite !fmap_cons, sum_cons. cbn [readWitnesses concat].
    assert (forall t, 0 <= witnessLen t) as Hnn by (intros; apply sum_nonneg, Zlen_nonneg).
    pose proof (sum_nonneg witnessLen ins Hnn). pose proof (Hnn ti).
    eapply decodes_bind; [apply decodes_Witness; [done|lia]|]. cbn beta iota.
    rewrite <- (app_nil_r (concat _)). eapply decodes_bind; [apply IH; lia|]. cbn beta iota.
    replace (slab - (witnessLen ti + sum (witnessLen <$> ins)))
      with (slab - witnessLen ti - sum (witnessLen <$> ins)) by lia.
    destruct ti as [[h i] script wit seq]. apply decodes_ret.
Qed.

(** The inputs, read without their witnesses. *)
Lemma decodes_Ins ins slab :
  Forall txin_ok ins -> sum (scriptLen <$> ins) <= slab ->
  decodes (readMany (length ins) readTxIn (fun ti => Zlen (SignatureScript ti)) slab)
    (concat (writeTxIn <$> ins)) (stripWitness <$> ins, slab - sum (scriptLen <$> ins)).
Proof.
  intros Hok Hslab.
  pose proof (decodes_readMany (fun ti => exists ti', ti = stripWitness ti' /\ txin_ok ti') readTxIn
    (fun ti => Zlen (SignatureScript ti)) writeTxIn (stripWitness <$> ins) slab) as H.
  rewrite length_fmap, <- !list_fmap_compose in H. apply H.
  - intros; apply Zlen_nonneg.
  - intros ti s (ti' & -> & Hti') Hs. exact (decodes_TxIn ti' s Hti' Hs).
  - apply Forall_fmap. eapply list.Forall_impl; [done|]. intros ti Hti. by exists ti.
  - done.
Qed.

(** No input has a witness when [HasWitness] is false. *)
Lemma no_witness_strip msg : HasWitness msg = false -> stripWitness <$> TxIns msg = TxIns msg.
Proof.
  unfold HasWitness. induction (TxIns msg) as [|ti ins IH]; [done|].
  rewrite fmap_cons. cbn [existsb]. intros H. apply orb_false_iff in H as [Hti Hins].
  rewrite IH by done. f_equal.
  apply negb_false_iff, Z.eqb_eq in Hti. destruct ti as [op script [|] seq]; [done|].
  unfold Zlen in Hti. simpl in Hti. lia.
Qed.

Lemma HasWitness_inputs msg : HasWitness msg = true -> TxIns msg <> [].
Proof. unfold HasWitness. by destruct (TxIns msg). Qed.

(** Decoding what an encoding announces: with its witnesses or without. *)
Lemma decodes_tx enc slab msg :
  tx_ok msg -> scriptSlabSize <= slab ->
  (enc = WitnessEncoding -> TxIns msg <> []) ->
  decodes (btcDecode enc slab) (BtcEncode enc msg)
    (if enc is WitnessEncoding then msg else stripTx msg).
Proof.
  intros [Hv Hl Hins Houts Hnin Hnout Hslab] Hs Hne. unfold btcDecode, BtcEncode.
  assert (forall t, 0 <= witnessLen t) as Hnn by (intros; apply sum_nonneg, Zlen_nonneg).
  pose proof (sum_nonneg scriptLen (TxIns msg) ltac:(intros; apply Zlen_nonneg)) as Hs1.
  pose proof (sum_nonneg pkScriptLen (TxOuts msg) ltac:(intros; apply Zlen_nonneg)) as Hs2.
  pose proof (sum_nonneg witnessLen (TxIns msg) Hnn) as Hs3.
  destruct (u32_i32 _ Hv) as [Hu Heq]. pose proof max_payload_bound as Hmax.
  pose proof (Zlen_nonneg (TxIns msg)) as Hn1. pose proof (Zlen_nonneg (TxOuts msg)) as Hn2.
  set (w := match enc with WitnessEncoding => HasWitness msg | BaseEncoding => false end).
  eapply decodes_bind; [by apply decodes_uint32|]. rewrite Heq.
  assert (Hcount : decodes (readInputCount enc)
    ((if w then [TxFlagMarker; WitnessFlag] else []) ++ WriteVarInt (Zlen (TxIns msg)))
    (Zlen (TxIns msg), w)).
  { unfold readInputCount. destruct w eqn:Hw.
    - destruct enc; [done|]. cbn [app].
      change [TxFlagMarker; WitnessFlag] with ([TxFlagMarker] ++ [WitnessFlag]).
      change (TxFlagMarker :: WitnessFlag :: WriteVarInt (Zlen (TxIns msg)))
        with (WriteVarInt 0 ++ [WitnessFlag] ++ WriteVarInt (Zlen (TxIns msg))).
      eapply decodes_bind; [apply decodes_VarInt; lia|]. simpl.
      apply decodes_discriminant. simpl. apply (decodes_bind_ret ReadVarInt (fun c => (c, true))).
      apply decodes_VarInt. lia.
    - cbn [app]. rewrite <- (app_nil_r (WriteVarInt _)).
      eapply decodes_bind; [apply decodes_VarInt; lia|]. destruct enc; [apply decodes_ret|].
      rewrite (proj2 (Z.eqb_neq _ _)); [apply decodes_ret|].
      specialize (Hne eq_refl). destruct (TxIns msg); [done|]. rewrite Zlen_cons.
      unfold TxFlagMarker. len_lia. }
  rewrite app_assoc. eapply decodes_bind; [exact Hcount|]. cbn beta iota.
  apply decodes_guard; [lia|]. replace (Z.to_nat (Zlen (TxIns msg))) with (length (TxIns msg)) by (unfold Zlen; lia).
  eapply decodes_bind; [apply decodes_Ins; [done|lia]|]. cbn beta iota.
  eapply decodes_bind; [apply decodes_VarInt; lia|]. apply decodes_guard; [lia|].
  replace (Z.to_nat (Zlen (TxOuts msg))) with (length (TxOuts msg)) by (unfold Zlen; lia).
  eapply decodes_bind.
  { apply (decodes_readMany txout_ok); [intros; apply Zlen_nonneg|by apply decodes_TxOut|done|].
    change (sum (pkScriptLen <$> TxOuts msg) <= slab - sum (scriptLen <$> TxIns msg)). lia. }
  cbn beta iota.
  assert (Hfin : forall ins, decodes (lockTime ← readUint32; mret (mkMsgTx (Version msg) ins (TxOuts msg) lockTime))
      (le_bytes 4 (LockTime msg)) (mkMsgTx (Version msg) ins (TxOuts msg) (LockTime msg))).
  { intros ins. apply (decodes_bind_ret readUint32 (fun l => mkMsgTx _ ins _ l)). by apply decodes_uint32. }
  destruct w eqn:Hw.
  - destruct enc; [done|]. eapply decodes_bind.
    + apply decodes_Witnesses; [done|]. change (sum ((fun to => Zlen (PkScript to)) <$> TxOuts msg))
        with (sum (pkScriptLen <$> TxOuts msg)). lia.
    + cbn beta iota. destruct msg; apply Hfin.
  - change (le_bytes 4 (LockTime msg)) with ([] ++ le_bytes 4 (LockTime msg)).
    eapply decodes_bind; [apply decodes_ret|]. cbn beta iota.
    destruct enc; [apply Hfin|]. unfold w in Hw. rewrite no_witness_strip by done.
    destruct msg; apply Hfin.
Qed.

(** ** Sizes *)
Lemma writeTxIn_size ti : length (Hash (PreviousOutPoint ti)) = HashSize ->
  Zlen (writeTxIn ti) = TxIn_SerializeSize ti.
Proof.
  intros Hh. unfold writeTxIn, writeOutPoint, TxIn_SerializeSize.
  rewrite !Zlen_app, VarBytes_size. unfold Zlen at 1 2 5. rewrite Hh, !le_bytes_length.
  change (Z.of_nat HashSize) with 32. change (Z.of_nat 4) with 4. lia.
Qed.

Lemma WriteTxOut_size to : Zlen (WriteTxOut to) = TxOut_SerializeSize to.
Proof.
  unfold WriteTxOut, TxOut_SerializeSize. rewrite Zlen_app, VarBytes_size.
  unfold Zlen at 1. rewrite le_bytes_length. change (Z.of_nat 8) with 8. lia.
Qed.

Lemma writeTxWitness_size wit : Zlen (writeTxWitness wit) = TxWitness_SerializeSize wit.
Proof.
  unfold writeTxWitness, TxWitness_SerializeSize. rewrite Zlen_app, VarInt_size by len_lia.
  by rewrite (Zlen_concat _ _ wit VarBytes_size).
Qed.

Lemma ins_size ins : Forall (fun ti => length (Hash (PreviousOutPoint ti)) = HashSize) ins ->
  Zlen (concat (writeTxIn <$> ins)) = sum (TxIn_SerializeSize <$> ins).
Proof.
  induction 1 as [|ti ins Hti _ IH]; [done|]. rewrite !fmap_cons, sum_cons. cbn [concat].
  by rewrite Zlen_app, IH, writeTxIn_size.
Qed.

(** The length of an encoding, with or without its witnesses. *)
Lemma BtcEncode_size enc msg :
  Forall (fun ti => length (Hash (PreviousOutPoint ti)) = HashSize) (TxIns msg) ->
  Zlen (BtcEncode enc msg)
  = (match enc with WitnessEncoding => SerializeSize msg | BaseEncoding => SerializeSizeStripped msg end).
Proof.
  intros Hins. unfold BtcEncode, SerializeSize, SerializeSizeStripped, baseSize.
  rewrite !Zlen_app, (ins_size _ Hins), !VarInt_size by len_lia.
  rewrite (Zlen_concat _ _ _ WriteTxOut_size).
  assert (Hle : forall z, Zlen (le_bytes 4 z) = 4) by (intros; unfold Zlen; by rewrite le_bytes_length).
  rewrite !Hle. set (w := match enc with WitnessEncoding => _ | _ => _ end).
  assert (Hw : Zlen (if w then concat ((fun ti => writeTxWitness (Witness ti)) <$> TxIns msg) else [])
    = if w then sum ((fun ti => TxWitness_SerializeSize (Witness ti)) <$> TxIns msg) else 0).
  { destruct w; [|done]. apply Zlen_concat. intros; apply writeTxWitness_size. }
  rewrite Hw. unfold w.
  destruct enc; [|destruct (HasWitness msg)]; cbv iota;
    change (Zlen [TxFlagMarker; WitnessFlag]) with 2; change (Zlen (@nil Z)) with 0; lia.
Qed.

(** ** Blocks: round trip *)
Record header_ok (bh : BlockHeader) : Prop := {
  bh_version : - 2 ^ 31 <= bh_Version bh < 2 ^ 31;
  bh_prev : length (PrevBlock bh) = HashSize;
  bh_root : length (MerkleRoot bh) = HashSize;
  bh_time : 0 <= Timestamp bh < 2 ^ 32;
  bh_bits : 0 <= Bits bh < 2 ^ 32;
  bh_nonce : 0 <= Nonce bh < 2 ^ 32;
}.

Record block_ok (b : MsgBlock) : Prop := {
  b_header : header_ok (Header b);
  b_txs : Forall (fun tx => tx_ok tx /\ TxIns tx <> []) (Transactions b);
  b_count : Zlen (Transactions b) <= maxTxPerBlock;
}.

Lemma decodes_header bh : header_ok bh -> decodes readBlockHeader (writeBlockHeader bh) bh.
Proof.
  intros [Hv Hp Hr Ht Hb Hn]. destruct (u32_i32 _ Hv) as [Hu Heq]. unfold writeBlockHeader.
  rewrite (u32_small (Timestamp bh)) by done.
  eapply decodes_bind; [by apply decodes_uint32|]. rewrite Heq.
  eapply decodes_bind; [by apply decodes_ReadFull|].
  eapply decodes_bind; [by apply decodes_ReadFull|].
  eapply decodes_bind; [by apply decodes_uint32|].
  eapply decodes_bind; [by apply decodes_uint32|].
  rewrite <- (app_nil_r (le_bytes _ _)). eapply decodes_bind; [by apply decodes_uint32|].
  destruct bh. apply decodes_ret.
Qed.

Lemma decodes_txs txs :
  Forall (fun tx => tx_ok tx /\ TxIns tx <> []) txs ->
  decodes (readTxs (length txs) WitnessEncoding) (concat (Serialize <$> txs)) txs.
Proof.
  induction 1 as [|tx txs [Htx Hne] _ IH]; [apply decodes_ret|].
  rewrite fmap_cons. cbn [readTxs length concat].
  eapply decodes_bind; [by apply (decodes_tx WitnessEncoding)|].
  rewrite <- (app_nil_r (concat _)). eapply decodes_bind; [apply IH|]. apply decodes_ret.
Qed.

(** The locations of consecutive transactions. *)
Fixpoint locsFrom (start : Z) (txs : list MsgTx) : list TxLoc :=
  match txs with
  | [] => []
  | tx :: txs =>
      mkTxLoc start (Zlen (Serialize tx)) :: locsFrom (start + Zlen (Serialize tx)) txs
  end.

Lemma readTxLocs_spec txs fullLen rest :
  Forall (fun tx => tx_ok tx /\ TxIns tx <> []) txs ->
  readTxLocs (length txs) fullLen (concat (Serialize <$> txs) ++ rest)
  = Ok ((txs, locsFrom (fullLen - Zlen (concat (Serialize <$> txs) ++ rest)) txs), rest).
Proof.
  induction 1 as [|tx txs [Htx Hne] _ IH]; [done|].
  rewrite fmap_cons. cbn [readTxLocs length concat locsFrom]. rewrite <- app_assoc.
  pose proof (decodes_tx WitnessEncoding scriptSlabSize tx Htx ltac:(done) ltac:(done)) as Hd.
  unfold decodes in Hd. fold (Serialize tx) in Hd. rewrite Hd, IH.
  rewrite (Zlen_app (Serialize tx)). do 4 f_equal; [f_equal; lia|]. f_equal. lia.
Qed.

Lemma locsFrom_lookup txs pre rest i tx loc :
  txs !! i = Some tx -> locsFrom (Zlen pre) txs !! i = Some loc ->
  slice (E:=unit) (pre ++ concat (Serialize <$> txs) ++ rest) (TxStart loc) (TxStart loc + TxLen loc)
  = Ok (Serialize tx).
Proof.
  revert pre i; induction txs as [|t txs IH]; intros pre i Htx Hloc; [done|].
  rewrite fmap_cons. cbn [concat]. destruct i as [|i]; cbn in Htx, Hloc.
  - injection Htx as ->. injection Hloc as <-. cbn [TxStart TxLen].
    rewrite <- app_assoc. by apply slice_mid.
  - rewrite <- Zlen_app in Hloc. rewrite <- (IH (pre ++ Serialize t) i Htx Hloc).
    by rewrite <- !app_assoc.
Qed.

Lemma locsFrom_length start txs : length (locsFrom start txs) = length txs.
Proof. revert start; induction txs; intros; simpl; auto. Qed.

Lemma header_size bh : header_ok bh -> Zlen (writeBlockHeader bh) = blockHeaderLen.
Proof.
  intros [_ Hp Hr _ _ _]. unfold writeBlockHeader, Zlen.
  rewrite !length_app, !le_bytes_length, Hp, Hr. done.
Qed.

(** ** Theorems *)

(** Every transaction in the ranges of its types and the limits of the
    decoder, with at least one input, is read back by [Deserialize] from its
    serialization whatever follows it; without witnesses it is read back
    stripped of them, with or without inputs. *)
Theorem MsgTx_roundtrip msg rest (Hok : tx_ok msg) :
  (TxIns msg <> [] -> Deserialize (Serialize msg ++ rest) = Ok (msg, rest)) /\
  DeserializeNoWitness (SerializeNoWitness msg ++ rest) = Ok (stripTx msg, rest).
Proof.
  split.
  - intros Hne. by apply (decodes_tx WitnessEncoding scriptSlabSize msg Hok).
  - by apply (decodes_tx BaseEncoding scriptSlabSize msg Hok).
Qed.

(** C32. A block of such transactions is serialized in
    [MsgBlock_SerializeSize] bytes and read back whatever follows;
    [DeserializeTxLoc] also returns one location per transaction, and the
    bytes of the input at each location are the serialization of that
    transaction. *)
Theorem MsgBlock_roundtrip b rest (Hok : block_ok b) :
  let enc := MsgBlock_BtcEncode WitnessEncoding b in
  Zlen enc = MsgBlock_SerializeSize b /\
  MsgBlock_BtcDecode WitnessEncoding (enc ++ rest) = Ok (b, rest) /\
  exists locs, DeserializeTxLoc (enc ++ rest) = Ok ((b, locs), rest) /\
    length locs = length (Transactions b) /\
    forall i tx loc, Transactions b !! i = Some tx -> locs !! i = Some loc ->
      slice (E:=unit) (enc ++ rest) (TxStart loc) (TxStart loc + TxLen loc) = Ok (Serialize tx).
Proof.
  intros enc. destruct Hok as [Hh Htxs Hn]. pose proof max_payload_bound.
  pose proof (Zlen_nonneg (Transactions b)).
  assert (Hcount : Z.to_nat (Zlen (Transactions b)) = length (Transactions b)) by (unfold Zlen; lia).
  split_and!.
  - unfold enc, MsgBlock_BtcEncode, MsgBlock_SerializeSize. fold Serialize.
    rewrite !Zlen_app, header_size, VarInt_size by (done || lia).
    assert (Hs : forall txs, Forall (fun tx => tx_ok tx /\ TxIns tx <> []) txs ->
      Zlen (concat (BtcEncode WitnessEncoding <$> txs)) = sum (SerializeSize <$> txs)).
    { induction 1 as [|tx txs [Htx _] _ IH]; [done|]. rewrite !fmap_cons, sum_cons. cbn [concat].
      rewrite Zlen_app, IH, BtcEncode_size; [done|].
      eapply list.Forall_impl; [apply Htx|]. by intros ti []. }
    rewrite Hs by done. lia.
  - unfold enc, MsgBlock_BtcEncode, MsgBlock_BtcDecode.
    apply (decodes_bind readBlockHeader _ _ _ (Header b)); [by apply decodes_header|].
    eapply decodes_bind; [apply decodes_VarInt; lia|]. apply decodes_guard; [lia|].
    rewrite Hcount, <- (app_nil_r (concat _)). eapply decodes_bind; [by apply decodes_txs|].
    destruct b. apply decodes_ret.
  - set (pre := writeBlockHeader (Header b) ++ WriteVarInt (Zlen (Transactions b))).
    assert (Henc : enc ++ rest = pre ++ concat (Serialize <$> Transactions b) ++ rest)
      by (unfold enc, MsgBlock_BtcEncode, pre; by rewrite <- !app_assoc).
    exists (locsFrom (Zlen pre) (Transactions b)). split_and!.
    + unfold DeserializeTxLoc. rewrite Henc. unfold mbind, decoder_bind, pre. rewrite <- !app_assoc.
      rewrite (decodes_header _ Hh), (decodes_VarInt (Zlen (Transactions b))) by lia.
      rewrite (proj2 (Z.ltb_ge _ _)), Hcount, readTxLocs_spec by (done || lia).
      destruct b as [h txs]. cbn [Header Transactions] in *. unfold mret, decoder_ret.
      do 5 f_equal. rewrite !Zlen_app. lia.
    + apply locsFrom_length.
    + intros i tx loc Htx Hloc. rewrite Henc. by apply (locsFrom_lookup _ pre _ i).
Qed.

(** The first script of a transaction that announces more than the slab. *)
Definition oversizedScript (version : Z) (op : OutPoint) (n : Z) : list Z :=
  le_bytes 4 (u32 version) ++ WriteVarInt 1 ++ writeOutPoint op ++ WriteVarInt n.

(** A transaction of a few bytes whose first signature script announces
    a length above the script slab (4 MiB) but not above
    [MaxMessagePayload] (32 MiB) makes the decoder panic, whatever follows:
    the length check compares with the wrong limit before slicing. *)
Theorem oversized_script_panics enc version op n rest
    (Hop : length (Hash op) = HashSize) (Hidx : 0 <= Index op < 2 ^ 32)
    (Hn : scriptSlabSize < n <= MaxMessagePayload) :
  BtcDecode enc (oversizedScript version op n ++ rest) = Panic.
Proof.
  assert (Hbind : forall A B (f : decoder A) (g : A -> decoder B) e a r,
    decodes f e a -> g a r = Panic -> (f ≫= g) (e ++ r) = Panic).
  { intros A B f g e a r Hf Hg. unfold mbind, decoder_bind. by rewrite Hf. }
  pose proof max_payload_bound. unfold BtcDecode, btcDecode, oversizedScript. rewrite <- !app_assoc.
  eapply Hbind; [apply decodes_uint32, u32_range|].
  eapply (Hbind _ _ _ _ _ (1, false)).
  { unfold readInputCount. rewrite <- (app_nil_r (WriteVarInt 1)).
    eapply decodes_bind; [apply decodes_VarInt; lia|]. destruct enc; apply decodes_ret. }
  cbn beta iota. change (maxTxInPerMessage <? 1) with false. cbv iota.
  change (Z.to_nat 1) with 1%nat. cbn [readMany]. unfold mbind at 1, decoder_bind at 1.
  assert (Hti : readTxIn scriptSlabSize (writeOutPoint op ++ WriteVarInt n ++ rest) = Panic).
  { unfold readTxIn. eapply Hbind.
    - unfold readOutPoint, writeOutPoint. eapply decodes_bind; [by apply decodes_ReadFull|].
      apply (decodes_bind_ret readUint32). by apply decodes_uint32.
    - unfold mbind at 1, decoder_bind at 1. unfold readScriptBuf.
      assert (Hs : (count ← ReadVarInt; if MaxMessagePayload <? count then fail "readScript"
                    else if scriptSlabSize <? count then fun _ => Panic else ReadFull (Z.to_nat count))
              (WriteVarInt n ++ rest) = Panic).
      { eapply Hbind; [apply decodes_VarInt; unfold scriptSlabSize in Hn; lia|].
        rewrite (proj2 (Z.ltb_ge _ _)), (proj2 (Z.ltb_lt _ _)) by lia. done. }
      by rewrite Hs. }
  unfold mbind at 1, decoder_bind at 1. by rewrite Hti.
Qed.

(** ** Witnesses *)
Module Toy.

Definition op : OutPoint := mkOutPoint (replicate 32 7) 1.
Definition tx : MsgTx :=
  mkMsgTx 2 [mkTxIn op [] [[1; 2]; [3]] 0xfffffffd] [mkTxOut 5000 [0x51]] 650000.
Definition bare : MsgTx := mkMsgTx (-1) [mkTxIn op [0x51] [] 0] [] 0.

Lemma tx_is_ok : tx_ok tx /\ tx_ok bare.
Proof.
  split; constructor; try (repeat constructor; vm_compute; done).
Qed.

Lemma MsgTx_roundtrip_witness :
  (TxIns tx <> [] -> Deserialize (Serialize tx ++ [9]) = Ok (tx, [9])) /\
  DeserializeNoWitness (SerializeNoWitness tx ++ [9]) = Ok (stripTx tx, [9]).
Proof. apply (MsgTx_roundtrip tx [9]). apply tx_is_ok. Defined.

(** A transaction without inputs is not read back: its count of inputs is
    taken for the marker of the witness flag, and another transaction is
    returned. *)
Example no_inputs : Deserialize (Serialize (mkMsgTx 1 [] [mkTxOut 0 []] 0))
  = Ok (mkMsgTx 1 [] [] 0, replicate 7 0).
Proof. reflexivity. Qed.

Lemma ReadVarInt_iff_witness :
  ReadVarInt [0xfd; 0x00; 0x01; 9] = Ok (256, [9]) <->
  0 <= 256 < 2 ^ 64 /\ [0xfd; 0x00; 0x01; 9] = WriteVarInt 256 ++ [9] /\
  Zlen (WriteVarInt 256) = VarIntSerializeSize 256.
Proof. apply ReadVarInt_iff. apply (bool_decide_unpack _). reflexivity. Defined.

Example overlong : ReadVarInt [0xfd; 0xfc; 0x00] = Err (MessageError "ReadVarInt").
Proof. reflexivity. Qed.

Lemma oversized_script_panics_witness :
  BtcDecode WitnessEncoding (oversizedScript 1 op 5000000 ++ []) = Panic.
Proof.
  apply (oversized_script_panics WitnessEncoding 1 op 5000000 []); [reflexivity|simpl; lia|].
  split; [apply Z.ltb_lt; reflexivity|apply Z.leb_le; reflexivity].
Defined.

Definition header : BlockHeader := mkBlockHeader 0x20000000 (replicate 32 1) (replicate 32 2) 1700000000 0x1d00ffff 42.
Definition block : MsgBlock := mkMsgBlock header [bare; tx].

Lemma MsgBlock_roundtrip_witness :
  let enc := MsgBlock_BtcEncode WitnessEncoding block in
  Zlen enc = MsgBlock_SerializeSize block /\
  MsgBlock_BtcDecode WitnessEncoding (enc ++ [9]) = Ok (block, [9]) /\
  exists locs, DeserializeTxLoc (enc ++ [9]) = Ok ((block, locs), [9]) /\
    length locs = length (Transactions block) /\
    forall i tx loc, Transactions block !! i = Some tx -> locs !! i = Some loc ->
      slice (E:=unit) (enc ++ [9]) (TxStart loc) (TxStart loc + TxLen loc) = Ok (Serialize tx).
Proof.
  apply (MsgBlock_roundtrip block [9]). split.
  - split; try reflexivity; simpl; lia.
  - destruct tx_is_ok as [Htx Hbare]. apply Forall_cons_2; [split; [exact Hbare|discriminate]|].
    apply Forall_cons_2; [split; [exact Htx|discriminate]|]. apply Forall_nil_2.
  - apply Z.leb_le. reflexivity.
Defined.

End Toy.

End Wire.
