(* ===== verification/Tokenizer.v ===== *)
(** * Script tokens

    Models coin/OrcaNet/txscript/tokenizer.go and the functions of script.go
    that walk a script with it.  A walk runs with one unit of fuel per byte
    and one more; [tokenLoop_spec] shows that this is enough. *)

From S2P Require Import Prelude ScriptNum.

Module Tokenizer.
Import ScriptNum.

(** ** The code *)
Definition OP_0 := 0x00.
Definition OP_DATA_1 := 0x01.
Definition OP_PUSHDATA1 := 0x4c.
Definition OP_PUSHDATA2 := 0x4d.
Definition OP_PUSHDATA4 := 0x4e.
Definition OP_1NEGATE := 0x4f.
Definition OP_1 := 0x51.
Definition OP_16 := 0x60.
Definition OP_RETURN := 0x6a.
Definition OP_CHECKSIG := 0xac.
Definition OP_CHECKSIGVERIFY := 0xad.
Definition OP_CHECKMULTISIG := 0xae.
Definition OP_CHECKMULTISIGVERIFY := 0xaf.
Definition OP_INVALIDOPCODE := 0xff.
Definition MaxPubKeysPerMultiSig := 20.
Definition MaxScriptElementSize := 520.
Definition MaxScriptSize := 10000.

(** The length column of opcodeArray. *)
Definition opcodeLength (op : Z) : Z :=
  if (OP_DATA_1 <=? op) && (op <? OP_PUSHDATA1) then op + 1
  else if op =? OP_PUSHDATA1 then -1
  else if op =? OP_PUSHDATA2 then -2
  else if op =? OP_PUSHDATA4 then -4
  else 1.

Record ScriptTokenizer := mkTokenizer {
  t_script : list Z;
  t_version : Z;
  t_offset : Z;
  t_opcodePos : Z;
  t_op : option Z;
  t_data : list Z;
  t_err : option ErrorCode;
}.

Definition MakeScriptTokenizer (scriptVersion : Z) (script : list Z) : ScriptTokenizer :=
  mkTokenizer script scriptVersion 0 (-1) None []
    (if scriptVersion =? 0 then None else Some ErrUnsupportedScriptVersion).

Definition Done (t : ScriptTokenizer) : bool :=
  bool_decide (is_Some (t_err t)) || (i32 (Zlen (t_script t)) <=? t_offset t).

(** A token read: the new offset, the opcode and its data. *)
Definition found (t : ScriptTokenizer) (offset op : Z) (data : list Z) : ScriptTokenizer :=
  mkTokenizer (t_script t) (t_version t) (i32 offset) (t_opcodePos t) (Some op) data (t_err t).

Definition malformed (t : ScriptTokenizer) : ScriptTokenizer :=
  mkTokenizer (t_script t) (t_version t) (t_offset t) (t_opcodePos t) (t_op t) (t_data t)
    (Some ErrMalformedPush).

Definition countOpcode (t : ScriptTokenizer) : ScriptTokenizer :=
  mkTokenizer (t_script t) (t_version t) (t_offset t) (t_opcodePos t + 1) (t_op t) (t_data t) (t_err t).

Definition Next (t : ScriptTokenizer) : outcome ErrorCode (bool * ScriptTokenizer) :=
  if Done t then Ok (false, t)
  else
    let t := countOpcode t in
    op ← index (t_script t) (t_offset t);
    let len := opcodeLength op in
    if len =? 1 then Ok (true, found t (t_offset t + 1) op [])
    else if 1 <? len then
      script ← slice (t_script t) (t_offset t) (Zlen (t_script t));
      if Zlen script <? len then Ok (false, malformed t)
      else
        data ← slice script 1 len;
        mret (true, found t (t_offset t + len) op data)
    else if len <? 0 then
      script ← slice (t_script t) (t_offset t + 1) (Zlen (t_script t));
      if Zlen script <? - len then Ok (false, malformed t)
      else
        header ← slice script 0 (- len);
        let dataLen := i32 (le_val header) in
        script ← slice script (- len) (Zlen script);
        if (i32 (Zlen script) <? dataLen) || (dataLen <? 0) then Ok (false, malformed t)
        else
          data ← slice script 0 dataLen;
          mret (true, found t (t_offset t + (1 + - len + dataLen)) op data)
    else Panic.

(** Before the first token there is no opcode to dereference. *)
Definition Opcode (t : ScriptTokenizer) : outcome ErrorCode Z :=
  match t_op t with Some op => Ok op | None => Panic end.
Definition Data (t : ScriptTokenizer) : list Z := t_data t.
Definition ByteIndex (t : ScriptTokenizer) : Z := t_offset t.
Definition OpcodePosition (t : ScriptTokenizer) : Z := t_opcodePos t.

(** for tokenizer.Next() { body }; the body may return from the function. *)
Fixpoint tokenLoop {A B} (fuel : nat) (body : ScriptTokenizer -> A -> outcome ErrorCode (A + B))
    (t : ScriptTokenizer) (a : A) : outcome ErrorCode ((A * ScriptTokenizer) + B) :=
  match fuel with
  | O => Hang
  | S fuel =>
      '(more, t) ← Next t;
      if (more : bool) then
        r ← body t a;
        match r with
        | inl a => tokenLoop fuel body t a
        | inr b => mret (inr b)
        end
      else mret (inl (a, t))
  end.

Definition walk {A B} (version : Z) (script : list Z)
    (body : ScriptTokenizer -> A -> outcome ErrorCode (A + B)) (a : A)
    : outcome ErrorCode ((A * ScriptTokenizer) + B) :=
  tokenLoop (S (length script)) body (MakeScriptTokenizer version script) a.

Definition checkScriptParses (scriptVersion : Z) (script : list Z) : outcome ErrorCode unit :=
  r ← walk (B:=unit) scriptVersion script (fun _ _ => Ok (inl ())) ();
  match r with
  | inl (_, t) => match t_err t with Some e => Err e | None => Ok () end
  | inr _ => Ok ()
  end.

Definition IsPushOnlyScript (script : list Z) : outcome ErrorCode bool :=
  r ← walk 0 script (fun t _ => op ← Opcode t; mret (if OP_16 <? op then inr false else inl ())) ();
  match r with
  | inl (_, t) => mret (bool_decide (t_err t = None))
  | inr b => mret b
  end.

(** bytes.Contains *)
Fixpoint hasPrefix (p l : list Z) : bool :=
  match p, l with
  | [], _ => true
  | x :: p, y :: l => (x =? y) && hasPrefix p l
  | _ :: _, [] => false
  end.

Fixpoint Contains (l sub : list Z) : bool :=
  hasPrefix sub l || match l with [] => false | _ :: l => Contains l sub end.

Definition isCanonicalPush (opcode : Z) (data : list Z) : bool :=
  let dataLen := Zlen data in
  if OP_16 <? opcode then true
  else if (opcode <? OP_PUSHDATA1) && (OP_0 <? opcode) && ((dataLen =? 1) && (nth 0 data 0 <=? 16))
  then false
  else if (opcode =? OP_PUSHDATA1) && (dataLen <? OP_PUSHDATA1) then false
  else if (opcode =? OP_PUSHDATA2) && (dataLen <=? 0xff) then false
  else if (opcode =? OP_PUSHDATA4) && (dataLen <=? 0xffff) then false
  else true.

(** The loops that copy a script without the tokens that [drop] selects.
    The state is the result, nil until something is dropped, and the
    previous offset. *)
Definition removeBody (drop : Z -> list Z -> bool) (script : list Z)
    (t : ScriptTokenizer) (st : option (list Z) * Z)
    : outcome ErrorCode ((option (list Z) * Z) + unit) :=
  let '(result, prevOffset) := st in
  op ← Opcode t;
  result ← (if drop op (Data t) then
              match result with
              | None => kept ← slice script 0 prevOffset; mret (Some kept)
              | Some _ => mret result
              end
            else
              match result with
              | None => mret None
              | Some kept => token ← slice script prevOffset (ByteIndex t); mret (Some (kept ++ token))
              end);
  mret (inl (result, ByteIndex t)).

Definition removeTokens (drop : Z -> list Z -> bool) (script : list Z) : outcome ErrorCode (list Z) :=
  r ← walk 0 script (removeBody drop script) (None, 0);
  match r with
  | inl ((Some result, _), _) => mret result
  | _ => mret script
  end.

Definition removeOpcodeRaw (script : list Z) (opcode : Z) : outcome ErrorCode (list Z) :=
  if Zlen script =? 0 then Ok script
  else removeTokens (fun op _ => op =? opcode) script.

Definition removeOpcodeByData (script dataToRemove : list Z) : outcome ErrorCode (list Z) :=
  if (Zlen script =? 0) || (Zlen dataToRemove =? 0) then Ok script
  else removeTokens (fun op data => isCanonicalPush op data && Contains data dataToRemove) script.

Definition AsSmallInt (op : Z) : Z := if op =? OP_0 then 0 else u8 (op - (OP_1 - 1)).

Definition countSigOpsV0 (script : list Z) (precise : bool) : outcome ErrorCode Z :=
  r ← walk (B:=unit) 0 script (fun t '(numSigOps, prevOp) =>
        op ← Opcode t;
        let numSigOps :=
          if (op =? OP_CHECKSIG) || (op =? OP_CHECKSIGVERIFY) then numSigOps + 1
          else if (op =? OP_CHECKMULTISIG) || (op =? OP_CHECKMULTISIGVERIFY) then
            if precise && (OP_1 <=? prevOp) && (prevOp <=? OP_16)
            then numSigOps + AsSmallInt prevOp else numSigOps + MaxPubKeysPerMultiSig
          else numSigOps in
        mret (inl (numSigOps, op))) (0, OP_INVALIDOPCODE);
  match r with
  | inl ((numSigOps, _), _) => mret numSigOps
  | inr _ => Panic
  end.

Definition GetSigOpCount (script : list Z) : outcome ErrorCode Z := countSigOpsV0 script false.

Definition finalOpcodeData (scriptVersion : Z) (script : list Z) : outcome ErrorCode (list Z) :=
  if Zlen script =? 0 then Ok []
  else
    r ← walk (B:=unit) scriptVersion script (fun t _ => Ok (inl (Data t))) [];
    match r with
    | inl (data, t) => mret (if bool_decide (t_err t = None) then data else [])
    | inr _ => Panic
    end.

Definition IsUnspendable (pkScript : list Z) : outcome ErrorCode bool :=
  if (0 <? Zlen pkScript) && (nth 0 pkScript 0 =? OP_RETURN) then Ok true
  else if MaxScriptSize <? Zlen pkScript then Ok true
  else match checkScriptParses 0 pkScript with
       | Ok _ => Ok false
       | Err _ => Ok true
       | Panic => Panic
       | Hang => Hang
       end.

(** ** Tokens and their bytes *)
Abbreviation token := (Z * list Z)%type.

(** The bytes of a token. *)
Definition printToken (tk : token) : list Z :=
  let '(op, data) := tk in
  let len := opcodeLength op in
  op :: (if len <? 0 then le_bytes (Z.to_nat (- len)) (Zlen data) else []) ++ data.

(** The data an opcode can carry. *)
Definition token_ok (tk : token) : Prop :=
  let '(op, data) := tk in
  let len := opcodeLength op in
  if len <? 0 then Zlen data < 256 ^ (- len) /\ Zlen data < 2 ^ 31
  else Zlen data = len - 1.

(** The first token of a non-empty rest of a script. *)
Definition firstToken (rest : list Z) : option (token * list Z) :=
  match rest with
  | [] => None
  | op :: l =>
      let len := opcodeLength op in
      if len <? 0 then
        let k := Z.to_nat (- len) in
        let n := le_val (take k l) in
        if (length l <? k)%nat || (2 ^ 31 <=? n) || (Zlen l - - len <? n) then None
        else Some ((op, take (Z.to_nat n) (drop k l)), drop (Z.to_nat n) (drop k l))
      else
        if Zlen l <? len - 1 then None
        else Some ((op, take (Z.to_nat (len - 1)) l), drop (Z.to_nat (len - 1)) l)
  end.

(** All tokens, and whether the script parses to its end. *)
Fixpoint tokens (fuel : nat) (rest : list Z) : list token * bool :=
  match fuel with
  | O => ([], true)
  | S fuel =>
      match rest with
      | [] => ([], true)
      | _ => match firstToken rest with
             | None => ([], false)
             | Some (tk, rest) => let '(l, ok) := tokens fuel rest in (tk :: l, ok)
             end
      end
  end.

Definition parse (script : list Z) : list token * bool := tokens (length script) script.

(** ** Printing and parsing one token *)
Lemma opcodeLength_cases op :
  0 < opcodeLength op \/ opcodeLength op = -1 \/ opcodeLength op = -2 \/ opcodeLength op = -4.
Proof.
  unfold opcodeLength, OP_DATA_1, OP_PUSHDATA1.
  repeat case_match; try lia.
Qed.

Lemma firstToken_print tk rest : token_ok tk -> firstToken (printToken tk ++ rest) = Some (tk, rest).
Proof.
  destruct tk as [op data]. unfold token_ok, printToken, firstToken. cbn [app].
  destruct (Z.ltb_spec (opcodeLength op) 0) as [Hneg|Hpos].
  - intros [Hn H31]. set (k := Z.to_nat (- opcodeLength op)).
    assert (Hk : Z.of_nat k = - opcodeLength op) by (unfold k; lia).
    assert (Hl : length (le_bytes k (Zlen data)) = k) by apply le_bytes_length.
    rewrite <- app_assoc. rewrite take_app_le, take_ge by lia.
    rewrite drop_app_ge, Hl, Nat.sub_diag by lia. rewrite drop_0.
    rewrite le_val_bytes by (rewrite Hk; len_lia).
    rewrite (proj2 (Nat.ltb_ge _ _)) by (rewrite length_app; lia).
    rewrite (proj2 (Z.leb_gt _ _)) by lia. rewrite (proj2 (Z.ltb_ge _ _)).
    + cbn [orb]. unfold Zlen. rewrite Nat2Z.id, take_app_length, drop_app_length. done.
    + rewrite !Zlen_app. unfold Zlen at 2. rewrite Hl. len_lia.
  - intros Hlen. cbn [app]. replace (Z.to_nat (opcodeLength op - 1)) with (length data) by (unfold Zlen in *; lia).
    rewrite (proj2 (Z.ltb_ge _ _)) by len_lia.
    by rewrite take_app_length, drop_app_length.
Qed.

Lemma firstToken_some rest tk rest' : bytes_ok rest ->
  firstToken rest = Some (tk, rest') ->
  rest = printToken tk ++ rest' /\ token_ok tk /\ bytes_ok rest' /\ (0 < length (printToken tk))%nat.
Proof.
  intros Hb H. destruct rest as [|op l]; [done|]. cbn [firstToken] in H.
  apply list.Forall_cons in Hb as [_ Hb].
  destruct (Z.ltb_spec (opcodeLength op) 0) as [Hneg|Hpos].
  - set (k := Z.to_nat (- opcodeLength op)) in *. set (n := le_val (take k l)) in *.
    destruct (_ || _) eqn:Hc; [done|]. injection H as <- <-.
    apply orb_false_iff in Hc as [Hc Hc3]. apply orb_false_iff in Hc as [Hc1 Hc2].
    apply Nat.ltb_ge in Hc1. apply Z.leb_gt in Hc2. apply Z.ltb_ge in Hc3.
    assert (Hk : Z.of_nat k = - opcodeLength op) by (unfold k; lia).
    assert (Hlk : length (take k l) = k) by (rewrite length_take; lia).
    pose proof (le_val_range (take k l) (Forall_take _ _ _ Hb)) as Hr. fold n in Hr. rewrite Hlk, Hk in Hr.
    assert (Hld : Zlen (take (Z.to_nat n) (drop k l)) = n).
    { unfold Zlen in *. rewrite length_take, length_drop. lia. }
    split_and!.
    + unfold printToken. rewrite (proj2 (Z.ltb_lt _ 0)), Hld by lia. fold k.
      rewrite <- Hlk at 1. unfold n at 1.
      rewrite (le_bytes_val (take k l)) by (by apply Forall_take). cbn [app]. f_equal.
      rewrite <- app_assoc, take_drop. by rewrite take_drop.
    + unfold token_ok. rewrite (proj2 (Z.ltb_lt _ 0)) by lia. lia.
    + by apply Forall_drop, Forall_drop.
    + unfold printToken. simpl. lia.
  - destruct (Z.ltb_spec (Zlen l) (opcodeLength op - 1)); [done|]. injection H as <- <-.
    split_and!.
    + unfold printToken. rewrite (proj2 (Z.ltb_ge _ 0)) by lia. cbn [app]. by rewrite take_drop.
    + unfold token_ok. rewrite (proj2 (Z.ltb_ge _ 0)) by lia. unfold Zlen in *. rewrite length_take.
      destruct (opcodeLength_cases op); lia.
    + by apply Forall_drop.
    + unfold printToken. simpl. lia.
Qed.

(** ** The tokenizer steps through the tokens *)

(** The tokenizer at a position of its script. *)
Definition at_ (t : ScriptTokenizer) (pre rest : list Z) : Prop :=
  t_script t = pre ++ rest /\ t_offset t = Zlen pre /\ t_err t = None /\
  Zlen (t_script t) < 2 ^ 31 /\ bytes_ok rest.

Lemma Next_end t pre : at_ t pre [] -> Next t = Ok (false, t).
Proof.
  intros (Hs & Ho & He & Hl & _). unfold Next, Done. rewrite He, Ho, Hs, app_nil_r.
  rewrite Hs, app_nil_r in Hl. rewrite i32_small by len_lia.
  rewrite (proj2 (Z.leb_le _ _)) by lia. by rewrite orb_true_r.
Qed.

(** Reading the data of a token, as a state. *)
Definition advance (t : ScriptTokenizer) (tk : token) : ScriptTokenizer :=
  mkTokenizer (t_script t) (t_version t) (t_offset t + Zlen (printToken tk)) (t_opcodePos t + 1)
    (Some tk.1) tk.2 (t_err t).

Lemma at_advance t pre tk rest :
  at_ t pre (printToken tk ++ rest) -> at_ (advance t tk) (pre ++ printToken tk) rest.
Proof.
  intros (Hs & Ho & He & Hl & Hb). unfold advance. split_and!; cbn; try done.
  - by rewrite Hs, <- app_assoc.
  - rewrite Ho. by rewrite Zlen_app.
  - by apply list.Forall_app in Hb as [_ Hb].
Qed.

Lemma Next_start t pre op l :
  at_ t pre (op :: l) -> Done t = false /\ index (E:=ErrorCode) (t_script t) (t_offset t) = Ok op /\
    slice (E:=ErrorCode) (t_script t) (t_offset t) (Zlen (t_script t)) = Ok (op :: l) /\
    slice (E:=ErrorCode) (t_script t) (t_offset t + 1) (Zlen (t_script t)) = Ok l.
Proof.
  intros (Hs & Ho & He & Hl & Hb). rewrite Hs in *. rewrite Ho. split_and!.
  - unfold Done. rewrite He, Hs, Ho. rewrite i32_small by len_lia.
    rewrite (proj2 (Z.leb_gt _ _)) by len_lia. done.
  - by rewrite index_app_0.
  - apply slice_suffix; [done|by rewrite Zlen_app].
  - replace (pre ++ op :: l) with ((pre ++ [op]) ++ l) by (by rewrite <- app_assoc).
    apply slice_suffix; [by rewrite Zlen_app|by rewrite Zlen_app].
Qed.

Lemma Next_token t pre rest tk rest' :
  at_ t pre rest -> firstToken rest = Some (tk, rest') -> Next t = Ok (true, advance t tk).
Proof.
  intros Hat Hft. destruct rest as [|op l]; [done|]. pose proof Hat as (Hs & Ho & He & Hl & Hb).
  destruct (Next_start _ _ _ _ Hat) as (Hd & Hi & Hs0 & Hs1).
  destruct (firstToken_some _ _ _ Hb Hft) as (Heq & Hok & _ & _).
  unfold Next. rewrite Hd. cbn [t_script t_offset countOpcode].
  rewrite Hi. cbn [mbind outcome_bind].
  assert (Hbound : Zlen pre + Zlen (printToken tk) < 2 ^ 31).
  { rewrite Hs in Hl. rewrite Heq in Hl. len_lia. }
  destruct tk as [op' data]. pose proof Heq as Heq'. unfold printToken in Heq. cbn [app] in Heq.
  injection Heq as <- Heql. unfold token_ok in Hok. unfold advance. cbn [fst snd].
  assert (Hoff : forall z, z = Zlen pre + Zlen (printToken (op, data)) -> i32 z = Zlen pre + Zlen (printToken (op, data)))
    by (intros z ->; apply i32_small; len_lia).
  destruct (Z.ltb_spec (opcodeLength op) 0) as [Hneg|Hpos].
  - rewrite (proj2 (Z.eqb_neq _ 1)), (proj2 (Z.ltb_ge 1 _)) by lia.
    rewrite Hs1. cbn [mbind outcome_bind]. destruct Hok as [Hn H31].
    set (k := Z.to_nat (- opcodeLength op)) in *.
    assert (Hk : Z.of_nat k = - opcodeLength op) by (unfold k; lia).
    assert (Hlb : Zlen (le_bytes k (Zlen data)) = - opcodeLength op)
      by (unfold Zlen; rewrite le_bytes_length; lia).
    rewrite <- app_assoc in Heql. subst l.
    rewrite (proj2 (Z.ltb_ge _ _)) by len_lia.
    rewrite slice_prefix by done. cbn [mbind outcome_bind].
    rewrite (slice_suffix (le_bytes k (Zlen data)) (data ++ rest')) by (rewrite ?Zlen_app; lia).
    cbn [mbind outcome_bind]. rewrite le_val_bytes by (rewrite Hk; len_lia).
    assert (Hrl : Zlen (data ++ rest') < 2 ^ 31) by (rewrite Hs in Hl; len_lia).
    rewrite (i32_small (Zlen data)), (i32_small (Zlen (data ++ rest'))) by len_lia.
    rewrite !(proj2 (Z.ltb_ge _ _)) by len_lia. cbn [orb].
    rewrite slice_prefix by done. cbn [mbind outcome_bind]. unfold mret, outcome_ret, found. cbn.
    do 4 f_equal. rewrite Ho. apply Hoff. unfold printToken.
    rewrite (proj2 (Z.ltb_lt _ 0)) by lia. fold k. rewrite Zlen_cons, Zlen_app, Hlb. lia.
  - cbn [app] in Heql. subst l.
    destruct (Z.eqb_spec (opcodeLength op) 1) as [H1|Hn1].
    + assert (data = []) as -> by (destruct data; [done|rewrite Zlen_cons in Hok; len_lia]).
      unfold found. cbn. do 4 f_equal. rewrite Ho. apply Hoff. unfold printToken.
      rewrite (proj2 (Z.ltb_ge _ 0)) by lia. done.
    + assert (Hpos1 : 1 < opcodeLength op) by (destruct (opcodeLength_cases op); lia).
      rewrite (proj2 (Z.ltb_lt 1 _)) by lia. rewrite Hs0. cbn [mbind outcome_bind].
      rewrite (proj2 (Z.ltb_ge _ _)) by len_lia.
      change (op :: data ++ rest') with ([op] ++ data ++ rest').
      rewrite slice_mid by (unfold Zlen in *; simpl; lia). cbn [mbind outcome_bind].
      unfold mret, outcome_ret, found. cbn. do 4 f_equal. rewrite Ho. apply Hoff. unfold printToken.
      rewrite (proj2 (Z.ltb_ge _ 0)) by lia. rewrite Zlen_cons. simpl. lia.
Qed.

Lemma Next_malformed t pre op l :
  at_ t pre (op :: l) -> firstToken (op :: l) = None -> Next t = Ok (false, malformed (countOpcode t)).
Proof.
  intros Hat Hft. pose proof Hat as (Hs & Ho & He & Hl & Hb).
  destruct (Next_start _ _ _ _ Hat) as (Hd & Hi & Hs0 & Hs1).
  unfold Next. rewrite Hd. cbn [t_script t_offset countOpcode].
  rewrite Hi. cbn [mbind outcome_bind]. cbn [firstToken] in Hft.
  rewrite Hs in Hl. rewrite Zlen_app, Zlen_cons in Hl. pose proof (Zlen_nonneg pre).
  apply list.Forall_cons in Hb as [_ Hb].
  destruct (Z.ltb_spec (opcodeLength op) 0) as [Hneg|Hpos].
  - rewrite (proj2 (Z.eqb_neq _ 1)), (proj2 (Z.ltb_ge 1 _)) by lia. rewrite Hs1. cbn [mbind outcome_bind].
    set (k := Z.to_nat (- opcodeLength op)) in *. set (n := le_val (take k l)) in *.
    assert (Hk : Z.of_nat k = - opcodeLength op) by (unfold k; lia).
    destruct (_ || _) eqn:Hc; [|done].
    destruct (Z.ltb_spec (Zlen l) (- opcodeLength op)) as [|Hge]; [done|].
    assert (Hlk : length (take k l) = k) by (rewrite length_take; unfold Zlen in *; lia).
    assert (Hs2 : slice (E:=ErrorCode) l 0 (- opcodeLength op) = Ok (take k l)).
    { rewrite <- (take_drop k l) at 1. apply slice_prefix. unfold Zlen. lia. }
    assert (Hs3 : slice (E:=ErrorCode) l (- opcodeLength op) (Zlen l) = Ok (drop k l)).
    { rewrite <- (take_drop k l) at 1. apply slice_suffix; unfold Zlen in *; rewrite ?length_drop; lia. }
    rewrite Hs2. cbn [mbind outcome_bind]. rewrite Hs3. cbn [mbind outcome_bind]. fold n. unfold Zlen at 1. rewrite length_drop.
    pose proof (le_val_range (take k l) (Forall_take _ _ _ Hb)) as Hr. fold n in Hr. rewrite Hlk, Hk in Hr.
    apply orb_true_iff in Hc as [Hc|Hc3]; [apply orb_true_iff in Hc as [Hc1|Hc2]|].
    + apply Nat.ltb_lt in Hc1. unfold Zlen in *. lia.
    + apply Z.leb_le in Hc2.
      assert (H32 : n < 2 ^ 32) by (destruct (opcodeLength_cases op) as [|[H'|[H'|H']]]; rewrite ?H' in Hr; lia).
      assert (i32 n < 0) as Hin.
      { unfold i32. replace (n + 2 ^ 31) with (n - 2 ^ 31 + 1 * 2 ^ 32) by lia.
        rewrite Z.mod_add, Z.mod_small by lia. lia. }
      rewrite (proj2 (Z.ltb_lt (i32 n) 0)) by lia. by rewrite orb_true_r.
    + apply Z.ltb_lt in Hc3. destruct (Z.lt_ge_cases n (2 ^ 31)).
      * rewrite !i32_small by (unfold Zlen in *; lia).
        rewrite (proj2 (Z.ltb_lt _ n)) by (unfold Zlen in *; lia). done.
      * assert (H32 : n < 2 ^ 32) by (destruct (opcodeLength_cases op) as [|[H'|[H'|H']]]; rewrite ?H' in Hr; lia).
        assert (i32 n < 0) as Hin.
        { unfold i32. replace (n + 2 ^ 31) with (n - 2 ^ 31 + 1 * 2 ^ 32) by lia.
          rewrite Z.mod_add, Z.mod_small by lia. lia. }
        rewrite (proj2 (Z.ltb_lt (i32 n) 0)) by lia. by rewrite orb_true_r.
  - destruct (Z.ltb_spec (Zlen l) (opcodeLength op - 1)) as [Hsh|]; [|done].
    destruct (Z.eqb_spec (opcodeLength op) 1) as [H1|Hn1]; [len_lia|].
    assert (Hpos1 : 1 < opcodeLength op) by (destruct (opcodeLength_cases op); lia).
    rewrite (proj2 (Z.ltb_lt 1 _)) by lia. rewrite Hs0. cbn [mbind outcome_bind].
    by rewrite (proj2 (Z.ltb_lt _ _)) by (rewrite Zlen_cons; lia).
Qed.

(** ** The walk *)

(** A pure fold over tokens that may stop early. *)
Fixpoint foldTokens {A B} (f : token -> A -> A + B) (toks : list token) (a : A) : A + B :=
  match toks with
  | [] => inl a
  | tk :: toks => match f tk a with inl a => foldTokens f toks a | inr b => inr b end
  end.

Lemma tokens_fuel fuel fuel' rest : bytes_ok rest ->
  (length rest <= fuel)%nat -> (length rest <= fuel')%nat -> tokens fuel rest = tokens fuel' rest.
Proof.
  revert fuel' rest; induction fuel as [|fuel IH]; intros fuel' rest Hb Hf Hf'.
  - destruct rest; [by destruct fuel'|simpl in Hf; lia].
  - destruct rest as [|op l]; [by destruct fuel'|]. destruct fuel' as [|fuel']; [simpl in Hf'; lia|].
    cbn [tokens]. destruct (firstToken (op :: l)) as [[tk rest']|] eqn:Hft; [|done].
    destruct (firstToken_some _ _ _ Hb Hft) as (Heq & _ & Hb' & Hpos).
    rewrite Heq, length_app in Hf, Hf'. rewrite (IH fuel' rest'); [done|done|lia|lia].
Qed.

(** The loop computes the fold over the tokens; it ends with an error exactly
    when the script does not parse to its end. *)
Lemma tokenLoop_spec {A B} (R : list Z -> A -> Prop) (f : token -> A -> A + B)
    (body : ScriptTokenizer -> A -> outcome ErrorCode (A + B)) script fuel t pre rest a :
  (forall t pre tk rest a, at_ t pre (printToken tk ++ rest) -> script = pre ++ printToken tk ++ rest ->
     token_ok tk -> R pre a ->
     body (advance t tk) a = Ok (f tk a) /\
     forall a', f tk a = inl a' -> R (pre ++ printToken tk) a') ->
  at_ t pre rest -> script = pre ++ rest -> R pre a -> (length rest < fuel)%nat ->
  let '(toks, ok) := tokens fuel rest in
  match foldTokens f toks a with
  | inl a' => exists t', tokenLoop fuel body t a = Ok (inl (a', t')) /\
      t_err t' = (if ok : bool then None else Some ErrMalformedPush) /\
      R (pre ++ concat (printToken <$> toks)) a'
  | inr b => tokenLoop fuel body t a = Ok (inr b)
  end.
Proof.
  intros Hbody. revert t pre rest a; induction fuel as [|fuel IH]; intros t pre rest a Hat Hscr HR Hf; [lia|].
  destruct rest as [|op l].
  - cbn [tokens foldTokens tokenLoop]. rewrite (Next_end t pre Hat). cbn.
    exists t. split_and!; [done|apply Hat|by rewrite app_nil_r].
  - cbn [tokens]. destruct (firstToken (op :: l)) as [[tk rest']|] eqn:Hft.
    + pose proof Hat as (_ & _ & _ & _ & Hb).
      destruct (firstToken_some _ _ _ Hb Hft) as (Heq & Hok & Hb' & Hpos).
      cbn [tokenLoop]. rewrite (Next_token t pre (op :: l) tk rest' Hat Hft). cbn [mbind outcome_bind].
      rewrite Heq in Hat, Hf, Hscr. rewrite length_app in Hf.
      destruct (Hbody t pre tk rest' a Hat Hscr Hok HR) as [Hrun HR']. rewrite Hrun. cbn [mbind outcome_bind].
      destruct (tokens fuel rest') as [toks ok] eqn:Htoks. cbn [foldTokens].
      destruct (f tk a) as [a'|b] eqn:Hfa; [|done].
      rewrite app_assoc in Hscr.
      pose proof (IH (advance t tk) (pre ++ printToken tk) rest' a' (at_advance _ _ _ _ Hat)
                     Hscr (HR' a' eq_refl) ltac:(lia)) as H.
      rewrite Htoks in H. destruct (foldTokens f toks a'); [|done].
      by rewrite fmap_cons; cbn [concat]; rewrite app_assoc.
    + cbn [foldTokens tokenLoop]. rewrite (Next_malformed t pre op l Hat Hft). cbn.
      eexists. split_and!; [done|done|by rewrite app_nil_r].
Qed.

(** The walk over a whole script. *)
Lemma walk_spec {A B} (R : list Z -> A -> Prop) (f : token -> A -> A + B)
    (body : ScriptTokenizer -> A -> outcome ErrorCode (A + B)) script a :
  bytes_ok script -> Zlen script < 2 ^ 31 -> R [] a ->
  (forall t pre tk rest a, at_ t pre (printToken tk ++ rest) -> script = pre ++ printToken tk ++ rest ->
     token_ok tk -> R pre a ->
     body (advance t tk) a = Ok (f tk a) /\
     forall a', f tk a = inl a' -> R (pre ++ printToken tk) a') ->
  let '(toks, ok) := parse script in
  match foldTokens f toks a with
  | inl a' => exists t', walk 0 script body a = Ok (inl (a', t')) /\
      t_err t' = (if ok : bool then None else Some ErrMalformedPush) /\
      R (concat (printToken <$> toks)) a'
  | inr b => walk 0 script body a = Ok (inr b)
  end.
Proof.
  intros Hb Hlen HR Hbody. unfold walk, parse.
  rewrite (tokens_fuel (length script) (S (length script))) by (done || lia).
  apply (tokenLoop_spec R f body script _ _ []); [exact Hbody|by split_and!|done|done|lia].
Qed.

(** ** Parsing and printing a script *)
Abbreviation printTokens toks := (concat (printToken <$> toks)).

Lemma tokens_some fuel rest toks ok : bytes_ok rest -> (length rest <= fuel)%nat ->
  tokens fuel rest = (toks, ok) ->
  Forall token_ok toks /\ exists tail, rest = printTokens toks ++ tail /\ (ok = true -> tail = []).
Proof.
  revert rest toks ok; induction fuel as [|fuel IH]; intros rest toks ok Hb Hf H.
  - injection H as <- <-. split; [done|]. exists rest. split; [done|]. intros _.
    destruct rest; [done|simpl in Hf; lia].
  - destruct rest as [|op l]; [injection H as <- <-; split; [done|]; by exists []|].
    cbn [tokens] in H. destruct (firstToken (op :: l)) as [[tk rest']|] eqn:Hft.
    + destruct (firstToken_some _ _ _ Hb Hft) as (Heq & Hok & Hb' & Hpos).
      destruct (tokens fuel rest') as [toks' ok'] eqn:Ht. injection H as <- <-.
      rewrite Heq, length_app in Hf.
      destruct (IH rest' toks' ok' Hb' ltac:(lia) Ht) as (Hall & tail & Htail & Hend).
      split; [by constructor|]. exists tail. split; [|done].
      rewrite Heq, Htail, fmap_cons. cbn [concat]. by rewrite <- app_assoc.
    + injection H as <- <-. split; [done|]. exists (op :: l). done.
Qed.

Lemma parse_some script toks ok : bytes_ok script -> parse script = (toks, ok) ->
  Forall token_ok toks /\ exists tail, script = printTokens toks ++ tail /\ (ok = true -> tail = []).
Proof. intros Hb. by apply tokens_some. Qed.

Lemma tokens_print fuel toks : Forall token_ok toks -> (length (printTokens toks) <= fuel)%nat ->
  tokens fuel (printTokens toks) = (toks, true).
Proof.
  intros Hok. revert fuel. induction Hok as [|tk toks Htk _ IH]; intros fuel Hf; [by destruct fuel|].
  rewrite fmap_cons in *. cbn [concat] in *.
  assert (Hcons : exists b l, printToken tk = b :: l) by (destruct tk; cbn; eauto).
  destruct Hcons as (b & l & Hp). pose proof (firstToken_print tk (printTokens toks) Htk) as Hft.
  destruct fuel as [|fuel]; [rewrite Hp in Hf; simpl in Hf; lia|].
  rewrite Hp in *. cbn [app] in *. cbn [tokens]. rewrite Hft.
  rewrite IH; [done|]. simpl in Hf. rewrite length_app in Hf. lia.
Qed.

Lemma parse_print toks : Forall token_ok toks -> parse (printTokens toks) = (toks, true).
Proof. intros H. by apply tokens_print. Qed.

Section WalkResults.
Context (script : list Z) (Hb : bytes_ok script) (Hlen : Zlen script < 2 ^ 31).

Lemma checkScriptParses_spec :
  checkScriptParses 0 script = if (parse script).2 then Ok () else Err ErrMalformedPush.
Proof using Hb Hlen.
  pose proof (walk_spec (fun _ _ => True) (fun _ _ => inl ())
    (fun (_ : ScriptTokenizer) (_ : unit) => Ok (inl () : unit + unit)) script ()) as H.
  unfold checkScriptParses. destruct (parse script) as [toks ok].
  specialize (H Hb Hlen I ltac:(done)).
  assert (Hf : foldTokens (fun _ _ => inl () : unit + unit) toks () = inl ())
    by (clear; induction toks; done).
  rewrite Hf in H. destruct H as (t' & -> & He & _). cbn. rewrite He. by destruct ok.
Qed.

(** The body of a walk that looks at the opcode and the data only. *)
Lemma simple_walk {A B} (f : token -> A -> A + B) a :
  let body := fun t a => op ← Opcode t; mret (f (op, Data t) a) in
  let '(toks, ok) := parse script in
  match foldTokens f toks a with
  | inl a' => exists t', walk 0 script body a = Ok (inl (a', t')) /\
      t_err t' = (if ok : bool then None else Some ErrMalformedPush)
  | inr b => walk 0 script body a = Ok (inr b)
  end.
Proof using Hb Hlen.
  pose proof (walk_spec (fun _ _ => True) f (fun t a => op ← Opcode t; mret (f (op, Data t) a))
    script a Hb Hlen I) as H.
  cbv zeta. destruct (parse script) as [toks ok].
  assert (Hbody : forall t pre tk rest a0, at_ t pre (printToken tk ++ rest) ->
    script = pre ++ printToken tk ++ rest -> token_ok tk -> True ->
    (op ← Opcode (advance t tk); mret (f (op, Data (advance t tk)) a0)) = Ok (f tk a0) /\
     forall a', f tk a0 = inl a' -> True).
  { intros t pre [op data] rest a0 _ _ _ _. done. }
  specialize (H Hbody). destruct (foldTokens f toks a); [|done].
  destruct H as (t' & ? & ? & _). eauto.
Qed.

Lemma IsPushOnlyScript_spec :
  IsPushOnlyScript script = Ok ((parse script).2 && forallb (fun tk => tk.1 <=? OP_16) (parse script).1).
Proof using Hb Hlen.
  unfold IsPushOnlyScript.
  pose proof (simple_walk (fun tk (_ : unit) => if OP_16 <? tk.1 then inr false else inl ()) ()) as H.
  cbv zeta in H. destruct (parse script) as [toks ok]. cbn [fst snd].
  assert (Hf : foldTokens (fun tk (_ : unit) => if OP_16 <? tk.1 then inr false else inl ()) toks ()
    = if forallb (fun tk : token => tk.1 <=? OP_16) toks then inl () else inr false).
  { clear. induction toks as [|tk toks IH]; [done|]. cbn [foldTokens forallb].
    destruct (Z.ltb_spec OP_16 tk.1), (Z.leb_spec tk.1 OP_16); try lia; done. }
  rewrite Hf in H. cbn [fst snd] in H. destruct (forallb _ toks).
  - destruct H as (t' & -> & He). cbn. rewrite He, andb_true_r. by destruct ok.
  - rewrite H. cbn. by rewrite andb_false_r.
Qed.

(** The signature operation counts as a fold. *)
Definition countStep (precise : bool) (tk : token) (st : Z * Z) : Z * Z :=
  let '(op, _) := tk in
  let '(n, prevOp) := st in
  (if (op =? OP_CHECKSIG) || (op =? OP_CHECKSIGVERIFY) then n + 1
   else if (op =? OP_CHECKMULTISIG) || (op =? OP_CHECKMULTISIGVERIFY) then
     if precise && (OP_1 <=? prevOp) && (prevOp <=? OP_16) then n + AsSmallInt prevOp else n + MaxPubKeysPerMultiSig
   else n, op).

Lemma fold_no_stop {A B} (g : token -> A -> A) toks a :
  foldTokens (B:=B) (fun tk a => inl (g tk a)) toks a = inl (foldl (fun a tk => g tk a) a toks).
Proof. revert a; induction toks as [|tk toks IH]; intros a; [done|]. apply IH. Qed.

Lemma countSigOpsV0_spec precise :
  countSigOpsV0 script precise
  = Ok (foldl (fun st tk => countStep precise tk st) (0, OP_INVALIDOPCODE) (parse script).1).1.
Proof using Hb Hlen.
  unfold countSigOpsV0.
  pose proof (simple_walk (B:=unit) (fun tk st => inl (countStep precise tk st)) (0, OP_INVALIDOPCODE)) as H.
  cbv zeta in H. destruct (parse script) as [toks ok]. cbn [fst]. rewrite fold_no_stop in H.
  destruct H as (t' & Hw & _).
  assert (Hbody : forall A (F G : ScriptTokenizer -> Z * Z -> outcome ErrorCode (Z * Z + A)) fuel t a,
    (forall t a, F t a = G t a) -> tokenLoop fuel F t a = tokenLoop fuel G t a).
  { intros A F G fuel. induction fuel as [|fuel IH]; intros t a HFG; [done|]. cbn [tokenLoop].
    destruct (Next t) as [[[] t1]| | |]; [|done..]. cbn. rewrite HFG.
    destruct (G t1 a) as [[|]| | |]; [|done..]. by apply IH. }
  unfold walk in *. erewrite Hbody; [rewrite Hw|by intros t [n prev]].
  by destruct (foldl _ _ _).
Qed.

Lemma count_bounds toks n1 n2 prev : 0 <= n1 <= n2 ->
  let p := (foldl (fun st tk => countStep true tk st) (n1, prev) toks).1 in
  let i := (foldl (fun st tk => countStep false tk st) (n2, prev) toks).1 in
  0 <= p <= i /\ i <= n2 + 20 * Zlen toks.
Proof using.
  clear Hb Hlen. revert n1 n2 prev; induction toks as [|[op data] toks IH]; intros n1 n2 prev Hn; cbn.
  - unfold Zlen. simpl. lia.
  - rewrite Zlen_cons. unfold MaxPubKeysPerMultiSig.
    destruct (_ || _); [specialize (IH (n1 + 1) (n2 + 1) op); cbn in IH; lia|].
    destruct (_ || _); [|specialize (IH n1 n2 op); cbn in IH; lia].
    destruct (OP_1 <=? prev) eqn:H1, (prev <=? OP_16) eqn:H2; cbn;
      try (specialize (IH (n1 + 20) (n2 + 20) op); cbn in IH; lia).
    apply Z.leb_le in H1, H2. unfold OP_1, OP_16 in *.
    assert (Hs : 0 <= AsSmallInt prev <= 16).
    { unfold AsSmallInt, OP_0, OP_1. rewrite (proj2 (Z.eqb_neq _ _)), u8_small by lia. lia. }
    specialize (IH (n1 + AsSmallInt prev) (n2 + 20) op). cbn in IH. lia.
Qed.

(** One round of the removal as a pure step. *)
Definition removeStep (dropb : Z -> list Z -> bool) (tk : token) (st : option (list Z) * Z)
    : (option (list Z) * Z) + unit :=
  inl (if dropb tk.1 tk.2 then Some (default (take (Z.to_nat st.2) script) st.1)
       else (fun k => k ++ printToken tk) <$> st.1, st.2 + Zlen (printToken tk)).

Lemma removeBody_spec dropb t pre tk rest a :
  at_ t pre (printToken tk ++ rest) -> script = pre ++ printToken tk ++ rest -> a.2 = Zlen pre ->
  removeBody dropb script (advance t tk) a = Ok (removeStep dropb tk a) /\
  forall a', removeStep dropb tk a = inl a' -> a'.2 = Zlen (pre ++ printToken tk).
Proof using.
  clear Hb Hlen. destruct tk as [op data], a as [result prev].
  intros (_ & Ho & _) Hscr Hprev. cbn in Hprev. subst prev.
  split; [|intros a' [= <-]; cbn; by rewrite Zlen_app].
  unfold removeBody, removeStep. cbn [Opcode t_op advance mbind outcome_bind fst snd Data t_data ByteIndex t_offset].
  assert (Hnat : Z.to_nat (Zlen pre) = length pre) by (unfold Zlen; lia).
  assert (Htake : take (length pre) script = pre) by (rewrite Hscr; apply take_app_length).
  assert (Hs1 : slice (E:=ErrorCode) script 0 (Zlen pre) = Ok pre)
    by (rewrite Hscr; by apply slice_prefix).
  assert (Hs2 : slice (E:=ErrorCode) script (Zlen pre) (Zlen pre + Zlen (printToken (op, data)))
    = Ok (printToken (op, data))) by (rewrite Hscr at 1; by apply slice_mid).
  rewrite Ho, Hnat, Htake, Hs1, Hs2. by destruct (dropb op data), result.
Qed.

(** The tokens that stay, and the state of the loop after some tokens. *)
Definition kept (dropb : Z -> list Z -> bool) (toks : list token) : list token :=
  filter (fun tk => dropb tk.1 tk.2 = false) toks.

Definition removeState (dropb : Z -> list Z -> bool) (toks : list token) : option (list Z) * Z :=
  (if decide (kept dropb toks = toks) then None else Some (printTokens (kept dropb toks)),
   Zlen (printTokens toks)).

Lemma printTokens_snoc toks tk : printTokens (toks ++ [tk]) = printTokens toks ++ printToken tk.
Proof using. rewrite fmap_app, concat_app. cbn. by rewrite app_nil_r. Qed.

Lemma removeStep_state dropb toks tk rest :
  script = printTokens toks ++ rest ->
  removeStep dropb tk (removeState dropb toks) = inl (removeState dropb (toks ++ [tk])).
Proof using.
  clear Hb Hlen. intros Hs. unfold removeStep, removeState. cbn [fst snd].
  rewrite printTokens_snoc, Zlen_app. do 2 f_equal. unfold kept. rewrite list.filter_app.
  assert (Hnat : Z.to_nat (Zlen (printTokens toks)) = length (printTokens toks)) by (unfold Zlen; lia).
  rewrite Hnat, Hs, take_app_length. destruct (dropb tk.1 tk.2) eqn:Hd.
  - rewrite list.filter_cons_False by (by rewrite Hd). rewrite list.filter_nil, app_nil_r.
    rewrite (decide_False (P := filter _ toks = toks ++ [tk])).
    + case_decide as Hdec; cbn; [by rewrite Hdec|done].
    + intros Hl. apply (f_equal length) in Hl. rewrite length_app in Hl. simpl in Hl.
      pose proof (list.length_filter (fun tk : token => dropb tk.1 tk.2 = false) toks). lia.
  - rewrite list.filter_cons_True by done. rewrite list.filter_nil. case_decide as Hdec; cbn.
    + by rewrite decide_True by (by rewrite Hdec).
    + rewrite decide_False by (intros Hl; by apply app_inj_tail in Hl as [? _]).
      cbn. by rewrite printTokens_snoc.
Qed.

Lemma removeFold dropb done_ toks :
  script = printTokens (done_ ++ toks) ->
  foldTokens (removeStep dropb) toks (removeState dropb done_) = inl (removeState dropb (done_ ++ toks)).
Proof using.
  clear Hb Hlen. revert done_; induction toks as [|tk toks IH]; intros done_ Hs; [by rewrite app_nil_r|].
  cbn [foldTokens]. rewrite fmap_app, concat_app in Hs.
  rewrite (removeStep_state _ _ _ _ Hs), (IH (done_ ++ [tk])).
  - by rewrite <- app_assoc.
  - rewrite <- app_assoc. cbn [app]. by rewrite fmap_app, concat_app.
Qed.

(** Removing tokens is filtering them. *)
Lemma removeTokens_spec dropb toks : parse script = (toks, true) ->
  removeTokens dropb script = Ok (printTokens (kept dropb toks)).
Proof using Hb Hlen.
  intros Hparse. unfold removeTokens.
  pose proof (walk_spec (fun pre st => st.2 = Zlen pre) (removeStep dropb) (removeBody dropb script)
    script (None, 0) Hb Hlen eq_refl) as H. rewrite Hparse in H.
  destruct (parse_some _ _ _ Hb Hparse) as (Hok & tail & Heq & Htail).
  rewrite (Htail eq_refl), app_nil_r in Heq.
  specialize (H ltac:(intros; by eapply removeBody_spec)).
  pose proof (removeFold dropb [] toks Heq) as Hf.
  change (removeState dropb []) with (@None (list Z), 0) in Hf.
  rewrite Hf in H. destruct H as (t' & -> & _).
  unfold removeState. cbn [app mbind outcome_bind]. case_decide as Hdec; [|done].
  by rewrite Hdec, <- Heq.
Qed.

(** On any bytes the removal returns, and what it returns is no longer. *)
Lemma removeTokens_total dropb :
  exists r, removeTokens dropb script = Ok r /\ bytes_ok r /\ Zlen r <= Zlen script.
Proof using Hb Hlen.
  unfold removeTokens.
  set (R := fun (pre : list Z) (st : option (list Z) * Z) => st.2 = Zlen pre /\
    match st.1 with Some k => bytes_ok k /\ Zlen k <= Zlen pre | None => True end).
  pose proof (walk_spec R (removeStep dropb) (removeBody dropb script) script (None, 0) Hb Hlen
                (conj eq_refl I)) as H.
  destruct (parse script) as [toks ok] eqn:Hparse.
  destruct (parse_some _ _ _ Hb Hparse) as (_ & tail & Heq & _).
  lapply H.
  - clear H. intros H. destruct (foldTokens (removeStep dropb) toks (None, 0)) as [[[k|] o]|u] eqn:Hf.
    + destruct H as (t' & -> & _ & _ & Hk & Hkl). exists k. cbn. split_and!; [done|done|].
      rewrite Heq, Zlen_app. len_lia.
    + destruct H as (t' & -> & _). exists script. by split_and!.
    + exists script. rewrite H. by split_and!.
  - intros t pre tk rest [res o] Hat Hscr Hok [Ho Hres]. cbn [fst snd] in Ho, Hres.
    destruct (removeBody_spec dropb t pre tk rest (res, o) Hat Hscr Ho) as [Hrun Hnext].
    split; [done|]. intros [res' o'] Hst. split; [by apply Hnext|]. cbn [fst].
    unfold removeStep in Hst. cbn [fst snd] in Hst. injection Hst as Hst _.
    pose proof Hb as Hb'. rewrite Hscr in Hb'. apply list.Forall_app in Hb' as [Hbp Hbt].
    apply list.Forall_app in Hbt as [Hbt _].
    assert (Hpre : bytes_ok (take (Z.to_nat o) script) /\ Zlen (take (Z.to_nat o) script) <= Zlen pre).
    { assert (take (Z.to_nat o) script = pre) as -> by (rewrite Hscr, Ho; unfold Zlen; rewrite Nat2Z.id; apply take_app_length).
      by split; [|lia]. }
    rewrite Zlen_app. pose proof (Zlen_nonneg (printToken tk)).
    destruct (dropb tk.1 tk.2); [subst res'|destruct res as [k|]; cbn in Hst; subst res'; [|done]].
    + destruct res as [k|]; cbn [default from_option id]; [split; [apply Hres|lia]|split; [apply Hpre|lia]].
    + split; [apply list.Forall_app; by split; [apply Hres|]|rewrite Zlen_app; lia].
Qed.

Lemma finalOpcodeData_spec :
  finalOpcodeData 0 script
  = Ok (if (parse script).2 then default [] (snd <$> list.last (parse script).1) else []).
Proof using Hb Hlen.
  unfold finalOpcodeData. destruct (Z.eqb_spec (Zlen script) 0) as [Hz|Hnz].
  { by destruct script; [|rewrite Zlen_cons in Hz; len_lia]. }
  pose proof (walk_spec (fun _ _ => True) (fun tk _ => inl tk.2)
    (fun t (_ : list Z) => Ok (inl (Data t) : list Z + unit)) script [] Hb Hlen I) as H.
  specialize (H ltac:(by intros t pre [op data] rest a0 _ _ _ _)).
  destruct (parse script) as [toks ok]. cbn [fst snd].
  assert (Hf : forall a, foldTokens (B:=unit) (fun (tk : token) (_ : list Z) => inl tk.2) toks a
    = inl (default a (snd <$> list.last toks))).
  { clear. induction toks as [|tk toks IH]; intros a; [done|]. cbn [foldTokens]. rewrite IH.
    by destruct toks as [|tk' toks]; [|rewrite list.last_cons_cons; destruct (list.last (tk' :: toks)) eqn:E;
      [|apply list.last_None in E]]. }
  rewrite Hf in H. destruct H as (t' & -> & He & _). cbn. rewrite He. by destruct ok.
Qed.

Lemma removeOpcodeRaw_total opcode :
  exists r, removeOpcodeRaw script opcode = Ok r /\ bytes_ok r /\ Zlen r <= Zlen script.
Proof using Hb Hlen.
  unfold removeOpcodeRaw. destruct (Zlen script =? 0); [exists script; by split_and!|].
  apply removeTokens_total.
Qed.

Lemma removeOpcodeByData_total data :
  exists r, removeOpcodeByData script data = Ok r /\ bytes_ok r /\ Zlen r <= Zlen script.
Proof using Hb Hlen.
  unfold removeOpcodeByData. destruct (_ || _); [exists script; by split_and!|].
  apply removeTokens_total.
Qed.

End WalkResults.

(** ** Theorems *)

(** Parsing a script is inverse to printing tokens: a script passes
    [checkScriptParses] exactly when it is the print of some list of tokens
    whose data fit their opcodes, that list is unique, and it is the list the
    walks see; any other script is rejected as a malformed push. *)
Theorem checkScriptParses_iff script (Hb : bytes_ok script) (Hlen : Zlen script < 2 ^ 31) :
  (checkScriptParses 0 script = Ok () \/ checkScriptParses 0 script = Err ErrMalformedPush) /\
  (checkScriptParses 0 script = Ok () <->
   exists toks, Forall token_ok toks /\ script = printTokens toks) /\
  forall toks, Forall token_ok toks -> script = printTokens toks -> parse script = (toks, true).
Proof.
  rewrite checkScriptParses_spec by done.
  destruct (parse script) as [toks ok] eqn:Hparse. cbn [snd].
  destruct (parse_some _ _ _ Hb Hparse) as (Hok & tail & Heq & Htail).
  assert (Hprint : forall toks', Forall token_ok toks' -> script = printTokens toks' ->
    parse script = (toks', true)) by (intros toks' Hall ->; by apply parse_print).
  split_and!.
  - destruct ok; eauto.
  - split.
    + intros H. destruct ok; [|done]. exists toks. rewrite (Htail eq_refl), app_nil_r in Heq. done.
    + intros (toks' & Hall & Hs). rewrite (Hprint _ Hall Hs) in Hparse. by injection Hparse as <- <-.
  - intros toks' Hall Hs. by rewrite <- Hparse, (Hprint _ Hall Hs).
Qed.

(** On a script that parses, removing a signature (or an opcode) deletes
    exactly the tokens that are a canonical push of data containing it (or
    have that opcode) and keeps the bytes of all others in order. *)
Theorem removeOpcode_filters toks dataToRemove opcode
    (Hok : Forall token_ok toks) (Hb : bytes_ok (printTokens toks))
    (Hlen : Zlen (printTokens toks) < 2 ^ 31) (Hdata : dataToRemove <> []) :
  removeOpcodeByData (printTokens toks) dataToRemove
  = Ok (printTokens (filter (fun tk => isCanonicalPush tk.1 tk.2 && Contains tk.2 dataToRemove = false) toks)) /\
  removeOpcodeRaw (printTokens toks) opcode
  = Ok (printTokens (filter (fun tk => (tk.1 =? opcode) = false) toks)).
Proof.
  pose proof (parse_print toks Hok) as Hparse.
  assert (Hd : (Zlen dataToRemove =? 0) = false)
    by (destruct dataToRemove; [done|]; rewrite Zlen_cons; apply Z.eqb_neq; len_lia).
  unfold removeOpcodeByData, removeOpcodeRaw. rewrite Hd, orb_false_r.
  destruct (Z.eqb_spec (Zlen (printTokens toks)) 0) as [Hz|Hnz].
  - destruct toks as [|[op data] toks]; [done|]. exfalso.
    rewrite fmap_cons in Hz. cbn [concat] in Hz. rewrite Zlen_app in Hz. unfold printToken in Hz.
    rewrite Zlen_cons in Hz. len_lia.
  - rewrite !(removeTokens_spec _ Hb Hlen _ _ Hparse). done.
Qed.

(** On every byte string a script can be, whether or not it parses, the
    walks of script.go end without a panic: they return a value (or, for the
    parse check, the malformed-push error), and the precise count of
    signature operations is at most the imprecise one, which is at most
    twenty per byte. *)
Theorem script_walks_total script version (Hb : bytes_ok script) (Hlen : Zlen script < 2 ^ 31) :
  returns (IsPushOnlyScript script) /\ returns (finalOpcodeData 0 script) /\
  returns (IsUnspendable script) /\
  (version <> 0 -> checkScriptParses version script = Err ErrUnsupportedScriptVersion) /\
  exists p i, countSigOpsV0 script true = Ok p /\ countSigOpsV0 script false = Ok i /\
    0 <= p <= i /\ i <= 20 * Zlen script.
Proof.
  rewrite IsPushOnlyScript_spec, finalOpcodeData_spec, !countSigOpsV0_spec by done.
  destruct (parse script) as [toks ok] eqn:Hparse. cbn [fst snd]. split_and!; [by eexists..| | |].
  - unfold IsUnspendable. rewrite checkScriptParses_spec by done. rewrite Hparse.
    destruct (_ && _); [by eexists|]. destruct (_ <? _); [by eexists|]. by destruct ok; eexists.
  - intros Hv. unfold checkScriptParses, walk. cbn [tokenLoop].
    unfold Next, Done, MakeScriptTokenizer. rewrite (proj2 (Z.eqb_neq version 0)) by done. done.
  - pose proof (count_bounds toks 0 0 OP_INVALIDOPCODE ltac:(lia)) as [Hp Hc]. cbv zeta in Hp, Hc.
    do 2 eexists. split_and!; [done|done|lia|lia|].
    destruct (parse_some _ _ _ Hb Hparse) as (_ & tail & -> & _).
    assert (Hl : Zlen toks <= Zlen (printTokens toks)).
    { clear. induction toks as [|[op data] toks IH]; [done|]. rewrite fmap_cons. cbn [concat].
      rewrite Zlen_cons, Zlen_app. unfold printToken at 1. rewrite Zlen_cons.
      match goal with |- context [Zlen (?a ++ ?b)] => pose proof (Zlen_nonneg (a ++ b)) end. lia. }
    rewrite Zlen_app. len_lia.
Qed.

Module Toy.

(** OP_DUP, a push of three bytes, OP_PUSHDATA1 of two bytes. *)
Definition toks : list token := [(0x76, []); (0x03, [7; 8; 9]); (0x4c, [8; 9])].

Lemma toks_ok : Forall token_ok toks /\ bytes_ok (printTokens toks) /\ Zlen (printTokens toks) < 2 ^ 31.
Proof.
  split_and!; [|apply (bool_decide_unpack _); reflexivity|reflexivity].
  unfold toks. repeat apply Forall_cons_2; [reflexivity|reflexivity|split; reflexivity|apply Forall_nil_2].
Qed.

Lemma checkScriptParses_iff_witness :
  (checkScriptParses 0 (printTokens toks) = Ok () \/
   checkScriptParses 0 (printTokens toks) = Err ErrMalformedPush) /\
  (checkScriptParses 0 (printTokens toks) = Ok () <->
   exists toks', Forall token_ok toks' /\ printTokens toks = printTokens toks') /\
  forall toks', Forall token_ok toks' -> printTokens toks = printTokens toks' ->
    parse (printTokens toks) = (toks', true).
Proof. apply checkScriptParses_iff; apply toks_ok. Defined.

Lemma removeOpcode_filters_witness :
  removeOpcodeByData (printTokens toks) [8; 9] = Ok [0x76; 0x4c; 2; 8; 9] /\
  removeOpcodeRaw (printTokens toks) 0x76 = Ok [3; 7; 8; 9; 0x4c; 2; 8; 9].
Proof.
  apply (removeOpcode_filters toks [8; 9] 0x76); [apply toks_ok..|discriminate].
Defined.

(** A push that runs over the end. *)
Lemma script_walks_total_witness :
  returns (IsPushOnlyScript [0xae; 0x4b; 0xac]) /\ returns (finalOpcodeData 0 [0xae; 0x4b; 0xac]) /\
  returns (IsUnspendable [0xae; 0x4b; 0xac]) /\
  (1 <> 0 -> checkScriptParses 1 [0xae; 0x4b; 0xac] = Err ErrUnsupportedScriptVersion) /\
  exists p i, countSigOpsV0 [0xae; 0x4b; 0xac] true = Ok p /\
    countSigOpsV0 [0xae; 0x4b; 0xac] false = Ok i /\ 0 <= p <= i /\ i <= 20 * Zlen [0xae; 0x4b; 0xac].
Proof.
  apply (script_walks_total [0xae; 0x4b; 0xac] 1); [apply (bool_decide_unpack _); reflexivity|reflexivity].
Defined.

Example count_multisig : countSigOpsV0 [0x52; 0xae] true = Ok 2 /\ countSigOpsV0 [0x52; 0xae] false = Ok 20.
Proof. by split. Qed.

End Toy.
End Tokenizer.
