(* ===== verification/Builder.v ===== *)
(** * Building scripts and recognising templates

    Models coin/OrcaNet/txscript/scriptbuilder.go and the templates of
    standard.go that the engine consults: pay-to-script-hash, witness
    programs, the pay-to-pubkey-hash script and the taproot annex. *)

From S2P Require Import Prelude ScriptNum Tokenizer.

Module Builder.
Import ScriptNum Tokenizer.

(** ** The code *)
Definition OP_DATA_20 := 0x14.
Definition OP_DUP := 0x76.
Definition OP_EQUAL := 0x87.
Definition OP_EQUALVERIFY := 0x88.
Definition OP_HASH160 := 0xa9.
Definition TaprootAnnexTag := 0x50.

Inductive BuilderError := ErrScriptNotCanonical.

Record ScriptBuilder := mkBuilder {
  b_script : list Z;
  b_err : option BuilderError;
}.

Definition NewScriptBuilder : ScriptBuilder := mkBuilder [] None.
Definition Reset (b : ScriptBuilder) : ScriptBuilder := mkBuilder [] None.
Definition append (bytes : list Z) (b : ScriptBuilder) : ScriptBuilder :=
  mkBuilder (b_script b ++ bytes) (b_err b).
Definition notCanonical (b : ScriptBuilder) : ScriptBuilder :=
  mkBuilder (b_script b) (Some ErrScriptNotCanonical).

Definition AddOp (opcode : Z) (b : ScriptBuilder) : ScriptBuilder :=
  match b_err b with
  | Some _ => b
  | None => if MaxScriptSize <? Zlen (b_script b) + 1 then notCanonical b else append [opcode] b
  end.

Definition AddOps (opcodes : list Z) (b : ScriptBuilder) : ScriptBuilder :=
  match b_err b with
  | Some _ => b
  | None => if MaxScriptSize <? Zlen (b_script b) + Zlen opcodes then notCanonical b else append opcodes b
  end.

Definition canonicalDataSize (data : list Z) : Z :=
  let dataLen := Zlen data in
  if dataLen =? 0 then 1
  else if (dataLen =? 1) && (nth 0 data 0 <=? 16) then 1
  else if (dataLen =? 1) && (nth 0 data 0 =? 0x81) then 1
  else if dataLen <? OP_PUSHDATA1 then 1 + dataLen
  else if dataLen <=? 0xff then 2 + dataLen
  else if dataLen <=? 0xffff then 3 + dataLen
  else 5 + dataLen.

Definition addData (data : list Z) (b : ScriptBuilder) : ScriptBuilder :=
  let dataLen := Zlen data in
  if (dataLen =? 0) || ((dataLen =? 1) && (nth 0 data 0 =? 0)) then append [OP_0] b
  else if (dataLen =? 1) && (nth 0 data 0 <=? 16) then append [u8 (OP_1 - 1 + nth 0 data 0)] b
  else if (dataLen =? 1) && (nth 0 data 0 =? 0x81) then append [OP_1NEGATE] b
  else
    let b :=
      if dataLen <? OP_PUSHDATA1 then append [u8 (OP_DATA_1 - 1 + dataLen)] b
      else if dataLen <=? 0xff then append [OP_PUSHDATA1; u8 dataLen] b
      else if dataLen <=? 0xffff then append (OP_PUSHDATA2 :: le_bytes 2 (u16 dataLen)) b
      else append (OP_PUSHDATA4 :: le_bytes 4 (u32 dataLen)) b in
    append data b.

Definition AddFullData (data : list Z) (b : ScriptBuilder) : ScriptBuilder :=
  match b_err b with Some _ => b | None => addData data b end.

Definition AddData (data : list Z) (b : ScriptBuilder) : ScriptBuilder :=
  match b_err b with
  | Some _ => b
  | None =>
      if MaxScriptSize <? Zlen (b_script b) + canonicalDataSize data then notCanonical b
      else if MaxScriptElementSize <? Zlen data then notCanonical b
      else addData data b
  end.

Definition AddInt64 (val : Z) (b : ScriptBuilder) : outcome ErrorCode ScriptBuilder :=
  match b_err b with
  | Some _ => Ok b
  | None =>
      if MaxScriptSize <? Zlen (b_script b) + 1 then Ok (notCanonical b)
      else if val =? 0 then Ok (append [OP_0] b)
      else if (val =? -1) || ((1 <=? val) && (val <=? 16)) then Ok (append [u8 (OP_1 - 1 + val)] b)
      else data ← Bytes val; mret (AddData data b)
  end.

(** Script returns the script and the error. *)
Definition Script (b : ScriptBuilder) : outcome ErrorCode (list Z) :=
  match b_err b with Some _ => Err NotScriptError | None => Ok (b_script b) end.

Definition payToPubKeyHashScript (pubKeyHash : list Z) : outcome ErrorCode (list Z) :=
  Script (AddOp OP_CHECKSIG (AddOp OP_EQUALVERIFY (AddData pubKeyHash
    (AddOp OP_HASH160 (AddOp OP_DUP NewScriptBuilder))))).

Definition payToScriptHashScript (scriptHash : list Z) : outcome ErrorCode (list Z) :=
  Script (AddOp OP_EQUAL (AddData scriptHash (AddOp OP_HASH160 NewScriptBuilder))).

Definition payToWitnessPubKeyHashScript (pubKeyHash : list Z) : outcome ErrorCode (list Z) :=
  Script (AddData pubKeyHash (AddOp OP_0 NewScriptBuilder)).

Definition payToWitnessScriptHashScript (scriptHash : list Z) : outcome ErrorCode (list Z) :=
  Script (AddData scriptHash (AddOp OP_0 NewScriptBuilder)).

Definition payToWitnessTaprootScript (rawKey : list Z) : outcome ErrorCode (list Z) :=
  Script (AddData rawKey (AddOp OP_1 NewScriptBuilder)).

Definition isScriptHashScript (script : list Z) : bool :=
  (Zlen script =? 23) && (nth 0 script 0 =? OP_HASH160) && (nth 1 script 0 =? OP_DATA_20)
  && (nth 22 script 0 =? OP_EQUAL).

Definition IsSmallInt (op : Z) : bool := (op =? OP_0) || ((OP_1 <=? op) && (op <=? OP_16)).

(** The version and the program, or nothing when the script is not a witness
    program. *)
Definition extractWitnessProgramInfo (script : list Z) : outcome ErrorCode (option (Z * list Z)) :=
  if (Zlen script <? 4) || (42 <? Zlen script) then Ok None
  else
    '(more, t) ← Next (MakeScriptTokenizer 0 script);
    if negb more then Ok None
    else
      op ← Opcode t;
      if negb (IsSmallInt op) then Ok None
      else
        let version := AsSmallInt op in
        '(more, t) ← Next t;
        if negb more then Ok None
        else
          op ← Opcode t;
          if negb (isCanonicalPush op (Data t)) then Ok None
          else mret (if Done t && bool_decide (t_err t = None) then Some (version, Data t) else None).

Definition IsWitnessProgram (script : list Z) : outcome ErrorCode bool :=
  r ← extractWitnessProgramInfo script; mret (bool_decide (is_Some r)).

Definition isAnnexedWitness (witness : list (list Z)) : bool :=
  if Zlen witness <? 2 then false
  else
    let lastElement := List.last witness [] in
    (0 <? Zlen lastElement) && (nth 0 lastElement 0 =? TaprootAnnexTag).

(** ** What the builder writes *)

(** The token that pushes [data] in the fewest bytes. *)
Definition canonicalToken (data : list Z) : token :=
  match data with
  | [] => (OP_0, [])
  | [x] =>
      if x =? 0 then (OP_0, [])
      else if x <=? 16 then (OP_1 - 1 + x, [])
      else if x =? 0x81 then (OP_1NEGATE, [])
      else (OP_DATA_1, data)
  | _ =>
      if Zlen data <? OP_PUSHDATA1 then (Zlen data, data)
      else if Zlen data <=? 0xff then (OP_PUSHDATA1, data)
      else if Zlen data <=? 0xffff then (OP_PUSHDATA2, data)
      else (OP_PUSHDATA4, data)
  end.

(** What a push token leaves on the stack. *)
Definition pushedValue (tk : token) : list Z :=
  let '(op, data) := tk in
  if op =? OP_1NEGATE then [0x81]
  else if (OP_1 <=? op) && (op <=? OP_16) then [op - (OP_1 - 1)]
  else data.

Lemma pushedValue_canonical data :
  bytes_ok data -> pushedValue (canonicalToken data) = if bool_decide (data = [0]) then [] else data.
Proof.
  intros Hb. unfold canonicalToken. destruct data as [|x [|y data]]; [done| |].
  - apply Forall_inv in Hb. unfold byte_ok in Hb.
    destruct (Z.eqb_spec x 0) as [->|Hx0]; [done|].
    rewrite bool_decide_eq_false_2 by congruence.
    destruct (Z.leb_spec x 16); [|destruct (Z.eqb_spec x 0x81) as [->|]; done].
    unfold pushedValue, OP_1NEGATE, OP_1, OP_16.
    rewrite (proj2 (Z.eqb_neq _ _)), !(proj2 (Z.leb_le _ _)) by lia. cbn [andb]. do 2 f_equal. lia.
  - rewrite bool_decide_eq_false_2 by congruence. set (d := x :: y :: data).
    assert (0 <= Zlen d) by len_lia.
    destruct (Z.ltb_spec (Zlen d) OP_PUSHDATA1);
      [|by destruct (Zlen d <=? 0xff), (Zlen d <=? 0xffff)].
    unfold pushedValue, OP_PUSHDATA1, OP_1NEGATE, OP_1 in *.
    by rewrite (proj2 (Z.eqb_neq _ _)), (proj2 (Z.leb_gt _ _)) by lia.
Qed.

(** addData appends the canonical token, of canonicalDataSize bytes. *)
Lemma addData_spec data b : bytes_ok data -> Zlen data < 2 ^ 31 ->
  addData data b = append (printToken (canonicalToken data)) b /\
  token_ok (canonicalToken data) /\ Zlen (printToken (canonicalToken data)) = canonicalDataSize data /\
  isCanonicalPush (canonicalToken data).1 (canonicalToken data).2 = true.
Proof.
  intros Hb Hlen. destruct data as [|x [|y data]]; [by split_and!| |].
  - apply Forall_inv in Hb as Hx. unfold byte_ok in Hx. unfold addData, canonicalDataSize, canonicalToken.
    change (Zlen [x]) with 1. cbn [nth]. cbn [Z.eqb Pos.eqb orb andb].
    change (1 =? 0) with false. change (1 =? 1) with true. cbn [orb andb].
    destruct (Z.eqb_spec x 0) as [->|Hx0]; [by split_and!|].
    destruct (Z.leb_spec x 16).
    { unfold OP_1. rewrite u8_small by lia.
      assert (Hl : opcodeLength (0x51 - 1 + x) = 1).
      { unfold opcodeLength, OP_DATA_1, OP_PUSHDATA1, OP_PUSHDATA2, OP_PUSHDATA4.
        rewrite (proj2 (Z.ltb_ge _ _)), andb_false_r, !(proj2 (Z.eqb_neq _ _)) by lia. done. }
      unfold printToken, token_ok. rewrite Hl. split_and!; [done..|].
      unfold isCanonicalPush, OP_16, OP_PUSHDATA1, OP_PUSHDATA2, OP_PUSHDATA4. cbn [fst snd].
      rewrite (proj2 (Z.ltb_ge 0x60 _)), (proj2 (Z.ltb_ge (0x51 - 1 + x) 0x4c)) by lia. cbn [andb].
      by rewrite !(proj2 (Z.eqb_neq (0x51 - 1 + x) _)) by lia. }
    destruct (Z.eqb_spec x 0x81) as [->|]; [by split_and!|].
    change (1 <? OP_PUSHDATA1) with true. cbv iota.
    split_and!; [unfold append; cbn; by rewrite <- app_assoc|done..|]. unfold isCanonicalPush. cbn [fst snd nth]. change (Zlen [x]) with 1.
    rewrite (proj2 (Z.leb_gt _ _)) by lia. done.
  - set (d := x :: y :: data) in *. assert (H2 : 2 <= Zlen d) by (unfold d; len_lia).
    unfold addData, canonicalDataSize.
    change (canonicalToken d) with
      (if Zlen d <? OP_PUSHDATA1 then (Zlen d, d) else if Zlen d <=? 0xff then (OP_PUSHDATA1, d)
       else if Zlen d <=? 0xffff then (OP_PUSHDATA2, d) else (OP_PUSHDATA4, d)).
    rewrite !(proj2 (Z.eqb_neq (Zlen d) _)) by lia. cbn [orb andb].
    unfold OP_PUSHDATA1. destruct (Z.ltb_spec (Zlen d) 0x4c).
    { assert (Hl : opcodeLength (Zlen d) = Zlen d + 1).
      { unfold opcodeLength, OP_DATA_1, OP_PUSHDATA1.
        by rewrite (proj2 (Z.leb_le _ _)), (proj2 (Z.ltb_lt _ _)) by lia. }
      unfold printToken, token_ok, isCanonicalPush. cbn [fst snd]. rewrite Hl.
      rewrite (proj2 (Z.ltb_ge _ 0)) by lia. unfold OP_DATA_1. rewrite u8_small by lia.
      split_and!; [|lia|len_lia|].
      - unfold append. cbn [b_script b_err]. rewrite <- app_assoc. done.
      - unfold OP_16, OP_PUSHDATA1, OP_PUSHDATA2, OP_PUSHDATA4, OP_0.
        rewrite (proj2 (Z.ltb_ge 0x60 _)), (proj2 (Z.eqb_neq (Zlen d) 1)) by lia.
        rewrite !(proj2 (Z.eqb_neq (Zlen d) _)) by lia. by rewrite !andb_false_r. }
    assert (Happ : forall hd, append d (append hd b) = append (hd ++ d) b)
      by (intros; unfold append; cbn [b_script b_err]; by rewrite app_assoc).
    destruct (Z.leb_spec (Zlen d) 0xff); [|destruct (Z.leb_spec (Zlen d) 0xffff)];
      rewrite Happ; split_and!.
    all: unfold token_ok, printToken;
      try match goal with |- context [opcodeLength ?op] =>
        let v := eval vm_compute in (opcodeLength op) in change (opcodeLength op) with v;
        change (v <? 0) with true; cbv iota end.
    all: try lia.
    all: try (rewrite Zlen_cons, Zlen_app, Zlen_le_bytes; lia).
    + change (Z.to_nat (- (-1))) with 1%nat. cbn [le_bytes]. by rewrite u8_small, Z.mod_small by lia.
    + unfold isCanonicalPush, OP_PUSHDATA1. cbn [fst snd]. by rewrite (proj2 (Z.ltb_ge (Zlen d) 76)) by lia.
    + by rewrite u16_small by lia.
    + unfold isCanonicalPush. cbn [fst snd]. by rewrite (proj2 (Z.leb_gt (Zlen d) 255)) by lia.
    + by rewrite u32_small by lia.
    + unfold isCanonicalPush. cbn [fst snd]. by rewrite (proj2 (Z.leb_gt (Zlen d) 65535)) by lia.
Qed.

(** ** Building a script step by step *)
Inductive buildStep := BOp (op : Z) | BData (data : list Z) | BInt (val : Z).

Definition runStep (st : buildStep) (b : ScriptBuilder) : outcome ErrorCode ScriptBuilder :=
  match st with
  | BOp op => Ok (AddOp op b)
  | BData data => Ok (AddData data b)
  | BInt val => AddInt64 val b
  end.

Fixpoint build (steps : list buildStep) (b : ScriptBuilder) : outcome ErrorCode ScriptBuilder :=
  match steps with
  | [] => Ok b
  | st :: steps => b ← runStep st b; build steps b
  end.

Definition numBytes (n : Z) : list Z := match Bytes n with Ok v => v | _ => [] end.

Definition stepToken (st : buildStep) : token :=
  match st with
  | BOp op => (op, [])
  | BData data => canonicalToken data
  | BInt n => canonicalToken (numBytes n)
  end.

Definition step_ok (st : buildStep) : Prop :=
  match st with
  | BOp op => byte_ok op /\ opcodeLength op = 1
  | BData data => bytes_ok data /\ Zlen data < 2 ^ 31
  | BInt n => - 2 ^ 63 < n < 2 ^ 63
  end.

(** Only AddData limits the size of an element. *)
Definition small_step (st : buildStep) : Prop :=
  match st with BData data => Zlen data <= MaxScriptElementSize | _ => True end.

#[export] Instance small_step_dec st : Decision (small_step st).
Proof. destruct st; apply _. Defined.

Lemma printToken_pos tk : 0 < Zlen (printToken tk).
Proof. destruct tk. unfold printToken. rewrite Zlen_cons. len_lia. Qed.

Lemma small_numBytes n : 1 <= n <= 16 -> numBytes n = [n].
Proof.
  intros Hn.
  assert (H : forall n, byte_ok n -> implb ((1 <=? n) && (n <=? 16)) (bool_decide (numBytes n = [n])) = true)
    by (apply (byte_cases (fun n => implb ((1 <=? n) && (n <=? 16)) (bool_decide (numBytes n = [n]))));
        by vm_compute).
  specialize (H n ltac:(unfold byte_ok; lia)).
  rewrite !(proj2 (Z.leb_le _ _)) in H by lia. cbn [andb implb] in H. by apply bool_decide_eq_true in H.
Qed.

Lemma runStep_spec st b : step_ok st -> b_err b = None ->
  runStep st b =
    Ok (if decide (Zlen (b_script b) + Zlen (printToken (stepToken st)) <= MaxScriptSize /\ small_step st)
        then append (printToken (stepToken st)) b else notCanonical b) /\ token_ok (stepToken st).
Proof.
  assert (Hdata : forall data, bytes_ok data -> Zlen data < 2 ^ 31 -> b_err b = None ->
    AddData data b = if decide (Zlen (b_script b) + Zlen (printToken (canonicalToken data)) <= MaxScriptSize
                                /\ Zlen data <= MaxScriptElementSize)
                     then append (printToken (canonicalToken data)) b else notCanonical b).
  { intros data Hb Hl He. destruct (addData_spec data b Hb Hl) as (Hadd & _ & Hs & _).
    unfold AddData. rewrite He, Hs.
    destruct (Z.ltb_spec MaxScriptSize (Zlen (b_script b) + canonicalDataSize data));
      [by rewrite decide_False by lia|].
    destruct (Z.ltb_spec MaxScriptElementSize (Zlen data)); [by rewrite decide_False by lia|].
    by rewrite decide_True by lia. }
  destruct st as [op|data|n]; cbn [runStep stepToken step_ok small_step]; intros Hok He.
  - destruct Hok as [Hop Hl]. unfold printToken, token_ok. rewrite Hl. split; [|done].
    unfold AddOp. rewrite He. change (1 <? 0) with false. cbv iota. cbn [app]. change (Zlen [op]) with 1.
    destruct (Z.ltb_spec MaxScriptSize (Zlen (b_script b) + 1));
      [by rewrite decide_False by lia|by rewrite decide_True by (split; [lia|done])].
  - destruct Hok as [Hb Hl]. rewrite Hdata by done. split; [done|]. by apply (addData_spec data b).
  - destruct (Bytes_total n Hok) as (v & Hv & Hvb & Hvl).
    assert (Hnv : numBytes n = v) by (unfold numBytes; by rewrite Hv). rewrite Hnv.
    destruct (addData_spec v b Hvb ltac:(lia)) as (_ & Htok & Hsize & _). split; [|done].
    pose proof (printToken_pos (canonicalToken v)) as Hpos.
    unfold AddInt64. rewrite He.
    destruct (Z.ltb_spec MaxScriptSize (Zlen (b_script b) + 1)) as [Hover|Hunder];
      [by rewrite decide_False by lia|].
    destruct (Z.eqb_spec n 0) as [->|Hnz].
    { injection Hv as <-. change (Zlen (printToken (canonicalToken []))) with 1.
      by rewrite decide_True by (split; [lia|done]). }
    destruct ((n =? -1) || ((1 <=? n) && (n <=? 16))) eqn:Hsmall.
    + assert (Hn : n = -1 \/ 1 <= n <= 16) by lia.
      destruct Hn as [->|Hn].
      * assert (v = [129]) as -> by (vm_compute in Hv; congruence).
        change (Zlen (printToken (canonicalToken [129]))) with 1.
        by rewrite decide_True by (split; [lia|done]).
      * rewrite small_numBytes in Hnv by done. subst v. unfold canonicalToken in *.
        rewrite (proj2 (Z.eqb_neq n 0)), (proj2 (Z.leb_le n 16)) in * by lia.
        assert (Hlen : opcodeLength (OP_1 - 1 + n) = 1).
        { unfold opcodeLength, OP_1, OP_DATA_1, OP_PUSHDATA1, OP_PUSHDATA2, OP_PUSHDATA4.
          rewrite (proj2 (Z.ltb_ge _ 0x4c)), andb_false_r, !(proj2 (Z.eqb_neq _ _)) by lia. done. }
        unfold printToken. rewrite Hlen. change (1 <? 0) with false. cbv iota. cbn [app].
        change (Zlen [OP_1 - 1 + n]) with 1. rewrite decide_True by (split; [lia|done]).
        by rewrite u8_small by (unfold OP_1; lia).
    + rewrite Hv. cbn [mbind outcome_bind]. rewrite Hdata by (done || lia).
      unfold mret, outcome_ret. f_equal.
      destruct (decide (Zlen (b_script b) + Zlen (printToken (canonicalToken v)) <= MaxScriptSize)).
      * rewrite !decide_True by (split; [lia|unfold MaxScriptElementSize; done || lia]). done.
      * rewrite !decide_False by tauto. done.
Qed.

Lemma runStep_err st b e : b_err b = Some e -> runStep st b = Ok b.
Proof. intros He. destruct st; cbn; unfold AddOp, AddData, AddInt64; by rewrite He. Qed.

Lemma build_err steps b e : b_err b = Some e -> build steps b = Ok b.
Proof.
  intros He. induction steps as [|st steps IH]; [done|]. cbn [build]. rewrite (runStep_err st b e He).
  exact IH.
Qed.

Lemma build_spec steps b : Forall step_ok steps -> b_err b = None -> Zlen (b_script b) <= MaxScriptSize ->
  Forall token_ok (stepToken <$> steps) /\
  exists b', build steps b = Ok b' /\
    if decide (Zlen (b_script b) + Zlen (printTokens (stepToken <$> steps)) <= MaxScriptSize /\
               Forall small_step steps)
    then b' = append (printTokens (stepToken <$> steps)) b
    else b_err b' = Some ErrScriptNotCanonical /\ Zlen (b_script b') <= MaxScriptSize.
Proof.
  intros Hok. revert b. induction Hok as [|st steps Hst Hok IH]; intros b He Hl.
  - split; [apply Forall_nil_2|]. exists b. split; [done|]. cbn. rewrite Zlen_nil.
    rewrite decide_True by (split; [lia|done]). unfold append. rewrite app_nil_r. by destruct b.
  - rewrite !fmap_cons. cbn [concat build]. rewrite Zlen_app.
    destruct (runStep_spec st b Hst He) as [-> Htok]. cbn [mbind outcome_bind].
    destruct (decide (Zlen (b_script b) + Zlen (printToken (stepToken st)) <= MaxScriptSize /\ small_step st))
      as [[Hsz Hsm]|Hno].
    + destruct (IH (append (printToken (stepToken st)) b)) as (Htoks & b' & Hb' & Hr);
        [done|unfold append; cbn; rewrite Zlen_app; lia|].
      split; [by apply Forall_cons_2|]. exists b'. split; [done|].
      assert (Hlen : Zlen (b_script (append (printToken (stepToken st)) b))
                     = Zlen (b_script b) + Zlen (printToken (stepToken st))) by apply Zlen_app.
      match type of Hr with context [decide ?P] => destruct (decide P) as [[Ha Hb]|Hn] end;
        rewrite Hlen in *.
      * rewrite decide_True by (split; [lia|by apply Forall_cons_2]).
        rewrite Hr. unfold append. cbn. by rewrite app_assoc.
      * rewrite decide_False; [done|]. intros [Ha Hb]. apply Hn.
        split; [lia|]. by apply list.Forall_cons in Hb as [_ Hb].
    + destruct (IH b He Hl) as [Htoks _]. split; [by apply Forall_cons_2|].
      rewrite (build_err steps _ ErrScriptNotCanonical) by done. exists (notCanonical b). split; [done|].
      rewrite decide_False; [done|]. intros [Ha Hb]. apply Hno.
      apply list.Forall_cons in Hb as [Hb1 Hb2].
      pose proof (Zlen_nonneg (printTokens (stepToken <$> steps))). split; [lia|done].
Qed.

(** ** Witness programs *)
Definition versionOpcode (v : Z) : Z := if v =? 0 then OP_0 else OP_1 - 1 + v.

Lemma opcodeLength_direct k : 1 <= k < OP_PUSHDATA1 -> opcodeLength k = k + 1.
Proof.
  unfold OP_PUSHDATA1. intros Hk. unfold opcodeLength, OP_DATA_1, OP_PUSHDATA1.
  by rewrite (proj2 (Z.leb_le _ _)), (proj2 (Z.ltb_lt _ _)) by lia.
Qed.

Lemma IsSmallInt_length op : byte_ok op -> IsSmallInt op = true ->
  opcodeLength op = 1 /\ 0 <= AsSmallInt op <= 16 /\ op = versionOpcode (AsSmallInt op).
Proof.
  intros Hb Hs.
  assert (H : forall op, byte_ok op -> implb (IsSmallInt op) ((opcodeLength op =? 1) && (0 <=? AsSmallInt op)
     && (AsSmallInt op <=? 16) && (op =? versionOpcode (AsSmallInt op))) = true)
    by (apply (byte_cases (fun op => implb (IsSmallInt op) ((opcodeLength op =? 1) && (0 <=? AsSmallInt op)
     && (AsSmallInt op <=? 16) && (op =? versionOpcode (AsSmallInt op))))); by vm_compute).
  specialize (H op Hb). rewrite Hs in H. cbn [implb] in H. lia.
Qed.

Lemma versionOpcode_small v : 0 <= v <= 16 ->
  IsSmallInt (versionOpcode v) = true /\ AsSmallInt (versionOpcode v) = v /\ opcodeLength (versionOpcode v) = 1.
Proof.
  intros Hv.
  assert (H : forall v, byte_ok v -> implb (v <=? 16) (IsSmallInt (versionOpcode v)
     && (AsSmallInt (versionOpcode v) =? v) && (opcodeLength (versionOpcode v) =? 1)) = true)
    by (apply (byte_cases (fun v => implb (v <=? 16) (IsSmallInt (versionOpcode v)
     && (AsSmallInt (versionOpcode v) =? v) && (opcodeLength (versionOpcode v) =? 1)))); by vm_compute).
  specialize (H v ltac:(unfold byte_ok; lia)). rewrite (proj2 (Z.leb_le _ _)) in H by lia.
  cbn [implb] in H. rewrite !andb_true_iff, !Z.eqb_eq in H. tauto.
Qed.

Lemma Opcode_advance t tk : Opcode (advance t tk) = Ok tk.1.
Proof. done. Qed.

(** The second token of a witness program is a direct push. *)
Lemma canonical_push_token tk : token_ok tk -> 0 <= tk.1 -> isCanonicalPush tk.1 tk.2 = true ->
  3 <= Zlen (printToken tk) <= 41 -> tk.1 = Zlen tk.2 /\ printToken tk = Zlen tk.2 :: tk.2.
Proof.
  destruct tk as [op data]. cbn [fst snd]. intros Hok Hop Hcan Hlen.
  unfold token_ok, printToken in *. pose proof (opcodeLength_cases op) as Hcases.
  destruct (Z.ltb_spec (opcodeLength op) 0) as [Hneg|Hpos].
  - assert (Hdata : Zlen data < 0x4c) by (rewrite Zlen_cons, Zlen_app, Zlen_le_bytes in Hlen; lia).
    assert (Hk : op = OP_PUSHDATA1 \/ op = OP_PUSHDATA2 \/ op = OP_PUSHDATA4).
    { unfold opcodeLength in Hneg.
      destruct (_ && _) eqn:Hd; [unfold OP_DATA_1 in Hd; lia|].
      destruct (Z.eqb_spec op OP_PUSHDATA1), (Z.eqb_spec op OP_PUSHDATA2), (Z.eqb_spec op OP_PUSHDATA4);
        (tauto || lia). }
    exfalso. unfold isCanonicalPush, OP_PUSHDATA1 in *. destruct Hk as [->|[->| ->]]; cbn in Hcan.
    + rewrite (proj2 (Z.ltb_lt (Zlen data) 76)) in Hcan by lia. done.
    + rewrite (proj2 (Z.leb_le (Zlen data) 255)) in Hcan by lia. done.
    + rewrite (proj2 (Z.leb_le (Zlen data) 65535)) in Hcan by lia. done.
  - rewrite Zlen_cons in Hlen. cbn [app] in *.
    assert (Hd : OP_DATA_1 <= op < OP_PUSHDATA1).
    { unfold opcodeLength in *. destruct (_ && _) eqn:Hd; [lia|]. repeat case_match; lia. }
    unfold OP_DATA_1 in Hd. rewrite opcodeLength_direct in Hok by lia.
    assert (op = Zlen data) as -> by lia. done.
Qed.

Lemma extractWitnessProgramInfo_spec script : bytes_ok script ->
  exists r, extractWitnessProgramInfo script = Ok r /\
    forall v p, r = Some (v, p) <->
      0 <= v <= 16 /\ 2 <= Zlen p <= 40 /\ script = versionOpcode v :: Zlen p :: p.
Proof.
  intros Hb. unfold extractWitnessProgramInfo.
  destruct ((Zlen script <? 4) || (42 <? Zlen script)) eqn:Hsz.
  { exists None. split; [done|]. intros v p. split; [done|]. intros (_ & Hp & ->). exfalso.
    rewrite !Zlen_cons in Hsz. lia. }
  destruct script as [|op l]; [done|]. rewrite Zlen_cons in Hsz.
  apply list.Forall_cons in Hb as Hb'. destruct Hb' as [Hop Hl].
  assert (Hat : at_ (MakeScriptTokenizer 0 (op :: l)) [] (op :: l))
    by (split_and!; [done..|cbn; rewrite Zlen_cons; lia|done]).
  destruct (firstToken (op :: l)) as [[tk rest]|] eqn:Hft.
  2: { rewrite (Next_malformed _ _ _ _ Hat Hft). cbn [mbind outcome_bind negb]. exists None. split; [done|].
    intros v p. split; [done|]. intros (Hv & Hp & Heq). injection Heq as -> _.
    destruct (versionOpcode_small v Hv) as (_ & _ & Hlen). cbn [firstToken] in Hft. rewrite Hlen in Hft.
    change (1 <? 0) with false in Hft. cbv iota in Hft. rewrite (proj2 (Z.ltb_ge _ _)) in Hft by len_lia. done. }
  rewrite (Next_token _ _ _ _ _ Hat Hft). cbn [mbind outcome_bind negb].
  rewrite Opcode_advance. cbn [mbind outcome_bind].
  destruct (firstToken_some _ _ _ Hb Hft) as (Heq & Htok & Hbr & _).
  assert (Hop1 : tk.1 = op) by (destruct tk; unfold printToken in Heq; cbn in Heq; by injection Heq).
  rewrite Hop1. destruct (IsSmallInt op) eqn:Hsmall; cbn [negb].
  2: { exists None. split; [done|]. intros v p. split; [done|]. intros (Hv & Hp & Heq'). injection Heq' as -> _.
    destruct (versionOpcode_small v Hv) as (Hs & _). congruence. }
  destruct (IsSmallInt_length op Hop Hsmall) as (Hlen1 & Hver & Hopv).
  assert (Htk : tk = (op, []) /\ rest = l).
  { destruct tk as [op' data]. cbn in Hop1. subst op'. unfold token_ok in Htok. rewrite Hlen1 in Htok.
    change (1 <? 0) with false in Htok. cbv iota in Htok.
    assert (data = []) as -> by (destruct data; [done|rewrite Zlen_cons in Htok; len_lia]).
    unfold printToken in Heq. rewrite Hlen1 in Heq. cbn in Heq. by injection Heq as ->. }
  destruct Htk as [-> ->].
  pose proof (at_advance _ [] (op, []) l ltac:(rewrite <- Heq; exact Hat)) as Hat1. clear Hat.
  set (t1 := advance (MakeScriptTokenizer 0 (op :: l)) (op, [])) in *.
  destruct l as [|b l']; [unfold Zlen in Hsz; simpl in Hsz; lia|].
  destruct (firstToken (b :: l')) as [[tk rest']|] eqn:Hft2.
  2: { rewrite (Next_malformed _ _ _ _ Hat1 Hft2). cbn [mbind outcome_bind negb]. exists None. split; [done|].
    intros v p. split; [done|]. intros (Hv & Hp & Heq'). injection Heq' as -> -> ->. exfalso.
    cbn [firstToken] in Hft2. rewrite opcodeLength_direct in Hft2 by (unfold OP_PUSHDATA1; lia).
    rewrite !(proj2 (Z.ltb_ge _ _)) in Hft2 by lia. done. }
  destruct (firstToken_some _ _ _ Hl Hft2) as (Heq2 & Htok2 & Hbr' & _).
  rewrite (Next_token _ _ _ _ _ Hat1 Hft2). cbn [mbind outcome_bind negb].
  rewrite Opcode_advance. cbn [mbind outcome_bind]. change (Data (advance t1 tk)) with tk.2.
  rewrite Heq2 in Hat1. apply at_advance in Hat1 as Hat. set (t2 := advance t1 tk) in *.
  match goal with |- context [Done t2 && ?b] => assert (Hdone : Done t2 && b = bool_decide (rest' = [])) end.
  { destruct Hat as (Hs & Ho & He & Hl2 & _).
    rewrite (bool_decide_eq_true_2 (t_err t2 = None)) by done. rewrite andb_true_r. unfold Done.
    rewrite (bool_decide_eq_false_2 (is_Some (t_err t2))) by (rewrite He; by apply is_Some_None). cbn [orb].
    rewrite i32_small by len_lia. rewrite Hs, Ho, !Zlen_app.
    destruct rest' as [|z r'].
    - rewrite bool_decide_eq_true_2 by done. apply Z.leb_le. rewrite Zlen_nil. lia.
    - rewrite bool_decide_eq_false_2 by done. apply Z.leb_gt. rewrite Zlen_cons. len_lia. }
  rewrite Hdone.
  assert (Hprog : forall v p, op :: b :: l' = versionOpcode v :: Zlen p :: p -> 0 <= v <= 16 -> 2 <= Zlen p <= 40 ->
    v = AsSmallInt op /\ tk = (Zlen p, p) /\ rest' = []).
  { intros v p Heq' Hv Hp. injection Heq' as Hv' -> ->. destruct (versionOpcode_small v Hv) as (_ & Has & _).
    rewrite <- Hv' in Has. split; [done|]. cbn [firstToken] in Hft2.
    rewrite opcodeLength_direct in Hft2 by (unfold OP_PUSHDATA1; lia).
    rewrite !(proj2 (Z.ltb_ge _ _)) in Hft2 by lia.
    replace (Z.to_nat (Zlen p + 1 - 1)) with (length p) in Hft2 by (unfold Zlen; lia).
    rewrite take_ge, drop_ge in Hft2 by done. by injection Hft2 as <- <-. }
  destruct (isCanonicalPush tk.1 tk.2) eqn:Hcan; cbn [negb].
  2: { exists None. split; [done|]. intros v p. split; [done|]. intros (Hv & Hp & Heq').
    destruct (Hprog v p Heq' Hv Hp) as (_ & -> & _). cbn [fst snd] in Hcan. exfalso. revert Hcan.
    unfold isCanonicalPush, OP_16, OP_PUSHDATA1, OP_PUSHDATA2, OP_PUSHDATA4.
    rewrite (proj2 (Z.ltb_ge 0x60 _)), (proj2 (Z.eqb_neq (Zlen p) 1)) by lia.
    rewrite !(proj2 (Z.eqb_neq (Zlen p) _)) by lia. by rewrite !andb_false_r. }
  eexists. split; [done|]. intros v p. split.
  - destruct (bool_decide_reflect (rest' = [])) as [Hr|]; [|done]. intros Hsome. injection Hsome as <- <-. subst rest'.
    rewrite app_nil_r in Heq2.
    destruct (canonical_push_token tk) as [Hk Hpr]; [done| |done| |].
    { apply list.Forall_cons in Hl as [Hb0 _]. destruct tk. unfold printToken in Heq2. cbn [app] in Heq2. injection Heq2 as <- _.
      unfold byte_ok in Hb0. cbn. lia. }
    { rewrite <- Heq2. lia. }
    rewrite Hpr in Heq2. injection Heq2 as -> ->. split_and!; [lia|lia|len_lia|len_lia|].
    by rewrite <- Hopv.
  - intros (Hv & Hp & Heq'). destruct (Hprog v p Heq' Hv Hp) as (-> & -> & ->). done.
Qed.

(** ** Theorems *)

(** A script built from opcodes, data pushes and integers is, when it
    fits in 10000 bytes and no data exceeds 520, exactly the tokens that were
    asked for, each push in its canonical form, so that it parses back to
    them; otherwise Script reports the error.  A pushed number is on the stack
    as its script number, and pushed data is on it as it is, except that the
    single byte 0 is pushed as the empty array. *)
Theorem builder_builds steps (Hok : Forall step_ok steps) :
  exists b, build steps NewScriptBuilder = Ok b /\
    if decide (Zlen (printTokens (stepToken <$> steps)) <= MaxScriptSize /\ Forall small_step steps)
    then Script b = Ok (printTokens (stepToken <$> steps)) /\
         parse (printTokens (stepToken <$> steps)) = (stepToken <$> steps, true) /\
         forall st, st ∈ steps ->
           match st with
           | BOp _ => True
           | BData data => pushedValue (stepToken st) = if bool_decide (data = [0]) then [] else data
           | BInt n => Bytes n = Ok (pushedValue (stepToken st))
           end
    else Script b = Err NotScriptError.
Proof.
  destruct (build_spec steps NewScriptBuilder Hok eq_refl ltac:(done)) as (Htoks & b & Hb & Hr).
  exists b. split; [done|]. change (Zlen (b_script NewScriptBuilder)) with 0 in Hr. rewrite Z.add_0_l in Hr.
  destruct (decide _).
  - rewrite Hr. split_and!; [done|by apply parse_print|]. intros st Hin.
    rewrite list.Forall_forall in Hok. specialize (Hok st Hin). destruct st as [op|data|n]; [done| |].
    + destruct Hok. by apply pushedValue_canonical.
    + cbn [stepToken step_ok] in *. destruct (Bytes_total n Hok) as (v & Hv & Hvb & _). unfold numBytes.
      rewrite Hv, pushedValue_canonical by done. rewrite bool_decide_eq_false_2; [done|]. intros ->.
      destruct (Z.eq_dec n 0) as [->|Hn]; [done|].
      destruct (Bytes_spec n Hok Hn) as (init & t & Hib & Ht & _ & Hs). rewrite Hs in Hv. injection Hv as Hv.
      unfold signed in Hv. destruct (Z.leb_spec 128 t).
      * apply (f_equal length) in Hv. rewrite length_app in Hv. simpl in Hv. lia.
      * destruct init as [|i init]; [|apply (f_equal length) in Hv; simpl in Hv; rewrite length_app in Hv; simpl in Hv; lia].
        cbn in Hv. injection Hv as Hv. destruct (n <? 0); lia.
  - destruct Hr as [He _]. unfold Script. by rewrite He.
Qed.

(** A direct push appended to a short script. *)
Lemma AddData_direct h b : 2 <= Zlen h <= 75 -> b_err b = None -> Zlen (b_script b) <= 9000 ->
  AddData h b = append (Zlen h :: h) b.
Proof.
  intros Hh He Hl. unfold AddData, addData, canonicalDataSize, MaxScriptSize, MaxScriptElementSize, OP_PUSHDATA1.
  rewrite He, !(proj2 (Z.eqb_neq (Zlen h) _)) by lia. cbn [orb andb].
  rewrite !(proj2 (Z.ltb_lt (Zlen h) 0x4c)), !(proj2 (Z.ltb_ge _ _)) by lia.
  rewrite u8_small by (unfold OP_DATA_1; lia). unfold append. cbn [b_script b_err].
  rewrite <- app_assoc. unfold OP_DATA_1. replace (1 - 1 + Zlen h) with (Zlen h) by lia. done.
Qed.

Lemma AddOp_short op b : b_err b = None -> Zlen (b_script b) <= 9000 -> AddOp op b = append [op] b.
Proof.
  intros He Hl. unfold AddOp, MaxScriptSize. by rewrite He, (proj2 (Z.ltb_ge _ _)) by lia.
Qed.

(** The script of a pay-to-pubkey-hash output. *)
Definition p2pkh (h : list Z) : list Z :=
  [OP_DUP; OP_HASH160; OP_DATA_20] ++ h ++ [OP_EQUALVERIFY; OP_CHECKSIG].

Lemma payToPubKeyHashScript_spec h : Zlen h = 20 -> payToPubKeyHashScript h = Ok (p2pkh h).
Proof.
  intros Hh. unfold payToPubKeyHashScript.
  rewrite (AddOp_short OP_DUP), (AddOp_short OP_HASH160) by done.
  rewrite AddData_direct by (rewrite ?Hh; done || lia). rewrite Hh.
  rewrite (AddOp_short OP_EQUALVERIFY) by (cbn; rewrite ?Zlen_cons, ?Hh; done || lia).
  rewrite (AddOp_short OP_CHECKSIG) by (cbn; rewrite ?Zlen_cons, ?Zlen_app, ?Hh; done || lia).
  unfold Script, append, p2pkh. cbn. by rewrite <- app_assoc.
Qed.

(** The templates of standard.go and the code that recognises them
    agree: a script is recognised as pay-to-script-hash exactly when it is
    built for some 20-byte hash, and a witness output built for a program of
    2 to 40 bytes is recognised with its version and program, while anything
    recognised as a witness program is such a script. *)
Theorem templates_recognised script v p (Hs : bytes_ok script) (Hp : bytes_ok p) :
  (isScriptHashScript script = true <-> exists h, Zlen h = 20 /\ payToScriptHashScript h = Ok script) /\
  (extractWitnessProgramInfo script = Ok (Some (v, p)) <->
     0 <= v <= 16 /\ 2 <= Zlen p <= 40 /\ script = versionOpcode v :: Zlen p :: p) /\
  (2 <= Zlen p <= 40 ->
     payToWitnessPubKeyHashScript p = Ok (versionOpcode 0 :: Zlen p :: p) /\
     payToWitnessScriptHashScript p = Ok (versionOpcode 0 :: Zlen p :: p) /\
     payToWitnessTaprootScript p = Ok (versionOpcode 1 :: Zlen p :: p)).
Proof.
  split_and!.
  - assert (Hpay : forall h, Zlen h = 20 ->
      payToScriptHashScript h = Ok (OP_HASH160 :: OP_DATA_20 :: h ++ [OP_EQUAL])).
    { intros h Hh. unfold payToScriptHashScript. rewrite AddData_direct; [|lia|done|done].
      rewrite Hh. change (AddOp OP_HASH160 NewScriptBuilder) with (mkBuilder [OP_HASH160] None).
      unfold AddOp, append, MaxScriptSize. cbn [b_err b_script app].
      by rewrite (proj2 (Z.ltb_ge _ _)) by (rewrite !Zlen_cons; lia). }
    split.
    + unfold isScriptHashScript. rewrite !andb_true_iff, !Z.eqb_eq. intros [[[Hl H0] H1] H22].
      destruct script as [|a [|b l]]; [unfold Zlen in Hl; simpl in Hl; lia..|].
      cbn [nth] in H0, H1. subst a b. rewrite !Zlen_cons in Hl.
      destruct l as [|x l' _] using rev_ind; [unfold Zlen in Hl; simpl in Hl; lia|].
      rewrite Zlen_app in Hl. change (Zlen [x]) with 1 in Hl.
      assert (x = OP_EQUAL) as ->.
      { rewrite <- H22. cbn [nth]. rewrite app_nth2 by (unfold Zlen in Hl; lia).
        by replace (20 - length l')%nat with 0%nat by (unfold Zlen in Hl; lia). }
      exists l'. split; [lia|]. apply Hpay. lia.
    + intros (h & Hh & Hscr). rewrite Hpay in Hscr by done. injection Hscr as <-.
      unfold isScriptHashScript. rewrite !Zlen_cons, Zlen_app, Hh. cbn [nth].
      rewrite app_nth2 by (unfold Zlen in Hh; lia).
      by replace (20 - length h)%nat with 0%nat by (unfold Zlen in Hh; lia).
  - destruct (extractWitnessProgramInfo_spec script Hs) as (r & -> & Hr). rewrite <- Hr.
    split; [intros [= ->]; done|by intros ->].
  - intros Hlen. unfold payToWitnessPubKeyHashScript, payToWitnessScriptHashScript, payToWitnessTaprootScript.
    rewrite !AddData_direct; [done|..]; (done || lia).
Qed.

Module Toy.

(** OP_DUP, three bytes, the byte 0, 1000 and 5. *)
Definition steps : list buildStep := [BOp OP_DUP; BData [7; 8; 9]; BData [0]; BInt 1000; BInt 5].

Lemma builder_builds_witness :
  exists b, build steps NewScriptBuilder = Ok b /\
    Script b = Ok [0x76; 3; 7; 8; 9; 0; 2; 0xe8; 3; 0x55] /\
    pushedValue (stepToken (BData [0])) = [].
Proof.
  destruct (builder_builds steps) as (b & Hb & Hr).
  { repeat apply Forall_cons_2; [by split|split; [apply (bool_decide_unpack _); reflexivity|done]..|done|done|
      apply Forall_nil_2]. }
  rewrite decide_True in Hr.
  - destruct Hr as (Hs & _ & Hv). exists b. split; [exact Hb|]. split; [exact Hs|].
    apply (Hv (BData [0])). apply list_elem_of_In. right; right; left; reflexivity.
  - split; [by vm_compute|]. apply (bool_decide_unpack _). reflexivity.
Defined.

Definition hash : list Z := replicate 20 7.

Lemma templates_recognised_witness :
  isScriptHashScript (0xa9 :: 0x14 :: hash ++ [0x87]) = true /\
  payToWitnessPubKeyHashScript hash = Ok (0 :: 20 :: hash).
Proof.
  assert (Hb : bytes_ok (0xa9 :: 0x14 :: hash ++ [0x87])) by (apply (bool_decide_unpack _); reflexivity).
  assert (Hh : bytes_ok hash) by (apply (bool_decide_unpack _); reflexivity).
  destruct (templates_recognised (0xa9 :: 0x14 :: hash ++ [0x87]) 0 hash Hb Hh) as (H1 & _ & H3).
  split; [apply H1; exists hash; by split|apply H3; by vm_compute].
Defined.

End Toy.
End Builder.
