(* ===== verification/SigHash.v ===== *)
(** * Signature hashes

    Models coin/OrcaNet/txscript/sighash.go (the digests that legacy, segwit
    v0 and taproot signatures sign), the midstates of hashcache.go, and the
    hash combinations of coin/OrcaNet/chaincfg/chainhash.  The compression
    functions themselves (SHA-256, SHA-1, RIPEMD-160) are the class [Hashes].
    A hash.Hash that is written and summed is a function of the bytes
    written.  The shallow copy of the transaction makes the changes invisible
    to the caller, so the digest is a pure function. *)

From S2P Require Import Prelude ScriptNum Tokenizer Builder Wire.

Module SigHash.
Import ScriptNum Tokenizer Builder Wire.

(** The hash functions of the standard library and of x/crypto. *)
Class Hashes := {
  sha256 : list Z -> list Z;
  sha1 : list Z -> list Z;
  ripemd160 : list Z -> list Z;
}.

(** Their documented output sizes: 32, 20 and 20 bytes. *)
Class HashLaws (H : Hashes) : Prop := {
  sha256_len b : length (sha256 b) = 32%nat;
  sha256_bytes b : bytes_ok (sha256 b);
  sha1_len b : length (sha1 b) = 20%nat;
  sha1_bytes b : bytes_ok (sha1 b);
  ripemd160_len b : length (ripemd160 b) = 20%nat;
  ripemd160_bytes b : bytes_ok (ripemd160 b);
}.

Definition OP_CODESEPARATOR := 0xab.
Definition OP_DATA_32 := 0x20.
Definition SigHashDefault := 0x00.
Definition SigHashAll := 0x1.
Definition SigHashNone := 0x2.
Definition SigHashSingle := 0x3.
Definition SigHashAnyOneCanPay := 0x80.
Definition sigHashMask := 0x1f.
Definition blankCodeSepValue := 2 ^ 32 - 1.
Definition zeroHash : list Z := replicate 32 0.

Section Digests.
Context {H : Hashes}.

(** ** chainhash *)
Definition HashB (b : list Z) : list Z := sha256 b.
Definition DoubleHashB (b : list Z) : list Z := sha256 (sha256 b).

Definition tagBytes (s : string) : list Z :=
  (fun a => Z.of_nat (Ascii.nat_of_ascii a)) <$> String.list_ascii_of_string s.
Definition TagTapSighash : list Z := tagBytes "TapSighash".
Definition TagTapLeaf : list Z := tagBytes "TapLeaf".
Definition TagTapBranch : list Z := tagBytes "TapBranch".

Definition TaggedHash (tag msg : list Z) : list Z := sha256 (sha256 tag ++ sha256 tag ++ msg).

(** ** The legacy digest *)

(** The input scripts: the script at [idx], nothing elsewhere. *)
Definition setScripts (sigScript : list Z) (idx : Z) (ins : list TxIn) : list TxIn :=
  imap (fun i ti => mkTxIn (PreviousOutPoint ti)
                      (if Z.of_nat i =? idx then sigScript else []) (Witness ti) (Sequence ti)) ins.

(** Sequence 0 for every other input. *)
Definition clearSequences (idx : Z) (ins : list TxIn) : list TxIn :=
  imap (fun i ti => mkTxIn (PreviousOutPoint ti) (SignatureScript ti) (Witness ti)
                      (if Z.of_nat i =? idx then Sequence ti else 0)) ins.

(** All but the current output of the resized array. *)
Definition clearOutputs (idx : Z) (outs : list TxOut) : list TxOut :=
  imap (fun i to => if Z.of_nat i <? idx then mkTxOut (-1) [] else to) outs.

(** The modified copy that is serialized; nothing for the index-out-of-range
    case of SigHashSingle, which signs the hash 1. *)
Definition sigHashTx (sigScript : list Z) (hashType : Z) (tx : MsgTx) (idx : Z)
    : outcome ErrorCode (option MsgTx) :=
  if (Z.land hashType sigHashMask =? SigHashSingle) && (Zlen (TxOuts tx) <=? idx) then Ok None
  else
    sigScript ← removeOpcodeRaw sigScript OP_CODESEPARATOR;
    let ins := setScripts sigScript idx (TxIns tx) in
    '(ins, outs) ←
      (if Z.land hashType sigHashMask =? SigHashNone then mret (clearSequences idx ins, [])
       else if Z.land hashType sigHashMask =? SigHashSingle then
         outs ← slice (TxOuts tx) 0 (idx + 1);
         mret (clearSequences idx ins, clearOutputs idx outs)
       else mret (ins, TxOuts tx));
    ins ← (if negb (Z.land hashType SigHashAnyOneCanPay =? 0) then slice ins idx (idx + 1) else Ok ins);
    mret (Some (mkMsgTx (Version tx) ins outs (LockTime tx))).

(** What is hashed: the modified transaction and the hash type. *)
Definition sigHashPreimage (txCopy : MsgTx) (hashType : Z) : list Z :=
  SerializeNoWitness txCopy ++ le_bytes 4 (u32 hashType).

Definition calcSignatureHash (sigScript : list Z) (hashType : Z) (tx : MsgTx) (idx : Z)
    : outcome ErrorCode (list Z) :=
  txCopy ← sigHashTx sigScript hashType tx idx;
  mret match txCopy with
       | None => 0x01 :: replicate 31 0
       | Some txCopy => DoubleHashB (sigHashPreimage txCopy hashType)
       end.

(** ** Midstates *)
Definition calcHashPrevOuts (tx : MsgTx) : list Z :=
  HashB (concat ((fun ti => writeOutPoint (PreviousOutPoint ti)) <$> TxIns tx)).
Definition calcHashSequence (tx : MsgTx) : list Z :=
  HashB (concat ((fun ti => le_bytes 4 (Sequence ti)) <$> TxIns tx)).
Definition calcHashOutputs (tx : MsgTx) : list Z :=
  HashB (concat (WriteTxOut <$> TxOuts tx)).

Record TxSigHashes := mkTxSigHashes {
  HashPrevOutsV0 : list Z;
  HashSequenceV0 : list Z;
  HashOutputsV0 : list Z;
  HashPrevOutsV1 : list Z;
  HashSequenceV1 : list Z;
  HashOutputsV1 : list Z;
  HashInputScriptsV1 : list Z;
  HashInputAmountsV1 : list Z;
}.

(** A PrevOutputFetcher: FetchPrevOutput may return nil. *)
Context (FetchPrevOutput : OutPoint -> option TxOut).

Definition fetch (op : OutPoint) : outcome ErrorCode TxOut :=
  match FetchPrevOutput op with Some out => Ok out | None => Panic end.

Definition isWitnessTaprootScript (script : list Z) : bool :=
  (Zlen script =? 34) && (nth 0 script 0 =? OP_1) && (nth 1 script 0 =? OP_DATA_32).

Fixpoint scanInputs (ins : list TxIn) (hasV0Inputs hasV1Inputs : bool)
    : outcome ErrorCode (bool * bool) :=
  match ins with
  | [] => Ok (hasV0Inputs, hasV1Inputs)
  | txIn :: ins =>
      let outpoint := PreviousOutPoint txIn in
      if (Index outpoint =? MaxUint32) && bool_decide (Hash outpoint = zeroHash)
      then scanInputs ins true hasV1Inputs
      else
        prevOut ← fetch outpoint;
        let '(v0, v1) := if isWitnessTaprootScript (PkScript prevOut)
                         then (hasV0Inputs, true) else (true, hasV1Inputs) in
        if v0 && v1 then Ok (v0, v1) else scanInputs ins v0 v1
  end.

Fixpoint prevOuts (ins : list TxIn) : outcome ErrorCode (list TxOut) :=
  match ins with
  | [] => Ok []
  | txIn :: ins => out ← fetch (PreviousOutPoint txIn); outs ← prevOuts ins; mret (out :: outs)
  end.

Definition calcHashInputAmounts (tx : MsgTx) : outcome ErrorCode (list Z) :=
  outs ← prevOuts (TxIns tx); mret (HashB (concat ((fun o => le_bytes 8 (u64 (Value o))) <$> outs))).
Definition calcHashInputScripts (tx : MsgTx) : outcome ErrorCode (list Z) :=
  outs ← prevOuts (TxIns tx); mret (HashB (concat ((fun o => WriteVarBytes (PkScript o)) <$> outs))).

Definition NewTxSigHashes (tx : MsgTx) : outcome ErrorCode TxSigHashes :=
  '(hasV0Inputs, hasV1Inputs) ← scanInputs (TxIns tx) false false;
  let prevs := calcHashPrevOuts tx in
  let seqs := calcHashSequence tx in
  let outs := calcHashOutputs tx in
  let v0 := fun h : list Z => if hasV0Inputs : bool then HashB h else zeroHash in
  amounts ← (if hasV1Inputs : bool then calcHashInputAmounts tx else Ok zeroHash);
  scripts ← (if hasV1Inputs : bool then calcHashInputScripts tx else Ok zeroHash);
  mret (mkTxSigHashes (v0 prevs) (v0 seqs) (v0 outs) prevs seqs outs scripts amounts).

(** ** The segwit v0 digest *)
Definition isWitnessPubKeyHashScript (script : list Z) : bool :=
  (Zlen script =? 22) && (nth 0 script 0 =? OP_0) && (nth 1 script 0 =? OP_DATA_20).

Definition scriptCode (subScript : list Z) : list Z :=
  if isWitnessPubKeyHashScript subScript
  then [0x19; OP_DUP; OP_HASH160; OP_DATA_20] ++ drop 2 subScript ++ [OP_EQUALVERIFY; OP_CHECKSIG]
  else WriteVarBytes subScript.

Definition witnessPreimage (subScript : list Z) (sigHashes : TxSigHashes) (hashType : Z) (tx : MsgTx)
    (idx : Z) (amt : Z) : outcome ErrorCode (list Z) :=
  let anyone := negb (Z.land hashType SigHashAnyOneCanPay =? 0) in
  let single := Z.land hashType sigHashMask =? SigHashSingle in
  let none := Z.land hashType sigHashMask =? SigHashNone in
  txIn ← index (TxIns tx) idx;
  outputs ← (if negb single && negb none then Ok (HashOutputsV0 sigHashes)
             else if single && (idx <? Zlen (TxOuts tx)) then
               out ← index (TxOuts tx) idx; Ok (DoubleHashB (WriteTxOut out))
             else Ok zeroHash);
  mret (le_bytes 4 (u32 (Version tx))
        ++ (if anyone then zeroHash else HashPrevOutsV0 sigHashes)
        ++ (if negb anyone && negb single && negb none then HashSequenceV0 sigHashes else zeroHash)
        ++ writeOutPoint (PreviousOutPoint txIn)
        ++ scriptCode subScript
        ++ le_bytes 8 (u64 amt)
        ++ le_bytes 4 (Sequence txIn)
        ++ outputs
        ++ le_bytes 4 (LockTime tx)
        ++ le_bytes 4 (u32 hashType)).

Definition calcWitnessSignatureHashRaw (subScript : list Z) (sigHashes : TxSigHashes) (hashType : Z)
    (tx : MsgTx) (idx amt : Z) : outcome ErrorCode (list Z) :=
  if Zlen (TxIns tx) - 1 <? idx then Err NotScriptError
  else pre ← witnessPreimage subScript sigHashes hashType tx idx amt; mret (DoubleHashB pre).

(** ** The taproot digest *)
Record taprootSigHashOptions := mkTaprootOptions {
  o_annex : option (list Z);
  (** the leaf hash and the code separator position of a tapscript spend *)
  o_tapscript : option (list Z * Z);
}.

Definition isValidTaprootSigHash (hashType : Z) : bool :=
  existsb (Z.eqb hashType) [SigHashDefault; SigHashAll; SigHashNone; SigHashSingle; 0x81; 0x82; 0x83].

(** The midstates are reached through a pointer that may be nil. *)
Definition deref (sigHashes : option TxSigHashes) : outcome ErrorCode TxSigHashes :=
  match sigHashes with Some m => Ok m | None => Panic end.

Definition calcTaprootSignatureHashRaw (sigHashes : option TxSigHashes) (hType : Z) (tx : MsgTx) (idx : Z)
    (opts : taprootSigHashOptions) : outcome ErrorCode (list Z) :=
  let annexHash : option (list Z) := (fun annex => HashB (WriteVarBytes annex)) <$> o_annex opts in
  if negb (isValidTaprootSigHash hType) then Err NotScriptError
  else if Zlen (TxIns tx) - 1 <? idx then Err NotScriptError
  else
    let anyone := Z.land hType SigHashAnyOneCanPay =? SigHashAnyOneCanPay in
    let low := Z.land hType SigHashSingle in
    shared ← (if anyone then Ok []
              else m ← deref sigHashes;
                   Ok (HashPrevOutsV1 m ++ HashInputAmountsV1 m ++ HashInputScriptsV1 m ++ HashSequenceV1 m));
    outputs ← (if negb (low =? SigHashSingle) && negb (low =? SigHashNone)
               then m ← deref sigHashes; Ok (HashOutputsV1 m) else Ok []);
    input ← index (TxIns tx) idx;
    let spendType := match o_tapscript opts with Some _ => 2 | None => 0 end
                     + match annexHash with Some _ => 1 | None => 0 end in
    this ← (if anyone then
              prevOut ← fetch (PreviousOutPoint input);
              Ok (writeOutPoint (PreviousOutPoint input) ++ WriteTxOut prevOut
                    ++ le_bytes 4 (Sequence input))
            else Ok (le_bytes 4 (u32 idx)));
    single ← (if Z.land hType sigHashMask =? SigHashSingle then
                if Zlen (TxOuts tx) <=? idx then Err NotScriptError
                else out ← index (TxOuts tx) idx; Ok (sha256 (WriteTxOut out))
              else Ok []);
    mret (TaggedHash TagTapSighash
      ([0x00; u8 hType] ++ le_bytes 4 (u32 (Version tx)) ++ le_bytes 4 (LockTime tx)
       ++ shared ++ outputs ++ [spendType] ++ this ++ default [] annexHash ++ single
       ++ match o_tapscript opts with
          | Some (leafHash, codeSepPos) => leafHash ++ [0x00] ++ le_bytes 4 codeSepPos
          | None => []
          end)).

End Digests.

(** ** What a legacy signature covers *)
Definition anyoneCanPay (hashType : Z) : bool := negb (Z.land hashType SigHashAnyOneCanPay =? 0).
Definition isNone (hashType : Z) : bool := Z.land hashType sigHashMask =? SigHashNone.
Definition isSingle (hashType : Z) : bool := Z.land hashType sigHashMask =? SigHashSingle.
Definition isAll (hashType : Z) : bool := negb (isNone hashType) && negb (isSingle hashType).

(** The fields of two transactions that a hash type covers, for input [idx]. *)
Record same_signed (hashType : Z) (tx1 tx2 : MsgTx) (idx : Z) : Prop := {
  ss_version : Version tx1 = Version tx2;
  ss_locktime : LockTime tx1 = LockTime tx2;
  ss_input : exists ti1 ti2, TxIns tx1 !! Z.to_nat idx = Some ti1 /\ TxIns tx2 !! Z.to_nat idx = Some ti2 /\
    PreviousOutPoint ti1 = PreviousOutPoint ti2 /\ Sequence ti1 = Sequence ti2;
  ss_prevouts : anyoneCanPay hashType = false ->
    PreviousOutPoint <$> TxIns tx1 = PreviousOutPoint <$> TxIns tx2;
  ss_sequences : anyoneCanPay hashType = false -> isAll hashType = true ->
    Sequence <$> TxIns tx1 = Sequence <$> TxIns tx2;
  ss_outputs : isAll hashType = true -> TxOuts tx1 = TxOuts tx2;
  ss_output : isSingle hashType = true -> TxOuts tx1 !! Z.to_nat idx = TxOuts tx2 !! Z.to_nat idx;
}.

(** The bytes a base encoding keeps of an input. *)
Definition baseIn (r : list Z) (hashType idx : Z) (i : nat) (ti : TxIn) : TxIn :=
  mkTxIn (PreviousOutPoint ti) (if Z.of_nat i =? idx then r else []) []
    (if isAll hashType || (Z.of_nat i =? idx) then Sequence ti else 0).

Definition baseIns (r : list Z) (hashType idx : Z) (ins : list TxIn) : list TxIn :=
  let l := imap (baseIn r hashType idx) ins in
  if anyoneCanPay hashType then take 1 (drop (Z.to_nat idx) l) else l.

Definition baseOuts (hashType idx : Z) (outs : list TxOut) : list TxOut :=
  if isNone hashType then []
  else if isSingle hashType then clearOutputs idx (take (Z.to_nat (idx + 1)) outs)
  else outs.

Lemma none_not_single hashType : isNone hashType = true -> isSingle hashType = false.
Proof. unfold isNone, isSingle, SigHashNone, SigHashSingle. rewrite Z.eqb_eq. by intros ->. Qed.

Lemma strip_setScripts r hashType idx ins : isAll hashType = true ->
  stripWitness <$> setScripts r idx ins = imap (baseIn r hashType idx) ins.
Proof.
  intros Ha. apply list_eq. intros i. unfold setScripts.
  rewrite list_lookup_fmap, !list_lookup_imap. destruct (ins !! i); [|done]. cbn.
  unfold baseIn, stripWitness. cbn. by rewrite Ha.
Qed.

Lemma strip_clearSequences r hashType idx ins : isAll hashType = false ->
  stripWitness <$> clearSequences idx (setScripts r idx ins) = imap (baseIn r hashType idx) ins.
Proof.
  intros Ha. apply list_eq. intros i. unfold setScripts, clearSequences.
  rewrite list_lookup_fmap, !list_lookup_imap. destruct (ins !! i); [|done]. cbn.
  unfold baseIn, stripWitness. cbn. by rewrite Ha.
Qed.

(** The inputs that stay. *)
Lemma keep_inputs r hashType idx ins ins' :
  stripWitness <$> ins' = imap (baseIn r hashType idx) ins -> 0 <= idx < Zlen ins ->
  exists l, (if anyoneCanPay hashType then slice (E:=ErrorCode) ins' idx (idx + 1) else Ok ins') = Ok l /\
    stripWitness <$> l = baseIns r hashType idx ins.
Proof.
  intros Heq Hidx. unfold baseIns. destruct (anyoneCanPay hashType); [|by eexists].
  assert (Hlen : Zlen ins' = Zlen ins).
  { unfold Zlen. apply (f_equal length) in Heq. rewrite length_fmap, length_imap in Heq. lia. }
  eexists. split.
  - unfold slice. rewrite decide_True by lia. replace (idx + 1 - idx) with 1 by lia. done.
  - by rewrite fmap_take, fmap_drop, Heq.
Qed.

(** The copy that is hashed, up to the witnesses that are not. *)
Lemma sigHashTx_spec script toks hashType tx idx :
  bytes_ok script -> Zlen script < 2 ^ 31 -> parse script = (toks, true) ->
  0 <= idx < Zlen (TxIns tx) ->
  let r := printTokens (filter (fun tk => (tk.1 =? OP_CODESEPARATOR) = false) toks) in
  removeOpcodeRaw script OP_CODESEPARATOR = Ok r /\
  exists c, sigHashTx script hashType tx idx = Ok c /\
    match c with
    | None => isSingle hashType = true /\ Zlen (TxOuts tx) <= idx
    | Some c => (isSingle hashType = true -> idx < Zlen (TxOuts tx)) /\
        stripTx c = mkMsgTx (Version tx) (baseIns r hashType idx (TxIns tx))
                      (baseOuts hashType idx (TxOuts tx)) (LockTime tx)
    end.
Proof.
  intros Hb Hl Hp Hidx r.
  assert (Hr : removeOpcodeRaw script OP_CODESEPARATOR = Ok r).
  { unfold removeOpcodeRaw. destruct (Z.eqb_spec (Zlen script) 0) as [Hz|].
    - assert (script = []) as -> by (destruct script; [done|rewrite Zlen_cons in Hz; len_lia]).
      injection Hp as <-. done.
    - by rewrite (removeTokens_spec script Hb Hl _ toks Hp). }
  split; [done|]. unfold sigHashTx. rewrite Hr. fold (isSingle hashType). fold (isNone hashType).
  fold (anyoneCanPay hashType). unfold baseOuts.
  destruct (isSingle hashType) eqn:Hs; cbn [andb].
  - destruct (Z.leb_spec (Zlen (TxOuts tx)) idx) as [Hle|Hgt]; [by exists None|].
    destruct (isNone hashType) eqn:Hn; [apply none_not_single in Hn; congruence|].
    assert (Hsl : slice (E:=ErrorCode) (TxOuts tx) 0 (idx + 1) = Ok (take (Z.to_nat (idx + 1)) (TxOuts tx))).
    { unfold slice. rewrite decide_True by lia. by rewrite Z.sub_0_r. }
    cbn [mbind outcome_bind]. rewrite Hsl. cbn [mbind outcome_bind mret outcome_ret].
    destruct (keep_inputs r hashType idx (TxIns tx) (clearSequences idx (setScripts r idx (TxIns tx))))
      as (l & -> & Hstrip); [apply strip_clearSequences; unfold isAll; by rewrite Hn, Hs|done|].
    eexists. split; [done|]. split; [done|]. unfold stripTx. cbn. by rewrite Hstrip.
  - destruct (isNone hashType) eqn:Hn; cbn [mbind outcome_bind mret outcome_ret].
    + destruct (keep_inputs r hashType idx (TxIns tx) (clearSequences idx (setScripts r idx (TxIns tx))))
        as (l & -> & Hstrip); [apply strip_clearSequences; unfold isAll; by rewrite Hn, Hs|done|].
      eexists. split; [done|]. split; [done|]. unfold stripTx. cbn. by rewrite Hstrip.
    + destruct (keep_inputs r hashType idx (TxIns tx) (setScripts r idx (TxIns tx)))
        as (l & -> & Hstrip); [apply strip_setScripts; unfold isAll; by rewrite Hn, Hs|done|].
      eexists. split; [done|]. split; [done|]. unfold stripTx. cbn. by rewrite Hstrip.
Qed.

(** ** The encoding of the copy determines it *)
Lemma stripTx_idem c : stripTx (stripTx c) = stripTx c.
Proof. unfold stripTx. cbn. f_equal. by rewrite <- list_fmap_compose. Qed.

Lemma Serialize_strip c : SerializeNoWitness (stripTx c) = SerializeNoWitness c.
Proof.
  unfold SerializeNoWitness, BtcEncode, stripTx, Zlen. cbn [Version TxIns TxOuts LockTime].
  rewrite length_fmap, <- list_fmap_compose. done.
Qed.

Lemma le_bytes_inj n a b : 0 <= a < 256 ^ Z.of_nat n -> 0 <= b < 256 ^ Z.of_nat n ->
  le_bytes n a = le_bytes n b -> a = b.
Proof. intros Ha Hb He. by rewrite <- (le_val_bytes n a Ha), He, le_val_bytes. Qed.

Lemma preimage_inj c1 c2 h1 h2 :
  tx_ok (stripTx c1) -> tx_ok (stripTx c2) -> 0 <= h1 < 2 ^ 32 -> 0 <= h2 < 2 ^ 32 ->
  sigHashPreimage c1 h1 = sigHashPreimage c2 h2 <-> stripTx c1 = stripTx c2 /\ h1 = h2.
Proof.
  intros H1 H2 Hh1 Hh2. unfold sigHashPreimage.
  rewrite <- (Serialize_strip c1), <- (Serialize_strip c2), !u32_small by done. split; [|by intros [-> ->]].
  intros Heq.
  pose proof (decodes_tx BaseEncoding scriptSlabSize _ H1 (Z.le_refl _) ltac:(discriminate) (le_bytes 4 h1)) as D1.
  pose proof (decodes_tx BaseEncoding scriptSlabSize _ H2 (Z.le_refl _) ltac:(discriminate) (le_bytes 4 h2)) as D2.
  unfold SerializeNoWitness in Heq. rewrite Heq, D2 in D1. rewrite !stripTx_idem in D1.
  assert (Hp : (stripTx c2, le_bytes 4 h2) = (stripTx c1, le_bytes 4 h1)) by congruence.
  split; [by apply (f_equal fst) in Hp|]. apply (f_equal snd) in Hp. symmetry. by apply (le_bytes_inj 4).
Qed.

(** ** The copy is within the limits of the encoding *)
Lemma sum_app a b : sum (a ++ b) = sum a + sum b.
Proof. induction a as [|x a IH]; [done|]. cbn [app]. rewrite !sum_cons. lia. Qed.

Lemma sum_imap_le {A} (f : A -> Z) (g : nat -> A -> A) l :
  (forall i a, f (g i a) <= f a) -> sum (f <$> imap g l) <= sum (f <$> l).
Proof.
  revert g; induction l as [|a l IH]; intros g Hg; [done|].
  rewrite imap_cons, !fmap_cons, !sum_cons. pose proof (Hg 0%nat a).
  specialize (IH (g ∘ S) (fun i => Hg (S i))). lia.
Qed.

Lemma sum_take_le {A} (f : A -> Z) n l : (forall a, 0 <= f a) -> sum (f <$> take n l) <= sum (f <$> l).
Proof.
  intros Hf. rewrite <- (take_drop n l) at 2. rewrite fmap_app, sum_app.
  pose proof (sum_nonneg f (drop n l) Hf). lia.
Qed.

Lemma sum_one {A} (f : nat -> A -> Z) l k j R : 0 <= R ->
  (forall i a, 0 <= f i a <= R) -> (forall i a, (i + k)%nat <> j -> f i a = 0) ->
  sum (imap f l) <= R /\ ((j < k)%nat -> sum (imap f l) = 0).
Proof.
  intros HR. revert f k; induction l as [|a l IH]; intros f k Hf Hz; [done|].
  rewrite imap_cons, sum_cons. pose proof (Hf 0%nat a).
  destruct (IH (f ∘ S) (S k)) as [Hle Hlt].
  { intros i b. apply Hf. }
  { intros i b Hi. apply Hz. lia. }
  destruct (decide (k = j)) as [->|Hne].
  - rewrite Hlt by lia. split; [lia|lia].
  - rewrite (Hz 0%nat a) by done. split; [lia|]. intros Hj. rewrite Hlt by lia. lia.
Qed.

Lemma baseIns_ok r hashType idx ins : Forall txin_ok ins -> Zlen r <= scriptSlabSize ->
  Forall txin_ok (baseIns r hashType idx ins) /\ Zlen (baseIns r hashType idx ins) <= Zlen ins /\
  sum (scriptLen <$> baseIns r hashType idx ins) <= Zlen r /\
  sum (witnessLen <$> baseIns r hashType idx ins) = 0.
Proof.
  intros Hok Hr. set (l := imap (baseIn r hashType idx) ins).
  assert (Hl : Forall txin_ok l).
  { apply list.Forall_lookup. intros i ti Hi. unfold l in Hi. rewrite list_lookup_imap in Hi.
    destruct (ins !! i) as [ti0|] eqn:Hi0; [|done]. cbn in Hi. injection Hi as <-.
    rewrite list.Forall_lookup in Hok. destruct (Hok i ti0 Hi0). unfold baseIn. split; cbn; try done.
    - destruct (_ =? _); unfold scriptSlabSize, MaxMessagePayload in *; [lia|]. rewrite Zlen_nil. lia.
    - destruct (_ || _); [done|lia]. }
  assert (Hlen : Zlen l = Zlen ins) by (unfold Zlen, l; by rewrite length_imap).
  assert (Hone : forall i ti, scriptLen (baseIn r hashType idx i ti) = if Z.of_nat i =? idx then Zlen r else 0).
  { intros i ti. unfold scriptLen, baseIn. cbn. by destruct (_ =? _). }
  assert (Hwit : forall m : list TxIn, Forall (fun ti => witnessLen ti = 0) m -> sum (witnessLen <$> m) = 0).
  { induction 1 as [|ti m Hti _ IH]; [done|]. rewrite fmap_cons, sum_cons. lia. }
  assert (Hw : Forall (fun ti => witnessLen ti = 0) l).
  { apply list.Forall_lookup. intros i ti Hi. unfold l in Hi. rewrite list_lookup_imap in Hi.
    destruct (ins !! i); [|done]. cbn in Hi. by injection Hi as <-. }
  unfold baseIns. fold l. destruct (anyoneCanPay hashType).
  - split_and!; [by apply Forall_take, Forall_drop| | |by apply Hwit, Forall_take, Forall_drop].
    + unfold Zlen in *. rewrite length_take, length_drop. lia.
    + destruct (drop (Z.to_nat idx) l) as [|ti m] eqn:Hd; [cbn; len_lia|].
      assert (Hi : l !! Z.to_nat idx = Some ti) by (rewrite <- (Nat.add_0_r (Z.to_nat idx)), <- lookup_drop, Hd; done).
      unfold l in Hi. rewrite list_lookup_imap in Hi. destruct (ins !! Z.to_nat idx); [|done]. cbn in Hi.
      injection Hi as <-. change (take 1 (?x :: m)) with [x]. rewrite fmap_cons, sum_cons, Hone. cbn [fmap list_fmap].
      change (sum []) with 0. destruct (_ =? _); len_lia.
  - split_and!; [done|lia| |by apply Hwit].
    unfold l. rewrite fmap_imap. pose proof (Zlen_nonneg r).
    apply (sum_one _ ins 0 (Z.to_nat idx)); [done| |].
    + intros i ti. cbn. rewrite Hone. destruct (_ =? _); lia.
    + intros i ti Hi. cbn. rewrite Hone. destruct (Z.eqb_spec (Z.of_nat i) idx); [lia|done].
Qed.

Lemma baseOuts_ok hashType idx outs : Forall txout_ok outs ->
  Forall txout_ok (baseOuts hashType idx outs) /\ Zlen (baseOuts hashType idx outs) <= Zlen outs /\
  sum (pkScriptLen <$> baseOuts hashType idx outs) <= sum (pkScriptLen <$> outs).
Proof.
  intros Hok. pose proof (sum_nonneg pkScriptLen outs) as Hn.
  assert (Hpos : forall o, 0 <= pkScriptLen o) by (intros o; unfold pkScriptLen; len_lia). specialize (Hn Hpos).
  unfold baseOuts. destruct (isNone hashType); [split_and!; [done|rewrite Zlen_nil; len_lia|done]|].
  destruct (isSingle hashType); [|by split_and!].
  set (t := take (Z.to_nat (idx + 1)) outs). assert (Ht : Forall txout_ok t) by (by apply Forall_take).
  unfold clearOutputs. split_and!.
  - apply list.Forall_lookup. intros i o Hi. rewrite list_lookup_imap in Hi.
    destruct (t !! i) as [o0|] eqn:Hi0; [|done]. cbn in Hi. injection Hi as <-.
    destruct (_ <? _); [split; [done|by vm_compute]|]. rewrite list.Forall_lookup in Ht. eauto.
  - unfold Zlen, t. rewrite length_imap, length_take. lia.
  - etransitivity; [apply sum_imap_le|by apply sum_take_le].
    intros i o. destruct (_ <? _); [apply Hpos|done].
Qed.

(** ** Equal copies have equal covered fields *)
Lemma baseIn_lookup r hashType idx ins i :
  imap (baseIn r hashType idx) ins !! i = baseIn r hashType idx i <$> ins !! i.
Proof. apply list_lookup_imap. Qed.

Lemma take1_drop {A} (l : list A) i x : l !! i = Some x -> take 1 (drop i l) = [x].
Proof.
  revert i; induction l as [|y l IH]; intros i Hi; [done|]. destruct i as [|i]; [by injection Hi as ->|].
  by apply IH.
Qed.

Lemma lookup_Z {A} (l : list A) i : 0 <= i < Zlen l -> exists x, l !! Z.to_nat i = Some x.
Proof. intros Hi. apply lookup_lt_is_Some_2. unfold Zlen in Hi. lia. Qed.

Lemma baseIns_eq r1 r2 hashType idx ins1 ins2 : 0 <= idx < Zlen ins1 -> 0 <= idx < Zlen ins2 ->
  baseIns r1 hashType idx ins1 = baseIns r2 hashType idx ins2 <->
  r1 = r2 /\
  (exists ti1 ti2, ins1 !! Z.to_nat idx = Some ti1 /\ ins2 !! Z.to_nat idx = Some ti2 /\
     PreviousOutPoint ti1 = PreviousOutPoint ti2 /\ Sequence ti1 = Sequence ti2) /\
  (anyoneCanPay hashType = false -> PreviousOutPoint <$> ins1 = PreviousOutPoint <$> ins2) /\
  (anyoneCanPay hashType = false -> isAll hashType = true -> Sequence <$> ins1 = Sequence <$> ins2).
Proof.
  intros Hi1 Hi2. destruct (lookup_Z ins1 idx Hi1) as [ti1 H1], (lookup_Z ins2 idx Hi2) as [ti2 H2].
  assert (Hidx : (Z.of_nat (Z.to_nat idx) =? idx) = true) by (apply Z.eqb_eq; lia).
  assert (Hat : baseIn r1 hashType idx (Z.to_nat idx) ti1 = baseIn r2 hashType idx (Z.to_nat idx) ti2 <->
    r1 = r2 /\ PreviousOutPoint ti1 = PreviousOutPoint ti2 /\ Sequence ti1 = Sequence ti2).
  { unfold baseIn. rewrite Hidx, orb_true_r. split; [intros [= ? ? ?]; done|by intros (-> & -> & ->)]. }
  unfold baseIns. destruct (anyoneCanPay hashType).
  - rewrite (take1_drop _ _ (baseIn r1 hashType idx (Z.to_nat idx) ti1)) by (by rewrite baseIn_lookup, H1).
    rewrite (take1_drop _ _ (baseIn r2 hashType idx (Z.to_nat idx) ti2)) by (by rewrite baseIn_lookup, H2).
    split; [intros [= Heq]|intros (-> & (t1 & t2 & Ht1 & Ht2 & Hp & Hs) & _)].
    + unfold baseIn in Hat. rewrite Hidx, orb_true_r in *. split_and!; [done| |done|done]. by exists ti1, ti2.
    + rewrite H1 in Ht1. rewrite H2 in Ht2. injection Ht1 as <-. injection Ht2 as <-.
      f_equal. by apply Hat.
  - split.
    + intros Heq.
      assert (Hall : forall i, baseIn r1 hashType idx i <$> ins1 !! i = baseIn r2 hashType idx i <$> ins2 !! i)
        by (intros i; by rewrite <- !baseIn_lookup, Heq).
      pose proof (Hall (Z.to_nat idx)) as Hi. rewrite H1, H2 in Hi.
      apply (inj Some) in Hi. apply Hat in Hi as (Hr & Hp & Hs).
      split_and!; [done|by exists ti1, ti2| |].
      * intros _. apply list_eq. intros i. rewrite !list_lookup_fmap. specialize (Hall i).
        destruct (ins1 !! i), (ins2 !! i); cbn in Hall; try done. cbn. f_equal.
        apply (inj Some) in Hall. by apply (f_equal PreviousOutPoint) in Hall.
      * intros _ Ha. apply list_eq. intros i. rewrite !list_lookup_fmap. specialize (Hall i).
        destruct (ins1 !! i), (ins2 !! i); cbn in Hall; try done. cbn. f_equal.
        apply (inj Some) in Hall. apply (f_equal Sequence) in Hall. unfold baseIn in Hall. cbn in Hall.
        by rewrite Ha in Hall.
    + intros (-> & (t1 & t2 & Ht1 & Ht2 & Hp & Hs) & Hps & Hss). specialize (Hps eq_refl).
      apply list_eq. intros i. rewrite !baseIn_lookup.
      assert (Hpi : PreviousOutPoint <$> ins1 !! i = PreviousOutPoint <$> ins2 !! i)
        by (by rewrite <- !list_lookup_fmap, Hps).
      destruct (ins1 !! i) as [a|] eqn:Ha, (ins2 !! i) as [b|] eqn:Hb; cbn in Hpi; try done.
      cbn. f_equal. unfold baseIn. injection Hpi as ->. f_equal.
      destruct (isAll hashType) eqn:Hall; cbn [orb].
      * specialize (Hss eq_refl eq_refl).
        assert (Hsi : Sequence <$> ins1 !! i = Sequence <$> ins2 !! i) by (by rewrite <- !list_lookup_fmap, Hss).
        rewrite Ha, Hb in Hsi. by injection Hsi.
      * destruct (Z.eqb_spec (Z.of_nat i) idx) as [Hii|]; [|done]. subst idx.
        rewrite Nat2Z.id in *. congruence.
Qed.

Lemma single_outs idx outs : 0 <= idx ->
  forall i, clearOutputs idx (take (Z.to_nat (idx + 1)) outs) !! i =
    if decide (Z.of_nat i < idx) then (fun _ => mkTxOut (-1) []) <$> outs !! i
    else if decide (Z.of_nat i = idx) then outs !! i else None.
Proof.
  intros Hidx i. unfold clearOutputs. rewrite list_lookup_imap.
  destruct (decide (Z.of_nat i < idx)).
  - rewrite lookup_take_lt by lia. destruct (outs !! i); [|done]. cbn.
    by rewrite (proj2 (Z.ltb_lt _ _)) by lia.
  - destruct (decide (Z.of_nat i = idx)).
    + rewrite lookup_take_lt by lia. destruct (outs !! i); [|done]. cbn.
      by rewrite (proj2 (Z.ltb_ge _ _)) by lia.
    + by rewrite lookup_take_ge by lia.
Qed.

Lemma baseOuts_eq hashType idx outs1 outs2 : 0 <= idx ->
  (isSingle hashType = true -> idx < Zlen outs1 /\ idx < Zlen outs2) ->
  baseOuts hashType idx outs1 = baseOuts hashType idx outs2 <->
  (isAll hashType = true -> outs1 = outs2) /\
  (isSingle hashType = true -> outs1 !! Z.to_nat idx = outs2 !! Z.to_nat idx).
Proof.
  intros Hidx Hin. unfold baseOuts, isAll. destruct (isNone hashType) eqn:Hn.
  { apply none_not_single in Hn. rewrite Hn. cbn. split; [by intros _|done]. }
  destruct (isSingle hashType); cbn [negb andb].
  - destruct (Hin eq_refl) as [Hi1 Hi2]. split.
    + intros Heq. split; [done|]. intros _.
      apply (f_equal (.!! Z.to_nat idx)) in Heq. rewrite !single_outs in Heq by done.
      destruct (decide (Z.of_nat (Z.to_nat idx) < idx)); [lia|].
      by destruct (decide (Z.of_nat (Z.to_nat idx) = idx)); [|lia].
    + intros [_ Ho]. specialize (Ho eq_refl). apply list_eq. intros i. rewrite !single_outs by done.
      destruct (decide (Z.of_nat i < idx)).
      * destruct (lookup_lt_is_Some_2 outs1 i) as [? ->]; [unfold Zlen in Hi1; lia|].
        destruct (lookup_lt_is_Some_2 outs2 i) as [? ->]; [unfold Zlen in Hi2; lia|]. done.
      * destruct (decide (Z.of_nat i = idx)); [|done]. subst idx. by rewrite Nat2Z.id in Ho.
  - split; [by intros ->|]. intros [Ho _]. by apply Ho.
Qed.

(** ** Theorems *)

(** A script that parses and an input of a transaction that can be encoded
    with that script. *)
Record signable (script : list Z) (tx : MsgTx) (idx : Z) : Prop := {
  sg_bytes : bytes_ok script;
  sg_parses : checkScriptParses 0 script = Ok ();
  sg_tx : tx_ok tx;
  sg_fits : Zlen script + sum (pkScriptLen <$> TxOuts tx) <= scriptSlabSize;
  sg_idx : 0 <= idx < Zlen (TxIns tx);
}.

Lemma kept_shorter f toks : Zlen (printTokens (kept f toks)) <= Zlen (printTokens toks).
Proof.
  unfold kept. induction toks as [|tk toks IH]; [done|]. destruct (f tk.1 tk.2) eqn:Hd.
  - rewrite list.filter_cons_False by congruence. rewrite fmap_cons. cbn [concat]. rewrite Zlen_app. len_lia.
  - rewrite list.filter_cons_True by done. rewrite !fmap_cons. cbn [concat]. rewrite !Zlen_app. lia.
Qed.

Lemma signable_copy script tx idx hashType c :
  signable script tx idx -> sigHashTx script hashType tx idx = Ok (Some c) ->
  exists r, removeOpcodeRaw script OP_CODESEPARATOR = Ok r /\ tx_ok (stripTx c) /\
    (isSingle hashType = true -> idx < Zlen (TxOuts tx)) /\
    stripTx c = mkMsgTx (Version tx) (baseIns r hashType idx (TxIns tx))
                  (baseOuts hashType idx (TxOuts tx)) (LockTime tx).
Proof.
  intros [Hb Hp Htx Hfit Hidx] Hc.
  assert (Hpk : forall o, 0 <= pkScriptLen o) by (intros o; unfold pkScriptLen; len_lia).
  pose proof (sum_nonneg pkScriptLen (TxOuts tx) Hpk) as Hsn.
  assert (Hl : Zlen script < 2 ^ 31) by (unfold scriptSlabSize in Hfit; lia).
  rewrite checkScriptParses_spec in Hp by done. destruct (parse script) as [toks ok] eqn:Hparse.
  cbn in Hp. destruct ok; [|done].
  destruct (sigHashTx_spec script toks hashType tx idx Hb Hl Hparse Hidx) as (Hr & c' & Hc' & Hspec).
  set (r := concat _) in *. rewrite Hc in Hc'. injection Hc' as <-. destruct Hspec as [Hs Hstrip].
  exists r. split_and!; [done| |done|done]. rewrite Hstrip.
  assert (Hrl : Zlen r <= Zlen script).
  { destruct (parse_some _ _ _ Hb Hparse) as (_ & tail & -> & Htail). rewrite (Htail eq_refl), app_nil_r.
    apply (kept_shorter (fun op _ => op =? OP_CODESEPARATOR)). }
  destruct Htx as [Hv Hlt Hins Houts Hic Hoc Hslab].
  destruct (baseIns_ok r hashType idx (TxIns tx) Hins ltac:(lia)) as (Hi1 & Hi2 & Hi3 & Hi4).
  destruct (baseOuts_ok hashType idx (TxOuts tx) Houts) as (Ho1 & Ho2 & Ho3).
  split; cbn [Version TxIns TxOuts LockTime]; done || lia.
Qed.

(** C23. Two legacy signature hashes hash the same bytes exactly when the hash
    type, the script without its code separators and all the fields of the
    transaction that the hash type covers are the same: version, lock time,
    the outpoint and the sequence of the signed input always; the outpoints
    of the other inputs unless ANYONECANPAY; their sequences only for ALL;
    all outputs for ALL, the one of the same index for SINGLE, none for
    NONE.  In particular nothing else can be changed without invalidating
    the signature, and witnesses and the other input scripts are free. *)
Theorem legacy_sighash_covers script1 script2 hashType1 hashType2 tx1 tx2 idx c1 c2
    (Hs1 : signable script1 tx1 idx) (Hs2 : signable script2 tx2 idx)
    (Hh1 : 0 <= hashType1 < 2 ^ 32) (Hh2 : 0 <= hashType2 < 2 ^ 32)
    (Hc1 : sigHashTx script1 hashType1 tx1 idx = Ok (Some c1))
    (Hc2 : sigHashTx script2 hashType2 tx2 idx = Ok (Some c2)) :
  sigHashPreimage c1 hashType1 = sigHashPreimage c2 hashType2 <->
  hashType1 = hashType2 /\
  removeOpcodeRaw script1 OP_CODESEPARATOR = removeOpcodeRaw script2 OP_CODESEPARATOR /\
  same_signed hashType1 tx1 tx2 idx.
Proof.
  destruct (signable_copy _ _ _ _ _ Hs1 Hc1) as (r1 & Hr1 & Hok1 & Hsi1 & Hst1).
  destruct (signable_copy _ _ _ _ _ Hs2 Hc2) as (r2 & Hr2 & Hok2 & Hsi2 & Hst2).
  destruct Hs1 as [_ _ _ _ Hi1], Hs2 as [_ _ _ _ Hi2].
  rewrite preimage_inj, Hst1, Hst2, Hr1, Hr2 by done. split.
  - intros [[= Hv Hins Houts Hlt] <-].
    apply baseIns_eq in Hins as (-> & Hin & Hprev & Hseq); [|done..].
    apply baseOuts_eq in Houts as [Ha Hsing]; [|lia|auto].
    split_and!; [done..|]. by split.
  - intros (<- & [= ->] & [Hv Hlt Hin Hprev Hseq Ha Hsing]). split; [|done]. rewrite Hv, Hlt. f_equal.
    + by apply baseIns_eq.
    + apply baseOuts_eq; [lia|auto|done].
Qed.

(** The script a segwit v0 signature signs. *)
Definition codeScript (subScript : list Z) : list Z :=
  if isWitnessPubKeyHashScript subScript
  then [OP_DUP; OP_HASH160; OP_DATA_20] ++ drop 2 subScript ++ [OP_EQUALVERIFY; OP_CHECKSIG]
  else subScript.

Lemma scriptCode_spec subScript : scriptCode subScript = WriteVarBytes (codeScript subScript).
Proof.
  unfold scriptCode, codeScript. destruct (isWitnessPubKeyHashScript subScript) eqn:Hw; [|done].
  unfold isWitnessPubKeyHashScript in Hw. rewrite !andb_true_iff, Z.eqb_eq in Hw. destruct Hw as [[Hl _] _].
  unfold WriteVarBytes.
  assert (Hlen : Zlen ([OP_DUP; OP_HASH160; OP_DATA_20] ++ drop 2 subScript ++ [OP_EQUALVERIFY; OP_CHECKSIG]) = 25).
  { rewrite !Zlen_app. unfold Zlen in *. rewrite length_drop. simpl. lia. }
  by rewrite Hlen.
Qed.

Lemma WriteVarBytes_inj a b r1 r2 : Zlen a < 2 ^ 64 -> Zlen b < 2 ^ 64 ->
  WriteVarBytes a ++ r1 = WriteVarBytes b ++ r2 -> a = b /\ r1 = r2.
Proof.
  intros Ha Hb Heq.
  pose proof (decodes_VarBytes a (2 ^ 64 - 1) ltac:(lia) ltac:(lia) r1) as D1.
  pose proof (decodes_VarBytes b (2 ^ 64 - 1) ltac:(lia) ltac:(lia) r2) as D2.
  rewrite Heq, D2 in D1. by injection D1 as -> ->.
Qed.

(** The midstates are digests. *)
Record midstate_ok (m : TxSigHashes) : Prop := {
  ms_prevouts : length (HashPrevOutsV0 m) = 32%nat;
  ms_sequence : length (HashSequenceV0 m) = 32%nat;
  ms_outputs : length (HashOutputsV0 m) = 32%nat;
}.

(** An input of a transaction, a script and an amount of Go's types. *)
Record segwit_args (script : list Z) (tx : MsgTx) (amt : Z) : Prop := {
  sw_script : Zlen script < 2 ^ 31;
  sw_version : - 2 ^ 31 <= Version tx < 2 ^ 31;
  sw_locktime : 0 <= LockTime tx < 2 ^ 32;
  sw_ins : Forall txin_ok (TxIns tx);
  sw_amt : - 2 ^ 63 <= amt < 2 ^ 63;
}.

Section Segwit.
Context {H : Hashes} {L : HashLaws H}.

(** What the outputs of a transaction put into a segwit v0 digest. *)
Definition outputsDigest (m : TxSigHashes) (hashType : Z) (tx : MsgTx) (idx : Z) : list Z :=
  if isAll hashType then HashOutputsV0 m
  else if isSingle hashType
       then match TxOuts tx !! Z.to_nat idx with Some out => DoubleHashB (WriteTxOut out) | None => zeroHash end
       else zeroHash.

Lemma witnessPreimage_spec script m hashType tx idx amt ti :
  0 <= idx -> TxIns tx !! Z.to_nat idx = Some ti ->
  witnessPreimage script m hashType tx idx amt = Ok
   (le_bytes 4 (u32 (Version tx))
    ++ (if anyoneCanPay hashType then zeroHash else HashPrevOutsV0 m)
    ++ (if negb (anyoneCanPay hashType) && isAll hashType then HashSequenceV0 m else zeroHash)
    ++ writeOutPoint (PreviousOutPoint ti) ++ WriteVarBytes (codeScript script)
    ++ le_bytes 8 (u64 amt) ++ le_bytes 4 (Sequence ti) ++ outputsDigest m hashType tx idx
    ++ le_bytes 4 (LockTime tx) ++ le_bytes 4 (u32 hashType)).
Proof.
  intros Hidx Hti. unfold witnessPreimage. cbv zeta. fold (isSingle hashType). fold (isNone hashType).
  fold (anyoneCanPay hashType).
  assert (Hi : index (E:=ErrorCode) (TxIns tx) idx = Ok ti) by (apply index_ok_iff; by split).
  rewrite Hi, scriptCode_spec. cbn [mbind outcome_bind]. unfold outputsDigest, isAll.
  rewrite <- andb_assoc, (andb_comm (negb (isSingle hashType))).
  destruct (isNone hashType) eqn:Hn; cbn [negb andb].
  { apply none_not_single in Hn. by rewrite Hn. }
  destruct (isSingle hashType); cbn [negb andb]; [|done].
  destruct (Z.ltb_spec idx (Zlen (TxOuts tx))).
  - destruct (lookup_Z (TxOuts tx) idx ltac:(lia)) as [o Ho].
    assert (Hio : index (E:=ErrorCode) (TxOuts tx) idx = Ok o) by (apply index_ok_iff; by split).
    by rewrite Hio, Ho.
  - by rewrite (lookup_ge_None_2 (TxOuts tx)) by (unfold Zlen in *; lia).
Qed.

Lemma outputsDigest_len m hashType tx idx : midstate_ok m -> length (outputsDigest m hashType tx idx) = 32%nat.
Proof using L.
  intros [_ _ Ho]. unfold outputsDigest. destruct (isAll _); [done|]. destruct (isSingle _); [|done].
  destruct (_ !! _); [apply sha256_len|done].
Qed.

(** Pre-images that are the same bytes come from the same fields. *)
Lemma witness_preimage_inj script1 script2 m1 m2 hashType1 hashType2 tx1 tx2 idx1 idx2 amt1 amt2 pre
    (Ha1 : segwit_args script1 tx1 amt1) (Ha2 : segwit_args script2 tx2 amt2)
    (Hm1 : midstate_ok m1) (Hm2 : midstate_ok m2)
    (Hh1 : 0 <= hashType1 < 2 ^ 32) (Hh2 : 0 <= hashType2 < 2 ^ 32)
    (Hi1 : 0 <= idx1 < Zlen (TxIns tx1)) (Hi2 : 0 <= idx2 < Zlen (TxIns tx2))
    (Hp1 : witnessPreimage script1 m1 hashType1 tx1 idx1 amt1 = Ok pre)
    (Hp2 : witnessPreimage script2 m2 hashType2 tx2 idx2 amt2 = Ok pre) :
  hashType1 = hashType2 /\ Version tx1 = Version tx2 /\ LockTime tx1 = LockTime tx2 /\ amt1 = amt2 /\
  codeScript script1 = codeScript script2 /\
  (exists ti1 ti2, TxIns tx1 !! Z.to_nat idx1 = Some ti1 /\ TxIns tx2 !! Z.to_nat idx2 = Some ti2 /\
     PreviousOutPoint ti1 = PreviousOutPoint ti2 /\ Sequence ti1 = Sequence ti2) /\
  (anyoneCanPay hashType1 = false -> HashPrevOutsV0 m1 = HashPrevOutsV0 m2) /\
  (anyoneCanPay hashType1 = false -> isAll hashType1 = true -> HashSequenceV0 m1 = HashSequenceV0 m2) /\
  outputsDigest m1 hashType1 tx1 idx1 = outputsDigest m2 hashType2 tx2 idx2.
Proof using L.
  destruct (lookup_Z _ _ Hi1) as [ti1 Hti1], (lookup_Z _ _ Hi2) as [ti2 Hti2].
  rewrite (witnessPreimage_spec _ _ _ _ _ _ ti1) in Hp1 by (done || lia).
  rewrite (witnessPreimage_spec _ _ _ _ _ _ ti2) in Hp2 by (done || lia).
  destruct Ha1 as [Hs1 Hv1 Hl1 Hin1 Hamt1], Ha2 as [Hs2 Hv2 Hl2 Hin2 Hamt2].
  rewrite list.Forall_lookup in Hin1, Hin2.
  destruct (Hin1 _ _ Hti1) as [Hoh1 Hoi1 _ Hsq1 _ _], (Hin2 _ _ Hti2) as [Hoh2 Hoi2 _ Hsq2 _ _].
  pose proof (outputsDigest_len m1 hashType1 tx1 idx1 Hm1) as Hod1.
  pose proof (outputsDigest_len m2 hashType2 tx2 idx2 Hm2) as Hod2.
  destruct Hm1 as [Hpo1 Hsd1 _], Hm2 as [Hpo2 Hsd2 _].
  rewrite <- Hp1 in Hp2. apply (inj Ok) in Hp2. rename Hp2 into Hp.
  assert (Hz : length zeroHash = 32%nat) by done.
  assert (Hcode : forall script, Zlen script < 2 ^ 31 -> Zlen (codeScript script) < 2 ^ 64).
  { intros script Hs. unfold codeScript. destruct (isWitnessPubKeyHashScript script); [|lia].
    rewrite !Zlen_app. unfold Zlen in *. rewrite length_drop. simpl. lia. }
  apply app_inj_1 in Hp as [Hver Hp]; [|by rewrite !le_bytes_length].
  apply app_inj_1 in Hp as [Hpo Hp]; [|by repeat case_match; congruence].
  apply app_inj_1 in Hp as [Hsd Hp]; [|by repeat case_match; congruence].
  apply app_inj_1 in Hp as [Hop Hp];
    [|unfold writeOutPoint; by rewrite !length_app, !le_bytes_length, Hoh1, Hoh2].
  apply WriteVarBytes_inj in Hp as [Hcs Hp]; [|by apply Hcode..].
  apply app_inj_1 in Hp as [Hamt Hp]; [|by rewrite !le_bytes_length].
  apply app_inj_1 in Hp as [Hsq Hp]; [|by rewrite !le_bytes_length].
  apply app_inj_1 in Hp as [Hod Hp]; [|congruence].
  apply app_inj_1 in Hp as [Hlt Hht]; [|by rewrite !le_bytes_length].
  rewrite !u32_small in Hht by done.
  apply (le_bytes_inj 4) in Hver; [|apply u32_range..].
  apply (le_bytes_inj 8) in Hamt; [|apply u64_range..].
  apply (le_bytes_inj 4) in Hsq, Hlt, Hht; [|done..]. subst hashType2.
  unfold writeOutPoint in Hop. apply app_inj_1 in Hop as [Hoh Hoi]; [|congruence].
  apply (le_bytes_inj 4) in Hoi; [|done..].
  split_and!; [done| |done| |done| | | |done].
  - rewrite <- (proj2 (u32_i32 _ Hv1)), <- (proj2 (u32_i32 _ Hv2)). by rewrite Hver.
  - rewrite <- (proj2 (u64_i64 _ Hamt1)), <- (proj2 (u64_i64 _ Hamt2)). by rewrite Hamt.
  - exists ti1, ti2. split_and!; [done|done| |done].
    destruct (PreviousOutPoint ti1), (PreviousOutPoint ti2). cbn in *. congruence.
  - intros Ha. by rewrite Ha in Hpo.
  - intros Ha Hall. by rewrite Ha, Hall in Hsd.
Qed.

(** The signed input spends an output that is not taproot, as the inputs do
    that a segwit v0 digest is made for. *)
Definition spends_v0 (fetch : OutPoint -> option TxOut) (tx : MsgTx) (idx : Z) : Prop :=
  exists ti out, TxIns tx !! Z.to_nat idx = Some ti /\ fetch (PreviousOutPoint ti) = Some out /\ isWitnessTaprootScript (PkScript out) = false.

Lemma scanInputs_v0 fetch ins : forall v0 v1 a b, scanInputs fetch ins v0 v1 = Ok (a, b) ->
  v0 = true \/ (exists ti out, ti ∈ ins /\ fetch (PreviousOutPoint ti) = Some out /\ isWitnessTaprootScript (PkScript out) = false) -> a = true.
Proof using.
  induction ins as [|ti ins IH]; intros v0 v1 a b; cbn [scanInputs].
  - intros [= <- <-] [?|(ti & out & Hin & _)]; [done|by apply not_elem_of_nil in Hin].
  - destruct (_ && bool_decide _); [intros Hrun _; by eapply IH; [exact Hrun|left]|]. unfold SigHash.fetch.
    destruct (fetch (PreviousOutPoint ti)) as [out|] eqn:Ho; [|done]. rewrite bind_Ok. intros Hrun Hor.
    assert (Hor' : (if isWitnessTaprootScript (PkScript out) then v0 else true) = true \/
      (exists ti out, ti ∈ ins /\ fetch (PreviousOutPoint ti) = Some out /\ isWitnessTaprootScript (PkScript out) = false)).
    { destruct Hor as [->|(ti' & out' & [->|Hin]%list.elem_of_cons & Hf & Ht)]; [left; by destruct (isWitnessTaprootScript _)| |right; by exists ti', out'].
      left. rewrite Ho in Hf. injection Hf as ->. by rewrite Ht. }
    revert Hrun Hor'. destruct (isWitnessTaprootScript (PkScript out)).
    + destruct (v0 && true) eqn:Hb; [|by apply IH]. intros [= <- <-] _. by apply andb_true_iff in Hb as [? _].
    + destruct (true && v1); [by intros [= <- <-]|by apply IH].
Qed.

(** The midstates of a transaction with such an input are its digests. *)
Record v0_midstates (tx : MsgTx) (m : TxSigHashes) : Prop := {
  vm_prevouts : HashPrevOutsV0 m = HashB (calcHashPrevOuts tx);
  vm_sequence : HashSequenceV0 m = HashB (calcHashSequence tx);
  vm_outputs : HashOutputsV0 m = HashB (calcHashOutputs tx);
}.
Lemma NewTxSigHashes_v0 fetch tx idx m : spends_v0 fetch tx idx -> NewTxSigHashes fetch tx = Ok m -> v0_midstates tx m.
Proof using.
  intros (ti & out & Hti & Ho & Ht). unfold NewTxSigHashes. intros Hrun. apply outcome_bind_ok in Hrun as ([v0 v1] & Hscan & Hrun).
  apply scanInputs_v0 in Hscan as ->; [|right; exists ti, out; split; [by eapply list_elem_of_lookup_2|done]].
  apply outcome_bind_ok in Hrun as (amounts & _ & Hrun). apply outcome_bind_ok in Hrun as (scripts & _ & Hrun). by injection Hrun as <-.
Qed.
Lemma v0_midstates_ok tx m : v0_midstates tx m -> midstate_ok m.
Proof using L. intros [H1 H2 H3]. split; [rewrite H1|rewrite H2|rewrite H3]; apply sha256_len. Qed.

(** What the outputs of a transaction put into the digest. *)
Definition coveredOutputs (hashType : Z) (tx : MsgTx) (idx : Z) : list Z :=
  if isAll hashType then HashB (calcHashOutputs tx)
  else if isSingle hashType
       then match TxOuts tx !! Z.to_nat idx with Some out => DoubleHashB (WriteTxOut out) | None => zeroHash end
       else zeroHash.

(** What a segwit v0 hash type covers: all of the signed input, the script
    and the amount, and the digests of the outpoints, of the sequences and of
    the outputs. *)
Record witness_agree (script1 script2 : list Z) (hashType1 hashType2 : Z) (tx1 tx2 : MsgTx) (idx1 idx2 amt1 amt2 : Z) : Prop := {
  wa_type : hashType1 = hashType2;
  wa_version : Version tx1 = Version tx2;
  wa_lock : LockTime tx1 = LockTime tx2;
  wa_amount : amt1 = amt2;
  wa_script : codeScript script1 = codeScript script2;
  wa_input : exists ti1 ti2, TxIns tx1 !! Z.to_nat idx1 = Some ti1 /\ TxIns tx2 !! Z.to_nat idx2 = Some ti2 /\
     PreviousOutPoint ti1 = PreviousOutPoint ti2 /\ Sequence ti1 = Sequence ti2;
  wa_prevouts : anyoneCanPay hashType1 = false -> HashB (calcHashPrevOuts tx1) = HashB (calcHashPrevOuts tx2);
  wa_sequences : anyoneCanPay hashType1 = false -> isAll hashType1 = true -> HashB (calcHashSequence tx1) = HashB (calcHashSequence tx2);
  wa_outputs : coveredOutputs hashType1 tx1 idx1 = coveredOutputs hashType2 tx2 idx2;
}.

(** C24. Two segwit v0 pre-images, of inputs that spend no taproot output and
    over the midstates that NewTxSigHashes computes, are equal exactly when
    the transactions agree on the hash type, the version, the lock time, the
    outpoint, the sequence, the amount and the script code of the signed
    input, and on the digests of the outpoints, of the sequences and of the
    outputs that the hash type covers. *)
Theorem witness_sighash_covers fetch1 fetch2 script1 script2 m1 m2 hashType1 hashType2 tx1 tx2 idx1 idx2 amt1 amt2 pre1 pre2
    (Ha1 : segwit_args script1 tx1 amt1) (Ha2 : segwit_args script2 tx2 amt2)
    (Hm1 : NewTxSigHashes fetch1 tx1 = Ok m1) (Hm2 : NewTxSigHashes fetch2 tx2 = Ok m2)
    (Hs1 : spends_v0 fetch1 tx1 idx1) (Hs2 : spends_v0 fetch2 tx2 idx2)
    (Hh1 : 0 <= hashType1 < 2 ^ 32) (Hh2 : 0 <= hashType2 < 2 ^ 32)
    (Hi1 : 0 <= idx1 < Zlen (TxIns tx1)) (Hi2 : 0 <= idx2 < Zlen (TxIns tx2))
    (Hp1 : witnessPreimage script1 m1 hashType1 tx1 idx1 amt1 = Ok pre1)
    (Hp2 : witnessPreimage script2 m2 hashType2 tx2 idx2 amt2 = Ok pre2) :
  pre1 = pre2 <-> witness_agree script1 script2 hashType1 hashType2 tx1 tx2 idx1 idx2 amt1 amt2.
Proof.
  pose proof (NewTxSigHashes_v0 _ _ _ _ Hs1 Hm1) as Hv1. pose proof (NewTxSigHashes_v0 _ _ _ _ Hs2 Hm2) as Hv2.
  pose proof (v0_midstates_ok _ _ Hv1) as Hok1. pose proof (v0_midstates_ok _ _ Hv2) as Hok2.
  destruct Hv1 as [Ep1 Es1 Eo1], Hv2 as [Ep2 Es2 Eo2]. split.
  - intros <-. destruct (witness_preimage_inj script1 script2 m1 m2 hashType1 hashType2 tx1 tx2 idx1 idx2 amt1 amt2 pre1)
      as (Ht & Hv & Hl & Ha & Hc & Hi & Hpo & Hsd & Ho); try done.
    unfold outputsDigest in Ho. rewrite Eo1, Eo2 in Ho. split; try done; congruence || (intros; rewrite <- ?Ep1, <- ?Ep2, <- ?Es1, <- ?Es2; auto).
  - intros [<- Hv Hl <- Hc (ti1 & ti2 & Hti1 & Hti2 & Hop & Hsq) Hpo Hsd Ho].
    rewrite (witnessPreimage_spec _ _ _ _ _ _ ti1) in Hp1 by (done || lia).
    rewrite (witnessPreimage_spec _ _ _ _ _ _ ti2) in Hp2 by (done || lia).
    apply (inj Ok) in Hp1, Hp2. subst pre1 pre2. unfold outputsDigest. rewrite Ep1, Ep2, Es1, Es2, Eo1, Eo2, Hv, Hl, Hc, Hop, Hsq.
    fold (coveredOutputs hashType1 tx1 idx1). fold (coveredOutputs hashType1 tx2 idx2). rewrite Ho.
    destruct (anyoneCanPay hashType1); cbn [negb andb]; [done|]. rewrite (Hpo eq_refl). destruct (isAll hashType1); [by rewrite (Hsd eq_refl eq_refl)|done].
Qed.

End Segwit.
Module Toy.

(** A hash that adds the bytes up, in the sizes of the real ones. *)
Definition checksum (n : nat) (b : list Z) : list Z := replicate n (u8 (sum b + 1)).
#[local] Instance toy_hashes : Hashes := {|
  sha256 := checksum 32; sha1 := checksum 20; ripemd160 := checksum 20;
|}.

Lemma checksum_ok n b : length (checksum n b) = n /\ bytes_ok (checksum n b).
Proof. split; [apply length_replicate|]. apply Forall_replicate, u8_byte_ok. Qed.

#[local] Instance toy_laws : HashLaws toy_hashes.
Proof. split; intros b; apply checksum_ok. Qed.

Definition op2 : OutPoint := mkOutPoint (replicate 32 9) 3.
(** Two transactions that differ in the other input's script and sequence, in
    the witnesses and in the second output. *)
Definition tx1 : MsgTx := mkMsgTx 2
  [mkTxIn Wire.Toy.op [1; 2] [] 7; mkTxIn op2 [3] [] 8] [mkTxOut 50 [0x51]; mkTxOut 60 [0x52]] 99.
Definition tx2 : MsgTx := mkMsgTx 2
  [mkTxIn Wire.Toy.op [] [[5]] 7; mkTxIn op2 [] [] 0] [mkTxOut 50 [0x51]; mkTxOut 61 []] 99.
(** OP_DUP OP_CODESEPARATOR OP_CHECKSIG, and the same without the separator. *)
Definition script1 : list Z := [0x76; 0xab; 0xac].
Definition script2 : list Z := [0x76; 0xac].

Definition copy (script : list Z) (tx : MsgTx) : MsgTx :=
  match sigHashTx script SigHashSingle tx 0 with Ok (Some c) => c | _ => tx end.

Lemma toy_signable : signable script1 tx1 0 /\ signable script2 tx2 0.
Proof.
  split; (split; [apply (bool_decide_unpack _); reflexivity|reflexivity| |by vm_compute|by vm_compute]);
    constructor; try (repeat constructor; vm_compute; done).
Qed.

(** SIGHASH_SINGLE does not cover what they differ in. *)
Lemma legacy_sighash_covers_witness :
  sigHashPreimage (copy script1 tx1) SigHashSingle = sigHashPreimage (copy script2 tx2) SigHashSingle.
Proof.
  apply (legacy_sighash_covers script1 script2 SigHashSingle SigHashSingle tx1 tx2 0);
    [apply toy_signable|apply toy_signable|by vm_compute|by vm_compute|reflexivity|reflexivity|].
  split; [reflexivity|split; [reflexivity|]].
  split; try reflexivity; try discriminate.
  by exists (mkTxIn Wire.Toy.op [1; 2] [] 7), (mkTxIn Wire.Toy.op [] [[5]] 7).
Defined.

Definition prevOut (op : OutPoint) : option TxOut := Some (mkTxOut 1000 (OP_0 :: OP_DATA_20 :: replicate 20 1)).
Definition midstate (tx : MsgTx) : TxSigHashes :=
  match NewTxSigHashes prevOut tx with Ok m => m | _ => mkTxSigHashes [] [] [] [] [] [] [] [] end.
(** The signed input is the first, with the single output at its index. *)
Definition single : Z := Z.lor SigHashSingle SigHashAnyOneCanPay.
Definition pre (tx : MsgTx) : list Z :=
  match witnessPreimage script2 (midstate tx) single tx 0 1000 with Ok p => p | _ => [] end.

Lemma witness_sighash_covers_witness : witnessPreimage script2 (midstate tx1) single tx1 0 1000 = Ok (pre tx1) /\
  witnessPreimage script2 (midstate tx2) single tx2 0 1000 = Ok (pre tx2) /\ tx1 <> tx2 /\ pre tx1 = pre tx2.
Proof.
  assert (Hargs : segwit_args script2 tx1 1000 /\ segwit_args script2 tx2 1000).
  { destruct toy_signable as [[_ _ H1 _ _] [_ _ H2 _ _]].
    split; (split; [by vm_compute|by vm_compute|by vm_compute| |by vm_compute]); [apply H1|apply H2]. }
  split_and!; [reflexivity|reflexivity|by intros [=]|].
  apply (witness_sighash_covers prevOut prevOut script2 script2 (midstate tx1) (midstate tx2) single single tx1 tx2 0 0 1000 1000);
    [apply Hargs|apply Hargs|reflexivity|reflexivity| | |by vm_compute|by vm_compute|by vm_compute|by vm_compute|reflexivity|reflexivity|].
  - by eexists _, _.
  - by eexists _, _.
  - split; try reflexivity; try discriminate. by exists (mkTxIn Wire.Toy.op [1; 2] [] 7), (mkTxIn Wire.Toy.op [] [[5]] 7).
Defined.

End Toy.
End SigHash.
