(* ===== verification/SigCheck.v ===== *)
(** * Signature and key encodings, the signature cache

    Models the encoding checks of coin/OrcaNet/txscript/engine.go
    (checkHashTypeEncoding, checkPubKeyEncoding, checkSignatureEncoding), the
    script flags, and coin/OrcaNet/txscript/sigcache.go.  The curve operations
    of btcec and of its secp256k1 dependency are the class [Crypto]. *)

From S2P Require Import Prelude ScriptNum Wire SigHash.

Module SigCheck.
Import ScriptNum Wire SigHash.

(** ** Script flags *)
Definition ScriptFlags : Type := Z.
Definition ScriptBip16 : ScriptFlags := 2 ^ 0.
Definition ScriptStrictMultiSig : ScriptFlags := 2 ^ 1.
Definition ScriptDiscourageUpgradableNops : ScriptFlags := 2 ^ 2.
Definition ScriptVerifyCheckLockTimeVerify : ScriptFlags := 2 ^ 3.
Definition ScriptVerifyCheckSequenceVerify : ScriptFlags := 2 ^ 4.
Definition ScriptVerifyCleanStack : ScriptFlags := 2 ^ 5.
Definition ScriptVerifyDERSignatures : ScriptFlags := 2 ^ 6.
Definition ScriptVerifyLowS : ScriptFlags := 2 ^ 7.
Definition ScriptVerifyMinimalData : ScriptFlags := 2 ^ 8.
Definition ScriptVerifyNullFail : ScriptFlags := 2 ^ 9.
Definition ScriptVerifySigPushOnly : ScriptFlags := 2 ^ 10.
Definition ScriptVerifyStrictEncoding : ScriptFlags := 2 ^ 11.
Definition ScriptVerifyWitness : ScriptFlags := 2 ^ 12.
Definition ScriptVerifyDiscourageUpgradeableWitnessProgram : ScriptFlags := 2 ^ 13.
Definition ScriptVerifyMinimalIf : ScriptFlags := 2 ^ 14.
Definition ScriptVerifyWitnessPubKeyType : ScriptFlags := 2 ^ 15.
Definition ScriptVerifyTaproot : ScriptFlags := 2 ^ 16.
Definition ScriptVerifyDiscourageUpgradeableTaprootVersion : ScriptFlags := 2 ^ 17.
Definition ScriptVerifyDiscourageOpSuccess : ScriptFlags := 2 ^ 18.
Definition ScriptVerifyDiscourageUpgradeablePubkeyType : ScriptFlags := 2 ^ 19.

Definition hasFlag (flags flag : ScriptFlags) : bool := Z.land flags flag =? flag.

(** ** The signature cache *)
Record sigCacheEntry := mkEntry {
  e_sig : list Z;
  e_pubKey : list Z;
}.

Record SigCache := mkSigCache {
  validSigs : gmap (list Z) sigCacheEntry;
  maxEntries : Z;
}.

Definition NewSigCache (maxEntries : Z) : SigCache := mkSigCache ∅ maxEntries.

Definition Exists (s : SigCache) (sigHash sig pubKey : list Z) : bool :=
  match validSigs s !! sigHash with
  | Some entry => bool_decide (e_pubKey entry = pubKey) && bool_decide (e_sig entry = sig)
  | None => false
  end.

(** btcec, its schnorr package and the secp256k1 library below them: parsing
    (nothing on an error), verification, the order of the group halved, and
    the tweak of a taproot output key (its x coordinate, and whether y is
    odd).  [firstKey] is the key that Go's iteration over a map meets first,
    nothing for an empty map. *)
Class Crypto := {
  crypto_hashes :: Hashes;
  PublicKey : Type;
  Signature : Type;
  ParsePubKey : list Z -> option PublicKey;
  ParseDERSignature : list Z -> option Signature;
  ParseSignature : list Z -> option Signature;
  Verify : Signature -> list Z -> PublicKey -> bool;
  halfOrder : Z;
  SchnorrSignature : Type;
  SchnorrParsePubKey : list Z -> option PublicKey;
  SchnorrParseSignature : list Z -> option SchnorrSignature;
  SchnorrVerify : SchnorrSignature -> list Z -> PublicKey -> bool;
  ComputeTaprootOutputKey : PublicKey -> list Z -> list Z * bool;
  firstKey : gmap (list Z) sigCacheEntry -> option (list Z);
}.

Section Checks.
Context {C : Crypto}.

Definition Add (s : SigCache) (sigHash sig pubKey : list Z) : SigCache :=
  if maxEntries s <=? 0 then s
  else
    let m := if maxEntries s <? Z.of_nat (size (validSigs s)) + 1
             then match firstKey (validSigs s) with
                  | Some sigEntry => delete sigEntry (validSigs s)
                  | None => validSigs s
                  end
             else validSigs s in
    mkSigCache (<[sigHash := mkEntry sig pubKey]> m) (maxEntries s).

(** The lookup and insertion around one verification, as verifySig and the
    loop of OP_CHECKMULTISIG do it. *)
Definition cachedVerify (cache : option SigCache) (sigHash sig pubKey : list Z) (verify : bool)
    : bool * option SigCache :=
  match cache with
  | None => (verify, None)
  | Some s =>
      if Exists s sigHash sig pubKey then (true, Some s)
      else if verify then (true, Some (Add s sigHash sig pubKey))
      else (false, Some s)
  end.

(** ** Encoding checks *)
Definition checkHashTypeEncoding (flags : ScriptFlags) (hashType : Z) : outcome ErrorCode unit :=
  if negb (hasFlag flags ScriptVerifyStrictEncoding) then Ok ()
  else
    let sigHashType := Z.land hashType (Z.lnot SigHashAnyOneCanPay) in
    if (sigHashType <? SigHashAll) || (SigHashSingle <? sigHashType) then Err ErrInvalidSigHashType
    else Ok ().

Definition IsCompressedPubKey (pubKey : list Z) : bool :=
  (Zlen pubKey =? 33) && (Z.land (nth 0 pubKey 0) (Z.lnot 0x1) =? 0x2).

(** [v0] is whether a version 0 witness program is active. *)
Definition checkPubKeyEncoding (flags : ScriptFlags) (v0 : bool) (pubKey : list Z)
    : outcome ErrorCode unit :=
  if hasFlag flags ScriptVerifyWitnessPubKeyType && v0 && negb (IsCompressedPubKey pubKey)
  then Err ErrWitnessPubKeyType
  else if negb (hasFlag flags ScriptVerifyStrictEncoding) then Ok ()
  else if (Zlen pubKey =? 33) && ((nth 0 pubKey 0 =? 0x02) || (nth 0 pubKey 0 =? 0x03)) then Ok ()
  else if (Zlen pubKey =? 65) && (nth 0 pubKey 0 =? 0x04) then Ok ()
  else Err ErrPubKeyType.

Definition asn1SequenceID := 0x30.
Definition asn1IntegerID := 0x02.
Definition minSigLen := 8.
Definition maxSigLen := 72.
Definition rOffset := 4.

(** One integer of the signature: its type and length have been located. *)
Definition checkInteger (sig : list Z) (typeOffset offset len : Z) (badID zero negative padding : ErrorCode)
    : outcome ErrorCode unit :=
  t ← index sig typeOffset;
  if negb (t =? asn1IntegerID) then Err badID
  else if len =? 0 then Err zero
  else
    b ← index sig offset;
    if negb (Z.land b 0x80 =? 0) then Err negative
    else if (1 <? len) && (b =? 0x00) then
      b1 ← index sig (offset + 1);
      if Z.land b1 0x80 =? 0 then Err padding else Ok ()
    else Ok ().

Definition checkSignatureEncoding (flags : ScriptFlags) (sig : list Z) : outcome ErrorCode unit :=
  if negb (hasFlag flags ScriptVerifyDERSignatures) && negb (hasFlag flags ScriptVerifyLowS)
     && negb (hasFlag flags ScriptVerifyStrictEncoding)
  then Ok ()
  else
    let sigLen := Zlen sig in
    if sigLen <? minSigLen then Err ErrSigTooShort
    else if maxSigLen <? sigLen then Err ErrSigTooLong
    else
      b0 ← index sig 0;
      if negb (b0 =? asn1SequenceID) then Err ErrSigInvalidSeqID
      else
        b1 ← index sig 1;
        if negb (b1 =? sigLen - 2) then Err ErrSigInvalidDataLen
        else
          rLen ← index sig 3;
          let sTypeOffset := rOffset + rLen in
          let sLenOffset := sTypeOffset + 1 in
          if sigLen <=? sTypeOffset then Err ErrSigMissingSTypeID
          else if sigLen <=? sLenOffset then Err ErrSigMissingSLen
          else
            let sOffset := sLenOffset + 1 in
            sLen ← index sig sLenOffset;
            if negb (sOffset + sLen =? sigLen) then Err ErrSigInvalidSLen
            else
              _ ← checkInteger sig 2 rOffset rLen ErrSigInvalidRIntID ErrSigZeroRLen ErrSigNegativeR
                    ErrSigTooMuchRPadding;
              _ ← checkInteger sig sTypeOffset sOffset sLen ErrSigInvalidSIntID ErrSigZeroSLen ErrSigNegativeS
                    ErrSigTooMuchSPadding;
              if hasFlag flags ScriptVerifyLowS then
                sBytes ← slice sig sOffset (sOffset + sLen);
                if halfOrder <? be_val sBytes then Err ErrSigHighS else Ok ()
              else Ok ().

(** ** The accepted signatures *)

(** The shortest encoding of a non-negative integer. *)
Definition derInt (b : list Z) : Prop :=
  match b with
  | [] => False
  | [x] => x < 128
  | x :: y :: _ => x < 128 /\ (x = 0 -> 128 <= y)
  end.

#[export] Instance derInt_dec b : Decision (derInt b).
Proof. destruct b as [|x [|y b]]; apply _. Defined.

(** The DER form of a pair of integers. *)
Definition DER (r s : list Z) : list Z :=
  [0x30; Zlen r + Zlen s + 4; 0x02; Zlen r] ++ r ++ [0x02; Zlen s] ++ s.

(** A check that returns: it succeeds exactly when [P] holds. *)
Definition decides (m : outcome ErrorCode unit) (P : Prop) : Prop :=
  (m = Ok () /\ P) \/ ((exists e, m = Err e) /\ ~ P).

Lemma decides_err e P : ~ P -> decides (Err e) P.
Proof. intros. right. split; [by eexists|done]. Qed.

Lemma decides_bind m n P Q : decides m P -> (P -> decides n Q) -> (Q -> P) -> decides (_ ← m; n) Q.
Proof.
  intros [[-> HP]|[[e ->] HP]] Hn HQ; [by apply Hn|]. apply decides_err. tauto.
Qed.

Lemma decides_iff m P Q : (P <-> Q) -> decides m P -> decides m Q.
Proof. unfold decides. tauto. Qed.

Lemma checkInteger_decides sig typeOffset offset len e1 e2 e3 e4 :
  bytes_ok sig -> 0 <= typeOffset < Zlen sig -> 0 <= offset -> 0 <= len -> offset + len <= Zlen sig ->
  decides (checkInteger sig typeOffset offset len e1 e2 e3 e4)
    (sig !! Z.to_nat typeOffset = Some 0x02 /\ derInt (take (Z.to_nat len) (drop (Z.to_nat offset) sig))).
Proof.
  intros Hb Ht Ho Hl Hend. unfold checkInteger.
  destruct (lookup_Z sig typeOffset Ht) as [t Hlt].
  assert (Hi : index (E:=ErrorCode) sig typeOffset = Ok t) by (apply index_ok_iff; split; [lia|done]).
  rewrite Hi, Hlt. cbn [mbind outcome_bind]. unfold asn1IntegerID.
  destruct (Z.eqb_spec t 0x02) as [->|Hne]; cbn [negb]; [|apply decides_err; intros [[= ?] _]; done].
  destruct (Z.eqb_spec len 0) as [->|Hnz]; [apply decides_err; by intros [_ ?]|].
  assert (Hd : exists x l, drop (Z.to_nat offset) sig = x :: l /\ sig !! Z.to_nat offset = Some x).
  { destruct (lookup_Z sig offset ltac:(lia)) as [x Hx]. exists x.
    eexists. split; [by apply drop_S|done]. }
  destruct Hd as (x & l & Hdrop & Hx).
  assert (Hix : index (E:=ErrorCode) sig offset = Ok x) by (apply index_ok_iff; split; [lia|done]).
  rewrite Hix, Hdrop. cbn [mbind outcome_bind].
  assert (Hxl : bytes_ok (x :: l)) by (rewrite <- Hdrop; by apply Forall_drop).
  apply list.Forall_cons in Hxl as [Hxb Hlb]. destruct (byte_bits x Hxb) as (_ & Hx80 & _).
  unfold byte_ok in Hxb. change (Z.land x 128) with (Z.land x 0x80). rewrite Hx80.
  destruct (Z.to_nat len) as [|n] eqn:Hn; [lia|]. cbn [take].
  destruct (Z.ltb_spec x 128); cbn [negb].
  2: { apply decides_err. intros [_ Hder]. destruct (take n l); cbn in Hder; lia. }
  destruct (Z.ltb_spec 1 len) as [H1|H1]; cbn [andb].
  2: { assert (n = 0)%nat as -> by lia. left. split; [done|]. split; [done|exact H]. }
  assert (Hlen : Zlen l + 1 = Zlen sig - offset).
  { apply (f_equal Zlen) in Hdrop. rewrite Zlen_cons in Hdrop. unfold Zlen in *. rewrite length_drop in Hdrop. lia. }
  destruct l as [|y l]; [rewrite Zlen_nil in Hlen; lia|].
  destruct n as [|n]; [lia|]. cbn [take derInt].
  destruct (Z.eqb_spec x 0) as [->|Hx0]; [|left; split; [done|split; [done|split; [done|lia]]]].
  assert (Hiy : index (E:=ErrorCode) sig (offset + 1) = Ok y).
  { apply index_ok_iff. split; [lia|]. replace (Z.to_nat (offset + 1)) with (Z.to_nat offset + 1)%nat by lia.
    rewrite <- lookup_drop, Hdrop. done. }
  rewrite Hiy. cbn [mbind outcome_bind].
  apply list.Forall_cons in Hlb as [Hyb _]. destruct (byte_bits y Hyb) as (_ & Hy80 & _). rewrite Hy80.
  destruct (Z.ltb_spec y 128).
  - apply decides_err. intros (_ & _ & Hy). specialize (Hy eq_refl). lia.
  - left. split; [done|]. split; [done|]. split; [done|]. intros _. lia.
Qed.

(** What checkSignatureEncoding accepts once a flag asks for it. *)
Definition strictSig (flags : ScriptFlags) (sig : list Z) : Prop :=
  exists r s, sig = DER r s /\ derInt r /\ derInt s /\ Zlen sig <= maxSigLen /\
    (hasFlag flags ScriptVerifyLowS = true -> be_val s <= halfOrder).

Lemma derInt_pos b : derInt b -> 1 <= Zlen b.
Proof using. destruct b; [done|]. rewrite Zlen_cons. len_lia. Qed.

(** The parts of an accepted signature, by position. *)
Lemma strictSig_inv flags b0 b1 b2 rLen rest : strictSig flags (b0 :: b1 :: b2 :: rLen :: rest) ->
  exists r s, b0 = 0x30 /\ b1 = Zlen r + Zlen s + 4 /\ b2 = 0x02 /\ rLen = Zlen r /\
    rest = r ++ 0x02 :: Zlen s :: s /\ derInt r /\ derInt s /\
    Zlen rest = Zlen r + Zlen s + 2 /\
    (hasFlag flags ScriptVerifyLowS = true -> be_val s <= halfOrder).
Proof.
  intros (r & s & Hs & Hr & Hss & _ & Hlow). unfold DER in Hs. cbn [app] in Hs.
  injection Hs as -> -> -> -> ->. exists r, s. split_and!; try done. len_lia.
Qed.

Lemma strictSig_length flags sig : strictSig flags sig -> minSigLen <= Zlen sig <= maxSigLen.
Proof.
  intros (r & s & -> & Hr & Hs & Hl & _). split; [|done]. apply derInt_pos in Hr, Hs.
  unfold DER, minSigLen. rewrite !Zlen_app. change (Zlen [48; _; 2; _]) with 4.
  change (Zlen [2; _]) with 2. lia.
Qed.

Lemma checkSignatureEncoding_decides flags sig : bytes_ok sig ->
  hasFlag flags ScriptVerifyDERSignatures || hasFlag flags ScriptVerifyLowS
    || hasFlag flags ScriptVerifyStrictEncoding = true ->
  decides (checkSignatureEncoding flags sig) (strictSig flags sig).
Proof.
  intros Hb Hflag. unfold checkSignatureEncoding. rewrite <- !negb_orb, Hflag. cbn [negb].
  pose proof (strictSig_length flags sig) as Hlen.
  destruct (Z.ltb_spec (Zlen sig) minSigLen); [apply decides_err; intros HP; specialize (Hlen HP); lia|].
  destruct (Z.ltb_spec maxSigLen (Zlen sig)); [apply decides_err; intros HP; specialize (Hlen HP); lia|].
  clear Hlen. unfold minSigLen, maxSigLen in *.
  destruct sig as [|b0 [|b1 [|b2 [|rLen rest]]]]; [unfold Zlen in *; simpl in *; lia..|].
  set (sig := b0 :: b1 :: b2 :: rLen :: rest) in *.
  assert (Hzl : Zlen sig = Zlen rest + 4) by (unfold sig; len_lia).
  change (index (E:=ErrorCode) sig 0) with (Ok (E:=ErrorCode) b0).
  change (index (E:=ErrorCode) sig 1) with (Ok (E:=ErrorCode) b1).
  change (index (E:=ErrorCode) sig 3) with (Ok (E:=ErrorCode) rLen). cbn [mbind outcome_bind].
  pose proof (strictSig_inv flags b0 b1 b2 rLen rest) as Hinv. fold sig in Hinv.
  assert (Hrb : 0 <= rLen < 256).
  { pose proof Hb as Hb'. do 3 apply list.Forall_cons in Hb' as [_ Hb'].
    by apply list.Forall_cons in Hb' as [? _]. }
  unfold asn1SequenceID, rOffset.
  destruct (Z.eqb_spec b0 0x30) as [Hb0|]; cbn [negb];
    [|apply decides_err; intros HP; destruct (Hinv HP) as (?&?&?&?); done].
  destruct (Z.eqb_spec b1 (Zlen sig - 2)) as [Hb1|]; cbn [negb];
    [|apply decides_err; intros HP; destruct (Hinv HP) as (?&?&?&?&?&?&?&?&?&?&?); lia].
  destruct (Z.leb_spec (Zlen sig) (4 + rLen));
    [apply decides_err; intros HP; destruct (Hinv HP) as (?&?&?&?&?&?&?&?&?&?&?); len_lia|].
  destruct (Z.leb_spec (Zlen sig) (4 + rLen + 1));
    [apply decides_err; intros HP; destruct (Hinv HP) as (?&?&?&?&?&?&?&?&?&?&?); len_lia|].
  (* the two integers *)
  set (r := take (Z.to_nat rLen) rest).
  assert (Hr : Zlen r = rLen) by (unfold r, Zlen in *; rewrite length_take; lia).
  destruct (drop (Z.to_nat rLen) rest) as [|sT [|sLen s]] eqn:Hdrop;
    [apply (f_equal length) in Hdrop; rewrite length_drop in Hdrop; unfold Zlen in *; simpl in *; lia..|].
  assert (Hrest : rest = r ++ sT :: sLen :: s) by (unfold r; rewrite <- Hdrop; by rewrite take_drop).
  assert (Hsig : sig = (b0 :: b1 :: b2 :: rLen :: r) ++ sT :: sLen :: s)
    by (unfold sig at 1; by rewrite Hrest).
  assert (Hpre : Zlen (b0 :: b1 :: b2 :: rLen :: r) = 4 + rLen) by (rewrite !Zlen_cons; lia).
  assert (Hi : index (E:=ErrorCode) sig (4 + rLen + 1) = Ok sLen).
  { rewrite Hsig. rewrite <- Hpre. rewrite index_app_r by lia. done. }
  rewrite Hi. cbn [mbind outcome_bind].
  assert (Hsb : bytes_ok (sT :: sLen :: s))
    by (rewrite Hsig in Hb; by apply list.Forall_app in Hb as [_ Hb]).
  assert (Hslen : 0 <= sLen) by (apply list.Forall_cons in Hsb as [_ Hsb]; apply list.Forall_cons in Hsb as [Hsb _];
    unfold byte_ok in Hsb; lia).
  assert (Hzs : Zlen sig = 4 + rLen + 2 + Zlen s) by (rewrite Hzl, Hrest; len_lia).
  assert (Hcut : forall r' s', rest = r' ++ 0x02 :: Zlen s' :: s' -> Zlen r' = rLen ->
    r' = r /\ sT = 0x02 /\ sLen = Zlen s' /\ s' = s).
  { intros r' s' Hr' Hl'. rewrite Hrest in Hr'.
    apply app_inj_1 in Hr' as [-> [= -> -> ->]]; [done|unfold Zlen in *; lia]. }
  destruct (Z.eqb_spec (4 + rLen + 1 + 1 + sLen) (Zlen sig)) as [Hs|]; cbn [negb].
  2: { apply decides_err. intros HP. destruct (Hinv HP) as (r' & s' & _ & _ & _ & Hl & Hr' & _).
    destruct (Hcut r' s' Hr' ltac:(lia)) as (_ & _ & ? & ->). lia. }
  assert (HsL : sLen = Zlen s) by lia.
  assert (Htaker : take (Z.to_nat rLen) (drop (Z.to_nat 4) sig) = r) by done.
  assert (Hdrops : drop (Z.to_nat (4 + rLen + 1 + 1)) sig = s).
  { replace (Z.to_nat (4 + rLen + 1 + 1)) with (4 + (Z.to_nat rLen + 2))%nat by lia.
    rewrite <- drop_drop. change (drop 4 sig) with rest. rewrite <- drop_drop, Hdrop. done. }
  assert (HsT : sig !! Z.to_nat (4 + rLen) = Some sT).
  { rewrite Hsig, lookup_app_r by (unfold Zlen in Hpre; lia).
    replace (Z.to_nat (4 + rLen) - _)%nat with 0%nat by (unfold Zlen in Hpre; lia). done. }
  eapply decides_bind; [apply checkInteger_decides; [done|lia|lia|lia|lia]| |].
  2: { intros HP. destruct (Hinv HP) as (r' & s' & _ & _ & Hb2 & Hl & Hr' & Hdr & _).
    destruct (Hcut r' s' Hr' ltac:(lia)) as (-> & _). rewrite Htaker. split; [|done]. change (sig !! Z.to_nat 2) with (Some b2). by rewrite Hb2. }
  rewrite Htaker. intros [Hb2 Hdr]. change (Some b2 = Some 2) in Hb2. injection Hb2 as Hb2.
  eapply decides_bind; [apply checkInteger_decides; [done|lia|lia|lia|lia]| |].
  2: { intros HP. destruct (Hinv HP) as (r' & s' & _ & _ & _ & Hl & Hr' & _ & Hds & _).
    destruct (Hcut r' s' Hr' ltac:(lia)) as (_ & -> & _ & ->). rewrite Hdrops, HsT.
    rewrite take_ge by (unfold Zlen in HsL; lia). done. }
  rewrite Hdrops, HsT. rewrite take_ge by (unfold Zlen in HsL; lia). intros [[= ->] Hds].
  assert (HDER : sig = DER r s).
  { rewrite Hsig, Hb0, Hb1, Hb2. unfold DER. cbn [app]. rewrite Hr, <- HsL. f_equal. f_equal. lia. }
  assert (Hlows : strictSig flags sig <-> (hasFlag flags ScriptVerifyLowS = true -> be_val s <= halfOrder)).
  { split.
    - intros HP. destruct (Hinv HP) as (r' & s' & _ & _ & _ & Hl & Hr' & _ & _ & _ & Hlow).
      destruct (Hcut r' s' Hr' ltac:(lia)) as (_ & _ & _ & ->). done.
    - intros Hlow. exists r, s. split_and!; try done. }
  eapply decides_iff; [symmetry; exact Hlows|].
  destruct (hasFlag flags ScriptVerifyLowS); [|by left].
  assert (Hsl : slice (E:=ErrorCode) sig (4 + rLen + 1 + 1) (4 + rLen + 1 + 1 + sLen) = Ok s).
  { unfold slice. rewrite decide_True by lia. rewrite Hdrops.
    by rewrite take_ge by (unfold Zlen in HsL; lia). }
  rewrite Hsl. cbn [mbind outcome_bind]. destruct (Z.ltb_spec halfOrder (be_val s)).
  - apply decides_err. intros Hlow. specialize (Hlow eq_refl). lia.
  - by left.
Qed.

(** ** The cache *)

(** Every entry is a valid signature, and there are no more than allowed. *)
Record cache_inv (valid : list Z -> list Z -> list Z -> bool) (s : SigCache) : Prop := {
  ci_sound : forall h e, validSigs s !! h = Some e -> valid h (e_sig e) (e_pubKey e) = true;
  ci_size : Z.of_nat (size (validSigs s)) <= Z.max 0 (maxEntries s);
}.

Lemma Add_inv valid s h sig pk :
  (forall m, m <> ∅ -> exists k, firstKey m = Some k /\ is_Some (m !! k)) ->
  cache_inv valid s -> valid h sig pk = true -> cache_inv valid (Add s h sig pk).
Proof.
  intros Hfirst [Hs Hsz] Hv. unfold Add. destruct (Z.leb_spec (maxEntries s) 0); [by split|].
  set (m := if _ <? _ then _ else _).
  assert (Hm : (forall k e, m !! k = Some e -> valid k (e_sig e) (e_pubKey e) = true) /\
    Z.of_nat (size m) + 1 <= maxEntries s).
  { unfold m. destruct (Z.ltb_spec (maxEntries s) (Z.of_nat (size (validSigs s)) + 1)) as [Hfull|]; [|by split].
    assert (Hne : validSigs s <> ∅) by (intros He; rewrite He, map_size_empty in Hfull; lia).
    destruct (Hfirst _ Hne) as (k & -> & Hk). split.
    - intros k' e Hk'. apply lookup_delete_Some in Hk' as [_ Hk']. by apply Hs.
    - rewrite map_size_delete. destruct Hk as [e Hk]. rewrite Hk.
      assert (size (validSigs s) <> 0%nat) by (by intros ?%map_size_empty_inv).
      cbn. lia. }
  destruct Hm as [Hm1 Hm2]. split; cbn.
  - intros k e Hk. apply lookup_insert_Some in Hk as [[<- <-]|[_ Hk]]; [done|by apply Hm1].
  - rewrite map_size_insert. destruct (m !! h); cbn; lia.
Qed.

(** ** Theorems *)

(** C25. Once a flag asks for strict signatures, checkSignatureEncoding always
    returns, and it accepts exactly the DER encodings, of at most 72 bytes, of
    two non-negative integers in their shortest form, the second one at most
    half of the curve's order when low values are asked for. *)
Theorem checkSignatureEncoding_iff flags sig (Hb : bytes_ok sig)
    (Hflag : hasFlag flags ScriptVerifyDERSignatures || hasFlag flags ScriptVerifyLowS
             || hasFlag flags ScriptVerifyStrictEncoding = true) :
  (checkSignatureEncoding flags sig = Ok () <-> strictSig flags sig) /\
  (checkSignatureEncoding flags sig = Ok () \/ exists e, checkSignatureEncoding flags sig = Err e).
Proof.
  destruct (checkSignatureEncoding_decides flags sig Hb Hflag) as [[-> HP]|[[e ->] HP]].
  - split; [done|by left].
  - split; [done|]. right. by exists e.
Qed.

(** C26. The signature cache changes no verdict: over a cache that holds only
    valid signatures, a verification answers what it answers without the
    cache; the cache keeps holding valid signatures only, within its size,
    and a signature found valid is remembered. *)
Theorem sigcache_transparent valid s h sig pk
    (Hfirst : forall m, m <> ∅ -> exists k, firstKey m = Some k /\ is_Some (m !! k))
    (Hinv : cache_inv valid s) :
  let '(verdict, cache) := cachedVerify (Some s) h sig pk (valid h sig pk) in
  verdict = (cachedVerify None h sig pk (valid h sig pk)).1 /\
  exists s', cache = Some s' /\ cache_inv valid s' /\ maxEntries s' = maxEntries s /\
    (verdict = true -> 0 < maxEntries s -> Exists s' h sig pk = true).
Proof.
  cbn [cachedVerify fst]. destruct (Exists s h sig pk) eqn:Hex.
  - split; [|by exists s]. unfold Exists in Hex. destruct (validSigs s !! h) as [e|] eqn:He; [|done].
    apply andb_true_iff in Hex as [Hp Hsg]. apply bool_decide_eq_true in Hp as <-, Hsg as <-.
    symmetry. by apply (ci_sound _ _ Hinv).
  - destruct (valid h sig pk) eqn:Hv; [|split; [done|by exists s]].
    split; [done|]. exists (Add s h sig pk). split; [done|]. split; [by apply Add_inv|].
    unfold Add, Exists. destruct (Z.leb_spec (maxEntries s) 0); [split; [done|lia]|].
    split; [done|]. intros _ _. cbn. rewrite lookup_insert_eq. cbn.
    by rewrite !bool_decide_eq_true_2.
Qed.

End Checks.

Module Toy.
Import SigHash.Toy.

(** A curve whose keys and signatures are their own bytes. *)
#[local] Instance toy_crypto : Crypto := {|
  crypto_hashes := toy_hashes;
  PublicKey := list Z; Signature := list Z;
  ParsePubKey b := if Zlen b =? 33 then Some b else None;
  ParseDERSignature b := Some b; ParseSignature b := Some b;
  Verify sig hash pk := 10 <=? Zlen sig;
  halfOrder := 2 ^ 255;
  SchnorrSignature := list Z; SchnorrParsePubKey b := Some b; SchnorrParseSignature b := Some b;
  SchnorrVerify sig hash pk := true;
  ComputeTaprootOutputKey pk root := (root, false);
  firstKey m := fst <$> head (map_to_list m);
|}.

Definition sig : list Z := DER [0x21; 7] [0; 0x80].

Lemma checkSignatureEncoding_iff_witness :
  (checkSignatureEncoding (Z.lor ScriptVerifyLowS ScriptVerifyStrictEncoding) sig = Ok () <->
     strictSig (Z.lor ScriptVerifyLowS ScriptVerifyStrictEncoding) sig) /\
  (checkSignatureEncoding (Z.lor ScriptVerifyLowS ScriptVerifyStrictEncoding) sig = Ok () \/
   exists e, checkSignatureEncoding (Z.lor ScriptVerifyLowS ScriptVerifyStrictEncoding) sig = Err e).
Proof.
  apply checkSignatureEncoding_iff; [apply (bool_decide_unpack _); reflexivity|reflexivity].
Defined.

Example padded_integer : checkSignatureEncoding ScriptVerifyDERSignatures (DER [7] []) = Err ErrSigTooShort
  /\ checkSignatureEncoding ScriptVerifyDERSignatures (DER [0; 7] [9; 1]) = Err ErrSigTooMuchRPadding
  /\ checkSignatureEncoding ScriptVerifyDERSignatures sig = Ok ().
Proof. by split_and!. Qed.

(** A full cache of one entry. *)
Definition full : SigCache := Add (NewSigCache 1) [1] [2] [3].

Lemma sigcache_transparent_witness :
  let '(verdict, cache) := cachedVerify (Some full) [4] [5] [6] true in
  verdict = true /\ exists s', cache = Some s' /\ cache_inv (fun _ _ _ => true) s' /\ maxEntries s' = 1 /\
    (verdict = true -> 0 < 1 -> Exists s' [4] [5] [6] = true).
Proof.
  apply (sigcache_transparent (fun _ _ _ => true) full [4] [5] [6]).
  - intros m Hm. destruct (map_to_list m) as [|[k e] l] eqn:Hl.
    + by apply map_to_list_empty_iff in Hl.
    + exists k. cbn. rewrite Hl. split; [done|]. exists e. apply elem_of_map_to_list. rewrite Hl.
      apply list_elem_of_here.
  - split; [done|by vm_compute].
Defined.

End Toy.
End SigCheck.
