(* ===== verification/Taproot.v ===== *)
(** * Taproot commitments and signatures

    Models the parts of coin/OrcaNet/txscript/taproot.go that verify a spend
    (control blocks, leaf and branch hashes, the commitment of a leaf) and the
    taproot and tapscript verifiers of sigvalidate.go, over the curve
    operations of [Crypto]. *)

From S2P Require Import Prelude ScriptNum Wire SigHash SigCheck.

Module Taproot.
Import ScriptNum Wire SigHash SigCheck.

Definition BaseLeafVersion := 0xc0.
Definition TaprootLeafMask := 0xfe.
Definition ControlBlockBaseSize := 33.
Definition ControlBlockNodeSize := 32.
Definition ControlBlockMaxNodeCount := 128.
Definition ControlBlockMaxSize := ControlBlockBaseSize + ControlBlockNodeSize * ControlBlockMaxNodeCount.
Definition SchnorrSignatureSize := 64.

(** bytes.Compare(l, r) > 0 *)
Fixpoint greater (l r : list Z) : bool :=
  match l, r with
  | [], _ => false
  | _ :: _, [] => true
  | x :: l, y :: r => (y <? x) || ((x =? y) && greater l r)
  end.

Section Taproot.
Context {C : Crypto}.

Record ControlBlock := mkControlBlock {
  InternalKey : PublicKey;
  OutputKeyYIsOdd : bool;
  LeafVersion : Z;
  InclusionProof : list Z;
}.

Definition ParseControlBlock (ctrlBlock : list Z) : outcome ErrorCode ControlBlock :=
  if Zlen ctrlBlock <? ControlBlockBaseSize then Err ErrControlBlockTooSmall
  else if ControlBlockMaxSize <? Zlen ctrlBlock then Err ErrControlBlockTooLarge
  else if negb ((Zlen ctrlBlock - ControlBlockBaseSize) mod ControlBlockNodeSize =? 0)
  then Err ErrControlBlockInvalidLength
  else
    b0 ← index ctrlBlock 0;
    rawKey ← slice ctrlBlock 1 33;
    match SchnorrParsePubKey rawKey with
    | None => Err NotScriptError
    | Some pubKey =>
        proofBytes ← slice ctrlBlock 33 (Zlen ctrlBlock);
        mret (mkControlBlock pubKey (Z.land b0 0x01 =? 0x01) (Z.land b0 TaprootLeafMask) proofBytes)
    end.

Definition TapLeafHash (leafVersion : Z) (script : list Z) : list Z :=
  TaggedHash TagTapLeaf (leafVersion :: WriteVarBytes script).

Definition tapBranchHash (l r : list Z) : list Z :=
  if greater l r then TaggedHash TagTapBranch (r ++ l) else TaggedHash TagTapBranch (l ++ r).

(** The nodes of the proof in order, from the leaf to the root. *)
Fixpoint rootLoop (n : nat) (proof acc : list Z) : list Z :=
  match n with
  | O => acc
  | S n => rootLoop n (drop 32 proof) (tapBranchHash acc (take 32 proof))
  end.

Definition RootHash (c : ControlBlock) (revealedScript : list Z) : list Z :=
  let numNodes := Zlen (InclusionProof c) / ControlBlockNodeSize in
  rootLoop (Z.to_nat numNodes) (InclusionProof c) (TapLeafHash (LeafVersion c) revealedScript).

Definition VerifyTaprootLeafCommitment (controlBlock : ControlBlock)
    (taprootWitnessProgram revealedScript : list Z) : outcome ErrorCode unit :=
  let rootHash := RootHash controlBlock revealedScript in
  let '(expectedWitnessProgram, derivedYIsOdd) :=
    ComputeTaprootOutputKey (InternalKey controlBlock) rootHash in
  if negb (bool_decide (expectedWitnessProgram = taprootWitnessProgram)) then Err ErrTaprootMerkleProofInvalid
  else if negb (Bool.eqb (OutputKeyYIsOdd controlBlock) derivedYIsOdd)
  then Err ErrTaprootOutputKeyParityMismatch
  else Ok ().

Definition parseTaprootSigAndPubKey (pkBytes rawSig : list Z)
    : outcome ErrorCode (PublicKey * SchnorrSignature * Z) :=
  match SchnorrParsePubKey pkBytes with
  | None => Err NotScriptError
  | Some pubKey =>
      let parse := fun (raw : list Z) hashType =>
        match SchnorrParseSignature raw with
        | None => Err NotScriptError
        | Some sig => Ok (pubKey, sig, hashType)
        end in
      if Zlen rawSig =? SchnorrSignatureSize then parse rawSig SigHashDefault
      else if (Zlen rawSig =? SchnorrSignatureSize + 1) && negb (nth 64 rawSig 0 =? 0)
      then parse (take 64 rawSig) (nth 64 rawSig 0)
      else Err ErrInvalidTaprootSigLen
  end.

(** Verify of the taproot and tapscript verifiers: an error of the digest is
    an invalid signature. *)
Definition taprootVerify (FetchPrevOutput : OutPoint -> option TxOut) (hashCache : option TxSigHashes)
    (tx : MsgTx) (idx : Z) (opts : taprootSigHashOptions) (cache : option SigCache)
    (pubKey : PublicKey) (sig : SchnorrSignature) (hashType : Z) (pkBytes fullSigBytes : list Z)
    : outcome ErrorCode (bool * option SigCache) :=
  match calcTaprootSignatureHashRaw FetchPrevOutput hashCache hashType tx idx opts with
  | Ok sigHash => Ok (cachedVerify cache sigHash fullSigBytes pkBytes (SchnorrVerify sig sigHash pubKey))
  | Err _ => Ok (false, cache)
  | Panic => Panic
  | Hang => Hang
  end.

End Taproot.
End Taproot.
