(* ===== verification/Opcodes.v ===== *)
(** * The script engine: state and opcodes

    Models the state of coin/OrcaNet/txscript/engine.go and the opcode
    handlers of opcode.go but those of signatures, which are in SigOpcodes.  A
    handler takes the opcode, its data and the engine and returns the engine
    it leaves, or the script error.  The fields the constructor sets and
    nothing changes are part of the same record, as in the code. *)

From S2P Require Import Prelude ScriptNum ScriptStack Tokenizer Builder Wire SigHash SigCheck Taproot.

Module Opcodes.
Import ScriptNum ScriptStack Tokenizer Builder Wire SigHash SigCheck Taproot.

(** ** Constants *)
Definition OP_VERIF := 0x65.
Definition OP_VERNOTIF := 0x66.
Definition OP_IF := 0x63.
Definition OP_NOTIF := 0x64.
Definition OP_ELSE := 0x67.
Definition OP_ENDIF := 0x68.
Definition OP_NOP1 := 0xb0.
Definition OP_NOP4 := 0xb3.
Definition OP_NOP10 := 0xb9.
Definition OpCondFalse := 0.
Definition OpCondTrue := 1.
Definition OpCondSkip := 2.
Definition MaxOpsPerScript := 201.
Definition MaxStackSize := 1000.
Definition LockTimeThreshold := 500000000.
Definition SequenceLockTimeDisabled := 2 ^ 31.
Definition SequenceLockTimeIsSeconds := 2 ^ 22.
Definition SequenceLockTimeMask := 0x0000ffff.
Definition BaseSegwitWitnessVersion := 0.
Definition TaprootWitnessVersion := 1.
Definition sigOpsDelta := 50.

(** isOpcodeDisabled: OP_CAT to OP_RIGHT, OP_INVERT to OP_XOR, OP_2MUL,
    OP_2DIV, OP_MUL to OP_RSHIFT. *)
Definition isOpcodeDisabled (opcode : Z) : bool :=
  existsb (Z.eqb opcode)
    [0x7e; 0x7f; 0x80; 0x81; 0x83; 0x84; 0x85; 0x86; 0x8d; 0x8e; 0x95; 0x96; 0x97; 0x98; 0x99].

Definition isOpcodeAlwaysIllegal (opcode : Z) : bool := (opcode =? OP_VERIF) || (opcode =? OP_VERNOTIF).

Definition isOpcodeConditional (opcode : Z) : bool :=
  (opcode =? OP_IF) || (opcode =? OP_NOTIF) || (opcode =? OP_ELSE) || (opcode =? OP_ENDIF).

(** ** State *)
Record taprootExecutionCtx := mkTaprootCtx {
  annex : option (list Z);
  codeSepPos : Z;
  tapLeafHash : list Z;
  sigOpsBudget : Z;
  mustSucceed : bool;
}.

Definition tallysigOp (t : taprootExecutionCtx) : outcome ErrorCode taprootExecutionCtx :=
  let budget := i32 (sigOpsBudget t - sigOpsDelta) in
  if budget <? 0 then Err ErrTaprootMaxSigOps
  else Ok (mkTaprootCtx (annex t) (codeSepPos t) (tapLeafHash t) budget (mustSucceed t)).

Definition newTaprootExecutionCtx (inputWitnessSize : Z) : taprootExecutionCtx :=
  mkTaprootCtx None blankCodeSepValue zeroHash (i32 (sigOpsDelta + inputWitnessSize)) false.

Record Engine := mkEngine {
  flags : ScriptFlags;
  tx : MsgTx;
  txIdx : Z;
  version : Z;
  bip16 : bool;
  hashCache : option TxSigHashes;
  prevOutFetcher : OutPoint -> option TxOut;
  inputAmount : Z;
  sigCache : option SigCache;
  scripts : list (list Z);
  scriptIdx : Z;
  opcodeIdx : Z;
  lastCodeSep : Z;
  tokenizer : ScriptTokenizer;
  savedFirstStack : list (list Z);
  dstack : stack;
  astack : stack;
  condStack : list Z;
  numOps : Z;
  witnessVersion : Z;
  witnessProgram : option (list Z);
  taprootCtx : option taprootExecutionCtx;
}.

Definition setSigCache (x : option SigCache) (vm : Engine) : Engine :=
  mkEngine (flags vm) (tx vm) (txIdx vm) (version vm) (bip16 vm) (hashCache vm) (prevOutFetcher
    vm) (inputAmount vm) x (scripts vm) (scriptIdx vm) (opcodeIdx vm) (lastCodeSep vm)
    (tokenizer vm) (savedFirstStack vm) (dstack vm) (astack vm) (condStack vm) (numOps vm)
    (witnessVersion vm) (witnessProgram vm) (taprootCtx vm).
Definition setScripts (x : list (list Z)) (vm : Engine) : Engine :=
  mkEngine (flags vm) (tx vm) (txIdx vm) (version vm) (bip16 vm) (hashCache vm) (prevOutFetcher
    vm) (inputAmount vm) (sigCache vm) x (scriptIdx vm) (opcodeIdx vm) (lastCodeSep vm)
    (tokenizer vm) (savedFirstStack vm) (dstack vm) (astack vm) (condStack vm) (numOps vm)
    (witnessVersion vm) (witnessProgram vm) (taprootCtx vm).
Definition setScriptIdx (x : Z) (vm : Engine) : Engine :=
  mkEngine (flags vm) (tx vm) (txIdx vm) (version vm) (bip16 vm) (hashCache vm) (prevOutFetcher
    vm) (inputAmount vm) (sigCache vm) (scripts vm) x (opcodeIdx vm) (lastCodeSep vm) (tokenizer
    vm) (savedFirstStack vm) (dstack vm) (astack vm) (condStack vm) (numOps vm) (witnessVersion
    vm) (witnessProgram vm) (taprootCtx vm).
Definition setOpcodeIdx (x : Z) (vm : Engine) : Engine :=
  mkEngine (flags vm) (tx vm) (txIdx vm) (version vm) (bip16 vm) (hashCache vm) (prevOutFetcher
    vm) (inputAmount vm) (sigCache vm) (scripts vm) (scriptIdx vm) x (lastCodeSep vm) (tokenizer
    vm) (savedFirstStack vm) (dstack vm) (astack vm) (condStack vm) (numOps vm) (witnessVersion
    vm) (witnessProgram vm) (taprootCtx vm).
Definition setLastCodeSep (x : Z) (vm : Engine) : Engine :=
  mkEngine (flags vm) (tx vm) (txIdx vm) (version vm) (bip16 vm) (hashCache vm) (prevOutFetcher
    vm) (inputAmount vm) (sigCache vm) (scripts vm) (scriptIdx vm) (opcodeIdx vm) x (tokenizer
    vm) (savedFirstStack vm) (dstack vm) (astack vm) (condStack vm) (numOps vm) (witnessVersion
    vm) (witnessProgram vm) (taprootCtx vm).
Definition setTokenizer (x : ScriptTokenizer) (vm : Engine) : Engine :=
  mkEngine (flags vm) (tx vm) (txIdx vm) (version vm) (bip16 vm) (hashCache vm) (prevOutFetcher
    vm) (inputAmount vm) (sigCache vm) (scripts vm) (scriptIdx vm) (opcodeIdx vm) (lastCodeSep
    vm) x (savedFirstStack vm) (dstack vm) (astack vm) (condStack vm) (numOps vm)
    (witnessVersion vm) (witnessProgram vm) (taprootCtx vm).
Definition setSavedFirstStack (x : list (list Z)) (vm : Engine) : Engine :=
  mkEngine (flags vm) (tx vm) (txIdx vm) (version vm) (bip16 vm) (hashCache vm) (prevOutFetcher
    vm) (inputAmount vm) (sigCache vm) (scripts vm) (scriptIdx vm) (opcodeIdx vm) (lastCodeSep
    vm) (tokenizer vm) x (dstack vm) (astack vm) (condStack vm) (numOps vm) (witnessVersion vm)
    (witnessProgram vm) (taprootCtx vm).
Definition setDstack (x : stack) (vm : Engine) : Engine :=
  mkEngine (flags vm) (tx vm) (txIdx vm) (version vm) (bip16 vm) (hashCache vm) (prevOutFetcher
    vm) (inputAmount vm) (sigCache vm) (scripts vm) (scriptIdx vm) (opcodeIdx vm) (lastCodeSep
    vm) (tokenizer vm) (savedFirstStack vm) x (astack vm) (condStack vm) (numOps vm)
    (witnessVersion vm) (witnessProgram vm) (taprootCtx vm).
Definition setAstack (x : stack) (vm : Engine) : Engine :=
  mkEngine (flags vm) (tx vm) (txIdx vm) (version vm) (bip16 vm) (hashCache vm) (prevOutFetcher
    vm) (inputAmount vm) (sigCache vm) (scripts vm) (scriptIdx vm) (opcodeIdx vm) (lastCodeSep
    vm) (tokenizer vm) (savedFirstStack vm) (dstack vm) x (condStack vm) (numOps vm)
    (witnessVersion vm) (witnessProgram vm) (taprootCtx vm).
Definition setCondStack (x : list Z) (vm : Engine) : Engine :=
  mkEngine (flags vm) (tx vm) (txIdx vm) (version vm) (bip16 vm) (hashCache vm) (prevOutFetcher
    vm) (inputAmount vm) (sigCache vm) (scripts vm) (scriptIdx vm) (opcodeIdx vm) (lastCodeSep
    vm) (tokenizer vm) (savedFirstStack vm) (dstack vm) (astack vm) x (numOps vm)
    (witnessVersion vm) (witnessProgram vm) (taprootCtx vm).
Definition setNumOps (x : Z) (vm : Engine) : Engine :=
  mkEngine (flags vm) (tx vm) (txIdx vm) (version vm) (bip16 vm) (hashCache vm) (prevOutFetcher
    vm) (inputAmount vm) (sigCache vm) (scripts vm) (scriptIdx vm) (opcodeIdx vm) (lastCodeSep
    vm) (tokenizer vm) (savedFirstStack vm) (dstack vm) (astack vm) (condStack vm) x
    (witnessVersion vm) (witnessProgram vm) (taprootCtx vm).
Definition setWitnessProgram (x : option (list Z)) (vm : Engine) : Engine :=
  mkEngine (flags vm) (tx vm) (txIdx vm) (version vm) (bip16 vm) (hashCache vm) (prevOutFetcher
    vm) (inputAmount vm) (sigCache vm) (scripts vm) (scriptIdx vm) (opcodeIdx vm) (lastCodeSep
    vm) (tokenizer vm) (savedFirstStack vm) (dstack vm) (astack vm) (condStack vm) (numOps vm)
    (witnessVersion vm) x (taprootCtx vm).
Definition setTaprootCtx (x : option taprootExecutionCtx) (vm : Engine) : Engine :=
  mkEngine (flags vm) (tx vm) (txIdx vm) (version vm) (bip16 vm) (hashCache vm) (prevOutFetcher
    vm) (inputAmount vm) (sigCache vm) (scripts vm) (scriptIdx vm) (opcodeIdx vm) (lastCodeSep
    vm) (tokenizer vm) (savedFirstStack vm) (dstack vm) (astack vm) (condStack vm) (numOps vm)
    (witnessVersion vm) (witnessProgram vm) x.

Section Handlers.
Context {C : Crypto}.

Definition vmFlag (vm : Engine) (flag : ScriptFlags) : bool := hasFlag (flags vm) flag.

(** isBranchExecuting; the top of condStack is its last element. *)
Definition isBranchExecuting (vm : Engine) : bool :=
  if Zlen (condStack vm) =? 0 then true else List.last (condStack vm) 0 =? OpCondTrue.

Definition isWitnessVersionActive (vm : Engine) (v : Z) : bool :=
  match witnessProgram vm with Some _ => witnessVersion vm =? v | None => false end.

Definition taproot (vm : Engine) : bool := bool_decide (is_Some (taprootCtx vm)).

Definition handler : Type := Z -> list Z -> Engine -> outcome ErrorCode Engine.

(** Run an operation of the data stack. *)
Definition onStack (f : stack -> outcome ErrorCode stack) (vm : Engine) : outcome ErrorCode Engine :=
  s ← f (dstack vm); mret (setDstack s vm).

Definition push (so : list Z) (vm : Engine) : Engine := setDstack (PushByteArray so (dstack vm)) vm.
Definition pushBool (b : bool) (vm : Engine) : Engine := setDstack (PushBool b (dstack vm)) vm.
Definition pushInt (n : Z) : Engine -> outcome ErrorCode Engine := onStack (PushInt n).

(** ** Constants, conditionals and flow *)
Definition opcodeDisabled : handler := fun _ _ _ => Err ErrDisabledOpcode.
Definition opcodeReserved : handler := fun _ _ _ => Err ErrReservedOpcode.
Definition opcodeInvalid : handler := fun _ _ _ => Err ErrReservedOpcode.
Definition opcodeFalse : handler := fun _ _ vm => Ok (push [] vm).
Definition opcodePushData : handler := fun _ data vm => Ok (push data vm).
Definition opcode1Negate : handler := fun _ _ => pushInt (-1).
Definition opcodeN : handler := fun op _ => pushInt (u8 (op - (OP_1 - 1))).

Definition opcodeNop : handler := fun op _ vm =>
  if ((op =? OP_NOP1) || ((OP_NOP4 <=? op) && (op <=? OP_NOP10)))
     && vmFlag vm ScriptDiscourageUpgradableNops
  then Err ErrDiscourageUpgradableNOPs else Ok vm.

Definition popIfBool (vm : Engine) : outcome ErrorCode (bool * Engine) :=
  if negb (isWitnessVersionActive vm TaprootWitnessVersion)
     && (negb (isWitnessVersionActive vm BaseSegwitWitnessVersion)
         || negb (vmFlag vm ScriptVerifyMinimalIf))
  then '(b, s) ← PopBool (dstack vm); mret (b, setDstack s vm)
  else
    '(so, s) ← PopByteArray (dstack vm);
    if 1 <? Zlen so then Err ErrMinimalIf
    else if (Zlen so =? 1) && negb (nth 0 so 0 =? 0x01) then Err ErrMinimalIf
    else mret (asBool so, setDstack s vm).

(** [sense] is true for OP_IF and false for OP_NOTIF. *)
Definition condOp (sense : bool) (vm : Engine) : outcome ErrorCode Engine :=
  if isBranchExecuting vm then
    '(ok, vm) ← popIfBool vm;
    mret (setCondStack (condStack vm ++ [if Bool.eqb ok sense then OpCondTrue else OpCondFalse]) vm)
  else Ok (setCondStack (condStack vm ++ [OpCondSkip]) vm).
Definition opcodeIf : handler := fun _ _ => condOp true.
Definition opcodeNotIf : handler := fun _ _ => condOp false.

Definition opcodeElse : handler := fun _ _ vm =>
  if Zlen (condStack vm) =? 0 then Err ErrUnbalancedConditional
  else
    let top := List.last (condStack vm) 0 in
    let top' := if top =? OpCondTrue then OpCondFalse
                else if top =? OpCondFalse then OpCondTrue else top in
    Ok (setCondStack (removelast (condStack vm) ++ [top']) vm).

Definition opcodeEndif : handler := fun _ _ vm =>
  if Zlen (condStack vm) =? 0 then Err ErrUnbalancedConditional
  else Ok (setCondStack (removelast (condStack vm)) vm).

Definition abstractVerify (c : ErrorCode) (vm : Engine) : outcome ErrorCode Engine :=
  '(verified, s) ← PopBool (dstack vm);
  if (verified : bool) then mret (setDstack s vm) else Err c.

Definition opcodeVerify : handler := fun _ _ => abstractVerify ErrVerify.
Definition opcodeReturn : handler := fun _ _ _ => Err ErrEarlyReturn.

(** ** Lock times *)
Definition verifyLockTime (txLockTime threshold lockTime : Z) : outcome ErrorCode unit :=
  if negb (((txLockTime <? threshold) && (lockTime <? threshold))
           || ((threshold <=? txLockTime) && (threshold <=? lockTime)))
  then Err ErrUnsatisfiedLockTime
  else if txLockTime <? lockTime then Err ErrUnsatisfiedLockTime
  else Ok ().

Definition opcodeCheckLockTimeVerify : handler := fun _ _ vm =>
  if negb (vmFlag vm ScriptVerifyCheckLockTimeVerify) then
    if vmFlag vm ScriptDiscourageUpgradableNops then Err ErrDiscourageUpgradableNOPs else Ok vm
  else
    so ← PeekByteArray 0 (dstack vm);
    lockTime ← MakeScriptNum so (verifyMinimalData (dstack vm)) 5;
    if lockTime <? 0 then Err ErrNegativeLockTime
    else
      _ ← verifyLockTime (LockTime (tx vm)) LockTimeThreshold lockTime;
      txIn ← index (TxIns (tx vm)) (txIdx vm);
      if Sequence txIn =? MaxTxInSequenceNum then Err ErrUnsatisfiedLockTime else Ok vm.

Definition opcodeCheckSequenceVerify : handler := fun _ _ vm =>
  if negb (vmFlag vm ScriptVerifyCheckSequenceVerify) then
    if vmFlag vm ScriptDiscourageUpgradableNops then Err ErrDiscourageUpgradableNOPs else Ok vm
  else
    so ← PeekByteArray 0 (dstack vm);
    stackSequence ← MakeScriptNum so (verifyMinimalData (dstack vm)) 5;
    if stackSequence <? 0 then Err ErrNegativeLockTime
    else if negb (Z.land stackSequence SequenceLockTimeDisabled =? 0) then Ok vm
    else if u32 (Version (tx vm)) <? 2 then Err ErrUnsatisfiedLockTime
    else
      txIn ← index (TxIns (tx vm)) (txIdx vm);
      let txSequence := Sequence txIn in
      if negb (Z.land txSequence SequenceLockTimeDisabled =? 0) then Err ErrUnsatisfiedLockTime
      else
        let lockTimeMask := Z.lor SequenceLockTimeIsSeconds SequenceLockTimeMask in
        _ ← verifyLockTime (Z.land txSequence lockTimeMask) SequenceLockTimeIsSeconds
              (Z.land stackSequence lockTimeMask);
        mret vm.

(** ** Stack *)
Definition opcodeToAltStack : handler := fun _ _ vm =>
  '(so, s) ← PopByteArray (dstack vm);
  mret (setAstack (PushByteArray so (astack vm)) (setDstack s vm)).
Definition opcodeFromAltStack : handler := fun _ _ vm =>
  '(so, s) ← PopByteArray (astack vm);
  mret (push so (setAstack s vm)).
Definition opcode2Drop : handler := fun _ _ => onStack (DropN 2).
Definition opcode2Dup : handler := fun _ _ => onStack (DupN 2).
Definition opcode3Dup : handler := fun _ _ => onStack (DupN 3).
Definition opcode2Over : handler := fun _ _ => onStack (OverN 2).
Definition opcode2Rot : handler := fun _ _ => onStack (RotN 2).
Definition opcode2Swap : handler := fun _ _ => onStack (SwapN 2).
Definition opcodeIfDup : handler := fun _ _ vm =>
  so ← PeekByteArray 0 (dstack vm);
  mret (if asBool so then push so vm else vm).
Definition opcodeDepth : handler := fun _ _ vm => pushInt (Depth (dstack vm)) vm.
Definition opcodeDrop : handler := fun _ _ => onStack (DropN 1).
Definition opcodeDup : handler := fun _ _ => onStack (DupN 1).
Definition opcodeNip : handler := fun _ _ => onStack (NipN 1).
Definition opcodeOver : handler := fun _ _ => onStack (OverN 1).
Definition opcodePick : handler := fun _ _ => onStack (fun s => '(val, s) ← PopInt s; PickN (Int32 val) s).
Definition opcodeRoll : handler := fun _ _ => onStack (fun s => '(val, s) ← PopInt s; RollN (Int32 val) s).
Definition opcodeRot : handler := fun _ _ => onStack (RotN 1).
Definition opcodeSwap : handler := fun _ _ => onStack (SwapN 1).
Definition opcodeTuck : handler := fun _ _ => onStack Tuck.
Definition opcodeSize : handler := fun _ _ vm =>
  so ← PeekByteArray 0 (dstack vm); pushInt (Zlen so) vm.

(** ** Comparison and arithmetic *)
Definition equalOp (s : stack) : outcome ErrorCode stack :=
  '(a, s) ← PopByteArray s;
  '(b, s) ← PopByteArray s;
  mret (PushBool (bool_decide (a = b)) s).
Definition opcodeEqual : handler := fun _ _ => onStack equalOp.
Definition opcodeEqualVerify : handler := fun op data vm =>
  vm ← opcodeEqual op data vm; abstractVerify ErrEqualVerify vm.

Definition unaryInt (f : Z -> Z) (s : stack) : outcome ErrorCode stack :=
  '(m, s) ← PopInt s; PushInt (f m) s.
(** [v0] is the top item and [v1] the one below. *)
Definition binaryInt (f : Z -> Z -> Z) (s : stack) : outcome ErrorCode stack :=
  '(v0, s) ← PopInt s;
  '(v1, s) ← PopInt s;
  PushInt (f v0 v1) s.
Definition bool_num (b : bool) : Z := if b then 1 else 0.

Definition opcode1Add : handler := fun _ _ => onStack (unaryInt (fun m => i64 (m + 1))).
Definition opcode1Sub : handler := fun _ _ => onStack (unaryInt (fun m => i64 (m - 1))).
Definition opcodeNegate : handler := fun _ _ => onStack (unaryInt (fun m => i64 (- m))).
Definition opcodeAbs : handler := fun _ _ => onStack (unaryInt (fun m => if m <? 0 then i64 (- m) else m)).
Definition opcodeNot : handler := fun _ _ => onStack (unaryInt (fun m => bool_num (m =? 0))).
Definition opcode0NotEqual : handler := fun _ _ => onStack (unaryInt (fun m => if m =? 0 then m else 1)).
Definition opcodeAdd : handler := fun _ _ => onStack (binaryInt (fun v0 v1 => i64 (v0 + v1))).
Definition opcodeSub : handler := fun _ _ => onStack (binaryInt (fun v0 v1 => i64 (v1 - v0))).
Definition opcodeBoolAnd : handler := fun _ _ =>
  onStack (binaryInt (fun v0 v1 => bool_num (negb (v0 =? 0) && negb (v1 =? 0)))).
Definition opcodeBoolOr : handler := fun _ _ =>
  onStack (binaryInt (fun v0 v1 => bool_num (negb (v0 =? 0) || negb (v1 =? 0)))).
Definition opcodeNumEqual : handler := fun _ _ => onStack (binaryInt (fun v0 v1 => bool_num (v0 =? v1))).
Definition opcodeNumEqualVerify : handler := fun op data vm =>
  vm ← opcodeNumEqual op data vm; abstractVerify ErrNumEqualVerify vm.
Definition opcodeNumNotEqual : handler := fun _ _ =>
  onStack (binaryInt (fun v0 v1 => bool_num (negb (v0 =? v1)))).
Definition opcodeLessThan : handler := fun _ _ => onStack (binaryInt (fun v0 v1 => bool_num (v1 <? v0))).
Definition opcodeGreaterThan : handler := fun _ _ => onStack (binaryInt (fun v0 v1 => bool_num (v0 <? v1))).
Definition opcodeLessThanOrEqual : handler := fun _ _ =>
  onStack (binaryInt (fun v0 v1 => bool_num (v1 <=? v0))).
Definition opcodeGreaterThanOrEqual : handler := fun _ _ =>
  onStack (binaryInt (fun v0 v1 => bool_num (v0 <=? v1))).
Definition opcodeMin : handler := fun _ _ => onStack (binaryInt (fun v0 v1 => if v1 <? v0 then v1 else v0)).
Definition opcodeMax : handler := fun _ _ => onStack (binaryInt (fun v0 v1 => if v0 <? v1 then v1 else v0)).
Definition opcodeWithin : handler := fun _ _ => onStack (fun s =>
  '(maxVal, s) ← PopInt s;
  '(minVal, s) ← PopInt s;
  '(x, s) ← PopInt s;
  PushInt (bool_num ((minVal <=? x) && (x <? maxVal))) s).

(** ** Hashes *)
Definition hashOp (f : list Z -> list Z) (s : stack) : outcome ErrorCode stack :=
  '(buf, s) ← PopByteArray s; mret (PushByteArray (f buf) s).
Definition opcodeRipemd160 : handler := fun _ _ => onStack (hashOp ripemd160).
Definition opcodeSha1 : handler := fun _ _ => onStack (hashOp sha1).
Definition opcodeSha256 : handler := fun _ _ => onStack (hashOp sha256).
Definition opcodeHash160 : handler := fun _ _ => onStack (hashOp (fun buf => ripemd160 (sha256 buf))).
Definition opcodeHash256 : handler := fun _ _ => onStack (hashOp DoubleHashB).

Definition opcodeCodeSeparator : handler := fun _ _ vm =>
  let vm := setLastCodeSep (ByteIndex (tokenizer vm)) vm in
  Ok match taprootCtx vm with
     | Some t => setTaprootCtx (Some (mkTaprootCtx (annex t) (u32 (OpcodePosition (tokenizer vm)))
                   (tapLeafHash t) (sigOpsBudget t) (mustSucceed t))) vm
     | None => vm
     end.

End Handlers.
End Opcodes.
