(* ===== verification/SigOpcodes.v ===== *)
(** * The script engine: signature opcodes

    Models OP_CHECKSIG, OP_CHECKSIGADD, OP_CHECKMULTISIG and their VERIFY
    forms in coin/OrcaNet/txscript/opcode.go, with the verifiers of
    sigvalidate.go.  A verifier is built and used in one step; an error that
    is not a txscript Error is [NotScriptError]. *)

From S2P Require Import Prelude ScriptNum ScriptStack Tokenizer Builder Wire SigHash SigCheck Taproot Opcodes.

Module SigOpcodes.
Import ScriptNum ScriptStack Tokenizer Builder Wire SigHash SigCheck Taproot Opcodes.

Section Handlers.
Context {C : Crypto}.

Definition v0Active (vm : Engine) : bool := isWitnessVersionActive vm BaseSegwitWitnessVersion.

(** subScript: the script since the last OP_CODESEPARATOR. *)
Definition subScript (vm : Engine) : outcome ErrorCode (list Z) :=
  script ← index (scripts vm) (scriptIdx vm);
  slice script (lastCodeSep vm) (Zlen script).

(** newBaseSigVerifier and newBaseSegwitSigVerifier. *)
Definition parseBaseSigAndPubkey (pkBytes fullSigBytes : list Z) (vm : Engine)
    : outcome ErrorCode (PublicKey * Signature * Z) :=
  let strictEncoding := vmFlag vm ScriptVerifyStrictEncoding || vmFlag vm ScriptVerifyDERSignatures in
  hashType ← index fullSigBytes (Zlen fullSigBytes - 1);
  sigBytes ← slice fullSigBytes 0 (Zlen fullSigBytes - 1);
  _ ← checkHashTypeEncoding (flags vm) hashType;
  _ ← checkSignatureEncoding (flags vm) sigBytes;
  _ ← checkPubKeyEncoding (flags vm) (v0Active vm) pkBytes;
  match ParsePubKey pkBytes with
  | None => Err NotScriptError
  | Some pubKey =>
      match (if strictEncoding then ParseDERSignature sigBytes else ParseSignature sigBytes) with
      | None => Err NotScriptError
      | Some signature => Ok (pubKey, signature, hashType)
      end
  end.

Definition midstates (vm : Engine) : outcome ErrorCode TxSigHashes :=
  match hashCache vm with
  | Some m => Ok m
  | None => NewTxSigHashes (prevOutFetcher vm) (tx vm)
  end.

(** Verify of baseSigVerifier: the digest covers the script without the
    signature. *)
Definition baseVerify (pkBytes fullSigBytes script : list Z) (pubKey : PublicKey) (sig : Signature)
    (hashType : Z) (vm : Engine) : outcome ErrorCode (bool * option SigCache) :=
  script ← removeOpcodeByData script fullSigBytes;
  sigHash ← calcSignatureHash script hashType (tx vm) (txIdx vm);
  mret (cachedVerify (sigCache vm) sigHash (removelast fullSigBytes) pkBytes (Verify sig sigHash pubKey)).

(** Verify of baseSegwitSigVerifier: an error of the digest is an invalid
    signature. *)
Definition segwitVerify (pkBytes fullSigBytes script : list Z) (pubKey : PublicKey) (sig : Signature)
    (hashType : Z) (vm : Engine) : outcome ErrorCode (bool * option SigCache) :=
  m ← midstates vm;
  match calcWitnessSignatureHashRaw script m hashType (tx vm) (txIdx vm) (inputAmount vm) with
  | Ok sigHash =>
      mret (cachedVerify (sigCache vm) sigHash (removelast fullSigBytes) pkBytes (Verify sig sigHash pubKey))
  | Err _ => mret (false, sigCache vm)
  | Panic => Panic
  | Hang => Hang
  end.

(** newBaseTapscriptSigVerifier and Verify: an unknown kind of key is always
    valid. *)
Definition tapscriptVerify (pkBytes rawSig : list Z) (t : taprootExecutionCtx) (vm : Engine)
    : outcome ErrorCode (bool * option SigCache) :=
  if Zlen pkBytes =? 0 then Err ErrTaprootPubkeyIsEmpty
  else if Zlen pkBytes =? 32 then
    '(pubKey, sig, hashType) ← parseTaprootSigAndPubKey pkBytes rawSig;
    taprootVerify (prevOutFetcher vm) (hashCache vm) (tx vm) (txIdx vm)
      (mkTaprootOptions (annex t) (Some (tapLeafHash t, codeSepPos t))) (sigCache vm)
      pubKey sig hashType pkBytes rawSig
  else if vmFlag vm ScriptVerifyDiscourageUpgradeablePubkeyType then Err ErrDiscourageUpgradeablePubKeyType
  else Ok (true, sigCache vm).

(** The result of a verification, and what a failed one means. *)
Definition pushVerdict (fullSigBytes : list Z) (valid : bool) (vm : Engine) : outcome ErrorCode Engine :=
  if negb valid && taproot vm && negb (Zlen fullSigBytes =? 0) then Err ErrNullFail
  else if negb valid && vmFlag vm ScriptVerifyNullFail && (0 <? Zlen fullSigBytes) then Err ErrNullFail
  else Ok (pushBool valid vm).

(** The two ECDSA cases of OP_CHECKSIG. *)
Definition ecdsaCheck (verify : list Z -> PublicKey -> Signature -> Z -> outcome ErrorCode (bool * option SigCache))
    (pkBytes fullSigBytes : list Z) (vm : Engine) : outcome ErrorCode Engine :=
  match parseBaseSigAndPubkey pkBytes fullSigBytes vm with
  | Err NotScriptError => Ok (pushBool false vm)
  | Err e => Err e
  | Panic => Panic
  | Hang => Hang
  | Ok (pubKey, sig, hashType) =>
      script ← subScript vm;
      '(valid, cache) ← verify script pubKey sig hashType;
      pushVerdict fullSigBytes valid (setSigCache cache vm)
  end.

Definition tapscriptCheck (pkBytes fullSigBytes : list Z) (t : taprootExecutionCtx) (vm : Engine)
    : outcome ErrorCode Engine :=
  t ← (if 0 <? Zlen fullSigBytes then tallysigOp t else Ok t);
  let vm := setTaprootCtx (Some t) vm in
  if Zlen pkBytes =? 0 then Err ErrTaprootPubkeyIsEmpty
  else if Zlen fullSigBytes =? 0 then Ok (push [] vm)
  else
    '(valid, cache) ← tapscriptVerify pkBytes fullSigBytes t vm;
    pushVerdict fullSigBytes valid (setSigCache cache vm).

(** The default case of the switch leaves the verifier nil, and calling its
    method panics. *)
Definition opcodeCheckSig : handler := fun _ _ vm =>
  '(pkBytes, s) ← PopByteArray (dstack vm);
  '(fullSigBytes, s) ← PopByteArray s;
  let vm := setDstack s vm in
  if negb (taproot vm) && (Zlen fullSigBytes <? 1) then Ok (pushBool false vm)
  else
    match witnessProgram vm with
    | None => ecdsaCheck (fun script pubKey sig hashType =>
                baseVerify pkBytes fullSigBytes script pubKey sig hashType vm) pkBytes fullSigBytes vm
    | Some _ =>
        if v0Active vm then
          ecdsaCheck (fun script pubKey sig hashType =>
            segwitVerify pkBytes fullSigBytes script pubKey sig hashType vm) pkBytes fullSigBytes vm
        else match taprootCtx vm with
             | Some t => tapscriptCheck pkBytes fullSigBytes t vm
             | None => Panic
             end
    end.

Definition opcodeCheckSigVerify : handler := fun op data vm =>
  vm ← opcodeCheckSig op data vm; abstractVerify ErrCheckSigVerify vm.

Definition opcodeCheckSigAdd : handler := fun _ _ vm =>
  match taprootCtx vm with
  | None => Err ErrReservedOpcode
  | Some t =>
      '(pubKeyBytes, s) ← PopByteArray (dstack vm);
      '(accumulatorInt, s) ← PopInt s;
      '(sigBytes, s) ← PopByteArray s;
      let vm := setDstack s vm in
      t ← (if negb (Zlen sigBytes =? 0) then tallysigOp t else Ok t);
      let vm := setTaprootCtx (Some t) vm in
      if Zlen pubKeyBytes =? 0 then Err ErrTaprootPubkeyIsEmpty
      else if Zlen sigBytes =? 0 then pushInt accumulatorInt vm
      else
        '(valid, cache) ← tapscriptVerify pubKeyBytes sigBytes t vm;
        let vm := setSigCache cache vm in
        if negb valid then Err ErrNullFail else pushInt (i64 (accumulatorInt + 1)) vm
  end.

(** ** OP_CHECKMULTISIG *)
Fixpoint popMany (n : nat) (s : stack) : outcome ErrorCode (list (list Z) * stack) :=
  match n with
  | O => Ok ([], s)
  | S n => '(so, s) ← PopByteArray s; '(l, s) ← popMany n s; mret (so :: l, s)
  end.

Fixpoint removeSignatures (script : list Z) (signatures : list (list Z)) : outcome ErrorCode (list Z) :=
  match signatures with
  | [] => Ok script
  | sig :: signatures => script ← removeOpcodeByData script sig; removeSignatures script signatures
  end.

(** The digest of one signature. *)
Definition multisigHash (script : list Z) (hashType : Z) (vm : Engine) : outcome ErrorCode (list Z) :=
  if v0Active vm then
    m ← midstates vm;
    calcWitnessSignatureHashRaw script m hashType (tx vm) (txIdx vm) (inputAmount vm)
  else calcSignatureHash script hashType (tx vm) (txIdx vm).

(** The current signature: not parsed yet, or what parsing gave. *)
Definition parseCurrent (rawSig : list Z) (parsed : option (option Signature)) (vm : Engine)
    : outcome ErrorCode (option Signature) :=
  match parsed with
  | Some parsedSignature => Ok parsedSignature
  | None =>
      hashType ← index rawSig (Zlen rawSig - 1);
      signature ← slice rawSig 0 (Zlen rawSig - 1);
      _ ← checkHashTypeEncoding (flags vm) hashType;
      _ ← checkSignatureEncoding (flags vm) signature;
      mret (if vmFlag vm ScriptVerifyStrictEncoding || vmFlag vm ScriptVerifyDERSignatures
            then ParseDERSignature signature else ParseSignature signature)
  end.

(** The loop over the public keys that remain (from pubKeyIdx) and the
    signatures that remain (from signatureIdx): numPubKeys is the number of
    the former in the body, and numSignatures that of the latter. *)
Fixpoint multisigLoop (script : list Z) (pubKeys signatures : list (list Z))
    (parsed : option (option Signature)) (vm : Engine) : outcome ErrorCode (bool * Engine) :=
  match signatures with
  | [] => Ok (true, vm)
  | rawSig :: signatures' =>
      match pubKeys with
      | [] => Ok (false, vm)
      | pubKey :: pubKeys' =>
          if Zlen pubKeys <? Zlen signatures then Ok (false, vm)
          else if Zlen rawSig =? 0 then multisigLoop script pubKeys' signatures parsed vm
          else
            parsedSignature ← parseCurrent rawSig parsed vm;
            match parsedSignature with
            | None => multisigLoop script pubKeys' signatures (Some None) vm
            | Some parsedSig =>
                _ ← checkPubKeyEncoding (flags vm) (v0Active vm) pubKey;
                match ParsePubKey pubKey with
                | None => multisigLoop script pubKeys' signatures (Some (Some parsedSig)) vm
                | Some parsedPubKey =>
                    hash ← multisigHash script (List.last rawSig 0) vm;
                    let '(valid, cache) := cachedVerify (sigCache vm) hash (removelast rawSig) pubKey
                                             (Verify parsedSig hash parsedPubKey) in
                    let vm := setSigCache cache vm in
                    if valid : bool then multisigLoop script pubKeys' signatures' None vm
                    else multisigLoop script pubKeys' signatures (Some (Some parsedSig)) vm
                end
            end
      end
  end.

Definition opcodeCheckMultiSig : handler := fun _ _ vm =>
  if taproot vm then Err ErrTapscriptCheckMultisig
  else
    '(numKeys, s) ← PopInt (dstack vm);
    let numPubKeys := Int32 numKeys in
    if numPubKeys <? 0 then Err ErrInvalidPubKeyCount
    else if MaxPubKeysPerMultiSig <? numPubKeys then Err ErrInvalidPubKeyCount
    else if MaxOpsPerScript <? numOps vm + numPubKeys then Err ErrTooManyOperations
    else
      let vm := setNumOps (numOps vm + numPubKeys) vm in
      '(pubKeys, s) ← popMany (Z.to_nat numPubKeys) s;
      '(numSigs, s) ← PopInt s;
      let numSignatures := Int32 numSigs in
      if numSignatures <? 0 then Err ErrInvalidSignatureCount
      else if numPubKeys <? numSignatures then Err ErrInvalidSignatureCount
      else
        '(signatures, s) ← popMany (Z.to_nat numSignatures) s;
        '(dummy, s) ← PopByteArray s;
        let vm := setDstack s vm in
        if vmFlag vm ScriptStrictMultiSig && negb (Zlen dummy =? 0) then Err ErrSigNullDummy
        else
          script ← subScript vm;
          script ← (if negb (v0Active vm) then removeSignatures script signatures else Ok script);
          '(success, vm) ← multisigLoop script pubKeys signatures None vm;
          if negb success && vmFlag vm ScriptVerifyNullFail && existsb (fun sig => 0 <? Zlen sig) signatures
          then Err ErrNullFail
          else mret (pushBool success vm).

Definition opcodeCheckMultiSigVerify : handler := fun op data vm =>
  vm ← opcodeCheckMultiSig op data vm; abstractVerify ErrCheckMultiSigVerify vm.

End Handlers.
End SigOpcodes.
