(* ===== verification/Engine.v ===== *)
(** * The script engine: stepping through scripts

    Models coin/OrcaNet/txscript/engine.go: NewEngine, executeOpcode, Step,
    Execute, verifyWitnessProgram and CheckErrorCondition, over the handlers
    of Opcodes and SigOpcodes.  The trace log and the debugging callback,
    which NewEngine leaves unset, are not modelled.  Execute runs with fuel;
    [EngineRun] shows that an explicit amount is enough. *)

From S2P Require Import Prelude ScriptNum ScriptStack Tokenizer Builder Wire.
From S2P Require Import SigHash SigCheck Taproot Opcodes SigOpcodes.

Module Engine.
Import ScriptNum ScriptStack Tokenizer Builder Wire SigHash SigCheck Taproot Opcodes SigOpcodes.

Definition payToWitnessPubKeyHashDataSize := 20.
Definition payToWitnessScriptHashDataSize := 32.
Definition payToTaprootDataSize := 32.

(** The opcodes that make a tapscript succeed. *)
Definition isSuccessOpcode (op : Z) : bool :=
  existsb (Z.eqb op) [80; 98; 126; 127; 128; 129; 131; 132; 133; 134; 137; 138; 141; 142; 149; 150; 151; 152; 153]
  || ((187 <=? op) && (op <=? 254)).

Definition ScriptHasOpSuccess (witnessScript : list Z) : outcome ErrorCode bool :=
  r ← walk 0 witnessScript (fun t _ => op ← Opcode t; mret (if isSuccessOpcode op then inr true else inl ())) ();
  match r with
  | inl _ => mret false
  | inr b => mret b
  end.

Section Engine.
Context {C : Crypto}.

(** The handler column of opcodeArray, by opcode. *)
Definition opcodeArray : list handler :=
  [opcodeFalse] ++ replicate 78 opcodePushData
  ++ [opcode1Negate; opcodeReserved] ++ replicate 16 opcodeN
  ++ [opcodeNop; opcodeReserved; opcodeIf; opcodeNotIf; opcodeReserved; opcodeReserved; opcodeElse;
      opcodeEndif; opcodeVerify; opcodeReturn; opcodeToAltStack; opcodeFromAltStack; opcode2Drop;
      opcode2Dup; opcode3Dup; opcode2Over; opcode2Rot; opcode2Swap; opcodeIfDup; opcodeDepth;
      opcodeDrop; opcodeDup; opcodeNip; opcodeOver; opcodePick; opcodeRoll; opcodeRot; opcodeSwap;
      opcodeTuck]
  ++ replicate 4 opcodeDisabled ++ [opcodeSize] ++ replicate 4 opcodeDisabled
  ++ [opcodeEqual; opcodeEqualVerify; opcodeReserved; opcodeReserved; opcode1Add; opcode1Sub;
      opcodeDisabled; opcodeDisabled; opcodeNegate; opcodeAbs; opcodeNot; opcode0NotEqual; opcodeAdd;
      opcodeSub]
  ++ replicate 5 opcodeDisabled
  ++ [opcodeBoolAnd; opcodeBoolOr; opcodeNumEqual; opcodeNumEqualVerify; opcodeNumNotEqual;
      opcodeLessThan; opcodeGreaterThan; opcodeLessThanOrEqual; opcodeGreaterThanOrEqual; opcodeMin;
      opcodeMax; opcodeWithin; opcodeRipemd160; opcodeSha1; opcodeSha256; opcodeHash160; opcodeHash256;
      opcodeCodeSeparator; opcodeCheckSig; opcodeCheckSigVerify; opcodeCheckMultiSig;
      opcodeCheckMultiSigVerify; opcodeNop; opcodeCheckLockTimeVerify; opcodeCheckSequenceVerify]
  ++ replicate 7 opcodeNop ++ [opcodeCheckSigAdd] ++ replicate 69 opcodeInvalid.

Definition checkMinimalDataPush (opcodeVal : Z) (data : list Z) : outcome ErrorCode unit :=
  let dataLen := Zlen data in
  let d0 := nth 0 data 0 in
  let want := fun (ok : bool) => if ok then Ok () else Err ErrMinimalData in
  if (dataLen =? 0) && negb (opcodeVal =? OP_0) then Err ErrMinimalData
  else if (dataLen =? 1) && (1 <=? d0) && (d0 <=? 16) then want (opcodeVal =? u8 (OP_1 + d0 - 1))
  else if (dataLen =? 1) && (d0 =? 0x81) then want (opcodeVal =? OP_1NEGATE)
  else if dataLen <=? 75 then want (opcodeVal =? dataLen)
  else if dataLen <=? 255 then want (opcodeVal =? OP_PUSHDATA1)
  else if dataLen <=? 65535 then want (opcodeVal =? OP_PUSHDATA2)
  else Ok ().

Definition executeOpcode (op : Z) (data : list Z) (vm : Engine) : outcome ErrorCode Engine :=
  if isOpcodeDisabled op then Err ErrDisabledOpcode
  else if isOpcodeAlwaysIllegal op then Err ErrReservedOpcode
  else
    vm ← (if negb (taproot vm) && (OP_16 <? op) then
            let vm := setNumOps (numOps vm + 1) vm in
            if MaxOpsPerScript <? numOps vm then Err ErrTooManyOperations else Ok vm
          else if MaxScriptElementSize <? Zlen data then Err ErrElementTooBig
          else Ok vm);
    if negb (isBranchExecuting vm) && negb (isOpcodeConditional op) then Ok vm
    else
      _ ← (if verifyMinimalData (dstack vm) && isBranchExecuting vm && (op <=? OP_PUSHDATA4)
           then checkMinimalDataPush op data else Ok ());
      opfunc ← index opcodeArray op;
      opfunc op data vm.

Definition checkValidPC (vm : Engine) : outcome ErrorCode unit :=
  if Zlen (scripts vm) <=? scriptIdx vm then Err ErrInvalidProgramCounter else Ok ().

(** [_ = stack.DropN(...)]: the error is ignored. *)
Definition ignoreErr (m : outcome ErrorCode stack) (s : stack) : outcome ErrorCode stack :=
  match m with Err _ => Ok s | _ => m end.

Definition clearStack (s : stack) : outcome ErrorCode stack := ignoreErr (DropN (Depth s) s) s.

(** The entries bottom up. *)
Definition getStack (s : stack) : list (list Z) :=
  rev ((fun i => match PeekByteArray (Z.of_nat i) s with Ok b => b | _ => [] end)
       <$> seq 0 (Z.to_nat (Depth s))).

Definition setStack (data : list (list Z)) (s : stack) : outcome ErrorCode stack :=
  s ← clearStack s; mret (foldl (fun s d => PushByteArray d s) s data).

Definition GetStack (vm : Engine) : list (list Z) := getStack (dstack vm).
Definition SetStack (data : list (list Z)) (vm : Engine) : outcome ErrorCode Engine :=
  s ← setStack data (dstack vm); mret (setDstack s vm).

(** Queue a script and start it with a stack. *)
Definition enterScript (script : list Z) (data : list (list Z)) (vm : Engine) : outcome ErrorCode Engine :=
  SetStack data (Opcodes.setScripts (scripts vm ++ [script]) vm).

(** ** Witness programs *)
Definition verifyWitnessV0 (program : list Z) (witness : list (list Z)) (vm : Engine)
    : outcome ErrorCode Engine :=
  if Zlen program =? payToWitnessPubKeyHashDataSize then
    if negb (Zlen witness =? 2) then Err ErrWitnessProgramMismatch
    else
      pkScript ← payToPubKeyHashScript program;
      _ ← checkScriptParses (version vm) pkScript;
      enterScript pkScript witness vm
  else if Zlen program =? payToWitnessScriptHashDataSize then
    if Zlen witness =? 0 then Err ErrWitnessProgramEmpty
    else
      witnessScript ← index witness (Zlen witness - 1);
      if MaxScriptSize <? Zlen witnessScript then Err ErrScriptTooBig
      else if negb (bool_decide (sha256 witnessScript = program)) then Err ErrWitnessProgramMismatch
      else
        _ ← checkScriptParses (version vm) witnessScript;
        rest ← slice witness 0 (Zlen witness - 1);
        enterScript witnessScript rest vm
  else Err ErrWitnessProgramWrongLength.

Definition succeed (t : taprootExecutionCtx) (vm : Engine) : Engine :=
  setTaprootCtx (Some (mkTaprootCtx (annex t) (codeSepPos t) (tapLeafHash t) (sigOpsBudget t) true)) vm.

(** VerifyTaprootKeySpend *)
Definition VerifyTaprootKeySpend (program rawSig : list Z) (vm : Engine)
    : outcome ErrorCode (option SigCache) :=
  txIn ← index (TxIns (tx vm)) (txIdx vm);
  let annex := if isAnnexedWitness (Witness txIn) then Some (List.last (Witness txIn) []) else None in
  '(pubKey, sig, hashType) ← parseTaprootSigAndPubKey program rawSig;
  '(valid, cache) ← taprootVerify (prevOutFetcher vm) (hashCache vm) (tx vm) (txIdx vm)
                      (mkTaprootOptions annex None) (sigCache vm) pubKey sig hashType program rawSig;
  if valid : bool then mret cache else Err ErrTaprootSigInvalid.

Definition TxWitnessSize (witness : list (list Z)) : Z := TxWitness_SerializeSize witness.

(** The result tells whether the function has returned (true) or goes on to
    the checks of the starting stack (false). *)
Definition verifyTapscript (program : list Z) (witness : list (list Z)) (t : taprootExecutionCtx)
    (vm : Engine) : outcome ErrorCode (bool * Engine) :=
  ctrl ← index witness (Zlen witness - 1);
  controlBlock ← ParseControlBlock ctrl;
  witnessScript ← index witness (Zlen witness - 2);
  _ ← VerifyTaprootLeafCommitment controlBlock program witnessScript;
  success ← ScriptHasOpSuccess witnessScript;
  if success : bool then
    if vmFlag vm ScriptVerifyDiscourageOpSuccess then Err ErrDiscourageOpSuccess
    else mret (true, succeed t vm)
  else if negb (LeafVersion controlBlock =? BaseLeafVersion) then
    if vmFlag vm ScriptVerifyDiscourageUpgradeableTaprootVersion
    then Err ErrDiscourageUpgradeableTaprootVersion
    else mret (true, succeed t vm)
  else
    _ ← checkScriptParses (version vm) witnessScript;
    let vm := setTaprootCtx (Some (mkTaprootCtx (annex t) (codeSepPos t)
                (TapLeafHash BaseLeafVersion witnessScript) (sigOpsBudget t) (mustSucceed t))) vm in
    rest ← slice witness 0 (Zlen witness - 2);
    vm ← enterScript witnessScript rest vm;
    mret (false, vm).

Definition verifyWitnessV1 (program : list Z) (witness : list (list Z)) (vm : Engine)
    : outcome ErrorCode (bool * Engine) :=
  if negb (vmFlag vm ScriptVerifyTaproot) then Ok (true, vm)
  else if Zlen witness =? 0 then Err ErrWitnessProgramEmpty
  else
    let t := newTaprootExecutionCtx (i32 (TxWitnessSize witness)) in
    let annexed := isAnnexedWitness witness in
    let t := mkTaprootCtx (if annexed then Some (List.last witness []) else None) (codeSepPos t)
               (tapLeafHash t) (sigOpsBudget t) (mustSucceed t) in
    let witness := if annexed then removelast witness else witness in
    let vm := setTaprootCtx (Some t) vm in
    if Zlen witness =? 1 then
      rawSig ← index witness 0;
      cache ← VerifyTaprootKeySpend program rawSig vm;
      mret (true, succeed t (setSigCache cache vm))
    else verifyTapscript program witness t vm.

(** The checks of the starting stack. *)
Definition checkStartStack (vm : Engine) : outcome ErrorCode Engine :=
  let elements := if existsb (fun e => MaxScriptElementSize <? Zlen e) (GetStack vm)
                  then Err ErrElementTooBig else Ok vm in
  if isWitnessVersionActive vm TaprootWitnessVersion then
    if MaxStackSize <? Depth (dstack vm) then Err ErrStackOverflow else elements
  else if isWitnessVersionActive vm BaseSegwitWitnessVersion then elements
  else Ok vm.

Definition verifyWitnessProgram (witness : list (list Z)) (vm : Engine) : outcome ErrorCode Engine :=
  let program := default [] (witnessProgram vm) in
  if isWitnessVersionActive vm BaseSegwitWitnessVersion then
    vm ← verifyWitnessV0 program witness vm; checkStartStack vm
  else if isWitnessVersionActive vm TaprootWitnessVersion
          && (Zlen program =? payToTaprootDataSize) && negb (bip16 vm) then
    '(returned, vm) ← verifyWitnessV1 program witness vm;
    if returned : bool then mret vm else checkStartStack vm
  else if vmFlag vm ScriptVerifyDiscourageUpgradeableWitnessProgram
  then Err ErrDiscourageUpgradableWitnessProgram
  else checkStartStack (setWitnessProgram None vm).

(** ** Stepping *)
Definition CheckErrorCondition (finalScript : bool) (vm : Engine) : outcome ErrorCode Engine :=
  if match taprootCtx vm with Some t => mustSucceed t | None => false end then Ok vm
  else if scriptIdx vm <? Zlen (scripts vm) then Err ErrScriptUnfinished
  else if finalScript && v0Active vm && negb (Depth (dstack vm) =? 1) then Err ErrEvalFalse
  else if finalScript && (vmFlag vm ScriptVerifyCleanStack || taproot vm) && negb (Depth (dstack vm) =? 1)
  then Err ErrCleanStack
  else if Depth (dstack vm) <? 1 then Err ErrEmptyStack
  else
    '(v, s) ← PopBool (dstack vm);
    if v : bool then mret (setDstack s vm) else Err ErrEvalFalse.

(** The script that follows the current one. *)
Definition nextScript (vm : Engine) : outcome ErrorCode Engine :=
  let advanced := setScriptIdx (scriptIdx vm + 1) vm in
  if (scriptIdx vm =? 0) && bip16 vm then
    Ok (setSavedFirstStack (GetStack vm) advanced)
  else if (scriptIdx vm =? 1) && bip16 vm then
    vm ← CheckErrorCondition false advanced;
    script ← index (savedFirstStack vm) (Zlen (savedFirstStack vm) - 1);
    _ ← checkScriptParses (version vm) script;
    rest ← slice (savedFirstStack vm) 0 (Zlen (savedFirstStack vm) - 1);
    enterScript script rest vm
  else if ((scriptIdx vm =? 1) && bool_decide (is_Some (witnessProgram vm)))
          || ((scriptIdx vm =? 2) && bool_decide (is_Some (witnessProgram vm)) && bip16 vm) then
    txIn ← index (TxIns (tx vm)) (txIdx vm);
    verifyWitnessProgram (Witness txIn) advanced
  else Ok advanced.

(** After the last opcode of a script. *)
Definition endScript (vm : Engine) : outcome ErrorCode (bool * Engine) :=
  if negb (Zlen (condStack vm) =? 0) then Err ErrUnbalancedConditional
  else
    a ← clearStack (astack vm);
    vm ← nextScript (setOpcodeIdx 0 (setNumOps 0 (setAstack a vm)));
    vm ← (if scriptIdx vm <? Zlen (scripts vm) then
            script ← index (scripts vm) (scriptIdx vm);
            Ok (if Zlen script =? 0 then setScriptIdx (scriptIdx vm + 1) vm else vm)
          else Ok vm);
    let vm := setLastCodeSep 0 vm in
    if Zlen (scripts vm) <=? scriptIdx vm then mret (true, vm)
    else
      script ← index (scripts vm) (scriptIdx vm);
      mret (false, setTokenizer (MakeScriptTokenizer (version vm) script) vm).

Definition Step (vm : Engine) : outcome ErrorCode (bool * Engine) :=
  _ ← checkValidPC vm;
  '(more, t) ← Next (tokenizer vm);
  if negb more then
    match t_err t with Some e => Err e | None => Err ErrInvalidProgramCounter end
  else
    let vm := setTokenizer t vm in
    op ← Opcode t;
    vm ← executeOpcode op (Data t) vm;
    if MaxStackSize <? i32 (Depth (dstack vm) + Depth (astack vm)) then Err ErrStackOverflow
    else
      let vm := setOpcodeIdx (opcodeIdx vm + 1) vm in
      if Done (tokenizer vm) then endScript vm else mret (false, vm).

Fixpoint stepLoop (fuel : nat) (vm : Engine) : outcome ErrorCode Engine :=
  match fuel with
  | O => Hang
  | S fuel =>
      '(done, vm) ← Step vm;
      if done : bool then mret vm else stepLoop fuel vm
  end.

Definition Execute (fuel : nat) (vm : Engine) : outcome ErrorCode Engine :=
  if negb (version vm =? 0) then Ok vm
  else vm ← stepLoop fuel vm; CheckErrorCondition true vm.

(** ** The constructor *)
(** The witness program an input is checked against, with its flags. *)
Definition findWitnessProgram (scriptSig scriptPubKey : list Z) (witness : list (list Z)) (p2sh : bool)
    : outcome ErrorCode (option (Z * list Z)) :=
  native ← IsWitnessProgram scriptPubKey;
  witProgram ←
    (if native : bool then
       if negb (Zlen scriptSig =? 0) then Err ErrWitnessMalleated else Ok (Some scriptPubKey)
     else if negb (Zlen witness =? 0) && p2sh then
       if 2 <? Zlen scriptSig then
         op ← index scriptSig 0;
         rest ← slice scriptSig 1 (Zlen scriptSig);
         nested ← IsWitnessProgram rest;
         if isCanonicalPush op rest && nested then Ok (Some rest) else Err ErrWitnessMalleatedP2SH
       else Err ErrWitnessMalleatedP2SH
     else Ok None);
  match witProgram with
  | Some script =>
      r ← extractWitnessProgramInfo script;
      match r with
      | Some info => Ok (Some info)
      | None => Err NotScriptError
      end
  | None => if negb (Zlen witness =? 0) then Err ErrWitnessUnexpected else Ok None
  end.

Definition NewEngine (scriptPubKey : list Z) (tx : MsgTx) (txIdx : Z) (flags : ScriptFlags)
    (sigCache : option SigCache) (hashCache : option TxSigHashes) (inputAmount : Z)
    (prevOutFetcher : OutPoint -> option TxOut) : outcome ErrorCode Engine :=
  if (txIdx <? 0) || (Zlen (TxIns tx) <=? txIdx) then Err ErrInvalidIndex
  else
    txIn ← index (TxIns tx) txIdx;
    let scriptSig := SignatureScript txIn in
    if (Zlen scriptSig =? 0) && (Zlen scriptPubKey =? 0) then Err ErrEvalFalse
    else if hasFlag flags ScriptVerifyCleanStack
            && (negb (hasFlag flags ScriptBip16) && negb (hasFlag flags ScriptVerifyWitness))
    then Err ErrInvalidFlags
    else
      pushOnly ← IsPushOnlyScript scriptSig;
      if hasFlag flags ScriptVerifySigPushOnly && negb pushOnly then Err ErrNotPushOnly
      else
        let p2sh := hasFlag flags ScriptBip16 && isScriptHashScript scriptPubKey in
        if p2sh && negb (hasFlag flags ScriptVerifySigPushOnly) && negb pushOnly then Err ErrNotPushOnly
        else if MaxScriptSize <? Zlen scriptSig then Err ErrScriptTooBig
        else
          _ ← checkScriptParses 0 scriptSig;
          if MaxScriptSize <? Zlen scriptPubKey then Err ErrScriptTooBig
          else
            _ ← checkScriptParses 0 scriptPubKey;
            let idx := if Zlen scriptSig =? 0 then 1 else 0 in
            let minimal := hasFlag flags ScriptVerifyMinimalData in
            wit ← (if hasFlag flags ScriptVerifyWitness then
                     if negb (hasFlag flags ScriptBip16) then Err ErrInvalidFlags
                     else findWitnessProgram scriptSig scriptPubKey (Witness txIn) p2sh
                   else Ok None);
            let '(witVersion, witProgram) :=
              match wit with Some (v, p) => (v, Some p) | None => (0, None) end in
            script ← index [scriptSig; scriptPubKey] idx;
            mret (mkEngine flags tx txIdx 0 p2sh hashCache prevOutFetcher inputAmount sigCache
                    [scriptSig; scriptPubKey] idx 0 0 (MakeScriptTokenizer 0 script) []
                    (mkStack [] minimal) (mkStack [] minimal) [] 0 witVersion witProgram None).

End Engine.
End Engine.
