(* ===== verification/EngineRun.v ===== *)
(** * The script engine: invariant, limits and termination

    The invariant of the states that Execute (coin/OrcaNet/txscript/engine.go)
    passes through, that Step keeps it and makes progress, the limits on
    operations and stack size, and that Execute returns. *)

From S2P Require Import Prelude ScriptNum ScriptStack Tokenizer Builder Wire SigHash.
From S2P Require Import SigCheck Taproot Opcodes SigOpcodes Engine EngineSafe.

Module EngineRun.
Import ScriptNum ScriptStack Tokenizer Builder Wire SigHash SigCheck Taproot Opcodes SigOpcodes Engine EngineSafe.

Section Run.
Context {C : Crypto} {L : HashLaws crypto_hashes}.

(** ** One opcode *)
Lemma checkMinimalDataPush_safe op data : returns_or_fails (checkMinimalDataPush op data).
Proof using. unfold checkMinimalDataPush. repeat case_match; triv. Qed.

Lemma executeOpcode_safe op data n vm : byte_ok op -> item_ok data -> (OP_16 < op -> data = []) ->
  0 <= n <= 2 ^ 29 -> run_ok vm -> vm_ok n vm -> op <= OP_16 \/ key_ok vm ->
  safe (executeOpcode op data vm) (after (n + 3) vm).
Proof using L.
  intros Hop [Hbytes _] Hempty Hn Hr Hv HK. unfold executeOpcode. do 2 (apply safe_if; [triv|]; intros _).
  eapply safe_bind with (P := fun vm1 => after n vm vm1 /\ el_ok data).
  { apply safe_if; intros Hcounted.
    - apply safe_if; [triv|]. intros Hm. apply Z.ltb_ge in Hm. cbn in Hm. cbn.
      apply andb_true_iff in Hcounted as [_ Hop16]. apply Z.ltb_lt in Hop16. rewrite (Hempty Hop16).
      split; [|by apply el_small; [apply Forall_nil_2|]].
      apply after_ops; [done|]. destruct (ok_ops _ _ Hv). unfold MaxOpsPerScript in *. lia.
    - apply safe_if; [triv|]. intros Hsize. apply Z.ltb_ge in Hsize. by split; [apply (after_same n)|]. }
  intros vm1 _ [Ha Hdata]. pose proof (after_run _ _ _ Ha Hr) as Hr1. pose proof (a_ok _ _ _ Ha) as Hv1.
  assert (HK1 : op <= OP_16 \/ key_ok vm1).
  { destruct HK as [?|HK]; [by left|right]. unfold key_ok in *. rewrite (a_taproot _ _ _ Ha).
    pose proof (core_kept _ _ (a_core _ _ _ Ha)) as K.
    by rewrite (k_witnessProgram _ _ K), (k_witnessVersion _ _ K). }
  apply (safe_mono _ (after (n + 3) vm1)); [|intros vm2 _ Ha2; by eapply after_trans].
  apply safe_if; intros _; [apply (after_same n); [done|lia]|].
  eapply safe_bind with (P := fun _ => True).
  { apply safe_if; [|triv]. intros _. apply checkMinimalDataPush_safe. }
  intros _ _ _. destruct HK1 as [Hlow|HK1].
  - eapply safe_bind with (P := handler_ok any_vm); [|intros h _ Hh; by apply Hh].
    unfold index. unfold byte_ok in Hop. rewrite decide_True by lia. unfold OP_16 in Hlow.
    destruct (lookup_Z opcodeArray op) as [h Hh]; [rewrite opcodeArray_length; lia|]. rewrite Hh. cbn.
    apply (Forall_lookup_1 _ _ (Z.to_nat op) h pushes_ok). by rewrite lookup_take_lt by lia.
  - eapply safe_bind with (P := handler_ok key_ok); [|intros h _ Hh; by apply Hh].
    apply index_safe; [|exact opcodeArray_ok]. rewrite opcodeArray_length. exact Hop.
Qed.

(** ** The invariant *)

(** A bound on the scripts and on the items of the witness. *)
Context (M : Z) (HM : MaxScriptSize <= M < 2 ^ 31).

Definition fits (b : list Z) : Prop := bytes_ok b /\ Zlen b <= M.

Lemma fits_item b : fits b -> item_ok b.
Proof using HM. intros [Hb Hl]. split; [done|lia]. Qed.
Lemma el_fits b : el_ok b -> fits b.
Proof using HM. intros [Hb Hl]. split; [done|]. unfold MaxScriptElementSize, MaxScriptSize in *. lia. Qed.
Lemma fits_items l : Forall fits l -> Forall item_ok l.
Proof using HM. intros H. eapply list.Forall_impl; [exact H|]. exact fits_item. Qed.

(** The witness of the input that is verified. *)
Definition inputWitness (vm : Engine) : list (list Z) :=
  match TxIns (tx vm) !! Z.to_nat (txIdx vm) with Some ti => Witness ti | None => [] end.

(** What the constructor sets and nothing changes, and the scripts. *)
Record config_ok (vm : Engine) : Prop := {
  c_version : version vm = 0;
  c_idx : 0 <= txIdx vm < Zlen (TxIns (tx vm));
  c_fetch : fetchable (prevOutFetcher vm) (TxIns (tx vm));
  c_cache : vmFlag vm ScriptVerifyTaproot = true -> is_Some (hashCache vm) \/ inputWitness vm = [];
  c_witness : Forall fits (inputWitness vm);
  c_witlen : Zlen (inputWitness vm) <= 2 ^ 29;
  c_program : item_ok (default [] (witnessProgram vm));
  c_scripts : Forall fits (scripts vm);
  c_p2sh : bip16 vm = true -> exists l, scripts vm !! 1%nat = Some (OP_HASH160 :: l);
  c_taproot : taproot vm = true -> is_Some (hashCache vm) /\ bip16 vm = false /\ 2 <= scriptIdx vm;
}.

Definition items (vm : Engine) : Z := Zlen (stk (dstack vm)) + Zlen (stk (astack vm)).

(** The limits on the stacks and the operations: beyond 1000 items only on
    entering a version 0 program, with the items of its witness. *)
Record limits_ok (vm : Engine) : Prop := {
  l_items : items vm <= MaxStackSize \/
    (t_offset (tokenizer vm) = 0 /\ v0Active vm = true /\ items vm <= Zlen (inputWitness vm));
  l_dstack : Forall el_ok (stk (dstack vm));
  l_astack : Forall el_ok (stk (astack vm));
  l_ops : 0 <= numOps vm <= MaxOpsPerScript;
}.

(** The stack that the first script left, for the P2SH check. *)
Definition saved_ok (vm : Engine) : Prop :=
  Forall el_ok (savedFirstStack vm) /\ Zlen (savedFirstStack vm) <= MaxStackSize.

(** A state between two steps. *)
Record inv (vm : Engine) : Prop := {
  i_config : config_ok vm;
  i_limits : limits_ok vm;
  i_sep : 0 <= lastCodeSep vm <= t_offset (tokenizer vm);
  i_count : 0 <= scriptIdx vm <= 3 /\ Zlen (scripts vm) = Z.max 2 (scriptIdx vm + 1);
  i_saved : saved_ok vm;
  i_first : bip16 vm = true -> scriptIdx vm = 1 ->
    savedFirstStack vm <> [] \/
    (t_offset (tokenizer vm) = 0 /\ stk (dstack vm) = savedFirstStack vm /\ condStack vm = []);
  i_pos : exists pre rest, at_ (tokenizer vm) pre rest /\
    index (E:=ErrorCode) (scripts vm) (scriptIdx vm) = Ok (pre ++ rest) /\
    (key_ok vm \/
     (taproot vm = false /\ bip16 vm = false /\ scriptIdx vm = 1 /\
      Forall (fun tk => tk.1 <= OP_16) (parse rest).1));
}.

(** The bytes that remain in the current script and the scripts after it. *)
Definition remaining (vm : Engine) : Z :=
  (4 - scriptIdx vm) * (M + 1) + (Zlen (t_script (tokenizer vm)) - t_offset (tokenizer vm)).

Lemma limits_vm_ok vm : config_ok vm -> limits_ok vm -> 0 <= lastCodeSep vm <= t_offset (tokenizer vm) ->
  vm_ok (2 ^ 29) vm.
Proof using HM.
  intros Hc [Hi Hd Ha Ho] Hs. pose proof (c_witlen _ Hc). unfold items, MaxStackSize in Hi.
  split; [split; [len_lia|done]|split; [len_lia|done]|done|done].
Qed.

Lemma inv_run vm : inv vm -> run_ok vm.
Proof using HM.
  intros [Hc _ _ _ _ _ (pre & rest & Hat & Hidx & _)]. destruct Hc. split; try done.
  - intros Ht. by apply c_taproot0.
  - exists (pre ++ rest). split; [done|]. destruct Hat as (Hs & Ho & _). split; [|rewrite Ho, Zlen_app; len_lia].
    apply index_ok_iff in Hidx as [_ Hidx]. by eapply fits_item, Forall_lookup_1.
Qed.

(** ** Tokens *)
Lemma parse_first rest tk rest' : bytes_ok rest -> firstToken rest = Some (tk, rest') ->
  (parse rest).1 = tk :: (parse rest').1.
Proof using.
  intros Hb Hft. destruct (firstToken_some _ _ _ Hb Hft) as (Heq & _ & Hb' & Hpos).
  unfold parse. destruct rest as [|op l]; [done|]. cbn [length tokens]. rewrite Hft.
  rewrite (tokens_fuel (length l) (length rest') rest'); [|done| |lia].
  - by destruct (tokens _ _).
  - apply (f_equal length) in Heq. rewrite length_app in Heq. cbn [length] in Heq. lia.
Qed.

Lemma opcodeLength_one op : OP_16 < op -> opcodeLength op = 1.
Proof using.
  intros Hop. unfold opcodeLength, OP_16, OP_DATA_1, OP_PUSHDATA1, OP_PUSHDATA2, OP_PUSHDATA4 in *.
  repeat case_match; rewrite ?andb_true_iff, ?Z.eqb_eq, ?Z.ltb_lt in *; lia.
Qed.

Lemma Next_cases t pre rest : at_ t pre rest ->
  (exists t', Next t = Ok (false, t')) \/
  (exists tk rest', firstToken rest = Some (tk, rest') /\ Next t = Ok (true, advance t tk) /\
     rest = printToken tk ++ rest' /\ byte_ok tk.1 /\ item_ok tk.2 /\ at_ (advance t tk) (pre ++ printToken tk) rest' /\
     0 < Zlen (printToken tk) /\ (OP_16 < tk.1 -> tk.2 = [])).
Proof using.
  intros Hat. pose proof Hat as (Hs & Ho & _ & Hl & Hb). destruct rest as [|op l].
  { left. exists t. by eapply Next_end. }
  destruct (firstToken (op :: l)) as [[tk rest']|] eqn:Hft.
  2: { left. eexists. by eapply Next_malformed. }
  right. destruct (firstToken_some _ _ _ Hb Hft) as (Heq & Htok & _ & Hpos).
  exists tk, rest'. rewrite Heq in Hat. pose proof Hb as Hb2. rewrite Heq in Hb2.
  apply list.Forall_app in Hb2 as [Hb2 _]. rewrite Heq in Hs. rewrite Hs, !Zlen_app in Hl.
  assert (Htk : printToken tk = tk.1 :: drop 1 (printToken tk)) by by destruct tk.
  assert (Hd : exists h, printToken tk = h ++ tk.2)
    by (destruct tk as [o d]; unfold printToken; eexists; by rewrite app_comm_cons).
  destruct Hd as [h Hd]. split_and!; try done.
  - eapply Next_token; [|exact Hft]. by rewrite Heq.
  - rewrite Htk in Hb2. by apply Forall_inv in Hb2.
  - split; [rewrite Hd in Hb2; by apply list.Forall_app in Hb2 as [_ ?]|].
    rewrite Hd, Zlen_app in Hl. len_lia.
  - by apply at_advance.
  - unfold Zlen. lia.
  - intros Hop. destruct tk as [o d]. cbn [fst snd] in *. unfold token_ok in Htok.
    rewrite opcodeLength_one in Htok by done.
    change (Zlen d = 0) in Htok. destruct d; [done|rewrite Zlen_cons in Htok; len_lia].
Qed.

(** ** Whole stacks *)
Lemma clearStack_spec n s : s_ok n s -> n < 2 ^ 31 -> clearStack s = Ok (setStk [] s).
Proof using.
  intros [Hl _] Hn. unfold clearStack, DropN, Depth. rewrite i32_small by len_lia.
  destruct (stk s) as [|x l] eqn:Hs.
  - unfold repeatN. rewrite (proj2 (Z.ltb_lt (Zlen []) 1)) by done. cbn. by rewrite (stack_eq s []).
  - rewrite (repeatN_times _ _ _ (x :: l)) by (rewrite ?Zlen_cons; len_lia).
    rewrite (times_drop (x :: l) []); [done|unfold sized; rewrite Hs; len_lia|by rewrite Hs].
Qed.

Lemma fold_push data s : foldl (fun s d => PushByteArray d s) s data = setStk (stk s ++ data) s.
Proof using.
  revert s; induction data as [|d data IH]; intros s; cbn [foldl].
  - rewrite app_nil_r. by apply stack_eq.
  - rewrite IH. unfold setStk, PushByteArray. cbn. by rewrite <- app_assoc.
Qed.

Lemma setStack_spec n data s : s_ok n s -> n < 2 ^ 31 -> setStack data s = Ok (setStk data s).
Proof using.
  intros Hs Hn. unfold setStack. rewrite (clearStack_spec n s Hs Hn). cbn [mbind outcome_bind].
  by rewrite fold_push.
Qed.

Lemma getStack_spec n s : Zlen (stk s) <= n -> n < 2 ^ 31 -> getStack s = stk s.
Proof using.
  intros Hl Hn. unfold getStack, Depth. rewrite i32_small by len_lia.
  rewrite <- (rev_involutive (stk s)) at 2. f_equal. unfold Zlen. rewrite Nat2Z.id.
  assert (Hlk : forall i, (i < length (stk s))%nat -> exists x, rev (stk s) !! i = Some x /\
    PeekByteArray (Z.of_nat i) s = Ok x).
  { intros i Hi. destruct (snoc_at (stk s) (Z.of_nat i)) as (xs & x & ys & Hxs & Hys); [unfold Zlen; lia|].
    exists x. split; [|apply (Peek_mid s xs x ys); [unfold sized; lia|done|done]].
    rewrite Hxs, !rev_app_distr, <- app_assoc, lookup_app_r by (rewrite length_rev; unfold Zlen in Hys; lia).
    rewrite length_rev. unfold Zlen in Hys. by replace (i - length ys)%nat with 0%nat by lia. }
  apply list_eq. intros i. rewrite list_lookup_fmap.
  destruct (decide (i < length (stk s))%nat) as [Hi|Hi].
  - destruct (Hlk i Hi) as (x & -> & Hp). rewrite lookup_seq_lt by done. cbn. by rewrite Hp.
  - rewrite (lookup_ge_None_2 (seq _ _)) by (rewrite length_seq; lia).
    rewrite lookup_ge_None_2; [done|]. rewrite length_rev. lia.
Qed.

Lemma enterScript_spec n script data vm : s_ok n (dstack vm) -> n < 2 ^ 31 ->
  enterScript script data vm
  = Ok (setDstack (setStk data (dstack vm)) (Opcodes.setScripts (scripts vm ++ [script]) vm)).
Proof using.
  intros Hs Hn. unfold enterScript, SetStack. cbn [dstack Opcodes.setScripts].
  by rewrite (setStack_spec n data (dstack vm) Hs Hn).
Qed.

(** ** Between two scripts *)

Definition stacks_ok (vm : Engine) : Prop := Forall el_ok (stk (dstack vm)) /\ Forall el_ok (stk (astack vm)).

(** After the last opcode of a script. *)
Record ended (vm : Engine) : Prop := {
  e_config : config_ok vm;
  e_items : items vm <= MaxStackSize;
  e_stacks : stacks_ok vm;
  e_count : 0 <= scriptIdx vm <= 3 /\ Zlen (scripts vm) = Z.max 2 (scriptIdx vm + 1);
  e_saved : saved_ok vm;
  e_first : bip16 vm = true -> scriptIdx vm = 1 -> savedFirstStack vm <> [];
  e_key : key_ok vm \/ (taproot vm = false /\ bip16 vm = false /\ scriptIdx vm = 1);
}.

(** With script [k] chosen, if there is one. *)
Record started (k : Z) (vm : Engine) : Prop := {
  t_config : config_ok vm;
  t_items : items vm <= MaxStackSize \/ (v0Active vm = true /\ items vm <= Zlen (inputWitness vm));
  t_stacks : stacks_ok vm;
  t_state : numOps vm = 0 /\ condStack vm = [];
  t_count : scriptIdx vm = k /\ 1 <= scriptIdx vm <= 4 /\ Zlen (scripts vm) <= 4 /\
    Zlen (scripts vm) <= Z.max 2 (scriptIdx vm + 1) /\
    (scriptIdx vm < Zlen (scripts vm) -> Zlen (scripts vm) = scriptIdx vm + 1);
  t_saved : saved_ok vm;
  t_first : bip16 vm = true -> scriptIdx vm = 1 -> stk (dstack vm) = savedFirstStack vm;
  t_key : scriptIdx vm < Zlen (scripts vm) -> key_ok vm;
}.

(** A constructor may be changed in the fields the configuration ignores. *)
Lemma config_change vm vm' : config_ok vm ->
  version vm' = version vm -> txIdx vm' = txIdx vm -> tx vm' = tx vm ->
  prevOutFetcher vm' = prevOutFetcher vm -> hashCache vm' = hashCache vm -> flags vm' = flags vm ->
  bip16 vm' = bip16 vm -> witnessProgram vm' = witnessProgram vm \/ witnessProgram vm' = None ->
  (scripts vm' = scripts vm \/ exists script, fits script /\ scripts vm' = scripts vm ++ [script]) ->
  (taproot vm' = true -> is_Some (hashCache vm) /\ bip16 vm = false /\ 2 <= scriptIdx vm') ->
  2 <= Zlen (scripts vm) -> config_ok vm'.
Proof using HM.
  intros [] E1 E2 E3 E4 E5 E6 E7 E8 E9 Ht Hlen. split; unfold vmFlag, inputWitness in *;
    rewrite ?E1, ?E2, ?E3, ?E4, ?E5, ?E6, ?E7; try done.
  - destruct E8 as [-> | ->]; [done|]. by apply (bool_decide_unpack _).
  - destruct E9 as [-> | (script & Hs & ->)]; [done|]. apply Forall_app_2; [done|].
    by apply Forall_cons_2; [|apply Forall_nil_2].
  - intros Hb. destruct (c_p2sh0 Hb) as [l Hl]. exists l.
    destruct E9 as [-> | (script & Hs & ->)]; [done|]. by apply lookup_app_l_Some.
Qed.

Lemma stack_bound vm : config_ok vm -> items vm <= MaxStackSize -> stacks_ok vm ->
  s_ok 1000 (dstack vm) /\ s_ok 1000 (astack vm).
Proof using HM.
  unfold items, MaxStackSize. intros Hc Hi [Hd Ha]. split; (split; [len_lia|done]).
Qed.

Lemma taprootCtx_true vm : taproot vm = true <-> is_Some (taprootCtx vm).
Proof using. unfold taproot. by rewrite bool_decide_eq_true. Qed.

(** ** Witness programs *)

Lemma config_witness vm ti : config_ok vm -> index (E:=ErrorCode) (TxIns (tx vm)) (txIdx vm) = Ok ti ->
  Witness ti = inputWitness vm.
Proof using HM. intros Hc Hi. apply index_ok_iff in Hi as [_ Hi]. unfold inputWitness. by rewrite Hi. Qed.

(** What a witness program leaves: the script entered with the stack. *)
Definition entered (vm vm' : Engine) : Prop :=
  exists script data, fits script /\ Forall item_ok data /\ Zlen data <= Zlen (inputWitness vm) /\
    vm' = setDstack (setStk data (dstack vm)) (Opcodes.setScripts (scripts vm ++ [script]) vm).

Lemma enter_safe script data vm : s_ok 1000 (dstack vm) -> fits script -> Forall item_ok data ->
  Zlen data <= Zlen (inputWitness vm) -> safe (enterScript script data vm) (entered vm).
Proof using HM.
  intros Hs Hscript Hdata Hl. rewrite (enterScript_spec 1000) by done. exists script, data. by split_and!.
Qed.

Lemma parses_safe script vm : config_ok vm -> fits script -> returns_or_fails (checkScriptParses (version vm) script).
Proof using HM.
  intros Hc [Hb Hl]%fits_item. rewrite (c_version _ Hc), checkScriptParses_spec by done. case_match; triv.
Qed.

Lemma p2pkh_fits h : bytes_ok h -> Zlen h = 20 -> fits (p2pkh h).
Proof using HM.
  intros Hb Hh. apply el_fits, el_small; [|unfold p2pkh; rewrite !Zlen_app, Hh; done].
  apply Forall_app_2; [by apply (bool_decide_unpack _)|].
  apply Forall_app_2; [done|by apply (bool_decide_unpack _)].
Qed.

Lemma p2pkh_item h : bytes_ok h -> Zlen h = 20 -> item_ok (p2pkh h).
Proof using.
  intros Hb Hh. apply item_small; [|unfold p2pkh; rewrite !Zlen_app, Hh; done].
  apply Forall_app_2; [by apply (bool_decide_unpack _)|].
  apply Forall_app_2; [done|by apply (bool_decide_unpack _)].
Qed.

Lemma verifyWitnessV0_safe vm : config_ok vm -> s_ok 1000 (dstack vm) ->
  safe (verifyWitnessV0 (default [] (witnessProgram vm)) (inputWitness vm) vm) (entered vm).
Proof using HM.
  intros Hc Hs. destruct (c_program _ Hc) as [Hpb Hpl]. set (program := default [] _) in *.
  pose proof (c_witness _ Hc) as Hw. unfold verifyWitnessV0. apply safe_if; intros Hlen.
  { apply safe_if; [triv|]. intros _. apply Z.eqb_eq in Hlen.
    rewrite payToPubKeyHashScript_spec by done. cbn [mbind outcome_bind].
    eapply safe_bind; [apply parses_safe; [done|by apply p2pkh_fits]|]. intros _ _ _.
    apply enter_safe; [done|by apply p2pkh_fits|by apply fits_items|lia]. }
  apply safe_if; [|triv]. intros _. apply safe_if; [triv|]. intros Hw0. apply Z.eqb_neq in Hw0.
  eapply safe_bind; [eapply (index_safe (inputWitness vm)); [len_lia|exact Hw]|]. intros script _ Hscript.
  do 2 (apply safe_if; [triv|]; intros _). eapply safe_bind; [by apply parses_safe|]. intros _ _ _.
  eapply safe_bind with (P := fun rest => Forall item_ok rest /\ Zlen rest <= Zlen (inputWitness vm)).
  { unfold slice. rewrite decide_True by len_lia. split; [by apply Forall_take, Forall_drop, fits_items|].
    unfold Zlen. rewrite length_take, length_drop. lia. }
  intros rest _ [Hr Hrl]. by apply enter_safe.
Qed.

Lemma ParseControlBlock_safe b : returns_or_fails (ParseControlBlock b).
Proof using.
  unfold ParseControlBlock. apply safe_if; [triv|]. intros Hs. apply Z.ltb_ge in Hs. unfold ControlBlockBaseSize in Hs.
  do 2 (apply safe_if; [triv|]; intros _).
  eapply safe_bind; [apply index_any; lia|]. intros b0 _ _.
  eapply safe_bind with (P := fun _ => True); [unfold slice; rewrite decide_True by lia; triv|].
  intros rawKey _ _. destruct (SchnorrParsePubKey rawKey); [|triv].
  eapply safe_bind with (P := fun _ => True); [unfold slice; rewrite decide_True by lia; triv|triv].
Qed.

Lemma ScriptHasOpSuccess_safe script : item_ok script -> returns_or_fails (ScriptHasOpSuccess script).
Proof using.
  intros [Hb Hl]. unfold ScriptHasOpSuccess.
  pose proof (simple_walk script Hb Hl (fun tk (_ : unit) => if isSuccessOpcode tk.1 then inr true else inl ()) ()) as H.
  cbn [fst snd] in H. destruct (parse script) as [toks ok].
  destruct (foldTokens _ toks ()) as [[]|b].
  - destruct H as (t' & -> & _). triv.
  - rewrite H. triv.
Qed.

Lemma LeafCommitment_safe c p script : returns_or_fails (VerifyTaprootLeafCommitment c p script).
Proof using. unfold VerifyTaprootLeafCommitment. repeat case_match; triv. Qed.

Lemma VerifyTaprootKeySpend_safe p sig vm : 0 <= txIdx vm < Zlen (TxIns (tx vm)) ->
  fetchable (prevOutFetcher vm) (TxIns (tx vm)) -> is_Some (hashCache vm) ->
  returns_or_fails (VerifyTaprootKeySpend p sig vm).
Proof using.
  intros Hi Hf Hh. eapply safe_bind; [by apply index_any|]. intros ti _ _.
  eapply safe_bind; [apply parseTaproot_safe|]. intros [[pubKey s] ht] _ _.
  eapply safe_bind; [apply taprootVerify_safe; [lia|done|done]|]. intros [valid cache] _ _.
  destruct valid; triv.
Qed.

(** The taproot context and the signature cache set. *)
Definition tapped (vm vm' : Engine) : Prop :=
  exists t c, vm' = setTaprootCtx t (setSigCache c vm) /\ (is_Some t -> is_Some (hashCache vm)).

Lemma tapped_ctx t vm : is_Some (hashCache vm) -> tapped vm (setTaprootCtx (Some t) vm).
Proof using. intros Hf. exists (Some t), (sigCache vm). by destruct vm. Qed.

Definition v1_post (vm : Engine) (r : bool * Engine) : Prop :=
  if r.1 then tapped vm r.2 else exists t, is_Some (hashCache vm) /\ entered (setTaprootCtx (Some t) vm) r.2.

Lemma verifyTapscript_safe t0 t witness vm : config_ok vm -> s_ok 1000 (dstack vm) ->
  is_Some (hashCache vm) ->
  Forall fits witness -> 2 <= Zlen witness <= Zlen (inputWitness vm) ->
  safe (verifyTapscript (default [] (witnessProgram vm)) witness t (setTaprootCtx t0 vm)) (v1_post vm).
Proof using HM.
  intros Hc Hs Hf Hw Hl. unfold verifyTapscript.
  eapply safe_bind; [apply index_any; lia|]. intros ctrl _ _.
  eapply safe_bind; [apply ParseControlBlock_safe|]. intros cb _ _.
  eapply safe_bind; [eapply (index_safe witness); [lia|exact Hw]|]. intros script _ Hscript.
  eapply safe_bind; [apply LeafCommitment_safe|]. intros _ _ _.
  eapply safe_bind; [by apply ScriptHasOpSuccess_safe, fits_item|]. intros success _ _.
  apply safe_if; intros _; [apply safe_if; [triv|]; intros _; exact (tapped_ctx _ vm Hf)|].
  apply safe_if; intros _; [apply safe_if; [triv|]; intros _; exact (tapped_ctx _ vm Hf)|].
  eapply safe_bind; [by apply (parses_safe script vm)|]. intros _ _ _.
  eapply safe_bind with (P := fun rest => Forall item_ok rest /\ Zlen rest <= Zlen (inputWitness vm)).
  { unfold slice. rewrite decide_True by lia. split; [by apply Forall_take, Forall_drop, fits_items|].
    unfold Zlen in *. rewrite length_take, length_drop. lia. }
  intros rest _ [Hr Hrl]. cbv zeta. eapply safe_bind; [by apply enter_safe|].
  intros vm' _ He. cbn. unfold v1_post. cbn [fst snd]. eexists. split; [done|exact He].
Qed.

Lemma verifyWitnessV1_safe vm : config_ok vm -> s_ok 1000 (dstack vm) -> taproot vm = false ->
  safe (verifyWitnessV1 (default [] (witnessProgram vm)) (inputWitness vm) vm) (v1_post vm).
Proof using HM.
  intros Hc Hs Htap. unfold verifyWitnessV1. apply safe_if; intros Hf.
  { unfold v1_post. cbn. exists (taprootCtx vm), (sigCache vm). split; [by destruct vm|].
    intros Ht. apply taprootCtx_true in Ht. congruence. }
  rewrite negb_false_iff in Hf. apply safe_if; [triv|]. intros Hw0. apply Z.eqb_neq in Hw0. cbv zeta.
  assert (Hcache : is_Some (hashCache vm)) by (destruct (c_cache _ Hc Hf) as [?|Hnil]; [done|by rewrite Hnil in Hw0]).
  set (w := if isAnnexedWitness _ then _ else _).
  assert (Hw : Forall fits w /\ 1 <= Zlen w <= Zlen (inputWitness vm)).
  { pose proof (c_witness _ Hc) as Hw. unfold w, isAnnexedWitness.
    destruct (Z.ltb_spec (Zlen (inputWitness vm)) 2); [split; [done|len_lia]|].
    case_match; [|split; [done|len_lia]].
    destruct (inputWitness vm) as [|x l _] using rev_ind; [done|].
    rewrite removelast_last. apply list.Forall_app in Hw as [Hw _]. rewrite Zlen_app in *.
    change (Zlen [x]) with 1 in *. split; [done|lia]. }
  clearbody w. destruct Hw as [Hw Hwl]. apply safe_if; intros Hone.
  - eapply safe_bind; [apply index_any; lia|]. intros sig _ _.
    eapply safe_bind.
    + apply VerifyTaprootKeySpend_safe; [apply Hc|apply Hc|done].
    + intros cache _ _. cbn. unfold v1_post. cbn [fst snd]. eexists _, cache. split; [reflexivity|done].
  - apply Z.eqb_neq in Hone. apply verifyTapscript_safe; try done. lia.
Qed.

Lemma short_elements l : Forall item_ok l -> existsb (fun e => MaxScriptElementSize <? Zlen e) l = false ->
  Forall el_ok l.
Proof using.
  induction 1 as [|e l [Hb _] _ IH]; cbn [existsb]; [constructor|]. rewrite orb_false_iff, Z.ltb_ge. intros [He Hl].
  apply Forall_cons_2; [by split|by apply IH].
Qed.

Lemma checkStartStack_safe n vm : Zlen (stk (dstack vm)) <= n -> Forall item_ok (stk (dstack vm)) -> n < 2 ^ 31 ->
  safe (checkStartStack vm) (fun vm' => vm' = vm /\
    (isWitnessVersionActive vm TaprootWitnessVersion = true ->
      Zlen (stk (dstack vm)) <= MaxStackSize /\ Forall el_ok (stk (dstack vm))) /\
    (isWitnessVersionActive vm BaseSegwitWitnessVersion = true -> Forall el_ok (stk (dstack vm)))).
Proof using.
  intros Hl Hi Hn. unfold checkStartStack, GetStack, Depth. rewrite (getStack_spec n) by done.
  rewrite i32_small by len_lia. cbv zeta.
  assert (Hel : safe (if existsb (fun e => MaxScriptElementSize <? Zlen e) (stk (dstack vm))
    then Err ErrElementTooBig else Ok vm) (fun vm' => vm' = vm /\ Forall el_ok (stk (dstack vm)))).
  { apply safe_if; [triv|]. intros He. split; [done|by apply short_elements]. }
  destruct (isWitnessVersionActive vm TaprootWitnessVersion).
  - apply safe_if; [triv|]. intros Hd. apply Z.ltb_ge in Hd. eapply safe_mono; [exact Hel|].
    intros vm' _ [-> He]. by split_and!.
  - apply safe_if; intros Hb; [|by rewrite Hb; split_and!]. eapply safe_mono; [exact Hel|].
    intros vm' _ [-> He]. by split_and!.
Qed.

(** Before a witness program is looked at: no script is left. *)
Record between (vm : Engine) : Prop := {
  b_config : config_ok vm;
  b_items : items vm <= MaxStackSize;
  b_stacks : stacks_ok vm;
  b_state : stk (astack vm) = [] /\ numOps vm = 0 /\ condStack vm = [];
  b_count : 2 <= scriptIdx vm <= 3 /\ Zlen (scripts vm) = scriptIdx vm;
  b_saved : saved_ok vm;
  b_taproot : taproot vm = false;
}.

(** A state without a further script. *)
Lemma between_started vm vm' : between vm -> config_ok vm' ->
  scripts vm' = scripts vm -> scriptIdx vm' = scriptIdx vm -> dstack vm' = dstack vm -> astack vm' = astack vm ->
  numOps vm' = numOps vm -> condStack vm' = condStack vm -> savedFirstStack vm' = savedFirstStack vm ->
  started (scriptIdx vm) vm'.
Proof using HM.
  intros [] Hc E1 E2 E3 E4 E5 E6 E7. split; unfold items, stacks_ok, saved_ok in *;
    rewrite ?E1, ?E2, ?E3, ?E4, ?E5, ?E6, ?E7; try done; try lia.
  tauto.
Qed.

(** A script entered. *)
Lemma entered_started vm vm1 vm' : between vm -> config_ok vm1 -> entered vm1 vm' -> key_ok vm1 ->
  inputWitness vm1 = inputWitness vm ->
  scripts vm1 = scripts vm -> scriptIdx vm1 = scriptIdx vm -> dstack vm1 = dstack vm -> astack vm1 = astack vm ->
  numOps vm1 = numOps vm -> condStack vm1 = condStack vm -> savedFirstStack vm1 = savedFirstStack vm ->
  Zlen (stk (dstack vm')) <= MaxStackSize \/ v0Active vm1 = true -> Forall el_ok (stk (dstack vm')) ->
  started (scriptIdx vm) vm'.
Proof using HM.
  intros [Hb1 Hb2 Hb3 (Ha & Hops & Hcond) [Hi Hlen] Hs Ht] Hc (script & data & Hscript & Hdata & Hdl & ->) Hk
    E0 E1 E2 E3 E4 E5 E6 E7 Hv Hel.
  split; unfold items, stacks_ok, saved_ok in *; cbn -[Z.max] in *;
    rewrite ?E1, ?E2, ?E3, ?E4, ?E5, ?E6, ?E7, ?Ha in *; try done.
  - eapply config_change; [exact Hc|try done..].
    + by left.
    + right. exists script. cbn. by rewrite E1.
    + intros Htap. destruct (c_taproot _ Hc Htap) as (? & ? & ?). by split_and!.
    + rewrite E1. lia.
  - change (Zlen []) with 0. destruct Hv as [Hv|Hv]; [left; lia|right]. split; [exact Hv|].
    change (Zlen data + 0 <= Zlen (inputWitness vm1)). lia.
  - rewrite Zlen_app. change (Zlen [script]) with 1. lia.
  - lia.
Qed.

Lemma verifyWitnessProgram_safe vm : between vm -> safe (verifyWitnessProgram (inputWitness vm) vm) (started (scriptIdx vm)).
Proof using HM.
  intros Hb. pose proof Hb as [Hc Hi Hst _ [Hidx Hlen] _ Htap]. unfold verifyWitnessProgram. cbv zeta.
  destruct (stack_bound vm Hc Hi Hst) as [Hd _].
  assert (Hd' : forall vm', entered vm vm' \/ (exists t, entered (setTaprootCtx t vm) vm') ->
    Zlen (stk (dstack vm')) <= 2 ^ 29 /\ Forall item_ok (stk (dstack vm'))).
  { pose proof (c_witlen _ Hc). intros vm' [He|[t He]]; destruct He as (script & data & ? & ? & Hdl & ->);
      (split; [|done]); cbn; [lia|]. change (inputWitness (setTaprootCtx t vm)) with (inputWitness vm) in Hdl. lia. }
  apply safe_if; intros Hv0.
  { eapply safe_bind; [by apply verifyWitnessV0_safe|]. intros vm' _ He.
    destruct (Hd' vm' (or_introl He)) as [Hl1 Hi1].
    eapply safe_mono; [by apply (checkStartStack_safe (2 ^ 29))|]. intros vm2 _ (-> & _ & Hel).
    apply (entered_started vm vm); try done; [|by right|].
    2: { apply Hel. destruct He as (? & ? & _ & _ & _ & ->). exact Hv0. }
    unfold key_ok. rewrite Htap. right. unfold isWitnessVersionActive in Hv0.
    destruct (witnessProgram vm); [by apply Z.eqb_eq in Hv0|done]. }
  apply safe_if; intros Hv1.
  { rewrite !andb_true_iff, negb_true_iff in Hv1. destruct Hv1 as [[Hv1 _] Hbip].
    assert (Hkey : forall t, key_ok (setTaprootCtx (Some t) vm)).
    { intros t. unfold key_ok. cbn. unfold isWitnessVersionActive in Hv1.
      destruct (witnessProgram vm); [|done]. apply Z.eqb_eq in Hv1. by eauto. }
    assert (Hconf : forall t c, (is_Some t -> is_Some (hashCache vm)) ->
      config_ok (setTaprootCtx t (setSigCache c vm))).
    { intros t c Ht. eapply config_change; [exact Hc|try done..]; [by left|by left| |cbn; lia].
      intros Htt. apply taprootCtx_true in Htt. cbn in *. split; [by apply Ht|split; [done|lia]]. }
    eapply safe_bind; [by apply verifyWitnessV1_safe|]. intros [returned vm'] _ Hpost.
    unfold v1_post in Hpost. cbn [fst snd] in Hpost. destruct returned.
    - destruct Hpost as (t & c & -> & Ht). eapply between_started; try done. by apply Hconf.
    - destruct Hpost as (t & Hf & He).
      destruct (Hd' vm' ltac:(right; by eexists)) as [Hl1 Hi1].
      eapply safe_mono; [by apply (checkStartStack_safe (2 ^ 29))|]. intros vm2 _ (-> & Hsize & _).
      assert (Hact : isWitnessVersionActive vm' TaprootWitnessVersion = true)
        by (destruct He as (? & ? & _ & _ & _ & ->); exact Hv1).
      destruct (Hsize Hact) as [Hlen1 Hel].
      eapply (entered_started vm (setTaprootCtx (Some t) vm)); try done.
      + apply (Hconf (Some t) (sigCache vm)). done.
      + by left. }
  apply safe_if; [triv|]. intros _.
  eapply safe_mono; [apply (checkStartStack_safe 1000); [apply Hd|apply els_items, Hd|done]|]. intros vm' _ [-> _].
  eapply between_started; try done. eapply config_change; [exact Hc|try done..].
  - by right.
  - by left.
  - change (taproot (setWitnessProgram None vm)) with (taproot vm). by rewrite Htap.
  - lia.
Qed.

(** ** The end of a script *)

Lemma CheckErrorCondition_safe final n vm : s_ok n (dstack vm) -> n < 2 ^ 31 ->
  safe (CheckErrorCondition final vm) (fun vm' => exists s, vm' = setDstack s vm /\ s_ok n s).
Proof using.
  intros Hs Hn. unfold CheckErrorCondition. apply safe_if; intros _.
  { exists (dstack vm). by destruct vm. }
  do 4 (apply safe_if; [triv|]; intros _). eapply safe_bind; [by apply (PopBool_safe n)|].
  intros [v s] _ Hs'. apply safe_if; [|triv]. intros _. exists s. split; [done|]. eapply s_ok_mono; [done|lia].
Qed.

(** The state in which the next script is chosen. *)
Definition cleared (vm : Engine) : Engine :=
  setOpcodeIdx 0 (setNumOps 0 (setAstack (setStk [] (astack vm)) vm)).

Definition advanced (vm : Engine) : Engine := setScriptIdx (scriptIdx vm + 1) vm.

Lemma advanced_config vm : config_ok vm -> 2 <= Zlen (scripts vm) -> config_ok (advanced vm).
Proof using HM.
  intros Hc Hl. eapply config_change; [exact Hc|try done..]; [by left|by left|].
  intros Ht. destruct (c_taproot _ Hc Ht) as (? & ? & ?). split_and!; [done|done|cbn; lia].
Qed.

Section Next_script.
Context (vm0 : Engine) (He : ended vm0) (Hcond : condStack vm0 = []).
Let vm := cleared vm0.

Lemma next_bounds : config_ok vm /\ items vm <= MaxStackSize /\ stacks_ok vm /\
  s_ok 1000 (dstack vm) /\ 2 <= Zlen (scripts vm).
Proof using He HM.
  pose proof He as [Hc Hi [Hd Ha] [Hx Hl] _ _ _]. unfold items, MaxStackSize in *.
  assert (Hlen : 2 <= Zlen (scripts vm0)) by lia. split_and!; try done.
  - by destruct Hc; split.
  - cbn. change (Zlen []) with 0. len_lia.
  - split; [cbn; len_lia|done].
Qed.

Lemma next_plain : scriptIdx vm0 <> 0 \/ bip16 vm0 = false ->
  (scriptIdx vm0 = 1 -> bip16 vm0 = false /\ witnessProgram vm0 = None) ->
  started (scriptIdx vm0 + 1) (advanced vm).
Proof using He Hcond HM.
  intros H0 H1. destruct next_bounds as (Hc & Hi & Hst & Hd & Hl).
  pose proof He as [_ _ _ [Hx Hlen] Hs Hf Hk]. split; cbn -[Z.max] in *; try done; try lia.
  - by apply advanced_config.
  - by left.
  - intros Hb Hidx. assert (scriptIdx vm0 = 0) by lia. destruct H0; [lia|congruence].
  - intros Hlt. assert (scriptIdx vm0 = 0) by lia. destruct Hk as [Hk|(_ & _ & Hk)]; [exact Hk|lia].
Qed.

Lemma next_saved : bip16 vm0 = true -> scriptIdx vm0 = 0 ->
  started (scriptIdx vm0 + 1) (setSavedFirstStack (GetStack vm) (advanced vm)).
Proof using He Hcond HM.
  intros Hb H0. destruct next_bounds as (Hc & Hi & Hst & Hd & Hl).
  pose proof He as [_ _ _ [Hx Hlen] Hs Hf Hk]. unfold GetStack. rewrite (getStack_spec 1000) by (apply Hd || done).
  split; cbn -[Z.max] in *; try done; try lia.
  - by destruct (advanced_config vm Hc Hl); split.
  - by left.
  - split; [apply Hst|]. apply Hd.
  - intros _. destruct Hk as [Hk|(_ & _ & Hk)]; [exact Hk|lia].
Qed.

Lemma next_p2sh : bip16 vm0 = true -> scriptIdx vm0 = 1 ->
  safe (vm ← CheckErrorCondition false (advanced vm);
        script ← index (savedFirstStack vm) (Zlen (savedFirstStack vm) - 1);
        _ ← checkScriptParses (version vm) script;
        rest ← slice (savedFirstStack vm) 0 (Zlen (savedFirstStack vm) - 1);
        enterScript script rest vm) (started (scriptIdx vm0 + 1)).
Proof using He Hcond HM.
  intros Hb H1. destruct next_bounds as (Hc & Hi & Hst & Hd & Hl).
  pose proof He as [_ _ _ [Hx Hlen] [Hs Hsl] Hf Hk]. specialize (Hf Hb H1).
  eapply safe_bind; [by apply (CheckErrorCondition_safe _ 1000)|]. intros vm1 _ (s & -> & Hsok). cbn.
  assert (Hne : 1 <= Zlen (savedFirstStack vm0)) by (destruct (savedFirstStack vm0); [done|len_lia]).
  eapply safe_bind; [eapply (index_safe (savedFirstStack vm0)); [lia|exact Hs]|]. intros script _ Hscript%el_fits.
  eapply safe_bind; [by apply (parses_safe script vm)|]. intros _ _ _.
  eapply safe_bind with (P := fun rest => Forall el_ok rest /\ Zlen rest <= MaxStackSize).
  { unfold slice. rewrite decide_True by lia. split; [by apply Forall_take, Forall_drop|].
    unfold Zlen in *. rewrite length_take, length_drop. lia. }
  intros rest _ [Hr Hrl]. rewrite (enterScript_spec 1000) by done. cbn.
  split; cbn -[Z.max] in *; try done; rewrite ?Zlen_app; change (Zlen [script]) with 1; try lia.
  - eapply (config_change (advanced vm)); [by apply advanced_config|try done..]; [by left|right; by exists script|].
    intros Ht. destruct (c_taproot _ Hc Ht) as (_ & Hbf & _). cbn in Hbf. congruence.
  - left. unfold items. cbn. change (Zlen []) with 0. lia.
  - intros _. destruct Hk as [Hk|(_ & Hk & _)]; [exact Hk|congruence].
Qed.

Lemma next_witness : is_Some (witnessProgram vm0) ->
  (scriptIdx vm0 = 1 /\ bip16 vm0 = false) \/ (scriptIdx vm0 = 2 /\ bip16 vm0 = true) ->
  safe (txIn ← index (TxIns (tx vm)) (txIdx vm); verifyWitnessProgram (Witness txIn) (advanced vm))
    (started (scriptIdx vm0 + 1)).
Proof using He Hcond HM.
  intros Hw Hcase. destruct next_bounds as (Hc & Hi & Hst & Hd & Hl).
  pose proof He as [_ _ _ [Hx Hlen] Hs Hf Hk].
  eapply safe_bind; [apply index_any, Hc|]. intros ti Hti _.
  rewrite (config_witness vm ti Hc Hti). change (inputWitness vm) with (inputWitness (advanced vm)).
  apply (verifyWitnessProgram_safe (advanced vm)). split; cbn -[Z.max] in *; try done; try lia.
  - by apply advanced_config.
  - destruct (taproot vm0) eqn:Ht; [|exact Ht]. destruct (c_taproot _ Hc Ht) as (_ & Hbf & Hge). cbn in *.
    destruct Hcase as [[? ?]|[? ?]]; [lia|congruence].
Qed.

Lemma nextScript_safe : safe (nextScript vm) (started (scriptIdx vm0 + 1)).
Proof using He Hcond HM.
  unfold nextScript. cbv zeta. fold (advanced vm).
  change (scriptIdx vm) with (scriptIdx vm0). change (bip16 vm) with (bip16 vm0).
  change (witnessProgram vm) with (witnessProgram vm0).
  apply safe_if; intros C1.
  { apply andb_true_iff in C1 as [C0 Cb]. apply Z.eqb_eq in C0. by apply next_saved. }
  apply andb_false_iff in C1. rewrite Z.eqb_neq in C1.
  apply safe_if; intros C2.
  { apply andb_true_iff in C2 as [C0 Cb]. apply Z.eqb_eq in C0. by apply next_p2sh. }
  apply andb_false_iff in C2. rewrite Z.eqb_neq in C2.
  apply safe_if; intros C3.
  - rewrite orb_true_iff, !andb_true_iff, !Z.eqb_eq, !bool_decide_eq_true in C3.
    destruct C3 as [[C0 Cw]|[[C0 Cw] Cb]]; apply next_witness; try done; [|by right].
    left. split; [done|]. by destruct C2 as [?|?].
  - rewrite orb_false_iff, !andb_false_iff, !Z.eqb_neq, !bool_decide_eq_false in C3.
    apply next_plain; [done|]. intros H1. destruct C3 as [[C3|C3] _]; [done|].
    split; [by destruct C2|]. apply eq_None_not_Some. exact C3.
Qed.
End Next_script.

(** ** Steps *)
Definition step_post (vm : Engine) (r : bool * Engine) : Prop :=
  if r.1 then s_ok (2 ^ 29) (dstack r.2) else inv r.2 /\ remaining r.2 < remaining vm.

(** The chosen script is loaded. *)
Lemma started_inv k vm script : started k vm -> index (E:=ErrorCode) (scripts vm) (scriptIdx vm) = Ok script ->
  inv (setTokenizer (MakeScriptTokenizer (version vm) script) (setLastCodeSep 0 vm)).
Proof using HM.
  intros [Hc Hi [Hd Ha] [Hn Hcond] Hcount Hs Hf Hk] Hidx. pose proof Hidx as Hlk.
  apply index_ok_iff in Hlk as [Hpos Hlk].
  assert (Hlt : scriptIdx vm < Zlen (scripts vm)) by (apply lookup_lt_Some in Hlk; unfold Zlen; lia).
  assert (Hscript : item_ok script) by (eapply fits_item, Forall_lookup_1; [exact (c_scripts _ Hc)|exact Hlk]). destruct Hscript as [Hsb Hsl].
  split; try done.
  - by destruct Hc; split.
  - split; try done; [|by cbn; rewrite Hn]. destruct Hi as [Hi|[Hv Hi]]; [by left|right]. by split_and!.
  - cbn -[Z.max] in *. lia.
  - intros Hb H1. right. split_and!; try done. by apply Hf.
  - exists [], script. split_and!; try done.
    + split_and!; try done. cbn. by rewrite (c_version _ Hc).
    + left. by apply Hk.
Qed.

Lemma endScript_safe vm : ended vm -> 0 <= t_offset (tokenizer vm) <= Zlen (t_script (tokenizer vm)) ->
  safe (endScript vm) (step_post vm).
Proof using L HM.
  intros He Ho. unfold endScript. apply safe_if; [triv|]. intros Hcond. apply negb_false_iff, Z.eqb_eq in Hcond.
  assert (condStack vm = []) by (destruct (condStack vm); [done|len_lia]).
  destruct (stack_bound vm) as [Hsd Hsa]; [apply He..|]. rewrite (clearStack_spec 1000) by done.
  cbn [mbind outcome_bind]. eapply safe_bind; [by apply (nextScript_safe vm)|]. intros vm1 _ Hst.
  pose proof Hst as [Hc Hi [Hd Ha] _ (Hk & H14 & H4 & Hlen & Heq) _ _ _].
  assert (Hd1 : s_ok (2 ^ 29) (dstack vm1)).
  { pose proof (c_witlen _ Hc). unfold items, MaxStackSize in Hi. split; [len_lia|done]. }
  eapply safe_bind with (P := fun vm2 => vm2 = vm1 \/ (dstack vm2 = dstack vm1 /\ Zlen (scripts vm2) <= scriptIdx vm2)).
  { apply safe_if; [|by left]. intros Hlt. apply Z.ltb_lt in Hlt.
    eapply safe_bind; [apply index_any; lia|]. intros script _ _. cbn. case_match; [|by left].
    right. cbn. split; [done|lia]. }
  intros vm2 _ Hvm2. cbv zeta. apply safe_if; intros Hdone.
  - unfold step_post. cbn. by destruct Hvm2 as [->|[-> _]].
  - apply Z.leb_gt in Hdone. cbn in Hdone. destruct Hvm2 as [->|[_ ?]]; [|lia]. cbn [scripts scriptIdx setLastCodeSep].
    eapply safe_bind; [apply index_any; lia|]. intros script Hscript _. unfold step_post. cbn [fst snd mret outcome_ret safe].
    split; [exact (started_inv _ vm1 script Hst Hscript)|]. unfold remaining. cbn.
    apply index_ok_iff in Hscript as [_ Hscript].
    assert (Hok : fits script) by (eapply Forall_lookup_1; [exact (c_scripts _ Hc)|exact Hscript]). destruct Hok. lia.
Qed.

(** The first opcode of a P2SH output needs an item. *)
Lemma hash160_empty data vm vm' : executeOpcode OP_HASH160 data vm = Ok vm' -> condStack vm = [] ->
  stk (dstack vm) <> [].
Proof using.
  intros Hex Hcond Hd. unfold executeOpcode in Hex.
  change (isOpcodeDisabled OP_HASH160) with false in Hex. change (isOpcodeAlwaysIllegal OP_HASH160) with false in Hex.
  cbn [mbind] in Hex. apply outcome_bind_ok in Hex as (vm1 & Hops & Hex).
  assert (Hsame : condStack vm1 = [] /\ dstack vm1 = dstack vm).
  { destruct (negb (taproot vm) && _) in Hops; cbv zeta in Hops.
    - destruct (MaxOpsPerScript <? _) in Hops; [done|]. by apply (inj Ok) in Hops as <-.
    - destruct (MaxScriptElementSize <? _) in Hops; [done|]. by apply (inj Ok) in Hops as <-. }
  destruct Hsame as [Hc1 Hd1]. unfold isBranchExecuting in Hex. rewrite Hc1 in Hex. cbn [negb andb] in Hex.
  change (Zlen [] =? 0) with true in Hex. cbn [negb andb] in Hex.
  apply outcome_bind_ok in Hex as (_ & _ & Hex).
  change (index opcodeArray OP_HASH160) with (Ok (E:=ErrorCode) opcodeHash160) in Hex. cbn [mbind outcome_bind] in Hex.
  unfold opcodeHash160, onStack, hashOp, PopByteArray in Hex. rewrite nipN_short in Hex; [done| |].
  - unfold sized. by rewrite Hd1, Hd.
  - by rewrite Hd1, Hd.
Qed.

(** What one opcode leaves, before the end of the script is looked at. *)
Record stepped (vm : Engine) (pre rest : list Z) (vm' : Engine) : Prop := {
  p_ended : ended vm';
  p_at : at_ (tokenizer vm') pre rest;
  p_script : index (E:=ErrorCode) (scripts vm') (scriptIdx vm') = Ok (pre ++ rest);
  p_sep : 0 <= lastCodeSep vm' <= t_offset (tokenizer vm');
  p_ops : 0 <= numOps vm' <= MaxOpsPerScript;
  p_key : key_ok vm' \/ (taproot vm' = false /\ bip16 vm' = false /\ scriptIdx vm' = 1 /\
    Forall (fun tk => tk.1 <= OP_16) (parse rest).1);
  p_remaining : scriptIdx vm' = scriptIdx vm /\ remaining vm' < remaining vm;
}.

Lemma stepped_inv vm pre rest vm' : stepped vm pre rest vm' -> inv vm'.
Proof using HM.
  intros [[Hc Hi [Hd Ha] Hcount Hs Hf _] Hat Hidx Hsep Hops Hk _]. split; try done.
  - split; try done. by left.
  - intros Hb H1. left. by apply Hf.
  - by exists pre, rest.
Qed.

Lemma after_config n vm vm' : after n vm vm' -> config_ok vm -> config_ok vm'.
Proof using HM.
  intros [_ Hcore Ht] []. destruct (core_kept _ _ Hcore) as [].
  split; unfold vmFlag, inputWitness in *;
    repeat match goal with H : _ vm' = _ vm |- _ => rewrite H end; done.
Qed.

Lemma after_key n vm vm' : after n vm vm' -> key_ok vm -> key_ok vm'.
Proof using.
  intros [_ Hcore Ht]. destruct (core_kept _ _ Hcore) as []. unfold key_ok.
  by rewrite Ht, k_witnessProgram0, k_witnessVersion0.
Qed.

Lemma depth_sum vm : vm_ok (2 ^ 29 + 3) vm ->
  i32 (Depth (dstack vm) + Depth (astack vm)) = items vm.
Proof using.
  intros [[Hd _] [Ha _] _ _]. unfold Depth. rewrite !i32_small by (rewrite ?i32_small; len_lia). done.
Qed.

Section One_opcode.
Context (vm : Engine) (Hinv : inv vm) (pre rest : list Z) (tk : token) (rest' : list Z).
Context (Hat : at_ (tokenizer vm) pre rest) (Hidx : index (E:=ErrorCode) (scripts vm) (scriptIdx vm) = Ok (pre ++ rest)).
Context (Hkey : key_ok vm \/ (taproot vm = false /\ bip16 vm = false /\ scriptIdx vm = 1 /\
  Forall (fun tk => tk.1 <= OP_16) (parse rest).1)).
Context (Hft : firstToken rest = Some (tk, rest')) (Hrest : rest = printToken tk ++ rest')
  (Hop : byte_ok tk.1) (Hdata : item_ok tk.2) (Hat' : at_ (advance (tokenizer vm) tk) (pre ++ printToken tk) rest')
  (Hlen : 0 < Zlen (printToken tk)).

(** The engine as the opcode finds it. *)
Let vm1 := setTokenizer (advance (tokenizer vm) tk) vm.

Lemma opcode_ready : run_ok vm1 /\ vm_ok (2 ^ 29) vm1 /\ (tk.1 <= OP_16 \/ key_ok vm1).
Proof using Hinv Hat Hidx Hkey Hft Hrest Hlen Hat' HM.
  pose proof Hinv as [Hc Hl Hsep _ _ _ _]. destruct (limits_vm_ok vm Hc Hl Hsep) as [Hd Ha Ho Hs].
  destruct (inv_run vm Hinv) as [H1 H2 H3 _]. split_and!.
  - split; try done. exists (pre ++ rest). split; [exact Hidx|].
    assert (Hok : item_ok (pre ++ rest)).
    { apply index_ok_iff in Hidx as [_ Hlk]. eapply fits_item, Forall_lookup_1; [exact (c_scripts _ Hc)|exact Hlk]. }
    split; [done|]. destruct Hat' as (Hs1 & Ho1 & _). cbn in Ho1. cbn.
    rewrite Ho1, Hrest, app_assoc, Zlen_app. len_lia.
  - split; try done. cbn. lia.
  - destruct Hkey as [Hk|(_ & _ & _ & Hpush)]; [by right|left].
    destruct Hat as (_ & _ & _ & _ & Hb). rewrite (parse_first rest tk rest' Hb Hft) in Hpush.
    by apply Forall_inv in Hpush.
Qed.

Lemma first_opcode vm2 : executeOpcode tk.1 tk.2 vm1 = Ok vm2 -> bip16 vm = true -> scriptIdx vm = 1 ->
  savedFirstStack vm <> [].
Proof using Hinv Hat Hidx Hft Hrest Hop Hlen Hdata Hat' HM.
  intros Hex Hb H1. destruct (i_first vm Hinv Hb H1) as [?|(Ho & Hd & Hcond)]; [done|].
  destruct (c_p2sh vm (i_config _ Hinv) Hb) as [l Hl]. destruct Hat as (Hs & Ho' & _ & _ & Hbs).
  rewrite Ho in Ho'. assert (Hpre : pre = []) by (destruct pre; [done|rewrite Zlen_cons in Ho'; len_lia]).
  subst pre. apply index_ok_iff in Hidx as [_ Hlk]. rewrite H1 in Hlk. change (Z.to_nat 1) with 1%nat in Hlk.
  rewrite Hl in Hlk. injection Hlk as Hscript. cbn [app] in Hscript.
  assert (Htk : tk.1 = OP_HASH160).
  { rewrite <- Hscript in Hrest. destruct tk as [o d]. unfold printToken in Hrest. cbn [app] in Hrest.
    by injection Hrest as -> _. }
  rewrite Htk in Hex. apply hash160_empty in Hex; [|done]. cbn in Hex. by rewrite Hd in Hex.
Qed.

Lemma opcode_stepped vm2 k : executeOpcode tk.1 tk.2 vm1 = Ok vm2 -> after (2 ^ 29 + 3) vm1 vm2 ->
  i32 (Depth (dstack vm2) + Depth (astack vm2)) <= MaxStackSize ->
  stepped vm (pre ++ printToken tk) rest' (setOpcodeIdx k vm2).
Proof using Hinv Hat Hidx Hkey Hft Hrest Hat' Hlen Hop Hdata HM.
  intros Hex Ha Hsize. pose proof (a_ok _ _ _ Ha) as Hv. rewrite (depth_sum vm2 Hv) in Hsize.
  pose proof (core_kept _ _ (a_core _ _ _ Ha)) as K.
  pose proof (k_scripts _ _ K) as Ks. pose proof (k_scriptIdx _ _ K) as Ki. pose proof (k_tokenizer _ _ K) as Kt.
  pose proof (k_savedFirstStack _ _ K) as Kf. pose proof (k_bip16 _ _ K) as Kb. pose proof (a_taproot _ _ _ Ha) as Ktap.
  cbn in Ks, Ki, Kt, Kf, Kb. change (taproot vm1) with (taproot vm) in Ktap.
  pose proof Hinv as [Hc Hl Hsep Hcount Hsaved Hfirst _].
  assert (Hc1 : config_ok vm1) by by destruct Hc; split.
  assert (Hc2 : config_ok (setOpcodeIdx k vm2)) by by destruct (after_config _ _ _ Ha Hc1); split.
  assert (Hk2 : key_ok vm2 \/ (taproot vm2 = false /\ bip16 vm2 = false /\ scriptIdx vm2 = 1 /\
    Forall (fun tk => tk.1 <= OP_16) (parse rest').1)).
  { destruct Hkey as [Hk|(H1 & H2 & H3 & H4)]; [left; by eapply after_key|right].
    rewrite Ktap, Kb, Ki. split_and!; try done. destruct Hat as (_ & _ & _ & _ & Hb).
    rewrite (parse_first rest tk rest' Hb Hft) in H4. by apply Forall_inv_tail in H4. }
  split; try done.
  - split; try done.
    + split; [apply Hv|apply Hv].
    + cbn -[Z.max]. by rewrite Ki, Ks.
    + split; cbn; rewrite Kf; apply Hsaved.
    + cbn. rewrite Kb, Ki, Kf. by eapply first_opcode.
    + destruct Hk2 as [?|(? & ? & ? & _)]; [by left|by right].
  - cbn. by rewrite Kt.
  - cbn. by rewrite Ks, Ki, Hidx, Hrest, app_assoc.
  - apply Hv.
  - apply Hv.
  - unfold remaining. cbn. rewrite Ki, Kt. cbn. split; [done|]. lia.
Qed.
End One_opcode.

Lemma Step_safe vm : inv vm -> safe (Step vm) (step_post vm).
Proof using L HM.
  intros Hinv. pose proof (i_pos _ Hinv) as (pre & rest & Hat & Hidx & Hkey). unfold Step.
  eapply safe_bind with (P := fun _ => True); [unfold checkValidPC; case_match; triv|]. intros _ _ _.
  destruct (Next_cases _ _ _ Hat) as [[t' ->]|(tk & rest' & Hft & -> & Hrest & Hop & Hdata & Hat' & Hlen & Hempty)].
  { cbn [mbind outcome_bind negb]. destruct (t_err t'); triv. }
  cbn [mbind outcome_bind negb Opcode advance t_op Data t_data].
  destruct (opcode_ready vm Hinv pre rest tk rest') as (Hr & Hv & Hk); try done.
  eapply safe_bind; [by apply (executeOpcode_safe _ _ (2 ^ 29))|]. intros vm2 Hex Ha.
  apply safe_if; [triv|]. intros Hsize. apply Z.ltb_ge in Hsize. cbv zeta.
  assert (Hst : forall k, stepped vm (pre ++ printToken tk) rest' (setOpcodeIdx k vm2))
    by (intros k; by eapply opcode_stepped).
  specialize (Hst (opcodeIdx vm2 + 1)). apply safe_if; intros _.
  - eapply safe_mono; [apply endScript_safe; [apply Hst|]|].
    + destruct (p_at _ _ _ _ Hst) as (Hs & Ho & _). rewrite Hs, Ho. len_lia.
    + intros [fin vm3] _. unfold step_post. cbn. destruct fin; [done|]. intros [Hi Hm]. split; [done|].
      pose proof (p_remaining _ _ _ _ Hst). lia.
  - unfold step_post. cbn. split; [by eapply stepped_inv|]. apply (p_remaining _ _ _ _ Hst).
Qed.

(** ** The constructor *)

(** What the caller passes: bytes, the previous outputs, and the midstates
    for taproot when the input has a witness. *)
Record spend_ok (scriptPubKey : list Z) (tx : MsgTx) (txIdx : Z) (flags : ScriptFlags)
    (hashCache : option TxSigHashes) (fetcher : OutPoint -> option TxOut) : Prop := {
  sp_pk : bytes_ok scriptPubKey;
  sp_in : forall ti, TxIns tx !! Z.to_nat txIdx = Some ti ->
    item_ok (SignatureScript ti) /\ Forall item_ok (Witness ti) /\ Zlen (Witness ti) <= 2 ^ 29;
  sp_fetch : fetchable fetcher (TxIns tx);
  sp_cache : hasFlag flags ScriptVerifyTaproot = true -> is_Some hashCache \/
    forall ti, TxIns tx !! Z.to_nat txIdx = Some ti -> Witness ti = [];
}.

Lemma program_pushes v p : 0 <= v <= 16 -> 2 <= Zlen p <= 40 -> bytes_ok p ->
  Forall (fun tk => tk.1 <= OP_16) (parse (versionOpcode v :: Zlen p :: p)).1.
Proof using.
  intros Hv Hp Hb. destruct (versionOpcode_small v Hv) as (Hs & _ & Hl).
  assert (Hop : token_ok (versionOpcode v, [])) by (unfold token_ok; by rewrite Hl).
  assert (Hd : opcodeLength (Zlen p) = Zlen p + 1) by (apply opcodeLength_direct; unfold OP_PUSHDATA1; lia).
  assert (Hpush : token_ok (Zlen p, p)).
  { unfold token_ok. rewrite Hd, (proj2 (Z.ltb_ge _ 0)) by lia. lia. }
  replace (versionOpcode v :: Zlen p :: p) with (printTokens [(versionOpcode v, []); (Zlen p, p)]).
  - rewrite parse_print by (by repeat apply Forall_cons_2). cbn. unfold OP_16.
    apply Forall_cons_2; [|apply Forall_cons_2; [cbn; lia|apply Forall_nil_2]]. cbn.
    unfold IsSmallInt, OP_0, OP_1, OP_16 in Hs. rewrite orb_true_iff, andb_true_iff, Z.eqb_eq, !Z.leb_le in Hs. lia.
  - cbn [fmap list_fmap concat printToken]. rewrite Hl, Hd, !(proj2 (Z.ltb_ge _ 0)) by lia. cbn.
    by rewrite app_nil_r.
Qed.

(** The program found, and where when the output is not P2SH. *)
Lemma findWitnessProgram_safe scriptSig scriptPubKey witness p2sh :
  bytes_ok scriptSig -> bytes_ok scriptPubKey -> (p2sh = true -> isScriptHashScript scriptPubKey = true) ->
  safe (findWitnessProgram scriptSig scriptPubKey witness p2sh) (fun r =>
    forall v p, r = Some (v, p) -> bytes_ok p /\ 0 <= v <= 16 /\ 2 <= Zlen p <= 40 /\
      (p2sh = false -> scriptSig = [] /\ scriptPubKey = versionOpcode v :: Zlen p :: p) /\
      (p2sh = true -> extractWitnessProgramInfo (drop 1 scriptSig) = Ok (Some (v, p)))).
Proof using.
  intros Hsig Hpk Hhash. unfold findWitnessProgram, IsWitnessProgram.
  destruct (extractWitnessProgramInfo_spec scriptPubKey Hpk) as (rn & -> & Hrn). cbn [mbind outcome_bind mret outcome_ret].
  eapply safe_bind with (P := fun w => match w with
    | Some script => bytes_ok script /\ (p2sh = false -> script = scriptPubKey /\ scriptSig = []) /\
        (p2sh = true -> script = drop 1 scriptSig)
    | None => True end).
  { case_bool_decide as Hsome.
    - apply safe_if; [triv|]. intros Hz. rewrite negb_false_iff, Z.eqb_eq in Hz. cbn. split; [done|].
      split; [intros _; split; [done|]; destruct scriptSig; [done|len_lia]|]. intros Hp2sh. exfalso.
      destruct Hsome as [[v p] ->]. destruct (proj1 (Hrn v p) eq_refl) as (Hv & _ & Heq). specialize (Hhash Hp2sh).
      unfold isScriptHashScript in Hhash. rewrite Heq, !andb_true_iff, !Z.eqb_eq in Hhash. destruct Hhash as [[[_ H0] _] _].
      cbn in H0. unfold versionOpcode, OP_HASH160, OP_0, OP_1 in H0. case_match; lia.
    - apply safe_if; [|by cbn]. rewrite andb_true_iff. intros [_ Hp]. apply safe_if; [|triv].
      intros Hl. apply Z.ltb_lt in Hl. eapply safe_bind; [apply index_any; lia|]. intros op _ _.
      eapply safe_bind with (P := fun r => bytes_ok r /\ r = drop 1 scriptSig).
      { unfold slice. rewrite decide_True by lia. split; [by apply Forall_take, Forall_drop|].
        change (Z.to_nat 1) with 1%nat. apply take_ge. rewrite length_drop. unfold Zlen. lia. }
      intros r _ [Hr Hdrop]. destruct (extractWitnessProgramInfo_spec r Hr) as (rr & -> & _). cbn [mbind outcome_bind].
      apply safe_if; [|triv]. intros _. cbn. split; [done|]. split; [congruence|done]. }
  intros [script|] _ Hw; [|by apply safe_if; [triv|]]. destruct Hw as (Hsb & Hw & Hw2).
  destruct (extractWitnessProgramInfo_spec script Hsb) as (r & Hex & Hr). rewrite Hex. cbn [mbind outcome_bind].
  destruct r as [[v p]|]; [|triv]. cbn. intros v' p' [= -> ->]. destruct (proj1 (Hr v' p') eq_refl) as (Hv & Hp & Heq).
  split; [by rewrite Heq in Hsb; do 2 apply list.Forall_cons in Hsb as [_ Hsb]|]. split; [done|]. split; [done|]. split.
  - intros Hno. destruct (Hw Hno) as [<- ->]. by split.
  - intros Hyes. by rewrite <- (Hw2 Hyes).
Qed.

(** An input that could carry a program of version 1 or higher when it spends
    a P2SH output: the bytes after the first opcode are one. *)
Definition nestedProgram (ti : TxIn) : Prop := exists v p,
  extractWitnessProgramInfo (drop 1 (SignatureScript ti)) = Ok (Some (v, p)) /\ v <> BaseSegwitWitnessVersion.

(** A program found inside a P2SH input is of version 0. *)
Definition nested_v0 (vm : Engine) : Prop :=
  bip16 vm = true -> witnessProgram vm = None \/ witnessVersion vm = BaseSegwitWitnessVersion.

Lemma fresh_inv flags tx txIdx p2sh hashCache fetcher amount sigCache scriptSig scriptPubKey ti v p minimal :
  spend_ok scriptPubKey tx txIdx flags hashCache fetcher -> 0 <= txIdx < Zlen (TxIns tx) ->
  TxIns tx !! Z.to_nat txIdx = Some ti -> SignatureScript ti = scriptSig ->
  Zlen scriptSig <= MaxScriptSize -> Zlen scriptPubKey <= MaxScriptSize -> Forall (fun b => Zlen b <= M) (Witness ti) ->
  (p2sh = true -> isScriptHashScript scriptPubKey = true) ->
  (forall prog, p = Some prog -> bytes_ok prog /\ 0 <= v <= 16 /\ 2 <= Zlen prog <= 40 /\
    (p2sh = false -> scriptSig = [] /\ scriptPubKey = versionOpcode v :: Zlen prog :: prog)) ->
  let idx := if Zlen scriptSig =? 0 then 1 else 0 in
  let script := if Zlen scriptSig =? 0 then scriptPubKey else scriptSig in
  let vm := mkEngine flags tx txIdx 0 p2sh hashCache fetcher amount sigCache
              [scriptSig; scriptPubKey] idx 0 0 (MakeScriptTokenizer 0 script) []
              (mkStack [] minimal) (mkStack [] minimal) [] 0 v p None in
  nested_v0 vm -> inv vm.
Proof using HM.
  intros [Hpk Hin Hf Hcache] Hidx Hti <- Hsl Hpl Hlong Hp2sh Hprog idx script vm Hnest.
  destruct (Hin ti Hti) as ([Hsb _] & Hw & Hwl).
  assert (Hscript : fits (SignatureScript ti) /\ fits scriptPubKey) by (split; split; done || lia).
  destruct Hscript as [Hs1 Hs2].
  assert (Hsc : item_ok script) by (unfold script; apply fits_item; by case_match). destruct Hsc as [Hscb Hscl].
  split.
  - split; try done; unfold inputWitness; cbn; rewrite ?Hti; try done.
    + intros Ht. destruct (Hcache Ht) as [?|Hno]; [by left|right]. by apply Hno.
    + rewrite list.Forall_forall in Hw, Hlong |- *. intros b Hb. split; [by apply Hw|by apply Hlong].
    + destruct p as [prog|]; [|by apply (bool_decide_unpack _)]. destruct (Hprog prog eq_refl) as (Hb & _ & Hl & _).
      apply (item_small prog); [done|lia].
    + by apply Forall_cons_2; [|apply Forall_cons_2; [|apply Forall_nil_2]].
    + intros Hb. specialize (Hp2sh Hb). unfold isScriptHashScript in Hp2sh.
      rewrite !andb_true_iff, !Z.eqb_eq in Hp2sh. destruct Hp2sh as [[[Hl H0] _] _].
      destruct scriptPubKey as [|x l]; [done|]. exists l. cbn in H0. by rewrite H0.
  - split; try done; [by left|by apply Forall_nil_2..].
  - done.
  - cbn -[Z.max]. unfold idx. change (Zlen [_; _]) with 2. case_match; lia.
  - split; [by apply Forall_nil_2|done].
  - intros _ _. by right.
  - exists [], script. split_and!.
    + by split_and!.
    + unfold vm, idx, script. cbn [scripts scriptIdx app]. by case_match.
    + unfold key_ok. cbn. destruct p as [prog|]; [|by left; left].
      destruct p2sh; [left; by apply Hnest|]. right.
      destruct (Hprog prog eq_refl) as (Hb & Hv & Hl & Hnat). destruct (Hnat eq_refl) as [Hempty Heq].
      split_and!; try done; unfold idx, script; rewrite Hempty; [done|].
      change (Zlen [] =? 0) with true. rewrite Heq. by apply program_pushes.
Qed.

Lemma NewEngine_safe scriptPubKey tx txIdx flags sigCache hashCache amount fetcher :
  spend_ok scriptPubKey tx txIdx flags hashCache fetcher ->
  (forall ti, TxIns tx !! Z.to_nat txIdx = Some ti -> Forall (fun b => Zlen b <= M) (Witness ti)) ->
  safe (NewEngine scriptPubKey tx txIdx flags sigCache hashCache amount fetcher) (fun vm =>
    (nested_v0 vm -> inv vm) /\
    ((forall ti, TxIns tx !! Z.to_nat txIdx = Some ti -> ~ nestedProgram ti) -> nested_v0 vm)).
Proof using HM.
  intros Hok Hlong. unfold NewEngine. apply safe_if; [triv|]. intros Hidx.
  rewrite orb_false_iff, Z.ltb_ge, Z.leb_gt in Hidx.
  eapply safe_bind; [by apply index_any|]. intros ti Hti _. apply index_ok_iff in Hti as [_ Hti].
  destruct (sp_in _ _ _ _ _ _ Hok ti Hti) as ([Hsb Hsl0] & _ & _). pose proof (sp_pk _ _ _ _ _ _ Hok) as Hpk.
  do 2 (apply safe_if; [triv|]; intros _).
  rewrite IsPushOnlyScript_spec by done. cbn [mbind outcome_bind]. cbv zeta.
  do 2 (apply safe_if; [triv|]; intros _). apply safe_if; [triv|]. intros Hsl. apply Z.ltb_ge in Hsl.
  eapply safe_bind with (P := fun _ => True); [rewrite checkScriptParses_spec by done; case_match; triv|]. intros _ _ _.
  apply safe_if; [triv|]. intros Hpl. apply Z.ltb_ge in Hpl.
  eapply safe_bind with (P := fun _ => True).
  { rewrite checkScriptParses_spec; [case_match; triv|done|unfold MaxScriptSize in Hpl; lia]. }
  intros _ _ _. set (p2sh := hasFlag flags ScriptBip16 && isScriptHashScript scriptPubKey).
  eapply safe_bind with (P := fun r => forall v p, r = Some (v, p) -> bytes_ok p /\ 0 <= v <= 16 /\ 2 <= Zlen p <= 40 /\
      (p2sh = false -> SignatureScript ti = [] /\ scriptPubKey = versionOpcode v :: Zlen p :: p) /\
      (p2sh = true -> extractWitnessProgramInfo (drop 1 (SignatureScript ti)) = Ok (Some (v, p)))).
  { apply safe_if; [|by cbn]. intros _. apply safe_if; [triv|]. intros _. apply findWitnessProgram_safe; [exact Hsb|exact Hpk|].
    by intros [_ ?]%andb_true_iff. }
  intros wit _ Hwit. set (script := if Zlen (SignatureScript ti) =? 0 then scriptPubKey else SignatureScript ti).
  destruct (match wit with Some (v, p) => (v, Some p) | None => (0, None) end) as [v p] eqn:Hvp.
  replace (index _ _) with (Ok (E:=ErrorCode) script) by (unfold script; by destruct (Zlen _ =? 0)). cbn [mbind outcome_bind].
  split.
  - intros Hnest. eapply fresh_inv; try done.
    + by apply Hlong.
    + by intros [_ Hs]%andb_true_iff.
    + intros prog ->. destruct wit as [[v' p']|]; [|done]. injection Hvp as -> ->.
      destruct (Hwit _ _ eq_refl) as (H1 & H2 & H3 & H4 & _). exact (conj H1 (conj H2 (conj H3 H4))).
  - intros Hno Hb. cbn in Hb. cbn. destruct wit as [[v' p']|]; injection Hvp as <- <-; [right|by left].
    destruct (Hwit _ _ eq_refl) as (_ & _ & _ & _ & Hx). specialize (Hx Hb). specialize (Hno ti Hti).
    destruct (Z.eq_dec v' BaseSegwitWitnessVersion); [done|]. exfalso. apply Hno. by exists v', p'.
Qed.

(** ** Execution *)

(** The states that an execution passes through. *)
Inductive passes (vm0 : Engine) : Engine -> Prop :=
| passes_start : passes vm0 vm0
| passes_step vm vm' : passes vm0 vm -> Step vm = Ok (false, vm') -> passes vm0 vm'.

Lemma passes_inv vm0 vm : inv vm0 -> passes vm0 vm -> inv vm.
Proof using L HM.
  intros H0. induction 1 as [|vm vm' _ IH Hstep]; [done|].
  pose proof (safe_ok _ _ _ (Step_safe vm IH) Hstep) as Hpost. by destruct Hpost.
Qed.

Lemma remaining_bounds vm : inv vm -> 0 < remaining vm < 5 * (M + 1).
Proof using HM.
  intros [Hc _ _ [Hi _] _ _ (pre & rest & (Hs & Ho & _ & _ & _) & Hidx & _)]. unfold remaining.
  apply index_ok_iff in Hidx as [_ Hidx]. destruct (Forall_lookup_1 _ _ _ _ (c_scripts _ Hc) Hidx) as [_ Hfit].
  rewrite Ho, Hs. rewrite Zlen_app in *. pose proof (Zlen_nonneg pre). pose proof (Zlen_nonneg rest).
  unfold MaxScriptSize in HM. nia.
Qed.

Lemma stepLoop_safe fuel vm : inv vm -> remaining vm < Z.of_nat fuel ->
  safe (stepLoop fuel vm) (fun vm' => s_ok (2 ^ 29) (dstack vm')).
Proof using L HM.
  revert vm; induction fuel as [|fuel IH]; intros vm Hinv Hr.
  - pose proof (remaining_bounds vm Hinv). lia.
  - cbn [stepLoop]. eapply safe_bind; [by apply Step_safe|]. intros [fin vm'] _ Hpost.
    unfold step_post in Hpost. cbn [fst snd] in Hpost. destruct fin; [exact Hpost|].
    destruct Hpost as [Hi Hm]. apply IH; [done|lia].
Qed.

Lemma stepLoop_more fuel fuel' vm : stepLoop fuel vm <> Hang -> (fuel <= fuel')%nat ->
  stepLoop fuel' vm = stepLoop fuel vm.
Proof using.
  revert fuel' vm; induction fuel as [|fuel IH]; intros fuel' vm Hh Hle; [done|].
  destruct fuel' as [|fuel']; [lia|]. cbn [stepLoop] in *.
  destruct (Step vm) as [[fin vm']| | |]; [|done..]. cbn [mbind outcome_bind] in *.
  destruct fin; [done|]. apply IH; [done|lia].
Qed.

Lemma Execute_more fuel fuel' vm : Execute fuel vm <> Hang -> (fuel <= fuel')%nat ->
  Execute fuel' vm = Execute fuel vm.
Proof using.
  unfold Execute. destruct (negb _); [done|]. intros Hh Hle. rewrite (stepLoop_more fuel); [done| |done].
  intros Heq. by rewrite Heq in Hh.
Qed.

Lemma Execute_safe fuel vm : inv vm -> 5 * (M + 1) <= Z.of_nat fuel -> safe (Execute fuel vm) (fun _ => True).
Proof using L HM.
  intros Hinv Hf. unfold Execute. apply safe_if; [triv|]. intros _. pose proof (remaining_bounds vm Hinv).
  eapply safe_bind; [apply stepLoop_safe; [done|lia]|]. intros vm' _ Hs.
  eapply safe_mono; [by apply (CheckErrorCondition_safe _ (2 ^ 29))|done].
Qed.

End Run.

(** Scripts and items are never longer than this. *)
Lemma largest : MaxScriptSize <= 2 ^ 31 - 1 < 2 ^ 31.
Proof. unfold MaxScriptSize. lia. Qed.

Lemma long_enough scriptPubKey tx txIdx flags hashCache fetcher : spend_ok scriptPubKey tx txIdx flags hashCache fetcher ->
  forall ti, TxIns tx !! Z.to_nat txIdx = Some ti -> Forall (fun b => Zlen b <= 2 ^ 31 - 1) (Witness ti).
Proof.
  intros Hs ti Hti. destruct (sp_in _ _ _ _ _ _ Hs ti Hti) as (_ & Hw & _).
  eapply list.Forall_impl; [exact Hw|]. intros b [_ Hb]. lia.
Qed.

(** C1. The script engine terminates without a panic: for any input that is
    spent with its previous outputs at hand (and midstates when taproot is
    verified and the input has a witness), unless a witness program of
    version 1 or higher was found inside a P2SH input, Execute on the engine
    that NewEngine built gives one result, a success or a script error, which
    every run that is given enough steps reaches. *)
Theorem Execute_returns {C : Crypto} {L : HashLaws crypto_hashes}
    scriptPubKey tx txIdx flags sigCache hashCache amount fetcher vm
    (Hspend : spend_ok scriptPubKey tx txIdx flags hashCache fetcher)
    (Hnew : NewEngine scriptPubKey tx txIdx flags sigCache hashCache amount fetcher = Ok vm)
    (Hnested : nested_v0 vm) :
  exists r, ((exists vm', r = Ok vm') \/ (exists e, r = Err e)) /\
    (forall fuel, 2 ^ 34 <= Z.of_nat fuel -> Execute fuel vm = r) /\
    (forall fuel, Execute fuel vm <> Hang -> Execute fuel vm = r).
Proof.
  destruct (safe_ok _ _ _ (NewEngine_safe _ largest _ _ _ _ sigCache _ amount _ Hspend (long_enough _ _ _ _ _ _ Hspend)) Hnew) as [Hinv _].
  specialize (Hinv Hnested).
  set (big := Z.to_nat (2 ^ 34)). assert (Hbig : Z.of_nat big = 2 ^ 34) by (unfold big; lia).
  clearbody big. pose proof (Execute_safe _ largest big vm Hinv ltac:(lia)) as Hs.
  assert (Hnh : Execute big vm <> Hang) by (intros Heq; by rewrite Heq in Hs).
  exists (Execute big vm). split_and!.
  - destruct (Execute big vm) as [vm'|e| |]; [left; by exists vm'|right; by exists e|done..].
  - intros fuel Hf. apply Execute_more; [done|lia].
  - intros fuel Hf. destruct (Nat.le_ge_cases fuel big) as [Hle|Hge].
    + symmetry. by apply Execute_more.
    + by apply Execute_more.
Qed.

(** C17. The engine's resource limits hold in every state an execution passes
    through: at most 201 counted operations in a script, at most 1000 items
    on the two stacks together (but on entering a version 0 witness program,
    before its first opcode: at most as many as the items of the input's
    witness, which the code does not count), every item of either stack of at
    most 520 bytes, the code separator within the part of the script already
    run, and never more than four scripts. *)
Theorem engine_limits {C : Crypto} {L : HashLaws crypto_hashes}
    scriptPubKey tx txIdx flags sigCache hashCache amount fetcher vm0 vm
    (Hspend : spend_ok scriptPubKey tx txIdx flags hashCache fetcher)
    (Hnew : NewEngine scriptPubKey tx txIdx flags sigCache hashCache amount fetcher = Ok vm0)
    (Hnested : nested_v0 vm0) (Hpass : passes vm0 vm) :
  limits_ok vm /\ 0 <= lastCodeSep vm <= t_offset (tokenizer vm) /\
  0 <= scriptIdx vm < Zlen (scripts vm) /\ Zlen (scripts vm) <= 4.
Proof.
  destruct (safe_ok _ _ _ (NewEngine_safe _ largest _ _ _ _ sigCache _ amount _ Hspend (long_enough _ _ _ _ _ _ Hspend)) Hnew) as [Hinv _].
  specialize (Hinv Hnested). destruct (passes_inv _ largest _ _ Hinv Hpass) as [_ Hl Hs Hc _ _ _]. split_and!; try done; try apply Hs; lia.
Qed.

Module Toy.
Import SigHash.Toy SigCheck.Toy.
#[local] Existing Instance toy_crypto.
#[local] Instance laws : HashLaws crypto_hashes := toy_laws.

(** A pay-to-pubkey-hash spend with a strict signature. *)
Definition key : list Z := 2 :: replicate 32 7.
Definition sigAll : list Z := sig ++ [SigHashAll].
Definition spk : list Z := p2pkh (ripemd160 (sha256 key)).
Definition scriptSig : list Z := (Zlen sigAll :: sigAll) ++ (Zlen key :: key).
Definition spend : MsgTx := mkMsgTx 1
  [mkTxIn (mkOutPoint (replicate 32 9) 0) scriptSig [] 0xffffffff] [mkTxOut 50 [0x51]] 0.
Definition fetcher (op : OutPoint) : option TxOut := Some (mkTxOut 100 spk).
Definition std : ScriptFlags :=
  Z.lor ScriptBip16 (Z.lor ScriptVerifyWitness (Z.lor ScriptVerifyStrictEncoding ScriptVerifyCleanStack)).

Definition vm0 : Engine :=
  match NewEngine spk spend 0 std None None 100 fetcher with
  | Ok vm => vm
  | _ => mkEngine 0 spend 0 1 false None fetcher 0 None [] 0 0 0 (MakeScriptTokenizer 0 []) []
           (mkStack [] false) (mkStack [] false) [] 0 0 None None
  end.

Definition verdict {A} (r : outcome ErrorCode A) : option ErrorCode :=
  match r with Ok _ => None | Err e => Some e | _ => Some ErrInternal end.

Example spend_succeeds : verdict (Execute 8 vm0) = None.
Proof. by vm_compute. Qed.

(** The same input against the hash of another key. *)
Example spend_wrong_key :
  verdict (vm ← NewEngine (p2pkh (replicate 20 1)) spend 0 std None None 100 fetcher; Execute 8 vm)
  = Some ErrEqualVerify.
Proof. by vm_compute. Qed.

Lemma spend_spend_ok : spend_ok spk spend 0 std None fetcher.
Proof.
  split.
  - apply (bool_decide_unpack _). by vm_compute.
  - intros ti [= <-]. split_and!; try (apply (bool_decide_unpack _); by vm_compute).
  - repeat constructor. by eexists.
  - intros Hf. by vm_compute in Hf.
Qed.

Lemma Execute_returns_witness :
  exists r, ((exists vm', r = Ok vm') \/ (exists e, r = Err e)) /\
    (forall fuel, 2 ^ 34 <= Z.of_nat fuel -> Execute fuel vm0 = r) /\
    (forall fuel, Execute fuel vm0 <> Hang -> Execute fuel vm0 = r).
Proof.
  apply (Execute_returns spk spend 0 std None None 100 fetcher vm0 spend_spend_ok eq_refl).
  intros H. by vm_compute in H.
Defined.

(** After the first push. *)
Definition vm1 : Engine := match Step vm0 with Ok (_, vm) => vm | _ => vm0 end.

Lemma engine_limits_witness :
  limits_ok vm1 /\ 0 <= lastCodeSep vm1 <= t_offset (tokenizer vm1) /\
  0 <= scriptIdx vm1 < Zlen (scripts vm1) /\ Zlen (scripts vm1) <= 4.
Proof.
  apply (engine_limits spk spend 0 std None None 100 fetcher vm0 vm1 spend_spend_ok eq_refl).
  - intros H. by vm_compute in H.
  - apply (passes_step vm0 vm0 vm1); [apply passes_start|reflexivity].
Defined.

End Toy.

End EngineRun.
