(* ===== verification/EngineFacts.v ===== *)
(** * The script engine: behaviours

    A script runs as the fold of its tokens, and what particular opcodes and
    scripts do in the engine of Engine: the lock time opcodes, a
    pay-to-pubkey-hash spend, and the input on which OP_CHECKSIG dereferences
    a nil verifier. *)

From S2P Require Import Prelude ScriptNum ScriptStack Tokenizer Builder Wire SigHash.
From S2P Require Import SigCheck Taproot Opcodes SigOpcodes Engine EngineSafe EngineRun.

Module EngineFacts.
Import ScriptNum ScriptStack Tokenizer Builder Wire SigHash SigCheck Taproot Opcodes SigOpcodes Engine
  EngineSafe EngineRun.

#[local] Abbreviation inv := (EngineRun.inv (2 ^ 31 - 1)).
#[local] Abbreviation stepped := (EngineRun.stepped (2 ^ 31 - 1)).

Section Tokens.
Context {C : Crypto}.

(** One token, without the end of the script. *)
Definition runToken (tk : token) (vm : Engine) : outcome ErrorCode Engine :=
  vm ← executeOpcode tk.1 tk.2 (setTokenizer (advance (tokenizer vm) tk) vm);
  if MaxStackSize <? i32 (Depth (dstack vm) + Depth (astack vm)) then Err ErrStackOverflow
  else Ok (setOpcodeIdx (opcodeIdx vm + 1) vm).

Fixpoint runTokens (toks : list token) (vm : Engine) : outcome ErrorCode Engine :=
  match toks with
  | [] => Ok vm
  | tk :: toks => vm ← runToken tk vm; runTokens toks vm
  end.

Context {L : HashLaws crypto_hashes}.

(** The state at a token boundary of the current script. *)
Record at_token (vm : Engine) (pre : list Z) (toks : list token) : Prop := {
  k_inv : inv vm;
  k_at : at_ (tokenizer vm) pre (printTokens toks);
  k_toks : Forall token_ok toks;
}.

Lemma Done_at t pre rest : at_ t pre rest -> Done t = bool_decide (rest = []).
Proof using.
  intros (Hs & Ho & He & Hl & _). unfold Done. rewrite He, Ho. cbn. rewrite i32_small by len_lia.
  rewrite Hs, Zlen_app. destruct rest as [|x rest]; cbn.
  - apply Z.leb_le. rewrite Zlen_nil. lia.
  - apply Z.leb_gt. rewrite Zlen_cons. len_lia.
Qed.

Lemma printToken_inj tk toks rest : Forall token_ok (tk :: toks) -> rest = printTokens (tk :: toks) ->
  firstToken rest = Some (tk, printTokens toks).
Proof using. intros Htk ->. apply firstToken_print. by apply Forall_inv in Htk. Qed.

Lemma printTokens_nil toks : printTokens toks = [] <-> toks = [].
Proof using.
  split; [|by intros ->]. destruct toks as [|[op d] toks]; [done|]. cbn. done.
Qed.

(** Step in terms of the token it reads. *)
Lemma Step_runToken vm t tk : checkValidPC vm = Ok () -> Next (tokenizer vm) = Ok (true, advance t tk) ->
  t = tokenizer vm ->
  Step vm = vm' ← runToken tk vm; if Done (tokenizer vm') then endScript vm' else Ok (false, vm').
Proof using.
  intros Hpc Hn ->. unfold Step, runToken. rewrite Hpc, Hn. cbn [mbind outcome_bind negb Opcode advance t_op Data t_data].
  destruct (executeOpcode _ _ _) as [vm2| | |]; [|done..]. cbn [mbind outcome_bind]. by destruct (_ <? _).
Qed.

(** A step at a token runs it, then looks at the end of the script. *)
Lemma Step_token vm pre tk toks : at_token vm pre (tk :: toks) ->
  Step vm = (vm' ← runToken tk vm; if bool_decide (toks = []) then endScript vm' else Ok (false, vm')) /\
  safe (runToken tk vm) (fun vm' => stepped vm (pre ++ printToken tk) (printTokens toks) vm').
Proof using L.
  intros [Hinv Hat Htoks]. pose proof (i_pos _ _ Hinv) as (pre' & rest & Hat2 & Hidx & Hkey).
  assert (Heq : pre' = pre /\ rest = printTokens (tk :: toks)).
  { destruct Hat as (Hs & Ho & _), Hat2 as (Hs2 & Ho2 & _). rewrite Hs in Hs2. rewrite Ho in Ho2.
    apply app_inj_1 in Hs2 as [-> ->]; [done|]. unfold Zlen in Ho2. lia. }
  destruct Heq as [-> ->]. clear Hat2. pose proof (printToken_inj tk toks _ Htoks eq_refl) as Hft.
  destruct (Next_cases _ _ _ Hat) as [[t' Hn]|(tk' & rest' & Hft' & Hn & Hrest & Hop & Hdata & Hat' & Hlen & Hempty)].
  { by rewrite (Next_token _ _ _ _ _ Hat Hft) in Hn. }
  rewrite Hft in Hft'. injection Hft' as <- <-.
  destruct (opcode_ready _ largest vm Hinv pre _ tk _ Hat Hidx Hkey Hft Hrest Hat' Hlen) as (Hr & Hv & Hk).
  assert (Hsafe : safe (runToken tk vm) (stepped vm (pre ++ printToken tk) (printTokens toks))).
  { eapply safe_bind; [by apply (executeOpcode_safe _ _ (2 ^ 29))|]. intros vm2 Hex Ha.
    apply safe_if; [triv|]. intros Hsize. apply Z.ltb_ge in Hsize. by eapply (opcode_stepped _ largest). }
  split; [|exact Hsafe].
  rewrite (Step_runToken vm (tokenizer vm) tk); [|unfold checkValidPC|exact Hn|done].
  2: { destruct (i_count _ _ Hinv) as [? ?]. by rewrite (proj2 (Z.leb_gt _ _)) by lia. }
  destruct (runToken tk vm) as [vm'| | |]; [|done..]. cbn [mbind outcome_bind].
  by rewrite (Done_at _ _ _ (p_at _ _ _ _ _ Hsafe)), (bool_decide_ext _ (toks = [])) by apply printTokens_nil.
Qed.

Lemma stepped_at vm pre toks vm' : Forall token_ok toks -> stepped vm pre (printTokens toks) vm' ->
  at_token vm' pre toks.
Proof using. intros Ht Hs. split; [by eapply (stepped_inv _ largest)|apply Hs|done]. Qed.

(** A script runs as the fold of its tokens. *)
Lemma stepLoop_tokens vm pre toks fuel : at_token vm pre toks -> toks <> [] ->
  stepLoop (length toks + fuel) vm =
    (vm' ← runTokens toks vm; '(fin, vm'') ← endScript vm'; if fin : bool then Ok vm'' else stepLoop fuel vm'').
Proof using L.
  revert vm pre; induction toks as [|tk toks IH]; intros vm pre Hat Hne; [done|].
  cbn [length Nat.add stepLoop runTokens]. destruct (Step_token vm pre tk toks Hat) as [-> Hsafe].
  destruct (runToken tk vm) as [vm1| | |]; [|done..]. cbn [mbind outcome_bind safe] in *.
  pose proof (k_toks _ _ _ Hat) as Htoks. apply Forall_inv_tail in Htoks.
  destruct toks as [|tk' toks]; cbn [bool_decide decide]; [done|].
  rewrite bool_decide_eq_false_2 by done. apply (IH vm1 (pre ++ printToken tk)); [by eapply stepped_at|done].
Qed.

Lemma tokens_inv vm pre toks : at_token vm pre toks -> toks <> [] ->
  safe (vm' ← runTokens toks vm; endScript vm') (fun r => r.1 = false -> inv r.2).
Proof using L.
  revert vm pre; induction toks as [|tk toks IH]; intros vm pre Hat Hne; [done|]. cbn [runTokens].
  destruct (Step_token vm pre tk toks Hat) as [Hstep Hsafe]. rewrite outcome_bind_assoc.
  pose proof (k_toks _ _ _ Hat) as Htoks. apply Forall_inv_tail in Htoks.
  destruct toks as [|tk' toks].
  - pose proof (Step_safe _ largest vm (k_inv _ _ _ Hat)) as Hs. rewrite Hstep in Hs. rewrite bool_decide_eq_true_2 in Hs by done.
    eapply safe_mono; [exact Hs|]. intros [fin vm'] _ Hp. unfold step_post in Hp. cbn in *. intros ->. apply Hp.
  - eapply safe_bind; [exact Hsafe|]. intros vm1 _ Hst. apply (IH vm1 (pre ++ printToken tk)); [by eapply stepped_at|done].
Qed.

(** ** Opcodes in a plain state *)

(** No conditional open, and no tapscript. *)
Definition plain (vm : Engine) : Prop := condStack vm = [] /\ taprootCtx vm = None.

Lemma plain_executing vm : plain vm -> isBranchExecuting vm = true /\ taproot vm = false.
Proof using.
  intros [Hc Ht]. unfold isBranchExecuting, taproot. by rewrite Hc, Ht, bool_decide_eq_false_2 by (by intros [? ?]).
Qed.

Lemma exec_push data vm : plain vm -> 2 <= Zlen data <= 75 ->
  executeOpcode (Zlen data) data vm = Ok (push data vm).
Proof using.
  intros Hp Hl. destruct (plain_executing vm Hp) as [Hb Ht].
  assert (Hop : forall k, 2 <= k <= 75 -> isOpcodeDisabled k = false /\ isOpcodeAlwaysIllegal k = false /\
    index (E:=ErrorCode) opcodeArray k = Ok opcodePushData).
  { intros k Hk. assert (Hn : exists n, k = Z.of_nat n /\ (n < 74)%nat \/ k = Z.of_nat n /\ (74 <= n <= 75)%nat)
      by (exists (Z.to_nat k); lia).
    unfold isOpcodeDisabled, isOpcodeAlwaysIllegal, OP_VERIF, OP_VERNOTIF. cbn [existsb].
    rewrite !(proj2 (Z.eqb_neq k _)) by lia. split_and!; try done.
    unfold index. rewrite decide_True by lia.
    unfold opcodeArray. rewrite lookup_app_r by (cbn; lia). cbn [length].
    rewrite lookup_app_l by (rewrite length_replicate; lia). by rewrite lookup_replicate_2 by lia. }
  destruct (Hop _ Hl) as (H1 & H2 & H3). unfold executeOpcode. rewrite H1, H2, Ht. cbn [negb andb].
  unfold OP_16. rewrite (proj2 (Z.ltb_ge 0x60 _)) by lia. unfold MaxScriptElementSize.
  rewrite (proj2 (Z.ltb_ge 520 _)) by lia. cbn [mbind outcome_bind]. rewrite Hb. cbn [negb andb].
  assert (Hmin : checkMinimalDataPush (Zlen data) data = Ok ()).
  { unfold checkMinimalDataPush. cbv zeta.
    rewrite (proj2 (Z.eqb_neq (Zlen data) 0)), (proj2 (Z.eqb_neq (Zlen data) 1)) by lia. cbn [andb].
    by rewrite (proj2 (Z.leb_le (Zlen data) 75)), Z.eqb_refl by lia. }
  rewrite Hmin. destruct (verifyMinimalData _ && _ && _); cbn [mbind outcome_bind]; by rewrite H3.
Qed.

(** An opcode that is counted. *)
Lemma exec_counted op data h vm : plain vm -> OP_16 < op -> isOpcodeDisabled op = false ->
  isOpcodeAlwaysIllegal op = false -> index (E:=ErrorCode) opcodeArray op = Ok h ->
  numOps vm < MaxOpsPerScript ->
  executeOpcode op data vm = h op data (setNumOps (numOps vm + 1) vm).
Proof using.
  intros Hp Hop H1 H2 H3 Hn. destruct (plain_executing vm Hp) as [Hb Ht].
  unfold executeOpcode. rewrite H1, H2, Ht, (proj2 (Z.ltb_lt _ _) Hop). cbn [negb andb]. cbv zeta.
  change (numOps (setNumOps (numOps vm + 1) vm)) with (numOps vm + 1).
  rewrite (proj2 (Z.ltb_ge _ _)) by lia. cbn [mbind outcome_bind].
  change (isBranchExecuting (setNumOps _ vm)) with (isBranchExecuting vm). rewrite Hb. cbn [negb andb].
  rewrite (proj2 (Z.leb_gt op _)) by (unfold OP_PUSHDATA4, OP_16 in *; lia). rewrite andb_false_r.
  cbn [mbind outcome_bind]. by rewrite H3.
Qed.

Lemma Contains_short l d : Zlen l < Zlen d -> Contains l d = false.
Proof using.
  assert (Hpre : forall d l, Zlen l < Zlen d -> hasPrefix d l = false).
  { clear. induction d as [|x d IH]; intros l Hl; [rewrite Zlen_nil in Hl; len_lia|].
    destruct l as [|y l]; [done|]. cbn [hasPrefix]. rewrite IH; [by rewrite andb_false_r|].
    rewrite !Zlen_cons in Hl. lia. }
  induction l as [|x l IH]; intros Hl; cbn [Contains]; rewrite Hpre by done; [done|].
  apply IH. rewrite Zlen_cons in Hl. lia.
Qed.

(** ** Pay to public key hash *)
Definition p2pkhTokens (h : list Z) : list token :=
  [(OP_DUP, []); (OP_HASH160, []); (Zlen h, h); (OP_EQUALVERIFY, []); (OP_CHECKSIG, [])].

Lemma pushToken_ok data : 2 <= Zlen data <= 75 ->
  token_ok (Zlen data, data) /\ printToken (Zlen data, data) = Zlen data :: data.
Proof using.
  intros Hl. assert (Ho : opcodeLength (Zlen data) = Zlen data + 1)
    by (apply opcodeLength_direct; unfold OP_PUSHDATA1; lia).
  unfold token_ok, printToken. rewrite Ho, !(proj2 (Z.ltb_ge _ 0)) by lia. split; [lia|done].
Qed.

Lemma p2pkh_tokens h : Zlen h = 20 ->
  Forall token_ok (p2pkhTokens h) /\ printTokens (p2pkhTokens h) = p2pkh h.
Proof using.
  intros Hh. destruct (pushToken_ok h ltac:(lia)) as [Hok Hpr]. split.
  - repeat apply Forall_cons_2; try apply Forall_nil_2; try reflexivity. exact Hok.
  - unfold p2pkhTokens, p2pkh. rewrite !fmap_cons. cbn [concat fmap list_fmap]. rewrite Hpr, Hh. cbn.
    by rewrite <- app_assoc.
Qed.

(** What a signature must satisfy: the encodings that the flags ask for, and
    verification of the digest of the output script. *)
Definition sigAccepts (flags : ScriptFlags) (script : list Z) (tx : MsgTx) (idx : Z) (fullSig key : list Z) : Prop :=
  let strict := hasFlag flags ScriptVerifyStrictEncoding || hasFlag flags ScriptVerifyDERSignatures in
  let hashType := List.last fullSig 0 in
  checkHashTypeEncoding flags hashType = Ok () /\
  checkSignatureEncoding flags (removelast fullSig) = Ok () /\
  checkPubKeyEncoding flags false key = Ok () /\
  exists pubKey signature digest, ParsePubKey key = Some pubKey /\
    (if strict then ParseDERSignature (removelast fullSig) else ParseSignature (removelast fullSig)) = Some signature /\
    calcSignatureHash script hashType tx idx = Ok digest /\ Verify signature digest pubKey = true.

Section P2PKH.
Context (tx : MsgTx) (txIdx : Z) (ti : TxIn) (flags : ScriptFlags) (hashCache : option TxSigHashes)
  (fetcher : OutPoint -> option TxOut) (amount : Z) (fullSig key h : list Z).
Let spk := p2pkh h.
Let minimal := hasFlag flags ScriptVerifyMinimalData.
Context (Hspend : spend_ok spk tx txIdx flags hashCache fetcher) (Hidx : 0 <= txIdx)
  (Hti : TxIns tx !! Z.to_nat txIdx = Some ti)
  (HsigScript : SignatureScript ti = (Zlen fullSig :: fullSig) ++ (Zlen key :: key))
  (Hwit : Witness ti = []) (Hsig : 21 <= Zlen fullSig <= 75) (Hkey : 2 <= Zlen key <= 75) (Hh : Zlen h = 20)
  (Hflags : hasFlag flags ScriptVerifyCleanStack = true \/ hasFlag flags ScriptVerifyWitness = true ->
            hasFlag flags ScriptBip16 = true).

(** The engine at a place in one of the two scripts. *)
Definition state (sIdx oIdx : Z) (t : ScriptTokenizer) (d : list (list Z)) (n : Z) (cache : option SigCache) : Engine :=
  mkEngine flags tx txIdx 0 false hashCache fetcher amount cache [SignatureScript ti; spk] sIdx oIdx 0 t []
    (mkStack d minimal) (mkStack [] minimal) [] n 0 None None.

Lemma new_state : NewEngine spk tx txIdx flags None hashCache amount fetcher
  = Ok (state 0 0 (MakeScriptTokenizer 0 (SignatureScript ti)) [] 0 None).
Proof using Hspend Hidx Hti HsigScript Hwit Hsig Hkey Hh Hflags.
  unfold NewEngine. assert (Hlt : txIdx < Zlen (TxIns tx)) by (apply lookup_lt_Some in Hti; unfold Zlen; lia).
  rewrite (proj2 (Z.ltb_ge txIdx 0)), (proj2 (Z.leb_gt (Zlen (TxIns tx)) txIdx)) by lia. cbn [orb].
  assert (Hi : index (E:=ErrorCode) (TxIns tx) txIdx = Ok ti) by (apply index_ok_iff; done). rewrite Hi.
  cbn [mbind outcome_bind]. cbv zeta. destruct (sp_in _ _ _ _ _ _ Hspend ti Hti) as ([Hsb Hsl] & _ & _).
  pose proof (sp_pk _ _ _ _ _ _ Hspend) as Hpk.
  destruct (pushToken_ok fullSig ltac:(lia)) as [Hok1 Hpr1]. destruct (pushToken_ok key ltac:(lia)) as [Hok2 Hpr2].
  assert (Hparse1 : parse (SignatureScript ti) = ([(Zlen fullSig, fullSig); (Zlen key, key)], true)).
  { rewrite <- (parse_print [(Zlen fullSig, fullSig); (Zlen key, key)]) by (by repeat apply Forall_cons_2).
    cbn [fmap list_fmap concat]. by rewrite Hpr1, Hpr2, app_nil_r, HsigScript. }
  destruct (p2pkh_tokens h Hh) as [Hokp Hprp].
  assert (Hparse2 : parse spk = (p2pkhTokens h, true)) by (unfold spk; rewrite <- Hprp; by apply parse_print).
  assert (Hlen1 : Zlen (SignatureScript ti) = Zlen fullSig + Zlen key + 2).
  { rewrite HsigScript, Zlen_app, !Zlen_cons. lia. }
  assert (Hlen2 : Zlen spk = 25) by (unfold spk, p2pkh; rewrite !Zlen_app, Hh; done).
  rewrite (proj2 (Z.eqb_neq (Zlen (SignatureScript ti)) 0)) by lia. cbn [andb].
  rewrite IsPushOnlyScript_spec, Hparse1 by done. cbn [fst snd forallb mbind outcome_bind].
  unfold OP_16. rewrite !(proj2 (Z.leb_le _ 0x60)) by lia. cbn [andb negb].
  replace (hasFlag flags ScriptVerifyCleanStack && _) with false.
  2: { destruct (hasFlag flags ScriptVerifyCleanStack); [|done]. by rewrite Hflags by auto. }
  rewrite !andb_false_r. unfold MaxScriptSize.
  rewrite (proj2 (Z.ltb_ge 10000 (Zlen (SignatureScript ti)))) by lia.
  rewrite !checkScriptParses_spec, Hparse1, Hparse2 by (done || lia). cbn [snd mbind outcome_bind].
  rewrite (proj2 (Z.ltb_ge 10000 (Zlen spk))) by lia.
  assert (Hns : isScriptHashScript spk = false) by (unfold isScriptHashScript; by rewrite Hlen2).
  assert (Hfind : findWitnessProgram (SignatureScript ti) spk (Witness ti) false = Ok None).
  { unfold findWitnessProgram, IsWitnessProgram. destruct (extractWitnessProgramInfo_spec spk Hpk) as (r & -> & Hr).
    cbn [mbind outcome_bind mret outcome_ret]. destruct r as [[v p]|].
    - destruct (proj1 (Hr v p) eq_refl) as (Hv & _ & Heq). exfalso. unfold spk, p2pkh in Heq. cbn [app] in Heq.
      injection Heq as Hop _ _. unfold OP_DUP, versionOpcode, OP_0, OP_1 in Hop. case_match; lia.
    - rewrite bool_decide_eq_false_2 by (by intros [? ?]). by rewrite Hwit. }
  rewrite Hns, andb_false_r. cbn [negb andb]. rewrite Hfind.
  replace (if hasFlag flags ScriptVerifyWitness then _ else _) with (Ok (E:=ErrorCode) (@None (Z * list Z))); [done|].
  destruct (hasFlag flags ScriptVerifyWitness); [|done]. by rewrite Hflags by auto.
Qed.

Lemma runToken_push sIdx oIdx t d n cache data : 2 <= Zlen data <= 75 -> Zlen d <= 900 ->
  runToken (Zlen data, data) (state sIdx oIdx t d n cache)
  = Ok (state sIdx (oIdx + 1) (advance t (Zlen data, data)) (d ++ [data]) n cache).
Proof using key fullSig.
  intros Hl Hd. unfold runToken. cbn [fst snd]. rewrite exec_push by done. cbn [mbind outcome_bind].
  rewrite (proj2 (Z.ltb_ge _ _)); [done|]. unfold Depth. cbn [dstack astack push setDstack stk PushByteArray setStk].
  cbn. rewrite !i32_small by (rewrite ?i32_small; len_lia). unfold MaxStackSize. len_lia.
Qed.

Lemma run_inputs t : runTokens [(Zlen fullSig, fullSig); (Zlen key, key)] (state 0 0 t [] 0 None)
  = Ok (state 0 2 (advance (advance t (Zlen fullSig, fullSig)) (Zlen key, key)) [fullSig; key] 0 None).
Proof using Hsig Hkey.
  cbn [runTokens]. rewrite runToken_push by (done || lia). cbn [mbind outcome_bind].
  by rewrite runToken_push by (done || lia).
Qed.

Lemma end_inputs t : endScript (state 0 2 t [fullSig; key] 0 None)
  = Ok (false, state 1 0 (MakeScriptTokenizer 0 spk) [fullSig; key] 0 None).
Proof using Hh. done. Qed.

(** A counted opcode without a change of the counters by its handler. *)
Lemma runToken_op op hnd sIdx oIdx t d n cache d' n' cache' : OP_16 < op -> isOpcodeDisabled op = false ->
  isOpcodeAlwaysIllegal op = false -> index (E:=ErrorCode) opcodeArray op = Ok hnd -> n < MaxOpsPerScript ->
  (forall t', hnd op [] (state sIdx oIdx t' d (n + 1) cache) = Ok (state sIdx oIdx t' d' n' cache')) ->
  Zlen d' <= 900 ->
  runToken (op, []) (state sIdx oIdx t d n cache) = Ok (state sIdx (oIdx + 1) (advance t (op, [])) d' n' cache').
Proof using key fullSig.
  intros H1 H2 H3 H4 Hn Hex Hd. unfold runToken. cbn [fst snd].
  rewrite (exec_counted op [] hnd) by done.
  change (setNumOps _ _) with (state sIdx oIdx (advance t (op, [])) d (n + 1) cache).
  rewrite Hex. cbn [mbind outcome_bind]. rewrite (proj2 (Z.ltb_ge _ _)); [done|].
  unfold Depth. cbn. rewrite !i32_small by (rewrite ?i32_small; len_lia). unfold MaxStackSize. len_lia.
Qed.

(** Up to the comparison of the hashes. *)
Lemma run_output_hash t : exists t4,
  runTokens (take 3 (p2pkhTokens h)) (state 1 0 t [fullSig; key] 0 None)
  = Ok (state 1 3 t4 [fullSig; key; ripemd160 (sha256 key); h] 2 None).
Proof using Hh Hsig Hkey.
  eexists. cbn [take p2pkhTokens runTokens].
  rewrite (runToken_op OP_DUP opcodeDup) with (d' := [fullSig; key; key]) (n' := 1) (cache' := None) by done.
  cbn [mbind outcome_bind].
  rewrite (runToken_op OP_HASH160 opcodeHash160) with (d' := [fullSig; key; ripemd160 (sha256 key)]) (n' := 2) (cache' := None)
    by done.
  cbn [mbind outcome_bind]. by rewrite runToken_push by (done || lia).
Qed.

Lemma equalverify t :
  runToken (OP_EQUALVERIFY, []) (state 1 3 t [fullSig; key; ripemd160 (sha256 key); h] 2 None)
  = if decide (ripemd160 (sha256 key) = h)
    then Ok (state 1 4 (advance t (OP_EQUALVERIFY, [])) [fullSig; key] 3 None) else Err ErrEqualVerify.
Proof using key fullSig.
  assert (Hex : forall t', opcodeEqualVerify OP_EQUALVERIFY []
      (state 1 3 t' [fullSig; key; ripemd160 (sha256 key); h] (2 + 1) None)
    = if decide (ripemd160 (sha256 key) = h) then Ok (state 1 3 t' [fullSig; key] 3 None) else Err ErrEqualVerify).
  { intros t'. unfold opcodeEqualVerify, opcodeEqual, onStack. cbn [dstack state].
    assert (Hop : equalOp (mkStack [fullSig; key; ripemd160 (sha256 key); h] minimal)
      = Ok (PushBool (bool_decide (h = ripemd160 (sha256 key))) (mkStack [fullSig; key] minimal))) by reflexivity.
    rewrite Hop. cbn [mbind outcome_bind].
    destruct (decide (ripemd160 (sha256 key) = h)) as [Heq|Hne].
    - rewrite bool_decide_eq_true_2 by congruence. done.
    - rewrite bool_decide_eq_false_2 by congruence. done. }
  destruct (decide (ripemd160 (sha256 key) = h)).
  - by apply (runToken_op OP_EQUALVERIFY opcodeEqualVerify).
  - unfold runToken. cbn [fst snd]. rewrite (exec_counted OP_EQUALVERIFY [] opcodeEqualVerify) by done.
    change (setNumOps _ _) with (state 1 3 (advance t (OP_EQUALVERIFY, [])) [fullSig; key; ripemd160 (sha256 key); h] (2 + 1) None).
    by rewrite Hex.
Qed.

Lemma subScript_state t d n : subScript (state 1 4 t d n None) = Ok spk.
Proof using key fullSig Hh. unfold subScript. cbn. apply slice_ok_iff. cbn. split_and!; try len_lia.
  rewrite Z.sub_0_r. unfold Zlen. by rewrite Nat2Z.id, firstn_all.
Qed.

Lemma script_unchanged : bytes_ok h -> removeOpcodeByData spk fullSig = Ok spk.
Proof using Hh Hsig.
  intros Hb. destruct (p2pkh_tokens h Hh) as [Hok Hpr]. unfold removeOpcodeByData.
  rewrite (proj2 (Z.eqb_neq (Zlen fullSig) 0)) by lia. rewrite orb_false_r.
  destruct (Zlen spk =? 0); [done|].
  assert (Hspk : bytes_ok spk /\ Zlen spk < 2 ^ 31).
  { unfold spk, p2pkh. rewrite !Zlen_app, Hh. split; [|done]. by apply p2pkh_item. }
  rewrite (removeTokens_spec spk (proj1 Hspk) (proj2 Hspk) _ (p2pkhTokens h)).
  - unfold spk. rewrite <- Hpr. do 3 f_equal. unfold kept, p2pkhTokens.
    assert (Hno : forall d, Zlen d <= 20 -> Contains d fullSig = false)
      by (intros d Hd; apply Contains_short; lia).
    repeat (rewrite list.filter_cons_True by (cbn [fst snd]; rewrite Hno by (rewrite ?Hh; done); apply andb_false_r)).
    done.
  - unfold spk. rewrite <- Hpr. by apply parse_print.
Qed.

Lemma parse_accepts vm : bytes_ok fullSig -> EngineSafe.core vm = EngineSafe.core (state 1 4 (tokenizer vm) [] 0 None) ->
  (exists pubKey signature, parseBaseSigAndPubkey key fullSig vm = Ok (pubKey, signature, List.last fullSig 0) /\
     checkHashTypeEncoding flags (List.last fullSig 0) = Ok () /\
     checkSignatureEncoding flags (removelast fullSig) = Ok () /\ checkPubKeyEncoding flags false key = Ok () /\
     ParsePubKey key = Some pubKey /\
     (if hasFlag flags ScriptVerifyStrictEncoding || hasFlag flags ScriptVerifyDERSignatures
      then ParseDERSignature (removelast fullSig) else ParseSignature (removelast fullSig)) = Some signature) \/
  (exists e, parseBaseSigAndPubkey key fullSig vm = Err e /\ ~ sigAccepts flags spk tx txIdx fullSig key).
Proof using Hsig HsigScript.
  intros Hb Hcore. pose proof (core_kept _ _ Hcore) as [Kf _ _ _ _ _ _ _ _ _ _ _ _ _ Kp]. cbn in Kf, Kp.
  destruct fullSig as [|ht sg _] using rev_ind; [rewrite Zlen_nil in Hsig; lia|].
  rewrite List.last_last, removelast_last. unfold parseBaseSigAndPubkey, vmFlag. rewrite Kf.
  assert (Hv0 : v0Active vm = false) by (unfold v0Active, isWitnessVersionActive; by rewrite Kp).
  replace (Zlen (sg ++ [ht]) - 1) with (Zlen sg) by (rewrite Zlen_app; change (Zlen [ht]) with 1; lia).
  rewrite index_app_0, index_cons_0, slice_prefix by done. cbn [mbind outcome_bind]. rewrite Hv0.
  assert (Hno : forall e : ErrorCode, checkHashTypeEncoding flags ht = Err e \/ checkSignatureEncoding flags sg = Err e \/
      checkPubKeyEncoding flags false key = Err e -> ~ sigAccepts flags spk tx txIdx (sg ++ [ht]) key).
  { intros e He (H1 & H2 & H3 & _). rewrite List.last_last in H1. rewrite removelast_last in H2.
    destruct He as [He|[He|He]]; congruence. }
  apply list.Forall_app in Hb as [Hb _].
  pose proof (checkHashTypeEncoding_safe flags ht) as S1. pose proof (checkSignatureEncoding_safe flags sg Hb) as S2.
  pose proof (checkPubKeyEncoding_safe flags false key) as S3.
  destruct (checkHashTypeEncoding flags ht) as [[]|e| |]; [|right; exists e; split; [done|by apply (Hno e); left]|done..].
  destruct (checkSignatureEncoding flags sg) as [[]|e| |];
    [|right; exists e; split; [done|by apply (Hno e); right; left]|done..].
  destruct (checkPubKeyEncoding flags false key) as [[]|e| |];
    [|right; exists e; split; [done|by apply (Hno e); right; right]|done..].
  cbn [mbind outcome_bind]. clear S1 S2 S3 Hno.
  destruct (ParsePubKey key) as [pk|] eqn:Hpk.
  2: { right. eexists. split; [done|]. intros (_ & _ & _ & pk & s & d & H1 & _). congruence. }
  match goal with |- context [match ?p with Some _ => _ | None => _ end] => destruct p as [s|] eqn:Hs end.
  - left. exists pk, s. by split_and!.
  - right. eexists. split; [done|]. intros (_ & _ & _ & pk' & s & d & _ & H2 & _). rewrite removelast_last in H2. congruence.
Qed.

Lemma checksig t : bytes_ok fullSig -> bytes_ok h ->
  let r := runToken (OP_CHECKSIG, []) (state 1 4 t [fullSig; key] 3 None) in
  (r = Ok (state 1 5 (advance t (OP_CHECKSIG, [])) [[1]] 4 None) /\ sigAccepts flags spk tx txIdx fullSig key) \/
  ((r = Ok (state 1 5 (advance t (OP_CHECKSIG, [])) [[]] 4 None) \/ exists e, r = Err e) /\
   ~ sigAccepts flags spk tx txIdx fullSig key).
Proof using Hspend Hidx Hti Hsig Hh HsigScript.
  intros Hb Hbh r. set (t' := advance t (OP_CHECKSIG, [])) in *.
  assert (Hr : r = (vm ← ecdsaCheck (fun script pubKey sig hashType =>
      baseVerify key fullSig script pubKey sig hashType (state 1 4 t' [] 4 None)) key fullSig (state 1 4 t' [] 4 None);
    if MaxStackSize <? i32 (Depth (dstack vm) + Depth (astack vm)) then Err ErrStackOverflow
    else Ok (setOpcodeIdx (opcodeIdx vm + 1) vm))).
  { unfold r, runToken. cbn [fst snd]. rewrite (exec_counted OP_CHECKSIG [] opcodeCheckSig) by done.
    f_equal. change (setNumOps _ _) with (state 1 4 t' [fullSig; key] 4 None). unfold opcodeCheckSig.
    change (PopByteArray (dstack (state 1 4 t' [fullSig; key] 4 None))) with
      (Ok (E:=ErrorCode) (key, mkStack [fullSig] minimal)). cbn [mbind outcome_bind].
    change (PopByteArray (mkStack [fullSig] minimal)) with (Ok (E:=ErrorCode) (fullSig, mkStack [] minimal)).
    cbn [mbind outcome_bind]. rewrite (proj2 (Z.ltb_ge (Zlen fullSig) 1)) by lia. by rewrite andb_false_r. }
  rewrite Hr. clear Hr r. set (vm := state 1 4 t' [] 4 None). unfold ecdsaCheck.
  destruct (parse_accepts vm Hb eq_refl) as [(pk & s & -> & H1 & H2 & H3 & H4 & H5)|(e & -> & Hno)].
  2: { right. split; [|done]. destruct e; try (right; by eexists). by left. }
  assert (Hss : subScript vm = Ok spk) by apply subScript_state. rewrite Hss.
  cbn [mbind outcome_bind]. unfold baseVerify.
  rewrite script_unchanged by done. cbn [mbind outcome_bind].
  change (Opcodes.tx vm) with tx. change (Opcodes.txIdx vm) with txIdx.
  assert (Hspk : item_ok spk) by by apply p2pkh_item.
  assert (Hlt : 0 <= txIdx < Zlen (TxIns tx)) by (apply lookup_lt_Some in Hti; unfold Zlen; lia).
  pose proof (calcSignatureHash_safe spk (List.last fullSig 0) tx txIdx Hspk Hlt) as Hsafe.
  destruct (calcSignatureHash spk (List.last fullSig 0) tx txIdx) as [digest|e| |] eqn:Hd; [| |done..].
  2: { right. split; [right; by exists e|]. intros (_ & _ & _ & ? & ? & d & _ & _ & H6 & _). congruence. }
  cbn [mbind outcome_bind mret outcome_ret]. change (sigCache vm) with (@None SigCache). cbn [cachedVerify].
  destruct (Verify s digest pk) eqn:Hver.
  - left. split; [done|]. split_and!; try done. by exists pk, s, digest.
  - right. split.
    + unfold pushVerdict. cbn [negb andb]. change (taproot _) with false. cbn [andb].
      destruct (vmFlag _ _ && _); [right; by eexists|by left].
    + intros (_ & _ & _ & pk' & s' & d & H6 & H7 & H8 & H9). rewrite H4 in H6. injection H6 as <-.
      rewrite H5 in H7. injection H7 as <-. rewrite Hd in H8. injection H8 as <-. congruence.
Qed.

Lemma runTokens_app toks1 toks2 vm :
  runTokens (toks1 ++ toks2) vm = (vm' ← runTokens toks1 vm; runTokens toks2 vm').
Proof using.
  revert vm; induction toks1 as [|tk toks1 IH]; intros vm; [done|]. cbn [app runTokens].
  rewrite outcome_bind_assoc. destruct (runToken tk vm); [apply IH|done..].
Qed.

(** The first script, and what remains to run. *)
Lemma after_inputs fuel : 
  stepLoop (2 + fuel) (state 0 0 (MakeScriptTokenizer 0 (SignatureScript ti)) [] 0 None)
  = stepLoop fuel (state 1 0 (MakeScriptTokenizer 0 spk) [fullSig; key] 0 None) /\
  at_token (state 1 0 (MakeScriptTokenizer 0 spk) [fullSig; key] 0 None) [] (p2pkhTokens h).
Proof using Hspend Hidx Hti HsigScript Hwit Hsig Hkey Hh Hflags L.
  set (toks := [(Zlen fullSig, fullSig); (Zlen key, key)]).
  destruct (pushToken_ok fullSig ltac:(lia)) as [Hok1 Hpr1]. destruct (pushToken_ok key ltac:(lia)) as [Hok2 Hpr2].
  assert (Hpr : printTokens toks = SignatureScript ti).
  { unfold toks. cbn [fmap list_fmap concat]. by rewrite Hpr1, Hpr2, app_nil_r, HsigScript. }
  destruct (safe_ok _ _ _ (NewEngine_safe _ largest spk tx txIdx flags None hashCache amount fetcher Hspend
    (long_enough _ _ _ _ _ _ Hspend)) new_state) as [Hinv _].
  specialize (Hinv ltac:(by intros ?)).
  destruct (sp_in _ _ _ _ _ _ Hspend ti Hti) as ([Hsb Hsl] & _ & _).
  assert (Hat : at_token (state 0 0 (MakeScriptTokenizer 0 (SignatureScript ti)) [] 0 None) [] toks).
  { split; [done| |by repeat apply Forall_cons_2]. rewrite Hpr. by split_and!. }
  pose proof (tokens_inv _ _ _ Hat ltac:(done)) as Hinv2. unfold toks in Hinv2. rewrite run_inputs, bind_Ok, end_inputs in Hinv2. specialize (Hinv2 eq_refl). cbn [snd] in Hinv2.
  split.
  - replace (2 + fuel)%nat with (length toks + fuel)%nat by done.
    rewrite (stepLoop_tokens _ [] toks fuel Hat) by done. unfold toks.
    by rewrite run_inputs, bind_Ok, end_inputs, bind_Ok.
  - destruct (p2pkh_tokens h Hh) as [Hok Hprp]. split; [done| |done]. rewrite Hprp.
    pose proof (sp_pk _ _ _ _ _ _ Hspend) as Hpk. split_and!; try done. cbn [t_script tokenizer state].
    change (t_script _) with spk. unfold spk, p2pkh. by rewrite !Zlen_app, Hh.
Qed.

Lemma end_output t top : endScript (state 1 5 t [top] 4 None) = Ok (true, state 2 0 t [top] 0 None).
Proof using key fullSig. done. Qed.

Lemma final_check t top : CheckErrorCondition true (state 2 0 t [top] 0 None)
  = if asBool top then Ok (state 2 0 t [] 0 None) else Err ErrEvalFalse.
Proof using key fullSig.
  unfold CheckErrorCondition. cbn [taprootCtx state].
  change (scriptIdx _ <? _) with false. change (v0Active _) with false.
  change (Depth _ =? 1) with true. change (Depth _ <? 1) with false. cbn [negb andb]. rewrite !andb_false_r.
  change (PopBool _) with (Ok (E:=ErrorCode) (asBool top, mkStack [] minimal)). by destruct (asBool top).
Qed.

Lemma p2pkh_runs fuel : bytes_ok fullSig -> (7 <= fuel)%nat ->
  (exists vm', Execute fuel (state 0 0 (MakeScriptTokenizer 0 (SignatureScript ti)) [] 0 None) = Ok vm') <->
  ripemd160 (sha256 key) = h /\ sigAccepts flags spk tx txIdx fullSig key.
Proof using Hspend Hidx Hti HsigScript Hwit Hsig Hkey Hh Hflags L.
  intros Hb Hf. replace fuel with (2 + (5 + (fuel - 7)))%nat by lia. set (k := (fuel - 7)%nat).
  unfold Execute. cbn [version state negb]. change (0 =? 0) with true. cbn [negb].
  destruct (after_inputs (5 + k)) as [-> Hat].
  replace (5 + k)%nat with (length (p2pkhTokens h) + k)%nat by done. rewrite (stepLoop_tokens _ _ _ k Hat) by done.
  replace (p2pkhTokens h) with (take 3 (p2pkhTokens h) ++ [(OP_EQUALVERIFY, []); (OP_CHECKSIG, [])]) by done.
  rewrite runTokens_app. destruct (run_output_hash (MakeScriptTokenizer 0 spk)) as [t4 ->].
  rewrite bind_Ok. cbn [runTokens]. rewrite equalverify. case_decide as Heq.
  2: { split; [by intros [? ?]|by intros [? _]]. }
  assert (Hbh : bytes_ok h) by (rewrite <- Heq; apply ripemd160_bytes).
  rewrite bind_Ok. destruct (checksig (advance t4 (OP_EQUALVERIFY, [])) Hb Hbh) as [[-> Hacc]|[Hr Hacc]].
  - rewrite !bind_Ok, end_output, !bind_Ok, final_check.
    change (asBool [1]) with true. split; [done|]. intros _. by eexists.
  - split; [|tauto]. intros [vm' Hvm']. destruct Hr as [Hr|[e Hr]]; rewrite Hr in Hvm'; [|done].
    by rewrite !bind_Ok, end_output, !bind_Ok, final_check in Hvm'.
Qed.

End P2PKH.

End Tokens.

(** C22. A pay-to-pubkey-hash output is spent by a direct push of a signature
    and a key exactly when the key's hash is the one in the output and the
    signature, under the hash type that is its last byte, has the encodings
    the flags ask for and verifies over the digest of the output script; the
    engine is built, and any seven steps or more decide it. *)
Theorem p2pkh_spend {C : Crypto} {L : HashLaws crypto_hashes} tx txIdx ti flags hashCache fetcher amount fullSig key h
    (Hspend : spend_ok (p2pkh h) tx txIdx flags hashCache fetcher) (Hidx : 0 <= txIdx)
    (Hti : TxIns tx !! Z.to_nat txIdx = Some ti)
    (Hscript : SignatureScript ti = (Zlen fullSig :: fullSig) ++ (Zlen key :: key))
    (Hwit : Witness ti = []) (Hsig : 21 <= Zlen fullSig <= 75) (Hkey : 2 <= Zlen key <= 75) (Hh : Zlen h = 20)
    (Hflags : hasFlag flags ScriptVerifyCleanStack = true \/ hasFlag flags ScriptVerifyWitness = true ->
              hasFlag flags ScriptBip16 = true) (Hb : bytes_ok fullSig) :
  exists vm, NewEngine (p2pkh h) tx txIdx flags None hashCache amount fetcher = Ok vm /\
    forall fuel, (7 <= fuel)%nat ->
      (exists vm', Execute fuel vm = Ok vm') <->
      ripemd160 (sha256 key) = h /\ sigAccepts flags (p2pkh h) tx txIdx fullSig key.
Proof.
  eexists. split; [by eapply (new_state tx txIdx ti)|]. intros fuel Hf. by eapply p2pkh_runs.
Qed.

(** ** A nested witness program of version 1 *)

(** OP_CHECKSIG OP_NOP, and an input that pushes it behind two OP_1: the
    bytes after its first opcode are also a witness program of version 1. *)
Definition redeem : list Z := [OP_CHECKSIG; 0x61].
Definition nestedSig : list Z := [OP_1; OP_1; 2] ++ redeem.

Definition p2shOf (h : list Z) : list Z := [OP_HASH160; OP_DATA_20] ++ h ++ [OP_EQUAL].

Definition nestedSpend : MsgTx := mkMsgTx 1
  [mkTxIn (mkOutPoint (replicate 32 9) 0) nestedSig [[1]] 0xffffffff] [mkTxOut 50 [OP_1]] 0.

Section Nested.
Context {C : Crypto} (cache : option SigCache) (hashCache : option TxSigHashes) (amount : Z)
  (fetcher : OutPoint -> option TxOut).

Definition nested (scripts : list (list Z)) (sIdx oIdx : Z) (t : ScriptTokenizer) (saved d : list (list Z)) (n : Z) : Engine :=
  mkEngine (Z.lor ScriptBip16 ScriptVerifyWitness) nestedSpend 0 0 true hashCache fetcher amount cache scripts sIdx
    oIdx 0 t saved (mkStack d false) (mkStack [] false) [] n 1 (Some redeem) None.

Lemma stepLoop_step fuel vm vm' : Step vm = Ok (false, vm') -> stepLoop (S fuel) vm = stepLoop fuel vm'.
Proof using. intros Hs. cbn [stepLoop]. by rewrite Hs, bind_Ok. Qed.

Definition tok (script : list Z) (offset pos op : Z) (data : list Z) : ScriptTokenizer :=
  mkTokenizer script 0 offset pos (Some op) data None.

Let pushed : list (list Z) := [[1]; [1]; redeem].

Lemma nested_inputs spk fuel : 0 < Zlen spk ->
  stepLoop (3 + fuel) (nested [nestedSig; spk] 0 0 (MakeScriptTokenizer 0 nestedSig) [] [] 0)
  = stepLoop fuel (nested [nestedSig; spk] 1 0 (MakeScriptTokenizer 0 spk) pushed pushed 0).
Proof using.
  intros Hl. destruct spk as [|x spk]; [done|]. cbn [Nat.add].
  rewrite (stepLoop_step _ _ (nested [nestedSig; x :: spk] 0 1 (tok nestedSig 1 0 OP_1 []) [] [[1]] 0))
    by (vm_compute; reflexivity).
  rewrite (stepLoop_step _ _ (nested [nestedSig; x :: spk] 0 2 (tok nestedSig 2 1 OP_1 []) [] [[1]; [1]] 0))
    by (vm_compute; reflexivity).
  apply stepLoop_step. vm_compute. reflexivity.
Qed.

Lemma nested_output fuel : length (ripemd160 (sha256 redeem)) = 20%nat ->
  let spk := p2shOf (ripemd160 (sha256 redeem)) in
  stepLoop (3 + fuel) (nested [nestedSig; spk] 1 0 (MakeScriptTokenizer 0 spk) pushed pushed 0)
  = stepLoop fuel (nested [nestedSig; spk; redeem] 2 0 (MakeScriptTokenizer 0 redeem) pushed [[1]; [1]] 0).
Proof using.
  set (hr := ripemd160 (sha256 redeem)). intros Hl spk.
  assert (Hhash : hashOp (fun buf => ripemd160 (sha256 buf)) (mkStack pushed false) = Ok (mkStack [[1]; [1]; hr] false))
    by reflexivity.
  cbn [Nat.add]. unfold spk. clearbody hr. do 20 (destruct hr as [|? hr]; [done|]). destruct hr; [|done].
  set (h := [_; _; _; _; _; _; _; _; _; _; _; _; _; _; _; _; _; _; _; _]) in *. set (spk' := p2shOf h).
  rewrite (stepLoop_step _ _ (nested [nestedSig; spk'] 1 1 (tok spk' 1 0 OP_HASH160 []) pushed [[1]; [1]; h] 1)).
  2: { rewrite (Step_runToken _ (MakeScriptTokenizer 0 spk') (OP_HASH160, [])) by (vm_compute; reflexivity).
       unfold runToken. cbn [fst snd]. rewrite (exec_counted OP_HASH160 [] opcodeHash160) by done.
       unfold opcodeHash160, onStack. change (hashOp ?f (dstack _)) with (hashOp f (mkStack pushed false)).
       rewrite Hhash, !bind_Ok.
       vm_compute. reflexivity. }
  rewrite (stepLoop_step _ _ (nested [nestedSig; spk'] 1 2 (tok spk' 22 1 OP_DATA_20 h) pushed [[1]; [1]; h; h] 1))
    by (vm_compute; reflexivity).
  apply stepLoop_step.
  rewrite (Step_runToken _ (tok spk' 22 1 OP_DATA_20 h) (OP_EQUAL, [])) by (vm_compute; reflexivity).
  unfold runToken. cbn [fst snd]. rewrite (exec_counted OP_EQUAL [] opcodeEqual) by done.
  assert (Heq : equalOp (mkStack [[1]; [1]; h; h] false) = Ok (mkStack [[1]; [1]; [1]] false)).
  { change (equalOp _) with (Ok (E:=ErrorCode) (PushBool (bool_decide (h = h)) (mkStack [[1]; [1]] false))).
    by rewrite bool_decide_eq_true_2. }
  unfold opcodeEqual, onStack. change (equalOp (dstack _)) with (equalOp (mkStack [[1]; [1]; h; h] false)).
  rewrite Heq, !bind_Ok.
  vm_compute. reflexivity.
Qed.

Lemma nested_redeem fuel :
  stepLoop (S fuel) (nested [nestedSig; p2shOf (ripemd160 (sha256 redeem)); redeem] 2 0
    (MakeScriptTokenizer 0 redeem) pushed [[1]; [1]] 0) = Panic.
Proof using. reflexivity. Qed.

End Nested.

(** An input can make OP_CHECKSIG panic: when a P2SH input is a first
    opcode followed by the bytes of a witness program of version 1 (which is
    not checked to be a single push) and the input has a witness, the engine
    is built with that program, and OP_CHECKSIG in the redeem script calls
    the verifier that no case of its switch has set. *)
Theorem nested_v1_panics {C : Crypto} {L : HashLaws crypto_hashes} cache hashCache amount fetcher :
  exists vm, NewEngine (p2shOf (ripemd160 (sha256 redeem))) nestedSpend 0 (Z.lor ScriptBip16 ScriptVerifyWitness)
               cache hashCache amount fetcher = Ok vm /\
    forall fuel, (7 <= fuel)%nat -> Execute fuel vm = Panic.
Proof.
  set (spk := p2shOf (ripemd160 (sha256 redeem))).
  exists (nested cache hashCache amount fetcher [nestedSig; spk] 0 0 (MakeScriptTokenizer 0 nestedSig) [] [] 0). split.
  - unfold spk. pose proof (ripemd160_len (sha256 redeem)) as Hl.
    destruct (ripemd160 (sha256 redeem)) as [|x hr]; [done|].
    do 19 (destruct hr as [|? hr]; [done|]). destruct hr; [|done]. vm_compute. reflexivity.
  - intros fuel Hf. unfold Execute. change (version _) with 0. change (0 =? 0) with true. cbn [negb].
    replace fuel with (3 + (3 + S (fuel - 7)))%nat by lia.
    rewrite nested_inputs by (unfold spk, p2shOf; rewrite !Zlen_app; change (Zlen [OP_EQUAL]) with 1; len_lia).
    unfold spk. rewrite nested_output by apply ripemd160_len. by rewrite nested_redeem.
Qed.

(** ** Lock times *)

(** The masked sequence: the type bit and the low 16 bits. *)
Lemma sequence_mask n :
  Z.land n (Z.lor SequenceLockTimeIsSeconds SequenceLockTimeMask)
  = Z.b2z (Z.testbit n 22) * 2 ^ 22 + n mod 2 ^ 16.
Proof.
  unfold SequenceLockTimeIsSeconds, SequenceLockTimeMask. rewrite Z.land_lor_distr_r, land_pow2 by lia.
  change 0x0000ffff with (Z.ones 16). rewrite Z.land_ones by lia.
  rewrite <- Z.shiftl_mul_pow2 by lia. rewrite lor_shiftl_add; [by rewrite Z.shiftl_mul_pow2 by lia|lia|].
  pose proof (Z.mod_pos_bound n (2 ^ 16)). lia.
Qed.

Lemma verifyLockTime_iff a b c :
  verifyLockTime a b c = Ok () <-> (a < b <-> c < b) /\ c <= a.
Proof.
  unfold verifyLockTime. destruct (Z.ltb_spec a b), (Z.ltb_spec c b), (Z.leb_spec b a), (Z.leb_spec b c); cbn; try lia;
    destruct (Z.ltb_spec a c); split; try done; try lia; intros; split; lia.
Qed.

Lemma bind_unit_iff {E A} (m : outcome E unit) (n : outcome E A) a : (_ ← m; n) = Ok a <-> m = Ok () /\ n = Ok a.
Proof. destruct m as [[]| | |]; cbn; naive_solver. Qed.

Lemma disabled_bit n : (Z.land n SequenceLockTimeDisabled =? 0) = negb (Z.testbit n 31).
Proof.
  unfold SequenceLockTimeDisabled. rewrite land_pow2 by lia. by destruct (Z.testbit n 31).
Qed.

(** OP_CHECKLOCKTIMEVERIFY and OP_CHECKSEQUENCEVERIFY, once their flags are
    set, succeed exactly under the conditions of their proposals, and then
    leave the engine as it was.  The first needs a number of at most five
    bytes on the stack that is not negative, is of the same kind (height or
    time) as the transaction's lock time and not greater, and an input that
    is not final.  The second needs such a number whose disable bit is set,
    or a transaction of version 2 or more and an input sequence that is not
    disabled, has the same type bit, and whose low 16 bits reach those of the
    number. *)
Theorem lock_time_opcodes {C : Crypto} op data vm so ti base
    (Hsized : sized (dstack vm)) (Htop : stk (dstack vm) = base ++ [so])
    (Hti : index (E:=ErrorCode) (TxIns (tx vm)) (txIdx vm) = Ok ti) :
  let number := MakeScriptNum so (verifyMinimalData (dstack vm)) 5 in
  (vmFlag vm ScriptVerifyCheckLockTimeVerify = true -> forall vm',
     opcodeCheckLockTimeVerify op data vm = Ok vm' <->
     vm' = vm /\ exists lockTime, number = Ok lockTime /\ 0 <= lockTime <= LockTime (tx vm) /\
       (lockTime < LockTimeThreshold <-> LockTime (tx vm) < LockTimeThreshold) /\
       Sequence ti <> MaxTxInSequenceNum) /\
  (vmFlag vm ScriptVerifyCheckSequenceVerify = true -> forall vm',
     opcodeCheckSequenceVerify op data vm = Ok vm' <->
     vm' = vm /\ exists sequence, number = Ok sequence /\ 0 <= sequence /\
       (Z.testbit sequence 31 = true \/
        2 <= u32 (Version (tx vm)) /\ Z.testbit (Sequence ti) 31 = false /\
        Z.testbit (Sequence ti) 22 = Z.testbit sequence 22 /\
        sequence mod 2 ^ 16 <= Sequence ti mod 2 ^ 16)).
Proof.
  intros number. assert (Hpeek : PeekByteArray 0 (dstack vm) = Ok so)
    by (apply (Peek_mid _ base so []); [done|done|done]).
  split; intros Hflag vm'.
  - unfold opcodeCheckLockTimeVerify. rewrite Hflag, Hpeek. cbn [negb mbind outcome_bind]. fold number.
    destruct number as [n| | |]; cbn [mbind outcome_bind]; [|split; [done|by intros (_ & n & ? & _)]..].
    destruct (Z.ltb_spec n 0) as [Hneg|Hpos].
    { split; [done|]. intros (_ & n' & [= <-] & ? & _). lia. }
    rewrite bind_unit_iff, verifyLockTime_iff, Hti. cbn [mbind outcome_bind].
    destruct (Z.eqb_spec (Sequence ti) MaxTxInSequenceNum) as [Hfin|Hfin].
    + split; [by intros [_ ?]|by intros (_ & n' & _ & _ & _ & ?)].
    + split.
      * intros [[H1 H2] [= <-]]. split; [done|]. exists n. split_and!; try done; tauto.
      * intros (-> & n' & [= <-] & H1 & H2 & _). split; [|done]. split; [tauto|lia].
  - unfold opcodeCheckSequenceVerify. rewrite Hflag, Hpeek. cbn [negb mbind outcome_bind]. fold number.
    destruct number as [n| | |]; cbn [mbind outcome_bind]; [|split; [done|by intros (_ & n & ? & _)]..].
    destruct (Z.ltb_spec n 0) as [Hneg|Hpos].
    { split; [done|]. intros (_ & n' & [= <-] & ? & _). lia. }
    rewrite !disabled_bit, negb_involutive. destruct (Z.testbit n 31) eqn:Hn31.
    { split; [intros [= <-]; split; [done|]; exists n; by auto|by intros [-> _]]. }
    destruct (Z.ltb_spec (u32 (Version (tx vm))) 2) as [Hv|Hv].
    { split; [done|]. intros (_ & n' & [= <-] & _ & [?|[? _]]); [congruence|lia]. }
    rewrite Hti. cbn [mbind outcome_bind]. rewrite !disabled_bit, negb_involutive.
    destruct (Z.testbit (Sequence ti) 31) eqn:Hs31.
    { split; [done|]. intros (_ & n' & [= <-] & _ & [?|(_ & ? & _)]); congruence. }
    cbv zeta. rewrite !sequence_mask, bind_unit_iff, verifyLockTime_iff. unfold SequenceLockTimeIsSeconds.
    pose proof (Z.mod_pos_bound n (2 ^ 16) ltac:(lia)). pose proof (Z.mod_pos_bound (Sequence ti) (2 ^ 16) ltac:(lia)).
    split.
    + intros [Hc [= <-]]. split; [done|]. exists n. split; [done|]. split; [done|]. right. split; [done|]. split; [done|].
      destruct (Z.testbit (Sequence ti) 22), (Z.testbit n 22); cbn [Z.b2z] in Hc; split; (done || lia).
    + intros (-> & n' & [= <-] & _ & [?|(_ & _ & Ht & Hle)]); [congruence|]. split; [|done]. rewrite Ht.
      destruct (Z.testbit n 22); cbn [Z.b2z]; split; lia.
Qed.

Module Toy.
Import SigHash.Toy SigCheck.Toy EngineRun.Toy.
#[local] Existing Instance toy_crypto.
#[local] Existing Instance EngineRun.Toy.laws.

Definition longSig : list Z := DER (replicate 8 1) (replicate 8 2) ++ [SigHashAll].
Definition input : TxIn :=
  mkTxIn (mkOutPoint (replicate 32 9) 0) ((Zlen longSig :: longSig) ++ (Zlen key :: key)) [] 0xffffffff.
Definition tx : MsgTx := mkMsgTx 1 [input] [mkTxOut 50 [OP_1]] 0.

Lemma p2pkh_spend_witness :
  exists vm, NewEngine spk tx 0 std None None 100 fetcher = Ok vm /\
    forall fuel, (7 <= fuel)%nat ->
      (exists vm', Execute fuel vm = Ok vm') <->
      ripemd160 (sha256 key) = ripemd160 (sha256 key) /\ sigAccepts std spk tx 0 longSig key.
Proof.
  apply (p2pkh_spend tx 0 input std None fetcher 100 longSig key (ripemd160 (sha256 key)));
    try done; try (vm_compute; done); try (apply (bool_decide_unpack _); by vm_compute).
  split; [apply (bool_decide_unpack _); by vm_compute| |by repeat constructor; eexists|by intros Hf; vm_compute in Hf].
  intros ti [= <-]. split_and!; try (apply (bool_decide_unpack _); by vm_compute).
Defined.

(** Both sides hold there. *)
Example accepted : sigAccepts std spk tx 0 longSig key.
Proof. split_and!; try by vm_compute. eexists _, _, _. split_and!; by vm_compute. Qed.

(** A lock time of 90 in a transaction that is locked until 100. *)
Definition lockedTx : MsgTx :=
  mkMsgTx 2 [mkTxIn (mkOutPoint (replicate 32 9) 0) [] [] 5] [mkTxOut 50 [OP_1]] 100.
Definition lockedVm : Engine :=
  mkEngine (Z.lor ScriptVerifyCheckLockTimeVerify ScriptVerifyCheckSequenceVerify) lockedTx 0 0 false None fetcher 0
    None [] 0 0 0 (MakeScriptTokenizer 0 []) [] (mkStack [[90]] true) (mkStack [] true) [] 0 0 None None.

Lemma lock_time_opcodes_witness :
  opcodeCheckLockTimeVerify 0xb1 [] lockedVm = Ok lockedVm /\
  opcodeCheckSequenceVerify 0xb2 [] lockedVm <> Ok lockedVm.
Proof.
  destruct (lock_time_opcodes 0xb1 [] lockedVm [90] (mkTxIn (mkOutPoint (replicate 32 9) 0) [] [] 5) []) as [H1 H2];
    [reflexivity|reflexivity|reflexivity|]. split.
  - apply H1; [reflexivity|]. split; [reflexivity|]. exists 90. split_and!; try reflexivity; try (vm_compute; done); lia.
  - intros Hok. apply H2 in Hok as [_ (n & Hn & _ & Hcase)]; [|reflexivity].
    vm_compute in Hn. injection Hn as <-. destruct Hcase as [Hd|(_ & _ & _ & Hle)]; [by vm_compute in Hd|].
    by vm_compute in Hle.
Defined.

(** The concrete input: it exists and panics with ten steps of fuel. *)
Lemma nested_v1_panics_witness :
  exists vm, NewEngine (p2shOf (ripemd160 (sha256 redeem))) nestedSpend 0 (Z.lor ScriptBip16 ScriptVerifyWitness)
               None None 0 (fun _ => None) = Ok vm /\ Execute 10 vm = Panic.
Proof.
  destruct (nested_v1_panics None None 0 (fun _ => None)) as (vm & Hnew & Hrun).
  exists vm. split; [exact Hnew|]. apply Hrun. lia.
Defined.

End Toy.

End EngineFacts.
