(* ===== verification/Difficulty.v ===== *)
(** * Proof of work and difficulty

    Models coin/OrcaNet/blockchain/difficulty.go, checkProofOfWork of
    validate.go and the interfaces ChainCtx and HeaderCtx of interfaces.go.
    A big.Int is an integer.  The headers are reached through the class
    [HeaderCtx], as in the code; [HeaderLaws] states what its
    implementations promise, and Chain gives the one of the block index. *)

From S2P Require Import Prelude Wire SigHash Merkle.

Module Difficulty.
Import Wire SigHash Merkle.

(** ** Parameters and interfaces *)

(** The fields of chaincfg.Params that the modelled rules use.  A duration
    is in nanoseconds. *)
Record Params := mkParams {
  PowLimit : Z;
  PowLimitBits : Z;
  PoWNoRetargeting : bool;
  BIP0034Height : Z;
  BIP0065Height : Z;
  BIP0066Height : Z;
  CoinbaseMaturity : Z;
  SubsidyReductionInterval : Z;
  TargetTimespan : Z;
  TargetTimePerBlock : Z;
  RetargetAdjustmentFactor : Z;
  ReduceMinDifficulty : bool;
  MinDiffReductionTime : Z;
  RuleChangeActivationThreshold : Z;
  MinerConfirmationWindow : Z;
}.

Definition Second := 1000000000.

Record ChainCtx := mkChainCtx {
  ChainParams : Params;
  BlocksPerRetarget : Z;
  MinRetargetTimespan : Z;
  MaxRetargetTimespan : Z;
}.

(** The fields that New in chain.go computes. *)
Definition newChainCtx (params : Params) : outcome RuleError ChainCtx :=
  let targetTimespan := Z.quot (TargetTimespan params) Second in
  let targetTimePerBlock := Z.quot (TargetTimePerBlock params) Second in
  let adjustmentFactor := RetargetAdjustmentFactor params in
  if (adjustmentFactor =? 0) || (targetTimePerBlock =? 0) then Panic
  else Ok (mkChainCtx params (i32 (Z.quot targetTimespan targetTimePerBlock))
             (i64 (Z.quot targetTimespan adjustmentFactor)) (i64 (targetTimespan * adjustmentFactor))).

(** The parameters of the network of this repository. *)
Definition freshNetPowLimit : Z := 2 ^ 224 - 1.
Definition FreshNetParams : Params := {|
  PowLimit := freshNetPowLimit;
  PowLimitBits := 0x1d00ffff;
  PoWNoRetargeting := false;
  BIP0034Height := 227931;
  BIP0065Height := 388381;
  BIP0066Height := 363725;
  CoinbaseMaturity := 1;
  SubsidyReductionInterval := 210000;
  TargetTimespan := 24 * 14 * 3600 * Second;
  TargetTimePerBlock := 10 * 60 * Second;
  RetargetAdjustmentFactor := 4;
  ReduceMinDifficulty := true;
  MinDiffReductionTime := 0;
  RuleChangeActivationThreshold := 1916;
  MinerConfirmationWindow := 2016;
|}.

Class HeaderCtx (N : Type) := {
  Height : N -> Z;
  Bits : N -> Z;
  Timestamp : N -> Z;
  Parent : N -> option N;
  RelativeAncestorCtx : N -> Z -> option N;
}.

(** ** Targets *)
Definition HashToBig (hash : list Z) : Z := be_val (rev hash).

Definition CompactToBig (compact : Z) : Z :=
  let mantissa := Z.land compact 0x007fffff in
  let isNegative := negb (Z.land compact 0x00800000 =? 0) in
  let exponent := Z.shiftr compact 24 in
  let bn := if exponent <=? 3 then Z.shiftr mantissa (8 * (3 - exponent))
            else Z.shiftl mantissa (8 * (exponent - 3)) in
  if isNegative then - bn else bn.

(** len(n.Bytes()): the bytes of the absolute value. *)
Definition bytesLen (n : Z) : Z := if n =? 0 then 0 else Z.log2 (Z.abs n) / 8 + 1.

(** uint32(n.Bits()[0]): the low word of the absolute value, which has no
    words when it is zero. *)
Definition lowWord (n : Z) : outcome RuleError Z :=
  if n =? 0 then Panic else Ok (u32 (Z.abs n)).

Definition BigToCompact (n : Z) : outcome RuleError Z :=
  if Z.sgn n =? 0 then Ok 0
  else
    let exponent := bytesLen n in
    mantissa ← (if exponent <=? 3 then w ← lowWord n; mret (u32 (Z.shiftl w (8 * (3 - exponent))))
                else lowWord (Z.shiftr n (8 * (exponent - 3))));
    let '(mantissa, exponent) :=
      if negb (Z.land mantissa 0x00800000 =? 0) then (Z.shiftr mantissa 8, exponent + 1)
      else (mantissa, exponent) in
    let compact := Z.lor (u32 (Z.shiftl exponent 24)) mantissa in
    mret (if Z.sgn n <? 0 then Z.lor compact 0x00800000 else compact).

Definition oneLsh256 : Z := Z.shiftl 1 256.

Definition CalcWork (bits : Z) : Z :=
  let difficultyNum := CompactToBig bits in
  if Z.sgn difficultyNum <=? 0 then 0 else oneLsh256 / (difficultyNum + 1).

(** big.Int's Div is Euclidean and panics on a zero divisor. *)
Definition bigDiv (x y : Z) : outcome RuleError Z :=
  if y =? 0 then Panic else Ok (Z.sgn y * (x / Z.abs y)).

(** The loop of calcEasiestDifficulty. *)
Fixpoint easeLoop (fuel : nat) (powLimit factor maxTimespan newTarget durationVal : Z)
    : outcome RuleError Z :=
  match fuel with
  | O => Hang
  | S fuel =>
      if (0 <? durationVal) && (newTarget <? powLimit)
      then easeLoop fuel powLimit factor maxTimespan (newTarget * factor) (i64 (durationVal - maxTimespan))
      else Ok newTarget
  end.

Definition calcEasiestDifficulty (fuel : nat) (c : ChainCtx) (bits duration : Z) : outcome RuleError Z :=
  let params := ChainParams c in
  let durationVal := Z.quot duration Second in
  if ReduceMinDifficulty params && (Z.quot (MinDiffReductionTime params) Second <? durationVal)
  then Ok (PowLimitBits params)
  else
    newTarget ← easeLoop fuel (PowLimit params) (RetargetAdjustmentFactor params) (MaxRetargetTimespan c)
                  (CompactToBig bits) durationVal;
    BigToCompact (if PowLimit params <? newTarget then PowLimit params else newTarget).

Section Retarget.
Context {N : Type} `{HeaderCtx N}.

(** height % c.BlocksPerRetarget() *)
Definition atRetarget (height : Z) (c : ChainCtx) : outcome RuleError bool :=
  if BlocksPerRetarget c =? 0 then Panic else Ok (Z.rem height (BlocksPerRetarget c) =? 0).

Fixpoint prevTestNetLoop (fuel : nat) (iterNode : option N) (c : ChainCtx) : outcome RuleError (option N) :=
  match fuel with
  | O => Hang
  | S fuel =>
      match iterNode with
      | None => Ok None
      | Some n =>
          stop ← atRetarget (Height n) c;
          if negb stop && (Bits n =? PowLimitBits (ChainParams c))
          then prevTestNetLoop fuel (Parent n) c else Ok (Some n)
      end
  end.

Definition findPrevTestNetDifficulty (fuel : nat) (startNode : N) (c : ChainCtx) : outcome RuleError Z :=
  iterNode ← prevTestNetLoop fuel (Some startNode) c;
  mret match iterNode with Some n => Bits n | None => PowLimitBits (ChainParams c) end.

(** The timespan within the limits of the adjustment. *)
Definition adjustTimespan (c : ChainCtx) (actualTimespan : Z) : Z :=
  if actualTimespan <? MinRetargetTimespan c then MinRetargetTimespan c
  else if MaxRetargetTimespan c <? actualTimespan then MaxRetargetTimespan c
  else actualTimespan.

Definition calcNextRequiredDifficulty (fuel : nat) (lastNode : option N) (newBlockTime : Z) (c : ChainCtx)
    : outcome RuleError Z :=
  let params := ChainParams c in
  if PoWNoRetargeting params then Ok (PowLimitBits params)
  else
    match lastNode with
    | None => Ok (PowLimitBits params)
    | Some last =>
        retarget ← atRetarget (i32 (Height last + 1)) c;
        if negb retarget then
          if ReduceMinDifficulty params then
            let reductionTime := Z.quot (MinDiffReductionTime params) Second in
            let allowMinTime := i64 (Timestamp last + reductionTime) in
            if allowMinTime <? newBlockTime then Ok (PowLimitBits params)
            else findPrevTestNetDifficulty fuel last c
          else Ok (Bits last)
        else
          match RelativeAncestorCtx last (i32 (BlocksPerRetarget c - 1)) with
          | None => Err AssertError
          | Some first =>
              let adjustedTimespan := adjustTimespan c (i64 (Timestamp last - Timestamp first)) in
              let oldTarget := CompactToBig (Bits last) in
              newTarget ← bigDiv (oldTarget * adjustedTimespan) (Z.quot (TargetTimespan params) Second);
              BigToCompact (if PowLimit params <? newTarget then PowLimit params else newTarget)
          end
    end.

End Retarget.

(** ** The check of a header *)
Section Check.
Context {H : Hashes}.

Definition BFNoPoWCheck := 2.

Definition BlockHash (header : BlockHeader) : list Z := DoubleHashB (writeBlockHeader header).

Definition checkProofOfWork (header : BlockHeader) (powLimit flags : Z) : outcome RuleError unit :=
  let target := CompactToBig (Wire.Bits header) in
  if Z.sgn target <=? 0 then Err ErrUnexpectedDifficulty
  else if powLimit <? target then Err ErrUnexpectedDifficulty
  else if negb (Z.land flags BFNoPoWCheck =? BFNoPoWCheck) && (target <? HashToBig (BlockHash header))
  then Err ErrHighHash
  else Ok ().

End Check.
(** ** The compact representation *)

(** The number with mantissa [m] and exponent [e]. *)
Definition decoded (e m : Z) : Z := if e <=? 3 then m / 2 ^ (8 * (3 - e)) else m * 2 ^ (8 * (e - 3)).

(** The mantissa is normal: its top two bytes are not both empty and its sign
    bit is clear, and no digit is lost when it is shifted right. *)
Record normal (e m : Z) : Prop := {
  n_exp : 1 <= e <= 255;
  n_mant : 2 ^ 15 <= m < 2 ^ 23;
  n_exact : e < 3 -> m mod 2 ^ (8 * (3 - e)) = 0;
}.

Lemma CompactToBig_pos e m : 0 <= e -> 0 <= m < 2 ^ 23 -> CompactToBig (e * 2 ^ 24 + m) = decoded e m.
Proof.
  intros He Hm. unfold CompactToBig, decoded.
  assert (Hlow : Z.land (e * 2 ^ 24 + m) 0x007fffff = m).
  { change 0x007fffff with (Z.ones 23). rewrite Z.land_ones by lia.
    replace (e * 2 ^ 24 + m) with (m + e * 2 * 2 ^ 23) by lia. rewrite Z.mod_add by lia. by apply Z.mod_small. }
  assert (Hhigh : Z.shiftr (e * 2 ^ 24 + m) 24 = e).
  { rewrite Z.shiftr_div_pow2 by lia. rewrite Z.div_add_l by lia. rewrite Z.div_small by lia. lia. }
  assert (Hsign : Z.land (e * 2 ^ 24 + m) 0x00800000 = 0).
  { change 0x00800000 with (2 ^ 23). rewrite land_pow2 by lia. rewrite Z.testbit_eqb by lia.
    replace ((e * 2 ^ 24 + m) / 2 ^ 23) with (e * 2); [by rewrite Z.mod_mul|].
    replace (e * 2 ^ 24 + m) with (e * 2 * 2 ^ 23 + m) by lia. rewrite Z.div_add_l, Z.div_small by lia. lia. }
  rewrite Hlow, Hhigh, Hsign. change (0 =? 0) with true. cbn [negb].
  destruct (Z.leb_spec e 3); [by rewrite Z.shiftr_div_pow2 by lia|by rewrite Z.shiftl_mul_pow2 by lia].
Qed.

Lemma bytesLen_unique n e : 1 <= e -> 2 ^ (8 * (e - 1)) <= n < 2 ^ (8 * e) -> bytesLen n = e.
Proof.
  intros He [Hlo Hhi]. pose proof (Z.pow_pos_nonneg 2 (8 * (e - 1)) ltac:(lia) ltac:(lia)).
  unfold bytesLen. rewrite (proj2 (Z.eqb_neq n 0)), Z.abs_eq by lia.
  assert (8 * (e - 1) <= Z.log2 n) by (by apply Z.log2_le_pow2; lia).
  assert (Z.log2 n < 8 * e) by (by apply Z.log2_lt_pow2; lia).
  rewrite <- (Z.div_unique_pos (Z.log2 n) 8 (e - 1) (Z.log2 n - 8 * (e - 1))); lia.
Qed.

Lemma bytesLen_spec n : 0 < n -> 1 <= bytesLen n /\ 2 ^ (8 * (bytesLen n - 1)) <= n < 2 ^ (8 * bytesLen n).
Proof.
  intros Hn. unfold bytesLen. rewrite (proj2 (Z.eqb_neq n 0)), Z.abs_eq by lia.
  pose proof (Z.log2_nonneg n). pose proof (Z.log2_spec n Hn) as [Hlo Hhi].
  pose proof (Z.div_mod (Z.log2 n) 8 ltac:(lia)). pose proof (Z.mod_pos_bound (Z.log2 n) 8 ltac:(lia)).
  pose proof (Z.div_pos (Z.log2 n) 8 ltac:(lia) ltac:(lia)). split; [lia|]. split.
  - etransitivity; [|exact Hlo]. apply Z.pow_le_mono_r; lia.
  - eapply Z.lt_le_trans; [exact Hhi|]. apply Z.pow_le_mono_r; lia.
Qed.

Lemma sign_bit m : 0 <= m < 2 ^ 24 -> (Z.land m 0x00800000 =? 0) = (m <? 2 ^ 23).
Proof.
  intros Hm. change 0x00800000 with (2 ^ 23). rewrite land_pow2, Z.testbit_eqb by lia.
  destruct (Z.ltb_spec m (2 ^ 23)).
  - by rewrite Z.div_small by lia.
  - rewrite <- (Z.div_unique_pos m (2 ^ 23) 1 (m - 2 ^ 23)) by lia. done.
Qed.

(** The mantissa before its sign bit is cleared. *)
Definition mantissa (e n : Z) : Z := if e <=? 3 then n * 2 ^ (8 * (3 - e)) else n / 2 ^ (8 * (e - 3)).

Lemma mantissa_range n : 0 < n -> 2 ^ 16 <= mantissa (bytesLen n) n < 2 ^ 24.
Proof.
  intros Hn. pose proof (bytesLen_spec n Hn) as (He & Hlo & Hhi). unfold mantissa.
  destruct (Z.leb_spec (bytesLen n) 3) as [Hs|Hs].
  - set (p := 2 ^ (8 * (3 - bytesLen n))). assert (0 < p) by (apply Z.pow_pos_nonneg; lia).
    replace (2 ^ 16) with (2 ^ (8 * (bytesLen n - 1)) * p) by (unfold p; rewrite <- Z.pow_add_r by lia; f_equal; lia).
    replace (2 ^ 24) with (2 ^ (8 * bytesLen n) * p) by (unfold p; rewrite <- Z.pow_add_r by lia; f_equal; lia). nia.
  - set (p := 2 ^ (8 * (bytesLen n - 3))). assert (0 < p) by (apply Z.pow_pos_nonneg; lia). split.
    + apply Z.div_le_lower_bound; [done|]. etransitivity; [|exact Hlo]. apply Z.eq_le_incl.
      unfold p. rewrite <- Z.pow_add_r by lia. f_equal. lia.
    + apply Z.div_lt_upper_bound; [done|]. eapply Z.lt_le_trans; [exact Hhi|]. apply Z.eq_le_incl.
      unfold p. rewrite <- Z.pow_add_r by lia. f_equal. lia.
Qed.

Lemma BigToCompact_pos n : 0 < n -> bytesLen n <= 254 ->
  let e := bytesLen n in let m := mantissa e n in
  BigToCompact n = Ok (if m <? 2 ^ 23 then e * 2 ^ 24 + m else (e + 1) * 2 ^ 24 + m / 256).
Proof.
  intros Hn Hbig e m. pose proof (bytesLen_spec n Hn) as (He & _). pose proof (mantissa_range n Hn) as Hm. fold e in He, Hm |- *.
  fold m in Hm. unfold BigToCompact. rewrite Z.sgn_pos by done. change (1 =? 0) with false. change (1 <? 0) with false. cbv iota zeta. fold e.
  assert (Hword : (if e <=? 3 then w ← lowWord n; mret (u32 (Z.shiftl w (8 * (3 - e))))
                   else lowWord (Z.shiftr n (8 * (e - 3)))) = Ok m).
  { unfold m, mantissa in *. destruct (Z.leb_spec e 3) as [Hs|Hs].
    - assert (Hp : 1 <= 2 ^ (8 * (3 - e))) by (pose proof (Z.pow_pos_nonneg 2 (8 * (3 - e))); lia).
      unfold lowWord. rewrite (proj2 (Z.eqb_neq n 0)), Z.abs_eq by lia.
      rewrite bind_Ok, (u32_small n), Z.shiftl_mul_pow2, u32_small by (lia || nia). done.
    - rewrite Z.shiftr_div_pow2 by lia. unfold lowWord.
      rewrite (proj2 (Z.eqb_neq _ 0)), Z.abs_eq, u32_small by lia. done. }
  rewrite Hword, bind_Ok, sign_bit by lia. change 0x00800000 with (2 ^ 23).
  assert (Hmd : 0 <= m / 256 < 2 ^ 24) by (split; [apply Z.div_pos; lia|apply Z.div_lt_upper_bound; lia]).
  assert (Hpack : forall k w, 1 <= k <= 255 -> 0 <= w < 2 ^ 24 -> Z.lor (u32 (Z.shiftl k 24)) w = k * 2 ^ 24 + w).
  { intros k w Hk Hw. rewrite u32_small by (rewrite Z.shiftl_mul_pow2 by lia; lia). by apply lor_shiftl_add. }
  destruct (Z.ltb_spec m (2 ^ 23)); cbn [negb]; [by rewrite Hpack by lia|].
  rewrite Z.shiftr_div_pow2 by lia. change (2 ^ 8) with 256. by rewrite Hpack by lia.
Qed.

(** Both as fixed-point numbers, scaled by 2^24. *)
Lemma decoded_scale e m : normal e m -> decoded e m * 2 ^ 24 = m * 2 ^ (8 * e).
Proof.
  intros [He Hm Hx]. unfold decoded. destruct (Z.leb_spec e 3) as [Hs|Hs].
  - set (q := 2 ^ (8 * (3 - e))). assert (Hq : 0 < q) by (apply Z.pow_pos_nonneg; lia).
    assert (Hmod : m mod q = 0).
    { destruct (Z.eq_dec e 3) as [->|]; [|by apply Hx; lia]. unfold q. change (2 ^ (8 * (3 - 3))) with 1. apply Z.mod_1_r. }
    replace (2 ^ 24) with (q * 2 ^ (8 * e)) by (unfold q; rewrite <- Z.pow_add_r by lia; f_equal; lia).
    pose proof (Z.div_mod m q ltac:(lia)). nia.
  - rewrite <- Z.mul_assoc, <- Z.pow_add_r by lia. do 2 f_equal. lia.
Qed.

Lemma mantissa_scale e n : 0 <= e -> mantissa e n = n * 2 ^ 24 / 2 ^ (8 * e).
Proof.
  intros He. unfold mantissa. destruct (Z.leb_spec e 3) as [Hs|Hs].
  - replace (2 ^ 24) with (2 ^ (8 * (3 - e)) * 2 ^ (8 * e)) by (rewrite <- Z.pow_add_r by lia; f_equal; lia).
    rewrite Z.mul_assoc, Z.div_mul; [done|]. pose proof (Z.pow_pos_nonneg 2 (8 * e)). lia.
  - replace (2 ^ (8 * e)) with (2 ^ (8 * (e - 3)) * 2 ^ 24) by (rewrite <- Z.pow_add_r by lia; f_equal; lia).
    rewrite Z.div_mul_cancel_r; [done|pose proof (Z.pow_pos_nonneg 2 (8 * (e - 3))); lia|lia].
Qed.

(** A normal compact number is what its value is encoded as. *)
Lemma normal_round e m : normal e m -> e <= 254 ->
  0 < decoded e m /\ BigToCompact (decoded e m) = Ok (e * 2 ^ 24 + m).
Proof.
  intros Hn He. pose proof (decoded_scale e m Hn) as Hs. destruct Hn as [He1 Hm Hx]. set (t := decoded e m) in *.
  assert (Hp : 0 < 2 ^ (8 * e)) by (apply Z.pow_pos_nonneg; lia).
  assert (Ht : 0 < t) by nia. split; [done|].
  assert (Hlen : forall k, 1 <= k -> 2 ^ (8 * (k - 1)) * 2 ^ 24 <= m * 2 ^ (8 * e) < 2 ^ (8 * k) * 2 ^ 24 -> bytesLen t = k).
  { intros k Hk Hr. apply bytesLen_unique; [done|]. rewrite <- Hs in Hr. nia. }
  destruct (Z.lt_ge_cases m (2 ^ 16)) as [Hlow|Hhigh].
  - assert (He2 : 2 <= e).
    { destruct (Z.eq_dec e 1) as [->|]; [|lia]. specialize (Hx ltac:(lia)). change (8 * (3 - 1)) with 16 in Hx.
      rewrite Z.mod_small in Hx; lia. }
    assert (Hprev : 2 ^ (8 * e) = 2 ^ (8 * (e - 1)) * 2 ^ 8) by (rewrite <- Z.pow_add_r by lia; f_equal; lia).
    assert (Hb : bytesLen t = e - 1).
    { apply Hlen; [lia|]. replace (2 ^ (8 * (e - 1 - 1)) * 2 ^ 24) with (2 ^ 8 * 2 ^ (8 * e))
        by (rewrite <- !Z.pow_add_r by lia; f_equal; lia).
      rewrite Hprev in *. nia. }
    rewrite BigToCompact_pos by lia. cbv zeta. rewrite Hb, mantissa_scale, Hs by lia. rewrite Hprev, (Z.mul_comm (2 ^ (8 * (e - 1)))), Z.mul_assoc.
    rewrite Z.div_mul by (pose proof (Z.pow_pos_nonneg 2 (8 * (e - 1))); lia).
    rewrite (proj2 (Z.ltb_ge _ _)) by lia. change 256 with (2 ^ 8). rewrite Z.div_mul by lia. do 2 f_equal. lia.
  - assert (Hb : bytesLen t = e).
    { apply Hlen; [lia|]. replace (2 ^ (8 * (e - 1)) * 2 ^ 24) with (2 ^ 16 * 2 ^ (8 * e))
        by (rewrite <- !Z.pow_add_r by lia; f_equal; lia). nia. }
    rewrite BigToCompact_pos by lia. cbv zeta. rewrite Hb, mantissa_scale, Hs by lia. rewrite Z.div_mul by lia.
    by rewrite (proj2 (Z.ltb_lt _ _)) by lia.
Qed.

(** A number is encoded as a normal one, close below it. *)
Lemma BigToCompact_normal n : 0 < n -> bytesLen n <= 253 ->
  exists e m, normal e m /\ e <= 254 /\ BigToCompact n = Ok (e * 2 ^ 24 + m) /\
    decoded e m <= n /\ (n - decoded e m) * 2 ^ 15 < decoded e m.
Proof.
  intros Hn Hbig. pose proof (bytesLen_spec n Hn) as (He & _). pose proof (mantissa_range n Hn) as Hr.
  rewrite BigToCompact_pos by lia. cbv zeta. set (e0 := bytesLen n) in *. set (m0 := mantissa e0 n) in *.
  assert (Hclose : forall e m, normal e m -> m = n * 2 ^ 24 / 2 ^ (8 * e) ->
            decoded e m <= n /\ (n - decoded e m) * 2 ^ 15 < decoded e m).
  { intros e m Hnorm Hm. pose proof (decoded_scale e m Hnorm) as Hs. destruct Hnorm as [He' Hm' _].
    assert (Hp : 0 < 2 ^ (8 * e)) by (apply Z.pow_pos_nonneg; lia).
    pose proof (Z.div_mod (n * 2 ^ 24) (2 ^ (8 * e)) ltac:(lia)) as Hd.
    pose proof (Z.mod_pos_bound (n * 2 ^ 24) (2 ^ (8 * e)) Hp). rewrite <- Hm in Hd. nia. }
  assert (Hm0 : m0 = n * 2 ^ 24 / 2 ^ (8 * e0)) by (apply mantissa_scale; lia).
  destruct (Z.ltb_spec m0 (2 ^ 23)) as [Hlow|Hhigh].
  - exists e0, m0. assert (Hnorm : normal e0 m0).
    { split; [lia|lia|]. intros Hs. unfold m0, mantissa. rewrite (proj2 (Z.leb_le e0 3)) by lia. apply Z.mod_mul.
      pose proof (Z.pow_pos_nonneg 2 (8 * (3 - e0))). lia. }
    split_and!; try done; [lia| |]; by apply Hclose.
  - exists (e0 + 1), (m0 / 256).
    assert (Hmd : m0 / 256 = n * 2 ^ 24 / 2 ^ (8 * (e0 + 1))).
    { rewrite Hm0, Z.div_div by (try lia; apply Z.pow_nonzero; lia). f_equal. change 256 with (2 ^ 8).
      rewrite <- Z.pow_add_r by lia. f_equal. lia. }
    assert (Hnorm : normal (e0 + 1) (m0 / 256)).
    { split; [lia|split; [apply Z.div_le_lower_bound; lia|apply Z.div_lt_upper_bound; lia]|]. intros Hs.
      assert (e0 = 1) as -> by lia. rewrite Hmd. change (2 ^ (8 * (1 + 1))) with (2 ^ 16).
      replace (2 ^ 24) with (2 ^ 8 * 2 ^ 16) by lia. rewrite Z.mul_assoc, Z.div_mul by lia. change (8 * (3 - (1 + 1))) with 8.
      apply Z.mod_mul. lia. }
    split_and!; try done; [lia| |]; by apply Hclose.
Qed.

(** The compact form of a positive number of at most 253 bytes decodes to
    a number that is not above it and closer to it than one part in 2^15;
    encoding that number again gives the same compact form. *)
Theorem compact_roundtrip n (Hn : 0 < n) (Hbig : n < 2 ^ 2024) :
  exists c, BigToCompact n = Ok c /\ 0 <= c < 2 ^ 32 /\
    0 < CompactToBig c <= n /\ (n - CompactToBig c) * 2 ^ 15 < CompactToBig c /\
    BigToCompact (CompactToBig c) = Ok c.
Proof.
  assert (Hb : bytesLen n <= 253).
  { pose proof (bytesLen_spec n Hn) as (He & Hlo & _). assert (8 * (bytesLen n - 1) < 2024); [|lia].
    apply (Z.pow_lt_mono_r_iff 2); lia. }
  destruct (BigToCompact_normal n Hn Hb) as (e & m & Hnorm & He & -> & Hle & Hclose).
  destruct (normal_round e m Hnorm He) as [Hpos Hround]. pose proof Hnorm as [He1 Hm _].
  exists (e * 2 ^ 24 + m). rewrite CompactToBig_pos by lia. split_and!; try done; lia.
Qed.

(** ** Work and the check of a header *)

Lemma CalcWork_spec bits :
  let target := CompactToBig bits in
  (target <= 0 -> CalcWork bits = 0) /\
  (0 < target -> CalcWork bits * (target + 1) <= 2 ^ 256 < (CalcWork bits + 1) * (target + 1)).
Proof.
  intros target. unfold CalcWork. fold target. change oneLsh256 with (2 ^ 256). split; intros Ht.
  - by rewrite (proj2 (Z.leb_le _ _)) by (apply Z.sgn_nonpos; lia).
  - rewrite Z.sgn_pos by done. change (1 <=? 0) with false. cbv iota.
    pose proof (Z.div_mod (2 ^ 256) (target + 1) ltac:(lia)). pose proof (Z.mod_pos_bound (2 ^ 256) (target + 1) ltac:(lia)). nia.
Qed.

Lemma HashToBig_range hash : bytes_ok hash -> length hash = 32%nat -> 0 <= HashToBig hash < 2 ^ 256.
Proof.
  intros Hb Hl. unfold HashToBig, be_val. rewrite rev_involutive. pose proof (le_val_range hash Hb) as Hr.
  rewrite Hl in Hr. done.
Qed.

(** A header passes the proof of work check exactly when its target is
    positive and within the limit and, unless the check is switched off, its
    hash is not above the target; the work such a header adds to its chain is
    then at least one, and a smaller target adds at least as much. *)
Theorem checkProofOfWork_iff {H : Hashes} header powLimit flags (Hlimit : powLimit < 2 ^ 256) :
  let target := CompactToBig (Wire.Bits header) in
  (checkProofOfWork header powLimit flags = Ok () <->
     0 < target <= powLimit /\ (Z.land flags BFNoPoWCheck = BFNoPoWCheck \/ HashToBig (BlockHash header) <= target)) /\
  (checkProofOfWork header powLimit flags = Ok () ->
     1 <= CalcWork (Wire.Bits header) /\
     forall bits, 0 < CompactToBig bits <= target -> CalcWork (Wire.Bits header) <= CalcWork bits).
Proof.
  intros target.
  assert (Hiff : checkProofOfWork header powLimit flags = Ok () <->
     0 < target <= powLimit /\ (Z.land flags BFNoPoWCheck = BFNoPoWCheck \/ HashToBig (BlockHash header) <= target)).
  { unfold checkProofOfWork. fold target.
    destruct (Z.leb_spec (Z.sgn target) 0) as [Hs|Hs]; [apply Z.sgn_nonpos in Hs; split; [done|lia]|].
    apply Z.sgn_pos_iff in Hs. destruct (Z.ltb_spec powLimit target); [split; [done|lia]|].
    destruct (Z.eqb_spec (Z.land flags BFNoPoWCheck) BFNoPoWCheck) as [Hf|Hf]; cbn [negb andb].
    - split; [intros _; split; [lia|by left]|done].
    - destruct (Z.ltb_spec target (HashToBig (BlockHash header))) as [Hh|Hh]; split; try done.
      + intros [_ [?|?]]; [done|lia].
      + intros _. split; [lia|by right]. }
  split; [done|]. intros [Ht _]%Hiff. destruct (CalcWork_spec (Wire.Bits header)) as [_ Hw]. fold target in Hw.
  specialize (Hw ltac:(lia)). split; [nia|]. intros bits Hb.
  destruct (CalcWork_spec bits) as [_ Hw']. specialize (Hw' ltac:(lia)).
  set (w := CalcWork (Wire.Bits header)) in *. set (w' := CalcWork bits) in *. set (t := CompactToBig bits) in *.
  assert (0 <= w) by nia. assert (w * (t + 1) <= w * (target + 1)) by (apply Z.mul_le_mono_nonneg_l; lia).
  assert (w * (t + 1) < (w' + 1) * (t + 1)) as Hlt%Z.mul_lt_mono_pos_r by lia; lia.
Qed.

(** ** Retargeting *)

(** What an implementation of HeaderCtx promises: heights count the headers
    below, and the relative ancestor is the one that many parents away. *)
Fixpoint back {N} `{HeaderCtx N} (d : nat) (n : N) : option N :=
  match d with
  | O => Some n
  | S d => p ← Parent n; back d p
  end.

Class HeaderLaws (N : Type) `{HeaderCtx N} : Prop := {
  height_nonneg n : 0 <= Height n;
  height_parent n p : Parent n = Some p -> Height n = Height p + 1;
  height_root n : Parent n = None -> Height n = 0;
  relative_back n d : 0 <= d <= Height n -> RelativeAncestorCtx n d = back (Z.to_nat d) n;
  timestamp_range n : 0 <= Timestamp n < 2 ^ 32;
}.

(** The limits of a network. *)
Record ctx_ok (c : ChainCtx) : Prop := {
  ok_blocks : 0 < BlocksPerRetarget c < 2 ^ 31;
  ok_span : 0 < Z.quot (TargetTimespan (ChainParams c)) Second;
  ok_min : 0 < MinRetargetTimespan c <= MaxRetargetTimespan c;
  ok_limit : 0 < PowLimit (ChainParams c) < 2 ^ 256;
  ok_reduction : 0 <= Z.quot (MinDiffReductionTime (ChainParams c)) Second < 2 ^ 62;
}.

Section Laws.
Context {N : Type} `{HL : HeaderLaws N}.

Lemma back_height d : forall n : N, Z.of_nat d <= Height n ->
  exists m, back d n = Some m /\ Height m = Height n - Z.of_nat d.
Proof using HL.
  induction d as [|d IH]; intros n Hd; [exists n; split; [done|lia]|]. cbn [back].
  destruct (Parent n) as [p|] eqn:Hp.
  - apply height_parent in Hp. destruct (IH p) as (m & Hm & Hh); [lia|]. exists m. split; [done|lia].
  - apply height_root in Hp. lia.
Qed.

(** A block that only has the minimum difficulty because of its delay. *)
Definition special (c : ChainCtx) (n : N) : Prop :=
  Height n mod BlocksPerRetarget c <> 0 /\ Bits n = PowLimitBits (ChainParams c).

Lemma atRetarget_spec c height : 0 < BlocksPerRetarget c -> 0 <= height ->
  atRetarget height c = Ok (height mod BlocksPerRetarget c =? 0).
Proof using. intros Hb Hh. unfold atRetarget. rewrite (proj2 (Z.eqb_neq _ _)) by lia. by rewrite Z.rem_mod_nonneg by lia. Qed.

Lemma prevTestNetLoop_spec c : 0 < BlocksPerRetarget c -> forall fuel n, Height n < Z.of_nat fuel ->
  exists k m, prevTestNetLoop fuel (Some n) c = Ok (Some m) /\ back k n = Some m /\ ~ special c m /\
    forall j q, (j < k)%nat -> back j n = Some q -> special c q.
Proof using HL.
  intros Hb fuel. induction fuel as [|fuel IH]; intros n Hf; [pose proof (height_nonneg n); lia|].
  cbn [prevTestNetLoop]. rewrite atRetarget_spec, bind_Ok by (done || apply height_nonneg).
  destruct (Z.eqb_spec (Height n mod BlocksPerRetarget c) 0) as [Hr|Hr]; cbn [negb andb].
  - exists 0%nat, n. split_and!; [done|done|by intros [? _]|lia].
  - destruct (Z.eqb_spec (Bits n) (PowLimitBits (ChainParams c))) as [Hbits|Hbits].
    + destruct (Parent n) as [p|] eqn:Hp; [|apply height_root in Hp; rewrite Hp in Hr; by rewrite Z.mod_0_l in Hr by lia].
      pose proof (height_parent n p Hp). destruct (IH p) as (k & m & Hrun & Hback & Hm & Hall); [lia|].
      exists (S k), m. cbn [back]. rewrite Hp. split_and!; try done.
      intros [|j] q Hj; cbn [back]; [intros [= <-]; done|]. rewrite Hp. intros Hq. apply (Hall j); [lia|done].
    + exists 0%nat, n. split_and!; [done|done|by intros [_ ?]|lia].
Qed.

(** C28. The difficulty required after a header.  Away from a retarget height
    it is that of the header or, on networks with the reduction rule, the
    minimum after a delay and otherwise that of the nearest header that is
    not a minimum-difficulty one.  At a retarget height the first header of
    the period always exists.  The time of the period is clamped between the
    shortest and the longest that is allowed; the required target is at most
    the limit and at most the old target times that time over the desired
    one, and closer to that than one part in 2^15. *)
Theorem next_difficulty c last newBlockTime fuel
    (Hc : ctx_ok c) (Hnr : PoWNoRetargeting (ChainParams c) = false)
    (Hh : Height last + 1 < 2 ^ 31) (Hfuel : Height last < Z.of_nat fuel) :
  let run := calcNextRequiredDifficulty fuel (Some last) newBlockTime c in
  let params := ChainParams c in
  ((Height last + 1) mod BlocksPerRetarget c <> 0 ->
     if ReduceMinDifficulty params then
       if Timestamp last + Z.quot (MinDiffReductionTime params) Second <? newBlockTime
       then run = Ok (PowLimitBits params)
       else exists k m, run = Ok (Bits m) /\ back k last = Some m /\ ~ special c m /\
              forall j q, (j < k)%nat -> back j last = Some q -> special c q
     else run = Ok (Bits last)) /\
  ((Height last + 1) mod BlocksPerRetarget c = 0 -> 0 < CompactToBig (Bits last) ->
     exists first, back (Z.to_nat (BlocksPerRetarget c - 1)) last = Some first /\
       let adjusted := Z.max (MinRetargetTimespan c) (Z.min (MaxRetargetTimespan c) (Timestamp last - Timestamp first)) in
       let wanted := Z.min (PowLimit params)
                       (CompactToBig (Bits last) * adjusted / Z.quot (TargetTimespan params) Second) in
       (wanted = 0 -> run = Ok 0) /\
       (0 < wanted -> exists bits, run = Ok bits /\
          0 < CompactToBig bits <= wanted /\ (wanted - CompactToBig bits) * 2 ^ 15 < CompactToBig bits)).
Proof using HL.
  intros run params. unfold run, calcNextRequiredDifficulty. fold params. unfold params in *. clear run params.
  destruct Hc as [Hblocks Hspan Hmin Hlimit Hred]. pose proof (height_nonneg last) as Hpos.
  rewrite Hnr, (i32_small (Height last + 1)) by lia. rewrite atRetarget_spec, bind_Ok by lia. split.
  - intros Hoff. rewrite (proj2 (Z.eqb_neq _ _)) by done. cbn [negb].
    destruct (ReduceMinDifficulty (ChainParams c)); [|done]. pose proof (timestamp_range last).
    rewrite i64_small by lia. destruct (_ <? newBlockTime); [done|]. unfold findPrevTestNetDifficulty.
    destruct (prevTestNetLoop_spec c ltac:(lia) fuel last Hfuel) as (k & m & -> & Hrest). rewrite bind_Ok. by exists k, m.
  - intros Hat Hold. rewrite Hat. change (0 =? 0) with true. cbn [negb]. rewrite (i32_small (BlocksPerRetarget c - 1)) by lia.
    assert (Hge : BlocksPerRetarget c - 1 <= Height last).
    { apply Z.mod_divide in Hat as [q Hq]; [|lia]. assert (0 < q) by nia. nia. }
    rewrite relative_back by lia.
    destruct (back_height (Z.to_nat (BlocksPerRetarget c - 1)) last) as (first & Hfirst & _); [lia|].
    rewrite Hfirst. pose proof (timestamp_range last). pose proof (timestamp_range first). rewrite i64_small by lia.
    set (actual := Timestamp last - Timestamp first). exists first. split; [done|]. cbn zeta. fold actual.
    assert (Hadj : adjustTimespan c actual = Z.max (MinRetargetTimespan c) (Z.min (MaxRetargetTimespan c) actual))
      by (unfold adjustTimespan; destruct (Z.ltb_spec actual (MinRetargetTimespan c)); [lia|];
          destruct (Z.ltb_spec (MaxRetargetTimespan c) actual); lia).
    rewrite <- Hadj.
    set (span := Z.quot (TargetTimespan (ChainParams c)) Second) in *. unfold bigDiv.
    rewrite (proj2 (Z.eqb_neq span 0)), Z.sgn_pos, Z.abs_eq, Z.mul_1_l, bind_Ok by lia.
    set (target := CompactToBig (Bits last) * adjustTimespan c actual / span).
    assert (Hw : (if PowLimit (ChainParams c) <? target then PowLimit (ChainParams c) else target)
                 = Z.min (PowLimit (ChainParams c)) target) by (destruct (Z.ltb_spec (PowLimit (ChainParams c)) target); lia).
    rewrite Hw. set (wanted := Z.min (PowLimit (ChainParams c)) target). split; [by intros ->|]. intros Hwp.
    destruct (compact_roundtrip wanted Hwp) as (bits & Hbits & _ & Hle & Hclose & _); [|by exists bits].
    apply (Z.lt_trans _ (2 ^ 256)); [unfold wanted; lia|]. apply Z.pow_lt_mono_r; lia.
Qed.

(** On the network of this repository the reduction rule holds with no
    delay: away from the first block of a period of 2016, a block whose time
    is any later than that of its parent needs no more than the minimum
    difficulty, whatever the work of the chain before it. *)
Theorem freshnet_min_difficulty (last : N) newBlockTime fuel :
  Height last + 1 < 2 ^ 31 -> (Height last + 1) mod 2016 <> 0 -> Timestamp last < newBlockTime ->
  exists c, newChainCtx FreshNetParams = Ok c /\
    calcNextRequiredDifficulty fuel (Some last) newBlockTime c = Ok (PowLimitBits FreshNetParams) /\
    PowLimit FreshNetParams / 2 ^ 208 * 2 ^ 208 = CompactToBig (PowLimitBits FreshNetParams).
Proof using HL.
  intros Hh Hoff Hlt. exists (mkChainCtx FreshNetParams 2016 302400 4838400). split; [by vm_compute|]. split; [|by vm_compute].
  pose proof (height_nonneg last). pose proof (timestamp_range last). unfold calcNextRequiredDifficulty.
  cbn [ChainParams PoWNoRetargeting FreshNetParams]. rewrite (i32_small (Height last + 1)) by lia.
  rewrite atRetarget_spec by (cbn; lia). cbn [BlocksPerRetarget]. rewrite bind_Ok, (proj2 (Z.eqb_neq _ _)) by done.
  cbn [negb ReduceMinDifficulty MinDiffReductionTime PowLimitBits]. change (Z.quot 0 Second) with 0.
  rewrite Z.add_0_r, i64_small by lia. by rewrite (proj2 (Z.ltb_lt _ _)) by done.
Qed.

End Laws.

(** ** Concrete instances: the main network *)
Module Toy.

Definition mainParams : Params :=
  mkParams (2 ^ 224 - 1) 0x1d00ffff false 227931 388381 363725 100 210000 (14 * 24 * 3600 * Second)
    (600 * Second) 4 false 0 1916 2016.
Definition mainCtx : ChainCtx :=
  match newChainCtx mainParams with Ok c => c | _ => mkChainCtx mainParams 1 1 1 end.

Example main_ctx : newChainCtx mainParams = Ok (mkChainCtx mainParams 2016 302400 4838400).
Proof. reflexivity. Qed.

Lemma main_ok : ctx_ok mainCtx.
Proof. split; vm_compute; done. Qed.

(** A chain with a header every 500 seconds, at the limit. *)
#[local] Instance line : HeaderCtx nat := {|
  Height := Z.of_nat;
  Bits n := 0x1d00ffff;
  Timestamp n := (Z.of_nat n * 500) mod 2 ^ 32;
  Parent n := match n with O => None | S n => Some n end;
  RelativeAncestorCtx n d := if d <=? Z.of_nat n then Some (n - Z.to_nat d)%nat else None;
|}.

Lemma line_back d : forall n, (d <= n)%nat -> back d n = Some (n - d)%nat.
Proof.
  induction d as [|d IH]; intros n Hd; cbn [back]; [by rewrite Nat.sub_0_r|].
  destruct n as [|n]; [lia|]. cbn. apply IH. lia.
Qed.

#[local] Instance line_laws : HeaderLaws nat.
Proof.
  split; cbn.
  - lia.
  - intros [|n] p [= ->]. lia.
  - by intros [|n].
  - intros n d Hd. rewrite (proj2 (Z.leb_le _ _)) by lia. symmetry. apply line_back. lia.
  - intros n. apply Z.mod_pos_bound. lia.
Qed.

Lemma compact_roundtrip_witness : BigToCompact (CompactToBig 0x1d00ffff) = Ok 0x1d00ffff.
Proof.
  destruct (compact_roundtrip (2 ^ 224 - 1)) as (c & Hc & _ & _ & _ & Hround); [by vm_compute|by vm_compute|].
  change (BigToCompact (2 ^ 224 - 1)) with (@Ok RuleError Z 0x1d00ffff) in Hc. injection Hc as <-. exact Hround.
Defined.

Import SigHash.Toy.
#[local] Existing Instance toy_hashes.

Definition header : BlockHeader := mkBlockHeader 1 zeroHash zeroHash 0 0x1d00ffff 7.

Lemma checkProofOfWork_iff_witness : checkProofOfWork header (2 ^ 224 - 1) BFNoPoWCheck = Ok ().
Proof.
  apply (checkProofOfWork_iff header (2 ^ 224 - 1) BFNoPoWCheck); [by vm_compute|].
  split; [by vm_compute|left; reflexivity].
Defined.

(** The first retarget: 2015 intervals of 500 seconds, five sixths of the
    desired time, give five sixths of the target, rounded. *)
Lemma next_difficulty_witness :
  exists bits, calcNextRequiredDifficulty 2016 (Some 2015%nat) 1007500 mainCtx = Ok bits /\
    0 < CompactToBig bits <= CompactToBig 0x1d00ffff * 1007500 / 1209600.
Proof.
  destruct (next_difficulty mainCtx 2015%nat 1007500 2016) as [_ Hat];
    [exact main_ok|reflexivity|by vm_compute|by vm_compute|].
  destruct Hat as (first & Hback & Hrun); [reflexivity|by vm_compute|].
  rewrite line_back in Hback by (vm_compute; lia). injection Hback as <-. cbn zeta in Hrun.
  assert (Hadj : Z.max (MinRetargetTimespan mainCtx) (Z.min (MaxRetargetTimespan mainCtx)
    (Timestamp 2015%nat - Timestamp 0%nat)) = 1007500) by by vm_compute.
  rewrite Hadj in Hrun. destruct Hrun as [_ Hrun]. destruct Hrun as (bits & Hb & Hle & _); [by vm_compute|].
  exists bits. split; [exact Hb|]. split; [apply Hle|].
  etransitivity; [apply Hle|]. by vm_compute.
Defined.

(** A millionth block one second after its parent. *)
Lemma freshnet_min_difficulty_witness :
  exists c, newChainCtx FreshNetParams = Ok c /\
    calcNextRequiredDifficulty 1 (Some 1000000%nat) 500000001 c = Ok 0x1d00ffff.
Proof.
  destruct (freshnet_min_difficulty 1000000%nat 500000001 1) as (c & Hc & Hrun & _);
    [by vm_compute|by vm_compute|by vm_compute|].
  exists c. split; [exact Hc|exact Hrun].
Defined.

End Toy.
End Difficulty.
