(* ===== verification/Chain.v ===== *)
(** * Block nodes

    Models the block nodes of coin/OrcaNet/blockchain/blockindex.go with
    their skip pointers and the median of the past times.  A node is
    immutable once built, so a pointer to a node is the node: two pointers
    are equal when the nodes are, which the block index ensures by building
    one node for each header.  The status field, which is mutable, belongs to
    the index and is not part of the node.

    The theorems: following the skip pointers is following the parents, the
    nodes that the code builds are well formed and keep their header, they
    implement the interface of the difficulty calculation, and the median of
    the past times never decreases along a chain. *)

From stdpp Require Import sorting.
From S2P Require Import Prelude Wire SigHash Merkle Difficulty.

Module Chain.
Import Wire SigHash Merkle Difficulty.

(** ** Block nodes *)
Inductive blockNode := mkNode {
  parent : option blockNode;
  ancestor : option blockNode;
  hash : list Z;
  workSum : Z;
  height : Z;
  version : Z;
  bits : Z;
  nonce : Z;
  timestamp : Z;
  merkleRoot : list Z;
}.

Lemma node_ind (P : blockNode -> Prop) :
  (forall n, (forall p, parent n = Some p -> P p) -> (forall a, ancestor n = Some a -> P a) -> P n) ->
  forall n, P n.
Proof.
  intros Hstep. fix go 1. intros [p a h w k v b o t r]. apply Hstep; cbn.
  - destruct p as [p|]; intros q Hq; [injection Hq as <-; apply go|discriminate].
  - destruct a as [a|]; intros q Hq; [injection Hq as <-; apply go|discriminate].
Qed.

(** Equality of pointers. *)
Fixpoint sameNode (x y : blockNode) {struct x} : bool :=
  let same := fun (p q : option blockNode) (f : blockNode -> bool) =>
    match q with Some m => f m | None => false end in
  bool_decide ((hash x, workSum x, height x, version x, bits x, nonce x, timestamp x, merkleRoot x)
               = (hash y, workSum y, height y, version y, bits y, nonce y, timestamp y, merkleRoot y))
  && match x with
     | mkNode p a _ _ _ _ _ _ _ _ =>
         match p, parent y with
         | Some n, Some m => sameNode n m
         | None, None => true
         | _, _ => false
         end
         && match a, ancestor y with
            | Some n, Some m => sameNode n m
            | None, None => true
            | _, _ => false
            end
     end.

Lemma sameNode_spec x : forall y, sameNode x y = true <-> x = y.
Proof.
  induction x as [x IHp IHa] using node_ind. intros y.
  destruct x as [p a h w k v b o t r], y as [p' a' h' w' k' v' b' o' t' r']. cbn in *.
  rewrite !andb_true_iff, bool_decide_eq_true.
  assert (Hp : (match p, p' with Some n, Some m => sameNode n m | None, None => true | _, _ => false end) = true <-> p = p').
  { destruct p as [n|], p' as [m|]; try done. rewrite IHp by done. split; congruence. }
  assert (Ha : (match a, a' with Some n, Some m => sameNode n m | None, None => true | _, _ => false end) = true <-> a = a').
  { destruct a as [n|], a' as [m|]; try done. rewrite IHa by done. split; congruence. }
  rewrite Hp, Ha. split; [intros [[= -> -> -> -> -> -> -> ->] [-> ->]]; done|intros [= -> -> -> -> -> -> -> -> -> ->]; done].
Qed.

#[export] Instance blockNode_eq_dec : EqDecision blockNode.
Proof.
  intros x y. destruct (sameNode x y) eqn:Hs; [left; by apply sameNode_spec|].
  right. intros Heq%sameNode_spec. congruence.
Defined.

Definition invertLowestOne (n : Z) : Z := Z.land n (i32 (n - 1)).
Definition getAncestorHeight (height : Z) : Z := invertLowestOne (invertLowestOne height).

(** The loop of Ancestor: skip when the skip does not pass the height. *)
Fixpoint ancestorLoop (n : blockNode) (target : Z) {struct n} : option blockNode :=
  match n with
  | mkNode parent ancestor _ _ height _ _ _ _ _ =>
      if height =? target then Some n
      else
        let viaParent := match parent with Some p => ancestorLoop p target | None => None end in
        match ancestor with
        | Some a => if target <=? getAncestorHeight height then ancestorLoop a target else viaParent
        | None => viaParent
        end
  end.

Definition Ancestor (node : blockNode) (target : Z) : option blockNode :=
  if (target <? 0) || (height node <? target) then None else ancestorLoop node target.

Definition RelativeAncestor (node : blockNode) (distance : Z) : option blockNode :=
  Ancestor node (i32 (height node - distance)).

Section Hash.
Context {H : Hashes}.

(** initBlockNode and newBlockNode, with buildAncestor. *)
Definition newBlockNode (header : BlockHeader) (p : option blockNode) : blockNode :=
  let h := match p with Some q => i32 (height q + 1) | None => 0 end in
  let work := CalcWork (Wire.Bits header) in
  mkNode p (match p with Some q => Ancestor q (getAncestorHeight h) | None => None end)
    (BlockHash header) (match p with Some q => workSum q + work | None => work end) h (bh_Version header)
    (Wire.Bits header) (Nonce header) (Wire.Timestamp header) (MerkleRoot header).

Definition Header (node : blockNode) : BlockHeader :=
  mkBlockHeader (version node) (match parent node with Some p => hash p | None => zeroHash end)
    (merkleRoot node) (timestamp node) (bits node) (nonce node).

End Hash.

(** ** The median of the past times *)
Definition medianTimeBlocks : nat := 11.

Fixpoint pastTimestamps (i : nat) (iterNode : option blockNode) : list Z :=
  match i, iterNode with
  | S i, Some n => timestamp n :: pastTimestamps i (parent n)
  | _, _ => []
  end.

(** sort.Sort by value. *)
Definition sortTimes : list Z -> list Z := merge_sort Z.le.

Definition CalcPastMedianTime (node : blockNode) : outcome RuleError Z :=
  let timestamps := pastTimestamps medianTimeBlocks (Some node) in
  index (sortTimes timestamps) (Zlen timestamps / 2).

(** ** Well-formed nodes *)

(** The height, the skip pointer and the work are what initBlockNode sets. *)
Fixpoint wfb (n : blockNode) : bool :=
  match n with
  | mkNode p a _ w h _ b _ t _ =>
      (0 <=? t) && (t <? 2 ^ 32) && (0 <=? h) && (h <? 2 ^ 31)
      && match p with
         | None => (h =? 0) && bool_decide (a = None) && (w =? CalcWork b)
         | Some q => wfb q && (h =? height q + 1) && bool_decide (a = Ancestor q (getAncestorHeight h))
                     && (w =? workSum q + CalcWork b)
         end
  end.

Abbreviation wf n := (wfb n = true).

Lemma wf_unfold n : wf n <->
  0 <= timestamp n < 2 ^ 32 /\ 0 <= height n < 2 ^ 31 /\
  match parent n with
  | None => height n = 0 /\ ancestor n = None /\ workSum n = CalcWork (bits n)
  | Some q => wf q /\ height n = height q + 1 /\ ancestor n = Ancestor q (getAncestorHeight (height n)) /\
              workSum n = workSum q + CalcWork (bits n)
  end.
Proof.
  destruct n as [[q|] a hs w h v b o t r]; cbn [wfb timestamp height parent ancestor workSum bits];
    rewrite !andb_true_iff, !Z.leb_le, !Z.ltb_lt, ?Z.eqb_eq, bool_decide_eq_true; naive_solver lia.
Qed.

Lemma wf_height n : wf n -> 0 <= height n < 2 ^ 31.
Proof. by intros (_ & ? & _)%wf_unfold. Qed.
Lemma wf_parent n p : wf n -> parent n = Some p -> wf p /\ height n = height p + 1.
Proof. intros (_ & _ & Hp)%wf_unfold Heq. rewrite Heq in Hp. naive_solver. Qed.
Lemma wf_root n : wf n -> parent n = None -> height n = 0.
Proof. intros (_ & _ & Hp)%wf_unfold Heq. rewrite Heq in Hp. naive_solver. Qed.
Lemma wf_skip n p : wf n -> parent n = Some p -> ancestor n = Ancestor p (getAncestorHeight (height n)).
Proof. intros (_ & _ & Hp)%wf_unfold Heq. rewrite Heq in Hp. naive_solver. Qed.

Lemma land_le a b : 0 <= a -> 0 <= b -> 0 <= Z.land a b <= b.
Proof.
  intros Ha Hb. split; [by apply Z.land_nonneg; right|].
  replace b with (Z.land a b + Z.ldiff b a) at 2.
  - pose proof (proj2 (Z.ldiff_nonneg b a) (or_intror Hb)) as Hd || pose proof (proj2 (Z.ldiff_nonneg b a) (or_introl Hb)) as Hd. lia.
  - rewrite Z.add_nocarry_lxor.
    + apply Z.bits_inj'. intros i Hi. rewrite Z.lxor_spec, Z.land_spec, Z.ldiff_spec.
      by destruct (Z.testbit a i), (Z.testbit b i).
    + apply Z.bits_inj'. intros i Hi. rewrite !Z.land_spec, Z.ldiff_spec, Z.bits_0.
      by destruct (Z.testbit a i), (Z.testbit b i).
Qed.

Lemma invertLowestOne_range n : 0 <= n < 2 ^ 31 -> 0 <= invertLowestOne n <= Z.max 0 (n - 1).
Proof.
  intros Hn. unfold invertLowestOne. rewrite i32_small by lia. destruct (Z.eq_dec n 0) as [->|Hz]; [done|].
  pose proof (land_le n (n - 1) ltac:(lia) ltac:(lia)). lia.
Qed.

Lemma getAncestorHeight_range h : 1 <= h < 2 ^ 31 -> 0 <= getAncestorHeight h < h.
Proof.
  intros Hh. unfold getAncestorHeight. pose proof (invertLowestOne_range h ltac:(lia)).
  pose proof (invertLowestOne_range (invertLowestOne h) ltac:(lia)). lia.
Qed.

(** The node that many parents up. *)
Fixpoint up (d : nat) (n : blockNode) : option blockNode :=
  match d with
  | O => Some n
  | S d => p ← parent n; up d p
  end.

Lemma up_add d e n m : up d n = Some m -> up (d + e) n = up e m.
Proof.
  revert n. induction d as [|d IH]; intros n; cbn [up Nat.add]; [by intros [= ->]|].
  destruct (parent n) as [p|]; [apply IH|done].
Qed.

Lemma up_ok d : forall n, wf n -> Z.of_nat d <= height n ->
  exists m, up d n = Some m /\ wf m /\ height m = height n - Z.of_nat d.
Proof.
  induction d as [|d IH]; intros n Hn Hd; [exists n; split_and!; [done|done|lia]|]. cbn [up].
  destruct (parent n) as [p|] eqn:Hp.
  - destruct (wf_parent n p Hn Hp) as [Hwp Hhp]. destruct (IH p Hwp) as (m & Hm & Hwm & Hh); [lia|].
    exists m. split_and!; [done|done|lia].
  - pose proof (wf_root n Hn Hp). lia.
Qed.

Lemma ancestorLoop_up n : forall target, wf n -> 0 <= target <= height n ->
  ancestorLoop n target = up (Z.to_nat (height n - target)) n.
Proof.
  induction n as [n IHp IHa] using node_ind. intros target Hn Ht.
  assert (Hunf : ancestorLoop n target =
    if height n =? target then Some n
    else let viaParent := match parent n with Some p => ancestorLoop p target | None => None end in
         match ancestor n with
         | Some a => if target <=? getAncestorHeight (height n) then ancestorLoop a target else viaParent
         | None => viaParent
         end) by (by destruct n). rewrite Hunf. clear Hunf.
  destruct (Z.eqb_spec (height n) target) as [<-|Hne]; [by rewrite Z.sub_diag|]. cbv zeta.
  destruct (parent n) as [p|] eqn:Hp; [|pose proof (wf_root n Hn Hp); lia].
  destruct (wf_parent n p Hn Hp) as [Hwp Hhp].
  assert (Hvia : forall t, 0 <= t <= height p -> ancestorLoop p t = up (Z.to_nat (height p - t)) p)
    by (intros t Ht'; by apply IHp).
  assert (Hup : up (Z.to_nat (height n - target)) n = up (Z.to_nat (height p - target)) p).
  { replace (Z.to_nat (height n - target)) with (S (Z.to_nat (height p - target))) by lia. cbn [up]. by rewrite Hp. }
  rewrite Hup. destruct (ancestor n) as [a|] eqn:Ha; [|by apply Hvia; lia].
  destruct (Z.leb_spec target (getAncestorHeight (height n))) as [Hskip|]; [|by apply Hvia; lia].
  pose proof (wf_height n Hn). pose proof (getAncestorHeight_range (height n) ltac:(lia)) as Hg.
  set (g := getAncestorHeight (height n)) in *.
  rewrite (wf_skip n p Hn Hp) in Ha. fold g in Ha. unfold Ancestor in Ha.
  rewrite (proj2 (Z.ltb_ge g 0)), (proj2 (Z.ltb_ge (height p) g)) in Ha by lia. cbn [orb] in Ha. rewrite Hvia in Ha by lia.
  destruct (up_ok (Z.to_nat (height p - g)) p Hwp) as (m & Hm & Hwm & Hhm); [lia|].
  rewrite Hm in Ha. injection Ha as ->. rewrite (IHa a) by (try done; try lia; rewrite (wf_skip n p Hn Hp); fold g;
    unfold Ancestor; rewrite (proj2 (Z.ltb_ge g 0)), (proj2 (Z.ltb_ge (height p) g)) by lia; cbn [orb]; by rewrite Hvia by lia).
  rewrite <- (up_add _ _ _ _ Hm). f_equal. lia.
Qed.

(** Following the skip pointers is following the parents. *)
Lemma Ancestor_up n target : wf n ->
  Ancestor n target = if (0 <=? target) && (target <=? height n) then up (Z.to_nat (height n - target)) n else None.
Proof.
  intros Hn. unfold Ancestor. destruct (Z.ltb_spec target 0), (Z.ltb_spec (height n) target), (Z.leb_spec 0 target),
    (Z.leb_spec target (height n)); cbn [orb andb]; try lia; try done. by apply ancestorLoop_up.
Qed.

(** ** The chain below a node *)

(** The nodes from the genesis node to this one. *)
Fixpoint chain (n : blockNode) : list blockNode :=
  match n with
  | mkNode p _ _ _ _ _ _ _ _ _ => match p with Some q => chain q | None => [] end ++ [n]
  end.

Lemma chain_unfold n : chain n = match parent n with Some q => chain q | None => [] end ++ [n].
Proof. by destruct n. Qed.

Lemma chain_length n : wf n -> Zlen (chain n) = height n + 1.
Proof.
  induction n as [n IH _] using node_ind. intros Hn. rewrite chain_unfold, Zlen_app. change (Zlen [n]) with 1.
  destruct (parent n) as [p|] eqn:Hp.
  - destruct (wf_parent n p Hn Hp) as [Hwp Hh]. rewrite IH by done. lia.
  - rewrite (wf_root n Hn Hp). done.
Qed.

Lemma chain_length_nat n : wf n -> length (chain n) = S (Z.to_nat (height n)).
Proof. intros Hn. pose proof (chain_length n Hn). pose proof (wf_height n Hn). unfold Zlen in *. lia. Qed.

(** A node of the chain of [n] heads a prefix of it. *)
Lemma chain_lookup n i m : wf n -> chain n !! i = Some m ->
  wf m /\ height m = Z.of_nat i /\ take (S i) (chain n) = chain m.
Proof.
  induction n as [n IH _] using node_ind. intros Hn Hi. pose proof (chain_length_nat n Hn) as Hl.
  rewrite chain_unfold in Hi. apply lookup_app_Some in Hi as [Hi|[Hi Hm]].
  - destruct (parent n) as [p|] eqn:Hp; [|done]. destruct (wf_parent n p Hn Hp) as [Hwp Hh].
    destruct (IH p eq_refl Hwp Hi) as (Hwm & Hhm & Htake). split_and!; try done.
    rewrite chain_unfold, Hp, take_app_le; [done|]. apply lookup_lt_Some in Hi. lia.
  - apply list_lookup_singleton_Some in Hm as [Hj <-]. rewrite chain_unfold, length_app in Hl. cbn in Hl.
    pose proof (wf_height n Hn). split_and!; [done|lia|]. apply take_ge. rewrite chain_length_nat by done. lia.
Qed.

Lemma chain_self n : wf n -> chain n !! Z.to_nat (height n) = Some n.
Proof.
  intros Hn. pose proof (chain_length_nat n Hn) as Hl. rewrite chain_unfold in *. rewrite length_app in Hl. cbn in Hl.
  rewrite lookup_app_r by lia. by replace (_ - _)%nat with 0%nat by lia.
Qed.

Lemma chain_mem n m : wf n -> m ∈ chain n <-> chain n !! Z.to_nat (height m) = Some m.
Proof.
  intros Hn. split; [|apply list_elem_of_lookup_2].
  intros [i Hi]%list_elem_of_lookup. destruct (chain_lookup n i m Hn Hi) as (_ & -> & _). by rewrite Nat2Z.id.
Qed.

Lemma chain_sub n m : wf n -> m ∈ chain n -> wf m /\ chain m `prefix_of` chain n.
Proof.
  intros Hn [i Hi]%list_elem_of_lookup. destruct (chain_lookup n i m Hn Hi) as (Hwm & _ & <-).
  split; [done|apply prefix_take].
Qed.

(** The node that many parents up stands that much lower in the chain. *)
Lemma up_chain d : forall n, wf n -> Z.of_nat d <= height n ->
  up d n = chain n !! Z.to_nat (height n - Z.of_nat d).
Proof.
  induction d as [|d IH]; intros n Hn Hd; cbn [up]; [by rewrite Z.sub_0_r, chain_self|].
  rewrite (chain_unfold n). destruct (parent n) as [p|] eqn:Hp.
  - destruct (wf_parent n p Hn Hp) as [Hwp Hh]. transitivity (up d p); [done|]. rewrite IH by (done || lia).
    rewrite lookup_app_l by (rewrite chain_length_nat by done; lia). f_equal. lia.
  - pose proof (wf_root n Hn Hp). lia.
Qed.

(** ** Nodes that the code builds *)

(** The block index builds a node for the genesis header and then nodes over
    nodes it has built, below the highest 32-bit height. *)
Definition header_ok (h : BlockHeader) : Prop := 0 <= Wire.Timestamp h < 2 ^ 32.

Inductive built {H : Hashes} : blockNode -> Prop :=
| built_genesis h : header_ok h -> PrevBlock h = zeroHash -> built (newBlockNode h None)
| built_child h p : header_ok h -> built p -> height p < 2 ^ 31 - 1 -> PrevBlock h = hash p ->
    built (newBlockNode h (Some p)).

Section Built.
Context {H : Hashes}.

Lemma newBlockNode_wf header p : header_ok header ->
  match p with Some q => wf q /\ height q < 2 ^ 31 - 1 | None => True end -> wf (newBlockNode header p).
Proof using.
  intros Hok Hp. apply wf_unfold. cbn. split; [done|]. destruct p as [q|]; cbn.
  - destruct Hp as [Hq Hlt]. pose proof (wf_height q Hq). rewrite i32_small by lia. split; [lia|done].
  - split; [lia|done].
Qed.

Lemma built_wf n : built n -> wf n.
Proof using. by induction 1; apply newBlockNode_wf. Qed.

Lemma newBlockNode_Header header p :
  PrevBlock header = match p with Some q => hash q | None => zeroHash end -> Header (newBlockNode header p) = header.
Proof using. intros Hp. destruct header; cbn in *. unfold Header. cbn. by rewrite Hp. Qed.

Lemma work_app (l l' : list Z) : foldr Z.add 0 (l ++ l') = foldr Z.add 0 l + foldr Z.add 0 l'.
Proof using. induction l as [|x l IH]; cbn; [by rewrite Z.add_0_l|]. rewrite IH. lia. Qed.

Lemma workSum_chain n : wf n -> workSum n = foldr Z.add 0 (CalcWork ∘ bits <$> chain n).
Proof using.
  induction n as [n IH _] using node_ind. intros Hn. rewrite chain_unfold, fmap_app, work_app.
  pose proof Hn as (_ & _ & Hw)%wf_unfold. destruct (parent n) as [p|] eqn:Hp.
  - destruct Hw as (Hwp & _ & _ & ->). rewrite <- IH by done. cbn. lia.
  - destruct Hw as (_ & _ & ->). cbn. lia.
Qed.

Lemma hash_built n : built n -> hash n = BlockHash (Header n).
Proof using. intros Hb. destruct Hb; by rewrite newBlockNode_Header. Qed.

(** The skip pointers agree with the parents: on every node that the
    code builds, the node found at a height is the one at that position of
    the chain of parents, and there is none outside it; the height counts
    that chain, the work is the sum of the work of its blocks, and the header
    that a node returns hashes to the hash it holds. *)
Theorem Ancestor_is_parent_walk n (Hn : built n) :
  (forall target, Ancestor n target =
     if (0 <=? target) && (target <=? height n) then chain n !! Z.to_nat target else None) /\
  Zlen (chain n) = height n + 1 /\
  workSum n = foldr Z.add 0 (CalcWork ∘ bits <$> chain n) /\
  hash n = BlockHash (Header n).
Proof using.
  pose proof (built_wf n Hn) as Hw. split_and!; [|by apply chain_length|by apply workSum_chain|by apply hash_built].
  intros target. rewrite Ancestor_up by done.
  destruct (Z.leb_spec 0 target), (Z.leb_spec target (height n)); cbn [andb]; try done.
  rewrite up_chain by (done || lia). f_equal. lia.
Qed.

End Built.

(** ** The interface of the difficulty calculation *)

Definition goodNode : Type := { n : blockNode | wfb n = true }.

Definition toGood (n : option blockNode) : (forall m, n = Some m -> wf m) -> option goodNode :=
  match n with
  | Some m => fun Hn => Some (exist _ m (Hn m eq_refl))
  | None => fun _ => None
  end.

Lemma good_parent (n : goodNode) m : parent (`n) = Some m -> wf m.
Proof. destruct n as [n Hn]. cbn. intros Hm. by destruct (wf_parent n m Hn Hm). Qed.

Lemma good_relative (n : goodNode) d m : RelativeAncestor (`n) d = Some m -> wf m.
Proof.
  destruct n as [n Hn]. cbn. unfold RelativeAncestor. rewrite Ancestor_up by done.
  destruct (Z.leb_spec 0 (i32 (height n - d))), (Z.leb_spec (i32 (height n - d)) (height n)); try done. cbn [andb].
  destruct (up_ok (Z.to_nat (height n - i32 (height n - d))) n Hn) as (q & -> & Hq & _); [lia|]. by intros [= <-].
Qed.

#[export] Instance node_ctx : HeaderCtx goodNode := {|
  Difficulty.Height n := height (`n);
  Difficulty.Bits n := bits (`n);
  Difficulty.Timestamp n := timestamp (`n);
  Difficulty.Parent n := toGood (parent (`n)) (good_parent n);
  Difficulty.RelativeAncestorCtx n d := toGood (RelativeAncestor (`n) d) (good_relative n d);
|}.

Lemma toGood_proj n Hn : proj1_sig <$> toGood n Hn = n.
Proof. by destruct n. Qed.

Lemma good_eq (a b : goodNode) : `a = `b -> a = b.
Proof. apply (sig_eq_pi (fun n => wfb n = true)). Qed.

Lemma good_option_eq (a b : option goodNode) : proj1_sig <$> a = proj1_sig <$> b -> a = b.
Proof. destruct a, b; cbn; try done. intros [= Heq]. f_equal. by apply good_eq. Qed.

Lemma back_up d : forall n : goodNode, proj1_sig <$> back d n = up d (`n).
Proof.
  induction d as [|d IH]; intros [n Hn]; [done|]. cbn [back up]. cbn.
  pose proof (toGood_proj (parent n) (good_parent (exist _ n Hn))) as Hp.
  destruct (toGood (parent n) _) as [p|]; cbn in *; rewrite <- Hp; [apply IH|done].
Qed.

#[export] Instance node_laws : HeaderLaws goodNode.
Proof.
  split.
  - intros [n Hn]. cbn. pose proof (wf_height n Hn). lia.
  - intros [n Hn] [p Hp]. cbn. intros Heq. apply (f_equal (fmap proj1_sig)) in Heq.
    rewrite toGood_proj in Heq. by destruct (wf_parent n p Hn Heq).
  - intros [n Hn]. cbn. intros Heq. apply (f_equal (fmap proj1_sig)) in Heq.
    rewrite toGood_proj in Heq. by apply wf_root.
  - intros [n Hn] d. cbn. intros Hd. apply good_option_eq. rewrite back_up, toGood_proj. cbn.
    pose proof (wf_height n Hn). unfold RelativeAncestor. rewrite i32_small, Ancestor_up by (done || lia).
    rewrite !(proj2 (Z.leb_le _ _)) by lia. cbn [andb]. f_equal. lia.
  - intros [n Hn]. cbn. by apply wf_unfold in Hn as [? _].
Qed.

(** ** The median never decreases *)

(** How many entries lie below [m]. *)
Definition below (m : Z) (l : list Z) : nat := length (filter (fun x => (x < m)%Z) l).

Lemma below_cons m x l : below m (x :: l) = ((if decide (x < m)%Z then 1 else 0) + below m l)%nat.
Proof. unfold below. rewrite filter_cons. by destruct (decide (x < m)). Qed.

Lemma below_take m k l : (below m (take k l) <= below m l)%nat.
Proof.
  revert k. induction l as [|x l IH]; intros [|k]; cbn [take]; try (unfold below; cbn; lia).
  rewrite !below_cons. specialize (IH k). lia.
Qed.

Lemma below_none m l : (forall x, x ∈ l -> m <= x) -> below m l = 0%nat.
Proof.
  induction l as [|x l IH]; intros Hall; [done|]. rewrite below_cons, decide_False.
  - apply IH. intros y Hy. apply Hall. by right.
  - pose proof (Hall x ltac:(by left)). lia.
Qed.

(** In a sorted list the entry at [j] is at least [m] exactly when at most
    [j] entries lie below [m]. *)
Lemma sorted_at m l : StronglySorted Z.le l -> forall j v, l !! j = Some v -> m <= v <-> (below m l <= j)%nat.
Proof.
  induction 1 as [|x l Hl IH Hx]; intros j v Hj; [done|]. rewrite list.Forall_forall in Hx. rewrite below_cons.
  destruct j as [|j]; cbn in Hj; [injection Hj as <-; destruct (decide (x < m)); [lia|];
    rewrite below_none; [lia|]; intros y Hy; pose proof (Hx y Hy); lia|].
  pose proof (Hx v ltac:(by eapply list_elem_of_lookup_2)). specialize (IH j v Hj).
  destruct (decide (x < m)); [lia|]. split; [|lia]. intros _.
  rewrite below_none; [lia|]. intros y Hy. pose proof (Hx y Hy). lia.
Qed.

Lemma below_sort m l : below m (sortTimes l) = below m l.
Proof. unfold below, sortTimes. by rewrite merge_sort_Permutation. Qed.

Lemma sortTimes_sorted l : StronglySorted Z.le (sortTimes l).
Proof. apply (StronglySorted_merge_sort Z.le). Qed.

Lemma sortTimes_length l : length (sortTimes l) = length l.
Proof. unfold sortTimes. by rewrite merge_sort_Permutation. Qed.

(** The median of the code is above a value by the number of entries below. *)
Lemma median_spec n : exists v, CalcPastMedianTime n = Ok v /\
  let l := pastTimestamps medianTimeBlocks (Some n) in
  forall m, m <= v <-> (below m l <= length l / 2)%nat.
Proof.
  unfold CalcPastMedianTime. set (l := pastTimestamps medianTimeBlocks (Some n)).
  assert (Hl : (0 < length l)%nat) by (unfold l; cbn; lia). unfold Zlen.
  replace (Z.of_nat (length l) / 2) with (Z.of_nat (length l / 2)) by (by rewrite Nat2Z.inj_div).
  destruct (lookup_lt_is_Some_2 (sortTimes l) (length l / 2)) as [v Hv].
  { rewrite sortTimes_length. apply Nat.div_lt; lia. }
  exists v. split.
  - apply index_ok_iff. split; [lia|]. by rewrite Nat2Z.id.
  - intros m. rewrite <- (below_sort m l). apply sorted_at; [apply sortTimes_sorted|done].
Qed.

Lemma pastTimestamps_take k : forall j p, (j <= k)%nat -> pastTimestamps j p = take j (pastTimestamps k p).
Proof.
  induction k as [|k IH]; intros [|j] [p|] Hj; cbn [pastTimestamps take]; try done; try lia.
  f_equal. apply IH. lia.
Qed.

Lemma pastTimestamps_length k : forall p, (length (pastTimestamps k p) <= k)%nat.
Proof. induction k as [|k IH]; intros [p|]; cbn; try lia. specialize (IH (parent p)). lia. Qed.

(** One block: the window gains an entry above the old median, and loses the
    oldest one when it was full. *)
Lemma median_step n p m : parent n = Some p -> CalcPastMedianTime p = Ok m -> m < timestamp n ->
  exists m', CalcPastMedianTime n = Ok m' /\ m <= m'.
Proof.
  intros Hp Hm Hlt. destruct (median_spec n) as (v & Hv & Hn). exists v. split; [done|]. apply Hn.
  destruct (median_spec p) as (v' & Hv' & Hw). rewrite Hv' in Hm. injection Hm as ->.
  pose proof (proj1 (Hw m) ltac:(lia)) as Hmm. clear Hn Hw Hv Hv'.
  set (w := pastTimestamps medianTimeBlocks (Some p)) in *.
  assert (Hl : pastTimestamps medianTimeBlocks (Some n) = timestamp n :: take 10 w)
    by (change (timestamp n :: pastTimestamps 10 (parent n) = timestamp n :: take 10 w); rewrite Hp; f_equal;
        apply pastTimestamps_take; unfold medianTimeBlocks; lia).
  rewrite Hl, below_cons, decide_False by lia. cbn [length]. rewrite length_take.
  pose proof (below_take m 10 w) as Ht. pose proof (pastTimestamps_length medianTimeBlocks (Some p)) as Hk. fold w in Hk.
  unfold medianTimeBlocks in Hk. destruct (decide (length w <= 10)%nat).
  - rewrite Nat.min_r by lia. pose proof (Nat.Div0.div_le_mono (length w) (S (length w)) 2 ltac:(lia)). lia.
  - assert (length w = 11%nat) as Heq by lia. rewrite Heq in *. exact (Nat.le_trans _ _ _ Ht Hmm).
Qed.

(** On a chain whose blocks each have a time after the median of the
    times before them, as the header check of the code requires, the median
    never decreases: that of a node is at least that of every node below it,
    so that a lock time that the median has passed stays passed. *)
Theorem median_time_monotone n
    (Hrule : forall q p m, q ∈ chain n -> parent q = Some p -> CalcPastMedianTime p = Ok m -> m < timestamp q) :
  exists m, CalcPastMedianTime n = Ok m /\
    forall a, a ∈ chain n -> exists ma, CalcPastMedianTime a = Ok ma /\ ma <= m.
Proof.
  induction n as [n IH _] using node_ind. rewrite chain_unfold in *.
  destruct (parent n) as [p|] eqn:Hp.
  - destruct (IH p eq_refl) as (mp & Hmp & Hall).
    { intros q r m Hq. apply Hrule. apply elem_of_app. by left. }
    destruct (median_step n p mp Hp Hmp) as (m & Hm & Hle).
    { apply (Hrule n p mp); [apply elem_of_app; right; by left|done|done]. }
    exists m. split; [done|]. intros a [Ha| ->%list_elem_of_singleton]%elem_of_app; [|exists m; split; [done|lia]].
    destruct (Hall a Ha) as (ma & Hma & ?). exists ma. split; [done|lia].
  - destruct (median_spec n) as (m & Hm & _). exists m. split; [done|].
    intros a ->%list_elem_of_singleton. exists m. split; [done|lia].
Qed.

(** ** Concrete instances *)
Module Toy.
Import SigHash.Toy.
#[local] Existing Instance toy_hashes.

(** Three headers of one chain, and one that leaves it after the first. *)
Definition h0 : BlockHeader := mkBlockHeader 1 zeroHash zeroHash 1000 0x207fffff 0.
Definition n0 : blockNode := newBlockNode h0 None.
Definition n1 : blockNode := newBlockNode (mkBlockHeader 1 (hash n0) zeroHash 1600 0x207fffff 1) (Some n0).
Definition n2 : blockNode := newBlockNode (mkBlockHeader 1 (hash n1) zeroHash 1700 0x207fffff 2) (Some n1).
Definition n1' : blockNode := newBlockNode (mkBlockHeader 1 (hash n0) zeroHash 1700 0x207fffff 3) (Some n0).

Lemma built_n0 : built n0.
Proof. apply built_genesis; [split; by vm_compute|reflexivity]. Qed.
Lemma built_n1 : built n1.
Proof. apply built_child; [split; by vm_compute|apply built_n0|by vm_compute|reflexivity]. Qed.
Lemma built_n2 : built n2.
Proof. apply built_child; [split; by vm_compute|apply built_n1|by vm_compute|reflexivity]. Qed.
Lemma built_n1' : built n1'.
Proof. apply built_child; [split; by vm_compute|apply built_n0|by vm_compute|reflexivity]. Qed.

Lemma Ancestor_is_parent_walk_witness : built n2 /\ Ancestor n2 1 = chain n2 !! 1%nat.
Proof.
  split; [apply built_n2|]. destruct (Ancestor_is_parent_walk n2 built_n2) as [Ha _]. exact (Ha 1).
Defined.

Lemma median_time_monotone_witness : exists m, CalcPastMedianTime n2 = Ok m /\ 1000 <= m.
Proof.
  destruct (median_time_monotone n2) as (m & Hm & Hall).
  - intros q p m Hq Hp Hm. change (chain n2) with [n0; n1; n2] in Hq.
    rewrite !list.elem_of_cons in Hq. destruct Hq as [->|[->|[->|Hq]]]; [discriminate Hp| | |by apply elem_of_nil in Hq];
      injection Hp as <-; vm_compute in Hm; injection Hm as <-; by vm_compute.
  - exists m. split; [exact Hm|]. destruct (Hall n0) as (ma & Hma & Hle); [by left|].
    vm_compute in Hma. injection Hma as <-. exact Hle.
Defined.

End Toy.
End Chain.
