(* ===== verification/ChainView.v ===== *)
(** * Chain views

    Models the chain views of coin/OrcaNet/blockchain/chainview.go: the
    slice of nodes indexed by height, its tip, the walk that sets a new tip,
    the queries and the block locator.  The mutex of a view only serialises
    these operations.

    The abstract state of a view is its tip: a view is consistent when its
    slice is the chain of its tip ([view_of]).  Setting a tip keeps it so
    whatever the tip before, with entries left from the old chain reused
    where they are shared; the queries are then membership and position in
    that chain, and the fork point is the last common block. *)

From S2P Require Import Prelude Wire SigHash Merkle Difficulty Chain.

Module ChainView.
Import Wire SigHash Merkle Difficulty Chain.

(** ** Chain views *)

(** The entries of [nodes]; nil ones exist only while the tip is being set. *)
Record chainView := mkView { nodes : list (option blockNode) }.

Definition genesis (c : chainView) : option blockNode :=
  match nodes c with [] => None | n :: _ => n end.
Definition tip (c : chainView) : option blockNode :=
  if Zlen (nodes c) =? 0 then None else List.last (nodes c) None.
Definition viewHeight (c : chainView) : Z := i32 (Zlen (nodes c) - 1).

(** Set the entries from the node down, until one is there already. *)
Fixpoint setLoop (n : blockNode) (l : list (option blockNode)) {struct n}
    : outcome RuleError (list (option blockNode)) :=
  match n with
  | mkNode parent _ _ _ height _ _ _ _ _ =>
      cur ← index l height;
      if decide (cur = Some n) then Ok l
      else
        let l := <[Z.to_nat height := Some n]> l in
        match parent with
        | Some p => setLoop p l
        | None => Ok l
        end
  end.

(** The slice is made or resliced to the needed length, with nil in the new
    entries either way. *)
Definition setTip (node : option blockNode) (c : chainView) : outcome RuleError chainView :=
  match node with
  | None => Ok (mkView [])
  | Some n =>
      let needed := i32 (height n + 1) in
      if needed <? 0 then Panic
      else l ← setLoop n (resize (Z.to_nat needed) None (nodes c)); mret (mkView l)
  end.

Definition newChainView (tip : option blockNode) : outcome RuleError chainView := setTip tip (mkView []).

Definition nodeByHeight (height : Z) (c : chainView) : option blockNode :=
  if (height <? 0) || (i32 (Zlen (nodes c)) <=? height) then None
  else default None (nodes c !! Z.to_nat height).

Definition Equals (c other : chainView) : bool :=
  (Zlen (nodes c) =? Zlen (nodes other)) && bool_decide (tip c = tip other).

Definition contains (node : blockNode) (c : chainView) : bool :=
  bool_decide (nodeByHeight (height node) c = Some node).

Definition next (node : option blockNode) (c : chainView) : option blockNode :=
  match node with
  | Some n => if contains n c then nodeByHeight (i32 (height n + 1)) c else None
  | None => None
  end.

Fixpoint forkLoop (n : blockNode) (c : chainView) {struct n} : option blockNode :=
  match n with
  | mkNode parent _ _ _ _ _ _ _ _ _ =>
      if contains n c then Some n
      else match parent with Some p => forkLoop p c | None => None end
  end.

Definition findFork (node : option blockNode) (c : chainView) : option blockNode :=
  match node with
  | None => None
  | Some n =>
      let chainHeight := viewHeight c in
      match (if chainHeight <? height n then Ancestor n chainHeight else Some n) with
      | Some n => forkLoop n c
      | None => None
      end
  end.

(** ** Block locators *)
Definition fastLog2Floor (n : Z) : Z :=
  let step := fun '(rv, exponent, n) (mask : Z) =>
    if negb (Z.land n mask =? 0) then (rv + exponent, Z.shiftr exponent 1, Z.shiftr n exponent)
    else (rv, Z.shiftr exponent 1, n) in
  (foldl step (0, 16, n) [0xffff0000; 0xff00; 0xf0; 0xc; 0x2]).1.1.

Definition maxLocatorEntries (height : Z) : Z :=
  if height <=? 12 then u8 (u8 height + 1) else u8 (12 + fastLog2Floor (u32 (height - 10))).

(** [len] is the length of the locator so far. *)
Fixpoint locatorLoop (fuel : nat) (c : chainView) (node : option blockNode) (len step : Z)
    : outcome RuleError (list (list Z)) :=
  match fuel with
  | O => Hang
  | S fuel =>
      match node with
      | None => Ok []
      | Some n =>
          if height n =? 0 then Ok [hash n]
          else
            let h := i32 (height n - step) in
            let h := if h <? 0 then 0 else h in
            node ← (if contains n c then index (nodes c) h else Ok (Ancestor n h));
            rest ← locatorLoop fuel c node (len + 1) (if 10 <? len + 1 then i32 (step * 2) else step);
            mret (hash n :: rest)
      end
  end.

Definition blockLocator (fuel : nat) (node : option blockNode) (c : chainView)
    : outcome RuleError (list (list Z)) :=
  let node := match node with Some _ => node | None => tip c end in
  match node with
  | None => Ok []
  | Some _ => locatorLoop fuel c node 0 1
  end.

(** ** A consistent view *)
Definition view_of (t : option blockNode) : chainView :=
  mkView (match t with Some n => Some <$> chain n | None => [] end).

(** Below [k] the entries that are set head their own chain. *)
Definition consistent (l : list (option blockNode)) (k : nat) : Prop :=
  forall i q, (i <= k)%nat -> l !! i = Some (Some q) -> take (S i) l = Some <$> chain q.

Lemma setLoop_spec n : wf n -> forall l, height n < Zlen l -> consistent l (Z.to_nat (height n)) ->
  setLoop n l = Ok ((Some <$> chain n) ++ drop (S (Z.to_nat (height n))) l).
Proof.
  induction n as [n IH _] using node_ind. intros Hn l Hlen Hcons. pose proof (wf_height n Hn) as Hpos.
  assert (Hunf : setLoop n l = cur ← index l (height n);
    if decide (cur = Some n) then Ok l
    else let l := <[Z.to_nat (height n) := Some n]> l in
         match parent n with Some p => setLoop p l | None => Ok l end) by (by destruct n).
  rewrite Hunf. clear Hunf. destruct (index_in_range (E:=RuleError) l (height n)) as [cur Hcur]; [lia|].
  rewrite Hcur, bind_Ok. apply index_ok_iff in Hcur as [_ Hcur]. set (h := Z.to_nat (height n)) in *.
  assert (Hh : (h < length l)%nat) by (unfold Zlen in Hlen; lia).
  destruct (decide (cur = Some n)) as [->|Hne].
  - rewrite <- (Hcons h n) by (done || lia). by rewrite take_drop.
  - cbv zeta. rewrite (chain_unfold n). destruct (parent n) as [p|] eqn:Hp.
    + destruct (wf_parent n p Hn Hp) as [Hwp Hhp]. pose proof (wf_height p Hwp).
      rewrite (IH p eq_refl Hwp).
      * f_equal. rewrite fmap_app, <- (assoc_L (++)). f_equal. replace (S (Z.to_nat (height p))) with h by lia.
        rewrite drop_insert_ge by lia. by rewrite Nat.sub_diag, (drop_S l cur h Hcur).
      * unfold Zlen. rewrite length_insert. unfold Zlen in Hlen. lia.
      * intros i q Hi Hq. rewrite list_lookup_insert_ne in Hq by lia. rewrite take_insert_ge by lia. apply Hcons; [lia|done].
    + pose proof (wf_root n Hn Hp). assert (h = 0%nat) as -> by lia. destruct l as [|x l]; [cbn in Hh; lia|]. done.
Qed.

(** What the slice holds before the walk: entries of the old chain. *)
Lemma consistent_resize m k : wf m -> consistent (resize k None (Some <$> chain m)) k.
Proof.
  intros Hm i q _ Hq. assert (Hi : (i < k)%nat) by (apply lookup_lt_Some in Hq; rewrite length_resize in Hq; lia).
  assert (Hc : chain m !! i = Some q).
  { destruct (decide (i < length (chain m))%nat) as [Hl|Hl].
    - rewrite lookup_resize, list_lookup_fmap in Hq by (rewrite ?length_fmap; lia).
      destruct (chain m !! i); naive_solver.
    - rewrite lookup_resize_new in Hq by (rewrite ?length_fmap; lia). done. }
  destruct (chain_lookup m i q Hm Hc) as (_ & _ & Ht). rewrite <- Ht, fmap_take.
  apply lookup_lt_Some in Hc. destruct (decide (k <= length (chain m))%nat).
  - rewrite resize_le by (rewrite length_fmap; lia). rewrite take_take. f_equal. lia.
  - rewrite resize_ge by (rewrite length_fmap; lia). rewrite take_app_le; [done|]. rewrite length_fmap. lia.
Qed.

Lemma setTip_view t n : match t with Some m => wf m | None => True end -> wf n -> height n < 2 ^ 31 - 1 ->
  setTip (Some n) (view_of t) = Ok (view_of (Some n)).
Proof.
  intros Ht Hn Hlt. pose proof (wf_height n Hn). unfold setTip. rewrite i32_small by lia.
  rewrite (proj2 (Z.ltb_ge _ _)) by lia.
  set (l := resize _ None _). assert (Hl : Zlen l = height n + 1) by (unfold l, Zlen; rewrite length_resize; lia).
  assert (Hc : consistent l (Z.to_nat (height n))).
  { intros i q Hi. unfold l. destruct t as [m|].
    - apply (consistent_resize m); [done|lia].
    - cbn [nodes view_of]. rewrite resize_nil. intros Hq. apply lookup_replicate in Hq as [? _]. done. }
  rewrite (setLoop_spec n Hn l) by (done || lia). rewrite bind_Ok. unfold view_of. do 2 f_equal.
  rewrite drop_ge, app_nil_r; [done|]. unfold Zlen in Hl. lia.
Qed.

(** ** The queries of a consistent view *)

Definition members (t : option blockNode) : list blockNode :=
  match t with Some n => chain n | None => [] end.
Definition tip_ok (t : option blockNode) : Prop :=
  match t with Some n => wf n /\ height n < 2 ^ 31 - 1 | None => True end.

Lemma view_nodes t : nodes (view_of t) = Some <$> members t.
Proof. by destruct t. Qed.

Lemma members_length t : tip_ok t -> 0 <= Zlen (members t) < 2 ^ 31.
Proof.
  destruct t as [n|]; cbn [members tip_ok]; [|done]. intros [Hn Hlt]. rewrite chain_length by done.
  pose proof (wf_height n Hn). lia.
Qed.

Lemma nodeByHeight_view t h : tip_ok t ->
  nodeByHeight h (view_of t) = if 0 <=? h then members t !! Z.to_nat h else None.
Proof.
  intros Ht. pose proof (members_length t Ht) as Hl. unfold nodeByHeight. rewrite view_nodes.
  unfold Zlen in *. rewrite length_fmap. rewrite i32_small by lia.
  destruct (Z.ltb_spec h 0), (Z.leb_spec 0 h); cbn [orb]; try done; try lia.
  destruct (Z.leb_spec (Z.of_nat (length (members t))) h).
  - symmetry. apply lookup_ge_None. lia.
  - rewrite list_lookup_fmap. by destruct (members t !! Z.to_nat h).
Qed.

Lemma contains_view t m : tip_ok t -> wf m -> contains m (view_of t) = bool_decide (m ∈ members t).
Proof.
  intros Ht Hm. unfold contains. rewrite nodeByHeight_view by done. pose proof (wf_height m Hm).
  rewrite (proj2 (Z.leb_le _ _)) by lia. apply bool_decide_ext. destruct t as [n|]; cbn [members tip_ok] in *.
  - destruct Ht as [Hn _]. by rewrite chain_mem.
  - rewrite lookup_nil, elem_of_nil. done.
Qed.

Lemma tip_view t : tip (view_of t) = t.
Proof.
  unfold tip. rewrite view_nodes. destruct t as [n|]; [|done]. cbn [members]. rewrite chain_unfold, fmap_app.
  set (l := Some <$> _). change (Some <$> [n]) with [Some n]. rewrite Zlen_app.
  rewrite (proj2 (Z.eqb_neq _ _)); [apply List.last_last|]. pose proof (Zlen_nonneg l). change (Zlen [Some n]) with 1. lia.
Qed.

(** The fork point is the last node of the chain that the view holds. *)
Lemma forkLoop_view t n : tip_ok t -> wf n ->
  forkLoop n (view_of t) = list.last (filter (fun m => m ∈ members t) (chain n)).
Proof.
  intros Ht. induction n as [n IH _] using node_ind. intros Hn.
  assert (Hunf : forkLoop n (view_of t) = if contains n (view_of t) then Some n
    else match parent n with Some p => forkLoop p (view_of t) | None => None end) by (by destruct n).
  rewrite Hunf, contains_view, chain_unfold, list.filter_app, filter_cons, filter_nil by done. clear Hunf.
  destruct (decide (n ∈ members t)) as [Hin|Hin].
  - rewrite bool_decide_true by done. by rewrite list.last_snoc.
  - rewrite bool_decide_false, app_nil_r by done. destruct (parent n) as [p|] eqn:Hp; [|done].
    apply IH; [done|]. by apply (wf_parent n p).
Qed.

Lemma filter_none {A} (P : A -> Prop) `{!forall x, Decision (P x)} l :
  (forall x, x ∈ l -> ~ P x) -> filter P l = [].
Proof.
  induction l as [|x l IH]; intros Hall; [done|].
  rewrite filter_cons_False by (apply Hall; by left). apply IH. intros y Hy. apply Hall. by right.
Qed.

(** No node above the tip is in the view. *)
Lemma filter_above t n a : tip_ok t -> wf n -> a ∈ chain n -> height a = Zlen (members t) - 1 ->
  filter (fun m => m ∈ members t) (chain n) = filter (fun m => m ∈ members t) (chain a).
Proof.
  intros Ht Hn Ha Hh. destruct (chain_sub n a Hn Ha) as [Hwa [l Hl]]. rewrite Hl, list.filter_app.
  rewrite (filter_none _ l), app_nil_r; [done|]. intros m Hin Hm.
  apply list_elem_of_lookup in Hin as [i Hi].
  assert (Hc : chain n !! (length (chain a) + i)%nat = Some m) by (rewrite Hl, lookup_app_r by lia; by rewrite Nat.add_sub').
  destruct (chain_lookup n _ m Hn Hc) as (Hwm & Hhm & _). rewrite chain_length_nat in Hhm by done.
  destruct t as [n'|]; [|by apply elem_of_nil in Hm]. cbn [members tip_ok] in *. destruct Ht as [Hn' _].
  apply chain_mem in Hm; [|done]. apply lookup_lt_Some in Hm. unfold Zlen in Hh. lia.
Qed.

Lemma findFork_view t n : tip_ok t -> wf n ->
  findFork (Some n) (view_of t) = list.last (filter (fun m => m ∈ members t) (chain n)).
Proof.
  intros Ht Hn. unfold findFork, viewHeight. rewrite view_nodes. pose proof (members_length t Ht) as Hl.
  unfold Zlen. rewrite length_fmap. fold (Zlen (members t)). rewrite i32_small by lia.
  destruct (Z.ltb_spec (Zlen (members t) - 1) (height n)) as [Habove|]; [|by apply forkLoop_view].
  rewrite Ancestor_up by done. destruct (Z.leb_spec 0 (Zlen (members t) - 1)) as [Hpos|Hneg]; cbn [andb].
  - rewrite (proj2 (Z.leb_le _ _)) by lia.
    destruct (up_ok (Z.to_nat (height n - (Zlen (members t) - 1))) n Hn) as (a & Ha & Hwa & Hha); [lia|].
    rewrite Ha, forkLoop_view by done. rewrite (filter_above t n a); try done; [|lia].
    rewrite up_chain in Ha by (done || lia). by eapply list_elem_of_lookup_2.
  - assert (members t = []) as -> by (destruct (members t); [done|]; rewrite Zlen_cons in Hneg; pose proof (Zlen_nonneg l); lia).
    rewrite filter_none; [done|]. intros m _ Hm. by apply elem_of_nil in Hm.
Qed.

(** A view after a sequence of tips. *)
Fixpoint setTips (ts : list (option blockNode)) (c : chainView) : outcome RuleError chainView :=
  match ts with
  | [] => Ok c
  | t :: ts => c ← setTip t c; setTips ts c
  end.

Lemma last_from {A} (l : list A) : forall x y, List.last (x :: l) y = List.last l x.
Proof.
  induction l as [|u l IH]; intros x y; [done|]. transitivity (List.last (u :: l) y); [done|].
  by rewrite !IH.
Qed.

Lemma setTips_view ts : forall t, tip_ok t -> Forall tip_ok ts ->
  setTips ts (view_of t) = Ok (view_of (List.last ts t)) /\ tip_ok (List.last ts t).
Proof.
  induction ts as [|t' ts IH]; intros t Ht Hts; [done|]. apply list.Forall_cons in Hts as [Ht' Hts].
  assert (Hset : setTip t' (view_of t) = Ok (view_of t')).
  { destruct t' as [n|]; [|done]. destruct Ht' as [Hn Hlt]. apply setTip_view; try done. destruct t; [by destruct Ht|done]. }
  rewrite last_from. cbn [setTips]. rewrite Hset, bind_Ok. by apply IH.
Qed.

(** C27. A chain view implements the chain of its last tip: after any
    sequence of tips, forks of each other or not, its tip is the last one,
    its height is that of the tip, it holds exactly the nodes of the chain of
    the tip, each at its height, it gives the successor of a node it holds
    and of no other, and the fork point of a node is the last node of the
    chain of that node that it holds. *)
Theorem chain_view_refines ts (Hts : Forall tip_ok ts) :
  let t := List.last ts None in
  exists c, setTips ts (mkView []) = Ok c /\ tip c = t /\ viewHeight c = Zlen (members t) - 1 /\
    (forall h, nodeByHeight h c = if 0 <=? h then members t !! Z.to_nat h else None) /\
    (forall n, wf n -> contains n c = bool_decide (n ∈ members t)) /\
    (forall n, wf n -> next (Some n) c = if decide (n ∈ members t) then members t !! S (Z.to_nat (height n)) else None) /\
    (forall n, wf n -> findFork (Some n) c = list.last (filter (fun m => m ∈ members t) (chain n))).
Proof.
  intros t. destruct (setTips_view ts None I Hts) as [Hrun Ht]. fold t in Hrun, Ht.
  exists (view_of t). pose proof (members_length t Ht) as Hl.
  split; [exact Hrun|]. split; [apply tip_view|]. split.
  { unfold viewHeight. rewrite view_nodes. unfold Zlen in *. rewrite length_fmap. apply i32_small. lia. }
  split; [intros h; by apply nodeByHeight_view|]. split; [intros n Hn; by apply contains_view|].
  split; [|intros n Hn; by apply findFork_view].
  intros n Hn. unfold next. rewrite contains_view by done. destruct (decide (n ∈ members t)) as [Hin|]; [rewrite bool_decide_true by done|by rewrite bool_decide_false by done].
  assert (Hlt : height n < 2 ^ 31 - 1).
  { destruct t as [m|]; [|by apply elem_of_nil in Hin]. destruct Ht as [Hm Hlt]. cbn [members] in Hin.
    apply chain_mem in Hin; [|done]. apply lookup_lt_Some in Hin. rewrite chain_length_nat in Hin by done.
    pose proof (wf_height m Hm). lia. }
  pose proof (wf_height n Hn). rewrite i32_small, nodeByHeight_view by (done || lia).
  rewrite (proj2 (Z.leb_le _ _)) by lia. f_equal. lia.
Qed.

(** ** Block locators *)

Lemma land_high n e : 0 <= e -> 0 <= n < 2 ^ (2 * e) ->
  negb (Z.land n (2 ^ e * (2 ^ e - 1)) =? 0) = (2 ^ e <=? n).
Proof.
  intros He Hn. assert (Hpe : 0 < 2 ^ e) by lia.
  assert (Hl : Z.land n (2 ^ e * (2 ^ e - 1)) = Z.shiftl (Z.shiftr n e) e).
  { rewrite (Z.mul_comm (2 ^ e)), <- (Z.shiftl_mul_pow2 (2 ^ e - 1)) by done. replace (2 ^ e - 1) with (Z.ones e) by (rewrite Z.ones_equiv; lia).
    apply Z.bits_inj'. intros i Hi. rewrite Z.land_spec, !Z.shiftl_spec by done.
    destruct (Z.ltb_spec i e); [rewrite !(Z.testbit_neg_r _ (i - e)) by lia; apply andb_false_r|].
    rewrite Z.shiftr_spec by lia. replace (i - e + e) with i by lia.
    destruct (Z.ltb_spec i (2 * e)).
    - rewrite Z.ones_spec_low by lia. apply andb_true_r.
    - rewrite Z.ones_spec_high by lia. rewrite andb_false_r. symmetry.
      destruct (Z.eq_dec n 0) as [->|]; [apply Z.bits_0|]. apply Z.bits_above_log2; [lia|].
      apply Z.log2_lt_pow2; [lia|]. apply (Z.lt_le_trans _ (2 ^ (2 * e))); [lia|]. apply Z.pow_le_mono_r; lia. }
  rewrite Hl, Z.shiftl_mul_pow2, Z.shiftr_div_pow2 by done. destruct (Z.leb_spec (2 ^ e) n) as [Hge|Hlt].
  - assert (0 < n / 2 ^ e) by (apply Z.div_str_pos; lia). rewrite (proj2 (Z.eqb_neq _ _)); [done|]. nia.
  - by rewrite Z.div_small by lia.
Qed.

Lemma log2_step n e : 0 <= e -> 2 ^ e <= n -> Z.log2 n = e + Z.log2 (Z.shiftr n e).
Proof.
  intros He Hn. assert (0 < n) by (apply Z.lt_le_trans with (2 ^ e); [lia|done]).
  rewrite Z.log2_shiftr by done. apply Z.log2_le_pow2 in Hn; lia.
Qed.

Lemma fastLog2Floor_spec n : 0 < n < 2 ^ 32 -> fastLog2Floor n = Z.log2 n.
Proof.
  intros Hn. unfold fastLog2Floor.
  set (step := fun '(rv, exponent, n) (mask : Z) => _).
  assert (Hstep : forall rv e x mask, 0 <= e -> 0 < x < 2 ^ (2 * e) -> mask = 2 ^ e * (2 ^ e - 1) ->
    exists rv' x', step (rv, e, x) mask = (rv', Z.shiftr e 1, x') /\ 0 < x' < 2 ^ e /\ rv' + Z.log2 x' = rv + Z.log2 x).
  { intros rv e x mask He Hx ->. unfold step. rewrite land_high by lia.
    destruct (Z.leb_spec (2 ^ e) x) as [Hge|Hlt].
    - exists (rv + e), (Z.shiftr x e). split; [done|]. rewrite (log2_step x e) by done. split; [|lia].
      rewrite Z.shiftr_div_pow2 by done. split; [apply Z.div_str_pos; lia|]. apply Z.div_lt_upper_bound; [lia|].
      rewrite <- Z.pow_add_r by lia. replace (e + e) with (2 * e) by lia. lia.
    - exists rv, x. split; [done|]. split; [lia|done]. }
  cbn [foldl].
  destruct (Hstep 0 16 n 0xffff0000) as (r1 & x1 & Ha & Hx1 & E1); [lia|done|done|]. change (Z.shiftr 16 1) with 8 in Ha.
  destruct (Hstep r1 8 x1 0xff00) as (r2 & x2 & Hb & Hx2 & E2); [lia|done|done|]. change (Z.shiftr 8 1) with 4 in Hb.
  destruct (Hstep r2 4 x2 0xf0) as (r3 & x3 & Hc & Hx3 & E3); [lia|done|done|]. change (Z.shiftr 4 1) with 2 in Hc.
  destruct (Hstep r3 2 x3 0xc) as (r4 & x4 & Hd & Hx4 & E4); [lia|done|done|]. change (Z.shiftr 2 1) with 1 in Hd.
  destruct (Hstep r4 1 x4 0x2) as (r5 & x5 & He & Hx5 & E5); [lia|done|done|].
  rewrite Ha, Hb, Hc, Hd, He. cbn [fst].
  assert (x5 = 1) as -> by (change (2 ^ 1) with 2 in Hx5; lia). change (Z.log2 1) with 0 in E5. lia.
Qed.

(** The height of the [k]-th entry: the first eleven are consecutive, then
    the distance doubles. *)
Definition locatorHeight (h k : Z) : Z := Z.max 0 (if k <=? 10 then h - k else h - 9 - 2 ^ (k - 10)).
Definition locatorStep (k : Z) : Z := if k <=? 10 then 1 else 2 ^ (k - 10).

Lemma locator_next h k : 0 <= k -> 0 < locatorHeight h k ->
  locatorHeight h (k + 1) = Z.max 0 (locatorHeight h k - locatorStep k).
Proof.
  unfold locatorHeight, locatorStep. intros Hk. destruct (Z.leb_spec k 10), (Z.leb_spec (k + 1) 10); try lia.
  - assert (k = 10) as -> by lia. change (2 ^ (10 + 1 - 10)) with 2. lia.
  - replace (k + 1 - 10) with (Z.succ (k - 10)) by lia. rewrite Z.pow_succ_r by lia. lia.
Qed.

(** The entries end at the first one of height zero. *)
Lemma locator_end h : 0 <= h < 2 ^ 31 -> let K := maxLocatorEntries h - 1 in
  0 <= K <= 42 /\ locatorHeight h K = 0 /\ forall k, 0 <= k < K -> 0 < locatorHeight h k.
Proof.
  intros Hh. unfold maxLocatorEntries. destruct (Z.leb_spec h 12) as [Hle|Hgt].
  - rewrite (u8_small h), u8_small by lia. cbv zeta. replace (h + 1 - 1) with h by lia. split; [lia|].
    assert (Hc : forall k, 10 < k -> k <= 12 -> 2 ^ (k - 10) = 2 * (k - 10)).
    { intros k ? ?. assert (k = 11 \/ k = 12) as [-> | ->] by lia; done. }
    unfold locatorHeight. split; [|intros k Hk].
    + destruct (Z.leb_spec h 10); [lia|]. rewrite Hc by lia. lia.
    + destruct (Z.leb_spec k 10); [lia|]. rewrite Hc by lia. lia.
  - rewrite u32_small, fastLog2Floor_spec by lia. set (L := Z.log2 (h - 10)).
    pose proof (Z.log2_spec (h - 10) ltac:(lia)) as [Hlo Hhi]. fold L in Hlo, Hhi.
    assert (HL : 0 <= L <= 30). { split; [apply Z.log2_nonneg|]. assert (L < 31); [|lia]. apply Z.log2_lt_pow2; lia. }
    rewrite u8_small by lia. cbv zeta. split; [lia|]. unfold locatorHeight. split; [|intros k Hk].
    + rewrite (proj2 (Z.leb_gt _ _)) by lia. replace (12 + L - 1 - 10) with (Z.succ L) by lia. lia.
    + destruct (Z.leb_spec k 10); [lia|].
      assert (2 ^ (k - 10) <= 2 ^ L) by (apply Z.pow_le_mono_r; lia). lia.
Qed.

(** The steps that are used fit a signed 32-bit integer. *)
Lemma locatorStep_range h k : 0 <= h < 2 ^ 31 -> 0 <= k < maxLocatorEntries h - 1 ->
  0 <= locatorStep k < 2 ^ 31 /\ (k < maxLocatorEntries h - 2 -> locatorStep k < 2 ^ 30).
Proof.
  intros Hh Hk. pose proof (locator_end h Hh) as (_ & _ & Hb). unfold locatorStep.
  destruct (Z.leb_spec k 10); [lia|]. pose proof (Z.pow_pos_nonneg 2 (k - 10)).
  assert (Hlt : forall j, 10 < j -> j < maxLocatorEntries h - 1 -> 2 ^ (j - 10) < 2 ^ 31).
  { intros j Hj HjK. specialize (Hb j ltac:(lia)). unfold locatorHeight in Hb.
    rewrite (proj2 (Z.leb_gt j 10)) in Hb by lia. lia. }
  split; [split; [lia|apply Hlt; lia]|]. intros Hk'. specialize (Hlt (k + 1) ltac:(lia) ltac:(lia)).
  replace (k + 1 - 10) with (Z.succ (k - 10)) in Hlt by lia. rewrite Z.pow_succ_r in Hlt by lia. lia.
Qed.

Lemma locatorStep_next k : 0 <= k -> locatorStep k < 2 ^ 30 ->
  (if 10 <? k + 1 then i32 (locatorStep k * 2) else locatorStep k) = locatorStep (k + 1).
Proof.
  unfold locatorStep. intros Hk Hlt.
  destruct (Z.ltb_spec 10 (k + 1)), (Z.leb_spec k 10), (Z.leb_spec (k + 1) 10); try lia.
  - assert (k = 10) as -> by lia. done.
  - pose proof (Z.pow_pos_nonneg 2 (k - 10)). rewrite i32_small by lia.
    replace (k + 1 - 10) with (Z.succ (k - 10)) by lia. rewrite Z.pow_succ_r by lia. lia.
Qed.

(** The hash at a height of a chain. *)
Definition hashAt (n : blockNode) (h : Z) : list Z :=
  match chain n !! Z.to_nat h with Some m => hash m | None => [] end.

(** The next node of the walk, by the view or by the ancestors. *)
Lemma locator_lookup t n m h : tip_ok t -> wf n -> m ∈ chain n -> 0 <= h <= height m ->
  exists q, (if contains m (view_of t) then index (nodes (view_of t)) h else Ok (Ancestor m h)) = @Ok RuleError _ (Some q) /\
    chain n !! Z.to_nat h = Some q.
Proof.
  intros Ht Hn Hm Hh. destruct (chain_sub n m Hn Hm) as [Hwm Hpre].
  destruct (lookup_lt_is_Some_2 (chain m) (Z.to_nat h)) as [q Hq]; [rewrite chain_length_nat by done; lia|].
  exists q. split; [|by eapply prefix_lookup_Some]. rewrite contains_view by done.
  destruct (decide (m ∈ members t)) as [Hin|Hin].
  - rewrite bool_decide_true, view_nodes by done. apply index_ok_iff. split; [lia|]. rewrite list_lookup_fmap.
    destruct t as [n'|]; [|by apply elem_of_nil in Hin]. destruct Ht as [Hn' _]. cbn [members] in *.
    destruct (chain_sub n' m Hn' Hin) as [_ Hpre']. by rewrite (prefix_lookup_Some _ _ _ _ Hq Hpre').
  - rewrite bool_decide_false by done. rewrite Ancestor_up by done. rewrite !(proj2 (Z.leb_le _ _)) by lia. cbn [andb].
    rewrite up_chain by (done || lia). by replace (height m - Z.of_nat (Z.to_nat (height m - h))) with h by lia; rewrite Hq.
Qed.

Lemma seq_head {A} (f : nat -> A) d : f <$> seq 0 (S d) = f 0%nat :: ((fun i => f (S i)) <$> seq 0 d).
Proof. cbn [seq fmap list_fmap]. f_equal. rewrite <- fmap_S_seq. by rewrite <- list_fmap_compose. Qed.

Lemma locatorLoop_spec t n d : tip_ok t -> wf n -> forall k m fuel,
  let K := maxLocatorEntries (height n) - 1 in
  0 <= k -> K = k + Z.of_nat d -> (d < fuel)%nat -> chain n !! Z.to_nat (locatorHeight (height n) k) = Some m ->
  locatorLoop fuel (view_of t) (Some m) k (locatorStep k)
  = Ok ((fun i => hashAt n (locatorHeight (height n) (k + Z.of_nat i))) <$> seq 0 (S d)).
Proof.
  intros Ht Hn. induction d as [|d IH]; intros k m fuel K Hk HK Hf Hm; (destruct fuel as [|fuel]; [lia|]); cbn [locatorLoop];
    pose proof (wf_height n Hn) as Hpos; destruct (locator_end (height n) Hpos) as (HK42 & Hend & Hbefore); fold K in HK42, Hend, Hbefore;
    destruct (chain_lookup n _ m Hn Hm) as (Hwm & Hhm & _);
    assert (Hhk : height m = locatorHeight (height n) k) by (rewrite Hhm; unfold locatorHeight; lia).
  - assert (k = K) as -> by lia. rewrite Hhk, Hend. cbn [seq fmap list_fmap].
    replace (K + Z.of_nat 0) with K by lia. unfold hashAt. by rewrite Hm.
  - specialize (Hbefore k ltac:(lia)). rewrite (proj2 (Z.eqb_neq (height m) 0)) by lia.
    destruct (locatorStep_range (height n) k Hpos) as [Hs31 Hs30]; [fold K; lia|]. fold K in Hs30.
    pose proof (wf_height m Hwm). rewrite (i32_small (height m - locatorStep k)) by lia. set (h := if _ <? 0 then 0 else _).
    assert (Hh : h = locatorHeight (height n) (k + 1)).
    { rewrite locator_next by lia. unfold h. rewrite Hhk. destruct (Z.ltb_spec (locatorHeight (height n) k - locatorStep k) 0); lia. }
    assert (Hhr : 0 <= h <= height m) by (unfold h; destruct (Z.ltb_spec (height m - locatorStep k) 0); lia).
    destruct (locator_lookup t n m h Ht Hn) as (q & Hq & Hcq); [by eapply list_elem_of_lookup_2|lia|].
    rewrite Hq, bind_Ok. rewrite Hh in Hcq.
    assert (Hs : (0 < d)%nat -> (if 10 <? k + 1 then i32 (locatorStep k * 2) else locatorStep k) = locatorStep (k + 1))
      by (intros Hd; apply locatorStep_next; [done|apply Hs30; lia]).
    set (s := if 10 <? k + 1 then _ else _) in *.
    assert (Hrun : locatorLoop fuel (view_of t) (Some q) (k + 1) s
      = Ok ((fun i => hashAt n (locatorHeight (height n) (k + 1 + Z.of_nat i))) <$> seq 0 (S d))).
    { destruct d as [|d]; [|rewrite Hs by lia; apply IH; [lia|lia|lia|done]].
      rewrite <- (IH (k + 1) q fuel) by (done || lia). destruct fuel as [|fuel]; [lia|]. cbn [locatorLoop].
      destruct (chain_lookup n _ q Hn Hcq) as (_ & Hhq & _). assert (Hend' : locatorHeight (height n) (k + 1) = 0) by (by replace (k + 1) with K by lia).
      by rewrite Hhq, Hend'. }
    rewrite Hrun, bind_Ok, (seq_head _ (S d)). change (mret ?x) with (@Ok RuleError _ x). do 2 f_equal.
    + replace (k + Z.of_nat 0) with k by lia. unfold hashAt. by rewrite Hm.
    + apply list_fmap_ext. intros i x _. cbn. do 2 f_equal. lia.
Qed.

(** The block locator of a node always ends, and lists exactly the
    hashes of its chain at the heights that the format asks for: the node
    and the ten before it, then at distances that double, then the genesis
    block, as many entries as the code allots, whether the view holds the
    node or not. *)
Theorem blockLocator_spec t n (Ht : tip_ok t) (Hn : wf n) :
  blockLocator 43 (Some n) (view_of t)
  = Ok ((fun i => hashAt n (locatorHeight (height n) (Z.of_nat i))) <$> seq 0 (Z.to_nat (maxLocatorEntries (height n)))) /\
  locatorHeight (height n) (maxLocatorEntries (height n) - 1) = 0.
Proof.
  destruct (locator_end (height n) (wf_height n Hn)) as (HK & Hend & _). split; [|done]. unfold blockLocator.
  pose proof (locatorLoop_spec t n (Z.to_nat (maxLocatorEntries (height n) - 1)) Ht Hn 0 n 43) as Hrun. cbv zeta in Hrun.
  change (locatorStep 0) with 1 in Hrun. rewrite Hrun; [|lia|lia|lia|].
  - f_equal. replace (S (Z.to_nat (maxLocatorEntries (height n) - 1))) with (Z.to_nat (maxLocatorEntries (height n))) by lia.
    done.
  - assert (locatorHeight (height n) 0 = height n) as -> by (unfold locatorHeight; pose proof (wf_height n Hn);
      change (0 <=? 10) with true; cbv iota; lia).
    by apply chain_self.
Qed.

(** ** Concrete instances *)
Module Toy.
Import SigHash.Toy Chain.Toy.
#[local] Existing Instance toy_hashes.

(** A reorganisation from the longer branch to the side branch. *)
Lemma chain_view_refines_witness :
  exists c, setTips [Some n2; Some n1'] (mkView []) = Ok c /\ findFork (Some n2) c = Some n0.
Proof.
  destruct (chain_view_refines [Some n2; Some n1']) as (c & Hc & _ & _ & _ & _ & _ & Hfork).
  - apply Forall_cons_2; [split; by vm_compute|]. apply Forall_cons_2; [split; by vm_compute|]. apply Forall_nil_2.
  - exists c. split; [exact Hc|]. rewrite Hfork by (by vm_compute). by vm_compute.
Defined.

Lemma blockLocator_spec_witness : blockLocator 43 (Some n2) (view_of (Some n1')) = Ok [hash n2; hash n1; hash n0].
Proof.
  destruct (blockLocator_spec (Some n1') n2) as [Hl _]; [split; by vm_compute|by vm_compute|].
  rewrite Hl. by vm_compute.
Defined.

End Toy.
End ChainView.
