(* ===== verification/Utxo.v ===== *)
(** * Unspent outputs and views

    Models coin/OrcaNet/blockchain/utxoviewpoint.go: the entries with their
    packed flags, and the view that block validation spends from, adds to and,
    in a reorganisation, takes back.  The entries of a view are reached only
    through it (those fetched from the cache are cloned), so the map of the
    model holds them by value; an explicit nil entry, which marks an output
    known to be missing, is [None].  The pkScript slices are never written.

    The specification is the set of unspent coins, a finite map from outpoint
    to amount, script, height and coinbase flag: connecting a transaction is
    [applyTx] on it, and disconnecting a block gives the set before it. *)

From S2P Require Import Prelude ScriptNum Wire Tokenizer SigHash Merkle Difficulty.

Module Utxo.
Import ScriptNum Wire Tokenizer SigHash Merkle Difficulty.

#[export] Instance OutPoint_eq_dec : EqDecision OutPoint.
Proof. solve_decision. Defined.
#[export] Instance OutPoint_countable : Countable OutPoint :=
  inj_countable' (fun op => (Hash op, Index op)) (fun p => mkOutPoint p.1 p.2) (fun op => match op with mkOutPoint _ _ => eq_refl end).

(** ** Entries *)
Definition tfCoinBase := 1.
Definition tfSpent := 2.
Definition tfModified := 4.
Definition tfFresh := 8.

Record UtxoEntry := mkEntry {
  amount : Z;
  pkScript : list Z;
  blockHeight : Z;
  packedFlags : Z;
}.

Definition isModified (entry : UtxoEntry) : bool := Z.land (packedFlags entry) tfModified =? tfModified.
Definition isFresh (entry : UtxoEntry) : bool := Z.land (packedFlags entry) tfFresh =? tfFresh.
Definition IsCoinBase (entry : UtxoEntry) : bool := Z.land (packedFlags entry) tfCoinBase =? tfCoinBase.
Definition IsSpent (entry : UtxoEntry) : bool := Z.land (packedFlags entry) tfSpent =? tfSpent.

Definition Spend (entry : UtxoEntry) : UtxoEntry :=
  if IsSpent entry then entry
  else mkEntry (amount entry) (pkScript entry) (blockHeight entry)
         (Z.lor (packedFlags entry) (Z.lor tfSpent tfModified)).

Definition Clone (entry : option UtxoEntry) : option UtxoEntry :=
  match entry with
  | Some e => Some (mkEntry (amount e) (pkScript e) (blockHeight e) (packedFlags e))
  | None => None
  end.

Definition NewUtxoEntry (txOut : TxOut) (blockHeight : Z) (isCoinbase : bool) : UtxoEntry :=
  mkEntry (Value txOut) (PkScript txOut) blockHeight (if isCoinbase then Z.lor 0 tfCoinBase else 0).

(** The record of a spent output in the spend journal (chainio.go). *)
Record SpentTxOut := mkSpent {
  s_Amount : Z;
  s_PkScript : list Z;
  s_Height : Z;
  s_IsCoinBase : bool;
}.

(** ** Views *)
Record UtxoViewpoint := mkView {
  entries : gmap OutPoint (option UtxoEntry);
  bestHash : list Z;
}.

Definition NewUtxoViewpoint : UtxoViewpoint := mkView ∅ (replicate 32 0).
Definition SetBestHash (hash : list Z) (view : UtxoViewpoint) : UtxoViewpoint := mkView (entries view) hash.
Definition LookupEntry (view : UtxoViewpoint) (outpoint : OutPoint) : option UtxoEntry :=
  default None (entries view !! outpoint).
Definition FetchPrevOutput (view : UtxoViewpoint) (op : OutPoint) : option TxOut :=
  match LookupEntry view op with
  | Some prevOut => Some (mkTxOut (amount prevOut) (pkScript prevOut))
  | None => None
  end.
Definition setEntry (op : OutPoint) (e : UtxoEntry) (view : UtxoViewpoint) : UtxoViewpoint :=
  mkView (<[op := Some e]> (entries view)) (bestHash view).
Definition RemoveEntry (outpoint : OutPoint) (view : UtxoViewpoint) : UtxoViewpoint :=
  mkView (delete outpoint (entries view)) (bestHash view).

(** A call of txscript that has no error result. *)
Definition noErr {A} (m : outcome ErrorCode A) : outcome RuleError A :=
  match m with Ok a => Ok a | Err _ => Panic | Panic => Panic | Hang => Hang end.

Definition addTxOut (outpoint : OutPoint) (txOut : TxOut) (isCoinBase : bool) (height : Z) (view : UtxoViewpoint)
    : outcome RuleError UtxoViewpoint :=
  dead ← noErr (IsUnspendable (PkScript txOut));
  if dead : bool then Ok view
  else
    let flags := Z.lor tfFresh tfModified in
    Ok (setEntry outpoint (mkEntry (Value txOut) (PkScript txOut) height
          (if isCoinBase then Z.lor flags tfCoinBase else flags)) view).

Section Hash.
Context {H : Hashes}.

Definition AddTxOut (tx : MsgTx) (txOutIdx height : Z) (view : UtxoViewpoint) : outcome RuleError UtxoViewpoint :=
  if u32 (Zlen (TxOuts tx)) <=? txOutIdx then Ok view
  else txOut ← index (TxOuts tx) txOutIdx;
       addTxOut (mkOutPoint (TxHash tx) txOutIdx) txOut (IsCoinBaseTx tx) height view.

Fixpoint addOuts (hash : list Z) (i : Z) (outs : list TxOut) (isCoinBase : bool) (height : Z) (view : UtxoViewpoint)
    : outcome RuleError UtxoViewpoint :=
  match outs with
  | [] => Ok view
  | txOut :: outs =>
      view ← addTxOut (mkOutPoint hash (u32 i)) txOut isCoinBase height view;
      addOuts hash (i + 1) outs isCoinBase height view
  end.

Definition AddTxOuts (tx : MsgTx) (height : Z) (view : UtxoViewpoint) : outcome RuleError UtxoViewpoint :=
  addOuts (TxHash tx) 0 (TxOuts tx) (IsCoinBaseTx tx) height view.

(** [stxos] is None when the caller does not want the spent outputs. *)
Definition appendSpent (entry : UtxoEntry) (stxos : option (list SpentTxOut)) : option (list SpentTxOut) :=
  match stxos with
  | Some l => Some (l ++ [mkSpent (amount entry) (pkScript entry) (blockHeight entry) (IsCoinBase entry)])
  | None => None
  end.

Fixpoint spendInputs (ins : list TxIn) (view : UtxoViewpoint) (stxos : option (list SpentTxOut))
    : outcome RuleError (UtxoViewpoint * option (list SpentTxOut)) :=
  match ins with
  | [] => Ok (view, stxos)
  | txIn :: ins =>
      match LookupEntry view (PreviousOutPoint txIn) with
      | None => Err AssertError
      | Some entry =>
          spendInputs ins (setEntry (PreviousOutPoint txIn) (Spend entry) view) (appendSpent entry stxos)
      end
  end.

Definition connectTransaction (tx : MsgTx) (height : Z) (view : UtxoViewpoint) (stxos : option (list SpentTxOut))
    : outcome RuleError (UtxoViewpoint * option (list SpentTxOut)) :=
  if IsCoinBaseTx tx then view ← AddTxOuts tx height view; mret (view, stxos)
  else
    '(view, stxos) ← spendInputs (TxIns tx) view stxos;
    view ← AddTxOuts tx height view;
    mret (view, stxos).

Fixpoint connectLoop (txs : list MsgTx) (height : Z) (view : UtxoViewpoint) (stxos : option (list SpentTxOut))
    : outcome RuleError (UtxoViewpoint * option (list SpentTxOut)) :=
  match txs with
  | [] => Ok (view, stxos)
  | tx :: txs =>
      '(view, stxos) ← connectTransaction tx height view stxos;
      connectLoop txs height view stxos
  end.

Definition connectTransactions (block : MsgBlock) (height : Z) (view : UtxoViewpoint) (stxos : option (list SpentTxOut))
    : outcome RuleError (UtxoViewpoint * option (list SpentTxOut)) :=
  '(view, stxos) ← connectLoop (Transactions block) height view stxos;
  mret (SetBestHash (BlockHash (Header block)) view, stxos).

(** ** Fetching *)
Definition MaxOutputsPerBlock := 4000000 / (4 * MinTxOutPayload).

(** The entries of the utxo set at the end of the main chain: the cache or
    the database, which may fail. *)
Section Fetch.
Variable fetch : OutPoint -> outcome RuleError (option UtxoEntry).

Fixpoint fetchEntries (outpoints : list OutPoint) : outcome RuleError (list (option UtxoEntry)) :=
  match outpoints with
  | [] => Ok []
  | op :: ops => e ← fetch op; es ← fetchEntries ops; mret (e :: es)
  end.

Definition storeAll (outpoints : list OutPoint) (es : list (option UtxoEntry)) (view : UtxoViewpoint) : UtxoViewpoint :=
  mkView (foldl (fun m '(op, e) => <[op := e]> m) (Utxo.entries view) (zip outpoints es)) (bestHash view).

Definition fetchUtxosMain (outpoints : list OutPoint) (view : UtxoViewpoint) : outcome RuleError UtxoViewpoint :=
  if Zlen outpoints =? 0 then Ok view
  else es ← fetchEntries outpoints; mret (storeAll outpoints es view).

Definition fetchUtxosFromCache (outpoints : list OutPoint) (view : UtxoViewpoint) : outcome RuleError UtxoViewpoint :=
  if Zlen outpoints =? 0 then Ok view
  else es ← fetchEntries outpoints; mret (storeAll outpoints (Clone <$> es) view).

Definition fetchUtxos (outpoints : list OutPoint) (view : UtxoViewpoint) : outcome RuleError UtxoViewpoint :=
  if Zlen outpoints =? 0 then Ok view
  else fetchUtxosFromCache (filter (fun op => entries view !! op = None) outpoints) view.

(** The position of the last transaction with a hash. *)
Definition inFlight (txs : list MsgTx) : gmap (list Z) Z :=
  (foldl (fun '(m, i) tx => (<[TxHash tx := i]> m, i + 1)) (∅, 0) txs).1.

Fixpoint fetchInputs (txs : list MsgTx) (flight : gmap (list Z) Z) (i height : Z) (ins : list TxIn)
    (view : UtxoViewpoint) (needed : list OutPoint) : outcome RuleError (UtxoViewpoint * list OutPoint) :=
  match ins with
  | [] => Ok (view, needed)
  | txIn :: ins =>
      let op := PreviousOutPoint txIn in
      match flight !! Wire.Hash op with
      | Some inFlightIndex =>
          if inFlightIndex <=? i then
            originTx ← index txs inFlightIndex;
            view ← AddTxOuts originTx height view;
            fetchInputs txs flight i height ins view needed
          else if bool_decide (is_Some (entries view !! op)) then fetchInputs txs flight i height ins view needed
          else fetchInputs txs flight i height ins view (needed ++ [op])
      | None =>
          if bool_decide (is_Some (entries view !! op)) then fetchInputs txs flight i height ins view needed
          else fetchInputs txs flight i height ins view (needed ++ [op])
      end
  end.

Fixpoint findLoop (txs : list MsgTx) (flight : gmap (list Z) Z) (i height : Z) (rest : list MsgTx)
    (view : UtxoViewpoint) (needed : list OutPoint) : outcome RuleError (UtxoViewpoint * list OutPoint) :=
  match rest with
  | [] => Ok (view, needed)
  | tx :: rest =>
      '(view, needed) ← fetchInputs txs flight i height (TxIns tx) view needed;
      findLoop txs flight (i + 1) height rest view needed
  end.

Definition findInputsToFetch (block : MsgBlock) (height : Z) (view : UtxoViewpoint)
    : outcome RuleError (UtxoViewpoint * list OutPoint) :=
  let transactions := Transactions block in
  rest ← slice transactions 1 (Zlen transactions);
  findLoop transactions (inFlight transactions) 0 height rest view [].

(** From the cache, or from the database when there is none. *)
Definition fetchInputUtxos (cached : bool) (block : MsgBlock) (height : Z) (view : UtxoViewpoint) : outcome RuleError UtxoViewpoint :=
  '(view, needed) ← findInputsToFetch block height view;
  if cached then fetchUtxosFromCache needed view else fetchUtxosMain needed view.

(** The outpoints of FetchUtxoView. *)
Definition neededFor (tx : MsgTx) : list OutPoint :=
  imap (fun i _ => mkOutPoint (TxHash tx) (u32 (Z.of_nat i))) (TxOuts tx)
  ++ (if negb (IsCoinBaseTx tx) then PreviousOutPoint <$> TxIns tx else []).
Definition FetchUtxoView (tx : MsgTx) : outcome RuleError UtxoViewpoint :=
  fetchUtxosFromCache (neededFor tx) NewUtxoViewpoint.

End Fetch.

(** ** Disconnecting *)

(** The search of the whole utxo set by transaction hash in the database. *)
Section Disconnect.
Variable dbFetchUtxoEntryByHash : list Z -> outcome RuleError (option UtxoEntry).

Fixpoint viewByHash (n : nat) (idx : Z) (hash : list Z) (view : UtxoViewpoint) : option UtxoEntry :=
  match n with
  | O => None
  | S n =>
      match LookupEntry view (mkOutPoint hash idx) with
      | Some entry => Some entry
      | None => viewByHash n (idx + 1) hash view
      end
  end.

Definition fetchEntryByHash (hash : list Z) (view : UtxoViewpoint) : outcome RuleError (option UtxoEntry) :=
  match viewByHash (Z.to_nat MaxOutputsPerBlock) 0 hash view with
  | Some entry => Ok (Some entry)
  | None => dbFetchUtxoEntryByHash hash
  end.

Fixpoint removeOuts (hash : list Z) (i : Z) (outs : list TxOut) (flags height : Z) (view : UtxoViewpoint)
    : outcome RuleError UtxoViewpoint :=
  match outs with
  | [] => Ok view
  | txOut :: outs =>
      dead ← noErr (IsUnspendable (PkScript txOut));
      if dead : bool then removeOuts hash (i + 1) outs flags height view
      else
        let prevOut := mkOutPoint hash (u32 i) in
        let entry := default (mkEntry (Value txOut) (PkScript txOut) height flags) (LookupEntry view prevOut) in
        removeOuts hash (i + 1) outs flags height (setEntry prevOut (Spend entry) view)
  end.

(** The inputs from the last one to the first; the missing height of an old
    journal record is looked up under the hash that the code passes, that of
    the spending transaction. *)
Fixpoint restoreInputs (txHash : list Z) (ins : list TxIn) (view : UtxoViewpoint) (stxos : list SpentTxOut)
    (stxoIdx : Z) : outcome RuleError (UtxoViewpoint * list SpentTxOut * Z) :=
  match ins with
  | [] => Ok (view, stxos, stxoIdx)
  | txIn :: ins =>
      stxo ← index stxos stxoIdx;
      let op := PreviousOutPoint txIn in
      let zero := mkEntry 0 [] 0 0 in
      let view := match LookupEntry view op with Some _ => view | None => setEntry op zero view end in
      stxo ← (if s_Height stxo =? 0 then
                utxo ← fetchEntryByHash txHash view;
                match utxo with
                | None => Err AssertError
                | Some utxo => Ok (mkSpent (s_Amount stxo) (s_PkScript stxo) (blockHeight utxo) (IsCoinBase utxo))
                end
              else Ok stxo);
      let flags := if s_IsCoinBase stxo then Z.lor tfModified tfCoinBase else tfModified in
      restoreInputs txHash ins (setEntry op (mkEntry (s_Amount stxo) (s_PkScript stxo) (s_Height stxo) flags) view)
        (<[Z.to_nat stxoIdx := stxo]> stxos) (stxoIdx - 1)
  end.

Definition disconnectTransaction (i : nat) (tx : MsgTx) (height : Z) (view : UtxoViewpoint) (stxos : list SpentTxOut)
    (stxoIdx : Z) : outcome RuleError (UtxoViewpoint * list SpentTxOut * Z) :=
  let isCoinBase := Nat.eqb i 0 in
  let flags := if isCoinBase then Z.lor 0 tfCoinBase else 0 in
  view ← removeOuts (TxHash tx) 0 (TxOuts tx) flags height view;
  if isCoinBase then Ok (view, stxos, stxoIdx)
  else restoreInputs (TxHash tx) (rev (TxIns tx)) view stxos stxoIdx.

(** [n] is one more than the index of the transaction. *)
Fixpoint disconnectLoop (n : nat) (transactions : list MsgTx) (height : Z) (view : UtxoViewpoint)
    (stxos : list SpentTxOut) (stxoIdx : Z) : outcome RuleError (UtxoViewpoint * list SpentTxOut * Z) :=
  match n with
  | O => Ok (view, stxos, stxoIdx)
  | S i =>
      tx ← index transactions (Z.of_nat i);
      '(view, stxos, stxoIdx) ← disconnectTransaction i tx height view stxos stxoIdx;
      disconnectLoop i transactions height view stxos stxoIdx
  end.

Definition countSpentOutputs (block : MsgBlock) : outcome RuleError Z :=
  rest ← slice (Transactions block) 1 (Zlen (Transactions block));
  mret (sum ((fun tx => Zlen (TxIns tx)) <$> rest)).

Definition disconnectTransactions (block : MsgBlock) (height : Z) (view : UtxoViewpoint) (stxos : list SpentTxOut)
    : outcome RuleError UtxoViewpoint :=
  n ← countSpentOutputs block;
  if negb (Zlen stxos =? n) then Err AssertError
  else
    '(view, _, _) ← disconnectLoop (length (Transactions block)) (Transactions block) height view stxos (Zlen stxos - 1);
    mret (SetBestHash (PrevBlock (Header block)) view).

End Disconnect.

(** The entries that commit keeps, with the bit of the modified flag flipped. *)
Definition commitEntry (entry : option UtxoEntry) : option (option UtxoEntry) :=
  match entry with
  | None => None
  | Some e =>
      if isModified e && IsSpent e then None
      else Some (Some (mkEntry (amount e) (pkScript e) (blockHeight e) (Z.lxor (packedFlags e) tfModified)))
  end.
Definition commit (view : UtxoViewpoint) : UtxoViewpoint := mkView (omap commitEntry (entries view)) (bestHash view).

End Hash.
(** ** The specification: a set of coins *)
Record coin := mkCoin {
  c_amount : Z;
  c_script : list Z;
  c_height : Z;
  c_coinbase : bool;
}.

Definition coinOf (e : UtxoEntry) : coin := mkCoin (amount e) (pkScript e) (blockHeight e) (IsCoinBase e).
Definition live (e : option UtxoEntry) : option coin :=
  match e with Some e => if IsSpent e then None else Some (coinOf e) | None => None end.
Definition coins (view : UtxoViewpoint) : gmap OutPoint coin := omap live (entries view).

(** A script that the set never holds. *)
Definition unspendable (script : list Z) : bool := match IsUnspendable script with Ok b => b | _ => true end.

Fixpoint addCoins (hash : list Z) (i : Z) (outs : list TxOut) (isCoinBase : bool) (height : Z)
    (m : gmap OutPoint coin) : gmap OutPoint coin :=
  match outs with
  | [] => m
  | out :: outs =>
      addCoins hash (i + 1) outs isCoinBase height
        (if unspendable (PkScript out) then m
         else <[mkOutPoint hash (u32 i) := mkCoin (Value out) (PkScript out) height isCoinBase]> m)
  end.

Fixpoint spendCoins (ins : list TxIn) (m : gmap OutPoint coin) : gmap OutPoint coin :=
  match ins with
  | [] => m
  | txIn :: ins => spendCoins ins (delete (PreviousOutPoint txIn) m)
  end.

Section Spec.
Context {H : Hashes}.

Definition applyTx (height : Z) (tx : MsgTx) (m : gmap OutPoint coin) : gmap OutPoint coin :=
  addCoins (TxHash tx) 0 (TxOuts tx) (IsCoinBaseTx tx) height
    (if IsCoinBaseTx tx then m else spendCoins (TxIns tx) m).

Fixpoint applyTxs (height : Z) (txs : list MsgTx) (m : gmap OutPoint coin) : gmap OutPoint coin :=
  match txs with
  | [] => m
  | tx :: txs => applyTxs height txs (applyTx height tx m)
  end.

(** The output scripts are byte strings that a script can be. *)
Definition outs_ok (outs : list TxOut) : Prop :=
  Forall (fun out => bytes_ok (PkScript out) /\ Zlen (PkScript out) < 2 ^ 31) outs.

(** What the checks before connecting ensure of a transaction: its outputs
    are new, and its inputs are distinct coins of the set, none from the
    genesis block. *)
Record tx_spends (tx : MsgTx) (m : gmap OutPoint coin) : Prop := {
  sp_outs : outs_ok (TxOuts tx);
  sp_fresh : forall op, Wire.Hash op = TxHash tx -> m !! op = None;
  sp_distinct : IsCoinBaseTx tx = false -> NoDup (PreviousOutPoint <$> TxIns tx);
  sp_live : IsCoinBaseTx tx = false ->
    Forall (fun txIn => exists c, m !! PreviousOutPoint txIn = Some c /\ c_height c <> 0) (TxIns tx);
}.

Fixpoint spends (height : Z) (txs : list MsgTx) (m : gmap OutPoint coin) : Prop :=
  match txs with
  | [] => True
  | tx :: txs => tx_spends tx m /\ spends height txs (applyTx height tx m)
  end.

End Spec.

(** ** Flags *)
Lemma flag_bit f k : 0 <= k -> (Z.land f (2 ^ k) =? 2 ^ k) = Z.testbit f k.
Proof.
  intros Hk. rewrite land_pow2 by done. pose proof (Z.pow_pos_nonneg 2 k).
  destruct (Z.testbit f k); cbn [Z.b2z]; [rewrite Z.mul_1_l; apply Z.eqb_refl|]. apply Z.eqb_neq. lia.
Qed.

Lemma IsSpent_bit e : IsSpent e = Z.testbit (packedFlags e) 1.
Proof. apply (flag_bit _ 1). lia. Qed.
Lemma IsCoinBase_bit e : IsCoinBase e = Z.testbit (packedFlags e) 0.
Proof. apply (flag_bit _ 0). lia. Qed.
Lemma isModified_bit e : isModified e = Z.testbit (packedFlags e) 2.
Proof. apply (flag_bit _ 2). lia. Qed.
Lemma isFresh_bit e : isFresh e = Z.testbit (packedFlags e) 3.
Proof. apply (flag_bit _ 3). lia. Qed.

Lemma Spend_spent e : IsSpent (Spend e) = true.
Proof. unfold Spend. destruct (IsSpent e) eqn:Hs; [done|]. rewrite IsSpent_bit. cbn [packedFlags]. rewrite Z.lor_spec. apply orb_true_r. Qed.
Lemma Spend_fresh e : isFresh (Spend e) = isFresh e.
Proof.
  unfold Spend. destruct (IsSpent e); [done|]. rewrite !isFresh_bit. cbn [packedFlags]. rewrite Z.lor_spec. apply orb_false_r.
Qed.

(** ** Views and coins *)
Lemma coins_lookup v op : coins v !! op = live (LookupEntry v op).
Proof. unfold coins, LookupEntry. rewrite lookup_omap. by destruct (entries v !! op). Qed.

Lemma coins_set_live op e v : IsSpent e = false -> coins (setEntry op e v) = <[op := coinOf e]> (coins v).
Proof. intros Hs. apply omap_insert_Some. unfold live. by rewrite Hs. Qed.

Lemma coins_set_spent op e v : IsSpent e = true -> coins (setEntry op e v) = delete op (coins v).
Proof. intros Hs. apply omap_insert_None. unfold live. by rewrite Hs. Qed.

Lemma unspendable_ok out : bytes_ok (PkScript out) /\ Zlen (PkScript out) < 2 ^ 31 ->
  noErr (IsUnspendable (PkScript out)) = Ok (unspendable (PkScript out)).
Proof.
  intros [Hb Hl]. destruct (script_walks_total (PkScript out) 1 Hb Hl) as (_ & _ & (b & Hu) & _).
  unfold unspendable. by rewrite Hu.
Qed.

Lemma addTxOut_coins op out cb height v : bytes_ok (PkScript out) /\ Zlen (PkScript out) < 2 ^ 31 ->
  exists v', addTxOut op out cb height v = Ok v' /\ bestHash v' = bestHash v /\
    coins v' = if unspendable (PkScript out) then coins v
               else <[op := mkCoin (Value out) (PkScript out) height cb]> (coins v).
Proof.
  intros Hok. unfold addTxOut. rewrite unspendable_ok, bind_Ok by done.
  destruct (unspendable (PkScript out)); [by exists v|]. eexists. split; [done|]. split; [done|].
  rewrite coins_set_live by (by destruct cb). by destruct cb.
Qed.

Lemma addOuts_coins hash outs : outs_ok outs -> forall i cb height v,
  exists v', addOuts hash i outs cb height v = Ok v' /\ bestHash v' = bestHash v /\
    coins v' = addCoins hash i outs cb height (coins v).
Proof.
  induction 1 as [|out outs Hok Houts IH]; intros i cb height v; cbn [addOuts addCoins]; [by exists v|].
  destruct (addTxOut_coins (mkOutPoint hash (u32 i)) out cb height v Hok) as (v1 & Hv1 & Hb1 & Hc1).
  rewrite Hv1, bind_Ok. destruct (IH (i + 1) cb height v1) as (v2 & Hv2 & Hb2 & Hc2).
  exists v2. rewrite Hb2, Hc2, Hc1. done.
Qed.

(** The journal record of a coin. *)
Definition recordOf (c : coin) : SpentTxOut := mkSpent (c_amount c) (c_script c) (c_height c) (c_coinbase c).

Lemma lookup_live v op c : coins v !! op = Some c ->
  exists e, LookupEntry v op = Some e /\ IsSpent e = false /\ coinOf e = c.
Proof.
  rewrite coins_lookup. unfold live. destruct (LookupEntry v op) as [e|]; [|done].
  destruct (IsSpent e) eqn:Hs; [done|]. intros [= <-]. by exists e.
Qed.

Lemma spendInputs_coins ins : NoDup (PreviousOutPoint <$> ins) -> forall v cs st,
  Forall2 (fun txIn c => coins v !! PreviousOutPoint txIn = Some c) ins cs ->
  exists v', spendInputs ins v st = Ok (v', (fun l => l ++ (recordOf <$> cs)) <$> st) /\ bestHash v' = bestHash v /\
    coins v' = spendCoins ins (coins v).
Proof.
  induction ins as [|txIn ins IH]; intros Hnd v cs st Hcs; cbn [spendInputs spendCoins].
  - apply Forall2_nil_inv_l in Hcs as ->. exists v. split; [|done]. destruct st; cbn; [by rewrite app_nil_r|done].
  - apply Forall2_cons_inv_l in Hcs as (c & cs' & Hc & Hcs & ->). rewrite fmap_cons in Hnd.
    apply list.NoDup_cons in Hnd as [Hni Hnd]. destruct (lookup_live _ _ _ Hc) as (e & -> & Hs & Hce).
    pose proof (coins_set_spent (PreviousOutPoint txIn) (Spend e) v (Spend_spent e)) as Hv1.
    destruct (IH Hnd (setEntry (PreviousOutPoint txIn) (Spend e) v) cs' (appendSpent e st)) as (v2 & -> & Hb & Hc2).
    + rewrite Hv1. apply Forall2_same_length_lookup_2; [by apply Forall2_length in Hcs|].
      intros i ti c' Hti Hci. rewrite lookup_delete_ne; [by eapply Forall2_lookup_lr in Hcs|].
      intros Heq. apply Hni. rewrite Heq. apply list_elem_of_fmap. exists ti. split; [done|]. by eapply list_elem_of_lookup_2.
    + exists v2. rewrite Hc2, Hv1. split; [|done]. do 2 f_equal. destruct st as [l|]; [|done]. cbn.
      rewrite <- (assoc_L (++)). f_equal. cbn. f_equal. subst c. done.
Qed.

(** ** Disconnecting what was connected *)

(** The outpoints that a transaction adds. *)
Fixpoint added (hash : list Z) (i : Z) (outs : list TxOut) : list OutPoint :=
  match outs with
  | [] => []
  | out :: outs =>
      (if unspendable (PkScript out) then [] else [mkOutPoint hash (u32 i)]) ++ added hash (i + 1) outs
  end.

Fixpoint dropCoins (ops : list OutPoint) (m : gmap OutPoint coin) : gmap OutPoint coin :=
  match ops with
  | [] => m
  | op :: ops => dropCoins ops (delete op m)
  end.

Lemma dropCoins_lookup ops op : forall m, dropCoins ops m !! op = if decide (op ∈ ops) then None else m !! op.
Proof.
  induction ops as [|o ops IH]; intros m; cbn [dropCoins].
  - rewrite decide_False; [done|]. apply not_elem_of_nil.
  - rewrite IH. destruct (decide (op ∈ ops)) as [Hin|Hin]; [rewrite decide_True; [done|by right]|].
    destruct (decide (op = o)) as [->|Hne]; [rewrite decide_True, lookup_delete_eq; [done|by left]|].
    rewrite decide_False, lookup_delete_ne by (done || (rewrite list.elem_of_cons; tauto)). done.
Qed.

Lemma spendCoins_drop ins : forall m, spendCoins ins m = dropCoins (PreviousOutPoint <$> ins) m.
Proof. induction ins as [|ti ins IH]; intros m; [done|]. cbn. apply IH. Qed.

Lemma addCoins_other hash outs op : forall i cb height m, op ∉ added hash i outs ->
  addCoins hash i outs cb height m !! op = m !! op.
Proof.
  induction outs as [|out outs IH]; intros i cb height m Hni; cbn [addCoins added] in *; [done|].
  rewrite not_elem_of_app in Hni. destruct Hni as [Hh Ht]. rewrite IH by done.
  destruct (unspendable (PkScript out)); [done|]. rewrite lookup_insert_ne; [done|].
  intros <-. apply Hh. by left.
Qed.

Lemma added_hash hash outs op : forall i, op ∈ added hash i outs -> Wire.Hash op = hash.
Proof.
  induction outs as [|out outs IH]; intros i; cbn [added]; [by intros ?%elem_of_nil|].
  rewrite elem_of_app. intros [Hin|Hin]; [|by eapply IH].
  destruct (unspendable (PkScript out)); [by apply elem_of_nil in Hin|]. by apply list_elem_of_singleton in Hin as ->.
Qed.

(** Dropping what was added to a set without those outpoints gives it back. *)
Lemma drop_added hash outs cb height m : (forall op, Wire.Hash op = hash -> m !! op = None) ->
  dropCoins (added hash 0 outs) (addCoins hash 0 outs cb height m) = m.
Proof.
  intros Hfresh. apply map_eq. intros op. rewrite dropCoins_lookup.
  destruct (decide (op ∈ added hash 0 outs)) as [Hin|Hin].
  - symmetry. apply Hfresh. by eapply added_hash.
  - by apply addCoins_other.
Qed.

Lemma removeOuts_coins hash outs : outs_ok outs -> forall i flags height v,
  exists v', removeOuts hash i outs flags height v = Ok v' /\ bestHash v' = bestHash v /\
    coins v' = dropCoins (added hash i outs) (coins v).
Proof.
  induction 1 as [|out outs Hok Houts IH]; intros i flags height v; cbn [removeOuts added]; [by exists v|].
  rewrite unspendable_ok, bind_Ok by done. destruct (unspendable (PkScript out)); [apply IH|].
  cbv zeta. set (e := default _ _). destruct (IH (i + 1) flags height (setEntry (mkOutPoint hash (u32 i)) (Spend e) v))
    as (v' & -> & Hb & Hc). exists v'. rewrite Hc, coins_set_spent by apply Spend_spent. done.
Qed.

Section Db.
Variable db : list Z -> outcome RuleError (option UtxoEntry).

(** The inputs, last one first, take the records at the end of the journal
    and give back the coins. *)
Lemma restoreInputs_coins hash m ins : NoDup (PreviousOutPoint <$> ins) -> forall cs pre post v,
  Forall2 (fun txIn c => m !! PreviousOutPoint txIn = Some c /\ c_height c <> 0) ins cs ->
  coins v = spendCoins ins m ->
  exists v', restoreInputs db hash (rev ins) v (pre ++ (recordOf <$> cs) ++ post) (Zlen pre + Zlen cs - 1)
             = Ok (v', pre ++ (recordOf <$> cs) ++ post, Zlen pre - 1) /\
    bestHash v' = bestHash v /\ coins v' = m.
Proof.
  induction ins as [|txIn ins IH] using rev_ind; intros Hnd cs pre post v Hcs Hv.
  - apply Forall2_nil_inv_l in Hcs as ->. exists v. cbn. split; [|done]. do 3 f_equal. change (Zlen (@nil coin)) with 0. lia.
  - apply Forall2_app_inv_l in Hcs as (cs1 & cs2 & Hcs1 & Hcs2 & ->).
    apply Forall2_cons_inv_l in Hcs2 as (c & cs' & [Hc Hh] & Hnil & ->). apply Forall2_nil_inv_l in Hnil as ->.
    rewrite fmap_app in Hnd. apply list.NoDup_app in Hnd as (Hnd & Hdis & _).
    rewrite rev_unit. cbn [restoreInputs]. rewrite fmap_app, <- (assoc_L (++)), Zlen_app.
    change (recordOf <$> [c]) with [recordOf c]. change (Zlen [c]) with 1.
    set (L := pre ++ _). assert (Hidx : (pre ++ (recordOf <$> cs1)) ++ [recordOf c] ++ post = L) by (unfold L; by rewrite <- (assoc_L (++))).
    assert (Hlen : Zlen (pre ++ (recordOf <$> cs1)) = Zlen pre + (Zlen cs1 + 1) - 1)
      by (rewrite Zlen_app; unfold Zlen; rewrite length_fmap; lia).
    rewrite <- Hlen. assert (Hi : index (E:=RuleError) L (Zlen (pre ++ (recordOf <$> cs1))) = Ok (recordOf c))
      by (rewrite <- Hidx, index_app_0; apply index_cons_0).
    rewrite Hi, bind_Ok. cbn [s_Height recordOf]. rewrite (proj2 (Z.eqb_neq _ _)) by done. rewrite bind_Ok.
    assert (Hins : <[Z.to_nat (Zlen (pre ++ (recordOf <$> cs1))) := recordOf c]> L = L)
      by (apply index_ok_iff in Hi as [_ Hi]; by apply list_insert_id).
    rewrite Hins. cbn [s_Amount s_PkScript s_Height s_IsCoinBase recordOf].
    set (v1 := match LookupEntry v _ with Some _ => _ | None => _ end).
    set (e := mkEntry _ _ _ _). assert (Hlive : IsSpent e = false) by (unfold e; by destruct (c_coinbase c)).
    assert (Hce : coinOf e = c) by (unfold e, coinOf, IsCoinBase; destruct c as [? ? ? []]; done).
    assert (Hv1 : <[PreviousOutPoint txIn := c]> (coins v1) = <[PreviousOutPoint txIn := c]> (coins v)).
    { unfold v1. destruct (LookupEntry v _); [done|]. rewrite coins_set_live by done. apply insert_insert_eq. }
    assert (Hv2 : coins (setEntry (PreviousOutPoint txIn) e v1) = spendCoins ins m).
    { rewrite coins_set_live, Hce, Hv1, Hv by done. rewrite !spendCoins_drop, fmap_app.
      apply map_eq. intros op. destruct (decide (op = PreviousOutPoint txIn)) as [->|Hne].
      - rewrite lookup_insert_eq, dropCoins_lookup, decide_False; [done|]. intros Hin. apply (Hdis _ Hin). by left.
      - rewrite lookup_insert_ne, !dropCoins_lookup by done. destruct (decide (op ∈ PreviousOutPoint <$> ins)) as [Hin|Hin].
        + rewrite decide_True; [done|]. apply elem_of_app. by left.
        + rewrite decide_False; [done|]. change (PreviousOutPoint <$> [txIn]) with [PreviousOutPoint txIn]. rewrite elem_of_app, list_elem_of_singleton. tauto. }
    destruct (IH Hnd cs1 pre ([recordOf c] ++ post) (setEntry (PreviousOutPoint txIn) e v1) Hcs1 Hv2) as (v' & Hrun & Hb & Hc').
    exists v'. split; [|split; [rewrite Hb; unfold v1; by destruct (LookupEntry v _)|done]].
    etransitivity; [|exact Hrun]. f_equal. rewrite Hlen. lia.
Qed.

Section Hash.
Context {H : Hashes}.

(** The records that connecting a transaction appends to the journal. *)
Definition spentBy (tx : MsgTx) (m : gmap OutPoint coin) : list coin :=
  if IsCoinBaseTx tx then [] else omap (fun txIn => m !! PreviousOutPoint txIn) (TxIns tx).

Fixpoint spentByAll (height : Z) (txs : list MsgTx) (m : gmap OutPoint coin) : list coin :=
  match txs with
  | [] => []
  | tx :: txs => spentBy tx m ++ spentByAll height txs (applyTx height tx m)
  end.

Lemma spentBy_live tx m : tx_spends tx m -> IsCoinBaseTx tx = false ->
  Forall2 (fun txIn c => m !! PreviousOutPoint txIn = Some c /\ c_height c <> 0) (TxIns tx) (spentBy tx m).
Proof using.
  intros [_ _ _ Hl] Hcb. specialize (Hl Hcb). unfold spentBy. rewrite Hcb.
  induction Hl as [|txIn ins (c & Hc & Hh) _ IH]; [constructor|]. cbn. rewrite Hc. by constructor.
Qed.

(** What connecting does to the coins of the view, whatever they are. *)
Lemma connectTransaction_live tx height v st : outs_ok (TxOuts tx) ->
  (IsCoinBaseTx tx = false -> NoDup (PreviousOutPoint <$> TxIns tx)) ->
  (IsCoinBaseTx tx = false -> Forall (fun txIn => is_Some (coins v !! PreviousOutPoint txIn)) (TxIns tx)) ->
  exists v', connectTransaction tx height v st
             = Ok (v', (fun l => l ++ (recordOf <$> spentBy tx (coins v))) <$> st) /\
    bestHash v' = bestHash v /\ coins v' = applyTx height tx (coins v).
Proof using.
  intros Hok Hnd Hl. unfold connectTransaction, applyTx, AddTxOuts, spentBy.
  destruct (IsCoinBaseTx tx) eqn:Hcb.
  - destruct (addOuts_coins (TxHash tx) (TxOuts tx) Hok 0 true height v) as (v' & -> & Hb & Hc).
    rewrite bind_Ok. exists v'. split; [|done]. destruct st; cbn; [by rewrite app_nil_r|done].
  - destruct (spendInputs_coins (TxIns tx) (Hnd eq_refl) v (omap (fun txIn => coins v !! PreviousOutPoint txIn) (TxIns tx)) st)
      as (v1 & -> & Hb1 & Hc1).
    { clear Hnd. specialize (Hl eq_refl). induction Hl as [|txIn ins [c Hc] _ IH]; [constructor|]. cbn. rewrite Hc. by constructor. }
    rewrite bind_Ok. destruct (addOuts_coins (TxHash tx) (TxOuts tx) Hok 0 false height v1) as (v' & -> & Hb & Hc).
    rewrite bind_Ok. exists v'. split; [done|]. by rewrite Hb, Hc, Hc1.
Qed.

Lemma connectTransaction_coins tx height v st : tx_spends tx (coins v) ->
  exists v', connectTransaction tx height v st
             = Ok (v', (fun l => l ++ (recordOf <$> spentBy tx (coins v))) <$> st) /\
    bestHash v' = bestHash v /\ coins v' = applyTx height tx (coins v).
Proof using.
  intros [Hok _ Hnd Hl]. apply connectTransaction_live; [done..|]. intros Hcb.
  eapply list.Forall_impl; [exact (Hl Hcb)|]. by intros ti (c & -> & _).
Qed.

Lemma connectLoop_coins txs height : forall v st, spends height txs (coins v) ->
  exists v', connectLoop txs height v st
             = Ok (v', (fun l => l ++ (recordOf <$> spentByAll height txs (coins v))) <$> st) /\
    bestHash v' = bestHash v /\ coins v' = applyTxs height txs (coins v).
Proof using.
  induction txs as [|tx txs IH]; intros v st Hsp; cbn [connectLoop spends spentByAll applyTxs] in *.
  - exists v. split; [|done]. destruct st; cbn; [by rewrite app_nil_r|done].
  - destruct Hsp as [Htx Hsp]. destruct (connectTransaction_coins tx height v st Htx) as (v1 & -> & Hb1 & Hc1).
    rewrite bind_Ok. rewrite <- Hc1 in *. destruct (IH v1 ((fun l => l ++ (recordOf <$> spentBy tx (coins v))) <$> st) Hsp)
      as (v2 & -> & Hb2 & Hc2).
    exists v2. rewrite Hb2, Hc2. split; [|done]. do 2 f_equal. destruct st as [l|]; [|done]. cbn. f_equal.
    by rewrite fmap_app, (assoc_L (++)).
Qed.

(** One transaction of the block, given the records at the end. *)
Lemma disconnectTransaction_coins i tx height m w pre post :
  tx_spends tx m -> IsCoinBaseTx tx = Nat.eqb i 0 -> coins w = applyTx height tx m ->
  exists w', disconnectTransaction db i tx height w (pre ++ (recordOf <$> spentBy tx m) ++ post)
               (Zlen pre + Zlen (spentBy tx m) - 1)
             = Ok (w', pre ++ (recordOf <$> spentBy tx m) ++ post, Zlen pre - 1) /\
    bestHash w' = bestHash w /\ coins w' = m.
Proof using.
  intros Hsp Hcb Hw. pose proof Hsp as [Hok Hfresh Hnd _]. unfold disconnectTransaction. rewrite <- Hcb.
  unfold applyTx in Hw.
  destruct (removeOuts_coins (TxHash tx) (TxOuts tx) Hok 0 (if IsCoinBaseTx tx then Z.lor 0 tfCoinBase else 0) height w)
    as (w1 & -> & Hb1 & Hc1). rewrite bind_Ok. rewrite Hw in Hc1.
  destruct (IsCoinBaseTx tx) eqn:Hc.
  - exists w1. rewrite Hc1, drop_added by done. split; [|done]. unfold spentBy. rewrite Hc. cbn. do 3 f_equal.
    change (Zlen (@nil coin)) with 0. lia.
  - rewrite drop_added in Hc1.
    2: { intros op Hop. rewrite spendCoins_drop, dropCoins_lookup. destruct (decide _); [done|]. by apply Hfresh. }
    destruct (restoreInputs_coins (TxHash tx) m (TxIns tx) (Hnd eq_refl) (spentBy tx m) pre post w1) as (w2 & -> & Hb2 & Hc2).
    + by apply spentBy_live.
    + done.
    + exists w2. rewrite Hb2. done.
Qed.

Lemma applyTxs_snoc height txs tx : forall m, applyTxs height (txs ++ [tx]) m = applyTx height tx (applyTxs height txs m).
Proof using. induction txs as [|t txs IH]; intros m; cbn; [done|apply IH]. Qed.

Lemma spentByAll_snoc height txs tx : forall m,
  spentByAll height (txs ++ [tx]) m = spentByAll height txs m ++ spentBy tx (applyTxs height txs m).
Proof using. induction txs as [|t txs IH]; intros m; cbn; [by rewrite app_nil_r|]. by rewrite IH, (assoc_L (++)). Qed.

Lemma spends_snoc height txs tx : forall m,
  spends height (txs ++ [tx]) m <-> spends height txs m /\ tx_spends tx (applyTxs height txs m).
Proof using. induction txs as [|t txs IH]; intros m; cbn; [tauto|]. rewrite IH. tauto. Qed.

Lemma disconnectLoop_coins height m all front : forall back w post,
  all = front ++ back -> (forall i tx, front !! i = Some tx -> IsCoinBaseTx tx = Nat.eqb i 0) ->
  spends height front m -> coins w = applyTxs height front m ->
  exists w', disconnectLoop db (length front) all height w ((recordOf <$> spentByAll height front m) ++ post)
               (Zlen (spentByAll height front m) - 1)
             = Ok (w', (recordOf <$> spentByAll height front m) ++ post, -1) /\
    bestHash w' = bestHash w /\ coins w' = m.
Proof using.
  induction front as [|tx front IH] using rev_ind; intros back w post Hall Hcb Hsp Hw; [by exists w|].
  apply spends_snoc in Hsp as [Hsp Htx]. rewrite applyTxs_snoc in Hw.
  rewrite spentByAll_snoc, fmap_app, <- (assoc_L (++)), Zlen_app, length_app, Nat.add_1_r.
  cbn [disconnectLoop].
  assert (Hi : index (E:=RuleError) all (Z.of_nat (length front)) = Ok tx).
  { rewrite Hall, <- (assoc_L (++)). fold (Zlen front). rewrite index_app_0. apply index_cons_0. }
  rewrite Hi, bind_Ok.
  assert (Hz : Zlen (recordOf <$> spentByAll height front m) = Zlen (spentByAll height front m)) by (unfold Zlen; by rewrite length_fmap).
  rewrite <- Hz. destruct (disconnectTransaction_coins (length front) tx height _ w (recordOf <$> spentByAll height front m) post Htx)
    as (w1 & -> & Hb1 & Hc1); [|done|].
  { apply Hcb. by rewrite lookup_app_r, Nat.sub_diag by lia. }
  rewrite bind_Ok, Hz.
  destruct (IH ([tx] ++ back) w1 ((recordOf <$> spentBy tx (applyTxs height front m)) ++ post)) as (w2 & -> & Hb2 & Hc2).
  - by rewrite Hall, <- (assoc_L (++)).
  - intros i t Hit. apply Hcb. by apply lookup_app_l_Some.
  - done.
  - done.
  - exists w2. rewrite Hb2. done.
Qed.

Lemma spentBy_length tx m : tx_spends tx m -> IsCoinBaseTx tx = false -> Zlen (spentBy tx m) = Zlen (TxIns tx).
Proof using. intros Hsp Hcb. unfold Zlen. f_equal. symmetry. by eapply Forall2_length, spentBy_live. Qed.

Lemma spentByAll_length height txs : Forall (fun tx => IsCoinBaseTx tx = false) txs -> forall m, spends height txs m ->
  Zlen (spentByAll height txs m) = sum ((fun tx => Zlen (TxIns tx)) <$> txs).
Proof using.
  induction 1 as [|tx txs Hcb _ IH]; intros m Hsp; [done|]. destruct Hsp as [Htx Hsp]. cbn [spentByAll].
  rewrite Zlen_app, spentBy_length, IH by done. done.
Qed.

(** C12. Disconnecting a block undoes connecting it: when every transaction
    spends distinct coins of the set and adds new ones, the view takes the
    block and the journal gets one record for each input; disconnecting with
    that journal then restores exactly the coins before the block, with their
    heights and coinbase flags, and the hash of the previous block, without
    asking the database. *)
Theorem connect_disconnect block height v cb txs
    (Htxs : Transactions block = cb :: txs) (Hcb : IsCoinBaseTx cb = true)
    (Hno : Forall (fun tx => IsCoinBaseTx tx = false) txs) (Hsp : spends height (cb :: txs) (coins v)) :
  exists v' journal v'',
    connectTransactions block height v (Some []) = Ok (v', Some journal) /\
    coins v' = applyTxs height (cb :: txs) (coins v) /\ bestHash v' = BlockHash (Header block) /\
    Zlen journal = sum ((fun tx => Zlen (TxIns tx)) <$> txs) /\
    disconnectTransactions db block height v' journal = Ok v'' /\
    coins v'' = coins v /\ bestHash v'' = PrevBlock (Header block).
Proof using.
  destruct (connectLoop_coins (cb :: txs) height v (Some []) Hsp) as (v1 & Hrun & _ & Hc1).
  set (journal := recordOf <$> spentByAll height (cb :: txs) (coins v)).
  assert (Hlen : Zlen journal = sum ((fun tx => Zlen (TxIns tx)) <$> txs)).
  { unfold journal, Zlen. rewrite length_fmap. fold (Zlen (spentByAll height (cb :: txs) (coins v))).
    cbn [spentByAll]. unfold spentBy at 1. rewrite Hcb. destruct Hsp as [_ Hsp]. by apply spentByAll_length. }
  set (v' := SetBestHash (BlockHash (Header block)) v1).
  destruct (disconnectLoop_coins height (coins v) (cb :: txs) (cb :: txs) [] v' []) as (v2 & Hdis & Hb2 & Hc2).
  - by rewrite app_nil_r.
  - intros [|i] tx; cbn; [by intros [= <-]|]. intros Hi. rewrite list.Forall_forall in Hno. apply Hno. by eapply list_elem_of_lookup_2.
  - done.
  - done.
  - exists v', journal, (SetBestHash (PrevBlock (Header block)) v2). split_and!; try done.
    + unfold connectTransactions. by rewrite Htxs, Hrun.
    + assert (Hcount : countSpentOutputs block = Ok (Zlen journal)).
      { unfold countSpentOutputs. rewrite Htxs, (slice_suffix [cb] txs), Hlen; [done|done|].
        rewrite Zlen_cons. change (Zlen [cb]) with 1. lia. }
      unfold disconnectTransactions. rewrite Hcount, bind_Ok, Z.eqb_refl, Htxs. cbn [negb].
      rewrite app_nil_r in Hdis. fold journal in Hdis.
      replace (Zlen journal - 1) with (Zlen (spentByAll height (cb :: txs) (coins v)) - 1)
        by (unfold journal, Zlen; by rewrite length_fmap).
      by rewrite Hdis.
Qed.

End Hash.
End Db.

(** ** Concrete instances *)
Module Toy.
Import SigHash.Toy.
#[local] Existing Instance toy_hashes.

(** A coin of height 5, a coinbase and a payment that spends the coin. *)
Definition old : OutPoint := mkOutPoint (replicate 32 1) 0.
Definition start : UtxoViewpoint := setEntry old (mkEntry 700 [0x51] 5 tfCoinBase) NewUtxoViewpoint.
Definition cb : MsgTx := mkMsgTx 1 [mkTxIn (mkOutPoint zeroHash MaxUint32) [1; 2] [] 0] [mkTxOut 5000 [0x51]] 0.
Definition pay : MsgTx := mkMsgTx 1 [mkTxIn old [] [] 0] [mkTxOut 400 [0x52]; mkTxOut 300 [0x6a]] 0.
Definition block : MsgBlock := mkMsgBlock (mkBlockHeader 1 (replicate 32 3) zeroHash 0 0 0) [cb; pay].

Lemma no_hash_none m hash : Forall (fun p => Wire.Hash p.1 <> hash) (map_to_list m) ->
  forall op : OutPoint, Wire.Hash op = hash -> m !! op = @None coin.
Proof.
  intros Hall op Hop. destruct (m !! op) as [c|] eqn:Hc; [|done]. apply elem_of_map_to_list in Hc.
  rewrite list.Forall_forall in Hall. by destruct (Hall _ Hc).
Qed.

Lemma block_spends : spends 9 [cb; pay] (coins start).
Proof.
  split; [|split; [|done]].
  - split; [apply (bool_decide_unpack _); vm_compute; exact I| |done|done].
    apply no_hash_none. apply (bool_decide_unpack _). vm_compute. exact I.
  - split.
    + apply (bool_decide_unpack _); vm_compute; exact I.
    + apply no_hash_none. apply (bool_decide_unpack _). vm_compute. exact I.
    + intros _. apply NoDup_singleton.
    + intros _. apply Forall_cons_2; [|apply Forall_nil_2]. exists (mkCoin 700 [0x51] 5 true). by vm_compute.
Qed.

Lemma connect_disconnect_witness : exists v' journal v'',
  connectTransactions block 9 start (Some []) = Ok (v', Some journal) /\ Zlen journal = 1 /\
  disconnectTransactions (fun _ => Panic) block 9 v' journal = Ok v'' /\ coins v'' = coins start.
Proof.
  destruct (connect_disconnect (fun _ => Panic) block 9 start cb [pay]) as (v' & j & v'' & Hrun & _ & _ & Hlen & Hdis & Hc & _);
    [reflexivity|reflexivity|apply Forall_cons_2; [reflexivity|apply Forall_nil_2]|apply block_spends|].
  exists v', j, v''. split; [exact Hrun|]. split; [exact Hlen|]. split; [exact Hdis|exact Hc].
Defined.

(** A journal record of the old format has no height: the code completes it
    from the outputs of the transaction that spent the coin, so the coin of
    height 5 comes back as one of height 9 that is not a coinbase. *)
Example legacy_record_takes_wrong_height :
  match connectTransactions block 9 start (Some []) with
  | Ok (v', _) =>
      match disconnectTransactions (fun _ => Panic) block 9 v' [mkSpent 700 [0x51] 0 false] with
      | Ok v'' => coins v'' !! old = Some (mkCoin 700 [0x51] 9 false)
      | _ => False
      end
  | _ => False
  end.
Proof. by vm_compute. Qed.

(** Committing an entry that was only read marks it modified. *)
Example commit_flips_unmodified :
  (fun e => isModified e) <$> LookupEntry (commit (setEntry old (mkEntry 700 [0x51] 5 0) NewUtxoViewpoint)) old = Some true.
Proof. by vm_compute. Qed.

End Toy.
End Utxo.
