(* ===== verification/Chainio.v ===== *)
(** * The chain database

    Models the serialised forms of coin/OrcaNet/blockchain/chainio.go: the
    keys and entries of the utxo set, the spend journal, the height index,
    the best chain state and the rows of the block index, on a key/value
    bucket of the database.  A bucket is a finite map from byte strings to
    byte strings, with the documented Get, Put and Delete of the database
    interface; the pool that recycles key buffers is not modelled. *)

From S2P Require Import Prelude Vlq Compress Wire SigHash Difficulty Utxo.

Module Chainio.
Import Vlq Compress Wire SigHash Difficulty Utxo.

Inductive DbError :=
| errDeserialize (str : string)
| AssertError (str : string)
| errNotInMainChain (str : string)
| ErrCorruption
(** the reader's io.ErrUnexpectedEOF and io.EOF *)
| ReadError.

#[export] Instance DbError_eq_dec : EqDecision DbError.
Proof. solve_decision. Defined.

(** A call without an error result. *)
Definition noErr {E A} (m : outcome E A) : outcome DbError A :=
  match m with Ok a => Ok a | Err _ => Panic | Panic => Panic | Hang => Hang end.

Definition Bucket : Type := gmap (list Z) (list Z).

(** target[offset:] is written by a function that returns the new bytes and
    how many it wrote. *)
Definition putAt {E} (put : list Z -> outcome E (list Z * Z)) (target : list Z) (offset : Z)
    : outcome DbError (list Z * Z) :=
  if Zlen target <? offset then Panic
  else
    '(tail, n) ← noErr (put (drop (Z.to_nat offset) target));
    mret (take (Z.to_nat offset) target ++ tail, offset + n).

Section Lib.
Context `{L : PubKeyLib}.

(** ** The spend journal *)
Definition spentTxOutHeaderCode (stxo : SpentTxOut) : Z :=
  let headerCode := u64 (Z.shiftl (u64 (s_Height stxo)) 1) in
  if s_IsCoinBase stxo then Z.lor headerCode 1 else headerCode.

Definition spentTxOutSerializeSize (stxo : SpentTxOut) : outcome DbError Z :=
  size ← noErr (serializeSizeVLQ (spentTxOutHeaderCode stxo));
  size ← (if 0 <? s_Height stxo then n ← noErr (serializeSizeVLQ 0); mret (size + n) else Ok size);
  n ← noErr (compressedTxOutSize (u64 (s_Amount stxo)) (s_PkScript stxo));
  mret (size + n).

Definition putSpentTxOut (target : list Z) (stxo : SpentTxOut) : outcome DbError (list Z * Z) :=
  '(target, offset) ← putAt (fun t => putVLQ t (spentTxOutHeaderCode stxo)) target 0;
  '(target, offset) ← (if 0 <? s_Height stxo then putAt (fun t => putVLQ t 0) target offset else Ok (target, offset));
  putAt (fun t => putCompressedTxOut t (u64 (s_Amount stxo)) (s_PkScript stxo)) target offset.

(** The number of bytes read is returned with an error too, and the caller
    does not use it then. *)
Definition decodeSpentTxOut (serialized : list Z) : outcome DbError (SpentTxOut * Z) :=
  if Zlen serialized =? 0 then Err (errDeserialize "no serialized bytes")
  else
    let '(code, offset) := deserializeVLQ serialized in
    if Zlen serialized <=? offset then Err (errDeserialize "unexpected end of data after header code")
    else
      let isCoinBase := negb (Z.land code 1 =? 0) in
      let height := i32 (Z.shiftr code 1) in
      offset ← (if 0 <? height then
                  let '(_, bytesRead) := deserializeVLQ (drop (Z.to_nat offset) serialized) in
                  let offset := offset + bytesRead in
                  if Zlen serialized <=? offset then Err (errDeserialize "unexpected end of data after reserved")
                  else Ok offset
                else Ok offset);
      match decodeCompressedTxOut (drop (Z.to_nat offset) serialized) with
      | Ok (amount, pkScript, bytesRead) =>
          Ok (mkSpent (i64 amount) (default [] pkScript) height isCoinBase, offset + bytesRead)
      | Err _ => Err (errDeserialize "unable to decode txout")
      | Panic => Panic
      | Hang => Hang
      end.

(** The records of the inputs from the last one to the first. *)
Fixpoint decodeLoop (n : nat) (serialized : list Z) (offset : Z) (stxos : list SpentTxOut)
    : outcome DbError (list SpentTxOut) :=
  match n with
  | O => Ok stxos
  | S n =>
      rest ← slice serialized offset (Zlen serialized);
      '(stxo, k) ← match decodeSpentTxOut rest with
                   | Err _ => Err (errDeserialize "unable to decode stxo")
                   | r => r
                   end;
      decodeLoop n serialized (offset + k) (stxo :: stxos)
  end.

Definition numStxos (txns : list MsgTx) : Z := sum ((fun tx => Zlen (TxIns tx)) <$> txns).

Definition deserializeSpendJournalEntry (serialized : list Z) (txns : list MsgTx) : outcome DbError (list SpentTxOut) :=
  if Zlen serialized =? 0 then
    if negb (numStxos txns =? 0) then Err (AssertError "mismatched spend journal serialization") else Ok []
  else decodeLoop (Z.to_nat (numStxos txns)) serialized 0 [].

Fixpoint putLoop (stxos : list SpentTxOut) (serialized : list Z) (offset : Z) : outcome DbError (list Z * Z) :=
  match stxos with
  | [] => Ok (serialized, offset)
  | stxo :: stxos =>
      '(serialized, offset) ← putAt (fun t => putSpentTxOut t stxo) serialized offset;
      putLoop stxos serialized offset
  end.

Fixpoint sizeSum (stxos : list SpentTxOut) (size : Z) : outcome DbError Z :=
  match stxos with
  | [] => Ok size
  | stxo :: stxos => n ← spentTxOutSerializeSize stxo; sizeSum stxos (size + n)
  end.

Definition serializeSpendJournalEntry (stxos : list SpentTxOut) : outcome DbError (list Z) :=
  if Zlen stxos =? 0 then Ok []
  else
    size ← sizeSum stxos 0;
    '(serialized, _) ← putLoop (rev stxos) (replicate (Z.to_nat size) 0) 0;
    mret serialized.

Context {H : Hashes}.

(** Get of a missing key and of an empty value both decode as no bytes. *)
Definition dbFetchSpendJournalEntry (spendBucket : Bucket) (block : MsgBlock) : outcome DbError (list SpentTxOut) :=
  let serialized := default [] (spendBucket !! BlockHash (Header block)) in
  blockTxns ← slice (Transactions block) 1 (Zlen (Transactions block));
  match deserializeSpendJournalEntry serialized blockTxns with
  | Err (errDeserialize _) => Err ErrCorruption
  | r => r
  end.

Definition dbPutSpendJournalEntry (blockHash : list Z) (stxos : list SpentTxOut) (spendBucket : Bucket)
    : outcome DbError Bucket :=
  serialized ← serializeSpendJournalEntry stxos;
  mret (<[blockHash := serialized]> spendBucket).

Definition dbRemoveSpendJournalEntry (blockHash : list Z) (spendBucket : Bucket) : Bucket :=
  delete blockHash spendBucket.
Definition dbPruneSpendJournalEntry (blockHashes : list (list Z)) (spendBucket : Bucket) : Bucket :=
  foldl (fun b h => delete h b) spendBucket blockHashes.

(** ** The utxo set *)
Definition outpointKey (outpoint : OutPoint) : outcome DbError (list Z) :=
  let idx := Wire.Index outpoint in
  n ← noErr (serializeSizeVLQ idx);
  '(key, _) ← putAt (fun t => putVLQ t idx) (Wire.Hash outpoint ++ replicate (Z.to_nat n) 0) 32;
  mret key.

Definition utxoEntryHeaderCode (entry : UtxoEntry) : outcome DbError Z :=
  if IsSpent entry then Err (AssertError "attempt to serialize spent utxo header")
  else
    let headerCode := u64 (Z.shiftl (u64 (blockHeight entry)) 1) in
    Ok (if IsCoinBase entry then Z.lor headerCode 1 else headerCode).

(** None is the nil of a spent output. *)
Definition serializeUtxoEntry (entry : UtxoEntry) : outcome DbError (option (list Z)) :=
  if IsSpent entry then Ok None
  else
    headerCode ← utxoEntryHeaderCode entry;
    n ← noErr (serializeSizeVLQ headerCode);
    k ← noErr (compressedTxOutSize (u64 (amount entry)) (pkScript entry));
    '(serialized, offset) ← putAt (fun t => putVLQ t headerCode) (replicate (Z.to_nat (n + k)) 0) 0;
    '(serialized, _) ← putAt (fun t => putCompressedTxOut t (u64 (amount entry)) (pkScript entry)) serialized offset;
    mret (Some serialized).

Definition deserializeUtxoEntry (serialized : list Z) : outcome DbError UtxoEntry :=
  let '(code, offset) := deserializeVLQ serialized in
  if Zlen serialized <=? offset then Err (errDeserialize "unexpected end of data after header")
  else
    let isCoinBase := negb (Z.land code 1 =? 0) in
    let height := i32 (Z.shiftr code 1) in
    match decodeCompressedTxOut (drop (Z.to_nat offset) serialized) with
    | Ok (amount, pkScript, _) =>
        Ok (mkEntry (i64 amount) (default [] pkScript) height (if isCoinBase then Z.lor 0 tfCoinBase else 0))
    | Err _ => Err (errDeserialize "unable to decode utxo")
    | Panic => Panic
    | Hang => Hang
    end.

Definition dbFetchUtxoEntry (utxoBucket : Bucket) (outpoint : OutPoint) : outcome DbError (option UtxoEntry) :=
  key ← outpointKey outpoint;
  match utxoBucket !! key with
  | None => Ok None
  | Some serializedUtxo =>
      if Zlen serializedUtxo =? 0 then Err (AssertError "database contains entry for spent tx output")
      else
        match deserializeUtxoEntry serializedUtxo with
        | Ok entry => Ok (Some entry)
        | Err (errDeserialize _) => Err ErrCorruption
        | Err e => Err e
        | Panic => Panic
        | Hang => Hang
        end
  end.

Definition dbDeleteUtxoEntry (outpoint : OutPoint) (utxoBucket : Bucket) : outcome DbError Bucket :=
  key ← outpointKey outpoint; mret (delete key utxoBucket).

Definition dbPutUtxoEntry (outpoint : OutPoint) (entry : option UtxoEntry) (utxoBucket : Bucket) : outcome DbError Bucket :=
  match entry with
  | None => Err (AssertError "trying to store nil or spent entry")
  | Some entry =>
      if IsSpent entry then Err (AssertError "trying to store nil or spent entry")
      else
        serialized ← serializeUtxoEntry entry;
        key ← outpointKey outpoint;
        mret (<[key := default [] serialized]> utxoBucket)
  end.

(** The view's modified entries, in any order of the map. *)
Fixpoint putEntries (l : list (OutPoint * option UtxoEntry)) (utxoBucket : Bucket) : outcome DbError Bucket :=
  match l with
  | [] => Ok utxoBucket
  | (outpoint, entry) :: l =>
      utxoBucket ← match entry with
                   | None => Ok utxoBucket
                   | Some e =>
                       if negb (isModified e) then Ok utxoBucket
                       else if IsSpent e then dbDeleteUtxoEntry outpoint utxoBucket
                       else dbPutUtxoEntry outpoint (Some e) utxoBucket
                   end;
      putEntries l utxoBucket
  end.
Definition dbPutUtxoView (view : option UtxoViewpoint) (utxoBucket : Bucket) : outcome DbError Bucket :=
  match view with
  | None => Ok utxoBucket
  | Some view => putEntries (map_to_list (entries view)) utxoBucket
  end.

(** The cursor's Seek: the least key that is not below the given one. *)
Fixpoint lexle (a b : list Z) : bool :=
  match a, b with
  | [], _ => true
  | _ :: _, [] => false
  | x :: a, y :: b => (x <? y) || ((x =? y) && lexle a b)
  end.
Definition Seek (key : list Z) (b : Bucket) : option (list Z * list Z) :=
  foldr (fun p acc =>
    if lexle key p.1 then
      match acc with
      | Some q => if lexle p.1 q.1 then Some p else acc
      | None => Some p
      end
    else acc) None (map_to_list b).

Definition dbFetchUtxoEntryByHash (utxoBucket : Bucket) (hash : list Z) : outcome DbError (option UtxoEntry) :=
  key ← outpointKey (mkOutPoint hash 0);
  match Seek key utxoBucket with
  | None => Ok None
  | Some (cursorKey, value) =>
      if Zlen cursorKey <? 32 then Ok None
      else if negb (bool_decide (hash = take 32 cursorKey)) then Ok None
      else entry ← deserializeUtxoEntry value; mret (Some entry)
  end.

End Lib.

(** ** The height index *)
Definition dbPutBlockIndex (hash : list Z) (height : Z) (ix : Bucket * Bucket) : Bucket * Bucket :=
  let serializedHeight := le_bytes 4 (u32 height) in
  (<[hash := serializedHeight]> ix.1, <[serializedHeight := hash]> ix.2).
Definition dbRemoveBlockIndex (hash : list Z) (height : Z) (ix : Bucket * Bucket) : Bucket * Bucket :=
  (delete hash ix.1, delete (le_bytes 4 (u32 height)) ix.2).
Definition dbFetchHeightByHash (hash : list Z) (ix : Bucket * Bucket) : outcome DbError Z :=
  match ix.1 !! hash with
  | None => Err (errNotInMainChain "block is not in the main chain")
  | Some serializedHeight =>
      if Zlen serializedHeight <? 4 then Panic else Ok (i32 (le_val (take 4 serializedHeight)))
  end.
Definition dbFetchHashByHeight (height : Z) (ix : Bucket * Bucket) : outcome DbError (list Z) :=
  match ix.2 !! le_bytes 4 (u32 height) with
  | None => Err (errNotInMainChain "no block at height exists")
  | Some hashBytes => Ok (take 32 (hashBytes ++ replicate 32 0))
  end.

(** ** The best chain state *)
Record bestChainState := mkBestChainState {
  bs_hash : list Z;
  bs_height : Z;
  bs_totalTxns : Z;
  bs_workSum : Z;
}.

(** big.Int.Bytes: the absolute value, most significant byte first. *)
Definition bigBytes (n : Z) : list Z := be_bytes (Z.to_nat (bytesLen n)) (Z.abs n).

Definition serializeBestChainState (state : bestChainState) : list Z :=
  let workSumBytes := bigBytes (bs_workSum state) in
  bs_hash state ++ le_bytes 4 (bs_height state) ++ le_bytes 8 (bs_totalTxns state)
  ++ le_bytes 4 (u32 (Zlen workSumBytes)) ++ workSumBytes.

Definition deserializeBestChainState (serializedData : list Z) : outcome DbError bestChainState :=
  if Zlen serializedData <? 32 + 16 then Err ErrCorruption
  else
    height ← slice serializedData 32 36;
    totalTxns ← slice serializedData 36 44;
    len ← slice serializedData 44 48;
    let workSumBytesLen := le_val len in
    rest ← slice serializedData 48 (Zlen serializedData);
    if u32 (Zlen rest) <? workSumBytesLen then Err ErrCorruption
    else
      workSumBytes ← slice serializedData 48 (u32 (48 + workSumBytesLen));
      mret (mkBestChainState (take 32 serializedData) (le_val height) (le_val totalTxns) (be_val workSumBytes)).

(** ** The rows of the block index *)
Definition blockIndexKey (blockHash : list Z) (height : Z) : list Z := be_bytes 4 height ++ blockHash.

Definition serializeBlockRow (header : BlockHeader) (status : Z) : list Z := writeBlockHeader header ++ [status].

Definition deserializeBlockRow (blockRow : list Z) : outcome DbError (BlockHeader * Z) :=
  match readBlockHeader blockRow with
  | Ok (header, rest) => match rest with status :: _ => Ok (header, status) | [] => Err ReadError end
  | Err _ => Err ReadError
  | Panic => Panic
  | Hang => Hang
  end.

(** ** Writing in place *)
Lemma putAt_spec {E} (put : list Z -> outcome E (list Z * Z)) pre target enc :
  put target = Ok (enc ++ drop (length enc) target, Zlen enc) ->
  putAt put (pre ++ target) (Zlen pre) = Ok ((pre ++ enc) ++ drop (length enc) target, Zlen (pre ++ enc)).
Proof.
  intros Hput. unfold putAt. rewrite Zlen_app. pose proof (Zlen_nonneg target). rewrite (proj2 (Z.ltb_ge _ _)) by lia.
  assert (Z.to_nat (Zlen pre) = length pre) as -> by (unfold Zlen; lia). rewrite drop_app_length, take_app_length, Hput.
  cbn [noErr]. rewrite bind_Ok, Zlen_app, <- (assoc_L (++)). done.
Qed.

Lemma putVLQ_at pre target n : 0 <= n < 2 ^ 64 -> vlqLen n <= Zlen target ->
  putAt (fun t => putVLQ t n) (pre ++ target) (Zlen pre)
  = Ok ((pre ++ vlq n) ++ drop (length (vlq n)) target, Zlen (pre ++ vlq n)).
Proof. intros Hn Hl. apply putAt_spec. by rewrite putVLQ_spec. Qed.

(** ** Header codes *)
Lemma headerCode_spec h (cb : bool) : 0 <= h < 2 ^ 31 ->
  (let headerCode := u64 (Z.shiftl (u64 h) 1) in if cb then Z.lor headerCode 1 else headerCode) = 2 * h + Z.b2z cb.
Proof.
  intros Hh. cbv zeta. rewrite (u64_small h), Z.shiftl_mul_pow2, u64_small by lia. destruct cb; cbn [Z.b2z]; [|lia].
  rewrite <- Z.shiftl_mul_pow2 by lia. rewrite (lor_shiftl_add h 1 1) by lia. lia.
Qed.

Lemma headerCode_decode h (cb : bool) : 0 <= h < 2 ^ 31 ->
  negb (Z.land (2 * h + Z.b2z cb) 1 =? 0) = cb /\ i32 (Z.shiftr (2 * h + Z.b2z cb) 1) = h.
Proof.
  intros Hh. change 1 with (Z.ones 1) at 1. rewrite Z.land_ones, Z.shiftr_div_pow2 by lia. change (2 ^ 1) with 2.
  assert (Hb : 0 <= Z.b2z cb < 2) by (by destruct cb).
  rewrite <- (Z.mod_unique_pos (2 * h + Z.b2z cb) 2 h (Z.b2z cb)) by lia.
  rewrite <- (Z.div_unique_pos (2 * h + Z.b2z cb) 2 h (Z.b2z cb)) by lia.
  split; [by destruct cb|apply i32_small; lia].
Qed.

Section Laws.
Context `{L : PubKeyLib} {P : PubKeyLaws L}.

(** ** Records of the journal *)

(** The limits of a stored output: any amount of the chain, any height. *)
Record stored_ok (amount : Z) (script : list Z) (height : Z) : Prop := {
  st_amount : 0 <= amount <= maxAmount;
  st_script : script_ok script;
  st_height : 0 <= height < 2 ^ 31;
}.

Definition stxo_ok (s : SpentTxOut) : Prop := stored_ok (s_Amount s) (s_PkScript s) (s_Height s).

Definition stxoBytes (s : SpentTxOut) : list Z :=
  vlq (2 * s_Height s + Z.b2z (s_IsCoinBase s)) ++ (if 0 <? s_Height s then vlq 0 else [])
  ++ txOutBytes (s_Amount s) (s_PkScript s).

Lemma amount_64 amount : 0 <= amount <= maxAmount -> u64 amount = amount /\ i64 amount = amount.
Proof. intros Ha. assert (maxAmount < 2 ^ 63) by (by vm_compute). split; [apply u64_small|apply i64_small]; lia. Qed.

Lemma code_range h (cb : bool) : 0 <= h < 2 ^ 31 -> 0 <= 2 * h + Z.b2z cb < 2 ^ 64.
Proof. destruct cb; cbn [Z.b2z]; lia. Qed.

Lemma putSpentTxOut_spec target s : stxo_ok s -> Zlen (stxoBytes s) <= Zlen target ->
  putSpentTxOut target s = Ok (stxoBytes s ++ drop (length (stxoBytes s)) target, Zlen (stxoBytes s)).
Proof using.
  intros [Ha Hs Hh] Hfit. unfold putSpentTxOut, spentTxOutHeaderCode. rewrite headerCode_spec by done.
  unfold stxoBytes in *. set (code := 2 * s_Height s + Z.b2z (s_IsCoinBase s)) in *.
  destruct (amount_64 _ Ha) as [-> _]. set (out := txOutBytes (s_Amount s) (s_PkScript s)) in *.
  set (mid := if 0 <? s_Height s then vlq 0 else []) in *. rewrite !Zlen_app in Hfit.
  pose proof (Zlen_nonneg out). pose proof (Zlen_nonneg mid).
  pose proof (putVLQ_at [] target code (code_range _ _ Hh)) as Hput. cbn [app] in Hput.
  change (Zlen (@nil Z)) with 0 in Hput. rewrite Hput by (unfold vlqLen; lia). clear Hput. rewrite bind_Ok.
  set (rest := drop (length (vlq code)) target).
  assert (Hmid : (if 0 <? s_Height s then putAt (fun t => putVLQ t 0) (vlq code ++ rest) (Zlen (vlq code)) else Ok (vlq code ++ rest, Zlen (vlq code)))
                 = Ok ((vlq code ++ mid) ++ drop (length mid) rest, Zlen (vlq code ++ mid))).
  { unfold mid in *. destruct (0 <? s_Height s); [|by rewrite app_nil_r].
    apply putVLQ_at; [lia|]. unfold rest, vlqLen, Zlen in *. rewrite length_drop. lia. }
  rewrite Hmid, bind_Ok. rewrite (putAt_spec _ _ _ out).
  - unfold rest. rewrite !drop_drop, !length_app, <- !(assoc_L (++)), Nat.add_assoc. done.
  - apply putCompressedTxOut_spec; [done|]. fold out. unfold rest, Zlen in *. rewrite !length_drop. lia.
Qed.

Lemma decodeSpentTxOut_spec s rest : stxo_ok s ->
  decodeSpentTxOut (stxoBytes s ++ rest) = Ok (s, Zlen (stxoBytes s)).
Proof using P.
  intros [Ha Hs Hh]. unfold decodeSpentTxOut, stxoBytes. rewrite <- !(assoc_L (++)).
  set (code := 2 * s_Height s + Z.b2z (s_IsCoinBase s)). set (out := txOutBytes (s_Amount s) (s_PkScript s)).
  set (mid := if 0 <? s_Height s then vlq 0 else []). pose proof (code_range (s_Height s) (s_IsCoinBase s) Hh) as Hc. fold code in Hc.
  pose proof (vlqLen_range code Hc) as Hv. unfold vlqLen in Hv.
  assert (Hout : 0 < Zlen out) by (unfold out, txOutBytes; rewrite Zlen_app; pose proof (compressed_nonempty _ Hs);
    match goal with |- 0 < Zlen ?a + _ => pose proof (Zlen_nonneg a) end; lia).
  pose proof (Zlen_nonneg mid). pose proof (Zlen_nonneg rest).
  rewrite (proj2 (Z.eqb_neq _ 0)) by (rewrite Zlen_app; pose proof (Zlen_nonneg (mid ++ out ++ rest)); lia).
  rewrite deserializeVLQ_vlq by done. unfold vlqLen. rewrite (proj2 (Z.leb_gt _ _)) by (rewrite !Zlen_app; lia).
  destruct (headerCode_decode (s_Height s) (s_IsCoinBase s) Hh) as [Hcb Hht]. fold code in Hcb, Hht. rewrite Hcb, Hht.
  assert (Hdrop : forall (a b : list Z), drop (Z.to_nat (Zlen a)) (a ++ b) = b)
    by (intros a b; unfold Zlen; rewrite Nat2Z.id; apply drop_app_length).
  assert (Hmid : (if 0 <? s_Height s then
       let '(_, bytesRead) := deserializeVLQ (drop (Z.to_nat (Zlen (vlq code))) (vlq code ++ mid ++ out ++ rest)) in
       if Zlen (vlq code ++ mid ++ out ++ rest) <=? Zlen (vlq code) + bytesRead
       then Err (errDeserialize "unexpected end of data after reserved")
       else Ok (Zlen (vlq code) + bytesRead) else Ok (Zlen (vlq code))) = Ok (Zlen (vlq code ++ mid))).
  { unfold mid in *. destruct (0 <? s_Height s); [|by rewrite app_nil_r]. rewrite Hdrop, deserializeVLQ_vlq by lia.
    unfold vlqLen. rewrite (proj2 (Z.leb_gt _ _)) by (rewrite !Zlen_app; lia). by rewrite Zlen_app. }
  rewrite Hmid, bind_Ok, (assoc_L (++) (vlq code)), Hdrop. 
  assert (Hd : decodeCompressedTxOut (out ++ rest) = Ok (s_Amount s, Some (s_PkScript s), Zlen out))
    by (by apply decodeCompressedTxOut_spec).
  rewrite Hd. destruct (amount_64 _ Ha) as [_ ->]. rewrite !Zlen_app. do 2 f_equal; [|lia]. by destruct s.
Qed.

Lemma spentTxOutSerializeSize_spec s : stxo_ok s -> spentTxOutSerializeSize s = Ok (Zlen (stxoBytes s)).
Proof using.
  intros [Ha Hs Hh]. unfold spentTxOutSerializeSize, spentTxOutHeaderCode. rewrite headerCode_spec by done.
  rewrite (serializeSizeVLQ_spec (2 * s_Height s + Z.b2z (s_IsCoinBase s))) by (by apply code_range). cbn [noErr]. rewrite bind_Ok.
  destruct (amount_64 _ Ha) as [-> _]. unfold stxoBytes, vlqLen.
  destruct (0 <? s_Height s).
  - rewrite serializeSizeVLQ_spec by lia. cbn [noErr]. rewrite bind_Ok. change (mret ?x) with (@Ok DbError Z x).
    rewrite bind_Ok, compressedTxOutSize_spec by done. cbn [noErr]. rewrite bind_Ok, !Zlen_app. unfold vlqLen.
    change (mret ?x) with (@Ok DbError Z x). f_equal. lia.
  - rewrite bind_Ok, compressedTxOutSize_spec by done. cbn [noErr]. rewrite bind_Ok, !Zlen_app.
    change (mret ?x) with (@Ok DbError Z x). change (Zlen (@nil Z)) with 0. do 2 f_equal; lia.
Qed.

(** The bytes of a journal entry: the records, the last one first. *)
Definition journalBytes (stxos : list SpentTxOut) : list Z := concat (stxoBytes <$> rev stxos).

Lemma sizeSum_spec stxos : Forall stxo_ok stxos -> forall size,
  sizeSum stxos size = Ok (size + Zlen (concat (stxoBytes <$> stxos))).
Proof using.
  induction 1 as [|s stxos Hs _ IH]; intros size; cbn [sizeSum]; [f_equal; change (Zlen (concat _)) with 0; lia|].
  rewrite spentTxOutSerializeSize_spec, bind_Ok, IH by done. cbn. rewrite Zlen_app. f_equal. lia.
Qed.

Lemma putLoop_journal stxos : Forall stxo_ok stxos -> forall pre target,
  Zlen (concat (stxoBytes <$> stxos)) <= Zlen target ->
  putLoop stxos (pre ++ target) (Zlen pre)
  = Ok ((pre ++ concat (stxoBytes <$> stxos)) ++ drop (length (concat (stxoBytes <$> stxos))) target,
        Zlen (pre ++ concat (stxoBytes <$> stxos))).
Proof using.
  induction 1 as [|s stxos Hs _ IH]; intros pre target Hfit; cbn [putLoop fmap list_fmap concat] in *; [by rewrite app_nil_r|].
  rewrite Zlen_app in Hfit. pose proof (Zlen_nonneg (concat (stxoBytes <$> stxos))).
  rewrite (putAt_spec _ _ _ (stxoBytes s)), bind_Ok by (apply putSpentTxOut_spec; [done|lia]).
  rewrite IH by (unfold Zlen in *; rewrite length_drop; lia). rewrite drop_drop, length_app, !(assoc_L (++)). done.
Qed.

Lemma concat_length_rev (stxos : list SpentTxOut) : Zlen (concat (stxoBytes <$> rev stxos)) = Zlen (concat (stxoBytes <$> stxos)).
Proof using.
  induction stxos as [|s stxos IH]; [done|]. cbn [rev]. rewrite fmap_app, concat_app, Zlen_app, IH. cbn. rewrite app_nil_r, Zlen_app. lia.
Qed.

Lemma decodeLoop_journal stxos : Forall stxo_ok stxos -> forall pre acc,
  decodeLoop (length stxos) (pre ++ concat (stxoBytes <$> rev stxos)) (Zlen pre) acc = Ok (stxos ++ acc).
Proof using P.
  induction stxos as [|s stxos IH] using rev_ind; intros Hok pre acc; [done|].
  apply list.Forall_app in Hok as [Hok Hs]. apply Forall_inv in Hs.
  rewrite length_app, Nat.add_1_r, rev_unit. cbn [decodeLoop fmap list_fmap concat].
  rewrite slice_suffix by (rewrite ?Zlen_app; lia). rewrite bind_Ok, decodeSpentTxOut_spec, bind_Ok by done.
  rewrite (assoc_L (++)), <- Zlen_app, IH by done. by rewrite <- (assoc_L (++)).
Qed.

(** The spend journal: what is stored for a block is read back, given
    transactions with as many inputs as there are records. *)
Lemma journal_roundtrip stxos txns : Forall stxo_ok stxos -> numStxos txns = Zlen stxos ->
  exists bytes, serializeSpendJournalEntry stxos = Ok bytes /\ deserializeSpendJournalEntry bytes txns = Ok stxos.
Proof using P.
  intros Hok Hn. unfold serializeSpendJournalEntry. destruct (Z.eqb_spec (Zlen stxos) 0) as [Hz|Hz].
  - exists []. split; [done|]. unfold deserializeSpendJournalEntry. rewrite Hn, Hz. cbn.
    destruct stxos; [done|]. rewrite Zlen_cons in Hz. pose proof (Zlen_nonneg stxos). lia.
  - exists (journalBytes stxos). rewrite sizeSum_spec, bind_Ok by done. rewrite Z.add_0_l.
    assert (Hr : Forall stxo_ok (rev stxos)) by (by apply List.Forall_rev).
    pose proof (putLoop_journal (rev stxos) Hr [] (replicate (Z.to_nat (Zlen (concat (stxoBytes <$> stxos)))) 0)) as Hput.
    pose proof (Zlen_nonneg (concat (stxoBytes <$> stxos))).
    cbn [app] in Hput. change (Zlen (@nil Z)) with 0 in Hput. rewrite Hput, bind_Ok.
    2: { rewrite concat_length_rev. unfold Zlen. rewrite length_replicate. lia. }
    split.
    + unfold journalBytes. rewrite drop_ge, app_nil_r; [done|]. rewrite length_replicate.
      pose proof (concat_length_rev stxos) as Hl. unfold Zlen in Hl. unfold Zlen. lia.
    + unfold deserializeSpendJournalEntry. rewrite (proj2 (Z.eqb_neq _ 0)).
      * rewrite Hn. unfold Zlen. rewrite Nat2Z.id. pose proof (decodeLoop_journal stxos Hok [] []) as Hd.
        cbn [app] in Hd. change (Zlen (@nil Z)) with 0 in Hd. rewrite app_nil_r in Hd. exact Hd.
      * unfold journalBytes. destruct stxos as [|s stxos] using rev_ind; [done|]. rewrite rev_unit. cbn [fmap list_fmap concat].
        apply list.Forall_app in Hok as [_ Hs]. apply Forall_inv in Hs as [_ Hs _]. rewrite Zlen_app. unfold stxoBytes.
        rewrite !Zlen_app. pose proof (compressed_nonempty _ Hs). unfold txOutBytes. rewrite Zlen_app.
        repeat match goal with |- context [Zlen ?l] => lazymatch goal with H : 0 <= Zlen l |- _ => fail | _ => pose proof (Zlen_nonneg l) end end. lia.
Qed.

(** ** The utxo bucket *)
Record op_ok (op : OutPoint) : Prop := {
  op_hash : length (Wire.Hash op) = 32%nat;
  op_index : 0 <= Wire.Index op < 2 ^ 32;
}.

Definition keyOf (op : OutPoint) : list Z := Wire.Hash op ++ vlq (Wire.Index op).

Lemma outpointKey_spec op : op_ok op -> outpointKey op = Ok (keyOf op).
Proof using.
  intros [Hh Hi]. unfold outpointKey. rewrite serializeSizeVLQ_spec by lia. cbn [noErr]. rewrite bind_Ok.
  pose proof (vlqLen_range (Wire.Index op) ltac:(lia)).
  change 32 with (Z.of_nat 32). rewrite <- Hh. fold (Zlen (Wire.Hash op)).
  rewrite putVLQ_at by (try lia; unfold Zlen; rewrite length_replicate; lia). rewrite bind_Ok.
  rewrite drop_ge, app_nil_r; [done|]. rewrite length_replicate. unfold vlqLen, Zlen in *. lia.
Qed.

Lemma keyOf_inj op op' : op_ok op -> op_ok op' -> keyOf op = keyOf op' -> op = op'.
Proof using.
  intros [Hh Hi] [Hh' Hi'] Heq. apply app_inj_1 in Heq as [Hhash Hv]; [|by rewrite Hh, Hh'].
  apply (f_equal deserializeVLQ) in Hv. rewrite <- (app_nil_r (vlq (Wire.Index op))), <- (app_nil_r (vlq (Wire.Index op'))) in Hv.
  rewrite !deserializeVLQ_vlq in Hv by lia. injection Hv as Hv _. destruct op, op'; cbn in *. by subst.
Qed.

Definition entry_ok (e : UtxoEntry) : Prop := stored_ok (amount e) (pkScript e) (blockHeight e).

(** What the database keeps of an entry: of the flags, that of the coinbase. *)
Definition stored (e : UtxoEntry) : UtxoEntry :=
  mkEntry (amount e) (pkScript e) (blockHeight e) (if IsCoinBase e then Z.lor 0 tfCoinBase else 0).

Definition entryBytes (e : UtxoEntry) : list Z :=
  vlq (2 * blockHeight e + Z.b2z (IsCoinBase e)) ++ txOutBytes (amount e) (pkScript e).

Lemma serializeUtxoEntry_spec e : entry_ok e -> IsSpent e = false -> serializeUtxoEntry e = Ok (Some (entryBytes e)).
Proof using.
  intros [Ha Hs Hh] Hsp. unfold serializeUtxoEntry, utxoEntryHeaderCode. rewrite Hsp, bind_Ok.
  rewrite headerCode_spec by done. destruct (amount_64 _ Ha) as [-> _]. set (code := 2 * blockHeight e + Z.b2z (IsCoinBase e)).
  pose proof (code_range _ (IsCoinBase e) Hh) as Hc. fold code in Hc. rewrite serializeSizeVLQ_spec by done. cbn [noErr].
  rewrite bind_Ok, compressedTxOutSize_spec by done. cbn [noErr]. rewrite bind_Ok.
  set (out := txOutBytes (amount e) (pkScript e)). pose proof (Zlen_nonneg out). pose proof (Zlen_nonneg (vlq code)).
  set (z := replicate _ 0). assert (Hz : Zlen z = vlqLen code + Zlen out) by (unfold z, Zlen; rewrite length_replicate; unfold vlqLen, Zlen; lia).
  pose proof (putVLQ_at [] z code Hc) as Hput. cbn [app] in Hput. change (Zlen (@nil Z)) with 0 in Hput.
  rewrite Hput, bind_Ok by lia. clear Hput. rewrite (putAt_spec _ _ _ out), bind_Ok.
  - unfold entryBytes. fold code out. rewrite drop_ge, app_nil_r; [done|]. rewrite length_drop. unfold vlqLen, Zlen in *. lia.
  - apply putCompressedTxOut_spec; [done|]. fold out. unfold vlqLen, Zlen in *. rewrite length_drop. lia.
Qed.

Lemma deserializeUtxoEntry_spec e : entry_ok e -> deserializeUtxoEntry (entryBytes e) = Ok (stored e).
Proof using P.
  intros [Ha Hs Hh]. unfold deserializeUtxoEntry, entryBytes. pose proof (code_range _ (IsCoinBase e) Hh) as Hc.
  set (code := 2 * blockHeight e + Z.b2z (IsCoinBase e)) in *. set (out := txOutBytes (amount e) (pkScript e)).
  rewrite deserializeVLQ_vlq by done. unfold vlqLen.
  assert (Hout : 0 < Zlen out) by (unfold out, txOutBytes; rewrite Zlen_app; pose proof (compressed_nonempty _ Hs);
    match goal with |- 0 < Zlen ?a + _ => pose proof (Zlen_nonneg a) end; lia).
  rewrite (proj2 (Z.leb_gt _ _)) by (rewrite Zlen_app; lia).
  destruct (headerCode_decode (blockHeight e) (IsCoinBase e) Hh) as [Hcb Hht]. fold code in Hcb, Hht. rewrite Hcb, Hht.
  unfold Zlen at 1. rewrite Nat2Z.id, drop_app_length.
  assert (Hd : decodeCompressedTxOut out = Ok (amount e, Some (pkScript e), Zlen out))
    by (rewrite <- (app_nil_r out); rewrite Zlen_app; change (Zlen (@nil Z)) with 0; rewrite Z.add_0_r; by apply decodeCompressedTxOut_spec).
  rewrite Hd. destruct (amount_64 _ Ha) as [_ ->]. done.
Qed.

Lemma entryBytes_nonempty e : entry_ok e -> Zlen (entryBytes e) <> 0.
Proof using.
  intros [_ Hs _]. unfold entryBytes, txOutBytes. rewrite !Zlen_app. pose proof (compressed_nonempty _ Hs).
  pose proof (Zlen_nonneg (vlq (2 * blockHeight e + Z.b2z (IsCoinBase e)))).
  pose proof (Zlen_nonneg (vlq (compressTxOutAmount (amount e)))). lia.
Qed.

(** A bucket that holds the entries of a map from outpoints. *)
Definition holds (b : Bucket) (m : gmap OutPoint UtxoEntry) : Prop :=
  (forall op, op_ok op -> b !! keyOf op = entryBytes <$> (m !! op)) /\ map_Forall (fun _ e => entry_ok e) m.

Lemma fetch_holds b m op : holds b m -> op_ok op -> dbFetchUtxoEntry b op = Ok (stored <$> (m !! op)).
Proof using P.
  intros [Hb Hm] Hop. unfold dbFetchUtxoEntry. rewrite outpointKey_spec, bind_Ok, Hb by done.
  destruct (m !! op) as [e|] eqn:He; [|done]. cbn [fmap option_fmap option_map]. specialize (Hm op e He).
  rewrite (proj2 (Z.eqb_neq _ 0)) by (by apply entryBytes_nonempty). by rewrite deserializeUtxoEntry_spec.
Qed.

Lemma put_holds b m op e : holds b m -> op_ok op -> entry_ok e -> IsSpent e = false ->
  exists b', dbPutUtxoEntry op (Some e) b = Ok b' /\ holds b' (<[op := e]> m).
Proof using.
  intros [Hb Hm] Hop He Hs. unfold dbPutUtxoEntry. rewrite Hs, serializeUtxoEntry_spec, bind_Ok, outpointKey_spec, bind_Ok by done.
  eexists. split; [done|]. split; [|by apply map_Forall_insert_2]. intros op' Hop'. change (default [] (Some (entryBytes e))) with (entryBytes e).
  destruct (decide (op' = op)) as [->|Hne]; [rewrite (lookup_insert_eq b), (lookup_insert_eq m); done|].
  rewrite (lookup_insert_ne m) by congruence. rewrite (lookup_insert_ne b); [by apply Hb|].
  intros Heq. apply Hne. by apply keyOf_inj.
Qed.

Lemma delete_holds b m op : holds b m -> op_ok op ->
  exists b', dbDeleteUtxoEntry op b = Ok b' /\ holds b' (delete op m).
Proof using.
  intros [Hb Hm] Hop. unfold dbDeleteUtxoEntry. rewrite outpointKey_spec, bind_Ok by done. eexists. split; [done|].
  split; [|by apply map_Forall_delete]. intros op' Hop'.
  destruct (decide (op' = op)) as [->|Hne]; [by rewrite (lookup_delete_eq b), (lookup_delete_eq m)|].
  rewrite (lookup_delete_ne m) by congruence. rewrite (lookup_delete_ne b); [by apply Hb|].
  intros Heq. apply Hne. by apply keyOf_inj.
Qed.

End Laws.
(** ** Theorems *)
Section Theorems.
Context `{L : PubKeyLib} {P : PubKeyLaws L}.

(** The utxo bucket implements a map from outpoints to entries, up to
    the flags that only live in memory: fetching gives the entry that was
    put last, with its amount, script, height and coinbase flag, or none;
    putting and deleting change that outpoint and no other, whatever the
    variable length of the keys. *)
Theorem utxo_bucket_map b m op e (Hb : holds b m) (Hop : op_ok op) (He : entry_ok e) (Hs : IsSpent e = false) :
  dbFetchUtxoEntry b op = Ok (stored <$> (m !! op)) /\
  (exists b', dbPutUtxoEntry op (Some e) b = Ok b' /\ holds b' (<[op := e]> m)) /\
  (exists b', dbDeleteUtxoEntry op b = Ok b' /\ holds b' (delete op m)).
Proof using P. split_and!; [by apply fetch_holds|by apply put_holds|by apply delete_holds]. Qed.

(** The spend journal of a block is read back as it was written: every
    record with its amount, script, height and coinbase flag, in order, even
    though the format holds neither their number nor their sizes. *)
Theorem spend_journal_roundtrip {H : Hashes} block cb txs stxos spendBucket
    (Htxs : Transactions block = cb :: txs) (Hok : Forall stxo_ok stxos) (Hn : Zlen stxos = numStxos txs) :
  exists b', dbPutSpendJournalEntry (BlockHash (Header block)) stxos spendBucket = Ok b' /\
    dbFetchSpendJournalEntry b' block = Ok stxos /\
    forall hash, hash <> BlockHash (Header block) -> b' !! hash = spendBucket !! hash.
Proof using P.
  destruct (journal_roundtrip stxos txs Hok (eq_sym Hn)) as (bytes & Hser & Hdes).
  unfold dbPutSpendJournalEntry. rewrite Hser, bind_Ok. eexists. split; [done|]. split.
  - unfold dbFetchSpendJournalEntry. rewrite (lookup_insert_eq spendBucket), Htxs.
    rewrite (slice_suffix [cb] txs), bind_Ok; [|done|rewrite Zlen_cons; change (Zlen [cb]) with 1; lia].
    change (default [] (Some bytes)) with bytes. by rewrite Hdes.
  - intros hash Hne. by rewrite (lookup_insert_ne spendBucket).
Qed.

End Theorems.

(** The limits of a best chain state. *)
Record state_ok (s : bestChainState) : Prop := {
  so_hash : length (bs_hash s) = 32%nat;
  so_height : 0 <= bs_height s < 2 ^ 32;
  so_txns : 0 <= bs_totalTxns s < 2 ^ 64;
  so_work : 0 <= bs_workSum s;
  so_size : bytesLen (bs_workSum s) < 2 ^ 31;
}.

Lemma bigBytes_length n : 0 <= n -> Zlen (bigBytes n) = bytesLen n.
Proof.
  intros Hn. unfold bigBytes, Zlen. rewrite be_bytes_length. destruct (Z.eq_dec n 0) as [->|Hz]; [done|].
  pose proof (bytesLen_spec n ltac:(lia)) as (? & _). lia.
Qed.

Lemma bigBytes_val n : 0 <= n -> be_val (bigBytes n) = n.
Proof.
  intros Hn. destruct (Z.eq_dec n 0) as [->|Hz]; [done|]. unfold bigBytes. rewrite Z.abs_eq by done.
  pose proof (bytesLen_spec n ltac:(lia)) as (He & _ & Hhi). apply be_val_bytes.
  rewrite Z2Nat.id by lia. change 256 with (2 ^ 8). rewrite <- Z.pow_mul_r by lia. lia.
Qed.

(** The best chain state is read back as it was written, and every
    strict prefix of its bytes is reported as corrupt; a row of the block
    index is read back with its header and status. *)
Theorem chain_state_roundtrip s header status
    (Hs : state_ok s) (Hh : Wire.header_ok header) :
  deserializeBestChainState (serializeBestChainState s) = Ok s /\
  (forall n, (n < length (serializeBestChainState s))%nat ->
     deserializeBestChainState (take n (serializeBestChainState s)) = Err ErrCorruption) /\
  deserializeBlockRow (serializeBlockRow header status) = Ok (header, status).
Proof.
  destruct Hs as [Hhash Hheight Htx Hw Hsz]. pose proof (bigBytes_length _ Hw) as Hbl.
  set (w := bigBytes (bs_workSum s)) in *. set (h := le_bytes 4 (bs_height s)). set (t := le_bytes 8 (bs_totalTxns s)).
  set (l := le_bytes 4 (u32 (Zlen w))).
  assert (Hlh : length h = 4%nat) by apply le_bytes_length. assert (Hlt : length t = 8%nat) by apply le_bytes_length.
  assert (Hll : length l = 4%nat) by apply le_bytes_length. pose proof (Zlen_nonneg w) as Hw0.
  assert (Hlv : le_val l = Zlen w) by (unfold l; rewrite le_val_bytes by (apply u32_range); apply u32_small; lia).
  assert (Hparse : forall r, (length r <= length w)%nat ->
    deserializeBestChainState (bs_hash s ++ h ++ t ++ l ++ r)
    = if Zlen r <? Zlen w then Err ErrCorruption
      else Ok (mkBestChainState (bs_hash s) (bs_height s) (bs_totalTxns s) (be_val r))).
  { intros r Hr. unfold deserializeBestChainState.
    assert (Hlen : Zlen (bs_hash s ++ h ++ t ++ l ++ r) = 48 + Zlen r) by (unfold Zlen; rewrite !length_app, Hhash, Hlh, Hlt, Hll; lia).
    pose proof (Zlen_nonneg r). rewrite Hlen, (proj2 (Z.ltb_ge _ _)) by lia.
    rewrite (slice_mid (bs_hash s) h _ 32 36), bind_Ok by (unfold Zlen; rewrite ?Hhash, ?Hlh; lia).
    rewrite (assoc_L (++) (bs_hash s) h), (slice_mid (bs_hash s ++ h) t _ 36 44), bind_Ok by (unfold Zlen; rewrite ?length_app, ?Hhash, ?Hlh, ?Hlt; lia).
    rewrite (assoc_L (++) (bs_hash s ++ h) t), (slice_mid ((bs_hash s ++ h) ++ t) l _ 44 48), bind_Ok
      by (unfold Zlen; rewrite ?length_app, ?Hhash, ?Hlh, ?Hlt, ?Hll; lia).
    rewrite (assoc_L (++) ((bs_hash s ++ h) ++ t) l). set (pre := ((bs_hash s ++ h) ++ t) ++ l).
    assert (Hpre : Zlen pre = 48) by (unfold pre, Zlen; rewrite !length_app, Hhash, Hlh, Hlt, Hll; lia).
    rewrite (slice_suffix pre r 48 (48 + Zlen r)), bind_Ok by lia.
    rewrite Hlv, (u32_small (Zlen r)) by (unfold Zlen in *; lia).
    destruct (Z.ltb_spec (Zlen r) (Zlen w)); [done|]. assert (Zlen r = Zlen w) by (unfold Zlen in *; lia).
    rewrite u32_small by lia. rewrite (slice_suffix pre r 48 (48 + Zlen w)), bind_Ok by lia.
    unfold h, t. rewrite !le_val_bytes by done. unfold pre. rewrite <- !(assoc_L (++)), <- Hhash, take_app_length. done. }
  assert (Hser : serializeBestChainState s = bs_hash s ++ h ++ t ++ l ++ w) by done.
  split_and!.
  - rewrite Hser, Hparse, Z.ltb_irrefl by done. unfold w. rewrite bigBytes_val by done. by destruct s.
  - intros n Hn. rewrite Hser in *. rewrite !length_app, Hhash, Hlh, Hlt, Hll in Hn.
    destruct (decide (n < 48)%nat) as [Hsmall|Hbig].
    + unfold deserializeBestChainState. rewrite (proj2 (Z.ltb_lt _ _)); [done|]. unfold Zlen. rewrite length_take. lia.
    + rewrite !(assoc_L (++)), take_app_ge, <- !(assoc_L (++)) by (rewrite !length_app, Hhash, Hlh, Hlt, Hll; lia).
      rewrite Hparse by (rewrite length_take; lia). rewrite (proj2 (Z.ltb_lt _ _)); [done|].
      unfold Zlen. rewrite length_take, !length_app, Hhash, Hlh, Hlt, Hll. lia.
  - unfold deserializeBlockRow, serializeBlockRow. by rewrite (decodes_header header Hh [status]).
Qed.

(** The byte order of the keys is not the order of the output indices: the
    two-byte form of 16511 comes after the three-byte form of 16512. *)
Example keys_out_of_order `{L : PubKeyLib} :
  lexle (keyOf (mkOutPoint [] 16512)) (keyOf (mkOutPoint [] 16511)) = true /\
  lexle (keyOf (mkOutPoint [] 16511)) (keyOf (mkOutPoint [] 16512)) = false.
Proof. split; by vm_compute. Qed.

(** ** Concrete instances *)
Module Toy.
Import Compress.Toy SigHash.Toy Utxo.Toy.
#[local] Existing Instance toy_hashes.

Definition entry : UtxoEntry := mkEntry 5000000000 Compress.Toy.script 113931 (Z.lor tfFresh (Z.lor tfModified tfCoinBase)).

Lemma entry_is_ok : entry_ok entry.
Proof. split; [split; by vm_compute|by vm_compute|split; by vm_compute]. Qed.

Lemma utxo_bucket_map_witness : exists b,
  dbPutUtxoEntry old (Some entry) ∅ = Ok b /\
  dbFetchUtxoEntry b old = Ok (Some (mkEntry 5000000000 Compress.Toy.script 113931 tfCoinBase)).
Proof.
  assert (Hop : op_ok old) by (split; [reflexivity|split; by vm_compute]).
  destruct (utxo_bucket_map ∅ ∅ old entry) as (_ & (b & Hb & Hh) & _).
  - split; [intros op _; reflexivity|apply map_Forall_empty].
  - exact Hop.
  - apply entry_is_ok.
  - reflexivity.
  - exists b. split; [exact Hb|]. destruct (utxo_bucket_map b _ old entry Hh Hop entry_is_ok eq_refl) as (Hf & _).
    rewrite Hf. rewrite lookup_insert_eq. reflexivity.
Defined.

Definition stxo : SpentTxOut := mkSpent 700 [0x51] 5 true.

Lemma spend_journal_roundtrip_witness : exists b',
  dbPutSpendJournalEntry (BlockHash (Header Utxo.Toy.block)) [stxo] ∅ = Ok b' /\
  dbFetchSpendJournalEntry b' Utxo.Toy.block = Ok [stxo].
Proof.
  destruct (spend_journal_roundtrip Utxo.Toy.block cb [pay] [stxo] ∅) as (b' & Hput & Hget & _).
  - reflexivity.
  - apply Forall_cons_2; [split; [split; by vm_compute|by vm_compute|split; by vm_compute]|apply Forall_nil_2].
  - reflexivity.
  - exists b'. split; [exact Hput|exact Hget].
Defined.

Definition state : bestChainState := mkBestChainState (replicate 32 7) 100 2000 (2 ^ 70).

Lemma chain_state_roundtrip_witness :
  deserializeBestChainState (serializeBestChainState state) = Ok state /\
  deserializeBestChainState (take 50 (serializeBestChainState state)) = Err ErrCorruption.
Proof.
  destruct (chain_state_roundtrip state Wire.Toy.header 3) as (Hr & Hp & _).
  - split; [reflexivity|split; by vm_compute|split; by vm_compute|by vm_compute|by vm_compute].
  - split; first [reflexivity|split; by vm_compute|by vm_compute].
  - split; [exact Hr|]. apply (Hp 50%nat). apply Nat.ltb_lt. by vm_compute.
Defined.

End Toy.
End Chainio.
