(* ===== verification/SizeHelper.v ===== *)
(** * Sizes of the maps of the utxo cache

    Models coin/OrcaNet/blockchain/sizehelper.go, a copy of the parts of the
    Go runtime that decide how much memory a map gets, on a 64-bit system.
    A uintptr is a Z below 2^64 and its arithmetic wraps; an int stays in
    range here.  [math.Log2] of a float64 and its conversion to uint8 are
    exact below 2^48; for the values for which Go leaves the result to the
    implementation (not positive: -Inf and NaN) it is a parameter. *)

From S2P Require Import Prelude.

Module SizeHelper.

Definition outpointSize := 36.
Definition uint64Size := 8.
Definition bucketSize := 16 + uint64Size * outpointSize + uint64Size * uint64Size.
Definition baseEntrySize := 40.
Definition pubKeyHashLen := 25.
Definition avgEntrySize := baseEntrySize + (pubKeyHashLen + 7).

Definition _MaxSmallSize := 32768.
Definition smallSizeDiv := 8.
Definition smallSizeMax := 1024.
Definition largeSizeDiv := 128.
Definition _PageSize := Z.shiftl 1 13.
Definition MaxUintptr := 2 ^ 64 - 1.
Definition bucketCnt := Z.shiftl 1 3.
Definition loadFactorNum := 13.
Definition loadFactorDen := 2.
Definition PtrSize := 8.
Definition heapAddrBits := 40.
Definition maxAlloc := Z.shiftl 1 heapAddrBits.

Definition class_to_size : list Z :=
  [0; 8; 16; 24; 32; 48; 64; 80; 96; 112; 128; 144; 160; 176; 192; 208; 224; 240; 256; 288; 320;
   352; 384; 416; 448; 480; 512; 576; 640; 704; 768; 896; 1024; 1152; 1280; 1408; 1536; 1792; 2048;
   2304; 2688; 3072; 3200; 3456; 4096; 4864; 5376; 6144; 6528; 6784; 6912; 8192; 9472; 9728; 10240;
   10880; 12288; 13568; 14336; 16384; 18432; 19072; 20480; 21760; 24576; 27264; 28672; 32768].

Definition size_to_class8 : list Z :=
  [0; 1; 2; 3; 4; 5; 5; 6; 6; 7; 7; 8; 8; 9; 9; 10; 10; 11; 11; 12; 12; 13; 13; 14; 14; 15; 15; 16;
   16; 17; 17; 18; 18; 19; 19; 19; 19; 20; 20; 20; 20; 21; 21; 21; 21; 22; 22; 22; 22; 23; 23; 23;
   23; 24; 24; 24; 24; 25; 25; 25; 25; 26; 26; 26; 26; 27; 27; 27; 27; 27; 27; 27; 27; 28; 28; 28;
   28; 28; 28; 28; 28; 29; 29; 29; 29; 29; 29; 29; 29; 30; 30; 30; 30; 30; 30; 30; 30; 31; 31; 31;
   31; 31; 31; 31; 31; 31; 31; 31; 31; 31; 31; 31; 31; 32; 32; 32; 32; 32; 32; 32; 32; 32; 32; 32;
   32; 32; 32; 32; 32].

Definition size_to_class128 : list Z :=
  [32; 33; 34; 35; 36; 37; 37; 38; 38; 39; 39; 40; 40; 40; 41; 41; 41; 42; 43; 43; 44; 44; 44; 44;
   44; 45; 45; 45; 45; 45; 45; 46; 46; 46; 46; 47; 47; 47; 47; 47; 47; 48; 48; 48; 49; 49; 50; 51;
   51; 51; 51; 51; 51; 51; 51; 51; 51; 52; 52; 52; 52; 52; 52; 52; 52; 52; 52; 53; 53; 54; 54; 54;
   54; 55; 55; 55; 55; 55; 56; 56; 56; 56; 56; 56; 56; 56; 56; 56; 56; 57; 57; 57; 57; 57; 57; 57;
   57; 57; 57; 58; 58; 58; 58; 58; 58; 59; 59; 59; 59; 59; 59; 59; 59; 59; 59; 59; 59; 59; 59; 59;
   59; 60; 60; 60; 60; 60; 60; 60; 60; 60; 60; 60; 60; 60; 60; 60; 60; 61; 61; 61; 61; 61; 62; 62;
   62; 62; 62; 62; 62; 62; 62; 62; 62; 63; 63; 63; 63; 63; 63; 63; 63; 63; 63; 64; 64; 64; 64; 64;
   64; 64; 64; 64; 64; 64; 64; 64; 64; 64; 64; 64; 64; 64; 64; 64; 64; 65; 65; 65; 65; 65; 65; 65;
   65; 65; 65; 65; 65; 65; 65; 65; 65; 65; 65; 65; 65; 65; 66; 66; 66; 66; 66; 66; 66; 66; 66; 66;
   66; 67; 67; 67; 67; 67; 67; 67; 67; 67; 67; 67; 67; 67; 67; 67; 67; 67; 67; 67; 67; 67; 67; 67;
   67; 67; 67; 67; 67; 67; 67; 67; 67].

Definition mulUintptr (a b : Z) : Z * bool :=
  if (Z.lor a b <? Z.shiftl 1 (4 * PtrSize)) || (a =? 0) then (u64 (a * b), false)
  else (u64 (a * b), MaxUintptr / a <? b).

Definition divRoundUp (n a : Z) : Z := u64 (u64 (n + a) - 1) / a.
Definition alignUp (n a : Z) : Z := Z.ldiff (u64 (u64 (n + a) - 1)) (u64 (a - 1)).
Definition bucketShift (b : Z) : Z := u64 (Z.shiftl 1 (Z.land b 63)).
Definition overLoadFactor (count B : Z) : bool :=
  (bucketCnt <? count) && (u64 (loadFactorNum * (bucketShift B / loadFactorDen)) <? u64 count).

Section Errors.
Context {E : Type}.

Definition roundupsize (size : Z) : outcome E Z :=
  if size <? _MaxSmallSize then
    if size <=? smallSizeMax - 8 then
      c ← index size_to_class8 (divRoundUp size smallSizeDiv); index class_to_size c
    else
      c ← index size_to_class128 (divRoundUp (u64 (size - smallSizeMax)) largeSizeDiv); index class_to_size c
  else if u64 (size + _PageSize) <? size then Ok size
  else Ok (alignUp size _PageSize).

(** The least B for which the items fit; a uint8 never gets past 64 here. *)
Fixpoint growB (n : nat) (hint B : Z) : outcome E Z :=
  match n with
  | O => Hang
  | S n => if overLoadFactor hint B then growB n hint (u8 (B + 1)) else Ok B
  end.

Definition mapBytes (B bucketSize : Z) : outcome E Z :=
  let base := bucketShift B in
  numBuckets ← (if 4 <=? B then
                  let numBuckets := u64 (base + bucketShift (B - 4)) in
                  let sz := u64 (bucketSize * numBuckets) in
                  up ← roundupsize sz;
                  mret (if negb (up =? sz) then up / bucketSize else numBuckets)
                else Ok base);
  let '(total, _) := mulUintptr bucketSize numBuckets in
  let total := if negb (base =? numBuckets) then u64 (total + 24) else total in
  mret (i64 (u64 (total + 48))).

Definition calculateRoughMapSize (hint bucketSize : Z) : outcome E Z :=
  let '(mem, overflow) := mulUintptr (u64 hint) bucketSize in
  let hint := if overflow || (maxAlloc <? mem) then 0 else hint in
  B ← growB 64 hint 0;
  mapBytes B bucketSize.

End Errors.

Section Log2.
Variable implementationLog2 : Z -> Z.

Definition log2u8 (n : Z) : Z :=
  if (0 <? n) && (n <? 2 ^ 48) then Z.log2 n else implementationLog2 n.

Definition calculateMinEntries (totalBytes bucketSize : Z) : Z :=
  let totalBytes := totalBytes - 48 in
  let numBuckets := Z.quot totalBytes bucketSize in
  let B := log2u8 numBuckets in
  if B <? 4 then
    if B =? 0 then 0 else if B =? 1 then 9 else if B =? 2 then 14 else 27
  else
    let B := B - 1 in
    i64 (loadFactorNum * (bucketShift B / loadFactorDen)) + 1.

End Log2.

(** ** Size classes *)

Lemma index_table {E} l k (c : Z) : 0 <= k -> l !! Z.to_nat k = Some c -> index (E:=E) l k = Ok c.
Proof. intros. by apply index_ok_iff. Qed.

(** An entry of a table of classes for blocks of [d] bytes above [off] is the
    least class that holds the block. *)
Definition fits (off d k c : Z) : bool :=
  match class_to_size !! Z.to_nat c with
  | Some up => (0 <=? c) && (off + d * k <=? up) &&
      forallb (fun s => (s <? off + d * (k - 1) + 1) || (up <=? s)) class_to_size
  | None => false
  end.
Definition table_fits (off d : Z) (t : list Z) : bool :=
  forallb (fun p => fits off d (Z.of_nat p.1) p.2) (imap pair t).

Lemma table_fits_at off d t k : table_fits off d t = true -> 0 <= k < Zlen t ->
  exists c up, t !! Z.to_nat k = Some c /\ 0 <= c /\ class_to_size !! Z.to_nat c = Some up /\ off + d * k <= up /\
    forall s, In s class_to_size -> off + d * (k - 1) < s -> up <= s.
Proof.
  intros Ht Hk. unfold Zlen in Hk. destruct (lookup_lt_is_Some_2 t (Z.to_nat k)) as [c Hc]; [lia|].
  unfold table_fits in Ht. rewrite forallb_forall in Ht. specialize (Ht (Z.to_nat k, c)).
  assert (Hin : In (Z.to_nat k, c) (imap pair t)).
  { apply list_elem_of_In, (list_elem_of_lookup_2 _ (Z.to_nat k)). by rewrite list_lookup_imap, Hc. }
  specialize (Ht Hin). unfold fits in Ht. cbn [fst snd] in Ht. rewrite Z2Nat.id in Ht by lia.
  destruct (class_to_size !! Z.to_nat c) as [up|] eqn:Hup; [|done].
  apply andb_prop in Ht as [Ht Hall]. apply andb_prop in Ht as [Hc0 Hle].
  exists c, up. split_and!; [done|lia|done|lia|]. intros s Hs Hlt. rewrite forallb_forall in Hall. specialize (Hall s Hs). lia.
Qed.

Lemma small_table : table_fits 0 8 size_to_class8 = true.
Proof. by vm_compute. Qed.
Lemma large_table : table_fits 1024 128 size_to_class128 = true.
Proof. by vm_compute. Qed.

(** Rounding up, also where the difference to the lower end wrapped below 0. *)
Lemma divRoundUp_spec n a : - a < n < 2 ^ 32 -> 0 < a < 2 ^ 32 ->
  0 <= divRoundUp (u64 n) a /\ a * (divRoundUp (u64 n) a - 1) < n <= a * divRoundUp (u64 n) a.
Proof.
  intros Hn Ha. unfold divRoundUp.
  assert (Hw : u64 (u64 n + a) = n + a) by (unfold u64; rewrite Zplus_mod_idemp_l; apply Z.mod_small; lia).
  rewrite Hw, u64_small by lia.
  pose proof (Z.mul_div_le (n + a - 1) a). pose proof (Z.mul_succ_div_gt (n + a - 1) a).
  assert (0 <= (n + a - 1) / a) by (apply Z.div_pos; lia). nia.
Qed.

Lemma lookup_class {E} t off d size : table_fits off d t = true ->
  off - d < size <= off + d * (Zlen t - 1) -> 0 <= off < 2 ^ 20 -> 0 < d < 2 ^ 20 -> Zlen t < 2 ^ 10 ->
  exists up, (c ← index t (divRoundUp (u64 (size - off)) d); index class_to_size c) = Ok (E:=E) up /\
    size <= up /\ In up class_to_size /\ forall s, In s class_to_size -> size <= s ->
    off + d * (divRoundUp (u64 (size - off)) d - 1) < s -> up <= s.
Proof.
  intros Ht Hs Ho Hd Hl. pose proof (divRoundUp_spec (size - off) d ltac:(nia) ltac:(lia)) as [Hk Hb].
  set (k := divRoundUp (u64 (size - off)) d) in *.
  destruct (table_fits_at off d t k Ht) as (c & up & Hc & Hc0 & Hup & Hle & Hleast); [nia|].
  exists up. rewrite (index_table _ _ c), bind_Ok, (index_table _ _ up) by done.
  split_and!; [done|lia|by eapply list_elem_of_In, list_elem_of_lookup_2|]. intros s Hin _. by apply Hleast.
Qed.

(** The size of the block that the allocator returns: for small requests the
    least of the size classes that holds it, for large ones the next multiple
    of the page size. *)
Lemma roundupsize_spec {E} size (Hs : 0 <= size < 2 ^ 63) :
  exists up, roundupsize (E:=E) size = Ok up /\ size <= up /\
    (size < 32768 -> In up class_to_size /\ forall s, In s class_to_size -> size <= s -> up <= s) /\
    (32768 <= size -> up mod 8192 = 0 /\ up < size + 8192).
Proof.
  unfold roundupsize, _MaxSmallSize, smallSizeMax, smallSizeDiv, largeSizeDiv. destruct (Z.ltb_spec size 32768) as [Hlt|Hge].
  - destruct (Z.leb_spec size (1024 - 8)) as [Hsm|Hlg].
    + destruct (lookup_class (E:=E) size_to_class8 0 8 size small_table) as (up & Hrun & Hle & Hin & Hleast);
        change (Zlen size_to_class8) with 129; try lia.
      pose proof (divRoundUp_spec (size - 0) 8 ltac:(lia) ltac:(lia)) as [Hk Hb].
      rewrite (u64_small (size - 0)), Z.sub_0_r in * by lia.
      exists up. split_and!; [done|done| |lia]. intros _. split; [done|]. intros s Hs' Hss. apply Hleast; [done|done|lia].
    + destruct (lookup_class (E:=E) size_to_class128 1024 128 size large_table) as (up & Hrun & Hle & Hin & Hleast);
        change (Zlen size_to_class128) with 249; try lia.
      pose proof (divRoundUp_spec (size - 1024) 128 ltac:(lia) ltac:(lia)) as [Hk Hb].
      exists up. split_and!; [done|done| |lia]. intros _. split; [done|]. intros s Hs' Hss. apply Hleast; [done|done|lia].
  - change _PageSize with 8192. rewrite (u64_small (size + 8192)) by lia. rewrite (proj2 (Z.ltb_ge _ _)) by lia.
    unfold alignUp. rewrite (u64_small (size + 8192)), u64_small, (u64_small (8192 - 1)) by lia.
    eexists. split; [done|]. change (8192 - 1) with (Z.ones 13).
    rewrite Z.ldiff_ones_r, Z.shiftl_mul_pow2, Z.shiftr_div_pow2 by lia. change (2 ^ 13) with 8192.
    pose proof (Z.mod_pos_bound (size + 8192 - 1) 8192 ltac:(lia)). pose proof (Z.div_mod (size + 8192 - 1) 8192 ltac:(lia)).
    split_and!; [lia|lia|]. intros _. split; [apply Z.mod_mul; lia|lia].
Qed.

(** ** Sizes of maps *)

(** The most items of a map with 2^B buckets. *)
Definition cap (B : Z) : Z := if B <=? 0 then 8 else 13 * 2 ^ (B - 1).

Lemma overLoadFactor_cap hint B : 0 <= hint < 2 ^ 40 -> 0 <= B < 50 -> overLoadFactor hint B = (cap B <? hint).
Proof.
  intros Hh HB. unfold overLoadFactor, cap, bucketCnt, loadFactorNum, loadFactorDen, bucketShift.
  change (Z.shiftl 1 3) with 8. change 63 with (Z.ones 6). rewrite Z.land_ones, Z.mod_small, Z.shiftl_mul_pow2, Z.mul_1_l by lia.
  assert (0 < 2 ^ B <= 2 ^ 50) by (split; [apply Z.pow_pos_nonneg; lia|apply Z.pow_le_mono_r; lia]).
  rewrite (u64_small (2 ^ B)), (u64_small hint) by lia. destruct (Z.leb_spec B 0) as [Hz|Hp].
  - assert (B = 0) as -> by lia. change (u64 (13 * (2 ^ 0 / 2))) with 0. lia.
  - assert (2 ^ B = 2 ^ (B - 1) * 2) as -> by (replace B with (Z.succ (B - 1)) at 1 by lia; rewrite Z.pow_succ_r by lia; lia).
    rewrite Z.div_mul by lia. assert (0 < 2 ^ (B - 1) <= 2 ^ 50) by (split; [apply Z.pow_pos_nonneg; lia|apply Z.pow_le_mono_r; lia]).
    rewrite u64_small by lia. lia.
Qed.

Lemma growB_finds {E} hint B : 0 <= hint < 2 ^ 40 -> (B = 0 \/ cap (B - 1) < hint) -> hint <= cap B -> 0 <= B < 50 ->
  forall n B0, 0 <= B0 <= B -> B - B0 < Z.of_nat n -> growB (E:=E) n hint B0 = Ok B.
Proof.
  intros Hh Hlo Hhi HB. induction n as [|n IH]; intros B0 HB0 Hn; [lia|]. cbn [growB].
  rewrite overLoadFactor_cap by lia. assert (Hmono : B0 < B -> cap B0 <= cap (B - 1)).
  { intros Hlt. unfold cap. destruct (Z.leb_spec B0 0), (Z.leb_spec (B - 1) 0); cbv iota; try lia.
    pose proof (Z.pow_le_mono_r 2 (B0 - 1) (B - 1 - 1) ltac:(lia) ltac:(lia)). lia. }
  destruct (Z.ltb_spec (cap B0) hint) as [Hlt|Hge].
  - rewrite u8_small by lia. apply IH; [|lia]. destruct (Z.eq_dec B0 B) as [->|]; lia.
  - f_equal. destruct (Z.eq_dec B0 B); [done|]. destruct Hlo; lia.
Qed.

(** The number of items fixes the number of buckets, and that the bytes. *)
Lemma calculateRoughMapSize_spec {E} hint B : 0 <= hint <= maxAlloc / bucketSize ->
  (B = 0 \/ cap (B - 1) < hint) -> hint <= cap B -> 0 <= B < 50 ->
  calculateRoughMapSize (E:=E) hint bucketSize = mapBytes B bucketSize.
Proof.
  change (maxAlloc / bucketSize) with 2987803336. change bucketSize with 368. intros Hh Hlo Hhi HB. unfold calculateRoughMapSize.
  assert (Hm : mulUintptr (u64 hint) 368 = (hint * 368, false)).
  { unfold mulUintptr. rewrite (u64_small hint) by lia. destruct (_ || _) eqn:Hc; rewrite u64_small by lia; [done|].
    apply orb_false_iff in Hc as [_ Hz]. f_equal. apply Z.ltb_ge, Z.div_le_lower_bound; unfold MaxUintptr; lia. }
  rewrite Hm. cbn [orb]. rewrite (proj2 (Z.ltb_ge _ _)) by (change maxAlloc with (2 ^ 40); lia).
  rewrite (growB_finds hint B) by lia. by rewrite bind_Ok.
Qed.

(** All the sizes that occur: with B buckets the least number of items that
    calculateMinEntries answers is the least that needs them. *)
Definition least (B : Z) : Z := if B <=? 0 then 0 else cap (B - 1) + 1.
Definition min_entries_ok {E} (f : Z -> Z) (B : Z) : bool :=
  match mapBytes (E:=E) B bucketSize, mapBytes (E:=E) (B - 1) bucketSize with
  | Ok s, Ok s' => (calculateMinEntries f s bucketSize =? least B) && ((B <=? 0) || (s' <? s))
  | _, _ => false
  end.
Lemma min_entries_30 {E} f : forallb (fun n => min_entries_ok (E:=E) f (Z.of_nat n)) (seq 0 30) = true.
Proof. by vm_compute. Qed.

Lemma min_entries_at {E} f B : 0 <= B < 30 -> exists s, mapBytes (E:=E) B bucketSize = Ok s /\
  calculateMinEntries f s bucketSize = least B /\
  (0 < B -> exists s', mapBytes (E:=E) (B - 1) bucketSize = Ok s' /\ s' < s).
Proof.
  intros HB. pose proof (min_entries_30 (E:=E) f) as Hall. rewrite forallb_forall in Hall.
  specialize (Hall (Z.to_nat B)). rewrite Z2Nat.id in Hall by lia. unfold min_entries_ok in Hall.
  destruct (mapBytes B bucketSize) as [s| | |]; [|exfalso; by specialize (Hall ltac:(apply in_seq; lia))..].
  destruct (mapBytes (B - 1) bucketSize) as [s'| | |]; [|exfalso; by specialize (Hall ltac:(apply in_seq; lia))..].
  specialize (Hall ltac:(apply in_seq; lia)). apply andb_prop in Hall as [Hmin Hlt].
  exists s. split_and!; [done|lia|]. intros Hp. exists s'. split; [done|]. apply orb_prop in Hlt. lia.
Qed.

Lemma hint_buckets hint : 0 <= hint <= maxAlloc / bucketSize ->
  exists B, 0 <= B < 30 /\ (B = 0 \/ cap (B - 1) < hint) /\ hint <= cap B.
Proof.
  change (maxAlloc / bucketSize) with 2987803336. intros Hh.
  assert (Hg : forall n, (n <= 29)%nat -> (exists B, 0 <= B < Z.of_nat n /\ (B = 0 \/ cap (B - 1) < hint) /\ hint <= cap B)
    \/ n = 0%nat \/ cap (Z.of_nat n - 1) < hint).
  { induction n as [|n IH]; intros Hn; [tauto|]. destruct IH as [(B & ? & ?)|IH]; [lia|left; exists B; split; [lia|done]|].
    destruct (Z.le_gt_cases hint (cap (Z.of_nat n))) as [Hle|Hgt].
    - left. exists (Z.of_nat n). split_and!; [lia|lia| |done]. destruct IH as [->|]; [by left|by right].
    - right. right. replace (Z.of_nat (S n) - 1) with (Z.of_nat n) by lia. done. }
  destruct (Hg 29%nat ltac:(lia)) as [(B & ? & ?)|[|Hlo]]; [exists B; split; [lia|done]|done|].
  exists 29. split; [lia|]. split; [by right|]. change (cap 29) with 3489660928. lia.
Qed.

(** calculateMinEntries inverts calculateRoughMapSize: given the size of a map
    it answers the least number of items for which a map takes that size,
    and one item less gives a smaller map. *)
Theorem calculateMinEntries_inverts {E} f hint (Hh : 0 <= hint <= maxAlloc / bucketSize) :
  exists s, calculateRoughMapSize (E:=E) hint bucketSize = Ok s /\
    let n := calculateMinEntries f s bucketSize in
    0 <= n <= hint /\ calculateRoughMapSize (E:=E) n bucketSize = Ok s /\
    (0 < n -> exists s', calculateRoughMapSize (E:=E) (n - 1) bucketSize = Ok s' /\ s' < s).
Proof.
  destruct (hint_buckets hint Hh) as (B & HB & Hlo & Hhi). destruct (min_entries_at (E:=E) f B HB) as (s & Hs & Hmin & Hless).
  exists s. rewrite (calculateRoughMapSize_spec hint B) by (done || lia). split; [done|]. cbv zeta. rewrite Hmin. unfold least.
  assert (Hcap : forall B, 8 <= cap B).
  { intros b. unfold cap. destruct (Z.leb_spec b 0); [done|]. pose proof (Z.pow_le_mono_r 2 0 (b - 1)). lia. }
  destruct (Z.leb_spec B 0) as [Hz|Hp].
  - assert (B = 0) as -> by lia. split; [lia|]. split; [|lia].
    rewrite (calculateRoughMapSize_spec 0 0); [done|lia|by left|done|lia].
  - destruct Hlo as [|Hlo]; [lia|]. pose proof (Hcap (B - 1)). split; [lia|]. split.
    + rewrite (calculateRoughMapSize_spec (cap (B - 1) + 1) B); [done|lia|right; lia|lia|lia].
    + intros _. destruct (Hless Hp) as (s' & Hs' & Hlt). exists s'. split; [|done]. rewrite <- Hs'.
      replace (cap (B - 1) + 1 - 1) with (cap (B - 1)) by lia.
      apply calculateRoughMapSize_spec; [lia| |lia|lia]. destruct (Z.eq_dec B 1) as [->|]; [by left|]. right.
      unfold cap. rewrite (proj2 (Z.leb_gt (B - 1) 0)) by lia. destruct (Z.leb_spec (B - 1 - 1) 0).
      * assert (B = 2) as -> by lia. done.
      * replace (B - 1 - 1) with (Z.succ (B - 1 - 1 - 1)) at 2 by lia. rewrite Z.pow_succ_r by lia. pose proof (Z.pow_le_mono_r 2 0 (B - 1 - 1 - 1)). lia.
Qed.

Module Toy.
Lemma calculateMinEntries_inverts_witness :
  calculateRoughMapSize (E:=unit) 1000 bucketSize = Ok 106424 /\
  exists s, calculateRoughMapSize (E:=unit) 1000 bucketSize = Ok s /\ calculateMinEntries (fun _ => 0) s bucketSize = 833.
Proof.
  split; [reflexivity|]. destruct (calculateMinEntries_inverts (E:=unit) (fun _ => 0) 1000) as (s & Hs & _); [split; by vm_compute|].
  exists s. split; [exact Hs|]. vm_compute in Hs. injection Hs as <-. reflexivity.
Defined.
End Toy.

(** Whatever the hint, also negative or too large, there is an answer. *)
Lemma growB_total {E} hint : overLoadFactor hint 45 = false -> forall n B, 0 <= B <= 45 -> 45 - B < Z.of_nat n ->
  exists B', growB (E:=E) n hint B = Ok B' /\ 0 <= B' <= 45.
Proof.
  intros H45. induction n as [|n IH]; intros B HB Hn; [lia|]. cbn [growB].
  destruct (overLoadFactor hint B) eqn:Ho; [|exists B; split; [done|lia]].
  assert (B <> 45) by (intros ->; congruence). rewrite u8_small by lia. apply IH; lia.
Qed.

Lemma mapBytes_total {E} B : 0 <= B <= 45 -> exists s, mapBytes (E:=E) B bucketSize = Ok s.
Proof.
  intros HB. unfold mapBytes. destruct (Z.leb_spec 4 B) as [H4|H4].
  - edestruct (roundupsize_spec (E:=E) (u64 (bucketSize * u64 (bucketShift B + bucketShift (B - 4))))) as (up & -> & _).
    + assert (Hsh : forall b, 0 <= b <= 45 -> 0 <= bucketShift b <= 2 ^ 45).
      { intros b Hb. unfold bucketShift. change 63 with (Z.ones 6). rewrite Z.land_ones, Z.mod_small, Z.shiftl_mul_pow2, Z.mul_1_l by lia.
        assert (0 < 2 ^ b <= 2 ^ 45) by (split; [apply Z.pow_pos_nonneg; lia|apply Z.pow_le_mono_r; lia]). rewrite u64_small by lia. lia. }
      pose proof (Hsh B ltac:(lia)). pose proof (Hsh (B - 4) ltac:(lia)). change bucketSize with 368.
      rewrite (u64_small (bucketShift B + bucketShift (B - 4))), u64_small by lia. lia.
    + rewrite bind_Ok. change (mret ?x) with (@Ok E Z x). rewrite bind_Ok. destruct (mulUintptr _ _). by eexists.
  - rewrite bind_Ok. destruct (mulUintptr _ _). by eexists.
Qed.

Lemma calculateRoughMapSize_total {E} hint : exists s, calculateRoughMapSize (E:=E) hint bucketSize = Ok s.
Proof.
  unfold calculateRoughMapSize. destruct (mulUintptr (u64 hint) bucketSize) as [mem overflow] eqn:Hm.
  assert (H45 : overLoadFactor (if overflow || (maxAlloc <? mem) then 0 else hint) 45 = false).
  { destruct overflow; [done|]. cbn [orb]. destruct (Z.ltb_spec maxAlloc mem) as [|Hle]; [done|].
    unfold overLoadFactor. apply andb_false_intro2. change (u64 (loadFactorNum * (bucketShift 45 / loadFactorDen))) with (13 * 2 ^ 44).
    apply Z.ltb_ge. change maxAlloc with (2 ^ 40) in Hle. pose proof (u64_range hint) as Hr. unfold mulUintptr in Hm.
    change bucketSize with 368 in *. destruct (_ || _) eqn:Hc.
    - injection Hm as <-. apply orb_prop in Hc as [Hc|Hc]; [|lia]. apply Z.ltb_lt in Hc. change (Z.shiftl 1 (4 * PtrSize)) with (2 ^ 32) in Hc.
      destruct (Z.eq_dec (u64 hint) 0) as [Hz|Hz]; [rewrite Hz; lia|].
      assert (Hlog : Z.log2 (u64 hint) < 32).
      { pose proof (Z.log2_lor (u64 hint) 368 ltac:(lia) ltac:(lia)) as Hl. apply Z.log2_lt_pow2 in Hc; [lia|].
        pose proof (proj2 (Z.lor_nonneg (u64 hint) 368) ltac:(lia)). destruct (Z.eq_dec (Z.lor (u64 hint) 368) 0) as [Hzero|]; [|lia].
        apply Z.lor_eq_0_iff in Hzero as [? _]. lia. }
      apply Z.log2_lt_pow2 in Hlog; lia.
    - injection Hm as <- Ho. apply Z.ltb_ge in Ho. apply orb_false_elim in Hc as [_ Hz].
      assert (u64 hint * 368 <= MaxUintptr).
      { pose proof (Z.mul_div_le MaxUintptr (u64 hint) ltac:(lia)). nia. }
      rewrite u64_small in Hle by (unfold MaxUintptr in *; lia). lia. }
  destruct (growB_total (E:=E) _ H45 64 0) as (B & -> & HB); [lia|lia|]. rewrite bind_Ok. by apply mapBytes_total.
Qed.

End SizeHelper.
