(* ===== verification/UtxoCache.v ===== *)
(** * The cache of the utxo set

    Models coin/OrcaNet/blockchain/utxocache.go: the slice of maps that holds
    the entries, the cache in front of the utxo bucket, and its flushes.  An
    entry that the cache returns is the object that its map holds, and
    spending it changes the map; the model writes that change back where the
    lookup found it.  A transaction of the database is assumed to succeed,
    and the capacity of a script is its length.

    The specification is the set of coins of Utxo.v: the cache over the
    bucket represents a set, transactions are applied to it, fetching and
    flushing keep it, and a flush leaves the set in the bucket. *)

From S2P Require Import Prelude SizeHelper Vlq Compress ScriptNum Wire Tokenizer SigHash Merkle Difficulty Chain ChainView Utxo Chainio.

Module UtxoCache.
Import SizeHelper Vlq Compress ScriptNum Wire Tokenizer SigHash Merkle Difficulty Chain Utxo Chainio.

(** ** A slice of maps *)
Abbreviation entryMap := (gmap OutPoint (option UtxoEntry)).

Record mapSlice := mkMapSlice {
  maps : list entryMap;
  maxEntries : list Z;
  maxTotalMemoryUsage : Z;
}.

Definition length (ms : mapSlice) : Z := sum ((fun m => Z.of_nat (base.size m)) <$> maps ms).

Fixpoint sizeLoop (maxs : list Z) (size : Z) : outcome DbError Z :=
  match maxs with
  | [] => Ok size
  | num :: maxs => n ← calculateRoughMapSize num bucketSize; sizeLoop maxs (size + n)
  end.
Definition size (ms : mapSlice) : outcome DbError Z := sizeLoop (maxEntries ms) 0.

(** None: not found; Some None: the nil of a known miss. *)
Fixpoint getIn (ms : list entryMap) (op : OutPoint) : option (option UtxoEntry) :=
  match ms with
  | [] => None
  | m :: ms => match m !! op with Some entry => Some entry | None => getIn ms op end
  end.
Definition get (ms : mapSlice) (op : OutPoint) : option (option UtxoEntry) := getIn (maps ms) op.

(** None: all the maps are full. *)
Fixpoint putIn (maxs : list Z) (ms : list entryMap) (op : OutPoint) (entry : option UtxoEntry)
    : outcome DbError (option (list entryMap)) :=
  match maxs, ms with
  | [], _ => Ok None
  | _ :: _, [] => Panic
  | maxNum :: maxs, m :: ms =>
      if bool_decide (is_Some (m !! op)) then Ok (Some (<[op := entry]> m :: ms))
      else if maxNum <=? Z.of_nat (base.size m) then
        r ← putIn maxs ms op entry; Ok (match r with Some l => Some (m :: l) | None => None end)
      else Ok (Some (<[op := entry]> m :: ms))
  end.

Section Cache.
Variable implementationLog2 : Z -> Z.
Context `{L : PubKeyLib} {H : Hashes}.

Fixpoint leftover (maxs : list Z) (memSize : Z) : outcome DbError Z :=
  match maxs with
  | [] => Ok memSize
  | maxNum :: maxs => n ← calculateRoughMapSize maxNum bucketSize; leftover maxs (u64 (memSize - u64 n))
  end.

(** The new map is the last one. *)
Definition makeNewMap (totalEntryMemory : Z) (ms : mapSlice) : outcome DbError mapSlice :=
  memSize ← leftover (maxEntries ms) (u64 (maxTotalMemoryUsage ms - totalEntryMemory));
  let numMaxElements := calculateMinEntries implementationLog2 (i64 memSize) (bucketSize + avgEntrySize) - 1 in
  mret (mkMapSlice (maps ms ++ [∅]) (maxEntries ms ++ [numMaxElements]) (maxTotalMemoryUsage ms)).

Definition put (op : OutPoint) (entry : option UtxoEntry) (totalEntryMemory : Z) (ms : mapSlice) : outcome DbError mapSlice :=
  r ← putIn (maxEntries ms) (maps ms) op entry;
  match r with
  | Some l => Ok (mkMapSlice l (maxEntries ms) (maxTotalMemoryUsage ms))
  | None =>
      ms' ← makeNewMap totalEntryMemory ms;
      mret (mkMapSlice (alter (<[op := entry]>) (List.length (maps ms') - 1)%nat (maps ms')) (maxEntries ms') (maxTotalMemoryUsage ms'))
  end.

Definition delete (op : OutPoint) (ms : mapSlice) : mapSlice :=
  mkMapSlice (base.delete op <$> maps ms) (maxEntries ms) (maxTotalMemoryUsage ms).

Definition deleteMaps (ms : mapSlice) : outcome DbError mapSlice :=
  size ← index (maxEntries ms) 0;
  maps ← slice (maps ms) 0 1;
  mret (mkMapSlice maps [size] (maxTotalMemoryUsage ms)).

(** ** The cache *)
Inductive FlushMode := FlushRequired | FlushPeriodic | FlushIfNeeded.
Definition utxoFlushPeriodicInterval := 60 * 1000000000 * 5.

Record utxoCache := mkCache {
  cachedEntries : mapSlice;
  totalEntryMemory : Z;
  c_maxTotalMemoryUsage : Z;
  lastFlushHash : list Z;
  lastFlushTime : Z;
}.

Definition newUtxoCache (maxTotalMemoryUsage : Z) : utxoCache :=
  let numMaxElements := calculateMinEntries implementationLog2 (i64 maxTotalMemoryUsage) (bucketSize + avgEntrySize) - 1 in
  mkCache (mkMapSlice [∅] [numMaxElements] maxTotalMemoryUsage) 0 maxTotalMemoryUsage (replicate 32 0) 0.

Definition withEntries (ms : mapSlice) (memory : Z) (s : utxoCache) : utxoCache :=
  mkCache ms memory (c_maxTotalMemoryUsage s) (lastFlushHash s) (lastFlushTime s).

(** UtxoEntry.memoryUsage (utxoviewpoint.go). *)
Definition memoryUsage (entry : option UtxoEntry) : Z :=
  match entry with Some e => u64 (baseEntrySize + Zlen (pkScript e)) | None => 0 end.

Definition totalMemoryUsage (s : utxoCache) : outcome DbError Z :=
  n ← size (cachedEntries s); mret (u64 (u64 n + totalEntryMemory s)).

Fixpoint dbFetchAll (utxoBucket : Bucket) (ops : list OutPoint) : outcome DbError (list (option UtxoEntry)) :=
  match ops with
  | [] => Ok []
  | op :: ops => entry ← dbFetchUtxoEntry utxoBucket op; es ← dbFetchAll utxoBucket ops; mret (entry :: es)
  end.

Fixpoint putFetched (l : list (OutPoint * option UtxoEntry)) (s : utxoCache) : outcome DbError utxoCache :=
  match l with
  | [] => Ok s
  | (op, entry) :: l =>
      ms ← put op entry (totalEntryMemory s) (cachedEntries s);
      putFetched l (withEntries ms (u64 (totalEntryMemory s + memoryUsage entry)) s)
  end.

(** The entries in the order of the outpoints, those of the database in the
    places that the cache did not have. *)
Fixpoint fillIn (found : list (option (option UtxoEntry))) (dbEntries : list (option UtxoEntry)) : list (option UtxoEntry) :=
  match found with
  | [] => []
  | Some entry :: found => entry :: fillIn found dbEntries
  | None :: found => match dbEntries with e :: es => e :: fillIn found es | [] => None :: fillIn found [] end
  end.

Definition fetchEntries (utxoBucket : Bucket) (outpoints : list OutPoint) (s : utxoCache)
    : outcome DbError (list (option UtxoEntry) * utxoCache) :=
  let found := get (cachedEntries s) <$> outpoints in
  let missingOps := filter (fun op => get (cachedEntries s) op = None) outpoints in
  if Zlen missingOps =? 0 then Ok (fillIn found [], s)
  else
    dbEntries ← dbFetchAll utxoBucket missingOps;
    s ← putFetched (zip missingOps dbEntries) s;
    mret (fillIn found dbEntries, s).

Definition addTxOut (outpoint : OutPoint) (txOut : TxOut) (isCoinBase : bool) (blockHeight : Z) (s : utxoCache)
    : outcome DbError utxoCache :=
  dead ← Chainio.noErr (IsUnspendable (PkScript txOut));
  if dead : bool then Ok s
  else
    let flags := Z.lor tfFresh tfModified in
    let entry := Some (mkEntry (Value txOut) (PkScript txOut) blockHeight
                   (if isCoinBase then Z.lor flags tfCoinBase else flags)) in
    ms ← put outpoint entry (totalEntryMemory s) (cachedEntries s);
    mret (withEntries ms (u64 (totalEntryMemory s + memoryUsage entry)) s).

Fixpoint addOuts (hash : list Z) (i : Z) (outs : list TxOut) (isCoinBase : bool) (height : Z) (s : utxoCache)
    : outcome DbError utxoCache :=
  match outs with
  | [] => Ok s
  | txOut :: outs =>
      s ← addTxOut (mkOutPoint hash (u32 i)) txOut isCoinBase height s;
      addOuts hash (i + 1) outs isCoinBase height s
  end.
Definition addTxOuts (tx : MsgTx) (blockHeight : Z) (s : utxoCache) : outcome DbError utxoCache :=
  addOuts (TxHash tx) 0 (TxOuts tx) (IsCoinBaseTx tx) blockHeight s.

(** Spend through the pointer that get returns. *)
Fixpoint spendIn (ms : list entryMap) (op : OutPoint) : list entryMap :=
  match ms with
  | [] => []
  | m :: ms =>
      match m !! op with
      | Some entry => <[op := Spend <$> entry]> m :: ms
      | None => m :: spendIn ms op
      end
  end.

Definition addTxIn (utxoBucket : Bucket) (txIn : TxIn) (s : utxoCache) (stxos : option (list SpentTxOut))
    : outcome DbError (utxoCache * option (list SpentTxOut)) :=
  '(entries, s) ← fetchEntries utxoBucket [PreviousOutPoint txIn] s;
  match entries with
  | [Some entry] =>
      let stxos := appendSpent entry stxos in
      let ms := cachedEntries s in
      let ms := mkMapSlice (spendIn (maps ms) (PreviousOutPoint txIn)) (maxEntries ms) (maxTotalMemoryUsage ms) in
      let entry := Spend entry in
      if isFresh entry then
        Ok (withEntries (delete (PreviousOutPoint txIn) ms) (u64 (totalEntryMemory s - memoryUsage (Some entry))) s, stxos)
      else Ok (withEntries ms (u64 (totalEntryMemory s - memoryUsage None)) s, stxos)
  | _ => Err (AssertError "missing input")
  end.

Fixpoint addIns (utxoBucket : Bucket) (ins : list TxIn) (s : utxoCache) (stxos : option (list SpentTxOut))
    : outcome DbError (utxoCache * option (list SpentTxOut)) :=
  match ins with
  | [] => Ok (s, stxos)
  | txIn :: ins => '(s, stxos) ← addTxIn utxoBucket txIn s stxos; addIns utxoBucket ins s stxos
  end.
Definition addTxIns (utxoBucket : Bucket) (tx : MsgTx) (s : utxoCache) (stxos : option (list SpentTxOut))
    : outcome DbError (utxoCache * option (list SpentTxOut)) :=
  if IsCoinBaseTx tx then Ok (s, stxos) else addIns utxoBucket (TxIns tx) s stxos.

Definition connectTransaction (utxoBucket : Bucket) (tx : MsgTx) (blockHeight : Z) (s : utxoCache)
    (stxos : option (list SpentTxOut)) : outcome DbError (utxoCache * option (list SpentTxOut)) :=
  '(s, stxos) ← addTxIns utxoBucket tx s stxos;
  s ← addTxOuts tx blockHeight s;
  mret (s, stxos).

Fixpoint connectTransactions (utxoBucket : Bucket) (txs : list MsgTx) (height : Z) (s : utxoCache)
    (stxos : option (list SpentTxOut)) : outcome DbError (utxoCache * option (list SpentTxOut)) :=
  match txs with
  | [] => Ok (s, stxos)
  | tx :: txs =>
      '(s, stxos) ← connectTransaction utxoBucket tx height s stxos;
      connectTransactions utxoBucket txs height s stxos
  end.

(** ** Flushing *)

(** The part of the database that a flush writes: the bucket of the utxo set
    and the hash up to which it is consistent. *)
Record utxoDb := mkDb {
  utxoSet : Bucket;
  consistency : option (list Z);
}.

Fixpoint writeEntries (l : list (OutPoint * option UtxoEntry)) (utxoBucket : Bucket) : outcome DbError Bucket :=
  match l with
  | [] => Ok utxoBucket
  | (outpoint, entry) :: l =>
      utxoBucket ← match entry with
                   | None => dbDeleteUtxoEntry outpoint utxoBucket
                   | Some e =>
                       if IsSpent e then dbDeleteUtxoEntry outpoint utxoBucket
                       else if negb (isModified e) then Ok utxoBucket
                       else dbPutUtxoEntry outpoint (Some e) utxoBucket
                   end;
      writeEntries l utxoBucket
  end.

(** Each map is emptied while it is written; a map of Go is walked in some
    order, here that of the list of its elements. *)
Definition writeCache (bestHash : list Z) (now : Z) (s : utxoCache) (db : utxoDb) : outcome DbError (utxoCache * utxoDb) :=
  b ← writeEntries (mjoin (map_to_list <$> maps (cachedEntries s))) (utxoSet db);
  let ms := cachedEntries s in
  ms ← deleteMaps (mkMapSlice ((fun _ => ∅) <$> maps ms) (maxEntries ms) (maxTotalMemoryUsage ms));
  mret (mkCache ms 0 (c_maxTotalMemoryUsage s) bestHash now, mkDb b (Some bestHash)).

Definition flush (mode : FlushMode) (bestHash : list Z) (now : Z) (s : utxoCache) (db : utxoDb)
    : outcome DbError (utxoCache * utxoDb) :=
  let write threshold :=
    total ← totalMemoryUsage s;
    if threshold <=? total then writeCache bestHash now s db else Ok (s, db) in
  match mode with
  | FlushRequired => write 0
  | FlushIfNeeded =>
      if bool_decide (bestHash = lastFlushHash s) then Ok (s, db) else write (c_maxTotalMemoryUsage s)
  | FlushPeriodic =>
      if utxoFlushPeriodicInterval <? now - lastFlushTime s then write 0 else write (c_maxTotalMemoryUsage s)
  end.

End Cache.

(** ** The maps as one map

    No outpoint is in two of the maps; [getIn] is then the map that they
    make up together. *)
Fixpoint dupfree (ms : list entryMap) : Prop :=
  match ms with
  | [] => True
  | m :: ms => (forall op, is_Some (m !! op) -> getIn ms op = None) /\ dupfree ms
  end.

(** An outpoint for which putIn finds its place before a free one. *)
Fixpoint settled (maxs : list Z) (ms : list entryMap) (op : OutPoint) : Prop :=
  match maxs, ms with
  | maxNum :: maxs, m :: ms => is_Some (m !! op) \/ (maxNum <= Z.of_nat (base.size m) /\ settled maxs ms op)
  | _, _ => False
  end.

Lemma getIn_app ms1 ms2 op : getIn (ms1 ++ ms2) op = match getIn ms1 op with Some e => Some e | None => getIn ms2 op end.
Proof. induction ms1 as [|m ms1 IH]; [done|]. cbn. destruct (m !! op); [done|apply IH]. Qed.

Lemma dupfree_snoc ms m : dupfree ms -> (forall op, is_Some (m !! op) -> getIn ms op = None) -> dupfree (ms ++ [m]).
Proof.
  induction ms as [|m0 ms IH]; cbn; intros Hd Hm; [split; [done|done]|]. destruct Hd as [Hd0 Hd]. split.
  - intros op Hop. rewrite getIn_app, (Hd0 _ Hop). cbn. destruct (m !! op) as [e|] eqn:He; [|done].
    specialize (Hm op). destruct Hop as [e0 He0]. rewrite He, He0 in Hm. specialize (Hm ltac:(by eexists)). discriminate Hm.
  - apply IH; [done|]. intros op Hop. specialize (Hm op Hop). by destruct (m0 !! op).
Qed.

Lemma size_insert_ge (m : entryMap) op e : Z.of_nat (base.size m) <= Z.of_nat (base.size (<[op := e]> m)).
Proof.
  rewrite map_size_insert. destruct (m !! op); cbn; lia.
Qed.

(** What [ms'] keeps of [ms] when only [op] changes. *)
Definition same_but (op : OutPoint) (ms ms' : list entryMap) : Prop := forall x, x <> op -> getIn ms' x = getIn ms x.

Lemma same_but_insert m ms op e : same_but op (m :: ms) (<[op := e]> m :: ms).
Proof. intros x Hne. cbn. by rewrite lookup_insert_ne. Qed.

Lemma settled_app x maxs ms n m : settled maxs ms x -> settled (maxs ++ [n]) (ms ++ [m]) x.
Proof. revert ms. induction maxs as [|k maxs IH]; intros [|m0 ms]; cbn; [done..|]. intros [?|[? ?]]; [by left|right; by auto]. Qed.

Lemma settled_insert x m ms maxs op e : settled maxs (m :: ms) x -> settled maxs (<[op := e]> m :: ms) x.
Proof.
  destruct maxs as [|n maxs]; [done|]. cbn. intros [Hs|[Hf Hs]]; [left|right].
  - destruct (decide (x = op)) as [->|Hne]; [by rewrite lookup_insert_eq|by rewrite lookup_insert_ne].
  - pose proof (size_insert_ge m op e). split; [lia|done].
Qed.

(** putIn on an outpoint that no map holds, or that is settled. *)
Lemma putIn_spec op e : forall maxs ms, List.length ms = List.length maxs -> dupfree ms ->
  getIn ms op = None \/ settled maxs ms op ->
  match putIn maxs ms op e with
  | Ok None => getIn ms op = None /\ (forall n m, is_Some (m !! op) -> settled (maxs ++ [n]) (ms ++ [m]) op)
  | Ok (Some ms') => List.length ms' = List.length ms /\ dupfree ms' /\ getIn ms' op = Some e /\ same_but op ms ms' /\
      same_but op (tail ms) (tail ms') /\ settled maxs ms' op /\ (forall x, settled maxs ms x -> settled maxs ms' x)
  | _ => False
  end.
Proof.
  induction maxs as [|maxNum maxs IH]; intros [|m ms] Hlen Hd Hs; try done.
  - split; [done|]. intros n m Hm. by left.
  - cbn [putIn dupfree getIn] in *. destruct Hd as [Hd0 Hd].
    case_bool_decide as Hin.
    { split_and!; [done|split; [|done]|by cbn; rewrite lookup_insert_eq|apply same_but_insert|done|by left; rewrite lookup_insert_eq|].
      - intros x [y Hx]. destruct (decide (x = op)) as [->|Hne]; [by apply Hd0|]. rewrite lookup_insert_ne in Hx by done. apply Hd0. by exists y.
      - intros x. apply (settled_insert x m ms (maxNum :: maxs)). }
    assert (Hnone : m !! op = None) by (destruct (m !! op); [by destruct Hin|done]). rewrite Hnone in Hs.
    destruct (Z.leb_spec maxNum (Z.of_nat (base.size m))) as [Hfull|Hfree].
    + specialize (IH ms ltac:(cbn in Hlen; lia) Hd). destruct (putIn maxs ms op e) as [[ms'|]| | |].
      * destruct IH as (Hl & Hd' & Hget & Hsame & _ & Hset & Hkeep).
        { destruct Hs as [Hs|Hs]; [by left|]. cbn in Hs. destruct Hs as [Hs|[_ Hs]]; [by destruct Hin|by right]. }
        rewrite bind_Ok. cbn [tail List.length dupfree getIn settled].
        split_and!; [by rewrite Hl| |done|by rewrite Hnone| |done|by right| ].
        -- intros x Hx. destruct (decide (x = op)) as [->|Hne]; [by rewrite Hnone in Hx; destruct Hx|]. rewrite Hsame by done. by apply Hd0.
        -- intros x Hne. cbn. destruct (m !! x); [done|by apply Hsame].
        -- intros x [Hx|[Hf Hx]]; [by left|right; by auto].
      * destruct IH as [Hget Hset].
        { destruct Hs as [Hs|Hs]; [by left|]. cbn in Hs. destruct Hs as [Hs|[_ Hs]]; [by destruct Hin|by right]. }
        rewrite bind_Ok, Hnone. split; [done|]. intros n m' Hm'. cbn. right. by auto.
      * apply IH. destruct Hs as [Hs|Hs]; [by left|]. cbn in Hs. destruct Hs as [Hs|[_ Hs]]; [by destruct Hin|by right].
      * apply IH. destruct Hs as [Hs|Hs]; [by left|]. cbn in Hs. destruct Hs as [Hs|[_ Hs]]; [by destruct Hin|by right].
      * apply IH. destruct Hs as [Hs|Hs]; [by left|]. cbn in Hs. destruct Hs as [Hs|[_ Hs]]; [by destruct Hin|by right].
    + assert (Hrest : getIn ms op = None).
      { destruct Hs as [Hs|Hs]; [done|]. cbn in Hs. destruct Hs as [Hs|[Hf _]]; [by destruct Hin|lia]. }
      split_and!; [done|split; [|done]|by cbn; rewrite lookup_insert_eq|apply same_but_insert|done|by left; rewrite lookup_insert_eq| ].
      * intros x [y Hx]. destruct (decide (x = op)) as [->|Hne]; [done|]. rewrite lookup_insert_ne in Hx by done. apply Hd0. by exists y.
      * intros x. apply (settled_insert x m ms (maxNum :: maxs)).
Qed.

Record wf (ms : mapSlice) : Prop := {
  wf_len : List.length (maps ms) = List.length (maxEntries ms);
  wf_nonempty : maps ms <> [];
  wf_dupfree : dupfree (maps ms);
}.

(** Putting [op] does not leave a second entry for it behind. *)
Definition placeable (ms : mapSlice) (op : OutPoint) : Prop :=
  get ms op = None \/ settled (maxEntries ms) (maps ms) op.
(** No map after the first holds [op]. *)
Definition home (ms : mapSlice) (op : OutPoint) : Prop := getIn (tail (maps ms)) op = None.

Lemma home_placeable ms op : wf ms -> home ms op -> placeable ms op.
Proof.
  intros [Hl Hn _]. unfold home, placeable, get. destruct (maps ms) as [|m l]; [done|]. destruct (maxEntries ms) as [|n maxs]; [done|].
  cbn. intros ->. destruct (m !! op); [right; left; by eexists|by left].
Qed.

Lemma leftover_total maxs : forall memSize, exists n, leftover maxs memSize = Ok n.
Proof.
  induction maxs as [|k maxs IH]; intros memSize; [by eexists|]. cbn [leftover].
  destruct (calculateRoughMapSize_total (E:=DbError) k) as [n ->]. rewrite bind_Ok. apply IH.
Qed.

Lemma size_total ms : exists n, size ms = Ok n.
Proof.
  unfold size. generalize 0. induction (maxEntries ms) as [|k maxs IH]; intros sz; [by eexists|]. cbn [sizeLoop].
  destruct (calculateRoughMapSize_total (E:=DbError) k) as [n ->]. rewrite bind_Ok. apply IH.
Qed.

Section Log2.
Variable f : Z -> Z.

(** One map in which [op] has the value [e]. *)
Lemma put_spec op e memory ms : wf ms -> placeable ms op ->
  exists ms', put f op e memory ms = Ok ms' /\ wf ms' /\ get ms' op = Some e /\
    (forall x, x <> op -> get ms' x = get ms x) /\ (forall x, x <> op -> home ms x -> home ms' x) /\
    (forall x, placeable ms x -> placeable ms' x).
Proof.
  intros [Hl Hn Hd] Hp. unfold put. pose proof (putIn_spec op e (maxEntries ms) (maps ms) Hl Hd Hp) as Hput.
  destruct (putIn _ _ _ _) as [[l|]| | |]; [| |done..]; rewrite bind_Ok.
  - destruct Hput as (Hl' & Hd' & Hget & Hsame & Htail & Hset & Hkeep). eexists. split; [done|]. unfold get, home, placeable; cbn.
    split_and!; [split; cbn; [by rewrite Hl'| |done]; by destruct (maps ms), l|done|exact Hsame| |].
    + intros x Hne Hx. by rewrite Htail.
    + intros x [Hx|Hx]; [|right; by auto]. destruct (decide (x = op)) as [->|Hne]; [by right|left]. by rewrite Hsame.
  - destruct Hput as [Hget Hset]. unfold makeNewMap.
    destruct (leftover_total (maxEntries ms) (u64 (maxTotalMemoryUsage ms - memory))) as [memSize ->]. rewrite bind_Ok.
    change (mret ?x) with (@Ok DbError mapSlice x). rewrite bind_Ok. cbn [maps maxEntries maxTotalMemoryUsage].
    set (n := _ - 1). rewrite length_app. cbn [List.length]. rewrite Nat.add_sub.
    assert (Halter : alter (<[op:=e]>) (List.length (maps ms)) (maps ms ++ [∅]) = maps ms ++ [({[op:=e]} : entryMap)]).
    { rewrite <- (Nat.add_0_r (List.length (maps ms))) at 1. by rewrite alter_app_r. }
    rewrite Halter. eexists. split; [done|]. unfold get, home, placeable; cbn [maps maxEntries].
    assert (Hsame : forall x, x <> op -> getIn (maps ms ++ [({[op:=e]} : entryMap)]) x = getIn (maps ms) x).
    { intros x Hne. rewrite getIn_app. cbn. rewrite lookup_singleton_ne by done. by destruct (getIn (maps ms) x). }
    split_and!; [split; cbn; [rewrite !length_app, Hl; done|by destruct (maps ms)|]| |done| |].
    + apply dupfree_snoc; [done|]. intros x [y Hx]. apply lookup_singleton_Some in Hx as [<- _]. exact Hget.
    + rewrite getIn_app. unfold get in Hget. rewrite Hget. cbn. by rewrite lookup_singleton_eq.
    + intros x Hne Hx. destruct (maps ms) as [|m l]; [done|]. cbn in *. rewrite getIn_app, Hx. cbn. by rewrite lookup_singleton_ne.
    + intros x [Hx|Hx]; [|right; by apply settled_app].
      destruct (decide (x = op)) as [->|Hne]; [|left; etransitivity; [by apply Hsame|done]]. right. apply Hset. rewrite lookup_singleton_eq. by eexists.
Qed.

End Log2.

Lemma getIn_delete op ms x : getIn (base.delete op <$> ms) x = if decide (x = op) then None else getIn ms x.
Proof.
  induction ms as [|m ms IH]; cbn; [by destruct (decide _)|]. destruct (decide (x = op)) as [->|Hne].
  - by rewrite lookup_delete_eq, IH.
  - rewrite lookup_delete_ne by done. by rewrite IH.
Qed.

Lemma delete_spec op ms : wf ms -> wf (delete op ms) /\
  (forall x, get (delete op ms) x = if decide (x = op) then None else get ms x) /\
  (forall x, x <> op -> home ms x -> home (delete op ms) x).
Proof.
  intros [Hl Hn Hd]. split; [|split].
  - split; cbn; [by rewrite length_fmap|by destruct (maps ms)|]. clear Hl Hn.
    induction (maps ms) as [|m l IH]; cbn in *; [done|]. destruct Hd as [Hd0 Hd]. split; [|by apply IH].
    intros x [y Hx]. apply lookup_delete_Some in Hx as [Hne Hx]. rewrite getIn_delete. destruct (decide _); [done|]. apply Hd0. by exists y.
  - intros x. apply getIn_delete.
  - intros x Hne. unfold home. cbn. destruct (maps ms) as [|m l]; [done|]. cbn. rewrite getIn_delete. by destruct (decide _).
Qed.

(** Spending in the map that holds the outpoint. *)
Definition spendAt (op : OutPoint) (ms : mapSlice) : mapSlice :=
  mkMapSlice (spendIn (maps ms) op) (maxEntries ms) (maxTotalMemoryUsage ms).

Lemma getIn_spend op ms x : getIn (spendIn ms op) x = if decide (x = op) then (fun e : option UtxoEntry => Spend <$> e) <$> getIn ms op else getIn ms x.
Proof.
  induction ms as [|m ms IH]; cbn; [by destruct (decide _)|]. destruct (m !! op) as [e|] eqn:He; cbn.
  - destruct (decide (x = op)) as [->|Hne]; [by rewrite lookup_insert_eq|by rewrite lookup_insert_ne].
  - rewrite IH. destruct (decide (x = op)) as [->|Hne]; [by rewrite He|done].
Qed.

Lemma spend_spec op ms : wf ms -> wf (spendAt op ms) /\
  (forall x, get (spendAt op ms) x = if decide (x = op) then (fun e : option UtxoEntry => Spend <$> e) <$> get ms op else get ms x) /\
  (forall x, x <> op -> home ms x -> home (spendAt op ms) x).
Proof.
  intros [Hl Hn Hd]. split; [|split].
  - assert (Hlen : List.length (spendIn (maps ms) op) = List.length (maps ms))
      by (clear; induction (maps ms) as [|m l IH]; cbn; [done|]; destruct (m !! op); cbn; by rewrite ?IH).
    split; cbn; [by rewrite Hlen|intros Heq; rewrite Heq in Hlen; by destruct (maps ms)|]. clear Hl Hn Hlen.
    induction (maps ms) as [|m l IH]; cbn in *; [done|]. destruct Hd as [Hd0 Hd]. destruct (m !! op) as [e|] eqn:He; split; cbn.
    + intros x Hx. apply Hd0. destruct (decide (x = op)) as [->|Hne]; [by rewrite He|by rewrite lookup_insert_ne in Hx].
    + done.
    + intros x Hx. rewrite getIn_spend. destruct (decide (x = op)) as [->|Hne]; [by rewrite He in Hx; destruct Hx|by apply Hd0].
    + by apply IH.
  - intros x. apply getIn_spend.
  - intros x Hne. unfold home. cbn. destruct (maps ms) as [|m l]; [done|]. cbn. destruct (m !! op); cbn; [done|].
    rewrite getIn_spend. by destruct (decide _).
Qed.

(** ** The cache over the bucket *)
Lemma Spend_modified e : isModified e = true \/ IsSpent e = false -> isModified (Spend e) = true.
Proof.
  intros Hm. unfold Spend. destruct (IsSpent e) eqn:Hs; [by destruct Hm|]. rewrite isModified_bit. cbn [packedFlags].
  rewrite Z.lor_spec. apply orb_true_r.
Qed.

Section Spec.
Context `{L : PubKeyLib} {P : PubKeyLaws L} {H : Hashes} {HL : HashLaws H}.

Lemma stored_flags e : IsSpent (stored e) = false /\ isModified (stored e) = false /\ isFresh (stored e) = false /\ coinOf (stored e) = coinOf e.
Proof using. unfold stored, coinOf, IsSpent, isModified, isFresh, IsCoinBase. cbn. by destruct (Z.land (packedFlags e) tfCoinBase =? tfCoinBase). Qed.

(** What an entry of the cache says of the one in the database. *)
Definition entry_inv (inDb : option UtxoEntry) (e : option UtxoEntry) : Prop :=
  match e with
  | None => inDb = None
  | Some e =>
      (isFresh e = true -> inDb = None /\ IsSpent e = false /\ isModified e = true) /\
      (isModified e = false -> IsSpent e = false /\ coinOf <$> inDb = Some (coinOf e)) /\
      (IsSpent e = false -> entry_ok e)
  end.

(** The cache over a bucket that holds [db] represents the set [m]. *)
Record repr (ms : mapSlice) (db : gmap OutPoint UtxoEntry) (m : gmap OutPoint coin) : Prop := {
  r_wf : wf ms;
  r_inv : forall op e, get ms op = Some e -> op_ok op /\ entry_inv (db !! op) e;
  r_coins : forall op, m !! op = match get ms op with Some e => live e | None => coinOf <$> db !! op end;
}.

Definition represents (s : utxoCache) (b : Bucket) (m : gmap OutPoint coin) : Prop :=
  exists db, holds b db /\ repr (cachedEntries s) db m.

Lemma repr_put f op e memory ms db m m' : repr ms db m -> placeable ms op -> op_ok op -> entry_inv (db !! op) e ->
  m' !! op = live e -> (forall x, x <> op -> m' !! x = m !! x) ->
  exists ms', put f op e memory ms = Ok ms' /\ repr ms' db m' /\ get ms' op = Some e /\
    (forall x, x <> op -> get ms' x = get ms x) /\ (forall x, x <> op -> home ms x -> home ms' x) /\
    (forall x, placeable ms x -> placeable ms' x).
Proof using.
  intros [Hwf Hinv Hc] Hp Hop He Hm Hm'. destruct (put_spec f op e memory ms Hwf Hp) as (ms' & Hrun & Hwf' & Hget & Hsame & Hrest).
  exists ms'. split; [done|]. split; [|done]. split; [done| |].
  - intros x e' Hx. destruct (decide (x = op)) as [->|Hne].
    + rewrite Hget in Hx. by injection Hx as <-.
    + rewrite Hsame in Hx by done. by apply Hinv.
  - intros x. destruct (decide (x = op)) as [->|Hne]; [by rewrite Hget|]. by rewrite Hsame, Hm'.
Qed.

(** *** Fetching *)
Definition fetched (db : gmap OutPoint UtxoEntry) (op : OutPoint) : option UtxoEntry := stored <$> db !! op.

Lemma fetched_inv b db op : holds b db -> entry_inv (db !! op) (fetched db op) /\ live (fetched db op) = coinOf <$> db !! op.
Proof using.
  intros [_ Hok]. unfold fetched. destruct (db !! op) as [e|] eqn:He; [|done]. cbn.
  destruct (stored_flags e) as (Hs & Hm & Hf & Hce). rewrite Hs, Hce, Hm, Hf. split; [|done].
  split; [done|]. split; [done|]. intros _. apply (Hok op e He).
Qed.

Lemma dbFetchAll_spec b db ops : holds b db -> Forall op_ok ops -> dbFetchAll b ops = Ok (fetched db <$> ops).
Proof using P.
  intros Hb. induction 1 as [|op ops Hop _ IH]; [done|]. cbn [dbFetchAll]. rewrite (fetch_holds b db), bind_Ok, IH by done. done.
Qed.

Lemma putFetched_spec f b db m : holds b db -> forall ops s, Forall op_ok ops ->
  repr (cachedEntries s) db m -> Forall (placeable (cachedEntries s)) ops ->
  (forall op, op ∈ ops -> get (cachedEntries s) op = None \/ get (cachedEntries s) op = Some (fetched db op)) ->
  exists s', putFetched f (zip ops (fetched db <$> ops)) s = Ok s' /\ repr (cachedEntries s') db m /\
    (forall op, op ∈ ops -> get (cachedEntries s') op = Some (fetched db op)) /\
    (forall x, x ∉ ops -> get (cachedEntries s') x = get (cachedEntries s) x /\ (home (cachedEntries s) x -> home (cachedEntries s') x)) /\
    (forall op, get (cachedEntries s) op = Some (fetched db op) -> get (cachedEntries s') op = Some (fetched db op)).
Proof using.
  intros Hb. induction ops as [|op ops IH]; intros s Hok Hr Hp Hg; cbn [fmap list_fmap zip_with putFetched].
  - exists s. split_and!; [done|done|by intros op ?%elem_of_nil|done|done].
  - apply list.Forall_cons in Hok as [Hop Hok]. apply list.Forall_cons in Hp as [Hpo Hp].
    destruct (fetched_inv b db op Hb) as [He Hl].
    destruct (repr_put f op (fetched db op) (totalEntryMemory s) (cachedEntries s) db m m Hr Hpo Hop He)
      as (ms' & -> & Hr' & Hget & Hsame & Hhome & Hplace).
    { rewrite Hl. pose proof (r_coins _ _ _ Hr op) as Hc. destruct (Hg op ltac:(by left)) as [Hn|Hn]; rewrite Hn in Hc; [done|by rewrite Hc]. }
    { done. }
    rewrite bind_Ok. set (s1 := withEntries ms' _ s).
    assert (Hg1 : forall x, get ms' x = get (cachedEntries s) x \/ get ms' x = Some (fetched db x)).
    { intros x. destruct (decide (x = op)) as [->|Hne]; [by right|left; by apply Hsame]. }
    destruct (IH s1 Hok Hr') as (s' & Hrun & Hr2 & Hin & Hout & Hkeep).
    + eapply list.Forall_impl; [exact Hp|]. intros x. apply Hplace.
    + intros x Hx. cbn. destruct (Hg1 x) as [-> | ->]; [apply Hg; by right|by right].
    + exists s'. split_and!; [done|done| | |].
      * intros x Hx. apply list.elem_of_cons in Hx as [->|Hx]; [|by apply Hin]. apply Hkeep. exact Hget.
      * intros x Hx. rewrite not_elem_of_cons in Hx. destruct Hx as [Hne Hx]. destruct (Hout x Hx) as [Hs Hh].
        rewrite Hs. cbn. split; [by apply Hsame|]. intros Hhm. by apply Hh, Hhome.
      * intros x Hx. apply Hkeep. cbn. destruct (Hg1 x) as [-> | ->]; done.
Qed.

Lemma fillIn_all (found : list (option (option UtxoEntry))) : Forall (fun e => e <> None) found -> fillIn found [] = default None <$> found.
Proof using. induction 1 as [|[e|] found He _ IH]; [done|cbn; by rewrite IH|done]. Qed.

Lemma fillIn_spec ms db (ops : list OutPoint) : fillIn (get ms <$> ops) (fetched db <$> filter (fun op => get ms op = None) ops)
  = (fun op => match get ms op with Some e => e | None => fetched db op end) <$> ops.
Proof using.
  induction ops as [|op ops IH]; [done|]. rewrite filter_cons. cbn [fmap list_fmap fillIn].
  destruct (get ms op) as [e|] eqn:He; [rewrite decide_False by done|rewrite decide_True by done]; cbn; by rewrite IH.
Qed.

(** Fetching answers what the set says, and leaves the cache with it. *)
Lemma fetchEntries_spec f b db m ops s : holds b db -> Forall op_ok ops -> repr (cachedEntries s) db m ->
  exists es s', fetchEntries f b ops s = Ok (es, s') /\ repr (cachedEntries s') db m /\
    es = (fun op => default None (get (cachedEntries s') op)) <$> ops /\
    (forall op, op ∈ ops -> get (cachedEntries s') op <> None) /\
    (forall x, x ∉ ops -> get (cachedEntries s') x = get (cachedEntries s) x /\ (home (cachedEntries s) x -> home (cachedEntries s') x)).
Proof using P.
  intros Hb Hok Hr. unfold fetchEntries. set (ms := cachedEntries s). set (miss := filter _ ops).
  assert (Hmiss : forall x, x ∈ miss <-> get ms x = None /\ x ∈ ops) by (intros x; unfold miss; by rewrite list_elem_of_filter).
  destruct (Z.eqb_spec (Zlen miss) 0) as [Hz|Hz].
  - assert (Hnil : miss = []) by (destruct miss; [done|]; rewrite Zlen_cons in Hz; pose proof (Zlen_nonneg miss); lia).
    assert (Hhas : forall op, op ∈ ops -> get ms op <> None).
    { intros op Hin Hn. assert (Hc : op ∈ miss) by (by apply Hmiss). rewrite Hnil in Hc. by apply elem_of_nil in Hc. }
    exists (default None <$> (get ms <$> ops)), s. split; [|split_and!; [done| |done|done]].
    + rewrite fillIn_all; [done|]. apply list.Forall_fmap, list.Forall_forall. intros op Hin. by apply Hhas.
    + by rewrite <- list_fmap_compose.
  - rewrite (dbFetchAll_spec b db), bind_Ok; [|done|].
    2: { apply list.Forall_forall. intros x Hx. apply Hmiss in Hx as [_ Hx]. rewrite list.Forall_forall in Hok. by apply Hok. }
    destruct (putFetched_spec f b db m Hb miss s) as (s' & -> & Hr' & Hin & Hout & Hkeep); [|done| | |].
    + apply list.Forall_forall. intros x Hx. apply Hmiss in Hx as [_ Hx]. rewrite list.Forall_forall in Hok. by apply Hok.
    + apply list.Forall_forall. intros x Hx. apply Hmiss in Hx as [Hx _]. by left.
    + intros x Hx. apply Hmiss in Hx as [Hx _]. by left.
    + rewrite bind_Ok. eexists _, s'. split; [done|]. unfold ms, miss. rewrite fillIn_spec. fold ms. split_and!; [done| | |].
      * apply list_fmap_ext. intros i op Hi. apply list_elem_of_lookup_2 in Hi.
        destruct (get ms op) as [e|] eqn:He.
        -- destruct (Hout op) as [-> _]; [|by fold ms; rewrite He]. intros Hc. apply Hmiss in Hc as [Hc _]. congruence.
        -- rewrite Hin; [done|]. by apply Hmiss.
      * intros op Hop. destruct (get ms op) as [e|] eqn:He.
        -- destruct (Hout op) as [-> _]; [|by fold ms; rewrite He]. intros Hc. apply Hmiss in Hc as [Hc _]. congruence.
        -- rewrite Hin; [done|]. by apply Hmiss.
      * intros x Hx. apply Hout. intros Hc. apply Hmiss in Hc as [_ Hc]. done.
Qed.

(** *** Connecting *)
Lemma addTxIn_spec f b db m txIn s st c : holds b db -> op_ok (PreviousOutPoint txIn) -> repr (cachedEntries s) db m ->
  m !! PreviousOutPoint txIn = Some c ->
  exists s', addTxIn f b txIn s st = Ok (s', (fun l => l ++ [recordOf c]) <$> st) /\
    repr (cachedEntries s') db (base.delete (PreviousOutPoint txIn) m) /\
    (forall x, x <> PreviousOutPoint txIn -> get (cachedEntries s') x = get (cachedEntries s) x /\
       (home (cachedEntries s) x -> home (cachedEntries s') x)).
Proof using P.
  intros Hb Hop Hr Hc. set (op := PreviousOutPoint txIn) in *. unfold addTxIn. fold op.
  destruct (fetchEntries_spec f b db m [op] s Hb) as (es & s1 & -> & Hr1 & -> & Hin & Hout); [by apply Forall_cons_2; [|apply Forall_nil_2]|done|].
  rewrite bind_Ok. cbn [fmap list_fmap]. specialize (Hin op ltac:(by left)). pose proof (r_coins _ _ _ Hr1 op) as Hl. rewrite Hc in Hl.
  destruct (get (cachedEntries s1) op) as [[e|]|] eqn:Hg; [|by cbn in Hl|done]. cbn [default id].
  unfold live in Hl. destruct (IsSpent e) eqn:Hs; [done|]. injection Hl as ->.
  destruct (r_inv _ _ _ Hr1 op _ Hg) as [_ (Hfresh & _ & _)].
  destruct (spend_spec op (cachedEntries s1) (r_wf _ _ _ Hr1)) as (Hwf & Hget & Hhome). fold (spendAt op (cachedEntries s1)).
  set (ms := spendAt op (cachedEntries s1)) in *.
  assert (Hrec : appendSpent e st = (fun l => l ++ [recordOf (coinOf e)]) <$> st) by (by destruct st). rewrite Hrec.
  assert (Hframe : forall x, x <> op -> get ms x = get (cachedEntries s) x /\ (home (cachedEntries s) x -> home ms x)).
  { intros x Hne. destruct (Hout x) as [He Hh]; [by rewrite list_elem_of_singleton|]. rewrite Hget, decide_False by done. split; [done|auto]. }
  rewrite Spend_fresh. destruct (isFresh e) eqn:Hf.
  - destruct (Hfresh eq_refl) as [Hdb _]. destruct (delete_spec op ms Hwf) as (Hwfd & Hgd & Hhd).
    eexists. split; [done|]. cbn [cachedEntries withEntries]. split.
    + split; [done| |].
      * intros x e'. rewrite Hgd. destruct (decide (x = op)) as [|Hne]; [done|]. rewrite Hget, decide_False by done. apply (r_inv _ _ _ Hr1).
      * intros x. rewrite Hgd. destruct (decide (x = op)) as [->|Hne]; [by rewrite lookup_delete_eq, Hdb|].
        rewrite lookup_delete_ne, Hget, decide_False by done. apply (r_coins _ _ _ Hr1).
    + intros x Hne. rewrite Hgd, decide_False by done. destruct (Hframe x Hne) as [-> Hh]. split; [done|auto].
  - eexists. split; [done|]. cbn [cachedEntries withEntries]. split; [|exact Hframe]. split; [done| |].
    + intros x e'. rewrite Hget. destruct (decide (x = op)) as [->|Hne]; [|apply (r_inv _ _ _ Hr1)].
      rewrite Hg. intros [= <-]. split; [done|]. cbn. rewrite Spend_fresh, Spend_spent, Spend_modified by (by right). rewrite Hf. done.
    + intros x. rewrite Hget. destruct (decide (x = op)) as [->|Hne].
      * rewrite lookup_delete_eq, Hg. cbn. by rewrite Spend_spent.
      * rewrite lookup_delete_ne by done. apply (r_coins _ _ _ Hr1).
Qed.

Lemma addIns_spec f b db ins : holds b db -> NoDup (PreviousOutPoint <$> ins) -> forall m s cs st,
  Forall (fun txIn => op_ok (PreviousOutPoint txIn)) ins -> repr (cachedEntries s) db m ->
  Forall2 (fun txIn c => m !! PreviousOutPoint txIn = Some c) ins cs ->
  exists s', addIns f b ins s st = Ok (s', (fun l => l ++ (recordOf <$> cs)) <$> st) /\
    repr (cachedEntries s') db (spendCoins ins m) /\
    (forall x, x ∉ PreviousOutPoint <$> ins -> get (cachedEntries s') x = get (cachedEntries s) x /\
       (home (cachedEntries s) x -> home (cachedEntries s') x)).
Proof using P.
  intros Hb. induction ins as [|txIn ins IH]; intros Hnd m s cs st Hok Hr Hcs; cbn [addIns spendCoins].
  - apply Forall2_nil_inv_l in Hcs as ->. exists s. split; [|done]. destruct st; cbn; [by rewrite app_nil_r|done].
  - apply Forall2_cons_inv_l in Hcs as (c & cs' & Hc & Hcs & ->). rewrite fmap_cons in Hnd.
    apply list.NoDup_cons in Hnd as [Hni Hnd]. apply list.Forall_cons in Hok as [Hop Hok].
    destruct (addTxIn_spec f b db m txIn s st c Hb Hop Hr Hc) as (s1 & -> & Hr1 & Hf1). rewrite bind_Ok.
    destruct (IH Hnd _ s1 cs' ((fun l => l ++ [recordOf c]) <$> st) Hok Hr1) as (s2 & -> & Hr2 & Hf2).
    + apply Forall2_same_length_lookup_2; [by apply Forall2_length in Hcs|].
      intros i ti c' Hti Hci. rewrite lookup_delete_ne; [by eapply Forall2_lookup_lr in Hcs|].
      intros Heq. apply Hni. rewrite Heq. apply list_elem_of_fmap. exists ti. split; [done|]. by eapply list_elem_of_lookup_2.
    + exists s2. split; [|split; [done|]].
      * do 2 f_equal. destruct st as [l|]; [|done]. cbn. by rewrite <- (assoc_L (++)).
      * intros x Hx. rewrite fmap_cons, not_elem_of_cons in Hx. destruct Hx as [Hne Hx].
        destruct (Hf1 x Hne) as [H1 H1']. destruct (Hf2 x Hx) as [-> H2']. split; [done|auto].
Qed.

(** What the rules of the chain ensure of a transaction before it is stored. *)
Record storable (tx : MsgTx) (height : Z) : Prop := {
  sto_outs : Forall (fun out => unspendable (PkScript out) = false -> stored_ok (Value out) (PkScript out) height) (TxOuts tx);
  sto_ins : IsCoinBaseTx tx = false -> Forall (fun txIn => op_ok (PreviousOutPoint txIn)) (TxIns tx);
}.

(** Nothing of the transaction is in the cache yet, apart from misses in the
    first map. *)
Definition creatable (ms : mapSlice) (tx : MsgTx) : Prop :=
  forall i, let op := mkOutPoint (TxHash tx) i in home ms op /\ (get ms op = None \/ get ms op = Some None).

Lemma noErr_unspendable out : bytes_ok (PkScript out) /\ Zlen (PkScript out) < 2 ^ 31 ->
  Chainio.noErr (IsUnspendable (PkScript out)) = Ok (unspendable (PkScript out)).
Proof using.
  intros [Hb Hl]. destruct (script_walks_total (PkScript out) 1 Hb Hl) as (_ & _ & (b & Hu) & _).
  unfold unspendable. by rewrite Hu.
Qed.

Lemma addOuts_spec f db hash outs cb height : List.length hash = 32%nat -> outs_ok outs ->
  Forall (fun out => unspendable (PkScript out) = false -> stored_ok (Value out) (PkScript out) height) outs -> forall i m s,
  repr (cachedEntries s) db m -> (forall k, placeable (cachedEntries s) (mkOutPoint hash k) /\ db !! mkOutPoint hash k = None) ->
  exists s', addOuts f hash i outs cb height s = Ok s' /\ repr (cachedEntries s') db (addCoins hash i outs cb height m).
Proof using.
  intros Hlen Hok. induction Hok as [|out outs Hout _ IH]; intros Hst i m s Hr Hp; cbn [addOuts addCoins]; [by exists s|].
  apply list.Forall_cons in Hst as [Hso Hst]. unfold addTxOut. rewrite noErr_unspendable, bind_Ok by done.
  destruct (unspendable (PkScript out)) eqn:Hdead; [rewrite bind_Ok; by apply IH|].
  set (op := mkOutPoint hash (u32 i)). set (e := mkEntry _ _ _ _). destruct (Hp (u32 i)) as [Hpl Hdb]. fold op in Hpl, Hdb.
  assert (He : live (Some e) = Some (mkCoin (Value out) (PkScript out) height cb)) by (by destruct cb).
  assert (Hflags : IsSpent e = false /\ isModified e = true) by (by destruct cb).
  destruct (repr_put f op (Some e) (totalEntryMemory s) (cachedEntries s) db m (<[op := mkCoin (Value out) (PkScript out) height cb]> m) Hr Hpl)
    as (ms' & -> & Hr' & _ & _ & _ & Hplace).
  - split; [done|apply u32_range].
  - destruct Hflags as [Hs Hm]. cbn. rewrite Hs, Hm, Hdb. split; [done|]. split; [done|]. intros _. by apply Hso.
  - by rewrite lookup_insert_eq, He.
  - intros x Hne. by rewrite lookup_insert_ne.
  - rewrite bind_Ok. change (mret ?x) with (@Ok DbError utxoCache x). rewrite bind_Ok. apply IH; [done|done|].
    intros k. destruct (Hp k) as [? ?]. split; [by apply Hplace|done].
Qed.

(** The cache takes a transaction like the set of coins, and the journal gets
    the coins that it spends. *)
Lemma connectTransaction_spec f b db m s tx height st : holds b db -> repr (cachedEntries s) db m ->
  tx_spends tx m -> storable tx height -> creatable (cachedEntries s) tx ->
  exists s', connectTransaction f b tx height s st = Ok (s', (fun l => l ++ (recordOf <$> spentBy tx m)) <$> st) /\
    repr (cachedEntries s') db (applyTx height tx m).
Proof using P HL.
  intros Hb Hr Hsp [Hso Hsi] Hcr. pose proof Hsp as [Hok Hfresh Hnd _]. unfold connectTransaction, addTxIns, addTxOuts, applyTx.
  assert (Hlen : List.length (TxHash tx) = 32%nat) by apply sha256_len.
  assert (Hdb : forall k, db !! mkOutPoint (TxHash tx) k = None).
  { intros k. pose proof (Hfresh (mkOutPoint (TxHash tx) k) eq_refl) as Hm. rewrite (r_coins _ _ _ Hr) in Hm.
    destruct (Hcr k) as [_ [Hg|Hg]]; rewrite Hg in Hm; [by destruct (db !! _)|]. by destruct (r_inv _ _ _ Hr _ _ Hg). }
  destruct (IsCoinBaseTx tx) eqn:Hcb.
  - rewrite bind_Ok. destruct (addOuts_spec f db (TxHash tx) (TxOuts tx) true height Hlen Hok Hso 0 m s Hr) as (s' & -> & Hr').
    + intros k. split; [|done]. apply home_placeable; [apply (r_wf _ _ _ Hr)|apply (Hcr k)].
    + rewrite bind_Ok. exists s'. split; [|done]. unfold spentBy. rewrite Hcb. destruct st; cbn; [by rewrite app_nil_r|done].
  - pose proof (spentBy_live tx m Hsp Hcb) as Hl.
    assert (Hcoins : Forall2 (fun txIn c => m !! PreviousOutPoint txIn = Some c) (TxIns tx) (spentBy tx m))
      by (eapply list.Forall2_impl; [exact Hl|]; by intros ti c [? _]).
    destruct (addIns_spec f b db (TxIns tx) Hb (Hnd eq_refl) m s (spentBy tx m) st (Hsi eq_refl) Hr Hcoins) as (s1 & -> & Hr1 & Hf).
    rewrite bind_Ok. destruct (addOuts_spec f db (TxHash tx) (TxOuts tx) false height Hlen Hok Hso 0 _ s1 Hr1) as (s' & -> & Hr').
    + intros k. split; [|done]. apply home_placeable; [apply (r_wf _ _ _ Hr1)|]. apply Hf; [|apply (Hcr k)].
      intros Hin. apply list_elem_of_fmap in Hin as (txIn & Heq & Hin). apply list_elem_of_lookup in Hin as [i Hi].
      destruct (Forall2_lookup_l _ _ _ _ _ Hcoins Hi) as (c & _ & Hc). rewrite <- Heq, Hfresh in Hc; done.
    + rewrite bind_Ok. exists s'. done.
Qed.

(** *** Flushing *)

(** What the database keeps of an entry of the cache. *)
Definition written (inDb : option UtxoEntry) (e : option UtxoEntry) : option UtxoEntry :=
  match e with
  | Some e => if IsSpent e then None else if isModified e then Some e else inDb
  | None => None
  end.

Lemma writeEntries_spec l : NoDup l.*1 -> forall b db, holds b db ->
  Forall (fun p => op_ok p.1 /\ entry_inv (db !! p.1) p.2) l ->
  exists b' db', writeEntries l b = Ok b' /\ holds b' db' /\
    forall op, db' !! op = match (list_to_map l : entryMap) !! op with Some e => written (db !! op) e | None => db !! op end.
Proof using P.
  induction l as [|[op e] l IH]; intros Hnd b db Hb Hok; cbn [writeEntries].
  { exists b, db. split_and!; [done|done|]. intros op. done. }
  apply list.NoDup_cons in Hnd as [Hni Hnd]. apply list.Forall_cons in Hok as [[Hop He] Hok]. cbn [fst snd] in Hop, He.
  assert (Hone : exists b1 db1, (match e with
                   | None => dbDeleteUtxoEntry op b
                   | Some e => if IsSpent e then dbDeleteUtxoEntry op b else if negb (isModified e) then Ok b else dbPutUtxoEntry op (Some e) b
                   end) = Ok b1 /\ holds b1 db1 /\ db1 !! op = written (db !! op) e /\ forall x, x <> op -> db1 !! x = db !! x).
  { destruct e as [e|]; cbn [written].
    - destruct (IsSpent e) eqn:Hs; [destruct (delete_holds b db op Hb Hop) as (b1 & -> & Hb1); exists b1, (base.delete op db);
        split_and!; [done|done|apply lookup_delete_eq|by intros x Hne; apply lookup_delete_ne]|].
      destruct (isModified e); cbn [negb]; [|by exists b, db].
      destruct He as (_ & _ & Hok'). destruct (put_holds b db op e Hb Hop (Hok' Hs) Hs) as (b1 & -> & Hb1). exists b1, (<[op := e]> db).
      split_and!; [done|done|apply lookup_insert_eq|by intros x Hne; apply lookup_insert_ne].
    - destruct (delete_holds b db op Hb Hop) as (b1 & -> & Hb1); exists b1, (base.delete op db).
      split_and!; [done|done|apply lookup_delete_eq|by intros x Hne; apply lookup_delete_ne]. }
  destruct Hone as (b1 & db1 & Hrun & Hb1 & Hat & Hother). rewrite Hrun, bind_Ok.
  destruct (IH Hnd b1 db1 Hb1) as (b' & db' & -> & Hb' & Hdb').
  - rewrite list.Forall_forall in *. intros [x e'] Hin. destruct (Hok _ Hin) as [? ?]. split; [done|]. cbn [fst snd] in *.
    rewrite Hother; [done|]. intros ->. apply Hni. apply list_elem_of_fmap. by exists (op, e').
  - exists b', db'. split_and!; [done|done|]. intros x. rewrite Hdb'. cbn [list_to_map foldr]. destruct (decide (x = op)) as [->|Hne].
    + rewrite lookup_insert_eq. rewrite not_elem_of_list_to_map_1; [done|exact Hni].
    + rewrite lookup_insert_ne, Hother by done. done.
Qed.

Lemma entries_cons (m : entryMap) ms : mjoin (map_to_list <$> m :: ms) = map_to_list m ++ mjoin (map_to_list <$> ms).
Proof using. done. Qed.

Lemma getIn_entries (ms : list entryMap) op : (list_to_map (mjoin (map_to_list <$> ms)) : entryMap) !! op = getIn ms op.
Proof using.
  induction ms as [|m ms IH]; [done|]. rewrite entries_cons. cbn [getIn]. rewrite list_to_map_app, list_to_map_to_list, lookup_union, IH.
  by destruct (m !! op), (getIn ms op).
Qed.

Lemma entries_in (ms : list entryMap) p : dupfree ms -> p ∈ mjoin (map_to_list <$> ms) -> getIn ms p.1 = Some p.2.
Proof using.
  induction ms as [|m ms IH]; intros Hd Hin; [by apply elem_of_nil in Hin|]. rewrite entries_cons in Hin. cbn [getIn dupfree] in *.
  destruct Hd as [Hd0 Hd]. apply elem_of_app in Hin as [Hin|Hin].
  - destruct p as [op e]. apply elem_of_map_to_list in Hin. cbn. by rewrite Hin.
  - specialize (IH Hd Hin). destruct (m !! p.1) as [e|] eqn:He; [|done]. rewrite (Hd0 p.1) in IH by (rewrite He; by eexists). done.
Qed.

Lemma entries_nodup (ms : list entryMap) : dupfree ms -> NoDup (mjoin (map_to_list <$> ms)).*1.
Proof using.
  induction ms as [|m ms IH]; intros Hd; [apply NoDup_nil_2|]. rewrite entries_cons. cbn [dupfree] in Hd.
  destruct Hd as [Hd0 Hd]. rewrite fmap_app. apply list.NoDup_app. split; [apply NoDup_fst_map_to_list|]. split; [|by apply IH].
  intros op Hin Hin'. apply list_elem_of_fmap in Hin as ([op1 e1] & -> & Hin). apply elem_of_map_to_list in Hin.
  apply list_elem_of_fmap in Hin' as (p & Heq & Hin'). apply entries_in in Hin'; [|done]. cbn in Heq. rewrite <- Heq in Hin'.
  rewrite Hd0 in Hin' by (rewrite Hin; by eexists). done.
Qed.

(** After a flush the bucket alone holds the set. *)
Lemma writeCache_spec hash now s d m : represents s (utxoSet d) m ->
  exists s' d' db', writeCache hash now s d = Ok (s', d') /\ holds (utxoSet d') db' /\ consistency d' = Some hash /\
    lastFlushHash s' = hash /\ repr (cachedEntries s') db' m /\ coinOf <$> db' = m.
Proof using P.
  intros (db & Hb & [[Hl Hn Hd] Hinv Hc]). unfold writeCache.
  destruct (writeEntries_spec (mjoin (map_to_list <$> maps (cachedEntries s))) (entries_nodup _ Hd) (utxoSet d) db Hb) as (b' & db' & -> & Hb' & Hdb').
  { apply list.Forall_forall. intros p Hp. apply Hinv. by apply entries_in. }
  rewrite bind_Ok. assert (Hcoins : forall op, coinOf <$> db' !! op = m !! op).
  { intros op. rewrite Hdb', getIn_entries, Hc. unfold get. destruct (getIn (maps (cachedEntries s)) op) as [e|] eqn:Hg; [|done].
    destruct (Hinv op e Hg) as [_ He]. destruct e as [e|]; [|done]. cbn in *. destruct He as (_ & Hm & _).
    destruct (IsSpent e) eqn:Hs; [done|]. destruct (isModified e) eqn:Hmod; [done|]. by destruct (Hm eq_refl) as [_ ->]. }
  unfold deleteMaps. cbn [maps maxEntries]. destruct (maps (cachedEntries s)) as [|m0 ms] eqn:Hms; [done|].
  destruct (maxEntries (cachedEntries s)) as [|n maxs] eqn:Hmax; [done|].
  assert (Hfirst : forall (x : entryMap) l, slice (E:=DbError) (x :: l) 0 1 = Ok [x]) by (intros x l; by apply (slice_prefix [x])).
  rewrite index_cons_0, bind_Ok. cbn [fmap list_fmap]. rewrite Hfirst, bind_Ok. unfold mret at 2, outcome_ret at 1. rewrite bind_Ok.
  eexists _, _, db'. split; [done|]. split_and!; [done|done|done| |].
  - split; cbn [cachedEntries]; [split; cbn; [done|done|by split]|done|]. intros op. by rewrite Hcoins.
  - apply map_eq. intros op. by rewrite lookup_fmap.
Qed.

Lemma flush_spec mode hash now s d m : represents s (utxoSet d) m ->
  exists s' d', flush mode hash now s d = Ok (s', d') /\ represents s' (utxoSet d') m /\
    (mode = FlushRequired -> consistency d' = Some hash /\ exists db', holds (utxoSet d') db' /\ coinOf <$> db' = m).
Proof using P.
  intros Hr. destruct (size_total (cachedEntries s)) as [n Hn].
  assert (Htotal : totalMemoryUsage s = Ok (u64 (u64 n + totalEntryMemory s))) by (unfold totalMemoryUsage; by rewrite Hn).
  destruct (writeCache_spec hash now s d m Hr) as (s' & d' & db' & Hw & Hb' & Hcons & _ & Hr' & Hm').
  assert (Hsome : forall limit, exists s' d', (if limit <=? u64 (u64 n + totalEntryMemory s) then writeCache hash now s d else Ok (s, d)) = Ok (s', d')
    /\ represents s' (utxoSet d') m).
  { intros limit. destruct (limit <=? _); [exists s', d'; split; [done|by exists db']|by exists s, d]. }
  unfold flush. rewrite Htotal. cbn zeta. destruct mode.
  - rewrite bind_Ok, (proj2 (Z.leb_le _ _)) by apply u64_range. exists s', d'. split; [done|]. split; [by exists db'|]. intros _. split; [done|by exists db'].
  - destruct (_ <? _); rewrite bind_Ok.
    + destruct (Hsome 0) as (s1 & d1 & -> & Hr1). by exists s1, d1.
    + destruct (Hsome (c_maxTotalMemoryUsage s)) as (s1 & d1 & -> & Hr1). by exists s1, d1.
  - case_bool_decide; [by exists s, d|]. rewrite bind_Ok. destruct (Hsome (c_maxTotalMemoryUsage s)) as (s1 & d1 & -> & Hr1). by exists s1, d1.
Qed.

End Spec.

(** ** Sequences of operations *)
Inductive operation :=
| Fetch (outpoints : list OutPoint)
| Connect (tx : MsgTx) (blockHeight : Z)
| Flush (mode : FlushMode) (bestHash : list Z) (now : Z).

Section Run.
Variable f : Z -> Z.
Context `{L : PubKeyLib} {P : PubKeyLaws L} {H : Hashes} {HL : HashLaws H}.

Definition exec (o : operation) (sd : utxoCache * utxoDb) : outcome DbError (utxoCache * utxoDb) :=
  let '(s, d) := sd in
  match o with
  | Fetch ops => '(_, s) ← fetchEntries f (utxoSet d) ops s; mret (s, d)
  | Connect tx height => '(s, _) ← connectTransaction f (utxoSet d) tx height s None; mret (s, d)
  | Flush mode hash now => flush mode hash now s d
  end.

Fixpoint execs (os : list operation) (sd : utxoCache * utxoDb) : outcome DbError (utxoCache * utxoDb) :=
  match os with [] => Ok sd | o :: os => sd ← exec o sd; execs os sd end.

(** The effect on the set of coins. *)
Definition after (o : operation) (m : gmap OutPoint coin) : gmap OutPoint coin :=
  match o with Connect tx height => applyTx height tx m | _ => m end.

Definition allowed (o : operation) (s : utxoCache) (m : gmap OutPoint coin) : Prop :=
  match o with
  | Fetch ops => Forall op_ok ops
  | Connect tx height => tx_spends tx m /\ storable tx height /\ creatable (cachedEntries s) tx
  | Flush _ _ _ => True
  end.

Fixpoint all_allowed (os : list operation) (sd : utxoCache * utxoDb) (m : gmap OutPoint coin) : Prop :=
  match os with
  | [] => True
  | o :: os => allowed o sd.1 m /\ forall sd', exec o sd = Ok sd' -> all_allowed os sd' (after o m)
  end.

Lemma exec_spec o s d m : represents s (utxoSet d) m -> allowed o s m ->
  exists s' d', exec o (s, d) = Ok (s', d') /\ represents s' (utxoSet d') (after o m).
Proof using P HL.
  intros (db & Hb & Hr) Ha. destruct o as [ops|tx height|mode hash now]; cbn [exec after allowed] in *.
  - destruct (fetchEntries_spec f _ db m ops s Hb Ha Hr) as (es & s' & -> & Hr' & _). rewrite bind_Ok. exists s', d. split; [done|by exists db].
  - destruct Ha as (Hsp & Hsto & Hcr). destruct (connectTransaction_spec f _ db m s tx height None Hb Hr Hsp Hsto Hcr) as (s' & -> & Hr').
    rewrite bind_Ok. exists s', d. split; [done|by exists db].
  - destruct (flush_spec mode hash now s d m) as (s' & d' & -> & Hr' & _); [by exists db|]. by exists s', d'.
Qed.

(** C2. The cache is transparent: started on a bucket and taken through any
    sequence of fetches, transactions and flushes in which each transaction
    spends coins of the set, can be stored, and has outputs of which neither
    the set nor the cache holds anything, beyond a miss in the cache's first
    map (otherwise coins can be lost or come back: [stale_miss_loses_coin],
    [recreated_output_comes_back]), it never fails; it then answers every
    fetch with the coins of the set that the transactions applied one after
    the other give, and a flush that is required leaves exactly this set in
    the bucket, marked with the block it belongs to. *)
Theorem cache_refines os limit d db ops hash now
    (Hb : holds (utxoSet d) db) (Hok : all_allowed os (newUtxoCache f limit, d) (coinOf <$> db)) (Hops : Forall op_ok ops) :
  let m := foldl (fun m o => after o m) (coinOf <$> db) os in
  exists s' d', execs os (newUtxoCache f limit, d) = Ok (s', d') /\
    (exists es s'', fetchEntries f (utxoSet d') ops s' = Ok (es, s'') /\ live <$> es = (fun op => m !! op) <$> ops) /\
    (exists s'' d'' db'', flush FlushRequired hash now s' d' = Ok (s'', d'') /\ holds (utxoSet d'') db'' /\
       coinOf <$> db'' = m /\ consistency d'' = Some hash).
Proof using P HL.
  assert (Hr : represents (newUtxoCache f limit) (utxoSet d) (coinOf <$> db)).
  { exists db. split; [done|]. split; [split; [done|done|by split]|done|]. intros op. by rewrite lookup_fmap. }
  revert Hok Hr. generalize (newUtxoCache f limit) as s. generalize (coinOf <$> db) as m. clear Hb db. revert d.
  induction os as [|o os IH]; intros d m s Hok Hr; cbn [foldl execs all_allowed] in *.
  - exists s, d. split; [done|]. split.
    + destruct Hr as (db & Hb & Hr). destruct (fetchEntries_spec f _ db m ops s Hb Hops Hr) as (es & s' & -> & Hr' & -> & Hin & _).
      eexists _, s'. split; [done|]. rewrite <- list_fmap_compose. apply list_fmap_ext. intros i op Hi. cbn.
      rewrite (r_coins _ _ _ Hr' op). apply list_elem_of_lookup_2 in Hi. specialize (Hin op Hi). by destruct (get (cachedEntries s') op).
    + destruct (flush_spec FlushRequired hash now s d m Hr) as (s' & d' & -> & _ & Hd). destruct (Hd eq_refl) as [Hc (db & Hb & Hm)].
      by exists s', d', db.
  - destruct Hok as [Ha Hok]. destruct (exec_spec o s d m Hr Ha) as (s1 & d1 & Hrun & Hr1). rewrite Hrun, bind_Ok. apply IH; [by apply Hok|done].
Qed.

End Run.

(** ** Concrete instances *)
Module Toy.
Import Compress.Toy SigHash.Toy Utxo.Toy.
#[local] Existing Instances toy_hashes toy_laws.

(** A cache whose first map takes eight entries. *)
Definition limit := 1000.
Definition log2 (n : Z) : Z := 0.
Definition fresh : utxoCache := newUtxoCache log2 limit.
Definition nowhere : utxoDb := mkDb ∅ None.

(** A coinbase with eight outputs fills it; a payment spends one of them. *)
Definition full : MsgTx := mkMsgTx 1 [mkTxIn (mkOutPoint zeroHash MaxUint32) [3] [] 0] (replicate 8 (mkTxOut 50 [0x51])) 0.
Definition out (tx : MsgTx) : OutPoint := mkOutPoint (TxHash tx) 0.
Definition spend : MsgTx := mkMsgTx 1 [mkTxIn (out full) [] [] 0] [mkTxOut 40 [0x52]] 0.

Definition lookups (r : outcome DbError (utxoCache * utxoDb)) (op : OutPoint) : outcome DbError (list (option coin)) :=
  '(s, d) ← r; '(es, _) ← fetchEntries log2 (utxoSet d) [op] s; Ok (List.map live es).

(** The new output of the payment was asked for before, for example by
    FetchUtxoView on the unconfirmed payment, and its miss had to go to a
    second map.  Spending the fresh coin makes room in the first map, so put
    leaves the miss in the second: after the flush the coin is lost. *)
Example stale_miss_loses_coin :
  lookups (execs log2 [Connect full 9; Fetch [out spend]; Connect spend 10] (fresh, nowhere)) (out spend)
    = Ok [Some (mkCoin 40 [0x52] 10 false)] /\
  lookups (execs log2 [Connect full 9; Fetch [out spend]; Connect spend 10; Flush FlushRequired [] 0] (fresh, nowhere)) (out spend)
    = Ok [None].
Proof. split; by vm_compute. Qed.

(** Without the early fetch the coin survives. *)
Example no_early_fetch_keeps_coin :
  lookups (execs log2 [Connect full 9; Connect spend 10; Flush FlushRequired [] 0] (fresh, nowhere)) (out spend)
    = Ok [Some (mkCoin 40 [0x52] 10 false)].
Proof. by vm_compute. Qed.

(** An output that is created again while its spent entry waits for the flush
    is marked as unknown to the database: spending it drops the entry, and
    the one in the database is a coin again. *)
Definition single : MsgTx := mkMsgTx 1 [mkTxIn (mkOutPoint zeroHash MaxUint32) [4] [] 0] [mkTxOut 50 [0x51]] 0.
Definition spendSingle : MsgTx := mkMsgTx 1 [mkTxIn (out single) [] [] 0] [mkTxOut 45 [0x52]] 0.
Example recreated_output_comes_back :
  lookups (execs log2 [Connect single 9; Flush FlushRequired [] 0; Connect spendSingle 10; Connect single 11] (fresh, nowhere)) (out single)
    = Ok [Some (mkCoin 50 [0x51] 11 true)] /\
  lookups (execs log2 [Connect single 9; Flush FlushRequired [] 0; Connect spendSingle 10; Connect single 11; Connect spendSingle 12]
             (fresh, nowhere)) (out single) = Ok [Some (mkCoin 50 [0x51] 9 true)].
Proof. split; by vm_compute. Qed.

Lemma old_stored : entry_ok (mkEntry 700 [0x51] 5 tfCoinBase).
Proof. split; [split; by vm_compute|by vm_compute|split; by vm_compute]. Qed.

Lemma cache_refines_witness : exists b s' d',
  dbPutUtxoEntry old (Some (mkEntry 700 [0x51] 5 tfCoinBase)) ∅ = Ok b /\
  execs log2 [Connect pay 9; Flush FlushRequired [7] 3] (fresh, mkDb b None) = Ok (s', d').
Proof.
  assert (Hop : op_ok old) by (split; [reflexivity|split; by vm_compute]).
  destruct (put_holds ∅ ∅ old (mkEntry 700 [0x51] 5 tfCoinBase)) as (b & Hput & Hb);
    [split; [intros op _; reflexivity|apply map_Forall_empty]|exact Hop|apply old_stored|reflexivity|].
  destruct (cache_refines log2 [Connect pay 9; Flush FlushRequired [7] 3] limit (mkDb b None) _ [old] [7] 3 Hb) as (s' & d' & Hrun & _).
  - split; [|intros sd' _; split; [exact I|intros sd'' _; exact I]]. split; [|split].
    + split.
      * apply (bool_decide_unpack _); vm_compute; exact I.
      * apply no_hash_none. apply (bool_decide_unpack _). vm_compute. exact I.
      * intros _. apply NoDup_singleton.
      * intros _. apply Forall_cons_2; [|apply Forall_nil_2]. exists (mkCoin 700 [0x51] 5 true). split; by vm_compute.
    + split.
      * apply Forall_cons_2; [intros _; split; [split; by vm_compute|by vm_compute|split; by vm_compute]|].
        apply Forall_cons_2; [intros Hu; by vm_compute in Hu|apply Forall_nil_2].
      * intros _. apply Forall_cons_2; [exact Hop|apply Forall_nil_2].
    + intros i. split; [reflexivity|left; reflexivity].
  - apply Forall_cons_2; [exact Hop|apply Forall_nil_2].
  - exists b, s', d'. split; [exact Hput|exact Hrun].
Defined.

End Toy.
End UtxoCache.
