(* ===== verification/TxRules.v ===== *)
(** * Rules of transactions

    Models the checks of coin/OrcaNet/blockchain/validate.go and weight.go
    that look at one transaction: amounts and duplicate inputs, finality,
    the subsidy, the height in the coinbase, the fee and maturity of the
    inputs against a view, signature operation counts and weights, with the
    counting functions of coin/OrcaNet/txscript/script.go they call.

    The theorems say exactly which transactions pass, with the sums as
    integers although the code adds in 64 bits, and that the subsidies of all
    blocks together stay within the 21 million coins. *)

From S2P Require Import Prelude ScriptNum Wire Tokenizer Builder SigHash Opcodes Engine Merkle Difficulty Utxo.

Module TxRules.
Import ScriptNum Wire Tokenizer Builder SigHash Opcodes Engine Merkle Difficulty Utxo.

(** ** Constants *)
Definition SatoshiPerBitcoin := 100000000.
Definition MaxSatoshi := 21000000 * SatoshiPerBitcoin.
Definition MaxBlockWeight := 4000000.
Definition MaxBlockBaseSize := 1000000.
Definition MaxBlockSigOpsCost := 80000.
Definition WitnessScaleFactor := 4.
Definition MinCoinbaseScriptLen := 2.
Definition MaxCoinbaseScriptLen := 100.
Definition serializedHeightVersion := 2.
Definition baseSubsidy := 50 * SatoshiPerBitcoin.

Definition isNullOutpoint (outpoint : OutPoint) : bool :=
  (Wire.Index outpoint =? MaxUint32) && bool_decide (Wire.Hash outpoint = zeroHash).

Definition ShouldHaveSerializedBlockHeight (header : BlockHeader) : bool :=
  serializedHeightVersion <=? bh_Version header.

(** ** Finality *)
Record SequenceLock := mkSequenceLock {
  Seconds : Z;
  BlockHeight : Z;
}.

Definition SequenceLockActive (sequenceLock : SequenceLock) (blockHeight medianTimePast : Z) : bool :=
  if (medianTimePast <=? Seconds sequenceLock) || (blockHeight <=? BlockHeight sequenceLock) then false else true.

Definition IsFinalizedTransaction (msgTx : MsgTx) (blockHeight blockTime : Z) : bool :=
  let lockTime := LockTime msgTx in
  if lockTime =? 0 then true
  else
    let blockTimeOrHeight := if lockTime <? LockTimeThreshold then blockHeight else blockTime in
    if lockTime <? blockTimeOrHeight then true
    else forallb (fun txIn => Sequence txIn =? MaxUint32) (TxIns msgTx).

(** ** The subsidy *)
Definition CalcBlockSubsidy (height : Z) (chainParams : Params) : Z :=
  if SubsidyReductionInterval chainParams =? 0 then baseSubsidy
  else
    let n := u64 (i32 (Z.quot height (SubsidyReductionInterval chainParams))) in
    if 64 <=? n then 0 else Z.shiftr baseSubsidy n.

(** ** Sanity of a transaction *)
Fixpoint sumOutputs (outs : list TxOut) (totalSatoshi : Z) : outcome RuleError Z :=
  match outs with
  | [] => Ok totalSatoshi
  | txOut :: outs =>
      let satoshi := Value txOut in
      if satoshi <? 0 then Err ErrBadTxOutValue
      else if MaxSatoshi <? satoshi then Err ErrBadTxOutValue
      else
        let totalSatoshi := i64 (totalSatoshi + satoshi) in
        if totalSatoshi <? 0 then Err ErrBadTxOutValue
        else if MaxSatoshi <? totalSatoshi then Err ErrBadTxOutValue
        else sumOutputs outs totalSatoshi
  end.

Fixpoint duplicateInputs (ins : list TxIn) (existingTxOut : gset OutPoint) : outcome RuleError unit :=
  match ins with
  | [] => Ok ()
  | txIn :: ins =>
      if bool_decide (PreviousOutPoint txIn ∈ existingTxOut) then Err ErrDuplicateTxInputs
      else duplicateInputs ins ({[PreviousOutPoint txIn]} ∪ existingTxOut)
  end.

Definition CheckTransactionSanity (msgTx : MsgTx) : outcome RuleError unit :=
  if Zlen (TxIns msgTx) =? 0 then Err ErrNoTxInputs
  else if Zlen (TxOuts msgTx) =? 0 then Err ErrNoTxOutputs
  else if MaxBlockBaseSize <? SerializeSizeStripped msgTx then Err ErrTxTooBig
  else
    _ ← sumOutputs (TxOuts msgTx) 0;
    _ ← duplicateInputs (TxIns msgTx) ∅;
    if IsCoinBaseTx msgTx then
      txIn ← index (TxIns msgTx) 0;
      let slen := Zlen (SignatureScript txIn) in
      if (slen <? MinCoinbaseScriptLen) || (MaxCoinbaseScriptLen <? slen) then Err ErrBadCoinbaseScriptLen else Ok ()
    else if existsb (fun txIn => isNullOutpoint (PreviousOutPoint txIn)) (TxIns msgTx) then Err ErrBadTxInput
    else Ok ().

(** ** Signature operations *)
Fixpoint sumM {A} (f : A -> outcome RuleError Z) (l : list A) (total : Z) : outcome RuleError Z :=
  match l with
  | [] => Ok total
  | x :: l => n ← f x; sumM f l (total + n)
  end.

Definition CountSigOps (msgTx : MsgTx) : outcome RuleError Z :=
  totalSigOps ← sumM (fun txIn => noErr (GetSigOpCount (SignatureScript txIn))) (TxIns msgTx) 0;
  sumM (fun txOut => noErr (GetSigOpCount (PkScript txOut))) (TxOuts msgTx) totalSigOps.

Definition GetPreciseSigOpCount (scriptSig scriptPubKey : list Z) : outcome ErrorCode Z :=
  if negb (isScriptHashScript scriptPubKey) then countSigOpsV0 scriptPubKey true
  else
    if Zlen scriptSig =? 0 then Ok 0
    else
      pushOnly ← IsPushOnlyScript scriptSig;
      if negb pushOnly then Ok 0
      else
        redeemScript ← finalOpcodeData 0 scriptSig;
        if Zlen redeemScript =? 0 then Ok 0 else countSigOpsV0 redeemScript true.

Definition getWitnessSigOps (pkScript : list Z) (witness : list (list Z)) : outcome ErrorCode Z :=
  r ← extractWitnessProgramInfo pkScript;
  match r with
  | None => Ok 0
  | Some (witnessVersion, witnessProgram) =>
      if witnessVersion =? BaseSegwitWitnessVersion then
        if Zlen witnessProgram =? payToWitnessPubKeyHashDataSize then Ok 1
        else if (Zlen witnessProgram =? payToWitnessScriptHashDataSize) && (0 <? Zlen witness) then
          witnessScript ← index witness (Zlen witness - 1); countSigOpsV0 witnessScript true
        else Ok 0
      else Ok 0
  end.

Definition GetWitnessSigOpCount (sigScript pkScript : list Z) (witness : list (list Z)) : outcome ErrorCode Z :=
  program ← IsWitnessProgram pkScript;
  if program : bool then getWitnessSigOps pkScript witness
  else if isScriptHashScript pkScript then
    pushOnly ← IsPushOnlyScript sigScript;
    if pushOnly && (0 <? Zlen sigScript) then
      rest ← slice sigScript 1 (Zlen sigScript);
      nested ← IsWitnessProgram rest;
      if nested : bool then getWitnessSigOps rest witness else Ok 0
    else Ok 0
  else Ok 0.

Fixpoint countP2SH (ins : list TxIn) (utxoView : UtxoViewpoint) (totalSigOps : Z) : outcome RuleError Z :=
  match ins with
  | [] => Ok totalSigOps
  | txIn :: ins =>
      match LookupEntry utxoView (PreviousOutPoint txIn) with
      | None => Err ErrMissingTxOut
      | Some utxo =>
          if IsSpent utxo then Err ErrMissingTxOut
          else if negb (isScriptHashScript (pkScript utxo)) then countP2SH ins utxoView totalSigOps
          else
            numSigOps ← noErr (GetPreciseSigOpCount (SignatureScript txIn) (pkScript utxo));
            let lastSigOps := totalSigOps in
            let totalSigOps := i64 (totalSigOps + numSigOps) in
            if totalSigOps <? lastSigOps then Err ErrTooManySigOps else countP2SH ins utxoView totalSigOps
      end
  end.

Definition CountP2SHSigOps (msgTx : MsgTx) (isCoinBaseTx : bool) (utxoView : UtxoViewpoint) : outcome RuleError Z :=
  if isCoinBaseTx then Ok 0 else countP2SH (TxIns msgTx) utxoView 0.

Fixpoint countWitness (ins : list TxIn) (utxoView : UtxoViewpoint) (numSigOps : Z) : outcome RuleError Z :=
  match ins with
  | [] => Ok numSigOps
  | txIn :: ins =>
      match LookupEntry utxoView (PreviousOutPoint txIn) with
      | None => Err ErrMissingTxOut
      | Some utxo =>
          if IsSpent utxo then Err ErrMissingTxOut
          else
            n ← noErr (GetWitnessSigOpCount (SignatureScript txIn) (pkScript utxo) (Witness txIn));
            countWitness ins utxoView (numSigOps + n)
      end
  end.

(** An error of CountP2SHSigOps becomes a count of 0 without an error. *)
Definition GetSigOpCost (tx : MsgTx) (isCoinBaseTx : bool) (utxoView : UtxoViewpoint) (bip16 segWit : bool)
    : outcome RuleError Z :=
  n ← CountSigOps tx;
  let numSigOps := n * WitnessScaleFactor in
  let rest numSigOps :=
    if segWit && negb isCoinBaseTx then countWitness (TxIns tx) utxoView numSigOps else Ok numSigOps in
  if bip16 then
    match CountP2SHSigOps tx isCoinBaseTx utxoView with
    | Ok numP2SHSigOps => rest (numSigOps + numP2SHSigOps * WitnessScaleFactor)
    | Err _ => Ok 0
    | Panic => Panic
    | Hang => Hang
    end
  else rest numSigOps.

Definition GetBlockWeight (msgBlock : MsgBlock) : Z :=
  MsgBlock_SerializeSizeStripped msgBlock * (WitnessScaleFactor - 1) + MsgBlock_SerializeSize msgBlock.
Definition GetTransactionWeight (msgTx : MsgTx) : Z :=
  SerializeSizeStripped msgTx * (WitnessScaleFactor - 1) + SerializeSize msgTx.

(** ** The height in the coinbase *)
Definition compareScript (height : Z) (script : list Z) : outcome RuleError unit :=
  b ← noErr (AddInt64 height NewScriptBuilder);
  scriptHeight ← match Script b with Ok s => Ok s | Err _ => Err AssertError | Panic => Panic | Hang => Hang end;
  if negb (hasPrefix scriptHeight script) then Err ErrBadCoinbaseHeight else Ok ().

Definition ExtractCoinbaseHeight (coinbaseTx : MsgTx) : outcome RuleError Z :=
  txIn ← index (TxIns coinbaseTx) 0;
  let sigScript := SignatureScript txIn in
  if Zlen sigScript <? 1 then Err ErrMissingCoinbaseHeight
  else
    opcode ← index sigScript 0;
    if opcode =? OP_0 then Ok 0
    else if (OP_1 <=? opcode) && (opcode <=? OP_16) then Ok (opcode - (OP_1 - 1))
    else
      let serializedLen := opcode in
      rest ← slice sigScript 1 (Zlen sigScript);
      if Zlen rest <? serializedLen then Err ErrMissingCoinbaseHeight
      else
        bytes ← slice sigScript 1 (serializedLen + 1);
        let serializedHeight := i32 (le_val (take 4 (bytes ++ replicate 4 0))) in
        _ ← compareScript serializedHeight sigScript;
        mret serializedHeight.

Definition CheckSerializedHeight (coinbaseTx : MsgTx) (wantHeight : Z) : outcome RuleError unit :=
  serializedHeight ← ExtractCoinbaseHeight coinbaseTx;
  if negb (serializedHeight =? wantHeight) then Err ErrBadCoinbaseHeight else Ok ().

(** ** The inputs of a transaction against a view *)
Fixpoint sumInputs (ins : list TxIn) (txHeight : Z) (utxoView : UtxoViewpoint) (chainParams : Params) (totalSatoshiIn : Z)
    : outcome RuleError Z :=
  match ins with
  | [] => Ok totalSatoshiIn
  | txIn :: ins =>
      match LookupEntry utxoView (PreviousOutPoint txIn) with
      | None => Err ErrMissingTxOut
      | Some utxo =>
          if IsSpent utxo then Err ErrMissingTxOut
          else if IsCoinBase utxo && (i32 (txHeight - blockHeight utxo) <? i32 (CoinbaseMaturity chainParams)) then Err ErrImmatureSpend
          else
            let originTxSatoshi := amount utxo in
            if originTxSatoshi <? 0 then Err ErrBadTxOutValue
            else if MaxSatoshi <? originTxSatoshi then Err ErrBadTxOutValue
            else
              let lastSatoshiIn := totalSatoshiIn in
              let totalSatoshiIn := i64 (totalSatoshiIn + originTxSatoshi) in
              if (totalSatoshiIn <? lastSatoshiIn) || (MaxSatoshi <? totalSatoshiIn) then Err ErrBadTxOutValue
              else sumInputs ins txHeight utxoView chainParams totalSatoshiIn
      end
  end.

(** The sum that is not checked again for its range. *)
Definition totalOut (outs : list TxOut) : Z := foldl (fun total txOut => i64 (total + Value txOut)) 0 outs.

Definition CheckTransactionInputs (tx : MsgTx) (txHeight : Z) (utxoView : UtxoViewpoint) (chainParams : Params)
    : outcome RuleError Z :=
  if IsCoinBaseTx tx then Ok 0
  else
    totalSatoshiIn ← sumInputs (TxIns tx) txHeight utxoView chainParams 0;
    let totalSatoshiOut := totalOut (TxOuts tx) in
    if totalSatoshiIn <? totalSatoshiOut then Err ErrSpendTooHigh
    else mret (i64 (totalSatoshiIn - totalSatoshiOut)).

(** ** Sums of amounts *)
Definition outSum (outs : list TxOut) : Z := sum (Value <$> outs).
Definition coinSum (cs : list coin) : Z := sum (c_amount <$> cs).

Lemma MaxSatoshi_value : MaxSatoshi = 2100000000000000.
Proof. done. Qed.

Ltac money := rewrite ?MaxSatoshi_value in *; lia.

Lemma sumOutputs_iff outs t : forall total, 0 <= total <= MaxSatoshi -> Forall (fun o => - 2 ^ 63 <= Value o < 2 ^ 63) outs ->
  sumOutputs outs total = Ok t <->
  Forall (fun o => 0 <= Value o) outs /\ total + outSum outs <= MaxSatoshi /\ t = total + outSum outs.
Proof.
  induction outs as [|o outs IH]; intros total Ht Hr; cbn [sumOutputs].
  - unfold outSum. cbn. split; [intros [= <-]|intros (_ & _ & ->); f_equal; lia]. split_and!; [constructor|lia|lia].
  - apply list.Forall_cons in Hr as [Ho Hr]. unfold outSum. rewrite fmap_cons, sum_cons. fold (outSum outs).
    rewrite list.Forall_cons.
    assert (Hnn : Forall (fun o => 0 <= Value o) outs -> 0 <= outSum outs).
    { intros Hf. clear -Hf. induction Hf as [|x l Hx _ IHf]; [done|]. unfold outSum in *. rewrite fmap_cons, sum_cons. lia. }
    destruct (Z.ltb_spec (Value o) 0); [split; [done|lia]|].
    destruct (Z.ltb_spec MaxSatoshi (Value o)).
    { split; [done|]. intros ((_ & Hf) & Hle & _). specialize (Hnn Hf). money. }
    rewrite i64_small by money. rewrite (proj2 (Z.ltb_ge _ 0)) by lia.
    destruct (Z.ltb_spec MaxSatoshi (total + Value o)).
    { split; [done|]. intros ((_ & Hf) & Hle & _). specialize (Hnn Hf). money. }
    rewrite IH by (done || lia). rewrite <- Z.add_assoc. tauto.
Qed.

Lemma totalOut_sum outs : Forall (fun o => 0 <= Value o) outs -> outSum outs <= MaxSatoshi -> totalOut outs = outSum outs.
Proof.
  unfold totalOut. intros Hf. assert (Hgen : forall total, 0 <= total -> total + outSum outs <= MaxSatoshi ->
    foldl (fun total txOut => i64 (total + Value txOut)) total outs = total + outSum outs); [|intros Hm; rewrite Hgen by lia; lia].
  induction Hf as [|o outs Ho Hf IH]; intros total Ht Hm; cbn [foldl]; unfold outSum in *; cbn [fmap list_fmap] in *; [cbn; lia|].
  rewrite sum_cons in *. assert (0 <= sum (Value <$> outs)).
  { clear -Hf. induction Hf as [|x l Hx _ IHf]; [done|]. rewrite fmap_cons, sum_cons. lia. }
  rewrite i64_small by money. rewrite IH by lia. lia.
Qed.

Lemma duplicateInputs_iff ins : forall seen,
  duplicateInputs ins seen = Ok () <-> NoDup (PreviousOutPoint <$> ins) /\ forall op, op ∈ PreviousOutPoint <$> ins -> op ∉ seen.
Proof.
  induction ins as [|ti ins IH]; intros seen; cbn [duplicateInputs].
  - split; [|done]. intros _. split; [constructor|]. by intros op ?%elem_of_nil.
  - rewrite fmap_cons, list.NoDup_cons. case_bool_decide as Hin.
    + split; [done|]. intros [_ Hs]. exfalso. apply (Hs (PreviousOutPoint ti)); [by left|done].
    + rewrite IH. split.
      * intros [Hnd Hs]. split_and!; [|done|].
        -- intros Hc. apply (Hs _ Hc), elem_of_union_l, elem_of_singleton. done.
        -- intros op Hop. apply list.elem_of_cons in Hop as [->|Hop]; [done|]. intros Hc. apply (Hs op Hop), elem_of_union_r. done.
      * intros [[Hni Hnd] Hs]. split; [done|]. intros op Hop Hc. apply elem_of_union in Hc as [Hc|Hc].
        -- apply elem_of_singleton in Hc as ->. done.
        -- apply (Hs op); [by right|done].
Qed.

(** ** Sanity *)
Record sane (tx : MsgTx) : Prop := {
  sane_ins : TxIns tx <> [];
  sane_outs : TxOuts tx <> [];
  sane_size : SerializeSizeStripped tx <= MaxBlockBaseSize;
  sane_values : Forall (fun o => 0 <= Value o) (TxOuts tx);
  sane_total : outSum (TxOuts tx) <= MaxSatoshi;
  sane_distinct : NoDup (PreviousOutPoint <$> TxIns tx);
  sane_coinbase : IsCoinBaseTx tx = true ->
    forall ti, head (TxIns tx) = Some ti -> MinCoinbaseScriptLen <= Zlen (SignatureScript ti) <= MaxCoinbaseScriptLen;
  sane_null : IsCoinBaseTx tx = false -> Forall (fun ti => PreviousOutPoint ti <> mkOutPoint zeroHash MaxUint32) (TxIns tx);
}.

Lemma isNullOutpoint_iff op : isNullOutpoint op = true <-> op = mkOutPoint zeroHash MaxUint32.
Proof.
  unfold isNullOutpoint. rewrite andb_true_iff, Z.eqb_eq, bool_decide_eq_true. destruct op; cbn. naive_solver.
Qed.

Lemma Zlen_zero {A} (l : list A) : (Zlen l =? 0) = true <-> l = [].
Proof. destruct l; [done|]. rewrite Zlen_cons. pose proof (Zlen_nonneg l). split; [lia|done]. Qed.

(** CheckTransactionSanity accepts exactly the sane transactions: the sum of
    the outputs is the integer sum although it is computed in 64 bits, and
    no duplicate input is overlooked. *)
Lemma CheckTransactionSanity_iff tx (Hr : Forall (fun o => - 2 ^ 63 <= Value o < 2 ^ 63) (TxOuts tx)) :
  CheckTransactionSanity tx = Ok () <-> sane tx.
Proof.
  unfold CheckTransactionSanity. destruct (Zlen (TxIns tx) =? 0) eqn:Hi.
  { apply Zlen_zero in Hi. split; [done|]. intros [? _ _ _ _ _ _ _]. done. }
  destruct (Zlen (TxOuts tx) =? 0) eqn:Ho.
  { apply Zlen_zero in Ho. split; [done|]. intros [_ ? _ _ _ _ _ _]. done. }
  assert (Hi' : TxIns tx <> []) by (intros Hc; apply Zlen_zero in Hc; congruence).
  assert (Ho' : TxOuts tx <> []) by (intros Hc; apply Zlen_zero in Hc; congruence).
  destruct (Z.ltb_spec MaxBlockBaseSize (SerializeSizeStripped tx)) as [Hsz|Hsz].
  { split; [done|]. intros [_ _ ? _ _ _ _ _]. lia. }
  destruct (sumOutputs (TxOuts tx) 0) as [t|e| |] eqn:Hs.
  2-4: split; [done|]; intros [_ _ _ Hv Ht _ _ _]; exfalso;
    assert (sumOutputs (TxOuts tx) 0 = Ok (0 + outSum (TxOuts tx))) by (apply sumOutputs_iff; [money|done|split_and!; [done|lia|done]]); congruence.
  apply sumOutputs_iff in Hs as (Hv & Ht & _); [|money|done]. rewrite bind_Ok.
  destruct (duplicateInputs (TxIns tx) ∅) as [[]|e| |] eqn:Hd.
  2-4: split; [done|]; intros [_ _ _ _ _ Hnd _ _]; exfalso;
    assert (duplicateInputs (TxIns tx) ∅ = Ok ()) by (apply duplicateInputs_iff; split; [done|by intros op _ ?%elem_of_empty]); congruence.
  apply duplicateInputs_iff in Hd as [Hnd _]. rewrite bind_Ok.
  destruct (IsCoinBaseTx tx) eqn:Hcb.
  - destruct (TxIns tx) as [|ti ins] eqn:Hins; [done|]. rewrite index_cons_0, bind_Ok.
    destruct (_ || _) eqn:Hlen.
    + split; [done|]. intros [_ _ _ _ _ _ Hc _]. rewrite Hins in Hc. specialize (Hc Hcb ti eq_refl). lia.
    + split; [|done]. intros _. split; rewrite ?Hins; try done; [|congruence]. intros _ ti' [= <-]. lia.
  - destruct (existsb _ _) eqn:Hex.
    + split; [done|]. intros [_ _ _ _ _ _ _ Hn]. specialize (Hn Hcb). apply existsb_exists in Hex as (ti & Hin & Hnull).
      apply isNullOutpoint_iff in Hnull. rewrite list.Forall_forall in Hn. exfalso. apply (Hn ti); [by apply list_elem_of_In|done].
    + split; [|done]. intros _. split; try done; [congruence|]. intros _. apply list.Forall_forall. intros ti Hin Hc.
      apply not_true_iff_false in Hex. apply Hex, existsb_exists. exists ti. split; [by apply list_elem_of_In|by apply isNullOutpoint_iff].
Qed.

(** ** Fees *)

(** A coin that may be spent at a height. *)
Definition mature (params : Params) (height : Z) (c : coin) : Prop :=
  c_coinbase c = true -> c_height c + CoinbaseMaturity params <= height.

Definition heights_ok (m : gmap OutPoint coin) : Prop := map_Forall (fun _ c => 0 <= c_height c < 2 ^ 31 /\ - 2 ^ 63 <= c_amount c < 2 ^ 63) m.

Lemma live_entry v op e : LookupEntry v op = Some e -> IsSpent e = false -> coins v !! op = Some (coinOf e).
Proof. intros He Hs. rewrite coins_lookup, He. unfold live. by rewrite Hs. Qed.

Lemma mature_iff params height e : 0 <= height < 2 ^ 31 -> 0 <= blockHeight e < 2 ^ 31 -> 0 <= CoinbaseMaturity params < 2 ^ 16 ->
  (IsCoinBase e && (i32 (height - blockHeight e) <? i32 (CoinbaseMaturity params)) = false) <-> mature params height (coinOf e).
Proof.
  intros Hh Hb Hm. rewrite !i32_small by lia. unfold mature, coinOf. cbn. rewrite andb_false_iff, Z.ltb_ge.
  destruct (IsCoinBase e); split; intros Hx; [destruct Hx; [done|]; intros _; lia|right; specialize (Hx eq_refl); lia|done|by left].
Qed.

Lemma coinSum_nonneg cs : Forall (fun c => 0 <= c_amount c) cs -> 0 <= coinSum cs.
Proof. induction 1 as [|c cs Hc _ IH]; [done|]. unfold coinSum in *. rewrite fmap_cons, sum_cons. lia. Qed.

Lemma outSum_nonneg outs : Forall (fun o => 0 <= Value o) outs -> 0 <= outSum outs.
Proof. induction 1 as [|o outs Ho _ IH]; [done|]. unfold outSum in *. rewrite fmap_cons, sum_cons. lia. Qed.

Lemma sane_values_ok tx : sane tx -> Forall (fun o => 0 <= Value o <= MaxSatoshi) (TxOuts tx).
Proof.
  intros [_ _ _ Hv Ht _ _ _]. revert Ht. induction Hv as [|o outs Ho Hv IH]; intros Ht; [constructor|].
  unfold outSum in *. rewrite fmap_cons, sum_cons in Ht.
  pose proof (outSum_nonneg outs Hv) as Hnn. unfold outSum in Hnn. constructor; [lia|]. apply IH. lia.
Qed.

Lemma sumInputs_iff v params height (Hh : 0 <= height < 2 ^ 31) (Hm : 0 <= CoinbaseMaturity params < 2 ^ 16)
    (Hv : heights_ok (coins v)) ins t : forall total, 0 <= total <= MaxSatoshi ->
  sumInputs ins height v params total = Ok t <->
  exists cs, Forall2 (fun ti c => coins v !! PreviousOutPoint ti = Some c /\ mature params height c /\ 0 <= c_amount c) ins cs /\
    total + coinSum cs <= MaxSatoshi /\ t = total + coinSum cs.
Proof.
  induction ins as [|ti ins IH]; intros total Ht; cbn [sumInputs].
  - split.
    + intros [= <-]. exists []. split; [constructor|]. unfold coinSum. cbn. lia.
    + intros (cs & Hcs & _ & ->). apply Forall2_nil_inv_l in Hcs as ->. unfold coinSum. cbn. f_equal. lia.
  - assert (Hnone : coins v !! PreviousOutPoint ti = None -> ~ exists cs, Forall2 (fun ti c => coins v !! PreviousOutPoint ti = Some c /\ mature params height c /\ 0 <= c_amount c) (ti :: ins) cs /\
      total + coinSum cs <= MaxSatoshi /\ t = total + coinSum cs).
    { intros Hn (cs & Hcs & _). apply Forall2_cons_inv_l in Hcs as (c & cs' & (Hc & _) & _). congruence. }
    destruct (LookupEntry v (PreviousOutPoint ti)) as [e|] eqn:He.
    2: { split; [done|]. intros Hex. destruct Hnone; [|done]. by rewrite coins_lookup, He. }
    destruct (IsSpent e) eqn:Hs.
    { split; [done|]. intros Hex. destruct Hnone; [|done]. rewrite coins_lookup, He. cbn. by rewrite Hs. }
    pose proof (live_entry v _ e He Hs) as Hlive. destruct (Hv _ _ Hlive) as [Hch Hca]. cbn in Hch, Hca.
    pose proof (mature_iff params height e Hh Hch Hm) as Hmat.
    assert (Hcons : forall P : Prop, (exists cs, Forall2 (fun ti c => coins v !! PreviousOutPoint ti = Some c /\ mature params height c /\ 0 <= c_amount c) (ti :: ins) cs /\
        total + coinSum cs <= MaxSatoshi /\ t = total + coinSum cs) <->
      (mature params height (coinOf e) /\ 0 <= amount e /\ exists cs, Forall2 (fun ti c => coins v !! PreviousOutPoint ti = Some c /\ mature params height c /\ 0 <= c_amount c) ins cs /\
        total + amount e + coinSum cs <= MaxSatoshi /\ t = total + amount e + coinSum cs)).
    { intros _. split.
      - intros (cs & Hcs & Hle & ->). apply Forall2_cons_inv_l in Hcs as (c & cs' & (Hc & Hmc & Hac) & Hcs & ->).
        rewrite Hlive in Hc. injection Hc as <-. unfold coinSum in *. rewrite fmap_cons, sum_cons in *. cbn in *.
        split_and!; [done|done|]. exists cs'. split_and!; [done|lia|lia].
      - intros (Hmc & Hac & cs & Hcs & Hle & ->). exists (coinOf e :: cs). split; [constructor; [by split_and!|done]|].
        unfold coinSum in *. rewrite fmap_cons, sum_cons. cbn. lia. }
    rewrite (Hcons True). clear Hcons Hnone.
    destruct (IsCoinBase e && _) eqn:Him.
    { split; [done|]. intros (Hmc & _). apply Hmat in Hmc. congruence. }
    destruct (Z.ltb_spec (amount e) 0); [split; [done|lia]|].
    assert (Hbig : (exists cs, Forall2 (fun ti c => coins v !! PreviousOutPoint ti = Some c /\ mature params height c /\ 0 <= c_amount c) ins cs /\
        total + amount e + coinSum cs <= MaxSatoshi /\ t = total + amount e + coinSum cs) -> total + amount e <= MaxSatoshi).
    { intros (cs & Hcs & Hle & _). assert (0 <= coinSum cs); [|lia]. apply coinSum_nonneg.
      clear -Hcs. induction Hcs as [|? ? ? ? (_ & _ & ?) _ IHc]; by constructor. }
    destruct (Z.ltb_spec MaxSatoshi (amount e)); [split; [done|intros (_ & _ & Hx); specialize (Hbig Hx); lia]|].
    rewrite i64_small by money. rewrite (proj2 (Z.ltb_ge (total + amount e) total)) by lia. cbn [orb].
    destruct (Z.ltb_spec MaxSatoshi (total + amount e)); [split; [done|intros (_ & _ & Hx); specialize (Hbig Hx); lia]|].
    rewrite IH by lia. tauto.
Qed.

(** The inputs of a sane transaction that is not a coinbase pass exactly when
    every one names a coin of the view that is old enough to be spent, no
    amount is negative, and the coins together are worth at least what the
    outputs take and at most the 21 million coins; the fee that is returned
    is the difference, as integers. *)
Theorem CheckTransactionInputs_iff tx height v params fee (Hs : sane tx) (Hcb : IsCoinBaseTx tx = false)
    (Hh : 0 <= height < 2 ^ 31) (Hm : 0 <= CoinbaseMaturity params < 2 ^ 16) (Hv : heights_ok (coins v)) :
  CheckTransactionInputs tx height v params = Ok fee <->
  exists cs, Forall2 (fun ti c => coins v !! PreviousOutPoint ti = Some c /\ mature params height c /\ 0 <= c_amount c) (TxIns tx) cs /\
    coinSum cs <= MaxSatoshi /\ fee = coinSum cs - outSum (TxOuts tx) /\ 0 <= fee.
Proof.
  unfold CheckTransactionInputs. rewrite Hcb. rewrite totalOut_sum by apply Hs.
  pose proof (outSum_nonneg (TxOuts tx) ltac:(apply Hs)) as Ho.
  destruct Hs as [_ _ _ _ Ht _ _ _]. split.
  - intros Hrun. apply outcome_bind_ok in Hrun as (t & Hsum & Hrun). apply sumInputs_iff in Hsum as (cs & Hcs & Hle & ->); [|done|done|done|money].
    destruct (Z.ltb_spec (0 + coinSum cs) (outSum (TxOuts tx))); [done|]. injection Hrun as <-. exists cs.
    rewrite i64_small by money. split_and!; [done|lia|lia|lia].
  - intros (cs & Hcs & Hle & -> & Hf). assert (Hsum : sumInputs (TxIns tx) height v params 0 = Ok (0 + coinSum cs)).
    { apply sumInputs_iff; [done|done|done|money|]. exists cs. split_and!; [done|lia|done]. }
    rewrite Hsum, bind_Ok, Z.add_0_l, (proj2 (Z.ltb_ge _ _)) by lia. change (mret ?x) with (@Ok RuleError Z x). rewrite i64_small by money. done.
Qed.

(** ** The subsidy *)
Definition supply (params : Params) (n : nat) : Z := sum ((fun h => CalcBlockSubsidy (Z.of_nat h) params) <$> seq 0 n).

Lemma subsidy_value params h : 0 <= h < 2 ^ 31 -> 0 < SubsidyReductionInterval params < 2 ^ 31 ->
  CalcBlockSubsidy h params = Z.shiftr baseSubsidy (h / SubsidyReductionInterval params).
Proof.
  intros Hh Hi. unfold CalcBlockSubsidy. rewrite (proj2 (Z.eqb_neq _ _)) by lia. rewrite Z.quot_div_nonneg by lia.
  assert (0 <= h / SubsidyReductionInterval params <= h) by (split; [apply Z.div_pos; lia|apply Z.div_le_upper_bound; nia]).
  rewrite i32_small, u64_small by lia. destruct (Z.leb_spec 64 (h / SubsidyReductionInterval params)); [|done].
  symmetry. apply Z.shiftr_eq_0; [done|]. change (Z.log2 baseSubsidy) with 32. lia.
Qed.

Lemma supply_S params n : supply params (S n) = supply params n + CalcBlockSubsidy (Z.of_nat n) params.
Proof. unfold supply. rewrite seq_S, fmap_app, sum_app. cbn. lia. Qed.

(** The subsidies of all blocks up to any height are together at most twice
    the subsidies of the first interval: for the parameters of this network,
    as for the original ones, the 21 million coins that the checks of the
    amounts allow. *)
Theorem supply_bound params n (Hn : Z.of_nat n <= 2 ^ 31) (Hi : 0 < SubsidyReductionInterval params < 2 ^ 31) :
  supply params n <= 2 * SubsidyReductionInterval params * baseSubsidy /\
  (SubsidyReductionInterval params = 210000 -> supply params n <= MaxSatoshi).
Proof.
  set (I := SubsidyReductionInterval params) in *.
  assert (Hgen : supply params n + (2 * I - Z.of_nat n mod I) * Z.shiftr baseSubsidy (Z.of_nat n / I) <= 2 * I * baseSubsidy).
  { induction n as [|n IH].
    - change (Z.of_nat 0) with 0. rewrite Z.mod_0_l, Z.div_0_l, Z.shiftr_0_r by lia. change (supply params 0) with 0. lia.
    - specialize (IH ltac:(lia)). rewrite supply_S, subsidy_value by lia. fold I.
      set (k := Z.of_nat n) in *. replace (Z.of_nat (S n)) with (k + 1) by lia.
      pose proof (Z.mod_pos_bound k I ltac:(lia)). pose proof (Z.div_mod k I ltac:(lia)) as Hdm.
      assert (Hq : 0 <= k / I) by (apply Z.div_pos; lia).
      destruct (Z.eq_dec (k mod I) (I - 1)) as [He|He].
      + rewrite <- (Z.div_unique_pos (k + 1) I (k / I + 1) 0) by lia. rewrite <- (Z.mod_unique_pos (k + 1) I (k / I + 1) 0) by lia.
        rewrite <- Z.shiftr_shiftr, (Z.shiftr_div_pow2 _ 1) by lia. change (2 ^ 1) with 2. set (b := Z.shiftr baseSubsidy (k / I)) in *.
        assert (0 <= b) by (apply Z.shiftr_nonneg; done). pose proof (Z.mul_div_le b 2 ltac:(lia)). nia.
      + rewrite <- (Z.div_unique_pos (k + 1) I (k / I) (k mod I + 1)) by lia. rewrite <- (Z.mod_unique_pos (k + 1) I (k / I) (k mod I + 1)) by lia.
        set (b := Z.shiftr baseSubsidy (k / I)) in *. nia. }
  assert (0 <= (2 * I - Z.of_nat n mod I) * Z.shiftr baseSubsidy (Z.of_nat n / I)).
  { pose proof (Z.mod_pos_bound (Z.of_nat n) I ltac:(lia)). apply Z.mul_nonneg_nonneg; [lia|]. by apply Z.shiftr_nonneg. }
  split; [lia|]. intros He. rewrite MaxSatoshi_value. change baseSubsidy with 5000000000 in *. lia.
Qed.

(** ** The height in the coinbase *)

(** The script that pushes a height in the fewest bytes. *)
Definition heightScript (h : Z) : list Z :=
  match AddInt64 h NewScriptBuilder with Ok b => b_script b | _ => [] end.

Lemma heightScript_large h : 17 <= h < 2 ^ 31 -> exists v, bytes_ok v /\ 1 <= Zlen v <= 4 /\ le_val v = h /\
  (Zlen v = 1 -> 17 <= nth 0 v 0) /\ AddInt64 h NewScriptBuilder = Ok (append (Zlen v :: v) NewScriptBuilder).
Proof.
  intros Hh. destruct (Bytes_total h ltac:(lia)) as (v & Hv & Hb & _).
  destruct (Bytes_shape h v 4) as (init & b & -> & Hok & Hlen & Hval & _); [change (2 ^ (8 * 4 - 1)) with (2 ^ 31); lia|lia|lia|done|].
  exists (init ++ [b]). pose proof (Zlen_nonneg init). assert (Hl : Zlen (init ++ [b]) = Zlen init + 1) by (rewrite Zlen_app; done).
  assert (Hle : le_val (init ++ [b]) = h).
  { unfold valueOf in Hval. destruct (Z.ltb_spec b 128); [done|]. exfalso. apply list.Forall_app in Hok as [Hi Hb'].
    apply Forall_inv in Hb'. unfold byte_ok in Hb'. pose proof (le_val_range (init ++ [b - 128])) as Hr.
    assert (Hbs : bytes_ok (init ++ [b - 128])) by (apply list.Forall_app; split; [done|repeat constructor; unfold byte_ok; lia]).
    specialize (Hr Hbs). lia. }
  assert (Hone : Zlen (init ++ [b]) = 1 -> init ++ [b] = [h]).
  { intros H1. destruct init as [|x init]; [|rewrite Zlen_cons in *; pose proof (Zlen_nonneg init); lia]. cbn in *. f_equal. lia. }
  split_and!; [done|lia|lia|done| |].
  - intros H1. rewrite (Hone H1). cbn. lia.
  - unfold AddInt64, NewScriptBuilder. cbn [b_err b_script]. change (MaxScriptSize <? Zlen [] + 1) with false. cbv iota.
    rewrite (proj2 (Z.eqb_neq h 0)), (proj2 (Z.eqb_neq h (-1))) by lia. rewrite (proj2 (Z.leb_le 1 h)), (proj2 (Z.leb_gt h 16)) by lia. cbn [andb orb].
    rewrite Hv, bind_Ok. change (mret ?x) with (@Ok ErrorCode ScriptBuilder x). f_equal.
    destruct (Z.eq_dec (Zlen (init ++ [b])) 1) as [H1|H1]; [|apply AddData_direct; [lia|done|by vm_compute]].
    rewrite (Hone H1). unfold AddData, addData, canonicalDataSize, MaxScriptSize, MaxScriptElementSize, OP_PUSHDATA1. cbn [b_err b_script nth].
    change (Zlen [h]) with 1. cbn [Z.eqb]. rewrite (proj2 (Z.leb_gt h 16)) by lia.
    rewrite (proj2 (Z.eqb_neq h 0)) by lia. rewrite (proj2 (Z.eqb_neq h 0x81)).
    + done.
    + intros ->. specialize (Hone H1). rewrite Hone in Hv. vm_compute in Hv. done.
Qed.

Lemma heightScript_small h : 0 <= h <= 16 ->
  AddInt64 h NewScriptBuilder = Ok (append [if h =? 0 then OP_0 else h + 80] NewScriptBuilder).
Proof.
  intros Hh. unfold AddInt64, NewScriptBuilder. cbn [b_err b_script]. change (MaxScriptSize <? Zlen [] + 1) with false. cbv iota.
  destruct (Z.eqb_spec h 0) as [->|Hz]; [done|].
  rewrite (proj2 (Z.eqb_neq h (-1))), (proj2 (Z.leb_le 1 h)), (proj2 (Z.leb_le h 16)) by lia. cbn [andb orb].
  do 3 f_equal. unfold OP_1. rewrite u8_small; lia.
Qed.

(** The three forms of the push. *)
Inductive height_form (h : Z) : list Z -> Prop :=
| form_zero : h = 0 -> height_form h [OP_0]
| form_small : 1 <= h <= 16 -> height_form h [h + 80]
| form_large v : 17 <= h -> bytes_ok v -> 1 <= Zlen v <= 4 -> le_val v = h -> height_form h (Zlen v :: v).

Lemma heightScript_form h : 0 <= h < 2 ^ 31 ->
  exists b, AddInt64 h NewScriptBuilder = Ok b /\ b_err b = None /\ heightScript h = b_script b /\ height_form h (b_script b).
Proof.
  intros Hh. unfold heightScript. destruct (Z.le_gt_cases 17 h) as [H17|H17].
  - destruct (heightScript_large h ltac:(lia)) as (v & Hb & Hl & Hv & _ & ->). eexists. split_and!; [done|done|done|]. by apply form_large.
  - rewrite heightScript_small by lia. eexists. split_and!; [done|done|done|]. cbn.
    destruct (Z.eqb_spec h 0); [by apply form_zero|apply form_small; lia].
Qed.

Lemma hasPrefix_iff p l : hasPrefix p l = true <-> exists rest, l = p ++ rest.
Proof.
  revert l. induction p as [|x p IH]; intros l; cbn.
  - split; [|done]. intros _. by exists l.
  - destruct l as [|y l]; [split; [done|]; by intros (rest & ?)|]. rewrite andb_true_iff, Z.eqb_eq, IH. split.
    + intros [-> (rest & ->)]. by exists rest.
    + intros (rest & [= -> ->]). split; [done|by exists rest].
Qed.

Lemma compareScript_iff h script : 0 <= h < 2 ^ 31 ->
  compareScript h script = Ok () <-> exists rest, script = heightScript h ++ rest.
Proof.
  intros Hh. unfold compareScript. destruct (heightScript_form h Hh) as (b & -> & He & -> & _). cbn [noErr]. rewrite bind_Ok.
  unfold Script. rewrite He, bind_Ok, <- hasPrefix_iff. by destruct (hasPrefix (b_script b) script).
Qed.

Lemma extract_large v rest : bytes_ok v -> 1 <= Zlen v <= 4 -> 17 <= le_val v < 2 ^ 31 ->
  compareScript (le_val v) (Zlen v :: v ++ rest) = Ok () ->
  forall tx ti ins, TxIns tx = ti :: ins -> SignatureScript ti = Zlen v :: v ++ rest -> ExtractCoinbaseHeight tx = Ok (le_val v).
Proof.
  intros Hb Hl Hv Hcmp tx ti ins Hins Hs. unfold ExtractCoinbaseHeight. rewrite Hins, index_cons_0, bind_Ok, Hs.
  pose proof (Zlen_nonneg (v ++ rest)). rewrite (proj2 (Z.ltb_ge _ 1)) by (rewrite Zlen_cons; lia). rewrite index_cons_0, bind_Ok.
  unfold OP_0, OP_1, OP_16. rewrite (proj2 (Z.eqb_neq _ 0)) by lia. rewrite (proj2 (Z.leb_gt 0x51 _)) by lia. cbn [andb].
  rewrite (slice_suffix [Zlen v] (v ++ rest) 1 (Zlen (Zlen v :: v ++ rest))), bind_Ok by (rewrite ?Zlen_cons, ?Zlen_nil; lia).
  rewrite (proj2 (Z.ltb_ge _ _)) by (rewrite Zlen_app; pose proof (Zlen_nonneg rest); lia).
  rewrite (slice_mid [Zlen v] v rest 1 (Zlen v + 1)), bind_Ok by (change (Zlen [Zlen v]) with 1; lia).
  assert (Hval : le_val (take 4 (v ++ replicate 4 0)) = le_val v).
  { rewrite take_app_ge by (unfold Zlen in *; lia). rewrite le_val_app.
    assert (Hz : forall n, le_val (take n (replicate 4 0)) = 0) by (intros [|[|[|[|[|n]]]]]; done). rewrite Hz. lia. }
  rewrite Hval, i32_small, Hcmp, bind_Ok by lia. done.
Qed.

(** The rule on the height in the coinbase: the check accepts exactly the
    scripts that begin with the shortest push of the height. *)
Theorem CheckSerializedHeight_iff tx ti ins h (Hins : TxIns tx = ti :: ins) (Hh : 0 <= h < 2 ^ 31) (Hb : bytes_ok (SignatureScript ti)) :
  CheckSerializedHeight tx h = Ok () <-> exists rest, SignatureScript ti = heightScript h ++ rest.
Proof.
  unfold CheckSerializedHeight. split.
  - intros Hrun. apply outcome_bind_ok in Hrun as (h' & Hex & Heq). destruct (Z.eqb_spec h' h) as [->|]; [clear Heq|done].
    unfold ExtractCoinbaseHeight in Hex. rewrite Hins, index_cons_0, bind_Ok in Hex.
    destruct (SignatureScript ti) as [|op l] eqn:Hs; [done|]. pose proof (Zlen_nonneg l). rewrite (proj2 (Z.ltb_ge _ 1)) in Hex by (rewrite Zlen_cons; lia).
    rewrite index_cons_0, bind_Ok in Hex. destruct (Z.eqb_spec op OP_0) as [->|Hop].
    { injection Hex as <-. exists l. unfold heightScript. by rewrite heightScript_small by lia. }
    destruct (_ && _) eqn:Hsm.
    { injection Hex as <-. unfold OP_1, OP_16 in *. exists l. unfold heightScript. rewrite heightScript_small by lia. cbn.
      rewrite (proj2 (Z.eqb_neq _ 0)) by lia. f_equal. lia. }
    inv_ok. case_match; [done|]. inv_ok. subst.
    match goal with Hc : compareScript ?h _ = Ok ?u |- _ => destruct u; by apply compareScript_iff in Hc end.
  - intros (rest & Hs). destruct (heightScript_form h Hh) as (b & Hadd & He & Hscript & Hform). rewrite Hscript in Hs. clear Hadd He.
    destruct Hform as [->|Hsm|v H17 Hbv Hl Hv].
    + unfold ExtractCoinbaseHeight. rewrite Hins, index_cons_0, bind_Ok, Hs. cbn [app]. pose proof (Zlen_nonneg rest).
      rewrite (proj2 (Z.ltb_ge _ 1)) by (rewrite Zlen_cons; lia). by rewrite index_cons_0, bind_Ok.
    + unfold ExtractCoinbaseHeight. rewrite Hins, index_cons_0, bind_Ok, Hs. cbn [app]. pose proof (Zlen_nonneg rest).
      rewrite (proj2 (Z.ltb_ge _ 1)) by (rewrite Zlen_cons; lia). rewrite index_cons_0, bind_Ok. unfold OP_0, OP_1, OP_16.
      rewrite (proj2 (Z.eqb_neq _ 0)), (proj2 (Z.leb_le 0x51 _)), (proj2 (Z.leb_le _ 0x60)) by lia. cbn [andb]. rewrite bind_Ok.
      replace (h + 80 - (0x51 - 1)) with h by lia. by rewrite Z.eqb_refl.
    + rewrite (extract_large v rest Hbv Hl ltac:(lia)) with (ti := ti) (ins := ins); [|..|done|exact Hs].
      * by rewrite bind_Ok, Hv, Z.eqb_refl.
      * rewrite Hv. apply compareScript_iff; [done|]. exists rest. by rewrite Hscript.
Qed.

(** ** Concrete instances *)
Module Toy.
Import SigHash.Toy Utxo.Toy.
#[local] Existing Instance toy_hashes.

Lemma pay_sane : sane pay.
Proof.
  apply CheckTransactionSanity_iff; [|reflexivity].
  apply Forall_cons_2; [split; by vm_compute|]. apply Forall_cons_2; [split; by vm_compute|apply Forall_nil_2].
Qed.

Lemma start_heights : heights_ok (coins start).
Proof.
  intros op c Hc. assert (Hin : (op, c) ∈ map_to_list (coins start)) by (by apply elem_of_map_to_list).
  assert (Hall : Forall (fun p : OutPoint * coin => 0 <= c_height p.2 < 2 ^ 31 /\ - 2 ^ 63 <= c_amount p.2 < 2 ^ 63) (map_to_list (coins start)))
    by (apply (bool_decide_unpack _); vm_compute; exact I).
  rewrite list.Forall_forall in Hall. apply (Hall (op, c) Hin).
Qed.

Lemma CheckTransactionInputs_iff_witness :
  CheckTransactionInputs pay 9 start FreshNetParams = Ok 0 /\
  exists cs, Forall2 (fun ti c => coins start !! PreviousOutPoint ti = Some c /\ mature FreshNetParams 9 c /\ 0 <= c_amount c) (TxIns pay) cs /\
    coinSum cs <= MaxSatoshi /\ 0 = coinSum cs - outSum (TxOuts pay) /\ 0 <= 0.
Proof.
  split; [reflexivity|].
  apply (CheckTransactionInputs_iff pay 9 start FreshNetParams 0 pay_sane); [reflexivity|lia|split; by vm_compute|apply start_heights|reflexivity].
Defined.

Lemma supply_bound_witness : supply FreshNetParams 3 = 15000000000 /\ supply FreshNetParams 3 <= MaxSatoshi.
Proof. split; [reflexivity|]. apply (supply_bound FreshNetParams 3); [lia|split; by vm_compute|reflexivity]. Defined.

Definition coinbase17 : MsgTx := mkMsgTx 1 [mkTxIn (mkOutPoint zeroHash MaxUint32) [1; 17; 9] [] 0] [mkTxOut 5 []] 0.

Lemma CheckSerializedHeight_iff_witness :
  CheckSerializedHeight coinbase17 17 = Ok () /\ exists rest, [1; 17; 9] = heightScript 17 ++ rest.
Proof.
  split; [reflexivity|]. apply (CheckSerializedHeight_iff coinbase17 (mkTxIn (mkOutPoint zeroHash MaxUint32) [1; 17; 9] [] 0) [] 17);
    [reflexivity|lia|apply (bool_decide_unpack _); vm_compute; exact I|reflexivity].
Defined.

(** A height that is not pushed in its shortest form is refused, although the
    bytes encode it. *)
Example padded_height_refused :
  CheckSerializedHeight (mkMsgTx 1 [mkTxIn (mkOutPoint zeroHash MaxUint32) [2; 17; 0] [] 0] [mkTxOut 5 []] 0) 17 = Err ErrBadCoinbaseHeight.
Proof. reflexivity. Qed.

(** A missing output in the count of the signature operations goes unnoticed. *)
Example sigop_cost_swallows_error :
  CountP2SHSigOps pay false NewUtxoViewpoint = Err ErrMissingTxOut /\ GetSigOpCost pay false NewUtxoViewpoint true false = Ok 0.
Proof. split; reflexivity. Qed.

End Toy.
End TxRules.
