(* ===== verification/ScriptVal.v ===== *)
(** * Concurrent validation of the scripts

    Models coin/OrcaNet/blockchain/scriptval.go and the HashCache of
    coin/OrcaNet/txscript/hashcache.go: the work items of a block, what a
    worker does with one, and the goroutines of txValidator as a transition
    system, in which a step is one communication on a channel (the channels
    are unbuffered), one validation, or one reaction to the closed quit
    channel.

    The theorem on the transition system: whatever the scheduling, it always
    stops, it stops only when Validate has returned and every worker has
    ended, and it returns nil exactly when every item is valid.  So
    [Validate], which looks at the items one after the other, stands for the
    concurrent code in the model of block validation. *)

From stdpp Require Import relations numbers list.
From S2P Require Import Prelude ScriptNum Wire Tokenizer SigHash SigCheck Opcodes Engine EngineSafe EngineRun Merkle Utxo.

Module ScriptVal.
Import ScriptNum Wire Tokenizer SigHash SigCheck Opcodes Engine EngineSafe EngineRun Merkle Utxo.

(** ** The goroutines *)
Section Machine.
(** The items by their index, and the result of validating each. *)
Variable numInputs : nat.
Variable validate : nat -> option RuleError.

Inductive worker :=
| Waiting
| Validating (item : nat)
| Sending (item : nat) (result : option RuleError)
| Ended.

Inductive validator :=
| Running (currentItem processedItems : nat)
| Returned (result : option RuleError).

(** The quit channel is closed when Validate returns. *)
Record state := mkState {
  main : validator;
  workers : list worker;
}.

Inductive step : state -> state -> Prop :=
(** case validateChan <- item *)
| step_item cur proc ws i :
    (proc < numInputs)%nat -> (cur < numInputs)%nat -> ws !! i = Some Waiting ->
    step (mkState (Running cur proc) ws) (mkState (Running (S cur) proc) (<[i := Validating cur]> ws))
(** the worker creates the engine and executes it *)
| step_validate m ws i item :
    ws !! i = Some (Validating item) ->
    step (mkState m ws) (mkState m (<[i := Sending item (validate item)]> ws))
(** case err := <-v.resultChan, with nil: the worker goes on *)
| step_valid cur proc ws i item :
    (proc < numInputs)%nat -> ws !! i = Some (Sending item None) ->
    step (mkState (Running cur proc) ws) (mkState (Running cur (S proc)) (<[i := Waiting]> ws))
(** with an error: Validate closes quitChan and returns it, the worker ends *)
| step_invalid cur proc ws i item e :
    (proc < numInputs)%nat -> ws !! i = Some (Sending item (Some e)) ->
    step (mkState (Running cur proc) ws) (mkState (Returned (Some e)) (<[i := Ended]> ws))
(** all items are processed: Validate closes quitChan and returns nil *)
| step_return cur proc ws :
    (numInputs <= proc)%nat -> step (mkState (Running cur proc) ws) (mkState (Returned None) ws)
(** case <-v.quitChan in validateHandler *)
| step_quit r ws i :
    ws !! i = Some Waiting -> step (mkState (Returned r) ws) (mkState (Returned r) (<[i := Ended]> ws))
(** case <-v.quitChan in sendResult; after an error the handler ends *)
| step_drop r ws i item result :
    ws !! i = Some (Sending item result) ->
    step (mkState (Returned r) ws)
      (mkState (Returned r) (<[i := if result is Some _ then Ended else Waiting]> ws)).

(** Validate with [maxGoRoutines] workers. *)
Definition start (maxGoRoutines : nat) : state := mkState (Running 0 0) (replicate maxGoRoutines Waiting).

Definition final (s : state) : Prop := (exists r, main s = Returned r) /\ Forall (fun w => w = Ended) (workers s).

(** *** What holds in every reachable state *)
Definition busy (w : worker) : option nat :=
  match w with Validating i | Sending i _ => Some i | _ => None end.

Record inv (n : nat) (s : state) : Prop := {
  inv_workers : length (workers s) = n;
  inv_sending : Forall (fun w => forall i r, w = Sending i r -> r = validate i) (workers s);
  inv_items : forall cur proc, main s = Running cur proc ->
    (cur <= numInputs)%nat /\ Forall (fun w => w <> Ended) (workers s) /\
    exists done, length done = proc /\ Forall (fun i => validate i = None) done /\
      seq 0 cur ≡ₚ done ++ omap busy (workers s);
  inv_error : forall e, main s = Returned (Some e) -> exists i, (i < numInputs)%nat /\ validate i = Some e;
  inv_nil : main s = Returned None -> forall i, (i < numInputs)%nat -> validate i = None;
}.

(** Every step takes the machine closer to its end. *)
Definition workerLeft (w : worker) : nat :=
  match w with Validating _ => 3 | Sending _ _ => 2 | Waiting => 1 | Ended => 0 end.
Definition left (s : state) : nat :=
  match main s with Running cur _ => 1 + 3 * (numInputs - cur) | Returned _ => 0 end
  + sum_list_with workerLeft (workers s).

Lemma sum_insert ws i w w' : ws !! i = Some w ->
  (sum_list_with workerLeft (<[i := w']> ws) + workerLeft w = sum_list_with workerLeft ws + workerLeft w')%nat.
Proof using.
  revert i. induction ws as [|x ws IH]; intros [|i] Hi; simpl in *; try done.
  - injection Hi as ->. lia.
  - specialize (IH i Hi). lia.
Qed.

Lemma step_left s s' : step s s' -> (left s' < left s)%nat.
Proof using.
  destruct 1 as [cur proc ws i Hp Hc Hw|m ws i item Hw|cur proc ws i item Hp Hw|cur proc ws i item e Hp Hw|cur proc ws Hp
                |r ws i Hw|r ws i item result Hw]; unfold left; cbn [main workers];
    try (match goal with |- context [<[_ := ?w]> ws] => pose proof (sum_insert ws i _ w Hw) as Hs end;
         cbn [workerLeft] in Hs); try lia.
  destruct result; cbn [workerLeft] in Hs; lia.
Qed.

Lemma run_left n s s' : nsteps step n s s' -> (n + left s' <= left s)%nat.
Proof using. induction 1 as [|n s s1 s2 H _ IH]; [lia|]. apply step_left in H. lia. Qed.

Lemma start_left k : left (start k) = (1 + 3 * numInputs + k)%nat.
Proof using. unfold left, start. cbn [main workers]. assert (sum_list_with workerLeft (replicate k Waiting) = k) as ->; [|lia].
  induction k; cbn; lia. Qed.

(** *** The invariant *)
Lemma busy_insert ws i w w' : ws !! i = Some w ->
  omap busy ws ++ option_list (busy w') ≡ₚ omap busy (<[i := w']> ws) ++ option_list (busy w).
Proof using.
  assert (Hc : forall x l, omap busy (x :: l) = option_list (busy x) ++ omap busy l)
    by (intros x l; cbn; by destruct (busy x)).
  revert i. induction ws as [|x ws IH]; intros [|i] Hi; simpl in Hi; try done; simpl insert; rewrite !Hc.
  - injection Hi as ->. solve_Permutation.
  - rewrite <- !app_assoc. by rewrite (IH i Hi).
Qed.

Lemma inv_start k : inv k (start k).
Proof using.
  split; cbn; try done.
  - apply length_replicate.
  - apply list.Forall_replicate. done.
  - intros cur proc [= <- <-]. split; [lia|]. split; [by apply list.Forall_replicate|].
    exists []. cbn. split_and!; try done. by induction k.
Qed.

Lemma inv_step k s s' : inv k s -> step s s' -> inv k s'.
Proof using.
  intros [Hk Hs Hi He Hn] Hstep. revert Hk Hs Hi He Hn.
  destruct Hstep as [cur proc ws i Hp Hc Hw|m ws i item Hw|cur proc ws i item Hp Hw|cur proc ws i item e Hp Hw|cur proc ws Hp
                |r ws i Hw|r ws i item result Hw]; cbn [main workers]; intros Hk Hs Hi He Hn.
  - destruct (Hi _ _ eq_refl) as (Hcur & Hall & done & Hd & Hv & Hperm). split; cbn [main workers]; try done.
    + by rewrite length_insert.
    + by apply Forall_insert.
    + intros ? ? [= <- <-]. split; [lia|]. split; [by apply Forall_insert|]. exists done. split_and!; try done.
      pose proof (busy_insert ws i _ (Validating cur) Hw) as Hb. cbn in Hb. rewrite app_nil_r in Hb.
      rewrite seq_S, Nat.add_0_l, <- Hb, app_assoc. by rewrite Hperm.
  - split; cbn [main workers]; try done.
    + by rewrite length_insert.
    + apply Forall_insert; [done|]. by intros ? ? [= <- <-].
    + intros cur proc Hm. destruct (Hi _ _ Hm) as (Hcur & Hall & done & Hd & Hv & Hperm). split; [done|].
      split; [by apply Forall_insert|]. exists done. split_and!; try done.
      pose proof (busy_insert ws i _ (Sending item (validate item)) Hw) as Hb. cbn in Hb.
      apply Permutation_app_inv_r in Hb. by rewrite <- Hb.
  - destruct (Hi _ _ eq_refl) as (Hcur & Hall & done & Hd & Hv & Hperm). split; cbn [main workers]; try done.
    + by rewrite length_insert.
    + by apply Forall_insert.
    + intros ? ? [= <- <-]. split; [lia|]. split; [by apply Forall_insert|].
      rewrite list.Forall_lookup in Hs. pose proof (Hs i _ Hw item None eq_refl) as Hok.
      exists (done ++ [item]). split_and!.
      * rewrite length_app. cbn. lia.
      * apply Forall_app_2; [done|]. by apply Forall_cons_2.
      * pose proof (busy_insert ws i _ Waiting Hw) as Hb. cbn in Hb. rewrite app_nil_r in Hb.
        rewrite Hperm, Hb, <- app_assoc. by rewrite (Permutation_app_comm [item]).
  - destruct (Hi _ _ eq_refl) as (Hcur & Hall & done & Hd & Hv & Hperm). split; cbn [main workers]; try done.
    + by rewrite length_insert.
    + by apply Forall_insert.
    + intros ? [= <-]. rewrite list.Forall_lookup in Hs. pose proof (Hs i _ Hw item _ eq_refl) as Hok.
      exists item. split; [|done].
      assert (Hin : item ∈ seq 0 cur).
      { rewrite Hperm. apply elem_of_app. right. apply list_elem_of_omap. exists (Sending item (Some e)).
        split; [by eapply list_elem_of_lookup_2|done]. }
      apply elem_of_seq in Hin. lia.
  - destruct (Hi _ _ eq_refl) as (Hcur & Hall & done & Hd & Hv & Hperm). split; cbn [main workers]; try done.
    intros _ i Hlt. pose proof (Permutation_length Hperm) as Hlen. rewrite length_seq, length_app in Hlen.
    destruct (omap busy ws); cbn in Hlen; [|lia]. rewrite app_nil_r in Hperm.
    rewrite list.Forall_forall in Hv. apply Hv. rewrite <- Hperm. apply elem_of_seq. lia.
  - split; cbn [main workers]; try done; [by rewrite length_insert|by apply Forall_insert].
  - split; cbn [main workers]; try done; [by rewrite length_insert|apply Forall_insert; [done|by destruct result]].
Qed.

Lemma inv_reach k s : rtc step (start k) s -> inv k s.
Proof using.
  intros H. remember (start k) as s0 eqn:E. assert (Hi : inv k s0) by (subst; apply inv_start). clear E.
  induction H as [|s0 s1 s2 H _ IH]; [done|]. apply IH. by eapply inv_step.
Qed.

(** Where nothing can move any more, Validate has returned and no goroutine
    is left. *)
Lemma stuck_final k s : (1 <= k)%nat -> inv k s -> (forall s', ~ step s s') -> final s.
Proof using.
  intros Hk [Hlen Hs Hi He Hn] Hstuck. destruct s as [m ws]. cbn [main workers] in *.
  assert (Hidle : forall i w, ws !! i = Some w -> w = Waiting \/ w = Ended \/ exists item r, w = Sending item r).
  { intros i [|item|item r|] Hw; eauto. exfalso. eapply Hstuck, step_validate, Hw. }
  destruct m as [cur proc|r].
  - exfalso. destruct (decide (numInputs <= proc)%nat) as [|Hp]; [eapply Hstuck, step_return; done|].
    destruct (Hi _ _ eq_refl) as (Hcur & Hall & done & Hd & _ & Hperm).
    assert (Hw : forall i w, ws !! i = Some w -> w = Waiting).
    { intros i w Hw. destruct (Hidle i w Hw) as [->|[->|(item & [e|] & ->)]]; [done| | |].
      - rewrite list.Forall_lookup in Hall. by destruct (Hall _ _ Hw).
      - exfalso. eapply Hstuck, step_invalid, Hw. lia.
      - exfalso. eapply Hstuck, step_valid, Hw. lia. }
    assert (Hb : omap busy ws = []).
    { clear -Hw. induction ws as [|w ws IH]; [done|]. cbn. rewrite (Hw 0%nat w eq_refl). cbn. apply IH.
      intros i. apply (Hw (S i)). }
    rewrite Hb, app_nil_r in Hperm. apply Permutation_length in Hperm. rewrite length_seq in Hperm.
    destruct ws as [|w ws]; [cbn in Hlen; lia|].
    eapply Hstuck, (step_item cur proc (w :: ws) 0); [lia|lia|]. by rewrite <- (Hw 0%nat w eq_refl).
  - split; cbn [main workers]; [by eexists|]. apply list.Forall_lookup. intros i w Hw.
    destruct (Hidle i w Hw) as [->|[->|(item & result & ->)]]; [|done|]; exfalso.
    + apply (Hstuck _ (step_quit r ws i Hw)).
    + apply (Hstuck _ (step_drop r ws i item result Hw)).
Qed.
(** C15.  The concurrent validation of scripts, with one worker or more and
    whatever the scheduling: a run takes at most 1 + 3 items + workers steps,
    and where it can go no further Validate has returned, no goroutine is
    left waiting on a channel, nil was returned exactly when every item is
    valid, and an error is the error of one of the items. *)
Theorem txValidator_correct k s n : (1 <= k)%nat -> nsteps step n (start k) s ->
  (n <= 1 + 3 * numInputs + k)%nat /\
  ((forall s', ~ step s s') ->
   final s /\ exists r, main s = Returned r /\
     (r = None <-> forall i, (i < numInputs)%nat -> validate i = None) /\
     (forall e, r = Some e -> exists i, (i < numInputs)%nat /\ validate i = Some e)).
Proof using.
  intros Hk Hrun. split.
  { apply run_left in Hrun. rewrite start_left in Hrun. lia. }
  intros Hstuck. assert (Hi : inv k s) by (apply inv_reach, rtc_nsteps; by eexists).
  pose proof (stuck_final k s Hk Hi Hstuck) as Hf. split; [done|]. destruct Hf as [[r Hr] _].
  exists r. split; [done|]. destruct Hi as [_ _ _ He Hn]. split; [|intros e ->; eauto].
  split; [intros ->; auto|]. intros Hall. destruct r as [e|]; [|done].
  destruct (He e Hr) as (i & Hlt & Hv). rewrite Hall in Hv by done. done.
Qed.

End Machine.

(** ** The cache of midstates *)
Section Validation.
Context {C : Crypto}.

(** The map of a HashCache; its lock serialises the operations. *)
Record HashCache := mkHashCache { sigHashes : gmap (list Z) TxSigHashes }.

Definition NewHashCache (maxSize : Z) : HashCache := mkHashCache ∅.
Definition AddSigHashes (tx : MsgTx) (utxoView : UtxoViewpoint) (h : HashCache) : outcome RuleError HashCache :=
  hashes ← noErr (NewTxSigHashes (FetchPrevOutput utxoView) tx);
  Ok (mkHashCache (<[TxHash tx := hashes]> (sigHashes h))).
Definition ContainsHashes (txid : list Z) (h : HashCache) : bool := bool_decide (is_Some (sigHashes h !! txid)).
Definition GetSigHashes (txid : list Z) (h : HashCache) : option TxSigHashes := sigHashes h !! txid.
Definition PurgeSigHashes (txid : list Z) (h : HashCache) : HashCache :=
  mkHashCache (delete txid (sigHashes h)).

(** ** The work of the validator *)
Record txValidateItem := mkItem {
  v_txInIndex : Z;
  v_txIn : TxIn;
  v_tx : MsgTx;
  v_sigHashes : option TxSigHashes;
}.

Section Items.
(** The steps an engine may take, and what the items of one validator share. *)
Context (fuel : nat) (utxoView : UtxoViewpoint) (flags : ScriptFlags) (sigCache : option SigCache).

(** An error of the engine, under the code the validator gives it. *)
Definition underCode {A} (code : RuleError) (m : outcome ErrorCode A) : outcome RuleError A :=
  match m with Ok a => Ok a | Err _ => Err code | Panic => Panic | Hang => Hang end.

(** What validateHandler does with an item. *)
Definition validateItem (txVI : txValidateItem) : outcome RuleError () :=
  match LookupEntry utxoView (PreviousOutPoint (v_txIn txVI)) with
  | None => Err ErrMissingTxOut
  | Some utxo =>
      vm ← underCode ErrScriptMalformed
             (NewEngine (pkScript utxo) (v_tx txVI) (v_txInIndex txVI) flags sigCache (v_sigHashes txVI)
                (amount utxo) (FetchPrevOutput utxoView));
      _ ← underCode ErrScriptValidation (Execute fuel vm);
      Ok ()
  end.

(** Validate, one item after the other. *)
Fixpoint Validate (items : list txValidateItem) : outcome RuleError () :=
  match items with
  | [] => Ok ()
  | item :: items => _ ← validateItem item; Validate items
  end.

(** The error that a call returned, as a value. *)
Definition returned (m : outcome RuleError ()) : outcome RuleError (option RuleError) :=
  match m with Ok _ => Ok None | Err e => Ok (Some e) | Panic => Panic | Hang => Hang end.

(** The items of a transaction: inputs with the index of a coinbase are
    skipped. *)
Fixpoint txItems (tx : MsgTx) (cachedHashes : option TxSigHashes) (i : Z) (ins : list TxIn) : list txValidateItem :=
  match ins with
  | [] => []
  | txIn :: ins =>
      if Wire.Index (PreviousOutPoint txIn) =? MaxUint32 then txItems tx cachedHashes (i + 1) ins
      else mkItem i txIn tx cachedHashes :: txItems tx cachedHashes (i + 1) ins
  end.

Definition segwitActive : bool := Z.land flags ScriptVerifyWitness =? ScriptVerifyWitness.

(** A nil hash cache makes the methods panic. *)
Definition ValidateTransactionScripts (tx : MsgTx) (hashCache : option HashCache)
    : outcome RuleError (option RuleError * option HashCache) :=
  '(cachedHashes, hashCache) ←
    (if segwitActive && HasWitness tx then
       match hashCache with
       | None => Panic
       | Some h =>
           h ← (if ContainsHashes (TxHash tx) h then Ok h else AddSigHashes tx utxoView h);
           Ok (GetSigHashes (TxHash tx) h, Some h)
       end
     else Ok (None, hashCache));
  err ← returned (Validate (txItems tx cachedHashes 0 (TxIns tx)));
  Ok (err, hashCache).

(** The midstates of one transaction of a block: from the cache, put there
    first when they are missing, or computed when there is no cache. *)
Definition blockHashes (tx : MsgTx) (hashCache : option HashCache)
    : outcome RuleError (option TxSigHashes * option HashCache) :=
  if segwitActive && HasWitness tx then
    match hashCache with
    | Some h =>
        h ← (if ContainsHashes (TxHash tx) h then Ok h else AddSigHashes tx utxoView h);
        Ok (GetSigHashes (TxHash tx) h, Some h)
    | None =>
        hashes ← noErr (NewTxSigHashes (FetchPrevOutput utxoView) tx);
        Ok (Some hashes, None)
    end
  else Ok (None, hashCache).

Fixpoint collectItems (txs : list MsgTx) (hashCache : option HashCache)
    : outcome RuleError (list txValidateItem * option HashCache) :=
  match txs with
  | [] => Ok ([], hashCache)
  | tx :: txs =>
      '(cachedHashes, hashCache) ← blockHashes tx hashCache;
      '(items, hashCache) ← collectItems txs hashCache;
      Ok (txItems tx cachedHashes 0 (TxIns tx) ++ items, hashCache)
  end.

Definition purgeBlock (txs : list MsgTx) (h : HashCache) : HashCache :=
  List.fold_left (fun h tx => if HasWitness tx then PurgeSigHashes (TxHash tx) h else h) txs h.

(** The error returned and the hash cache as it is left. *)
Definition checkBlockScripts (block : list MsgTx) (hashCache : option HashCache)
    : outcome RuleError (option RuleError * option HashCache) :=
  '(txValItems, hashCache) ← collectItems block hashCache;
  err ← returned (Validate txValItems);
  Ok (err, match err with
           | None => if segwitActive then option_map (purgeBlock block) hashCache else hashCache
           | Some _ => hashCache
           end).

(** *** Items *)
Lemma validateItem_ok it : validateItem it = Ok () <-> exists utxo vm vm',
  LookupEntry utxoView (PreviousOutPoint (v_txIn it)) = Some utxo /\
  NewEngine (pkScript utxo) (v_tx it) (v_txInIndex it) flags sigCache (v_sigHashes it) (amount utxo)
    (FetchPrevOutput utxoView) = Ok vm /\ Execute fuel vm = Ok vm'.
Proof using.
  unfold validateItem. destruct (LookupEntry _ _) as [utxo|]; [|by split; [|intros (? & ? & ? & ? & _)]].
  destruct (NewEngine _ _ _ _ _ _ _ _) as [vm|e| |] eqn:Hn; cbn [underCode mbind outcome_bind];
    try (split; [done|intros (? & ? & ? & [= <-] & Hn' & _); by rewrite Hn in Hn']).
  destruct (Execute fuel vm) as [vm'|e| |] eqn:He; cbn [underCode mbind outcome_bind];
    try (split; [done|intros (? & ? & ? & [= <-] & Hn' & He'); rewrite Hn in Hn'; injection Hn' as <-; by rewrite He in He']).
  split; [|done]. intros _. by exists utxo, vm, vm'.
Qed.

Lemma Validate_ok items : Validate items = Ok () <-> Forall (fun it => validateItem it = Ok ()) items.
Proof using.
  induction items as [|it items IH]; cbn [Validate]; [done|]. rewrite list.Forall_cons, <- IH.
  destruct (validateItem it) as [[]| | |]; cbn; split; (done || by intros [? ?] || auto).
Qed.

Lemma returned_none m : returned m = Ok None <-> m = Ok ().
Proof using. by destruct m as [[]| | |]. Qed.

(** The machine above, on these items: the sequential reading returns nil
    exactly when the goroutines do. *)
Definition itemError (items : list txValidateItem) (i : nat) : option RuleError :=
  match validateItem <$> items !! i with Some (Err e) => Some e | _ => None end.

Lemma Validate_machine items (Hret : Forall (fun it => returns_or_fails (validateItem it)) items) :
  Validate items = Ok () <-> forall i, (i < List.length items)%nat -> itemError items i = None.
Proof using.
  rewrite Validate_ok, list.Forall_lookup. rewrite list.Forall_lookup in Hret. unfold itemError. split.
  - intros Hall i Hi. destruct (lookup_lt_is_Some_2 items i Hi) as [it Hit]. rewrite Hit. cbn.
    by rewrite (Hall i it Hit).
  - intros Hall i it Hit. specialize (Hall i (lookup_lt_Some _ _ _ Hit)). specialize (Hret i it Hit).
    rewrite Hit in Hall. cbn in Hall. by destruct (validateItem it) as [[]| | |].
Qed.

Lemma elem_of_txItems tx c i0 ins it : it ∈ txItems tx c i0 ins <-> exists k ti,
  ins !! k = Some ti /\ Wire.Index (PreviousOutPoint ti) <> MaxUint32 /\ it = mkItem (i0 + Z.of_nat k) ti tx c.
Proof using.
  revert i0. induction ins as [|ti ins IH]; intros i0; cbn [txItems].
  { split; [by intros ?%not_elem_of_nil|intros (k & ? & Hk & _); by rewrite lookup_nil in Hk]. }
  assert (Hrest : it ∈ txItems tx c (i0 + 1) ins <-> exists k ti', (ti :: ins) !! S k = Some ti' /\
    Wire.Index (PreviousOutPoint ti') <> MaxUint32 /\ it = mkItem (i0 + Z.of_nat (S k)) ti' tx c).
  { rewrite IH. cbn [lookup list_lookup].
    split; intros (k & ti' & Hk & Hi & ->); exists k, ti'; (split_and!; [done|done|f_equal; lia]). }
  destruct (Z.eqb_spec (Wire.Index (PreviousOutPoint ti)) MaxUint32) as [He|He].
  - rewrite Hrest. split; [intros (k & ti' & H); by exists (S k), ti'|].
    intros ([|k] & ti' & Hk & Hi & ->); [injection Hk as ->; done|by exists k, ti'].
  - rewrite list.elem_of_cons, Hrest. split.
    + intros [->|(k & ti' & H)]; [exists 0%nat, ti; split_and!; [done|done|f_equal; lia]|by exists (S k), ti'].
    + intros ([|k] & ti' & Hk & Hi & ->); [left; injection Hk as ->; f_equal; lia|right; by exists k, ti'].
Qed.

(** *** The midstates of a block *)

(** What the midstates of a transaction are when no cache is consulted. *)
Definition computed (tx : MsgTx) : outcome RuleError (option TxSigHashes) :=
  if segwitActive && HasWitness tx then
    hashes ← noErr (NewTxSigHashes (FetchPrevOutput utxoView) tx); Ok (Some hashes)
  else Ok None.

(** What a cache holds for these transactions is what would be computed. *)
Definition coherent (h : option HashCache) (txs : list MsgTx) : Prop :=
  forall c tx m, h = Some c -> tx ∈ txs -> sigHashes c !! TxHash tx = Some m ->
    noErr (NewTxSigHashes (FetchPrevOutput utxoView) tx) = Ok m.

(** Caches that agree outside of some transactions. *)
Definition agree (txs : list MsgTx) (h h' : option HashCache) : Prop :=
  match h, h' with
  | Some c, Some c' => forall txid,
      (forall tx, tx ∈ txs -> HasWitness tx = true -> segwitActive = true -> TxHash tx <> txid) ->
      sigHashes c' !! txid = sigHashes c !! txid
  | None, None => True
  | _, _ => False
  end.

Lemma agree_refl txs h : agree txs h h.
Proof using. by destruct h. Qed.

Lemma blockHashes_spec tx h : coherent h [tx] -> exists h',
  blockHashes tx h = (m ← computed tx; Ok (m, h')) /\ agree [tx] h h'.
Proof using.
  intros Hc. unfold blockHashes, computed. destruct segwitActive eqn:Hs, (HasWitness tx) eqn:Hw; cbn [andb];
    try (exists h; split; [done|apply agree_refl]).
  destruct h as [c|].
  2:{ exists None. split; [|done]. by destruct (noErr _). }
  unfold ContainsHashes, GetSigHashes. destruct (sigHashes c !! TxHash tx) as [m|] eqn:Hm.
  - exists (Some c). split; [|done]. rewrite bool_decide_true by done. rewrite bind_Ok, Hm.
    by rewrite (Hc c tx m eq_refl ltac:(by apply list_elem_of_singleton) Hm).
  - rewrite bool_decide_false by (by intros [? ?]). unfold AddSigHashes.
    destruct (noErr _) as [m|e| |]; cbn [mbind outcome_bind]; try (exists (Some c); split; [done|apply agree_refl]).
    exists (Some (mkHashCache (<[TxHash tx := m]> (sigHashes c)))). split; [cbn [sigHashes]; by rewrite lookup_insert_eq|].
    intros txid Ht. cbn. rewrite lookup_insert_ne; [done|]. apply Ht; [by apply list_elem_of_singleton|done|done].
Qed.

(** The items of a block, given the midstates of its transactions. *)
Definition blockItems (p : list (MsgTx * option TxSigHashes)) : list txValidateItem :=
  concat ((fun '(tx, m) => txItems tx m 0 (TxIns tx)) <$> p).

Fixpoint withMidstates (txs : list MsgTx) : outcome RuleError (list (MsgTx * option TxSigHashes)) :=
  match txs with
  | [] => Ok []
  | tx :: txs => m ← computed tx; rest ← withMidstates txs; Ok ((tx, m) :: rest)
  end.

Lemma coherent_rest tx txs h h' : TxHash tx ∉ TxHash <$> txs -> agree [tx] h h' -> coherent h (tx :: txs) ->
  coherent h' txs.
Proof using.
  intros Hn Ha Hc c' tx' m -> Hin Hm. destruct h as [c|]; [|done]. cbn in Ha.
  apply (Hc c tx' m eq_refl); [by apply list.elem_of_cons; right|]. rewrite <- Ha; [done|].
  intros tx1 ->%list_elem_of_singleton _ _ He. apply Hn. rewrite He. by apply list_elem_of_fmap_2.
Qed.

Lemma agree_trans tx txs h1 h2 h3 : agree [tx] h1 h2 -> agree txs h2 h3 -> agree (tx :: txs) h1 h3.
Proof using.
  destruct h1, h2, h3; cbn; try done. intros H1 H2 txid Ht.
  rewrite H2 by (intros t Hin; apply Ht; by apply list.elem_of_cons; right). apply H1.
  intros t ->%list_elem_of_singleton. apply Ht. by apply list.elem_of_cons; left.
Qed.

Lemma collectItems_spec txs h : NoDup (TxHash <$> txs) -> coherent h txs -> exists h',
  collectItems txs h = (p ← withMidstates txs; Ok (blockItems p, h')) /\ agree txs h h'.
Proof using.
  revert h. induction txs as [|tx txs IH]; intros h Hnd Hc.
  { exists h. split; [done|apply agree_refl]. }
  cbn [fmap list_fmap] in Hnd. apply list.NoDup_cons in Hnd as [Hn Hnd].
  destruct (blockHashes_spec tx h) as (h1 & Hb & Ha).
  { intros c t m Hh ->%list_elem_of_singleton. apply Hc; [done|by apply list.elem_of_cons; left]. }
  destruct (IH h1 Hnd (coherent_rest _ _ _ _ Hn Ha Hc)) as (h2 & Hcol & Ha2).
  cbn [collectItems withMidstates]. rewrite Hb. exists h2. split; [|by eapply agree_trans].
  destruct (computed tx) as [m|e| |]; try done. rewrite !bind_Ok, Hcol.
  by destruct (withMidstates txs) as [p| | |].
Qed.

Lemma withMidstates_ok txs p : withMidstates txs = Ok p <-> Forall2 (fun tx tm => tm.1 = tx /\ computed tx = Ok tm.2) txs p.
Proof using.
  revert p. induction txs as [|tx txs IH]; intros p; cbn [withMidstates].
  { split; [by intros [= <-]|by intros ->%Forall2_nil_inv_l]. }
  split.
  - intros H. destruct (computed tx) as [m| | |] eqn:Hm; try done. cbn in H.
    destruct (withMidstates txs) as [rest| | |]; try done. injection H as <-.
    apply Forall2_cons; [by split|]. by apply IH.
  - intros H. apply Forall2_cons_inv_l in H as ([tx' m] & rest & [Htx Hm] & Hrest & ->). cbn in *. subst tx'.
    apply IH in Hrest. by rewrite Hm, bind_Ok, Hrest.
Qed.

Lemma elem_of_blockItems p it : it ∈ blockItems p <-> exists tx m k ti, (tx, m) ∈ p /\ TxIns tx !! k = Some ti /\
  Wire.Index (PreviousOutPoint ti) <> MaxUint32 /\ it = mkItem (Z.of_nat k) ti tx m.
Proof using.
  unfold blockItems. rewrite list_elem_of_In, in_concat. split.
  - intros (l & Hl & Hin). apply list_elem_of_In, list_elem_of_fmap in Hl as ([tx m] & -> & Hp).
    apply list_elem_of_In, elem_of_txItems in Hin as (k & ti & Hk & Hi & ->). by exists tx, m, k, ti.
  - intros (tx & m & k & ti & Hp & Hk & Hi & ->). exists (txItems tx m 0 (TxIns tx)). split.
    + apply list_elem_of_In, list_elem_of_fmap. by exists (tx, m).
    + apply list_elem_of_In, elem_of_txItems. by exists k, ti.
Qed.

Lemma purgeBlock_lookup txs c txid :
  (forall tx, tx ∈ txs -> HasWitness tx = true -> TxHash tx <> txid) /\
    sigHashes (purgeBlock txs c) !! txid = sigHashes c !! txid \/
  (exists tx, tx ∈ txs /\ HasWitness tx = true /\ TxHash tx = txid) /\ sigHashes (purgeBlock txs c) !! txid = None.
Proof using.
  revert c. induction txs as [|tx txs IH]; intros c.
  { left. split; [|done]. by intros ? ?%not_elem_of_nil. }
  change (purgeBlock (tx :: txs) c)
    with (purgeBlock txs (if HasWitness tx then PurgeSigHashes (TxHash tx) c else c)).
  destruct (HasWitness tx) eqn:Hw; [destruct (decide (TxHash tx = txid)) as [He|He]|].
  - right. split; [exists tx; split_and!; [by apply list.elem_of_cons; left|done|done]|].
    destruct (IH (PurgeSigHashes (TxHash tx) c)) as [[_ ->]|[_ ->]]; [|done]. cbn. rewrite He. apply lookup_delete_eq.
  - destruct (IH (PurgeSigHashes (TxHash tx) c)) as [[Ht ->]|[(t & Ht & Hx) ->]]; [left|right]; (split; [|]).
    + intros t [->|Hin]%list.elem_of_cons; auto.
    + cbn. by rewrite lookup_delete_ne.
    + exists t. split; [by apply list.elem_of_cons; right|done].
    + done.
  - destruct (IH c) as [[Ht ->]|[(t & Ht & Hx) ->]]; [left|right]; (split; [|done]).
    + intros t [->|Hin]%list.elem_of_cons; [by rewrite Hw|auto].
    + exists t. split; [by apply list.elem_of_cons; right|done].
Qed.

(** The script of an input is satisfied. *)
Definition scriptOk (tx : MsgTx) (m : option TxSigHashes) (k : nat) (ti : TxIn) : Prop := exists utxo vm vm',
  LookupEntry utxoView (PreviousOutPoint ti) = Some utxo /\
  NewEngine (pkScript utxo) tx (Z.of_nat k) flags sigCache m (amount utxo) (FetchPrevOutput utxoView) = Ok vm /\
  Execute fuel vm = Ok vm'.

Definition scriptsOk (tx : MsgTx) : Prop := exists m, computed tx = Ok m /\
  forall k ti, TxIns tx !! k = Some ti -> Wire.Index (PreviousOutPoint ti) <> MaxUint32 -> scriptOk tx m k ti.

Lemma items_ok txs p : withMidstates txs = Ok p ->
  Validate (blockItems p) = Ok () <-> Forall scriptsOk txs.
Proof using.
  rewrite withMidstates_ok, Validate_ok, !list.Forall_forall. intros Hp. split.
  - intros Hall tx Hin. apply list_elem_of_lookup in Hin as [i Hi].
    destruct (Forall2_lookup_l _ _ _ _ _ Hp Hi) as ([tx' m] & Hpi & [Heq Hm]). cbn in Heq, Hm. subst tx'. exists m. split; [done|].
    intros k ti Hk Hidx. apply (validateItem_ok (mkItem (Z.of_nat k) ti tx m)), Hall, elem_of_blockItems.
    exists tx, m, k, ti. split_and!; try done. by eapply list_elem_of_lookup_2.
  - intros Hall it (tx & m & k & ti & Hin & Hk & Hidx & ->)%elem_of_blockItems.
    apply list_elem_of_lookup in Hin as [i Hi].
    destruct (Forall2_lookup_r _ _ _ _ _ Hp Hi) as (tx' & Htx & [Heq Hm]). cbn in Heq, Hm. subst tx'.
    destruct (Hall tx (list_elem_of_lookup_2 _ _ _ Htx)) as (m' & Hm' & Hok). rewrite Hm in Hm'. injection Hm' as <-.
    by apply validateItem_ok, Hok.
Qed.

(**  Checking the scripts of a block returns nil exactly when every
    input of its transactions but those with a coinbase's index is present in
    the view and its scripts execute, whatever midstates a coherent hash cache
    held before; a cache is changed at the transactions with witnesses only,
    and after nil their midstates are gone from it. *)
Theorem checkBlockScripts_iff block h (Hnd : NoDup (TxHash <$> block)) (Hc : coherent h block) :
  ((exists h', checkBlockScripts block h = Ok (None, h')) <-> Forall scriptsOk block) /\
  (forall r h', checkBlockScripts block h = Ok (r, h') -> agree block h h' /\
    (r = None -> segwitActive = true -> forall c' tx, h' = Some c' -> tx ∈ block -> HasWitness tx = true ->
     sigHashes c' !! TxHash tx = None)).
Proof using.
  destruct (collectItems_spec block h Hnd Hc) as (h1 & Hcol & Ha). unfold checkBlockScripts. rewrite Hcol. split.
  - split.
    + intros [h' H]. destruct (withMidstates block) as [p| | |] eqn:Hp; try done. cbn in H.
      destruct (returned _) as [[e|]| | |] eqn:Hr; try done. apply (items_ok _ _ Hp). by apply returned_none.
    + intros Hall. assert (exists p, withMidstates block = Ok p) as [p Hp].
      { clear -Hall. induction Hall as [|tx txs (m & Hm & _) _ [p Hp]]; [by eexists|]. exists ((tx, m) :: p). cbn.
        by rewrite Hm, bind_Ok, Hp. }
      rewrite Hp. cbn. rewrite (proj2 (items_ok _ _ Hp) Hall). cbn. by eexists.
  - intros r h' H. destruct (withMidstates block) as [p| | |]; try done. cbn in H.
    destruct (returned _) as [[e|]| | |]; try done; cbn in H; injection H as <- <-; [split; [done|by intros [=]]|].
    destruct segwitActive eqn:Hs; [|by split]. destruct h1 as [c1|]; [|by split]. cbn. split.
    + destruct h as [c|]; [|done]. intros txid Ht. destruct (purgeBlock_lookup block c1 txid) as [[_ ->]|[(t & Hin & Hw & He) _]].
      * apply Ha. auto.
      * by destruct (Ht t Hin Hw Hs).
    + intros _ _ c' tx [= <-] Hin Hw. destruct (purgeBlock_lookup block c1 (TxHash tx)) as [[Ht _]|[_ ->]]; [|done].
      by destruct (Ht tx Hin Hw).
Qed.

End Items.
End Validation.

Module Toy.
Import SigHash.Toy SigCheck.Toy EngineRun.Toy.
#[local] Existing Instance toy_crypto.

(** The spend of the engine's example, in a block of its own. *)
Definition spentOut : OutPoint := match TxIns spend with ti :: _ => PreviousOutPoint ti | [] => mkOutPoint [] 0 end.
Definition view : UtxoViewpoint := mkView {[ spentOut := Some (mkEntry 100 spk 1 0) ]} zeroHash.

Definition isOk {E A} (m : outcome E A) : bool := match m with Ok _ => true | _ => false end.
Lemma isOk_spec {E A} (m : outcome E A) : isOk m = true -> exists a, m = Ok a.
Proof. destruct m; [by eexists|done..]. Qed.

Lemma spend_runs : scriptOk 8 view std None spend None 0 (List.hd (mkTxIn spentOut [] [] 0) (TxIns spend)).
Proof.
  set (m := NewEngine spk spend 0 std None None 100 (FetchPrevOutput view)).
  assert (H : isOk m && isOk (m ≫= Execute 8) = true) by (vm_compute; reflexivity).
  apply andb_true_iff in H as [[vm Hvm]%isOk_spec [vm' Hvm']%isOk_spec]. rewrite Hvm, bind_Ok in Hvm'.
  exists (mkEntry 100 spk 1 0), vm, vm'. split_and!; [by vm_compute|exact Hvm|exact Hvm'].
Qed.

Lemma checkBlockScripts_iff_witness : exists h', checkBlockScripts 8 view std None [spend] None = Ok (None, h').
Proof.
  apply (checkBlockScripts_iff 8 view std None [spend] None).
  - apply (bool_decide_unpack _). by vm_compute.
  - done.
  - apply Forall_cons_2; [|apply Forall_nil_2]. exists None. split; [by vm_compute|].
    intros [|[|k]] ti Hk _; try done. injection Hk as <-. exact spend_runs.
Defined.

(** Three items of which the second is invalid, with two workers. *)
Definition verdictOf (i : nat) : option RuleError := if (i =? 1)%nat then Some ErrScriptValidation else None.

Definition stopped : state := mkState (Returned (Some ErrScriptValidation)) [Ended; Ended].

Lemma run_to_end : nsteps (step 3 verdictOf) 7 (start 2) stopped.
Proof.
  eapply nsteps_l; [apply (step_item 3 verdictOf 0 0 _ 0); (done || lia)|].
  eapply nsteps_l; [apply (step_item 3 verdictOf 1 0 _ 1); (done || lia)|].
  eapply nsteps_l; [by apply (step_validate 3 verdictOf _ _ 1 1)|].
  eapply nsteps_l; [apply (step_invalid 3 verdictOf 2 0 _ 1 1 ErrScriptValidation); (done || lia)|].
  eapply nsteps_l; [by apply (step_validate 3 verdictOf _ _ 0 0)|].
  eapply nsteps_l; [by apply (step_drop 3 verdictOf _ _ 0 0 None)|].
  eapply nsteps_l; [by apply (step_quit 3 verdictOf _ _ 0)|]. apply nsteps_O.
Qed.

Lemma stopped_stuck s' : ~ step 3 verdictOf stopped s'.
Proof. intros H. inversion H; subst; destruct i as [|[|i]]; by cbn in *. Qed.

Lemma txValidator_correct_witness : (7 <= 1 + 3 * 3 + 2)%nat /\ final stopped /\
  exists i, (i < 3)%nat /\ verdictOf i = Some ErrScriptValidation.
Proof.
  destruct (txValidator_correct 3 verdictOf 2 stopped 7 ltac:(lia) run_to_end) as [Hn Hs].
  destruct (Hs stopped_stuck) as (Hf & r & Hr & _ & He). split; [exact Hn|]. split; [exact Hf|].
  injection Hr as <-. by apply He.
Defined.

End Toy.
End ScriptVal.
