(* ===== verification/Deployments.v ===== *)
(** * Deployments of rule changes

    Models coin/OrcaNet/blockchain/thresholdstate.go and versionbits.go with
    the starters and enders of chaincfg/deployment_time_frame.go and the
    deployments of the network of this repository.

    A checker is a record of operations, as the interface of the code is; its
    Condition may use and change a state [S], which is the array of
    deployment caches for the checker of unknown rules.  The theorems say that
    the caches do not change the answers, that a rule never goes back, and
    that two of the network's deployments can never become active. *)

From stdpp Require Import sorting.
From S2P Require Import Prelude Wire SigHash Merkle Difficulty Chain.

Module Deployments.
Import Wire SigHash Merkle Difficulty Chain.

Inductive ThresholdState :=
| ThresholdDefined | ThresholdStarted | ThresholdLockedIn | ThresholdActive | ThresholdFailed.

#[export] Instance ThresholdState_eq_dec : EqDecision ThresholdState.
Proof. solve_decision. Defined.

(** The map of a thresholdStateCache, with Lookup and Update. *)
Abbreviation thresholdStateCache := (gmap (list Z) ThresholdState).

(** ** Starting and ending *)

(** A zero time is [None]; the clock is synchronised when a chain is made. *)
Record MedianTimeDeploymentStarter := mkStarter { startTime : option Z }.
Record MedianTimeDeploymentEnder := mkEnder { endTime : option Z }.

Record ConsensusDeployment := mkDeployment {
  BitNumber : Z;
  MinActivationHeight : Z;
  CustomActivationThreshold : Z;
  DeploymentStarter : MedianTimeDeploymentStarter;
  DeploymentEnder : MedianTimeDeploymentEnder;
}.

Definition DeploymentTestDummy := 0.
Definition DeploymentTestDummyMinActivation := 1.
Definition DeploymentCSV := 2.
Definition DeploymentSegwit := 3.
Definition DeploymentTaproot := 4.

Definition freshNetDeployments : list ConsensusDeployment := [
  mkDeployment 28 0 0 (mkStarter (Some 11991456010)) (mkEnder (Some 1230767999));
  mkDeployment 22 100000 1815 (mkStarter None) (mkEnder None);
  mkDeployment 0 0 0 (mkStarter (Some 1462060800)) (mkEnder (Some 1493596800));
  mkDeployment 1 0 0 (mkStarter (Some 1479168000)) (mkEnder (Some 1510704000));
  mkDeployment 2 709632 1815 (mkStarter (Some 1619222400)) (mkEnder (Some 1628640000))
].

(** The block index: the nodes by their hash. *)
Abbreviation blockIndex := (gmap (list Z) blockNode).
Definition LookupNode (bi : blockIndex) (hash : list Z) : option blockNode := bi !! hash.

Section Hash.
Context {H : Hashes}.

(** An error of the code is [None].  CalcPastMedianTime always has a result. *)
Definition PastMedianTime (bi : blockIndex) (blockHeader : BlockHeader) : option Z :=
  match LookupNode bi (PrevBlock blockHeader) with
  | None => None
  | Some prevNode =>
      match CalcPastMedianTime (newBlockNode blockHeader (Some prevNode)) with
      | Ok t => Some t
      | _ => None
      end
  end.

Definition starterHasStarted (bi : blockIndex) (m : MedianTimeDeploymentStarter) (blkHeader : BlockHeader)
    : option bool :=
  match startTime m with
  | None => Some true
  | Some start =>
      match PastMedianTime bi blkHeader with
      | None => None
      | Some medianTime => Some ((start <? medianTime) || (medianTime =? start))
      end
  end.

Definition enderHasEnded (bi : blockIndex) (m : MedianTimeDeploymentEnder) (blkHeader : BlockHeader)
    : option bool :=
  match endTime m with
  | None => Some false
  | Some end_ =>
      match PastMedianTime bi blkHeader with
      | None => None
      | Some medianTime => Some ((end_ <? medianTime) || (medianTime =? end_))
      end
  end.

(** ** Checkers *)
Record thresholdConditionChecker (S : Type) := mkChecker {
  HasStarted : blockNode -> bool;
  HasEnded : blockNode -> bool;
  activationThreshold : Z;
  confirmationWindow : Z;
  EligibleToActivate : blockNode -> bool;
  IsSpeedy : bool;
  Condition : blockNode -> S -> outcome RuleError (bool * S);
}.
#[global] Arguments mkChecker {S}.
#[global] Arguments HasStarted {S}.
#[global] Arguments HasEnded {S}.
#[global] Arguments activationThreshold {S}.
#[global] Arguments confirmationWindow {S}.
#[global] Arguments EligibleToActivate {S}.
#[global] Arguments IsSpeedy {S}.
#[global] Arguments Condition {S}.

Definition vbTopBits := 0x20000000.
Definition vbTopMask := 0xe0000000.
Definition vbNumBits := 29.

(** The bit of a deployment is set in a version that uses version bits. *)
Definition votes (bit : Z) (node : blockNode) : bool :=
  let conditionMask := u32 (Z.shiftl 1 bit) in
  let version := u32 (version node) in
  (Z.land version vbTopMask =? vbTopBits) && negb (Z.land version conditionMask =? 0).

Section Checkers.
Context (chainParams : Params) (bi : blockIndex).

Definition deploymentChecker {S} (deployment : ConsensusDeployment) : thresholdConditionChecker S := {|
  HasStarted blkNode := default false (starterHasStarted bi (DeploymentStarter deployment) (Header blkNode));
  HasEnded blkNode := default false (enderHasEnded bi (DeploymentEnder deployment) (Header blkNode));
  activationThreshold :=
    if negb (CustomActivationThreshold deployment =? 0) then CustomActivationThreshold deployment
    else RuleChangeActivationThreshold chainParams;
  confirmationWindow := MinerConfirmationWindow chainParams;
  EligibleToActivate blkNode :=
    if MinActivationHeight deployment =? 0 then true
    else MinActivationHeight deployment <=? u32 (u32 (height blkNode) + 1);
  IsSpeedy := negb (MinActivationHeight deployment =? 0) || negb (CustomActivationThreshold deployment =? 0);
  Condition node s := Ok (votes (BitNumber deployment) node, s);
|}.

(** ** The state machine *)
Section Machine.
Context {S : Type} (checker : thresholdConditionChecker S).

(** The votes in the window that ends at [countNode]. *)
Fixpoint countVotes (window : nat) (countNode : option blockNode) (count : Z) (s : S)
    : outcome RuleError (Z * S) :=
  match window with
  | O => Ok (count, s)
  | Datatypes.S window =>
      match countNode with
      | None => Panic
      | Some node =>
          '(condition, s) ← Condition checker node s;
          countVotes window (parent node) (if condition : bool then u32 (count + 1) else count) s
      end
  end.

Definition thresholdStateTransition (state : ThresholdState) (prevNode : blockNode) (window : Z) (s : S)
    : outcome RuleError (ThresholdState * S) :=
  match state with
  | ThresholdDefined =>
      if negb (IsSpeedy checker) && HasEnded checker prevNode then Ok (ThresholdFailed, s)
      else if HasStarted checker prevNode then Ok (ThresholdStarted, s)
      else Ok (state, s)
  | ThresholdStarted =>
      if negb (IsSpeedy checker) && HasEnded checker prevNode then Ok (ThresholdFailed, s)
      else
        '(count, s) ← countVotes (Z.to_nat window) (Some prevNode) 0 s;
        if activationThreshold checker <=? count then Ok (ThresholdLockedIn, s)
        else if IsSpeedy checker && HasEnded checker prevNode then Ok (ThresholdFailed, s)
        else Ok (state, s)
  | ThresholdLockedIn =>
      if negb (EligibleToActivate checker prevNode) then Ok (ThresholdLockedIn, s)
      else Ok (ThresholdActive, s)
  | ThresholdActive => Ok (state, s)
  | ThresholdFailed => Ok (state, s)
  end.

(** Back over the windows to one with a known state: the node it stops at,
    the nodes whose state is needed, the newest first.  A step goes to a lower
    node, so the height of the first bounds their number. *)
Fixpoint walkBack (fuel : nat) (window : Z) (prevNode : option blockNode) (cache : thresholdStateCache)
    : outcome RuleError (option blockNode * list blockNode * thresholdStateCache) :=
  match fuel with
  | O => Hang
  | Datatypes.S fuel =>
      match prevNode with
      | None => Ok (None, [], cache)
      | Some node =>
          match cache !! hash node with
          | Some _ => Ok (prevNode, [], cache)
          | None =>
              if negb (HasStarted checker node)
              then Ok (prevNode, [], <[hash node := ThresholdDefined]> cache)
              else
                '(stop, neededStates, cache) ← walkBack fuel window (RelativeAncestor node window) cache;
                Ok (stop, node :: neededStates, cache)
          end
      end
  end.

(** From the oldest needed node on. *)
Fixpoint advance (neededStates : list blockNode) (window : Z) (state : ThresholdState)
    (cache : thresholdStateCache) (s : S) : outcome RuleError (ThresholdState * thresholdStateCache * S) :=
  match neededStates with
  | [] => Ok (state, cache, s)
  | prevNode :: neededStates =>
      '(state, s) ← thresholdStateTransition state prevNode window s;
      advance neededStates window state (<[hash prevNode := state]> cache) s
  end.

Definition thresholdState (prevNode : option blockNode) (cache : thresholdStateCache) (s : S)
    : outcome RuleError (ThresholdState * thresholdStateCache * S) :=
  let window := i32 (confirmationWindow checker) in
  match prevNode with
  | None => Ok (ThresholdDefined, cache, s)
  | Some node =>
      if i32 (height node + 1) <? window then Ok (ThresholdDefined, cache, s)
      else if window =? 0 then Panic
      else
        let prevNode := Ancestor node (i32 (height node - Z.rem (i32 (height node + 1)) window)) in
        '(stop, neededStates, cache) ← walkBack (Datatypes.S (Datatypes.S (Z.to_nat (height node)))) window prevNode cache;
        state ← match stop with
                | None => Ok ThresholdDefined
                | Some n => match cache !! hash n with Some st => Ok st | None => Err AssertError end
                end;
        advance (rev neededStates) window state cache s
  end.

End Machine.

(** ** The deployments of a chain *)
Context (deployments : list ConsensusDeployment).

Definition deploymentState (prevNode : option blockNode) (deploymentID : Z) (caches : list thresholdStateCache)
    : outcome RuleError (ThresholdState * list thresholdStateCache) :=
  if Zlen deployments <? deploymentID then Err DeploymentError
  else
    deployment ← index deployments deploymentID;
    cache ← index caches deploymentID;
    '(state, cache, _) ← thresholdState (deploymentChecker deployment) prevNode cache ();
    Ok (state, <[Z.to_nat deploymentID := cache]> caches).

Definition IsDeploymentActive (tip : option blockNode) (deploymentID : Z) (caches : list thresholdStateCache)
    : outcome RuleError (bool * list thresholdStateCache) :=
  '(state, caches) ← deploymentState tip deploymentID caches;
  Ok (bool_decide (state = ThresholdActive), caches).

(** The loop of calcNextBlockVersion from the deployment [id] on. *)
Fixpoint versionLoop (prevNode : option blockNode) (id : nat) (rest : list ConsensusDeployment)
    (expectedVersion : Z) (caches : list thresholdStateCache)
    : outcome RuleError (Z * list thresholdStateCache) :=
  match rest with
  | [] => Ok (i32 expectedVersion, caches)
  | deployment :: rest =>
      cache ← index caches (Z.of_nat id);
      '(state, cache, _) ← thresholdState (deploymentChecker deployment) prevNode cache ();
      let caches := <[id := cache]> caches in
      let expectedVersion :=
        if bool_decide (state = ThresholdStarted) || bool_decide (state = ThresholdLockedIn)
        then Z.lor expectedVersion (u32 (Z.shiftl 1 (BitNumber deployment))) else expectedVersion in
      versionLoop prevNode (S id) rest expectedVersion caches
  end.

Definition calcNextBlockVersion (prevNode : option blockNode) (caches : list thresholdStateCache)
    : outcome RuleError (Z * list thresholdStateCache) :=
  versionLoop prevNode 0 deployments vbTopBits caches.

Definition bitConditionChecker (bit : Z) : thresholdConditionChecker (list thresholdStateCache) := {|
  HasStarted _ := true;
  HasEnded _ := false;
  activationThreshold := RuleChangeActivationThreshold chainParams;
  confirmationWindow := MinerConfirmationWindow chainParams;
  EligibleToActivate _ := true;
  IsSpeedy := false;
  Condition node caches :=
    let conditionMask := u32 (Z.shiftl 1 bit) in
    let version := u32 (version node) in
    if negb (Z.land version vbTopMask =? vbTopBits) then Ok (false, caches)
    else if Z.land version conditionMask =? 0 then Ok (false, caches)
    else
      '(expectedVersion, caches) ← calcNextBlockVersion (parent node) caches;
      Ok (Z.land (u32 expectedVersion) conditionMask =? 0, caches);
|}.

(** The loop of warnUnknownRuleActivations; the warnings that are logged are
    left out, but for the flag that they were given. *)
Fixpoint warnLoop (bits : nat) (bit : Z) (prevNode : option blockNode)
    (warningCaches deploymentCaches : list thresholdStateCache) (unknownRulesWarned : bool)
    : outcome RuleError (list thresholdStateCache * list thresholdStateCache * bool) :=
  match bits with
  | O => Ok (warningCaches, deploymentCaches, unknownRulesWarned)
  | S bits =>
      cache ← index warningCaches bit;
      '(state, cache, deploymentCaches) ← thresholdState (bitConditionChecker bit) prevNode cache deploymentCaches;
      warnLoop bits (bit + 1) prevNode (<[Z.to_nat bit := cache]> warningCaches) deploymentCaches
        (unknownRulesWarned || bool_decide (state = ThresholdActive))
  end.

Definition warnUnknownRuleActivations (node : blockNode)
    (warningCaches deploymentCaches : list thresholdStateCache) (unknownRulesWarned : bool)
    : outcome RuleError (list thresholdStateCache * list thresholdStateCache * bool) :=
  warnLoop (Z.to_nat vbNumBits) 0 (parent node) warningCaches deploymentCaches unknownRulesWarned.

Definition newThresholdCaches (numCaches : nat) : list thresholdStateCache := replicate numCaches ∅.

End Checkers.
End Hash.

(** ** The index *)

(** What the block index keeps: nodes under their hash, well formed, with
    their parents. *)
Definition index_ok (bi : blockIndex) : Prop := forall h n, bi !! h = Some n ->
  hash n = h /\ wf n /\ forall p, parent n = Some p -> bi !! hash p = Some p.

Abbreviation indexed bi n := (bi !! hash n = Some n).

Lemma indexed_up bi n m d : index_ok bi -> indexed bi n -> up d n = Some m -> indexed bi m.
Proof.
  intros Hi. revert n. induction d as [|d IH]; intros n Hn; cbn [up]; [by intros [= <-]|].
  destruct (parent n) as [p|] eqn:Hp; [|done]. apply IH. by apply (Hi _ _ Hn).
Qed.

Lemma Ancestor_spec bi n target : index_ok bi -> indexed bi n ->
  match Ancestor n target with
  | Some m => indexed bi m /\ height m = target /\ 0 <= target <= height n
  | None => ~ 0 <= target <= height n
  end.
Proof.
  intros Hi Hn. destruct (Hi _ _ Hn) as (_ & Hw & _). rewrite Ancestor_up by done.
  destruct (Z.leb_spec 0 target), (Z.leb_spec target (height n)); cbn [andb]; try lia.
  destruct (up_ok (Z.to_nat (height n - target)) n Hw) as (m & Hm & _ & Hh); [lia|]. rewrite Hm.
  split; [by eapply indexed_up|lia].
Qed.

Lemma Ancestor_chain n t : wf n -> Ancestor n t
  = if (0 <=? t) && (t <=? height n) then chain n !! Z.to_nat t else None.
Proof.
  intros Hw. rewrite Ancestor_up by done. destruct (Z.leb_spec 0 t), (Z.leb_spec t (height n)); cbn [andb]; try done.
  rewrite up_chain by (done || lia). f_equal. lia.
Qed.

Lemma Ancestor_mem n t m : wf n -> Ancestor n t = Some m -> m ∈ chain n.
Proof. intros Hw. rewrite Ancestor_chain by done. destruct (_ && _); [apply list_elem_of_lookup_2|done]. Qed.

Lemma chain_mem_height n a : wf n -> a ∈ chain n -> height a <= height n.
Proof.
  intros Hw Ha%chain_mem; [|done]. apply lookup_lt_Some in Ha. rewrite chain_length_nat in Ha by done.
  pose proof (wf_height n Hw). lia.
Qed.

Lemma Ancestor_in n a t : wf n -> a ∈ chain n -> t <= height a -> Ancestor a t = Ancestor n t.
Proof.
  intros Hw Ha Ht. destruct (chain_sub n a Hw Ha) as [Hwa [l Hl]]. pose proof (chain_mem_height n a Hw Ha).
  rewrite !Ancestor_chain by done. rewrite !(proj2 (Z.leb_le t _)) by lia. destruct (Z.leb_spec 0 t); [|done]. cbn [andb].
  rewrite Hl, lookup_app_l; [done|]. rewrite chain_length_nat by done. lia.
Qed.

Lemma chain_indexed bi n a : index_ok bi -> indexed bi n -> a ∈ chain n -> indexed bi a.
Proof.
  intros Hi Hn Ha. destruct (Hi _ _ Hn) as (_ & Hw & _). pose proof (chain_mem_height n a Hw Ha).
  destruct (chain_sub n a Hw Ha) as [Hwa _]. pose proof (wf_height a Hwa).
  pose proof (Ancestor_spec bi n (height a) Hi Hn) as Hs. rewrite Ancestor_chain in Hs by done.
  rewrite !(proj2 (Z.leb_le _ _)) in Hs by lia. cbn [andb] in Hs. apply chain_mem in Ha; [|done]. rewrite Ha in Hs. by destruct Hs.
Qed.

(** ** The states without caches *)
Section Spec.
Context {S : Type} (checker : thresholdConditionChecker S).
Abbreviation window := (confirmationWindow checker).
(** What Condition answers, on states that it keeps. *)
Context (bi : blockIndex) (Hbi : index_ok bi) (cond : blockNode -> bool) (I : S -> Prop).
Context (Hwindow : 0 < window < 2 ^ 31).
Context (Hcond : forall n s, indexed bi n -> I s -> exists s', Condition checker n s = Ok (cond n, s') /\ I s').

(** The votes among a node and those before it. *)
Fixpoint votesIn (k : nat) (n : option blockNode) : Z :=
  match k, n with
  | Datatypes.S k, Some m => (if cond m then 1 else 0) + votesIn k (parent m)
  | _, _ => 0
  end.

(** One window later, by the window's last block. *)
Definition next (state : ThresholdState) (n : blockNode) : ThresholdState :=
  match state with
  | ThresholdDefined =>
      if negb (IsSpeedy checker) && HasEnded checker n then ThresholdFailed
      else if HasStarted checker n then ThresholdStarted else ThresholdDefined
  | ThresholdStarted =>
      if negb (IsSpeedy checker) && HasEnded checker n then ThresholdFailed
      else if activationThreshold checker <=? votesIn (Z.to_nat window) (Some n) then ThresholdLockedIn
      else if IsSpeedy checker && HasEnded checker n then ThresholdFailed
      else ThresholdStarted
  | ThresholdLockedIn => if EligibleToActivate checker n then ThresholdActive else ThresholdLockedIn
  | ThresholdActive => ThresholdActive
  | ThresholdFailed => ThresholdFailed
  end.

(** The state after the window that ends with a node. *)
Inductive windowState : option blockNode -> ThresholdState -> Prop :=
| ws_none : windowState None ThresholdDefined
| ws_waiting n : HasStarted checker n = false -> windowState (Some n) ThresholdDefined
| ws_next n state : HasStarted checker n = true -> windowState (RelativeAncestor n window) state ->
    windowState (Some n) (next state n).

Lemma windowState_det p st st' : windowState p st -> windowState p st' -> st = st'.
Proof using.
  intros H. revert st'. induction H as [|n Hn|n st Hn _ IH]; intros st' H'; inversion H'; subst; try done; try congruence.
  f_equal. by apply IH.
Qed.

(** The last node of the last complete window. *)
Definition windowEnd (n : blockNode) : option blockNode :=
  if height n + 1 <? window then None else Ancestor n (height n - (height n + 1) mod window).

Definition coherent (cache : thresholdStateCache) : Prop := forall h st, cache !! h = Some st ->
  exists n, bi !! h = Some n /\ windowState (Some n) st.

Lemma coherent_insert cache n st : indexed bi n -> windowState (Some n) st -> coherent cache ->
  coherent (<[hash n := st]> cache).
Proof using.
  intros Hn Hst Hc h st'. destruct (decide (h = hash n)) as [->|Hne].
  - rewrite lookup_insert_eq. intros [= <-]. by exists n.
  - rewrite lookup_insert_ne by done. apply Hc.
Qed.

Lemma coherent_hit cache n st : indexed bi n -> coherent cache -> cache !! hash n = Some st -> windowState (Some n) st.
Proof using. intros Hn Hc Hst. destruct (Hc _ _ Hst) as (m & Hm & Hs). congruence. Qed.

Lemma votesIn_range k n : 0 <= votesIn k n <= Z.of_nat k.
Proof using. revert n. induction k as [|k IH]; intros [n|]; cbn [votesIn]; try lia. specialize (IH (parent n)). destruct (cond n); lia. Qed.

Lemma countVotes_spec k : forall n count s, indexed bi n -> I s -> Z.of_nat k <= height n + 1 ->
  0 <= count -> count + Z.of_nat k < 2 ^ 32 ->
  exists s', countVotes checker k (Some n) count s = Ok (count + votesIn k (Some n), s') /\ I s'.
Proof using Hbi Hcond.
  induction k as [|k IH]; intros n count s Hn Hs Hk Hc Hb; cbn [countVotes votesIn].
  { exists s. split; [do 2 f_equal; lia|done]. }
  destruct (Hcond n s Hn Hs) as (s1 & -> & Hs1). rewrite bind_Ok. destruct (Hbi _ _ Hn) as (_ & Hw & Hp).
  set (c := if cond n then u32 (count + 1) else count).
  assert (Hcv : c = count + (if cond n then 1 else 0)) by (unfold c; destruct (cond n); [rewrite u32_small by lia|]; lia).
  rewrite Hcv. destruct k as [|k].
  { exists s1. split; [|done]. cbn. do 2 f_equal. destruct (cond n); lia. }
  destruct (parent n) as [p|] eqn:Hpar; [|pose proof (wf_root n Hw Hpar); lia].
  destruct (wf_parent n p Hw Hpar) as [_ Hh].
  destruct (IH p (count + (if cond n then 1 else 0)) s1 (Hp p eq_refl) Hs1) as (s2 & -> & Hs2); [lia|destruct (cond n); lia..|].
  exists s2. split; [|done]. do 2 f_equal. lia.
Qed.

Lemma transition_spec state n s : indexed bi n -> I s -> window <= height n + 1 ->
  exists s', thresholdStateTransition checker state n window s = Ok (next state n, s') /\ I s'.
Proof using Hbi Hcond Hwindow.
  intros Hn Hs Hh. destruct state; cbn [thresholdStateTransition next]; try (by exists s).
  - destruct (negb _ && _); [by exists s|]. destruct (HasStarted checker n); by exists s.
  - destruct (negb _ && _); [by exists s|].
    destruct (countVotes_spec (Z.to_nat window) n 0 s Hn Hs) as (s1 & -> & Hs1); [lia..|]. rewrite bind_Ok, Z.add_0_l.
    exists s1. split; [|done]. destruct (_ <=? _); [done|]. by destruct (_ && _).
  - exists s. split; [|done]. by destruct (EligibleToActivate checker n).
Qed.

(** *** The walk over the windows *)
Definition ends (n : blockNode) : Prop := (height n + 1) mod window = 0.

Lemma ends_height n : indexed bi n -> ends n -> window <= height n + 1.
Proof using Hbi Hwindow.
  intros Hn He. destruct (Hbi _ _ Hn) as (_ & Hw & _). pose proof (wf_height n Hw).
  apply Z.mod_divide in He as [k Hk]; [|lia]. assert (0 < k) by nia. nia.
Qed.

Lemma rel_ends n m : indexed bi n -> ends n -> RelativeAncestor n window = Some m ->
  indexed bi m /\ ends m /\ height m < height n.
Proof using Hbi Hwindow.
  intros Hn He Hm. destruct (Hbi _ _ Hn) as (_ & Hw & _). pose proof (wf_height n Hw). unfold RelativeAncestor in Hm.
  rewrite i32_small in Hm by lia. pose proof (Ancestor_spec bi n (height n - window) Hbi Hn) as Ha. rewrite Hm in Ha.
  destruct Ha as (Hi & Hh & _). split_and!; [done| |lia]. unfold ends in *. rewrite Hh.
  replace (height n - window + 1) with (height n + 1 + (-1) * window) by lia. by rewrite Z.mod_add by lia.
Qed.

(** The needed nodes lead from a node back to the one with a known state. *)
Inductive linked : option blockNode -> list blockNode -> option blockNode -> Prop :=
| linked_end p : linked p [] p
| linked_more n l stop : indexed bi n -> ends n -> HasStarted checker n = true ->
    linked (RelativeAncestor n window) l stop -> linked (Some n) (n :: l) stop.

Lemma walkBack_spec fuel : forall p cache,
  (forall n, p = Some n -> indexed bi n /\ ends n /\ height n + 1 < Z.of_nat fuel) ->
  (0 < fuel)%nat -> coherent cache ->
  exists stop needed cache', walkBack checker fuel window p cache = Ok (stop, needed, cache') /\
    linked p needed stop /\ coherent cache' /\
    forall n, stop = Some n -> indexed bi n /\ exists st, cache' !! hash n = Some st.
Proof using Hbi Hwindow.
  induction fuel as [|fuel IH]; intros p cache Hp Hf Hc; [lia|]. cbn [walkBack]. destruct p as [n|].
  2:{ exists None, [], cache. split_and!; [done|constructor|done|by intros ? [=]]. }
  destruct (Hp n eq_refl) as (Hn & He & Hh). destruct (cache !! hash n) as [st|] eqn:Hst.
  { exists (Some n), [], cache. split_and!; [done|constructor|done|intros ? [= <-]; split; [done|by exists st]]. }
  destruct (HasStarted checker n) eqn:Hs; cbn [negb].
  - destruct (IH (RelativeAncestor n window) cache) as (stop & needed & cache' & Hw & Hl & Hc' & Hstop).
    + intros m Hm. destruct (rel_ends n m Hn He Hm) as (? & ? & ?). split_and!; [done|done|lia].
    + destruct (Hbi _ _ Hn) as (_ & Hwf & _). pose proof (wf_height n Hwf). lia.
    + done.
    + rewrite Hw. exists stop, (n :: needed), cache'. split_and!; [done|by constructor|done|done].
  - exists (Some n), [], (<[hash n := ThresholdDefined]> cache). split_and!; [done|constructor| |].
    + apply coherent_insert; [done|by constructor|done].
    + intros ? [= <-]. split; [done|]. rewrite lookup_insert_eq. by eexists.
Qed.

Lemma advance_app l l' st cache s : advance checker (l ++ l') window st cache s
  = ('(st, cache, s) ← advance checker l window st cache s; advance checker l' window st cache s).
Proof using.
  revert st cache s. induction l as [|n l IH]; intros st cache s; [done|]. cbn [app advance].
  destruct (thresholdStateTransition _ _ _ _ _) as [[st' s']| | |]; try done. rewrite !bind_Ok. apply IH.
Qed.

Lemma advance_spec p l stop st cache s : linked p l stop -> windowState stop st -> coherent cache -> I s ->
  exists st' cache' s', advance checker (rev l) window st cache s = Ok (st', cache', s') /\
    windowState p st' /\ coherent cache' /\ I s'.
Proof using Hbi Hcond Hwindow.
  intros Hl Hst Hc Hs. induction Hl as [p|n l stop Hn He Hstart Hl IH]; [by exists st, cache, s|].
  destruct (IH Hst) as (st1 & c1 & s1 & Ha & Hst1 & Hc1 & Hs1). cbn [rev]. rewrite advance_app, Ha, bind_Ok. cbn [advance].
  destruct (transition_spec st1 n s1 Hn Hs1 (ends_height n Hn He)) as (s2 & -> & Hs2). rewrite bind_Ok.
  assert (Hw : windowState (Some n) (next st1 n)) by (by constructor).
  exists (next st1 n), (<[hash n := next st1 n]> c1), s2. split_and!; try done. by apply coherent_insert.
Qed.

Lemma windowEnd_ok n m : indexed bi n -> windowEnd n = Some m -> indexed bi m /\ ends m /\ height m <= height n.
Proof using Hbi Hwindow.
  intros Hn Hm. destruct (Hbi _ _ Hn) as (_ & Hw & _). pose proof (wf_height n Hw). unfold windowEnd in Hm.
  destruct (Z.ltb_spec (height n + 1) window); [done|].
  pose proof (Ancestor_spec bi n (height n - (height n + 1) mod window) Hbi Hn) as Ha. rewrite Hm in Ha.
  destruct Ha as (Hi & Hh & _). pose proof (Z.mod_pos_bound (height n + 1) window ltac:(lia)). split_and!; [done| |lia].
  unfold ends. rewrite Hh. pose proof (Z.div_mod (height n + 1) window ltac:(lia)).
  replace (height n - (height n + 1) mod window + 1) with (0 + (height n + 1) / window * window) by lia.
  by rewrite Z.mod_add by lia.
Qed.

(** thresholdState is the state after the last complete window, whatever the
    cache knew. *)
Lemma thresholdState_spec n cache s : indexed bi n -> height n < 2 ^ 31 - 1 -> coherent cache -> I s ->
  exists st cache' s', thresholdState checker (Some n) cache s = Ok (st, cache', s') /\
    windowState (windowEnd n) st /\ coherent cache' /\ I s'.
Proof using Hbi Hcond Hwindow.
  intros Hn Hlt Hc Hs. destruct (Hbi _ _ Hn) as (_ & Hw & _). pose proof (wf_height n Hw) as Hh.
  pose proof (windowEnd_ok n) as Hend. unfold thresholdState, windowEnd in *.
  rewrite (i32_small window), (i32_small (height n + 1)) by lia.
  destruct (Z.ltb_spec (height n + 1) window).
  { exists ThresholdDefined, cache, s. split_and!; [done|constructor|done|done]. }
  rewrite (proj2 (Z.eqb_neq _ _)), Z.rem_mod_nonneg by lia.
  pose proof (Z.mod_pos_bound (height n + 1) window ltac:(lia)). rewrite i32_small by lia.
  set (p := Ancestor n _) in *.
  destruct (walkBack_spec (Datatypes.S (Datatypes.S (Z.to_nat (height n)))) p cache) as (stop & needed & c1 & Hwalk & Hl & Hc1 & Hstop).
  { intros m Hm. destruct (Hend m Hn Hm) as (? & ? & ?). split_and!; [done|done|lia]. }
  { lia. }
  { done. }
  rewrite Hwalk, bind_Ok.
  assert (exists st0, windowState stop st0 /\
    (match stop with None => Ok ThresholdDefined
     | Some n => match c1 !! hash n with Some st => Ok st | None => Err AssertError end end) = @Ok RuleError _ st0)
    as (st0 & Hst0 & ->).
  { destruct stop as [m|]; [|exists ThresholdDefined; split; [constructor|done]].
    destruct (Hstop m eq_refl) as (Hm & st & Hst). exists st. rewrite Hst. split; [|done]. by eapply coherent_hit. }
  rewrite bind_Ok. destruct (advance_spec p needed stop st0 c1 s Hl Hst0 Hc1 Hs) as (st & c2 & s2 & Ha & Hst & Hc2 & Hs2).
  by exists st, c2, s2.
Qed.

(** *** The order of the states *)
Inductive later : ThresholdState -> ThresholdState -> Prop :=
| later_refl st : later st st
| later_started : later ThresholdDefined ThresholdStarted
| later_failed : later ThresholdDefined ThresholdFailed
| later_locked : later ThresholdStarted ThresholdLockedIn
| later_expired : later ThresholdStarted ThresholdFailed
| later_active : later ThresholdLockedIn ThresholdActive.

Lemma next_later st n : later st (next st n).
Proof using. destruct st; cbn [next]; repeat case_match; constructor. Qed.

(** A chain of nodes on which a rule that has started stays started. *)
Section Progress.
Context (n : blockNode) (Hn : indexed bi n).
Context (Hmono : forall a b, a ∈ chain n -> b ∈ chain n -> height a <= height b ->
  HasStarted checker a = true -> HasStarted checker b = true).

Abbreviation endNode k := (Ancestor n (k * window - 1)).

Lemma windowEnd_node a : a ∈ chain n -> windowEnd a = endNode ((height a + 1) / window).
Proof using Hbi Hn Hwindow.
  intros Ha. destruct (Hbi _ _ Hn) as (_ & Hw & _). destruct (chain_sub n a Hw Ha) as [Hwa _]. pose proof (wf_height a Hwa).
  unfold windowEnd. pose proof (Z.div_mod (height a + 1) window ltac:(lia)).
  pose proof (Z.mod_pos_bound (height a + 1) window ltac:(lia)). destruct (Z.ltb_spec (height a + 1) window).
  - rewrite Z.div_small by lia. done.
  - rewrite (Ancestor_in n a) by (done || lia). f_equal. lia.
Qed.

Lemma endNode_before k m : 0 <= k -> endNode (k + 1) = Some m ->
  m ∈ chain n /\ height m = (k + 1) * window - 1 /\ RelativeAncestor m window = endNode k.
Proof using Hbi Hn Hwindow.
  intros Hk Hm. destruct (Hbi _ _ Hn) as (_ & Hw & _). pose proof (Ancestor_spec bi n ((k + 1) * window - 1) Hbi Hn) as Ha.
  rewrite Hm in Ha. destruct Ha as (_ & Hh & Hr). pose proof (wf_height n Hw).
  assert (Hin : m ∈ chain n) by (by eapply Ancestor_mem). split_and!; [done|done|].
  unfold RelativeAncestor. rewrite i32_small, (Ancestor_in n m) by (done || nia). f_equal. nia.
Qed.

Lemma progress j : forall k st, 0 <= k -> (k + Z.of_nat j) * window - 1 <= height n ->
  windowState (endNode k) st ->
  exists st', windowState (endNode (k + Z.of_nat j)) st' /\ rtc later st st'.
Proof using Hbi Hn Hwindow Hmono.
  destruct (Hbi _ _ Hn) as (_ & Hw & _).
  induction j as [|j IH]; intros k st Hk Hj Hst; [exists st; rewrite Z.add_0_r; by split|].
  pose proof (Ancestor_spec bi n ((k + 1) * window - 1) Hbi Hn) as Ha. destruct (endNode (k + 1)) as [m|] eqn:Hm; [|nia].
  destruct (endNode_before k m Hk Hm) as (Hin & Hh & Hrel).
  assert (exists st1, windowState (endNode (k + 1)) st1 /\ later st st1) as (st1 & Hst1 & Hl).
  { rewrite Hm. destruct (HasStarted checker m) eqn:Hs.
    - exists (next st m). split; [|apply next_later]. constructor; [done|]. by rewrite Hrel.
    - exists ThresholdDefined. split; [by constructor|]. inversion Hst as [Hp|a Ha' Hp|a st0 Ha' Hprev Hp]; subst; [constructor..|].
      exfalso. assert (a ∈ chain n /\ height a <= height m) as [Hina Hle].
      { pose proof (Ancestor_spec bi n (k * window - 1) Hbi Hn) as Hx. rewrite <- Hp in Hx. destruct Hx as (_ & Hx & _).
        split; [by apply (Ancestor_mem n _ a Hw (eq_sym Hp))|nia]. }
      rewrite (Hmono a m) in Hs by done. done. }
  destruct (IH (k + 1) st1) as (st' & Hst' & Hl'); [lia|nia|done|].
  exists st'. replace (k + Z.of_nat (Datatypes.S j)) with (k + 1 + Z.of_nat j) by lia. split; [done|]. by eapply rtc_l.
Qed.

(** Later on the chain, the state is the same or a later one. *)
Lemma states_progress a b st st' : a ∈ chain n -> b ∈ chain n -> height a <= height b ->
  windowState (windowEnd a) st -> windowState (windowEnd b) st' -> rtc later st st'.
Proof using Hbi Hn Hwindow Hmono.
  intros Ha Hb Hle. destruct (Hbi _ _ Hn) as (_ & Hw & _). destruct (chain_sub n a Hw Ha) as [Hwa _].
  destruct (chain_sub n b Hw Hb) as [Hwb _]. pose proof (wf_height a Hwa). pose proof (chain_mem_height n b Hw Hb).
  rewrite !windowEnd_node by done. intros Hst Hst'.
  assert (Hk : 0 <= (height a + 1) / window) by (apply Z.div_pos; lia).
  assert (Hkk : (height a + 1) / window <= (height b + 1) / window) by (apply Z.div_le_mono; lia).
  pose proof (Z.mul_div_le (height b + 1) window ltac:(lia)).
  destruct (progress (Z.to_nat ((height b + 1) / window - (height a + 1) / window)) ((height a + 1) / window) st Hk)
    as (st2 & Hst2 & Hl); [nia|done|].
  replace ((height a + 1) / window + _) with ((height b + 1) / window) in Hst2 by lia.
  by rewrite (windowState_det _ _ _ Hst' Hst2).
Qed.

End Progress.

Lemma later_final st st' : rtc later st st' -> st = ThresholdActive \/ st = ThresholdFailed -> st' = st.
Proof using. induction 1 as [|x y z Hxy _ IH]; [done|]. intros [->| ->]; inversion Hxy; subst; auto. Qed.

End Spec.
(** *** Times along a chain *)

(** The header check of the code: a block is later than the median before it. *)
Definition times_ok (n : blockNode) : Prop := forall q p m, q ∈ chain n -> parent q = Some p ->
  CalcPastMedianTime p = Ok m -> m < timestamp q.

Lemma chain_order n a b : wf n -> a ∈ chain n -> b ∈ chain n -> height a <= height b -> a ∈ chain b.
Proof.
  intros Hw Ha Hb Hle. destruct (chain_sub n b Hw Hb) as [Hwb [l Hl]]. destruct (chain_sub n a Hw Ha) as [Hwa _].
  pose proof (wf_height a Hwa). apply chain_mem in Ha; [|done]. apply chain_mem; [done|].
  rewrite Hl, lookup_app_l in Ha; [done|]. rewrite chain_length_nat by done. lia.
Qed.

Lemma median_le n a b : wf n -> times_ok n -> a ∈ chain n -> b ∈ chain n -> height a <= height b ->
  exists ta tb, CalcPastMedianTime a = Ok ta /\ CalcPastMedianTime b = Ok tb /\ ta <= tb.
Proof.
  intros Hw Ht Ha Hb Hle. destruct (chain_sub n b Hw Hb) as [Hwb [l Hl]].
  destruct (median_time_monotone b) as (tb & Htb & Hall).
  { intros q p m Hq. apply Ht. rewrite Hl. apply elem_of_app. by left. }
  destruct (Hall a (chain_order n a b Hw Ha Hb Hle)) as (ta & Hta & ?). by exists ta, tb.
Qed.

Lemma PastMedianTime_node {H : Hashes} bi n t : index_ok bi -> bi !! zeroHash = None -> indexed bi n ->
  PastMedianTime bi (Header n) = Some t <-> is_Some (parent n) /\ CalcPastMedianTime n = Ok t.
Proof.
  intros Hbi Hz Hn. destruct (Hbi _ _ Hn) as (_ & _ & Hp). unfold PastMedianTime, LookupNode, Header. cbn [PrevBlock].
  destruct (parent n) as [p|] eqn:Hpar.
  - rewrite (Hp p eq_refl).
    assert (Hm : CalcPastMedianTime (newBlockNode (Header n) (Some p)) = CalcPastMedianTime n).
    { unfold CalcPastMedianTime. cbn [pastTimestamps medianTimeBlocks newBlockNode timestamp parent Header Wire.Timestamp].
      by rewrite Hpar. }
    unfold Header in Hm. rewrite Hpar in Hm. rewrite Hm. destruct (CalcPastMedianTime n) as [v|e| |]; split;
      (done || (by intros [_ [=]]) || (intros [= <-]; by split) || (by intros [_ [= <-]])).
  - rewrite Hz. split; [done|]. by intros [[? [=]] _].
Qed.

(** ** The checkers of the chain *)
Section ChainSpec.
Context {H : Hashes} (chainParams : Params) (bi : blockIndex) (deployments : list ConsensusDeployment).
Context (Hbi : index_ok bi) (Hwindow : 0 < MinerConfirmationWindow chainParams < 2 ^ 31).

Abbreviation checkerOf d := (deploymentChecker (S := unit) chainParams bi d).

(** The state of a deployment for the block after a node. *)
Definition stateAfter (d : ConsensusDeployment) (p : option blockNode) (st : ThresholdState) : Prop :=
  match p with
  | None => st = ThresholdDefined
  | Some n => windowState (checkerOf d) (votes (BitNumber d)) (windowEnd (checkerOf d) n) st
  end.

(** A place to stand: the start, or an indexed node that may have a child. *)
Definition place (p : option blockNode) : Prop :=
  match p with None => True | Some n => indexed bi n /\ height n < 2 ^ 31 - 1 end.

(** Every cache of the array tells what its deployment's states are. *)
Definition caches_ok (caches : list thresholdStateCache) : Prop :=
  Forall2 (fun d cache => coherent (checkerOf d) bi (votes (BitNumber d)) cache) deployments caches.

Lemma caches_ok_new : caches_ok (newThresholdCaches (List.length deployments)).
Proof using.
  unfold caches_ok, newThresholdCaches. induction deployments as [|d ds IH]; cbn; [done|].
  apply Forall2_cons; [|done]. intros h st. by rewrite lookup_empty.
Qed.

Lemma deployment_state d p cache : place p -> coherent (checkerOf d) bi (votes (BitNumber d)) cache ->
  exists st cache', thresholdState (checkerOf d) p cache () = Ok (st, cache', ()) /\
    stateAfter d p st /\ coherent (checkerOf d) bi (votes (BitNumber d)) cache'.
Proof using Hbi Hwindow.
  destruct p as [n|]; [|by intros _ Hc; exists ThresholdDefined, cache]. intros [Hn Hh] Hc.
  destruct (thresholdState_spec (checkerOf d) bi Hbi (votes (BitNumber d)) (fun _ => True)) with (n := n) (cache := cache) (s := ())
    as (st & cache' & [] & Ht & Hst & Hc' & _); try done.
  - intros m [] _ _. by exists ().
  - by exists st, cache'.
Qed.

Lemma deploymentState_ok p id caches d : place p -> caches_ok caches ->
  deployments !! Z.to_nat id = Some d -> 0 <= id ->
  exists st caches', deploymentState chainParams bi deployments p id caches = Ok (st, caches') /\
    stateAfter d p st /\ caches_ok caches'.
Proof using Hbi Hwindow.
  intros Hp Hc Hd Hid. unfold deploymentState. pose proof (lookup_lt_Some _ _ _ Hd).
  rewrite (proj2 (Z.ltb_ge _ _)) by (unfold Zlen; lia).
  destruct (Forall2_lookup_l _ _ _ _ _ Hc Hd) as (cache & Hcache & Hco).
  rewrite (proj2 (index_ok_iff deployments id d)), bind_Ok by (split; [lia|done]).
  rewrite (proj2 (index_ok_iff caches id cache)), bind_Ok by (split; [lia|done]).
  destruct (deployment_state d p cache Hp Hco) as (st & cache' & -> & Hst & Hco'). rewrite bind_Ok.
  exists st, (<[Z.to_nat id := cache']> caches). split_and!; [done|done|].
  unfold caches_ok. rewrite <- (list_insert_id deployments (Z.to_nat id) d Hd). by apply Forall2_insert.
Qed.

Lemma stateAfter_det d p st st' : stateAfter d p st -> stateAfter d p st' -> st = st'.
Proof using. destruct p; cbn; [by apply windowState_det|congruence]. Qed.

(** C18.  The state of a deployment that deploymentState gives, and that the
    caches keep, is the state that the rule change state machine reaches
    window by window, whatever was cached before. *)
Theorem deploymentState_spec p id caches d : place p -> caches_ok caches ->
  deployments !! Z.to_nat id = Some d -> 0 <= id ->
  exists st caches', deploymentState chainParams bi deployments p id caches = Ok (st, caches') /\
    (forall st', stateAfter d p st' <-> st' = st) /\ caches_ok caches'.
Proof using Hbi Hwindow.
  intros Hp Hc Hd Hid. destruct (deploymentState_ok p id caches d Hp Hc Hd Hid) as (st & caches' & Heq & Hst & Hc').
  exists st, caches'. split_and!; [done| |done]. intros st'. split; [|by intros ->].
  intros Hst'. by eapply stateAfter_det.
Qed.

(** The deployments that are being voted on or are locked in. *)
Definition signalled (d : ConsensusDeployment) (p : option blockNode) : Prop :=
  stateAfter d p ThresholdStarted \/ stateAfter d p ThresholdLockedIn.

Lemma versionLoop_spec p rest : forall pre ev caches, place p -> deployments = pre ++ rest -> caches_ok caches ->
  Forall (fun d => 0 <= BitNumber d < vbNumBits) rest -> 0 <= ev < 2 ^ 30 ->
  exists v caches', versionLoop chainParams bi p (List.length pre) rest ev caches = Ok (v, caches') /\
    caches_ok caches' /\ 0 <= v < 2 ^ 30 /\
    forall b, 0 <= b -> Z.testbit v b = true <->
      Z.testbit ev b = true \/ exists d, d ∈ rest /\ BitNumber d = b /\ signalled d p.
Proof using Hbi Hwindow.
  induction rest as [|d rest IH]; intros pre ev caches Hp Hpre Hc Hbits Hev; cbn [versionLoop].
  { exists ev, caches. rewrite i32_small by lia. split_and!; [done|done|lia|lia|].
    intros b Hb. split; [by left|]. by intros [|(d & Hd%not_elem_of_nil & _)]. }
  apply list.Forall_cons in Hbits as [Hbit Hbits].
  assert (Hd : deployments !! List.length pre = Some d) by (rewrite Hpre; by apply list_lookup_middle).
  destruct (Forall2_lookup_l _ _ _ _ _ Hc Hd) as (cache & Hcache & Hco).
  rewrite (proj2 (index_ok_iff caches _ cache)), bind_Ok by (rewrite Nat2Z.id; split; [lia|done]).
  destruct (deployment_state d p cache Hp Hco) as (st & cache' & -> & Hst & Hco'). rewrite bind_Ok.
  set (caches1 := <[List.length pre := cache']> caches).
  assert (Hc1 : caches_ok caches1).
  { unfold caches_ok. rewrite <- (list_insert_id deployments (List.length pre) d Hd). by apply Forall2_insert. }
  set (sig := bool_decide (st = ThresholdStarted) || bool_decide (st = ThresholdLockedIn)).
  assert (Hsig : sig = true <-> signalled d p).
  { unfold sig, signalled. rewrite orb_true_iff, !bool_decide_eq_true. split.
    - intros [->| ->]; auto.
    - intros [Hs|Hs]; [left|right]; by eapply stateAfter_det. }
  set (ev' := if sig then _ else ev).
  assert (Hmask : u32 (Z.shiftl 1 (BitNumber d)) = 2 ^ BitNumber d).
  { unfold vbNumBits in Hbit. rewrite Z.shiftl_1_l, u32_small; [done|]. split; [by apply Z.pow_nonneg|].
    apply Z.pow_lt_mono_r; lia. }
  assert (Hbit' : forall b, 0 <= b -> Z.testbit ev' b = true <-> Z.testbit ev b = true \/ (BitNumber d = b /\ signalled d p)).
  { intros b Hb. unfold ev'. rewrite Hmask, <- Hsig. destruct sig; [|split; [by left|by intros [|[_ [=]]]]].
    rewrite Z.lor_spec, orb_true_iff, Z.pow2_bits_eqb, Z.eqb_eq by lia. split; [intros [|]; auto|intros [|[? _]]; auto]. }
  assert (Hev' : 0 <= ev' < 2 ^ 30).
  { unfold ev'. rewrite Hmask. destruct sig; [|lia]. unfold vbNumBits in Hbit.
    assert (0 <= 2 ^ BitNumber d < 2 ^ 30) by (split; [by apply Z.pow_nonneg|apply Z.pow_lt_mono_r; lia]).
    split; [apply Z.lor_nonneg; lia|].
    destruct (Z.eq_dec (Z.lor ev (2 ^ BitNumber d)) 0) as [->|]; [lia|]. pose proof (proj2 (Z.lor_nonneg ev (2 ^ BitNumber d)) ltac:(lia)).
    apply Z.log2_lt_pow2; [lia|]. rewrite Z.log2_lor by lia. apply Z.max_lub_lt; [|rewrite Z.log2_pow2 by lia; lia].
    destruct (Z.eq_dec ev 0) as [->|]; [done|apply Z.log2_lt_pow2; lia]. }
  destruct (IH (pre ++ [d]) ev' caches1) as (v & caches' & Hv & Hc' & Hr & Hvb); try done.
  { by rewrite <- app_assoc. }
  rewrite length_app, Nat.add_1_r in Hv. exists v, caches'. split_and!; [done|done|lia|lia|].
  intros b Hb. rewrite Hvb, Hbit' by done. split.
  - intros [[Ht|[He Hs]]|(d' & Hd' & He & Hs)]; [by left|right..].
    + exists d. split_and!; [by apply list.elem_of_cons; left|done|done].
    + exists d'. split_and!; [by apply list.elem_of_cons; right|done|done].
  - intros [Ht|(d' & [->|Hd']%list.elem_of_cons & He & Hs)]; [by left; left|by left; right|].
    right. by exists d'.
Qed.

(**  The version that the next block is expected to have: the version
    bits marker, and the bits of just the deployments that are being voted on
    or are locked in. *)
Theorem calcNextBlockVersion_spec p caches : place p -> caches_ok caches ->
  Forall (fun d => 0 <= BitNumber d < vbNumBits) deployments ->
  exists v caches', calcNextBlockVersion chainParams bi deployments p caches = Ok (v, caches') /\
    caches_ok caches' /\ Z.land v vbTopMask = vbTopBits /\
    forall b, 0 <= b < vbNumBits -> Z.testbit v b = true <->
      exists d, d ∈ deployments /\ BitNumber d = b /\ signalled d p.
Proof using Hbi Hwindow.
  intros Hp Hc Hbits. destruct (versionLoop_spec p deployments [] vbTopBits caches Hp eq_refl Hc Hbits) as
    (v & caches' & Hv & Hc' & Hr & Hvb); [by unfold vbTopBits|].
  exists v, caches'. split_and!; [done|done| |].
  - assert (H29 : v / 2 ^ 29 = 1).
    { pose proof (proj2 (Hvb 29 ltac:(lia)) (or_introl eq_refl)) as Ht. rewrite Z.testbit_eqb, Z.eqb_eq in Ht by lia.
      assert (0 <= v / 2 ^ 29 < 2) by (split; [apply Z.div_pos; lia|apply Z.div_lt_upper_bound; lia]). 
      destruct (Z.eq_dec (v / 2 ^ 29) 0) as [Hz|]; [by rewrite Hz in Ht|lia]. }
    change vbTopMask with (Z.shiftl 7 29). change vbTopBits with (Z.shiftl 1 29). apply Z.bits_inj'. intros b Hb.
    rewrite Z.land_spec, !Z.shiftl_spec by lia. destruct (Z.ltb_spec b 29) as [Hlt|Hge].
    { by rewrite !(Z.testbit_neg_r _ (b - 29)), andb_false_r by lia. }
    replace b with (b - 29 + 29) at 1 by lia. rewrite <- (Z.shiftr_spec v 29 (b - 29)), Z.shiftr_div_pow2, H29 by lia.
    rewrite <- Z.land_spec. done.
  - intros b Hb. rewrite Hvb by lia. split; [|by right]. intros [Ht|]; [|done]. exfalso.
    change vbTopBits with (2 ^ 29) in Ht. rewrite Z.pow2_bits_eqb, Z.eqb_eq in Ht by lia. unfold vbNumBits in Hb. lia.
Qed.

(** *** The warnings *)

Context (Hbits : Forall (fun d => 0 <= BitNumber d < vbNumBits) deployments).

(** The bits of the version expected after a node depend on the node only. *)
Lemma nextVersion_det p : place p -> exists v, 0 <= v < 2 ^ 30 /\ forall caches, caches_ok caches ->
  exists caches', calcNextBlockVersion chainParams bi deployments p caches = Ok (v, caches') /\ caches_ok caches'.
Proof using Hbi Hwindow Hbits.
  intros Hp.
  destruct (versionLoop_spec p deployments [] vbTopBits _ Hp eq_refl caches_ok_new Hbits) as
    (v & caches0 & _ & _ & Hr & Hvb); [by unfold vbTopBits|].
  exists v. split; [done|]. intros caches Hc.
  destruct (versionLoop_spec p deployments [] vbTopBits caches Hp eq_refl Hc Hbits) as
    (v' & caches' & Hv' & Hc' & Hr' & Hvb'); [by unfold vbTopBits|].
  exists caches'. split; [|done]. unfold calcNextBlockVersion. cbn [List.length] in Hv'. rewrite Hv'. do 2 f_equal.
  apply Z.bits_inj'. intros b Hb. apply eq_true_iff_eq. by rewrite Hvb, Hvb'.
Qed.

(** A node votes for a bit that it was not expected to set. *)
Definition unexpected (bit : Z) (n : blockNode) : bool :=
  match Condition (bitConditionChecker chainParams bi deployments bit) n
          (newThresholdCaches (List.length deployments)) with
  | Ok (b, _) => b
  | _ => false
  end.

Lemma unexpected_spec bit n caches : indexed bi n -> caches_ok caches ->
  exists caches', Condition (bitConditionChecker chainParams bi deployments bit) n caches
                  = Ok (unexpected bit n, caches') /\ caches_ok caches'.
Proof using Hbi Hwindow Hbits.
  intros Hn Hc. unfold unexpected. cbn [Condition bitConditionChecker]. destruct (negb _); [by eexists|].
  destruct (_ =? 0); [by eexists|]. destruct (Hbi _ _ Hn) as (_ & Hw & Hp). pose proof (wf_height n Hw).
  destruct (nextVersion_det (parent n)) as (v & _ & Hv).
  { unfold place. destruct (parent n) as [p|] eqn:Hpar; [|done]. split; [by apply Hp|].
    destruct (wf_parent n p Hw Hpar). lia. }
  destruct (Hv _ caches_ok_new) as (c0 & -> & _). destruct (Hv _ Hc) as (caches' & -> & Hc'). by eexists.
Qed.

Abbreviation checkerOfBit bit := (bitConditionChecker chainParams bi deployments bit).

(** The caches of the bits from [bit] on. *)
Definition warnings_ok (caches : list thresholdStateCache) : Prop := forall i cache, caches !! i = Some cache ->
  coherent (checkerOfBit (Z.of_nat i)) bi (unexpected (Z.of_nat i)) cache.

Lemma warnLoop_spec p bits : forall bit wcaches caches warned, place p -> 0 <= bit ->
  (Z.to_nat bit + bits <= List.length wcaches)%nat -> warnings_ok wcaches -> caches_ok caches ->
  exists wcaches' caches' warned', warnLoop chainParams bi deployments bits bit p wcaches caches warned
    = Ok (wcaches', caches', warned') /\ warnings_ok wcaches' /\ caches_ok caches' /\
    (warned' = true <-> warned = true \/ exists b n, bit <= b < bit + Z.of_nat bits /\ p = Some n /\
       windowState (checkerOfBit b) (unexpected b) (windowEnd (checkerOfBit b) n) ThresholdActive).
Proof using Hbi Hwindow Hbits.
  induction bits as [|bits IH]; intros bit wcaches caches warned Hp Hbit Hlen Hw Hc; cbn [warnLoop].
  { exists wcaches, caches, warned. split_and!; [done..|]. split; [by left|]. intros [|(b & n & ? & _)]; [done|lia]. }
  destruct (lookup_lt_is_Some_2 wcaches (Z.to_nat bit)) as [cache Hcache]; [lia|].
  rewrite (proj2 (index_ok_iff wcaches bit cache)), bind_Ok by (split; [lia|done]).
  pose proof (Hw _ _ Hcache) as Hco. rewrite Z2Nat.id in Hco by lia.
  assert (exists st cache' caches1, thresholdState (checkerOfBit bit) p cache caches = Ok (st, cache', caches1) /\
    coherent (checkerOfBit bit) bi (unexpected bit) cache' /\ caches_ok caches1 /\
    (st = ThresholdActive <-> exists n, p = Some n /\
       windowState (checkerOfBit bit) (unexpected bit) (windowEnd (checkerOfBit bit) n) ThresholdActive))
    as (st & cache' & caches1 & Ht & Hco' & Hc1 & Hst).
  { destruct p as [n|].
    - destruct Hp as [Hn Hh]. destruct (thresholdState_spec (checkerOfBit bit) bi Hbi (unexpected bit) caches_ok) with (n := n) (cache := cache) (s := caches)
        as (st & cache' & c1 & Ht & Hst & Hco' & Hc1); try done.
      { intros m s Hm Hs. by apply unexpected_spec. }
      exists st, cache', c1. split_and!; try done. split; [intros ->; by exists n|].
      intros (m & [= <-] & Hm). by eapply windowState_det.
    - exists ThresholdDefined, cache, caches. split_and!; try done. split; [done|by intros (? & [=] & _)]. }
  rewrite Ht, bind_Ok.
  destruct (IH (bit + 1) (<[Z.to_nat bit := cache']> wcaches) caches1 (warned || bool_decide (st = ThresholdActive)) Hp)
    as (w' & c' & warned' & Hl & Hw' & Hc' & Hwarned); [lia|rewrite length_insert; lia| |done|].
  { intros i c. destruct (decide (i = Z.to_nat bit)) as [->|Hne].
    - rewrite list_lookup_insert_eq by lia. intros [= <-]. by rewrite Z2Nat.id by lia.
    - rewrite list_lookup_insert_ne by done. apply Hw. }
  exists w', c', warned'. split_and!; [done..|]. rewrite Hwarned, orb_true_iff, bool_decide_eq_true, Hst. split.
  - intros [[|(n & -> & Ha)]|(b & n & Hb & -> & Ha)]; [by left|right; exists bit, n; split_and!; (done || lia)|].
    right. exists b, n. split_and!; (done || lia).
  - intros [|(b & n & Hb & -> & Ha)]; [by left; left|]. destruct (Z.eq_dec b bit) as [->|]; [left; right; by exists n|].
    right. exists b, n. split_and!; (done || lia).
Qed.

(**  The warning about unknown rules is given, in a chain of any length
    and whatever is cached, exactly when it had been given before or some bit
    that no deployment accounts for has gone through the state machine to its
    end; nothing fails and the caches stay true. *)
Theorem warnUnknownRuleActivations_spec n wcaches caches warned : indexed bi n ->
  (Z.to_nat vbNumBits <= List.length wcaches)%nat -> warnings_ok wcaches -> caches_ok caches ->
  exists wcaches' caches' warned',
    warnUnknownRuleActivations chainParams bi deployments n wcaches caches warned = Ok (wcaches', caches', warned') /\
    warnings_ok wcaches' /\ caches_ok caches' /\
    (warned' = true <-> warned = true \/ exists b p, 0 <= b < vbNumBits /\ parent n = Some p /\
       windowState (checkerOfBit b) (unexpected b) (windowEnd (checkerOfBit b) p) ThresholdActive).
Proof using Hbi Hwindow Hbits.
  intros Hn Hl Hw Hc. apply warnLoop_spec; try done. unfold place. destruct (parent n) as [p|] eqn:Hp; [|done].
  destruct (Hbi _ _ Hn) as (_ & Hwf & Hpar). split; [by apply Hpar|]. pose proof (wf_height n Hwf).
  destruct (wf_parent n p Hwf Hp). lia.
Qed.


(** *** Progress *)
Context (Hzero : bi !! zeroHash = None).

Lemma started_mono d n a b : indexed bi n -> times_ok n -> a ∈ chain n -> b ∈ chain n -> height a <= height b ->
  HasStarted (checkerOf d) a = true -> HasStarted (checkerOf d) b = true.
Proof using Hbi Hzero.
  intros Hn Ht Ha Hb Hle. destruct (Hbi _ _ Hn) as (_ & Hw & _). cbn [HasStarted deploymentChecker].
  unfold starterHasStarted. destruct (startTime (DeploymentStarter d)) as [start|]; [|done].
  assert (Hia : indexed bi a) by (by apply (chain_indexed bi n a Hbi Hn)). assert (Hib : indexed bi b) by (by apply (chain_indexed bi n b Hbi Hn)).
  destruct (median_le n a b Hw Ht Ha Hb Hle) as (ta & tb & Hta & Htb & Hab).
  destruct (PastMedianTime bi (Header a)) as [t|] eqn:Hta'; [|done].
  apply (PastMedianTime_node bi a t Hbi Hzero Hia) in Hta' as [[pa Hpa] Hta']. rewrite Hta in Hta'. injection Hta' as <-.
  assert (Hpb : is_Some (parent b)).
  { destruct (parent b) eqn:Hpb; [by eexists|]. destruct (Hbi _ _ Hib) as (_ & Hwb & _). destruct (Hbi _ _ Hia) as (_ & Hwa & _).
    pose proof (wf_root b Hwb Hpb). destruct (wf_parent a pa Hwa Hpa) as [Hwp ?]. pose proof (wf_height pa Hwp). lia. }
  rewrite (proj2 (PastMedianTime_node bi b tb Hbi Hzero Hib) (conj Hpb Htb)). simpl.
  rewrite !orb_true_iff, !Z.ltb_lt, !Z.eqb_eq. lia.
Qed.

(**  A rule change never goes back: later on a chain that keeps the
    rule for block times, a deployment is in the same state or in one that
    follows it, so a rule that is active stays active and one that has failed
    stays failed. *)
Theorem deployment_progress d n a st st' : indexed bi n -> times_ok n -> a ∈ chain n ->
  stateAfter d (Some a) st -> stateAfter d (Some n) st' ->
  rtc later st st' /\ (st = ThresholdActive \/ st = ThresholdFailed -> st' = st).
Proof using Hbi Hwindow Hzero.
  intros Hn Ht Ha Hst Hst'. destruct (Hbi _ _ Hn) as (_ & Hw & _).
  assert (Hl : rtc later st st').
  { eapply (states_progress (checkerOf d) bi Hbi (votes (BitNumber d)) Hwindow n Hn) with (a := a) (b := n); try done.
    - intros x y. by apply started_mono.
    - apply chain_mem; [done|]. by apply chain_self.
    - by apply chain_mem_height. }
  split; [done|]. by apply later_final.
Qed.

End ChainSpec.
(** ** The network of this repository *)

(** The time of its genesis block. *)
Definition freshNetGenesisTime := 1701599110.

Section FreshNet.
Context {H : Hashes} (bi : blockIndex) (Hbi : index_ok bi) (Hzero : bi !! zeroHash = None).
Context (n root : blockNode) (Hn : indexed bi n) (Ht : times_ok n).
Context (Hroot : root ∈ chain n) (Hgen : parent root = None) (Htime : timestamp root = freshNetGenesisTime).

Abbreviation checkerOf d := (deploymentChecker (S := unit) FreshNetParams bi d).

Lemma fresh_ended d m : m ∈ chain n -> is_Some (parent m) ->
  (exists e, endTime (DeploymentEnder d) = Some e /\ e <= freshNetGenesisTime) -> HasEnded (checkerOf d) m = true.
Proof using Hbi Hgen Hn Hroot Ht Htime Hzero.
  intros Hm Hp (e & He & Hle). destruct (Hbi _ _ Hn) as (_ & Hw & _). cbn [HasEnded deploymentChecker].
  unfold enderHasEnded. rewrite He. destruct (chain_sub n root Hw Hroot) as [Hwr _]. destruct (chain_sub n m Hw Hm) as [Hwm _].
  pose proof (wf_root root Hwr Hgen). pose proof (wf_height m Hwm).
  destruct (median_le n root m Hw Ht Hroot Hm) as (tr & tm & Htr & Htm & Hrm); [lia|].
  assert (tr = freshNetGenesisTime) as ->.
  { unfold CalcPastMedianTime in Htr. cbn [pastTimestamps medianTimeBlocks] in Htr. rewrite Hgen, Htime in Htr.
    by injection Htr as <-. }
  rewrite (proj2 (PastMedianTime_node bi m tm Hbi Hzero (chain_indexed bi n m Hbi Hn Hm)) (conj Hp Htm)). simpl.
  rewrite orb_true_iff, Z.ltb_lt, Z.eqb_eq. lia.
Qed.

Lemma fresh_failed d p st : IsSpeedy (checkerOf d) = false ->
  (exists e, endTime (DeploymentEnder d) = Some e /\ e <= freshNetGenesisTime) ->
  windowState (checkerOf d) (votes (BitNumber d)) p st ->
  (forall m, p = Some m -> m ∈ chain n /\ ends (checkerOf d) m) -> st = ThresholdDefined \/ st = ThresholdFailed.
Proof using Hbi Hgen Hn Hroot Ht Htime Hzero.
  intros Hslow Hend Hst. destruct (Hbi _ _ Hn) as (_ & Hw & _).
  assert (Hwin : 0 < confirmationWindow (checkerOf d) < 2 ^ 31) by (cbn; lia).
  induction Hst as [|m Hs|m st Hs Hst IH]; intros Hp; [by left..|]. destruct (Hp m eq_refl) as [Hm He].
  pose proof (chain_indexed bi n m Hbi Hn Hm) as Him. destruct (Hbi _ _ Him) as (_ & Hwm & _).
  assert (Hpar : is_Some (parent m)).
  { pose proof (ends_height _ bi Hbi Hwin m Him He) as Hh. cbn in Hh. destruct (parent m) eqn:Hpm; [by eexists|].
    rewrite (wf_root m Hwm Hpm) in Hh. lia. }
  destruct IH as [->| ->]; cbn [next]; [|rewrite Hslow, fresh_ended by done; by right|by right].
  intros q Hq. destruct (rel_ends _ bi Hbi Hwin m q Him He Hq) as (_ & Heq & _). split; [|done].
  destruct (chain_sub n m Hw Hm) as [_ [l Hl]]. rewrite Hl. apply elem_of_app. left.
  unfold RelativeAncestor in Hq. by eapply Ancestor_mem.
Qed.

(**  On the network of this repository neither the CSV nor the segwit
    deployment can ever become active: its chain starts after the time at
    which both have ended, so on every chain that keeps the rule for block
    times they stay defined or fail. *)
Theorem freshnet_csv_segwit_never id caches : id = DeploymentCSV \/ id = DeploymentSegwit ->
  height n < 2 ^ 31 - 1 -> caches_ok FreshNetParams bi freshNetDeployments caches ->
  exists st caches', deploymentState FreshNetParams bi freshNetDeployments (Some n) id caches = Ok (st, caches') /\
    (st = ThresholdDefined \/ st = ThresholdFailed).
Proof using Hbi Hgen Hn Hroot Ht Htime Hzero.
  intros Hid Hh Hc. destruct (Hbi _ _ Hn) as (_ & Hw & _).
  assert (exists d, freshNetDeployments !! Z.to_nat id = Some d /\ 0 <= id < 5 /\ IsSpeedy (checkerOf d) = false /\
    exists e, endTime (DeploymentEnder d) = Some e /\ e <= freshNetGenesisTime) as (d & Hd & Hr & Hslow & Hend).
  { destruct Hid as [->| ->]; (eexists; split_and!; [reflexivity|done|done|reflexivity|]); eexists; (split; [reflexivity|done]). }
  assert (Hwin : 0 < MinerConfirmationWindow FreshNetParams < 2 ^ 31) by (cbn; lia).
  destruct (deploymentState_ok FreshNetParams bi freshNetDeployments Hbi Hwin (Some n) id caches d) as
    (st & caches' & Heq & Hst & _); [by split|done|done|lia|].
  exists st, caches'. split; [done|]. apply (fresh_failed d _ st Hslow Hend Hst). intros m Hm.
  destruct (windowEnd_ok (checkerOf d) bi Hbi Hwin n m Hn Hm) as (_ & He & _). split; [|done].
  unfold windowEnd in Hm. destruct (_ <? _); [done|]. by eapply Ancestor_mem.
Qed.

End FreshNet.
(** ** Concrete instances *)
Module Toy.
Import SigHash.Toy.
#[local] Existing Instance toy_hashes.

(** Windows of two blocks, and one deployment that needs one vote. *)
Definition params : Params := {|
  PowLimit := PowLimit FreshNetParams; PowLimitBits := 0x207fffff; PoWNoRetargeting := true;
  BIP0034Height := 0; BIP0065Height := 0; BIP0066Height := 0; CoinbaseMaturity := 1;
  SubsidyReductionInterval := 150; TargetTimespan := TargetTimespan FreshNetParams;
  TargetTimePerBlock := TargetTimePerBlock FreshNetParams; RetargetAdjustmentFactor := 4;
  ReduceMinDifficulty := true; MinDiffReductionTime := 0;
  RuleChangeActivationThreshold := 1; MinerConfirmationWindow := 2;
|}.
Definition dep : ConsensusDeployment := mkDeployment 1 0 0 (mkStarter (Some 1000)) (mkEnder None).
Definition deps : list ConsensusDeployment := [dep].

Definition child (time : Z) (p : blockNode) : blockNode :=
  newBlockNode (mkBlockHeader 0x20000002 (hash p) zeroHash time 0x207fffff 0) (Some p).
Definition m0 : blockNode := newBlockNode (mkBlockHeader 1 zeroHash zeroHash 1000 0x207fffff 0) None.
Definition m1 := child 1001 m0.
Definition m2 := child 1002 m1.
Definition m3 := child 1003 m2.
Definition m4 := child 1004 m3.
Definition m5 := child 1005 m4.
Definition bi : blockIndex := list_to_map ((fun n => (hash n, n)) <$> [m0; m1; m2; m3; m4; m5]).

Lemma index_of (l : list blockNode) : forallb wfb l = true -> bool_decide (NoDup (hash <$> l)) = true ->
  forallb (fun n => match parent n with Some p => bool_decide (p ∈ l) | None => true end) l = true ->
  index_ok (list_to_map ((fun n => (hash n, n)) <$> l)).
Proof.
  rewrite !forallb_forall, bool_decide_eq_true. intros Hw Hd Hp h n Hn.
  assert (Hl : ((fun n => (hash n, n)) <$> l).*1 = hash <$> l) by (rewrite <- list_fmap_compose; done).
  assert (Hget : forall m, m ∈ l -> (list_to_map ((fun n => (hash n, n)) <$> l) : blockIndex) !! hash m = Some m).
  { intros m Hm. apply elem_of_list_to_map_1; [by rewrite Hl|]. apply list_elem_of_fmap. by exists m. }
  apply elem_of_list_to_map_2, list_elem_of_fmap in Hn as (m & [= -> <-] & Hm). apply list_elem_of_In in Hm as Hin.
  split_and!; [done|by apply Hw|]. intros p Hpar. specialize (Hp n Hin). rewrite Hpar, bool_decide_eq_true in Hp. auto.
Qed.

Lemma bi_ok : index_ok bi.
Proof. by apply index_of; vm_compute. Qed.

Lemma m5_indexed : indexed bi m5.
Proof. by vm_compute. Qed.

Lemma window_ok : 0 < MinerConfirmationWindow params < 2 ^ 31.
Proof. by cbn. Qed.

(** Started after two blocks, locked in after four, active after six. *)
Example m5_active : fst <$> deploymentState params bi deps (Some m5) 0 (newThresholdCaches 1) = Ok ThresholdActive.
Proof. by vm_compute. Qed.

Lemma deploymentState_spec_witness : exists st caches',
  deploymentState params bi deps (Some m5) 0 (newThresholdCaches 1) = Ok (st, caches') /\
  (forall st', stateAfter params bi dep (Some m5) st' <-> st' = st) /\
  caches_ok params bi deps caches'.
Proof.
  apply (deploymentState_spec params bi deps bi_ok window_ok (Some m5) 0 (newThresholdCaches 1)).
  - split; [exact m5_indexed|by vm_compute].
  - apply (caches_ok_new params bi deps).
  - done.
  - done.
Defined.

Lemma calcNextBlockVersion_spec_witness : exists v caches',
  calcNextBlockVersion params bi deps (Some m3) (newThresholdCaches 1) = Ok (v, caches') /\
  caches_ok params bi deps caches' /\ Z.land v vbTopMask = vbTopBits /\
  forall b, 0 <= b < vbNumBits -> Z.testbit v b = true <->
    exists d, d ∈ deps /\ BitNumber d = b /\ signalled params bi d (Some m3).
Proof.
  apply (calcNextBlockVersion_spec params bi deps bi_ok window_ok (Some m3) (newThresholdCaches 1)).
  - split; by vm_compute.
  - apply (caches_ok_new params bi deps).
  - apply (bool_decide_unpack _). by vm_compute.
Defined.

Lemma warnUnknownRuleActivations_spec_witness : exists wcaches' caches' warned',
  warnUnknownRuleActivations params bi deps m5 (newThresholdCaches 29) (newThresholdCaches 1) false
  = Ok (wcaches', caches', warned') /\
  warnings_ok params bi deps wcaches' /\ caches_ok params bi deps caches' /\
  (warned' = true <-> false = true \/ exists b p, 0 <= b < vbNumBits /\ parent m5 = Some p /\
     windowState (bitConditionChecker params bi deps b) (unexpected params bi deps b)
       (windowEnd (bitConditionChecker params bi deps b) p) ThresholdActive).
Proof.
  apply (warnUnknownRuleActivations_spec params bi deps bi_ok window_ok).
  - apply (bool_decide_unpack _). by vm_compute.
  - exact m5_indexed.
  - by vm_compute.
  - intros i cache Hi h st. apply lookup_replicate in Hi as [-> _]. by rewrite lookup_empty.
  - apply (caches_ok_new params bi deps).
Defined.

Lemma m5_times : times_ok m5.
Proof.
  assert (Hall : Forall (fun q => match parent q with
      | Some p => match CalcPastMedianTime p with Ok m => m < timestamp q | _ => False end | None => True end) (chain m5)).
  { repeat (apply Forall_cons_2; [vm_compute; done|]). apply Forall_nil_2. }
  rewrite list.Forall_forall in Hall. intros q p m Hq Hp Hm. specialize (Hall q Hq). by rewrite Hp, Hm in Hall.
Qed.

(** Active after six blocks, so never defined again. *)
Lemma deployment_progress_witness : exists st st',
  stateAfter params bi dep (Some m1) st /\ stateAfter params bi dep (Some m5) st' /\
  rtc later st st' /\ (st = ThresholdActive \/ st = ThresholdFailed -> st' = st).
Proof.
  destruct (deploymentState_ok params bi deps bi_ok window_ok (Some m1) 0 (newThresholdCaches 1) dep
    ltac:(split; by vm_compute) (caches_ok_new params bi deps) eq_refl ltac:(lia)) as (st & ? & _ & Hst & _).
  destruct (deploymentState_ok params bi deps bi_ok window_ok (Some m5) 0 (newThresholdCaches 1) dep
    ltac:(split; by vm_compute) (caches_ok_new params bi deps) eq_refl ltac:(lia)) as (st' & ? & _ & Hst' & _).
  exists st, st'. split; [exact Hst|]. split; [exact Hst'|].
  apply (deployment_progress params bi bi_ok window_ok ltac:(by vm_compute) dep m5 m1 st st' m5_indexed m5_times).
  - apply (bool_decide_unpack _). by vm_compute.
  - exact Hst.
  - exact Hst'.
Defined.

(** The genesis block of the network, alone. *)
Definition g0 : blockNode :=
  newBlockNode (mkBlockHeader 1 zeroHash zeroHash freshNetGenesisTime 0x1d00ffff 0) None.
Definition g_index : blockIndex := list_to_map ((fun n => (hash n, n)) <$> [g0]).

Lemma freshnet_csv_segwit_never_witness : exists st caches',
  deploymentState FreshNetParams g_index freshNetDeployments (Some g0) DeploymentSegwit (newThresholdCaches 5)
  = Ok (st, caches') /\ (st = ThresholdDefined \/ st = ThresholdFailed).
Proof.
  apply (freshnet_csv_segwit_never g_index ltac:(by apply index_of; vm_compute) ltac:(by vm_compute) g0 g0).
  - by vm_compute.
  - intros q p m Hq%list_elem_of_singleton Hp. by subst q.
  - by apply list_elem_of_singleton.
  - done.
  - done.
  - by right.
  - by vm_compute.
  - apply (caches_ok_new FreshNetParams g_index freshNetDeployments).
Defined.

End Toy.
End Deployments.
