(* ===== verification/BlockRules.v ===== *)
(** * Rules of headers and blocks

    Models the checks of coin/OrcaNet/blockchain/validate.go that look at a
    header or a block, with checkpoints.go and the relative lock times of
    chain.go: CheckBlockHeaderSanity, checkBlockSanity,
    CheckBlockHeaderContext, checkBlockContext, the checkpoint search and
    calcSequenceLock.  The time of a header that was decoded has whole
    seconds, so the check of its precision has nothing to refuse.  A search for the last
    checkpoint remembers what it found; when the header is then refused, the
    model forgets that, and the next search finds it again.

    The theorems say which blocks pass the check without context, what the
    state of the checkpoints is, and when the sequence locks of a transaction
    are met. *)

From stdpp Require Import sorting.
From S2P Require Import Prelude Wire Tokenizer SigHash Opcodes Merkle Difficulty Chain ChainView Utxo TxRules Deployments.

Module BlockRules.
Import Wire Tokenizer SigHash Opcodes Merkle Difficulty Chain ChainView Utxo TxRules Deployments.

Definition MaxTimeOffsetSeconds := 2 * 60 * 60.
Definition BFFastAdd := 1.

(** A header context is a node, as in the chain's own calls. *)
#[export] Instance raw_ctx : HeaderCtx blockNode := {|
  Difficulty.Height := Chain.height;
  Difficulty.Bits := Chain.bits;
  Difficulty.Timestamp := Chain.timestamp;
  Difficulty.Parent := Chain.parent;
  Difficulty.RelativeAncestorCtx := RelativeAncestor;
|}.

(** ** Checkpoints *)
Record Checkpoint := mkCheckpoint {
  cp_Height : Z;
  cp_Hash : list Z;
}.

Section Checkpoints.
Context (checkpoints : list Checkpoint).

(** The map that New builds. *)
Definition checkpointsByHeight : gmap Z Checkpoint :=
  foldl (fun m c => <[cp_Height c := c]> m) ∅ checkpoints.

Definition verifyCheckpoint (height : Z) (hash : list Z) : bool :=
  if Zlen checkpoints =? 0 then true
  else match checkpointsByHeight !! height with
       | None => true
       | Some checkpoint => bool_decide (cp_Hash checkpoint = hash)
       end.

Definition LatestCheckpoint : option Checkpoint := checkpoints !! pred (length checkpoints).

Record checkpointState := mkCpState {
  nextCheckpoint : option Checkpoint;
  checkpointNode : option blockNode;
}.

(** The latest checkpoint that the main chain has, from the index [n] - 1
    down. *)
Fixpoint searchBack (n : nat) (bi : blockIndex) (bestChain : chainView) (s : checkpointState)
    : outcome RuleError (option blockNode * checkpointState) :=
  match n with
  | O =>
      first ← index checkpoints 0;
      Ok (None, mkCpState (Some first) (checkpointNode s))
  | S i =>
      c ← index checkpoints (Z.of_nat i);
      match LookupNode bi (cp_Hash c) with
      | Some node =>
          if contains node bestChain
          then Ok (Some node, mkCpState (checkpoints !! S i) (Some node))
          else searchBack i bi bestChain s
      | None => searchBack i bi bestChain s
      end
  end.

(** The index of the last checkpoint with a hash. *)
Fixpoint lastIndexOf (hash : list Z) (i : nat) (l : list Checkpoint) (found : option nat) : option nat :=
  match l with
  | [] => found
  | c :: l => lastIndexOf hash (S i) l (if bool_decide (cp_Hash c = hash) then Some i else found)
  end.

Definition findPreviousCheckpoint (bi : blockIndex) (bestChain : chainView) (s : checkpointState)
    : outcome RuleError (option blockNode * checkpointState) :=
  if Zlen checkpoints =? 0 then Ok (None, s)
  else
    match checkpointNode s, nextCheckpoint s with
    | None, None => searchBack (length checkpoints) bi bestChain s
    | node, None => Ok (node, s)
    | node, Some next =>
        match tip bestChain with
        | None => Panic
        | Some t =>
            if height t <? cp_Height next then Ok (node, s)
            else
              match LookupNode bi (cp_Hash next) with
              | None => Err AssertError
              | Some found =>
                  Ok (Some found,
                      mkCpState (match lastIndexOf (cp_Hash next) 0 checkpoints None with
                                 | Some i => checkpoints !! S i
                                 | None => None
                                 end) (Some found))
              end
        end
    end.

End Checkpoints.

(** ** Blocks without context *)
Section Hash.
Context {H : Hashes}.

Definition CheckBlockHeaderSanity (header : BlockHeader) (powLimit adjustedTime flags : Z) : outcome RuleError unit :=
  _ ← checkProofOfWork header powLimit flags;
  if adjustedTime + MaxTimeOffsetSeconds <? Wire.Timestamp header then Err ErrTimeTooNew else Ok ().

Fixpoint checkAll {A} (f : A -> outcome RuleError unit) (l : list A) : outcome RuleError unit :=
  match l with
  | [] => Ok ()
  | x :: l => _ ← f x; checkAll f l
  end.

Fixpoint duplicateTxs (txs : list MsgTx) (existingTxHashes : gset (list Z)) : outcome RuleError unit :=
  match txs with
  | [] => Ok ()
  | tx :: txs =>
      if bool_decide (TxHash tx ∈ existingTxHashes) then Err ErrDuplicateTx
      else duplicateTxs txs ({[TxHash tx]} ∪ existingTxHashes)
  end.

Fixpoint sigOpsLoop (txs : list MsgTx) (totalSigOps : Z) : outcome RuleError unit :=
  match txs with
  | [] => Ok ()
  | tx :: txs =>
      n ← CountSigOps tx;
      let lastSigOps := totalSigOps in
      let totalSigOps := i64 (totalSigOps + n * WitnessScaleFactor) in
      if (totalSigOps <? lastSigOps) || (MaxBlockSigOpsCost <? totalSigOps) then Err ErrTooManySigOps
      else sigOpsLoop txs totalSigOps
  end.

Definition checkBlockSanity (block : MsgBlock) (powLimit adjustedTime flags : Z) : outcome RuleError unit :=
  let header := Wire.Header block in
  let transactions := Transactions block in
  _ ← CheckBlockHeaderSanity header powLimit adjustedTime flags;
  if Zlen transactions =? 0 then Err ErrNoTransactions
  else if MaxBlockBaseSize <? Zlen transactions then Err ErrBlockTooBig
  else if MaxBlockBaseSize <? MsgBlock_SerializeSizeStripped block then Err ErrBlockTooBig
  else
    coinbase ← index transactions 0;
    if negb (IsCoinBaseTx coinbase) then Err ErrFirstTxNotCoinbase
    else
      rest ← slice transactions 1 (Zlen transactions);
      if existsb IsCoinBaseTx rest then Err ErrMultipleCoinbases
      else
        _ ← checkAll CheckTransactionSanity transactions;
        calcMerkleRoot ← CalcMerkleRoot transactions false;
        if negb (bool_decide (Wire.MerkleRoot header = calcMerkleRoot)) then Err ErrBadMerkleRoot
        else
          _ ← duplicateTxs transactions ∅;
          sigOpsLoop transactions 0.

Definition CheckBlockSanity (block : MsgBlock) (powLimit adjustedTime : Z) : outcome RuleError unit :=
  checkBlockSanity block powLimit adjustedTime 0.

(** ** Headers and blocks in their context *)

(** What a chain is made with and does not change. *)
Record chainConfig := mkConfig {
  ctx : ChainCtx;
  GenesisHash : list Z;
  Deployments : list ConsensusDeployment;
  checkpoints : list Checkpoint;
}.

(** The fuel of the search for the last block that kept the difficulty is
    more than the blocks there are. *)
Definition CheckBlockHeaderContext (header : BlockHeader) (prevNode : blockNode) (flags : Z) (c : chainConfig)
    (skipCheckpoint : bool) (bi : blockIndex) (bestChain : chainView) (s : checkpointState)
    : outcome RuleError checkpointState :=
  let fastAdd := Z.land flags BFFastAdd =? BFFastAdd in
  _ ← (if negb fastAdd then
         expectedDifficulty ← calcNextRequiredDifficulty (S (S (Z.to_nat (height prevNode)))) (Some prevNode)
                                (Wire.Timestamp header) (ctx c);
         if negb (Wire.Bits header =? expectedDifficulty) then Err ErrUnexpectedDifficulty
         else
           medianTime ← CalcPastMedianTime prevNode;
           if negb (medianTime <? Wire.Timestamp header) then Err ErrTimeTooOld else Ok ()
       else Ok ());
  let blockHeight := i32 (height prevNode + 1) in
  let params := ChainParams (ctx c) in
  if ((bh_Version header <? 2) && (BIP0034Height params <=? blockHeight))
     || ((bh_Version header <? 3) && (BIP0066Height params <=? blockHeight))
     || ((bh_Version header <? 4) && (BIP0065Height params <=? blockHeight)) then Err ErrBlockVersionTooOld
  else if skipCheckpoint then Ok s
  else if negb (verifyCheckpoint (checkpoints c) blockHeight (BlockHash header)) then Err ErrBadCheckpoint
  else
    '(checkpointNode, s) ← findPreviousCheckpoint (checkpoints c) bi bestChain s;
    match checkpointNode with
    | Some n => if blockHeight <? height n then Err ErrForkTooOld else Ok s
    | None => Ok s
    end.

Definition checkBlockContext (block : MsgBlock) (prevNode : blockNode) (flags : Z) (c : chainConfig)
    (bi : blockIndex) (bestChain : chainView) (s : checkpointState) (caches : list thresholdStateCache)
    : outcome RuleError (checkpointState * list thresholdStateCache) :=
  let header := Wire.Header block in
  let params := ChainParams (ctx c) in
  s ← CheckBlockHeaderContext header prevNode flags c false bi bestChain s;
  let fastAdd := Z.land flags BFFastAdd =? BFFastAdd in
  if fastAdd then Ok (s, caches)
  else
    '(csvState, caches) ← deploymentState params bi (Deployments c) (Some prevNode) DeploymentCSV caches;
    blockTime ← (if bool_decide (csvState = ThresholdActive) then CalcPastMedianTime prevNode else Ok (Wire.Timestamp header));
    let blockHeight := i32 (height prevNode + 1) in
    if existsb (fun tx => negb (IsFinalizedTransaction tx blockHeight blockTime)) (Transactions block)
    then Err ErrUnfinalizedTx
    else
      _ ← (if ShouldHaveSerializedBlockHeight header && (BIP0034Height params <=? blockHeight) then
             coinbaseTx ← index (Transactions block) 0; CheckSerializedHeight coinbaseTx blockHeight
           else Ok ());
      '(segwitState, caches) ← deploymentState params bi (Deployments c) (Some prevNode) DeploymentSegwit caches;
      if bool_decide (segwitState = ThresholdActive) then
        _ ← ValidateWitnessCommitment (Transactions block);
        if MaxBlockWeight <? GetBlockWeight block then Err ErrBlockWeightTooHigh else Ok (s, caches)
      else Ok (s, caches).

(** ** Relative lock times *)
Definition SequenceLockTimeGranularity := 9.

Definition LockTimeToSequence (isSeconds : bool) (locktime : Z) : Z :=
  if negb isSeconds then locktime
  else Z.lor SequenceLockTimeIsSeconds (Z.shiftr locktime SequenceLockTimeGranularity).

(** The locks of the inputs, the greatest of each kind. *)
Fixpoint lockInputs (node : blockNode) (ins : list TxIn) (utxoView : UtxoViewpoint) (sequenceLock : SequenceLock)
    : outcome RuleError SequenceLock :=
  match ins with
  | [] => Ok sequenceLock
  | txIn :: ins =>
      match LookupEntry utxoView (PreviousOutPoint txIn) with
      | None => Err ErrMissingTxOut
      | Some utxo =>
          let inputHeight := if blockHeight utxo =? 0x7fffffff then i32 (height node + 1) else blockHeight utxo in
          let sequenceNum := Sequence txIn in
          let relativeLock := Z.land sequenceNum SequenceLockTimeMask in
          if Z.land sequenceNum SequenceLockTimeDisabled =? SequenceLockTimeDisabled
          then lockInputs node ins utxoView sequenceLock
          else if Z.land sequenceNum SequenceLockTimeIsSeconds =? SequenceLockTimeIsSeconds then
            let prevInputHeight := i32 (inputHeight - 1) in
            let prevInputHeight := if prevInputHeight <? 0 then 0 else prevInputHeight in
            match Ancestor node prevInputHeight with
            | None => Panic
            | Some blockNode =>
                medianTime ← CalcPastMedianTime blockNode;
                let timeLock := i64 (medianTime + i64 (Z.shiftl relativeLock SequenceLockTimeGranularity - 1)) in
                lockInputs node ins utxoView
                  (if Seconds sequenceLock <? timeLock then mkSequenceLock timeLock (BlockHeight sequenceLock)
                   else sequenceLock)
            end
          else
            let blockHeight := i32 (inputHeight + i32 (relativeLock - 1)) in
            lockInputs node ins utxoView
              (if BlockHeight sequenceLock <? blockHeight then mkSequenceLock (Seconds sequenceLock) blockHeight
               else sequenceLock)
      end
  end.

Definition calcSequenceLock (c : chainConfig) (bi : blockIndex) (node : blockNode) (tx : MsgTx) (utxoView : UtxoViewpoint)
    (mempool : bool) (caches : list thresholdStateCache) : outcome RuleError (SequenceLock * list thresholdStateCache) :=
  let sequenceLock := mkSequenceLock (-1) (-1) in
  '(csvSoftforkActive, caches) ←
    (if mempool then Ok (true, caches)
     else '(csvState, caches) ← deploymentState (ChainParams (ctx c)) bi (Deployments c) (parent node) DeploymentCSV caches;
          Ok (bool_decide (csvState = ThresholdActive), caches));
  if negb ((2 <=? u32 (Version tx)) && csvSoftforkActive) || IsCoinBaseTx tx then Ok (sequenceLock, caches)
  else sequenceLock ← lockInputs node (TxIns tx) utxoView sequenceLock; Ok (sequenceLock, caches).

(** ** Which blocks pass without context *)

(** A transaction as a decoder gives it. *)
Record tx_ok (tx : MsgTx) : Prop := {
  ok_ins : Forall (fun ti => bytes_ok (SignatureScript ti) /\ Zlen (SignatureScript ti) < 2 ^ 31) (TxIns tx);
  ok_outs : outs_ok (TxOuts tx);
  ok_values : Forall (fun o => - 2 ^ 63 <= Value o < 2 ^ 63) (TxOuts tx);
  ok_count : Zlen (TxIns tx) + Zlen (TxOuts tx) <= 2 ^ 20;
}.

(** The signature operations of a script, and of a transaction, as the old
    rule counts them. *)
Definition scriptOps (script : list Z) : Z := match GetSigOpCount script with Ok n => n | _ => 0 end.
Definition sigOps (tx : MsgTx) : Z :=
  sum ((fun ti => scriptOps (SignatureScript ti)) <$> TxIns tx) + sum ((fun o => scriptOps (PkScript o)) <$> TxOuts tx).

Lemma scriptOps_ok script : bytes_ok script /\ Zlen script < 2 ^ 31 ->
  GetSigOpCount script = Ok (scriptOps script) /\ 0 <= scriptOps script <= 2 ^ 36.
Proof using.
  intros [Hb Hl]. destruct (script_walks_total script 0 Hb Hl) as (_ & _ & _ & _ & p & i & _ & Hi & Hp & Hle).
  unfold scriptOps, GetSigOpCount. rewrite Hi. split; [done|lia].
Qed.

Lemma sumM_ok {A} (f : A -> outcome RuleError Z) (g : A -> Z) l total :
  Forall (fun x => f x = Ok (g x)) l -> sumM f l total = Ok (total + sum (g <$> l)).
Proof using.
  intros Hl. revert total. induction Hl as [|x l Hx _ IH]; intros total; cbn [sumM fmap list_fmap].
  - cbn. f_equal. lia.
  - rewrite Hx, bind_Ok, IH, sum_cons. f_equal. lia.
Qed.

Lemma sum_range {A} (g : A -> Z) m l : Forall (fun x => 0 <= g x <= m) l -> 0 <= sum (g <$> l) <= m * Zlen l.
Proof using.
  induction 1 as [|x l Hx _ IH]; [cbn; change (Zlen (@nil A)) with 0; lia|].
  rewrite fmap_cons, sum_cons, Zlen_cons. lia.
Qed.

Lemma CountSigOps_ok tx : tx_ok tx -> CountSigOps tx = Ok (sigOps tx) /\ 0 <= sigOps tx <= 2 ^ 56.
Proof using.
  intros [Hi Ho _ Hc]. unfold CountSigOps, sigOps.
  assert (Hi' : Forall (fun ti => 0 <= scriptOps (SignatureScript ti) <= 2 ^ 36) (TxIns tx))
    by (eapply list.Forall_impl; [exact Hi|]; intros ti Ht; by apply scriptOps_ok).
  assert (Ho' : Forall (fun o => 0 <= scriptOps (PkScript o) <= 2 ^ 36) (TxOuts tx))
    by (eapply list.Forall_impl; [exact Ho|]; intros o Hx; by apply scriptOps_ok).
  rewrite (sumM_ok _ (fun ti => scriptOps (SignatureScript ti))).
  - rewrite bind_Ok, (sumM_ok _ (fun o => scriptOps (PkScript o))).
    + split; [f_equal; lia|]. pose proof (sum_range _ _ _ Hi'). pose proof (sum_range _ _ _ Ho'). lia.
    + eapply list.Forall_impl; [exact Ho|]. intros o Hx. by rewrite (proj1 (scriptOps_ok _ Hx)).
  - eapply list.Forall_impl; [exact Hi|]. intros ti Ht. by rewrite (proj1 (scriptOps_ok _ Ht)).
Qed.

Lemma sigOpsLoop_iff txs : Forall tx_ok txs -> forall total, 0 <= total <= MaxBlockSigOpsCost ->
  sigOpsLoop txs total = Ok () <-> total + 4 * sum (sigOps <$> txs) <= MaxBlockSigOpsCost.
Proof using.
  induction 1 as [|tx txs Htx Htxs IH]; intros total Ht; cbn [sigOpsLoop].
  { cbn. split; [lia|done]. }
  destruct (CountSigOps_ok tx Htx) as [-> Hn]. rewrite bind_Ok, fmap_cons, sum_cons.
  assert (Hrest : 0 <= sum (sigOps <$> txs)).
  { clear -Htxs. induction Htxs as [|x l Hx _ IHx]; [done|]. rewrite fmap_cons, sum_cons.
    destruct (CountSigOps_ok x Hx). lia. }
  change WitnessScaleFactor with 4. unfold MaxBlockSigOpsCost in *. rewrite i64_small by lia.
  rewrite (proj2 (Z.ltb_ge _ total)) by lia. cbn [orb].
  destruct (Z.ltb_spec 80000 (total + sigOps tx * 4)); [split; [done|lia]|]. rewrite IH by lia. lia.
Qed.

Lemma checkAll_iff {A} (f : A -> outcome RuleError unit) l : checkAll f l = Ok () <-> Forall (fun x => f x = Ok ()) l.
Proof using.
  induction l as [|x l IH]; cbn [checkAll]; [done|]. rewrite list.Forall_cons, <- IH.
  destruct (f x) as [[]| | |]; cbn; split; (done || by intros [? ?] || auto).
Qed.

Lemma duplicateTxs_iff txs : forall seen,
  duplicateTxs txs seen = Ok () <-> NoDup (TxHash <$> txs) /\ forall h, h ∈ TxHash <$> txs -> h ∉ seen.
Proof using.
  induction txs as [|tx txs IH]; intros seen; cbn [duplicateTxs].
  { split; [|done]. intros _. split; [constructor|]. by intros ? ?%not_elem_of_nil. }
  rewrite fmap_cons, list.NoDup_cons. case_bool_decide as Hin.
  - split; [done|]. intros [_ Hs]. exfalso. by apply (Hs (TxHash tx)); [apply list.elem_of_cons; left|].
  - rewrite IH. split.
    + intros [Hnd Hs]. split_and!; [|done|].
      * intros Hc. apply (Hs _ Hc). set_solver.
      * intros h [->|Hh]%list.elem_of_cons; [done|]. intros Hc. apply (Hs h Hh). set_solver.
    + intros [[Hni Hnd] Hs]. split; [done|]. intros h Hh [->%elem_of_singleton|Hc]%elem_of_union; [done|].
      apply (Hs h); [by apply list.elem_of_cons; right|done].
Qed.

(** What checkBlockSanity promises of a block. *)
Record sane_block (block : MsgBlock) (powLimit adjustedTime flags : Z) : Prop := {
  sb_work : checkProofOfWork (Wire.Header block) powLimit flags = Ok ();
  sb_time : Wire.Timestamp (Wire.Header block) <= adjustedTime + MaxTimeOffsetSeconds;
  sb_txs : 1 <= Zlen (Transactions block) <= MaxBlockBaseSize;
  sb_size : MsgBlock_SerializeSizeStripped block <= MaxBlockBaseSize;
  sb_coinbase : exists cb rest, Transactions block = cb :: rest /\ IsCoinBaseTx cb = true /\
    Forall (fun tx => IsCoinBaseTx tx = false) rest;
  sb_sane : Forall sane (Transactions block);
  sb_root : Wire.MerkleRoot (Wire.Header block) = Merkle.merkleRoot (TxHash <$> Transactions block);
  sb_distinct : NoDup (TxHash <$> Transactions block);
  sb_ops : 4 * sum (sigOps <$> Transactions block) <= MaxBlockSigOpsCost;
}.

Lemma no_coinbase txs : existsb IsCoinBaseTx txs = false <-> Forall (fun tx => IsCoinBaseTx tx = false) txs.
Proof using.
  induction txs as [|tx txs IH]; [done|]. cbn [existsb]. rewrite orb_false_iff, list.Forall_cons. tauto.
Qed.

(** Blocks that fail one of the checks are not sane. *)
Ltac refuted := split; [done|let Hb := fresh "Hb" in intros Hb; exfalso; destruct Hb; try (congruence || lia)].

(** C11.  The check of a block without its context accepts exactly the sane
    blocks: enough work, not from the future, within the size limits, one
    coinbase that comes first, sane transactions with distinct hashes that
    the header's root commits to, and signature operations within the limit
    as integers. *)
Theorem checkBlockSanity_iff block powLimit adjustedTime flags (Hok : Forall tx_ok (Transactions block)) :
  checkBlockSanity block powLimit adjustedTime flags = Ok () <-> sane_block block powLimit adjustedTime flags.
Proof using.
  unfold checkBlockSanity, CheckBlockHeaderSanity.
  destruct (checkProofOfWork _ powLimit flags) as [[]|e| |] eqn:Hpow; [|refuted..].
  rewrite bind_Ok. destruct (Z.ltb_spec (adjustedTime + MaxTimeOffsetSeconds) (Wire.Timestamp (Wire.Header block))); [refuted|].
  rewrite bind_Ok. pose proof (Zlen_nonneg (Transactions block)).
  destruct (Z.eqb_spec (Zlen (Transactions block)) 0); [refuted|].
  destruct (Z.ltb_spec MaxBlockBaseSize (Zlen (Transactions block))); [refuted|].
  destruct (Z.ltb_spec MaxBlockBaseSize (MsgBlock_SerializeSizeStripped block)); [refuted|].
  destruct (Transactions block) as [|cb rest] eqn:Htxs; [done|]. rewrite index_cons_0, bind_Ok.
  assert (Hfirst : sane_block block powLimit adjustedTime flags -> IsCoinBaseTx cb = true /\ existsb IsCoinBaseTx rest = false).
  { intros [_ _ _ _ (cb' & rest' & Heq & Hcb' & Hrest') _ _ _ _]. rewrite Htxs in Heq. injection Heq as <- <-.
    by rewrite no_coinbase. }
  destruct (IsCoinBaseTx cb) eqn:Hcb; cbn [negb]; [|by split; [|intros [? _]%Hfirst]].
  rewrite (slice_suffix [cb] rest) by (rewrite ?Zlen_cons; change (Zlen (@nil MsgTx)) with 0; lia). rewrite bind_Ok.
  destruct (existsb IsCoinBaseTx rest) eqn:Hrest; [by split; [|intros [_ ?]%Hfirst]|].
  rewrite <- Htxs in *.
  assert (Hsane : checkAll CheckTransactionSanity (Transactions block) = Ok () <-> Forall sane (Transactions block)).
  { rewrite checkAll_iff, !list.Forall_forall. split; intros Hf tx Htx.
    - apply CheckTransactionSanity_iff; [|by apply Hf]. rewrite list.Forall_forall in Hok. by destruct (Hok tx Htx).
    - apply CheckTransactionSanity_iff; [|by apply Hf]. rewrite list.Forall_forall in Hok. by destruct (Hok tx Htx). }
  destruct (checkAll _ _) as [[]|e| |]; [|refuted; by apply Hsane in sb_sane0..].
  rewrite bind_Ok, CalcMerkleRoot_spec, bind_Ok, txids_map; [|by rewrite Htxs|unfold MaxBlockBaseSize in *; lia].
  case_bool_decide as Hroot; cbn [negb]; [|refuted].
  destruct (duplicateTxs _ _) as [[]|e| |] eqn:Hdup.
  2-4: refuted; assert (duplicateTxs (Transactions block) ∅ = Ok ()) by (apply duplicateTxs_iff; set_solver); congruence.
  apply duplicateTxs_iff in Hdup as [Hdup _]. rewrite bind_Ok, sigOpsLoop_iff by (done || unfold MaxBlockSigOpsCost; lia).
  split; [intros Hops|by intros [_ _ _ _ _ _ _ _ ?]].
  split; try done; [lia| |by apply Hsane]. exists cb, rest. by rewrite no_coinbase in Hrest.
Qed.

(** ** Relative lock times *)

Lemma pastTimestamps_range k : forall n, wf n -> Forall (fun t => 0 <= t < 2 ^ 32) (pastTimestamps k (Some n)).
Proof using.
  induction k as [|k IH]; intros n Hn; cbn [pastTimestamps]; [constructor|]. apply wf_unfold in Hn as Hu.
  destruct Hu as (Ht & _ & Hp). constructor; [done|]. destruct (parent n) as [p|]; [apply IH, Hp|by destruct k; constructor].
Qed.

Lemma median_range n : wf n -> exists t, CalcPastMedianTime n = Ok t /\ 0 <= t < 2 ^ 32.
Proof using.
  intros Hn. destruct (median_spec n) as (t & Ht & _). exists t. split; [done|].
  unfold CalcPastMedianTime in Ht. apply index_ok_iff in Ht as [_ Ht]. apply list_elem_of_lookup_2 in Ht.
  unfold sortTimes in Ht. rewrite merge_sort_Permutation in Ht.
  pose proof (pastTimestamps_range medianTimeBlocks n Hn) as Hf. rewrite list.Forall_forall in Hf. by apply Hf.
Qed.

Lemma flag_set n k : 0 <= k -> (Z.land n (2 ^ k) =? 2 ^ k) = Z.testbit n k.
Proof using.
  intros Hk. rewrite land_pow2 by done. destruct (Z.testbit n k); cbn [Z.b2z]; lia.
Qed.

(** The height at which an output came, that of the next block for one that
    is not mined yet. *)
Definition inputHeight (node : blockNode) (e : UtxoEntry) : Z :=
  if blockHeight e =? 0x7fffffff then height node + 1 else blockHeight e.

(** The relative lock of an input, as it is meant: so many blocks after the
    block of the output, or so many units of 512 seconds after the median
    time of the block before that one. *)
Definition lock_met (node : blockNode) (e : UtxoEntry) (ti : TxIn) (h t : Z) : Prop :=
  Z.testbit (Sequence ti) 31 = false ->
  if Z.testbit (Sequence ti) 22 then
    exists a mt, Ancestor node (Z.max 0 (inputHeight node e - 1)) = Some a /\ CalcPastMedianTime a = Ok mt /\
      mt + 512 * (Sequence ti mod 2 ^ 16) <= t
  else inputHeight node e + Sequence ti mod 2 ^ 16 <= h.

(** The entries a view can hold for a block after [node]. *)
Definition view_before (node : blockNode) (v : UtxoViewpoint) (ins : list TxIn) : Prop :=
  Forall (fun ti => 0 <= Sequence ti < 2 ^ 32 /\ forall e, LookupEntry v (PreviousOutPoint ti) = Some e ->
    0 <= blockHeight e <= height node + 1 \/ blockHeight e = 0x7fffffff) ins.

Lemma inputHeight_range node e : wf node ->
  0 <= blockHeight e <= height node + 1 \/ blockHeight e = 0x7fffffff -> 0 <= inputHeight node e <= height node + 1.
Proof using. intros Hw%wf_height He. unfold inputHeight. destruct (Z.eqb_spec (blockHeight e) 0x7fffffff); lia. Qed.

Definition lock_holds (l : SequenceLock) (h t : Z) : Prop := Seconds l < t /\ BlockHeight l < h.

Lemma SequenceLockActive_iff l h t : SequenceLockActive l h t = true <-> lock_holds l h t.
Proof using. unfold SequenceLockActive, lock_holds. destruct (_ || _) eqn:Hl; split; (done || lia). Qed.

Lemma lockInputs_spec node v (Hw : wf node) (Hh : height node + 2 ^ 17 < 2 ^ 31) ins (Hins : view_before node v ins) : forall l,
  (exists l', lockInputs node ins v l = Ok l' /\
    forall h t, lock_holds l' h t <-> lock_holds l h t /\
      Forall (fun ti => exists e, LookupEntry v (PreviousOutPoint ti) = Some e /\ lock_met node e ti h t) ins) \/
  lockInputs node ins v l = Err ErrMissingTxOut /\ Exists (fun ti => LookupEntry v (PreviousOutPoint ti) = None) ins.
Proof using.
  induction Hins as [|ti ins [Hs He] _ IH]; intros l; cbn [lockInputs].
  { left. exists l. split; [done|]. intros h t. split; [intros Hl; split; [done|constructor]|by intros [? _]]. }
  destruct (LookupEntry v (PreviousOutPoint ti)) as [e|] eqn:Hl; [|right; split; [done|by left]].
  specialize (He e eq_refl). pose proof (inputHeight_range node e Hw He) as Hih. pose proof (wf_height node Hw).
  rewrite (i32_small (height node + 1)) by lia. fold (inputHeight node e).
  change SequenceLockTimeDisabled with (2 ^ 31). change SequenceLockTimeIsSeconds with (2 ^ 22).
  change SequenceLockTimeMask with (Z.ones 16). rewrite !flag_set, Z.land_ones by lia.
  pose proof (Z.mod_pos_bound (Sequence ti) (2 ^ 16) ltac:(lia)) as Hm.
  assert (Hnext : forall l1, (forall h t, lock_holds l1 h t <-> lock_holds l h t /\ lock_met node e ti h t) ->
    (exists l', lockInputs node ins v l1 = Ok l' /\
      forall h t, lock_holds l' h t <-> lock_holds l h t /\
        Forall (fun ti => exists e, LookupEntry v (PreviousOutPoint ti) = Some e /\ lock_met node e ti h t) (ti :: ins)) \/
    lockInputs node ins v l1 = Err ErrMissingTxOut /\ Exists (fun ti => LookupEntry v (PreviousOutPoint ti) = None) (ti :: ins)).
  { intros l1 Hl1. destruct (IH l1) as [(l' & Hok & Hl')|[Herr Hex]]; [left|right; split; [done|by right]].
    exists l'. split; [done|]. intros h t. rewrite Hl', Hl1, list.Forall_cons, Hl. split.
    - intros [[? ?] ?]. split_and!; try done. by exists e.
    - intros (? & (e' & [= <-] & ?) & ?). done. }
  unfold lock_met in Hnext. destruct (Z.testbit (Sequence ti) 31); [apply Hnext; intros; split; [done|by intros [? _]]|].
  destruct (Z.testbit (Sequence ti) 22).
  - rewrite (i32_small (inputHeight node e - 1)) by lia.
    replace (if inputHeight node e - 1 <? 0 then 0 else inputHeight node e - 1)
      with (Z.max 0 (inputHeight node e - 1)) by (destruct (Z.ltb_spec (inputHeight node e - 1) 0); lia).
    pose proof (Ancestor_chain node (Z.max 0 (inputHeight node e - 1)) Hw) as Ha.
    rewrite !(proj2 (Z.leb_le _ _)) in Ha by lia. cbn [andb] in Ha.
    destruct (Ancestor node _) as [a|] eqn:Han.
    2: { symmetry in Ha. apply lookup_ge_None in Ha. rewrite chain_length_nat in Ha by done. lia. }
    destruct (chain_sub node a Hw) as [Hwa _]; [by eapply Ancestor_mem|].
    destruct (median_range a Hwa) as (mt & Hmt & Hmr). rewrite Hmt, bind_Ok.
    change SequenceLockTimeGranularity with 9. rewrite Z.shiftl_mul_pow2 by lia. change (2 ^ 9) with 512.
    rewrite !i64_small by (rewrite ?i64_small; lia). apply Hnext. intros h t. unfold lock_holds.
    assert (Heq : (false = false -> exists a0 mt0, Some a = Some a0 /\ CalcPastMedianTime a0 = Ok mt0 /\
        mt0 + 512 * (Sequence ti mod 2 ^ 16) <= t) <-> mt + 512 * (Sequence ti mod 2 ^ 16) <= t).
    { split; [intros (? & ? & [= <-] & Heq & ?); [done|]; rewrite Hmt in Heq; by injection Heq as <-|intros ? _; by exists a, mt]. }
    rewrite Heq. destruct (Z.ltb_spec (Seconds l) (mt + (Sequence ti mod 2 ^ 16 * 512 - 1))); cbn; lia.
  - rewrite !i32_small by (rewrite ?i32_small; lia). apply Hnext. intros h t. unfold lock_holds.
    destruct (Z.ltb_spec (BlockHeight l) (inputHeight node e + (Sequence ti mod 2 ^ 16 - 1))); cbn; intuition lia.
Qed.

(** The state of the deployment that relative locks wait for. *)
Definition csvActive (c : chainConfig) (bi : blockIndex) (node : blockNode) (mempool : bool)
    (caches : list thresholdStateCache) (csv : bool) (caches' : list thresholdStateCache) : Prop :=
  if mempool then csv = true /\ caches' = caches
  else exists st, deploymentState (ChainParams (ctx c)) bi (Deployments c) (parent node) DeploymentCSV caches = Ok (st, caches') /\
         csv = bool_decide (st = ThresholdActive).

(** C16.  The lock that calcSequenceLock computes is met at a height and
    time exactly when every input has waited as long as its sequence number
    says, in blocks or in units of 512 seconds, and no transaction waits that
    the rule does not apply to; the only error is a missing output. *)
Theorem calcSequenceLock_met c bi node tx v mempool caches csv caches'
    (Hw : wf node) (Hh : height node + 2 ^ 17 < 2 ^ 31) (Hv : view_before node v (TxIns tx))
    (Hcsv : csvActive c bi node mempool caches csv caches') :
  let enforced := (2 <=? u32 (Version tx)) && csv && negb (IsCoinBaseTx tx) in
  (exists lock, calcSequenceLock c bi node tx v mempool caches = Ok (lock, caches') /\
    forall h t, 0 <= h -> 0 <= t -> SequenceLockActive lock h t = true <->
      (enforced = true -> Forall (fun ti => exists e, LookupEntry v (PreviousOutPoint ti) = Some e /\ lock_met node e ti h t) (TxIns tx))) \/
  calcSequenceLock c bi node tx v mempool caches = Err ErrMissingTxOut /\ enforced = true /\
    Exists (fun ti => LookupEntry v (PreviousOutPoint ti) = None) (TxIns tx).
Proof using.
  intros enforced. unfold calcSequenceLock.
  assert (Hrun : (if mempool then Ok (true, caches)
     else '(csvState, caches) ← deploymentState (ChainParams (ctx c)) bi (Deployments c) (parent node) DeploymentCSV caches;
          Ok (bool_decide (csvState = ThresholdActive), caches)) = @Ok RuleError _ (csv, caches')).
  { unfold csvActive in Hcsv. destruct mempool; [by destruct Hcsv as [-> ->]|]. by destruct Hcsv as (st & -> & ->). }
  rewrite Hrun, bind_Ok.
  assert (Hstart : forall h t, 0 <= h -> 0 <= t -> lock_holds (mkSequenceLock (-1) (-1)) h t) by (intros; split; cbn; lia).
  assert (Hgate : negb ((2 <=? u32 (Version tx)) && csv) || IsCoinBaseTx tx = negb enforced)
    by (unfold enforced; destruct (_ && csv), (IsCoinBaseTx tx); done).
  rewrite Hgate. destruct enforced; cbn [negb].
  - destruct (lockInputs_spec node v Hw Hh (TxIns tx) Hv (mkSequenceLock (-1) (-1))) as [(l & -> & Hl)|[-> Hex]]; [left|right].
    + exists l. split; [done|]. intros h t H0 H1. rewrite SequenceLockActive_iff, Hl. split; [by intros [_ ?] _|]. intros Hf.
      split; [by apply Hstart|by apply Hf].
    + done.
  - left. eexists. split; [done|]. intros h t H0 H1. rewrite SequenceLockActive_iff. split; [done|]. intros _. by apply Hstart.
Qed.
End Hash.

(** ** Concrete instances *)
Module Toy.
Import SigHash.Toy Utxo.Toy Deployments.Toy.
#[local] Existing Instance toy_hashes.

Definition good : MsgBlock :=
  mkMsgBlock (mkBlockHeader 4 zeroHash (Merkle.merkleRoot (TxHash <$> [cb; pay])) 1000 0x207fffff 0) [cb; pay].

Lemma tx_ok_intro tx : bool_decide (Forall (fun ti => bytes_ok (SignatureScript ti) /\ Zlen (SignatureScript ti) < 2 ^ 31) (TxIns tx)) = true ->
  bool_decide (Forall (fun o => bytes_ok (PkScript o) /\ Zlen (PkScript o) < 2 ^ 31) (TxOuts tx)) = true ->
  bool_decide (Forall (fun o => - 2 ^ 63 <= Value o < 2 ^ 63) (TxOuts tx)) = true ->
  (Zlen (TxIns tx) + Zlen (TxOuts tx) <=? 2 ^ 20) = true -> tx_ok tx.
Proof. rewrite !bool_decide_eq_true, Z.leb_le. by split. Qed.

Lemma checkBlockSanity_iff_witness : checkBlockSanity good (2 ^ 255) 1000 BFNoPoWCheck = Ok () /\
  sane_block good (2 ^ 255) 1000 BFNoPoWCheck.
Proof.
  assert (Hc : checkBlockSanity good (2 ^ 255) 1000 BFNoPoWCheck = Ok ()) by (vm_compute; reflexivity). split; [exact Hc|].
  apply checkBlockSanity_iff; [|exact Hc].
  apply Forall_cons_2; [|apply Forall_cons_2; [|apply Forall_nil_2]]; apply tx_ok_intro; vm_compute; reflexivity.
Defined.

(** An output of block 5 with a lock of three blocks. *)
Definition waits : MsgTx := mkMsgTx 2 [mkTxIn old [] [] 3] [mkTxOut 400 [0x52]] 0.
Definition config : chainConfig := mkConfig (mkChainCtx params 1 1 1) (hash m0) deps [].

Lemma calcSequenceLock_met_witness :
  exists lock, calcSequenceLock config bi m5 waits start true [] = Ok (lock, []) /\
    SequenceLockActive lock 8 0 = true /\ SequenceLockActive lock 7 0 = false.
Proof.
  assert (He : LookupEntry start old = Some (mkEntry 700 [0x51] 5 tfCoinBase)) by (vm_compute; reflexivity).
  destruct (calcSequenceLock_met config bi m5 waits start true [] true []) as [(lock & Hok & Hl)|(_ & _ & Hex)].
  - vm_compute; reflexivity.
  - by vm_compute.
  - apply Forall_cons_2; [|apply Forall_nil_2]. cbn [PreviousOutPoint Sequence]. split; [lia|]. rewrite He. intros e [= <-]. left.
    cbn [blockHeight]. change (height m5) with 5. lia.
  - by split.
  - exists lock. split; [exact Hok|]. split.
    + apply Hl; [lia|lia|]. intros _. apply Forall_cons_2; [|apply Forall_nil_2]. cbn [PreviousOutPoint]. eexists. split; [exact He|].
      intros _. by vm_compute.
    + apply not_true_iff_false. intros Ha. pose proof (proj1 (Hl 7 0 ltac:(lia) ltac:(lia)) Ha eq_refl) as Hf. clear Ha; rename Hf into Ha. apply Forall_inv in Ha.
      cbn [PreviousOutPoint] in Ha. destruct Ha as (e & He' & Hm). rewrite He in He'. injection He' as <-. specialize (Hm eq_refl).
      vm_compute in Hm. by apply Hm.
  - exfalso. apply Exists_cons in Hex as [Hex|Hex]; [|by inversion Hex]. cbn [PreviousOutPoint] in Hex. congruence.
Defined.

End Toy.
End BlockRules.
