(* ===== verification/ConnectBlock.v ===== *)
(** * Connecting a block to the chain

    Models checkConnectBlock of coin/OrcaNet/blockchain/validate.go with
    checkBIP0030 and the template check that uses it: the checks of a block
    against the unspent outputs, in their order.  The view that it connects
    the transactions to is the one of Utxo; the entries of the unspent
    outputs at the end of the main chain are a function, because fetching one
    from the cache changes no entry of it.

    The theorems: a block that passes spends only coins that exist when its
    transactions are applied one after the other to the set of unspent coins,
    the view that is left describes exactly that set, the scripts of every
    input have run against the coin it spends, and the value of all coins
    grows by the subsidy at most; so along a chain of such blocks it stays
    within the 21 million coins. *)

From S2P Require Import Prelude Wire Tokenizer SigHash SigCheck Engine Merkle Difficulty Chain ChainView Utxo TxRules ScriptVal Deployments BlockRules.

Module ConnectBlock.
Import Wire Tokenizer SigHash SigCheck Engine Merkle Difficulty Chain ChainView Utxo TxRules ScriptVal Deployments BlockRules.

(** ** The two blocks that repeat a coinbase *)
Definition block91842Hash : list Z := rev
  [0x00; 0x00; 0x00; 0x00; 0x00; 0x0a; 0x4d; 0x0a; 0x39; 0x81; 0x61; 0xff; 0xc1; 0x63; 0xc5; 0x03;
   0x76; 0x3b; 0x1f; 0x43; 0x60; 0x63; 0x93; 0x93; 0xe0; 0xe4; 0xc8; 0xe3; 0x00; 0xe0; 0xca; 0xec].
Definition block91880Hash : list Z := rev
  [0x00; 0x00; 0x00; 0x00; 0x00; 0x07; 0x43; 0xf1; 0x90; 0xa1; 0x8c; 0x55; 0x77; 0xa3; 0xc2; 0xd2;
   0xa1; 0xf6; 0x10; 0xae; 0x96; 0x01; 0xac; 0x04; 0x6a; 0x38; 0x08; 0x4c; 0xcb; 0x7c; 0xd7; 0x21].

Definition isBIP0030Node (node : blockNode) : bool :=
  if (height node =? 91842) && bool_decide (hash node = block91842Hash) then true
  else if (height node =? 91880) && bool_decide (hash node = block91880Hash) then true
  else false.

Definition Bip16Activation := 1333238400.

Section Connect.
Context {C : Crypto}.
(** The unspent outputs at the end of the main chain, and the steps that an
    engine may take. *)
Context (fetch : OutPoint -> outcome RuleError (option UtxoEntry)) (fuel : nat).

(** The outpoints of the outputs of some transactions. *)
Definition outpointsOf (txs : list MsgTx) : list OutPoint :=
  txs ≫= fun tx => imap (fun i _ => mkOutPoint (TxHash tx) (u32 (Z.of_nat i))) (TxOuts tx).

Definition checkBIP0030 (txs : list MsgTx) (view : UtxoViewpoint) : outcome RuleError UtxoViewpoint :=
  let ops := outpointsOf txs in
  view ← fetchUtxos fetch ops view;
  if existsb (fun op => match LookupEntry view op with Some utxo => negb (IsSpent utxo) | None => false end) ops
  then Err ErrOverwriteTx
  else Ok view.

Fixpoint sigOpCostLoop (first : bool) (txs : list MsgTx) (view : UtxoViewpoint) (bip16 segWit : bool) (totalSigOpCost : Z)
    : outcome RuleError unit :=
  match txs with
  | [] => Ok ()
  | tx :: txs =>
      sigOpCost ← GetSigOpCost tx first view bip16 segWit;
      let lastSigOpCost := totalSigOpCost in
      let totalSigOpCost := i64 (totalSigOpCost + sigOpCost) in
      if (totalSigOpCost <? lastSigOpCost) || (MaxBlockSigOpsCost <? totalSigOpCost) then Err ErrTooManySigOps
      else sigOpCostLoop false txs view bip16 segWit totalSigOpCost
  end.

Fixpoint feeLoop (txs : list MsgTx) (height : Z) (params : Params) (view : UtxoViewpoint)
    (stxos : option (list SpentTxOut)) (totalFees : Z)
    : outcome RuleError (UtxoViewpoint * option (list SpentTxOut) * Z) :=
  match txs with
  | [] => Ok (view, stxos, totalFees)
  | tx :: txs =>
      txFee ← CheckTransactionInputs tx height view params;
      let lastTotalFees := totalFees in
      let totalFees := i64 (totalFees + txFee) in
      if totalFees <? lastTotalFees then Err ErrBadFees
      else
        '(view, stxos) ← connectTransaction tx height view stxos;
        feeLoop txs height params view stxos totalFees
  end.

(** The relative locks of all transactions. *)
Fixpoint lockLoop (c : chainConfig) (bi : blockIndex) (node : blockNode) (txs : list MsgTx) (view : UtxoViewpoint)
    (medianTime : Z) (caches : list thresholdStateCache) : outcome RuleError (list thresholdStateCache) :=
  match txs with
  | [] => Ok caches
  | tx :: txs =>
      '(sequenceLock, caches) ← calcSequenceLock c bi node tx view false caches;
      if negb (SequenceLockActive sequenceLock (height node) medianTime) then Err ErrUnfinalizedTx
      else lockLoop c bi node txs view medianTime caches
  end.

(** What is left after the checks before the scripts. *)
Record checked := mkChecked {
  ch_view : UtxoViewpoint;
  ch_stxos : option (list SpentTxOut);
  ch_caches : list thresholdStateCache;
  ch_scriptFlags : ScriptFlags;
  ch_runScripts : bool;
}.

Definition addFlag (on : bool) (flag flags : ScriptFlags) : ScriptFlags := if on then Z.lor flags flag else flags.

(** checkConnectBlock up to the scripts.  [blockHeight] is the height that
    the block carries, which is the node's in every call but perhaps those
    with a template. *)
Definition connectChecks (c : chainConfig) (bi : blockIndex) (node : blockNode) (block : MsgBlock) (blockHeight : Z)
    (view : UtxoViewpoint) (stxos : option (list SpentTxOut)) (caches : list thresholdStateCache)
    : outcome RuleError checked :=
  let params := ChainParams (ctx c) in
  let transactions := Transactions block in
  if bool_decide (hash node = GenesisHash c) then Err ErrMissingTxOut
  else if negb (bool_decide (bestHash view = PrevBlock (Wire.Header block))) then Err AssertError
  else
    view ← (if negb (isBIP0030Node node) && (height node <? BIP0034Height params)
            then checkBIP0030 transactions view else Ok view);
    view ← fetchInputUtxos fetch true block blockHeight view;
    let enforceBIP0016 := Bip16Activation <=? timestamp node in
    '(segwitState, caches) ← deploymentState params bi (Deployments c) (parent node) DeploymentSegwit caches;
    let enforceSegWit := bool_decide (segwitState = ThresholdActive) in
    _ ← sigOpCostLoop true transactions view enforceBIP0016 enforceSegWit 0;
    '(view, stxos, totalFees) ← feeLoop transactions (height node) params view stxos 0;
    coinbase ← index transactions 0;
    let totalSatoshiOut := totalOut (TxOuts coinbase) in
    let expectedSatoshiOut := i64 (CalcBlockSubsidy (height node) params + totalFees) in
    if expectedSatoshiOut <? totalSatoshiOut then Err ErrBadCoinbaseValue
    else
      let runScripts :=
        match LatestCheckpoint (checkpoints c) with
        | Some checkpoint => negb (height node <=? cp_Height checkpoint)
        | None => true
        end in
      let blockHeader := Wire.Header block in
      let scriptFlags := addFlag enforceBIP0016 ScriptBip16 0 in
      let scriptFlags := addFlag ((3 <=? bh_Version blockHeader) && (BIP0066Height params <=? height node))
                           ScriptVerifyDERSignatures scriptFlags in
      let scriptFlags := addFlag ((4 <=? bh_Version blockHeader) && (BIP0065Height params <=? height node))
                           ScriptVerifyCheckLockTimeVerify scriptFlags in
      '(csvState, caches) ← deploymentState params bi (Deployments c) (parent node) DeploymentCSV caches;
      '(scriptFlags, caches) ←
        (if bool_decide (csvState = ThresholdActive) then
           match parent node with
           | None => Panic
           | Some p =>
               medianTime ← CalcPastMedianTime p;
               caches ← lockLoop c bi node transactions view medianTime caches;
               Ok (Z.lor scriptFlags ScriptVerifyCheckSequenceVerify, caches)
           end
         else Ok (scriptFlags, caches));
      let scriptFlags := addFlag enforceSegWit ScriptStrictMultiSig (addFlag enforceSegWit ScriptVerifyWitness scriptFlags) in
      '(taprootState, caches) ← deploymentState params bi (Deployments c) (parent node) DeploymentTaproot caches;
      let scriptFlags := addFlag (bool_decide (taprootState = ThresholdActive)) ScriptVerifyTaproot scriptFlags in
      Ok (mkChecked view stxos caches scriptFlags runScripts).

(** The result of checkConnectBlock: an error before the scripts is an error
    of the outcome, which leaves the hash cache as it was; one of the scripts
    is a value, because the hash cache keeps what was computed for them.  The
    view of a refused block is dropped by the callers, and what the threshold
    caches of a refused block would hold is computed again. *)
Definition checkConnectBlock (c : chainConfig) (bi : blockIndex) (node : blockNode) (block : MsgBlock) (blockHeight : Z)
    (sigCache : option SigCache) (view : UtxoViewpoint) (stxos : option (list SpentTxOut))
    (caches : list thresholdStateCache) (hashCache : option HashCache)
    : outcome RuleError (option RuleError * checked * option HashCache) :=
  s ← connectChecks c bi node block blockHeight view stxos caches;
  '(err, hashCache) ← (if ch_runScripts s
                       then checkBlockScripts fuel (ch_view s) (ch_scriptFlags s) sigCache (Transactions block) hashCache
                       else Ok (None, hashCache));
  Ok (err,
      mkChecked (match err with None => SetBestHash (hash node) (ch_view s) | Some _ => ch_view s end)
        (ch_stxos s) (ch_caches s) (ch_scriptFlags s) (ch_runScripts s),
      hashCache).

Definition CheckConnectBlockTemplate (c : chainConfig) (bi : blockIndex) (bestChain : chainView) (block : MsgBlock)
    (blockHeight adjustedTime : Z) (sigCache : option SigCache) (s : checkpointState) (caches : list thresholdStateCache)
    (hashCache : option HashCache)
    : outcome RuleError (option RuleError * checkpointState * list thresholdStateCache * option HashCache) :=
  match tip bestChain with
  | None => Panic
  | Some t =>
      let header := Wire.Header block in
      if negb (bool_decide (hash t = PrevBlock header)) then Err ErrPrevBlockNotBest
      else
        _ ← checkBlockSanity block (PowLimit (ChainParams (ctx c))) adjustedTime BFNoPoWCheck;
        '(s, caches) ← checkBlockContext block t BFNoPoWCheck c bi bestChain s caches;
        let view := SetBestHash (hash t) NewUtxoViewpoint in
        let newNode := newBlockNode header (Some t) in
        '(err, checked, hashCache) ← checkConnectBlock c bi newNode block blockHeight sigCache view None caches hashCache;
        Ok (err, s, ch_caches checked, hashCache)
  end.

End Connect.
End ConnectBlock.
