(* ===== verification/ConnectSafe.v ===== *)
(** * What a connected block does to the coins

    The theorems on ConnectBlock: a block that checkConnectBlock passes is a
    sequence of transactions that spend existing coins once each, and the
    value of all coins grows by the subsidy at most.  The example at the end
    shows what the theorem needs its hypothesis on the order of the
    transactions for: where the check of BIP30 runs, the code lets a
    transaction spend an output of a later one, and creates the output a
    second time. *)

From S2P Require Import Prelude Wire Tokenizer SigHash SigCheck Engine Merkle Difficulty Chain ChainView Utxo TxRules ScriptVal Deployments BlockRules ConnectBlock.

Module ConnectSafe.
Import Wire Tokenizer SigHash SigCheck Engine Merkle Difficulty Chain ChainView Utxo TxRules ScriptVal Deployments BlockRules ConnectBlock.

(** ** The value of a set of coins *)
Definition total (m : gmap OutPoint coin) : Z := map_fold (fun _ c t => c_amount c + t) 0 m.

Lemma total_insert m op c : m !! op = None -> total (<[op := c]> m) = c_amount c + total m.
Proof. intros Hm. unfold total. rewrite map_fold_insert_L; [done| |done]. intros. lia. Qed.

Lemma total_delete m op c : m !! op = Some c -> total m = c_amount c + total (delete op m).
Proof. intros Hm. rewrite <- (insert_delete_id m op c Hm) at 1. apply total_insert, lookup_delete_eq. Qed.

(** What the coins of a chain satisfy. *)
Definition coin_ok (c : coin) : Prop := 0 <= c_amount c <= MaxSatoshi /\ 0 < c_height c < 2 ^ 31.
Definition utxo_ok (m : gmap OutPoint coin) : Prop :=
  map_Forall (fun op c => Wire.Index op <> MaxUint32 /\ coin_ok c) m.

Lemma total_nonneg m : utxo_ok m -> 0 <= total m.
Proof.
  induction m as [|op c m Hm IH] using map_ind; intros Hok; [done|].
  rewrite total_insert by done. apply map_Forall_insert in Hok as [(_ & [? _] & _) Hok]; [|done]. specialize (IH Hok). lia.
Qed.

Lemma total_insert_le m op c : utxo_ok m -> total (<[op := c]> m) <= c_amount c + total m.
Proof.
  intros Hok. destruct (m !! op) as [d|] eqn:Hm; [|by rewrite total_insert].
  rewrite <- (insert_delete_eq m op c), total_insert by apply lookup_delete_eq. rewrite (total_delete m op d Hm).
  destruct (Hok op d Hm) as (_ & [? _] & _). lia.
Qed.

Lemma utxo_ok_delete m op : utxo_ok m -> utxo_ok (delete op m).
Proof. apply map_Forall_delete. Qed.

Lemma utxo_ok_insert m op c : Wire.Index op <> MaxUint32 -> coin_ok c -> utxo_ok m -> utxo_ok (<[op := c]> m).
Proof. intros. by apply map_Forall_insert_2. Qed.

Lemma utxo_ok_spend ins : forall m, utxo_ok m -> utxo_ok (spendCoins ins m).
Proof. induction ins as [|ti ins IH]; intros m Hm; cbn [spendCoins]; [done|]. by apply IH, utxo_ok_delete. Qed.

(** Spending distinct coins takes their value away. *)
Lemma total_spend ins : NoDup (PreviousOutPoint <$> ins) -> forall m cs,
  Forall2 (fun ti c => m !! PreviousOutPoint ti = Some c) ins cs ->
  total m = coinSum cs + total (spendCoins ins m).
Proof.
  induction ins as [|ti ins IH]; intros Hnd m cs Hcs.
  - apply Forall2_nil_inv_l in Hcs as ->. done.
  - apply Forall2_cons_inv_l in Hcs as (c & cs' & Hc & Hcs & ->). rewrite fmap_cons in Hnd. apply list.NoDup_cons in Hnd as [Hni Hnd].
    cbn [spendCoins]. unfold coinSum. rewrite fmap_cons, sum_cons, (total_delete m _ c Hc). fold (coinSum cs').
    rewrite <- Z.add_assoc. f_equal. apply IH; [done|]. clear IH Hnd. induction Hcs as [|tj d ins cs' Hd _ IH]; [constructor|].
    constructor.
    + rewrite lookup_delete_ne; [done|]. intros Heq. apply Hni. rewrite Heq. by left.
    + apply IH. intros Hin. apply Hni. by right.
Qed.

(** Adding outputs adds at most their value. *)
Lemma add_ok hash outs cb height (Hh : 0 < height < 2 ^ 31) :
  Forall (fun o => 0 <= Value o <= MaxSatoshi) outs -> forall i m, 0 <= i -> i + Zlen outs < 2 ^ 32 -> utxo_ok m ->
  utxo_ok (addCoins hash i outs cb height m) /\ total (addCoins hash i outs cb height m) <= outSum outs + total m.
Proof.
  induction 1 as [|o outs Ho _ IH]; intros i m Hi Hl Hm; cbn [addCoins]; [split; [done|cbn; lia]|].
  rewrite Zlen_cons in Hl. pose proof (Zlen_nonneg outs). unfold outSum. rewrite fmap_cons, sum_cons. fold (outSum outs).
  destruct (unspendable (PkScript o)).
  - destruct (IH (i + 1) m) as [? ?]; [lia|lia|done|]. split; [done|lia].
  - set (c := mkCoin _ _ _ _). destruct (IH (i + 1) (<[mkOutPoint hash (u32 i) := c]> m)) as [Hok Hle]; [lia|lia| |].
    + apply utxo_ok_insert; [|by split|done]. cbn. rewrite u32_small by lia. unfold MaxUint32. lia.
    + split; [done|]. pose proof (total_insert_le m (mkOutPoint hash (u32 i)) c Hm). cbn in *. lia.
Qed.

(** ** Views over the unspent coins *)
Section Over.
Context (U : gmap OutPoint coin).

Definition entryOf (c : coin) : UtxoEntry :=
  mkEntry (c_amount c) (c_script c) (c_height c) (if c_coinbase c then tfCoinBase else 0).

(** The view that has fetched every coin it has no entry for. *)
Definition over (v : UtxoViewpoint) : UtxoViewpoint :=
  mkView (entries v ∪ (Some ∘ entryOf <$> U)) (bestHash v).

Lemma live_entryOf c : live (Some (entryOf c)) = Some c.
Proof. by destruct c as [? ? ? []]. Qed.

Lemma over_lookup v op : LookupEntry (over v) op = match entries v !! op with Some e => e | None => entryOf <$> U !! op end.
Proof.
  unfold LookupEntry, over. cbn. rewrite lookup_union, lookup_fmap. destruct (entries v !! op) as [e|], (U !! op); done.
Qed.

Lemma over_coins v op : coins (over v) !! op = match entries v !! op with Some e => live e | None => U !! op end.
Proof.
  rewrite coins_lookup, over_lookup. destruct (entries v !! op); [done|]. destruct (U !! op) as [c|]; [apply live_entryOf|done].
Qed.

Lemma over_set op e v : over (setEntry op e v) = setEntry op e (over v).
Proof. unfold over, setEntry. cbn. by rewrite insert_union_l. Qed.

Lemma over_found v op e : LookupEntry v op = Some e -> LookupEntry (over v) op = Some e.
Proof. rewrite over_lookup. unfold LookupEntry. by destruct (entries v !! op). Qed.

Lemma addOuts_over hash outs cb height : forall i v v',
  addOuts hash i outs cb height v = Ok v' -> addOuts hash i outs cb height (over v) = Ok (over v').
Proof.
  induction outs as [|o outs IH]; intros i v v'; cbn [addOuts]; [by intros [= <-]|]. unfold addTxOut.
  destruct (noErr _) as [[]| | |]; cbn [mbind outcome_bind]; try done; [apply IH|]. rewrite <- over_set. apply IH.
Qed.

Lemma spendInputs_over ins : forall v st v' st',
  spendInputs ins v st = Ok (v', st') -> spendInputs ins (over v) st = Ok (over v', st').
Proof.
  induction ins as [|ti ins IH]; intros v st v' st'; cbn [spendInputs]; [by intros [= <- <-]|].
  destruct (LookupEntry v _) as [e|] eqn:He; [|done]. rewrite (over_found v _ e He), <- over_set. apply IH.
Qed.

Lemma sumInputs_over ins height v params t : forall total,
  sumInputs ins height v params total = Ok t -> sumInputs ins height (over v) params total = Ok t.
Proof.
  induction ins as [|ti ins IH]; intros total; cbn [sumInputs]; [done|].
  destruct (LookupEntry v _) as [e|] eqn:He; [|done]. rewrite (over_found v _ e He). repeat case_match; try done. apply IH.
Qed.

Context {H : Hashes}.

Lemma connectTransaction_over tx height v st v' st' : connectTransaction tx height v st = Ok (v', st') ->
  connectTransaction tx height (over v) st = Ok (over v', st').
Proof.
  unfold connectTransaction, AddTxOuts. destruct (IsCoinBaseTx tx).
  - intros Hrun. apply outcome_bind_ok in Hrun as (w & Hw & Hrun). injection Hrun as <- <-. by rewrite (addOuts_over _ _ _ _ _ _ _ Hw).
  - intros Hrun. apply outcome_bind_ok in Hrun as ([w st1] & Hw & Hrun). apply outcome_bind_ok in Hrun as (w2 & Hw2 & Hrun).
    injection Hrun as <- <-. rewrite (spendInputs_over _ _ _ _ _ Hw), bind_Ok. by rewrite (addOuts_over _ _ _ _ _ _ _ Hw2).
Qed.

Lemma CheckTransactionInputs_over tx height v params fee : CheckTransactionInputs tx height v params = Ok fee ->
  CheckTransactionInputs tx height (over v) params = Ok fee.
Proof.
  unfold CheckTransactionInputs. destruct (IsCoinBaseTx tx); [done|]. intros Hrun.
  apply outcome_bind_ok in Hrun as (t & Ht & Hrun). by rewrite (sumInputs_over _ _ _ _ _ _ Ht).
Qed.

End Over.

Lemma feeLoop_over {C : Crypto} U txs height params : forall v st fees v' st' fees',
  feeLoop txs height params v st fees = Ok (v', st', fees') ->
  feeLoop txs height params (over U v) st fees = Ok (over U v', st', fees').
Proof.
  induction txs as [|tx txs IH]; intros v st fees v' st' fees'; cbn [feeLoop]; [by intros [= <- <- <-]|].
  intros Hrun. apply outcome_bind_ok in Hrun as (fee & Hfee & Hrun). rewrite (CheckTransactionInputs_over U _ _ _ _ _ Hfee), bind_Ok.
  destruct (_ <? fees); [done|]. apply outcome_bind_ok in Hrun as ([v1 st1] & Hc & Hrun).
  rewrite (connectTransaction_over U _ _ _ _ _ _ Hc), bind_Ok. by apply IH.
Qed.

(** ** One transaction after the other *)
Section Loop.
Context {C : Crypto}.

Abbreviation hashes txs := (TxHash <$> txs).

Lemma applyTx_other height tx m op : Wire.Hash op <> TxHash tx ->
  applyTx height tx m !! op =
  if negb (IsCoinBaseTx tx) && bool_decide (op ∈ PreviousOutPoint <$> TxIns tx) then None else m !! op.
Proof using.
  intros Hne. unfold applyTx. rewrite addCoins_other by (intros Hin%added_hash; done).
  destruct (IsCoinBaseTx tx); cbn [negb andb]; [done|]. rewrite spendCoins_drop, dropCoins_lookup.
  repeat case_decide; try done; case_bool_decide; done.
Qed.

Lemma addCoins_same hash outs cb height op : forall i m1 m2, op ∈ added hash i outs \/ m1 !! op = m2 !! op ->
  addCoins hash i outs cb height m1 !! op = addCoins hash i outs cb height m2 !! op.
Proof using.
  induction outs as [|o outs IH]; intros i m1 m2; cbn [added addCoins]; [by intros [?%not_elem_of_nil|]|].
  destruct (unspendable (PkScript o)); cbn [app]; [apply IH|]. intros Hin. apply IH.
  destruct (decide (op = mkOutPoint hash (u32 i))) as [->|Hne]; [right; by rewrite !lookup_insert_eq|].
  rewrite !lookup_insert_ne by done. destruct Hin as [[Heq|Hin]%list.elem_of_cons|Heq]; [done|by left|by right].
Qed.

Lemma heights_ok_apply tx height m : 0 <= height < 2 ^ 31 -> Forall (fun o => - 2 ^ 63 <= Value o < 2 ^ 63) (TxOuts tx) ->
  heights_ok m -> heights_ok (applyTx height tx m).
Proof using.
  intros Hh Ho Hm. unfold applyTx. generalize (IsCoinBaseTx tx) at 1 as cb. intros cb. generalize 0 as i.
  assert (Hbase : heights_ok (if IsCoinBaseTx tx then m else spendCoins (TxIns tx) m)).
  { destruct (IsCoinBaseTx tx); [done|]. clear Ho. revert m Hm. induction (TxIns tx) as [|ti ins IH]; intros m Hm; cbn [spendCoins]; [done|].
    by apply IH, map_Forall_delete. }
  revert Hbase. generalize (if IsCoinBaseTx tx then m else spendCoins (TxIns tx) m) as b.
  induction Ho as [|o outs Ho _ IH]; intros b Hb i; cbn [addCoins]; [done|]. apply IH. destruct (unspendable _); [done|].
  by apply map_Forall_insert_2.
Qed.

(** What the code has established before it connects the transactions
    [post], when [M] is what the earlier ones made of the unspent coins: the
    view agrees with [M] but for the outputs of [post], of which it may hold
    some already. *)
Record linked (post : list MsgTx) (M : gmap OutPoint coin) (w : UtxoViewpoint) : Prop := {
  l_coins : forall op, Wire.Hash op ∉ hashes post -> coins w !! op = M !! op;
  l_fresh : forall op, Wire.Hash op ∈ hashes post -> M !! op = None;
  l_fwd : forall k tx ti, post !! k = Some tx -> IsCoinBaseTx tx = false -> ti ∈ TxIns tx ->
    Wire.Hash (PreviousOutPoint ti) ∈ hashes (drop k post) -> coins w !! PreviousOutPoint ti = None;
  l_pre : forall tx op, tx ∈ post -> Wire.Hash op = TxHash tx -> is_Some (coins w !! op) ->
    op ∈ added (TxHash tx) 0 (TxOuts tx);
  l_ok : utxo_ok M;
  l_range : heights_ok (coins w);
}.

(** An output of the view whose amount and script later transactions keep. *)
Definition keeps (post : list MsgTx) (w w' : UtxoViewpoint) : Prop :=
  forall op e, Wire.Hash op ∉ hashes post -> LookupEntry w op = Some e ->
  exists e', LookupEntry w' op = Some e' /\ amount e' = amount e /\ pkScript e' = pkScript e.

Lemma lookup_set op op' e w : LookupEntry (setEntry op e w) op' = if decide (op = op') then Some e else LookupEntry w op'.
Proof using. unfold LookupEntry, setEntry. cbn. case_decide as Heq; [subst; by rewrite lookup_insert_eq|by rewrite lookup_insert_ne]. Qed.

Lemma addOuts_best hash outs cb height : forall i w w', addOuts hash i outs cb height w = Ok w' -> bestHash w' = bestHash w.
Proof using.
  induction outs as [|o outs IH]; intros i w w'; cbn [addOuts]; [by intros [= <-]|]. unfold addTxOut.
  destruct (noErr _) as [[]| | |]; cbn [mbind outcome_bind]; try done; [apply IH|]. by intros ->%IH.
Qed.

Lemma addOuts_keeps hash outs cb height op : Wire.Hash op <> hash -> forall i w w',
  addOuts hash i outs cb height w = Ok w' -> LookupEntry w' op = LookupEntry w op.
Proof using.
  intros Hne. induction outs as [|o outs IH]; intros i w w'; cbn [addOuts]; [by intros [= <-]|]. unfold addTxOut.
  destruct (noErr _) as [[]| | |]; cbn [mbind outcome_bind]; try done; [apply IH|]. intros Hrun. rewrite (IH _ _ _ Hrun), lookup_set.
  rewrite decide_False; [done|]. by intros <-.
Qed.

Lemma spendInputs_keeps ins op e : forall w st w' st', spendInputs ins w st = Ok (w', st') -> LookupEntry w op = Some e ->
  exists e', LookupEntry w' op = Some e' /\ amount e' = amount e /\ pkScript e' = pkScript e.
Proof using.
  revert e. induction ins as [|ti ins IH]; intros e w st w' st'; cbn [spendInputs]; [intros [= <- <-] ?; by exists e|].
  destruct (LookupEntry w _) as [d|] eqn:Hd; [|done]. intros Hrun He.
  destruct (IH (if decide (PreviousOutPoint ti = op) then Spend d else e) _ _ _ _ Hrun) as (e' & He' & Ha & Hp).
  - rewrite lookup_set. by case_decide.
  - exists e'. split; [done|]. rewrite Ha, Hp. case_decide as Heq; [|done]. rewrite Heq, He in Hd. injection Hd as <-.
    unfold Spend. by destruct (IsSpent e).
Qed.

Lemma connectTransaction_keeps tx height w st w' st' : connectTransaction tx height w st = Ok (w', st') -> keeps [tx] w w'.
Proof using.
  unfold connectTransaction, AddTxOuts. intros Hrun op e Hop He. cbn in Hop. rewrite list_elem_of_singleton in Hop.
  destruct (IsCoinBaseTx tx).
  - apply outcome_bind_ok in Hrun as (w1 & Hw & Hrun). injection Hrun as <- <-. exists e. by rewrite (addOuts_keeps _ _ _ _ _ Hop _ _ _ Hw).
  - apply outcome_bind_ok in Hrun as ([w1 st1] & Hw & Hrun). apply outcome_bind_ok in Hrun as (w2 & Hw2 & Hrun). injection Hrun as <- <-.
    destruct (spendInputs_keeps _ op e _ _ _ _ Hw He) as (e' & He' & Hk). exists e'. by rewrite (addOuts_keeps _ _ _ _ _ Hop _ _ _ Hw2).
Qed.

(** The entries that a transaction is paid from are the coins it spends. *)
Definition paid (w : UtxoViewpoint) (tx : MsgTx) (m : gmap OutPoint coin) : Prop :=
  IsCoinBaseTx tx = false -> Forall (fun ti => exists c e, m !! PreviousOutPoint ti = Some c /\
    LookupEntry w (PreviousOutPoint ti) = Some e /\ amount e = c_amount c /\ pkScript e = c_script c /\
    Wire.Index (PreviousOutPoint ti) <> MaxUint32) (TxIns tx).

Fixpoint paidAll (w : UtxoViewpoint) (height : Z) (txs : list MsgTx) (m : gmap OutPoint coin) : Prop :=
  match txs with
  | [] => True
  | tx :: txs => paid w tx m /\ paidAll w height txs (applyTx height tx m)
  end.

(** Inputs that pass name coins of the set, none from a later transaction. *)
Lemma linked_inputs tx post M w height params fee : linked (tx :: post) M w -> sane tx -> IsCoinBaseTx tx = false ->
  0 <= height < 2 ^ 31 -> 0 <= CoinbaseMaturity params < 2 ^ 16 -> CheckTransactionInputs tx height w params = Ok fee ->
  exists cs, Forall2 (fun ti c => M !! PreviousOutPoint ti = Some c /\ coins w !! PreviousOutPoint ti = Some c) (TxIns tx) cs /\
    Forall (fun ti => Wire.Hash (PreviousOutPoint ti) ∉ hashes (tx :: post)) (TxIns tx) /\
    fee = coinSum cs - outSum (TxOuts tx) /\ 0 <= fee <= MaxSatoshi.
Proof using.
  intros [Hco _ Hfwd _ _ Hr] Hs Hcb Hh Hm Hrun. apply CheckTransactionInputs_iff in Hrun as (cs & Hcs & Hle & -> & Hfee); try done.
  assert (Hout : Forall (fun ti => Wire.Hash (PreviousOutPoint ti) ∉ hashes (tx :: post)) (TxIns tx)).
  { apply list.Forall_forall. intros ti Hti Hin. apply list_elem_of_lookup in Hti as Hk. destruct Hk as [k Hk].
    destruct (Forall2_lookup_l _ _ _ _ _ Hcs Hk) as (c & _ & Hc & _). by rewrite (Hfwd 0%nat tx ti eq_refl Hcb Hti Hin) in Hc. }
  pose proof (outSum_nonneg (TxOuts tx) ltac:(apply Hs)) as Ho.
  exists cs. split_and!; [|done|done|done|lia]. clear Hs Hfee Hle Hfwd. induction Hcs as [|ti c ins cs (Hc & _) _ IH]; [constructor|].
  apply list.Forall_cons in Hout as [Hti Hout]. constructor; [|by apply IH]. by rewrite <- Hco.
Qed.

(** Connecting keeps the link. *)
Lemma linked_step tx post M w height w' (Hh : 0 < height < 2 ^ 31) : linked (tx :: post) M w -> sane tx -> tx_ok tx ->
  NoDup (hashes (tx :: post)) ->
  (IsCoinBaseTx tx = false -> Forall (fun ti => Wire.Hash (PreviousOutPoint ti) ∉ hashes (tx :: post)) (TxIns tx)) ->
  coins w' = applyTx height tx (coins w) -> utxo_ok (applyTx height tx M) -> linked post (applyTx height tx M) w'.
Proof using.
  intros [Hco Hfr Hfwd Hpre Hok Hr] Hs Htx Hnd Hins Hw' Hok'. rewrite fmap_cons in Hnd. apply list.NoDup_cons in Hnd as [Hni Hnd].
  assert (Hne : forall op, Wire.Hash op ∈ hashes post -> Wire.Hash op <> TxHash tx) by (intros op Hop Heq; by rewrite Heq in Hop).
  assert (Hnone : forall m op, Wire.Hash op ∈ hashes post -> m !! op = None -> applyTx height tx m !! op = None).
  { intros m op Hop Hm. rewrite applyTx_other by auto. by destruct (_ && _). }
  split.
  - intros op Hop. rewrite Hw'. destruct (decide (Wire.Hash op = TxHash tx)) as [Heq|Hneq].
    + destruct (decide (op ∈ added (TxHash tx) 0 (TxOuts tx))) as [Hin|Hnin]; [by apply addCoins_same; left|].
      assert (Hwn : coins w !! op = None).
      { destruct (coins w !! op) eqn:Hc; [|done]. destruct Hnin. apply (Hpre tx op); [by left|done|by rewrite Hc]. }
      assert (HMn : M !! op = None) by (apply Hfr; rewrite Heq, fmap_cons; by left).
      unfold applyTx. rewrite !addCoins_other by done. destruct (IsCoinBaseTx tx); [congruence|].
      rewrite !spendCoins_drop, !dropCoins_lookup. case_decide; congruence.
    + rewrite !applyTx_other by done. destruct (_ && _); [done|]. apply Hco. rewrite fmap_cons, list.elem_of_cons. tauto.
  - intros op Hop. apply Hnone; [done|]. apply Hfr. rewrite fmap_cons. by right.
  - intros k t ti Hk Hcb Hti Hop. rewrite Hw'. apply Hnone.
    + apply list_elem_of_fmap in Hop as (t' & -> & Ht'). apply list_elem_of_fmap_2. rewrite <- (take_drop k post); apply elem_of_app; by right.
    + by apply (Hfwd (S k) t ti Hk).
  - intros t op Ht Hop Hsome. apply Hpre; [by right|done|]. rewrite Hw', applyTx_other in Hsome.
    + destruct (_ && _); [by destruct Hsome|done].
    + rewrite Hop. intros Heq. apply Hni. rewrite <- Heq. by apply list_elem_of_fmap_2.
  - done.
  - rewrite Hw'. apply heights_ok_apply; [lia| |done]. apply Htx.
Qed.

Definition minted (txs : list MsgTx) : Z := sum ((fun tx => if IsCoinBaseTx tx then outSum (TxOuts tx) else 0) <$> txs).

(** What the loop over the transactions has done. *)
Record looped (post : list MsgTx) (height : Z) (M : gmap OutPoint coin) (st : option (list SpentTxOut)) (fees : Z)
    (w w' : UtxoViewpoint) (st' : option (list SpentTxOut)) (fees' : Z) : Prop := {
  lp_spends : spends height post M;
  lp_coins : coins w' = applyTxs height post M;
  lp_ok : utxo_ok (applyTxs height post M);
  lp_journal : st' = option_map (fun l => l ++ (recordOf <$> spentByAll height post M)) st;
  lp_fees : fees <= fees' < 2 ^ 63;
  lp_total : total (applyTxs height post M) + (fees' - fees) <= total M + minted post;
  lp_paid : paidAll w' height post M;
  lp_keeps : keeps post w w';
}.

Lemma spentBy_same tx m1 m2 : (IsCoinBaseTx tx = false -> Forall (fun ti => m1 !! PreviousOutPoint ti = m2 !! PreviousOutPoint ti) (TxIns tx)) ->
  spentBy tx m1 = spentBy tx m2.
Proof using.
  intros Heq. unfold spentBy. destruct (IsCoinBaseTx tx); [done|]. specialize (Heq eq_refl).
  induction Heq as [|ti ins Hti _ IH]; [done|]. cbn. rewrite Hti. by rewrite IH.
Qed.

(** One transaction that passes: what it spends, and the bound. *)
Lemma tx_step tx post M w st w' st' height params fee (Hh : 0 < height < 2 ^ 31) (Hm : 0 <= CoinbaseMaturity params < 2 ^ 16) :
  linked (tx :: post) M w -> sane tx -> tx_ok tx -> NoDup (hashes (tx :: post)) ->
  CheckTransactionInputs tx height w params = Ok fee -> connectTransaction tx height w st = Ok (w', st') ->
  tx_spends tx M /\ linked post (applyTx height tx M) w' /\
  st' = option_map (fun l => l ++ (recordOf <$> spentBy tx M)) st /\ 0 <= fee <= MaxSatoshi /\
  total (applyTx height tx M) + fee <= total M + (if IsCoinBaseTx tx then outSum (TxOuts tx) else 0) /\ paid w tx M.
Proof using.
  intros Hlk Hs Htx Hnd Hfee Hcon. pose proof Hlk as [Hco Hfr Hfwd Hpre Hok Hr].
  assert (Hvals := sane_values_ok tx Hs). assert (Hlen : 0 + Zlen (TxOuts tx) < 2 ^ 32).
  { destruct Htx as [_ _ _ Hc]. pose proof (Zlen_nonneg (TxIns tx)). lia. }
  assert (Hins : IsCoinBaseTx tx = false -> exists cs,
    Forall2 (fun ti c => M !! PreviousOutPoint ti = Some c /\ coins w !! PreviousOutPoint ti = Some c) (TxIns tx) cs /\
    Forall (fun ti => Wire.Hash (PreviousOutPoint ti) ∉ hashes (tx :: post)) (TxIns tx) /\
    fee = coinSum cs - outSum (TxOuts tx) /\ 0 <= fee <= MaxSatoshi) by (intros Hcb; apply (linked_inputs tx post M w height params fee); (done || lia)).
  assert (Hsp : tx_spends tx M).
  { split; [apply Htx|intros op Hop; apply Hfr; rewrite Hop, fmap_cons; by left|intros _; apply Hs|].
    intros Hcb. destruct (Hins Hcb) as (cs & Hcs & _). apply list.Forall_forall. intros ti Hti. apply list_elem_of_lookup in Hti as [k Hk].
    destruct (Forall2_lookup_l _ _ _ _ _ Hcs Hk) as (c & _ & Hc & _). exists c. split; [done|]. destruct (Hok _ _ Hc) as (_ & _ & ?). lia. }
  destruct (connectTransaction_live tx height w st) as (w1 & Hrun & _ & Hw1).
  { apply Htx. } { intros _. apply Hs. }
  { intros Hcb. destruct (Hins Hcb) as (cs & Hcs & _). apply list.Forall_forall. intros ti Hti. apply list_elem_of_lookup in Hti as [k Hk].
    destruct (Forall2_lookup_l _ _ _ _ _ Hcs Hk) as (c & _ & _ & Hc). by rewrite Hc. }
  rewrite Hcon in Hrun. injection Hrun as <- Hst.
  assert (Hbase : utxo_ok (if IsCoinBaseTx tx then M else spendCoins (TxIns tx) M)) by (destruct (IsCoinBaseTx tx); [done|by apply utxo_ok_spend]).
  destruct (add_ok (TxHash tx) (TxOuts tx) (IsCoinBaseTx tx) height Hh Hvals 0 _ ltac:(lia) Hlen Hbase) as [Hok' Htot].
  fold (applyTx height tx M) in Hok', Htot.
  split; [done|]. split; [apply (linked_step tx post M w height); try done; intros Hcb; by destruct (Hins Hcb) as (cs & _ & ? & _)|].
  split.
  { rewrite (spentBy_same tx M (coins w)); [by destruct st|]. intros Hcb. destruct (Hins Hcb) as (cs & Hcs & _).
    apply list.Forall_forall. intros ti Hti. apply list_elem_of_lookup in Hti as [k Hk].
    destruct (Forall2_lookup_l _ _ _ _ _ Hcs Hk) as (c & _ & -> & ->). done. }
  unfold paid, CheckTransactionInputs in *. destruct (IsCoinBaseTx tx) eqn:Hcb.
  - injection Hfee as <-. split_and!; [done|done|lia|done].
  - destruct (Hins eq_refl) as (cs & Hcs & _ & Hf & Hfr2). split; [done|]. split.
    + cbv iota in Htot. assert (total M = coinSum cs + total (spendCoins (TxIns tx) M)); [|lia].
      apply total_spend; [apply Hs|]. eapply list.Forall2_impl; [exact Hcs|]. by intros ti c [? _].
    + intros _. apply list.Forall_forall. intros ti Hti. apply list_elem_of_lookup in Hti as [k Hk].
      destruct (Forall2_lookup_l _ _ _ _ _ Hcs Hk) as (c & _ & Hc & Hcw). rewrite coins_lookup in Hcw.
      destruct (LookupEntry w _) as [e|]; [|done]. cbn in Hcw. destruct (IsSpent e); [done|]. injection Hcw as <-.
      exists (coinOf e), e. split_and!; [done|done|done|done|]. by destruct (Hok _ _ Hc).
Qed.

Lemma paid_keeps tx M w w' post : paid w tx M -> keeps post w w' ->
  (IsCoinBaseTx tx = false -> Forall (fun ti => Wire.Hash (PreviousOutPoint ti) ∉ hashes post) (TxIns tx)) -> paid w' tx M.
Proof using.
  intros Hp Hk Hout Hcb. specialize (Hp Hcb). specialize (Hout Hcb). rewrite list.Forall_forall in Hp, Hout |- *. intros ti Hti.
  destruct (Hp ti Hti) as (c & e & Hc & He & Ha & Hs & Hi). destruct (Hk _ e (Hout ti Hti) He) as (e' & He' & Ha' & Hs').
  exists c, e'. split_and!; try done; congruence.
Qed.

Lemma feeLoop_ok txs height params (Hh : 0 < height < 2 ^ 31) (Hm : 0 <= CoinbaseMaturity params < 2 ^ 16) :
  Forall sane txs -> Forall tx_ok txs -> NoDup (hashes txs) -> forall M w st fees w' st' fees',
  linked txs M w -> 0 <= fees < 2 ^ 63 ->
  feeLoop txs height params w st fees = Ok (w', st', fees') -> looped txs height M st fees w w' st' fees'.
Proof using.
  induction txs as [|tx txs IH]; intros Hs Hok Hnd M w st fees w' st' fees' Hlk Hf Hrun; cbn [feeLoop] in Hrun.
  - injection Hrun as <- <- <-. split; cbn; try done; try lia.
    + apply map_eq. intros op. apply Hlk. by apply not_elem_of_nil.
    + apply Hlk.
    + destruct st; [|done]. cbn. by rewrite app_nil_r.
    + intros op e _ He. by exists e.
  - apply outcome_bind_ok in Hrun as (fee & Hfee & Hrun). destruct (Z.ltb_spec (i64 (fees + fee)) fees) as [|Hge]; [done|].
    apply outcome_bind_ok in Hrun as ([w1 st1] & Hcon & Hrun). apply list.Forall_cons in Hs as [Htx Hs], Hok as [Htok Hok].
    destruct (tx_step tx txs M w st w1 st1 height params fee Hh Hm Hlk Htx Htok Hnd Hfee Hcon) as (Hsp & Hlk1 & Hst & Hfr & Htot & Hpaid).
    assert (Hsum : i64 (fees + fee) = fees + fee /\ fees + fee < 2 ^ 63).
    { destruct (Z.lt_ge_cases (fees + fee) (2 ^ 63)); [by rewrite i64_small by lia|]. exfalso. unfold i64 in Hge.
      rewrite MaxSatoshi_value in Hfr. rewrite <- (Z.mod_unique_pos _ _ 1 (fees + fee - 2 ^ 63)) in Hge by lia. lia. }
    destruct Hsum as [Hsum Hlt]. rewrite Hsum in Hrun.
    assert (Hnd' := Hnd). rewrite fmap_cons in Hnd'. apply list.NoDup_cons in Hnd' as [Hni Hnd'].
    destruct (IH Hs Hok Hnd' (applyTx height tx M) w1 st1 (fees + fee) w' st' fees' Hlk1 ltac:(lia) Hrun) as [H1 H2 H3 H4 H5 H6 H7 H8].
    assert (Hk1 := connectTransaction_keeps tx height w st w1 st1 Hcon).
    assert (Hk : keeps (tx :: txs) w w').
    { intros op e Hop He. rewrite fmap_cons, list.elem_of_cons in Hop.
      destruct (Hk1 op e) as (e1 & He1 & Ha1 & Hp1); [cbn; rewrite list_elem_of_singleton; tauto|done|].
      destruct (H8 op e1) as (e2 & He2 & Ha2 & Hp2); [tauto|done|]. exists e2. split; [done|]. split; congruence. }
    split; cbn [spends applyTxs spentByAll paidAll]; try done; try lia.
    + subst st' st1. destruct st; [|done]. cbn. by rewrite fmap_app, (assoc_L (++)).
    + unfold minted in *. rewrite fmap_cons, sum_cons. lia.
    + split; [|done]. apply (paid_keeps tx M w w' (tx :: txs)); [done|done|]. intros Hcb.
      by destruct (linked_inputs tx txs M w height params fee) as (cs & _ & ? & _); [done|done|done|lia|done|done|].
Qed.

End Loop.

(** ** The view before the transactions *)
Section Search.
Context {C : Crypto}.

Abbreviation hashes txs := (TxHash <$> txs).

(** *** The transactions of the block by their hashes *)
Lemma flight_fold txs h j : forall (m : gmap (list Z) Z) i, (foldl (fun '(m, i) tx => (<[TxHash tx := i]> m, i + 1)) (m, i) txs).1 !! h = Some j ->
  m !! h = Some j /\ h ∉ hashes txs \/ exists k tx, txs !! k = Some tx /\ TxHash tx = h /\ j = i + Z.of_nat k.
Proof using.
  induction txs as [|tx txs IH]; intros m i; cbn [foldl]; [intros ?; left; split; [done|by apply not_elem_of_nil]|].
  intros [[Hj Hni]|(k & t & Hk & Ht & ->)]%IH.
  - destruct (decide (TxHash tx = h)) as [Heq|Hne].
    + rewrite Heq, lookup_insert_eq in Hj. injection Hj as <-. right. exists 0%nat, tx. split_and!; [done|done|lia].
    + rewrite lookup_insert_ne in Hj by done. left. split; [done|]. rewrite fmap_cons, list.elem_of_cons. naive_solver.
  - right. exists (S k), t. split_and!; [done|done|lia].
Qed.

Lemma flight_some txs h j : inFlight txs !! h = Some j -> exists k tx, txs !! k = Some tx /\ TxHash tx = h /\ j = Z.of_nat k.
Proof using. unfold inFlight. intros [[Hc _]|(k & tx & Hk & Ht & ->)]%flight_fold; [done|]. by exists k, tx. Qed.

Lemma flight_complete txs h : h ∈ hashes txs -> is_Some (inFlight txs !! h).
Proof using.
  unfold inFlight. generalize (∅ : gmap (list Z) Z) as m. generalize 0 as i.
  assert (Hkeep : forall l (m : gmap (list Z) Z) i, is_Some (m !! h) -> is_Some ((foldl (fun '(m, i) tx => (<[TxHash tx := i]> m, i + 1)) (m, i) l).1 !! h)).
  { induction l as [|tx l IH]; intros m i Hm; cbn [foldl]; [done|]. apply IH. destruct (decide (TxHash tx = h)) as [->|Hne].
    - by rewrite lookup_insert_eq.
    - by rewrite lookup_insert_ne. }
  induction txs as [|tx txs IH]; intros i m; [by intros ?%not_elem_of_nil|]. rewrite fmap_cons, list.elem_of_cons. cbn [foldl].
  intros [->|Hin]; [|by apply IH]. apply Hkeep. by rewrite lookup_insert_eq.
Qed.

Lemma hashes_inj txs j k a b : NoDup (hashes txs) -> txs !! j = Some a -> txs !! k = Some b -> TxHash a = TxHash b -> j = k.
Proof using.
  intros Hnd Ha Hb Heq. eapply (NoDup_lookup _ j k (TxHash a) Hnd); rewrite list_lookup_fmap; [by rewrite Ha|by rewrite Hb, Heq].
Qed.

(** *** The entries that looking for the inputs leaves *)
Lemma addOuts_entries hash outs cb height op : forall i v v', addOuts hash i outs cb height v = Ok v' ->
  entries v' !! op = entries v !! op \/
  op ∈ added hash i outs /\ exists o e, o ∈ outs /\ entries v' !! op = Some (Some e) /\ amount e = Value o /\ blockHeight e = height.
Proof using.
  induction outs as [|o outs IH]; intros i v v'; cbn [addOuts added]; [intros [= <-]; by left|]. unfold addTxOut, unspendable.
  destruct (IsUnspendable (PkScript o)) as [[]| | |]; cbn [noErr mbind outcome_bind app]; try done.
  - intros [?|(Hin & o' & e & Ho & Hr)]%IH; [by left|right]. split; [done|]. exists o', e. split; [by right|done].
  - intros [Heq|(Hin & o' & e & Ho & Hr)]%IH.
    + unfold setEntry in Heq. cbn in Heq. destruct (decide (op = mkOutPoint hash (u32 i))) as [->|Hne].
      * rewrite lookup_insert_eq in Heq. right. split; [by left|]. eexists o, _. split; [by left|]. by split.
      * rewrite lookup_insert_ne in Heq by done. by left.
    + right. split; [by right|]. exists o', e. split; [by right|done].
Qed.

Section Find.
Context (txs : list MsgTx) (bh : Z) (Hnd : NoDup (hashes txs)) (Hbh : 0 <= bh < 2 ^ 31).
Context (Hvals : Forall (fun tx => Forall (fun o => - 2 ^ 63 <= Value o < 2 ^ 63) (TxOuts tx)) txs).

(** Every entry is of an output of the block; one that lives is there because
    a transaction that needs it came before.  When the search began with an
    empty view, the transaction of the output was among the first [n] + 1. *)
Definition inBlock (empty : bool) (n : nat) (v : UtxoViewpoint) : Prop :=
  forall op e, entries v !! op = Some e -> exists j tx, txs !! j = Some tx /\ Wire.Hash op = TxHash tx /\
    (empty = true -> (j <= n)%nat) /\
    forall c, live e = Some c -> (0 <= c_height c < 2 ^ 31 /\ - 2 ^ 63 <= c_amount c < 2 ^ 63) /\ op ∈ added (TxHash tx) 0 (TxOuts tx).

Lemma inBlock_add empty n v v' j tx : txs !! j = Some tx -> (j <= n)%nat -> AddTxOuts tx bh v = Ok v' ->
  inBlock empty n v -> inBlock empty n v'.
Proof using Hbh Hvals.
  intros Hj Hle Hadd Hv op e He. destruct (addOuts_entries _ _ _ _ op _ _ _ Hadd) as [Heq|(Hin & o & d & Ho & Hd & Ha & Hh)].
  - apply Hv. by rewrite <- Heq.
  - rewrite Hd in He. injection He as <-. exists j, tx. split_and!; [done|by eapply added_hash|done|]. intros c Hc.
    cbn in Hc. destruct (IsSpent d); [done|]. injection Hc as <-. unfold coinOf. cbn. rewrite Ha, Hh. split; [|done].
    rewrite list.Forall_lookup in Hvals. specialize (Hvals _ _ Hj). rewrite list.Forall_forall in Hvals. split; [done|]. by apply Hvals.
Qed.

Lemma fetchInputs_ok empty n ins : forall v needed v' needed', inBlock empty n v ->
  fetchInputs txs (inFlight txs) (Z.of_nat n) bh ins v needed = Ok (v', needed') ->
  inBlock empty n v' /\ bestHash v' = bestHash v /\ needed ⊆ needed' /\
  (empty = true -> forall ti, ti ∈ ins -> Wire.Hash (PreviousOutPoint ti) ∈ hashes (drop (S n) txs) -> PreviousOutPoint ti ∈ needed').
Proof using Hbh Hnd Hvals.
  induction ins as [|ti ins IH]; intros v needed v' needed' Hv; cbn [fetchInputs].
  { intros [= <- <-]. split_and!; try done. by intros _ ? ?%not_elem_of_nil. }
  set (op := PreviousOutPoint ti).
  assert (Hnext : forall v1 needed1, inBlock empty n v1 -> bestHash v1 = bestHash v -> needed ⊆ needed1 ->
    (empty = true -> Wire.Hash op ∈ hashes (drop (S n) txs) -> op ∈ needed1) ->
    fetchInputs txs (inFlight txs) (Z.of_nat n) bh ins v1 needed1 = Ok (v', needed') ->
    inBlock empty n v' /\ bestHash v' = bestHash v /\ needed ⊆ needed' /\
    (empty = true -> forall ti', ti' ∈ ti :: ins -> Wire.Hash (PreviousOutPoint ti') ∈ hashes (drop (S n) txs) -> PreviousOutPoint ti' ∈ needed')).
  { intros v1 needed1 Hv1 Hb Hsub Hop Hrun. destruct (IH v1 needed1 v' needed' Hv1 Hrun) as (H1 & H2 & H3 & H4).
    split_and!; [done|congruence|set_solver|]. intros He ti' [->|Hti]%list.elem_of_cons Hin; [apply H3; by apply Hop|by apply H4]. }
  (* a transaction whose output has an entry is not a later one *)
  assert (Hnot : forall j tx, txs !! j = Some tx -> Wire.Hash op = TxHash tx -> (j <= n)%nat -> Wire.Hash op ∉ hashes (drop (S n) txs)).
  { intros j tx Hj Heq Hle Hin. apply list_elem_of_fmap in Hin as (t & Ht & [k Hk]%list_elem_of_lookup). rewrite lookup_drop in Hk.
    pose proof (hashes_inj txs j (S n + k) tx t Hnd Hj Hk ltac:(congruence)). lia. }
  assert (Hask : (if bool_decide (is_Some (entries v !! op)) then fetchInputs txs (inFlight txs) (Z.of_nat n) bh ins v needed
      else fetchInputs txs (inFlight txs) (Z.of_nat n) bh ins v (needed ++ [op])) = Ok (v', needed') ->
    inBlock empty n v' /\ bestHash v' = bestHash v /\ needed ⊆ needed' /\
    (empty = true -> forall ti', ti' ∈ ti :: ins -> Wire.Hash (PreviousOutPoint ti') ∈ hashes (drop (S n) txs) -> PreviousOutPoint ti' ∈ needed')).
  { case_bool_decide as Hsome; intros Hrun; eapply Hnext; try exact Hrun; try done.
    - intros He Hin. destruct Hsome as [e Hsome]. destruct (Hv op e Hsome) as (j & tx & Hj & Heq & Hle & _). by destruct (Hnot j tx Hj Heq (Hle He)).
    - set_solver.
    - intros _ _. apply elem_of_app. right. by left. }
  destruct (inFlight txs !! Wire.Hash op) as [z|] eqn:Hz; [|exact Hask].
  apply flight_some in Hz as (j & tx & Hj & Heq & ->). destruct (Z.leb_spec (Z.of_nat j) (Z.of_nat n)); [|exact Hask].
  assert (Hidx : index (E:=RuleError) txs (Z.of_nat j) = Ok tx) by (apply index_ok_iff; split; [lia|]; by rewrite Nat2Z.id).
  rewrite Hidx, bind_Ok. intros Hrun. apply outcome_bind_ok in Hrun as (v1 & Hadd & Hrun). eapply Hnext; try exact Hrun; try done.
  - eapply inBlock_add; [exact Hj|lia|exact Hadd|done].
  - by apply addOuts_best in Hadd.
  - intros _ Hin. by destruct (Hnot j tx Hj (eq_sym Heq) ltac:(lia)).
Qed.

Lemma inBlock_later empty n m v : (n <= m)%nat -> inBlock empty n v -> inBlock empty m v.
Proof using.
  intros Hle Hv op e He. destruct (Hv op e He) as (j & tx & Hj & Hh & Hn & Hc). exists j, tx. split_and!; try done.
  intros Ht. specialize (Hn Ht). lia.
Qed.

Lemma findLoop_ok empty rest : forall n v needed v' needed', rest = drop (S n) txs -> inBlock empty n v ->
  findLoop txs (inFlight txs) (Z.of_nat n) bh rest v needed = Ok (v', needed') ->
  inBlock empty (n + length rest) v' /\ bestHash v' = bestHash v /\ needed ⊆ needed' /\
  (empty = true -> forall k tx ti, (n < k)%nat -> txs !! k = Some tx -> ti ∈ TxIns tx ->
   Wire.Hash (PreviousOutPoint ti) ∈ hashes (drop k txs) -> PreviousOutPoint ti ∈ needed').
Proof using Hbh Hnd Hvals.
  induction rest as [|tx rest IH]; intros n v needed v' needed' Hrest Hv; cbn [findLoop].
  - intros [= <- <-]. cbn [length]. rewrite Nat.add_0_r. split_and!; try done. intros _ k tx ti Hk Htx.
    apply lookup_lt_Some in Htx. apply (f_equal length) in Hrest. rewrite length_drop in Hrest. cbn in Hrest. lia.
  - intros Hrun. apply outcome_bind_ok in Hrun as ([v1 needed1] & Hf & Hrun).
    destruct (fetchInputs_ok empty n (TxIns tx) v needed v1 needed1 Hv Hf) as (Hv1 & Hb1 & Hsub1 & Hin1).
    assert (Htx : txs !! S n = Some tx) by (rewrite <- (Nat.add_0_r (S n)), <- lookup_drop, <- Hrest; done).
    replace (Z.of_nat n + 1) with (Z.of_nat (S n)) in Hrun by lia.
    destruct (IH (S n) v1 needed1 v' needed') as (H1 & H2 & H3 & H4); [|by eapply inBlock_later; [|exact Hv1]; lia|done|].
    { rewrite (drop_S _ _ _ Htx) in Hrest. by injection Hrest. }
    cbn [length] in *. rewrite <- plus_n_Sm. split_and!; [done|congruence|set_solver|]. intros He k t ti Hk Ht Hti Hin.
    destruct (decide (k = S n)) as [->|Hne]; [|apply (H4 He k t ti); [lia|done..]].
    rewrite Htx in Ht. injection Ht as <-. apply H3. by apply Hin1.
Qed.

End Find.

End Search.

Section Fetched.
Context {C : Crypto} (fetch : OutPoint -> outcome RuleError (option UtxoEntry)) (U : gmap OutPoint coin).
(** The unspent outputs that can be fetched are the coins [U]. *)
Definition fetches : Prop := forall op, exists e, fetch op = Ok e /\ live e = U !! op.
Context (Hfetch : fetches).

Abbreviation hashes txs := (TxHash <$> txs).

Definition got (op : OutPoint) : option UtxoEntry := match fetch op with Ok e => Clone e | _ => None end.

Lemma live_got op : live (got op) = U !! op.
Proof using Hfetch. unfold got. destruct (Hfetch op) as (e & -> & <-). by destruct e as [[]|]. Qed.

Lemma fetchEntries_ok ops : exists es, fetchEntries fetch ops = Ok es /\ Clone <$> es = got <$> ops.
Proof using Hfetch.
  induction ops as [|op ops (es & Hes & Hgot)]; cbn [fetchEntries]; [by exists []|].
  destruct (Hfetch op) as (e & He & _). rewrite He, bind_Ok, Hes, bind_Ok. exists (e :: es). split; [done|].
  cbn. unfold got at 1. rewrite He. by f_equal.
Qed.

Lemma storeAll_lookup ops v op :
  entries (storeAll ops (got <$> ops) v) !! op = if bool_decide (op ∈ ops) then Some (got op) else entries v !! op.
Proof using.
  unfold storeAll. cbn. generalize (entries v) as m. induction ops as [|o ops IH]; intros m; cbn; [done|]. rewrite IH.
  destruct (bool_decide_reflect (op ∈ ops)) as [Hin|Hin]; [by rewrite bool_decide_true by by right|].
  destruct (decide (op = o)) as [->|Hne]; [by rewrite bool_decide_true, lookup_insert_eq by by left|].
  rewrite lookup_insert_ne by done. rewrite bool_decide_false; [done|]. by intros [?|?]%list.elem_of_cons.
Qed.

Lemma fetchUtxosFromCache_ok ops v : exists v', fetchUtxosFromCache fetch ops v = Ok v' /\ bestHash v' = bestHash v /\
  forall op, entries v' !! op = if bool_decide (op ∈ ops) then Some (got op) else entries v !! op.
Proof using Hfetch.
  unfold fetchUtxosFromCache. destruct (Zlen ops =? 0) eqn:Hz.
  - apply Zlen_zero in Hz as ->. exists v. split; [done|]. split; [done|]. intros op. by rewrite bool_decide_false by by intros ?%not_elem_of_nil.
  - destruct (fetchEntries_ok ops) as (es & -> & Hes). rewrite bind_Ok, Hes. eexists. split; [done|]. split; [done|]. apply storeAll_lookup.
Qed.

Lemma checkBIP0030_ok txs v v' : entries v = ∅ -> checkBIP0030 fetch txs v = Ok v' ->
  bestHash v' = bestHash v /\ (forall op e, entries v' !! op = Some e -> op ∈ outpointsOf txs /\ live e = None) /\
  forall op, op ∈ outpointsOf txs -> U !! op = None.
Proof using Hfetch.
  intros Hv. unfold checkBIP0030. intros Hrun. apply outcome_bind_ok in Hrun as (v1 & Hf & Hrun).
  assert (Hv1 : bestHash v1 = bestHash v /\ forall op, entries v1 !! op = if bool_decide (op ∈ outpointsOf txs) then Some (got op) else None).
  { unfold fetchUtxos in Hf. destruct (Zlen (outpointsOf txs) =? 0) eqn:Hz.
    - injection Hf as <-. apply Zlen_zero in Hz as ->. split; [done|]. intros op. by rewrite Hv, bool_decide_false by by intros ?%not_elem_of_nil.
    - assert (Hall : filter (fun op => entries v !! op = None) (outpointsOf txs) = outpointsOf txs).
      { rewrite Hv. clear. induction (outpointsOf txs) as [|op ops IH]; [done|]. rewrite filter_cons, decide_True by done. by rewrite IH. }
      rewrite Hall in Hf. destruct (fetchUtxosFromCache_ok (outpointsOf txs) v) as (v2 & Hv2 & Hb & Hl). rewrite Hf in Hv2. injection Hv2 as <-.
      split; [done|]. intros op. rewrite Hl, Hv. done. }
  destruct Hv1 as [Hb Hl]. destruct (existsb _ _) eqn:Hex; [done|]. injection Hrun as <-.
  assert (Hdead : forall op, op ∈ outpointsOf txs -> live (got op) = None).
  { intros op Hop. apply not_true_iff_false in Hex. destruct (live (got op)) eqn:Hc; [|done]. destruct Hex. apply existsb_exists.
    exists op. split; [by apply list_elem_of_In|]. unfold LookupEntry. rewrite Hl, bool_decide_true by done. cbn.
    unfold live in Hc. destruct (got op) as [e|]; [|done]. by destruct (IsSpent e). }
  split_and!; [done| |].
  - intros op e He. rewrite Hl in He. case_bool_decide as Hop; [|done]. injection He as <-. split; [done|by apply Hdead].
  - intros op Hop. rewrite <- live_got. by apply Hdead.
Qed.

Lemma outpoint_hash txs op : op ∈ outpointsOf txs -> exists j tx, txs !! j = Some tx /\ Wire.Hash op = TxHash tx.
Proof using.
  unfold outpointsOf. intros (tx & Hop & [j Hj]%list_elem_of_lookup)%list_elem_of_bind. exists j, tx. split; [done|].
  apply list_elem_of_lookup in Hop as [i Hi]. rewrite list_lookup_imap in Hi. destruct (TxOuts tx !! i); [|done]. by injection Hi as <-.
Qed.

End Fetched.

(** ** A block that passes *)
Section Block.
Context {C : Crypto} (fetch : OutPoint -> outcome RuleError (option UtxoEntry)) (fuel : nat) (U : gmap OutPoint coin).
Context (Hfetch : fetches fetch U) (HU : utxo_ok U).

Abbreviation hashes txs := (TxHash <$> txs).

Definition runsBIP30 (c : chainConfig) (node : blockNode) : bool :=
  negb (isBIP0030Node node) && (height node <? BIP0034Height (ChainParams (ctx c))).

(** What is known of the hashes of a new block.  Where the check of BIP30
    does not run, no coin has one of them: since BIP34 the height in the
    coinbase makes the hashes new.  Where it runs, a coin with one of them is
    an output of that very transaction, and no transaction spends an output of
    its own or of a later one. *)
Record block_new (run : bool) (txs : list MsgTx) : Prop := {
  bn_outs : forall op, Wire.Hash op ∈ hashes txs -> is_Some (U !! op) -> run = true /\ op ∈ outpointsOf txs;
  bn_order : run = true -> forall k tx ti, txs !! k = Some tx -> IsCoinBaseTx tx = false -> ti ∈ TxIns tx ->
    Wire.Hash (PreviousOutPoint ti) ∉ hashes (drop k txs);
}.

(** The block of which this is checked. *)
Record block_ok (txs : list MsgTx) : Prop := {
  bo_sane : Forall sane txs;
  bo_tx : Forall tx_ok txs;
  bo_new : NoDup (hashes txs);
  bo_coinbase : exists cb rest, txs = cb :: rest /\ IsCoinBaseTx cb = true /\ Forall (fun tx => IsCoinBaseTx tx = false) rest;
}.

Definition loaded (c : chainConfig) (node : blockNode) (block : MsgBlock) (bh : Z) (v v2 : UtxoViewpoint) : Prop :=
  exists v1, (if runsBIP30 c node then checkBIP0030 fetch (Transactions block) v else Ok v) = Ok v1 /\
    fetchInputUtxos fetch true block bh v1 = Ok v2.

(** The parts of the checks that bear on the coins. *)
Lemma connectChecks_inv c bi node block bh v st caches s : connectChecks fetch c bi node block bh v st caches = Ok s ->
  exists v2 fees cb, loaded c node block bh v v2 /\
    feeLoop (Transactions block) (height node) (ChainParams (ctx c)) v2 st 0 = Ok (ch_view s, ch_stxos s, fees) /\
    head (Transactions block) = Some cb /\
    totalOut (TxOuts cb) <= i64 (CalcBlockSubsidy (height node) (ChainParams (ctx c)) + fees).
Proof using.
  unfold connectChecks. intros Hrun. destruct (bool_decide _); [done|]. destruct (negb _); [done|].
  apply outcome_bind_ok in Hrun as (v1 & H1 & Hrun). apply outcome_bind_ok in Hrun as (v2 & H2 & Hrun).
  apply outcome_bind_ok in Hrun as ([sw caches1] & _ & Hrun). apply outcome_bind_ok in Hrun as (u & _ & Hrun).
  apply outcome_bind_ok in Hrun as ([[v3 st3] fees] & H3 & Hrun). apply outcome_bind_ok in Hrun as (cb & Hcb & Hrun).
  destruct (Z.ltb_spec (i64 (CalcBlockSubsidy (height node) (ChainParams (ctx c)) + fees)) (totalOut (TxOuts cb))) as [|Hle]; [done|].
  apply outcome_bind_ok in Hrun as ([csv caches2] & _ & Hrun). apply outcome_bind_ok in Hrun as ([flags caches3] & _ & Hrun).
  apply outcome_bind_ok in Hrun as ([tap caches4] & _ & Hrun). injection Hrun as <-. cbn.
  exists v2, fees, cb. split_and!; [by exists v1|done| |done]. apply index_ok_iff in Hcb as [_ Hcb]. by rewrite head_lookup.
Qed.

(** What the view holds before the first transaction. *)
Lemma loaded_linked c node block bh v v2 (Hbh : 0 <= bh < 2 ^ 31) : entries v = ∅ -> block_ok (Transactions block) ->
  block_new (runsBIP30 c node) (Transactions block) -> loaded c node block bh v v2 ->
  linked (Transactions block) U (over U v2) /\ bestHash v2 = bestHash v.
Proof using HU Hfetch.
  intros Hv [Hs Htx Hnd (cb & rest & Htxs & Hcb & Hrest)] [Houts Hord] (v1 & H1 & H2). set (txs := Transactions block) in *.
  set (run := runsBIP30 c node) in *.
  assert (Hvals : Forall (fun tx => Forall (fun o => - 2 ^ 63 <= Value o < 2 ^ 63) (TxOuts tx)) txs).
  { eapply list.Forall_impl; [exact Htx|]. by intros tx []. }
  assert (Hstart : inBlock txs (negb run) 0 v1 /\ bestHash v1 = bestHash v /\ forall op, Wire.Hash op ∈ hashes txs -> U !! op = None).
  { destruct run.
    - destruct (checkBIP0030_ok fetch U Hfetch txs v v1 Hv H1) as (Hb & Hent & HUn). split_and!; [|done|].
      + intros op e He. destruct (Hent op e He) as [Hop Hd]. destruct (outpoint_hash txs op Hop) as (j & tx & Hj & Hh).
        exists j, tx. split_and!; [done|done|done|]. intros d Hl. congruence.
      + intros op Hop. destruct (U !! op) as [d|] eqn:Hd; [|done]. destruct (Houts op Hop) as [_ Hin]; [by rewrite Hd|].
        by rewrite (HUn op Hin) in Hd.
    - injection H1 as <-. split_and!; [|done|].
      + intros op e He. by rewrite Hv, lookup_empty in He.
      + intros op Hop. destruct (U !! op) as [d|] eqn:Hd; [|done]. by destruct (Houts op Hop) as [? _]; [rewrite Hd|]. }
  destruct Hstart as (Hin1 & Hb1 & HUn).
  unfold fetchInputUtxos, findInputsToFetch in H2. fold txs in H2. apply outcome_bind_ok in H2 as ([v3 needed] & H3 & H2).
  rewrite Htxs in H3 at 1 2. rewrite (slice_suffix [cb] rest), bind_Ok in H3 by (rewrite ?Zlen_cons; change (Zlen (@nil MsgTx)) with 0; lia).
  destruct (findLoop_ok txs bh Hnd Hbh Hvals (negb run) rest 0 v1 [] v3 needed) as (Hin3 & Hb3 & _ & Hneed); [by rewrite Htxs|done|done|].
  destruct (fetchUtxosFromCache_ok fetch U Hfetch needed v3) as (v4 & Hv4 & Hb4 & Hent). rewrite H2 in Hv4. injection Hv4 as <-.
  split; [|congruence].
  assert (Hco : forall op, coins (over U v2) !! op =
    if bool_decide (op ∈ needed) then U !! op else match entries v3 !! op with Some e => live e | None => U !! op end).
  { intros op. rewrite over_coins, Hent. case_bool_decide; [apply live_got; exact Hfetch|done]. }
  split.
  - intros op Hop. rewrite Hco. case_bool_decide; [done|]. destruct (entries v3 !! op) as [e|] eqn:He; [|done].
    destruct (Hin3 op e He) as (j & tx & Hj & Hh & _). destruct Hop. rewrite Hh. by eapply list_elem_of_fmap_2, list_elem_of_lookup_2.
  - done.
  - intros k tx ti Hk Hcbk Hti Hop. destruct (decide (run = true)) as [Hr|Hr]; [by destruct (Hord Hr k tx ti Hk Hcbk Hti)|].
    apply not_true_is_false in Hr. rewrite Hr in Hneed. rewrite Hco, bool_decide_true.
    + apply HUn. apply list_elem_of_fmap in Hop as (t & -> & Ht). apply list_elem_of_fmap_2. rewrite <- (take_drop k txs). apply elem_of_app. by right.
    + apply (Hneed eq_refl k tx ti); try done. destruct k as [|k]; [|lia]. rewrite Htxs in Hk. injection Hk as <-. congruence.
  - intros tx op Htx' Hop Hsome. rewrite Hco in Hsome. assert (HUop : U !! op = None) by (apply HUn; rewrite Hop; by apply list_elem_of_fmap_2).
    destruct (bool_decide _); [rewrite HUop in Hsome; by destruct Hsome|].
    destruct (entries v3 !! op) as [e|] eqn:He; [|rewrite HUop in Hsome; by destruct Hsome].
    destruct (Hin3 op e He) as (j & t & Hj & Hh & _ & Hl). destruct Hsome as [d Hd]. destruct (Hl d Hd) as [_ Hadded].
    apply list_elem_of_lookup in Htx' as [i Hi]. pose proof (hashes_inj txs i j tx t Hnd Hi Hj ltac:(congruence)) as ->.
    rewrite Hi in Hj. by injection Hj as ->.
  - done.
  - intros op d Hd. rewrite Hco in Hd. assert (HUr : U !! op = Some d -> 0 <= c_height d < 2 ^ 31 /\ - 2 ^ 63 <= c_amount d < 2 ^ 63).
    { intros HUd. destruct (HU op d HUd) as (_ & Ha & Hhd). rewrite MaxSatoshi_value in Ha. lia. }
    destruct (bool_decide _); [by apply HUr|]. destruct (entries v3 !! op) as [e|] eqn:He; [|by apply HUr].
    destruct (Hin3 op e He) as (j & t & _ & _ & _ & Hl). by apply Hl.
Qed.
(** The scripts of the inputs have run against the coins they spend. *)
Definition verified (v : UtxoViewpoint) (flags : ScriptFlags) (sigCache : option SigCache) (tx : MsgTx) (m : gmap OutPoint coin) : Prop :=
  IsCoinBaseTx tx = false -> exists mid, computed v flags tx = Ok mid /\
    forall k ti, TxIns tx !! k = Some ti -> exists d vm vm', m !! PreviousOutPoint ti = Some d /\
      NewEngine (c_script d) tx (Z.of_nat k) flags sigCache mid (c_amount d) (FetchPrevOutput v) = Ok vm /\ Execute fuel vm = Ok vm'.

Fixpoint verifiedAll (v : UtxoViewpoint) (flags : ScriptFlags) (sigCache : option SigCache) (height : Z) (txs : list MsgTx)
    (m : gmap OutPoint coin) : Prop :=
  match txs with
  | [] => True
  | tx :: txs => verified v flags sigCache tx m /\ verifiedAll v flags sigCache height txs (applyTx height tx m)
  end.

Lemma verified_ok v flags sigCache height txs : forall m, paidAll (over U v) height txs m ->
  Forall (scriptsOk fuel v flags sigCache) txs -> verifiedAll v flags sigCache height txs m.
Proof using.
  induction txs as [|tx txs IH]; intros m; cbn [paidAll verifiedAll]; [done|]. intros [Hp Hpaid] Hall.
  apply list.Forall_cons in Hall as [(mid & Hmid & Hok) Hall]. split; [|by apply IH]. intros Hcb. exists mid. split; [done|].
  intros k ti Hk. specialize (Hp Hcb). rewrite list.Forall_lookup in Hp. destruct (Hp k ti Hk) as (d & e & Hd & He & Ha & Hs & Hi).
  destruct (Hok k ti Hk Hi) as (utxo & vm & vm' & Hu & Hn & Hx). rewrite (over_found U v _ _ Hu) in He. injection He as <-.
  exists d, vm, vm'. rewrite <- Ha, <- Hs. done.
Qed.

(** The best hash of a view plays no part. *)
Lemma verifiedAll_best h v flags sigCache height txs : forall m,
  verifiedAll v flags sigCache height txs m -> verifiedAll (SetBestHash h v) flags sigCache height txs m.
Proof using. induction txs as [|tx txs IH]; intros m; cbn [verifiedAll]; [done|]. intros [Htx Htxs]. split; [exact Htx|by apply IH]. Qed.

Lemma minted_block txs cb rest : txs = cb :: rest -> IsCoinBaseTx cb = true -> Forall (fun tx => IsCoinBaseTx tx = false) rest ->
  minted txs = outSum (TxOuts cb).
Proof using.
  intros -> Hcb Hrest. unfold minted. rewrite fmap_cons, sum_cons, Hcb.
  assert (sum ((fun tx => if IsCoinBaseTx tx then outSum (TxOuts tx) else 0) <$> rest) = 0); [|lia].
  induction Hrest as [|tx rest Htx _ IH]; [done|]. rewrite fmap_cons, sum_cons, Htx. lia.
Qed.

(** Everything that is known of a block that passes. *)
Record connected (c : chainConfig) (node : blockNode) (txs : list MsgTx) (sigCache : option SigCache)
    (st : option (list SpentTxOut)) (hc : option HashCache) (s : checked) : Prop := {
  cn_spends : spends (height node) txs U;
  cn_view : coins (over U (ch_view s)) = applyTxs (height node) txs U;
  cn_best : bestHash (ch_view s) = hash node;
  cn_journal : ch_stxos s = option_map (fun l => l ++ (recordOf <$> spentByAll (height node) txs U)) st;
  cn_ok : utxo_ok (applyTxs (height node) txs U);
  cn_total : total (applyTxs (height node) txs U) <= total U + CalcBlockSubsidy (height node) (ChainParams (ctx c));
  cn_scripts : ch_runScripts s = true -> ScriptVal.coherent (ch_view s) hc txs ->
    verifiedAll (ch_view s) (ch_scriptFlags s) sigCache (height node) txs U;
}.

Lemma subsidy_nonneg h params : 0 <= CalcBlockSubsidy h params <= baseSubsidy.
Proof using.
  unfold CalcBlockSubsidy. destruct (_ =? 0); [done|]. cbv zeta. destruct (Z.leb_spec 64 (u64 (i32 (Z.quot h (SubsidyReductionInterval params))))); [done|].
  set (n := u64 _) in *. assert (Hn : 0 <= n) by apply u64_range. rewrite Z.shiftr_div_pow2 by done.
  pose proof (Z.pow_pos_nonneg 2 n ltac:(lia) Hn). split; [apply Z.div_pos; [done|lia]|]. apply Z.div_le_upper_bound; [lia|].
  change baseSubsidy with 5000000000. nia.
Qed.

Lemma i64_le z : - 2 ^ 63 <= z -> i64 z <= z.
Proof using. intros Hz. unfold i64. pose proof (Z.mod_le (z + 2 ^ 63) (2 ^ 64) ltac:(lia) ltac:(lia)). lia. Qed.

Lemma checkConnectBlock_ok c bi node block bh sigCache v st caches hc s hc'
    (Hh : 0 < height node < 2 ^ 31) (Hbh : 0 <= bh < 2 ^ 31) (Hm : 0 <= CoinbaseMaturity (ChainParams (ctx c)) < 2 ^ 16)
    (Hv : entries v = ∅) (Hb : block_ok (Transactions block)) (Hnew : block_new (runsBIP30 c node) (Transactions block)) :
  checkConnectBlock fetch fuel c bi node block bh sigCache v st caches hc = Ok (None, s, hc') ->
  connected c node (Transactions block) sigCache st hc s.
Proof using HU Hfetch.
  unfold checkConnectBlock. intros Hrun. apply outcome_bind_ok in Hrun as (s1 & H1 & Hrun).
  apply outcome_bind_ok in Hrun as ([err hc1] & Hscr & Hrun). injection Hrun as -> <- <-.
  apply connectChecks_inv in H1 as (v2 & fees & cb & Hld & Hloop & Hhd & Hle).
  destruct (loaded_linked c node block bh v v2 Hbh Hv Hb Hnew Hld) as [Hlk _].
  destruct Hb as [Hs Htx Hnd (cb' & rest & Htxs & Hcb & Hrest)]. rewrite Htxs in Hhd. injection Hhd as <-.
  apply (feeLoop_over U) in Hloop.
  apply (feeLoop_ok (Transactions block) (height node) _ Hh Hm Hs Htx Hnd U) in Hloop; [|done|lia].
  destruct Hloop as [Hsp Hco Hok Hj Hf Htot Hpaid _]. split; cbn; try done.
  - rewrite (minted_block _ cb' rest Htxs Hcb Hrest) in Htot.
    assert (Hsan : sane cb') by (rewrite Htxs in Hs; by apply Forall_inv in Hs).
    rewrite totalOut_sum in Hle by apply Hsan. pose proof (subsidy_nonneg (height node) (ChainParams (ctx c))).
    pose proof (i64_le (CalcBlockSubsidy (height node) (ChainParams (ctx c)) + fees) ltac:(lia)). lia.
  - intros Hrs Hcoh. rewrite Hrs in Hscr. apply verifiedAll_best, verified_ok; [done|].
    apply (checkBlockScripts_iff fuel (ch_view s1) (ch_scriptFlags s1) sigCache (Transactions block) hc Hnd Hcoh). by exists hc1.
Qed.

End Block.

(** The check without context gives what is needed of the transactions. *)
Lemma sane_block_ok {C : Crypto} block powLimit adjustedTime flags :
  Forall tx_ok (Transactions block) -> sane_block block powLimit adjustedTime flags -> block_ok (Transactions block).
Proof. by intros Hok []. Qed.

(** ** Properties *)

(** C6.  Take a block with new transaction hashes (no coin has one of them,
    but an output of the very transaction where the check of BIP30 runs) in
    which, where that check runs, no transaction spends an output of its own
    or of a later one; the code does not check the latter, and
    [forward_spend_inflates] shows what happens otherwise.  When
    checkConnectBlock passes the block, it is a sequence of transactions that
    each spend coins which exist at that point, once and old enough; the
    view that is left is the set of unspent coins with the transactions
    applied one after the other, and the journal has the coins that were
    spent; the scripts of every input have run against the coin it spends,
    unless a checkpoint vouches for the block; and the value of all coins
    grows by the subsidy of the height at most. *)
Theorem checkConnectBlock_safe {C : Crypto} fetch fuel U c bi node block bh sigCache v st caches hc s hc'
    (Hfetch : fetches fetch U) (HU : utxo_ok U) (Hh : 0 < height node < 2 ^ 31) (Hbh : 0 <= bh < 2 ^ 31)
    (Hm : 0 <= CoinbaseMaturity (ChainParams (ctx c)) < 2 ^ 16) (Hv : entries v = ∅)
    (Hb : block_ok (Transactions block)) (Hnew : block_new U (runsBIP30 c node) (Transactions block))
    (Hrun : checkConnectBlock fetch fuel c bi node block bh sigCache v st caches hc = Ok (None, s, hc')) :
  connected fuel U c node (Transactions block) sigCache st hc s.
Proof. by eapply checkConnectBlock_ok. Qed.

(** The heights and unspent coins of a chain in which checkConnectBlock has
    passed every block after the genesis block, whose coinbase is no coin,
    and every block satisfies [block_new]. *)
Inductive history {C : Crypto} (c : chainConfig) : Z -> gmap OutPoint coin -> Prop :=
| history_genesis : history c 0 ∅
| history_block h U fetch fuel bi node block bh sigCache v st caches hc s hc' :
    history c h U -> fetches fetch U -> height node = h + 1 -> 0 <= bh < 2 ^ 31 -> entries v = ∅ ->
    block_ok (Transactions block) -> block_new U (runsBIP30 c node) (Transactions block) ->
    checkConnectBlock fetch fuel c bi node block bh sigCache v st caches hc = Ok (None, s, hc') ->
    history c (h + 1) (coins (over U (ch_view s))).

Lemma history_height {C : Crypto} c h U : history c h U -> 0 <= h.
Proof. induction 1; lia. Qed.

(** C7.  In a chain whose blocks checkConnectBlock has passed, each with new
    transaction hashes and, where the check of BIP30 runs, without a spend of
    an own or later output ([block_new]), the value of all unspent coins is
    at most the subsidies of its heights together, and so never more
    than the 21 million coins for the interval of the networks. *)
Theorem chain_supply {C : Crypto} c h U (Hist : history c h U) (Hh : h < 2 ^ 31 - 1)
    (Hm : 0 <= CoinbaseMaturity (ChainParams (ctx c)) < 2 ^ 16)
    (Hi : 0 < SubsidyReductionInterval (ChainParams (ctx c)) < 2 ^ 31) :
  utxo_ok U /\ 0 <= total U <= supply (ChainParams (ctx c)) (S (Z.to_nat h)) /\
  (SubsidyReductionInterval (ChainParams (ctx c)) = 210000 -> total U <= MaxSatoshi).
Proof.
  assert (Hgen : utxo_ok U /\ total U <= supply (ChainParams (ctx c)) (S (Z.to_nat h))).
  { induction Hist as [|h U fetch fuel bi node block bh sigCache v st caches hc s hc' Hist IH Hf Hn Hbh Hv Hb Hnew Hrun].
    - split; [apply map_Forall_empty|]. change (Z.to_nat 0) with 0%nat. rewrite supply_S. change (supply (ChainParams (ctx c)) 0) with 0. change (total ∅) with 0.
      pose proof (subsidy_nonneg (Z.of_nat 0) (ChainParams (ctx c))). lia.
    - destruct (IH ltac:(lia)) as [HU Hle]. pose proof (history_height c h U Hist).
      destruct (checkConnectBlock_ok fetch fuel U Hf HU c bi node block bh sigCache v st caches hc s hc') as [_ Hco _ _ Hok Htot _]; try done; [lia|].
      rewrite Hco. split; [done|]. replace (Z.to_nat (h + 1)) with (S (Z.to_nat h)) by lia. rewrite supply_S.
      replace (Z.of_nat (S (Z.to_nat h))) with (height node) by lia. lia. }
  destruct Hgen as [Hok Hle]. pose proof (history_height c h U Hist). split; [done|]. split; [split; [by apply total_nonneg|done]|].
  intros He. destruct (supply_bound (ChainParams (ctx c)) (S (Z.to_nat h)) ltac:(lia) Hi) as [_ Hs]. specialize (Hs He). lia.
Qed.

(** ** Concrete instances *)
Module Toy.
Import SigHash.Toy SigCheck.Toy Utxo.Toy Deployments.Toy BlockRules.Toy.
#[local] Existing Instance toy_crypto.

(** One coin, and a block that spends it and then one of the outputs. *)
Definition spent : OutPoint := mkOutPoint (replicate 32 2) 0.
Definition set : gmap OutPoint coin := {[ spent := mkCoin 700 [0x51] 1 false ]}.
Definition fetch (op : OutPoint) : outcome RuleError (option UtxoEntry) := Ok (entryOf <$> set !! op).

Definition cb6 : MsgTx := mkMsgTx 1 [mkTxIn (mkOutPoint zeroHash MaxUint32) [1; 2] [] 0] [mkTxOut 5000 [0x51]] 0.
Definition later : MsgTx := mkMsgTx 1 [mkTxIn spent [] [] 0] [mkTxOut 400 [0x51]; mkTxOut 300 [0x51]] 0.
Definition after : MsgTx := mkMsgTx 1 [mkTxIn (mkOutPoint (TxHash later) 1) [] [] 0] [mkTxOut 300 [0x53]] 0.
(** A transaction that spends the other output, but comes first. *)
Definition forward : MsgTx := mkMsgTx 1 [mkTxIn (mkOutPoint (TxHash later) 0) [] [] 0] [mkTxOut 400 [0x52]] 0.

Definition blockOf (txs : list MsgTx) : MsgBlock :=
  mkMsgBlock (mkBlockHeader 4 (hash m5) (Merkle.merkleRoot (TxHash <$> txs)) 1006 0x207fffff 0) txs.
Definition nodeOf (txs : list MsgTx) : blockNode := newBlockNode (Wire.Header (blockOf txs)) (Some m5).
Definition fresh : chainConfig := mkConfig (mkChainCtx FreshNetParams 1 1 1) (hash m0) freshNetDeployments [].
Definition connect (txs : list MsgTx) : outcome RuleError (option RuleError * checked * option HashCache) :=
  checkConnectBlock fetch 100 fresh bi (nodeOf txs) (blockOf txs) 6 None (SetBestHash (hash m5) NewUtxoViewpoint) (Some [])
    (newThresholdCaches 5) None.

(** The value of the unspent coins after a block that passes. *)
Definition valueAfter (txs : list MsgTx) : option Z :=
  match connect txs with
  | Ok (None, s, _) => Some (sum (c_amount ∘ snd <$> map_to_list (coins (over set (ch_view s)))))
  | _ => None
  end.

Example value_before : total set = 700.
Proof. by vm_compute. Qed.
Example ordered_block : valueAfter [cb6; later; after] = Some (700 + 5000).
Proof. by vm_compute. Qed.

(** The blocks of this network are checked for BIP30 until height 227931, and
    that check leaves an entry for every output of the block.  With such
    entries in the view, a transaction can spend an output of a later one, if
    a third one needs that later one: the coin is then created again when the
    later transaction is connected, and 400 units appear from nowhere in the
    view that checkConnectBlock returns.  The cache of the utxo set, to which
    the block is then connected, refuses the spend; what it leaves behind
    when it does is shown in ChainStart. *)
Example forward_spend_inflates : valueAfter [cb6; forward; later; after] = Some (700 + 5000 + 400).
Proof. by vm_compute. Qed.

Definition passed (r : outcome RuleError (option RuleError * checked * option HashCache)) : bool :=
  match r with Ok (None, _, _) => true | _ => false end.
Lemma passed_ok r : passed r = true -> exists s hc, r = Ok (None, s, hc).
Proof. destruct r as [[[[e|] s] hc]| | |]; try done. by exists s, hc. Qed.

Lemma fetch_set : fetches fetch set.
Proof. intros op. eexists. split; [done|]. destruct (set !! op) as [d|]; [apply live_entryOf|done]. Qed.

Lemma set_ok : utxo_ok set.
Proof. apply map_Forall_singleton. split; [done|]. split; by vm_compute. Qed.

Lemma in_hash_list (h : list Z) (l : list (list Z)) : bool_decide (h ∈ l) = false -> h ∉ l.
Proof. by rewrite bool_decide_eq_false. Qed.

Lemma ordered_ok : block_ok [cb6; later; after].
Proof.
  assert (Hok : Forall tx_ok [cb6; later; after]).
  { do 3 (apply Forall_cons_2; [apply tx_ok_intro; vm_compute; reflexivity|]). apply Forall_nil_2. }
  split; [|exact Hok|apply (bool_decide_unpack _); vm_compute; exact I|].
  - eapply list.Forall_impl with (P := fun tx => tx_ok tx /\ CheckTransactionSanity tx = Ok ()).
    + apply list.Forall_and. split; [exact Hok|]. do 3 (apply Forall_cons_2; [vm_compute; reflexivity|]). apply Forall_nil_2.
    + intros tx [Htx Hs]. apply CheckTransactionSanity_iff; [apply Htx|done].
  - exists cb6, [later; after]. split_and!; [done|by vm_compute|]. do 2 (apply Forall_cons_2; [vm_compute; reflexivity|]). apply Forall_nil_2.
Qed.

Lemma ordered_new : block_new set true [cb6; later; after].
Proof.
  split.
  - intros op Hop [d Hd]. exfalso. unfold set in Hd. apply lookup_singleton_Some in Hd as [<- _]. revert Hop.
    apply in_hash_list. by vm_compute.
  - intros _ k tx ti Hk Hcb Hti. destruct k as [|[|[|k]]]; [injection Hk as <-..|done].
    + exfalso. vm_compute in Hcb. done.
    + apply list_elem_of_singleton in Hti as ->. apply in_hash_list. by vm_compute.
    + apply list_elem_of_singleton in Hti as ->. apply in_hash_list. by vm_compute.
Qed.

Lemma freshnet_maturity : 0 <= CoinbaseMaturity (ChainParams (ctx fresh)) < 2 ^ 16.
Proof. by vm_compute. Qed.

Lemma checkConnectBlock_safe_witness : exists s hc, connect [cb6; later; after] = Ok (None, s, hc) /\
  total (applyTxs 6 [cb6; later; after] set) <= 700 + 5000000000.
Proof.
  assert (Hp : passed (connect [cb6; later; after]) = true) by (vm_compute; reflexivity).
  destruct (passed_ok _ Hp) as (s & hc & Hrun). exists s, hc. split; [exact Hrun|].
  destruct (checkConnectBlock_safe fetch 100 set fresh bi (nodeOf [cb6; later; after]) (blockOf [cb6; later; after]) 6 None
    (SetBestHash (hash m5) NewUtxoViewpoint) (Some []) (newThresholdCaches 5) None s hc
    fetch_set set_ok) as [_ _ _ _ _ Ht _].
  - exact (conj (eq_refl : (0 ?= 6) = Lt) (eq_refl : (6 ?= 2 ^ 31) = Lt)).
  - lia.
  - exact freshnet_maturity.
  - exact eq_refl.
  - apply ordered_ok.
  - apply ordered_new.
  - unfold connect in Hrun. exact Hrun.
  - change (height (nodeOf [cb6; later; after])) with 6 in Ht. change (total set) with 700 in Ht.
    change (CalcBlockSubsidy 6 (ChainParams (ctx fresh))) with 5000000000 in Ht. exact Ht.
Defined.

(** The first block of a chain. *)
Definition first : MsgBlock := mkMsgBlock (mkBlockHeader 4 (hash m0) (Merkle.merkleRoot (TxHash <$> [cb6])) 1006 0x207fffff 0) [cb6].
Definition none (op : OutPoint) : outcome RuleError (option UtxoEntry) := Ok None.
Definition first_run : outcome RuleError (option RuleError * checked * option HashCache) :=
  checkConnectBlock none 100 fresh bi (newBlockNode (Wire.Header first) (Some m0)) first 1 None
    (SetBestHash (hash m0) NewUtxoViewpoint) None (newThresholdCaches 5) None.

Lemma none_fetches : fetches none ∅.
Proof. intros op. exists None. by rewrite lookup_empty. Qed.

Lemma first_ok : block_ok [cb6].
Proof.
  split.
  - apply Forall_cons_2; [|apply Forall_nil_2]. apply CheckTransactionSanity_iff; [|vm_compute; reflexivity].
    apply Forall_cons_2; [by vm_compute|apply Forall_nil_2].
  - apply Forall_cons_2; [apply tx_ok_intro; vm_compute; reflexivity|apply Forall_nil_2].
  - apply (bool_decide_unpack _); vm_compute; exact I.
  - exists cb6, []. split_and!; [done|by vm_compute|apply Forall_nil_2].
Qed.

Lemma first_new run : block_new ∅ run [cb6].
Proof.
  split; [intros op _ [d Hd]; by rewrite lookup_empty in Hd|].
  intros _ k tx ti Hk Hcb. destruct k as [|k]; [|done]. injection Hk as <-. exfalso. vm_compute in Hcb. done.
Qed.

Lemma first_history : exists U, history fresh 1 U.
Proof.
  assert (Hp : passed first_run = true) by (vm_compute; reflexivity).
  destruct (passed_ok _ Hp) as (s & hc & Hrun). unfold first_run in Hrun. eexists. change 1 with (0 + 1).
  refine (history_block fresh 0 ∅ none 100 bi _ _ _ _ _ _ _ _ _ _ (history_genesis fresh) none_fetches _ _ _ _ _ Hrun).
  - exact eq_refl.
  - lia.
  - exact eq_refl.
  - exact first_ok.
  - apply first_new.
Qed.

Lemma chain_supply_witness : exists U, history fresh 1 U /\ total U <= MaxSatoshi.
Proof.
  destruct first_history as (U & Hist). exists U. split; [exact Hist|].
  destruct (chain_supply fresh 1 U Hist) as (_ & _ & Hle); [lia|exact freshnet_maturity|by vm_compute|]. apply Hle. reflexivity.
Defined.

End Toy.

End ConnectSafe.
