(* ===== verification/Orphans.v ===== *)
(** * The pool of orphan blocks

    Models the orphans of coin/OrcaNet/blockchain/chain.go (addOrphanBlock,
    removeOrphanBlock, IsKnownOrphan, GetOrphanRoot) and the loop of process.go
    that accepts those whose parent has come.  An orphan is held by value: the
    code compares the pointers by hash and by expiration only.  A range over
    the map visits the orphans in some order, which is an argument.

    The theorems: the two indexes of the pool agree, the pool never holds more
    than one orphan above its limit (which it can reach), and the loop stops,
    with no orphan left whose parent it has seen accepted. *)

From S2P Require Import Prelude Wire SigHash Merkle Difficulty.

Module Orphans.
Import Wire SigHash Merkle Difficulty.

Definition maxOrphanBlocks := 100.

Record orphanBlock := mkOrphan {
  o_block : MsgBlock;
  expiration : Z;
}.

Record orphanPool := mkPool {
  orphans : gmap (list Z) orphanBlock;
  prevOrphans : gmap (list Z) (list orphanBlock);
  oldestOrphan : option orphanBlock;
}.

Section Hash.
Context {H : Hashes}.

Definition hashOf (o : orphanBlock) : list Z := BlockHash (Header (o_block o)).
Definition prevOf (o : orphanBlock) : list Z := PrevBlock (Header (o_block o)).

Definition IsKnownOrphan (hash : list Z) (p : orphanPool) : bool := bool_decide (is_Some (orphans p !! hash)).

(** The walk to the root, with fuel. *)
Fixpoint rootLoop (fuel : nat) (p : orphanPool) (orphanRoot prevHash : list Z) : outcome RuleError (list Z) :=
  match fuel with
  | O => Hang
  | S fuel =>
      match orphans p !! prevHash with
      | None => Ok orphanRoot
      | Some orphan => rootLoop fuel p prevHash (prevOf orphan)
      end
  end.
Definition GetOrphanRoot (fuel : nat) (hash : list Z) (p : orphanPool) : outcome RuleError (list Z) :=
  rootLoop fuel p hash hash.

Definition removeOrphanBlock (orphan : orphanBlock) (p : orphanPool) : orphanPool :=
  let orphanHash := hashOf orphan in
  let prevHash := prevOf orphan in
  let rest := filter (fun o => hashOf o <> orphanHash) (default [] (prevOrphans p !! prevHash)) in
  mkPool (delete orphanHash (orphans p))
    (if Zlen rest =? 0 then delete prevHash (prevOrphans p) else <[prevHash := rest]> (prevOrphans p))
    (oldestOrphan p).

Definition setOldest (o : option orphanBlock) (p : orphanPool) : orphanPool := mkPool (orphans p) (prevOrphans p) o.

(** The loop over the orphans; [clock] is what time.Now returns in each
    round. *)
Fixpoint expireLoop (clock : nat -> Z) (round : nat) (order : list orphanBlock) (p : orphanPool) : orphanPool :=
  match order with
  | [] => p
  | oBlock :: order =>
      if expiration oBlock <? clock round then expireLoop clock (S round) order (removeOrphanBlock oBlock p)
      else
        let older := match oldestOrphan p with None => true | Some oldest => expiration oBlock <? expiration oldest end in
        expireLoop clock (S round) order (if older then setOldest (Some oBlock) p else p)
  end.

Definition Hour := 3600 * 1000000000.

Definition addOrphanBlock (clock : nat -> Z) (order : list orphanBlock) (block : MsgBlock) (p : orphanPool)
    : outcome RuleError orphanPool :=
  let p := expireLoop clock 0 order p in
  p ← (if maxOrphanBlocks <? Z.of_nat (size (orphans p)) + 1 then
         match oldestOrphan p with
         | None => Panic
         | Some oldest => Ok (setOldest None (removeOrphanBlock oldest p))
         end
       else Ok p);
  let oBlock := mkOrphan block (clock (length order) + Hour) in
  let prevHash := prevOf oBlock in
  Ok (mkPool (<[hashOf oBlock := oBlock]> (orphans p))
        (<[prevHash := default [] (prevOrphans p !! prevHash) ++ [oBlock]]> (prevOrphans p)) (oldestOrphan p)).

(** ** Accepting the orphans of a block *)
Section Process.
(** The rest of the chain, and the acceptance of a block by it. *)
Context {S : Type} (maybeAcceptBlock : MsgBlock -> stateful RuleError S bool).

(** The orphans of one parent: the first one until there is none. *)
Fixpoint drainLoop (fuel : nat) (processHash : list Z) (accepted : list (list Z))
    : stateful RuleError (orphanPool * S) (list (list Z)) := fun '(p, s) =>
  match fuel with
  | O => (Hang, (p, s))
  | Datatypes.S fuel =>
      match prevOrphans p !! processHash with
      | Some (orphan :: _) =>
          let p := removeOrphanBlock orphan p in
          match maybeAcceptBlock (o_block orphan) s with
          | (Ok _, s) => drainLoop fuel processHash (accepted ++ [hashOf orphan]) (p, s)
          | (Err e, s) => (Err e, (p, s))
          | (Panic, s) => (Panic, (p, s))
          | (Hang, s) => (Hang, (p, s))
          end
      | _ => (Ok accepted, (p, s))
      end
  end.

Fixpoint processLoop (fuel : nat) (processHashes : list (list Z)) : stateful RuleError (orphanPool * S) unit :=
  match processHashes with
  | [] => mret ()
  | processHash :: processHashes =>
      match fuel with
      | O => lift Hang
      | Datatypes.S fuel =>
          n ← gets (fun '(p, _) => size (orphans p));
          accepted ← drainLoop (Datatypes.S n) processHash [];
          processLoop fuel (processHashes ++ accepted)
      end
  end.

(** The fuel is more than the orphans there are. *)
Definition processOrphans (hash : list Z) : stateful RuleError (orphanPool * S) unit :=
  n ← gets (fun '(p, _) => size (orphans p));
  processLoop (Datatypes.S n) [hash].

End Process.
End Hash.
(** ** The indexes of the pool *)
Section Pool.
Context {H : Hashes}.
(** The blocks that come; no two of them have the same hash and different
    parents. *)
Context (known : MsgBlock -> Prop).
Context (Hinj : forall a b, known a -> known b -> BlockHash (Header a) = BlockHash (Header b) -> PrevBlock (Header a) = PrevBlock (Header b)).

Definition held (p : orphanPool) (o : orphanBlock) : Prop := orphans p !! hashOf o = Some o.

Record pool_ok (p : orphanPool) : Prop := {
  po_known : forall h o, orphans p !! h = Some o -> known (o_block o) /\ hashOf o = h;
  po_listed : forall h o, orphans p !! h = Some o -> exists l, prevOrphans p !! prevOf o = Some l /\ o ∈ l;
  po_lists : forall h l, prevOrphans p !! h = Some l ->
    l <> [] /\ NoDup (hashOf <$> l) /\ forall o, o ∈ l -> prevOf o = h /\ held p o;
  po_oldest : forall o, oldestOrphan p = Some o -> known (o_block o);
}.

Lemma held_known p o : pool_ok p -> held p o -> known (o_block o).
Proof using. intros Hp Ho. by apply (po_known p Hp _ _ Ho). Qed.

Lemma remove_orphans o p : orphans (removeOrphanBlock o p) = delete (hashOf o) (orphans p).
Proof using. done. Qed.

Lemma nodup_filter (P : orphanBlock -> Prop) `{!forall o, Decision (P o)} l : NoDup (hashOf <$> l) -> NoDup (hashOf <$> filter P l).
Proof using.
  induction l as [|o l IH]; [done|]. rewrite fmap_cons, list.NoDup_cons. intros [Hni Hnd]. rewrite filter_cons. case_decide; [|by apply IH].
  rewrite fmap_cons, list.NoDup_cons. split; [|by apply IH]. intros (o' & Heq & Ho')%list_elem_of_fmap. apply Hni.
  rewrite list_elem_of_filter in Ho'. rewrite Heq. by apply list_elem_of_fmap_2, Ho'.
Qed.

Lemma remove_lists o p k : prevOrphans (removeOrphanBlock o p) !! k =
  if decide (k = prevOf o)
  then let rest := filter (fun o' => hashOf o' <> hashOf o) (default [] (prevOrphans p !! k)) in
       if Zlen rest =? 0 then None else Some rest
  else prevOrphans p !! k.
Proof using.
  unfold removeOrphanBlock. cbn [prevOrphans]. case_decide as Hk.
  - subst k. cbn zeta. destruct (_ =? 0); [by rewrite lookup_delete_eq|by rewrite lookup_insert_eq].
  - destruct (_ =? 0); [by rewrite lookup_delete_ne|by rewrite lookup_insert_ne].
Qed.

Lemma Zlen_zero_nil {A} (l : list A) : (Zlen l =? 0) = true <-> l = [].
Proof using. destruct l; [done|]. rewrite Zlen_cons. pose proof (Zlen_nonneg l). split; [lia|done]. Qed.

Lemma remove_ok o p : pool_ok p -> known (o_block o) -> pool_ok (removeOrphanBlock o p).
Proof using Hinj.
  intros [Hkn Hli Hls Hold] Ho. split.
  - intros h o' Ho'. rewrite remove_orphans in Ho'. apply lookup_delete_Some in Ho' as [_ Ho']. by apply Hkn.
  - intros h o' Ho'. rewrite remove_orphans in Ho'. apply lookup_delete_Some in Ho' as [Hne Ho'].
    destruct (Hli h o' Ho') as (l & Hl & Hin). destruct (Hkn h o' Ho') as [_ Hh]. rewrite remove_lists. case_decide as Hk; [|by exists l].
    cbn zeta. rewrite Hl. change (default [] (Some l)) with l.
    assert (Hin' : o' ∈ filter (fun o' => hashOf o' <> hashOf o) l) by (rewrite list_elem_of_filter; split; [congruence|done]).
    destruct (Zlen _ =? 0) eqn:Hz; [|by eexists]. apply Zlen_zero_nil in Hz. rewrite Hz in Hin'. by apply not_elem_of_nil in Hin'.
  - intros h l Hl. rewrite remove_lists in Hl.
    assert (Hheld : forall o', o' ∈ default [] (prevOrphans p !! h) -> hashOf o' <> hashOf o -> prevOf o' = h /\ held (removeOrphanBlock o p) o').
    { intros o' Ho' Hne. destruct (prevOrphans p !! h) as [l0|] eqn:Hl0; [|by apply not_elem_of_nil in Ho'].
      destruct (Hls h l0 Hl0) as (_ & _ & Hall). destruct (Hall o' Ho') as [Hp Hh]. split; [done|]. unfold held. rewrite remove_orphans.
      by rewrite lookup_delete_ne by done. }
    case_decide as Hk.
    + cbn zeta in Hl. destruct (Zlen _ =? 0) eqn:Hz; [done|]. injection Hl as <-. split_and!.
      * intros Hn. apply Zlen_zero_nil in Hn. congruence.
      * apply nodup_filter. destruct (prevOrphans p !! h) as [l0|] eqn:Hl0; [by apply (Hls h l0)|constructor].
      * intros o' Ho'. rewrite list_elem_of_filter in Ho'. destruct Ho' as [Hne Ho']. by apply Hheld.
    + destruct (Hls h l Hl) as (Hne & Hnd & Hall). split_and!; [done|done|]. intros o' Ho'. apply Hheld; [by rewrite Hl|].
      intros Heq. destruct (Hall o' Ho') as [Hp Hh]. apply Hk. rewrite <- Hp. apply Hinj; [by eapply po_known|done|done].
  - done.
Qed.

Lemma remove_size o p : (size (orphans (removeOrphanBlock o p)) <= size (orphans p))%nat /\
  (is_Some (orphans p !! hashOf o) -> size (orphans p) = S (size (orphans (removeOrphanBlock o p)))).
Proof using.
  rewrite remove_orphans, map_size_delete. destruct (orphans p !! hashOf o) as [o'|] eqn:Ho; [|unfold id; split; [lia|by intros []]].
  assert (size (orphans p) <> 0%nat); [|lia]. intros Hz. apply map_size_empty_inv in Hz. by rewrite Hz, lookup_empty in Ho.
Qed.

Lemma setOldest_ok o p : pool_ok p -> (forall o', o = Some o' -> known (o_block o')) -> pool_ok (setOldest o p).
Proof using. intros [Hkn Hli Hls _] Ho. by split. Qed.

(** What holds in the middle of the loop over the orphans. *)
Record expiring (start : option orphanBlock) (rest : list orphanBlock) (p : orphanPool) : Prop := {
  ex_ok : pool_ok p;
  ex_nodup : NoDup (hashOf <$> rest);
  ex_held : forall o, o ∈ rest -> held p o;
  ex_seen : forall h o, orphans p !! h = Some o -> o ∈ rest \/ oldestOrphan p <> None;
  ex_oldest : oldestOrphan p = start \/ exists o, oldestOrphan p = Some o /\ held p o /\ hashOf o ∉ hashOf <$> rest;
}.

Lemma expireLoop_ok clock start order : forall round p, expiring start order p ->
  expiring start [] (expireLoop clock round order p) /\ (size (orphans (expireLoop clock round order p)) <= size (orphans p))%nat.
Proof using Hinj.
  induction order as [|o order IH]; intros round p Hex; cbn [expireLoop]; [by split|].
  destruct Hex as [Hok Hnd Hheld Hseen Hold]. rewrite fmap_cons in Hnd. apply list.NoDup_cons in Hnd as [Hni Hnd].
  assert (Ho : held p o) by (apply Hheld; by left). assert (Hne : forall o', o' ∈ order -> hashOf o' <> hashOf o).
  { intros o' Ho' Heq. apply Hni. rewrite <- Heq. by apply list_elem_of_fmap_2. }
  assert (Hk : known (o_block o)) by (by eapply held_known).
  destruct (expiration o <? clock round).
  - destruct (IH (S round) (removeOrphanBlock o p)) as [H1 H2].
    + split; [by apply remove_ok|done| | |].
      * intros o' Ho'. unfold held. rewrite remove_orphans, lookup_delete_ne; [apply Hheld; by right|]. intros Heq. by apply (Hne o' Ho').
      * intros h o' Ho'. rewrite remove_orphans in Ho'. apply lookup_delete_Some in Ho' as [Hh Ho'].
        destruct (Hseen h o' Ho') as [[->|Hin]%list.elem_of_cons|Hs]; [|by left|by right]. destruct Hh. by apply (po_known p Hok).
      * destruct Hold as [Hs|(o' & Ho' & Hh & Hni')]; [by left|]. right. exists o'. rewrite fmap_cons, list.elem_of_cons in Hni'.
        split_and!; [done| |tauto]. unfold held. rewrite remove_orphans, lookup_delete_ne; [done|]. intros Heq. apply Hni'. by left.
    + split; [done|]. pose proof (remove_size o p). lia.
  - cbv zeta. destruct (match oldestOrphan p with None => true | Some oldest => expiration o <? expiration oldest end) eqn:Holder.
    + apply (IH (S round) (setOldest (Some o) p)). split; [|done| | |].
      * apply setOldest_ok; [done|]. by intros o' [= <-].
      * intros o' Ho'. apply Hheld. by right.
      * intros h o' _. by right.
      * right. by exists o.
    + apply (IH (S round) p). split; [done|done| | |].
      * intros o' Ho'. apply Hheld. by right.
      * intros h o' Ho'. right. intros Hn. by rewrite Hn in Holder.
      * destruct Hold as [Hs|(o' & Ho' & Hh & Hni')]; [by left|]. right. exists o'. rewrite fmap_cons, list.elem_of_cons in Hni'. tauto.
Qed.

(** The orphans that the code walks over, in some order. *)
Definition order_of (p : orphanPool) (order : list orphanBlock) : Prop := order ≡ₚ (map_to_list (orphans p)).*2.

Lemma order_start p order : pool_ok p -> order_of p order -> expiring (oldestOrphan p) order p.
Proof using.
  intros Hok Hord. assert (Hin : forall o, o ∈ order <-> exists h, orphans p !! h = Some o).
  { intros o. unfold order_of in Hord. rewrite Hord. rewrite list_elem_of_fmap. split.
    - intros ([h o'] & -> & Hh%elem_of_map_to_list). by exists h.
    - intros (h & Hh). exists (h, o). split; [done|by apply elem_of_map_to_list]. }
  split; [done| | | |by left].
  - unfold order_of in Hord. rewrite Hord, <- list_fmap_compose.
    assert (Heq : (hashOf ∘ snd <$> map_to_list (orphans p)) = (map_to_list (orphans p)).*1).
    { apply list_fmap_ext. intros i [h o] Hi. apply list_elem_of_lookup_2, elem_of_map_to_list in Hi. by apply (po_known p Hok). }
    rewrite Heq. apply NoDup_fst_map_to_list.
  - intros o (h & Hh)%Hin. unfold held. destruct (po_known p Hok h o Hh) as [_ ->]. done.
  - intros h o Hh. left. apply Hin. by exists h.
Qed.

(** *** Adding *)
Definition limit : nat := Z.to_nat maxOrphanBlocks.

(** What the pool satisfies at any time. *)
Record bounded (p : orphanPool) : Prop := {
  bd_ok : pool_ok p;
  bd_size : (size (orphans p) <= S limit)%nat;
  bd_oldest : size (orphans p) = S limit -> oldestOrphan p = None;
}.

Lemma insert_ok o p : pool_ok p -> known (o_block o) -> orphans p !! hashOf o = None ->
  pool_ok (mkPool (<[hashOf o := o]> (orphans p)) (<[prevOf o := default [] (prevOrphans p !! prevOf o) ++ [o]]> (prevOrphans p)) (oldestOrphan p)).
Proof using.
  intros [Hkn Hli Hls Hold] Ho Hnew. split; cbn [orphans prevOrphans oldestOrphan].
  - intros h o' Hh. apply lookup_insert_Some in Hh as [[<- <-]|[_ Hh]]; [done|by apply Hkn].
  - intros h o' Hh. apply lookup_insert_Some in Hh as [[<- <-]|[_ Hh]].
    + rewrite lookup_insert_eq. eexists. split; [done|]. apply elem_of_app. right. by left.
    + destruct (Hli h o' Hh) as (l & Hl & Hin). destruct (decide (prevOf o = prevOf o')) as [Heq|Hne].
      * rewrite Heq, lookup_insert_eq, Hl. eexists. split; [done|]. apply elem_of_app. by left.
      * rewrite lookup_insert_ne by done. by exists l.
  - assert (Hheld : forall o', held p o' -> <[hashOf o := o]> (orphans p) !! hashOf o' = Some o').
    { intros o' Ho'. rewrite lookup_insert_ne; [done|]. intros Heq. unfold held in Ho'. rewrite <- Heq, Hnew in Ho'. done. }
    intros k l Hl. apply lookup_insert_Some in Hl as [[<- <-]|[_ Hl]].
    + split; [by destruct (default _ _)|]. destruct (prevOrphans p !! prevOf o) as [l|] eqn:Hl; cbn [default from_option id].
      * destruct (Hls _ l Hl) as (_ & Hnd & Hall). split.
        -- rewrite fmap_app. apply list.NoDup_app. split_and!; [done| |apply NoDup_singleton].
           intros x (o' & -> & Ho')%list_elem_of_fmap Hx%list_elem_of_singleton. destruct (Hall o' Ho') as [_ Hh].
           unfold held in Hh. rewrite Hx, Hnew in Hh. done.
        -- intros o' [Ho'| ->%list_elem_of_singleton]%elem_of_app; [|by split; [|apply lookup_insert_eq]].
           destruct (Hall o' Ho') as [Hp Hh]. split; [done|by apply Hheld].
      * split; [apply NoDup_singleton|]. intros o' ->%list_elem_of_singleton. by split; [|apply lookup_insert_eq].
    + destruct (Hls k l Hl) as (Hne & Hnd & Hall). split_and!; [done|done|]. intros o' Ho'. destruct (Hall o' Ho') as [Hp Hh].
      split; [done|by apply Hheld].
  - done.
Qed.

Lemma expireLoop_from clock order : forall round p h o, orphans (expireLoop clock round order p) !! h = Some o -> orphans p !! h = Some o.
Proof using.
  induction order as [|o order IH]; intros r p h o'; cbn [expireLoop]; [done|].
  destruct (_ <? clock r); intros Hh%IH; [by rewrite remove_orphans in Hh; apply lookup_delete_Some in Hh as [_ ?]|].
  cbv zeta in Hh. by destruct (match oldestOrphan p with None => true | Some _ => _ end).
Qed.

Lemma add_from clock order block p p' h : addOrphanBlock clock order block p = Ok p' -> h <> BlockHash (Header block) ->
  is_Some (orphans p' !! h) -> is_Some (orphans p !! h).
Proof using.
  unfold addOrphanBlock. intros Hrun Hne. apply outcome_bind_ok in Hrun as (p1 & Hp1 & [= <-]). cbn [orphans].
  rewrite lookup_insert_ne by done. intros [o Ho]. exists o. apply (expireLoop_from clock order 0).
  destruct (maxOrphanBlocks <? _); [|by injection Hp1 as <-]. destruct (oldestOrphan _) as [old|]; [|done]. injection Hp1 as <-.
  cbn [orphans setOldest] in Ho. rewrite remove_orphans in Ho. by apply lookup_delete_Some in Ho as [_ ?].
Qed.

Lemma add_bounded clock order block p : bounded p -> known block -> orphans p !! BlockHash (Header block) = None -> order_of p order ->
  exists p', addOrphanBlock clock order block p = Ok p' /\ bounded p'.
Proof using Hinj.
  intros [Hok Hsz Hfull] Hb Hnew Hord. unfold addOrphanBlock.
  destruct (expireLoop_ok clock _ order 0 p (order_start p order Hok Hord)) as [Hex Hle].
  set (p1 := expireLoop clock 0 order p) in *. destruct Hex as [Hok1 _ _ Hseen Hold].
  set (o := mkOrphan block (clock (length order) + Hour)).
  pose proof (expireLoop_from clock order 0 p : forall h o', orphans p1 !! h = Some o' -> orphans p !! h = Some o') as Hsub.
  assert (Hfree : forall p2, (forall h o', orphans p2 !! h = Some o' -> orphans p1 !! h = Some o') -> orphans p2 !! hashOf o = None).
  { intros p2 Hp2. destruct (orphans p2 !! hashOf o) as [o'|] eqn:Ho'; [|done]. apply Hp2, Hsub in Ho'. change (orphans p !! BlockHash (Header block) = Some o') in Ho'. congruence. }
  assert (Hdone : forall p2, pool_ok p2 -> (forall h o', orphans p2 !! h = Some o' -> orphans p1 !! h = Some o') ->
    (size (orphans p2) <= limit)%nat -> (size (orphans p2) = limit -> oldestOrphan p2 = None) ->
    bounded (mkPool (<[hashOf o := o]> (orphans p2)) (<[prevOf o := default [] (prevOrphans p2 !! prevOf o) ++ [o]]> (prevOrphans p2)) (oldestOrphan p2))).
  { intros p2 Hok2 Hs2 Hl2 Ho2. split; [by apply insert_ok; [|..|apply Hfree]| |]; cbn [orphans oldestOrphan];
      rewrite map_size_insert_None by (by apply Hfree); [lia|]. intros Heq. apply Ho2. lia. }
  destruct (Z.ltb_spec maxOrphanBlocks (Z.of_nat (size (orphans p1)) + 1)) as [Hgt|Hgt].
  - assert (Hbig : (limit <= size (orphans p1))%nat) by (unfold limit; lia).
    destruct (oldestOrphan p1) as [oldest|] eqn:Hol.
    2: { exfalso. destruct (decide (orphans p1 = ∅)) as [He|He]; [rewrite He, map_size_empty in Hbig; vm_compute in Hbig; lia|].
      apply map_choose in He as (h & o' & Hh). destruct (Hseen h o' Hh) as [Hx|Hx]; [by apply not_elem_of_nil in Hx|done]. }
    rewrite bind_Ok. eexists. split; [reflexivity|]. pose proof (remove_size oldest p1) as [Hrle Hreq].
    assert (Hko : known (o_block oldest)) by (by apply (po_oldest p1 Hok1)).
    apply (Hdone (setOldest None (removeOrphanBlock oldest p1))).
    + apply setOldest_ok; [by apply remove_ok|done].
    + intros h o' Hh. cbn [orphans setOldest] in Hh. rewrite remove_orphans in Hh. by apply lookup_delete_Some in Hh as [_ ?].
    + cbn [orphans setOldest]. destruct (decide (size (orphans p1) = S limit)) as [Heq|]; [|lia].
      destruct Hold as [Hs|(o' & Ho' & Hh & _)].
      * rewrite Hfull in Hs by lia. congruence.
      * injection Ho' as <-. unfold held in Hh. rewrite Hreq in Heq by (by rewrite Hh). lia.
    + done.
  - rewrite bind_Ok. eexists. split; [reflexivity|]. unfold limit in *. apply Hdone; [done|done|lia|lia].
Qed.

Lemma remove_bounded o p : bounded p -> held p o -> bounded (removeOrphanBlock o p).
Proof using Hinj.
  intros [Hok Hsz Hfull] Ho. pose proof (remove_size o p) as [_ Heq]. rewrite Heq in * by (by rewrite Ho).
  split; [apply remove_ok; [done|by eapply held_known]|lia|]. intros Hs. lia.
Qed.

(** What happens to a pool: a block that is not in it is added, or an orphan
    leaves it because its parent has come. *)
Inductive reaches : orphanPool -> Prop :=
| reaches_empty : reaches (mkPool ∅ ∅ None)
| reaches_add p clock order block p' : reaches p -> known block -> orphans p !! BlockHash (Header block) = None ->
    order_of p order -> addOrphanBlock clock order block p = Ok p' -> reaches p'
| reaches_remove p o : reaches p -> held p o -> reaches (removeOrphanBlock o p).

Lemma reaches_bounded p : reaches p -> bounded p.
Proof using Hinj.
  induction 1 as [|p clock order block p' _ IH Hb Hnew Hord Hrun|p o _ IH Ho].
  - split; [|by vm_compute; lia|done]. split; cbn; [intros h o Ho|intros h o Ho|intros h l Ho|done]; by rewrite lookup_empty in Ho.
  - destruct (add_bounded clock order block p IH Hb Hnew Hord) as (p2 & Hp2 & Hb2). rewrite Hrun in Hp2. by injection Hp2 as <-.
  - by apply remove_bounded.
Qed.

(** *** Accepting *)
Section Process.
Context {S : Type} (maybeAcceptBlock : MsgBlock -> stateful RuleError S bool).
(** Accepting a block returns. *)
Context (Haccept : forall b s, (maybeAcceptBlock b s).1 <> Hang).

Definition shrinks (p p' : orphanPool) : Prop := pool_ok p' /\ forall o, held p' o -> held p o.

Lemma shrinks_refl p : pool_ok p -> shrinks p p.
Proof using. by split. Qed.

Lemma shrinks_trans p p1 p2 : shrinks p p1 -> shrinks p1 p2 -> shrinks p p2.
Proof using. intros [_ H1] [Hok H2]. split; [done|]. auto. Qed.

Lemma shrinks_none p p' k : pool_ok p -> shrinks p p' -> prevOrphans p !! k = None -> prevOrphans p' !! k = None.
Proof using.
  intros Hok [Hok' Hsub] Hk. destruct (prevOrphans p' !! k) as [l|] eqn:Hl; [|done].
  destruct (po_lists p' Hok' k l Hl) as (Hne & _ & Hall). destruct l as [|o l]; [done|].
  destruct (Hall o) as [Hp Ho]; [by left|]. apply Hsub in Ho. destruct (po_listed p Hok _ o Ho) as (l' & Hl' & _). congruence.
Qed.

Lemma removed_shrinks o p : pool_ok p -> held p o -> shrinks p (removeOrphanBlock o p).
Proof using Hinj.
  intros Hok Ho. split; [apply remove_ok; [done|by eapply held_known]|]. intros o'. unfold held. rewrite remove_orphans.
  intros [_ ?]%lookup_delete_Some. done.
Qed.

Lemma drainLoop_ok h fuel : forall accepted p s r p' s', pool_ok p -> (size (orphans p) < fuel)%nat ->
  drainLoop maybeAcceptBlock fuel h accepted (p, s) = (r, (p', s')) ->
  r <> Hang /\ shrinks p p' /\
  forall acc, r = Ok acc -> prevOrphans p' !! h = None /\ exists new, acc = accepted ++ new /\
    (size (orphans p) = size (orphans p') + length new)%nat /\ forall o, held p o -> held p' o \/ hashOf o ∈ new.
Proof using Haccept Hinj.
  induction fuel as [|fuel IH]; intros accepted p s r p' s' Hok Hf Hrun; [lia|]. cbn [drainLoop] in Hrun.
  destruct (prevOrphans p !! h) as [l|] eqn:Hl.
  2: { injection Hrun as <- <- <-. split_and!; [done|by apply shrinks_refl|]. intros acc [= <-]. split; [done|]. exists [].
       rewrite app_nil_r. split_and!; [done|cbn; lia|]. intros o Ho. by left. }
  destruct (po_lists p Hok h l Hl) as (Hne & _ & Hall). destruct l as [|o l]; [done|]. destruct (Hall o) as [_ Ho]; [by left|].
  pose proof (removed_shrinks o p Hok Ho) as Hsh. pose proof (remove_size o p) as [_ Hsz]. rewrite Hsz in * by (by rewrite Ho).
  pose proof (Haccept (o_block o) s) as Hnh. destruct (maybeAcceptBlock (o_block o) s) as [[b|e| |] s1]; cbn in Hnh; try done.
  2,3: injection Hrun as <- <- <-; by split_and!.
  destruct (IH _ _ _ _ _ _ (proj1 Hsh) ltac:(lia) Hrun) as (Hr & Hsh' & Hres). split_and!; [done|by eapply shrinks_trans|].
  intros acc Hacc. destruct (Hres acc Hacc) as (Hn & new & -> & Hs & Hin). split; [done|]. exists (hashOf o :: new).
  rewrite <- (assoc_L (++)). split_and!; [done|cbn [length]; lia|]. intros o' Ho'.
  destruct (decide (hashOf o' = hashOf o)) as [Heq|Hneq]; [right; rewrite Heq; by left|].
  destruct (Hin o') as [?|?]; [|by left|right; by right]. unfold held. rewrite remove_orphans, lookup_delete_ne by congruence. exact Ho'.
Qed.

Lemma processLoop_ok fuel : forall hs p s r p' s', pool_ok p -> (length hs + size (orphans p) <= fuel)%nat ->
  processLoop maybeAcceptBlock fuel hs (p, s) = (r, (p', s')) ->
  r <> Hang /\ shrinks p p' /\
  (r = Ok () -> (forall h, h ∈ hs -> prevOrphans p' !! h = None) /\
    forall o, held p o -> held p' o \/ prevOrphans p' !! hashOf o = None).
Proof using Haccept Hinj.
  induction fuel as [|fuel IH]; intros hs p s r p' s' Hok Hf Hrun.
  - destruct hs; [|cbn in Hf; lia]. injection Hrun as <- <- <-. split_and!; [done|by apply shrinks_refl|]. intros _. split; [by intros ? ?%not_elem_of_nil|]. by left.
  - destruct hs as [|h hs]; cbn [processLoop] in Hrun.
    { injection Hrun as <- <- <-. split_and!; [done|by apply shrinks_refl|]. intros _. split; [by intros ? ?%not_elem_of_nil|]. by left. }
    unfold mbind, stateful_bind, gets in Hrun.
    destruct (drainLoop maybeAcceptBlock (Datatypes.S (size (orphans p))) h [] (p, s)) as [r1 [p1 s1]] eqn:Hd.
    destruct (drainLoop_ok h _ [] p s r1 p1 s1 Hok (Nat.lt_succ_diag_r _) Hd) as (Hr1 & Hsh1 & Hres). destruct r1 as [acc|e| |]; try done.
    2,3: injection Hrun as <- <- <-; by split_and!.
    destruct (Hres acc eq_refl) as (Hn & new & -> & Hs & Hin). cbn [length app] in *.
    destruct (IH (hs ++ new) p1 s1 r p' s' (proj1 Hsh1) ltac:(rewrite length_app; clear -Hf Hs; cbn [length] in Hf; lia) Hrun) as (Hr & Hsh & Hend).
    split_and!; [done|by eapply shrinks_trans|]. intros Hok'. destruct (Hend Hok') as [Hall Hheld]. split.
    + intros k [->|Hk]%list.elem_of_cons; [by apply (shrinks_none p1); [apply Hsh1|..]|]. apply Hall, elem_of_app. by left.
    + intros o Ho. destruct (Hin o Ho) as [Ho1|Hnew]; [by apply Hheld|]. right. apply Hall, elem_of_app. by right.
Qed.

End Process.

(** *** What the acceptance of each orphan keeps is kept by the loop *)
Section Keeps.
Context {S : Type} (maybeAcceptBlock : MsgBlock -> stateful RuleError S bool).
Context (Post : outcome RuleError unit -> orphanPool -> S -> Prop).
Context (Hstep : forall p s o, Post (Ok ()) p s -> pool_ok p -> held p o ->
  let '(r, s') := maybeAcceptBlock (o_block o) s in Post (r ≫= fun _ => Ok ()) (removeOrphanBlock o p) s').
Context (Hhang : forall p s, Post (Ok ()) p s -> Post Hang p s).

Lemma drainLoop_keeps h fuel : forall accepted p s, Post (Ok ()) p s -> pool_ok p ->
  let '(r, (p', s')) := drainLoop maybeAcceptBlock fuel h accepted (p, s) in Post (r ≫= fun _ => Ok ()) p' s' /\ pool_ok p'.
Proof using Hstep Hhang Hinj.
  induction fuel as [|fuel IH]; intros accepted p s HP Hok; cbn [drainLoop]; [split; [by apply Hhang|done]|].
  destruct (prevOrphans p !! h) as [l|] eqn:Hl; [|by split]. destruct l as [|o l]; [by split|].
  destruct (po_lists p Hok h _ Hl) as (_ & _ & Hall). destruct (Hall o) as [_ Ho]; [by left|].
  specialize (Hstep p s o HP Hok Ho). assert (Hok' : pool_ok (removeOrphanBlock o p)) by (apply remove_ok; [done|by eapply held_known]).
  destruct (maybeAcceptBlock (o_block o) s) as [[b|e| |] s1]; [by apply IH|by split..].
Qed.

Lemma processLoop_keeps fuel : forall hs p s, Post (Ok ()) p s -> pool_ok p ->
  let '(r, (p', s')) := processLoop maybeAcceptBlock fuel hs (p, s) in Post r p' s'.
Proof using Hstep Hhang Hinj.
  induction fuel as [|fuel IH]; intros [|h hs] p s HP Hok; cbn [processLoop]; [done|by apply Hhang|done|].
  unfold mbind, stateful_bind, gets. pose proof (drainLoop_keeps h (Datatypes.S (size (orphans p))) [] p s HP Hok) as Hd.
  destruct (drainLoop _ _ h [] (p, s)) as [[acc|e| |] [p1 s1]]; [apply IH|..]; apply Hd.
Qed.

Lemma processOrphans_keeps hash p s : Post (Ok ()) p s -> pool_ok p ->
  let '(r, (p', s')) := processOrphans maybeAcceptBlock hash (p, s) in Post r p' s'.
Proof using Hstep Hhang Hinj. intros HP Hok. unfold processOrphans, mbind, stateful_bind, gets. by apply processLoop_keeps. Qed.

End Keeps.

End Pool.
(** ** Properties *)
Section Properties.
Context {H : Hashes} (known : MsgBlock -> Prop).
Context (Hinj : forall a b, known a -> known b -> BlockHash (Header a) = BlockHash (Header b) -> PrevBlock (Header a) = PrevBlock (Header b)).

(** C13.  In every pool that blocks come to and leave, an orphan is under its
    own hash and in the list of its parent, the lists have nothing else and
    are never empty, there are at most 101 orphans, and adding one more never
    fails. *)
Theorem orphan_pool_bounded p (Hp : reaches known p) :
  pool_ok known p /\ Z.of_nat (size (orphans p)) <= maxOrphanBlocks + 1 /\
  forall clock order block, known block -> orphans p !! BlockHash (Header block) = None -> order_of p order ->
    exists p', addOrphanBlock clock order block p = Ok p'.
Proof using Hinj.
  destruct (reaches_bounded known Hinj p Hp) as [Hok Hs Hf]. split; [done|]. split; [unfold limit, maxOrphanBlocks in *; lia|].
  intros clock order block Hb Hnew Hord. destruct (add_bounded known Hinj clock order block p) as (p' & ? & _); [by split|done..|]. by exists p'.
Qed.

(** C14.  Accepting the orphans of a block stops, as long as the acceptance of
    each ends, with whatever answer; the pool stays well-formed and gains
    nothing.  When no acceptance fails, so that the call returns without an
    error, no orphan that waits for the block, or for an orphan that has left
    the pool, is left in it; the first that fails ends the call and can leave
    such orphans. *)
Theorem processOrphans_stops {S} (maybeAcceptBlock : MsgBlock -> stateful RuleError S bool) hash p s
    (Haccept : forall b s, (maybeAcceptBlock b s).1 <> Hang) (Hok : pool_ok known p) :
  exists r p' s', processOrphans maybeAcceptBlock hash (p, s) = (r, (p', s')) /\ r <> Hang /\ pool_ok known p' /\
    (forall o, held p' o -> held p o) /\
    (r = Ok () -> forall o, held p' o -> prevOf o <> hash /\ forall o', held p o' -> ~ held p' o' -> prevOf o <> hashOf o').
Proof using Hinj.
  destruct (processOrphans maybeAcceptBlock hash (p, s)) as [r [p' s']] eqn:Hrun. exists r, p', s'. split; [done|].
  unfold processOrphans, mbind, stateful_bind, gets in Hrun.
  destruct (processLoop_ok known Hinj maybeAcceptBlock Haccept (Datatypes.S (size (orphans p))) [hash] p s r p' s' Hok ltac:(cbn [length]; lia) Hrun) as (Hr & [Hok' Hsub] & Hend).
  split_and!; [done|done|done|]. intros Hr' o Ho. destruct (Hend Hr') as [Hall Hleft].
  destruct (po_listed _ p' Hok' _ o Ho) as (l & Hl & _). split.
  - intros Heq. rewrite Heq, Hall in Hl; [done|by left].
  - intros o' Ho' Hno Heq. destruct (Hleft o' Ho') as [?|Hn]; [done|]. by rewrite Heq, Hn in Hl.
Qed.

End Properties.

(** ** Concrete instances *)
Module Toy.

(** A hash that keeps its input. *)
#[local] Instance keep : Hashes := {| sha256 b := b; sha1 b := b; ripemd160 b := b |}.

Definition blockAt (prev : list Z) (nonce : Z) : MsgBlock := mkMsgBlock (mkBlockHeader 1 prev [] 0 0 nonce) [].
Definition clock (t : Z) : nat -> Z := fun _ => t.
Definition values (p : orphanPool) : list orphanBlock := (map_to_list (orphans p)).*2.
Definition addAt (t : Z) (block : MsgBlock) (p : orphanPool) : orphanPool :=
  match addOrphanBlock (clock t) (values p) block p with Ok p => p | _ => p end.

Definition root : list Z := [7].
Definition child : MsgBlock := blockAt root 1.
Definition grandchild : MsgBlock := blockAt (BlockHash (Header child)) 2.
Definition knownBlock (b : MsgBlock) : Prop := b = child \/ b = grandchild.

Lemma known_inj a b : knownBlock a -> knownBlock b -> BlockHash (Header a) = BlockHash (Header b) -> PrevBlock (Header a) = PrevBlock (Header b).
Proof. intros [->| ->] [->| ->]; intros Heq; try done; vm_compute in Heq; done. Qed.

Definition empty : orphanPool := mkPool ∅ ∅ None.
Definition one : orphanPool := addAt 5 grandchild empty.
Definition two : orphanPool := addAt 6 child one.

Lemma two_reached : reaches knownBlock two.
Proof.
  assert (H1 : reaches knownBlock one).
  { apply (reaches_add knownBlock empty (clock 5) (values empty) grandchild); [apply reaches_empty|by right|by vm_compute|apply Permutation_refl|by vm_compute]. }
  apply (reaches_add knownBlock one (clock 6) (values one) child); [exact H1|by left|by vm_compute|apply Permutation_refl|by vm_compute].
Qed.

Lemma orphan_pool_bounded_witness : reaches knownBlock two /\ pool_ok knownBlock two /\ Z.of_nat (size (orphans two)) <= maxOrphanBlocks + 1.
Proof.
  split; [exact two_reached|]. destruct (orphan_pool_bounded knownBlock known_inj two two_reached) as (Hok & Hs & _). by split.
Defined.

(** The chain is here the list of the blocks it accepted. *)
Definition accept (b : MsgBlock) : stateful RuleError (list MsgBlock) bool := fun s => (Ok true, s ++ [b]).

Example both_accepted : (processOrphans accept root (two, [])).2.2 = [child; grandchild].
Proof. by vm_compute. Qed.

Lemma processOrphans_stops_witness : exists r p' s', processOrphans accept root (two, []) = (r, (p', s')) /\ r <> Hang.
Proof.
  destruct (processOrphans_stops knownBlock known_inj accept root two []) as (r & p' & s' & Hrun & Hr & _).
  - done.
  - apply (reaches_bounded knownBlock known_inj). exact two_reached.
  - exists r, p', s'. split; [exact Hrun|exact Hr].
Defined.

(** The limit is passed by one when the oldest orphan that the pool remembers
    has already left it: the removal that makes room finds nothing. *)
Definition fill (n : nat) (t : Z) (p : orphanPool) : orphanPool :=
  foldl (fun p i => addAt t (blockAt [9] (1000 * t + Z.of_nat i)) p) p (seq 0 n).

Example above_the_limit :
  let p := addAt 6 child (addAt 5 grandchild empty) in
  let left := removeOrphanBlock (mkOrphan grandchild (5 + Hour)) p in
  size (orphans (fill 100 7 left)) = 101%nat.
Proof. by vm_compute. Qed.

End Toy.
End Orphans.
