(* ===== verification/ChainState.v ===== *)
(** * The state of the chain

    Models the writing side of coin/OrcaNet/blockchain: connectBlock,
    disconnectBlock, getReorganizeNodes, reorganizeChain and connectBestChain
    of chain.go, maybeAcceptBlock of accept.go, ProcessBlock of process.go, and
    the statuses and the flush of blockindex.go.  A call is a function on the
    state that keeps its changes when it fails; an update of the database is
    all or nothing.

    What is left out: pruning and the optional indexes, which are off by
    default; the bytes of the blocks in the store, which gives back the block
    that was put; what other goroutines do while the lock is released for a
    notification, which is recorded in the state instead of sent.  The node of
    a status is known by its hash. *)

From S2P Require Import Prelude Compress Wire SigHash SigCheck Engine Merkle Difficulty Chain ChainView Utxo Chainio UtxoCache TxRules ScriptVal Deployments BlockRules ConnectBlock Orphans.

Module ChainState.
Import Compress Wire SigHash SigCheck Engine Merkle Difficulty Chain ChainView Utxo TxRules ScriptVal Deployments BlockRules ConnectBlock Orphans.

(** ** Data *)
Definition statusNone := 0.
Definition statusDataStored := 1.
Definition statusValid := 2.
Definition statusValidateFailed := 4.
Definition statusInvalidAncestor := 8.
Definition HaveData (status : Z) : bool := negb (Z.land status statusDataStored =? 0).
Definition KnownValid (status : Z) : bool := negb (Z.land status statusValid =? 0).
Definition KnownInvalid (status : Z) : bool :=
  negb (Z.land status (Z.lor statusValidateFailed statusInvalidAncestor) =? 0).

Record BestState := mkBestState {
  b_Hash : list Z;
  b_Height : Z;
  b_Bits : Z;
  b_BlockSize : Z;
  b_BlockWeight : Z;
  b_NumTxns : Z;
  b_TotalTxns : Z;
  b_MedianTime : Z;
}.

(** The buckets of the database that the chain writes: the blocks, the utxo
    set, the spend journal, the index of heights, the best state and the rows
    of the block index. *)
Record ChainDb := mkChainDb {
  d_blocks : gmap (list Z) MsgBlock;
  d_utxo : UtxoCache.utxoDb;
  d_spend : Chainio.Bucket;
  d_heights : Chainio.Bucket * Chainio.Bucket;
  d_best : list Z;
  d_rows : Chainio.Bucket;
}.

Inductive Notification :=
| NTBlockAccepted (block : MsgBlock)
| NTBlockConnected (block : MsgBlock)
| NTBlockDisconnected (block : MsgBlock).

Record BlockChain := mkBlockChain {
  bi : blockIndex;
  statuses : gmap (list Z) Z;
  dirty : gset (list Z);
  bestChain : chainView;
  cache : UtxoCache.utxoCache;
  db : ChainDb;
  stateSnapshot : BestState;
  checkpoint : checkpointState;
  warningCaches : list thresholdStateCache;
  deploymentCaches : list thresholdStateCache;
  unknownRulesWarned : bool;
  hashCache : option HashCache;
  notifications : list Notification;
}.

Definition setIndex (x : blockIndex) (b : BlockChain) : BlockChain :=
  mkBlockChain x (statuses b) (dirty b) (bestChain b) (cache b) (db b) (stateSnapshot b) (checkpoint b) (warningCaches b)
    (deploymentCaches b) (unknownRulesWarned b) (hashCache b) (notifications b).
Definition setStatuses (x : gmap (list Z) Z) (d : gset (list Z)) (b : BlockChain) : BlockChain :=
  mkBlockChain (bi b) x d (bestChain b) (cache b) (db b) (stateSnapshot b) (checkpoint b) (warningCaches b)
    (deploymentCaches b) (unknownRulesWarned b) (hashCache b) (notifications b).
Definition setBest (x : chainView) (y : BestState) (b : BlockChain) : BlockChain :=
  mkBlockChain (bi b) (statuses b) (dirty b) x (cache b) (db b) y (checkpoint b) (warningCaches b)
    (deploymentCaches b) (unknownRulesWarned b) (hashCache b) (notifications b).
Definition setCache (x : UtxoCache.utxoCache) (b : BlockChain) : BlockChain :=
  mkBlockChain (bi b) (statuses b) (dirty b) (bestChain b) x (db b) (stateSnapshot b) (checkpoint b) (warningCaches b)
    (deploymentCaches b) (unknownRulesWarned b) (hashCache b) (notifications b).
Definition setDb (x : ChainDb) (b : BlockChain) : BlockChain :=
  mkBlockChain (bi b) (statuses b) (dirty b) (bestChain b) (cache b) x (stateSnapshot b) (checkpoint b) (warningCaches b)
    (deploymentCaches b) (unknownRulesWarned b) (hashCache b) (notifications b).
Definition setCheckpoint (x : checkpointState) (b : BlockChain) : BlockChain :=
  mkBlockChain (bi b) (statuses b) (dirty b) (bestChain b) (cache b) (db b) (stateSnapshot b) x (warningCaches b)
    (deploymentCaches b) (unknownRulesWarned b) (hashCache b) (notifications b).
Definition setCaches (w d : list thresholdStateCache) (warned : bool) (h : option HashCache) (b : BlockChain) : BlockChain :=
  mkBlockChain (bi b) (statuses b) (dirty b) (bestChain b) (cache b) (db b) (stateSnapshot b) (checkpoint b) w d warned h
    (notifications b).
Definition notify (n : Notification) (b : BlockChain) : BlockChain :=
  mkBlockChain (bi b) (statuses b) (dirty b) (bestChain b) (cache b) (db b) (stateSnapshot b) (checkpoint b) (warningCaches b)
    (deploymentCaches b) (unknownRulesWarned b) (hashCache b) (notifications b ++ [n]).

(** The errors of the type RuleError. *)
Definition isRuleError (e : RuleError) : bool :=
  match e with AssertError | DeploymentError | DatabaseError => false | _ => true end.

Abbreviation M := (stateful RuleError BlockChain).

(** An error of the database. *)
Definition dbErr {A} (m : outcome Chainio.DbError A) : outcome RuleError A :=
  match m with Ok a => Ok a | Err _ => Err DatabaseError | Panic => Panic | Hang => Hang end.

Definition dbUpdate (f : ChainDb -> outcome RuleError ChainDb) : M unit := fun b =>
  match f (db b) with
  | Ok d => (Ok (), setDb d b)
  | Err e => (Err e, b)
  | Panic => (Panic, b)
  | Hang => (Hang, b)
  end.

Definition getTip : M blockNode := fun b =>
  match tip (bestChain b) with Some t => (Ok t, b) | None => (Panic, b) end.

Section Chain.
Context {C : Crypto} {L : PubKeyLib} (implementationLog2 : Z -> Z).
(** The configuration, the steps an engine may take, the signature cache and
    the clocks: the network-adjusted time in seconds and time.Now of a flush. *)
Context (config : chainConfig) (fuel : nat) (sigCache : option SigCache) (adjustedTime now : Z).

(** ** The block index (blockindex.go) *)
Definition NodeStatus (node : blockNode) (b : BlockChain) : Z := default 0 (statuses b !! hash node).
Definition SetStatusFlags (node : blockNode) (flags : Z) (b : BlockChain) : BlockChain :=
  setStatuses (<[hash node := Z.lor (NodeStatus node b) flags]> (statuses b)) ({[hash node]} ∪ dirty b) b.
Definition AddNode (node : blockNode) (status : Z) (b : BlockChain) : BlockChain :=
  setStatuses (<[hash node := status]> (statuses b)) ({[hash node]} ∪ dirty b) (setIndex (<[hash node := node]> (bi b)) b).

Definition dbStoreBlockNode (b : BlockChain) (h : list Z) (rows : Chainio.Bucket) : Chainio.Bucket :=
  match bi b !! h with
  | Some node => <[Chainio.blockIndexKey h (u32 (height node)) := Chainio.serializeBlockRow (Header node) (NodeStatus node b)]> rows
  | None => rows
  end.
Definition flushToDB : M unit := fun b =>
  let d := db b in
  let rows := foldr (dbStoreBlockNode b) (d_rows d) (elements (dirty b)) in
  (Ok (), setStatuses (statuses b) ∅
            (setDb (mkChainDb (d_blocks d) (d_utxo d) (d_spend d) (d_heights d) (d_best d) rows) b)).

(** ** The database and the cache *)
Definition dbFetchBlockByNode (node : blockNode) : M MsgBlock := fun b =>
  match d_blocks (db b) !! hash node with Some block => (Ok block, b) | None => (Err DatabaseError, b) end.

Definition dbStoreBlock (block : MsgBlock) : M unit :=
  dbUpdate (fun d =>
    let h := BlockHash (Wire.Header block) in
    Ok (match d_blocks d !! h with
        | Some _ => d
        | None => mkChainDb (<[h := block]> (d_blocks d)) (d_utxo d) (d_spend d) (d_heights d) (d_best d) (d_rows d)
        end)).

Definition flush (mode : UtxoCache.FlushMode) (bestState : BestState) : M unit := fun b =>
  match UtxoCache.flush mode (b_Hash bestState) now (cache b) (d_utxo (db b)) with
  | Ok (s, d) =>
      let db := db b in
      (Ok (), setCache s (setDb (mkChainDb (d_blocks db) d (d_spend db) (d_heights db) (d_best db) (d_rows db)) b))
  | Err _ => (Err DatabaseError, b)
  | Panic => (Panic, b)
  | Hang => (Hang, b)
  end.

(** An unspent output of the database, and of the cache over it. *)
Definition fetchMain (b : BlockChain) (op : OutPoint) : outcome RuleError (option UtxoEntry) :=
  dbErr (Chainio.dbFetchUtxoEntry (UtxoCache.utxoSet (d_utxo (db b))) op).
Definition fetchCached (b : BlockChain) (op : OutPoint) : outcome RuleError (option UtxoEntry) :=
  dbErr ('(es, _) ← UtxoCache.fetchEntries implementationLog2 (UtxoCache.utxoSet (d_utxo (db b))) [op] (cache b);
         mret (default None (head es))).

(** What fetching some outpoints leaves in the cache. *)
Definition touch (ops : list OutPoint) : M unit := fun b =>
  match UtxoCache.fetchEntries implementationLog2 (UtxoCache.utxoSet (d_utxo (db b))) ops (cache b) with
  | Ok (_, s) => (Ok (), setCache s b)
  | Err _ => (Err DatabaseError, b)
  | Panic => (Panic, b)
  | Hang => (Hang, b)
  end.

(** ** Checking a block on the state *)

(** The entries that checkConnectBlock fetches. *)
Definition touchFor (node : blockNode) (block : MsgBlock) (view : UtxoViewpoint) : M unit := fun b =>
  if bool_decide (hash node = GenesisHash config) || negb (bool_decide (bestHash view = PrevBlock (Wire.Header block)))
  then (Ok (), b)
  else
    let run := negb (isBIP0030Node node) && (height node <? BIP0034Height (ChainParams (ctx config))) in
    let ops := if run then filter (fun op => entries view !! op = None) (outpointsOf (Transactions block)) else [] in
    match touch ops b with
    | (Ok _, b1) =>
        match (if run then checkBIP0030 (fetchCached b) (Transactions block) view else Ok view) with
        | Ok view =>
            match findInputsToFetch block (height node) view with
            | Ok (_, needed) => touch needed b1
            | _ => (Ok (), b1)
            end
        | _ => (Ok (), b1)
        end
    | r => r
    end.

Definition checkConnectBlock (node : blockNode) (block : MsgBlock) (view : UtxoViewpoint)
    : M UtxoViewpoint := fun b =>
  let result := ConnectBlock.checkConnectBlock (fetchCached b) fuel config (bi b) node block (height node) sigCache view None
                  (deploymentCaches b) (hashCache b) in
  match touchFor node block view b with
  | (Ok _, b) =>
      match result with
      | Ok (err, s, h) =>
          let b := setCaches (warningCaches b) (ch_caches s) (unknownRulesWarned b) h b in
          match err with Some e => (Err e, b) | None => (Ok (ch_view s), b) end
      | Err e => (Err e, b)
      | Panic => (Panic, b)
      | Hang => (Hang, b)
      end
  | (Err e, b) => (Err e, b)
  | (Panic, b) => (Panic, b)
  | (Hang, b) => (Hang, b)
  end.

Definition isCurrent : M bool :=
  t ← getTip;
  mret (match LatestCheckpoint (checkpoints config) with
        | Some c => if height t <? cp_Height c then false else adjustedTime - 24 * 60 * 60 <=? timestamp t
        | None => adjustedTime - 24 * 60 * 60 <=? timestamp t
        end).

Definition warnUnknownRules (node : blockNode) : M unit := fun b =>
  match warnUnknownRuleActivations (ChainParams (ctx config)) (bi b) (Deployments config) node (warningCaches b) (deploymentCaches b)
          (unknownRulesWarned b) with
  | Ok (w, d, warned) => (Ok (), setCaches w d warned (hashCache b) b)
  | Err e => (Err e, b)
  | Panic => (Panic, b)
  | Hang => (Hang, b)
  end.

(** ** Connecting and disconnecting *)
Definition stateOf (node : blockNode) (block : MsgBlock) (totalTxns medianTime : Z) : BestState :=
  mkBestState (hash node) (height node) (bits node) (u64 (MsgBlock_SerializeSize block)) (u64 (GetBlockWeight block))
    (u64 (Zlen (Transactions block))) (u64 totalTxns) medianTime.

Definition dbPutBestState (snapshot : BestState) (workSum : Z) : list Z :=
  Chainio.serializeBestChainState
    (Chainio.mkBestChainState (b_Hash snapshot) (u32 (b_Height snapshot)) (b_TotalTxns snapshot) workSum).

Definition connectBlock (node : blockNode) (block : MsgBlock) (view : option UtxoViewpoint) (stxos : list SpentTxOut)
    : M (option UtxoViewpoint) :=
  t ← getTip;
  if negb (bool_decide (PrevBlock (Wire.Header block) = hash t)) then throw AssertError
  else
    n ← lift (countSpentOutputs block);
    if negb (Zlen stxos =? n) then throw AssertError
    else
      current ← isCurrent;
      _ ← (if current : bool then warnUnknownRules node else mret ());
      _ ← flushToDB;
      curTotalTxns ← gets (fun b => b_TotalTxns (stateSnapshot b));
      medianTime ← lift (CalcPastMedianTime node);
      let state := stateOf node block (curTotalTxns + Zlen (Transactions block)) medianTime in
      _ ← match view with Some _ => flush UtxoCache.FlushRequired state | None => mret () end;
      _ ← dbUpdate (fun d =>
            utxos ← dbErr (Chainio.dbPutUtxoView view (UtxoCache.utxoSet (d_utxo d)));
            journal ← dbErr (Chainio.dbPutSpendJournalEntry (BlockHash (Wire.Header block)) stxos (d_spend d));
            Ok (mkChainDb (d_blocks d) (UtxoCache.mkDb utxos (UtxoCache.consistency (d_utxo d))) journal
                  (Chainio.dbPutBlockIndex (BlockHash (Wire.Header block)) (height node) (d_heights d))
                  (dbPutBestState state (workSum node)) (d_rows d)));
      view ← (fun b =>
        match setTip (Some node) (bestChain b) with
        | Ok c => (Ok (commit <$> view), notify (NTBlockConnected block) (setBest c state b))
        | Err e => (Err e, b)
        | Panic => (Panic, b)
        | Hang => (Hang, b)
        end) : M (option UtxoViewpoint);
      _ ← flush UtxoCache.FlushIfNeeded state;
      mret view.

(** The work that is stored is that of the node that leaves the chain. *)
Definition disconnectBlock (node : blockNode) (block : MsgBlock) (view : UtxoViewpoint) : M UtxoViewpoint :=
  t ← getTip;
  if negb (bool_decide (hash node = hash t)) then throw AssertError
  else
    prevNode ← lift (match parent node with Some p => Ok p | None => Panic end);
    prevBlock ← dbFetchBlockByNode prevNode;
    _ ← flushToDB;
    curTotalTxns ← gets (fun b => b_TotalTxns (stateSnapshot b));
    medianTime ← lift (CalcPastMedianTime prevNode);
    let state := stateOf prevNode prevBlock (curTotalTxns - Zlen (Transactions block)) medianTime in
    _ ← dbUpdate (fun d =>
          utxos ← dbErr (Chainio.dbPutUtxoView (Some view) (UtxoCache.utxoSet (d_utxo d)));
          _ ← dbErr (Chainio.dbFetchSpendJournalEntry (d_spend d) block);
          Ok (mkChainDb (d_blocks d) (UtxoCache.mkDb utxos (UtxoCache.consistency (d_utxo d)))
                (Chainio.dbRemoveSpendJournalEntry (BlockHash (Wire.Header block)) (d_spend d))
                (Chainio.dbRemoveBlockIndex (BlockHash (Wire.Header block)) (height node) (d_heights d))
                (dbPutBestState state (workSum node)) (d_rows d)));
    (fun b =>
      match setTip (parent node) (bestChain b) with
      | Ok c => (Ok (commit view), notify (NTBlockDisconnected block) (setBest c state b))
      | Err e => (Err e, b)
      | Panic => (Panic, b)
      | Hang => (Hang, b)
      end) : M UtxoViewpoint.

(** ** Reorganising *)

(** The nodes from [n] down to the fork, in the order of the chain; None when
    one of them is known to be invalid, with those above it. *)
Fixpoint attachLoop (n : blockNode) (fork : option blockNode) (b : BlockChain) (acc : list blockNode)
    : bool * list blockNode :=
  match n with
  | mkNode parent _ _ _ _ _ _ _ _ _ =>
      if bool_decide (Some n = fork) then (true, acc)
      else if KnownInvalid (NodeStatus n b) then (false, acc)
      else match parent with
           | Some p => attachLoop p fork b (n :: acc)
           | None => (true, n :: acc)
           end
  end.

Fixpoint detachLoop (n : blockNode) (fork : option blockNode) : list blockNode :=
  match n with
  | mkNode parent _ _ _ _ _ _ _ _ _ =>
      if bool_decide (Some n = fork) then []
      else n :: match parent with Some p => detachLoop p fork | None => [] end
  end.

Definition markAll (nodes : list blockNode) (flags : Z) (b : BlockChain) : BlockChain :=
  foldl (fun b n => SetStatusFlags n flags b) b nodes.

Definition getReorganizeNodes (node : blockNode) : M (list blockNode * list blockNode) := fun b =>
  match parent node with
  | None => (Panic, b)
  | Some p =>
      if KnownInvalid (NodeStatus p b) then (Ok ([], []), SetStatusFlags node statusInvalidAncestor b)
      else
        let forkNode := findFork (Some node) (bestChain b) in
        match attachLoop node forkNode b [] with
        | (false, attachNodes) => (Ok ([], []), markAll attachNodes statusInvalidAncestor b)
        | (true, attachNodes) =>
            (Ok (match tip (bestChain b) with Some t => detachLoop t forkNode | None => [] end, attachNodes), b)
        end
  end.

(** Undo the blocks on the view; the blocks and their spent outputs are kept
    for the second pass. *)
Fixpoint detachCheck (detachNodes : list blockNode) (view : UtxoViewpoint)
    : M (UtxoViewpoint * list (MsgBlock * list SpentTxOut)) :=
  match detachNodes with
  | [] => mret (view, [])
  | n :: detachNodes =>
      block ← dbFetchBlockByNode n;
      if negb (bool_decide (hash n = BlockHash (Wire.Header block))) then throw AssertError
      else
        fetch ← gets fetchMain;
        view ← lift (fetchInputUtxos fetch false block (height n) view);
        stxos ← (fun b => (dbErr (Chainio.dbFetchSpendJournalEntry (d_spend (db b)) block), b)) : M (list SpentTxOut);
        utxos ← gets (fun b => UtxoCache.utxoSet (d_utxo (db b)));
        view ← lift (disconnectTransactions (fun h => dbErr (Chainio.dbFetchUtxoEntryByHash utxos h)) block (height n) view stxos);
        '(view, rest) ← detachCheck detachNodes view;
        mret (view, (block, stxos) :: rest)
  end.

(** Check the blocks on the view; the nodes after one that fails are marked. *)
Fixpoint attachCheck (attachNodes : list blockNode) (view : UtxoViewpoint) : M (UtxoViewpoint * list MsgBlock) :=
  match attachNodes with
  | [] => mret (view, [])
  | n :: attachNodes =>
      block ← dbFetchBlockByNode n;
      valid ← gets (fun b => KnownValid (NodeStatus n b));
      view ← (if valid : bool then
                fetch ← gets fetchMain;
                view ← lift (fetchInputUtxos fetch false block (height n) view);
                '(view, _) ← lift (connectTransactions block (height n) view None);
                mret view
              else
                fun b =>
                  match checkConnectBlock n block view b with
                  | (Ok view, b) => (Ok view, SetStatusFlags n statusValid b)
                  | (Err e, b) =>
                      (Err e, if isRuleError e
                              then markAll attachNodes statusInvalidAncestor (SetStatusFlags n statusValidateFailed b)
                              else b)
                  | r => r
                  end);
      '(view, rest) ← attachCheck attachNodes view;
      mret (view, block :: rest)
  end.

Fixpoint detachAll (detachNodes : list blockNode) (blocks : list (MsgBlock * list SpentTxOut)) (view : UtxoViewpoint)
    : M UtxoViewpoint :=
  match detachNodes, blocks with
  | n :: detachNodes, (block, stxos) :: blocks =>
      fetch ← gets fetchMain;
      view ← lift (fetchInputUtxos fetch false block (height n) view);
      utxos ← gets (fun b => UtxoCache.utxoSet (d_utxo (db b)));
      view ← lift (disconnectTransactions (fun h => dbErr (Chainio.dbFetchUtxoEntryByHash utxos h)) block (height n) view stxos);
      view ← disconnectBlock n block view;
      detachAll detachNodes blocks view
  | _, _ => mret view
  end.

Fixpoint attachAll (attachNodes : list blockNode) (blocks : list MsgBlock) (view : UtxoViewpoint) : M UtxoViewpoint :=
  match attachNodes, blocks with
  | n :: attachNodes, block :: blocks =>
      fetch ← gets fetchMain;
      view ← lift (fetchInputUtxos fetch false block (height n) view);
      '(view, stxos) ← lift (connectTransactions block (height n) view (Some []));
      view' ← connectBlock n block (Some view) (default [] stxos);
      attachAll attachNodes blocks (default view view')
  | _, _ => mret view
  end.

Definition reorganizeChain (detachNodes attachNodes : list blockNode) : M unit :=
  match detachNodes, attachNodes with
  | [], [] => mret ()
  | _, _ =>
      best ← gets stateSnapshot;
      _ ← flush UtxoCache.FlushRequired best;
      t ← getTip;
      if match detachNodes with n :: _ => negb (bool_decide (hash n = hash t)) | [] => false end then throw AssertError
      else
        forked ← lift (match attachNodes, list.last detachNodes with
                       | a :: _, Some d =>
                           match parent a, parent d with
                           | Some p, Some q => Ok (negb (bool_decide (hash p = hash q)))
                           | _, _ => Panic
                           end
                       | _, _ => Ok false
                       end);
        if forked : bool then throw AssertError
        else
          '(view, detached) ← detachCheck detachNodes (SetBestHash (hash t) NewUtxoViewpoint);
          '(_, attached) ← attachCheck attachNodes view;
          t ← getTip;
          view ← detachAll detachNodes detached (SetBestHash (hash t) NewUtxoViewpoint);
          _ ← attachAll attachNodes attached view;
          best ← gets stateSnapshot;
          flush UtxoCache.FlushRequired best
  end.

(** ** The best chain *)
(** utxoCache.connectTransactions, which keeps what it did when an input is
    missing. *)
Definition cacheIn (txIn : TxIn) (stxos : list SpentTxOut) : M (list SpentTxOut) := fun b =>
  match UtxoCache.addTxIn implementationLog2 (UtxoCache.utxoSet (d_utxo (db b))) txIn (cache b) (Some stxos) with
  | Ok (s, stxos) => (Ok (default [] stxos), setCache s b)
  | Err _ => (Err AssertError, (touch [PreviousOutPoint txIn] b).2)
  | Panic => (Panic, b)
  | Hang => (Hang, b)
  end.
Fixpoint cacheIns (ins : list TxIn) (stxos : list SpentTxOut) : M (list SpentTxOut) :=
  match ins with
  | [] => mret stxos
  | txIn :: ins => stxos ← cacheIn txIn stxos; cacheIns ins stxos
  end.
Definition cacheOuts (tx : MsgTx) (height : Z) : M unit := fun b =>
  match UtxoCache.addTxOuts implementationLog2 tx height (cache b) with
  | Ok s => (Ok (), setCache s b)
  | Err _ => (Err DatabaseError, b)
  | Panic => (Panic, b)
  | Hang => (Hang, b)
  end.
Fixpoint connectToCache (txs : list MsgTx) (height : Z) (stxos : list SpentTxOut) : M (list SpentTxOut) :=
  match txs with
  | [] => mret stxos
  | tx :: txs =>
      stxos ← (if IsCoinBaseTx tx then mret stxos else cacheIns (TxIns tx) stxos);
      _ ← cacheOuts tx height;
      connectToCache txs height stxos
  end.

Definition connectBestChain (node : blockNode) (block : MsgBlock) (flags : Z) : M bool :=
  let fastAdd := Z.land flags BFFastAdd =? BFFastAdd in
  t ← getTip;
  if bool_decide (PrevBlock (Wire.Header block) = hash t) then
    valid ← gets (fun b => KnownValid (NodeStatus node b));
    let fastAdd := fastAdd || valid in
    _ ← (if negb fastAdd then
           fun b =>
             match checkConnectBlock node block (SetBestHash (PrevBlock (Wire.Header block)) NewUtxoViewpoint) b with
             | (Ok _, b) => flushToDB (SetStatusFlags node statusValid b)
             | (Err e, b) =>
                 if isRuleError e then (Err e, (flushToDB (SetStatusFlags node statusValidateFailed b)).2) else (Err e, b)
             | (Panic, b) => (Panic, b)
             | (Hang, b) => (Hang, b)
             end
         else mret ()) : M unit;
    stxos ← connectToCache (Transactions block) (height node) [];
    _ ← (fun b =>
      match connectBlock node block None stxos b with
      | (Ok _, b) => (Ok (), b)
      | (Err e, b) =>
          (Err e, (flushToDB (if isRuleError e then SetStatusFlags node statusValidateFailed b else b)).2)
      | (Panic, b) => (Panic, b)
      | (Hang, b) => (Hang, b)
      end) : M unit;
    _ ← (fun b => if fastAdd || negb (KnownValid (NodeStatus node b)) then flushToDB (SetStatusFlags node statusValid b)
                  else (Ok (), b)) : M unit;
    mret true
  else if workSum node <=? workSum t then
    fork ← gets (fun b => findFork (Some node) (bestChain b));
    match fork with Some _ => mret false | None => lift Panic end
  else
    '(detachNodes, attachNodes) ← getReorganizeNodes node;
    (fun b =>
      match reorganizeChain detachNodes attachNodes b with
      | (Ok _, b) => (Ok true, (flushToDB b).2)
      | (Err e, b) => (Err e, (flushToDB b).2)
      | (Panic, b) => (Panic, b)
      | (Hang, b) => (Hang, b)
      end) : M bool.

(** ** Accepting and processing *)
Definition maybeAcceptBlock (flags : Z) (block : MsgBlock) : M bool :=
  prev ← gets (fun b => LookupNode (bi b) (PrevBlock (Wire.Header block)));
  match prev with
  | None => throw ErrPreviousBlockUnknown
  | Some prevNode =>
      invalid ← gets (fun b => KnownInvalid (NodeStatus prevNode b));
      if invalid : bool then throw ErrInvalidAncestorBlock
      else
        _ ← (fun b =>
          match checkBlockContext block prevNode flags config (bi b) (bestChain b) (checkpoint b) (deploymentCaches b) with
          | Ok (s, d) => (Ok (), setCheckpoint s (setCaches (warningCaches b) d (unknownRulesWarned b) (hashCache b) b))
          | Err e => (Err e, b)
          | Panic => (Panic, b)
          | Hang => (Hang, b)
          end) : M unit;
        _ ← dbStoreBlock block;
        let newNode := newBlockNode (Wire.Header block) (Some prevNode) in
        _ ← modify (AddNode newNode statusDataStored);
        _ ← flushToDB;
        isMainChain ← connectBestChain newNode block flags;
        _ ← modify (notify (NTBlockAccepted block));
        mret isMainChain
  end.

Definition HaveBlock (h : list Z) (b : BlockChain) : bool := bool_decide (is_Some (bi b !! h)).

(** The height in the index says that a block of the store is in the main
    chain. *)
Definition blockExists (h : list Z) (b : BlockChain) : outcome RuleError bool :=
  if HaveBlock h b then Ok true
  else match d_blocks (db b) !! h with
       | None => Ok false
       | Some _ =>
           match Chainio.dbFetchHeightByHash h (d_heights (db b)) with
           | Ok _ => Ok true
           | Err (Chainio.errNotInMainChain _) => Ok false
           | Err _ => Err DatabaseError
           | Panic => Panic
           | Hang => Hang
           end
       end.

(** The checks of ProcessBlock against the last checkpoint.  The easiest
    target at least doubles in each round, so the bits of the limit bound the
    rounds. *)
Definition checkAgainstCheckpoint (block : MsgBlock) (flags : Z) (checkpointNode : blockNode) : outcome RuleError unit :=
  let blockHeader := Wire.Header block in
  if Wire.Timestamp blockHeader <? timestamp checkpointNode then Err ErrCheckpointTimeTooOld
  else if negb (Z.land flags BFFastAdd =? BFFastAdd) then
    let duration := (Wire.Timestamp blockHeader - timestamp checkpointNode) * Second in
    easiest ← calcEasiestDifficulty (Z.to_nat (Z.log2 (PowLimit (ChainParams (ctx config)))) + 2) (ctx config)
                (bits checkpointNode) duration;
    if CompactToBig easiest <? CompactToBig (Wire.Bits blockHeader) then Err ErrDifficultyTooLow else Ok ()
  else Ok ().

(** [clock] and [order] are the time and the order of the range in
    addOrphanBlock. *)
Definition ProcessBlock (clock : nat -> Z) (order : orphanPool -> list orphanBlock) (block : MsgBlock) (flags : Z)
    : stateful RuleError (orphanPool * BlockChain) (bool * bool) :=
  let blockHash := BlockHash (Wire.Header block) in
  exists_ ← (fun '(p, b) => (blockExists blockHash b, (p, b))) : stateful RuleError (orphanPool * BlockChain) bool;
  if exists_ : bool then throw ErrDuplicateBlock
  else
    orphan ← gets (fun '(p, b) => IsKnownOrphan blockHash p);
    if orphan : bool then throw ErrDuplicateBlock
    else
      _ ← lift (checkBlockSanity block (PowLimit (ChainParams (ctx config))) adjustedTime flags);
      checkpointNode ← (fun '(p, b) =>
        match findPreviousCheckpoint (checkpoints config) (bi b) (bestChain b) (checkpoint b) with
        | Ok (node, s) => (Ok node, (p, setCheckpoint s b))
        | Err e => (Err e, (p, b))
        | Panic => (Panic, (p, b))
        | Hang => (Hang, (p, b))
        end) : stateful RuleError (orphanPool * BlockChain) (option blockNode);
      _ ← lift (match checkpointNode with Some n => checkAgainstCheckpoint block flags n | None => Ok () end);
      prevExists ← (fun '(p, b) => (blockExists (PrevBlock (Wire.Header block)) b, (p, b)))
                     : stateful RuleError (orphanPool * BlockChain) bool;
      if negb (prevExists : bool) then
        (fun '(p, b) =>
          match addOrphanBlock clock (order p) block p with
          | Ok p => (Ok (false, true), (p, b))
          | Err e => (Err e, (p, b))
          | Panic => (Panic, (p, b))
          | Hang => (Hang, (p, b))
          end) : stateful RuleError (orphanPool * BlockChain) (bool * bool)
      else
        isMainChain ← (fun '(p, b) => let '(r, b) := maybeAcceptBlock flags block b in (r, (p, b)))
                        : stateful RuleError (orphanPool * BlockChain) bool;
        _ ← processOrphans (maybeAcceptBlock flags) blockHash;
        mret (isMainChain, false).

End Chain.
End ChainState.
