(* ===== verification/ChainInv.v ===== *)
(** * What the state of the chain satisfies

    The invariant of the state of ChainState.v and what a call does to it:
    the index is a tree whose blocks are all in the store, the view, the
    snapshot, the stored best state, the index of heights and the journal all
    describe the chain of one tip, and the rows of the database are those of
    the nodes that are not waiting to be written.  Every call keeps this, with
    the same tip or another one, even when it fails. *)

From S2P Require Import Prelude Compress Wire SigHash SigCheck Engine Merkle Difficulty Chain ChainView Utxo Chainio UtxoCache TxRules ScriptVal Deployments BlockRules ConnectBlock Orphans ChainState.

Module ChainInv.
Import Compress Wire SigHash SigCheck Engine Merkle Difficulty Chain ChainView Utxo TxRules ScriptVal Deployments BlockRules ConnectBlock Orphans ChainState.

(** ** The invariant *)
Section Invariant.
Context {C : Crypto}.
(** The blocks that ever come, fewer than the heights there are, no two with
    the same hash and different parents. *)
Context (blocks : list MsgBlock).

Definition inIndex (n : blockNode) (b : BlockChain) : Prop := bi b !! hash n = Some n.
Definition rowKey (n : blockNode) : list Z := Chainio.blockIndexKey (hash n) (u32 (height n)).
Definition rowOf (n : blockNode) (b : BlockChain) : list Z := Chainio.serializeBlockRow (Header n) (NodeStatus n b).
Definition heightKey (h : Z) : list Z := le_bytes 4 (u32 h).

(** The tree of the nodes, with a block of the store for each of them. *)
Record indexed (b : BlockChain) : Prop := {
  ix_node : forall h n, bi b !! h = Some n -> hash n = h /\ built n;
  ix_parent : forall n p, inIndex n b -> parent n = Some p -> inIndex p b;
  ix_block : forall n, inIndex n b -> exists block, d_blocks (db b) !! hash n = Some block /\
    Wire.Header block = Header n /\ (parent n <> None -> block ∈ blocks);
  ix_store : forall h, is_Some (d_blocks (db b) !! h) -> is_Some (bi b !! h);
}.

(** The rows are those of the nodes, up to date for the nodes that are not
    dirty. *)
Record rows_ok (b : BlockChain) : Prop := {
  ro_clean : forall n, inIndex n b -> hash n ∉ dirty b -> d_rows (db b) !! rowKey n = Some (rowOf n b);
  ro_only : forall key, is_Some (d_rows (db b) !! key) -> exists h n, bi b !! h = Some n /\ Chainio.blockIndexKey h (u32 (height n)) = key;
}.

(** The block of a node in the store. *)
Definition stores (b : BlockChain) (n : blockNode) (block : MsgBlock) : Prop := d_blocks (db b) !! hash n = Some block.

(** The snapshot that describes a tip. *)
Definition snapshot_of (t : blockNode) (b : BlockChain) (s : BestState) : Prop :=
  exists block total medianTime, stores b t block /\ CalcPastMedianTime t = Ok medianTime /\ s = stateOf t block total medianTime.

Record chain_at (t : blockNode) (b : BlockChain) : Prop := {
  ca_index : indexed b;
  ca_tip : inIndex t b;
  ca_root : forall n, inIndex n b -> parent n = None -> n ∈ chain t;
  ca_view : bestChain b = view_of (Some t);
  ca_snap : snapshot_of t b (stateSnapshot b);
  ca_best : exists n, inIndex n b /\ d_best (db b) = dbPutBestState (stateSnapshot b) (workSum n);
  ca_heights : forall h k, (d_heights (db b)).1 !! h = Some k <-> exists n, n ∈ chain t /\ hash n = h /\ heightKey (height n) = k;
  ca_hashes : forall h, 0 <= h < 2 ^ 31 -> (d_heights (db b)).2 !! heightKey h = hash <$> chain t !! Z.to_nat h;
  ca_journal : forall n, n ∈ chain t -> parent n <> None -> is_Some (d_spend (db b) !! hash n);
  ca_rows : rows_ok b;
}.

(** ** Nodes of the index *)
Lemma node_in h n b : indexed b -> bi b !! h = Some n -> inIndex n b /\ built n.
Proof using. intros Hix Hn. destruct (ix_node b Hix h n Hn) as [<- Hb]. done. Qed.

Lemma in_built n b : indexed b -> inIndex n b -> built n.
Proof using. intros Hix Hn. by apply (ix_node b Hix _ n Hn). Qed.

Lemma in_wf n b : indexed b -> inIndex n b -> wf n.
Proof using. intros Hix Hn. by eapply built_wf, in_built. Qed.

Lemma hash_inj n m b : inIndex n b -> inIndex m b -> hash n = hash m -> n = m.
Proof using. unfold inIndex. intros Hn Hm Heq. rewrite Heq in Hn. congruence. Qed.

Lemma chain_in n m b : indexed b -> inIndex n b -> m ∈ chain n -> inIndex m b.
Proof using.
  intros Hix. induction n as [n IH _] using node_ind. intros Hn. rewrite chain_unfold, elem_of_app, list_elem_of_singleton.
  intros [Hm| ->]; [|done]. destruct (parent n) as [p|] eqn:Hp; [|by apply not_elem_of_nil in Hm].
  apply (IH p); [done| |done]. by eapply ix_parent.
Qed.

Lemma chain_nodup n : wf n -> NoDup (chain n).
Proof using.
  intros Hn. apply NoDup_alt. intros i j m Hi Hj. apply (chain_lookup n) in Hi as (_ & Hi & _); [|done].
  apply (chain_lookup n) in Hj as (_ & Hj & _); [|done]. lia.
Qed.

Lemma chain_hashes_nodup n b : indexed b -> inIndex n b -> NoDup (hash <$> chain n).
Proof using.
  intros Hix Hn. pose proof (chain_nodup n (in_wf n b Hix Hn)) as Hnd.
  assert (Hin : forall m, m ∈ chain n -> inIndex m b) by (intros m; by apply chain_in).
  revert Hnd Hin. generalize (chain n). intros l. induction l as [|m l IH]; [constructor|].
  intros [Hni Hnd]%list.NoDup_cons Hin. rewrite fmap_cons, list.NoDup_cons. split; [|apply IH; [done|]; intros; apply Hin; by right].
  intros (m' & Heq & Hm')%list_elem_of_fmap. apply Hni. rewrite (hash_inj m m' b); [done|apply Hin; by left|apply Hin; by right|done].
Qed.

(** The height of a node is the number of blocks below it. *)
Lemma height_bound n b : indexed b -> inIndex n b -> height n <= Zlen blocks.
Proof using.
  intros Hix Hn. pose proof (in_wf n b Hix Hn) as Hw. pose proof (chain_length n Hw) as Hl.
  pose proof (chain_hashes_nodup n b Hix Hn) as Hnd.
  destruct (chain n) as [|r l] eqn:Hc; [rewrite chain_unfold in Hc; by destruct (match parent n with Some q => chain q | None => [] end)|].
  rewrite Zlen_cons in Hl. rewrite fmap_cons, list.NoDup_cons in Hnd. destruct Hnd as [_ Hnd].
  assert (Hsub : hash <$> l ⊆ (fun k => BlockHash (Wire.Header k)) <$> blocks).
  { intros h (m & -> & Hm)%list_elem_of_fmap. apply list_elem_of_lookup in Hm as [i Hi].
    assert (Hi' : chain n !! S i = Some m) by (by rewrite Hc). destruct (chain_lookup n (S i) m Hw Hi') as (Hwm & Hh & _).
    assert (Hmi : inIndex m b) by (eapply chain_in; [done|exact Hn|by eapply list_elem_of_lookup_2]).
    destruct (ix_block b Hix m Hmi) as (block & _ & Hhd & Hin). rewrite (hash_built m (in_built m b Hix Hmi)), <- Hhd.
    apply list_elem_of_fmap. exists block. split; [done|]. apply Hin. intros Hroot. pose proof (wf_root m Hwm Hroot). lia. }
  pose proof (submseteq_length _ _ (NoDup_submseteq _ _ Hnd Hsub)) as Hle. rewrite !length_fmap in Hle. unfold Zlen in *. lia.
Qed.

Lemma stores_header b n block : indexed b -> inIndex n b -> stores b n block -> Wire.Header block = Header n.
Proof using. intros Hix Hn Hs. destruct (ix_block b Hix n Hn) as (block' & Hs' & Hhd & _). unfold stores in Hs. by rewrite Hs in Hs'; injection Hs' as ->. Qed.

Lemma heightKey_inj h h' : 0 <= h < 2 ^ 31 -> 0 <= h' < 2 ^ 31 -> heightKey h = heightKey h' -> h = h'.
Proof using.
  intros Hh Hh' Heq. apply (f_equal le_val) in Heq. unfold heightKey in Heq.
  rewrite !le_val_bytes, !u32_small in Heq by (try apply u32_range; lia). done.
Qed.

Lemma rowKey_inj n m : rowKey n = rowKey m -> hash n = hash m.
Proof using.
  unfold rowKey, Chainio.blockIndexKey. intros Heq. apply app_inj_1 in Heq as [_ ?]; [done|]. by rewrite !be_bytes_length.
Qed.

End Invariant.

(** ** Calls that leave the chain where it is *)
Section Quiet.
Context {C : Crypto} {L : PubKeyLib}.

Definition core (b : BlockChain) :=
  (bi b, bestChain b, stateSnapshot b, (d_blocks (db b), d_spend (db b), d_heights (db b), d_best (db b))).
Definition marks (b : BlockChain) := (statuses b, dirty b, d_rows (db b)).

(** Only the coins and the caches change. *)
Definition still (b b' : BlockChain) : Prop := core b' = core b /\ marks b' = marks b.
(** The statuses and their rows may change too. *)
Definition quiet (b b' : BlockChain) : Prop := core b' = core b /\ (rows_ok b -> rows_ok b').

#[export] Instance still_preorder : PreOrder still.
Proof using. split; [by split|]. intros b1 b2 b3 [H1 H2] [H3 H4]. split; by etrans. Qed.
#[export] Instance quiet_preorder : PreOrder quiet.
Proof using. split; [by split|]. intros b1 b2 b3 [H1 H2] [H3 H4]. split; [by etrans|auto]. Qed.

Lemma still_quiet b b' : still b b' -> quiet b b'.
Proof using.
  intros [Hc Hm]. split; [done|]. injection Hc as Hbi _ _ _ _ _ _. injection Hm as Hst Hd Hr. intros [H1 H2]. unfold inIndex, rowOf, NodeStatus in *.
  split; unfold inIndex, rowOf, NodeStatus; by rewrite ?Hbi, ?Hst, ?Hd, ?Hr.
Qed.

Lemma within_still {A} (m : stateful RuleError BlockChain A) : within still m -> within quiet m.
Proof using. intros Hm b. by apply still_quiet. Qed.

Lemma chain_at_quiet blocks t b b' : chain_at blocks t b -> quiet b b' -> chain_at blocks t b'.
Proof using.
  intros [Hix Hin Hroot Hv Hsn Hbest Hhs Hhh Hj Hr] [Hc Hrows]. injection Hc as Hbi Hbc Hss Hbl Hsp Hhe Hbe.
  unfold inIndex in *. split; unfold inIndex; rewrite ?Hbi, ?Hbc, ?Hss, ?Hbl, ?Hsp, ?Hhe, ?Hbe; try done; [|unfold snapshot_of, stores in *; by rewrite Hbl|by apply Hrows].
  destruct Hix as [H1 H2 H3 H4]. split; unfold inIndex; rewrite ?Hbi, ?Hbl; done.
Qed.

Lemma SetStatusFlags_quiet n flags b : quiet b (SetStatusFlags n flags b).
Proof using.
  split; [done|]. intros [Hr Hro]. split; [|done]. intros m Hm Hd. cbn in Hd. apply not_elem_of_union in Hd as [Hne Hd]. rewrite not_elem_of_singleton in Hne.
  specialize (Hr m Hm Hd). unfold rowOf, NodeStatus in *. cbn. by rewrite lookup_insert_ne.
Qed.

Lemma markAll_quiet nodes flags : forall b, quiet b (markAll nodes flags b).
Proof using.
  induction nodes as [|n nodes IH]; intros b; [done|]. cbn. etrans; [apply SetStatusFlags_quiet|apply IH].
Qed.

Lemma modify_quiet f : (forall b, quiet b (f b)) -> within (E:=RuleError) quiet (modify f).
Proof using. intros Hf b. apply Hf. Qed.

(** The rows that a flush writes. *)
Lemma storeRows_other b l : forall rows key, (forall h n, h ∈ l -> bi b !! h = Some n -> Chainio.blockIndexKey h (u32 (height n)) <> key) ->
  foldr (dbStoreBlockNode b) rows l !! key = rows !! key.
Proof using.
  induction l as [|h l IH]; intros rows key Hne; [done|]. cbn [foldr]. unfold dbStoreBlockNode at 1.
  assert (IH' : foldr (dbStoreBlockNode b) rows l !! key = rows !! key) by (apply IH; intros h' n Hh'; apply Hne; by right).
  destruct (bi b !! h) as [n|] eqn:Hn; [|done]. set (rest := foldr _ _ _) in *. rewrite (lookup_insert_ne rest); [done|]. apply (Hne h n); [by left|done].
Qed.

Lemma storeRows_in b l n : forall rows, hash n ∈ l -> inIndex n b -> foldr (dbStoreBlockNode b) rows l !! rowKey n = Some (rowOf n b).
Proof using.
  induction l as [|h l IH]; intros rows Hin Hn; [by apply not_elem_of_nil in Hin|]. cbn [foldr]. unfold dbStoreBlockNode at 1.
  destruct (decide (h = hash n)) as [->|Hne].
  - unfold inIndex in Hn. rewrite Hn. set (rest := foldr _ _ _). apply (lookup_insert_eq rest).
  - apply list.elem_of_cons in Hin as [Hin|Hin]; [congruence|]. destruct (bi b !! h) as [m|] eqn:Hm; [|by apply IH].
    specialize (IH rows Hin Hn). set (rest := foldr _ _ _) in *. rewrite (lookup_insert_ne rest); [done|]. unfold rowKey, Chainio.blockIndexKey.
    intros Heq. apply app_inj_1 in Heq as [_ ?]; [done|by rewrite !be_bytes_length].
Qed.

Lemma storeRows_only b l key : forall rows, is_Some (foldr (dbStoreBlockNode b) rows l !! key) ->
  is_Some (rows !! key) \/ exists h n, bi b !! h = Some n /\ Chainio.blockIndexKey h (u32 (height n)) = key.
Proof using.
  induction l as [|h l IH]; intros rows; [by left|]. cbn [foldr]. unfold dbStoreBlockNode at 1. destruct (bi b !! h) as [n|] eqn:Hn; [|by apply IH].
  specialize (IH rows). set (rest := foldr _ _ _) in *. destruct (decide (Chainio.blockIndexKey h (u32 (height n)) = key)) as [Heq|Hne].
  - intros _. right. by exists h, n.
  - rewrite (lookup_insert_ne rest) by done. exact IH.
Qed.

Lemma flushToDB_run b : exists b', flushToDB b = (Ok (), b') /\ quiet b b' /\ dirty b' = ∅ /\ cache b' = cache b /\
  d_utxo (db b') = d_utxo (db b) /\ statuses b' = statuses b.
Proof using.
  eexists. split; [reflexivity|]. split; [|done]. split; [done|]. intros [Hr Hro]. split; cbn [db d_rows setDb setStatuses].
  2: { intros key [Hk|Hk]%storeRows_only; [by apply Hro|done]. }
  intros n Hn _. change (inIndex n b) in Hn. destruct (decide (hash n ∈ dirty b)) as [Hd|Hd].
  - rewrite storeRows_in; [done|by apply elem_of_elements|done].
  - rewrite storeRows_other; [by apply Hr|]. intros h m Hh Hm Heq. unfold rowKey, Chainio.blockIndexKey in Heq.
    apply app_inj_1 in Heq as [_ Heq]; [|by rewrite !be_bytes_length]. subst h. by apply elem_of_elements in Hh.
Qed.

Lemma flushToDB_quiet : within quiet flushToDB.
Proof using. intros b. destruct (flushToDB_run b) as (b' & -> & Hq & _). exact Hq. Qed.

Lemma getTip_still : within still getTip.
Proof using. intros b. unfold getTip. by destruct (tip (bestChain b)). Qed.

End Quiet.

Section Calls.
Context {C : Crypto} {L : PubKeyLib} (implementationLog2 : Z -> Z).
Context (config : chainConfig) (fuel : nat) (sigCache : option SigCache) (adjustedTime now : Z).

(** *** Reading, fetching and flushing *)
Lemma fetchBlock_run n b block b' : dbFetchBlockByNode n b = (Ok block, b') -> b' = b /\ stores b n block.
Proof using. unfold dbFetchBlockByNode, stores. destruct (d_blocks (db b) !! hash n) as [bl|] eqn:Hb; [|done]. by intros [= -> ->]. Qed.

Lemma fetchBlock_still n : within still (dbFetchBlockByNode n).
Proof using. intros b. unfold dbFetchBlockByNode. by destruct (d_blocks (db b) !! hash n). Qed.

Lemma flush_still mode best : within still (flush now mode best).
Proof using. intros b. unfold flush. by destruct (UtxoCache.flush mode _ now _ _) as [[s d]|e| |]. Qed.

Lemma touch_still ops : within still (touch implementationLog2 ops).
Proof using. intros b. unfold touch. by destruct (UtxoCache.fetchEntries _ _ ops _) as [[es s]|e| |]. Qed.

Lemma touchFor_still node block view : within still (touchFor implementationLog2 config node block view).
Proof using.
  intros b. unfold touchFor. destruct (_ || _); [done|]. cbv zeta.
  match goal with |- context [touch _ ?ops b] => pose proof (touch_still ops b) as H1; destruct (touch implementationLog2 ops b) as [[[]|e| |] b1] end;
    cbn in H1; try done.
  destruct (if _ : bool then _ else _) as [v|e| |]; try done. destruct (findInputsToFetch block (height node) v) as [[v' needed]|e| |]; try done.
  etrans; [exact H1|apply touch_still].
Qed.

Lemma checkConnectBlock_still node block view : within still (checkConnectBlock implementationLog2 config fuel sigCache node block view).
Proof using.
  intros b. unfold checkConnectBlock. pose proof (touchFor_still node block view b) as H1.
  destruct (touchFor implementationLog2 config node block view b) as [[[]|e| |] b1]; cbn in H1; try done.
  destruct (ConnectBlock.checkConnectBlock _ _ _ _ _ _ _ _ _ _ _ _) as [[[[e|] st] h]|e| |]; done.
Qed.

Lemma isCurrent_still : within still (isCurrent config adjustedTime).
Proof using. apply within_bind; [apply _|apply getTip_still|]. intros t. apply within_ret, _. Qed.

Lemma warn_still node : within still (warnUnknownRules config node).
Proof using. intros b. unfold warnUnknownRules. by destruct (warnUnknownRuleActivations _ _ _ _ _ _ _) as [[[w d] warned]|e| |]. Qed.

(** *** The cache of the utxo set *)
Lemma cacheIn_still txIn stxos : within still (cacheIn implementationLog2 txIn stxos).
Proof using.
  intros b. unfold cacheIn. destruct (UtxoCache.addTxIn _ _ txIn _ _) as [[s o]|e| |]; try done. apply touch_still.
Qed.

Lemma cacheIns_still ins : forall stxos, within still (cacheIns implementationLog2 ins stxos).
Proof using.
  induction ins as [|txIn ins IH]; intros stxos; cbn [cacheIns]; [apply within_ret, _|].
  apply within_bind; [apply _|apply cacheIn_still|]. intros stxos'. apply IH.
Qed.

Lemma cacheOuts_still tx h : within still (cacheOuts implementationLog2 tx h).
Proof using. intros b. unfold cacheOuts. by destruct (UtxoCache.addTxOuts _ tx h _). Qed.

Lemma connectToCache_still txs h : forall stxos, within still (connectToCache implementationLog2 txs h stxos).
Proof using.
  induction txs as [|tx txs IH]; intros stxos; cbn [connectToCache]; [apply within_ret, _|].
  apply within_bind; [apply _|apply within_if; [apply within_ret, _|apply cacheIns_still]|]. intros stxos'.
  apply within_bind; [apply _|apply cacheOuts_still|]. intros []. apply IH.
Qed.

End Calls.

(** ** Moving the tip *)
Section Move.
Context {C : Crypto} {L : PubKeyLib} (blocks : list MsgBlock) (Hroom : Zlen blocks < 2 ^ 31 - 2).

Lemma height_room n b : indexed blocks b -> inIndex n b -> 0 <= height n < 2 ^ 31 - 2.
Proof using Hroom. intros Hix Hn. pose proof (height_bound blocks n b Hix Hn). pose proof (wf_height n (in_wf blocks n b Hix Hn)). lia. Qed.

Lemma in_tip_ok n b : indexed blocks b -> inIndex n b -> tip_ok (Some n).
Proof using Hroom. intros Hix Hn. pose proof (height_room n b Hix Hn). split; [by eapply in_wf|lia]. Qed.

Lemma chain_child n p : parent n = Some p -> chain n = chain p ++ [n].
Proof using. intros Hp. by rewrite chain_unfold, Hp. Qed.

Lemma not_below n p : wf n -> parent n = Some p -> n ∉ chain p.
Proof using.
  intros Hn Hp Hin. destruct (wf_parent n p Hn Hp) as [Hwp Hh]. apply list_elem_of_lookup in Hin as [i Hi].
  pose proof (chain_length p Hwp) as Hl. apply lookup_lt_Some in Hi as Hlt. apply (chain_lookup p) in Hi as (_ & Hi & _); [|done]. unfold Zlen in Hl. lia.
Qed.

(** What stays the same when the tip moves. *)
Record moved (b b' : BlockChain) : Prop := {
  mv_index : bi b' = bi b;
  mv_blocks : d_blocks (db b') = d_blocks (db b);
  mv_marks : marks b' = marks b;
}.

Lemma moved_indexed b b' : moved b b' -> indexed blocks b -> indexed blocks b'.
Proof using. intros [Hbi Hbl _] [H1 H2 H3 H4]. split; unfold inIndex in *; rewrite ?Hbi, ?Hbl; done. Qed.

Lemma moved_rows b b' : moved b b' -> rows_ok b -> rows_ok b'.
Proof using.
  intros [Hbi _ Hm] [H1 H2]. injection Hm as Hst Hd Hrw. unfold inIndex, rowOf, NodeStatus in *.
  split; unfold inIndex, rowOf, NodeStatus; by rewrite ?Hbi, ?Hst, ?Hd, ?Hrw.
Qed.

Lemma chain_lookup_beyond n h : wf n -> height n < h -> chain n !! Z.to_nat h = None.
Proof using. intros Hn Hh. apply lookup_ge_None. rewrite chain_length_nat by done. pose proof (wf_height n Hn). lia. Qed.

(** The index of heights follows the tip up and down. *)
Lemma heights_extend t node b : indexed blocks b -> inIndex node b -> parent node = Some t ->
  (forall h k, (d_heights (db b)).1 !! h = Some k <-> exists n, n ∈ chain t /\ hash n = h /\ heightKey (height n) = k) ->
  (forall h, 0 <= h < 2 ^ 31 -> (d_heights (db b)).2 !! heightKey h = hash <$> chain t !! Z.to_nat h) ->
  let ix := Chainio.dbPutBlockIndex (hash node) (height node) (d_heights (db b)) in
  (forall h k, ix.1 !! h = Some k <-> exists n, n ∈ chain node /\ hash n = h /\ heightKey (height n) = k) /\
  (forall h, 0 <= h < 2 ^ 31 -> ix.2 !! heightKey h = hash <$> chain node !! Z.to_nat h).
Proof using Hroom.
  intros Hix Hin Hp Hh Hhs ix. pose proof (in_wf blocks node b Hix Hin) as Hw. destruct (wf_parent node t Hw Hp) as [Hwt Hht].
  pose proof (height_room node b Hix Hin) as Hrm. rewrite (chain_child node t Hp). split.
  - intros h k. unfold ix, Chainio.dbPutBlockIndex. cbn [fst]. fold (heightKey (height node)).
    assert (Hall : forall n, n ∈ chain t -> hash n <> hash node).
    { intros n Hm Heq. apply (not_below node t Hw Hp). rewrite <- (hash_inj n node b); [done| |done|done]. eapply chain_in; [done|exact Hin|].
      rewrite (chain_child node t Hp). apply elem_of_app. by left. }
    destruct (decide (h = hash node)) as [->|Hne].
    + rewrite (lookup_insert_eq (d_heights (db b)).1). split.
      * intros [= <-]. exists node. split_and!; [|done|done]. apply elem_of_app. right. by left.
      * intros (n & [Hm|Hm]%elem_of_app & Heq & <-); [by destruct (Hall n Hm)|]. by apply list_elem_of_singleton in Hm as ->.
    + rewrite (lookup_insert_ne (d_heights (db b)).1), Hh by done. split; intros (n & Hm & Heq & Hk).
      * exists n. split_and!; [|done|done]. apply elem_of_app. by left.
      * apply elem_of_app in Hm as [Hm|Hm]; [by exists n|]. apply list_elem_of_singleton in Hm as ->. by destruct Hne.
  - intros h Hr. unfold ix, Chainio.dbPutBlockIndex. cbn [snd]. fold (heightKey (height node)). destruct (decide (h = height node)) as [->|Hne].
    + rewrite (lookup_insert_eq (d_heights (db b)).2). rewrite <- (chain_child node t Hp), chain_self by done. done.
    + rewrite (lookup_insert_ne (d_heights (db b)).2) by (intros Heq; apply Hne; symmetry; apply heightKey_inj; (done || lia)).
      rewrite Hhs by done. rewrite <- (chain_child node t Hp). destruct (Z.lt_ge_cases h (height node)) as [Hlt|Hge].
      * rewrite (chain_child node t Hp), lookup_app_l; [done|]. rewrite chain_length_nat by done. lia.
      * rewrite !chain_lookup_beyond by (done || lia). done.
Qed.

Lemma heights_shorten t p b : indexed blocks b -> inIndex t b -> parent t = Some p ->
  (forall h k, (d_heights (db b)).1 !! h = Some k <-> exists n, n ∈ chain t /\ hash n = h /\ heightKey (height n) = k) ->
  (forall h, 0 <= h < 2 ^ 31 -> (d_heights (db b)).2 !! heightKey h = hash <$> chain t !! Z.to_nat h) ->
  let ix := Chainio.dbRemoveBlockIndex (hash t) (height t) (d_heights (db b)) in
  (forall h k, ix.1 !! h = Some k <-> exists n, n ∈ chain p /\ hash n = h /\ heightKey (height n) = k) /\
  (forall h, 0 <= h < 2 ^ 31 -> ix.2 !! heightKey h = hash <$> chain p !! Z.to_nat h).
Proof using Hroom.
  intros Hix Hin Hp Hh Hhs ix. pose proof (in_wf blocks t b Hix Hin) as Hw. destruct (wf_parent t p Hw Hp) as [Hwp Hht].
  pose proof (height_room t b Hix Hin) as Hrm. split.
  - intros h k. unfold ix, Chainio.dbRemoveBlockIndex. cbn [fst].
    assert (Hall : forall n, n ∈ chain p -> hash n <> hash t).
    { intros n Hm Heq. apply (not_below t p Hw Hp). rewrite <- (hash_inj n t b); [done| |done|done]. eapply chain_in; [done|exact Hin|].
      rewrite (chain_child t p Hp). apply elem_of_app. by left. }
    destruct (decide (h = hash t)) as [->|Hne].
    + rewrite (lookup_delete_eq (d_heights (db b)).1). split; [done|]. intros (n & Hm & Heq & _). by destruct (Hall n Hm).
    + rewrite (lookup_delete_ne (d_heights (db b)).1), Hh by done. split; intros (n & Hm & Heq & Hk).
      * rewrite (chain_child t p Hp) in Hm. apply elem_of_app in Hm as [Hm|Hm]; [by exists n|]. apply list_elem_of_singleton in Hm as ->. by destruct Hne.
      * exists n. split_and!; [|done|done]. rewrite (chain_child t p Hp). apply elem_of_app. by left.
  - intros h Hr. unfold ix, Chainio.dbRemoveBlockIndex. cbn [snd]. fold (heightKey (height t)). destruct (decide (h = height t)) as [->|Hne].
    + rewrite (lookup_delete_eq (d_heights (db b)).2), chain_lookup_beyond by (done || lia). done.
    + rewrite (lookup_delete_ne (d_heights (db b)).2) by (intros Heq; apply Hne; symmetry; apply heightKey_inj; (done || lia)).
      rewrite Hhs by done. destruct (Z.lt_ge_cases h (height t)) as [Hlt|Hge].
      * rewrite (chain_child t p Hp), lookup_app_l; [done|]. rewrite chain_length_nat by done. lia.
      * rewrite !chain_lookup_beyond by (done || lia). done.
Qed.

Lemma chain_at_extend t node b b' ser : chain_at blocks t b -> inIndex node b -> parent node = Some t -> moved b b' ->
  bestChain b' = view_of (Some node) -> snapshot_of node b' (stateSnapshot b') ->
  d_best (db b') = dbPutBestState (stateSnapshot b') (workSum node) -> d_heights (db b') = Chainio.dbPutBlockIndex (hash node) (height node) (d_heights (db b)) ->
  d_spend (db b') = <[hash node := ser]> (d_spend (db b)) -> chain_at blocks node b'.
Proof using Hroom.
  intros [Hix Hin Hroot Hv Hsn Hbest Hhs Hhh Hj Hr] Hnode Hp Hmv Hv' Hsn' Hbest' Hix' Hsp.
  pose proof (heights_extend t node b Hix Hnode Hp Hhs Hhh) as [Hn1 Hn2]. pose proof Hmv as [Hbi Hbl Hm].
  unfold inIndex in *. split; unfold inIndex; rewrite ?Hbi, ?Hix', ?Hsp; try done.
  - by eapply moved_indexed.
  - intros n Hn Hnp. rewrite (chain_child node t Hp). apply elem_of_app. left. by apply Hroot.
  - by exists node.
  - intros n. rewrite (chain_child node t Hp), elem_of_app, list_elem_of_singleton. intros Hmem Hnp.
    destruct (decide (hash n = hash node)) as [->|Hne]; [by rewrite (lookup_insert_eq (d_spend (db b)))|].
    rewrite (lookup_insert_ne (d_spend (db b))) by congruence. destruct Hmem as [Hmem| ->]; [by apply Hj|done].
  - by eapply moved_rows.
Qed.

Lemma chain_at_shorten t p b b' : chain_at blocks t b -> parent t = Some p -> moved b b' ->
  bestChain b' = view_of (Some p) -> snapshot_of p b' (stateSnapshot b') ->
  d_best (db b') = dbPutBestState (stateSnapshot b') (workSum t) -> d_heights (db b') = Chainio.dbRemoveBlockIndex (hash t) (height t) (d_heights (db b)) ->
  d_spend (db b') = Chainio.dbRemoveSpendJournalEntry (hash t) (d_spend (db b)) -> chain_at blocks p b'.
Proof using Hroom.
  intros [Hix Hin Hroot Hv Hsn Hbest Hhs Hhh Hj Hr] Hp Hmv Hv' Hsn' Hbest' Hix' Hsp.
  pose proof (heights_shorten t p b Hix Hin Hp Hhs Hhh) as [Hn1 Hn2]. pose proof Hmv as [Hbi Hbl Hm].
  pose proof (ix_parent blocks b Hix t p Hin Hp) as Hpin.
  unfold inIndex in *. split; unfold inIndex; rewrite ?Hbi, ?Hix', ?Hsp; try done.
  - by eapply moved_indexed.
  - intros n Hn Hnp. specialize (Hroot n Hn Hnp). rewrite (chain_child t p Hp), elem_of_app, list_elem_of_singleton in Hroot.
    destruct Hroot as [?| ->]; [done|congruence].
  - by exists t.
  - intros n Hmem Hnp. unfold Chainio.dbRemoveSpendJournalEntry. rewrite (lookup_delete_ne (d_spend (db b))).
    + apply Hj; [|done]. rewrite (chain_child t p Hp), elem_of_app. by left.
    + intros Heq. apply (not_below t p); [by eapply in_wf|done|]. rewrite (hash_inj t n b); [done|done| |done]. by eapply chain_in.
  - by eapply moved_rows.
Qed.

End Move.

(** ** Connecting and disconnecting *)
Section Steps.
Context {C : Crypto} {L : PubKeyLib} (implementationLog2 : Z -> Z) (blocks : list MsgBlock) (Hroom : Zlen blocks < 2 ^ 31 - 2).
Context (config : chainConfig) (fuel : nat) (sigCache : option SigCache) (adjustedTime now : Z).

(** The nodes and the blocks stay. *)
Record kept (b b' : BlockChain) : Prop := {
  kp_index : bi b' = bi b;
  kp_blocks : d_blocks (db b') = d_blocks (db b);
}.
#[export] Instance kept_preorder : PreOrder kept.
Proof using. split; [done|]. intros b1 b2 b3 [H1 H2] [H3 H4]. split; by etrans. Qed.

Lemma quiet_kept b b' : quiet b b' -> kept b b'.
Proof using. intros [Hc _]. injection Hc as Hbi _ _ Hbl _ _ _. done. Qed.

(** The state [b], reached from [b0], has the tip [t]. *)
Definition at_tip (t : blockNode) (b0 b : BlockChain) : Prop := chain_at blocks t b /\ kept b0 b.

Lemma leads_quiet {A} t b0 (P : BlockChain -> Prop) (Q : A -> BlockChain -> Prop) (m : stateful RuleError BlockChain A) b :
  within quiet m -> at_tip t b0 b -> (forall b', at_tip t b0 b' -> P b') ->
  (forall a b', at_tip t b0 b' -> m b = (Ok a, b') -> Q a b') -> leads P Q m b.
Proof using.
  intros Hm [Hca Hk] HP HQ. assert (Hat : forall b', quiet b b' -> at_tip t b0 b').
  { intros b' Hc. split; [by eapply chain_at_quiet, Hc|]. etrans; [exact Hk|by apply quiet_kept]. }
  apply (leads_within quiet); [done|auto|]. intros a b' Hc Hrun. apply HQ; [by apply Hat|done].
Qed.

(** The tip is the old one or the new one. *)
Definition tips (t t' : blockNode) (b0 b : BlockChain) : Prop := at_tip t b0 b \/ at_tip t' b0 b.

Lemma at_kept b0 b b' : kept b0 b -> moved b b' -> kept b0 b'.
Proof using.
  intros Hk [Hbi Hbl _]. by etrans.
Qed.

Ltac quietly t b0 := apply leads_bind, (leads_quiet t b0); [first [apply flushToDB_quiet|apply within_still]|done|try (intros ? ?; first [by left|done])|].

Lemma stores_kept b b' n block : kept b b' -> stores b n block <-> stores b' n block.
Proof using. intros [_ Hbl]. unfold stores. by rewrite Hbl. Qed.

Lemma at_stores t b0 b n block : at_tip t b0 b -> stores b0 n block <-> stores b n block.
Proof using. intros [_ Hk]. by apply stores_kept. Qed.

Lemma at_in t b0 b n : at_tip t b0 b -> inIndex n b0 <-> inIndex n b.
Proof using. intros [_ [Hbi _]]. unfold inIndex. by rewrite Hbi. Qed.

Lemma getTip_at t b0 b : at_tip t b0 b -> getTip b = (Ok t, b).
Proof using. intros [Hca _]. unfold getTip. by rewrite (ca_view blocks t b Hca), tip_view. Qed.

Lemma connectBlock_at t node block view stxos b0 b : at_tip t b0 b -> inIndex node b0 -> parent node <> None ->
  stores b0 node block ->
  leads (fun b' => at_tip t b0 b' \/ parent node = Some t /\ at_tip node b0 b')
    (fun _ b' => parent node = Some t /\ at_tip node b0 b') (connectBlock config adjustedTime now node block view stxos) b.
Proof using Hroom.
  intros Hat Hnode Hpar Hsb. pose proof Hat as [Hca Hk]. unfold connectBlock.
  assert (Hhd : Wire.Header block = Header node).
  { apply (stores_header blocks b); [by eapply ca_index|by apply (at_in t b0 b)|by apply (at_stores t b0 b)]. }
  apply leads_bind. unfold leads at 1. rewrite (getTip_at t b0 b Hat).
  assert (Hnb : forall b', at_tip t b0 b' -> inIndex node b') by (intros b' [_ [Hbi _]]; unfold inIndex in *; by rewrite Hbi).
  destruct (bool_decide_reflect (PrevBlock (Wire.Header block) = hash t)) as [Hprev|Hprev]; cbn [negb]; [|by left].
  assert (Hp : parent node = Some t).
  { rewrite Hhd in Hprev. unfold Header in Hprev. cbn in Hprev. destruct (parent node) as [p|] eqn:Hp; [|done]. f_equal.
    apply (hash_inj p t b); [|by eapply ca_tip|done]. eapply ix_parent; [by eapply ca_index|by apply Hnb|done]. }
  quietly t b0; [apply within_lift, _|]. intros n b1 Hat1 _. destruct (Zlen stxos =? n); cbn [negb]; [|by left].
  quietly t b0; [apply isCurrent_still|]. intros current b2 Hat2 _.
  quietly t b0; [apply within_if; [apply warn_still|apply within_ret, _]|]. intros [] b3 Hat3 _.
  quietly t b0. intros [] b4 Hat4 _.
  quietly t b0; [apply within_gets, _|]. intros total b5 Hat5 _.
  quietly t b0; [apply within_lift, _|]. intros medianTime b6 Hat6 Hmed. cbv zeta.
  quietly t b0; [destruct view; [apply flush_still|apply within_ret, _]|]. intros [] b7 Hat7 _.
  set (state := stateOf node block (total + Zlen (Transactions block)) medianTime).
  apply leads_bind. unfold leads at 1, dbUpdate. destruct (Chainio.dbPutUtxoView view _) as [utxos|e| |]; [|by left..]. cbn [dbErr]. rewrite bind_Ok.
  unfold Chainio.dbPutSpendJournalEntry. destruct (Chainio.serializeSpendJournalEntry stxos) as [ser|e| |]; [|by left..]. rewrite bind_Ok. cbn [dbErr mret outcome_ret].
  rewrite bind_Ok. apply leads_bind. unfold leads at 1. cbn [bestChain setDb].
  pose proof Hat7 as [Hca7 Hk7]. rewrite (ca_view blocks t b7 Hca7). pose proof (Hnb b7 Hat7) as Hnode7. pose proof (ca_index blocks t b7 Hca7) as Hix7.
  pose proof (in_tip_ok blocks Hroom node b7 Hix7 Hnode7) as [Hwn Hlt].
  rewrite setTip_view; [|by eapply in_wf, ca_tip|done|done]. cbv beta iota.
  match goal with |- leads _ _ _ ?s => set (b8 := s) end.
  assert (Hmv : moved b7 b8) by done. assert (Hbh : BlockHash (Wire.Header block) = hash node) by (rewrite Hhd; symmetry; by eapply hash_built, in_built).
  assert (Hat8 : at_tip node b0 b8).
  { split; [|by eapply at_kept]. eapply (chain_at_extend blocks Hroom t node b7 b8 ser); try done; try (cbn; by rewrite Hbh).
    exists block, (total + Zlen (Transactions block)), medianTime. split; [by apply (at_stores t b0 b7)|]. split; [by injection Hmed|done]. }
  apply leads_bind, (leads_quiet node b0); [apply within_still, flush_still|done|intros b' Hb'; by right|]. intros [] b9 Hat9 _.
  unfold leads. cbn. by split.
Qed.

Lemma disconnectBlock_at t block view b0 b : at_tip t b0 b -> Wire.Header block = Header t ->
  leads (fun b' => at_tip t b0 b' \/ exists p, parent t = Some p /\ at_tip p b0 b')
    (fun _ b' => exists p, parent t = Some p /\ at_tip p b0 b') (disconnectBlock t block view) b.
Proof using Hroom.
  intros Hat Hhd. unfold disconnectBlock. apply leads_bind. unfold leads at 1. rewrite (getTip_at t b0 b Hat).
  rewrite bool_decide_true by done. cbn [negb].
  quietly t b0; [apply within_lift, _|]. intros p b1 Hat1 Hp. cbn in Hp. destruct (parent t) as [p'|] eqn:Hpar; [|done]. injection Hp as -> ->.
  quietly t b0; [apply fetchBlock_still|]. intros prevBlock b2 Hat2 Hprev.
  quietly t b0. intros [] b4 Hat4 _.
  quietly t b0; [apply within_gets, _|]. intros total b5 Hat5 _.
  quietly t b0; [apply within_lift, _|]. intros medianTime b6 Hat6 Hmed. cbv zeta.
  apply leads_bind. unfold leads at 1, dbUpdate. destruct (Chainio.dbPutUtxoView (Some view) _) as [utxos|e| |]; [|by left..]. cbn [dbErr]. rewrite bind_Ok.
  destruct (Chainio.dbFetchSpendJournalEntry _ block) as [journal|e| |]; [|by left..]. cbn [dbErr]. rewrite bind_Ok.
  pose proof Hat6 as [Hca6 Hk6]. pose proof (ca_index blocks t b6 Hca6) as Hix6. pose proof (ca_tip blocks t b6 Hca6) as Hin6.
  pose proof (ix_parent blocks b6 Hix6 t p Hin6 Hpar) as Hpin. pose proof (in_tip_ok blocks Hroom p b6 Hix6 Hpin) as [Hwp Hlt].
  unfold leads. cbn [bestChain setDb]. rewrite (ca_view blocks t b6 Hca6), setTip_view; [|by eapply in_wf|done|done]. cbv beta iota.
  match goal with |- context [at_tip _ b0 ?s] => set (b8 := s) end. exists p. split; [done|].
  assert (Hmv : moved b6 b8) by done. assert (Hbh : BlockHash (Wire.Header block) = hash t) by (rewrite Hhd; symmetry; by eapply hash_built, in_built).
  split; [|by eapply at_kept]. eapply (chain_at_shorten blocks Hroom t p b6 b8); try done; try (cbn; by rewrite Hbh).
  exists prevBlock, (total - Zlen (Transactions block)), medianTime. split; [|split; [by injection Hmed|done]].
  apply (at_stores t b0 b6); [done|]. apply fetchBlock_run in Hprev as [_ Hprev]. by apply (at_stores t b0 b1).
Qed.

(** Both make nothing dirty. *)
Definition tidy (b b' : BlockChain) : Prop := dirty b' ⊆ dirty b.
#[export] Instance tidy_preorder : PreOrder tidy.
Proof using. split; [by intros b; unfold tidy|]. intros b1 b2 b3. unfold tidy. intros H1 H2. by trans (dirty b2). Qed.

Lemma still_tidy {A} (m : stateful RuleError BlockChain A) : within still m -> within tidy m.
Proof using. intros Hm b. unfold tidy. destruct (Hm b) as [_ Hk]. injection Hk as _ -> _. done. Qed.

Lemma flushToDB_tidy : within tidy flushToDB.
Proof using. intros b. unfold tidy. destruct (flushToDB_run b) as (b' & -> & _ & Hd & _). cbn. rewrite Hd. apply empty_subseteq. Qed.

Lemma dbUpdate_tidy f : within tidy (dbUpdate f).
Proof using. intros b. unfold dbUpdate. unfold tidy; by destruct (f (db b)). Qed.

Lemma connectBlock_tidy node block view stxos : within tidy (connectBlock config adjustedTime now node block view stxos).
Proof using.
  unfold connectBlock. apply within_bind; [apply _|apply still_tidy, getTip_still|]. intros t. apply within_if; [apply within_throw, _|].
  apply within_bind; [apply _|apply within_lift, _|]. intros n. apply within_if; [apply within_throw, _|].
  apply within_bind; [apply _|apply still_tidy, isCurrent_still|]. intros current.
  apply within_bind; [apply _|apply within_if; [apply still_tidy, warn_still|apply within_ret, _]|]. intros [].
  apply within_bind; [apply _|apply flushToDB_tidy|]. intros [].
  apply within_bind; [apply _|apply within_gets, _|]. intros total.
  apply within_bind; [apply _|apply within_lift, _|]. intros medianTime. cbv zeta.
  apply within_bind; [apply _|destruct view; [apply still_tidy, flush_still|apply within_ret, _]|]. intros [].
  apply within_bind; [apply _|apply dbUpdate_tidy|]. intros [].
  apply within_bind; [apply _|intros b; unfold tidy; by destruct (setTip (Some node) (bestChain b))|]. intros view'.
  apply within_bind; [apply _|apply still_tidy, flush_still|]. intros []. apply within_ret, _.
Qed.

End Steps.
End ChainInv.
