(* ===== verification/ChainBest.v ===== *)
(** * Choosing the best chain

    What getReorganizeNodes finds, where a reorganisation and a connection end,
    and what ProcessBlock does to the whole state: the tip is moved to a
    heavier chain or left, and the invariant of ChainInv.v holds after every
    call. *)

From S2P Require Import Prelude Compress Wire SigHash SigCheck Engine Merkle Difficulty Chain ChainView Utxo Chainio UtxoCache TxRules ScriptVal Deployments BlockRules ConnectBlock Orphans ChainState ChainInv.

Module ChainBest.
Import Compress Wire SigHash SigCheck Engine Merkle Difficulty Chain ChainView Utxo TxRules ScriptVal Deployments BlockRules ConnectBlock Orphans ChainState ChainInv.

(** ** Forks *)
Lemma chain_nonempty n : chain n <> [].
Proof. rewrite chain_unfold. by destruct (match parent n with Some q => chain q | None => [] end). Qed.

Lemma chain_inj n m : chain n = chain m -> n = m.
Proof. rewrite (chain_unfold n), (chain_unfold m). intros Heq. by apply app_inj_2 in Heq as [_ [= ->]]. Qed.

Lemma last_filter {A} (P : A -> Prop) `{!forall x, Decision (P x)} l x : list.last (filter P l) = Some x ->
  exists l1 l2, l = l1 ++ x :: l2 /\ P x /\ forall y, y ∈ l2 -> ~ P y.
Proof.
  induction l as [|y l IH] using rev_ind; [done|]. rewrite list.filter_app, filter_cons, filter_nil. case_decide as Hy.
  - rewrite list.last_snoc. intros [= ->]. exists l, []. split_and!; [done|done|]. intros z Hz. by apply not_elem_of_nil in Hz.
  - rewrite app_nil_r. intros Hl. destruct (IH Hl) as (l1 & l2 & -> & Hx & Hn). exists l1, (l2 ++ [y]).
    split_and!; [by rewrite <- (assoc_L (++))|done|]. intros z. rewrite elem_of_app, list_elem_of_singleton. intros [Hz| ->]; [by apply Hn|done].
Qed.

(** A node of the chain of [n] splits it. *)
Lemma chain_split n l1 x l2 : wf n -> chain n = l1 ++ x :: l2 -> wf x /\ chain n = chain x ++ l2 /\ chain x = l1 ++ [x].
Proof.
  intros Hn Hc. assert (Hx : chain n !! length l1 = Some x) by (rewrite Hc; by apply list_lookup_middle).
  destruct (chain_lookup n _ x Hn Hx) as (Hw & _ & Ht). split; [done|].
  assert (Hcx : chain x = l1 ++ [x]).
  { rewrite <- Ht, Hc. replace (S (length l1)) with (length (l1 ++ [x])) by (rewrite length_app; cbn; lia).
    change (x :: l2) with ([x] ++ l2). rewrite (assoc_L (++)). by rewrite take_app_length. }
  split; [|done]. rewrite Hcx, Hc. by rewrite <- (assoc_L (++)).
Qed.

Lemma chain_next n x a l : wf n -> chain n = chain x ++ a :: l -> parent a = Some x /\ chain n = chain a ++ l.
Proof.
  intros Hn Hc. destruct (chain_split n _ a l Hn Hc) as (Hw & Hl & Ha). split; [|done].
  rewrite (chain_unfold a) in Ha. apply app_inj_2 in Ha as [Ha _]; [|done]. destruct (parent a) as [q|].
  - by apply chain_inj in Ha as ->.
  - symmetry in Ha. by apply chain_nonempty in Ha.
Qed.

Lemma chain_root n : exists r, r ∈ chain n /\ parent r = None.
Proof.
  induction n as [n IH _] using node_ind. rewrite chain_unfold. destruct (parent n) as [p|] eqn:Hp.
  - destruct (IH p eq_refl) as (r & Hr & Hn). exists r. split; [|done]. apply elem_of_app. by left.
  - exists n. split; [by left|done].
Qed.

Section Reorg.
Context {C : Crypto} {L : PubKeyLib} (implementationLog2 : Z -> Z) (blocks : list MsgBlock) (Hroom : Zlen blocks < 2 ^ 31 - 2).
Context (config : chainConfig) (fuel : nat) (sigCache : option SigCache) (adjustedTime now : Z).

(** The fork point of a node of the index with the best chain. *)
Lemma fork_split t node b : chain_at blocks t b -> inIndex node b -> exists x D A,
  findFork (Some node) (bestChain b) = Some x /\ chain t = chain x ++ D /\ chain node = chain x ++ A /\ forall m, m ∈ A -> m ∉ chain t.
Proof using Hroom.
  intros Hca Hn. pose proof (ca_index blocks t b Hca) as Hix. pose proof (in_wf blocks node b Hix Hn) as Hwn.
  pose proof (in_tip_ok blocks Hroom t b Hix (ca_tip blocks t b Hca)) as Ht. pose proof Ht as [Hwt _].
  rewrite (ca_view blocks t b Hca), findFork_view by done. cbn [members].
  destruct (list.last (filter (fun m => m ∈ chain t) (chain node))) as [x|] eqn:Hl.
  - apply last_filter in Hl as (l1 & l2 & Hc & Hx & Hno). destruct (chain_split node l1 x l2 Hwn Hc) as (Hwx & Hcn & _).
    apply list_elem_of_split in Hx as (k1 & k2 & Hct). destruct (chain_split t k1 x k2 Hwt Hct) as (_ & Hct' & _).
    by exists x, k2, l2.
  - exfalso. destruct (chain_root node) as (r & Hr & Hnp). apply last_None in Hl.
    assert (Hin : r ∈ filter (fun m => m ∈ chain t) (chain node)); [|rewrite Hl in Hin; by apply not_elem_of_nil in Hin].
    rewrite list_elem_of_filter. split; [|done]. eapply ca_root; [done| |done]. by eapply chain_in.
Qed.

Lemma attachLoop_spec n : forall x A b acc ok l, chain n = chain x ++ A -> attachLoop n (Some x) b acc = (ok, l) ->
  if ok then l = A ++ acc else exists m, m ∈ chain n /\ KnownInvalid (NodeStatus m b) = true.
Proof using.
  induction n as [n IH _] using node_ind. intros x A b acc ok l Hc Hrun.
  assert (Hunf : attachLoop n (Some x) b acc = if bool_decide (Some n = Some x) then (true, acc)
    else if KnownInvalid (NodeStatus n b) then (false, acc)
    else match parent n with Some p => attachLoop p (Some x) b (n :: acc) | None => (true, n :: acc) end) by (by destruct n).
  rewrite Hunf in Hrun. clear Hunf. destruct (bool_decide_reflect (Some n = Some x)) as [[= ->]|Hne].
  - injection Hrun as <- <-. rewrite <- (app_nil_r (chain x)) in Hc at 1. apply app_inv_head in Hc as <-. done.
  - assert (HA : exists A', A = A' ++ [n] /\ match parent n with Some q => chain q | None => [] end = chain x ++ A').
    { destruct A as [|a A _] using rev_ind; [rewrite app_nil_r in Hc; apply chain_inj in Hc as ->; done|]. rewrite chain_unfold, (assoc_L (++)) in Hc.
      apply app_inj_2 in Hc as [Hc [= <-]]; [|done]. by exists A. }
    destruct HA as (A' & -> & HA). destruct (KnownInvalid (NodeStatus n b)) eqn:Hinv.
    + injection Hrun as <- <-. exists n. split; [|done]. rewrite chain_unfold. apply elem_of_app. right. by left.
    + destruct (parent n) as [p|] eqn:Hp; [|by destruct (chain_nonempty x); destruct (chain x)].
      specialize (IH p eq_refl x A' b (n :: acc) ok l HA Hrun). destruct ok; [by rewrite <- (assoc_L (++))|].
      destruct IH as (m & Hm & Hk). exists m. split; [|done]. rewrite (chain_child n p Hp). apply elem_of_app. by left.
Qed.

Lemma detachLoop_spec n : forall x D, chain n = chain x ++ D -> detachLoop n (Some x) = rev D.
Proof using.
  induction n as [n IH _] using node_ind. intros x D Hc.
  assert (Hunf : detachLoop n (Some x) = if bool_decide (Some n = Some x) then []
    else n :: match parent n with Some p => detachLoop p (Some x) | None => [] end) by (by destruct n).
  rewrite Hunf. clear Hunf. destruct (bool_decide_reflect (Some n = Some x)) as [[= ->]|Hne].
  - rewrite <- (app_nil_r (chain x)) in Hc at 1. apply app_inv_head in Hc as <-. done.
  - destruct D as [|a D _] using rev_ind; [rewrite app_nil_r in Hc; apply chain_inj in Hc as ->; done|]. rewrite chain_unfold, (assoc_L (++)) in Hc.
    apply app_inj_2 in Hc as [Hc [= <-]]; [|done]. rewrite rev_app_distr. cbn. f_equal.
    destruct (parent n) as [p|] eqn:Hp; [by apply (IH p)|]. by destruct (chain_nonempty x); destruct (chain x).
Qed.

Lemma getReorganizeNodes_at t node b0 b : at_tip blocks t b0 b -> inIndex node b -> parent node <> None ->
  leads (at_tip blocks t b0) (fun '(D, A) b' => at_tip blocks t b0 b' /\
    (D = [] /\ A = [] /\ (exists m, m ∈ chain node /\ KnownInvalid (NodeStatus m b) = true) \/
     exists x, chain t = chain x ++ rev D /\ chain node = chain x ++ A)) (getReorganizeNodes node) b.
Proof using Hroom.
  intros [Hca Hk] Hn Hpar. unfold leads, getReorganizeNodes. destruct (parent node) as [p|] eqn:Hp; [|done].
  assert (Hq : forall b', quiet b b' -> at_tip blocks t b0 b').
  { intros b' Hq. split; [by eapply chain_at_quiet|]. etrans; [exact Hk|by apply quiet_kept]. }
  destruct (KnownInvalid (NodeStatus p b)) eqn:Hinv.
  - split; [apply Hq, SetStatusFlags_quiet|]. left. split_and!; [done|done|]. exists p. split; [|done].
    rewrite (chain_child node p Hp), (chain_unfold p), !elem_of_app. left. right. by left.
  - destruct (fork_split t node b Hca Hn) as (x & D & A & Hf & Ht & Hc & _). cbv zeta. rewrite Hf.
    destruct (attachLoop node (Some x) b []) as [[|] l] eqn:Ha; pose proof (attachLoop_spec node x A b [] _ _ Hc Ha) as Hl; cbn in Hl.
    + split; [by split|]. right. exists x. rewrite (ca_view blocks t b Hca), tip_view, (detachLoop_spec t x D Ht), rev_involutive.
      rewrite app_nil_r in Hl. by rewrite Hl.
    + split; [apply Hq, markAll_quiet|]. by left.
Qed.

(** *** The two passes *)
Lemma detachCheck_still D : forall view, within still (detachCheck D view).
Proof using.
  induction D as [|n D IH]; intros view; cbn [detachCheck]; [apply within_ret, _|].
  apply within_bind; [apply _|apply fetchBlock_still|]. intros block. apply within_if; [apply within_throw, _|].
  apply within_bind; [apply _|apply within_gets, _|]. intros fetch.
  apply within_bind; [apply _|apply within_lift, _|]. intros view1.
  apply within_bind; [apply _|by intros b|]. intros stxos.
  apply within_bind; [apply _|apply within_gets, _|]. intros utxos.
  apply within_bind; [apply _|apply within_lift, _|]. intros view2.
  apply within_bind; [apply _|apply IH|]. intros [v rest]. apply within_ret, _.
Qed.

Lemma detachCheck_blocks D : forall view b v rest b', detachCheck D view b = (Ok (v, rest), b') -> Forall2 (fun n p => stores b n p.1) D rest.
Proof using.
  induction D as [|n D IH]; intros view b v rest b' Hrun; cbn [detachCheck] in Hrun; [by injection Hrun as <- <- <-|].
  apply stateful_bind_ok in Hrun as (block & b1 & [-> Hs]%fetchBlock_run & Hrun). destruct (negb _); [done|].
  apply stateful_bind_ok in Hrun as (fetch & b2 & [= <- <-] & Hrun).
  apply stateful_bind_ok in Hrun as (view1 & b3 & Hl & Hrun). injection Hl as _ <-.
  apply stateful_bind_ok in Hrun as (stxos & b4 & Hl & Hrun). injection Hl as _ <-.
  apply stateful_bind_ok in Hrun as (utxos & b5 & [= <- <-] & Hrun).
  apply stateful_bind_ok in Hrun as (view2 & b6 & Hl & Hrun). injection Hl as _ <-.
  apply stateful_bind_ok in Hrun as ([v' rest'] & b7 & Hrec & Hret). injection Hret as <- <- <-.
  constructor; [done|by eapply IH].
Qed.

Lemma attachCheck_quiet A : forall view, within quiet (attachCheck implementationLog2 config fuel sigCache A view).
Proof using.
  induction A as [|n A IH]; intros view; cbn [attachCheck]; [apply within_ret, _|].
  apply within_bind; [apply _|apply within_still, fetchBlock_still|]. intros block.
  apply within_bind; [apply _|apply within_gets, _|]. intros valid.
  apply within_bind; [apply _| |].
  - apply within_if.
    + apply within_bind; [apply _|apply within_gets, _|]. intros fetch. apply within_bind; [apply _|apply within_lift, _|]. intros view1.
      apply within_bind; [apply _|apply within_lift, _|]. intros [view2 st]. apply within_ret, _.
    + intros b. pose proof (within_still _ (checkConnectBlock_still implementationLog2 config fuel sigCache n block view) b) as Hq.
      destruct (ChainState.checkConnectBlock _ _ _ _ n block view b) as [[v|e| |] b1]; cbn in *; [|destruct (isRuleError e)|done|done].
      * etrans; [exact Hq|apply SetStatusFlags_quiet].
      * etrans; [exact Hq|]. etrans; [apply SetStatusFlags_quiet|apply markAll_quiet].
      * done.
  - intros view1. apply within_bind; [apply _|apply IH|]. intros [v rest]. apply within_ret, _.
Qed.

Lemma attachCheck_blocks A : forall view b v rest b', attachCheck implementationLog2 config fuel sigCache A view b = (Ok (v, rest), b') ->
  Forall2 (stores b) A rest.
Proof using.
  induction A as [|n A IH]; intros view b v rest b' Hrun; cbn [attachCheck] in Hrun; [by injection Hrun as <- <- <-|].
  apply stateful_bind_ok in Hrun as (block & b1 & [-> Hs]%fetchBlock_run & Hrun).
  apply stateful_bind_ok in Hrun as (valid & b2 & [= <- <-] & Hrun).
  apply stateful_bind_ok in Hrun as (view1 & b3 & Hst & Hrun).
  apply stateful_bind_ok in Hrun as ([v' rest'] & b7 & Hrec & Hret). injection Hret as <- <- <-.
  constructor; [done|]. eapply list.Forall2_impl; [by eapply IH|]. intros m bl. apply stores_kept.
  clear Hrec IH. destruct (KnownValid (NodeStatus n b)).
  - apply stateful_bind_ok in Hst as (fetch & b4 & [= <- <-] & Hst). apply stateful_bind_ok in Hst as (view2 & b5 & Hl & Hst). injection Hl as _ <-.
    apply stateful_bind_ok in Hst as ([view3 st] & b6 & Hl & Hst). injection Hl as _ <-. by injection Hst as _ <-.
  - pose proof (within_still _ (checkConnectBlock_still implementationLog2 config fuel sigCache n block view) b) as Hq.
    destruct (ChainState.checkConnectBlock _ _ _ _ n block view b) as [[v1|e| |] b1]; cbn in *; try done. injection Hst as _ <-.
    apply quiet_kept. etrans; [exact Hq|apply SetStatusFlags_quiet].
Qed.

(** *** Moving the tip over many blocks *)
Definition some_tip (b0 b : BlockChain) : Prop := exists t, at_tip blocks t b0 b.

Ltac lifted t b0 := apply leads_bind, (leads_quiet blocks t b0); [first [apply within_lift, _|apply within_gets, _]|done|intros ? ?; by exists t|].

Lemma detachAll_at D : forall t x bs view b0 b, at_tip blocks t b0 b -> chain t = chain x ++ rev D -> Forall2 (fun n p => stores b0 n p.1) D bs ->
  leads (some_tip b0) (fun _ b' => at_tip blocks x b0 b') (detachAll D bs view) b.
Proof using Hroom.
  induction D as [|n D IH]; intros t x bs view b0 b Hat Hc Hbs.
  - cbn in Hc. rewrite app_nil_r in Hc. apply chain_inj in Hc as ->. inversion Hbs; subst. exact Hat.
  - inversion Hbs as [|? [block stxos] ? bs' Hs Hbs']; subst. cbn [detachAll]. cbn in Hs, Hc.
    rewrite (assoc_L (++)), (chain_unfold t) in Hc. apply app_inj_2 in Hc as [Hc [= <-]]; [|done].
    assert (Hhd : Wire.Header block = Header t).
    { eapply (stores_header blocks b); [by eapply ca_index, Hat|by eapply ca_tip, Hat|by apply (at_stores blocks t b0 b)]. }
    lifted t b0. intros fetch b1 Hat1 _. lifted t b0. intros view1 b2 Hat2 _. lifted t b0. intros utxos b3 Hat3 _.
    lifted t b0. intros view2 b4 Hat4 _. apply leads_bind.
    eapply leads_mono; [by apply (disconnectBlock_at blocks Hroom t block view2 b0 b4)| |].
    + intros b5 [Hb5|(p & _ & Hb5)]; by eexists.
    + intros view3 b5 (p & Hp & Hat5). rewrite Hp in Hc. by apply (IH p).
Qed.

Lemma attachAll_at A : forall x node bs view b0 b, at_tip blocks x b0 b -> inIndex node b0 -> chain node = chain x ++ A -> Forall2 (stores b0) A bs ->
  leads (some_tip b0) (fun _ b' => at_tip blocks node b0 b') (attachAll config adjustedTime now A bs view) b.
Proof using Hroom.
  induction A as [|a A IH]; intros x node bs view b0 b Hat Hn Hc Hbs.
  - rewrite app_nil_r in Hc. apply chain_inj in Hc as ->. inversion Hbs; subst. exact Hat.
  - inversion Hbs as [|? block ? bs' Hs Hbs']; subst. cbn [attachAll]. pose proof (ca_index blocks x b (proj1 Hat)) as Hix.
    assert (Hnb : inIndex node b) by (by apply (at_in blocks x b0 b)). destruct (chain_next node x a A) as [Hpa Hca]; [by eapply in_wf|done|].
    assert (Hab : inIndex a b). { eapply chain_in; [done|exact Hnb|]. rewrite Hc. apply elem_of_app. right. by left. }
    assert (Hhd : Wire.Header block = Header a) by (eapply (stores_header blocks b); [done|done|by apply (at_stores blocks x b0 b)]).
    lifted x b0. intros fetch b1 Hat1 _. lifted x b0. intros view1 b2 Hat2 _. lifted x b0. intros [view2 stxos] b3 Hat3 _. apply leads_bind.
    eapply leads_mono; [apply (connectBlock_at blocks Hroom config adjustedTime now x a block (Some view2) _ b0 b3); [done|by apply (at_in blocks x b0 b)|by rewrite Hpa|done]| |].
    + intros b5 [Hb5|(_ & Hb5)]; by eexists.
    + intros view3 b5 (_ & Hat5). by apply (IH a).
Qed.

Lemma reorganizeChain_at D A t x node b0 b : at_tip blocks t b0 b -> inIndex node b0 -> chain t = chain x ++ rev D -> chain node = chain x ++ A ->
  leads (some_tip b0) (fun _ b' => at_tip blocks node b0 b') (reorganizeChain implementationLog2 config fuel sigCache adjustedTime now D A) b.
Proof using Hroom.
  intros Hat Hn Ht Hc.
  assert (Hsome : forall t' b', at_tip blocks t' b0 b' -> some_tip b0 b') by (intros t' b' Hb'; by exists t').
  assert (Hrun : leads (some_tip b0) (fun _ b' => at_tip blocks node b0 b')
    (best ← gets stateSnapshot;
      _ ← flush now UtxoCache.FlushRequired best;
      t ← getTip;
      if match D with n :: _ => negb (bool_decide (hash n = hash t)) | [] => false end then throw AssertError
      else
        forked ← lift (match A, list.last D with
                       | a :: _, Some d =>
                           match parent a, parent d with
                           | Some p, Some q => Ok (negb (bool_decide (hash p = hash q)))
                           | _, _ => Panic
                           end
                       | _, _ => Ok false
                       end);
        if forked : bool then throw AssertError
        else
          '(view, detached) ← detachCheck D (SetBestHash (hash t) NewUtxoViewpoint);
          '(_, attached) ← attachCheck implementationLog2 config fuel sigCache A view;
          t ← getTip;
          view ← detachAll D detached (SetBestHash (hash t) NewUtxoViewpoint);
          _ ← attachAll config adjustedTime now A attached view;
          best ← gets stateSnapshot;
          flush now UtxoCache.FlushRequired best) b).
  2: { unfold reorganizeChain. destruct D, A; try exact Hrun. cbn in Ht, Hc. rewrite app_nil_r in Ht, Hc.
       apply chain_inj in Ht as ->. apply chain_inj in Hc as ->. exact Hat. }
  lifted t b0. intros best b1 Hat1 _.
  apply leads_bind, (leads_quiet blocks t b0); [apply within_still, flush_still|done|intros ? ?; by exists t|]. intros [] b2 Hat2 _.
  apply leads_bind. unfold leads at 1. rewrite (getTip_at blocks t b0 b2 Hat2). destruct (match D with n :: _ => _ | [] => _ end); [by exists t|].
  lifted t b0. intros forked b3 Hat3 _. destruct forked; [by exists t|].
  apply leads_bind, (leads_quiet blocks t b0); [apply within_still, detachCheck_still|done|intros ? ?; by exists t|]. intros [view detached] b4 Hat4 Hd.
  apply leads_bind, (leads_quiet blocks t b0); [apply attachCheck_quiet|done|intros ? ?; by exists t|]. intros [view' attached] b5 Hat5 Ha.
  apply detachCheck_blocks in Hd. apply attachCheck_blocks in Ha.
  apply leads_bind. unfold leads at 1. rewrite (getTip_at blocks t b0 b5 Hat5). apply leads_bind.
  eapply leads_mono; [eapply (detachAll_at D t x); [done|done|]|done|].
  { eapply list.Forall2_impl; [exact Hd|]. intros n p. by apply (at_stores blocks t b0 b3). }
  intros view1 b6 Hat6. apply leads_bind.
  eapply leads_mono; [apply (attachAll_at A x node attached view1 b0 b6); [exact Hat6|exact Hn|exact Hc|]|done|].
  { eapply list.Forall2_impl; [exact Ha|]. intros n p. by apply (at_stores blocks t b0 b4). }
  intros view2 b7 Hat7. lifted node b0. intros best' b8 Hat8 _.
  apply (leads_quiet blocks node b0); [apply within_still, flush_still|done|intros ? ?; by exists node|done].
Qed.

(** *** The choice *)

(** What connectBestChain answers: the node is the new tip and has the work
    for it, or an ancestor is known to be invalid; otherwise the tip has as
    much work. *)
Definition decided (t node : blockNode) (b0 b : BlockChain) (main : bool) (b' : BlockChain) : Prop :=
  if main then at_tip blocks node b0 b' /\ workSum t <= workSum node \/
               at_tip blocks t b0 b' /\ exists m, m ∈ chain node /\ KnownInvalid (NodeStatus m b) = true
  else at_tip blocks t b0 b' /\ workSum node <= workSum t.

Lemma CalcWork_nonneg bits : 0 <= CalcWork bits.
Proof using.
  destruct (CalcWork_spec bits) as [H0 H1]. cbv zeta in H0, H1. destruct (Z.le_gt_cases (CompactToBig bits) 0) as [Hle|Hgt].
  - by rewrite H0.
  - destruct (H1 Hgt) as [_ H2]. assert (0 < 2 ^ 256) by done. nia.
Qed.

Lemma work_child node t : wf node -> parent node = Some t -> workSum t <= workSum node.
Proof using. intros (_ & _ & Hw)%wf_unfold Hp. rewrite Hp in Hw. destruct Hw as (_ & _ & _ & ->). pose proof (CalcWork_nonneg (bits node)). lia. Qed.

Lemma connectBestChain_at t node block flags b : chain_at blocks t b -> inIndex node b -> parent node <> None -> stores b node block ->
  leads (some_tip b) (decided t node b b) (connectBestChain implementationLog2 config fuel sigCache adjustedTime now node block flags) b.
Proof using Hroom.
  intros Hca Hn Hpar Hhd. assert (Hat : at_tip blocks t b b) by (by split). unfold connectBestChain.
  apply leads_bind. unfold leads at 1. rewrite (getTip_at blocks t b b Hat).
  destruct (bool_decide_reflect (PrevBlock (Wire.Header block) = hash t)) as [Hprev|Hprev].
  - lifted t b. intros valid b1 Hat1 _. cbv zeta.
    apply leads_bind, (leads_quiet blocks t b); [|done|intros ? ?; by exists t|].
    { apply within_if; [|apply within_ret, _]. intros b2.
      pose proof (within_still _ (checkConnectBlock_still implementationLog2 config fuel sigCache node block
        (SetBestHash (PrevBlock (Wire.Header block)) NewUtxoViewpoint)) b2) as Hq.
      destruct (ChainState.checkConnectBlock _ _ _ _ node block _ b2) as [[v|e| |] b3]; cbn in Hq; try done; [|destruct (isRuleError e); [|done]];
        (etrans; [exact Hq|]; etrans; [apply SetStatusFlags_quiet|apply flushToDB_quiet]). }
    intros [] b2 Hat2 _. apply leads_bind, (leads_quiet blocks t b); [apply within_still, connectToCache_still|done|intros ? ?; by exists t|].
    intros stxos b3 Hat3 _. apply leads_bind.
    pose proof (connectBlock_at blocks Hroom config adjustedTime now t node block None stxos b b3 Hat3 Hn Hpar Hhd) as Hcb. unfold leads in Hcb |- * at 1.
    assert (Herr : forall b', (at_tip blocks t b b' \/ parent node = Some t /\ at_tip blocks node b b') -> some_tip b b')
      by (intros b' [?|[_ ?]]; by eexists).
    destruct (connectBlock _ _ _ node block None stxos b3) as [[v|e| |] b4]; [|apply Herr in Hcb|by apply Herr..].
    2: { destruct Hcb as [t' [Hc' Hk']]. exists t'. assert (Hq : forall b5, quiet b4 b5 -> at_tip blocks t' b b5).
         { intros b5 Hq. split; [by eapply chain_at_quiet|]. etrans; [exact Hk'|by apply quiet_kept]. }
         apply Hq. etrans; [|apply flushToDB_quiet]. destruct (isRuleError e); [apply SetStatusFlags_quiet|done]. }
    destruct Hcb as [Hp Hat4]. apply leads_bind, (leads_quiet blocks node b); [|done|intros ? ?; by exists node|].
    { intros b5. destruct (_ || _); [|done]. etrans; [apply SetStatusFlags_quiet|apply flushToDB_quiet]. }
    intros [] b5 Hat5 _. left. split; [done|]. apply work_child; [|done]. by eapply in_wf; [eapply ca_index|].
  - destruct (Z.leb_spec (workSum node) (workSum t)) as [Hle|Hgt].
    + lifted t b. intros fork b1 Hat1 _. destruct fork; [by split|by exists t].
    + apply leads_bind. eapply leads_mono; [by apply (getReorganizeNodes_at t node b b)|intros b' Hb'; by exists t|].
      intros [D A] b1 [Hat1 Hda].
      assert (Hq : forall t' b2, at_tip blocks t' b b2 -> at_tip blocks t' b (flushToDB b2).2).
      { intros t' b2 [H1 H2]. pose proof (flushToDB_quiet b2) as Hq. split; [by eapply chain_at_quiet|]. etrans; [exact H2|by apply quiet_kept]. }
      destruct Hda as [(-> & -> & Hinv)|(x & Ht & Hc)].
      * right. split; [by apply Hq|done].
      * pose proof (reorganizeChain_at D A t x node b b1 Hat1 Hn Ht Hc) as Hr. unfold leads in *.
        destruct (reorganizeChain _ _ _ _ _ _ D A b1) as [[[]|e| |] b2]; [| |done|done].
        -- left. split; [by apply Hq|lia].
        -- destruct Hr as [t' Hr]. exists t'. by apply Hq.
Qed.

(** A call that returns has written every status. *)
Definition settled {A} (r : outcome RuleError A) (b : BlockChain) : Prop :=
  match r with Ok _ | Err _ => dirty b = ∅ | Panic | Hang => True end.

Lemma empty_sub (d : gset (list Z)) : d ⊆ ∅ -> d = ∅.
Proof using. clear. set_solver. Qed.

Lemma connectBestChain_settled node block flags b : dirty b = ∅ ->
  let '(r, b') := connectBestChain implementationLog2 config fuel sigCache adjustedTime now node block flags b in settled r b'.
Proof using.
  intros Hd. unfold connectBestChain, mbind, stateful_bind. destruct (getTip b) as [[t|e| |] b0] eqn:Ht;
    (unfold getTip in Ht; destruct (tip (bestChain b)); try done; injection Ht as -> ->).
  destruct (bool_decide _).
  - assert (Hall : forall (m : stateful RuleError BlockChain bool) b0, within tidy m -> dirty b0 = ∅ -> let '(r, b') := m b0 in settled r b').
    { intros m b1 Hm Hb1. specialize (Hm b1). unfold tidy in Hm. destruct (m b1) as [[|e| |] b']; cbn in *; rewrite Hb1 in Hm; try done; by apply empty_sub. }
    apply (Hall (fun b => _) b0); [|done]. apply within_bind; [apply _|apply within_gets, _|]. intros valid. cbv zeta.
    apply within_bind; [apply _| |].
    { apply within_if; [|apply within_ret, _]. intros b2.
      pose proof (still_tidy _ (checkConnectBlock_still implementationLog2 config fuel sigCache node block
        (SetBestHash (PrevBlock (Wire.Header block)) NewUtxoViewpoint)) b2) as Hq. unfold tidy in *.
      destruct (ChainState.checkConnectBlock _ _ _ _ node block _ b2) as [[v|e| |] b3]; cbn [snd] in Hq;
        [apply empty_subseteq|destruct (isRuleError e); [apply empty_subseteq|exact Hq]|exact Hq|exact Hq]. }
    intros []. apply within_bind; [apply _|apply still_tidy, connectToCache_still|]. intros stxos. apply within_bind; [apply _| |].
    { intros b2. pose proof (connectBlock_tidy config adjustedTime now node block None stxos b2) as Hq. unfold tidy in *.
      destruct (connectBlock _ _ _ node block None stxos b2) as [[v|e| |] b3]; cbn [snd] in Hq;
        [exact Hq|apply empty_subseteq|exact Hq|exact Hq]. }
    intros []. apply within_bind; [apply _| |intros []; apply within_ret, _].
    intros b2. unfold tidy. destruct (_ || _); [apply empty_subseteq|done].
  - destruct (workSum node <=? workSum t).
    + unfold gets. by destruct (findFork _ _).
    + destruct (getReorganizeNodes node b0) as [[[D A]|e| |] b1] eqn:Hg; try done.
      * destruct (reorganizeChain _ _ _ _ _ _ D A b1) as [[[]|e| |] b2]; done.
      * exfalso. unfold getReorganizeNodes in Hg. destruct (parent node); [|done]. destruct (KnownInvalid _); [done|].
        cbv zeta in Hg. by destruct (attachLoop _ _ _ _) as [[|] ?].
Qed.

(** ** Accepting a block *)

(** The store and the index with the node of a new block. *)
Definition accepted (block : MsgBlock) (prev : blockNode) (b : BlockChain) : BlockChain :=
  AddNode (newBlockNode (Wire.Header block) (Some prev)) statusDataStored (dbStoreBlock block b).2.

Lemma chain_at_add t block prev b : chain_at blocks t b -> block ∈ blocks -> header_ok (Wire.Header block) ->
  bi b !! BlockHash (Wire.Header block) = None -> bi b !! PrevBlock (Wire.Header block) = Some prev ->
  chain_at blocks t (accepted block prev b).
Proof using Hroom.
  intros [Hix Hin Hroot Hv Hsn Hbest Hhs Hhh Hj [Hr Hro]] Hbl Hok Hnew Hprev. pose proof Hix as [Hnode Hpar Hblk Hst].
  destruct (Hnode _ _ Hprev) as [Hph Hpb]. assert (Hpin : inIndex prev b) by (unfold inIndex; by rewrite Hph).
  pose proof (height_room blocks Hroom prev b Hix Hpin) as Hrm. set (h := BlockHash (Wire.Header block)) in *.
  set (node := newBlockNode (Wire.Header block) (Some prev)).
  assert (Hnb : built node) by (apply built_child; [done|done|lia|done]).
  assert (Hnh : Header node = Wire.Header block) by (apply newBlockNode_Header; cbn; by rewrite Hph).
  assert (Hnone : d_blocks (db b) !! h = None).
  { destruct (d_blocks (db b) !! h) eqn:Hd; [|done]. destruct (Hst h) as [n Hn]; [by rewrite Hd|]. congruence. }
  assert (Hdb : db (accepted block prev b) = mkChainDb (<[h := block]> (d_blocks (db b))) (d_utxo (db b)) (d_spend (db b)) (d_heights (db b)) (d_best (db b)) (d_rows (db b))).
  { unfold accepted, dbStoreBlock, dbUpdate. fold h. by rewrite Hnone. }
  assert (Hfields : bi (accepted block prev b) = <[h := node]> (bi b) /\ bestChain (accepted block prev b) = bestChain b /\
    stateSnapshot (accepted block prev b) = stateSnapshot b /\ dirty (accepted block prev b) = {[h]} ∪ dirty b /\
    statuses (accepted block prev b) = <[h := statusDataStored]> (statuses b)).
  { unfold accepted, dbStoreBlock, dbUpdate. fold h. by rewrite Hnone. }
  destruct Hfields as (Hbi & Hbc & Hss & Hdi & Hstat). set (b' := accepted block prev b) in *.
  assert (Hold : forall n, inIndex n b -> inIndex n b' /\ hash n <> h).
  { intros n Hn. unfold inIndex in *. assert (hash n <> h) by congruence. split; [|done]. by rewrite Hbi, lookup_insert_ne. }
  assert (Hcase : forall n, inIndex n b' -> n = node \/ inIndex n b).
  { intros n. unfold inIndex. rewrite Hbi. intros [[_ <-]|[_ Hn]]%lookup_insert_Some; [by left|by right]. }
  assert (Hni : node ∉ chain t).
  { intros Hmem. pose proof (chain_in blocks t node b Hix Hin Hmem) as Hx. unfold inIndex in Hx. change (hash node) with h in Hx. congruence. }
  split; rewrite ?Hbc, ?Hss, ?Hdb; cbn [d_best d_heights d_spend]; try done.
  - split; rewrite ?Hdb; cbn [d_blocks].
    + rewrite Hbi. intros k n [[<- <-]|[_ Hn]]%lookup_insert_Some; [done|by apply Hnode].
    + intros n p [->|Hn]%Hcase Hp; [injection Hp as <-; by apply Hold|]. apply Hold. by eapply Hpar.
    + intros n [->|Hn]%Hcase; [exists block; change (hash node) with h; by rewrite lookup_insert_eq|].
      destruct (Hblk n Hn) as (bl & H1 & H2). exists bl. rewrite lookup_insert_ne; [done|]. intros Heq. by apply (Hold n Hn).
    + intros k. rewrite Hbi. destruct (decide (k = h)) as [->|Hne]; [by rewrite !lookup_insert_eq|]. rewrite !lookup_insert_ne by done. apply Hst.
  - by apply Hold.
  - intros n [->|Hn]%Hcase Hp; [done|by apply Hroot].
  - destruct Hsn as (bl & total & mt & Hs & Hm & ->). exists bl, total, mt. split; [|done]. unfold stores. rewrite Hdb. cbn [d_blocks].
    rewrite lookup_insert_ne; [done|]. intros Heq. by apply (Hold t Hin).
  - destruct Hbest as (n & Hn & Hbest). exists n. split; [by apply Hold|done].
  - split; rewrite ?Hdb; cbn [d_rows].
    2: { intros key Hk. destruct (Hro key Hk) as (k & n & Hn & Hkey). exists k, n. split; [|done]. rewrite Hbi. rewrite lookup_insert_ne; [done|]. congruence. }
    intros n Hn Hd. rewrite Hdi in Hd. apply not_elem_of_union in Hd as [Hne Hd]. rewrite not_elem_of_singleton in Hne.
    apply Hcase in Hn as [->|Hn]; [done|]. unfold rowOf, NodeStatus. rewrite Hstat, lookup_insert_ne by done. by apply Hr.
Qed.

Lemma notify_still n : within (E:=RuleError) still (modify (notify n)).
Proof using. by intros b. Qed.

Lemma maybeAcceptBlock_at t block flags b : chain_at blocks t b -> block ∈ blocks -> header_ok (Wire.Header block) ->
  bi b !! BlockHash (Wire.Header block) = None ->
  let '(r, b') := maybeAcceptBlock implementationLog2 config fuel sigCache adjustedTime now flags block b in
  (exists t', chain_at blocks t' b' /\ forall main, r = Ok main -> workSum t <= workSum t') /\
  (forall h, h <> BlockHash (Wire.Header block) -> bi b' !! h = bi b !! h) /\ (dirty b = ∅ -> settled r b').
Proof using Hroom.
  intros Hca Hin Hok Hnew. unfold maybeAcceptBlock, LookupNode. unfold mbind at 1, stateful_bind at 1, gets at 1.
  assert (Hkeep : forall (e : outcome RuleError bool) b', still b b' -> (forall main, e = Ok main -> False) ->
    (exists t', chain_at blocks t' b' /\ forall main, e = Ok main -> workSum t <= workSum t') /\
    (forall h, h <> BlockHash (Wire.Header block) -> bi b' !! h = bi b !! h) /\ (dirty b = ∅ -> settled e b')).
  { intros e b' Hs He. pose proof Hs as [Hc Hm]. injection Hc as Hbi _ _ _ _ _ _. injection Hm as _ Hd _. split_and!.
    - exists t. split; [by eapply chain_at_quiet, still_quiet|]. intros main Hmain. by destruct (He main).
    - by rewrite Hbi.
    - intros Hb. unfold settled. rewrite Hd. by destruct e. }
  destruct (bi b !! PrevBlock (Wire.Header block)) as [prev|] eqn:Hprev; [|by apply Hkeep].
  unfold mbind at 1, stateful_bind at 1, gets at 1. destruct (KnownInvalid (NodeStatus prev b)); [by apply Hkeep|].
  unfold mbind at 1, stateful_bind at 1. destruct (checkBlockContext _ _ _ _ _ _ _ _) as [[s d]|e| |]; [|by apply Hkeep..].
  match goal with |- context [setCheckpoint s ?x] => set (b1 := setCheckpoint s x) end.
  assert (Hca1 : chain_at blocks t b1) by (eapply chain_at_quiet; [exact Hca|by apply still_quiet]).
  assert (Hstore : dbStoreBlock block b1 = (Ok (), (dbStoreBlock block b1).2)) by done.
  rewrite (stateful_step _ _ _ _ _ Hstore). unfold mbind at 1, stateful_bind at 1, modify at 1.
  fold (accepted block prev b1). pose proof (chain_at_add t block prev b1 Hca1 Hin Hok Hnew Hprev) as Hca2.
  set (b2 := accepted block prev b1) in *. assert (Hb2 : bi b2 = <[BlockHash (Wire.Header block) := newBlockNode (Wire.Header block) (Some prev)]> (bi b)) by done.
  destruct (flushToDB_run b2) as (b3 & Hrun & Hq & Hd3 & _). rewrite (stateful_step _ _ _ _ _ Hrun). set (node := newBlockNode (Wire.Header block) (Some prev)) in *.
  pose proof (chain_at_quiet blocks t b2 b3 Hca2 Hq) as Hca3. destruct (quiet_kept b2 b3 Hq) as [Hb3 _].
  assert (Hn3 : inIndex node b3) by (unfold inIndex; rewrite Hb3, Hb2; apply lookup_insert_eq).
  assert (Hs3 : stores b3 node block).
  { apply (stores_kept b2); [by apply quiet_kept|]. unfold stores, b2, accepted, dbStoreBlock, dbUpdate. change (hash node) with (BlockHash (Wire.Header block)).
    cbn [db setDb AddNode setStatuses setIndex snd]. destruct (d_blocks (db b1) !! BlockHash (Wire.Header block)) as [bl|] eqn:Hbl; [|apply lookup_insert_eq].
    exfalso. destruct (ix_store blocks b1 (ca_index blocks t b1 Hca1) (BlockHash (Wire.Header block))) as [n Hn]; [by rewrite Hbl|]. cbn in Hn. congruence. }
  pose proof (connectBestChain_at t node block flags b3 Hca3 Hn3 ltac:(done) Hs3) as Hl.
  pose proof (connectBestChain_settled node block flags b3 Hd3) as Hset. unfold leads in Hl. unfold mbind, stateful_bind, modify, mret, stateful_ret.
  assert (Hbi : forall b', kept b3 b' -> forall h, h <> BlockHash (Wire.Header block) -> bi b' !! h = bi b !! h).
  { intros b' [Hk _] h Hne. rewrite Hk, Hb3, Hb2. by rewrite lookup_insert_ne. }
  destruct (connectBestChain _ _ _ _ _ _ node block flags b3) as [[main|e| |] b4].
  - assert (Ht : exists t', at_tip blocks t' b3 b4 /\ workSum t <= workSum t').
    { unfold decided in Hl. destruct main; [destruct Hl as [[H1 H2]|[H1 _]]|destruct Hl as [H1 _]]; eexists; (split; [exact H1|lia]). }
    destruct Ht as (t' & [Ht' Hk] & Hw). split_and!; [|exact (Hbi b4 Hk)|done]. exists t'. split; [|done]. eapply chain_at_quiet; [exact Ht'|by apply still_quiet].
  - destruct Hl as (t' & Ht' & Hk). split_and!; [by exists t'|by apply Hbi|done].
  - destruct Hl as (t' & Ht' & Hk). split_and!; [by exists t'|by apply Hbi|done].
  - destruct Hl as (t' & Ht' & Hk). split_and!; [by exists t'|by apply Hbi|done].
Qed.

End Reorg.

(** ** Processing blocks *)
Section Process.
Context {C : Crypto} {L : PubKeyLib} (implementationLog2 : Z -> Z) (config : chainConfig) (fuel : nat) (sigCache : option SigCache).
(** The blocks that ever come: fewer than there are heights, with times that
    fit their field, and no two with the same hash and different parents. *)
Context (blocks : list MsgBlock) (Hroom : Zlen blocks < 2 ^ 31 - 2).
Context (Htimes : forall block, block ∈ blocks -> header_ok (Wire.Header block)).
Context (Hinj : forall a b, a ∈ blocks -> b ∈ blocks -> BlockHash (Wire.Header a) = BlockHash (Wire.Header b) ->
  PrevBlock (Wire.Header a) = PrevBlock (Wire.Header b)).

Abbreviation known := (fun block => block ∈ blocks).
(** A node that stays in the index: the genesis node. *)
Context (g : blockNode).

(** No orphan is in the index. *)
Definition apart (p : orphanPool) (b : BlockChain) : Prop := forall h, is_Some (orphans p !! h) -> bi b !! h = None.

(** The state after a call that returned [r]: the chain has a tip with at
    least the work [w] when the call succeeded. *)
Record sound {A} (w : Z) (r : outcome RuleError A) (p : orphanPool) (b : BlockChain) : Prop := {
  sd_pool : bounded known p;
  sd_apart : apart p b;
  sd_chain : exists t, chain_at blocks t b /\ forall a, r = Ok a -> w <= workSum t;
  sd_settled : settled r b;
  sd_genesis : inIndex g b;
}.

Lemma sound_result {A B} w (r : outcome RuleError A) (f : A -> outcome RuleError B) p b : (forall a, exists a', f a = Ok a') ->
  sound w r p b <-> sound w (r ≫= f) p b.
Proof using.
  intros Hf. assert (Hok : (exists a, r = Ok a) <-> exists a, r ≫= f = Ok a).
  { destruct r as [a|e| |]; cbn; [|split; intros [? ?]; done..]. split; intros _; [apply Hf|by exists a]. }
  assert (Hset : settled r b <-> settled (r ≫= f) b) by (destruct r as [a|e| |]; cbn; [destruct (Hf a) as [a' ->]|..]; done).
  split; intros [H1 H2 (t & Ht & Hw) H4 H5]; (split; [done|done| |by apply Hset|done]); exists t; split; try done; intros a Ha;
    (destruct Hok as [Ho1 Ho2]; first [destruct (Ho2 (ex_intro _ a Ha)) as [a' Ha']|destruct (Ho1 (ex_intro _ a Ha)) as [a' Ha']]; by eapply Hw).
Qed.

Lemma blockExists_index t b h : chain_at blocks t b -> blockExists h b = Ok (bool_decide (is_Some (bi b !! h))).
Proof using.
  intros Hca. unfold blockExists, HaveBlock. case_bool_decide as Hh; [done|].
  destruct (d_blocks (db b) !! h) as [bl|] eqn:Hd; [|done]. destruct Hh. apply (ix_store blocks b (ca_index blocks t b Hca)). by rewrite Hd.
Qed.

Section Call.
Context (adjustedTime now : Z).
Abbreviation maybeAccept := (maybeAcceptBlock implementationLog2 config fuel sigCache adjustedTime now).

Lemma maybeAccept_sound w t p b block flags : chain_at blocks t b -> w <= workSum t -> bounded known p -> apart p b -> dirty b = ∅ -> inIndex g b ->
  block ∈ blocks -> bi b !! BlockHash (Wire.Header block) = None -> orphans p !! BlockHash (Wire.Header block) = None ->
  let '(r, b') := maybeAccept flags block b in sound w r p b'.
Proof using Hroom Htimes.
  intros Hca Hw Hp Hap Hd Hg Hin Hnew Hno. pose proof (maybeAcceptBlock_at implementationLog2 blocks Hroom config fuel sigCache adjustedTime now t block flags b Hca Hin (Htimes block Hin) Hnew) as H.
  destruct (maybeAccept flags block b) as [r b']. destruct H as ((t' & Ht' & Hwk) & Hbi & Hset). split; [done| |exists t'|by apply Hset|unfold inIndex in *; rewrite Hbi; [done|congruence]].
  - intros h Hh. rewrite Hbi; [by apply Hap|]. intros ->. rewrite Hno in Hh. by destruct Hh.
  - split; [done|]. intros main Hr. specialize (Hwk main Hr). lia.
Qed.

Lemma accept_orphan w flags p b o : sound w (Ok ()) p b -> pool_ok known p -> held p o ->
  let '(r, b') := maybeAccept flags (o_block o) b in sound w (r ≫= fun _ => Ok ()) (removeOrphanBlock o p) b'.
Proof using Hroom Htimes Hinj.
  intros [Hp Hap (t & Ht & Hw) Hset Hg] Hok Ho. assert (Hk : o_block o ∈ blocks) by (by apply (held_known known p)).
  assert (Hnew : bi b !! BlockHash (Wire.Header (o_block o)) = None) by (apply Hap; unfold held in Ho; change (BlockHash _) with (hashOf o); by rewrite Ho).
  pose proof (maybeAccept_sound w t (removeOrphanBlock o p) b (o_block o) flags Ht (Hw () eq_refl)) as H.
  destruct (maybeAccept flags (o_block o) b) as [r b']. apply (sound_result w r (fun _ => Ok ())); [by intros; eexists|]. apply H; [|..]; try done.
  - by apply (remove_bounded known Hinj).
  - intros h Hh. apply Hap. rewrite remove_orphans in Hh. destruct Hh as [o' [_ Ho']%lookup_delete_Some]. by rewrite Ho'.
  - rewrite remove_orphans. apply lookup_delete_eq.
Qed.

Lemma ProcessBlock_sound t p b clock order block flags : chain_at blocks t b -> bounded known p -> apart p b -> dirty b = ∅ -> inIndex g b -> block ∈ blocks ->
  order_of p (order p) ->
  let '(r, (p', b')) := ProcessBlock implementationLog2 config fuel sigCache adjustedTime now clock order block flags (p, b) in sound (workSum t) r p' b'.
Proof using Hroom Htimes Hinj.
  intros Hca Hp Hap Hd Hg Hin Hord. unfold ProcessBlock. unfold mbind at 1, stateful_bind at 1. rewrite (blockExists_index t b) by done.
  assert (Hsame : forall (r : outcome RuleError (bool * bool)), sound (workSum t) r p b).
  { intros r. split; [done|done| |by destruct r|done]. exists t. split; [done|]. intros; lia. }
  case_bool_decide as Hnew; [apply Hsame|]. apply eq_None_not_Some in Hnew. unfold mbind at 1, stateful_bind at 1, gets at 1.
  destruct (IsKnownOrphan (BlockHash (Wire.Header block)) p) eqn:Hor; [apply Hsame|].
  unfold IsKnownOrphan in Hor. apply bool_decide_eq_false in Hor. apply eq_None_not_Some in Hor.
  unfold mbind at 1, stateful_bind at 1, lift at 1. destruct (checkBlockSanity _ _ _ _) as [[]|e| |]; [|apply Hsame..].
  unfold mbind at 1, stateful_bind at 1. destruct (findPreviousCheckpoint _ _ _ _) as [[node s]|e| |]; [|apply Hsame..].
  set (b1 := setCheckpoint s b). assert (Hst : still b b1) by done.
  assert (Hca1 : chain_at blocks t b1) by (by eapply chain_at_quiet, still_quiet).
  assert (Hsame1 : forall (r : outcome RuleError (bool * bool)), sound (workSum t) r p b1).
  { intros r. split; [done|done| |by destruct r|done]. exists t. split; [done|]. intros; lia. }
  unfold mbind at 1, stateful_bind at 1, lift at 1. destruct (match node with Some n => checkAgainstCheckpoint _ _ _ n | None => Ok () end) as [[]|e| |]; [|apply Hsame1..].
  unfold mbind at 1, stateful_bind at 1. rewrite (blockExists_index t b1) by done. case_bool_decide as Hprev; cbn [negb].
  - unfold mbind at 1, stateful_bind at 1.
    pose proof (maybeAccept_sound (workSum t) t p b1 block flags Hca1 ltac:(lia) Hp Hap Hd Hg Hin Hnew Hor) as H1.
    destruct (maybeAccept flags block b1) as [[main|e| |] b2];
      [|by apply (sound_result (workSum t) _ (fun _ => Ok (false, false))) in H1; [|by intros; eexists]..].
    assert (H2 : sound (workSum t) (Ok ()) p b2) by (by apply (sound_result (workSum t) (Ok main) (fun _ => Ok ())) in H1; [|by intros; eexists]).
    pose proof (processOrphans_keeps known Hinj (maybeAccept flags) (sound (workSum t)) (fun p s o => accept_orphan (workSum t) flags p s o)
      (fun p s H => ltac:(destruct H as [? ? (t' & Ht' & _) ? ?]; split; [done|done|exists t'; split; done|done|done])) (BlockHash (Wire.Header block)) p b2 H2 (bd_ok known p Hp)) as H3.
    unfold mbind, stateful_bind. destruct (processOrphans _ _ (p, b2)) as [[[]|e| |] [p' b']];
      [|by apply (sound_result (workSum t) _ (fun _ => Ok (false, false))) in H3; [|by intros; eexists]..].
    destruct H3 as [H4 H5 (t' & Ht' & Hw) H6 H7]. split; [done|done| |done|done]. exists t'. split; [done|]. intros _ _. by apply (Hw ()).
  - destruct (add_bounded known Hinj clock (order p) block p Hp Hin Hor Hord) as (p' & Hadd & Hp'). rewrite Hadd.
    split; [done| |exists t; split; [done|intros; lia]|done|done].
    intros h Hh. destruct (decide (h = BlockHash (Wire.Header block))) as [->|Hne]; [done|]. apply Hap. by eapply (add_from clock (order p) block p p').
Qed.

End Call.
End Process.
End ChainBest.
