(* ===== verification/ChainStart.v ===== *)
(** * Starting the chain

    Models createChainState and initChainState of
    coin/OrcaNet/blockchain/chainio.go, which make the state of a new chain or
    load it from the database, and InitConsistentState of utxocache.go, which
    replays the blocks that the utxo set of the database misses.  A database
    has either no best state, and then nothing of the chain, or the block
    index of the current version: the migration of older ones is left out.

    The theorems: what is loaded is what was there when the program stopped,
    and the invariant of ChainInv.v holds in every state that starting,
    processing blocks and starting again can reach. *)

From stdpp Require Import sorting.
From S2P Require Import Prelude Compress Wire SigHash SigCheck Engine Merkle Difficulty Chain ChainView Utxo Chainio UtxoCache TxRules ScriptVal Deployments BlockRules ConnectBlock Orphans ChainState ChainInv ChainBest.

Module ChainStart.
Import Compress Wire SigHash SigCheck Engine Merkle Difficulty Chain ChainView Utxo TxRules ScriptVal Deployments BlockRules ConnectBlock Orphans ChainState ChainInv ChainBest.

(** ** Operations *)

(** The order in which a cursor walks over a bucket. *)
Definition keyOrder (x y : list Z * list Z) : Prop := Chainio.lexle x.1 y.1 = true.
#[export] Instance keyOrder_dec : RelDecision keyOrder.
Proof. intros x y. unfold keyOrder. apply _. Defined.
Definition cursor (bucket : Chainio.Bucket) : list (list Z * list Z) := merge_sort keyOrder (map_to_list bucket).

Section Start.
Context {C : Crypto} {L : PubKeyLib} (implementationLog2 : Z -> Z).
Context (config : chainConfig) (GenesisBlock : MsgBlock).

(** blockIndex.addNode: the node does not become dirty. *)
Definition addNode (node : blockNode) (status : Z) (b : BlockChain) : BlockChain :=
  setStatuses (<[hash node := status]> (statuses b)) (dirty b) (setIndex (<[hash node := node]> (bi b)) b).

Definition setBestTip (node : blockNode) : M unit := fun b =>
  match setTip (Some node) (bestChain b) with
  | Ok c => (Ok (), setBest c (stateSnapshot b) b)
  | Err e => (Err e, b)
  | Panic => (Panic, b)
  | Hang => (Hang, b)
  end.

Definition createChainState : M unit :=
  let node := newBlockNode (Wire.Header GenesisBlock) None in
  let numTxns := Zlen (Transactions GenesisBlock) in
  let state := stateOf node GenesisBlock numTxns (timestamp node) in
  _ ← setBestTip node;
  _ ← modify (addNode node (Z.lor statusDataStored statusValid));
  _ ← modify (fun b => setBest (bestChain b) state b);
  b ← gets (fun b => b);
  dbUpdate (fun d => Ok (mkChainDb (<[BlockHash (Wire.Header GenesisBlock) := GenesisBlock]> (d_blocks d)) (d_utxo d) (d_spend d)
    (Chainio.dbPutBlockIndex (hash node) (height node) (d_heights d)) (dbPutBestState state (workSum node))
    (dbStoreBlockNode b (hash node) (d_rows d)))).

(** The loop over the rows of the block index. *)
Fixpoint loadRows (rows : list (list Z * list Z)) (lastNode : option blockNode) : M unit :=
  match rows with
  | [] => mret ()
  | (_, row) :: rows =>
      '(header, status) ← lift (dbErr (Chainio.deserializeBlockRow row));
      parent ← (match lastNode with
                | None => if negb (bool_decide (BlockHash header = GenesisHash config)) then throw AssertError else mret None
                | Some last =>
                    if bool_decide (PrevBlock header = hash last) then mret (Some last)
                    else
                      p ← gets (fun b => LookupNode (bi b) (PrevBlock header));
                      match p with Some p => mret (Some p) | None => throw AssertError end
                end) : M (option blockNode);
      let node := newBlockNode header parent in
      _ ← modify (addNode node status);
      loadRows rows (Some node)
  end.

Fixpoint markValid (iterNode : blockNode) (b : BlockChain) : BlockChain :=
  match iterNode with
  | mkNode parent _ _ _ _ _ _ _ _ _ =>
      let b := if negb (KnownValid (NodeStatus iterNode b)) then SetStatusFlags iterNode statusValid b else b in
      match parent with Some p => markValid p b | None => b end
  end.

Definition initChainState : M unit :=
  serializedData ← gets (fun b => d_best (db b));
  if bool_decide (serializedData = []) then createChainState
  else
    state ← lift (dbErr (Chainio.deserializeBestChainState serializedData));
    rows ← gets (fun b => cursor (d_rows (db b)));
    _ ← loadRows rows None;
    tip ← gets (fun b => LookupNode (bi b) (Chainio.bs_hash state));
    match tip with
    | None => throw AssertError
    | Some tip =>
        _ ← setBestTip tip;
        block ← dbFetchBlockByNode tip;
        _ ← modify (markValid tip);
        medianTime ← lift (CalcPastMedianTime tip);
        _ ← modify (fun b => setBest (bestChain b) (stateOf tip block (Chainio.bs_totalTxns state) medianTime) b);
        flushToDB
    end.

(** *** Catching up with the chain *)

(** The blocks after the last flush, in the order of the chain. *)
Fixpoint replayNodes (n : blockNode) (fork : blockNode) (acc : list blockNode) : outcome RuleError (list blockNode) :=
  match n with
  | mkNode parent _ _ _ _ _ _ _ _ _ =>
      if bool_decide (n = fork) then Ok acc
      else match parent with Some p => replayNodes p fork (n :: acc) | None => Panic end
  end.

Definition setLastFlush (h : list Z) (time : Z) (b : BlockChain) : BlockChain :=
  let s := cache b in
  setCache (UtxoCache.mkCache (UtxoCache.cachedEntries s) (UtxoCache.totalEntryMemory s) (UtxoCache.c_maxTotalMemoryUsage s) h time) b.

(** [interrupted] says of each node whether the program was asked to stop
    after it, which is an error of its own, here one of the database; [clock]
    is what time.Now returns in each round. *)
Fixpoint replayLoop (interrupted : blockNode -> bool) (clock : nat -> Z) (round : nat) (attachNodes : list blockNode) : M unit :=
  match attachNodes with
  | [] => mret ()
  | n :: attachNodes =>
      block ← dbFetchBlockByNode n;
      _ ← connectToCache implementationLog2 (Transactions block) (height n) [];
      _ ← flush (clock round) UtxoCache.FlushIfNeeded (mkBestState (hash n) (height n) 0 0 0 0 0 0);
      if interrupted n then throw DatabaseError else replayLoop interrupted clock (S round) attachNodes
  end.

Definition InitConsistentState (interrupted : blockNode -> bool) (clock : nat -> Z) (tip : blockNode) : M unit :=
  statusBytes ← gets (fun b => UtxoCache.consistency (d_utxo (db b)));
  match statusBytes with
  | None =>
      _ ← modify (fun b => setDb (mkChainDb (d_blocks (db b)) (UtxoCache.mkDb (UtxoCache.utxoSet (d_utxo (db b))) (Some (hash tip)))
                                   (d_spend (db b)) (d_heights (db b)) (d_best (db b)) (d_rows (db b))) b);
      modify (fun b => setLastFlush (hash tip) (UtxoCache.lastFlushTime (cache b)) b)
  | Some statusHash =>
      if bool_decide (statusHash = hash tip) then modify (setLastFlush (hash tip) (clock 0%nat))
      else
        lastFlushNode ← gets (fun b => LookupNode (bi b) statusHash);
        lastFlushNode ← lift (match lastFlushNode with Some n => Ok n | None => Panic end);
        fork ← gets (fun b => findFork (Some lastFlushNode) (bestChain b));
        match fork with
        | None => throw AssertError
        | Some fork =>
            attachNodes ← lift (replayNodes tip fork []);
            _ ← replayLoop interrupted clock 0 attachNodes;
            modify (setLastFlush (hash tip) (clock (length attachNodes)))
        end
  end.

End Start.

(** ** The order of the rows *)
#[export] Instance keyOrder_trans : Transitive keyOrder.
Proof.
  intros [x ?] [y ?] [z ?]. unfold keyOrder. cbn. revert y z. induction x as [|a x IH]; intros [|b y] [|c z]; cbn; try done.
  destruct (Z.ltb_spec a b), (Z.ltb_spec b c), (Z.ltb_spec a c), (Z.eqb_spec a b), (Z.eqb_spec b c), (Z.eqb_spec a c); cbn; try done; try lia. apply IH.
Qed.
#[export] Instance keyOrder_total : Total keyOrder.
Proof.
  intros [x ?] [y ?]. unfold keyOrder. cbn. revert y. induction x as [|a x IH]; intros [|b y]; cbn; [by left|by left|by right|].
  destruct (Z.ltb_spec a b), (Z.ltb_spec b a), (Z.eqb_spec a b), (Z.eqb_spec b a); cbn; try lia; auto.
Qed.

Lemma be_val_step x l : be_val (x :: l) = x * 256 ^ Zlen l + be_val l.
Proof.
  unfold be_val. cbn [rev]. rewrite le_val_app. cbn [le_val]. unfold Zlen. rewrite length_rev. lia.
Qed.

Lemma be_val_range l : bytes_ok l -> 0 <= be_val l < 256 ^ Zlen l.
Proof.
  intros Hl. unfold be_val, Zlen. rewrite <- (length_rev l). apply le_val_range. by apply Forall_rev.
Qed.

Lemma lexle_prefix a : forall b x y, length a = length b -> bytes_ok a -> bytes_ok b -> Chainio.lexle (a ++ x) (b ++ y) = true -> be_val a <= be_val b.
Proof.
  induction a as [|c a IH]; intros [|d b] x y Hlen Ha Hb; try done. cbn [app Chainio.lexle]. rewrite !be_val_step.
  apply list.Forall_cons in Ha as [Hc Ha]. apply list.Forall_cons in Hb as [Hd Hb]. injection Hlen as Hlen.
  pose proof (be_val_range a Ha) as Hra. pose proof (be_val_range b Hb) as Hrb. unfold Zlen in *. rewrite Hlen in Hra |- *.
  set (w := 256 ^ Z.of_nat (length b)) in *. rewrite orb_true_iff, andb_true_iff, Z.ltb_lt, Z.eqb_eq.
  intros [Hlt|[-> Hle]]; [nia|]. specialize (IH b x y Hlen Ha Hb Hle). lia.
Qed.

Lemma rowKey_order n m : 0 <= height n < 2 ^ 31 -> 0 <= height m < 2 ^ 31 -> Chainio.lexle (rowKey n) (rowKey m) = true -> height n <= height m.
Proof.
  intros Hn Hm Hle. unfold rowKey, Chainio.blockIndexKey in Hle.
  apply lexle_prefix in Hle; [|by rewrite !be_bytes_length|apply be_bytes_ok..].
  rewrite !be_val_bytes, !u32_small in Hle by (try apply u32_range; lia). done.
Qed.

(** A row that is not before another one is not lower. *)
Lemma cursor_split bucket l1 x l2 : cursor bucket = l1 ++ x :: l2 -> forall y, y ∈ l2 -> keyOrder x y.
Proof.
  intros Hc y Hy. assert (Hs : StronglySorted keyOrder (l1 ++ x :: l2)).
  { rewrite <- Hc. unfold cursor. apply (StronglySorted_merge_sort keyOrder). }
  clear Hc. induction l1 as [|z l1 IH]; cbn in Hs; apply StronglySorted_inv in Hs as [Hs Hall]; [|by apply IH].
  rewrite list.Forall_forall in Hall. by apply Hall.
Qed.

Lemma cursor_elem bucket k v : (k, v) ∈ cursor bucket <-> bucket !! k = Some v.
Proof. unfold cursor. rewrite merge_sort_Permutation. apply elem_of_map_to_list. Qed.

(** ** Loading what was stored *)
Section Load.
Context {C : Crypto} {L : PubKeyLib} {HL : HashLaws crypto_hashes} (config : chainConfig) (GenesisBlock : MsgBlock).
Context (blocks : list MsgBlock) (Hroom : Zlen blocks < 2 ^ 31 - 2).
Context (Hwire : forall block, block ∈ blocks -> Wire.header_ok (Wire.Header block)).
(** The genesis block of the parameters. *)
Context (Hgen : Wire.header_ok (Wire.Header GenesisBlock)) (Hprev : PrevBlock (Wire.Header GenesisBlock) = zeroHash).
Context (Hhash : GenesisHash config = BlockHash (Wire.Header GenesisBlock)).

Definition genesisNode : blockNode := newBlockNode (Wire.Header GenesisBlock) None.

Lemma built_rebuild n : built n -> newBlockNode (Header n) (parent n) = n.
Proof using. intros Hb. destruct Hb; by rewrite newBlockNode_Header. Qed.

Lemma u64_u64 z : u64 (u64 z) = u64 z.
Proof using. apply u64_small, u64_range. Qed.

Lemma work_bound n : wf n -> 0 <= workSum n <= (height n + 1) * 2 ^ 256.
Proof using.
  assert (Hw : forall bits, 0 <= CalcWork bits <= 2 ^ 256).
  { intros bits. pose proof (CalcWork_nonneg bits). destruct (CalcWork_spec bits) as [H0 H1]. cbv zeta in H0, H1. assert (0 < 2 ^ 256) by done.
    destruct (Z.le_gt_cases (CompactToBig bits) 0) as [Hle|Hgt]; [rewrite H0 by done; lia|]. destruct (H1 Hgt) as [Hub _]. nia. }
  induction n as [n IH _] using node_ind. intros Hn. pose proof (Hw (bits n)). pose proof (wf_height n Hn).
  pose proof Hn as (_ & _ & Hp)%wf_unfold. destruct (parent n) as [p|].
  - destruct Hp as (Hwp & Hh & _ & ->). specialize (IH p eq_refl Hwp). lia.
  - destruct Hp as (Hh & _ & ->). lia.
Qed.

Section From.
Context (t : blockNode) (b : BlockChain) (Hca : chain_at blocks t b) (Hclean : dirty b = ∅) (Hg : inIndex genesisNode b).

Lemma root_genesis n : inIndex n b -> parent n = None -> n = genesisNode.
Proof using Hca Hg.
  intros Hn Hp. pose proof (ca_index blocks t b Hca) as Hix. pose proof (in_wf blocks t b Hix (ca_tip blocks t b Hca)) as Hwt.
  pose proof (ca_root blocks t b Hca n Hn Hp) as H1. pose proof (ca_root blocks t b Hca genesisNode Hg eq_refl) as H2.
  apply chain_mem in H1; [|done]. apply chain_mem in H2; [|done]. rewrite (wf_root n) in H1 by (done || by eapply in_wf).
  change (height genesisNode) with 0 in H2. congruence.
Qed.

Lemma header_wire n : inIndex n b -> Wire.header_ok (Header n).
Proof using Hca Hg Hwire Hgen Hprev.
  intros Hn. pose proof (ca_index blocks t b Hca) as Hix. destruct (parent n) as [p|] eqn:Hp.
  - destruct (ix_block blocks b Hix n Hn) as (block & _ & <- & Hin). apply Hwire, Hin. by rewrite Hp.
  - rewrite (root_genesis n Hn Hp). unfold genesisNode. by rewrite newBlockNode_Header.
Qed.

Lemma row_of k v : (k, v) ∈ cursor (d_rows (db b)) -> exists n, inIndex n b /\ k = rowKey n /\ v = rowOf n b.
Proof using Hca Hclean.
  intros Hr%cursor_elem. pose proof (ca_index blocks t b Hca) as Hix. destruct (ca_rows blocks t b Hca) as [Hro Honly].
  destruct (Honly k) as (h & n & Hn & Hk); [by rewrite Hr|]. destruct (ix_node blocks b Hix h n Hn) as [<- _]. exists n. split; [done|].
  split; [done|]. specialize (Hro n Hn ltac:(rewrite Hclean; apply not_elem_of_empty)). unfold rowKey in Hro. rewrite Hk, Hr in Hro. by injection Hro.
Qed.

Lemma row_in n : inIndex n b -> (rowKey n, rowOf n b) ∈ cursor (d_rows (db b)).
Proof using Hca Hclean.
  intros Hn. apply cursor_elem. apply (ro_clean b (ca_rows blocks t b Hca)); [done|]. rewrite Hclean. apply not_elem_of_empty.
Qed.

Lemma height_31 n : inIndex n b -> 0 <= height n < 2 ^ 31.
Proof using Hca Hroom. intros Hn. pose proof (height_room blocks Hroom n b (ca_index blocks t b Hca) Hn). lia. Qed.

(** A row comes after those of lower nodes. *)
Lemma lower_before pre k v suf n m : cursor (d_rows (db b)) = pre ++ (k, v) :: suf -> inIndex n b -> k = rowKey n ->
  inIndex m b -> height m < height n -> (rowKey m, rowOf m b) ∈ pre.
Proof using Hca Hclean Hroom.
  intros Hc Hn -> Hm Hlt. pose proof (row_in m Hm) as Hin. rewrite Hc in Hin.
  apply elem_of_app in Hin as [?|[Heq|Hs]%list.elem_of_cons]; [done| |].
  - apply (f_equal fst) in Heq. cbn [fst] in Heq. apply rowKey_inj in Heq as Hk. rewrite (hash_inj m n b) in Hlt by done. lia.
  - pose proof (cursor_split _ _ _ _ Hc _ Hs) as Hle. unfold keyOrder in Hle. cbn in Hle.
    apply rowKey_order in Hle; [lia|by apply height_31..].
Qed.

(** The part of the index that is loaded. *)
Record loaded (pre : list (list Z * list Z)) (b0 b1 : BlockChain) : Prop := {
  ld_index : forall h n, bi b1 !! h = Some n <-> bi b !! h = Some n /\ rowKey n ∈ pre.*1;
  ld_status : forall n, inIndex n b -> rowKey n ∈ pre.*1 -> NodeStatus n b1 = NodeStatus n b;
  ld_rest : (bestChain b1, stateSnapshot b1, db b1, dirty b1) = (bestChain b0, stateSnapshot b0, db b0, dirty b0);
}.

Lemma key_once pre k v suf : cursor (d_rows (db b)) = pre ++ (k, v) :: suf -> k ∉ pre.*1.
Proof using.
  intros Hc. assert (Hnd : NoDup (cursor (d_rows (db b))).*1).
  { unfold cursor. rewrite merge_sort_Permutation. apply NoDup_fst_map_to_list. }
  rewrite Hc, fmap_app, fmap_cons in Hnd. apply list.NoDup_app in Hnd as (_ & Hd & _). intros Hin. apply (Hd k Hin). by left.
Qed.

(** The parent that the loop finds for the next row. *)
Lemma parent_found pre k v suf n b0 b1 last : cursor (d_rows (db b)) = pre ++ (k, v) :: suf -> inIndex n b -> k = rowKey n -> loaded pre b0 b1 ->
  match last with None => pre = [] | Some l => pre <> [] /\ inIndex l b end ->
  (match last with
   | None => if negb (bool_decide (BlockHash (Header n) = GenesisHash config)) then throw AssertError else mret None
   | Some last =>
       if bool_decide (PrevBlock (Header n) = hash last) then mret (Some last)
       else p ← gets (fun b => LookupNode (bi b) (PrevBlock (Header n)));
            match p with Some p => mret (Some p) | None => throw AssertError end
   end : M (option blockNode)) b1 = (Ok (parent n), b1).
Proof using Hca Hclean Hroom Hhash Hg Hprev.
  intros Hc Hn Hk [Hix1 _ _] Hlast. pose proof (ca_index blocks t b Hca) as Hix. pose proof (in_built blocks n b Hix Hn) as Hbn.
  destruct (parent n) as [p|] eqn:Hp.
  - pose proof (ix_parent blocks b Hix n p Hn Hp) as Hpi. destruct (wf_parent n p (built_wf n Hbn) Hp) as [_ Hh].
    pose proof (lower_before pre k v suf n p Hc Hn Hk Hpi ltac:(lia)) as Hin.
    assert (Hph : PrevBlock (Header n) = hash p) by (unfold Header; cbn; by rewrite Hp).
    destruct last as [l|]; [|subst pre; by apply not_elem_of_nil in Hin]. destruct Hlast as [_ Hl]. rewrite Hph.
    case_bool_decide as Heq; [by rewrite (hash_inj l p b)|]. unfold mbind, stateful_bind, gets, LookupNode.
    rewrite (proj2 (Hix1 (hash p) p)); [done|]. split; [done|]. apply list_elem_of_fmap. by exists (rowKey p, rowOf p b).
  - rewrite (root_genesis n Hn Hp) in *. destruct last as [l|].
    + exfalso. destruct Hlast as [Hne _]. destruct pre as [|[k' v'] pre]; [done|].
      destruct (row_of k' v') as (m & Hm & -> & _); [rewrite Hc; by left|].
      pose proof (cursor_split (d_rows (db b)) [] (rowKey m, v') (pre ++ (k, v) :: suf) Hc (k, v)) as Hle.
      specialize (Hle ltac:(apply elem_of_app; right; by left)). unfold keyOrder in Hle. cbn [fst] in Hle. rewrite Hk in Hle.
      apply rowKey_order in Hle; [|by apply height_31..]. change (height genesisNode) with 0 in Hle.
      pose proof (in_wf blocks m b Hix Hm) as Hwm. destruct (parent m) as [q|] eqn:Hq.
      * destruct (wf_parent m q Hwm Hq) as [Hwq Hh]. pose proof (wf_height q Hwq). lia.
      * apply (key_once _ _ _ _ Hc). rewrite (root_genesis m Hm Hq), Hk. by left.
    + rewrite Hhash. unfold genesisNode. rewrite newBlockNode_Header by done. by rewrite bool_decide_true.
Qed.

Lemma loadRows_spec b0 suf : forall pre last b1, cursor (d_rows (db b)) = pre ++ suf -> loaded pre b0 b1 ->
  match last with None => pre = [] | Some l => pre <> [] /\ inIndex l b end ->
  exists b2, loadRows config suf last b1 = (Ok (), b2) /\ loaded (pre ++ suf) b0 b2.
Proof using Hca Hclean Hroom Hhash Hg Hprev Hwire Hgen.
  induction suf as [|[k v] suf IH]; intros pre last b1 Hc Hld Hlast; [exists b1; by rewrite app_nil_r|]. cbn [loadRows].
  destruct (row_of k v) as (n & Hn & Hk & ->); [rewrite Hc; apply elem_of_app; right; by left|].
  pose proof (ca_index blocks t b Hca) as Hix. pose proof (in_built blocks n b Hix Hn) as Hbn.
  assert (Hrow : (lift (dbErr (Chainio.deserializeBlockRow (rowOf n b))) : M _) b1 = (Ok (Header n, NodeStatus n b), b1)).
  { unfold lift, rowOf, Chainio.deserializeBlockRow, Chainio.serializeBlockRow. by rewrite (decodes_header _ (header_wire n Hn) [NodeStatus n b]). }
  rewrite (stateful_step _ _ _ _ _ Hrow). rewrite (stateful_step _ _ _ _ _ (parent_found pre k (rowOf n b) suf n b0 b1 last Hc Hn Hk Hld Hlast)).
  cbv zeta. rewrite (built_rebuild n Hbn). unfold mbind at 1, stateful_bind at 1, modify at 1.
  rewrite (cons_middle (k, rowOf n b) pre suf) in Hc. rewrite (assoc_L (++)) in Hc.
  destruct (IH (pre ++ [(k, rowOf n b)]) (Some n) (addNode n (NodeStatus n b) b1) Hc) as (b2 & Hrun & Hld2).
  - destruct Hld as [Hi Hs Hr]. split.
    + intros h m. cbn [bi addNode setStatuses setIndex]. rewrite fmap_app, elem_of_app. cbn [fmap list_fmap fst]. rewrite list_elem_of_singleton, Hk.
      destruct (decide (h = hash n)) as [->|Hne].
      * rewrite lookup_insert_eq. split; [intros [= <-]; by split; [|right]|]. intros [Hm _]. unfold inIndex in Hn. congruence.
      * rewrite lookup_insert_ne, Hi by done. split; [naive_solver|]. intros [Hm [?|Heq]]; [done|]. apply rowKey_inj in Heq.
        destruct (ix_node blocks b Hix h m Hm) as [<- _]. congruence.
    + intros m Hm. rewrite fmap_app, elem_of_app. cbn [fmap list_fmap fst]. rewrite list_elem_of_singleton, Hk. unfold NodeStatus at 1. cbn [statuses addNode setStatuses].
      destruct (decide (hash m = hash n)) as [Heq|Hne].
      * intros _. rewrite Heq, lookup_insert_eq. by rewrite (hash_inj m n b).
      * rewrite lookup_insert_ne by done. intros [Hin|Heq]; [by apply Hs|]. apply rowKey_inj in Heq. congruence.
    + exact Hr.
  - split; [by destruct pre|done].
  - exists b2. split; [exact Hrun|]. by rewrite <- (assoc_L (++)) in Hld2.
Qed.

Lemma markValid_quiet n : forall b1, quiet b1 (markValid n b1).
Proof using.
  clear. induction n as [n IH _] using node_ind. intros b1.
  assert (Hunf : markValid n b1 = let b2 := if negb (KnownValid (NodeStatus n b1)) then SetStatusFlags n statusValid b1 else b1 in
    match parent n with Some p => markValid p b2 | None => b2 end) by (by destruct n).
  rewrite Hunf. cbv zeta. assert (H1 : quiet b1 (if negb (KnownValid (NodeStatus n b1)) then SetStatusFlags n statusValid b1 else b1)).
  { destruct (negb _); [apply SetStatusFlags_quiet|done]. }
  destruct (parent n) as [p|]; [|exact H1]. etrans; [exact H1|by apply IH].
Qed.

(** Only the chain of the tip gains the flag. *)
Lemma markValid_status m n : forall b1, (forall x y, x ∈ chain n -> y ∈ m :: chain n -> hash x = hash y -> x = y) ->
  NodeStatus m (markValid n b1) = if decide (m ∈ chain n /\ KnownValid (NodeStatus m b1) = false) then Z.lor (NodeStatus m b1) statusValid else NodeStatus m b1.
Proof using.
  clear. induction n as [n IH _] using node_ind. intros b1 Hinj.
  assert (Hunf : markValid n b1 = let b2 := if negb (KnownValid (NodeStatus n b1)) then SetStatusFlags n statusValid b1 else b1 in
    match parent n with Some p => markValid p b2 | None => b2 end) by (by destruct n).
  rewrite Hunf. cbv zeta. clear Hunf. set (b2 := if negb _ then _ else _).
  assert (H2 : NodeStatus m b2 = if decide (m = n /\ KnownValid (NodeStatus m b1) = false) then Z.lor (NodeStatus m b1) statusValid else NodeStatus m b1).
  { unfold b2. destruct (decide (m = n)) as [->|Hne].
    - destruct (KnownValid (NodeStatus n b1)) eqn:Hk; cbn [negb]; [by rewrite decide_False by naive_solver|]. rewrite decide_True by done.
      unfold NodeStatus at 1. cbn. by rewrite lookup_insert_eq.
    - rewrite decide_False by naive_solver. destruct (negb _); [|done]. unfold NodeStatus at 1. cbn. rewrite lookup_insert_ne; [done|].
      intros Heq. apply Hne. symmetry. apply Hinj; [|by left|done]. rewrite chain_unfold. apply elem_of_app. right. by left. }
  destruct (parent n) as [p|] eqn:Hp.
  - assert (Hnp : n ∉ chain p).
    { intros Hin. pose proof (chain_child n p Hp) as Hc. clear -Hin Hc. assert (Hlen : forall q, q ∈ chain p -> (length (chain q) <= length (chain p))%nat).
      { clear. induction p as [p IH _] using node_ind. intros q. rewrite (chain_unfold p), elem_of_app, list_elem_of_singleton, length_app.
        destruct (parent p) as [r|] eqn:Hr; [|intros [Hq%not_elem_of_nil| ->]; [done|rewrite (chain_unfold p), Hr; cbn; lia]].
        intros [Hq| ->]; [specialize (IH r eq_refl q Hq); lia|rewrite (chain_child p r Hr), length_app; lia]. }
      specialize (Hlen n Hin). rewrite Hc, length_app in Hlen. cbn in Hlen. lia. }
    rewrite IH by (done || (intros x y Hx Hy; apply Hinj; rewrite (chain_child n p Hp), ?list.elem_of_cons, ?elem_of_app in *; naive_solver)).
    rewrite H2, (chain_child n p Hp). destruct (decide (m = n)) as [->|Hne].
    + rewrite decide_False by naive_solver. apply decide_ext. rewrite elem_of_app, list_elem_of_singleton. naive_solver.
    + rewrite (decide_False (P := m = n /\ _)) by naive_solver. apply decide_ext. rewrite elem_of_app, list_elem_of_singleton. naive_solver.
  - rewrite H2, (chain_unfold n), Hp. apply decide_ext. cbn [app]. by rewrite list_elem_of_singleton.
Qed.

(** The best state of the database, read back. *)
Lemma best_read : exists state, Chainio.deserializeBestChainState (d_best (db b)) = Ok state /\ d_best (db b) <> [] /\
  Chainio.bs_hash state = hash t /\ Chainio.bs_totalTxns state = b_TotalTxns (stateSnapshot b).
Proof using Hca Hroom HL Hgen.
  pose proof (ca_index blocks t b Hca) as Hix. pose proof (ca_tip blocks t b Hca) as Hin.
  destruct (ca_best blocks t b Hca) as (n & Hn & Hbest). destruct (ca_snap blocks t b Hca) as (block & total & mt & _ & _ & Hsn).
  rewrite Hbest, Hsn. unfold dbPutBestState. set (s := Chainio.mkBestChainState _ _ _ _).
  pose proof (work_bound n (in_wf blocks n b Hix Hn)) as Hw. pose proof (height_31 n Hn) as Hh. pose proof (height_31 t Hin) as Hht.
  assert (Hok : Chainio.state_ok s).
  { split; cbn.
    - rewrite (hash_built t (in_built blocks t b Hix Hin)). apply sha256_len.
    - apply u32_range.
    - apply u64_range.
    - lia.
    - destruct (Z.eq_dec (workSum n) 0) as [->|Hne]; [done|]. destruct (bytesLen_spec (workSum n)) as (H1 & H2 & _); [lia|].
      assert (8 * (bytesLen (workSum n) - 1) < 288); [|lia]. apply (Z.pow_lt_mono_r_iff 2); [lia|lia|].
      eapply Z.le_lt_trans; [exact H2|]. change (2 ^ 288) with (2 ^ 32 * 2 ^ 256). assert (0 < 2 ^ 256) by done. nia. }
  destruct (Chainio.chain_state_roundtrip s _ 0 Hok Hgen) as (Hr & _ & _). exists s. split; [exact Hr|]. split; [|done].
  intros Hnil. apply (f_equal length) in Hnil. unfold Chainio.serializeBestChainState in Hnil. rewrite length_app, (Chainio.so_hash s Hok) in Hnil. discriminate Hnil.
Qed.

(** What New has made when it loads the chain: nothing but the database. *)
Definition blank (b0 : BlockChain) : Prop := bi b0 = ∅ /\ statuses b0 = ∅ /\ dirty b0 = ∅ /\ bestChain b0 = ChainView.mkView [].

(** The statuses after a start. *)
Definition upgraded (n : blockNode) : Z :=
  if decide (n ∈ chain t /\ KnownValid (NodeStatus n b) = false) then Z.lor (NodeStatus n b) statusValid else NodeStatus n b.

Lemma initChainState_spec b0 : blank b0 -> db b0 = db b ->
  exists b', initChainState config GenesisBlock b0 = (Ok (), b') /\ quiet b b' /\ dirty b' = ∅ /\ forall n, inIndex n b -> NodeStatus n b' = upgraded n.
Proof using Hca Hclean Hroom Hhash Hg Hprev Hwire Hgen HL.
  intros (Hbi0 & Hst0 & Hd0 & Hbc0) Hdb0. pose proof (ca_index blocks t b Hca) as Hix. pose proof (ca_tip blocks t b Hca) as Hin.
  destruct best_read as (state & Hread & Hne & Hbh & Hbt). unfold initChainState.
  unfold mbind at 1, stateful_bind at 1, gets at 1. rewrite Hdb0, bool_decide_false by done.
  unfold mbind at 1, stateful_bind at 1, lift at 1. rewrite Hread. cbn [dbErr]. unfold mbind at 1, stateful_bind at 1, gets at 1. rewrite Hdb0.
  destruct (loadRows_spec b0 (cursor (d_rows (db b))) [] None b0 eq_refl) as (b2 & Hrun & [Hi Hs Hr]); [|done|].
  { split; [|intros n _ Hx; by apply not_elem_of_nil in Hx|done]. intros h n. rewrite Hbi0, lookup_empty. split; [done|]. intros [_ Hx]. by apply not_elem_of_nil in Hx. }
  rewrite (stateful_step _ _ _ _ _ Hrun). injection Hr as Hbc2 Hss2 Hdb2 Hdi2. cbn [app] in *.
  assert (Hkeys : forall n, inIndex n b -> rowKey n ∈ (cursor (d_rows (db b))).*1).
  { intros n Hn. apply list_elem_of_fmap. exists (rowKey n, rowOf n b). split; [done|by apply row_in]. }
  assert (Hbi2 : bi b2 = bi b).
  { apply map_eq. intros h. destruct (bi b !! h) as [n|] eqn:Hn.
    - apply Hi. split; [done|]. apply Hkeys. by apply (node_in blocks h n b).
    - destruct (bi b2 !! h) as [m|] eqn:Hm; [|done]. apply Hi in Hm as [Hm _]. congruence. }
  unfold mbind at 1, stateful_bind at 1, gets at 1, LookupNode. rewrite Hbi2, Hbh. unfold inIndex in Hin. rewrite Hin. fold (inIndex t b) in Hin.
  pose proof (in_tip_ok blocks Hroom t b Hix Hin) as [Hwt Hlt].
  unfold mbind at 1, stateful_bind at 1, setBestTip at 1. rewrite Hbc2, Hbc0.
  assert (Hset : setTip (Some t) (ChainView.mkView []) = Ok (view_of (Some t))) by (by apply (setTip_view None)). rewrite Hset.
  destruct (ca_snap blocks t b Hca) as (block & total & mt & Hblk & Hmed & Hsn). unfold stores in Hblk.
  unfold mbind at 1, stateful_bind at 1, dbFetchBlockByNode at 1. cbn [db setBest]. rewrite Hdb2, Hdb0, Hblk.
  unfold mbind at 1, stateful_bind at 1, modify at 1. set (b3 := setBest (view_of (Some t)) (stateSnapshot b2) b2).
  unfold mbind at 1, stateful_bind at 1, lift at 1. rewrite Hmed. unfold mbind at 1, stateful_bind at 1, modify at 1. rewrite Hbt.
  pose proof (markValid_quiet t b3) as Hq3. set (b4 := markValid t b3) in *. set (b5 := setBest (bestChain b4) _ b4).
  destruct (flushToDB_run b5) as (b6 & Hfl & Hq6 & Hd6 & _ & _ & Hst6). exists b6. split; [exact Hfl|].
  assert (Hrows3 : rows_ok b3).
  { destruct (ca_rows blocks t b Hca) as [Hro Honly]. split.
    - intros n Hn _. unfold inIndex, b3 in Hn. cbn in Hn. rewrite Hbi2 in Hn. unfold b3. cbn. rewrite Hdb2, Hdb0. unfold rowOf.
      change (NodeStatus n (setBest _ _ b2)) with (NodeStatus n b2). rewrite (Hs n Hn (Hkeys n Hn)). apply Hro; [done|]. rewrite Hclean. apply not_elem_of_empty.
    - unfold b3. cbn. by rewrite Hdb2, Hdb0, Hbi2. }
  split; [|split; [done|]].
  - destruct Hq3 as [Hc3 Hr3], Hq6 as [Hc6 Hr6]. split.
    + rewrite Hc6. injection Hc3 as H1 H2 H3 H4 H5 H6 H7. unfold core, b5. cbn [bi bestChain stateSnapshot db setBest].
      rewrite H1, H2, H4, H5, H6, H7. unfold b3. cbn [bi bestChain stateSnapshot db setBest]. rewrite Hbi2, Hdb2, Hdb0, (ca_view blocks t b Hca).
      assert (Hss : stateOf t block (b_TotalTxns (stateSnapshot b)) mt = stateSnapshot b); [|by rewrite Hss].
      rewrite Hsn. unfold stateOf. cbn [b_TotalTxns]. by rewrite u64_u64.
    + intros _. apply Hr6. destruct (Hr3 Hrows3) as [Ha Hb]. by split.
  - intros n Hn. unfold NodeStatus at 1. rewrite Hst6. change (NodeStatus n b4 = upgraded n). unfold b4. rewrite markValid_status.
    + change (NodeStatus n b3) with (NodeStatus n b2). by rewrite (Hs n Hn (Hkeys n Hn)).
    + intros x y Hx Hy. assert (Hall : forall z, z ∈ n :: chain t -> inIndex z b).
      { intros z [->|Hz]%list.elem_of_cons; [done|]. by apply (chain_in blocks t z b). }
      apply (hash_inj x y b); apply Hall; [by right|done].
Qed.

End From.

(** ** A new chain *)
Definition empty_db (d : ChainDb) : Prop :=
  d_blocks d = ∅ /\ d_spend d = ∅ /\ d_heights d = (∅, ∅) /\ d_best d = [] /\ d_rows d = ∅.

Lemma genesis_built : built genesisNode.
Proof using Hgen Hprev. apply built_genesis; [|done]. unfold header_ok. by destruct Hgen. Qed.

Lemma createChainState_spec b0 : blank b0 -> empty_db (db b0) ->
  exists b', initChainState config GenesisBlock b0 = (Ok (), b') /\ chain_at blocks genesisNode b' /\ dirty b' = ∅ /\ inIndex genesisNode b'.
Proof using Hgen Hprev.
  intros (Hbi0 & Hst0 & Hd0 & Hbc0) (Hbl0 & Hsp0 & Hhe0 & Hbe0 & Hro0). pose proof genesis_built as Hb. pose proof (built_wf _ Hb) as Hw.
  unfold initChainState. unfold mbind at 1, stateful_bind at 1, gets at 1. rewrite Hbe0, bool_decide_true by done.
  unfold createChainState. cbv zeta. fold genesisNode. set (state := stateOf genesisNode GenesisBlock _ _).
  unfold mbind at 1, stateful_bind at 1, setBestTip at 1. rewrite Hbc0.
  assert (Hset : setTip (Some genesisNode) (ChainView.mkView []) = Ok (view_of (Some genesisNode))) by (by apply (setTip_view None)). rewrite Hset.
  unfold mbind, stateful_bind, modify, gets, dbUpdate. eexists. split; [reflexivity|].
  assert (Hmed : CalcPastMedianTime genesisNode = Ok (timestamp genesisNode)) by done.
  assert (Hchain : chain genesisNode = [genesisNode]) by done.
  match goal with |- chain_at _ _ ?b /\ _ => set (b' := b) end.
  assert (Hin : inIndex genesisNode b') by (unfold inIndex, b'; cbn; apply lookup_insert_eq).
  assert (Honly : forall h n, bi b' !! h = Some n -> n = genesisNode /\ h = hash genesisNode).
  { intros h n. unfold b'. cbn. rewrite Hbi0. intros [[<- <-]|[_ Hn]]%lookup_insert_Some; [done|]. by apply lookup_empty_Some in Hn. }
  assert (Hblock : d_blocks (db b') !! hash genesisNode = Some GenesisBlock) by (unfold b'; cbn; apply lookup_insert_eq).
  assert (Hhead : Wire.Header GenesisBlock = Header genesisNode) by (unfold genesisNode; by rewrite newBlockNode_Header).
  split; [|split; [unfold b'; cbn; by rewrite Hd0|done]]. split.
  - split.
    + intros h n Hn. by destruct (Honly h n Hn) as [-> ->].
    + intros n p Hn. destruct (Honly _ n Hn) as [-> _]. done.
    + intros n Hn. destruct (Honly _ n Hn) as [-> _]. exists GenesisBlock. split; [done|]. split; [done|]. by intros [].
    + intros h [x Hx]. unfold b' in Hx. cbn in Hx. rewrite Hbl0 in Hx. apply lookup_insert_Some in Hx as [[<- _]|[_ Hx]]; [by rewrite Hin|]. by apply lookup_empty_Some in Hx.
  - exact Hin.
  - intros n Hn _. destruct (Honly _ n Hn) as [-> _]. rewrite Hchain. by left.
  - done.
  - by exists GenesisBlock, (Zlen (Transactions GenesisBlock)), (timestamp genesisNode).
  - by exists genesisNode.
  - intros h k. unfold b'. cbn [d_heights db setDb setBest setStatuses setIndex addNode]. rewrite Hhe0. unfold Chainio.dbPutBlockIndex. cbn [fst]. rewrite Hchain. split.
    + intros [[<- <-]|[_ Hx]]%lookup_insert_Some; [|by apply lookup_empty_Some in Hx]. exists genesisNode. split; [by left|done].
    + intros (n & ->%list_elem_of_singleton & <- & <-). apply lookup_insert_eq.
  - intros h Hh. unfold b'. cbn [d_heights db setDb setBest setStatuses setIndex addNode]. rewrite Hhe0. unfold Chainio.dbPutBlockIndex. cbn [snd]. rewrite Hchain.
    fold (heightKey (height genesisNode)). destruct (decide (h = 0)) as [->|Hne]; [apply lookup_insert_eq|].
    transitivity ((∅ : gmap (list Z) (list Z)) !! heightKey h).
    + apply lookup_insert_ne. intros Heq. apply Hne. symmetry. apply heightKey_inj; [done|done|exact Heq].
    + rewrite lookup_empty. symmetry. rewrite (proj2 (lookup_ge_None _ _)); [done|]. cbn. lia.
  - intros n Hn. rewrite Hchain in Hn. apply list_elem_of_singleton in Hn as ->. by intros [].
  - split.
    + intros n Hn _. destruct (Honly _ n Hn) as [-> _]. unfold b'. cbn [d_rows db setDb setBest setStatuses setIndex addNode bi]. unfold dbStoreBlockNode.
      cbn [bi setDb setBest setStatuses setIndex addNode]. rewrite lookup_insert_eq. apply (lookup_insert_eq (d_rows (db b0))).
    + intros key. unfold b'. cbn [d_rows db setDb setBest setStatuses setIndex addNode bi]. unfold dbStoreBlockNode.
      cbn [bi setDb setBest setStatuses setIndex addNode]. rewrite lookup_insert_eq, Hro0. intros [x Hx].
      apply lookup_insert_Some in Hx as [[<- _]|[_ Hx]]; [|by apply lookup_empty_Some in Hx]. exists (hash genesisNode), genesisNode. split; [apply lookup_insert_eq|done].
Qed.

(** *** Catching up leaves the chain where it is *)
Lemma replayLoop_still implementationLog2 interrupted clock nodes : forall round, within still (replayLoop implementationLog2 interrupted clock round nodes).
Proof using.
  induction nodes as [|n nodes IH]; intros round; cbn [replayLoop]; [apply within_ret, _|].
  apply within_bind; [apply _|apply fetchBlock_still|]. intros block.
  apply within_bind; [apply _|apply connectToCache_still|]. intros stxos.
  apply within_bind; [apply _|apply flush_still|]. intros []. apply within_if; [apply within_throw, _|apply IH].
Qed.

Lemma InitConsistentState_still implementationLog2 interrupted clock tip : within still (InitConsistentState implementationLog2 interrupted clock tip).
Proof using.
  unfold InitConsistentState. apply within_bind; [apply _|apply within_gets, _|]. intros [statusHash|].
  - apply within_if; [by intros b|]. apply within_bind; [apply _|apply within_gets, _|]. intros n.
    apply within_bind; [apply _|apply within_lift, _|]. intros m. apply within_bind; [apply _|apply within_gets, _|]. intros [fork|]; [|apply within_throw, _].
    apply within_bind; [apply _|apply within_lift, _|]. intros nodes. apply within_bind; [apply _|apply replayLoop_still|]. intros []. by intros b.
  - apply within_bind; [apply _|by intros b|]. intros []. by intros b.
Qed.

End Load.
(** ** Every state that the program reaches *)
Section Reachable.
Context {C : Crypto} {L : PubKeyLib} (implementationLog2 : Z -> Z) (config : chainConfig) (fuel : nat) (sigCache : option SigCache).
Context (GenesisBlock : MsgBlock) (blocks : list MsgBlock).

Definition emptyPool : orphanPool := mkPool ∅ ∅ None.

(** The program starts on an empty database, gets blocks, each at its own
    time, and is stopped between two calls and started again on what the
    database holds.  A call that panics stops the program for good. *)
Inductive reachable : orphanPool -> BlockChain -> Prop :=
| reach_new b0 b : blank b0 -> empty_db (db b0) -> initChainState config GenesisBlock b0 = (Ok (), b) -> reachable emptyPool b
| reach_process p b adjustedTime now clock order block flags r p' b' : reachable p b -> block ∈ blocks -> order_of p (order p) ->
    ProcessBlock implementationLog2 config fuel sigCache adjustedTime now clock order block flags (p, b) = (r, (p', b')) ->
    r <> Panic -> r <> Hang -> reachable p' b'
| reach_restart p b b0 b1 : reachable p b -> blank b0 -> db b0 = db b -> initChainState config GenesisBlock b0 = (Ok (), b1) -> reachable emptyPool b1
| reach_recover p b interrupted clock node r b' : reachable p b ->
    InitConsistentState implementationLog2 interrupted clock node b = (r, b') -> reachable p b'.

(** What the environment is asked for: the blocks that ever come are fewer
    than there are heights and come from the wire, no two of them have the
    same hash and different parents, and the genesis block is that of the
    parameters. *)
Record environment : Prop := {
  ev_room : Zlen blocks < 2 ^ 31 - 2;
  ev_wire : forall block, block ∈ blocks -> Wire.header_ok (Wire.Header block);
  ev_inj : forall a b, a ∈ blocks -> b ∈ blocks -> BlockHash (Wire.Header a) = BlockHash (Wire.Header b) ->
    PrevBlock (Wire.Header a) = PrevBlock (Wire.Header b);
  ev_genesis : Wire.header_ok (Wire.Header GenesisBlock);
  ev_first : PrevBlock (Wire.Header GenesisBlock) = zeroHash;
  ev_hash : GenesisHash config = BlockHash (Wire.Header GenesisBlock);
}.

(** The whole invariant. *)
Record invariant (p : orphanPool) (b : BlockChain) : Prop := {
  iv_chain : exists t, chain_at blocks t b;
  iv_written : dirty b = ∅;
  iv_genesis : inIndex (genesisNode GenesisBlock) b;
  iv_pool : bounded (fun block => block ∈ blocks) p;
  iv_apart : apart p b;
}.

Context {HL : HashLaws crypto_hashes} (Henv : environment).

Lemma emptyPool_ok b : bounded (fun block => block ∈ blocks) emptyPool /\ apart emptyPool b.
Proof using Henv.
  split; [apply (reaches_bounded _ (ev_inj Henv)), reaches_empty|]. intros h [o Ho]. cbn [orphans emptyPool] in Ho. by apply lookup_empty_Some in Ho.
Qed.

Lemma times_ok block : block ∈ blocks -> header_ok (Wire.Header block).
Proof using Henv. intros Hb. unfold header_ok. by destruct (ev_wire Henv block Hb). Qed.

Lemma still_invariant p b b' : invariant p b -> still b b' -> invariant p b'.
Proof using.
  intros [(t & Ht) Hd Hg Hp Hap] Hs. pose proof (still_quiet b b' Hs) as Hq. destruct Hs as [Hc Hm]. injection Hc as Hbi _ _ _ _ _ _. injection Hm as _ Hd' _.
  split; [exists t; by eapply chain_at_quiet|congruence|unfold inIndex in *; by rewrite Hbi|done|]. intros h Hh. rewrite Hbi. by apply Hap.
Qed.

Lemma process_invariant p b adjustedTime now clock order block flags r p' b' : invariant p b -> block ∈ blocks -> order_of p (order p) ->
  ProcessBlock implementationLog2 config fuel sigCache adjustedTime now clock order block flags (p, b) = (r, (p', b')) -> r <> Panic -> r <> Hang ->
  invariant p' b'.
Proof using Henv.
  intros [(t & Ht) Hd Hg Hp Hap] Hin Hord Hrun Hnp Hnh.
  pose proof (ProcessBlock_sound implementationLog2 config fuel sigCache blocks (ev_room Henv) times_ok (ev_inj Henv) (genesisNode GenesisBlock)
    adjustedTime now t p b clock order block flags Ht Hp Hap Hd Hg Hin Hord) as Hs. rewrite Hrun in Hs. destruct Hs as [H1 H2 (t' & Ht' & _) H4 H5].
  split; [by exists t'|by destruct r|done|done|done].
Qed.

Lemma restart_invariant p b b0 b1 : invariant p b -> blank b0 -> db b0 = db b -> initChainState config GenesisBlock b0 = (Ok (), b1) -> invariant emptyPool b1.
Proof using Henv HL.
  intros [(t & Ht) Hd Hg Hp Hap] Hb0 Hdb Hrun.
  destruct (initChainState_spec config GenesisBlock blocks (ev_room Henv) (ev_wire Henv) (ev_genesis Henv) (ev_first Henv) (ev_hash Henv) t b Ht Hd Hg b0 Hb0 Hdb)
    as (b' & Hrun' & Hq & Hd' & _). rewrite Hrun in Hrun'. injection Hrun' as <-. destruct (emptyPool_ok b1) as [H1 H2].
  split; [exists t; by eapply chain_at_quiet|done| |done|done]. destruct Hq as [Hc _]. injection Hc as Hbi _ _ _ _ _ _. unfold inIndex in *. by rewrite Hbi.
Qed.

Lemma reachable_invariant p b : reachable p b -> invariant p b.
Proof using Henv HL.
  induction 1 as [b0 b Hb0 Hdb Hrun|p b adjustedTime now clock order block flags r p' b' _ IH Hin Hord Hrun Hnp Hnh|p b b0 b1 _ IH Hb0 Hdb Hrun|p b interrupted clock node r b' _ IH Hrun].
  - destruct (createChainState_spec config GenesisBlock blocks (ev_genesis Henv) (ev_first Henv) b0 Hb0 Hdb) as (b' & Hrun' & Hca & Hd & Hg).
    rewrite Hrun in Hrun'. injection Hrun' as <-. destruct (emptyPool_ok b) as [H1 H2]. by split; [exists (genesisNode GenesisBlock)|..].
  - by eapply process_invariant.
  - by eapply restart_invariant.
  - pose proof (InitConsistentState_still implementationLog2 interrupted clock node b) as Hs. rewrite Hrun in Hs. by eapply still_invariant.
Qed.

(** C3.  In every state that the program reaches, through forks, failed
    reorganisations, orphans and restarts, there is one tip such that: the
    view is the chain of that tip, whose nodes are all in the index; the
    snapshot and the stored best state name it; the two indexes of heights
    hold exactly the blocks of that chain, each at its height; each of them
    but the first has its spent outputs in the journal; each node of the index
    has its parent there and its block in the store; the rows of the database
    are those of the nodes with their present statuses; and no orphan is in
    the index. *)
Theorem chain_state_invariant p b (Hreach : reachable p b) :
  exists t, bestChain b = view_of (Some t) /\ (forall n, n ∈ chain t -> inIndex n b) /\
    b_Hash (stateSnapshot b) = hash t /\ b_Height (stateSnapshot b) = height t /\
    (exists work, d_best (db b) = dbPutBestState (stateSnapshot b) work) /\
    (forall h, (exists k, Chainio.dbFetchHeightByHash h (d_heights (db b)) = Ok k) <-> exists n, n ∈ chain t /\ hash n = h) /\
    (forall n, n ∈ chain t -> Chainio.dbFetchHeightByHash (hash n) (d_heights (db b)) = Ok (height n) /\
      Chainio.dbFetchHashByHeight (height n) (d_heights (db b)) = Ok (hash n) /\
      (parent n <> None -> is_Some (d_spend (db b) !! hash n))) /\
    (forall h n, bi b !! h = Some n -> hash n = h /\ (forall p, parent n = Some p -> bi b !! hash p = Some p) /\
      (exists block, d_blocks (db b) !! h = Some block /\ BlockHash (Wire.Header block) = h) /\
      d_rows (db b) !! rowKey n = Some (rowOf n b)) /\
    (forall h, is_Some (orphans p !! h) -> bi b !! h = None).
Proof using Henv HL.
  destruct (reachable_invariant p b Hreach) as [(t & Hca) Hd Hg Hp Hap]. exists t. pose proof (ca_index blocks t b Hca) as Hix.
  assert (Hfetch : forall n, n ∈ chain t -> Chainio.dbFetchHeightByHash (hash n) (d_heights (db b)) = Ok (height n)).
  { intros n Hn. pose proof (chain_in blocks t n b Hix (ca_tip blocks t b Hca) Hn) as Hin. pose proof (height_room blocks (ev_room Henv) n b Hix Hin) as Hh.
    unfold Chainio.dbFetchHeightByHash. rewrite (proj2 (ca_heights blocks t b Hca (hash n) (heightKey (height n)))) by (by exists n).
    unfold heightKey. rewrite Zlen_le_bytes. change (Z.of_nat 4 <? 4) with false. cbv iota. rewrite take_ge by (by rewrite le_bytes_length).
    rewrite le_val_bytes by apply u32_range. rewrite u32_small by lia. by rewrite i32_small by lia. }
  split; [by apply (ca_view blocks t b)|]. split; [intros n; apply (chain_in blocks t n b Hix), (ca_tip blocks t b Hca)|].
  destruct (ca_snap blocks t b Hca) as (block & total & mt & _ & _ & Hsn). split; [by rewrite Hsn|]. split; [by rewrite Hsn|].
  split; [destruct (ca_best blocks t b Hca) as (n & _ & Hb); by eexists|]. split; [|split; [|split; [|done]]].
  - intros h. split.
    + intros (k & Hk). unfold Chainio.dbFetchHeightByHash in Hk. destruct ((d_heights (db b)).1 !! h) as [x|] eqn:Hx; [|done].
      apply (ca_heights blocks t b Hca) in Hx as (n & Hn & Heq & _). by exists n.
    + intros (n & Hn & <-). exists (height n). by apply Hfetch.
  - intros n Hn. split; [by apply Hfetch|]. pose proof (chain_in blocks t n b Hix (ca_tip blocks t b Hca) Hn) as Hin.
    pose proof (height_room blocks (ev_room Henv) n b Hix Hin) as Hh. split; [|by apply (ca_journal blocks t b Hca)].
    unfold Chainio.dbFetchHashByHeight. fold (heightKey (height n)). rewrite (ca_hashes blocks t b Hca) by lia.
    rewrite (proj1 (chain_mem t n (in_wf blocks t b Hix (ca_tip blocks t b Hca))) Hn). cbn [option_map fmap option_fmap].
    rewrite (hash_built n) by (by eapply in_built). rewrite <- (sha256_len (H := crypto_hashes) (sha256 (writeBlockHeader (Header n)))) at 1. apply f_equal, take_app_length.
  - intros h n Hn. destruct (node_in blocks h n b Hix Hn) as [Hin Hb]. destruct (ix_node blocks b Hix h n Hn) as [<- _]. split; [done|].
    split; [intros q Hq; by eapply ix_parent|]. split.
    + destruct (ix_block blocks b Hix n Hin) as (bl & Hbl & Hhd & _). exists bl. split; [done|]. rewrite Hhd. symmetry. by apply hash_built.
    + apply (ro_clean b (ca_rows blocks t b Hca)); [done|]. rewrite Hd. apply not_elem_of_empty.
Qed.

(** C5.  Starting again on the database of any state that the program
    reached gives back the same index, the same best chain, the same snapshot
    and the same statuses, but that the blocks of the best chain become valid;
    it never fails. *)
Theorem restart_restores p b b0 (Hreach : reachable p b) (Hblank : blank b0) (Hdb : db b0 = db b) :
  exists b', initChainState config GenesisBlock b0 = (Ok (), b') /\ bi b' = bi b /\ bestChain b' = bestChain b /\
    stateSnapshot b' = stateSnapshot b /\
    forall n, inIndex n b -> NodeStatus n b' =
      if contains n (bestChain b) && negb (KnownValid (NodeStatus n b)) then Z.lor (NodeStatus n b) statusValid else NodeStatus n b.
Proof using Henv HL.
  destruct (reachable_invariant p b Hreach) as [(t & Hca) Hd Hg Hp Hap]. pose proof (ca_index blocks t b Hca) as Hix.
  destruct (initChainState_spec config GenesisBlock blocks (ev_room Henv) (ev_wire Henv) (ev_genesis Henv) (ev_first Henv) (ev_hash Henv) t b Hca Hd Hg b0 Hblank Hdb)
    as (b' & Hrun & [Hc _] & _ & Hst). exists b'. split; [exact Hrun|]. injection Hc as H1 H2 H3 _ _ _ _. split_and!; [done..|].
  intros n Hn. rewrite (Hst n Hn). unfold upgraded. rewrite (ca_view blocks t b Hca), contains_view;
    [|exact (in_tip_ok blocks (ev_room Henv) t b Hix (ca_tip blocks t b Hca))|exact (in_wf blocks n b Hix Hn)].
  cbn [members]. destruct (decide (n ∈ chain t)) as [Hmem|Hmem]; [rewrite bool_decide_true by done|by rewrite bool_decide_false, decide_False by naive_solver].
  destruct (KnownValid (NodeStatus n b)) eqn:Hk; cbn [andb negb]; [by rewrite decide_False by naive_solver|by rewrite decide_True].
Qed.

(** C4.  A call of ProcessBlock that succeeds never lowers the work of the
    best chain.  A new node that is offered to the best chain becomes its tip
    only with at least the work of the old tip; when the answer is that it is
    not in the main chain, the tip stays and has at least its work; and when
    the answer is that it is but the tip stayed, an ancestor is known to be
    invalid. *)
Theorem best_chain_choice p b (Hreach : reachable p b) : exists t, tip (bestChain b) = Some t /\
  (forall adjustedTime now clock order block flags v p' b', block ∈ blocks -> order_of p (order p) ->
    ProcessBlock implementationLog2 config fuel sigCache adjustedTime now clock order block flags (p, b) = (Ok v, (p', b')) ->
    exists t', tip (bestChain b') = Some t' /\ workSum t <= workSum t') /\
  (forall adjustedTime now node block flags main b', inIndex node b -> parent node <> None -> d_blocks (db b) !! hash node = Some block ->
    connectBestChain implementationLog2 config fuel sigCache adjustedTime now node block flags b = (Ok main, b') ->
    if main then tip (bestChain b') = Some node /\ workSum t <= workSum node \/
                 tip (bestChain b') = Some t /\ exists m, m ∈ chain node /\ KnownInvalid (NodeStatus m b) = true
    else tip (bestChain b') = Some t /\ workSum node <= workSum t).
Proof using Henv HL.
  destruct (reachable_invariant p b Hreach) as [(t & Hca) Hd Hg Hp Hap]. exists t. split; [by rewrite (ca_view blocks t b Hca), tip_view|]. split.
  - intros adjustedTime now clock order block flags v p' b' Hin Hord Hrun.
    pose proof (ProcessBlock_sound implementationLog2 config fuel sigCache blocks (ev_room Henv) times_ok (ev_inj Henv) (genesisNode GenesisBlock)
      adjustedTime now t p b clock order block flags Hca Hp Hap Hd Hg Hin Hord) as Hs. rewrite Hrun in Hs. destruct Hs as [_ _ (t' & Ht' & Hw) _ _].
    exists t'. split; [by rewrite (ca_view blocks t' b' Ht'), tip_view|by eapply Hw].
  - intros adjustedTime now node block flags main b' Hn Hpar Hs Hrun.
    pose proof (connectBestChain_at implementationLog2 blocks (ev_room Henv) config fuel sigCache adjustedTime now t node block flags b Hca Hn Hpar Hs) as Hl.
    unfold leads in Hl. rewrite Hrun in Hl. unfold decided in Hl.
    assert (Htip : forall t', at_tip blocks t' b b' -> tip (bestChain b') = Some t') by (intros t' [Ht' _]; by rewrite (ca_view blocks t' b' Ht'), tip_view).
    destruct main; [destruct Hl as [[Ha Hw]|[Ha Hi]]; [left|right]; (split; [by apply Htip|done])|]. destruct Hl as [Ha Hw]. split; [by apply Htip|done].
Qed.

End Reachable.
(** ** Concrete chains *)
Module Toy.
Import SigHash.Toy SigCheck.Toy Compress.Toy Utxo.Toy Deployments.Toy.
#[local] Existing Instance toy_crypto.
#[local] Existing Instance ToyLib.
#[local] Instance laws : HashLaws crypto_hashes := toy_laws.

Definition genesisHeader : BlockHeader := mkBlockHeader 1 zeroHash (replicate 32 0) 1701599110 0x1d00ffff 0.
Definition genesisBlock : MsgBlock := mkMsgBlock genesisHeader [cb].
Definition config : chainConfig := mkConfig (mkChainCtx FreshNetParams 2016 302400 4838400) (BlockHash genesisHeader) freshNetDeployments [].

Definition newCache : UtxoCache.utxoCache := UtxoCache.newUtxoCache Z.log2 100000.
Definition stopped (d : ChainDb) : BlockChain :=
  mkBlockChain ∅ ∅ ∅ (ChainView.mkView []) newCache d (mkBestState [] 0 0 0 0 0 0 0) (mkCpState None None)
    (newThresholdCaches 29) (newThresholdCaches 5) false None [].
Lemma stopped_blank d : blank (stopped d).
Proof. done. Qed.
Lemma stopped_db d : db (stopped d) = d.
Proof. done. Qed.
Definition emptyDb : ChainDb := mkChainDb ∅ (UtxoCache.mkDb ∅ None) ∅ (∅, ∅) [] ∅.
Definition started : BlockChain := (initChainState config genesisBlock (stopped emptyDb)).2.

Definition clock (round : nat) : Z := 7.
Definition order (p : orphanPool) : list orphanBlock := (map_to_list (orphans p)).*2.
Definition process (block : MsgBlock) (s : orphanPool * BlockChain) : outcome RuleError (bool * bool) * (orphanPool * BlockChain) :=
  ProcessBlock Z.log2 config 100 None 1701600800 5 clock order block BFNoPoWCheck s.

Definition coinbase (h n v : Z) : MsgTx := mkMsgTx 1 [mkTxIn (mkOutPoint zeroHash MaxUint32) [h; n] [] 0] [mkTxOut v [0x51]] 0.
Definition spend (op : OutPoint) (outs : list TxOut) (lockTime : Z) : MsgTx := mkMsgTx 1 [mkTxIn op [] [] MaxUint32] outs lockTime.
Definition blockOn (prev : BlockHeader) (time nonce : Z) (txs : list MsgTx) : MsgBlock :=
  mkMsgBlock (mkBlockHeader 4 (BlockHash prev) (Merkle.merkleRoot (TxHash <$> txs)) time 0x1d00ffff nonce) txs.

Definition cb1 : MsgTx := coinbase 1 2 5000.
Definition child : MsgBlock := blockOn genesisHeader 1701599710 0 [cb1].
Definition one : orphanPool * BlockChain := (process child (emptyPool, started)).2.

Lemma started_run : initChainState config genesisBlock (stopped emptyDb) = (Ok (), started).
Proof.
  assert (Hb : match (initChainState config genesisBlock (stopped emptyDb)).1 with Ok _ => true | _ => false end = true) by (vm_compute; reflexivity).
  unfold started. destruct (initChainState config genesisBlock (stopped emptyDb)) as [[[]|e| |] b]; [reflexivity|discriminate Hb..].
Qed.

(** The whole of ProcessBlock runs on the block and connects it. *)
Definition answer (r : outcome RuleError (bool * bool)) : option (bool * bool) := match r with Ok v => Some v | _ => None end.
Example child_connected : answer (process child (emptyPool, started)).1 = Some (true, false).
Proof. by vm_compute. Qed.

Lemma header_ok_intro h : (- 2 ^ 31 <=? bh_Version h) && (bh_Version h <? 2 ^ 31) && (length (PrevBlock h) =? 32)%nat && (length (MerkleRoot h) =? 32)%nat
  && (0 <=? Wire.Timestamp h) && (Wire.Timestamp h <? 2 ^ 32) && (0 <=? Wire.Bits h) && (Wire.Bits h <? 2 ^ 32) && (0 <=? Nonce h) && (Nonce h <? 2 ^ 32) = true ->
  Wire.header_ok h.
Proof. rewrite !andb_true_iff, !Nat.eqb_eq, !Z.leb_le, !Z.ltb_lt. intros H. split; try (apply H); lia. Qed.

Lemma toy_environment : environment config genesisBlock [child].
Proof.
  split.
  - by vm_compute.
  - intros block ->%list_elem_of_singleton. apply header_ok_intro. vm_compute. reflexivity.
  - intros a b ->%list_elem_of_singleton ->%list_elem_of_singleton _. reflexivity.
  - apply header_ok_intro. vm_compute. reflexivity.
  - reflexivity.
  - reflexivity.
Qed.

Lemma started_reachable : reachable Z.log2 config 100 None genesisBlock [child] emptyPool started.
Proof. apply (reach_new _ _ _ _ _ _ (stopped emptyDb)); [done|done|exact started_run]. Qed.

Lemma one_reachable : reachable Z.log2 config 100 None genesisBlock [child] one.1 one.2.
Proof.
  pose proof child_connected as Ha. unfold one in *.
  destruct (process child (emptyPool, started)) as [r [p b]] eqn:Hrun.
  apply (reach_process _ _ _ _ _ _ emptyPool started 1701600800 5 clock order child BFNoPoWCheck r); [exact started_reachable|by left|apply Permutation_refl|exact Hrun|..];
    intros ->; discriminate Ha.
Qed.

Definition tipHeight (b : BlockChain) : option Z := option_map height (tip (bestChain b)).
Lemma one_height : tipHeight one.2 = Some 1.
Proof. by vm_compute. Qed.

Lemma chain_state_invariant_witness : exists t, bestChain one.2 = view_of (Some t) /\ height t = 1.
Proof.
  destruct (chain_state_invariant Z.log2 config 100 None genesisBlock [child] toy_environment one.1 one.2 one_reachable) as (t & Hv & _).
  exists t. split; [exact Hv|]. pose proof one_height as Hh. unfold tipHeight in Hh. rewrite Hv, tip_view in Hh. by injection Hh.
Defined.

Lemma restart_restores_witness : exists b', initChainState config genesisBlock (stopped (db one.2)) = (Ok (), b') /\ bestChain b' = bestChain one.2.
Proof.
  destruct (restart_restores Z.log2 config 100 None genesisBlock [child] toy_environment one.1 one.2 (stopped (db one.2)) one_reachable
    (stopped_blank _) (stopped_db _)) as (b' & Hrun & _ & Hb & _). exists b'. split; [exact Hrun|exact Hb].
Defined.

Lemma best_chain_choice_witness : exists t, tip (bestChain started) = Some t /\ exists t', tip (bestChain one.2) = Some t' /\ workSum t <= workSum t'.
Proof.
  destruct (best_chain_choice Z.log2 config 100 None genesisBlock [child] toy_environment emptyPool started started_reachable) as (t & Ht & Hp & _).
  exists t. split; [exact Ht|]. pose proof child_connected as Ha. unfold one.
  destruct (process child (emptyPool, started)) as [[v|e| |] [p b]] eqn:Hrun; [|discriminate Ha..].
  apply (Hp 1701600800 5 clock order child BFNoPoWCheck v p b); [by left|apply Permutation_refl|exact Hrun].
Defined.

(** *** A refused block that leaves coins behind

    The block spends the coinbase of the first block, and then, in
    [forward], an output of the transaction after it.  checkConnectBlock
    passes it (see ConnectSafe.v); the cache of the utxo set then refuses it
    in the middle, with the coin of [mid] already in the cache and the coin
    that it spends gone.  The tip stays, but a block that spends the coin of
    [mid], which no block of the chain creates, is accepted afterwards. *)
Definition cb2 : MsgTx := coinbase 2 0 7000.
Definition mid : MsgTx := spend (mkOutPoint (TxHash cb1) 0) [mkTxOut 5000 [0x51]] 0.
Definition later : MsgTx := spend (mkOutPoint (TxHash mid) 0) [mkTxOut 2000 [0x51]; mkTxOut 3000 [0x51]] 0.
Definition forward : MsgTx := spend (mkOutPoint (TxHash later) 0) [mkTxOut 2000 [0x52]] 1.
Definition after : MsgTx := spend (mkOutPoint (TxHash later) 1) [mkTxOut 3000 [0x53]] 0.
Definition refused : MsgBlock := blockOn (Wire.Header child) 1701600310 1 [cb2; mid; forward; later; after].
Definition steal : MsgTx := spend (mkOutPoint (TxHash mid) 0) [mkTxOut 5000 [0x54]] 4.
Definition stealing : MsgBlock := blockOn (Wire.Header child) 1701600310 2 [coinbase 3 4 7000; steal].

Definition errorOf (r : outcome RuleError (bool * bool)) : option RuleError := match r with Err e => Some e | _ => None end.
Definition two : orphanPool * BlockChain := (process refused one).2.

Example refused_leaves_the_tip : errorOf (process refused one).1 = Some AssertError /\ tipHeight two.2 = Some 1.
Proof. split; by vm_compute. Qed.

Example phantom_coin_spent :
  errorOf (process stealing one).1 = Some ErrMissingTxOut /\
  answer (process stealing two).1 = Some (true, false) /\ tipHeight (process stealing two).2.2 = Some 2.
Proof. split_and!; by vm_compute. Qed.

End Toy.
End ChainStart.
