(* ===== verification/Treap.v ===== *)
(** * Treaps

    Models coin/OrcaNet/database/internal/treap: the nodes and the stack of
    parents of common.go, the mutable treap of mutable.go and the immutable
    one of immutable.go, which the database keeps its pending changes and its
    cache in.  Nodes live in a heap and are shared between the versions of an
    immutable treap; a pointer is the address of a node or nil, and reading
    through nil panics.  Priorities are drawn by the caller of Put.  Keys are
    byte strings; the database never uses a nil key.

    TreapFacts shows that both treaps are maps and that no operation changes
    an earlier version; TreapIter models the iterators. *)

From S2P Require Import Prelude.

Module Treap.

(** ** Nodes and the heap *)

Notation loc := positive (only parsing).
Notation ptr := (option positive) (only parsing).

Record treapNode := mkNode {
  key : list Z;
  value : list Z;
  priority : Z;
  left : ptr;
  right : ptr }.

Notation heap := (gmap positive treapNode) (only parsing).
Definition M (A : Type) : Type := stateful Empty_set heap A.

Definition alloc (n : treapNode) : M loc := fun h =>
  (Ok (fresh (dom h)), <[fresh (dom h) := n]> h).
Definition load (p : ptr) : M treapNode := fun h =>
  match p with
  | Some l => match h !! l with Some n => (Ok n, h) | None => (Panic, h) end
  | None => (Panic, h)
  end.
Definition update (p : ptr) (f : treapNode -> treapNode) : M unit := fun h =>
  match p with
  | Some l => match h !! l with Some n => (Ok (), <[l := f n]> h) | None => (Panic, h) end
  | None => (Panic, h)
  end.

Definition withValue (v : list Z) (n : treapNode) : treapNode :=
  mkNode (key n) v (priority n) (left n) (right n).
Definition withLeft (p : ptr) (n : treapNode) : treapNode :=
  mkNode (key n) (value n) (priority n) p (right n).
Definition withRight (p : ptr) (n : treapNode) : treapNode :=
  mkNode (key n) (value n) (priority n) (left n) p.

Definition nodeFieldsSize : Z := 72.
Definition nodeSize (n : treapNode) : Z :=
  u64 (nodeFieldsSize + u64 (Zlen (key n) + Zlen (value n))).
Definition newTreapNode (k v : list Z) (prio : Z) : M loc := alloc (mkNode k v prio None None).
Definition cloneTreapNode (p : ptr) : M loc := n ← load p; alloc n.

(** bytes.Compare. *)
Fixpoint Compare (a b : list Z) : comparison :=
  match a, b with
  | [], [] => Eq
  | [], _ :: _ => Lt
  | _ :: _, [] => Gt
  | x :: a, y :: b => match Z.compare x y with Eq => Compare a b | c => c end
  end.

(** ** The stack of parents

    An array of 128 pointers with a slice behind it, which is always as long
    as its capacity. *)

Definition staticDepth : Z := 128.
Record parentStack := mkStack { st_index : Z; items : list ptr; overflow : list ptr }.
Definition emptyStack : parentStack := mkStack 0 (replicate 128 None) [].

Definition Len (s : parentStack) : Z := st_index s.

Definition At (s : parentStack) (n : Z) : outcome Empty_set ptr :=
  let i := st_index s - n - 1 in
  if i <? 0 then Ok None
  else if i <? staticDepth then index (items s) i
  else index (overflow s) (i - staticDepth).

Definition Pop (s : parentStack) : outcome Empty_set (ptr * parentStack) :=
  if st_index s =? 0 then Ok (None, s)
  else
    let i := st_index s - 1 in
    if i <? staticDepth
    then node ← index (items s) i; Ok (node, mkStack i (<[Z.to_nat i := None]> (items s)) (overflow s))
    else
      let j := i - staticDepth in
      node ← index (overflow s) j; Ok (node, mkStack i (items s) (<[Z.to_nat j := None]> (overflow s))).

(** The array index of the static part is in range whenever the index of the
    stack is not negative, which it never is. *)
Definition Push (s : parentStack) (node : ptr) : parentStack :=
  if st_index s <? staticDepth
  then mkStack (st_index s + 1) (<[Z.to_nat (st_index s) := node]> (items s)) (overflow s)
  else
    let i := st_index s - staticDepth in
    let o := if Zlen (overflow s) <? i + 1
             then overflow s ++ replicate (Z.to_nat (i + 1 - Zlen (overflow s))) None
             else overflow s in
    mkStack (st_index s + 1) (items s) (<[Z.to_nat i := node]> o).

(** ** Searching *)

(** The node with a key and the parent of this node. *)
Fixpoint getLoop (fuel : nat) (k : list Z) (node parent : ptr) : M (ptr * ptr) :=
  match node with
  | None => mret (None, None)
  | Some _ =>
      match fuel with
      | O => lift Hang
      | S fuel =>
          n ← load node;
          match Compare k (key n) with
          | Lt => getLoop fuel k (left n) node
          | Gt => getLoop fuel k (right n) node
          | Eq => mret (node, parent)
          end
      end
  end.

(** The path to a key, with the last comparison and the node when it is
    found. *)
Fixpoint findLoop (fuel : nat) (k : list Z) (node : ptr) (parents : parentStack) (c : comparison)
    : M (parentStack * comparison * ptr) :=
  match node with
  | None => mret (parents, c, None)
  | Some _ =>
      match fuel with
      | O => lift Hang
      | S fuel =>
          let parents := Push parents node in
          n ← load node;
          match Compare k (key n) with
          | Lt => findLoop fuel k (left n) parents Lt
          | Gt => findLoop fuel k (right n) parents Gt
          | Eq => mret (parents, Eq, node)
          end
      end
  end.

(** There are at most as many nodes on a path as in the heap. *)
Definition enough (h : heap) : nat := S (size h).

(** ** Rotations *)

(** Where the old parent was, the grandparent now points to the node; the
    node is the root when there is no grandparent. *)
Definition relinkGrandparent (root node parent grandparent : ptr) : M ptr :=
  match grandparent with
  | None => mret node
  | Some _ =>
      g ← load grandparent;
      _ ← update grandparent (if bool_decide (left g = parent) then withLeft node else withRight node);
      mret root
  end.

(** Moves a new node up while its priority is less than its parent's;
    returns the root. *)
Fixpoint rotateUp (fuel : nat) (node : ptr) (parents : parentStack) (root : ptr) : M ptr :=
  if 0 <? Len parents then
    match fuel with
    | O => lift Hang
    | S fuel =>
        '(parent, parents) ← lift (Pop parents);
        n ← load node;
        p ← load parent;
        if priority p <=? priority n then mret root
        else
          _ ← (if bool_decide (left p = node)
               then _ ← update node (withRight parent); update parent (withLeft (right n))
               else _ ← update node (withLeft parent); update parent (withRight (left n)));
          grandparent ← lift (At parents 0);
          root ← relinkGrandparent root node parent grandparent;
          rotateUp fuel node parents root
    end
  else mret root.

(** The child that takes the place of a node on its way down, and whether it
    is the left one: of two children, the one with the higher priority. *)
Definition chooseChild (n : treapNode) : M (ptr * bool) :=
  match left n, right n with
  | None, r => mret (r, false)
  | l, None => mret (l, true)
  | l, r =>
      ln ← load l;
      rn ← load r;
      if priority rn <=? priority ln then mret (l, true) else mret (r, false)
  end.

(** Moves a node down until it is a leaf; returns the root and the parent of
    the leaf.  The immutable treap copies each child it changes. *)
Fixpoint rotateDown (fuel : nat) (copy : bool) (node parent root : ptr) : M (ptr * ptr) :=
  n ← load node;
  match left n, right n with
  | None, None => mret (root, parent)
  | _, _ =>
      match fuel with
      | O => lift Hang
      | S fuel =>
          '(child, isLeft) ← chooseChild n;
          child ← (if copy then c ← cloneTreapNode child; mret (Some c) else mret child);
          cn ← load child;
          _ ← (if (isLeft : bool)
               then _ ← update child (withRight node); update node (withLeft (right cn))
               else _ ← update child (withLeft node); update node (withRight (left cn)));
          root ← relinkGrandparent root child node parent;
          rotateDown fuel copy node child root
      end
  end.

(** Takes a leaf off its parent. *)
Definition dropLeaf (node parent : ptr) : M unit :=
  p ← load parent;
  update parent (if bool_decide (right p = node) then withRight None else withLeft None).

(** ** Walking the whole treap *)

(** Pushes a node and all nodes to the left of it. *)
Fixpoint pushLeft (fuel : nat) (node : ptr) (parents : parentStack) : M parentStack :=
  match node with
  | None => mret parents
  | Some _ =>
      match fuel with
      | O => lift Hang
      | S fuel => n ← load node; pushLeft fuel (left n) (Push parents node)
      end
  end.

(** The function that is called for each pair keeps a state of its own and
    says whether to go on. *)
Fixpoint visitLoop {A} (fuel : nat) (fn : A -> list Z -> list Z -> A * bool) (a : A) (parents : parentStack) : M A :=
  if 0 <? Len parents then
    match fuel with
    | O => lift Hang
    | S fuel =>
        '(node, parents) ← lift (Pop parents);
        n ← load node;
        let '(a, more) := fn a (key n) (value n) in
        if (more : bool) then
          h ← gets (fun h => h);
          parents ← pushLeft (enough h) (right n) parents;
          visitLoop fuel fn a parents
        else mret a
    end
  else mret a.

Definition visit {A} (fn : A -> list Z -> list Z -> A * bool) (a : A) (root : ptr) : M A :=
  h ← gets (fun h => h);
  parents ← pushLeft (enough h) root emptyStack;
  visitLoop (enough h) fn a parents.

(** ** The mutable treap *)

Module Mutable.

Record t := mk { root : ptr; count : Z; totalSize : Z }.
Definition NewMutable : t := mk None 0 0.
Definition Reset (_ : t) : t := mk None 0 0.
Definition Size (m : t) : Z := totalSize m.

Definition get (m : t) (k : list Z) : M (ptr * ptr) :=
  h ← gets (fun h => h); getLoop (enough h) k (root m) None.
Definition Has (m : t) (k : list Z) : M bool :=
  '(node, _) ← get m k; mret (bool_decide (node <> None)).
Definition Get (m : t) (k : list Z) : M (option (list Z)) :=
  '(node, _) ← get m k;
  match node with Some _ => n ← load node; mret (Some (value n)) | None => mret None end.

Definition Put (m : t) (k : list Z) (v : option (list Z)) (prio : Z) : M t :=
  let v := default [] v in
  match root m with
  | None =>
      node ← newTreapNode k v prio;
      n ← load (Some node);
      mret (mk (Some node) 1 (nodeSize n))
  | Some _ =>
      h ← gets (fun h => h);
      '(parents, c, found) ← findLoop (enough h) k (root m) emptyStack Eq;
      match found with
      | Some _ =>
          n ← load found;
          _ ← update found (withValue v);
          mret (mk (root m) (count m) (u64 (u64 (totalSize m - Zlen (value n)) + Zlen v)))
      | None =>
          node ← newTreapNode k v prio;
          n ← load (Some node);
          parent ← lift (At parents 0);
          _ ← update parent (match c with Lt => withLeft (Some node) | _ => withRight (Some node) end);
          h ← gets (fun h => h);
          root ← rotateUp (enough h) (Some node) parents (root m);
          mret (mk root (i64 (count m + 1)) (u64 (totalSize m + nodeSize n)))
      end
  end.

Definition Delete (m : t) (k : list Z) : M t :=
  '(node, parent) ← get m k;
  match node with
  | None => mret m
  | Some _ =>
      n ← load node;
      match parent, left n, right n with
      | None, None, None => mret (mk None 0 0)
      | _, _, _ =>
          h ← gets (fun h => h);
          '(root, parent) ← rotateDown (enough h) false node parent (root m);
          _ ← dropLeaf node parent;
          n ← load node;
          mret (mk root (i64 (count m - 1)) (u64 (totalSize m - nodeSize n)))
      end
  end.

Definition ForEach {A} (m : t) (fn : A -> list Z -> list Z -> A * bool) (a : A) : M A := visit fn a (root m).

End Mutable.

(** ** The immutable treap *)

Module Immutable.

Record t := newImmutable { root : ptr; count : Z; totalSize : Z }.
Definition NewImmutable : t := newImmutable None 0 0.
Definition Size (m : t) : Z := totalSize m.

Definition get (m : t) (k : list Z) : M ptr :=
  h ← gets (fun h => h); '(node, _) ← getLoop (enough h) k (root m) None; mret node.
Definition Has (m : t) (k : list Z) : M bool :=
  node ← get m k; mret (bool_decide (node <> None)).
Definition Get (m : t) (k : list Z) : M (option (list Z)) :=
  node ← get m k;
  match node with Some _ => n ← load node; mret (Some (value n)) | None => mret None end.

(** Copies a node, links the copy to the copy of its parent, and pushes it. *)
Definition cloneOnto (node : ptr) (parents : parentStack) : M (loc * parentStack) :=
  copy ← cloneTreapNode node;
  oldParent ← lift (At parents 0);
  _ ← match oldParent with
      | Some _ =>
          o ← load oldParent;
          update oldParent (if bool_decide (left o = node) then withLeft (Some copy) else withRight (Some copy))
      | None => mret ()
      end;
  mret (copy, Push parents (Some copy)).

(** The path to a key with every node of it copied, the last comparison, and
    the copy and the node when the key is found. *)
Fixpoint cloneLoop (fuel : nat) (k : list Z) (node : ptr) (parents : parentStack) (c : comparison)
    : M (parentStack * comparison * option (loc * treapNode)) :=
  match node with
  | None => mret (parents, c, None)
  | Some _ =>
      match fuel with
      | O => lift Hang
      | S fuel =>
          '(copy, parents) ← cloneOnto node parents;
          n ← load node;
          match Compare k (key n) with
          | Lt => cloneLoop fuel k (left n) parents Lt
          | Gt => cloneLoop fuel k (right n) parents Gt
          | Eq => mret (parents, Eq, Some (copy, n))
          end
      end
  end.

Definition Put (m : t) (k : list Z) (v : option (list Z)) (prio : Z) : M t :=
  let v := default [] v in
  match root m with
  | None =>
      node ← newTreapNode k v prio;
      n ← load (Some node);
      mret (newImmutable (Some node) 1 (nodeSize n))
  | Some _ =>
      h ← gets (fun h => h);
      '(parents, c, found) ← cloneLoop (enough h) k (root m) emptyStack Eq;
      match found with
      | Some (copy, n) =>
          _ ← update (Some copy) (withValue v);
          newRoot ← lift (At parents (Len parents - 1));
          mret (newImmutable newRoot (count m) (u64 (u64 (totalSize m - Zlen (value n)) + Zlen v)))
      | None =>
          node ← newTreapNode k v prio;
          parent ← lift (At parents 0);
          _ ← update parent (match c with Lt => withLeft (Some node) | _ => withRight (Some node) end);
          newRoot ← lift (At parents (Len parents - 1));
          h ← gets (fun h => h);
          newRoot ← rotateUp (enough h) (Some node) parents newRoot;
          n ← load (Some node);
          mret (newImmutable newRoot (i64 (count m + 1)) (u64 (totalSize m + nodeSize n)))
      end
  end.

(** Copies the nodes of a path, from the root on; [i] of them are left. *)
Fixpoint cloneParents (i : nat) (parents newParents : parentStack) : M parentStack :=
  match i with
  | O => mret newParents
  | S i =>
      node ← lift (At parents (Z.of_nat i));
      '(_, newParents) ← cloneOnto node newParents;
      cloneParents i parents newParents
  end.

Definition Delete (m : t) (k : list Z) : M t :=
  h ← gets (fun h => h);
  '(parents, _, delNode) ← findLoop (enough h) k (root m) emptyStack Eq;
  match delNode with
  | None => mret m
  | Some _ =>
      parent ← lift (At parents 1);
      d ← load delNode;
      match parent, left d, right d with
      | None, None, None => mret (newImmutable None 0 0)
      | _, _, _ =>
          newParents ← cloneParents (Z.to_nat (Len parents)) parents emptyStack;
          '(delNode, newParents) ← lift (Pop newParents);
          parent ← lift (At newParents 0);
          newRoot ← lift (At newParents (Len newParents - 1));
          h ← gets (fun h => h);
          '(newRoot, parent) ← rotateDown (enough h) true delNode parent newRoot;
          _ ← dropLeaf delNode parent;
          d ← load delNode;
          mret (newImmutable newRoot (i64 (count m - 1)) (u64 (totalSize m - nodeSize d)))
      end
  end.

Definition ForEach {A} (m : t) (fn : A -> list Z -> list Z -> A * bool) (a : A) : M A := visit fn a (root m).

End Immutable.

End Treap.
