(* ===== verification/TreapFacts.v ===== *)
(** * Treaps in the heap

    What the loops of Treap do to the nodes: the order of keys, the stack of
    parents as a list, trees whose nodes carry their addresses and the parts
    of a tree above a hole, and for each loop the tree that it leaves and the
    part of the heap that it does not touch. *)

From S2P Require Import Prelude Treap.

Module TreapFacts.
Import Treap.

(** ** The order of keys *)

Definition before (a b : list Z) : Prop := Compare a b = Lt.

Lemma Compare_refl a : Compare a a = Eq.
Proof. induction a as [|x a IH]; [done|]. cbn. by rewrite Z.compare_refl. Qed.

Lemma Compare_eq a b : Compare a b = Eq <-> a = b.
Proof.
  split; [|intros ->; apply Compare_refl]. revert b. induction a as [|x a IH]; intros [|y b]; cbn; try done.
  destruct (Z.compare_spec x y) as [->| |]; try done. intros H. f_equal. by apply IH.
Qed.

Lemma Compare_antisym a b : Compare b a = CompOpp (Compare a b).
Proof.
  revert b. induction a as [|x a IH]; intros [|y b]; cbn; try done.
  rewrite (Z.compare_antisym x y). destruct (Z.compare x y); cbn; [apply IH|done..].
Qed.

Lemma Compare_gt a b : Compare a b = Gt <-> before b a.
Proof. unfold before. rewrite (Compare_antisym a b). by destruct (Compare a b). Qed.

#[export] Instance before_trans : Transitive before.
Proof.
  unfold before. intros a. induction a as [|x a IH]; intros [|y b] [|z c]; cbn; try done.
  destruct (Z.compare_spec x y) as [->|Hxy|]; [..|done].
  - destruct (Z.compare y z); [apply IH|done..].
  - destruct (Z.compare_spec y z) as [->| |]; try done; intros _ _; by rewrite (proj2 (Z.compare_lt_iff x z)) by lia.
Qed.

Lemma before_irrefl a : ~ before a a.
Proof. unfold before. by rewrite Compare_refl. Qed.

(** ** The stack of parents is a list *)

Definition holds (s : parentStack) (l : list loc) : Prop :=
  (exists k, items s ++ overflow s = (Some <$> reverse l) ++ replicate k None) /\
  length (items s) = 128%nat /\ st_index s = Zlen l.

Lemma emptyStack_holds : holds emptyStack [].
Proof. split; [|done]. exists 128%nat. cbn [items overflow emptyStack]. by rewrite app_nil_r. Qed.

Lemma Len_holds s l : holds s l -> Len s = Zlen l.
Proof. by intros (_ & _ & H). Qed.

(** Both parts of the stack are one list. *)
Lemma index_parts (s : parentStack) i :
  length (items s) = 128%nat -> 0 <= i ->
  (if i <? staticDepth then index (items s) i else index (overflow s) (i - staticDepth)) =
  index (E := Empty_set) (items s ++ overflow s) i.
Proof.
  intros Hlen Hi. unfold staticDepth. destruct (Z.ltb_spec i 128).
  - unfold index. rewrite !decide_True by done. by rewrite lookup_app_l by lia.
  - replace i with (Zlen (items s) + (i - 128)) at 2 by (unfold Zlen; lia).
    by rewrite index_app_r by lia.
Qed.

Lemma rev_index (l : list loc) n : (n < length l)%nat -> reverse l !! (length l - n - 1)%nat = l !! n.
Proof. intros Hn. rewrite reverse_lookup by lia. f_equal. lia. Qed.

Lemma At_holds s l n : holds s l -> At s (Z.of_nat n) = Ok (l !! n).
Proof.
  intros ([k Hk] & Hlen & Hi). unfold At. rewrite Hi. unfold Zlen at 1. cbn zeta.
  destruct (Z.ltb_spec (Z.of_nat (length l) - Z.of_nat n - 1) 0).
  - symmetry. f_equal. apply lookup_ge_None. unfold Zlen in *. lia.
  - change (Z.of_nat (length l)) with (Zlen l). rewrite index_parts by (unfold Zlen; lia || done). rewrite Hk.
    apply index_ok_iff. split; [unfold Zlen; lia|]. unfold Zlen.
    replace (Z.to_nat _) with (length l - n - 1)%nat by lia.
    rewrite lookup_app_l by (rewrite length_fmap, length_reverse; lia).
    rewrite list_lookup_fmap, rev_index by lia. destruct (lookup_lt_is_Some_2 l n) as [x ->]; [lia|done].
Qed.

Lemma At_nil s : holds s [] -> At s (Len s - 1) = Ok None.
Proof.
  intros ([k Hk] & Hlen & Hi). unfold At, Len. rewrite Hi. change (Zlen (@nil loc)) with 0. change (0 - (0 - 1) - 1) with 0. cbn zeta.
  rewrite index_parts by done. rewrite Hk. cbn [reverse fmap list_fmap app]. destruct k; [|done].
  apply (f_equal length) in Hk. rewrite length_app in Hk. cbn in Hk. lia.
Qed.

Lemma Pop_nil s : holds s [] -> Pop s = Ok (None, s).
Proof. intros (_ & _ & Hi). unfold Pop. by rewrite Hi. Qed.

Lemma snoc_replicate {A} (x : A) k : x :: replicate k x = replicate (S k) x.
Proof. done. Qed.

Lemma Pop_holds s x l : holds s (x :: l) -> exists s', Pop s = Ok (Some x, s') /\ holds s' l.
Proof.
  intros ([k Hk] & Hlen & Hi). unfold Pop. rewrite Zlen_cons in Hi. rewrite Hi.
  pose proof (Zlen_nonneg l). rewrite (proj2 (Z.eqb_neq _ _)) by lia. cbn zeta. rewrite Z.add_simpl_r.
  rewrite reverse_cons, fmap_app in Hk. cbn [fmap list_fmap] in Hk.
  assert (Hat : index (E := Empty_set) (items s ++ overflow s) (Zlen l) = Ok (Some x)).
  { rewrite Hk. apply index_ok_iff. split; [lia|]. rewrite <- app_assoc.
    rewrite lookup_app_r by (rewrite length_fmap, length_reverse; unfold Zlen; lia).
    rewrite length_fmap, length_reverse. unfold Zlen. by rewrite Nat2Z.id, Nat.sub_diag. }
  assert (Hset : <[Z.to_nat (Zlen l) := None]> (items s ++ overflow s) = (Some <$> reverse l) ++ replicate (S k) None).
  { rewrite Hk, <- app_assoc. rewrite insert_app_r_alt by (rewrite length_fmap, length_reverse; unfold Zlen; lia).
    rewrite length_fmap, length_reverse. unfold Zlen. by rewrite Nat2Z.id, Nat.sub_diag. }
  rewrite <- index_parts in Hat by done. destruct (Z.ltb_spec (Zlen l) staticDepth) as [Hlt|Hge]; rewrite Hat.
  - eexists. split; [done|]. split; [exists (S k)|]; cbn [items overflow st_index].
    + by rewrite <- Hset, insert_app_l by (unfold staticDepth in Hlt; lia).
    + by rewrite length_insert.
  - eexists. split; [done|]. split; [exists (S k)|]; cbn [items overflow st_index]; [|done].
    rewrite <- Hset. unfold staticDepth in *. rewrite insert_app_r_alt by lia. do 2 f_equal. lia.
Qed.

Lemma Push_holds s l x : holds s l -> holds (Push s (Some x)) (x :: l).
Proof.
  intros ([k Hk] & Hlen & Hi). unfold Push. pose proof (Zlen_nonneg l).
  assert (Hall : (128 + length (overflow s) = length l + k)%nat).
  { apply (f_equal length) in Hk. rewrite !length_app, length_fmap, length_reverse, length_replicate in Hk. lia. }
  assert (Hset : forall j, <[length l := Some x]> ((Some <$> reverse l) ++ replicate (S j) None) =
                  (Some <$> reverse (x :: l)) ++ replicate j None).
  { intros j. rewrite insert_app_r_alt by (rewrite length_fmap, length_reverse; lia).
    rewrite length_fmap, length_reverse, Nat.sub_diag. by rewrite reverse_cons, fmap_app, <- app_assoc. }
  rewrite Hi. unfold staticDepth. destruct (Z.ltb_spec (Zlen l) 128) as [Hlt|Hge].
  - split; [|split]; cbn [items overflow st_index]; [|by rewrite length_insert|by rewrite Zlen_cons].
    unfold Zlen in *. rewrite Nat2Z.id. destruct k as [|k]; [lia|]. exists k.
    by rewrite <- Hset, <- Hk, insert_app_l by lia.
  - split; [|split]; cbn [items overflow st_index]; [|done|by rewrite Zlen_cons].
    unfold Zlen in *. replace (Z.to_nat (Z.of_nat (length l) - 128)) with (length l - 128)%nat by lia.
    destruct (Z.ltb_spec (Z.of_nat (length (overflow s))) (Z.of_nat (length l) - 128 + 1)) as [Hroom|Hroom].
    + assert (k = 0)%nat as -> by lia. exists 0%nat. rewrite <- Hset. cbn [replicate] in *.
      replace (Z.to_nat _) with 1%nat by lia. cbn [replicate].
      rewrite <- (app_nil_r (Some <$> reverse l)), <- Hk, <- app_assoc.
      rewrite (insert_app_r_alt (items s)) by lia. do 2 f_equal. lia.
    + destruct k as [|k]; [lia|]. exists k. rewrite <- Hset, <- Hk. rewrite insert_app_r_alt by lia. do 2 f_equal. lia.
Qed.

(** ** Trees and where they are stored

    A tree carries at each node the address of the node, or nothing. *)

Inductive tree (L : Type) : Type :=
| Leaf
| Node (l : L) (k v : list Z) (p : Z) (a b : tree L).
Arguments Leaf {L}.
Arguments Node {L} l k v p a b.

(** The part of a tree above a hole at the left or at the right of a node. *)
Inductive frame (L : Type) : Type :=
| InLeft (l : L) (k v : list Z) (p : Z) (b : tree L)
| InRight (l : L) (k v : list Z) (p : Z) (a : tree L).
Arguments InLeft {L} l k v p b.
Arguments InRight {L} l k v p a.

Section Trees.
Context {L : Type}.

Definition plug1 (f : frame L) (t : tree L) : tree L :=
  match f with InLeft l k v p b => Node l k v p t b | InRight l k v p a => Node l k v p a t end.
Fixpoint plug (c : list (frame L)) (t : tree L) : tree L :=
  match c with [] => t | f :: c => plug c (plug1 f t) end.

Definition label (f : frame L) : L := match f with InLeft l _ _ _ _ | InRight l _ _ _ _ => l end.
Definition sibling (f : frame L) : tree L := match f with InLeft _ _ _ _ t | InRight _ _ _ _ t => t end.
Definition prio (f : frame L) : Z := match f with InLeft _ _ _ p _ | InRight _ _ _ p _ => p end.

Fixpoint labels (t : tree L) : list L :=
  match t with Leaf => [] | Node l _ _ _ a b => l :: labels a ++ labels b end.
Fixpoint labelsC (c : list (frame L)) : list L :=
  match c with [] => [] | f :: c => label f :: labels (sibling f) ++ labelsC c end.

Definition root_of (t : tree L) : option L := match t with Leaf => None | Node l _ _ _ _ _ => Some l end.

Fixpoint tsize (t : tree L) : nat := match t with Leaf => 0 | Node _ _ _ _ a b => S (tsize a + tsize b) end.

(** The pairs in the order of the tree. *)
Fixpoint pairs (t : tree L) : list (list Z * list Z) :=
  match t with Leaf => [] | Node _ k v _ a b => pairs a ++ (k, v) :: pairs b end.
Fixpoint pairsL (c : list (frame L)) : list (list Z * list Z) :=
  match c with
  | [] => []
  | InLeft _ _ _ _ _ :: c => pairsL c
  | InRight _ k v _ a :: c => pairsL c ++ pairs a ++ [(k, v)]
  end.
Fixpoint pairsR (c : list (frame L)) : list (list Z * list Z) :=
  match c with
  | [] => []
  | InLeft _ k v _ b :: c => (k, v) :: pairs b ++ pairsR c
  | InRight _ _ _ _ _ :: c => pairsR c
  end.

Lemma pairs_plug c t : pairs (plug c t) = pairsL c ++ pairs t ++ pairsR c.
Proof.
  revert t. induction c as [|[l k v p b|l k v p a] c IH]; intros t; cbn; [by rewrite app_nil_r|..];
    rewrite IH; cbn; by rewrite <- ?app_assoc.
Qed.

Lemma labels_plug c t : labels (plug c t) ≡ₚ labelsC c ++ labels t.
Proof.
  revert t. induction c as [|[l k v p b|l k v p a] c IH]; intros t; cbn [plug labelsC app]; [done|..];
    rewrite IH; cbn [plug1 labels label sibling]; rewrite <- Permutation_middle; f_equiv; solve_Permutation.
Qed.

Lemma tsize_labels t : length (labels t) = tsize t.
Proof. induction t as [|l k v p a IHa b IHb]; cbn; [done|]. by rewrite length_app, IHa, IHb. Qed.

Lemma tsize_pairs t : length (pairs t) = tsize t.
Proof. induction t as [|l k v p a IHa b IHb]; cbn; [done|]. rewrite length_app. cbn. lia. Qed.

Lemma root_plug f c t : root_of (plug (f :: c) t) = Some (label (List.last c f)).
Proof.
  revert f t. induction c as [|g c IH]; intros f t; [by destruct f|].
  change (plug (f :: g :: c) t) with (plug (g :: c) (plug1 f t)). rewrite IH.
  destruct c; [done|]. cbn [List.last]. f_equal. clear. revert f0 g f. induction c; intros; [done|]. cbn. auto.
Qed.

Lemma root_above f c g (t t' : tree L) : root_of (plug (f :: c) t) = root_of (plug (g :: f :: c) t').
Proof. change (plug (g :: f :: c) t') with (plug (f :: c) (plug1 g t')). by rewrite !root_plug. Qed.

End Trees.

Fixpoint erase {L} (t : tree L) : tree unit :=
  match t with Leaf => Leaf | Node _ k v p a b => Node tt k v p (erase a) (erase b) end.
Definition erase1 {L} (f : frame L) : frame unit :=
  match f with
  | InLeft _ k v p b => InLeft tt k v p (erase b)
  | InRight _ k v p a => InRight tt k v p (erase a)
  end.

Lemma erase_plug {L} (c : list (frame L)) t : erase (plug c t) = plug (erase1 <$> c) (erase t).
Proof. revert t. induction c as [|[] c IH]; intros; cbn; [done|..]; by rewrite IH. Qed.

Lemma pairs_erase {L} (t : tree L) : pairs (erase t) = pairs t.
Proof. induction t as [|l k v p a IHa b IHb]; cbn; [done|]. by rewrite IHa, IHb. Qed.

Lemma tsize_erase {L} (t : tree L) : tsize (erase t) = tsize t.
Proof. induction t as [|l k v p a IHa b IHb]; cbn; [done|]. by rewrite IHa, IHb. Qed.

(** A tree is stored when each of its nodes is at its address, with pointers
    to its children. *)
Fixpoint stored (h : heap) (t : tree loc) : Prop :=
  match t with
  | Leaf => True
  | Node l k v p a b =>
      h !! l = Some (mkNode k v p (root_of a) (root_of b)) /\ stored h a /\ stored h b
  end.

(** The node of a frame, with what the hole points to. *)
Definition holed (f : frame loc) (q : ptr) : treapNode :=
  match f with
  | InLeft _ k v p b => mkNode k v p q (root_of b)
  | InRight _ k v p a => mkNode k v p (root_of a) q
  end.
Fixpoint storedC (h : heap) (c : list (frame loc)) (q : ptr) : Prop :=
  match c with
  | [] => True
  | f :: c => h !! label f = Some (holed f q) /\ stored h (sibling f) /\ storedC h c (Some (label f))
  end.

Lemma stored_plug h c t : stored h (plug c t) <-> storedC h c (root_of t) /\ stored h t.
Proof.
  revert t. induction c as [|[l k v p b|l k v p a] c IH]; intros t; cbn [plug storedC]; [tauto|..];
    rewrite IH; cbn; tauto.
Qed.

Lemma stored_insert h t l n : l ∉ labels t -> stored h t -> stored (<[l:=n]> h) t.
Proof.
  induction t as [|l' k v p a IHa b IHb]; cbn; [done|]. rewrite not_elem_of_cons, not_elem_of_app.
  intros (Hl & Ha & Hb) (Hn & Hsa & Hsb). rewrite lookup_insert_ne by done. auto.
Qed.

Lemma storedC_insert h c q l n : l ∉ labelsC c -> storedC h c q -> storedC (<[l:=n]> h) c q.
Proof.
  revert q. induction c as [|f c IH]; intros q; cbn; [done|]. rewrite not_elem_of_cons, not_elem_of_app.
  intros (Hl & Ha & Hb) (Hn & Hsa & Hsb). rewrite lookup_insert_ne by done. auto using stored_insert.
Qed.

Lemma stored_dom h t : stored h t -> Forall (fun l => l ∈ dom h) (labels t).
Proof.
  induction t as [|l k v p a IHa b IHb]; cbn; [done|]. intros (Hn & Ha & Hb).
  apply list.Forall_cons. split; [by apply elem_of_dom_2 in Hn|]. apply list.Forall_app. auto.
Qed.

Lemma labels_bound h t : stored h t -> NoDup (labels t) -> (tsize t <= size h)%nat.
Proof.
  intros Hs Hnd. rewrite <- tsize_labels, <- (size_dom h), <- (size_list_to_set (C := gset loc)) by done.
  apply subseteq_size. intros l Hl. apply elem_of_list_to_set in Hl.
  exact (proj1 (list.Forall_forall _ _) (stored_dom h t Hs) l Hl).
Qed.

(** The children of a stored node are found. *)
Lemma load_ok h l n : h !! l = Some n -> load (Some l) h = (Ok n, h).
Proof. intros H. unfold load. by rewrite H. Qed.

Lemma update_ok h l n f : h !! l = Some n -> update (Some l) f h = (Ok (), <[l := f n]> h).
Proof. intros H. unfold update. by rewrite H. Qed.

Lemma clone_ok h l n : h !! l = Some n -> cloneTreapNode (Some l) h = (Ok (fresh (dom h)), <[fresh (dom h) := n]> h).
Proof. intros H. unfold cloneTreapNode. by rewrite (stateful_step _ _ _ _ _ (load_ok h l n H)). Qed.

Lemma fresh_None (h : heap) : h !! fresh (dom h) = None.
Proof. apply not_elem_of_dom, is_fresh. Qed.

Lemma stored_fresh (h : heap) t : stored h t -> fresh (dom h) ∉ labels t.
Proof.
  intros Hs Hin. apply (is_fresh (dom h)). exact (proj1 (list.Forall_forall _ _) (stored_dom h t Hs) _ Hin).
Qed.

(** ** What the operations compute on trees *)

Section Pure.
Context {L : Type}.

(** The place of a key, with the path above it. *)
Fixpoint descend (k : list Z) (t : tree L) (c : list (frame L)) : list (frame L) * tree L :=
  match t with
  | Leaf => (c, Leaf)
  | Node l k' v p a b =>
      match Compare k k' with
      | Lt => descend k a (InLeft l k' v p b :: c)
      | Gt => descend k b (InRight l k' v p a :: c)
      | Eq => (c, t)
      end
  end.

(** A node takes the place of its parent. *)
Definition turn (f : frame L) (t : tree L) : tree L :=
  match t with
  | Leaf => Leaf
  | Node l k v p x y =>
      match f with
      | InLeft lp kp vp pp b => Node l k v p x (Node lp kp vp pp y b)
      | InRight lp kp vp pp a => Node l k v p (Node lp kp vp pp a x) y
      end
  end.

(** A node rotates up while its priority is less than its parent's. *)
Fixpoint bubble (c : list (frame L)) (t : tree L) : tree L :=
  match c, t with
  | f :: c', Node l k v p x y =>
      if prio f <=? p then plug c t
      else bubble c' (turn f t)
  | _, _ => plug c t
  end.

(** What is left when a node has been rotated down between two trees and
    taken off. *)
Fixpoint join (a : tree L) : tree L -> tree L :=
  match a with
  | Leaf => fun b => b
  | Node la ka va pa a1 a2 =>
      fix joinA (b : tree L) : tree L :=
        match b with
        | Leaf => Node la ka va pa a1 (join a2 Leaf)
        | Node lb kb vb pb b1 b2 =>
            if pb <=? pa then Node la ka va pa a1 (join a2 b) else Node lb kb vb pb (joinA b1) b2
        end
  end.

Lemma join_leaf_r a : join a Leaf = a.
Proof. induction a as [|l k v p a1 IH1 a2 IH2]; [done|]. cbn. by rewrite IH2. Qed.

Lemma join_nodes la ka va pa a1 a2 lb kb vb pb b1 b2 :
  join (Node la ka va pa a1 a2) (Node lb kb vb pb b1 b2) =
  (if pb <=? pa then Node la ka va pa a1 (join a2 (Node lb kb vb pb b1 b2))
   else Node lb kb vb pb (join (Node la ka va pa a1 a2) b1) b2).
Proof. done. Qed.

Lemma pairs_join a b : pairs (join a b) = pairs a ++ pairs b.
Proof.
  revert b. induction a as [|la ka va pa a1 IH1 a2 IH2]; intros b; [done|].
  induction b as [|lb kb vb pb b1 IHb1 b2 IHb2].
  - rewrite join_leaf_r. cbn. by rewrite app_nil_r.
  - rewrite join_nodes. destruct (pb <=? pa).
    + cbn [pairs]. rewrite IH2. cbn [pairs]. by rewrite <- !app_assoc.
    + cbn [pairs]. rewrite IHb1. cbn [pairs]. by rewrite <- !app_assoc.
Qed.

Lemma pairs_bubble c t : pairs (bubble c t) = pairs (plug c t).
Proof.
  revert t. induction c as [|f c IH]; intros t; [done|]. destruct t as [|l k v p x y]; [done|].
  cbn [bubble]. destruct (prio f <=? p); [done|]. rewrite IH. cbn [plug]. rewrite !pairs_plug.
  f_equal. f_equal. destruct f; cbn; by rewrite <- !app_assoc.
Qed.

Lemma descend_plug k t c : plug (descend k t c).1 (descend k t c).2 = plug c t.
Proof.
  revert c. induction t as [|l k' v p a IHa b IHb]; intros c; cbn; [done|].
  destruct (Compare k k'); [done|by rewrite IHa|by rewrite IHb].
Qed.

Lemma labels_bubble c t : labels (bubble c t) ≡ₚ labelsC c ++ labels t.
Proof.
  revert t. induction c as [|f c IH]; intros t; [done|]. destruct t as [|l k v p x y].
  { cbn [bubble]. by rewrite labels_plug. }
  cbn [bubble]. destruct (prio f <=? p); [by rewrite labels_plug|]. rewrite IH. destruct f; cbn; solve_Permutation.
Qed.

End Pure.

Lemma descend_erase {L} k (t : tree L) c :
  descend k (erase t) (erase1 <$> c) = (erase1 <$> (descend k t c).1, erase (descend k t c).2).
Proof.
  revert c. induction t as [|l k' v p a IHa b IHb]; intros c; cbn; [done|].
  destruct (Compare k k'); [done|apply (IHa (InLeft l k' v p b :: c))|apply (IHb (InRight l k' v p a :: c))].
Qed.

Lemma bubble_erase {L} (c : list (frame L)) t : erase (bubble c t) = bubble (erase1 <$> c) (erase t).
Proof.
  revert t. induction c as [|f c IH]; intros t; [done|]. destruct t as [|l k v p x y].
  { cbn [bubble]. by rewrite erase_plug. }
  cbn [bubble fmap list_fmap erase]. replace (prio (erase1 f)) with (prio f) by by destruct f.
  destruct (prio f <=? p); [by rewrite erase_plug|]. rewrite IH. by destruct f.
Qed.

(** Put and Delete on trees. *)
Definition putTree (k v : list Z) (p : Z) (t : tree unit) : tree unit :=
  let '(c, s) := descend k t [] in
  match s with
  | Leaf => bubble c (Node tt k v p Leaf Leaf)
  | Node _ k' _ p' a b => plug c (Node tt k' v p' a b)
  end.
Definition deleteTree (k : list Z) (t : tree unit) : tree unit :=
  let '(c, s) := descend k t [] in
  match s with
  | Leaf => t
  | Node _ _ _ _ a b => plug c (join a b)
  end.

(** ** Moving nodes in the heap *)

(** The part [own] of a heap belongs to others and stays. *)
Definition free_of (own : heap) (l : list loc) : Prop := Forall (fun x => own !! x = None) l.

Lemma free_of_app own a b : free_of own (a ++ b) <-> free_of own a /\ free_of own b.
Proof. apply list.Forall_app. Qed.

Lemma kept_insert (own h : heap) l n : own !! l = None -> own ⊆ h -> own ⊆ <[l:=n]> h.
Proof. intros. by apply insert_subseteq_r. Qed.

(** A node replaces another one as the child of the frame above. *)
Definition relinked (h : heap) (c : list (frame loc)) (q : ptr) : heap :=
  match c with [] => h | f :: _ => <[label f := holed f q]> h end.

Lemma withChild f lo q : lo ∉ labels (sibling f) ->
  (if bool_decide (left (holed f (Some lo)) = Some lo) then withLeft q else withRight q) (holed f (Some lo)) = holed f q.
Proof.
  destruct f as [l k v p b|l k v p a]; cbn [left holed sibling]; intros Hlo.
  - by rewrite bool_decide_true.
  - rewrite bool_decide_false; [done|]. intros Ha. destruct a; [done|]. cbn in Ha. injection Ha as ->.
    apply Hlo. by constructor.
Qed.

Lemma storedC_relinked h c q q' : storedC h c q -> NoDup (labelsC c) -> storedC (relinked h c q') c q'.
Proof.
  destruct c as [|f c]; [done|]. cbn. intros (_ & Hs & Hc) Hnd.
  apply list.NoDup_cons in Hnd as [Hf Hnd]. apply not_elem_of_app in Hf as [Hf1 Hf2].
  split; [apply lookup_insert_eq|]. auto using stored_insert, storedC_insert.
Qed.

Lemma stored_relinked h c q t : (forall l, l ∈ labelsC c -> l ∉ labels t) -> stored h t -> stored (relinked h c q) t.
Proof. destruct c as [|f c]; [done|]. cbn. intros Hl. apply stored_insert, Hl. by constructor. Qed.

Lemma kept_relinked own h c q : free_of own (label <$> c) -> own ⊆ h -> own ⊆ relinked h c q.
Proof. destruct c as [|f c]; [done|]. cbn. intros Hf. apply kept_insert. by apply list.Forall_cons in Hf as [? _]. Qed.

Lemma relink_ok h c lo q r :
  storedC h c (Some lo) -> lo ∉ labelsC c ->
  relinkGrandparent r q (Some lo) (head (label <$> c)) h =
    (Ok (match c with [] => q | _ => r end), relinked h c q).
Proof.
  destruct c as [|f c]; [done|]. cbn [storedC head fmap list_fmap labelsC relinkGrandparent].
  rewrite not_elem_of_cons, not_elem_of_app. intros (Hf & _ & _) (_ & Hs & _).
  rewrite (stateful_step _ _ _ _ _ (load_ok _ _ _ Hf)). unfold mbind, stateful_bind.
  rewrite (update_ok _ _ _ _ Hf). cbn [mret stateful_ret relinked]. by rewrite withChild.
Qed.

(** Only the addresses of a list have changed. *)
Definition only (S : list loc) (h h' : heap) : Prop := forall z, z ∉ S -> h' !! z = h !! z.

Lemma only_refl S h : only S h h.
Proof. by intros z. Qed.
Lemma only_insert h l n : only [l] h (<[l:=n]> h).
Proof. intros z Hz. apply lookup_insert_ne. intros ->. apply Hz. by constructor. Qed.
Lemma only_trans S T h1 h2 h3 : only S h1 h2 -> only T h2 h3 -> only (S ++ T) h1 h3.
Proof. intros H1 H2 z Hz. apply not_elem_of_app in Hz as [? ?]. by rewrite H2, H1. Qed.
Lemma only_relinked h c q : only (label <$> c) h (relinked h c q).
Proof.
  destruct c as [|f c]; [apply only_refl|]. cbn. intros z Hz. apply lookup_insert_ne. intros <-. apply Hz. by constructor.
Qed.

Lemma stored_only S h h' t : only S h h' -> (forall z, z ∈ S -> z ∉ labels t) -> stored h t -> stored h' t.
Proof.
  intros Ho. induction t as [|l k v p a IHa b IHb]; cbn; [done|]. intros Hd (Hn & Ha & Hb).
  rewrite (Ho l) by (intros Hl; apply (Hd l Hl); constructor). split; [done|].
  split; [apply IHa|apply IHb]; try done; intros z Hz Hin; apply (Hd z Hz), list_elem_of_further, elem_of_app; auto.
Qed.

Lemma storedC_only S h h' c q : only S h h' -> (forall z, z ∈ S -> z ∉ labelsC c) -> storedC h c q -> storedC h' c q.
Proof.
  intros Ho. revert q. induction c as [|f c IH]; intros q; cbn; [done|]. intros Hd (Hn & Ha & Hb).
  rewrite (Ho (label f)) by (intros Hl; apply (Hd _ Hl); constructor). split; [done|]. split.
  - apply (stored_only S h); [done| |done]. intros z Hz Hin. apply (Hd z Hz), list_elem_of_further, elem_of_app. auto.
  - apply IH; [|done]. intros z Hz Hin. apply (Hd z Hz), list_elem_of_further, elem_of_app. auto.
Qed.

Lemma kept_only own S h h' : only S h h' -> free_of own S -> own ⊆ h -> own ⊆ h'.
Proof.
  intros Ho Hf Hs. apply map_subseteq_spec. intros z n Hz. rewrite Ho.
  - by apply (lookup_weaken own).
  - intros Hin. pose proof (proj1 (list.Forall_forall _ _) Hf z Hin). cbn in *. congruence.
Qed.

Lemma turn_labels {L} (f : frame L) t c : t <> Leaf ->
  labelsC c ++ labels (turn f t) ≡ₚ labelsC (f :: c) ++ labels t.
Proof. destruct t as [|l k v p x y]; [done|]. intros _. destruct f; cbn; solve_Permutation. Qed.

Definition is_left {L} (f : frame L) : bool := match f with InLeft _ _ _ _ _ => true | _ => false end.

(** The assignments of a rotation, whatever the parent points to. *)
Lemma turn_ok h f q l k v p x y (n := mkNode k v p (root_of x) (root_of y)) :
  stored h (Node l k v p x y) -> h !! label f = Some (holed f q) -> stored h (sibling f) ->
  NoDup (label f :: labels (sibling f) ++ l :: labels x ++ labels y) ->
  exists h', (if is_left f
              then _ ← update (Some l) (withRight (Some (label f))); update (Some (label f)) (withLeft (right n))
              else _ ← update (Some l) (withLeft (Some (label f))); update (Some (label f)) (withRight (left n))) h = (Ok (), h') /\
    stored h' (turn f (Node l k v p x y)) /\ only [label f; l] h h'.
Proof.
  cbn [stored]. intros (Hn & Hx & Hy) Hf Hs Hnd.
  apply list.NoDup_cons in Hnd as [Hf1 Hnd]. apply not_elem_of_app in Hf1 as [Hf1 Hf2].
  apply not_elem_of_cons in Hf2 as [Hf2 Hf3]. apply not_elem_of_app in Hf3 as [Hf3 Hf4].
  apply list.NoDup_app in Hnd as (_ & Hs1 & Hnd). apply list.NoDup_cons in Hnd as [Hl _].
  apply not_elem_of_app in Hl as [Hl1 Hl2].
  assert (Hl3 : l ∉ labels (sibling f)) by (intros Hin; by apply (Hs1 l Hin), list_elem_of_here).
  assert (Hkeep : forall h' t, only [label f; l] h h' -> label f ∉ labels t -> l ∉ labels t -> stored h t -> stored h' t).
  { intros h' t Ho Ha Hb. apply (stored_only _ _ _ _ Ho). intros z. rewrite !list.elem_of_cons. intros [->|[->|Hz]]; [done..|].
    by apply not_elem_of_nil in Hz. }
  assert (Hboth : forall g1 g2, only [label f; l] h (<[label f := g2]> (<[l := g1]> h))).
  { intros g1 g2 z. rewrite !not_elem_of_cons. intros (? & ? & _). by rewrite !lookup_insert_ne by done. }
  destruct f as [lp kp vp pp b|lp kp vp pp a]; cbn [label sibling holed turn is_left] in *; unfold mbind, stateful_bind.
  - rewrite (update_ok _ _ _ _ Hn), (update_ok _ lp (mkNode kp vp pp q (root_of b))) by (by rewrite lookup_insert_ne by done).
    eexists. split; [done|]. split; [|apply Hboth]. cbn [stored]. rewrite lookup_insert_ne, !lookup_insert_eq by done.
    repeat split; by eauto.
  - rewrite (update_ok _ _ _ _ Hn), (update_ok _ lp (mkNode kp vp pp (root_of a) q)) by (by rewrite lookup_insert_ne by done).
    eexists. split; [done|]. split; [|apply Hboth]. cbn [stored]. rewrite lookup_insert_ne, !lookup_insert_eq by done.
    repeat split; by eauto.
Qed.

Lemma holed_left f lo : lo ∉ labels (sibling f) -> bool_decide (left (holed f (Some lo)) = Some lo) = is_left f.
Proof.
  destruct f as [l k v p b|l k v p a]; cbn [left holed sibling is_left]; intros Hlo; [by rewrite bool_decide_true|].
  rewrite bool_decide_false; [done|]. intros Ha. destruct a; [done|]. cbn in Ha. injection Ha as ->.
  apply Hlo. by constructor.
Qed.

Lemma lift_ok {A} (m : outcome Empty_set A) a (h : heap) : m = Ok a -> lift m h = (Ok a, h).
Proof. by intros ->. Qed.

Lemma At_top s l : holds s l -> At s 0 = Ok (head l).
Proof. intros H. change 0 with (Z.of_nat 0). rewrite (At_holds s l 0 H). by destruct l. Qed.

Lemma root_plug_turn {L} (f : frame L) c t : t <> Leaf ->
  match c with [] => root_of t | _ => root_of (plug (f :: c) t) end = root_of (plug c (turn f t)).
Proof.
  destruct t as [|l k v p x y]; [done|]. intros _. destruct c as [|g c]; [by destruct f|].
  change (plug (f :: g :: c) (Node l k v p x y)) with (plug (g :: c) (plug1 f (Node l k v p x y))). by rewrite !root_plug.
Qed.

Lemma top_nodup f c l (t : list loc) : NoDup (labelsC (f :: c) ++ l :: t) ->
  NoDup (label f :: labels (sibling f) ++ l :: t) /\ label f ∉ labelsC c /\ l ∉ labelsC c.
Proof.
  cbn [labelsC]. rewrite <- app_comm_cons, list.NoDup_cons, (Permutation_app_comm (labels (sibling f))), <- app_assoc.
  rewrite list.NoDup_app. intros (Hf & _ & Hd & Hnd). rewrite !elem_of_app in Hf. split; [|split].
  - apply list.NoDup_cons. split; [|done]. rewrite elem_of_app. tauto.
  - tauto.
  - intros Hin. apply (Hd l Hin). rewrite elem_of_app. right. apply list_elem_of_here.
Qed.

(** A rotation with the new link of the grandparent. *)
Lemma turn_relink_ok own h f c q l k v p x y r (t := Node l k v p x y) (n := mkNode k v p (root_of x) (root_of y)) :
  storedC h (f :: c) q -> stored h t -> NoDup (labelsC (f :: c) ++ labels t) -> own ⊆ h -> free_of own (l :: (label <$> f :: c)) ->
  exists h1 h2, (if is_left f
              then _ ← update (Some l) (withRight (Some (label f))); update (Some (label f)) (withLeft (right n))
              else _ ← update (Some l) (withLeft (Some (label f))); update (Some (label f)) (withRight (left n))) h = (Ok (), h1) /\
    relinkGrandparent r (Some l) (Some (label f)) (head (label <$> c)) h1 = (Ok (match c with [] => Some l | _ => r end), h2) /\
    stored h2 (plug c (turn f t)) /\ own ⊆ h2.
Proof.
  intros (Hf & Hsib & Hc) Ht Hnd Hown Hfree.
  destruct (top_nodup f c l (labels x ++ labels y) Hnd) as (Hsplit & Hfc & Hlc).
  destruct (turn_ok h f q l k v p x y Ht Hf Hsib Hsplit) as (h1 & Hrun & Hst1 & Honly).
  assert (Hc1 : storedC h1 c (Some (label f))).
  { apply (storedC_only _ h h1 _ _ Honly); [|done]. intros z. rewrite !list.elem_of_cons. intros [->|[->|Hz]]; [done..|].
    by apply not_elem_of_nil in Hz. }
  assert (Hturn : NoDup (labelsC c ++ labels (turn f t))) by by rewrite turn_labels.
  apply list.NoDup_app in Hturn as (Hndc & Hd & _).
  apply list.Forall_cons in Hfree as [Hl Hfree]. apply list.Forall_cons in Hfree as [Hlf Hfree].
  exists h1, (relinked h1 c (Some l)). split; [done|]. split; [by apply relink_ok|]. split.
  - apply stored_plug. split.
    + replace (root_of (turn f t)) with (Some l) by by destruct f. by apply (storedC_relinked _ _ _ _ Hc1).
    + by apply stored_relinked.
  - apply kept_relinked; [done|]. apply (kept_only _ _ h _ Honly); [|done]. by repeat apply list.Forall_cons_2.
Qed.

Lemma rotateUp_spec own c : forall fuel l t s r h,
  root_of t = Some l -> stored h (plug c t) -> NoDup (labelsC c ++ labels t) -> holds s (label <$> c) ->
  r = root_of (plug c t) -> (length c <= fuel)%nat -> own ⊆ h -> free_of own (l :: (label <$> c)) ->
  exists h', rotateUp fuel (Some l) s r h = (Ok (root_of (bubble c t)), h') /\ stored h' (bubble c t) /\ own ⊆ h'.
Proof.
  induction c as [|f c IH]; intros fuel l t s r h Hroot Hst Hnd Hs -> Hfuel Hown Hfree.
  { exists h. split; [|done]. destruct fuel; cbn [rotateUp]; by rewrite (Len_holds _ _ Hs). }
  destruct fuel as [|fuel]; [cbn in Hfuel; lia|]. cbn [rotateUp]. rewrite (Len_holds _ _ Hs). cbn [fmap list_fmap].
  rewrite Zlen_cons. pose proof (Zlen_nonneg (label <$> c)). rewrite (proj2 (Z.ltb_lt _ _)) by lia.
  destruct (Pop_holds _ _ _ Hs) as (s' & Hpop & Hs').
  rewrite (stateful_step _ _ _ _ _ (lift_ok _ _ h Hpop)). cbn beta iota.
  destruct t as [|l' k v p x y]; [done|]. injection Hroot as ->.
  pose proof (proj1 (stored_plug _ _ _) Hst) as [Hc Ht]. pose proof Hc as (Hf & _). pose proof Ht as (Hn & _).
  rewrite (stateful_step _ _ _ _ _ (load_ok _ _ _ Hn)), (stateful_step _ _ _ _ _ (load_ok _ _ _ Hf)).
  replace (priority (holed f (root_of (Node l k v p x y)))) with (prio f) by by destruct f. cbn [priority bubble].
  destruct (prio f <=? p) eqn:Hp; [by exists h|].
  cbn [root_of]. rewrite holed_left.
  2: { destruct (top_nodup f c l (labels x ++ labels y) Hnd) as (Hone & _). apply list.NoDup_cons in Hone as [_ Hone].
       apply list.NoDup_app in Hone as (_ & Hd & _). intros Hin. apply (Hd l Hin), list_elem_of_here. }
  destruct (turn_relink_ok own h f c _ l k v p x y (root_of (plug (f :: c) (Node l k v p x y))) Hc Ht Hnd Hown Hfree)
    as (h1 & h2 & Hrun & Hlink & Hst2 & Hown2).
  rewrite (stateful_step _ _ _ _ _ Hrun), (stateful_step _ _ _ _ _ (lift_ok _ _ h1 (At_top _ _ Hs'))), (stateful_step _ _ _ _ _ Hlink).
  apply IH; try done.
  - by destruct f.
  - by rewrite turn_labels.
  - by apply (root_plug_turn f c (Node l k v p x y)).
  - cbn in Hfuel. lia.
  - apply list.Forall_cons in Hfree as [Hl Hfree]. apply list.Forall_cons in Hfree as [_ Hfree]. by apply list.Forall_cons_2.
Qed.

(** ** Finding and copying a path *)

Definition side {L} (c : list (frame L)) : comparison :=
  match c with [] => Eq | InLeft _ _ _ _ _ :: _ => Lt | InRight _ _ _ _ _ :: _ => Gt end.
Definition path (c : list (frame loc)) (t : tree loc) : list loc := option_list (root_of t) ++ (label <$> c).

Lemma findLoop_spec k h t : forall fuel c s, stored h t -> (tsize t <= fuel)%nat -> holds s (label <$> c) ->
  let '(c', t') := descend k t c in
  exists s', findLoop fuel k (root_of t) s (side c) h =
    (Ok (s', match t' with Leaf => side c' | _ => Eq end, root_of t'), h) /\ holds s' (path c' t').
Proof.
  induction t as [|l k' v p a IHa b IHb]; intros fuel c s Hst Hfuel Hs; cbn [descend].
  { exists s. split; [|done]. by destruct fuel. }
  destruct fuel as [|fuel]; cbn in Hfuel; [lia|]. destruct Hst as (Hn & Ha & Hb). cbn [findLoop root_of].
  rewrite (stateful_step _ _ _ _ _ (load_ok _ _ _ Hn)). cbn [key left right]. apply Push_holds with (x := l) in Hs.
  destruct (Compare k k') eqn:Hk.
  - by eexists.
  - apply (IHa fuel (InLeft l k' v p b :: c)); [done|lia|done].
  - apply (IHb fuel (InRight l k' v p a :: c)); [done|lia|done].
Qed.

Lemma getLoop_spec k h t : forall fuel c, stored h t -> (tsize t <= fuel)%nat ->
  let '(c', t') := descend k t c in
  getLoop fuel k (root_of t) (head (label <$> c)) h =
    (Ok (match t' with Leaf => (None, None) | _ => (root_of t', head (label <$> c')) end), h).
Proof.
  induction t as [|l k' v p a IHa b IHb]; intros fuel c Hst Hfuel; cbn [descend].
  { by destruct fuel. }
  destruct fuel as [|fuel]; cbn in Hfuel; [lia|]. destruct Hst as (Hn & Ha & Hb). cbn [getLoop root_of].
  rewrite (stateful_step _ _ _ _ _ (load_ok _ _ _ Hn)). cbn [key left right].
  destruct (Compare k k') eqn:Hk.
  - done.
  - apply (IHa fuel (InLeft l k' v p b :: c)); [done|lia].
  - apply (IHb fuel (InRight l k' v p a :: c)); [done|lia].
Qed.

Lemma nodup_fresh (c : list (frame loc)) l l' a : l' ∉ labelsC c -> l' ∉ a -> NoDup (labelsC c ++ l :: a) -> NoDup (labelsC c ++ l' :: a).
Proof.
  intros Hc Ha. rewrite !list.NoDup_app, !list.NoDup_cons. intros (H1 & H2 & _ & H3). split; [done|]. split; [|done].
  intros x Hx. rewrite list.elem_of_cons. intros [->|Hin]; [done|]. apply (H2 x Hx), list.elem_of_cons. auto.
Qed.

Lemma cloneOnto_spec own h c l k v p a b s (n := mkNode k v p (root_of a) (root_of b)) :
  stored h (plug c (Node l k v p a b)) -> NoDup (labelsC c ++ labels (Node l k v p a b)) ->
  holds s (label <$> c) -> own ⊆ h -> free_of own (label <$> c) ->
  exists l' s' h', Immutable.cloneOnto (Some l) s h = (Ok (l', s'), h') /\ h' !! l = Some n /\
    holds s' (l' :: (label <$> c)) /\ stored h' (plug c (Node l' k v p a b)) /\
    NoDup (labelsC c ++ labels (Node l' k v p a b)) /\ own ⊆ h' /\ free_of own (l' :: (label <$> c)).
Proof.
  intros Hst Hnd Hs Hown Hfree. set (l' := fresh (dom h)).
  assert (Hfresh : l' ∉ labels (plug c (Node l k v p a b))) by by apply stored_fresh.
  rewrite labels_plug, not_elem_of_app in Hfresh. destruct Hfresh as [Hfc Hft].
  cbn [labels] in Hft. apply not_elem_of_cons in Hft as [Hll Hft].
  assert (Hnd' : NoDup (labelsC c ++ labels (Node l' k v p a b))) by by apply (nodup_fresh c l).
  apply stored_plug in Hst as [Hc (Hn & Ha & Hb)]. fold n in Hn.
  assert (Hnone : own !! l' = None) by (apply (lookup_weaken_None _ h); [apply fresh_None|done]).
  set (h1 := <[l' := n]> h).
  assert (Hc1 : storedC h1 c (Some l)) by by apply storedC_insert.
  assert (Hlc : l ∉ labelsC c).
  { intros Hin. apply list.NoDup_app in Hnd as (_ & Hd & _). apply (Hd l Hin). apply list_elem_of_here. }
  exists l', (Push s (Some l')), (relinked h1 c (Some l')). split; [|split; [|split; [|split; [|split; [|split]]]]].
  - unfold Immutable.cloneOnto. rewrite (stateful_step _ _ _ _ _ (clone_ok _ _ _ Hn)). fold l' h1.
    rewrite (stateful_step _ _ _ _ _ (lift_ok _ _ h1 (At_top _ _ Hs))).
    destruct c as [|f c]; [done|]. cbn [head fmap list_fmap]. destruct Hc1 as (Hf & _).
    unfold mbind, stateful_bind. rewrite (load_ok _ _ _ Hf), (update_ok _ _ _ _ Hf). cbn [relinked].
    rewrite withChild; [done|]. cbn in Hlc. rewrite not_elem_of_cons, not_elem_of_app in Hlc. tauto.
  - rewrite (only_relinked h1 c (Some l')); [by unfold h1; rewrite lookup_insert_ne|].
    intros Hin. apply Hlc. clear -Hin. induction c as [|f c IH]; [done|]. cbn in *. apply list.elem_of_cons in Hin as [->|Hin];
      [constructor|]. right. apply elem_of_app. auto.
  - by apply Push_holds.
  - apply stored_plug. apply list.NoDup_app in Hnd' as (Hndc & Hd & Hndt). split; [by apply (storedC_relinked _ _ _ _ Hc1)|].
    apply stored_relinked; [done|]. apply not_elem_of_app in Hft as [? ?]. cbn [stored]. split; [apply lookup_insert_eq|].
    split; by apply stored_insert.
  - done.
  - apply kept_relinked; [done|]. by apply kept_insert.
  - by apply list.Forall_cons_2.
Qed.

(** The loop of Put of the immutable treap: [copied h c t s h'] says that a
    path has been copied. *)
Definition node_of (t : tree loc) : option (loc * treapNode) :=
  match t with Leaf => None | Node l k v p a b => Some (l, mkNode k v p (root_of a) (root_of b)) end.
Definition copied (own : heap) (c : list (frame loc)) (t : tree loc) (s : parentStack) (h : heap) : Prop :=
  holds s (path c t) /\ stored h (plug c t) /\ NoDup (labelsC c ++ labels t) /\ own ⊆ h /\ free_of own (path c t).

Lemma hole_below {L} (c : list (frame L)) f (t : tree L) : labelsC (f :: c) ++ labels t ≡ₚ labelsC c ++ labels (plug1 f t).
Proof. destruct f; cbn; solve_Permutation. Qed.

Lemma cloneLoop_spec own k t : forall fuel c s h,
  stored h (plug c t) -> NoDup (labelsC c ++ labels t) -> holds s (label <$> c) -> own ⊆ h ->
  free_of own (label <$> c) -> (tsize t <= fuel)%nat ->
  exists c' t' s' h', (erase1 <$> c', erase t') = descend k (erase t) (erase1 <$> c) /\ copied own c' t' s' h' /\
    Immutable.cloneLoop fuel k (root_of t) s (side c) h =
      (Ok (s', match t' with Leaf => side c' | _ => Eq end, node_of t'), h').
Proof.
  induction t as [|l k' v p a IHa b IHb]; intros fuel c s h Hst Hnd Hs Hown Hfree Hfuel.
  { exists c, Leaf, s, h. split; [done|]. split; [done|]. by destruct fuel. }
  destruct fuel as [|fuel]; [cbn in Hfuel; lia|]. cbn [tsize] in Hfuel. cbn [Immutable.cloneLoop root_of erase descend].
  destruct (cloneOnto_spec own h c l k' v p a b s Hst Hnd Hs Hown Hfree)
    as (l' & s' & h' & Hrun & Hn & Hs' & Hst' & Hnd' & Hown' & Hfree').
  rewrite (stateful_step _ _ _ _ _ Hrun), (stateful_step _ _ _ _ _ (load_ok _ _ _ Hn)). cbn [key left right].
  destruct (Compare k k').
  - by exists c, (Node l' k' v p a b), s', h'.
  - apply (IHa fuel (InLeft l' k' v p b :: c)); try done; [by rewrite hole_below|lia].
  - apply (IHb fuel (InRight l' k' v p a :: c)); try done; [by rewrite hole_below|lia].
Qed.

(** The nodes of a path are copied from the root on. *)
Lemma plug_app {L} (c1 c2 : list (frame L)) t : plug (c1 ++ c2) t = plug c2 (plug c1 t).
Proof. revert t. induction c1 as [|f c1 IH]; intros t; [done|]. apply IH. Qed.

Lemma cloneParents_spec own parents orig l k v p a b (t := Node l k v p a b) todo : forall done s h,
  holds parents (l :: (label <$> todo ++ orig)) -> stored h (plug done (plug todo t)) ->
  NoDup (labelsC done ++ labels (plug todo t)) -> holds s (label <$> done) -> own ⊆ h -> free_of own (label <$> done) ->
  exists c' l' s' h', Immutable.cloneParents (S (length todo)) parents s h = (Ok s', h') /\
    copied own c' (Node l' k v p a b) s' h' /\ erase1 <$> c' = (erase1 <$> todo) ++ (erase1 <$> done).
Proof.
  revert orig. induction todo as [|f todo IH] using rev_ind; intros orig done s h Hp Hst Hnd Hs Hown Hfree;
    cbn [length Immutable.cloneParents].
  - rewrite (stateful_step _ _ _ _ _ (lift_ok _ _ h (At_holds _ _ 0 Hp))). cbn [lookup list_lookup].
    destruct (cloneOnto_spec own h done l k v p a b s Hst Hnd Hs Hown Hfree) as (l' & s' & h' & Hrun & _ & Hrest).
    rewrite (stateful_step _ _ _ _ _ Hrun). by exists done, l', s', h'.
  - rewrite length_app, Nat.add_comm. cbn [Nat.add length].
    assert (Hlook : (l :: (label <$> (todo ++ [f]) ++ orig)) !! S (length todo) = Some (label f)).
    { change ((label <$> (todo ++ [f]) ++ orig) !! length todo = Some (label f)).
      rewrite list_lookup_fmap, <- app_assoc. cbn [app]. by rewrite list_lookup_middle. }
    pose proof (At_holds _ _ (S (length todo)) Hp) as Hat. rewrite Hlook in Hat.
    rewrite (stateful_step _ _ _ _ _ (lift_ok _ _ h Hat)). rewrite plug_app in Hst, Hnd. rewrite <- app_assoc in Hp.
    destruct f as [lf kf vf pf bf|lf kf vf pf af]; cbn [plug plug1 label] in *;
      destruct (cloneOnto_spec own h done _ _ _ _ _ _ s Hst Hnd Hs Hown Hfree) as (l' & s' & h' & Hrun & _ & Hs' & Hst' & Hnd' & Hown' & Hfree');
      rewrite (stateful_step _ _ _ _ _ Hrun); cbn beta iota.
    + destruct (IH (InLeft lf kf vf pf bf :: orig) (InLeft l' kf vf pf bf :: done) s' h') as (c' & l2 & s2 & h2 & Hgo & Hcop & Her);
        try done; [by rewrite hole_below|].
      exists c', l2, s2, h2. split; [done|]. split; [done|]. by rewrite Her, fmap_app, <- app_assoc.
    + destruct (IH (InRight lf kf vf pf af :: orig) (InRight l' kf vf pf af :: done) s' h') as (c' & l2 & s2 & h2 & Hgo & Hcop & Her);
        try done; [by rewrite hole_below|].
      exists c', l2, s2, h2. split; [done|]. split; [done|]. by rewrite Her, fmap_app, <- app_assoc.
Qed.

(** ** Moving a node down *)

(** One turn of the loop of Delete, the rest of it being [K]: the child, or a
    copy of it, takes the place of the node. *)
Lemma down_step {A} own copy h c f lc kc vc pc x y r (K : ptr -> ptr -> M A) (t := Node lc kc vc pc x y) :
  stored h (plug (f :: c) t) -> NoDup (labelsC (f :: c) ++ labels t) -> own ⊆ h -> free_of own (label <$> f :: c) ->
  (copy = false -> own !! lc = None) ->
  exists lc' h', (
      child ← (if copy : bool then c ← cloneTreapNode (Some lc); mret (Some c) else mret (Some lc));
      cn ← load child;
      _ ← (if is_left f
           then _ ← update child (withRight (Some (label f))); update (Some (label f)) (withLeft (right cn))
           else _ ← update child (withLeft (Some (label f))); update (Some (label f)) (withRight (left cn)));
      r ← relinkGrandparent r child (Some (label f)) (head (label <$> c));
      K child r) h = K (Some lc') (match c with [] => Some lc' | _ => r end) h' /\
    stored h' (plug c (turn f (Node lc' kc vc pc x y))) /\ NoDup (labelsC c ++ labels (turn f (Node lc' kc vc pc x y))) /\
    own ⊆ h' /\ own !! lc' = None /\ (copy = false -> lc' = lc).
Proof.
  intros Hst Hnd Hown Hfree Hcopy. pose proof (proj1 (stored_plug _ _ _) Hst) as [Hc Ht].
  assert (Hgo : forall l' h1, h1 !! l' = Some (mkNode kc vc pc (root_of x) (root_of y)) ->
            storedC h1 (f :: c) (Some lc) -> stored h1 (Node l' kc vc pc x y) -> own ⊆ h1 -> own !! l' = None ->
            NoDup (labelsC (f :: c) ++ labels (Node l' kc vc pc x y)) -> exists h',
      (cn ← load (Some l');
       _ ← (if is_left f
           then _ ← update (Some l') (withRight (Some (label f))); update (Some (label f)) (withLeft (right cn))
           else _ ← update (Some l') (withLeft (Some (label f))); update (Some (label f)) (withRight (left cn)));
       r ← relinkGrandparent r (Some l') (Some (label f)) (head (label <$> c));
       K (Some l') r) h1 = K (Some l') (match c with [] => Some l' | _ => r end) h' /\
      stored h' (plug c (turn f (Node l' kc vc pc x y))) /\ NoDup (labelsC c ++ labels (turn f (Node l' kc vc pc x y))) /\ own ⊆ h').
  { intros l' h1 Hn Hc1 Ht1 Hown1 Hl' Hnd1.
    destruct (turn_relink_ok own h1 f c _ l' kc vc pc x y r Hc1 Ht1 Hnd1 Hown1) as (h2 & h3 & Hrun & Hlink & Hst3 & Hown3);
      [by apply list.Forall_cons_2|].
    exists h3. rewrite (stateful_step _ _ _ _ _ (load_ok _ _ _ Hn)), (stateful_step _ _ _ _ _ Hrun), (stateful_step _ _ _ _ _ Hlink).
    split; [done|]. split; [done|]. by rewrite turn_labels. }
  pose proof Ht as (Hn & _). destruct copy.
  - set (l' := fresh (dom h)). pose proof (stored_fresh _ _ Hst) as Hfr. fold l' in Hfr.
    rewrite labels_plug, not_elem_of_app in Hfr. destruct Hfr as [Hfr1 Hfr2].
    cbn [labels] in Hfr2. apply not_elem_of_cons in Hfr2 as [Hfr2 Hfr3]. pose proof Hfr3 as Hfr4. apply not_elem_of_app in Hfr4 as [Hx Hy].
    assert (Hnone : own !! l' = None) by (apply (lookup_weaken_None _ h); [apply fresh_None|done]).
    destruct Ht as (_ & Hsx & Hsy).
    destruct (Hgo l' (<[l' := mkNode kc vc pc (root_of x) (root_of y)]> h)) as (h' & Hrun & Hst' & Hnd' & Hown').
    + apply lookup_insert_eq.
    + by apply storedC_insert.
    + cbn [stored]. split; [apply lookup_insert_eq|]. split; by apply stored_insert.
    + by apply kept_insert.
    + done.
    + by apply (nodup_fresh (f :: c) lc).
    + exists l', h'. rewrite <- Hrun. split; [|repeat (split; [done|]); done].
      rewrite (stateful_step (c ← cloneTreapNode (Some lc); mret (Some c)) _ h (Some l') (<[l' := mkNode kc vc pc (root_of x) (root_of y)]> h)); [done|].
      by rewrite (stateful_step _ _ _ _ _ (clone_ok _ _ _ Hn)).
  - destruct (Hgo lc h Hn Hc Ht Hown (Hcopy eq_refl) Hnd) as (h' & Hrun & Hrest).
    exists lc, h'. rewrite <- Hrun. split; [done|]. destruct Hrest as (? & ? & ?). auto 6.
Qed.

(** The child that goes up is the one that [join] takes. *)
Lemma chooseChild_ok h k v p a b : stored h a -> stored h b -> (a <> Leaf \/ b <> Leaf) ->
  exists (q : ptr) (isl : bool), chooseChild (mkNode k v p (root_of a) (root_of b)) h = (Ok (q, isl), h) /\
  (if isl then exists lc kc vc pc x y, a = Node lc kc vc pc x y /\ q = Some lc /\ join (erase a) (erase b) = Node tt kc vc pc (erase x) (join (erase y) (erase b))
   else exists lc kc vc pc x y, b = Node lc kc vc pc x y /\ q = Some lc /\ join (erase a) (erase b) = Node tt kc vc pc (join (erase a) (erase x)) (erase y)).
Proof.
  intros Ha Hb Hab. destruct a as [|la ka va pa a1 a2]; destruct b as [|lb kb vb pb b1 b2]; [by destruct Hab|..]; unfold chooseChild; cbn [left right root_of].
  - exists (Some lb), false. split; [done|]. by repeat eexists.
  - exists (Some la), true. split; [done|]. by repeat eexists.
  - pose proof Ha as (Hna & _). pose proof Hb as (Hnb & _).
    rewrite (stateful_step _ _ _ _ _ (load_ok _ _ _ Hna)), (stateful_step _ _ _ _ _ (load_ok _ _ _ Hnb)). cbn [priority erase].
    rewrite join_nodes. destruct (pb <=? pa).
    + exists (Some la), true. split; [done|]. by repeat eexists.
    + exists (Some lb), false. split; [done|]. by repeat eexists.
Qed.

(** The part below the node, which is only written to when it is not copied. *)
Definition may_change (own : heap) (copy : bool) (a b : tree loc) : Prop := copy = false -> free_of own (labels a ++ labels b).

Lemma rotateDown_spec own copy l k v p : forall fuel a b c r h,
  stored h (plug c (Node l k v p a b)) -> NoDup (labelsC c ++ labels (Node l k v p a b)) -> own ⊆ h ->
  free_of own (l :: (label <$> c)) -> may_change own copy a b ->
  (c <> [] -> r = root_of (plug c (Node l k v p a b))) -> (tsize a + tsize b <= fuel)%nat ->
  (c <> [] \/ a <> Leaf \/ b <> Leaf) ->
  exists c' h', rotateDown fuel copy (Some l) (head (label <$> c)) r h =
      (Ok (root_of (plug c' (Node l k v p Leaf Leaf)), head (label <$> c')), h') /\
    stored h' (plug c' (Node l k v p Leaf Leaf)) /\ NoDup (labelsC c' ++ [l]) /\ own ⊆ h' /\ free_of own (l :: (label <$> c')) /\
    plug (erase1 <$> c') Leaf = plug (erase1 <$> c) (join (erase a) (erase b)) /\ c' <> [] /\
    (copy = false -> labelsC c' ++ [l] ≡ₚ labelsC c ++ l :: labels a ++ labels b).
Proof.
  induction fuel as [|fuel IH]; intros a b c r h Hst Hnd Hown Hfree Hmay Hroot Hfuel Hany.
  { destruct a; [|cbn in Hfuel; lia]. destruct b; [|cbn in Hfuel; lia].
    pose proof (proj1 (stored_plug _ _ _) Hst) as [_ (Hn & _)]. exists c, h. cbn [rotateDown].
    rewrite (stateful_step _ _ _ _ _ (load_ok _ _ _ Hn)). assert (c <> []) as Hne by naive_solver. rewrite (Hroot Hne). naive_solver. }
  pose proof (proj1 (stored_plug _ _ _) Hst) as [Hc (Hn & Ha & Hb)]. cbn [rotateDown].
  rewrite (stateful_step _ _ _ _ _ (load_ok _ _ _ Hn)). cbn [left right].
  assert (Hcase : (a = Leaf /\ b = Leaf) \/ (a <> Leaf \/ b <> Leaf)) by (destruct a; [destruct b; [by left|right; by right]|right; by left]).
  destruct Hcase as [[-> ->]|Hsome].
  { assert (c <> []) as Hne by naive_solver. rewrite (Hroot Hne). exists c, h. naive_solver. }
  destruct (chooseChild_ok h k v p a b Ha Hb Hsome) as (q & isl & Hch & Hjoin).
  destruct isl; destruct Hjoin as (lc & kc & vc & pc & x & y & -> & -> & ->).
  - destruct (down_step own copy h c (InLeft l k v p b) lc kc vc pc x y r
      (fun child r => rotateDown fuel copy (Some l) child r)) as (lc' & h1 & Hrun & Hst1 & Hnd1 & Hown1 & Hlc' & Hsame); try done.
    + by rewrite hole_below.
    + intros Hcp. specialize (Hmay Hcp). cbn in Hmay. by apply list.Forall_cons in Hmay as [? _].
    + cbn [root_of]. rewrite (stateful_step _ _ _ _ _ Hch). cbn beta iota. cbn [is_left label] in Hrun. rewrite Hrun.
      edestruct (IH y b (InRight lc' kc vc pc x :: c)) as (c' & h' & Hgo & Hs' & Hn' & Ho' & Hf' & He' & Hc' & Hl'); [exact Hst1|..|
        exists c', h'; split; [exact Hgo|]; repeat (split; [done|]); intros Hcp; rewrite (Hl' Hcp), (Hsame Hcp); cbn; solve_Permutation]; try done.
      * by rewrite hole_below.
      * apply list.Forall_cons in Hfree as [? ?]. by repeat apply list.Forall_cons_2.
      * intros Hcp. specialize (Hmay Hcp). unfold free_of in *. cbn in Hmay. rewrite !list.Forall_cons, !list.Forall_app in *. tauto.
      * intros _. destruct c; [done|]. rewrite Hroot by done. apply root_above.
      * cbn in Hfuel. lia.
      * by left.
  - destruct (down_step own copy h c (InRight l k v p a) lc kc vc pc x y r
      (fun child r => rotateDown fuel copy (Some l) child r)) as (lc' & h1 & Hrun & Hst1 & Hnd1 & Hown1 & Hlc' & Hsame); try done.
    + by rewrite hole_below.
    + intros Hcp. specialize (Hmay Hcp). unfold free_of in Hmay. rewrite list.Forall_app in Hmay. destruct Hmay as [_ Hmay]. cbn in Hmay.
      by apply list.Forall_cons in Hmay as [? _].
    + cbn [root_of]. replace (match root_of a with Some _ => _ | None => _ end) with
        ('(child, isLeft) ← chooseChild (mkNode k v p (root_of a) (Some lc));
          child ← (if copy then c ← cloneTreapNode child; mret (Some c) else mret child);
          cn ← load child;
          _ ← (if (isLeft : bool)
               then _ ← update child (withRight (Some l)); update (Some l) (withLeft (right cn))
               else _ ← update child (withLeft (Some l)); update (Some l) (withRight (left cn)));
          root ← relinkGrandparent r child (Some l) (head (label <$> c));
          rotateDown fuel copy (Some l) child root) by by destruct (root_of a).
      cbn [root_of] in Hch. rewrite (stateful_step _ _ _ _ _ Hch). cbn beta iota. cbn [is_left label] in Hrun. rewrite Hrun.
      edestruct (IH a x (InLeft lc' kc vc pc y :: c)) as (c' & h' & Hgo & Hs' & Hn' & Ho' & Hf' & He' & Hc' & Hl'); [exact Hst1|..|
        exists c', h'; split; [exact Hgo|]; repeat (split; [done|]); intros Hcp; rewrite (Hl' Hcp), (Hsame Hcp); cbn; solve_Permutation]; try done.
      * by rewrite hole_below.
      * apply list.Forall_cons in Hfree as [? ?]. by repeat apply list.Forall_cons_2.
      * intros Hcp. specialize (Hmay Hcp). unfold free_of in *. cbn in Hmay. rewrite !list.Forall_app, !list.Forall_cons, !list.Forall_app in *. tauto.
      * intros _. destruct c; [done|]. rewrite Hroot by done. apply root_above.
      * cbn in Hfuel. lia.
      * by left.
Qed.

(** ** Put and Delete in the heap *)

Lemma last_path c t : list.last (path c t) = root_of (plug c t).
Proof.
  revert t. induction c as [|f c IH]; intros t; [by destruct t|]. cbn [plug]. rewrite <- IH. unfold path.
  replace (root_of (plug1 f t)) with (Some (label f)) by by destruct f. cbn [option_list fmap list_fmap app].
  by rewrite list.last_app_cons.
Qed.

Lemma At_bottom s c t : holds s (path c t) -> path c t <> [] -> At s (Len s - 1) = Ok (root_of (plug c t)).
Proof.
  intros Hs Hne. rewrite (Len_holds _ _ Hs). unfold Zlen. destruct (path c t) as [|x l] eqn:Hp; [done|]. rewrite <- Hp in Hs.
  replace (Z.of_nat (length (x :: l)) - 1) with (Z.of_nat (pred (length (path c t)))) by (rewrite Hp; cbn [length]; lia).
  by rewrite (At_holds _ _ _ Hs), <- last_lookup, last_path.
Qed.

Lemma side_child f c q q0 : (match side (f :: c) with Lt => withLeft q | _ => withRight q end) (holed f q0) = holed f q.
Proof. by destruct f. Qed.

(** A new node becomes the child at the end of a path. *)
Lemma hang_new own h f c0 (c := f :: c0) k v prio (l := fresh (dom h)) (h1 := <[l := mkNode k v prio None None]> h) :
  stored h (plug c Leaf) -> NoDup (labelsC c) -> own ⊆ h -> free_of own (label <$> c) ->
  exists h2, update (Some (label f)) (match side c with Lt => withLeft (Some l) | _ => withRight (Some l) end) h1 = (Ok (), h2) /\
    stored h2 (plug c (Node l k v prio Leaf Leaf)) /\ NoDup (labelsC c ++ [l]) /\ own ⊆ h2 /\ free_of own (l :: (label <$> c)).
Proof.
  intros Hst Hnd Hown Hfree. assert (Hl : l ∉ labelsC c).
  { intros Hin. apply (stored_fresh _ _ Hst). rewrite labels_plug. apply elem_of_app. by left. }
  apply stored_plug in Hst as [Hc _]. assert (Hc1 : storedC h1 c None) by by apply storedC_insert.
  assert (Hnone : own !! l = None) by (apply (lookup_weaken_None _ h); [apply fresh_None|done]).
  assert (Hnd2 : NoDup (labelsC c ++ [l])).
  { apply list.NoDup_app. split; [done|]. split; [|apply NoDup_singleton]. intros x Hx Hxl. apply list_elem_of_singleton in Hxl as ->. done. }
  exists (relinked h1 c (Some l)). split; [|split; [|split; [|split]]].
  - pose proof Hc1 as (Hf & _). rewrite (update_ok _ _ _ _ Hf). unfold c. by rewrite side_child.
  - apply stored_plug. split; [by apply (storedC_relinked _ _ _ _ Hc1)|]. apply stored_relinked.
    + intros x Hx Hxl. cbn in Hxl. apply list_elem_of_singleton in Hxl as ->. done.
    + split; [apply lookup_insert_eq|done].
  - done.
  - apply kept_relinked; [done|]. by apply kept_insert.
  - by apply list.Forall_cons_2.
Qed.

(** The leaf at the end of a path is taken off. *)
Lemma dropLeaf_ok own h f c l k v p : stored h (plug (f :: c) (Node l k v p Leaf Leaf)) -> NoDup (labelsC (f :: c) ++ [l]) ->
  own ⊆ h -> free_of own (label <$> f :: c) ->
  exists h', dropLeaf (Some l) (Some (label f)) h = (Ok (), h') /\ stored h' (plug (f :: c) Leaf) /\ own ⊆ h' /\
    h' !! l = Some (mkNode k v p None None).
Proof.
  intros Hst Hnd Hown Hfree. apply stored_plug in Hst as [Hc (Hn & _)]. cbn [root_of] in Hc.
  apply list.NoDup_app in Hnd as (Hnd & Hd & _). assert (Hl : l ∉ labelsC (f :: c)) by (intros Hin; by apply (Hd l Hin), list_elem_of_here).
  exists (relinked h (f :: c) None). pose proof Hc as (Hf & _). split; [|split; [|split]].
  - unfold dropLeaf. rewrite (stateful_step _ _ _ _ _ (load_ok _ _ _ Hf)), (update_ok _ _ _ _ Hf). cbn [relinked]. repeat f_equal.
    destruct f as [lf kf vf pf b|lf kf vf pf a]; cbn [holed right].
    + rewrite bool_decide_false; [done|]. intros Hb. destruct b; [done|]. cbn in Hb. injection Hb as ->.
      apply Hl, list.elem_of_cons. right. constructor.
    + by rewrite bool_decide_true.
  - apply stored_plug. split; [by apply (storedC_relinked _ _ _ _ Hc)|done].
  - by apply kept_relinked.
  - cbn [relinked]. rewrite lookup_insert_ne; [done|]. intros <-. apply Hl. constructor.
Qed.

End TreapFacts.
