(* ===== verification/TreapMap.v ===== *)
(** * Treaps are maps, and versions last

    The theorems on Treap.  A treap in the heap stands for a tree without
    addresses; Put and Delete compute the functions [putTree] and
    [deleteTree] on it, whose sequence of pairs is that of a map.  Whatever is
    done to an immutable treap, every earlier version keeps its contents; the
    mutable one leaves everything outside of it as it was.  Put keeps the
    priorities in the order of a heap, Delete does not. *)

From Stdlib Require Import Sorting.Sorted.
From S2P Require Import Prelude Treap TreapFacts.

Module TreapMap.
Import Treap TreapFacts.

Fixpoint has {L} (l : L) (k v : list Z) (t : tree L) : Prop :=
  match t with Leaf => False | Node l' k' v' _ a b => (l = l' /\ k = k' /\ v = v') \/ has l k v a \/ has l k v b end.

Lemma has_stored h l k v t : stored h t -> has l k v t -> exists n, h !! l = Some n /\ key n = k /\ value n = v.
Proof.
  induction t as [|l' k' v' p a IHa b IHb]; cbn; [done|]. intros (Hn & Ha & Hb) [(-> & -> & ->)|[?|?]]; eauto.
Qed.

Lemma has_plug {L} (l : L) k v c t : has l k v t -> has l k v (plug c t).
Proof. revert t. induction c as [|[] c IH]; intros t Ht; [done|..]; apply IH; cbn; auto. Qed.

Lemma has_bubble {L} (l : L) k v c t : has l k v t -> has l k v (bubble c t).
Proof.
  revert t. induction c as [|f c IH]; intros t Ht; [done|]. destruct t as [|l' k' v' p x y]; [done|]. cbn [bubble].
  destruct (prio f <=? p); [by apply has_plug|]. apply IH. destruct f; cbn in *; tauto.
Qed.

Lemma nodeSize_eq n : nodeSize n = u64 (72 + Zlen (key n) + Zlen (value n)).
Proof. unfold nodeSize, nodeFieldsSize, u64. rewrite Z.add_mod_idemp_r by done. f_equal. lia. Qed.

(** The bytes a treap is said to take. *)
Fixpoint weight (l : list (list Z * list Z)) : Z :=
  match l with [] => 0 | (k, v) :: l => 72 + Zlen k + Zlen v + weight l end.

Lemma weight_app a b : weight (a ++ b) = weight a + weight b.
Proof. induction a as [|[k v] a IH]; cbn; [lia|]. rewrite IH. lia. Qed.

(** A treap that stands for a tree: [m] are its root, count and size, and
    [own] is the part of the heap that is none of it. *)
Definition stands (own h : heap) (r : ptr) (count size : Z) (e : tree unit) : Prop :=
  exists t, root_of t = r /\ erase t = e /\ stored h t /\ NoDup (labels t) /\ own ⊆ h /\ free_of own (labels t) /\
    count = i64 (Z.of_nat (tsize e)) /\ size = u64 (weight (pairs e)).

Lemma free_labelsC own (c : list (frame loc)) t : free_of own (labels (plug c t)) -> free_of own (label <$> c) /\ free_of own (labels t).
Proof.
  intros H. assert (free_of own (labelsC c) /\ free_of own (labels t)) as [Hc Ht].
  { unfold free_of in *. rewrite labels_plug, list.Forall_app in H. done. }
  split; [|done]. clear H Ht. induction c as [|f c IH]; [constructor|]. cbn in *. apply list.Forall_cons in Hc as [? Hc].
  apply list.Forall_app in Hc as [_ Hc]. apply list.Forall_cons. split; [done|by apply IH].
Qed.

Lemma i64_i64 a b : i64 (i64 a + b) = i64 (a + b).
Proof.
  unfold i64. f_equal.
  replace ((a + 2 ^ 63) mod 2 ^ 64 - 2 ^ 63 + b + 2 ^ 63) with ((a + 2 ^ 63) mod 2 ^ 64 + b) by lia.
  rewrite Zplus_mod_idemp_l. f_equal. lia.
Qed.
Lemma u64_add_l a b : u64 (u64 a + b) = u64 (a + b).
Proof. apply Zplus_mod_idemp_l. Qed.
Lemma u64_add_r a b : u64 (a + u64 b) = u64 (a + b).
Proof. apply Zplus_mod_idemp_r. Qed.
Lemma u64_sub_l a b : u64 (u64 a - b) = u64 (a - b).
Proof. apply Zminus_mod_idemp_l. Qed.
Lemma u64_sub_r a b : u64 (a - u64 b) = u64 (a - b).
Proof. apply Zminus_mod_idemp_r. Qed.

(** What a search finds, in the sequence of pairs. *)
Lemma descend_found {L} k (t : tree L) c0 c l k' v p a b : descend k t c0 = (c, Node l k' v p a b) -> k = k'.
Proof.
  revert c0. induction t as [|l1 k1 v1 p1 a1 IHa b1 IHb]; intros c0; cbn; [done|].
  destruct (Compare k k1) eqn:Hk; [|by apply IHa|by apply IHb]. intros [= <- <- <- <- <- <- <-]. by apply Compare_eq.
Qed.

Lemma descend_pairs {L} k (e : tree L) c s : descend k e [] = (c, s) -> pairs e = pairsL c ++ pairs s ++ pairsR c.
Proof. intros H. rewrite <- pairs_plug. pose proof (descend_plug k e []) as Hp. rewrite H in Hp. cbn in Hp. by rewrite Hp. Qed.

Lemma putTree_pairs k v p e c s : descend k e [] = (c, s) ->
  pairs (putTree k v p e) =
    match s with
    | Leaf => pairsL c ++ (k, v) :: pairsR c
    | Node _ _ _ _ a b => (pairsL c ++ pairs a) ++ (k, v) :: (pairs b ++ pairsR c)
    end.
Proof.
  intros H. unfold putTree. rewrite H. destruct s as [|l k' v' p' a b].
  - by rewrite pairs_bubble, pairs_plug.
  - apply descend_found in H as ->. rewrite pairs_plug. cbn. by rewrite <- !app_assoc.
Qed.

Lemma deleteTree_pairs k e c s : descend k e [] = (c, s) ->
  pairs (deleteTree k e) =
    match s with Leaf => pairs e | Node _ _ _ _ a b => (pairsL c ++ pairs a) ++ (pairs b ++ pairsR c) end.
Proof.
  intros H. unfold deleteTree. rewrite H. destruct s as [|l k' v' p' a b]; [done|].
  rewrite pairs_plug, pairs_join. by rewrite <- !app_assoc.
Qed.

(** The counters after Put and Delete. *)
Lemma counters_put k v p e c s : descend k e [] = (c, s) ->
  match s with
  | Leaf => i64 (i64 (Z.of_nat (tsize e)) + 1) = i64 (Z.of_nat (tsize (putTree k v p e))) /\
            u64 (u64 (weight (pairs e)) + u64 (72 + Zlen k + Zlen v)) = u64 (weight (pairs (putTree k v p e)))
  | Node _ _ v' _ _ _ => i64 (Z.of_nat (tsize e)) = i64 (Z.of_nat (tsize (putTree k v p e))) /\
            u64 (u64 (u64 (weight (pairs e)) - Zlen v') + Zlen v) = u64 (weight (pairs (putTree k v p e)))
  end.
Proof.
  intros H. pose proof (putTree_pairs k v p e c s H) as Hput. pose proof (descend_pairs k e c s H) as He.
  rewrite <- !tsize_pairs, Hput, He. destruct s as [|l k' v' p' a b].
  - rewrite i64_i64, u64_add_l, u64_add_r, !weight_app. cbn [pairs weight app]. split; f_equal; [|lia].
    repeat (rewrite ?length_app; cbn [length]). lia.
  - apply descend_found in H as ->. rewrite u64_sub_l, u64_add_l, !weight_app. cbn [pairs].
    repeat (rewrite ?weight_app; cbn [weight]). split; f_equal; [|lia]. repeat (rewrite ?length_app; cbn [length]). lia.
Qed.

Lemma counters_delete k e c l k' v p a b : descend k e [] = (c, Node l k' v p a b) ->
  i64 (i64 (Z.of_nat (tsize e)) - 1) = i64 (Z.of_nat (tsize (deleteTree k e))) /\
  u64 (u64 (weight (pairs e)) - u64 (72 + Zlen k' + Zlen v)) = u64 (weight (pairs (deleteTree k e))).
Proof.
  intros H. pose proof (deleteTree_pairs k e c _ H) as Hd. pose proof (descend_pairs k e c _ H) as He.
  rewrite <- !tsize_pairs, Hd, He. rewrite <- Z.add_opp_r, i64_i64, u64_sub_l, u64_sub_r. cbn [pairs]. split; f_equal.
  - repeat (rewrite ?length_app; cbn [length]). lia.
  - repeat (rewrite ?weight_app; cbn [weight]). lia.
Qed.

(** ** Put and Delete *)

Lemma labelsC_length (c : list (frame loc)) : (length c <= length (labelsC c))%nat.
Proof. induction c as [|f c IH]; [done|]. cbn. rewrite length_app. lia. Qed.

Lemma depth_bound h c t : stored h (plug c t) -> NoDup (labelsC c ++ labels t) -> (length c + tsize t <= size h)%nat.
Proof.
  intros Hst Hnd. rewrite <- (labels_plug c t) in Hnd. pose proof (labels_bound _ _ Hst Hnd) as H.
  rewrite <- tsize_labels, labels_plug, length_app in H. pose proof (labelsC_length c). rewrite <- (tsize_labels t). lia.
Qed.

(** A new node at the end of a path is rotated up. *)
Lemma put_new own h f c0 k v prio s (c := f :: c0) (l := fresh (dom h)) (e := Node l k v prio Leaf Leaf) :
  stored h (plug c Leaf) -> NoDup (labelsC c) -> holds s (label <$> c) -> own ⊆ h -> free_of own (label <$> c) ->
  exists h2 h3 n,
    update (Some (label f)) (match side c with Lt => withLeft (Some l) | _ => withRight (Some l) end)
      (<[l := mkNode k v prio None None]> h) = (Ok (), h2) /\
    rotateUp (enough h2) (Some l) s (root_of (plug c Leaf)) h2 = (Ok (root_of (bubble c e)), h3) /\
    stored h3 (bubble c e) /\ NoDup (labels (bubble c e)) /\ own ⊆ h3 /\ own !! l = None /\
    h3 !! l = Some n /\ key n = k /\ value n = v.
Proof.
  intros Hst Hnd Hs Hown Hfree.
  destruct (hang_new own h f c0 k v prio Hst Hnd Hown Hfree) as (h2 & Hup & Hst2 & Hnd2 & Hown2 & Hfree2).
  destruct (rotateUp_spec own c (enough h2) l e s (root_of (plug c Leaf)) h2) as (h3 & Hrot & Hst3 & Hown3); try done.
  - unfold c. by rewrite !root_plug.
  - pose proof (depth_bound h2 c e Hst2 Hnd2). unfold enough. lia.
  - destruct (has_stored h3 l k v _ Hst3) as (n & Hn & Hk & Hv); [apply has_bubble; by left|].
    exists h2, h3, n. split; [done|]. split; [done|]. split; [done|]. split; [by rewrite labels_bubble|].
    apply list.Forall_cons in Hfree2 as [? _]. done.
Qed.

(** Setting the value of the node that was found. *)
Lemma setValue_ok own h c l k v0 p a b v (t := Node l k v0 p a b) :
  stored h (plug c t) -> NoDup (labelsC c ++ labels t) -> own ⊆ h -> own !! l = None ->
  exists h', update (Some l) (withValue v) h = (Ok (), h') /\ stored h' (plug c (Node l k v p a b)) /\ own ⊆ h'.
Proof.
  intros Hst Hnd Hown Hl. apply stored_plug in Hst as [Hc (Hn & Ha & Hb)].
  exists (<[l := mkNode k v p (root_of a) (root_of b)]> h). split; [by rewrite (update_ok _ _ _ _ Hn)|].
  apply list.NoDup_app in Hnd as (_ & Hd & Hnd). cbn [labels t] in Hnd. apply list.NoDup_cons in Hnd as [Hlt _].
  apply not_elem_of_app in Hlt as [? ?]. split; [|by apply kept_insert]. apply stored_plug. split.
  - apply storedC_insert; [|done]. intros Hin. by apply (Hd l Hin), list_elem_of_here.
  - cbn [stored]. split; [apply lookup_insert_eq|]. split; by apply stored_insert.
Qed.

(** The first pair. *)
Lemma put_first own h k v prio (l := fresh (dom h)) (h1 := <[l := mkNode k v prio None None]> h) : own ⊆ h ->
  stands own h1 (Some l) 1 (nodeSize (mkNode k v prio None None)) (putTree k v prio Leaf).
Proof.
  intros Hown. assert (Hnone : own !! l = None) by (apply (lookup_weaken_None _ h); [apply fresh_None|done]).
  exists (Node l k v prio Leaf Leaf). split; [done|]. split; [done|]. split; [split; [apply lookup_insert_eq|done]|].
  split; [apply NoDup_singleton|]. split; [by apply kept_insert|]. split; [by apply list.Forall_cons_2|]. split; [done|].
  rewrite nodeSize_eq. cbn [key value putTree descend bubble plug pairs weight app]. f_equal. lia.
Qed.

Lemma stands_empty own h : own ⊆ h -> stands own h None 0 0 Leaf.
Proof. intros H. exists Leaf. repeat split; try done; constructor. Qed.

Lemma descend_empty {L} k (t : tree L) c : descend k t [] = (c, Leaf) -> t <> Leaf -> exists f c0, c = f :: c0.
Proof. intros H Ht. pose proof (descend_plug k t []) as Hp. rewrite H in Hp. destruct c as [|f c]; [cbn in Hp; congruence|by exists f, c]. Qed.

Lemma gets_bind {A} (K : heap -> M A) h : (h ← gets (fun h => h); K h) h = K h h.
Proof. done. Qed.

Lemma find_ok k h t c s : stored h t -> NoDup (labels t) -> descend k t [] = (c, s) ->
  exists st, findLoop (enough h) k (root_of t) emptyStack Eq h =
    (Ok (st, match s with Leaf => side c | _ => Eq end, root_of s), h) /\ holds st (path c s).
Proof.
  intros Hst Hnd Hd. pose proof (labels_bound _ _ Hst Hnd). pose proof (findLoop_spec k h t (enough h) [] emptyStack Hst) as Hfind.
  rewrite Hd in Hfind. apply Hfind; [unfold enough; lia|apply emptyStack_holds].
Qed.

Lemma plugged {L} k (t : tree L) c s : descend k t [] = (c, s) -> t = plug c s.
Proof. intros H. pose proof (descend_plug k t []) as Hp. by rewrite H in Hp. Qed.

Lemma erased {L} k (t : tree L) c s : descend k t [] = (c, s) -> descend k (erase t) [] = (erase1 <$> c, erase s).
Proof. intros H. pose proof (descend_erase k t []) as Hp. by rewrite H in Hp. Qed.

Lemma Mutable_Put_some m k v prio r h : Mutable.root m = Some r ->
  Mutable.Put m k v prio h =
    ('(parents, c, found) ← findLoop (enough h) k (Some r) emptyStack Eq;
      match found with
      | Some _ =>
          n ← load found;
          _ ← update found (withValue (default [] v));
          mret (Mutable.mk (Some r) (Mutable.count m) (u64 (u64 (Mutable.totalSize m - Zlen (value n)) + Zlen (default [] v))))
      | None =>
          node ← newTreapNode k (default [] v) prio;
          n ← load (Some node);
          parent ← lift (At parents 0);
          _ ← update parent (match c with Lt => withLeft (Some node) | _ => withRight (Some node) end);
          h ← gets (fun h => h);
          root ← rotateUp (enough h) (Some node) parents (Some r);
          mret (Mutable.mk root (i64 (Mutable.count m + 1)) (u64 (Mutable.totalSize m + nodeSize n)))
      end) h.
Proof. intros H. unfold Mutable.Put. by rewrite H. Qed.

Lemma Mutable_Put own h m e k v prio : stands own h (Mutable.root m) (Mutable.count m) (Mutable.totalSize m) e ->
  exists m' h', Mutable.Put m k v prio h = (Ok m', h') /\
    stands own h' (Mutable.root m') (Mutable.count m') (Mutable.totalSize m') (putTree k (default [] v) prio e).
Proof.
  intros (t & Hroot & <- & Hst & Hnd & Hown & Hfree & Hcount & Hsize). set (w := default [] v).
  destruct (Mutable.root m) as [r|] eqn:Hr.
  2: { destruct t; [|done]. unfold Mutable.Put. rewrite Hr. eexists _, _. unfold newTreapNode, alloc, mbind, stateful_bind.
       rewrite (load_ok _ _ (mkNode k w prio None None)) by apply lookup_insert_eq. split; [done|]. by apply put_first. }
  rewrite (Mutable_Put_some _ _ _ _ _ _ Hr), <- Hroot. fold w. destruct (descend k t []) as [c s] eqn:Hd.
  destruct (find_ok k h t c s Hst Hnd Hd) as (st & Hrun & Hs). rewrite (stateful_step _ _ _ _ _ Hrun). cbn beta iota.
  pose proof (counters_put k w prio _ _ _ (erased _ _ _ _ Hd)) as Hnum. rewrite <- Hcount, <- Hsize in Hnum.
  pose proof (erased _ _ _ _ Hd) as Her. destruct s as [|l k' v' p a b]; cbn [root_of erase] in *.
  - destruct (descend_empty _ _ _ Hd) as (f & c0 & ->); [by intros ->|]. pose proof (plugged _ _ _ _ Hd) as ->.
    rewrite labels_plug, app_nil_r in Hnd. destruct (free_labelsC _ _ _ Hfree) as [Hfc _].
    destruct (put_new own h f c0 k w prio st Hst Hnd Hs Hown Hfc) as (h2 & h3 & n & Hup & Hrot & Hst3 & Hnd3 & Hown3 & Hl & _ & _ & _).
    eexists _, h3. split.
    + unfold newTreapNode, alloc, mbind at 1, stateful_bind at 1.
      rewrite (stateful_step _ _ _ _ _ (load_ok _ _ _ (lookup_insert_eq _ _ _))).
      rewrite (stateful_step _ _ _ _ _ (lift_ok _ _ _ (At_top _ _ Hs))). cbn [head path root_of option_list app fmap list_fmap].
      rewrite (stateful_step _ _ _ _ _ Hup), gets_bind, (stateful_step _ _ _ _ _ Hrot). done.
    + destruct Hnum as [Hn1 Hn2]. exists (bubble (f :: c0) (Node (fresh (dom h)) k w prio Leaf Leaf)). split; [done|].
      split; [unfold putTree; rewrite Her; by rewrite bubble_erase|]. split; [done|]. split; [done|]. split; [done|].
      split; [|split; [done|by rewrite nodeSize_eq]]. unfold free_of in *. rewrite labels_bubble. rewrite labels_plug in Hfree.
      apply list.Forall_app in Hfree as [? _]. apply list.Forall_app. split; [done|]. by apply list.Forall_cons_2.
  - pose proof (plugged _ _ _ _ Hd) as ->. rewrite labels_plug in Hnd. pose proof (proj1 (stored_plug _ _ _) Hst) as [_ (Hn & _)].
    destruct (free_labelsC _ _ _ Hfree) as [_ Hft]. apply list.Forall_cons in Hft as [Hl _].
    destruct (setValue_ok own h c l k' v' p a b w Hst Hnd Hown Hl) as (h' & Hup & Hst' & Hown').
    eexists _, h'. split.
    + rewrite (stateful_step _ _ _ _ _ (load_ok _ _ _ Hn)), (stateful_step _ _ _ _ _ Hup). done.
    + destruct Hnum as [Hn1 Hn2]. exists (plug c (Node l k' w p a b)). split.
      { cbn [Mutable.root]. rewrite Hroot in *. clear -Hroot. rewrite <- Hroot. destruct c as [|g c]; [done|by rewrite !root_plug]. }
      split; [unfold putTree; rewrite Her; by rewrite erase_plug|]. split; [done|].
      split; [by rewrite labels_plug|]. split; [done|]. split; [|by split].
      unfold free_of in *. by rewrite labels_plug in *.
Qed.

Lemma stands_weaken own h r n size e : stands own h r n size e -> stands ∅ h r n size e.
Proof.
  intros (t & Hr & He & Hst & Hnd & _ & _ & Hn & Hs). exists t. repeat (split; [done|]).
  split; [apply map_empty_subseteq|]. split; [|done]. apply list.Forall_forall. intros x _. apply lookup_empty.
Qed.

Lemma Immutable_Put_some m k v prio r h : Immutable.root m = Some r ->
  Immutable.Put m k v prio h =
    ('(parents, c, found) ← Immutable.cloneLoop (enough h) k (Some r) emptyStack Eq;
      match found with
      | Some (copy, n) =>
          _ ← update (Some copy) (withValue (default [] v));
          newRoot ← lift (At parents (Len parents - 1));
          mret (Immutable.newImmutable newRoot (Immutable.count m) (u64 (u64 (Immutable.totalSize m - Zlen (value n)) + Zlen (default [] v))))
      | None =>
          node ← newTreapNode k (default [] v) prio;
          parent ← lift (At parents 0);
          _ ← update parent (match c with Lt => withLeft (Some node) | _ => withRight (Some node) end);
          newRoot ← lift (At parents (Len parents - 1));
          h ← gets (fun h => h);
          newRoot ← rotateUp (enough h) (Some node) parents newRoot;
          n ← load (Some node);
          mret (Immutable.newImmutable newRoot (i64 (Immutable.count m + 1)) (u64 (Immutable.totalSize m + nodeSize n)))
      end) h.
Proof. intros H. unfold Immutable.Put. by rewrite H. Qed.

Lemma free_self (h : heap) : free_of h [].
Proof. constructor. Qed.

(** Put makes a new version and changes no node that is there. *)
Lemma Immutable_Put h m e k v prio : stands ∅ h (Immutable.root m) (Immutable.count m) (Immutable.totalSize m) e ->
  exists m' h', Immutable.Put m k v prio h = (Ok m', h') /\ h ⊆ h' /\
    stands ∅ h' (Immutable.root m') (Immutable.count m') (Immutable.totalSize m') (putTree k (default [] v) prio e).
Proof.
  intros (t & Hroot & <- & Hst & Hnd & _ & _ & Hcount & Hsize). set (w := default [] v).
  destruct (Immutable.root m) as [r|] eqn:Hr.
  2: { destruct t; [|done]. unfold Immutable.Put. rewrite Hr. eexists _, _. unfold newTreapNode, alloc, mbind, stateful_bind.
       rewrite (load_ok _ _ (mkNode k w prio None None)) by apply lookup_insert_eq. split; [done|].
       split; [apply insert_subseteq, fresh_None|]. apply put_first, map_empty_subseteq. }
  rewrite (Immutable_Put_some _ _ _ _ _ _ Hr), <- Hroot. fold w.
  destruct (cloneLoop_spec h k t (enough h) [] emptyStack h Hst Hnd emptyStack_holds (reflexivity h) (free_self h))
    as (c & s & st & h1 & Hd & (Hs & Hst1 & Hnd1 & Hown1 & Hfree1) & Hrun).
  { pose proof (labels_bound _ _ Hst Hnd). unfold enough. lia. }
  rewrite (stateful_step _ _ _ _ _ Hrun). cbn beta iota. cbn [fmap list_fmap] in Hd. symmetry in Hd.
  pose proof (counters_put k w prio _ _ _ Hd) as Hnum. rewrite <- Hcount, <- Hsize in Hnum.
  destruct s as [|l k' v' p a b]; cbn [root_of erase node_of] in *.
  - destruct c as [|f c0]; [destruct (descend_empty _ _ _ Hd) as (? & ? & ?); [by destruct t|done]|].
    cbn [labels] in Hnd1. rewrite app_nil_r in Hnd1.
    destruct (put_new h h1 f c0 k w prio st Hst1 Hnd1 Hs Hown1 Hfree1) as (h2 & h3 & n & Hup & Hrot & Hst3 & Hnd3 & Hown3 & _ & Hn & Hk & Hv).
    eexists _, h3. split; [|split; [done|]].
    + unfold newTreapNode, alloc, mbind at 1, stateful_bind at 1.
      rewrite (stateful_step _ _ _ _ _ (lift_ok _ _ _ (At_top _ _ Hs))). cbn [head path root_of option_list app fmap list_fmap].
      rewrite (stateful_step _ _ _ _ _ Hup), (stateful_step _ _ _ _ _ (lift_ok _ _ _ (At_bottom _ _ _ Hs ltac:(done)))), gets_bind,
        (stateful_step _ _ _ _ _ Hrot), (stateful_step _ _ _ _ _ (load_ok _ _ _ Hn)). done.
    + apply (stands_weaken ∅). destruct Hnum as [Hn1 Hn2]. exists (bubble (f :: c0) (Node (fresh (dom h1)) k w prio Leaf Leaf)).
      split; [done|]. split; [unfold putTree; rewrite Hd; by rewrite bubble_erase|]. split; [done|]. split; [done|].
      split; [apply map_empty_subseteq|]. split; [apply list.Forall_forall; intros; apply lookup_empty|].
      split; [done|]. by rewrite nodeSize_eq, Hk, Hv.
  - pose proof Hfree1 as Hl. apply list.Forall_cons in Hl as [Hl _].
    destruct (setValue_ok h h1 c l k' v' p a b w Hst1 Hnd1 Hown1 Hl) as (h2 & Hup & Hst2 & Hown2).
    eexists _, h2. split; [|split; [done|]].
    + rewrite (stateful_step _ _ _ _ _ Hup), (stateful_step _ _ _ _ _ (lift_ok _ _ _ (At_bottom _ _ _ Hs ltac:(done)))). done.
    + destruct Hnum as [Hn1 Hn2]. exists (plug c (Node l k' w p a b)).
      split; [cbn [Immutable.root]; destruct c; [done|by rewrite !root_plug]|].
      split; [unfold putTree; rewrite Hd; by rewrite erase_plug|]. split; [done|]. split; [by rewrite labels_plug|].
      split; [apply map_empty_subseteq|]. split; [apply list.Forall_forall; intros; apply lookup_empty|]. by split.
Qed.

(** The node is moved down and taken off. *)
Lemma sink_ok own copy h c l k v p a b r : stored h (plug c (Node l k v p a b)) ->
  NoDup (labelsC c ++ labels (Node l k v p a b)) -> own ⊆ h -> free_of own (l :: (label <$> c)) -> may_change own copy a b ->
  (c <> [] -> r = root_of (plug c (Node l k v p a b))) -> (c <> [] \/ a <> Leaf \/ b <> Leaf) ->
  exists q h2 h3 t', rotateDown (enough h) copy (Some l) (head (label <$> c)) r h = (Ok (root_of t', q), h2) /\
    dropLeaf (Some l) q h2 = (Ok (), h3) /\ stored h3 t' /\ NoDup (labels t') /\ own ⊆ h3 /\
    h3 !! l = Some (mkNode k v p None None) /\ erase t' = plug (erase1 <$> c) (join (erase a) (erase b)) /\
    (copy = false -> labels t' ++ [l] ≡ₚ labelsC c ++ l :: labels a ++ labels b).
Proof.
  intros Hst Hnd Hown Hfree Hmay Hroot Hany. pose proof (depth_bound _ _ _ Hst Hnd) as Hb. cbn [tsize] in Hb.
  destruct (rotateDown_spec own copy l k v p (enough h) a b c r h Hst Hnd Hown Hfree Hmay Hroot) as
    (c' & h2 & Hrun & Hst2 & Hnd2 & Hown2 & Hfree2 & Her & Hne & Hlab); [unfold enough; lia|done|].
  destruct c' as [|f c']; [done|]. apply list.Forall_cons in Hfree2 as [_ Hfree2].
  destruct (dropLeaf_ok own h2 f c' l k v p Hst2 Hnd2 Hown2 Hfree2) as (h3 & Hdrop & Hst3 & Hown3 & Hl).
  exists (Some (label f)), h2, h3, (plug (f :: c') Leaf). split; [by rewrite Hrun, !root_plug|]. split; [done|]. split; [done|].
  split; [rewrite labels_plug, app_nil_r; by apply list.NoDup_app in Hnd2 as (? & _)|]. split; [done|]. split; [done|].
  split; [by rewrite <- Her, erase_plug|]. intros Hcp. rewrite <- (Hlab Hcp), labels_plug, app_nil_r. done.
Qed.

Lemma delete_last k l v p : deleteTree k (Node l k v p Leaf Leaf) = Leaf.
Proof. unfold deleteTree. cbn. by rewrite Compare_refl. Qed.

Lemma Mutable_Delete own h m e k : stands own h (Mutable.root m) (Mutable.count m) (Mutable.totalSize m) e ->
  exists m' h', Mutable.Delete m k h = (Ok m', h') /\
    stands own h' (Mutable.root m') (Mutable.count m') (Mutable.totalSize m') (deleteTree k e).
Proof.
  intros Hstands. pose proof Hstands as (t & Hroot & <- & Hst & Hnd & Hown & Hfree & Hcount & Hsize).
  destruct (descend k t []) as [c s] eqn:Hd. pose proof (erased _ _ _ _ Hd) as Her.
  pose proof (getLoop_spec k h t (enough h) [] Hst) as Hget. rewrite Hd in Hget. pose proof (labels_bound _ _ Hst Hnd) as Hb.
  specialize (Hget ltac:(unfold enough; lia)). cbn [head fmap list_fmap] in Hget.
  unfold Mutable.Delete, Mutable.get. rewrite <- Hroot. rewrite (stateful_step (h0 ← gets (fun h => h); getLoop (enough h0) k (root_of t) None) _ h _ h Hget).
  destruct s as [|l k' v p a b].
  { exists m, h. split; [done|]. unfold deleteTree. rewrite Her. exact Hstands. }
  pose proof (plugged _ _ _ _ Hd) as ->. rewrite labels_plug in Hnd. pose proof (proj1 (stored_plug _ _ _) Hst) as [_ (Hn & _)].
  cbn [root_of]. rewrite (stateful_step _ _ _ _ _ (load_ok _ _ _ Hn)). cbn [left right].
  destruct (counters_delete _ _ _ _ _ _ _ _ _ Her) as [Hn1 Hn2]. rewrite <- Hcount in Hn1. rewrite <- Hsize in Hn2.
  assert (Hcase : (c = [] /\ a = Leaf /\ b = Leaf) \/ (c <> [] \/ a <> Leaf \/ b <> Leaf))
    by (destruct c; [destruct a; [destruct b; [by left|]|]|]; by eauto).
  destruct Hcase as [(-> & -> & ->)|Hany].
  { eexists _, h. split; [done|]. apply descend_found in Her as ->. cbn [plug erase]. rewrite delete_last. by apply stands_empty. }
  pose proof Hfree as Hfree'. destruct (free_labelsC _ _ _ Hfree) as [Hfc Hft]. apply list.Forall_cons in Hft as [Hl Hft].
  destruct (sink_ok own false h c l k' v p a b (root_of (plug c (Node l k' v p a b))) Hst Hnd Hown) as (q & h2 & h3 & t' & Hrun & Hdrop & Hst3 & Hnd3 & Hown3 & Hlook & Het & Hlab);
    [by apply list.Forall_cons_2|by intros _|done..|].
  eexists _, h3. split.
  - transitivity (('(root, parent) ← rotateDown (enough h) false (Some l) (head (label <$> c)) (root_of (plug c (Node l k' v p a b)));
      _ ← dropLeaf (Some l) parent; n ← load (Some l);
      mret (Mutable.mk root (i64 (Mutable.count m - 1)) (u64 (Mutable.totalSize m - nodeSize n)))) h).
    { destruct c as [|f c]; [|done]. destruct a; [|done]. destruct b; [|done]. by destruct Hany as [?|[?|?]]. }
    rewrite (stateful_step _ _ _ _ _ Hrun), (stateful_step _ _ _ _ _ Hdrop), (stateful_step _ _ _ _ _ (load_ok _ _ _ Hlook)). done.
  - exists t'. split; [done|]. split; [unfold deleteTree; by rewrite Her|]. split; [done|]. split; [done|]. split; [done|].
    split; [|split; [done|by rewrite nodeSize_eq]]. specialize (Hlab eq_refl).
    unfold free_of in *. rewrite labels_plug in Hfree'. cbn [labels] in Hfree'. rewrite <- Hlab in Hfree'. by apply list.Forall_app in Hfree' as [? _].
Qed.

(** Delete makes a new version and changes no node that is there. *)
Lemma Immutable_Delete h m e k : stands ∅ h (Immutable.root m) (Immutable.count m) (Immutable.totalSize m) e ->
  exists m' h', Immutable.Delete m k h = (Ok m', h') /\ h ⊆ h' /\
    stands ∅ h' (Immutable.root m') (Immutable.count m') (Immutable.totalSize m') (deleteTree k e).
Proof.
  intros Hstands. pose proof Hstands as (t & Hroot & <- & Hst & Hnd & _ & _ & Hcount & Hsize).
  destruct (descend k t []) as [c s] eqn:Hd. pose proof (erased _ _ _ _ Hd) as Her.
  destruct (find_ok k h t c s Hst Hnd Hd) as (st & Hrun & Hs).
  unfold Immutable.Delete. rewrite gets_bind, <- Hroot, (stateful_step _ _ _ _ _ Hrun). cbn beta iota.
  destruct s as [|l k' v p a b].
  { exists m, h. split; [done|]. split; [done|]. unfold deleteTree. rewrite Her. exact Hstands. }
  pose proof (plugged _ _ _ _ Hd) as ->. rewrite labels_plug in Hnd. pose proof (proj1 (stored_plug _ _ _) Hst) as [_ (Hn & _)].
  cbn [root_of]. change 1 with (Z.of_nat 1). rewrite (stateful_step _ _ _ _ _ (lift_ok _ _ _ (At_holds _ _ 1 Hs))).
  rewrite (stateful_step _ _ _ _ _ (load_ok _ _ _ Hn)). cbn [left right].
  destruct (counters_delete _ _ _ _ _ _ _ _ _ Her) as [Hn1 Hn2]. rewrite <- Hcount in Hn1. rewrite <- Hsize in Hn2.
  assert (Hcase : (c = [] /\ a = Leaf /\ b = Leaf) \/ (c <> [] \/ a <> Leaf \/ b <> Leaf))
    by (destruct c; [destruct a; [destruct b; [by left|]|]|]; by eauto).
  destruct Hcase as [(-> & -> & ->)|Hany].
  { eexists _, h. split; [done|]. split; [done|]. apply descend_found in Her as ->. cbn [plug erase]. rewrite delete_last.
    apply stands_empty, map_empty_subseteq. }
  destruct (cloneParents_spec h st [] l k' v p a b c [] emptyStack h) as (c' & l' & s' & h1 & Hcl & (Hs' & Hst1 & Hnd1 & Hown1 & Hfree1) & Herc);
    [by rewrite app_nil_r|done|cbn [labelsC app]; by rewrite labels_plug|apply emptyStack_holds|done|constructor|].
  destruct (Pop_holds _ _ _ Hs') as (s2 & Hpop & Hs2). rewrite app_nil_r in Herc.
  assert (Hne : c' <> [] \/ a <> Leaf \/ b <> Leaf).
  { destruct Hany as [Hc|?]; [|by right]. left. intros ->. by destruct c. }
  assert (exists r, At s2 (Len s2 - 1) = Ok r /\ (c' <> [] -> r = root_of (plug c' (Node l' k' v p a b)))) as (r & Hr & Hroot').
  { destruct c' as [|f c0]; [by exists None; split; [apply At_nil|]|]. exists (root_of (plug (f :: c0) Leaf)).
    split; [by apply (At_bottom _ (f :: c0) Leaf)|]. intros _. by rewrite !root_plug. }
  destruct (sink_ok h true h1 c' l' k' v p a b r Hst1 Hnd1 Hown1 Hfree1 ltac:(by intros ?) Hroot' Hne)
    as (q & h2 & h3 & t' & Hdown & Hdrop & Hst3 & Hnd3 & Hown3 & Hlook & Het & _).
  eexists _, h3. split; [|split; [done|]].
  - transitivity ((newParents ← Immutable.cloneParents (Z.to_nat (Len st)) st emptyStack;
      '(delNode, newParents) ← lift (Pop newParents);
      parent ← lift (At newParents 0);
      newRoot ← lift (At newParents (Len newParents - 1));
      h ← gets (fun h => h);
      '(newRoot, parent) ← rotateDown (enough h) true delNode parent newRoot;
      _ ← dropLeaf delNode parent;
      d ← load delNode;
      mret (Immutable.newImmutable newRoot (i64 (Immutable.count m - 1)) (u64 (Immutable.totalSize m - nodeSize d)))) h).
    { destruct c as [|f c]; [|done]. destruct a; [|done]. destruct b; [|done]. by destruct Hany as [?|[?|?]]. }
    replace (Z.to_nat (Len st)) with (S (length c)).
    2: { rewrite (Len_holds _ _ Hs). unfold Zlen. cbn. rewrite length_fmap. lia. }
    rewrite (stateful_step _ _ _ _ _ Hcl), (stateful_step _ _ _ _ _ (lift_ok _ _ _ Hpop)). cbn beta iota.
    rewrite (stateful_step _ _ _ _ _ (lift_ok _ _ _ (At_top _ _ Hs2))), (stateful_step _ _ _ _ _ (lift_ok _ _ _ Hr)), gets_bind.
    rewrite (stateful_step _ _ _ _ _ Hdown), (stateful_step _ _ _ _ _ Hdrop), (stateful_step _ _ _ _ _ (load_ok _ _ _ Hlook)). done.
  - apply (stands_weaken ∅). exists t'. split; [done|]. split; [unfold deleteTree; by rewrite Her, Het, Herc|].
    split; [done|]. split; [done|]. split; [apply map_empty_subseteq|].
    split; [apply list.Forall_forall; intros; apply lookup_empty|]. split; [done|by rewrite nodeSize_eq].
Qed.

(** ** The sequence of pairs is a map in the order of its keys *)

Definition sorted (l : list (list Z * list Z)) : Prop := StronglySorted before l.*1.
Definition asMap {L} (e : tree L) : gmap (list Z) (list Z) := list_to_map (pairs e).

Lemma sorted_app a b : sorted (a ++ b) <-> sorted a /\ sorted b /\ forall x y, x ∈ a.*1 -> y ∈ b.*1 -> before x y.
Proof.
  unfold sorted. rewrite fmap_app. generalize a.*1, b.*1. clear. intros a b. induction a as [|x a IH]; cbn [app].
  - split; [|tauto]. intros H. split; [constructor|]. split; [done|]. intros x y Hx. by apply not_elem_of_nil in Hx.
  - split.
    + inversion_clear 1 as [|? ? Hs Hf]. apply IH in Hs as (Ha & Hb & Hab). apply list.Forall_app in Hf as [Hfa Hfb].
      split; [by constructor|]. split; [done|]. intros y z Hy Hz. apply list.elem_of_cons in Hy as [->|Hy]; [|by apply Hab].
      exact (proj1 (list.Forall_forall _ _) Hfb z Hz).
    + intros (Ha & Hb & Hab). inversion_clear Ha as [|? ? Hs Hf]. constructor.
      * apply IH. split; [done|]. split; [done|]. intros y z Hy. apply Hab. by apply list_elem_of_further.
      * apply list.Forall_app. split; [done|]. apply list.Forall_forall. intros z Hz. apply Hab; [constructor|done].
Qed.

Lemma sorted_cons k v l : sorted ((k, v) :: l) <-> sorted l /\ forall x, x ∈ l.*1 -> before k x.
Proof.
  unfold sorted. cbn [fmap list_fmap fst]. split.
  - inversion_clear 1 as [|? ? Hs Hf]. split; [done|]. exact (proj1 (list.Forall_forall _ _) Hf).
  - intros [Hs Hf]. constructor; [done|]. by apply list.Forall_forall.
Qed.

Lemma sorted_nodup l : sorted l -> NoDup l.*1.
Proof.
  unfold sorted. generalize l.*1. clear. intros l. induction 1 as [|x l Hs IH Hf]; [constructor|].
  apply list.NoDup_cons. split; [|done]. intros Hin. apply (before_irrefl x). exact (proj1 (list.Forall_forall _ _) Hf x Hin).
Qed.

(** A search splits the pairs at the key. *)
Lemma descend_order {L} k (t : tree L) : forall c, sorted (pairs (plug c t)) ->
  (forall x, x ∈ (pairsL c).*1 -> before x k) -> (forall x, x ∈ (pairsR c).*1 -> before k x) ->
  let c' := (descend k t c).1 in
  (forall x, x ∈ (pairsL c').*1 -> before x k) /\ (forall x, x ∈ (pairsR c').*1 -> before k x).
Proof.
  induction t as [|l k' v p a IHa b IHb]; intros c Hs HL HR; cbn [descend]; [done|].
  pose proof Hs as Hs'. rewrite pairs_plug in Hs'. cbn [pairs] in Hs'.
  apply sorted_app in Hs' as (_ & Hs' & _). apply sorted_app in Hs' as (Hs' & _ & _). apply sorted_app in Hs' as (_ & Hb & Hab).
  apply sorted_cons in Hb as [_ Hb]. destruct (Compare k k') eqn:Hk; [done|..].
  - apply IHa; [done|done|]. cbn [pairsR]. intros x. cbn [fmap list_fmap fst]. rewrite list.elem_of_cons, fmap_app, elem_of_app.
    intros [->|[Hx|Hx]]; [done| |by apply HR]. etrans; [exact Hk|by apply Hb].
  - apply Compare_gt in Hk. apply IHb; [done| |done]. cbn [pairsL]. intros x. rewrite !fmap_app, !elem_of_app. cbn [fmap list_fmap fst].
    intros [Hx|[Hx|Hx]]; [by apply HL| |by apply list_elem_of_singleton in Hx as ->].
    etrans; [|exact Hk]. apply Hab; [done|constructor].
Qed.

Lemma descend_split {L} k (e : tree L) c s : sorted (pairs e) -> descend k e [] = (c, s) ->
  (forall x, x ∈ (pairsL c).*1 -> before x k) /\ (forall x, x ∈ (pairsR c).*1 -> before k x).
Proof.
  intros Hs Hd. pose proof (descend_order k e [] Hs) as H. rewrite Hd in H. apply H; intros x Hx; by apply not_elem_of_nil in Hx.
Qed.

Lemma map_middle (a b : list (list Z * list Z)) k v : k ∉ a.*1 ->
  list_to_map (M := gmap (list Z) (list Z)) (a ++ (k, v) :: b) = <[k := v]> (list_to_map (a ++ b)).
Proof.
  intros Ha. rewrite !list_to_map_app. cbn [list_to_map]. rewrite insert_union_r; [done|]. by apply not_elem_of_list_to_map.
Qed.

(** A pair put in the middle. *)
Lemma sorted_middle a b k v : sorted a -> sorted b -> (forall x, x ∈ a.*1 -> before x k) -> (forall x, x ∈ b.*1 -> before k x) ->
  sorted (a ++ (k, v) :: b).
Proof.
  intros Ha Hb Hak Hbk. apply sorted_app. split; [done|]. split; [by apply sorted_cons|].
  intros x y Hx. cbn [fmap list_fmap fst]. rewrite list.elem_of_cons. intros [->|Hy]; [by apply Hak|]. etrans; [by apply Hak|by apply Hbk].
Qed.

Lemma not_before k (l : list (list Z * list Z)) : (forall x, x ∈ l.*1 -> before x k) \/ (forall x, x ∈ l.*1 -> before k x) -> k ∉ l.*1.
Proof. intros [H|H] Hin; by apply (before_irrefl k), H. Qed.

(** The halves around a key that is in the tree. *)
Lemma found_split k (e : tree unit) c k' v' p a b : sorted (pairs e) -> descend k e [] = (c, Node tt k' v' p a b) ->
  k = k' /\ pairs e = (pairsL c ++ pairs a) ++ (k, v') :: (pairs b ++ pairsR c) /\
  sorted (pairsL c ++ pairs a) /\ sorted (pairs b ++ pairsR c) /\
  (forall x, x ∈ (pairsL c ++ pairs a).*1 -> before x k) /\ (forall x, x ∈ (pairs b ++ pairsR c).*1 -> before k x).
Proof.
  intros Hs Hd. pose proof (descend_pairs _ _ _ _ Hd) as He. apply descend_found in Hd as ->. split; [done|].
  cbn [pairs] in He. assert (Heq : pairs e = (pairsL c ++ pairs a) ++ (k', v') :: (pairs b ++ pairsR c)).
  { rewrite He. by rewrite <- !app_assoc. }
  split; [done|]. rewrite Heq in Hs. apply sorted_app in Hs as (Ha & Hb & Hab). apply sorted_cons in Hb as [Hb Hkb].
  split; [done|]. split; [done|]. split; [|done]. intros x Hx. apply Hab; [done|constructor].
Qed.

Lemma putTree_map k v p e : sorted (pairs e) ->
  sorted (pairs (putTree k v p e)) /\ asMap (putTree k v p e) = <[k := v]> (asMap e).
Proof.
  intros Hs. unfold asMap. destruct (descend k e []) as [c s] eqn:Hd. rewrite (putTree_pairs _ _ _ _ _ _ Hd).
  destruct s as [|[] k' v' p' a b].
  - destruct (descend_split _ _ _ _ Hs Hd) as [HL HR]. pose proof (descend_pairs _ _ _ _ Hd) as He. cbn in He.
    rewrite He in *. pose proof (proj1 (sorted_app _ _) Hs) as (Ha & Hb & _).
    split; [by apply sorted_middle|]. apply map_middle. apply not_before. by left.
  - destruct (found_split _ _ _ _ _ _ _ _ Hs Hd) as (<- & -> & Ha & Hb & Hak & Hkb).
    split; [by apply sorted_middle|]. rewrite !map_middle by (apply not_before; by left). by rewrite insert_insert_eq.
Qed.

Lemma deleteTree_map k e : sorted (pairs e) ->
  sorted (pairs (deleteTree k e)) /\ asMap (deleteTree k e) = delete k (asMap e).
Proof.
  intros Hs. unfold asMap. destruct (descend k e []) as [c s] eqn:Hd. rewrite (deleteTree_pairs _ _ _ _ Hd).
  destruct s as [|[] k' v' p' a b].
  - split; [done|]. destruct (descend_split _ _ _ _ Hs Hd) as [HL HR]. pose proof (descend_pairs _ _ _ _ Hd) as He. cbn in He.
    rewrite He. symmetry. apply delete_id. apply not_elem_of_list_to_map. rewrite fmap_app, not_elem_of_app.
    split; apply not_before; auto.
  - destruct (found_split _ _ _ _ _ _ _ _ Hs Hd) as (<- & -> & Ha & Hb & Hak & Hkb).
    assert (Hnone : k ∉ ((pairsL c ++ pairs a) ++ (pairs b ++ pairsR c)).*1).
    { rewrite fmap_app, not_elem_of_app. split; apply not_before; auto. }
    split.
    + apply sorted_app. split; [done|]. split; [done|]. intros x y Hx Hy. etrans; [by apply Hak|by apply Hkb].
    + rewrite map_middle by (apply not_before; by left). rewrite delete_insert_id; [done|]. by apply not_elem_of_list_to_map.
Qed.

(** ** Reading *)

Lemma asMap_lookup {L} k (e : tree L) c s : sorted (pairs e) -> descend k e [] = (c, s) ->
  asMap e !! k = match s with Leaf => None | Node _ _ v _ _ _ => Some v end.
Proof.
  intros Hs Hd. pose proof (descend_pairs _ _ _ _ Hd) as He. destruct s as [|l k' v p a b].
  - destruct (descend_split _ _ _ _ Hs Hd) as [HL HR]. apply not_elem_of_list_to_map. rewrite He. cbn [pairs app].
    rewrite fmap_app, not_elem_of_app. split; apply not_before; auto.
  - pose proof (descend_found _ _ _ _ _ _ _ _ _ _ Hd) as <-. apply elem_of_list_to_map; [by apply sorted_nodup|].
    rewrite He. cbn [pairs]. rewrite !elem_of_app, list.elem_of_cons. auto.
Qed.

Lemma get_ok {A} h t k c s (K : ptr * ptr -> M A) : stored h t -> NoDup (labels t) -> descend k t [] = (c, s) ->
  (x ← (h ← gets (fun h => h); getLoop (enough h) k (root_of t) None); K x) h =
  K (match s with Leaf => (None, None) | _ => (root_of s, head (label <$> c)) end) h.
Proof.
  intros Hst Hnd Hd. pose proof (getLoop_spec k h t (enough h) [] Hst) as Hget. rewrite Hd in Hget.
  pose proof (labels_bound _ _ Hst Hnd). specialize (Hget ltac:(unfold enough; lia)).
  apply (stateful_step (h ← gets (fun h => h); getLoop (enough h) k (root_of t) None) K h _ h Hget).
Qed.

(** The answers of the reading operations. *)
Lemma Mutable_reads own h m e k : stands own h (Mutable.root m) (Mutable.count m) (Mutable.totalSize m) e -> sorted (pairs e) ->
  Mutable.Get m k h = (Ok (asMap e !! k), h) /\ Mutable.Has m k h = (Ok (bool_decide (is_Some (asMap e !! k))), h).
Proof.
  intros (t & Hroot & <- & Hst & Hnd & _) Hs. destruct (descend k t []) as [c s] eqn:Hd.
  rewrite (asMap_lookup _ _ _ _ Hs (erased _ _ _ _ Hd)). unfold Mutable.Get, Mutable.Has, Mutable.get. rewrite <- Hroot.
  rewrite !(get_ok _ _ _ _ _ _ Hst Hnd Hd). destruct s as [|l k' v p a b]; [done|]. pose proof (plugged _ _ _ _ Hd) as ->.
  pose proof (proj1 (stored_plug _ _ _) Hst) as [_ (Hn & _)]. cbn [root_of erase].
  rewrite (stateful_step _ _ _ _ _ (load_ok _ _ _ Hn)). split; [done|]. by rewrite !bool_decide_true.
Qed.

Lemma Immutable_reads h m e k : stands ∅ h (Immutable.root m) (Immutable.count m) (Immutable.totalSize m) e -> sorted (pairs e) ->
  Immutable.Get m k h = (Ok (asMap e !! k), h) /\ Immutable.Has m k h = (Ok (bool_decide (is_Some (asMap e !! k))), h).
Proof.
  intros (t & Hroot & <- & Hst & Hnd & _) Hs. destruct (descend k t []) as [c s] eqn:Hd.
  assert (Hget : Immutable.get m k h = (Ok (root_of s), h)).
  { unfold Immutable.get. rewrite <- Hroot, gets_bind.
    pose proof (getLoop_spec k h t (enough h) [] Hst) as Hget. rewrite Hd in Hget. pose proof (labels_bound _ _ Hst Hnd).
    rewrite (stateful_step _ _ _ _ _ (Hget ltac:(unfold enough; lia))). by destruct s. }
  rewrite (asMap_lookup _ _ _ _ Hs (erased _ _ _ _ Hd)). unfold Immutable.Get, Immutable.Has.
  rewrite !(stateful_step _ _ _ _ _ Hget). destruct s as [|l k' v p a b]; [done|]. pose proof (plugged _ _ _ _ Hd) as ->.
  pose proof (proj1 (stored_plug _ _ _) Hst) as [_ (Hn & _)]. cbn [root_of erase].
  rewrite (stateful_step _ _ _ _ _ (load_ok _ _ _ Hn)). split; [done|]. by rewrite !bool_decide_true.
Qed.

(** Visiting pairs until the function says to stop. *)
Fixpoint foldUntil {A} (fn : A -> list Z -> list Z -> A * bool) (a : A) (l : list (list Z * list Z)) : A :=
  match l with
  | [] => a
  | (k, v) :: l => let '(a, more) := fn a k v in if (more : bool) then foldUntil fn a l else a
  end.

(** What a stack of nodes stands for: each with what is at its right. *)
Fixpoint pending (ts : list (tree loc)) : list (list Z * list Z) :=
  match ts with
  | [] => []
  | Leaf :: ts => pending ts
  | Node _ k v _ _ b :: ts => (k, v) :: pairs b ++ pending ts
  end.
Definition on_stack (h : heap) (s : parentStack) (ts : list (tree loc)) : Prop :=
  Forall (fun t => t <> Leaf /\ stored h t /\ (tsize t <= size h)%nat) ts /\ holds s (omap root_of ts).

Lemma pushLeft_spec h t : forall fuel s ts, stored h t -> (tsize t < fuel)%nat -> (tsize t <= size h)%nat -> on_stack h s ts ->
  exists s' ts', pushLeft fuel (root_of t) s h = (Ok s', h) /\ on_stack h s' ts' /\ pending ts' = pairs t ++ pending ts.
Proof.
  induction t as [|l k v p a IHa b IHb]; intros fuel s ts Hst Hfuel Hsz [Hts Hs]; [exists s, ts; by destruct fuel|].
  destruct fuel as [|fuel]; cbn [tsize] in Hfuel, Hsz; [lia|]. pose proof Hst as (Hn & Ha & Hb). cbn [pushLeft root_of].
  rewrite (stateful_step _ _ _ _ _ (load_ok _ _ _ Hn)). cbn [left].
  destruct (IHa fuel (Push s (Some l)) (Node l k v p a b :: ts) Ha ltac:(lia) ltac:(lia)) as (s' & ts' & Hrun & Hon & Hp).
  { split; [by apply list.Forall_cons_2|]. by apply Push_holds. }
  exists s', ts'. split; [done|]. split; [done|]. rewrite Hp. cbn. by rewrite <- app_assoc.
Qed.

Lemma visitLoop_spec {A} h (fn : A -> list Z -> list Z -> A * bool) : forall fuel a s ts, on_stack h s ts ->
  (length (pending ts) <= fuel)%nat -> visitLoop fuel fn a s h = (Ok (foldUntil fn a (pending ts)), h).
Proof.
  induction fuel as [|fuel IH]; intros a s ts [Hts Hs] Hfuel;
    (destruct ts as [|[|l k v p x y] ts]; [cbn [visitLoop]; by rewrite (Len_holds _ _ Hs)|by apply list.Forall_cons in Hts as [[? _] _]|]).
  { cbn in Hfuel. lia. }
  cbn [visitLoop]. assert (Hpos : 0 < Len s) by (rewrite (Len_holds _ _ Hs); unfold Zlen; cbn; lia).
  rewrite (proj2 (Z.ltb_lt _ _) Hpos). destruct (Pop_holds _ _ _ Hs) as (s' & Hpop & Hs').
  rewrite (stateful_step _ _ _ _ _ (lift_ok _ _ _ Hpop)). cbn beta iota.
  apply list.Forall_cons in Hts as [(_ & (Hn & Hx & Hy) & Hsz) Hts]. cbn [tsize] in Hsz.
  rewrite (stateful_step _ _ _ _ _ (load_ok _ _ _ Hn)). cbn [key value right pending foldUntil].
  destruct (fn a k v) as [a' []]; [|done]. rewrite gets_bind.
  destruct (pushLeft_spec h y (enough h) s' ts Hy ltac:(unfold enough; lia) ltac:(lia)) as (s2 & ts2 & Hrun & Hon & Hp); [done|].
  rewrite (stateful_step _ _ _ _ _ Hrun), <- Hp. apply IH; [done|]. rewrite Hp. cbn in Hfuel. lia.
Qed.

(** ForEach visits the pairs in the order of the keys, until it is told to stop. *)
Lemma visit_spec {A} own h r n sz e (fn : A -> list Z -> list Z -> A * bool) a : stands own h r n sz e ->
  visit fn a r h = (Ok (foldUntil fn a (pairs e)), h).
Proof.
  intros (t & <- & <- & Hst & Hnd & _). unfold visit. rewrite gets_bind. pose proof (labels_bound _ _ Hst Hnd) as Hb.
  destruct (pushLeft_spec h t (enough h) emptyStack [] Hst ltac:(unfold enough; lia) Hb) as (s & ts & Hrun & Hon & Hp).
  { split; [constructor|apply emptyStack_holds]. }
  rewrite (stateful_step _ _ _ _ _ Hrun), (visitLoop_spec _ _ _ _ _ _ Hon); rewrite Hp, app_nil_r; [by rewrite pairs_erase|].
  rewrite tsize_pairs. unfold enough. lia.
Qed.

(** ** Priorities *)

Section Priorities.
Context {L : Type}.

Definition top_le (p : Z) (t : tree L) : Prop := match t with Leaf => True | Node _ _ _ q _ _ => p <= q end.
(** No priority is greater than one below it. *)
Fixpoint heap_ordered (t : tree L) : Prop :=
  match t with Leaf => True | Node _ _ _ p a b => top_le p a /\ top_le p b /\ heap_ordered a /\ heap_ordered b end.
Definition below (c : list (frame L)) (t : tree L) : Prop := match c with [] => True | f :: _ => top_le (prio f) t end.
Fixpoint ordered_above (c : list (frame L)) : Prop :=
  match c with
  | [] => True
  | f :: c => top_le (prio f) (sibling f) /\ heap_ordered (sibling f) /\
      match c with [] => True | g :: _ => prio g <= prio f end /\ ordered_above c
  end.

Lemma ordered_plug c t : heap_ordered (plug c t) <-> ordered_above c /\ below c t /\ heap_ordered t.
Proof.
  revert t. induction c as [|f c IH]; intros t; cbn [plug ordered_above below]; [tauto|]. rewrite IH.
  destruct f as [l k v p b|l k v p a]; cbn [plug1 sibling prio heap_ordered]; destruct c as [|g c]; cbn [below top_le]; tauto.
Qed.

Lemma bubble_ordered c : forall l k v p x y, ordered_above c -> below c x -> below c y -> heap_ordered (Node l k v p x y) ->
  heap_ordered (bubble c (Node l k v p x y)).
Proof.
  induction c as [|f c IH]; intros l k v p x y Hc Hx Hy Ht; [done|]. cbn [bubble].
  destruct (Z.leb_spec (prio f) p) as [Hle|Hlt]; [by apply ordered_plug|].
  destruct Hc as (Htop & Hsib & Hf & Hc). destruct Ht as (Htx & Hty & Hox & Hoy).
  assert (Hup : forall t, top_le (prio f) t -> below c t).
  { intros t Hto. destruct c as [|g c]; [done|]. destruct t; [done|]. cbn in *. lia. }
  assert (Hown : forall k' v' a b, below c (Node (label f) k' v' (prio f) a b)) by (intros; by destruct c as [|g c]).
  destruct f as [lf kf vf pf b|lf kf vf pf a]; cbn [turn prio sibling label below top_le] in *; apply IH; auto;
    cbn [heap_ordered top_le]; repeat split; auto; lia.
Qed.

End Priorities.

Lemma Put_ordered k v p e : heap_ordered e -> heap_ordered (putTree k v p e).
Proof.
  intros He. unfold putTree. destruct (descend k e []) as [c s] eqn:Hd. pose proof (plugged _ _ _ _ Hd) as ->.
  apply ordered_plug in He as (Hc & Hb & Hs). destruct s as [|[] k' v' p' a b].
  - apply bubble_ordered; [done|by destruct c..|done].
  - apply ordered_plug. split; [done|]. split; [by destruct c|done].
Qed.

(** Of two children Delete takes up the one with the higher priority, and in
    a treap whose least priority is at the top that is the wrong one. *)
Example Delete_breaks_the_order :
  let t := putTree [3] [] 5 (putTree [1] [] 4 (putTree [2] [] 1 Leaf)) in
  heap_ordered t /\ ~ heap_ordered (deleteTree [2] t).
Proof. vm_compute. intuition congruence. Qed.

(** ** The treaps as maps *)

(** A treap answers as the map [m], of which [l] is the sequence of pairs. *)
Record answers (count size : Z) (get : list Z -> M (option (list Z))) (has : list Z -> M bool)
    (each : forall A, (A -> list Z -> list Z -> A * bool) -> A -> M A) (h : heap) (m : gmap (list Z) (list Z)) : Prop := {
  ans_get : forall k, get k h = (Ok (m !! k), h);
  ans_has : forall k, has k h = (Ok (bool_decide (is_Some (m !! k))), h);
  ans_pairs : exists l, l ≡ₚ map_to_list m /\ sorted l /\ count = i64 (Zlen l) /\ size = u64 (weight l) /\
    forall A (fn : A -> list Z -> list Z -> A * bool) a, each A fn a h = (Ok (foldUntil fn a l), h) }.

Definition answersM (h : heap) (t : Mutable.t) : gmap (list Z) (list Z) -> Prop :=
  answers (Mutable.count t) (Mutable.Size t) (Mutable.Get t) (Mutable.Has t) (fun A => Mutable.ForEach t (A := A)) h.
Definition answersI (h : heap) (t : Immutable.t) : gmap (list Z) (list Z) -> Prop :=
  answers (Immutable.count t) (Immutable.Size t) (Immutable.Get t) (Immutable.Has t) (fun A => Immutable.ForEach t (A := A)) h.

Lemma pairs_listed {L} (e : tree L) : sorted (pairs e) -> pairs e ≡ₚ map_to_list (asMap e).
Proof. intros Hs. symmetry. apply map_to_list_to_map. by apply sorted_nodup. Qed.

Lemma stands_answersM own h t e : stands own h (Mutable.root t) (Mutable.count t) (Mutable.totalSize t) e -> sorted (pairs e) ->
  answersM h t (asMap e).
Proof.
  intros Ht Hs. split.
  - intros k. apply (Mutable_reads _ _ _ _ k Ht Hs).
  - intros k. apply (Mutable_reads _ _ _ _ k Ht Hs).
  - exists (pairs e). split; [by apply pairs_listed|]. split; [done|]. pose proof Ht as (? & _ & _ & _ & _ & _ & _ & Hn & Hz).
    unfold Zlen. rewrite tsize_pairs. split; [done|]. split; [done|]. intros A fn a. apply (visit_spec _ _ _ _ _ _ _ _ Ht).
Qed.

Lemma stands_answersI h t e : stands ∅ h (Immutable.root t) (Immutable.count t) (Immutable.totalSize t) e -> sorted (pairs e) ->
  answersI h t (asMap e).
Proof.
  intros Ht Hs. split.
  - intros k. apply (Immutable_reads _ _ _ k Ht Hs).
  - intros k. apply (Immutable_reads _ _ _ k Ht Hs).
  - exists (pairs e). split; [by apply pairs_listed|]. split; [done|]. pose proof Ht as (? & _ & _ & _ & _ & _ & _ & Hn & Hz).
    unfold Zlen. rewrite tsize_pairs. split; [done|]. split; [done|]. intros A fn a. apply (visit_spec _ _ _ _ _ _ _ _ Ht).
Qed.

Inductive change : Type := CPut (k : list Z) (v : option (list Z)) (prio : Z) | CDelete (k : list Z).
Definition changed (c : change) (m : gmap (list Z) (list Z)) : gmap (list Z) (list Z) :=
  match c with CPut k v _ => <[k := default [] v]> m | CDelete k => delete k m end.

(** A change of a version makes a new one, which comes last. *)
Definition version (vs : list Immutable.t) (x : nat * change) : M (list Immutable.t) :=
  match vs !! x.1 with
  | None => mret vs
  | Some t => t ← (match x.2 with CPut k v prio => Immutable.Put t k v prio | CDelete k => Immutable.Delete t k end); mret (vs ++ [t])
  end.
Fixpoint versions (vs : list Immutable.t) (xs : list (nat * change)) : M (list Immutable.t) :=
  match xs with [] => mret vs | x :: xs => vs ← version vs x; versions vs xs end.
Definition versionMap (ms : list (gmap (list Z) (list Z))) (x : nat * change) : list (gmap (list Z) (list Z)) :=
  match ms !! x.1 with None => ms | Some m => ms ++ [changed x.2 m] end.

Definition is_version (h : heap) (t : Immutable.t) (m : gmap (list Z) (list Z)) : Prop :=
  exists e, stands ∅ h (Immutable.root t) (Immutable.count t) (Immutable.totalSize t) e /\ sorted (pairs e) /\ asMap e = m.

Lemma stored_mono h h' t : h ⊆ h' -> stored h t -> stored h' t.
Proof. intros Hsub. induction t as [|l k v p a IHa b IHb]; cbn; [done|]. intros (Hn & Ha & Hb). split; [by apply (lookup_weaken h)|auto]. Qed.

Lemma is_version_mono h h' t m : h ⊆ h' -> is_version h t m -> is_version h' t m.
Proof.
  intros Hsub (e & (t' & Hr & He & Hst & Hrest) & Hs). exists e. split; [|done]. exists t'. split; [done|]. split; [done|].
  split; [by apply (stored_mono h)|]. destruct Hrest as (? & _ & ? & ?). repeat (split; [done|]). split; [apply map_empty_subseteq|done].
Qed.

Lemma change_version h t m c : is_version h t m -> exists t' h',
  (match c with CPut k v prio => Immutable.Put t k v prio | CDelete k => Immutable.Delete t k end) h = (Ok t', h') /\
  h ⊆ h' /\ is_version h' t' (changed c m).
Proof.
  intros (e & Ht & Hs & <-). destruct c as [k v prio|k].
  - destruct (Immutable_Put _ _ _ k v prio Ht) as (t' & h' & Hrun & Hsub & Ht'). exists t', h'. split; [done|]. split; [done|].
    destruct (putTree_map k (default [] v) prio e Hs) as [Hs' Hm]. by eexists.
  - destruct (Immutable_Delete _ _ _ k Ht) as (t' & h' & Hrun & Hsub & Ht'). exists t', h'. split; [done|]. split; [done|].
    destruct (deleteTree_map k e Hs) as [Hs' Hm]. by eexists.
Qed.

Lemma versions_spec xs : forall vs ms h, Forall2 (is_version h) vs ms -> exists vs' h',
  versions vs xs h = (Ok vs', h') /\ h ⊆ h' /\ Forall2 (is_version h') vs' (foldl versionMap ms xs).
Proof.
  induction xs as [|[i c] xs IH]; intros vs ms h Hvs; cbn [versions foldl]; [by exists vs, h|].
  unfold version, versionMap. cbn [fst snd]. destruct (vs !! i) as [t|] eqn:Ht.
  - destruct (Forall2_lookup_l _ _ _ _ _ Hvs Ht) as (m & -> & Hm).
    destruct (change_version h t m c Hm) as (t' & h1 & Hrun & Hsub & Hv).
    destruct (IH (vs ++ [t']) (ms ++ [changed c m]) h1) as (vs' & h' & Hgo & Hsub' & Hall).
    { apply List.Forall2_app; [|by repeat constructor]. apply (list.Forall2_impl _ _ _ _ Hvs). intros ? ?. by apply is_version_mono. }
    exists vs', h'. split; [|split; [by etrans|done]]. apply stateful_bind_ok. exists (vs ++ [t']), h1. split; [|done].
    by rewrite (stateful_step _ _ _ _ _ Hrun).
  - assert (ms !! i = None) as ->.
    { apply lookup_ge_None. rewrite <- (Forall2_length Hvs). by apply lookup_ge_None. }
    apply (IH vs ms h Hvs).
Qed.

(** C38. Whatever versions of an immutable treap are made from the empty one, by
    changing any earlier version, each of them answers for ever as the map it
    was made as: its pairs, its length and its size.  No node that was in the
    heap before is changed. *)
Theorem immutable_versions h0 xs : exists vs h, versions [Immutable.NewImmutable] xs h0 = (Ok vs, h) /\ h0 ⊆ h /\
  Forall2 (answersI h) vs (foldl versionMap [∅] xs).
Proof.
  destruct (versions_spec xs [Immutable.NewImmutable] [∅] h0) as (vs & h & Hrun & Hsub & Hvs).
  { repeat constructor. exists Leaf. split; [apply stands_empty, map_empty_subseteq|]. split; [constructor|done]. }
  exists vs, h. split; [done|]. split; [done|]. apply (list.Forall2_impl _ _ _ _ Hvs).
  intros t m (e & Ht & Hs & <-). by apply stands_answersI.
Qed.

Inductive mchange : Type := MChange (c : change) | MReset.
Definition mutate (t : Mutable.t) (c : mchange) : M Mutable.t :=
  match c with
  | MChange (CPut k v prio) => Mutable.Put t k v prio
  | MChange (CDelete k) => Mutable.Delete t k
  | MReset => mret (Mutable.Reset t)
  end.
Fixpoint mutations (t : Mutable.t) (cs : list mchange) : M Mutable.t :=
  match cs with [] => mret t | c :: cs => t ← mutate t c; mutations t cs end.
Definition mutated (m : gmap (list Z) (list Z)) (c : mchange) : gmap (list Z) (list Z) :=
  match c with MChange c => changed c m | MReset => ∅ end.

Lemma mutations_spec own cs : forall t e h, stands own h (Mutable.root t) (Mutable.count t) (Mutable.totalSize t) e -> sorted (pairs e) ->
  exists t' e' h', mutations t cs h = (Ok t', h') /\
    stands own h' (Mutable.root t') (Mutable.count t') (Mutable.totalSize t') e' /\ sorted (pairs e') /\ asMap e' = foldl mutated (asMap e) cs.
Proof.
  induction cs as [|c cs IH]; intros t e h Ht Hs; cbn [mutations foldl]; [by exists t, e, h|]. destruct c as [[k v prio|k]|].
  - destruct (Mutable_Put _ _ _ _ k v prio Ht) as (t1 & h1 & Hrun & Ht1). rewrite (stateful_step _ _ _ _ _ Hrun).
    destruct (putTree_map k (default [] v) prio e Hs) as [Hs' Hm]. cbn [mutated changed]. rewrite <- Hm. by apply IH.
  - destruct (Mutable_Delete _ _ _ _ k Ht) as (t1 & h1 & Hrun & Ht1). rewrite (stateful_step _ _ _ _ _ Hrun).
    destruct (deleteTree_map k e Hs) as [Hs' Hm]. cbn [mutated changed]. rewrite <- Hm. by apply IH.
  - pose proof Ht as (_ & _ & _ & _ & _ & Hown & _). apply (IH (Mutable.Reset t) Leaf h); [by apply stands_empty|constructor].
Qed.

(** C39. A mutable treap answers as the map that its changes make, and nothing
    else in the heap is written to. *)
Theorem mutable_map h0 cs : exists t h, mutations Mutable.NewMutable cs h0 = (Ok t, h) /\ h0 ⊆ h /\
  answersM h t (foldl mutated ∅ cs).
Proof.
  destruct (mutations_spec h0 cs Mutable.NewMutable Leaf h0) as (t & e & h & Hrun & Ht & Hs & Hm); [by apply stands_empty|constructor|].
  exists t, h. split; [done|]. pose proof Ht as (_ & _ & _ & _ & _ & Hown & _). split; [done|].
  assert (Hm' : asMap e = foldl mutated ∅ cs) by exact Hm. rewrite <- Hm'. by apply (stands_answersM h0).
Qed.

End TreapMap.
