(* ===== verification/TreapIter.v ===== *)
(** * Iterators over treaps

    Models coin/OrcaNet/database/internal/treap/treapiter.go.  An iterator
    keeps the node it is at, the stack of the parents of this node, and the
    range of keys it is limited to.  An iterator over a mutable treap reads
    the present root in ForceReseek, which is given the treap here; a range
    without a start or without a limit has [None] there.

    The theorems say that the iterator walks the pairs in the range in the
    order of the keys, and where it goes on after the treap was changed. *)

From Stdlib Require Import Sorting.Sorted.
From S2P Require Import Prelude Treap TreapFacts TreapMap.

Module TreapIter.
Import Treap TreapFacts TreapMap.

Record Iterator := mkIter {
  root : ptr;
  node : ptr;
  parents : parentStack;
  isNew : bool;
  seekKey : option (list Z);
  startKey : option (list Z);
  limitKey : option (list Z) }.

Definition newIterator (r : ptr) (start limit : option (list Z)) : Iterator :=
  mkIter r None emptyStack true None start limit.
Definition MutableIterator (t : Mutable.t) := newIterator (Mutable.root t).
Definition ImmutableIterator (t : Immutable.t) := newIterator (Immutable.root t).

Definition atNode (it : Iterator) (n : ptr) (s : parentStack) : Iterator :=
  mkIter (root it) n s (isNew it) (seekKey it) (startKey it) (limitKey it).
Definition used (it : Iterator) : Iterator :=
  mkIter (root it) (node it) (parents it) false (seekKey it) (startKey it) (limitKey it).
Definition unseek (it : Iterator) : Iterator :=
  mkIter (root it) (node it) (parents it) (isNew it) None (startKey it) (limitKey it).

Definition ltKey (a b : list Z) : bool := match Compare a b with Lt => true | _ => false end.

(** Clears the node when its key is outside of the range. *)
Definition limitIterator (it : Iterator) : M (bool * Iterator) :=
  match node it with
  | None => mret (false, it)
  | Some _ =>
      n ← load (node it);
      if match startKey it with Some s => ltKey (key n) s | None => false end
      then mret (false, atNode it None (parents it))
      else if match limitKey it with Some s => negb (ltKey (key n) s) | None => false end
      then mret (false, atNode it None (parents it))
      else mret (true, it)
  end.

(** The way down to a key: the node selected so far with its depth, the
    parents, and whether the last node has the key itself. *)
Fixpoint seekLoop (fuel : nat) (k : list Z) (exactMatch greater : bool) (n : ptr) (s : parentStack) (sel : ptr) (depth : Z)
    : M (ptr * parentStack * Z * bool) :=
  match n with
  | None => mret (sel, s, depth, false)
  | Some _ =>
      match fuel with
      | O => lift Hang
      | S fuel =>
          let s := Push s n in
          nd ← load n;
          match Compare k (key nd) with
          | Lt => if greater then seekLoop fuel k exactMatch greater (left nd) s n (Len s - 1)
                  else seekLoop fuel k exactMatch greater (left nd) s sel depth
          | Gt => if greater then seekLoop fuel k exactMatch greater (right nd) s sel depth
                  else seekLoop fuel k exactMatch greater (right nd) s n (Len s - 1)
          | Eq => if exactMatch then mret (n, s, depth, true)
                  else seekLoop fuel k exactMatch greater (if greater then right nd else left nd) s sel depth
          end
      end
  end.

(** Pops [n] times. *)
Fixpoint popMany (n : nat) (s : parentStack) : outcome Empty_set parentStack :=
  match n with O => Ok s | S n => '(_, s) ← Pop s; popMany n s end.

Definition seek (it : Iterator) (k : list Z) (exactMatch greater : bool) : M (bool * Iterator) :=
  h ← gets (fun h => h);
  '(sel, s, depth, found) ← seekLoop (enough h) k exactMatch greater (root it) emptyStack None 0;
  if (found : bool) then
    '(_, s) ← lift (Pop s);
    limitIterator (atNode it sel s)
  else
    s ← lift (popMany (Z.to_nat (Len s - depth)) s);
    limitIterator (atNode it sel s).

(** The first node without a left child, from a node on, with its parents. *)
Fixpoint firstLoop (fuel : nat) (n : ptr) (s : parentStack) : M (option ptr * parentStack) :=
  match n with
  | None => mret (None, s)
  | Some _ =>
      match fuel with
      | O => lift Hang
      | S fuel =>
          nd ← load n;
          match left nd with
          | None => mret (Some n, s)
          | l => firstLoop fuel l (Push s n)
          end
      end
  end.
Fixpoint lastLoop (fuel : nat) (n : ptr) (s : parentStack) : M (option ptr * parentStack) :=
  match n with
  | None => mret (None, s)
  | Some _ =>
      match fuel with
      | O => lift Hang
      | S fuel =>
          nd ← load n;
          match right nd with
          | None => mret (Some n, s)
          | r => lastLoop fuel r (Push s n)
          end
      end
  end.

(** Without a start the first node is taken as it is: the limit is not looked
    at, and on an empty treap the node stays what it was. *)
Definition First (it : Iterator) : M (bool * Iterator) :=
  let it := used it in
  match startKey it with
  | Some k => seek it k true true
  | None =>
      h ← gets (fun h => h);
      '(n, s) ← firstLoop (enough h) (root it) emptyStack;
      match n with Some n => mret (true, atNode it n s) | None => mret (false, atNode it (node it) s) end
  end.
Definition Last (it : Iterator) : M (bool * Iterator) :=
  let it := used it in
  match limitKey it with
  | Some k => seek it k false false
  | None =>
      h ← gets (fun h => h);
      '(n, s) ← lastLoop (enough h) (root it) emptyStack;
      match n with Some n => mret (true, atNode it n s) | None => mret (false, atNode it (node it) s) end
  end.

(** Up from a node, as long as it is the right child of its parent. *)
Fixpoint upRight (fuel : nat) (n parent : ptr) (s : parentStack) : M (ptr * parentStack) :=
  match parent with
  | None => mret (None, s)
  | Some _ =>
      p ← load parent;
      if bool_decide (right p = n) then
        match fuel with
        | O => lift Hang
        | S fuel => '(pp, s) ← lift (Pop s); upRight fuel parent pp s
        end
      else mret (parent, s)
  end.
Fixpoint upLeft (fuel : nat) (n parent : ptr) (s : parentStack) : M (ptr * parentStack) :=
  match parent with
  | None => mret (None, s)
  | Some _ =>
      p ← load parent;
      if bool_decide (left p = n) then
        match fuel with
        | O => lift Hang
        | S fuel => '(pp, s) ← lift (Pop s); upLeft fuel parent pp s
        end
      else mret (parent, s)
  end.

(** The end of the left side below a node, with its parents. *)
Fixpoint downLeft (fuel : nat) (at_ : ptr) (n : ptr) (s : parentStack) : M (ptr * parentStack) :=
  match n with
  | None => mret (at_, s)
  | Some _ =>
      match fuel with
      | O => lift Hang
      | S fuel => nd ← load n; downLeft fuel n (left nd) (Push s at_)
      end
  end.
Fixpoint downRight (fuel : nat) (at_ : ptr) (n : ptr) (s : parentStack) : M (ptr * parentStack) :=
  match n with
  | None => mret (at_, s)
  | Some _ =>
      match fuel with
      | O => lift Hang
      | S fuel => nd ← load n; downRight fuel n (right nd) (Push s at_)
      end
  end.

Definition Next (it : Iterator) : M (bool * Iterator) :=
  if isNew it then First it
  else match node it with
  | None => mret (false, it)
  | Some _ =>
      match seekKey it with
      | Some k => seek (unseek it) k false true
      | None =>
          h ← gets (fun h => h);
          nd ← load (node it);
          match right nd with
          | None =>
              '(parent, s) ← lift (Pop (parents it));
              '(n, s) ← upRight (enough h) (node it) parent s;
              limitIterator (atNode it n s)
          | Some r =>
              let s := Push (parents it) (node it) in
              rn ← load (Some r);
              '(n, s) ← downLeft (enough h) (Some r) (left rn) s;
              limitIterator (atNode it n s)
          end
      end
  end.

Definition Prev (it : Iterator) : M (bool * Iterator) :=
  if isNew it then Last it
  else match node it with
  | None => mret (false, it)
  | Some _ =>
      match seekKey it with
      | Some k => seek (unseek it) k false false
      | None =>
          h ← gets (fun h => h);
          nd ← load (node it);
          match left nd with
          | None =>
              '(parent, s) ← lift (Pop (parents it));
              '(n, s) ← upLeft (enough h) (node it) parent s;
              limitIterator (atNode it n s)
          | Some l =>
              let s := Push (parents it) (node it) in
              ln ← load (Some l);
              '(n, s) ← downRight (enough h) (Some l) (right ln) s;
              limitIterator (atNode it n s)
          end
      end
  end.

Definition Seek (it : Iterator) (k : list Z) : M (bool * Iterator) := seek (used it) k true true.
Definition Key (it : Iterator) : M (option (list Z)) :=
  match node it with None => mret None | Some _ => n ← load (node it); mret (Some (key n)) end.
Definition Value (it : Iterator) : M (option (list Z)) :=
  match node it with None => mret None | Some _ => n ← load (node it); mret (Some (value n)) end.
Definition Valid (it : Iterator) : bool := bool_decide (node it <> None).

(** [t] is the mutable treap of the iterator as it is now. *)
Definition ForceReseek (t : option Mutable.t) (it : Iterator) : M Iterator :=
  match t with
  | None => mret it
  | Some t =>
      let it := mkIter (Mutable.root t) (node it) (parents it) (isNew it) (seekKey it) (startKey it) (limitKey it) in
      match node it with
      | None => mret (unseek it)
      | Some _ =>
          n ← load (node it);
          mret (mkIter (root it) (node it) (parents it) (isNew it) (Some (key n)) (startKey it) (limitKey it))
      end
  end.

(** ** Positions in a tree *)

Section Positions.
Context {L : Type}.

(** The first node above a hole whose right side is not there yet. *)
Fixpoint next_up (c : list (frame L)) (s : tree L) : option (list (frame L) * tree L) :=
  match c with
  | [] => None
  | InLeft l k v p b :: c => Some (c, Node l k v p s b)
  | InRight l k v p a :: c => next_up c (Node l k v p a s)
  end.
(** The first node of a subtree. *)
Fixpoint first_down (s : tree L) (c : list (frame L)) : list (frame L) * tree L :=
  match s with
  | Node l k v p a b => match a with Leaf => (c, s) | _ => first_down a (InLeft l k v p b :: c) end
  | Leaf => (c, Leaf)
  end.

(** The node [s] under [c] has the pair [x], with the pairs [B] before it and
    the pairs [A] after it. *)
Definition cursor (c : list (frame L)) (s : tree L) (B : list (list Z * list Z)) (x : list Z * list Z) (A : list (list Z * list Z)) : Prop :=
  match s with
  | Leaf => False
  | Node _ k v _ a b => B = pairsL c ++ pairs a /\ x = (k, v) /\ A = pairs b ++ pairsR c
  end.

Lemma cursor_pairs c s B x A : cursor c s B x A -> pairs (plug c s) = B ++ x :: A.
Proof. destruct s as [|l k v p a b]; [done|]. intros (-> & -> & ->). rewrite pairs_plug. cbn. by rewrite <- !app_assoc. Qed.

Lemma next_up_spec c s : match next_up c s with
  | None => pairsR c = []
  | Some (c', s') => plug c' s' = plug c s /\ exists x A, pairsR c = x :: A /\ cursor c' s' (pairsL c ++ pairs s) x A
  end.
Proof.
  revert s. induction c as [|[l k v p b|l k v p a] c IH]; intros s; cbn [next_up]; [done|..].
  - split; [done|]. by exists (k, v), (pairs b ++ pairsR c).
  - specialize (IH (Node l k v p a s)). destruct (next_up c _) as [[c' s']|]; [|done].
    destruct IH as (Hp & x & A & Hr & Hc). split; [done|]. exists x, A. split; [done|].
    cbn [pairsL pairs] in *. rewrite <- !app_assoc. done.
Qed.

Lemma first_down_spec s c : s <> Leaf -> let '(c', s') := first_down s c in
  plug c' s' = plug c s /\ exists x A, pairs s ++ pairsR c = x :: A /\ cursor c' s' (pairsL c) x A.
Proof.
  revert c. induction s as [|l k v p a IHa b IHb]; intros c Hs; [done|]. cbn [first_down]. destruct a as [|la ka va pa a1 a2].
  - split; [done|]. exists (k, v), (pairs b ++ pairsR c). split; [done|]. cbn. by rewrite app_nil_r.
  - specialize (IHa (InLeft l k v p b :: c) ltac:(done)). destruct (first_down _ _) as [c' s'].
    destruct IHa as (Hp & x & A & Hr & Hc). split; [done|]. exists x, A. split; [|done]. rewrite <- Hr. cbn. by rewrite <- !app_assoc.
Qed.

(** The way down of seek. *)
Fixpoint locate (k : list Z) (exactMatch greater : bool) (t : tree L) (c : list (frame L)) : list (frame L) * tree L :=
  match t with
  | Leaf => (c, Leaf)
  | Node l k' v p a b =>
      match Compare k k' with
      | Lt => locate k exactMatch greater a (InLeft l k' v p b :: c)
      | Gt => locate k exactMatch greater b (InRight l k' v p a :: c)
      | Eq => if exactMatch then (c, t)
              else if greater then locate k exactMatch greater b (InRight l k' v p a :: c)
              else locate k exactMatch greater a (InLeft l k' v p b :: c)
      end
  end.

Lemma locate_plug k ex gr t c : plug (locate k ex gr t c).1 (locate k ex gr t c).2 = plug c t.
Proof.
  revert c. induction t as [|l k' v p a IHa b IHb]; intros c; [done|]. cbn [locate].
  destruct (Compare k k'); [|by rewrite IHa|by rewrite IHb]. destruct ex; [done|]. destruct gr; [by rewrite IHb|by rewrite IHa].
Qed.

(** The keys on both sides of the place that seek for a greater key finds. *)
Definition not_after (ex : bool) (k x : list Z) : Prop := if ex then before x k else ~ before k x.
Lemma locate_order k ex t : forall c, sorted (pairs (plug c t)) ->
  (forall x, x ∈ (pairsL c).*1 -> not_after ex k x) -> (forall x, x ∈ (pairsR c).*1 -> before k x) ->
  let '(c', t') := locate k ex true t c in
  (forall x, x ∈ (pairsL c').*1 -> not_after ex k x) /\ (forall x, x ∈ (pairsR c').*1 -> before k x) /\
  match t' with Leaf => True | Node _ k' _ _ _ _ => ex = true /\ k' = k end.
Proof.
  induction t as [|l k' v p a IHa b IHb]; intros c Hs HL HR; cbn [locate]; [done|].
  pose proof Hs as Hs'. rewrite pairs_plug in Hs'. cbn [pairs] in Hs'.
  apply sorted_app in Hs' as (_ & Hs' & _). apply sorted_app in Hs' as (Hs' & _ & _). apply sorted_app in Hs' as (_ & Hb & Hab).
  apply sorted_cons in Hb as [_ Hb].
  assert (Hright : ~ before k k' -> (ex = true -> before k' k) -> forall x, x ∈ (pairsL (InRight l k' v p a :: c)).*1 -> not_after ex k x).
  { intros Hn He x. cbn [pairsL]. rewrite !fmap_app, !elem_of_app. cbn [fmap list_fmap fst]. intros [Hx|[Hx|Hx]]; [by apply HL|..].
    - assert (before x k') by (apply Hab; [done|constructor]). destruct ex; cbn; [etrans; [done|by apply He]|].
      intros Hkx. apply Hn. by etrans.
    - apply list_elem_of_singleton in Hx as ->. destruct ex; cbn; [by apply He|done]. }
  destruct (Compare k k') eqn:Hk.
  - apply Compare_eq in Hk as <-. destruct ex; [done|]. apply IHb; [done| |done]. apply Hright; [apply before_irrefl|done].
  - apply IHa; [done|done|]. cbn [pairsR]. intros x. cbn [fmap list_fmap fst]. rewrite list.elem_of_cons, fmap_app, elem_of_app.
    intros [->|[Hx|Hx]]; [done| |by apply HR]. etrans; [exact Hk|by apply Hb].
  - apply Compare_gt in Hk. apply IHb; [done| |done]. apply Hright; [|done]. intros Hkk. apply (before_irrefl k). by etrans.
Qed.

End Positions.

(** ** Positions in the heap *)

Definition sel_of (gr : bool) (c : list (frame loc)) : ptr * nat :=
  (fix go c := match c with
   | [] => (None, 0%nat)
   | InLeft l _ _ _ _ :: c => if gr then (Some l, length c) else go c
   | InRight l _ _ _ _ :: c => if gr then go c else (Some l, length c)
   end) c.

Lemma seekLoop_spec k ex gr h t : forall fuel c s, stored h t -> (tsize t < fuel)%nat -> holds s (label <$> c) ->
  let '(c', t') := locate k ex gr t c in
  exists s', holds s' (path c' t') /\
    seekLoop fuel k ex gr (root_of t) s (sel_of gr c).1 (Z.of_nat (sel_of gr c).2) h =
      (Ok (match t' with Leaf => (sel_of gr c').1 | _ => root_of t' end, s', Z.of_nat (sel_of gr c').2,
           match t' with Leaf => false | _ => true end), h).
Proof.
  induction t as [|l k' v p a IHa b IHb]; intros fuel c s Hst Hfuel Hs; cbn [locate].
  { exists s. split; [done|]. by destruct fuel. }
  destruct fuel as [|fuel]; cbn [tsize] in Hfuel; [lia|]. destruct Hst as (Hn & Ha & Hb). cbn [seekLoop root_of].
  rewrite (stateful_step _ _ _ _ _ (load_ok _ _ _ Hn)). cbn [key left right]. pose proof (Push_holds _ _ l Hs) as Hs'.
  assert (Hlen : Len (Push s (Some l)) - 1 = Z.of_nat (length c)).
  { rewrite (Len_holds _ _ Hs'). unfold Zlen. cbn [length]. rewrite length_fmap. lia. }
  pose proof (IHa fuel (InLeft l k' v p b :: c) _ Ha ltac:(lia) Hs') as Hleft.
  pose proof (IHb fuel (InRight l k' v p a :: c) _ Hb ltac:(lia) Hs') as Hright.
  destruct (Compare k k') eqn:Hk.
  - destruct ex; [by exists (Push s (Some l))|]. destruct gr; [exact Hright|exact Hleft].
  - destruct gr; [rewrite Hlen|]; exact Hleft.
  - destruct gr; [|rewrite Hlen]; exact Hright.
Qed.

Lemma popMany_ok l : forall n s, holds s l -> (n <= length l)%nat -> exists s', popMany n s = Ok s' /\ holds s' (drop n l).
Proof.
  induction l as [|x l IH]; intros [|n] s Hs Hn; cbn in Hn; try lia; [by exists s..|].
  destruct (Pop_holds _ _ _ Hs) as (s1 & Hp & Hs1). destruct (IH n s1 Hs1 ltac:(lia)) as (s' & Hm & Hs').
  exists s'. split; [|done]. cbn [popMany]. by rewrite Hp.
Qed.

(** The selected node is the one that comes next. *)
Lemma sel_next_up c : forall s : tree loc, (length c >= (sel_of true c).2)%nat /\
  match next_up c s with
  | None => sel_of true c = (None, 0%nat)
  | Some (c', s') => sel_of true c = (root_of s', length c') /\ exists c1, c = c1 ++ c' /\ s' <> Leaf
  end.
Proof.
  induction c as [|[l k v p b|l k v p a] c IH]; intros s; cbn [next_up length]; [split; [cbn; lia|done]|..].
  - cbn. split; [lia|]. split; [done|]. by exists [InLeft l k v p b].
  - change (sel_of true (InRight l k v p a :: c)) with (sel_of true c). destruct (IH (Node l k v p a s)) as [Hlen Hn]. split; [lia|].
    destruct (next_up c _) as [[c' s']|]; [|done]. destruct Hn as (Hsel & c1 & -> & Hne). split; [done|].
    by exists (InRight l k v p a :: c1).
Qed.

(** The iterator is at the node [x] with the pairs [B] before and [A] after. *)
Definition at_cursor (h : heap) (t : tree loc) (it : Iterator) (B : list (list Z * list Z)) (x : list Z * list Z) (A : list (list Z * list Z)) : Prop :=
  exists c s, plug c s = t /\ cursor c s B x A /\ node it = root_of s /\ holds (parents it) (label <$> c) /\
    root it = root_of t /\ stored h t /\ NoDup (labels t).

Definition in_range (start limit : option (list Z)) (k : list Z) : bool :=
  match start with Some s => negb (ltKey k s) | None => true end && match limit with Some s => ltKey k s | None => true end.

Definition same_range (it it' : Iterator) : Prop :=
  root it' = root it /\ isNew it' = isNew it /\ seekKey it' = seekKey it /\ startKey it' = startKey it /\ limitKey it' = limitKey it.

(** Where an iterator is after it moved to the first of the pairs [R]. *)
Definition moved (h : heap) (t : tree loc) (it : Iterator) (B R : list (list Z * list Z)) (r : bool * Iterator) : Prop :=
  same_range it r.2 /\
  match R with
  | [] => r.1 = false /\ node r.2 = None
  | x :: A => if in_range (startKey it) (limitKey it) x.1 then r.1 = true /\ at_cursor h t r.2 B x A
              else r.1 = false /\ node r.2 = None
  end.

(** The check of the range, at a node. *)
Lemma limit_ok h t c s B x A it st : plug c s = t -> stored h t -> NoDup (labels t) -> cursor c s B x A -> holds st (label <$> c) ->
  root it = root_of t ->
  exists r, limitIterator (atNode it (root_of s) st) h = (Ok r, h) /\ moved h t it B (x :: A) r.
Proof.
  intros Hp Hst Hnd Hcur Hs Hroot. pose proof Hcur as Hc. destruct s as [|l k v p a b]; [done|]. destruct Hc as (_ & -> & _).
  pose proof Hst as Hst'. rewrite <- Hp in Hst'. apply stored_plug in Hst' as [_ (Hn & _)].
  unfold limitIterator. cbn [node atNode root_of startKey limitKey parents]. rewrite (stateful_step _ _ _ _ _ (load_ok _ _ _ Hn)). cbn [key].
  unfold moved, in_range. cbn [fst]. destruct (startKey it) as [sk|] eqn:Hsk; [destruct (ltKey k sk) eqn:Hlt|].
  - eexists. split; [done|]. repeat split.
  - cbn [negb andb]. destruct (limitKey it) as [lk|] eqn:Hlk; [destruct (ltKey k lk) eqn:Hll; cbn [negb]|]; eexists; (split; [done|]);
      (split; [by repeat split|]); cbn [andb]; (split; [done|]); try done; by exists c, (Node l k v p a b).
  - cbn [andb]. destruct (limitKey it) as [lk|] eqn:Hlk; [destruct (ltKey k lk) eqn:Hll; cbn [negb]|]; eexists; (split; [done|]);
      (split; [by repeat split|]); cbn [andb]; (split; [done|]); try done; by exists c, (Node l k v p a b).
Qed.

Lemma limit_none h t it st B : exists r, limitIterator (atNode it None st) h = (Ok r, h) /\ moved h t it B [] r.
Proof. eexists. split; [done|]. by repeat split. Qed.

Lemma seek_spec h t it k ex : stored h t -> NoDup (labels t) -> sorted (pairs t) -> root it = root_of t ->
  exists B R r, pairs t = B ++ R /\ (forall x, x ∈ B.*1 -> not_after ex k x) /\ (forall x, x ∈ R.*1 -> ~ not_after ex k x) /\
    seek it k ex true h = (Ok r, h) /\ moved h t it B R r.
Proof.
  intros Hst Hnd Hs Hroot. unfold seek. rewrite gets_bind, Hroot. pose proof (labels_bound _ _ Hst Hnd) as Hb.
  pose proof (seekLoop_spec k ex true h t (enough h) [] emptyStack Hst ltac:(unfold enough; lia) emptyStack_holds) as Hloop.
  pose proof (locate_plug k ex true t []) as Hplug. pose proof (locate_order k ex t [] Hs) as Hord.
  destruct (locate k ex true t []) as [c s]. cbn [fst snd plug] in Hplug. destruct Hloop as (st & Hs' & Hrun).
  destruct Hord as (HL & HR & Hk); [intros x Hx; by apply not_elem_of_nil in Hx..|].
  change (sel_of true []) with ((None : ptr), 0%nat) in Hrun. cbn [fst snd] in Hrun. rewrite (stateful_step _ _ _ _ _ Hrun). cbn beta iota.
  assert (Hgt : forall x, before k x -> ~ not_after ex k x).
  { intros x Hkx. destruct ex; cbn; [|auto]. intros Hxk. apply (before_irrefl k). by etrans. }
  destruct s as [|l k' v p a b].
  - rewrite <- Hplug in Hs |- *. rewrite pairs_plug in *. cbn [pairs app] in *.
    destruct (sel_next_up c Leaf) as [Hlen Hsel]. pose proof (next_up_spec c Leaf) as Hup.
    assert (Hs2 : holds st (label <$> c)) by exact Hs'.
    destruct (popMany_ok _ (length c - (sel_of true c).2) st Hs2) as (st' & Hpop & Hst'); [rewrite length_fmap; lia|].
    rewrite (Len_holds _ _ Hs2). unfold Zlen. rewrite length_fmap.
    replace (Z.to_nat _) with (length c - (sel_of true c).2)%nat by lia.
    rewrite (stateful_step _ _ _ _ _ (lift_ok _ _ h Hpop)). cbn beta.
    destruct (next_up c Leaf) as [[c' s']|].
    + destruct Hsel as (Hsel & c1 & -> & Hne). destruct Hup as (Hp & x & A & HRx & Hcur). rewrite Hsel in *. cbn [fst snd] in *.
      replace (length (c1 ++ c') - length c')%nat with (length (label <$> c1)) in Hst' by (rewrite length_app, length_fmap; lia).
      rewrite fmap_app, drop_app_length in Hst'. cbn [pairs] in Hcur. rewrite app_nil_r in Hcur.
      destruct (limit_ok h t c' s' (pairsL (c1 ++ c')) x A it st') as (r & Hlim & Hm); [congruence|done..|].
      exists (pairsL (c1 ++ c')), (pairsR (c1 ++ c')), r. split; [done|]. split; [done|]. split; [auto|]. by rewrite Hplug, HRx.
    + rewrite Hsel, Hup in *. destruct (limit_none h t it st' (pairsL c)) as (r & Hlim & Hm).
      exists (pairsL c), [], r. split; [done|]. split; [done|]. split; [intros x Hx; by apply not_elem_of_nil in Hx|]. by rewrite Hplug.
  - destruct Hk as [-> ->]. destruct (Pop_holds _ _ _ Hs') as (st' & Hpop & Hst').
    rewrite (stateful_step _ _ _ _ _ (lift_ok _ _ h Hpop)). cbn beta iota.
    destruct (limit_ok h t c (Node l k v p a b) (pairsL c ++ pairs a) (k, v) (pairs b ++ pairsR c) it st') as (r & Hlim & Hm); try done.
    exists (pairsL c ++ pairs a), ((k, v) :: pairs b ++ pairsR c), r. rewrite <- Hplug in Hs.
    rewrite (cursor_pairs c (Node l k v p a b) (pairsL c ++ pairs a) (k, v) (pairs b ++ pairsR c)) in Hs by done.
    rewrite <- Hplug at 1. split; [by apply cursor_pairs|]. apply sorted_app in Hs as (_ & Hkb & Hab). apply sorted_cons in Hkb as [_ Hkb].
    split; [intros x Hx; apply Hab; [done|constructor]|]. split; [|done].
    intros x. cbn [fmap list_fmap fst]. rewrite list.elem_of_cons. intros [->|Hx]; [apply before_irrefl|auto].
Qed.

Lemma upRight_spec h c : forall s st fuel, s <> Leaf -> stored h (plug c s) -> NoDup (labelsC c ++ labels s) ->
  holds st (tail (label <$> c)) -> (length c <= fuel)%nat ->
  exists st', upRight fuel (root_of s) (head (label <$> c)) st h =
      (Ok (match next_up c s with Some (c', s') => root_of s' | None => None end, st'), h) /\
    match next_up c s with Some (c', s') => holds st' (label <$> c') | None => True end.
Proof.
  induction c as [|f c IH]; intros s st fuel Hne Hst Hnd Hs Hfuel.
  { exists st. by destruct fuel. }
  destruct s as [|l k v p x y]; [done|]. pose proof Hst as Hst'. apply stored_plug in Hst' as [(Hf & _) _].
  destruct (top_nodup f c l (labels x ++ labels y) Hnd) as (Hone & _). apply list.NoDup_cons in Hone as [_ Hone].
  apply list.NoDup_app in Hone as (_ & Hd & _). cbn [head fmap list_fmap tail] in *.
  assert (Hbeq : right (holed f (Some l)) = Some l <-> is_left f = false).
  { destruct f as [lf kf vf pf b|lf kf vf pf a]; cbn [holed right is_left]; [|done]. split; [|done]. intros Hb. destruct b; [done|].
    cbn in Hb. injection Hb as ->. exfalso. apply (Hd l); constructor. }
  destruct fuel as [|fuel]; [cbn in Hfuel; lia|]. cbn [upRight]. rewrite (stateful_step _ _ _ _ _ (load_ok _ _ _ Hf)). cbn [root_of] in *.
  destruct f as [lf kf vf pf b|lf kf vf pf a]; cbn [is_left next_up label] in *.
  - rewrite bool_decide_false by (rewrite Hbeq; done). by exists st.
  - rewrite bool_decide_true by (by apply Hbeq). destruct c as [|g c].
    + cbn [next_up]. exists st. rewrite (stateful_step _ _ _ _ _ (lift_ok _ _ h (Pop_nil _ Hs))). by destruct fuel.
    + destruct (Pop_holds _ _ _ Hs) as (st1 & Hpop & Hs1). rewrite (stateful_step _ _ _ _ _ (lift_ok _ _ h Hpop)).
      apply (IH (Node lf kf vf pf a (Node l k v p x y)) st1 fuel); try done; [|cbn in *; lia]. by rewrite hole_below in Hnd.
Qed.

Lemma downLeft_spec h s : forall fuel c st, s <> Leaf -> stored h s -> (tsize s <= fuel)%nat -> holds st (label <$> c) ->
  exists st', downLeft fuel (root_of s) (match s with Node _ _ _ _ a _ => root_of a | Leaf => None end) st h =
      (Ok (root_of (first_down s c).2, st'), h) /\ holds st' (label <$> (first_down s c).1).
Proof.
  induction s as [|l k v p a IHa b IHb]; intros fuel c st Hne Hst Hfuel Hs; [done|].
  destruct fuel as [|fuel]; [cbn in Hfuel; lia|]. destruct Hst as (Hn & Ha & Hb). cbn [first_down downLeft].
  destruct a as [|la ka va pa a1 a2]; [by exists st|]. cbn [root_of]. pose proof Ha as (Hna & _).
  rewrite (stateful_step _ _ _ _ _ (load_ok _ _ _ Hna)). cbn [left].
  apply (IHa fuel (InLeft l k v p b :: c) (Push st (Some l))); [done|done|cbn [tsize] in *; lia|]. by apply Push_holds.
Qed.

(** Next moves to the first of the pairs that come after. *)
Lemma Next_spec h t it B x A : at_cursor h t it B x A -> isNew it = false -> seekKey it = None ->
  exists r, Next it h = (Ok r, h) /\ moved h t it (B ++ [x]) A r.
Proof.
  intros (c & s & Hp & Hcur & Hnode & Hpar & Hroot & Hst & Hnd) Hnew Hseek. unfold Next. rewrite Hnew, Hseek, Hnode.
  destruct s as [|l k v p a b]; [done|]. destruct Hcur as (-> & -> & ->). cbn [root_of]. rewrite gets_bind.
  pose proof Hst as Hst'. rewrite <- Hp in Hst'. pose proof (proj1 (stored_plug _ _ _) Hst') as [_ (Hn & Ha & Hb)].
  rewrite (stateful_step _ _ _ _ _ (load_ok _ _ _ Hn)). cbn [right].
  pose proof Hnd as Hnd'. rewrite <- Hp, labels_plug in Hnd'. pose proof (depth_bound _ _ _ Hst' Hnd') as Hdepth.
  destruct b as [|lb kb vb pb b1 b2]; cbn [root_of].
  - assert (exists parent st, Pop (parents it) = Ok (parent, st) /\ parent = head (label <$> c) /\ holds st (tail (label <$> c))) as (parent & st & Hpop & -> & Hs').
    { destruct c as [|f c]; [exists None, (parents it); split; [by apply Pop_nil|done]|].
      destruct (Pop_holds _ _ _ Hpar) as (st & Hpop & Hs'). by exists (Some (label f)), st. }
    rewrite (stateful_step _ _ _ _ _ (lift_ok _ _ h Hpop)). cbn beta iota.
    destruct (upRight_spec h c (Node l k v p a Leaf) st (enough h) ltac:(done) Hst' Hnd' Hs') as (st' & Hrun & Hs2); [unfold enough; lia|].
    cbn [root_of] in Hrun. rewrite (stateful_step _ _ _ _ _ Hrun). cbn beta iota.
    pose proof (next_up_spec c (Node l k v p a Leaf)) as Hup. destruct (next_up c _) as [[c' s']|].
    + destruct Hup as (Hp' & x & A & HA & Hcur). cbn [pairs app] in *. rewrite HA, <- app_assoc. cbn [pairs] in Hcur.
      apply (limit_ok h t c' s'); [congruence|done..].
    + cbn [pairs app]. rewrite Hup. apply limit_none.
  - pose proof Hb as (Hnb & _). rewrite (stateful_step _ _ _ _ _ (load_ok _ _ _ Hnb)). cbn [left]. cbn [tsize] in Hdepth.
    destruct (downLeft_spec h (Node lb kb vb pb b1 b2) (enough h) (InRight l k v p a :: c) (Push (parents it) (Some l))) as (st' & Hrun & Hs');
      [done|done|cbn [tsize]; unfold enough; lia|by apply Push_holds|].
    cbn [root_of] in Hrun. rewrite (stateful_step _ _ _ _ _ Hrun). cbn beta iota.
    pose proof (first_down_spec (Node lb kb vb pb b1 b2) (InRight l k v p a :: c) ltac:(done)) as Hdn.
    destruct (first_down _ _) as [c' s']. cbn [fst snd] in *. destruct Hdn as (Hp' & x & A & HA & Hcur).
    cbn [pairsR] in HA. rewrite HA. cbn [pairsL] in Hcur. rewrite <- app_assoc. apply (limit_ok h t c' s'); [|done..].
    rewrite Hp'. exact Hp.
Qed.

(** ** Walking *)

(** for iter.Next() { ... }, with the pairs in the order they come. *)
Fixpoint walk (fuel : nat) (it : Iterator) : M (list (list Z * list Z)) :=
  match fuel with
  | O => lift Hang
  | S fuel =>
      '(ok, it) ← Next it;
      if (ok : bool) then
        k ← Key it;
        v ← Value it;
        rest ← walk fuel it;
        mret ((default [] k, default [] v) :: rest)
      else mret []
  end.

Lemma at_cursor_reads h t it B x A : at_cursor h t it B x A ->
  Key it h = (Ok (Some x.1), h) /\ Value it h = (Ok (Some x.2), h) /\ pairs t = B ++ x :: A.
Proof.
  intros (c & s & Hp & Hcur & Hnode & _ & _ & Hst & _). pose proof (cursor_pairs _ _ _ _ _ Hcur) as Hall.
  destruct s as [|l k v p a b]; [done|]. destruct Hcur as (_ & -> & _). rewrite <- Hp in Hst.
  apply stored_plug in Hst as [_ (Hn & _)]. unfold Key, Value. rewrite Hnode. cbn [root_of].
  rewrite !(stateful_step _ _ _ _ _ (load_ok _ _ _ Hn)). split; [done|]. split; [done|]. by rewrite <- Hp.
Qed.

Definition ranged (start limit : option (list Z)) (x : list Z * list Z) : Prop := in_range start limit x.1 = true.
#[export] Instance ranged_dec start limit x : Decision (ranged start limit x) := decide (_ = true).

Lemma ltKey_trans a b c : before a b -> ltKey b c = true -> ltKey a c = true.
Proof.
  unfold ltKey. destruct (Compare b c) eqn:Hbc; try done. intros Hab _. change (before b c) in Hbc.
  assert (H : before a c) by by etrans. unfold before in H. by rewrite H.
Qed.

(** In the order of the keys, what follows a key that is beyond the range is
    beyond it too. *)
Lemma beyond start limit x A : sorted (x :: A) -> in_range start None x.1 = true -> in_range start limit x.1 = false ->
  filter (ranged start limit) (x :: A) = [].
Proof.
  destruct x as [k v]. intros Hs Hstart Hlim. apply sorted_cons in Hs as [_ Hs].
  destruct (filter (ranged start limit) ((k, v) :: A)) as [|y l] eqn:Hf; [done|]. exfalso.
  assert (Hy : y ∈ filter (ranged start limit) ((k, v) :: A)) by (rewrite Hf; constructor).
  rewrite list_elem_of_filter in Hy. destruct Hy as [Hy Hin]. unfold ranged, in_range in *. cbn [fst] in *.
  apply list.elem_of_cons in Hin as [->|Hin]; [cbn [fst] in Hy; congruence|].
  apply andb_true_iff in Hy as [_ Hy]. rewrite andb_true_r in Hstart. rewrite Hstart in Hlim. cbn [andb] in Hlim.
  destruct limit as [lk|]; [|done]. rewrite (ltKey_trans k y.1 lk) in Hlim; [done| |done]. apply Hs, list_elem_of_fmap. by exists y.
Qed.

Lemma walk_from h t start limit A : forall B x it fuel, at_cursor h t it B x A -> isNew it = false -> seekKey it = None ->
  startKey it = start -> limitKey it = limit -> in_range start None x.1 = true -> (length A < fuel)%nat -> sorted (pairs t) ->
  walk fuel it h = (Ok (filter (ranged start limit) A), h).
Proof.
  induction A as [|y A IH]; intros B x it fuel Hcur Hnew Hseek Hst Hlim Hx Hfuel Hsort; (destruct fuel as [|fuel]; [cbn in Hfuel; lia|]); cbn [walk];
    destruct (Next_spec h t it B x _ Hcur Hnew Hseek) as ([ok it'] & Hrun & (_ & Hnew' & Hseek' & Hst' & Hlim') & Hm);
    rewrite (stateful_step _ _ _ _ _ Hrun); cbn [fst snd] in *.
  - by destruct Hm as [-> _].
  - destruct (at_cursor_reads _ _ _ _ _ _ Hcur) as (_ & _ & Hall). rewrite Hall in Hsort.
    assert (Hsort' : sorted (y :: A)).
    { apply sorted_app in Hsort as (_ & Hsort & _). destruct x as [kx vx]. by apply sorted_cons in Hsort as [Hsort _]. }
    assert (Hy : in_range start None y.1 = true).
    { unfold in_range in *. rewrite andb_true_r in *. destruct start as [sk|]; [|done]. apply negb_true_iff. apply negb_true_iff in Hx.
      destruct (ltKey y.1 sk) eqn:Hlt; [|done]. rewrite (ltKey_trans x.1 y.1 sk) in Hx; [done| |done].
      apply sorted_app in Hsort as (_ & Hsort & _). destruct x as [kx vx]. apply sorted_cons in Hsort as [_ Hsort]. apply Hsort. constructor. }
    rewrite Hst, Hlim in Hm. destruct (in_range start limit y.1) eqn:Hr; destruct Hm as [-> Hm].
    + destruct (at_cursor_reads _ _ _ _ _ _ Hm) as (Hk & Hv & Hall'). rewrite (stateful_step _ _ _ _ _ Hk), (stateful_step _ _ _ _ _ Hv).
      assert (Hrest : walk fuel it' h = (Ok (filter (ranged start limit) A), h)).
      { apply (IH (B ++ [x]) y it' fuel); try congruence; cbn in Hfuel; lia. }
      rewrite (stateful_step _ _ _ _ _ Hrest).
      rewrite filter_cons_True by exact Hr. by destruct y.
    + by rewrite (beyond start limit y A).
Qed.

Lemma firstLoop_spec h s : forall fuel c st, s <> Leaf -> stored h s -> (tsize s <= fuel)%nat -> holds st (label <$> c) ->
  exists st', firstLoop fuel (root_of s) st h = (Ok (Some (root_of (first_down s c).2), st'), h) /\ holds st' (label <$> (first_down s c).1).
Proof.
  induction s as [|l k v p a IHa b IHb]; intros fuel c st Hne Hst Hfuel Hs; [done|].
  destruct fuel as [|fuel]; [cbn in Hfuel; lia|]. pose proof Hst as (Hn & Ha & Hb). cbn [firstLoop root_of first_down].
  rewrite (stateful_step _ _ _ _ _ (load_ok _ _ _ Hn)). cbn [left]. destruct a as [|la ka va pa a1 a2]; [by exists st|]. cbn [root_of].
  apply (IHa fuel (InLeft l k v p b :: c) (Push st (Some l))); [done|done|cbn [tsize] in *; lia|]. by apply Push_holds.
Qed.

Lemma filter_all_out start limit (l : list (list Z * list Z)) : (forall x, x ∈ l -> in_range start limit x.1 = false) ->
  filter (ranged start limit) l = [].
Proof.
  intros H. induction l as [|x l IH]; [done|]. rewrite filter_cons_False; [apply IH; intros; apply H; by constructor|].
  unfold ranged. rewrite (H x); [done|constructor].
Qed.

(** What an iterator goes through: the pairs in its range, and without a
    start the first pair of all, which First does not compare with the
    limit. *)
Definition visited (start limit : option (list Z)) (l : list (list Z * list Z)) : list (list Z * list Z) :=
  match start, l with
  | None, x :: l => x :: filter (ranged None limit) l
  | _, _ => filter (ranged start limit) l
  end.
Lemma visited_range start limit l : (start = None -> limit = None) -> visited start limit l = filter (ranged start limit) l.
Proof. intros Hb. destruct start; [done|]. rewrite (Hb eq_refl). destruct l as [|x l]; [done|]. cbn [visited]. by rewrite filter_cons_True. Qed.

(** The first call of Next, and the walk from there. *)
Lemma walk_new h t r start limit : root_of t = r -> stored h t -> NoDup (labels t) -> sorted (pairs t) ->
  walk (S (length (pairs t))) (newIterator r start limit) h = (Ok (visited start limit (pairs t)), h).
Proof.
  intros Hr Hst Hnd Hs. cbn [walk]. set (it := newIterator r start limit). unfold Next. cbn [isNew it newIterator]. unfold First. cbn [used startKey newIterator].
  destruct start as [sk|].
  - destruct (seek_spec h t (used it) sk true Hst Hnd Hs) as (B & R & [ok it'] & Hall & HB & HR & Hrun & (_ & Hnew' & Hseek' & Hst' & Hlim') & Hm); [by subst|].
    rewrite (stateful_step _ _ _ _ _ Hrun). cbn [fst snd used newIterator isNew seekKey startKey limitKey it] in *.
    cbn [visited]. rewrite Hall, list.filter_app, (filter_all_out _ _ B).
    2: { intros x Hx. unfold in_range, ltKey. specialize (HB x.1 (list_elem_of_fmap_2 fst _ _ Hx)). cbn in HB. unfold before in HB. by rewrite HB. }
    cbn [app]. destruct R as [|x A]; [by destruct Hm as [-> _]|].
    assert (Hin : in_range (Some sk) None x.1 = true).
    { unfold in_range, ltKey. assert (Hx : x.1 ∈ (x :: A).*1) by constructor. specialize (HR x.1 Hx). cbn in HR. unfold before in HR.
      by destruct (Compare x.1 sk). }
    assert (Hsort' : sorted (x :: A)) by (rewrite Hall in Hs; by apply sorted_app in Hs as (_ & ? & _)).
    destruct (in_range (Some sk) limit x.1) eqn:Hr'; destruct Hm as [-> Hm].
    + destruct (at_cursor_reads _ _ _ _ _ _ Hm) as (Hk & Hv & _). rewrite (stateful_step _ _ _ _ _ Hk), (stateful_step _ _ _ _ _ Hv).
      assert (Hrest : walk (length (pairs t)) it' h = (Ok (filter (ranged (Some sk) limit) A), h)).
      { eapply (walk_from h t (Some sk) limit A); eauto. rewrite Hall, length_app. cbn. lia. }
      rewrite Hall in Hrest. rewrite (stateful_step _ _ _ _ _ Hrest).
      rewrite filter_cons_True by exact Hr'. by destruct x.
    + by rewrite (beyond (Some sk) limit x A).
  - destruct t as [|l k v p a b] eqn:Ht; [subst r; done|]. rewrite <- Ht in *. assert (Hne : t <> Leaf) by by rewrite Ht.
    pose proof (labels_bound _ _ Hst Hnd) as Hb. clear l k v p a b Ht.
    destruct (firstLoop_spec h t (enough h) [] emptyStack Hne Hst ltac:(unfold enough; lia) emptyStack_holds) as (st & Hrun & Hs').
    pose proof (first_down_spec t [] Hne) as Hfd. destruct (first_down t []) as [c s]. cbn [fst snd] in *.
    destruct Hfd as (Hp & x & A & Hall & Hcur). cbn [pairsR plug] in *. rewrite app_nil_r in Hall. cbn [pairsL] in Hcur.
    assert (Hfirst : (h ← gets (fun h => h);
        '(n, s) ← firstLoop (enough h) (root (used it)) emptyStack;
        match n with Some n => mret (true, atNode (used it) n s) | None => mret (false, atNode (used it) (node (used it)) s) end) h
        = (Ok (true, atNode (used it) (root_of s) st), h)).
    { rewrite gets_bind. cbn [root newIterator used it]. rewrite <- Hr, (stateful_step _ _ _ _ _ Hrun). done. }
    rewrite (stateful_step _ _ _ _ _ Hfirst).
    assert (Hat : at_cursor h t (atNode (used it) (root_of s) st) [] x A) by (exists c, s; repeat (split; [done|]); done).
    destruct (at_cursor_reads _ _ _ _ _ _ Hat) as (Hk & Hv & _). cbn beta iota.
    rewrite (stateful_step _ _ _ _ _ Hk), (stateful_step _ _ _ _ _ Hv).
    assert (Hrest : walk (length (pairs t)) (atNode (used it) (root_of s) st) h = (Ok (filter (ranged None limit) A), h)).
    { eapply (walk_from h t None limit A); eauto. rewrite Hall. cbn. lia. }
    rewrite (stateful_step _ _ _ _ _ Hrest), Hall. by destruct x.
Qed.

(** C40. An iterator over a treap, moved by Next until it says that it is
    exhausted, stops after going through exactly the pairs with a key in its
    range, in the order of the keys; one with a limit and no start begins
    with the first pair of all, whatever its limit, and goes on with the
    other pairs of its range. *)
Theorem iterator_walks h0 cs start limit : exists t h l, mutations Mutable.NewMutable cs h0 = (Ok t, h) /\
  l ≡ₚ map_to_list (foldl mutated ∅ cs) /\ sorted l /\
  walk (S (length l)) (MutableIterator t start limit) h = (Ok (visited start limit l), h) /\
  ((start = None -> limit = None) -> visited start limit l = filter (ranged start limit) l).
Proof.
  destruct (mutations_spec h0 cs Mutable.NewMutable Leaf h0) as (t & e & h & Hrun & Ht & Hs & Hm); [by apply stands_empty|constructor|].
  exists t, h, (pairs e). split; [done|]. split; [|split; [done|split; [|apply visited_range]]].
  - assert (Hm' : asMap e = foldl mutated ∅ cs) by exact Hm. rewrite <- Hm'. by apply pairs_listed.
  - destruct Ht as (t' & Hr & <- & Hst & Hnd & _). rewrite pairs_erase in *. by apply walk_new.
Qed.

(** After the treap was changed and the iterator told so, Next goes on with
    the first key that comes after the one it was at, whether this one is
    still there or not. *)
Lemma reseek_continues own h t e it l n : stands own h (Mutable.root t) (Mutable.count t) (Mutable.totalSize t) e -> sorted (pairs e) ->
  isNew it = false -> node it = Some l -> h !! l = Some n ->
  exists B R r, pairs e = B ++ R /\ (forall x, x ∈ B.*1 -> ~ before (key n) x) /\ (forall x, x ∈ R.*1 -> before (key n) x) /\
    (it ← ForceReseek (Some t) it; Next it) h = (Ok r, h) /\
    match R with
    | x :: _ => if in_range (startKey it) (limitKey it) x.1
                then r.1 = true /\ Key r.2 h = (Ok (Some x.1), h) /\ Value r.2 h = (Ok (Some x.2), h)
                else r.1 = false /\ Valid r.2 = false
    | [] => r.1 = false /\ Valid r.2 = false
    end.
Proof.
  intros (t' & Hr & <- & Hst & Hnd & _) Hs Hnew Hnode Hn. rewrite pairs_erase in *.
  set (it1 := mkIter (Mutable.root t) (node it) (parents it) (isNew it) (Some (key n)) (startKey it) (limitKey it)).
  assert (Hforce : ForceReseek (Some t) it h = (Ok it1, h)).
  { unfold ForceReseek. cbn [node]. rewrite Hnode. cbn [node root parents isNew startKey limitKey].
    rewrite (stateful_step _ _ _ _ _ (load_ok _ _ _ Hn)). unfold it1. by rewrite Hnode. }
  rewrite (stateful_step _ _ _ _ _ Hforce). unfold Next. cbn [it1 isNew node seekKey]. rewrite Hnew, Hnode.
  destruct (seek_spec h t' (unseek it1) (key n) false Hst Hnd Hs) as (B & R & r & Hall & HB & HR & Hrun & _ & Hm); [by cbn|].
  exists B, R, r. split; [done|]. split; [exact HB|]. split.
  - intros x Hx. specialize (HR x Hx). cbn in HR. unfold before in *. destruct (Compare (key n) x); [exfalso; by apply HR|done|exfalso; by apply HR].
  - split; [exact Hrun|]. cbn [unseek it1 startKey limitKey] in Hm.
    unfold Valid. destruct R as [|x A]; [destruct Hm as [-> ->]; done|]. destruct (in_range _ _ _); destruct Hm as [-> Hm]; [|by rewrite Hm].
    destruct (at_cursor_reads _ _ _ _ _ _ Hm) as (? & ? & _). done.
Qed.

Module Toy.

Definition put (k prio : Z) : mchange := MChange (CPut [k] (Some [10 * k]) prio).
Definition four : list mchange := [put 5 7; put 1 3; put 6 4; put 2 9].
Definition result {A} (r : outcome Empty_set A * heap) : option A := match r.1 with Ok a => Some a | _ => None end.

Lemma iterator_walks_witness : exists t h l, mutations Mutable.NewMutable four ∅ = (Ok t, h) /\
  l ≡ₚ map_to_list (foldl mutated ∅ four) /\ sorted l /\
  walk (S (length l)) (MutableIterator t (Some [2]) (Some [6])) h = (Ok (filter (ranged (Some [2]) (Some [6])) l), h).
Proof.
  destruct (iterator_walks ∅ four (Some [2]) (Some [6])) as (t & h & l & Ht & Hl & Hs & Hw & Hv).
  exists t, h, l. rewrite <- Hv by done. split; [exact Ht|split; [exact Hl|split; [exact Hs|exact Hw]]].
Defined.

Definition walked (start limit : option (list Z)) : option (list (list Z * list Z)) :=
  result ((t ← mutations Mutable.NewMutable four; walk 9 (MutableIterator t start limit)) ∅).
Example in_order : walked (Some [2]) (Some [6]) = Some [([2], [20]); ([5], [50])].
Proof. by vm_compute. Qed.

(** With a limit and no start the first pair comes even when it is beyond the
    limit. *)
Example first_beyond_the_limit : walked None (Some [1]) = Some [([1], [10])].
Proof. by vm_compute. Qed.

(** First after ForceReseek leaves the key to seek in place: the call of Next
    after it does not go on from the first pair. *)
Example stale_seek :
  result ((t ← mutations Mutable.NewMutable four;
    '(_, it) ← Seek (MutableIterator t None None) [5];
    it ← ForceReseek (Some t) it;
    '(_, it) ← First it;
    first ← Key it;
    '(_, it) ← Next it;
    next ← Key it;
    mret (first, next)) ∅) = Some (Some [1], Some [6]).
Proof. by vm_compute. Qed.

(** On a treap that has become empty First says that there is no pair, and
    the iterator stays valid at a node that is not in the treap. *)
Example valid_without_pairs :
  result ((t ← mutations Mutable.NewMutable [put 5 7];
    '(_, it) ← First (MutableIterator t None None);
    it ← ForceReseek (Some (Mutable.Reset t)) it;
    '(ok, it) ← First it;
    mret (ok, Valid it)) ∅) = Some (false, true).
Proof. by vm_compute. Qed.

End Toy.

End TreapIter.
