(* ===== verification/Standard.v ===== *)
(** * Classes of output scripts

    Models the recognisers of coin/OrcaNet/txscript/standard.go that give an
    output script its class (GetScriptClass), with the multisignature and
    data scripts that the same file builds.  The policy of the transaction
    pool decides by these classes what it relays.

    The theorems: classifying never panics, a script is of a class exactly
    when it has the form of that class, and the scripts the file builds are
    recognised again with the numbers they were built from. *)

From S2P Require Import Prelude ScriptNum Tokenizer Builder SigHash Compress.

Module Standard.
Import Compress ScriptNum Tokenizer Builder SigHash.

(** ** The code *)
Definition MaxDataCarrierSize := 80.

Inductive ScriptClass :=
| NonStandardTy
| PubKeyTy
| PubKeyHashTy
| WitnessV0PubKeyHashTy
| ScriptHashTy
| WitnessV0ScriptHashTy
| MultiSigTy
| NullDataTy
| WitnessV1TaprootTy
| WitnessUnknownTy.

#[export] Instance ScriptClass_eq_dec : EqDecision ScriptClass.
Proof. solve_decision. Defined.

Definition scriptClassToName : list string :=
  ["nonstandard"; "pubkey"; "pubkeyhash"; "witness_v0_keyhash"; "scripthash"; "witness_v0_scripthash"; "multisig";
   "nulldata"; "witness_v1_taproot"; "witness_unknown"]%string.

(** The classes by their number. *)
Definition classes : list ScriptClass :=
  [NonStandardTy; PubKeyTy; PubKeyHashTy; WitnessV0PubKeyHashTy; ScriptHashTy; WitnessV0ScriptHashTy; MultiSigTy;
   NullDataTy; WitnessV1TaprootTy; WitnessUnknownTy].

(** A class is a byte in the code; the method takes any. *)
Definition String (t : Z) : outcome ErrorCode string :=
  if (Zlen scriptClassToName <? t) || (t <? 0) then Ok "Invalid"%string else index scriptClassToName t.

Fixpoint findName (names : list string) (i : Z) (name : string) : option Z :=
  match names with
  | [] => None
  | n :: names => if bool_decide (n = name) then Some (u8 i) else findName names (i + 1) name
  end.
Definition NewScriptClass (name : string) : option Z := findName scriptClassToName 0 name.

Definition extractCompressedPubKey (script : list Z) : option (list Z) :=
  if (Zlen script =? 35) && (nth 34 script 0 =? OP_CHECKSIG) && (nth 0 script 0 =? OP_DATA_33)
     && ((nth 1 script 0 =? 0x02) || (nth 1 script 0 =? 0x03))
  then Some (take 33 (drop 1 script)) else None.

Definition extractUncompressedPubKey (script : list Z) : option (list Z) :=
  if (Zlen script =? 67) && (nth 66 script 0 =? OP_CHECKSIG) && (nth 0 script 0 =? OP_DATA_65)
     && ((nth 1 script 0 =? 0x04) || (nth 1 script 0 =? 0x06) || (nth 1 script 0 =? 0x07))
  then Some (take 65 (drop 1 script)) else None.

Definition extractPubKey (script : list Z) : option (list Z) :=
  match extractCompressedPubKey script with
  | Some pubKey => Some pubKey
  | None => extractUncompressedPubKey script
  end.
Definition isPubKeyScript (script : list Z) : bool := bool_decide (is_Some (extractPubKey script)).

Definition extractPubKeyHash (script : list Z) : option (list Z) :=
  if (Zlen script =? 25) && (nth 0 script 0 =? OP_DUP) && (nth 1 script 0 =? OP_HASH160) && (nth 2 script 0 =? OP_DATA_20)
     && (nth 23 script 0 =? OP_EQUALVERIFY) && (nth 24 script 0 =? OP_CHECKSIG)
  then Some (take 20 (drop 3 script)) else None.
Definition isPubKeyHashScript (script : list Z) : bool := bool_decide (is_Some (extractPubKeyHash script)).

Definition extractScriptHash (script : list Z) : option (list Z) :=
  if isScriptHashScript script then Some (take 20 (drop 2 script)) else None.

Definition extractWitnessPubKeyHash (script : list Z) : option (list Z) :=
  if isWitnessPubKeyHashScript script then Some (drop 2 script) else None.

Definition extractWitnessV0ScriptHash (script : list Z) : option (list Z) :=
  if (Zlen script =? 34) && (nth 0 script 0 =? OP_0) && (nth 1 script 0 =? OP_DATA_32) then Some (drop 2 script) else None.
Definition isWitnessScriptHashScript (script : list Z) : bool := bool_decide (is_Some (extractWitnessV0ScriptHash script)).

(** ** Multisignature scripts *)
Record multiSigDetails := mkMultiSig {
  requiredSigs : Z;
  numPubKeys : Z;
  pubKeys : list (list Z);
  valid : bool;
}.
Definition notMultiSig : multiSigDetails := mkMultiSig 0 0 [] false.

Definition isStrictPubKeyEncoding (pubKey : list Z) : bool :=
  if (Zlen pubKey =? 33) && ((nth 0 pubKey 0 =? 0x02) || (nth 0 pubKey 0 =? 0x03)) then true
  else (Zlen pubKey =? 65)
       && ((nth 0 pubKey 0 =? 0x04) || ((nth 0 pubKey 0 =? 0x06) || (nth 0 pubKey 0 =? 0x07))).

(** The loop over the keys; a small integer ends it, with the tokenizer
    where it is. *)
Definition keyBody (extractPubKeys : bool) (tokenizer : ScriptTokenizer) (st : Z * list (list Z))
    : outcome ErrorCode ((Z * list (list Z)) + (Z * list (list Z) * ScriptTokenizer)) :=
  let '(numPubKeys, pubKeys) := st in
  op ← Opcode tokenizer;
  if IsSmallInt op then Ok (inr (numPubKeys, pubKeys, tokenizer))
  else
    let data := Data tokenizer in
    let numPubKeys := numPubKeys + 1 in
    if negb (isStrictPubKeyEncoding data) then Ok (inl (numPubKeys, pubKeys))
    else Ok (inl (numPubKeys, if extractPubKeys then pubKeys ++ [data] else pubKeys)).

Definition extractMultisigScriptDetails (scriptVersion : Z) (script : list Z) (extractPubKeys : bool)
    : outcome ErrorCode multiSigDetails :=
  if negb (scriptVersion =? 0) then Ok notMultiSig
  else if (Zlen script <? 3) || negb (nth (length script - 1) script 0 =? OP_CHECKMULTISIG) then Ok notMultiSig
  else
    '(more, tokenizer) ← Next (MakeScriptTokenizer scriptVersion script);
    if negb more then Ok notMultiSig
    else
      op ← Opcode tokenizer;
      if negb (IsSmallInt op) then Ok notMultiSig
      else
        let requiredSigs := AsSmallInt op in
        r ← tokenLoop (S (length script)) (keyBody extractPubKeys) tokenizer (0, []);
        let '(numPubKeys, pubKeys, tokenizer) := match r with inl x => x | inr x => x end in
        if Done tokenizer then Ok notMultiSig
        else
          op ← Opcode tokenizer;
          if negb (IsSmallInt op) || negb (AsSmallInt op =? numPubKeys) then Ok notMultiSig
          else if negb (i32 (i32 (Zlen (t_script tokenizer)) - ByteIndex tokenizer) =? 1) then Ok notMultiSig
          else Ok (mkMultiSig requiredSigs numPubKeys pubKeys true).

Definition isMultisigScript (scriptVersion : Z) (script : list Z) : outcome ErrorCode bool :=
  details ← extractMultisigScriptDetails scriptVersion script false; mret (valid details).

Definition IsMultisigSigScript (script : list Z) : outcome ErrorCode bool :=
  if (Zlen script <? 4) || negb (nth (length script - 1) script 0 =? OP_CHECKMULTISIG) then Ok false
  else
    possibleRedeemScript ← finalOpcodeData 0 script;
    if Zlen possibleRedeemScript =? 0 then Ok false else isMultisigScript 0 possibleRedeemScript.

(** The numbers of keys and of signatures. *)
Definition CalcMultiSigStats (script : list Z) : outcome ErrorCode (Z * Z) :=
  details ← extractMultisigScriptDetails 0 script false;
  if negb (valid details) then Err ErrNotMultisigScript else mret (numPubKeys details, requiredSigs details).

(** ** Data scripts and the class *)
Definition isNullDataScript (scriptVersion : Z) (script : list Z) : outcome ErrorCode bool :=
  if negb (scriptVersion =? 0) then Ok false
  else if (Zlen script <? 1) || negb (nth 0 script 0 =? OP_RETURN) then Ok false
  else if Zlen script =? 1 then Ok true
  else
    '(more, tokenizer) ← Next (MakeScriptTokenizer scriptVersion (drop 1 script));
    if negb (more && Done tokenizer) then Ok false
    else
      op ← Opcode tokenizer;
      mret ((IsSmallInt op || (op <=? OP_PUSHDATA4)) && (Zlen (Data tokenizer) <=? MaxDataCarrierSize)).

Definition typeOfScript (scriptVersion : Z) (script : list Z) : outcome ErrorCode ScriptClass :=
  if scriptVersion =? 0 then
    if isPubKeyScript script then Ok PubKeyTy
    else if isPubKeyHashScript script then Ok PubKeyHashTy
    else if isScriptHashScript script then Ok ScriptHashTy
    else if isWitnessPubKeyHashScript script then Ok WitnessV0PubKeyHashTy
    else if isWitnessScriptHashScript script then Ok WitnessV0ScriptHashTy
    else
      multisig ← isMultisigScript scriptVersion script;
      if multisig : bool then Ok MultiSigTy
      else
        nullData ← isNullDataScript scriptVersion script;
        mret (if nullData : bool then NullDataTy else NonStandardTy)
  else if scriptVersion =? 1 then
    Ok (if isWitnessTaprootScript script then WitnessV1TaprootTy else NonStandardTy)
  else Ok NonStandardTy.

Definition GetScriptClass (script : list Z) : outcome ErrorCode ScriptClass :=
  classSegWit ← typeOfScript 0 script;
  if negb (bool_decide (classSegWit = NonStandardTy)) then Ok classSegWit else typeOfScript 1 script.

Definition expectedInputs (script : list Z) (class : ScriptClass) : outcome ErrorCode Z :=
  match class with
  | PubKeyTy => Ok 1
  | PubKeyHashTy | WitnessV0PubKeyHashTy => Ok 2
  | ScriptHashTy | WitnessV0ScriptHashTy | WitnessV1TaprootTy => Ok 1
  | MultiSigTy => op ← index script 0; mret (AsSmallInt op + 1)
  | _ => Ok (-1)
  end.

(** ** Scripts to pay with *)
Definition payToPubKeyScript (serializedPubKey : list Z) : outcome ErrorCode (list Z) :=
  Script (AddOp OP_CHECKSIG (AddData serializedPubKey NewScriptBuilder)).

Definition NullDataScript (data : list Z) : outcome ErrorCode (list Z) :=
  if MaxDataCarrierSize <? Zlen data then Err ErrTooMuchNullData
  else Script (AddData data (AddOp OP_RETURN NewScriptBuilder)).

(** An address by its kind and its ScriptAddress; nil pointers and other
    types are refused alike. *)
Inductive Address :=
| AddressPubKeyHash (hash : list Z)
| AddressScriptHash (hash : list Z)
| AddressPubKey (key : list Z)
| AddressWitnessPubKeyHash (program : list Z)
| AddressWitnessScriptHash (program : list Z)
| AddressTaproot (program : list Z)
| OtherAddress.

Definition PayToAddrScript (addr : Address) : outcome ErrorCode (list Z) :=
  match addr with
  | AddressPubKeyHash hash => payToPubKeyHashScript hash
  | AddressScriptHash hash => payToScriptHashScript hash
  | AddressPubKey key => payToPubKeyScript key
  | AddressWitnessPubKeyHash program => payToWitnessPubKeyHashScript program
  | AddressWitnessScriptHash program => payToWitnessScriptHashScript program
  | AddressTaproot program => payToWitnessTaprootScript program
  | OtherAddress => Err ErrUnsupportedAddress
  end.

(** [pubkeys] are the script addresses of the keys. *)
Definition MultiSigScript (pubkeys : list (list Z)) (nrequired : Z) : outcome ErrorCode (list Z) :=
  if Zlen pubkeys <? nrequired then Err ErrTooManyRequiredSigs
  else
    builder ← AddInt64 nrequired NewScriptBuilder;
    let builder := foldl (fun b key => AddData key b) builder pubkeys in
    builder ← AddInt64 (Zlen pubkeys) builder;
    Script (AddOp OP_CHECKMULTISIG builder).

(** Data is nil for an opcode without data, and not nil for a push of none. *)
Definition PushedData (script : list Z) : outcome ErrorCode (list (list Z)) :=
  r ← walk (B:=unit) 0 script (fun t data =>
        op ← Opcode t;
        mret (inl (if negb (opcodeLength op =? 1) || (op =? OP_0) then data ++ [Data t] else data))) [];
  match r with
  | inl (data, t) => match t_err t with Some e => Err e | None => Ok data end
  | inr _ => Panic
  end.

(** ** The form of a multisignature script *)

(** [n] of the keys, which are tokens of any opcode but a small integer. *)
Record multisigForm (script : list Z) (n : Z) (keys : list token) : Prop := {
  mf_script : script = [versionOpcode n] ++ printTokens keys ++ [versionOpcode (Zlen keys)] ++ [OP_CHECKMULTISIG];
  mf_required : 0 <= n <= 16;
  mf_keys : Zlen keys <= 16;
  mf_tokens : Forall token_ok keys;
  mf_small : Forall (fun tk => IsSmallInt tk.1 = false) keys;
}.

Definition strictKeys (extractPubKeys : bool) (keys : list token) : list (list Z) :=
  if extractPubKeys then filter (fun key => isStrictPubKeyEncoding key = true) (snd <$> keys) else [].

Lemma small_token op : byte_ok op -> IsSmallInt op = true -> printToken (op, []) = [op] /\ token_ok (op, []).
Proof.
  intros Hb Hs. destruct (IsSmallInt_length op Hb Hs) as (Hl & _). unfold printToken, token_ok. by rewrite Hl.
Qed.

Lemma strictKeys_cons ext tk keys pks :
  (if negb (isStrictPubKeyEncoding tk.2) then pks else if ext : bool then pks ++ [tk.2] else pks) ++ strictKeys ext keys
  = pks ++ strictKeys ext (tk :: keys).
Proof.
  unfold strictKeys. destruct ext, (isStrictPubKeyEncoding tk.2) eqn:Hs; cbn [negb]; rewrite ?fmap_cons, ?filter_cons; try done.
  - by rewrite decide_True, <- app_assoc.
  - by rewrite decide_False by (by rewrite Hs).
Qed.

Lemma keyBody_advance ext t tk np pks : IsSmallInt tk.1 = false ->
  keyBody ext (advance t tk) (np, pks) =
    Ok (inl (np + 1, if negb (isStrictPubKeyEncoding tk.2) then pks else if ext : bool then pks ++ [tk.2] else pks)).
Proof.
  intros Hs. unfold keyBody. rewrite Opcode_advance. cbn [mbind outcome_bind]. rewrite Hs. cbn [Data advance t_data].
  by destruct (isStrictPubKeyEncoding tk.2).
Qed.

(** The loop over the keys, up to the small integer that ends it. *)
Lemma keyLoop_form ext op rest keys : byte_ok op -> IsSmallInt op = true ->
  Forall token_ok keys -> Forall (fun tk => IsSmallInt tk.1 = false) keys ->
  forall fuel t pre np pks, at_ t pre (printTokens keys ++ op :: rest) -> (length keys < fuel)%nat ->
  exists t', tokenLoop fuel (keyBody ext) t (np, pks) = Ok (inr (np + Zlen keys, pks ++ strictKeys ext keys, t')) /\
    at_ t' (pre ++ printTokens keys ++ [op]) rest /\ t_op t' = Some op.
Proof.
  intros Hop Hs Hok Hns. destruct (small_token op Hop Hs) as [Hpr Htk].
  induction Hok as [|tk keys Htok Hok IH]; intros fuel t pre np pks Hat Hf; (destruct fuel as [|fuel]; [cbn in Hf; lia|]); cbn [tokenLoop].
  - cbn [concat fmap list_fmap app] in Hat. exists (advance t (op, [])).
    assert (Hft : firstToken (op :: rest) = Some ((op, []), rest)).
    { pose proof (firstToken_print (op, []) rest Htk) as Hft. by rewrite Hpr in Hft. }
    rewrite (Next_token _ _ _ _ _ Hat Hft). cbn [mbind outcome_bind]. unfold keyBody. rewrite Opcode_advance.
    cbn [mbind outcome_bind fst]. rewrite Hs. cbn [mbind outcome_bind mret outcome_ret]. split_and!; [|cbn [concat fmap list_fmap app]; rewrite <- Hpr; apply at_advance; by rewrite Hpr|done].
    unfold strictKeys. destruct ext; cbn; by rewrite app_nil_r, Zlen_nil, Z.add_0_r.
  - apply list.Forall_cons in Hns as [Hs1 Hns]. rewrite fmap_cons in Hat. cbn [concat] in Hat. rewrite <- app_assoc in Hat.
    rewrite (Next_token _ _ _ _ _ Hat (firstToken_print _ _ Htok)). cbn [mbind outcome_bind].
    rewrite keyBody_advance by done. cbn [mbind outcome_bind].
    destruct (IH Hns fuel _ _ (np + 1) (if negb (isStrictPubKeyEncoding tk.2) then pks else if ext then pks ++ [tk.2] else pks)
      (at_advance _ _ _ _ Hat) ltac:(cbn in Hf; lia)) as (t' & -> & Hat' & Hop').
    exists t'. split_and!; [|by rewrite fmap_cons; cbn [concat]; rewrite <- !app_assoc in *|done].
    rewrite strictKeys_cons. do 4 f_equal. rewrite Zlen_cons. lia.
Qed.

(** Whatever the script is, the loop ends: with a small integer, or at the
    end of what can be read. *)
Lemma keyLoop_total ext : forall fuel t pre rest np pks, at_ t pre rest -> (length rest < fuel)%nat ->
  exists keys, Forall token_ok keys /\ Forall (fun tk => IsSmallInt tk.1 = false) keys /\
    ((exists op rest', rest = printTokens keys ++ op :: rest' /\ byte_ok op /\ IsSmallInt op = true) \/
     exists st t', tokenLoop fuel (keyBody ext) t (np, pks) = Ok (inl (st, t')) /\ Done t' = true).
Proof.
  induction fuel as [|fuel IH]; intros t pre rest np pks Hat Hf; [lia|]. cbn [tokenLoop].
  pose proof Hat as (_ & _ & _ & _ & Hb). destruct rest as [|op l].
  { exists []. split_and!; [constructor..|]. right. rewrite (Next_end _ _ Hat). cbn [mbind outcome_bind]. eexists _, t.
    split; [done|]. destruct Hat as (Hs & Ho & He & Hl & _). rewrite app_nil_r in Hs. unfold Done. rewrite Hs in *.
    rewrite i32_small by len_lia. rewrite Ho, Z.leb_refl. apply orb_true_r. }
  destruct (firstToken (op :: l)) as [[tk rest']|] eqn:Hft.
  - destruct (firstToken_some _ _ _ Hb Hft) as (Heq & Hok & Hb' & Hpos). rewrite Heq in Hat, Hf |- *.
    rewrite (Next_token _ _ _ _ _ Hat (firstToken_print _ _ Hok)). cbn [mbind outcome_bind].
    destruct (IsSmallInt tk.1) eqn:Hs.
    + exists []. split_and!; [constructor..|]. left. destruct tk as [o d]. cbn [fst] in Hs.
      assert (Ho : o = op) by (unfold printToken in Heq; cbn [app] in Heq; by injection Heq). subst o.
      assert (Hbo : byte_ok op) by (by apply list.Forall_cons in Hb as [? _]).
      destruct (IsSmallInt_length op Hbo Hs) as (Hl1 & _).
      exists op, rest'. split_and!; try done. cbn [concat fmap list_fmap app]. f_equal. unfold token_ok in Hok.
      rewrite Hl1, (proj2 (Z.ltb_ge 1 0)) in Hok by lia. destruct d as [|x d]; [|exfalso; len_lia].
      unfold printToken. by rewrite Hl1.
    + rewrite keyBody_advance by done. cbn [mbind outcome_bind]. rewrite length_app in Hf.
      edestruct (IH _ _ _ (np + 1) (if negb (isStrictPubKeyEncoding tk.2) then pks else if ext then pks ++ [tk.2] else pks)
        (at_advance _ _ _ _ Hat)) as (keys & Hk & Hns & Hcase); [lia|].
      exists (tk :: keys). split_and!; [by constructor..|]. destruct Hcase as [(o & r & -> & Ho)|Hr].
      * left. exists o, r. split; [|done]. rewrite fmap_cons. cbn [concat]. by rewrite <- app_assoc.
      * by right.
  - exists []. split_and!; [constructor..|]. right. rewrite (Next_malformed _ _ _ _ Hat Hft). cbn [mbind outcome_bind].
    eexists _, _. split; [done|]. unfold Done. cbn. done.
Qed.

Lemma at_start script : bytes_ok script -> Zlen script < 2 ^ 31 -> at_ (MakeScriptTokenizer 0 script) [] script.
Proof. intros Hb Hl. by split_and!. Qed.

Lemma Done_here t pre rest : at_ t pre rest -> Done t = bool_decide (rest = []).
Proof.
  intros (Hs & Ho & He & Hl & _). unfold Done. rewrite Hs in *. rewrite i32_small by len_lia. rewrite Ho, He. cbn [orb].
  rewrite bool_decide_false by (by intros [? ?]). cbn [orb]. rewrite Zlen_app. case_bool_decide as Hr.
  - subst rest. apply Z.leb_le. len_lia.
  - apply Z.leb_gt. destruct rest as [|x r]; [done|]. len_lia.
Qed.

Lemma versionOpcode_byte n : 0 <= n <= 16 -> byte_ok (versionOpcode n).
Proof. intros Hn. unfold versionOpcode, byte_ok, OP_0, OP_1. destruct (n =? 0); lia. Qed.

Lemma nth_last {A} (l : list A) (x d : A) : nth (length (l ++ [x]) - 1) (l ++ [x]) d = x.
Proof. rewrite length_app. cbn [length]. rewrite app_nth2 by lia. by replace (_ - 1 - _)%nat with 0%nat by lia. Qed.

(** What follows the keys decides. *)
Lemma extract_after ext script op keys op2 rest : bytes_ok script -> Zlen script < 2 ^ 31 ->
  script = op :: printTokens keys ++ op2 :: rest -> IsSmallInt op = true -> IsSmallInt op2 = true ->
  Forall token_ok keys -> Forall (fun tk => IsSmallInt tk.1 = false) keys ->
  3 <= Zlen script -> nth (length script - 1) script 0 = OP_CHECKMULTISIG ->
  extractMultisigScriptDetails 0 script ext =
    Ok (if bool_decide (Zlen rest = 1) && (AsSmallInt op2 =? Zlen keys)
        then mkMultiSig (AsSmallInt op) (Zlen keys) (strictKeys ext keys) true else notMultiSig).
Proof.
  intros Hb Hl Hscr Hs Hs2 Hok Hns H3 Hlast. unfold extractMultisigScriptDetails. cbn [negb Z.eqb].
  change (negb (0 =? 0)) with false. cbn match. rewrite (proj2 (Z.ltb_ge _ _)), Hlast, Z.eqb_refl by lia. cbn [orb negb].
  pose proof (at_start script Hb Hl) as Hat. rewrite Hscr in Hat at 2. rewrite Hscr in Hb.
  apply list.Forall_cons in Hb as [Hbo Hb]. destruct (small_token op Hbo Hs) as [Hpr Htk].
  pose proof (firstToken_print (op, []) (printTokens keys ++ op2 :: rest) Htk) as Hft. rewrite Hpr in Hft.
  rewrite (Next_token _ _ _ _ _ Hat Hft). cbn [mbind outcome_bind negb].
  rewrite Opcode_advance. cbn [mbind outcome_bind fst]. rewrite Hs. cbn [negb].
  assert (Hat1 : at_ (advance (MakeScriptTokenizer 0 script) (op, [])) [op] (printTokens keys ++ op2 :: rest)).
  { rewrite <- Hpr. apply (at_advance _ []). by rewrite Hpr. }
  apply list.Forall_app in Hb as [_ Hb]. apply list.Forall_cons in Hb as [Hb2 Hb].
  assert (Hlen : (length keys < S (length script))%nat).
  { rewrite Hscr. cbn [length]. rewrite length_app. assert (length keys <= length (printTokens keys))%nat; [|lia].
    clear. induction keys as [|k keys IH]; [done|]. rewrite fmap_cons. cbn [concat length]. rewrite length_app.
    pose proof (printToken_pos k). unfold Zlen in *. lia. }
  destruct (keyLoop_form ext op2 rest keys Hb2 Hs2 Hok Hns _ _ _ 0 [] Hat1 Hlen) as (t' & -> & Hat' & Hop').
  cbn [mbind outcome_bind]. rewrite Z.add_0_l. cbn [app]. rewrite (Done_here _ _ _ Hat').
  case_bool_decide as Hr; [subst rest; by rewrite bool_decide_false by done|].
  unfold Opcode. rewrite Hop'. cbn [mbind outcome_bind]. rewrite Hs2. cbn [negb orb].
  destruct (Z.eqb_spec (AsSmallInt op2) (Zlen keys)) as [Hk|Hk]; cbn [negb]; [|by rewrite andb_false_r].
  rewrite andb_true_r. destruct Hat' as (Hts & Hto & _ & Htl & _). unfold ByteIndex. rewrite Hto.
  rewrite (i32_small (Zlen _)) by len_lia. rewrite Hts in *.
  replace (Zlen _ - Zlen _) with (Zlen rest) by len_lia. rewrite i32_small by len_lia.
  case_bool_decide as H1; destruct (Z.eqb_spec (Zlen rest) 1); cbn [negb]; done || lia.
Qed.

Lemma multisigForm_valid ext script n keys : bytes_ok script -> Zlen script < 2 ^ 31 -> multisigForm script n keys ->
  extractMultisigScriptDetails 0 script ext = Ok (mkMultiSig n (Zlen keys) (strictKeys ext keys) true).
Proof.
  intros Hb Hl [Hscr Hn Hk Hok Hns].
  destruct (versionOpcode_small n Hn) as (Hs & Ha & _). pose proof (Zlen_nonneg keys) as Hnn.
  destruct (versionOpcode_small (Zlen keys)) as (Hs2 & Ha2 & _); [lia|].
  rewrite (extract_after ext script (versionOpcode n) keys (versionOpcode (Zlen keys)) [OP_CHECKMULTISIG]); try done.
  - rewrite bool_decide_true, Ha2, Z.eqb_refl, Ha by done. done.
  - rewrite Hscr. len_lia.
  - rewrite Hscr, !app_assoc. apply nth_last.
Qed.

(** A script is a multisignature script, with these numbers, exactly when it
    has the form. *)
Lemma extractMultisigScriptDetails_spec ext script : bytes_ok script -> Zlen script < 2 ^ 31 ->
  exists d, extractMultisigScriptDetails 0 script ext = Ok d /\
    (d = notMultiSig \/ exists n keys, multisigForm script n keys /\ d = mkMultiSig n (Zlen keys) (strictKeys ext keys) true).
Proof.
  intros Hb Hl. destruct (Z.ltb_spec (Zlen script) 3) as [H3|H3].
  { exists notMultiSig. split; [|by left]. unfold extractMultisigScriptDetails. by rewrite (proj2 (Z.ltb_lt _ _) H3). }
  destruct (Z.eqb_spec (nth (length script - 1) script 0) OP_CHECKMULTISIG) as [Hlast|Hlast]; last first.
  { exists notMultiSig. split; [|by left]. unfold extractMultisigScriptDetails.
    by rewrite (proj2 (Z.ltb_ge _ _) H3), (proj2 (Z.eqb_neq _ _) Hlast). }
  destruct script as [|op rest1]; [unfold Zlen in H3; cbn in H3; lia|].
  destruct (IsSmallInt op) eqn:Hs; last first.
  - exists notMultiSig. split; [|by left]. unfold extractMultisigScriptDetails. rewrite (proj2 (Z.ltb_ge _ _) H3), Hlast.
    rewrite Z.eqb_refl. cbn [orb negb]. change (0 =? 0) with true. cbn [negb].
    pose proof (at_start _ Hb Hl) as Hat. destruct (firstToken (op :: rest1)) as [[tk r]|] eqn:Hft.
    + rewrite (Next_token _ _ _ _ _ Hat Hft). cbn [mbind outcome_bind negb]. rewrite Opcode_advance. cbn [mbind outcome_bind].
      destruct (firstToken_some _ _ _ Hb Hft) as (Heq & _). destruct tk as [o d]. unfold printToken in Heq. cbn [app] in Heq.
      injection Heq as <- _. cbn [fst]. by rewrite Hs.
    + by rewrite (Next_malformed _ _ _ _ Hat Hft).
  - pose proof (at_start _ Hb Hl) as Hat. pose proof Hb as Hb'. apply list.Forall_cons in Hb' as [Hbo Hb1].
    destruct (small_token op Hbo Hs) as [Hpr Htk].
    assert (Hat1 : at_ (advance (MakeScriptTokenizer 0 (op :: rest1)) (op, [])) [op] rest1).
    { rewrite <- Hpr. apply (at_advance _ []). by rewrite Hpr. }
    destruct (keyLoop_total ext (S (length (op :: rest1))) _ _ _ 0 [] Hat1) as (keys & Hok & Hns & Hcase); [cbn; lia|].
    destruct Hcase as [(op2 & rest & -> & Hb2 & Hs2)|(st & t' & Hloop & Hdone)].
    + eexists. split; [apply (extract_after ext _ op keys op2 rest); done|]. case_bool_decide as H1; [|by left].
      destruct (Z.eqb_spec (AsSmallInt op2) (Zlen keys)) as [Hk|]; [|by left]. right.
      destruct (IsSmallInt_length op Hbo Hs) as (_ & Hr & Hv). destruct (IsSmallInt_length op2 Hb2 Hs2) as (_ & Hr2 & Hv2).
      exists (AsSmallInt op), keys. split; [|done]. destruct rest as [|x [|]]; try (exfalso; len_lia).
      split; [|lia..|done|done]. rewrite <- Hv, <- Hk, <- Hv2. cbn [app]. do 4 f_equal.
      change (op :: printTokens keys ++ [op2; x]) with ([op] ++ printTokens keys ++ [op2] ++ [x]) in Hlast.
      by rewrite !app_assoc, nth_last in Hlast; subst.
    + exists notMultiSig. split; [|by left]. unfold extractMultisigScriptDetails. rewrite (proj2 (Z.ltb_ge _ _) H3), Hlast.
      rewrite Z.eqb_refl. cbn [orb negb]. change (0 =? 0) with true. cbn [negb].
      pose proof (firstToken_print (op, []) rest1 Htk) as Hft. rewrite Hpr in Hft.
      rewrite (Next_token _ _ _ _ _ Hat Hft). cbn [mbind outcome_bind negb]. rewrite Opcode_advance.
      cbn [mbind outcome_bind fst]. rewrite Hs. cbn [negb]. rewrite Hloop. cbn [mbind outcome_bind].
      destruct st as [np pks]. by rewrite Hdone.
Qed.

(** ** Classes *)
Section Class.
Context (script : list Z) (Hb : bytes_ok script) (Hlen : Zlen script < 2 ^ 31).

Lemma isMultisigScript_spec : exists b, isMultisigScript 0 script = Ok b /\ (b = true <-> exists n keys, multisigForm script n keys).
Proof using Hb Hlen.
  destruct (extractMultisigScriptDetails_spec false script Hb Hlen) as (d & Hd & Hcase). unfold isMultisigScript. rewrite Hd.
  eexists. split; [done|]. destruct Hcase as [->|(n & keys & Hf & ->)]; cbn [valid notMultiSig].
  - split; [done|]. intros (n & keys & Hf). rewrite (multisigForm_valid false _ _ _ Hb Hlen Hf) in Hd. by injection Hd.
  - split; [|done]. intros _. by exists n, keys.
Qed.

Lemma CalcMultiSigStats_spec :
  (exists n keys, multisigForm script n keys /\ CalcMultiSigStats script = Ok (Zlen keys, n)) \/
  ((forall n keys, ~ multisigForm script n keys) /\ CalcMultiSigStats script = Err ErrNotMultisigScript).
Proof using Hb Hlen.
  destruct (extractMultisigScriptDetails_spec false script Hb Hlen) as (d & Hd & Hcase). unfold CalcMultiSigStats. rewrite Hd.
  destruct Hcase as [->|(n & keys & Hf & ->)]; cbn [mbind outcome_bind valid notMultiSig negb].
  - right. split; [|done]. intros n keys Hf. rewrite (multisigForm_valid false _ _ _ Hb Hlen Hf) in Hd. by injection Hd.
  - left. by exists n, keys.
Qed.

Lemma isNullDataScript_total : returns (isNullDataScript 0 script).
Proof using Hb Hlen.
  unfold isNullDataScript. change (negb (0 =? 0)) with false. cbn match.
  destruct ((Zlen script <? 1) || _); [by eexists|]. destruct (Zlen script =? 1); [by eexists|].
  assert (Hat : at_ (MakeScriptTokenizer 0 (drop 1 script)) [] (drop 1 script)).
  { apply at_start; [by apply Forall_drop|]. unfold Zlen in *. rewrite length_drop. lia. }
  destruct (drop 1 script) as [|op l]; [rewrite (Next_end _ _ Hat); by eexists|].
  destruct (firstToken (op :: l)) as [[tk rest]|] eqn:Hft.
  - rewrite (Next_token _ _ _ _ _ Hat Hft). cbn [mbind outcome_bind andb]. destruct (negb _); by eexists.
  - rewrite (Next_malformed _ _ _ _ Hat Hft). by eexists.
Qed.

Lemma typeOfScript_total version : returns (typeOfScript version script).
Proof using Hb Hlen.
  unfold typeOfScript. destruct (version =? 0) eqn:Hv; [|by destruct (version =? 1); eexists].
  apply Z.eqb_eq in Hv as ->. do 5 (match goal with |- returns (if ?b then _ else _) => destruct b; [by eexists|] end).
  destruct isMultisigScript_spec as (b & -> & _). cbn [mbind outcome_bind]. destruct b; [by eexists|].
  destruct isNullDataScript_total as [b ->]. by eexists.
Qed.

Lemma GetScriptClass_total : returns (GetScriptClass script).
Proof using Hb Hlen.
  unfold GetScriptClass. destruct (typeOfScript_total 0) as [c ->]. cbn [mbind outcome_bind].
  destruct (negb _); [by eexists|apply typeOfScript_total].
Qed.

(** A multisignature output that counts no more than 20 keys says how many
    there are and how many must sign. *)
Lemma GetScriptClass_multisig : GetScriptClass script = Ok MultiSigTy -> exists n keys, multisigForm script n keys.
Proof using Hb Hlen.
  unfold GetScriptClass. destruct (typeOfScript 0 script) as [c| | |] eqn:Hc; try done. cbn [mbind outcome_bind].
  intros H. assert (Hm : c = MultiSigTy).
  { case_bool_decide; cbn [negb] in H; [|by injection H]. unfold typeOfScript in H. change (1 =? 0) with false in H.
    change (1 =? 1) with true in H. cbn match in H. by destruct (isWitnessTaprootScript script). }
  subst c. revert Hc. unfold typeOfScript. change (0 =? 0) with true. cbn match.
  do 5 (match goal with |- (if ?b then _ else _) = _ -> _ => destruct b; [done|] end).
  destruct isMultisigScript_spec as (b & -> & Hb'). cbn [mbind outcome_bind]. destruct b; [intros _; by apply Hb'|].
  destruct isNullDataScript_total as [b ->]. cbn [mbind outcome_bind]. by destruct b.
Qed.

End Class.

(** ** Scripts that are built are recognised *)

(** A key as it is serialised, compressed or not. *)
Definition keyEncoding (key : list Z) : Prop := bytes_ok key /\ (Zlen key = 33 \/ Zlen key = 65).

Definition keyToken (key : list Z) : token := (Zlen key, key).

Lemma keyToken_ok key : keyEncoding key ->
  token_ok (keyToken key) /\ IsSmallInt (keyToken key).1 = false /\ printToken (keyToken key) = Zlen key :: key.
Proof.
  intros [_ Hk]. assert (Hl : opcodeLength (Zlen key) = Zlen key + 1) by (apply opcodeLength_direct; unfold OP_PUSHDATA1; lia).
  unfold token_ok, keyToken, printToken. rewrite Hl. rewrite !(proj2 (Z.ltb_ge _ _)) by lia. split_and!; [lia| |done].
  cbn [fst]. by destruct Hk as [-> | ->].
Qed.

Lemma foldl_AddData keys : Forall keyEncoding keys -> forall b, b_err b = None ->
  Zlen (b_script b) + Zlen (printTokens (keyToken <$> keys)) <= 9000 ->
  foldl (fun b key => AddData key b) b keys = append (printTokens (keyToken <$> keys)) b.
Proof.
  intros Hk. induction Hk as [|key keys Hkey Hk IH]; intros b He Hl.
  - cbn. unfold append. destruct b as [s e]. cbn in *. by rewrite app_nil_r, He.
  - cbn [foldl]. rewrite !fmap_cons in *. cbn [concat] in *. destruct (keyToken_ok key Hkey) as (Htk & _ & Hpr).
    rewrite Zlen_app in Hl. rewrite Hpr in *.
    rewrite Zlen_cons in Hl. pose proof (Zlen_nonneg (printTokens (keyToken <$> keys))).
    assert (Had : AddData key b = append (Zlen key :: key) b) by (destruct Hkey as [_ Hkl]; apply AddData_direct; done || len_lia).
    rewrite Had, IH.
    + unfold append. rewrite He. cbn. by rewrite <- !app_assoc.
    + done.
    + cbn. rewrite Zlen_app, Zlen_cons. lia.
Qed.

Lemma keyTokens_length keys : Forall keyEncoding keys -> Zlen (printTokens (keyToken <$> keys)) <= 66 * Zlen keys.
Proof.
  induction 1 as [|key keys Hk _ IH]; [done|]. rewrite !fmap_cons. cbn [concat]. destruct (keyToken_ok key Hk) as (_ & _ & ->).
  destruct Hk as [_ Hk]. len_lia.
Qed.

Lemma AddInt64_small n b : 0 <= n <= 16 -> b_err b = None -> Zlen (b_script b) <= 9000 ->
  AddInt64 n b = Ok (append [versionOpcode n] b).
Proof.
  intros Hn He Hl. unfold AddInt64, MaxScriptSize, versionOpcode. rewrite He, (proj2 (Z.ltb_ge _ _)) by lia.
  destruct (Z.eqb_spec n 0) as [->|]; [done|]. rewrite (proj2 (Z.eqb_neq n (-1))), !(proj2 (Z.leb_le _ _)) by lia. cbn [orb andb].
  by rewrite u8_small by (unfold OP_1; lia).
Qed.

(** A script that ends in OP_CHECKMULTISIG and does not begin with a witness
    program is none of the other forms. *)
Lemma GetScriptClass_form script n keys : bytes_ok script -> Zlen script < 2 ^ 31 -> multisigForm script n keys ->
  nth 1 script 0 <> OP_DATA_20 -> nth 1 script 0 <> OP_DATA_32 -> GetScriptClass script = Ok MultiSigTy.
Proof.
  intros Hb Hl Hf H20 H32.
  assert (Hlast : forall k x, Zlen script = Z.of_nat k + 1 -> x <> OP_CHECKMULTISIG -> (nth k script 0 =? x) = false).
  { intros k x Hk Hx. apply Z.eqb_neq. intros <-. apply Hx. replace k with (length script - 1)%nat by (unfold Zlen in Hk; lia).
    destruct Hf as [-> _ _ _ _]. rewrite !app_assoc. apply nth_last. }
  unfold GetScriptClass, typeOfScript. change (0 =? 0) with true. cbn match.
  assert (isPubKeyScript script = false) as ->.
  { unfold isPubKeyScript, extractPubKey, extractCompressedPubKey, extractUncompressedPubKey.
    destruct (Z.eqb_spec (Zlen script) 35) as [H|_]; [rewrite (Hlast 34%nat) by (done || lia)|];
    (destruct (Z.eqb_spec (Zlen script) 67) as [H'|_]; [rewrite (Hlast 66%nat) by (done || lia)|]); apply bool_decide_false; cbn; by intros [? ?]. }
  assert (isPubKeyHashScript script = false) as ->.
  { unfold isPubKeyHashScript, extractPubKeyHash. apply bool_decide_false.
    destruct (Z.eqb_spec (Zlen script) 25) as [H|_]; [rewrite (Hlast 24%nat) by (done || lia); rewrite andb_false_r|]; cbn; by intros [? ?]. }
  assert (isScriptHashScript script = false) as ->.
  { unfold isScriptHashScript.
    destruct (Z.eqb_spec (Zlen script) 23) as [H|_]; [rewrite (Hlast 22%nat) by (done || lia); by rewrite andb_false_r|done]. }
  assert (isWitnessPubKeyHashScript script = false) as ->.
  { unfold isWitnessPubKeyHashScript. rewrite (proj2 (Z.eqb_neq (nth 1 script 0) _) H20). apply andb_false_r. }
  assert (isWitnessScriptHashScript script = false) as ->.
  { unfold isWitnessScriptHashScript, extractWitnessV0ScriptHash. rewrite (proj2 (Z.eqb_neq (nth 1 script 0) _) H32), andb_false_r.
    apply bool_decide_false. by intros [? ?]. }
  destruct (isMultisigScript_spec script Hb Hl) as (b & -> & Hb'). cbn [mbind outcome_bind].
  rewrite (proj2 Hb') by eauto. done.
Qed.

(** The script of [n] of the keys is classified as one, and its numbers are
    read back. *)
Theorem MultiSigScript_recognised keys n (Hk : Forall keyEncoding keys) (Hn : 0 <= n <= Zlen keys) (H16 : Zlen keys <= 16) :
  exists script, MultiSigScript keys n = Ok script /\ GetScriptClass script = Ok MultiSigTy /\
    CalcMultiSigStats script = Ok (Zlen keys, n) /\
    extractMultisigScriptDetails 0 script true = Ok (mkMultiSig n (Zlen keys) (filter (fun key => isStrictPubKeyEncoding key = true) keys) true).
Proof.
  pose proof (keyTokens_length keys Hk) as Hlk. pose proof (Zlen_nonneg keys).
  set (script := [versionOpcode n] ++ printTokens (keyToken <$> keys) ++ [versionOpcode (Zlen keys)] ++ [OP_CHECKMULTISIG]).
  assert (Hscript : MultiSigScript keys n = Ok script).
  { unfold MultiSigScript. rewrite (proj2 (Z.ltb_ge _ _)) by lia. rewrite AddInt64_small by (done || lia || (cbn; lia)).
    cbn [mbind outcome_bind]. rewrite foldl_AddData by (done || (cbn; len_lia)).
    rewrite AddInt64_small by (done || lia || (cbn; len_lia)). cbn [mbind outcome_bind].
    rewrite AddOp_short by (done || (cbn; len_lia)). unfold Script, append. cbn. f_equal. subst script. by rewrite <- !app_assoc. }
  assert (Hform : multisigForm script n (keyToken <$> keys)).
  { assert (Hz : Zlen (keyToken <$> keys) = Zlen keys) by (unfold Zlen; by rewrite length_fmap).
    split; rewrite ?Hz; [done|lia|lia|..]; apply list.Forall_fmap; (eapply list.Forall_impl; [exact Hk|]);
    intros key Hkey; by apply keyToken_ok. }
  assert (Hb : bytes_ok script).
  { subst script. apply list.Forall_app. split; [repeat constructor; apply versionOpcode_byte; lia|].
    apply list.Forall_app. split; [|apply list.Forall_app; split; repeat constructor; try (apply versionOpcode_byte; lia); by vm_compute].
    clear -Hk. induction Hk as [|key keys Hkey _ IH]; [constructor|]. rewrite !fmap_cons. cbn [concat].
    destruct (keyToken_ok key Hkey) as (_ & _ & ->). destruct Hkey as [Hbk Hkl]. apply list.Forall_app. split; [|done].
    constructor; [unfold byte_ok; lia|done]. }
  assert (Hl : Zlen script < 2 ^ 31) by (subst script; len_lia).
  assert (Hz : Zlen (keyToken <$> keys) = Zlen keys) by (unfold Zlen; by rewrite length_fmap).
  exists script. split_and!; [done| |..].
  - assert (H1 : nth 1 script 0 = 0 \/ nth 1 script 0 = 33 \/ nth 1 script 0 = 65).
    { subst script. destruct Hk as [|key keys [_ Hkl] _]; [by left|right]. destruct Hkl as [E|E]; [left|right]; exact E. }
    apply (GetScriptClass_form script n _ Hb Hl Hform); unfold OP_DATA_20, OP_DATA_32; lia.
  - unfold CalcMultiSigStats. rewrite (multisigForm_valid false _ _ _ Hb Hl Hform). cbn. by rewrite Hz.
  - rewrite (multisigForm_valid true _ _ _ Hb Hl Hform), Hz. unfold strictKeys. rewrite <- list_fmap_compose.
    do 3 f_equal. apply list_fmap_id.
Qed.

(** ** Concrete scripts *)

(** The bound of String admits one class too many. *)
Example String_past_the_end : String 10 = Panic /\ String 9 = Ok "witness_unknown"%string /\ String 11 = Ok "Invalid"%string.
Proof. by vm_compute. Qed.

(** OP_1 OP_DUP OP_1 OP_CHECKMULTISIG counts as one signature of one key. *)
Example keys_are_not_checked :
  GetScriptClass [OP_1; OP_DUP; OP_1; OP_CHECKMULTISIG] = Ok MultiSigTy /\
  CalcMultiSigStats [OP_1; OP_DUP; OP_1; OP_CHECKMULTISIG] = Ok (1, 1).
Proof. by vm_compute. Qed.

Definition key : list Z := 2 :: replicate 32 9.

Lemma MultiSigScript_recognised_witness :
  exists script, MultiSigScript [key; key] 1 = Ok script /\ GetScriptClass script = Ok MultiSigTy /\
    CalcMultiSigStats script = Ok (2, 1) /\
    extractMultisigScriptDetails 0 script true = Ok (mkMultiSig 1 2 [key; key] true).
Proof.
  apply (MultiSigScript_recognised [key; key] 1).
  - assert (keyEncoding key) by (split; [apply (bool_decide_unpack _); reflexivity|by left]). by repeat constructor.
  - by vm_compute.
  - by vm_compute.
Defined.

End Standard.
