(* ===== verification/MempoolPolicy.v ===== *)
(** * Policy of the transaction pool

    Models coin/OrcaNet/mempool/policy.go and error.go and the priority of
    mining/policy.go: which transactions a node relays although the consensus
    rules allow more.  A floating-point number is one of the pure model of
    IEEE 754 binary64 in the standard library (SpecFloat), which rounds as
    the hardware does.

    The theorems say exactly which transactions are standard and which outputs
    are dust, and bound the fee that relaying requires. *)

From Stdlib Require Import Floats.SpecFloat.
From S2P Require Import Prelude ScriptNum Wire Tokenizer Builder SigHash Merkle Difficulty Utxo TxRules Standard.

Module MempoolPolicy.
Import ScriptNum Wire Tokenizer Builder SigHash Merkle Difficulty Utxo TxRules Standard.

(** ** Errors *)
Inductive RejectCode :=
| RejectMalformed
| RejectInvalid
| RejectObsolete
| RejectDuplicate
| RejectNonstandard
| RejectDust
| RejectInsufficientFee
| RejectCheckpoint.

#[export] Instance RejectCode_eq_dec : EqDecision RejectCode.
Proof. solve_decision. Defined.

(** A RuleError of the pool with the error in it, or an error of the chain
    as it came. *)
Inductive PoolError :=
| TxRuleError (code : RejectCode)
| ChainRuleError (e : RuleError)
| RawError (e : RuleError).

#[export] Instance PoolError_eq_dec : EqDecision PoolError.
Proof. solve_decision. Defined.

(** Whether an error of the chain is of type blockchain.RuleError. *)
Definition isRuleError (e : RuleError) : bool :=
  match e with AssertError | DeploymentError | DatabaseError => false | _ => true end.

(** if cerr, ok := err.(blockchain.RuleError); ok *)
Definition chainRuleError (e : RuleError) : PoolError := if isRuleError e then ChainRuleError e else RawError e.

Definition chainRejectCode (e : RuleError) : RejectCode :=
  match e with
  | ErrDuplicateBlock => RejectDuplicate
  | ErrBlockVersionTooOld => RejectObsolete
  | ErrCheckpointTimeTooOld | ErrDifficultyTooLow | ErrBadCheckpoint | ErrForkTooOld => RejectCheckpoint
  | _ => RejectInvalid
  end.

Definition extractRejectCode (err : PoolError) : option RejectCode :=
  match err with
  | ChainRuleError e => Some (chainRejectCode e)
  | RawError e => if isRuleError e then Some (chainRejectCode e) else None
  | TxRuleError code => Some code
  end.

(** The code without the text; no error is nil. *)
Definition ErrToRejectErr (err : option PoolError) : RejectCode :=
  match err with
  | Some err => default RejectInvalid (extractRejectCode err)
  | None => RejectInvalid
  end.

Definition ofChain {A} (m : outcome RuleError A) : outcome PoolError A :=
  match m with Ok a => Ok a | Err e => Err (chainRuleError e) | Panic => Panic | Hang => Hang end.

(** A call of txscript without an error result. *)
Definition ofScript {A} (m : outcome ErrorCode A) : outcome PoolError A :=
  match m with Ok a => Ok a | Err _ => Panic | Panic => Panic | Hang => Hang end.

(** ** Floating point *)
Abbreviation float64 := spec_float.
Definition fprec := 53.
Definition femax := 1024.
Definition float_of (n : Z) : float64 := binary_normalize fprec femax n 0 false.
Definition fadd (x y : float64) : float64 := SFadd fprec femax x y.
Definition fmul (x y : float64) : float64 := SFmul fprec femax x y.
Definition fdiv (x y : float64) : float64 := SFdiv fprec femax x y.

(** ** Priority (mining) *)
Definition UnminedHeight := 0x7fffffff.
Definition MinHighPriority : float64 := float_of 57600000.

Fixpoint valueAge (ins : list TxIn) (utxoView : UtxoViewpoint) (nextBlockHeight : Z) (totalInputAge : float64) : float64 :=
  match ins with
  | [] => totalInputAge
  | txIn :: ins =>
      let totalInputAge :=
        match LookupEntry utxoView (PreviousOutPoint txIn) with
        | Some entry =>
            if IsSpent entry then totalInputAge
            else
              let originHeight := blockHeight entry in
              let inputAge := if originHeight =? UnminedHeight then 0 else i32 (nextBlockHeight - originHeight) in
              fadd totalInputAge (float_of (i64 (amount entry * inputAge)))
        | None => totalInputAge
        end in
      valueAge ins utxoView nextBlockHeight totalInputAge
  end.

Definition calcInputValueAge (tx : MsgTx) (utxoView : UtxoViewpoint) (nextBlockHeight : Z) : float64 :=
  valueAge (TxIns tx) utxoView nextBlockHeight (float_of 0).

Definition CalcPriority (tx : MsgTx) (utxoView : UtxoViewpoint) (nextBlockHeight : Z) : float64 :=
  let overhead := sum ((fun txIn => 41 + Z.min 110 (Zlen (SignatureScript txIn))) <$> TxIns tx) in
  let serializedTxSize := SerializeSize tx in
  if serializedTxSize <=? overhead then float_of 0
  else fdiv (calcInputValueAge tx utxoView nextBlockHeight) (float_of (serializedTxSize - overhead)).

(** ** Fees and dust *)
Definition maxStandardP2SHSigOps := 15.
Definition maxStandardTxWeight := 400000.
Definition maxStandardSigScriptSize := 1650.
Definition DefaultMinRelayTxFee := 1000.
Definition maxStandardMultiSigKeys := 3.

Definition calcMinRequiredTxRelayFee (serializedSize minRelayTxFee : Z) : Z :=
  let minFee := Z.quot (i64 (serializedSize * minRelayTxFee)) 1000 in
  let minFee := if (minFee =? 0) && (0 <? minRelayTxFee) then minRelayTxFee else minFee in
  if (minFee <? 0) || (MaxSatoshi <? minFee) then MaxSatoshi else minFee.

Definition GetDustThreshold (txOut : TxOut) : outcome PoolError Z :=
  let totalSize := TxOut_SerializeSize txOut + 41 in
  program ← ofScript (IsWitnessProgram (PkScript txOut));
  mret (3 * (totalSize + (if program : bool then Z.quot 107 WitnessScaleFactor else 107))).

Definition IsDust (txOut : TxOut) (minRelayTxFee : Z) : outcome PoolError bool :=
  unspendable ← ofScript (IsUnspendable (PkScript txOut));
  if unspendable : bool then Ok true
  else
    threshold ← GetDustThreshold txOut;
    mret (Z.quot (i64 (Value txOut * 1000)) threshold <? minRelayTxFee).

Definition GetTxVirtualSize (tx : MsgTx) : Z :=
  Z.quot (GetTransactionWeight tx + (WitnessScaleFactor - 1)) WitnessScaleFactor.

(** ** Standard inputs, outputs and transactions *)
Fixpoint inputsStandard (ins : list TxIn) (utxoView : UtxoViewpoint) : outcome PoolError unit :=
  match ins with
  | [] => Ok ()
  | txIn :: ins =>
      match LookupEntry utxoView (PreviousOutPoint txIn) with
      | None => Panic
      | Some entry =>
          class ← ofScript (GetScriptClass (pkScript entry));
          match class with
          | ScriptHashTy =>
              numSigOps ← ofScript (GetPreciseSigOpCount (SignatureScript txIn) (pkScript entry));
              if maxStandardP2SHSigOps <? numSigOps then Err (TxRuleError RejectNonstandard) else inputsStandard ins utxoView
          | NonStandardTy => Err (TxRuleError RejectNonstandard)
          | _ => inputsStandard ins utxoView
          end
      end
  end.

Definition checkInputsStandard (tx : MsgTx) (utxoView : UtxoViewpoint) : outcome PoolError unit :=
  inputsStandard (TxIns tx) utxoView.

Definition checkPkScriptStandard (script : list Z) (scriptClass : ScriptClass) : outcome PoolError unit :=
  match scriptClass with
  | MultiSigTy =>
      match CalcMultiSigStats script with
      | Ok (numPubKeys, numSigs) =>
          if numPubKeys <? 1 then Err (TxRuleError RejectNonstandard)
          else if maxStandardMultiSigKeys <? numPubKeys then Err (TxRuleError RejectNonstandard)
          else if numSigs <? 1 then Err (TxRuleError RejectNonstandard)
          else if numPubKeys <? numSigs then Err (TxRuleError RejectNonstandard)
          else Ok ()
      | Err _ => Err (TxRuleError RejectNonstandard)
      | Panic => Panic
      | Hang => Hang
      end
  | NonStandardTy => Err (TxRuleError RejectNonstandard)
  | _ => Ok ()
  end.

(** An error of the pool under the reject code that can be extracted from
    it. *)
Definition retained {A} (m : outcome PoolError A) : outcome PoolError A :=
  match m with
  | Err e => Err (TxRuleError (default RejectNonstandard (extractRejectCode e)))
  | m => m
  end.

Fixpoint sigScriptsStandard (ins : list TxIn) : outcome PoolError unit :=
  match ins with
  | [] => Ok ()
  | txIn :: ins =>
      if maxStandardSigScriptSize <? Zlen (SignatureScript txIn) then Err (TxRuleError RejectNonstandard)
      else
        pushOnly ← ofScript (IsPushOnlyScript (SignatureScript txIn));
        if negb pushOnly then Err (TxRuleError RejectNonstandard) else sigScriptsStandard ins
  end.

(** The number of outputs that only carry data. *)
Fixpoint outputsStandard (outs : list TxOut) (minRelayTxFee numNullDataOutputs : Z) : outcome PoolError Z :=
  match outs with
  | [] => Ok numNullDataOutputs
  | txOut :: outs =>
      scriptClass ← ofScript (GetScriptClass (PkScript txOut));
      _ ← retained (checkPkScriptStandard (PkScript txOut) scriptClass);
      if bool_decide (scriptClass = NullDataTy) then outputsStandard outs minRelayTxFee (numNullDataOutputs + 1)
      else
        dust ← IsDust txOut minRelayTxFee;
        if dust : bool then Err (TxRuleError RejectDust) else outputsStandard outs minRelayTxFee numNullDataOutputs
  end.

Definition CheckTransactionStandard (tx : MsgTx) (height medianTimePast minRelayTxFee maxTxVersion : Z)
    : outcome PoolError unit :=
  if (maxTxVersion <? Version tx) || (Version tx <? 1) then Err (TxRuleError RejectNonstandard)
  else if negb (IsFinalizedTransaction tx height medianTimePast) then Err (TxRuleError RejectNonstandard)
  else if maxStandardTxWeight <? GetTransactionWeight tx then Err (TxRuleError RejectNonstandard)
  else
    _ ← sigScriptsStandard (TxIns tx);
    numNullDataOutputs ← outputsStandard (TxOuts tx) minRelayTxFee 0;
    if 1 <? numNullDataOutputs then Err (TxRuleError RejectNonstandard) else Ok ().

(** ** What is dust *)

(** What an output costs to create and to spend, three times over. *)
Definition dustThreshold (txOut : TxOut) : Z :=
  let spend := match IsWitnessProgram (PkScript txOut) with Ok true => 26 | _ => 107 end in
  3 * (TxOut_SerializeSize txOut + 41 + spend).

Definition script_ok (script : list Z) : Prop := bytes_ok script /\ Zlen script < 2 ^ 31.

Lemma TxOut_SerializeSize_pos o : 0 < TxOut_SerializeSize o.
Proof. unfold TxOut_SerializeSize, VarIntSerializeSize. pose proof (Zlen_nonneg (PkScript o)). repeat case_match; lia. Qed.

Lemma IsWitnessProgram_total script : bytes_ok script -> returns (IsWitnessProgram script).
Proof.
  intros Hb. unfold IsWitnessProgram. destruct (extractWitnessProgramInfo_spec script Hb) as (r & -> & _). by eexists.
Qed.

Lemma GetDustThreshold_spec o : script_ok (PkScript o) -> GetDustThreshold o = Ok (dustThreshold o) /\ 0 < dustThreshold o.
Proof.
  intros [Hb Hl]. unfold GetDustThreshold, dustThreshold. destruct (IsWitnessProgram_total _ Hb) as [b ->]. cbn [ofScript mbind outcome_bind mret outcome_ret].
  pose proof (TxOut_SerializeSize_pos o). split; [|destruct b; lia]. by destruct b.
Qed.

(** An output is dust when nobody can spend it, or when its amount is below
    the threshold at the relay fee, which is per thousand bytes. *)
Lemma IsDust_spec o minRelayTxFee : script_ok (PkScript o) -> 0 <= Value o <= MaxSatoshi ->
  IsDust o minRelayTxFee = Ok (unspendable (PkScript o) || (Value o * 1000 <? minRelayTxFee * dustThreshold o)).
Proof.
  intros Hs Hv. unfold IsDust. destruct (script_walks_total (PkScript o) 1 (proj1 Hs) (proj2 Hs)) as (_ & _ & [b Hb] & _).
  unfold unspendable. rewrite Hb. cbn [ofScript]. rewrite bind_Ok. destruct b; [done|]. cbn [orb].
  destruct (GetDustThreshold_spec o Hs) as [-> Hpos]. rewrite bind_Ok. change (mret ?x) with (@Ok PoolError bool x). f_equal.
  rewrite i64_small by money. rewrite Z.quot_div_nonneg by lia.
  destruct (Z.ltb_spec (Value o * 1000) (minRelayTxFee * dustThreshold o)).
  - apply Z.ltb_lt, Z.div_lt_upper_bound; lia.
  - apply Z.ltb_ge, Z.div_le_lower_bound; lia.
Qed.

(** 546 satoshi, as the comment of IsDust says. *)
Lemma p2pkh_dust h value : bytes_ok h -> Zlen h = 20 -> 0 <= value <= MaxSatoshi ->
  IsDust (mkTxOut value (p2pkh h)) DefaultMinRelayTxFee = Ok (value <? 546).
Proof.
  intros Hb Hh Hv. set (o := mkTxOut value (p2pkh h)).
  assert (Hl : Zlen (p2pkh h) = 25) by (unfold p2pkh; rewrite !Zlen_app, Hh; done).
  assert (Hs : script_ok (PkScript o)).
  { split; [|cbn [PkScript o]; lia]. cbn [PkScript o]. unfold p2pkh.
    apply list.Forall_app. split; [apply (bool_decide_unpack _); reflexivity|].
    apply list.Forall_app. split; [done|apply (bool_decide_unpack _); reflexivity]. }
  rewrite IsDust_spec by done.
  assert (Hpay : parse (p2pkh h) = ([(OP_DUP, []); (OP_HASH160, []); (OP_DATA_20, h); (OP_EQUALVERIFY, []); (OP_CHECKSIG, [])], true)).
  { assert (Hpr : p2pkh h = printTokens [(OP_DUP, []); (OP_HASH160, []); (OP_DATA_20, h); (OP_EQUALVERIFY, []); (OP_CHECKSIG, [])]).
    { cbn. by rewrite <- ?app_assoc. }
    rewrite Hpr. apply parse_print. repeat apply list.Forall_cons_2; try apply list.Forall_nil_2; unfold token_ok; done. }
  assert (Hu : unspendable (PkScript o) = false).
  { unfold unspendable, IsUnspendable. cbn [PkScript o]. rewrite Hl. cbn [p2pkh app nth].
    change ((0 <? 25) && (OP_DUP =? OP_RETURN)) with false. change (MaxScriptSize <? 25) with false. cbn match.
    destruct Hs as [Hsb _]. cbn [PkScript o] in Hsb. change (OP_DUP :: ?x) with (p2pkh h).
    rewrite checkScriptParses_spec by (done || lia). by rewrite Hpay. }
  rewrite Hu. cbn [orb]. f_equal.
  assert (Ht : dustThreshold o = 546).
  { unfold dustThreshold. destruct (IsWitnessProgram_total (PkScript o) (proj1 Hs)) as [b Hw]. rewrite Hw.
    unfold IsWitnessProgram in Hw. destruct (extractWitnessProgramInfo_spec (PkScript o) (proj1 Hs)) as (r & Hr & Hi). rewrite Hr in Hw.
    injection Hw as <-. destruct r as [[v p]|]; [exfalso|].
    - destruct (proj1 (Hi v p) eq_refl) as (Hv16 & _ & Hform). assert (Hop : OP_DUP = versionOpcode v) by exact (f_equal (fun l => nth 0 l 0) Hform).
      unfold versionOpcode in Hop. destruct (v =? 0); unfold OP_DUP, OP_0, OP_1 in Hop; lia.
    - rewrite bool_decide_false by (by intros [? ?]). unfold TxOut_SerializeSize. cbn [PkScript o]. rewrite Hl. done. }
  rewrite Ht. unfold DefaultMinRelayTxFee. cbn [Value o]. apply eq_true_iff_eq. rewrite !Z.ltb_lt. lia.
Qed.

(** ** The fee for relaying *)
Lemma calcMinRequiredTxRelayFee_spec size fee : 0 <= size -> 0 <= fee -> size * fee < 2 ^ 63 ->
  calcMinRequiredTxRelayFee size fee =
    Z.min MaxSatoshi (if (size * fee <? 1000) && (0 <? fee) then fee else size * fee / 1000).
Proof.
  intros Hs Hf Hm. assert (0 <= size * fee) by nia. unfold calcMinRequiredTxRelayFee. rewrite i64_small by lia.
  rewrite Z.quot_div_nonneg by lia.
  assert (Hz : (size * fee / 1000 =? 0) = (size * fee <? 1000)).
  { destruct (Z.ltb_spec (size * fee) 1000); [apply Z.eqb_eq, Z.div_small; lia|]. apply Z.eqb_neq.
    pose proof (Z.div_le_lower_bound (size * fee) 1000 1). lia. }
  rewrite Hz. pose proof (Z.div_pos (size * fee) 1000 ltac:(lia) ltac:(lia)).
  set (m := if (size * fee <? 1000) && (0 <? fee) then fee else size * fee / 1000). assert (0 <= m) by (subst m; case_match; lia).
  rewrite (proj2 (Z.ltb_ge m 0)) by lia. cbn [orb]. destruct (Z.ltb_spec MaxSatoshi m); lia.
Qed.

(** ** Which transactions are standard *)
Definition scripts_ok (tx : MsgTx) : Prop :=
  Forall (fun ti => script_ok (SignatureScript ti)) (TxIns tx) /\
  Forall (fun o => script_ok (PkScript o) /\ 0 <= Value o <= MaxSatoshi) (TxOuts tx).

(** The class of a script. *)
Definition classOf (script : list Z) : ScriptClass := match GetScriptClass script with Ok c => c | _ => NonStandardTy end.

Definition relayedScript (script : list Z) : Prop :=
  classOf script <> NonStandardTy /\
  (classOf script = MultiSigTy -> exists n keys, multisigForm script n keys /\ 1 <= n <= Zlen keys /\ Zlen keys <= maxStandardMultiSigKeys).

Record standardOutput (minRelayTxFee : Z) (o : TxOut) : Prop := {
  so_script : relayedScript (PkScript o);
  so_amount : classOf (PkScript o) <> NullDataTy ->
    unspendable (PkScript o) = false /\ minRelayTxFee * dustThreshold o <= Value o * 1000;
}.

Definition pushOnly (script : list Z) : Prop := exists toks, parse script = (toks, true) /\ Forall (fun tk => tk.1 <= OP_16) toks.

Definition dataOutputs (outs : list TxOut) : Z := Zlen (filter (fun o => classOf (PkScript o) = NullDataTy) outs).

Record standard (tx : MsgTx) (height medianTimePast minRelayTxFee maxTxVersion : Z) : Prop := {
  std_version : 1 <= Version tx <= maxTxVersion;
  std_final : IsFinalizedTransaction tx height medianTimePast = true;
  std_weight : GetTransactionWeight tx <= maxStandardTxWeight;
  std_inputs : Forall (fun ti => Zlen (SignatureScript ti) <= maxStandardSigScriptSize /\ pushOnly (SignatureScript ti)) (TxIns tx);
  std_outputs : Forall (standardOutput minRelayTxFee) (TxOuts tx);
  std_data : dataOutputs (TxOuts tx) <= 1;
}.

Lemma classOf_ok script : script_ok script -> GetScriptClass script = Ok (classOf script).
Proof. intros [Hb Hl]. unfold classOf. by destruct (GetScriptClass_total script Hb Hl) as [c ->]. Qed.

(** A call that fails or returns, and returns exactly when [P] holds. *)
Definition decides {E A} (m : outcome E A) (P : Prop) (a : A) : Prop := (P /\ m = Ok a) \/ (~ P /\ exists e, m = Err e).

Lemma checkPkScriptStandard_decides script : script_ok script ->
  decides (checkPkScriptStandard script (classOf script)) (relayedScript script) ().
Proof.
  intros [Hb Hl]. unfold decides, relayedScript, checkPkScriptStandard.
  destruct (classOf script) eqn:Hc; try (left; done); [right; split; [by intros [? _]|by eexists]|].
  assert (Hm : GetScriptClass script = Ok MultiSigTy) by (by rewrite classOf_ok, Hc).
  destruct (CalcMultiSigStats_spec script Hb Hl) as [(n & keys & Hf & ->)|[Hno _]].
  2: { exfalso. destruct (GetScriptClass_multisig _ Hb Hl Hm) as (n & keys & Hf). by apply (Hno n keys). }
  assert (Huniq : forall n' keys', multisigForm script n' keys' -> n' = n /\ Zlen keys' = Zlen keys).
  { intros n' keys' Hf'. pose proof (multisigForm_valid false _ _ _ Hb Hl Hf) as H1.
    rewrite (multisigForm_valid false _ _ _ Hb Hl Hf') in H1. by injection H1. }
  unfold maxStandardMultiSigKeys.
  destruct (decide (1 <= n <= Zlen keys /\ Zlen keys <= 3)) as [Hd|Hd].
  - left. split; [split; [done|]; intros _; by exists n, keys|].
    by rewrite !(proj2 (Z.ltb_ge _ _)) by lia.
  - right. split.
    + intros [_ H]. destruct (H eq_refl) as (n' & keys' & Hf' & Hr). destruct (Huniq _ _ Hf') as [-> Hz]. lia.
    + repeat case_match; try by eexists. lia.
Qed.

Lemma sigScriptsStandard_decides ins : Forall (fun ti => script_ok (SignatureScript ti)) ins ->
  decides (sigScriptsStandard ins)
    (Forall (fun ti => Zlen (SignatureScript ti) <= maxStandardSigScriptSize /\ pushOnly (SignatureScript ti)) ins) ().
Proof.
  unfold decides. induction 1 as [|ti ins [Hb Hl] _ IH]; [by left|]. cbn [sigScriptsStandard]. rewrite list.Forall_cons.
  destruct (Z.ltb_spec maxStandardSigScriptSize (Zlen (SignatureScript ti))) as [Hz|Hz].
  { right. split; [lia|by eexists]. }
  rewrite IsPushOnlyScript_spec by done. cbn [ofScript]. rewrite bind_Ok.
  assert (Hp : pushOnly (SignatureScript ti) <->
    (parse (SignatureScript ti)).2 && forallb (fun tk => tk.1 <=? OP_16) (parse (SignatureScript ti)).1 = true).
  { unfold pushOnly. destruct (parse _) as [toks ok]. cbn [fst snd]. rewrite andb_true_iff, forallb_forall. split.
    - intros (? & [= -> ->] & Hf). split; [done|]. rewrite list.Forall_forall in Hf. intros tk Htk. apply Z.leb_le, Hf. by apply list_elem_of_In.
    - intros [-> Hf]. exists toks. split; [done|]. apply list.Forall_forall. intros tk Htk. apply Z.leb_le, Hf. by apply list_elem_of_In. }
  destruct (_ && _) eqn:Hpo; cbn [negb].
  - destruct IH as [[Hf ->]|[Hf [e ->]]]; [left|right]; (split; [|by try eexists]); [|intros [_ ?]; done].
    split; [|done]. split; [lia|by apply Hp].
  - right. split; [|by eexists]. intros [[_ Hpu] _]. by apply Hp in Hpu.
Qed.

Lemma outputsStandard_decides fee outs : Forall (fun o => script_ok (PkScript o) /\ 0 <= Value o <= MaxSatoshi) outs ->
  forall n, decides (outputsStandard outs fee n) (Forall (standardOutput fee) outs) (n + dataOutputs outs).
Proof.
  unfold decides, dataOutputs. induction 1 as [|o outs [Hs Hv] _ IH]; intros n; [left; split; [done|]; cbn; f_equal; zlen|].
  cbn [outputsStandard]. rewrite list.Forall_cons, filter_cons. rewrite (classOf_ok _ Hs). cbn [ofScript]. rewrite bind_Ok.
  destruct (checkPkScriptStandard_decides _ Hs) as [[Hrel ->]|[Hrel [e ->]]]; cbn [retained]; last first.
  { right. split; [|by eexists]. by intros [[? _] _]. }
  rewrite bind_Ok. case_bool_decide as Hnd.
  - rewrite decide_True by done. rewrite Zlen_cons. replace (n + (_ + 1)) with (n + 1 + Zlen (filter (fun o => classOf (PkScript o) = NullDataTy) outs)) by lia.
    destruct (IH (n + 1)) as [[Hf ->]|[Hf [e ->]]]; [left|right]; (split; [|by try eexists]); [|intros [_ ?]; done].
    split; [|done]. split; [done|by intros ?].
  - rewrite decide_False by done. rewrite IsDust_spec by done. rewrite bind_Ok.
    destruct (unspendable (PkScript o)) eqn:Hu; cbn [orb].
    { right. split; [|by eexists]. intros [[_ Ha] _]. destruct (Ha Hnd). congruence. }
    destruct (Z.ltb_spec (Value o * 1000) (fee * dustThreshold o)).
    { right. split; [|by eexists]. intros [[_ Ha] _]. destruct (Ha Hnd). lia. }
    destruct (IH n) as [[Hf ->]|[Hf [e ->]]]; [left|right]; (split; [|by try eexists]); [|intros [_ ?]; done].
    split; [|done]. split; [done|]. intros _. split; [done|lia].
Qed.

(** C20. CheckTransactionStandard accepts exactly the standard transactions, and
    refuses the others without a panic. *)
Theorem CheckTransactionStandard_iff tx height medianTimePast fee maxTxVersion (Hok : scripts_ok tx) :
  decides (CheckTransactionStandard tx height medianTimePast fee maxTxVersion)
    (standard tx height medianTimePast fee maxTxVersion) ().
Proof.
  destruct Hok as [Hi Ho]. unfold CheckTransactionStandard.
  destruct ((maxTxVersion <? Version tx) || (Version tx <? 1)) eqn:Hver.
  { right. split; [|by eexists]. intros [? _ _ _ _ _]. lia. }
  destruct (IsFinalizedTransaction tx height medianTimePast) eqn:Hfin; cbn [negb]; last first.
  { right. split; [|by eexists]. intros [_ ? _ _ _ _]. congruence. }
  destruct (Z.ltb_spec maxStandardTxWeight (GetTransactionWeight tx)) as [Hw|Hw].
  { right. split; [|by eexists]. intros [_ _ ? _ _ _]. lia. }
  destruct (sigScriptsStandard_decides _ Hi) as [[Hsig ->]|[Hsig [e ->]]]; rewrite ?bind_Ok; last first.
  { right. split; [|by eexists]. by intros [_ _ _ ? _ _]. }
  destruct (outputsStandard_decides fee _ Ho 0) as [[Hout ->]|[Hout [e ->]]]; rewrite ?bind_Ok; last first.
  { right. split; [|by eexists]. by intros [_ _ _ _ ? _]. }
  rewrite Z.add_0_l. destruct (Z.ltb_spec 1 (dataOutputs (TxOuts tx))) as [Hd|Hd].
  - right. split; [|by eexists]. intros [_ _ _ _ _ ?]. lia.
  - left. split; [|done]. split; try done. lia.
Qed.

(** A payment to a key, with two outputs of data in the second. *)
Definition payment : MsgTx := mkMsgTx 1 [mkTxIn (mkOutPoint (replicate 32 1) 0) [1; 9] [] MaxUint32] [mkTxOut 10000 (p2pkh (replicate 20 7))] 0.
Definition notes : MsgTx := mkMsgTx 1 (TxIns payment) [mkTxOut 0 [OP_RETURN]; mkTxOut 0 [OP_RETURN]] 0.

Example two_data_outputs : CheckTransactionStandard payment 10 0 1000 2 = Ok () /\
  CheckTransactionStandard notes 10 0 1000 2 = Err (TxRuleError RejectNonstandard).
Proof. by vm_compute. Qed.

Lemma CheckTransactionStandard_iff_witness :
  scripts_ok payment /\ decides (CheckTransactionStandard payment 10 0 1000 2) (standard payment 10 0 1000 2) ().
Proof.
  assert (Hok : scripts_ok payment).
  { split; (apply Forall_cons_2; [|apply Forall_nil_2]).
    - split; [apply (bool_decide_unpack _); vm_compute; exact I|by vm_compute].
    - split; [split; [apply (bool_decide_unpack _); vm_compute; exact I|by vm_compute]|by vm_compute]. }
  split; [exact Hok|]. exact (CheckTransactionStandard_iff payment 10 0 1000 2 Hok).
Defined.

End MempoolPolicy.
