(* ===== verification/Returns.v ===== *)
(** * Checks of a transaction end

    The checks that the pool and the generator of templates make of a
    transaction on a view of its coins (its signature operations, the
    standardness of its inputs, the validation of its scripts) return a
    value or an error on any transaction and any view that hold bytes, given
    the steps that its longest script takes; and the views stay so. *)

From S2P Require Import Prelude ScriptNum Wire Tokenizer Builder SigHash SigCheck Opcodes Engine EngineSafe EngineRun Merkle Utxo TxRules ScriptVal BlockRules Standard MempoolPolicy.

Module Returns.
Import ScriptNum Wire Tokenizer Builder SigHash SigCheck Opcodes Engine EngineSafe EngineRun Merkle Utxo TxRules ScriptVal Standard MempoolPolicy.
Import BlockRules (tx_ok, ok_ins, ok_outs, ok_values, CountSigOps_ok).

(** ** Transactions and views of bytes *)

(** An input as a decoder gives it. *)
Definition in_ok (ti : TxIn) : Prop :=
  item_ok (SignatureScript ti) /\ Forall item_ok (Witness ti) /\ Zlen (Witness ti) <= 2 ^ 29 /\ 0 <= Wire.Index (PreviousOutPoint ti).

#[export] Instance in_ok_dec ti : Decision (in_ok ti).
Proof. unfold in_ok. apply _. Defined.

Record decoded (tx : MsgTx) : Prop := {
  de_ok : tx_ok tx;
  de_ins : Forall in_ok (TxIns tx);
}.

(** The entries of a view hold scripts of bytes. *)
Definition view_ok (view : UtxoViewpoint) : Prop :=
  forall op e, LookupEntry view op = Some e -> script_ok (pkScript e).

(** A view that knows every input. *)
Definition knows (view : UtxoViewpoint) (tx : MsgTx) : Prop :=
  Forall (fun ti => is_Some (LookupEntry view (PreviousOutPoint ti))) (TxIns tx).

(** No input carries a program of version 1 or higher that could be nested in
    a P2SH output. *)
Definition plain (tx : MsgTx) : Prop := Forall (fun ti => ~ nestedProgram ti) (TxIns tx).

(** The steps that any script of a transaction takes. *)
Definition longest (w : list (list Z)) : Z := foldr (fun b m => Z.max (Zlen b) m) MaxScriptSize w.
Definition enough (fuel : nat) (tx : MsgTx) : Prop :=
  Forall (fun ti => 5 * (longest (Witness ti) + 1) <= Z.of_nat fuel) (TxIns tx).

Lemma longest_bounds w : Forall item_ok w -> MaxScriptSize <= longest w < 2 ^ 31 /\ Forall (fun b => Zlen b <= longest w) w.
Proof.
  induction 1 as [|b w [_ Hb] _ [IH1 IH2]]; [by split; [unfold longest, MaxScriptSize; cbn; lia|constructor]|].
  change (longest (b :: w)) with (Z.max (Zlen b) (longest w)). split; [lia|]. constructor; [lia|].
  eapply list.Forall_impl; [exact IH2|]. cbn. lia.
Qed.

(** ** Signature operations *)
Lemma countSigOps_returns script precise : script_ok script -> returns (countSigOpsV0 script precise).
Proof. intros [Hb Hl]. destruct (script_walks_total script 0 Hb Hl) as (_ & _ & _ & _ & p & i & Hp & Hi & _). destruct precise; by eexists. Qed.

(** The last push of a script is part of it. *)
Lemma final_ok script redeem : script_ok script -> finalOpcodeData 0 script = Ok redeem -> script_ok redeem.
Proof.
  intros [Hb Hl]. rewrite finalOpcodeData_spec by done. intros [= <-].
  destruct (parse script) as [toks ok] eqn:Hp. cbn [fst snd]. destruct ok; [|by split].
  destruct (parse_some _ _ _ Hb Hp) as (_ & tail & Heq & _). destruct toks as [|[op data] toks _] using rev_ind; [by split|].
  rewrite last_snoc. cbn. rewrite Heq, fmap_app, concat_app in Hb, Hl. cbn [fmap list_fmap concat] in Hb, Hl. rewrite app_nil_r in Hb, Hl.
  apply list.Forall_app in Hb as [Hb _]. apply list.Forall_app in Hb as [_ Hb]. rewrite !Zlen_app in Hl.
  assert (Hd : exists h, printToken (op, data) = h ++ data) by (unfold printToken; eexists; by rewrite app_comm_cons).
  destruct Hd as [h Hd]. rewrite Hd, Zlen_app in Hl. rewrite Hd in Hb. apply list.Forall_app in Hb as [_ Hb]. split; [done|]. len_lia.
Qed.

Lemma GetPreciseSigOpCount_returns sig pk : script_ok sig -> script_ok pk -> returns (GetPreciseSigOpCount sig pk).
Proof.
  intros Hs Hp. unfold GetPreciseSigOpCount. destruct (negb (isScriptHashScript pk)); [by apply countSigOps_returns|].
  destruct (Zlen sig =? 0); [by eexists|]. destruct (script_walks_total sig 0 (proj1 Hs) (proj2 Hs)) as ([b ->] & [redeem Hr] & _).
  rewrite bind_Ok. destruct (negb b); [by eexists|]. rewrite Hr, bind_Ok. destruct (_ =? 0); [by eexists|].
  by apply countSigOps_returns, (final_ok sig).
Qed.

Lemma getWitnessSigOps_returns script w : bytes_ok script -> Forall item_ok w -> returns (getWitnessSigOps script w).
Proof.
  intros Hb Hw. unfold getWitnessSigOps. destruct (extractWitnessProgramInfo_spec script Hb) as ([[v p]|] & -> & _); rewrite bind_Ok; [|by eexists].
  destruct (v =? _); [|by eexists]. destruct (Zlen p =? payToWitnessPubKeyHashDataSize); [by eexists|].
  destruct (_ && _) eqn:Hc; [|by eexists]. apply andb_true_iff in Hc as [_ Hlt%Z.ltb_lt].
  destruct (lookup_Z w (Zlen w - 1)) as [x Hx]; [lia|]. unfold index. rewrite decide_True by lia. rewrite Hx, bind_Ok.
  apply countSigOps_returns. by eapply (Forall_lookup_1 item_ok).
Qed.

Lemma GetWitnessSigOpCount_returns sig pk w : script_ok sig -> script_ok pk -> Forall item_ok w -> returns (GetWitnessSigOpCount sig pk w).
Proof.
  intros Hs Hp Hw. unfold GetWitnessSigOpCount. destruct (IsWitnessProgram_total pk (proj1 Hp)) as [b ->]. rewrite bind_Ok.
  destruct b; [by apply getWitnessSigOps_returns; [apply Hp|]|]. destruct (isScriptHashScript pk); [|by eexists].
  destruct (script_walks_total sig 0 (proj1 Hs) (proj2 Hs)) as ([pu ->] & _). rewrite bind_Ok. destruct (_ && _) eqn:Hc; [|by eexists].
  apply andb_true_iff in Hc as [_ Hlt%Z.ltb_lt]. unfold slice. rewrite decide_True by lia. rewrite bind_Ok.
  set (rest := take _ _). assert (Hr : bytes_ok rest) by (unfold rest; apply Forall_take, Forall_drop, Hs).
  destruct (IsWitnessProgram_total rest Hr) as [n ->]. rewrite bind_Ok. destruct n; [by apply getWitnessSigOps_returns|by eexists].
Qed.

(** ** Standard transactions *)
Lemma decides_safe {E A} (m : outcome E A) P a : decides m P a -> safe m (fun _ => True).
Proof. by intros [[_ ->]|[_ [e ->]]]. Qed.

Lemma CheckTransactionStandard_safe tx height medianTimePast fee maxTxVersion : decoded tx -> sane tx ->
  safe (CheckTransactionStandard tx height medianTimePast fee maxTxVersion) (fun _ => True).
Proof.
  intros [Hok Hins] Hs. unfold CheckTransactionStandard. do 3 (apply safe_if; [done|intros _]).
  eapply safe_bind; [eapply decides_safe, sigScriptsStandard_decides; eapply list.Forall_impl; [exact Hins|]; by intros ti (? & _)|].
  intros _ _ _. eapply safe_bind; [eapply decides_safe, outputsStandard_decides; apply list.Forall_and; split; [apply (ok_outs _ Hok)|by apply sane_values_ok]|].
  intros n _ _. by apply safe_if.
Qed.

(** ** Views *)
Lemma view_ok_set op e view : view_ok view -> script_ok (pkScript e) -> view_ok (setEntry op e view).
Proof.
  intros Hv He op' e'. unfold LookupEntry, setEntry. cbn [entries]. destruct (decide (op = op')) as [<-|Hne].
  - rewrite lookup_insert_eq. cbn. by intros [= <-].
  - rewrite lookup_insert_ne by done. apply Hv.
Qed.
Lemma view_ok_remove op view : view_ok view -> view_ok (RemoveEntry op view).
Proof.
  intros Hv op' e'. unfold LookupEntry, RemoveEntry. cbn [entries]. destruct (decide (op = op')) as [<-|Hne].
  - by rewrite lookup_delete_eq.
  - rewrite lookup_delete_ne by done. apply Hv.
Qed.

(** Outputs enter a view without a panic, and it keeps what it knew. *)
Definition grows (view view' : UtxoViewpoint) : Prop := forall op, is_Some (entries view !! op) -> is_Some (entries view' !! op).

Lemma addTxOut_returns op out cb height view : script_ok (PkScript out) -> view_ok view ->
  exists view', addTxOut op out cb height view = Ok view' /\ view_ok view' /\ grows view view'.
Proof.
  intros Ho Hv. unfold addTxOut. rewrite unspendable_ok, bind_Ok by done. destruct (unspendable _); [exists view; split_and!; [done|done|by intros ?]|].
  eexists. split; [reflexivity|]. split; [by apply view_ok_set|]. intros op' Hop. unfold setEntry. cbn [entries].
  destruct (decide (op = op')) as [<-|Hne]; [rewrite lookup_insert_eq; by eexists|by rewrite lookup_insert_ne].
Qed.

Lemma AddTxOut_returns {H : Hashes} tx i height view : outs_ok (TxOuts tx) -> 0 <= i -> view_ok view ->
  exists view', AddTxOut tx i height view = Ok view' /\ view_ok view' /\ grows view view'.
Proof.
  intros Ho Hi Hv. unfold AddTxOut. destruct (Z.leb_spec (u32 (Zlen (TxOuts tx))) i) as [|Hlt]; [exists view; split_and!; [done|done|by intros ?]|].
  assert (Hl : i < Zlen (TxOuts tx)) by (pose proof (Zlen_nonneg (TxOuts tx)); pose proof (Z.mod_le (Zlen (TxOuts tx)) (2 ^ 32)); unfold u32 in Hlt; lia).
  destruct (lookup_Z (TxOuts tx) i) as [out Hout]; [lia|]. unfold index. rewrite decide_True, Hout, bind_Ok by lia.
  apply addTxOut_returns; [exact (Forall_lookup_1 _ _ _ _ Ho Hout)|done].
Qed.

Lemma addOuts_view_ok hash outs cb height : outs_ok outs -> forall i view view', view_ok view ->
  addOuts hash i outs cb height view = Ok view' -> view_ok view'.
Proof.
  induction 1 as [|out outs Ho _ IH]; intros i view view' Hv; cbn [addOuts]; [by intros [= <-]|].
  destruct (addTxOut_returns (mkOutPoint hash (u32 i)) out cb height view Ho Hv) as (v & -> & Hv' & _). rewrite bind_Ok. by apply IH.
Qed.

(** ** Midstates *)
Section Midstates.
Context {H : Hashes} (FetchPrev : OutPoint -> option TxOut).

Lemma scanInputs_returns ins : fetchable FetchPrev ins -> forall v0 v1, returns (scanInputs FetchPrev ins v0 v1).
Proof using.
  induction 1 as [|ti ins [out Hout] _ IH]; intros v0 v1; cbn [scanInputs]; [by eexists|]. match goal with |- context [if ?b then scanInputs _ _ _ _ else _] => destruct b; [apply IH|] end.
  unfold fetch. rewrite Hout, bind_Ok. repeat case_match; first [apply IH|by eexists].
Qed.
Lemma prevOuts_returns ins : fetchable FetchPrev ins -> returns (prevOuts FetchPrev ins).
Proof using.
  induction 1 as [|ti ins [out Hout] _ [l IH]]; cbn [prevOuts]; [by eexists|]. unfold fetch. rewrite Hout, bind_Ok, IH, bind_Ok. by eexists.
Qed.
Lemma NewTxSigHashes_returns tx : fetchable FetchPrev (TxIns tx) -> returns (NewTxSigHashes FetchPrev tx).
Proof using.
  intros Hf. unfold NewTxSigHashes. destruct (scanInputs_returns (TxIns tx) Hf false false) as [[v0 v1] ->]. rewrite bind_Ok.
  destruct (prevOuts_returns (TxIns tx) Hf) as [outs Ho]. unfold calcHashInputAmounts, calcHashInputScripts.
  rewrite Ho. destruct v1; by eexists.
Qed.
End Midstates.

Section Checks.
Context {C : Crypto} (view : UtxoViewpoint) (Hview : view_ok view).

Lemma countP2SH_safe ins : Forall in_ok ins -> forall n, safe (countP2SH ins view n) (fun _ => True).
Proof using Hview.
  induction 1 as [|ti ins (Hs & _) _ IH]; intros n; cbn [countP2SH]; [done|].
  destruct (LookupEntry view _) as [e|] eqn:He; [|done]. destruct (IsSpent e); [done|]. destruct (negb _); [apply IH|].
  destruct (GetPreciseSigOpCount_returns (SignatureScript ti) (pkScript e) Hs (Hview _ _ He)) as [k ->]. cbn [noErr]. rewrite bind_Ok. cbn zeta.
  destruct (_ <? _); [done|apply IH].
Qed.

Lemma countWitness_safe ins : Forall in_ok ins -> forall n, safe (countWitness ins view n) (fun _ => True).
Proof using Hview.
  induction 1 as [|ti ins (Hs & Hw & _) _ IH]; intros n; cbn [countWitness]; [done|].
  destruct (LookupEntry view _) as [e|] eqn:He; [|done]. destruct (IsSpent e); [done|].
  destruct (GetWitnessSigOpCount_returns (SignatureScript ti) (pkScript e) (Witness ti) Hs (Hview _ _ He) Hw) as [k ->]. cbn [noErr]. rewrite bind_Ok. apply IH.
Qed.

Lemma GetSigOpCost_safe tx coinbase bip16 segwit : decoded tx -> safe (GetSigOpCost tx coinbase view bip16 segwit) (fun _ => True).
Proof using Hview.
  intros [Hok Hins]. unfold GetSigOpCost. rewrite (proj1 (CountSigOps_ok tx Hok)), bind_Ok. cbn zeta.
  assert (Hrest : forall n, safe (if segwit && negb coinbase then countWitness (TxIns tx) view n else Ok n) (fun _ => True))
    by (intros n; destruct (_ && _); [by apply countWitness_safe|done]).
  destruct bip16; [|apply Hrest]. unfold CountP2SHSigOps. destruct coinbase; [apply Hrest|].
  pose proof (countP2SH_safe (TxIns tx) Hins 0) as Hp. destruct (countP2SH _ _ _); [apply Hrest|done..].
Qed.

(** ** Standard inputs *)
Lemma inputsStandard_safe ins : Forall in_ok ins -> Forall (fun ti => is_Some (LookupEntry view (PreviousOutPoint ti))) ins ->
  safe (inputsStandard ins view) (fun _ => True).
Proof using Hview.
  induction 1 as [|ti ins (Hs & _) _ IH]; intros Hk; cbn [inputsStandard]; [done|]. apply list.Forall_cons in Hk as [[e He] Hk]. rewrite He.
  destruct (GetScriptClass_total (pkScript e) (proj1 (Hview _ _ He)) (proj2 (Hview _ _ He))) as [c ->]. cbn [ofScript]. rewrite bind_Ok.
  destruct c; try (by apply IH); try done.
  destruct (GetPreciseSigOpCount_returns (SignatureScript ti) (pkScript e) Hs (Hview _ _ He)) as [k ->]. cbn [ofScript]. rewrite bind_Ok.
  destruct (_ <? _); [done|by apply IH].
Qed.

(** ** Scripts *)
Context {L : HashLaws crypto_hashes}.
Context (fuel : nat) (flags : ScriptFlags) (sigCache : option SigCache).

Lemma knows_fetchable tx : knows view tx -> fetchable (FetchPrevOutput view) (TxIns tx).
Proof using. intros Hk. eapply list.Forall_impl; [exact Hk|]. intros ti [e He]. unfold FetchPrevOutput. rewrite He. by eexists. Qed.

(** One input: the midstates are at hand when it has a witness. *)
Lemma validateItem_safe tx ti i hashes : decoded tx -> knows view tx -> plain tx -> enough fuel tx ->
  TxIns tx !! Z.to_nat i = Some ti -> (is_Some hashes \/ Witness ti = []) ->
  safe (validateItem fuel view flags sigCache (mkItem i ti tx hashes)) (fun _ => True).
Proof using Hview L.
  intros [_ Hins] Hk Hp Hf Hti Hh. unfold validateItem. cbn [v_txIn v_tx v_txInIndex v_sigHashes].
  destruct (LookupEntry view (PreviousOutPoint ti)) as [e|] eqn:He; [|done].
  pose proof (Forall_lookup_1 _ _ _ _ Hins Hti) as (Hs & Hw & Hl & _). cbn beta in *.
  destruct (longest_bounds (Witness ti) Hw) as [HM Hlong].
  assert (Hspend : spend_ok (pkScript e) tx i flags hashes (FetchPrevOutput view)).
  { split; [apply (Hview _ _ He)|intros ti' Hti'; rewrite Hti in Hti'; injection Hti' as <-; by split_and!|by apply knows_fetchable|].
    intros _. destruct Hh as [?|Hw0]; [by left|right]. intros ti' Hti'. rewrite Hti in Hti'. by injection Hti' as <-. }
  pose proof (NewEngine_safe (longest (Witness ti)) HM (pkScript e) tx i flags sigCache hashes (amount e) (FetchPrevOutput view) Hspend) as Hnew.
  destruct (NewEngine _ _ _ _ _ _ _ _) as [vm| | |]; cbn [underCode]; [|done|exact (Hnew ltac:(intros ti' Hti'; rewrite Hti in Hti'; by injection Hti' as <-))..].
  destruct Hnew as [Hinv Hv0]; [intros ti' Hti'; rewrite Hti in Hti'; by injection Hti' as <-|].
  assert (Hvm : EngineRun.inv (longest (Witness ti)) vm).
  { apply Hinv, Hv0. intros ti' Hti'. rewrite Hti in Hti'. injection Hti' as <-. exact (Forall_lookup_1 _ _ _ _ Hp Hti). }
  rewrite bind_Ok. pose proof (Execute_safe _ HM fuel vm Hvm (Forall_lookup_1 _ _ _ _ Hf Hti)) as Hex.
  destruct (Execute fuel vm); done.
Qed.

Lemma HasWitness_input tx ti : HasWitness tx = false -> ti ∈ TxIns tx -> Witness ti = [].
Proof using.
  unfold HasWitness. intros Hw Hin. destruct (Witness ti) as [|b w] eqn:He; [done|]. exfalso. apply not_true_iff_false in Hw. apply Hw.
  apply existsb_exists. exists ti. split; [by apply list_elem_of_In|]. rewrite He. reflexivity.
Qed.

Lemma Validate_safe items : Forall (fun it => safe (validateItem fuel view flags sigCache it) (fun _ => True)) items ->
  safe (Validate fuel view flags sigCache items) (fun _ => True).
Proof using.
  induction 1 as [|it items Hit _ IH]; cbn [Validate]; [done|]. eapply safe_bind; [exact Hit|]. by intros _ _ _.
Qed.

(** The validation of the scripts of a transaction, for which the cache of
    midstates is there when the transaction has a witness. *)
Lemma ValidateTransactionScripts_safe tx h : decoded tx -> knows view tx -> plain tx -> enough fuel tx ->
  (segwitActive flags = true \/ HasWitness tx = false) -> is_Some h ->
  safe (ValidateTransactionScripts fuel view flags sigCache tx h) (fun r => is_Some r.2).
Proof using Hview L.
  intros Hd Hk Hp Hf Hseg [c ->]. unfold ValidateTransactionScripts.
  eapply safe_bind with (P := fun r => (is_Some r.1 \/ HasWitness tx = false) /\ is_Some r.2).
  { destruct (segwitActive flags && HasWitness tx) eqn:Hb.
    - eapply safe_bind with (P := fun c' => is_Some (GetSigHashes (TxHash tx) c')).
      + unfold ContainsHashes. case_bool_decide as Hc; [exact Hc|]. unfold AddSigHashes.
        destruct (NewTxSigHashes_returns (FetchPrevOutput view) tx (knows_fetchable tx Hk)) as [m ->]. cbn [noErr].
        rewrite bind_Ok. unfold GetSigHashes. cbn. rewrite lookup_insert_eq. by eexists.
      + intros c' _ Hc'. cbn. by split; [left|eexists].
    - cbn. split; [right|by eexists]. apply andb_false_iff in Hb as [Hb|Hb]; [|done]. destruct Hseg; congruence. }
  intros [hashes h'] _ [Hh Hh']. cbn [fst snd] in *.
  assert (Hv : safe (Validate fuel view flags sigCache (txItems tx hashes 0 (TxIns tx))) (fun _ => True)).
  { apply Validate_safe, list.Forall_forall. intros it (k & ti & Hti & _ & ->)%elem_of_txItems. apply validateItem_safe; try done.
    - by rewrite Z.add_0_l, Nat2Z.id.
    - destruct Hh as [?|Hw]; [by left|right]. apply (HasWitness_input tx); [done|]. by eapply list_elem_of_lookup_2. }
  destruct (Validate _ _ _ _ _); try done; cbn [returned]; by rewrite bind_Ok.
Qed.

(** The cache stays there. *)
Lemma ValidateTransactionScripts_cache tx h err h' : ValidateTransactionScripts fuel view flags sigCache tx h = Ok (err, h') ->
  is_Some h -> is_Some h'.
Proof using.
  unfold ValidateTransactionScripts. intros Hrun [c ->]. apply outcome_bind_ok in Hrun as ([hashes h1] & Hc & Hrun).
  apply outcome_bind_ok in Hrun as (e & _ & Hrun). injection Hrun as _ <-. destruct (_ && _); [|injection Hc as _ <-; by eexists].
  apply outcome_bind_ok in Hc as (c' & _ & Hc). injection Hc as _ <-. by eexists.
Qed.
End Checks.
End Returns.
