(* ===== verification/Mempool.v ===== *)
(** * The transaction pool

    Models coin/OrcaNet/mempool/mempool.go: the pool of transactions that
    wait for a block, the index of what they spend, the orphans that miss a
    parent with their index, replacement by fee, and the acceptance of a
    transaction.  The callers' functions of Config (the chain) are a record
    given to each call, so that the chain may change between calls.  The
    lock of the pool makes a call one step.

    What a call reads from outside the pool is a [World]: the readings of the
    clock and the order in which a range visits a map, one for each time it
    is asked, counted by [round].

    The address index and the fee estimator are off, as by default; the log
    is left out. *)

From Stdlib Require Import Floats.SpecFloat.
From S2P Require Import Prelude ScriptNum Wire Tokenizer Builder SigHash SigCheck Opcodes Engine Merkle Difficulty Utxo TxRules ScriptVal Deployments Standard MempoolPolicy.

Module Mempool.
Import ScriptNum Wire Tokenizer Builder SigHash SigCheck Opcodes Engine Merkle Difficulty Utxo TxRules ScriptVal Standard MempoolPolicy.

(** ** Constants and configuration *)
Definition Second := 1000000000.
Definition Minute := 60 * Second.
Definition DefaultBlockPrioritySize := 50000.
Definition orphanTTL := Minute * 15.
Definition orphanExpireScanInterval := Minute * 5.
Definition MaxRBFSequence := 0xfffffffd.
Definition MaxReplacementEvictions := 100.
Definition StandardVerifyFlags : ScriptFlags :=
  foldr Z.lor 0
    [ScriptBip16; ScriptVerifyDERSignatures; ScriptVerifyStrictEncoding; ScriptVerifyMinimalData; ScriptStrictMultiSig;
     ScriptDiscourageUpgradableNops; ScriptVerifyCleanStack; ScriptVerifyNullFail; ScriptVerifyCheckLockTimeVerify;
     ScriptVerifyCheckSequenceVerify; ScriptVerifyLowS; ScriptStrictMultiSig; ScriptVerifyWitness;
     ScriptVerifyDiscourageUpgradeableWitnessProgram; ScriptVerifyMinimalIf; ScriptVerifyWitnessPubKeyType;
     ScriptVerifyTaproot; ScriptVerifyDiscourageUpgradeableTaprootVersion; ScriptVerifyDiscourageOpSuccess;
     ScriptVerifyDiscourageUpgradeablePubkeyType].

Record Policy := mkPolicy {
  MaxTxVersion : Z;
  DisableRelayPriority : bool;
  AcceptNonStd : bool;
  FreeTxRelayLimit : float64;
  MaxOrphanTxs : Z;
  MaxOrphanTxSize : Z;
  MaxSigOpCostPerTx : Z;
  MinRelayTxFee : Z;
  RejectReplacement : bool;
}.

Record Config := mkConfig {
  policy : Policy;
  ChainParams : Params;
  FetchUtxoView : MsgTx -> outcome RuleError UtxoViewpoint;
  BestHeight : Z;
  MedianTimePast : Z;
  CalcSequenceLock : MsgTx -> UtxoViewpoint -> outcome RuleError SequenceLock;
  IsDeploymentActive : Z -> outcome RuleError bool;
}.

(** ** The state *)
Record TxDesc := mkDesc {
  d_Tx : MsgTx;
  Added : Z;
  Height : Z;
  Fee : Z;
  FeePerKB : Z;
  StartingPriority : float64;
}.

Record orphanTx := mkOrphanTx {
  o_tx : MsgTx;
  tag : Z;
  o_expiration : Z;
}.

Record TxPool := mkPool {
  lastUpdated : Z;
  pool : gmap (list Z) TxDesc;
  orphans : gmap (list Z) orphanTx;
  orphansByPrev : gmap OutPoint (gmap (list Z) MsgTx);
  outpoints : gmap OutPoint MsgTx;
  pennyTotal : float64;
  lastPennyUnix : Z;
  nextExpireScan : Z;
  (** cfg.HashCache, which the pool shares with the chain *)
  hashCache : option HashCache;
  round : nat;
}.

(** Readings of the clock, and the orders of ranges over maps. *)
Class World := {
  clock : nat -> Z;
  shuffle : nat -> forall {A : Type}, list A -> list A;
  shuffle_perm n A (l : list A) : shuffle n l ≡ₚ l;
}.

Record MempoolAcceptResult := mkResult {
  TxFee : Z;
  TxSize : Z;
  Conflicts : gmap (list Z) MsgTx;
  MissingParents : list (list Z);
  r_utxoView : UtxoViewpoint;
  r_bestHeight : Z;
}.

Section Pool.
Context {C : Crypto} {W : World}.

Abbreviation M A := (stateful PoolError TxPool A).

Definition setPool (m : gmap (list Z) TxDesc) (mp : TxPool) : TxPool :=
  mkPool (lastUpdated mp) m (orphans mp) (orphansByPrev mp) (outpoints mp) (pennyTotal mp) (lastPennyUnix mp)
    (nextExpireScan mp) (hashCache mp) (round mp).
Definition setOrphans (m : gmap (list Z) orphanTx) (mp : TxPool) : TxPool :=
  mkPool (lastUpdated mp) (pool mp) m (orphansByPrev mp) (outpoints mp) (pennyTotal mp) (lastPennyUnix mp)
    (nextExpireScan mp) (hashCache mp) (round mp).
Definition setOrphansByPrev (m : gmap OutPoint (gmap (list Z) MsgTx)) (mp : TxPool) : TxPool :=
  mkPool (lastUpdated mp) (pool mp) (orphans mp) m (outpoints mp) (pennyTotal mp) (lastPennyUnix mp)
    (nextExpireScan mp) (hashCache mp) (round mp).
Definition setOutpoints (m : gmap OutPoint MsgTx) (mp : TxPool) : TxPool :=
  mkPool (lastUpdated mp) (pool mp) (orphans mp) (orphansByPrev mp) m (pennyTotal mp) (lastPennyUnix mp)
    (nextExpireScan mp) (hashCache mp) (round mp).
Definition setLastUpdated (now : Z) (mp : TxPool) : TxPool :=
  mkPool now (pool mp) (orphans mp) (orphansByPrev mp) (outpoints mp) (pennyTotal mp) (lastPennyUnix mp)
    (nextExpireScan mp) (hashCache mp) (round mp).
Definition setPenny (total : float64) (now : Z) (mp : TxPool) : TxPool :=
  mkPool (lastUpdated mp) (pool mp) (orphans mp) (orphansByPrev mp) (outpoints mp) total now
    (nextExpireScan mp) (hashCache mp) (round mp).
Definition setNextExpireScan (t : Z) (mp : TxPool) : TxPool :=
  mkPool (lastUpdated mp) (pool mp) (orphans mp) (orphansByPrev mp) (outpoints mp) (pennyTotal mp) (lastPennyUnix mp)
    t (hashCache mp) (round mp).
Definition setHashCache (h : option HashCache) (mp : TxPool) : TxPool :=
  mkPool (lastUpdated mp) (pool mp) (orphans mp) (orphansByPrev mp) (outpoints mp) (pennyTotal mp) (lastPennyUnix mp)
    (nextExpireScan mp) h (round mp).
Definition tick (mp : TxPool) : TxPool :=
  mkPool (lastUpdated mp) (pool mp) (orphans mp) (orphansByPrev mp) (outpoints mp) (pennyTotal mp) (lastPennyUnix mp)
    (nextExpireScan mp) (hashCache mp) (S (round mp)).

(** time.Now(), in nanoseconds, and Unix of it *)
Definition Now : M Z := fun mp => (Ok (clock (round mp)), tick mp).
Definition Unix (t : Z) : Z := t / Second.

(** The elements of a map in the order of a range over it. *)
Definition ranging {A} (elements : TxPool -> list A) : M (list A) :=
  fun mp => (Ok (shuffle (round mp) (elements mp)), tick mp).

(** An error as a value. *)
Definition try {A} (m : M A) : M (A + PoolError) := fun mp =>
  match m mp with
  | (Ok a, mp) => (Ok (inl a), mp)
  | (Err e, mp) => (Ok (inr e), mp)
  | (Panic, mp) => (Panic, mp)
  | (Hang, mp) => (Hang, mp)
  end.

(** ** Orphans *)
Definition redeemersOf (prevOut : OutPoint) (mp : TxPool) : gmap (list Z) MsgTx := default ∅ (orphansByPrev mp !! prevOut).

(** The inner map of an outpoint, which is dropped when it is empty. *)
Definition unindex (txHash : list Z) (txIn : TxIn) (index : gmap OutPoint (gmap (list Z) MsgTx))
    : gmap OutPoint (gmap (list Z) MsgTx) :=
  match index !! PreviousOutPoint txIn with
  | Some orphans =>
      let orphans := delete txHash orphans in
      if decide (size orphans = 0%nat) then delete (PreviousOutPoint txIn) index else <[PreviousOutPoint txIn := orphans]> index
  | None => index
  end.

Definition unindexInputs (txHash : list Z) (ins : list TxIn) (mp : TxPool) : TxPool :=
  setOrphansByPrev (foldl (fun index txIn => unindex txHash txIn index) (orphansByPrev mp) ins) mp.

(** A range over the redeemers of an outpoint visits those that are still
    there when their turn comes. *)
Fixpoint forRedeemers (f : MsgTx -> M unit) (prevOut : OutPoint) (order : list (list Z * MsgTx)) : M unit :=
  match order with
  | [] => mret ()
  | (hash, orphan) :: order =>
      present ← gets (fun mp => redeemersOf prevOut mp !! hash);
      _ ← (match present with Some _ => f orphan | None => mret () end);
      forRedeemers f prevOut order
  end.
Definition rangeRedeemers (f : MsgTx -> M unit) (prevOut : OutPoint) : M unit :=
  order ← ranging (fun mp => map_to_list (redeemersOf prevOut mp));
  forRedeemers f prevOut order.

(** for txOutIdx := range outs *)
Fixpoint forOutputs (f : OutPoint -> M unit) (hash : list Z) (i : Z) (outs : list TxOut) : M unit :=
  match outs with
  | [] => mret ()
  | _ :: outs => _ ← f (mkOutPoint hash (u32 i)); forOutputs f hash (i + 1) outs
  end.

Fixpoint removeOrphanRec (fuel : nat) (tx : MsgTx) (removeRedeemers : bool) : M unit :=
  match fuel with
  | O => lift Hang
  | S fuel =>
      let txHash := TxHash tx in
      otx ← gets (fun mp => orphans mp !! txHash);
      match otx with
      | None => mret ()
      | Some otx =>
          _ ← modify (unindexInputs txHash (TxIns (o_tx otx)));
          _ ← (if removeRedeemers then
                 forOutputs (rangeRedeemers (fun orphan => removeOrphanRec fuel orphan true)) txHash 0 (TxOuts tx)
               else mret ());
          modify (fun mp => setOrphans (delete txHash (orphans mp)) mp)
      end
  end.

(** No call is deeper than the orphans there are. *)
Definition removeOrphan (tx : MsgTx) (removeRedeemers : bool) : M unit :=
  n ← gets (fun mp => size (orphans mp)); removeOrphanRec (S n) tx removeRedeemers.

Definition RemoveOrphan (tx : MsgTx) : M unit := removeOrphan tx false.

(** A range over the orphans, with what is still there. *)
Fixpoint forOrphans {A} (f : orphanTx -> A -> M A) (order : list (list Z * orphanTx)) (a : A) : M A :=
  match order with
  | [] => mret a
  | (hash, otx) :: order =>
      present ← gets (fun mp => orphans mp !! hash);
      a ← (match present with Some _ => f otx a | None => mret a end);
      forOrphans f order a
  end.
Definition rangeOrphans {A} (f : orphanTx -> A -> M A) (a : A) : M A :=
  order ← ranging (fun mp => map_to_list (orphans mp)); forOrphans f order a.

Definition RemoveOrphansByTag (t : Z) : M Z :=
  rangeOrphans (fun otx numEvicted =>
    if tag otx =? t then _ ← removeOrphan (o_tx otx) true; mret (u64 (numEvicted + 1)) else mret numEvicted) 0.

Definition expireOrphans (now : Z) : M unit :=
  rangeOrphans (fun otx _ => if o_expiration otx <? now then removeOrphan (o_tx otx) true else mret ()) ().

Definition limitNumOrphans (cfg : Config) : M unit :=
  now ← Now;
  due ← gets (fun mp => nextExpireScan mp <? now);
  _ ← (if due : bool then
         _ ← expireOrphans now; modify (setNextExpireScan (now + orphanExpireScanInterval))
       else mret ());
  numOrphans ← gets (fun mp => Z.of_nat (size (orphans mp)));
  if numOrphans + 1 <=? MaxOrphanTxs (policy cfg) then mret ()
  else
    order ← ranging (fun mp => map_to_list (orphans mp));
    match order with
    | [] => mret ()
    | (_, otx) :: _ => removeOrphan (o_tx otx) false
    end.

Definition indexInputs (tx : MsgTx) (mp : TxPool) : TxPool :=
  setOrphansByPrev
    (foldl (fun index txIn =>
              <[PreviousOutPoint txIn := <[TxHash tx := tx]> (default ∅ (index !! PreviousOutPoint txIn))]> index)
       (orphansByPrev mp) (TxIns tx)) mp.

Definition addOrphan (cfg : Config) (tx : MsgTx) (t : Z) : M unit :=
  if MaxOrphanTxs (policy cfg) <=? 0 then mret ()
  else
    _ ← limitNumOrphans cfg;
    now ← Now;
    _ ← modify (fun mp => setOrphans (<[TxHash tx := mkOrphanTx tx t (now + orphanTTL)]> (orphans mp)) mp);
    modify (indexInputs tx).

Definition maybeAddOrphan (cfg : Config) (tx : MsgTx) (t : Z) : M unit :=
  if MaxOrphanTxSize (policy cfg) <? SerializeSize tx then throw (TxRuleError RejectNonstandard)
  else addOrphan cfg tx t.

Fixpoint removeOrphanDoubleSpendsOf (ins : list TxIn) : M unit :=
  match ins with
  | [] => mret ()
  | txIn :: ins =>
      _ ← rangeRedeemers (fun orphan => removeOrphan orphan true) (PreviousOutPoint txIn);
      removeOrphanDoubleSpendsOf ins
  end.
Definition removeOrphanDoubleSpends (tx : MsgTx) : M unit := removeOrphanDoubleSpendsOf (TxIns tx).

Definition isTransactionInPool (hash : list Z) (mp : TxPool) : bool := bool_decide (is_Some (pool mp !! hash)).
Definition isOrphanInPool (hash : list Z) (mp : TxPool) : bool := bool_decide (is_Some (orphans mp !! hash)).
Definition haveTransaction (hash : list Z) (mp : TxPool) : bool := isTransactionInPool hash mp || isOrphanInPool hash mp.

(** ** The pool *)

(** Mark what a transaction spends as unspent, and as spent. *)
Definition freeInputs (tx : MsgTx) (m : gmap OutPoint MsgTx) : gmap OutPoint MsgTx :=
  foldl (fun m txIn => delete (PreviousOutPoint txIn) m) m (TxIns tx).
Definition takeInputs (tx : MsgTx) (m : gmap OutPoint MsgTx) : gmap OutPoint MsgTx :=
  foldl (fun m txIn => <[PreviousOutPoint txIn := tx]> m) m (TxIns tx).

Fixpoint removeTransactionRec (fuel : nat) (tx : MsgTx) (removeRedeemers : bool) : M unit :=
  match fuel with
  | O => lift Hang
  | S fuel =>
      let txHash := TxHash tx in
      _ ← (if removeRedeemers then
             forOutputs (fun prevOut =>
               txRedeemer ← gets (fun mp => outpoints mp !! prevOut);
               match txRedeemer with
               | Some txRedeemer => removeTransactionRec fuel txRedeemer true
               | None => mret ()
               end) txHash 0 (TxOuts tx)
           else mret ());
      txDesc ← gets (fun mp => pool mp !! txHash);
      match txDesc with
      | None => mret ()
      | Some txDesc =>
          _ ← modify (fun mp => setOutpoints (freeInputs (d_Tx txDesc) (outpoints mp)) mp);
          _ ← modify (fun mp => setPool (delete txHash (pool mp)) mp);
          now ← Now;
          modify (setLastUpdated (Unix now))
      end
  end.

Definition removeTransaction (tx : MsgTx) (removeRedeemers : bool) : M unit :=
  n ← gets (fun mp => size (pool mp)); removeTransactionRec (S n) tx removeRedeemers.

Definition RemoveTransaction (tx : MsgTx) (removeRedeemers : bool) : M unit := removeTransaction tx removeRedeemers.

Fixpoint removeDoubleSpendsOf (txHash : list Z) (ins : list TxIn) : M unit :=
  match ins with
  | [] => mret ()
  | txIn :: ins =>
      txRedeemer ← gets (fun mp => outpoints mp !! PreviousOutPoint txIn);
      _ ← (match txRedeemer with
           | Some txRedeemer => if bool_decide (TxHash txRedeemer = txHash) then mret () else removeTransaction txRedeemer true
           | None => mret ()
           end);
      removeDoubleSpendsOf txHash ins
  end.
Definition RemoveDoubleSpends (tx : MsgTx) : M unit := removeDoubleSpendsOf (TxHash tx) (TxIns tx).

Definition addTransaction (utxoView : UtxoViewpoint) (tx : MsgTx) (height fee : Z) : M TxDesc :=
  added ← Now;
  let txD := mkDesc tx added height fee (Z.quot (i64 (fee * 1000)) (GetTxVirtualSize tx)) (CalcPriority tx utxoView height) in
  _ ← modify (fun mp => setPool (<[TxHash tx := txD]> (pool mp)) mp);
  _ ← modify (fun mp => setOutpoints (takeInputs tx (outpoints mp)) mp);
  now ← Now;
  _ ← modify (setLastUpdated (Unix now));
  mret txD.

(** ** Replacement *)

(** The loop over the inputs of [signalsReplacement]; [rec] is the recursive
    call, which keeps the cache. *)
Fixpoint signalsLoop (rec : MsgTx -> gset (list Z) -> outcome PoolError (bool * gset (list Z))) (mp : TxPool)
    (ins : list TxIn) (cache : gset (list Z)) : outcome PoolError (bool * gset (list Z)) :=
  match ins with
  | [] => Ok (false, cache)
  | txIn :: ins =>
      if Sequence txIn <=? MaxRBFSequence then Ok (true, cache)
      else
        let hash := Hash (PreviousOutPoint txIn) in
        match pool mp !! hash with
        | None => signalsLoop rec mp ins cache
        | Some unconfirmedAncestor =>
            if bool_decide (hash ∈ cache) then signalsLoop rec mp ins cache
            else
              '(signals, cache) ← rec (d_Tx unconfirmedAncestor) cache;
              if signals : bool then Ok (true, cache) else signalsLoop rec mp ins ({[hash]} ∪ cache)
        end
  end.

Fixpoint signalsReplacementRec (fuel : nat) (mp : TxPool) (tx : MsgTx) (cache : gset (list Z))
    : outcome PoolError (bool * gset (list Z)) :=
  match fuel with
  | O => Hang
  | S fuel => signalsLoop (signalsReplacementRec fuel mp) mp (TxIns tx) cache
  end.

Definition signalsReplacement (mp : TxPool) (tx : MsgTx) : outcome PoolError bool :=
  '(signals, _) ← signalsReplacementRec (S (size (pool mp))) mp tx ∅; mret signals.

(** The maps of related transactions, with the cache of those computed. *)
Abbreviation txMap := (gmap (list Z) MsgTx).
Abbreviation txCache := (gmap (list Z) txMap).

Fixpoint ancestorsLoop (rec : MsgTx -> txCache -> outcome PoolError (txMap * txCache)) (mp : TxPool)
    (ins : list TxIn) (ancestors : txMap) (cache : txCache) : outcome PoolError (txMap * txCache) :=
  match ins with
  | [] => Ok (ancestors, cache)
  | txIn :: ins =>
      match pool mp !! Hash (PreviousOutPoint txIn) with
      | None => ancestorsLoop rec mp ins ancestors cache
      | Some parent =>
          let hash := TxHash (d_Tx parent) in
          let ancestors := <[hash := d_Tx parent]> ancestors in
          match cache !! hash with
          | Some moreAncestors => ancestorsLoop rec mp ins (moreAncestors ∪ ancestors) cache
          | None =>
              '(moreAncestors, cache) ← rec (d_Tx parent) cache;
              ancestorsLoop rec mp ins (moreAncestors ∪ ancestors) (<[hash := moreAncestors]> cache)
          end
      end
  end.

Fixpoint txAncestorsRec (fuel : nat) (mp : TxPool) (tx : MsgTx) (cache : txCache) : outcome PoolError (txMap * txCache) :=
  match fuel with
  | O => Hang
  | S fuel => ancestorsLoop (txAncestorsRec fuel mp) mp (TxIns tx) ∅ cache
  end.

Definition txAncestors (mp : TxPool) (tx : MsgTx) : outcome PoolError txMap :=
  '(ancestors, _) ← txAncestorsRec (S (size (pool mp))) mp tx ∅; mret ancestors.

Definition addByHash (more : txMap) (descendants : txMap) : txMap :=
  map_fold (fun _ moreDescendant descendants => <[TxHash moreDescendant := moreDescendant]> descendants) descendants more.

Fixpoint descendantsLoop (rec : MsgTx -> txCache -> outcome PoolError (txMap * txCache)) (mp : TxPool)
    (hash : list Z) (i : Z) (outs : list TxOut) (descendants : txMap) (cache : txCache) : outcome PoolError (txMap * txCache) :=
  match outs with
  | [] => Ok (descendants, cache)
  | _ :: outs =>
      match outpoints mp !! mkOutPoint hash (u32 i) with
      | None => descendantsLoop rec mp hash (i + 1) outs descendants cache
      | Some descendant =>
          let descendants := <[TxHash descendant := descendant]> descendants in
          match cache !! TxHash descendant with
          | Some moreDescendants => descendantsLoop rec mp hash (i + 1) outs (addByHash moreDescendants descendants) cache
          | None =>
              '(moreDescendants, cache) ← rec descendant cache;
              descendantsLoop rec mp hash (i + 1) outs (addByHash moreDescendants descendants)
                (<[TxHash descendant := moreDescendants]> cache)
          end
      end
  end.

Fixpoint txDescendantsRec (fuel : nat) (mp : TxPool) (tx : MsgTx) (cache : txCache) : outcome PoolError (txMap * txCache) :=
  match fuel with
  | O => Hang
  | S fuel => descendantsLoop (txDescendantsRec fuel mp) mp (TxHash tx) 0 (TxOuts tx) ∅ cache
  end.

Definition txDescendants (mp : TxPool) (tx : MsgTx) : outcome PoolError txMap :=
  '(descendants, _) ← txDescendantsRec (S (size (pool mp))) mp tx ∅; mret descendants.

Fixpoint conflictsLoop (mp : TxPool) (ins : list TxIn) (conflicts : txMap) : outcome PoolError txMap :=
  match ins with
  | [] => Ok conflicts
  | txIn :: ins =>
      match outpoints mp !! PreviousOutPoint txIn with
      | None => conflictsLoop mp ins conflicts
      | Some conflict =>
          descendants ← txDescendants mp conflict;
          conflictsLoop mp ins (descendants ∪ <[TxHash conflict := conflict]> conflicts)
      end
  end.
Definition txConflicts (mp : TxPool) (tx : MsgTx) : outcome PoolError txMap := conflictsLoop mp (TxIns tx) ∅.

Fixpoint poolDoubleSpends (cfg : Config) (mp : TxPool) (ins : list TxIn) (isReplacement : bool) : outcome PoolError bool :=
  match ins with
  | [] => Ok isReplacement
  | txIn :: ins =>
      match outpoints mp !! PreviousOutPoint txIn with
      | None => poolDoubleSpends cfg mp ins isReplacement
      | Some conflict =>
          if RejectReplacement (policy cfg) then Err (TxRuleError RejectDuplicate)
          else
            signals ← signalsReplacement mp conflict;
            if negb signals then Err (TxRuleError RejectDuplicate) else poolDoubleSpends cfg mp ins true
      end
  end.
Definition checkPoolDoubleSpend (cfg : Config) (mp : TxPool) (tx : MsgTx) : outcome PoolError bool :=
  poolDoubleSpends cfg mp (TxIns tx) false.

(** The loop over the conflicts: the sum of their fees and their parents.
    A conflict that is not in the pool would be a nil pointer. *)
Fixpoint conflictFees (mp : TxPool) (txFeeRate : Z) (conflicts : list (list Z * MsgTx)) (conflictsFee : Z)
    (conflictsParents : gset (list Z)) : outcome PoolError (Z * gset (list Z)) :=
  match conflicts with
  | [] => Ok (conflictsFee, conflictsParents)
  | (hash, conflict) :: conflicts =>
      match pool mp !! hash with
      | None => Panic
      | Some desc =>
          if txFeeRate <=? FeePerKB desc then Err (TxRuleError RejectInsufficientFee)
          else
            conflictFees mp txFeeRate conflicts (i64 (conflictsFee + Fee desc))
              (foldl (fun parents txIn => {[Hash (PreviousOutPoint txIn)]} ∪ parents) conflictsParents (TxIns conflict))
      end
  end.

(** The first loop over the inputs of the new transaction that finds a new
    unconfirmed parent. *)
Definition newUnconfirmed (mp : TxPool) (conflictsParents : gset (list Z)) (tx : MsgTx) : bool :=
  existsb (fun txIn =>
    negb (bool_decide (Hash (PreviousOutPoint txIn) ∈ conflictsParents))
    && bool_decide (is_Some (pool mp !! Hash (PreviousOutPoint txIn)))) (TxIns tx).

Definition validateReplacement (cfg : Config) (tx : MsgTx) (txFee : Z) : M txMap :=
  mp ← gets id;
  conflicts ← lift (txConflicts mp tx);
  if MaxReplacementEvictions <? Z.of_nat (size conflicts) then throw (TxRuleError RejectNonstandard)
  else
    ancestors ← lift (txAncestors mp tx);
    if existsb (fun p => bool_decide (is_Some (conflicts !! p.1))) (map_to_list ancestors) then throw (TxRuleError RejectInvalid)
    else
      let txSize := GetTxVirtualSize tx in
      let txFeeRate := Z.quot (i64 (txFee * 1000)) txSize in
      order ← ranging (fun _ => map_to_list conflicts);
      '(conflictsFee, conflictsParents) ← lift (conflictFees mp txFeeRate order 0 ∅);
      let minFee := calcMinRequiredTxRelayFee txSize (MinRelayTxFee (policy cfg)) in
      if txFee <? i64 (conflictsFee + minFee) then throw (TxRuleError RejectInsufficientFee)
      else if newUnconfirmed mp conflictsParents tx then throw (TxRuleError RejectInvalid)
      else mret conflicts.

(** ** Acceptance *)

(** The inputs of a transaction, those of the pool included. *)
Fixpoint poolInputs (mp : TxPool) (ins : list TxIn) (utxoView : UtxoViewpoint) : outcome PoolError UtxoViewpoint :=
  match ins with
  | [] => Ok utxoView
  | txIn :: ins =>
      let prevOut := PreviousOutPoint txIn in
      let known := match LookupEntry utxoView prevOut with Some entry => negb (IsSpent entry) | None => false end in
      if known then poolInputs mp ins utxoView
      else
        match pool mp !! Hash prevOut with
        | Some poolTxDesc =>
            utxoView ← ofChain (AddTxOut (d_Tx poolTxDesc) (Index prevOut) UnminedHeight utxoView);
            poolInputs mp ins utxoView
        | None => poolInputs mp ins utxoView
        end
  end.
Definition fetchInputUtxos (cfg : Config) (mp : TxPool) (tx : MsgTx) : outcome PoolError UtxoViewpoint :=
  utxoView ← ofChain (FetchUtxoView cfg tx); poolInputs mp (TxIns tx) utxoView.

(** The outputs of the transaction itself leave the view; one that is
    unspent there is a duplicate. *)
Fixpoint dropOwnOutputs (hash : list Z) (i : Z) (outs : list TxOut) (utxoView : UtxoViewpoint) : outcome PoolError UtxoViewpoint :=
  match outs with
  | [] => Ok utxoView
  | _ :: outs =>
      let prevOut := mkOutPoint hash (u32 i) in
      let unspent := match LookupEntry utxoView prevOut with Some entry => negb (IsSpent entry) | None => false end in
      if unspent then Err (TxRuleError RejectDuplicate) else dropOwnOutputs hash (i + 1) outs (RemoveEntry prevOut utxoView)
  end.

Definition missing (e : OutPoint * option UtxoEntry) : bool :=
  match e.2 with Some entry => IsSpent entry | None => true end.

Definition validateSegWitDeployment (cfg : Config) (tx : MsgTx) : outcome PoolError unit :=
  if negb (HasWitness tx) then Ok ()
  else
    match IsDeploymentActive cfg Deployments.DeploymentSegwit with
    | Ok true => Ok ()
    | Ok false => Err (TxRuleError RejectNonstandard)
    | Err e => Err (RawError e)
    | Panic => Panic
    | Hang => Hang
    end.

Definition validateStandardness (cfg : Config) (tx : MsgTx) (nextBlockHeight medianTimePast : Z) (utxoView : UtxoViewpoint)
    : outcome PoolError unit :=
  if AcceptNonStd (policy cfg) then Ok ()
  else
    _ ← retained (CheckTransactionStandard tx nextBlockHeight medianTimePast (MinRelayTxFee (policy cfg)) (MaxTxVersion (policy cfg)));
    retained (checkInputsStandard tx utxoView).

Definition validateSigCost (cfg : Config) (tx : MsgTx) (utxoView : UtxoViewpoint) : outcome PoolError unit :=
  sigOpCost ← ofChain (GetSigOpCost tx false utxoView true true);
  if sigOpCost <=? MaxSigOpCostPerTx (policy cfg) then Ok () else Err (TxRuleError RejectNonstandard).

(** math.Pow, whose rounding its documentation leaves open. *)
Context (Pow : float64 -> float64 -> float64).

(** The decaying total of free transactions; 1.0-1.0/600.0 is a constant,
    rounded once. *)
Definition rateLimiter (cfg : Config) (txSize : Z) : M unit :=
  now ← Now;
  let nowUnix := Unix now in
  mp ← gets id;
  let decay := Pow (fdiv (float_of 599) (float_of 600)) (float_of (i64 (nowUnix - lastPennyUnix mp))) in
  let total := fmul (pennyTotal mp) decay in
  _ ← modify (setPenny total nowUnix);
  let limit := fmul (fmul (FreeTxRelayLimit (policy cfg)) (float_of 10)) (float_of 1000) in
  if SFleb limit total then throw (TxRuleError RejectInsufficientFee)
  else modify (setPenny (fadd total (float_of txSize)) nowUnix).

Definition validateRelayFeeMet (cfg : Config) (tx : MsgTx) (txFee txSize : Z) (utxoView : UtxoViewpoint)
    (nextBlockHeight : Z) (isNew rateLimit : bool) : M unit :=
  let minFee := calcMinRequiredTxRelayFee txSize (MinRelayTxFee (policy cfg)) in
  if (DefaultBlockPrioritySize - 1000 <=? txSize) && (txFee <? minFee) then throw (TxRuleError RejectInsufficientFee)
  else if minFee <=? txFee then mret ()
  else if negb isNew && negb rateLimit then mret ()
  else if isNew && negb (DisableRelayPriority (policy cfg))
          && SFleb (CalcPriority tx utxoView nextBlockHeight) MinHighPriority
  then throw (TxRuleError RejectInsufficientFee)
  else rateLimiter cfg txSize.

(** The steps an engine may take, and the signature cache of the
    configuration. *)
Context (fuel : nat) (sigCache : option SigCache).

Definition validateScripts (tx : MsgTx) (utxoView : UtxoViewpoint) : M unit :=
  h ← gets hashCache;
  '(err, h) ← lift (ofChain (ValidateTransactionScripts fuel utxoView StandardVerifyFlags sigCache tx h));
  _ ← modify (setHashCache h);
  match err with
  | Some e => throw (chainRuleError e)
  | None => mret ()
  end.

(** The checks after the inputs are known to be there. *)
Definition checkComplete (cfg : Config) (tx : MsgTx) (isReplacement isNew rateLimit : bool) (utxoView : UtxoViewpoint)
    : M MempoolAcceptResult :=
  let bestHeight := BestHeight cfg in
  let nextBlockHeight := i32 (bestHeight + 1) in
  let medianTimePast := MedianTimePast cfg in
  txFee ← lift (ofChain (CheckTransactionInputs tx nextBlockHeight utxoView (ChainParams cfg)));
  _ ← lift (validateStandardness cfg tx nextBlockHeight medianTimePast utxoView);
  sequenceLock ← lift (ofChain (CalcSequenceLock cfg tx utxoView));
  if negb (SequenceLockActive sequenceLock nextBlockHeight medianTimePast) then throw (TxRuleError RejectNonstandard)
  else
    _ ← lift (validateSigCost cfg tx utxoView);
    let txSize := GetTxVirtualSize tx in
    _ ← validateRelayFeeMet cfg tx txFee txSize utxoView nextBlockHeight isNew rateLimit;
    conflicts ← (if isReplacement : bool then validateReplacement cfg tx txFee else mret ∅);
    _ ← validateScripts tx utxoView;
    mret (mkResult txFee txSize conflicts [] utxoView bestHeight).

Definition checkMempoolAcceptance (cfg : Config) (tx : MsgTx) (isNew rateLimit rejectDupOrphans : bool)
    : M MempoolAcceptResult :=
  let txHash := TxHash tx in
  _ ← lift (validateSegWitDeployment cfg tx);
  duplicate ← gets (fun mp => isTransactionInPool txHash mp || (rejectDupOrphans && isOrphanInPool txHash mp));
  if duplicate : bool then throw (TxRuleError RejectDuplicate)
  else
    _ ← lift (ofChain (CheckTransactionSanity tx));
    if IsCoinBaseTx tx then throw (TxRuleError RejectInvalid)
    else
      mp ← gets id;
      isReplacement ← lift (checkPoolDoubleSpend cfg mp tx);
      utxoView ← lift (fetchInputUtxos cfg mp tx);
      utxoView ← lift (dropOwnOutputs txHash 0 (TxOuts tx) utxoView);
      order ← ranging (fun _ => map_to_list (entries utxoView));
      let missingParents := (fun e => Hash e.1) <$> filter (fun e => missing e = true) order in
      if 0 <? Zlen missingParents then mret (mkResult 0 0 ∅ missingParents NewUtxoViewpoint 0)
      else checkComplete cfg tx isReplacement isNew rateLimit utxoView.

Definition CheckMempoolAcceptance (cfg : Config) (tx : MsgTx) : M MempoolAcceptResult :=
  checkMempoolAcceptance cfg tx true true true.

(** The log line reads the descriptor of each conflict, which would be a nil
    pointer if it were not in the pool. *)
Fixpoint removeConflicts (conflicts : list (list Z * MsgTx)) : M unit :=
  match conflicts with
  | [] => mret ()
  | (_, conflict) :: conflicts =>
      desc ← gets (fun mp => pool mp !! TxHash conflict);
      match desc with
      | None => lift Panic
      | Some _ => _ ← removeTransaction conflict false; removeConflicts conflicts
      end
  end.

(** The missing parents, or none and the descriptor. *)
Definition maybeAcceptTransaction (cfg : Config) (tx : MsgTx) (isNew rateLimit rejectDupOrphans : bool)
    : M (list (list Z) * option TxDesc) :=
  r ← checkMempoolAcceptance cfg tx isNew rateLimit rejectDupOrphans;
  if 0 <? Zlen (MissingParents r) then mret (MissingParents r, None)
  else
    order ← ranging (fun _ => map_to_list (Conflicts r));
    _ ← removeConflicts order;
    txD ← addTransaction (r_utxoView r) tx (r_bestHeight r) (TxFee r);
    mret ([], Some txD).

Definition MaybeAcceptTransaction (cfg : Config) (tx : MsgTx) (isNew rateLimit : bool) : M (list (list Z) * option TxDesc) :=
  maybeAcceptTransaction cfg tx isNew rateLimit true.

(** ** Orphans that are orphans no longer *)

(** The redeemers of one output: until one is accepted, which is then
    returned, or one is refused. *)
Fixpoint tryOrphans (cfg : Config) (order : list (list Z * MsgTx)) : M (option (MsgTx * TxDesc)) :=
  match order with
  | [] => mret None
  | (_, tx) :: order =>
      r ← try (maybeAcceptTransaction cfg tx true true false);
      match r with
      | inr _ => _ ← removeOrphan tx true; mret None
      | inl (_, None) => tryOrphans cfg order
      | inl (_, Some txD) => _ ← removeOrphan tx false; mret (Some (tx, txD))
      end
  end.

(** The outputs of one transaction. *)
Fixpoint tryOutputs (cfg : Config) (hash : list Z) (i : Z) (outs : list TxOut) : M (list (MsgTx * TxDesc)) :=
  match outs with
  | [] => mret []
  | _ :: outs =>
      order ← ranging (fun mp => map_to_list (redeemersOf (mkOutPoint hash (u32 i)) mp));
      accepted ← tryOrphans cfg order;
      more ← tryOutputs cfg hash (i + 1) outs;
      mret (option_list accepted ++ more)
  end.

Fixpoint processList (fuel : nat) (cfg : Config) (items : list MsgTx) (acceptedTxns : list TxDesc) : M (list TxDesc) :=
  match items with
  | [] => mret acceptedTxns
  | processItem :: items =>
      match fuel with
      | O => lift Hang
      | S fuel =>
          accepted ← tryOutputs cfg (TxHash processItem) 0 (TxOuts processItem);
          processList fuel cfg (items ++ (fst <$> accepted)) (acceptedTxns ++ (snd <$> accepted))
      end
  end.

Fixpoint removeAllDoubleSpends (txs : list MsgTx) : M unit :=
  match txs with
  | [] => mret ()
  | tx :: txs => _ ← removeOrphanDoubleSpends tx; removeAllDoubleSpends txs
  end.

(** The fuel is one more than the orphans, each of which can be accepted
    once. *)
Definition processOrphans (cfg : Config) (acceptedTx : MsgTx) : M (list TxDesc) :=
  n ← gets (fun mp => size (orphans mp));
  acceptedTxns ← processList (S n) cfg [acceptedTx] [];
  _ ← removeAllDoubleSpends (acceptedTx :: (d_Tx <$> acceptedTxns));
  mret acceptedTxns.

Definition ProcessOrphans (cfg : Config) (acceptedTx : MsgTx) : M (list TxDesc) := processOrphans cfg acceptedTx.

Definition ProcessTransaction (cfg : Config) (tx : MsgTx) (allowOrphan rateLimit : bool) (t : Z) : M (list TxDesc) :=
  '(missingParents, txD) ← maybeAcceptTransaction cfg tx true rateLimit true;
  if Zlen missingParents =? 0 then
    newTxs ← processOrphans cfg tx;
    mret (option_list txD ++ newTxs)
  else if negb allowOrphan then throw (TxRuleError RejectDuplicate)
  else _ ← maybeAddOrphan cfg tx t; mret [].

(** ** Queries and the new pool *)
Definition CheckSpend (op : OutPoint) (mp : TxPool) : option MsgTx := outpoints mp !! op.
Definition FetchTransaction (txHash : list Z) (mp : TxPool) : option MsgTx := d_Tx <$> pool mp !! txHash.
Definition Count (mp : TxPool) : Z := Z.of_nat (size (pool mp)).
Definition TxHashes : M (list (list Z)) := order ← ranging (fun mp => map_to_list (pool mp)); mret (fst <$> order).
Definition TxDescs : M (list TxDesc) := order ← ranging (fun mp => map_to_list (pool mp)); mret (snd <$> order).

(** The parents of an entry that the pool knows (RawMempoolVerbose). *)
Definition Depends (mp : TxPool) (tx : MsgTx) : list (list Z) :=
  filter (fun hash => haveTransaction hash mp = true) ((fun txIn => Hash (PreviousOutPoint txIn)) <$> TxIns tx).

Definition New (h : option HashCache) (now : Z) : TxPool :=
  mkPool 0 ∅ ∅ ∅ ∅ (float_of 0) 0 (now + orphanExpireScanInterval) h 0.

End Pool.
End Mempool.
