(* ===== verification/MempoolInv.v ===== *)
(** * The invariant of the transaction pool

    What every operation of [Mempool] keeps: the pool holds its transactions
    under their hashes and the index of spent outpoints is exactly what they
    spend, so that no two of them spend the same coin; the orphans and the
    index by the outputs they wait for agree, and there are never more of
    them than the policy allows.  Every operation ends: the recursion over
    the transactions that build on a removed one, over the orphans that
    build on an orphan, and the list of orphans to accept, all stop within
    the fuel they are given.

    A walk along the pool stops because a transaction names its parents by
    hash.  This is the hypothesis [ranked] on the transactions that come:
    the hashes can be ordered so that parents come before children. *)

From S2P Require Import Prelude ScriptNum Wire Tokenizer Builder SigHash SigCheck Opcodes Engine Merkle Difficulty Utxo TxRules ScriptVal Standard MempoolPolicy Mempool.

Module MempoolInv.
Import ScriptNum Wire Tokenizer Builder SigHash SigCheck Opcodes Engine Merkle Difficulty Utxo TxRules ScriptVal Standard MempoolPolicy Mempool.

Definition spends (tx : MsgTx) : list OutPoint := PreviousOutPoint <$> TxIns tx.

(** ** The maps that the inputs of a transaction change *)
Section Index.

Lemma freeInputs_lookup tx m op : freeInputs tx m !! op = if decide (op ∈ spends tx) then None else m !! op.
Proof.
  unfold freeInputs, spends. revert m. induction (TxIns tx) as [|ti ins IH]; intros m; cbn [foldl fmap list_fmap].
  { by rewrite decide_False by (by intros ?%not_elem_of_nil). }
  rewrite IH. destruct (decide (op ∈ PreviousOutPoint <$> ins)) as [Hin|Hin].
  - by rewrite decide_True by (by right).
  - destruct (decide (op = PreviousOutPoint ti)) as [->|Hne].
    + rewrite decide_True by (by left). apply lookup_delete_eq.
    + rewrite decide_False by (by intros [?|?]%list.elem_of_cons). by apply lookup_delete_ne.
Qed.

Lemma takeInputs_lookup tx m op : takeInputs tx m !! op = if decide (op ∈ spends tx) then Some tx else m !! op.
Proof.
  unfold takeInputs, spends. revert m. induction (TxIns tx) as [|ti ins IH]; intros m; cbn [foldl fmap list_fmap].
  { by rewrite decide_False by (by intros ?%not_elem_of_nil). }
  rewrite IH. destruct (decide (op ∈ PreviousOutPoint <$> ins)) as [Hin|Hin].
  - by rewrite decide_True by (by right).
  - destruct (decide (op = PreviousOutPoint ti)) as [->|Hne].
    + rewrite decide_True by (by left). apply lookup_insert_eq.
    + rewrite decide_False by (by intros [?|?]%list.elem_of_cons). by apply lookup_insert_ne.
Qed.

(** The orphans that wait for an outpoint, and no entry without any. *)
Abbreviation index := (gmap OutPoint (gmap (list Z) MsgTx)).
Definition waiting (m : index) (op : OutPoint) (h : list Z) : option MsgTx := m !! op ≫= fun w => w !! h.
Definition no_empty (m : index) : Prop := map_Forall (fun _ (w : gmap (list Z) MsgTx) => w <> ∅) m.

Lemma waiting_redeemers mp op h : redeemersOf op mp !! h = waiting (orphansByPrev mp) op h.
Proof. unfold redeemersOf, waiting. by destruct (orphansByPrev mp !! op); cbn. Qed.

Lemma unindex_waiting h ti m op h' :
  waiting (unindex h ti m) op h' = if decide (h' = h /\ op = PreviousOutPoint ti) then None else waiting m op h'.
Proof.
  unfold unindex, waiting. destruct (m !! PreviousOutPoint ti) as [w|] eqn:Hw.
  - destruct (decide (op = PreviousOutPoint ti)) as [->|Hne].
    + assert (Hd : (if decide (size (delete h w) = 0%nat) then delete (PreviousOutPoint ti) m
                    else <[PreviousOutPoint ti := delete h w]> m) !! PreviousOutPoint ti ≫= (fun w => w !! h') = delete h w !! h').
      { destruct (decide _) as [Hz|Hz].
        - apply map_size_empty_inv in Hz. by rewrite lookup_delete_eq, Hz, lookup_empty.
        - by rewrite lookup_insert_eq. }
      rewrite Hd, Hw. cbn. destruct (decide (h' = h)) as [->|Hne].
      * by rewrite decide_True, lookup_delete_eq by done.
      * by rewrite decide_False, lookup_delete_ne by naive_solver.
    + rewrite (decide_False (P := h' = h /\ _)) by naive_solver.
      destruct (decide _); by rewrite ?lookup_delete_ne, ?lookup_insert_ne by done.
  - destruct (decide _) as [[-> ->]|]; [by rewrite Hw|done].
Qed.

Lemma unindex_no_empty h ti m : no_empty m -> no_empty (unindex h ti m).
Proof.
  intros Hm. unfold unindex. destruct (m !! PreviousOutPoint ti) as [w|]; [|done]. destruct (decide _) as [Hz|Hz].
  - by apply map_Forall_delete.
  - apply map_Forall_insert_2; [|done]. intros He. by rewrite He, map_size_empty in Hz.
Qed.

Lemma unindexInputs_spec h tx mp :
  (forall op h', waiting (orphansByPrev (unindexInputs h (TxIns tx) mp)) op h' =
    if decide (h' = h /\ op ∈ spends tx) then None else waiting (orphansByPrev mp) op h') /\
  (no_empty (orphansByPrev mp) -> no_empty (orphansByPrev (unindexInputs h (TxIns tx) mp))).
Proof.
  unfold unindexInputs, spends. cbn [orphansByPrev setOrphansByPrev]. generalize (orphansByPrev mp).
  induction (TxIns tx) as [|ti ins IH]; intros m; cbn [foldl fmap list_fmap].
  - split; [|done]. intros op h'. rewrite decide_False; [done|]. by intros [_ ?%not_elem_of_nil].
  - destruct (IH (unindex h ti m)) as [IH1 IH2]. split; [|intros Hm; by apply IH2, unindex_no_empty].
    intros op h'. rewrite IH1, unindex_waiting.
    destruct (decide (h' = h /\ op ∈ PreviousOutPoint <$> ins)) as [[-> Hin]|Hn1].
    + rewrite decide_True; [done|]. split; [done|by right].
    + destruct (decide (h' = h /\ op = PreviousOutPoint ti)) as [[-> ->]|Hn2].
      * rewrite decide_True; [done|]. split; [done|by left].
      * rewrite decide_False; [done|]. intros [-> [->|Hin]%list.elem_of_cons]; naive_solver.
Qed.

Lemma indexInputs_spec {C : Crypto} tx mp :
  (forall op h', waiting (orphansByPrev (indexInputs tx mp)) op h' =
    if decide (h' = TxHash tx /\ op ∈ spends tx) then Some tx else waiting (orphansByPrev mp) op h') /\
  (no_empty (orphansByPrev mp) -> no_empty (orphansByPrev (indexInputs tx mp))).
Proof.
  unfold indexInputs, spends. cbn [orphansByPrev setOrphansByPrev]. generalize (orphansByPrev mp).
  induction (TxIns tx) as [|ti ins IH]; intros m; cbn [foldl fmap list_fmap].
  - split; [|done]. intros op h'. rewrite decide_False; [done|]. by intros [_ ?%not_elem_of_nil].
  - set (m1 := <[_ := _]> m). destruct (IH m1) as [IH1 IH2]. split.
    + intros op h'. rewrite IH1.
      assert (Hm1 : waiting m1 op h' = if decide (h' = TxHash tx /\ op = PreviousOutPoint ti) then Some tx else waiting m op h').
      { unfold waiting, m1. destruct (decide (op = PreviousOutPoint ti)) as [->|Hne].
        - rewrite lookup_insert_eq. cbn. destruct (decide (h' = TxHash tx)) as [->|Hne].
          + by rewrite decide_True, lookup_insert_eq by done.
          + rewrite decide_False, lookup_insert_ne by naive_solver. by destruct (m !! PreviousOutPoint ti).
        - rewrite lookup_insert_ne by done. by rewrite decide_False by naive_solver. }
      rewrite Hm1. destruct (decide (h' = TxHash tx /\ op ∈ PreviousOutPoint <$> ins)) as [[-> Hin]|Hn1].
      * rewrite decide_True; [done|]. split; [done|by right].
      * destruct (decide (h' = TxHash tx /\ op = PreviousOutPoint ti)) as [[-> ->]|Hn2].
        -- rewrite decide_True; [done|]. split; [done|by left].
        -- rewrite decide_False; [done|]. intros [-> [->|Hin]%list.elem_of_cons]; naive_solver.
    + intros Hm. apply IH2, map_Forall_insert_2; [|done]. intros He.
      apply (f_equal (fun w => w !! TxHash tx)) in He. by rewrite lookup_insert_eq, lookup_empty in He.
Qed.

End Index.

Section Invariant.
Context {C : Crypto} {W : World}.

(** ** Steps of a call *)
Section Steps.
Context (B : Prop) (P : PoolError -> TxPool -> Prop) {A : Type} (Q : A -> TxPool -> Prop).

Lemma ends_gets {D} (f : TxPool -> D) (k : D -> stateful PoolError TxPool A) mp :
  ends B P Q (k (f mp)) mp -> ends B P Q (gets f ≫= k) mp.
Proof using. done. Qed.
Lemma ends_modify (f : TxPool -> TxPool) (k : () -> stateful PoolError TxPool A) mp :
  ends B P Q (k ()) (f mp) -> ends B P Q (modify f ≫= k) mp.
Proof using. done. Qed.
Lemma ends_now (k : Z -> stateful PoolError TxPool A) mp :
  (forall t, ends B P Q (k t) (tick mp)) -> ends B P Q (Now ≫= k) mp.
Proof using. intros H. apply H. Qed.
Lemma ends_ranging {D} (elements : TxPool -> list D) (k : list D -> stateful PoolError TxPool A) mp :
  (forall order, order ≡ₚ elements mp -> ends B P Q (k order) (tick mp)) -> ends B P Q (ranging elements ≫= k) mp.
Proof using. intros H. apply H, shuffle_perm. Qed.
End Steps.

(** A loop keeps what its body keeps. *)
Section Loops.
Context (I : TxPool -> Prop) (B : Prop) (P : PoolError -> TxPool -> Prop).

Lemma forOutputs_ends (f : OutPoint -> stateful PoolError TxPool ()) hash outs :
  (forall op mp, I mp -> ends B P (fun _ => I) (f op) mp) ->
  forall i mp, I mp -> ends B P (fun _ => I) (forOutputs f hash i outs) mp.
Proof using.
  intros Hf. induction outs as [|o outs IH]; intros i mp HI; cbn [forOutputs]; [done|].
  apply (ends_step _ _ (fun _ => I)); [by apply Hf|]. intros ? mp' HI'. by apply IH.
Qed.

Lemma forRedeemers_ends (f : MsgTx -> stateful PoolError TxPool ()) (K : list Z * MsgTx -> Prop) op :
  (forall h tx mp, I mp -> K (h, tx) -> ends B P (fun _ => I) (f tx) mp) ->
  forall order mp, I mp -> Forall K order -> ends B P (fun _ => I) (forRedeemers f op order) mp.
Proof using.
  intros Hf order. induction order as [|[h tx] order IH]; intros mp HI HK; cbn [forRedeemers]; [done|].
  apply list.Forall_cons in HK as [Hk HK]. apply ends_gets.
  apply (ends_step _ _ (fun _ => I)); [|intros ? mp' HI'; by apply IH].
  destruct (redeemersOf op mp !! h); [by apply (Hf h)|exact HI].
Qed.

Lemma forOrphans_ends {A} (f : orphanTx -> A -> stateful PoolError TxPool A) :
  (forall o a mp, I mp -> ends B P (fun _ => I) (f o a) mp) ->
  forall order a mp, I mp -> ends B P (fun _ => I) (forOrphans f order a) mp.
Proof using.
  intros Hf order. induction order as [|[h o] order IH]; intros a mp HI; cbn [forOrphans]; [done|].
  apply ends_gets. apply (ends_step _ _ (fun _ => I)); [|intros a' mp' HI'; by apply IH].
  destruct (orphans mp !! h); [by apply Hf|exact HI].
Qed.
End Loops.

(** ** Orphans *)

(** The orphans and their index agree, but for those in [S], which are no
    longer indexed. *)
Record orphan_inv (S : gset (list Z)) (mp : TxPool) : Prop := {
  oi_hash : forall h o, orphans mp !! h = Some o -> TxHash (o_tx o) = h;
  oi_index : forall op h tx, waiting (orphansByPrev mp) op h = Some tx <->
    h ∉ S /\ exists o, orphans mp !! h = Some o /\ o_tx o = tx /\ op ∈ spends tx;
  oi_empty : no_empty (orphansByPrev mp);
}.

Record sameTxs (mp mp' : TxPool) : Prop := {
  st_pool : pool mp' = pool mp;
  st_outpoints : outpoints mp' = outpoints mp;
  st_cache : is_Some (hashCache mp) -> is_Some (hashCache mp');
}.
#[export] Instance sameTxs_preorder : PreOrder sameTxs.
Proof. split; [by split|]. intros a b c [H1 H2 H3] [H4 H5 H6]. split; [congruence|congruence|auto]. Qed.

(** Orphans were removed, those in [S] excepted. *)
Record shrunk (S : gset (list Z)) (mp mp' : TxPool) : Prop := {
  sh_orphans : orphans mp' ⊆ orphans mp;
  sh_kept : forall h, h ∈ S -> orphans mp' !! h = orphans mp !! h;
  sh_txs : sameTxs mp mp';
}.
#[export] Instance shrunk_preorder S : PreOrder (shrunk S).
Proof.
  split; [by split|]. intros a b c [H1 H2 H3] [H4 H5 H6]. split; [by etrans| |by etrans].
  intros h Hh. by rewrite H5, H2.
Qed.

Lemma shrunk_weaken S S' mp mp' : S ⊆ S' -> shrunk S' mp mp' -> shrunk S mp mp'.
Proof. intros HS [H1 H2 H3]. split; [done| |done]. intros h Hh. by apply H2, HS. Qed.

Lemma orphan_inv_tick S mp : orphan_inv S mp -> orphan_inv S (tick mp).
Proof. by intros [H1 H2 H3]. Qed.
Lemma shrunk_tick S mp mp' : shrunk S mp mp' -> shrunk S mp (tick mp').
Proof. intros [H1 H2 [H3 H4 H5]]. by split; [..|split]. Qed.

(** Taking an orphan out of the index. *)
Lemma orphan_inv_unindex S mp h o : orphan_inv S mp -> orphans mp !! h = Some o ->
  orphan_inv ({[h]} ∪ S) (unindexInputs h (TxIns (o_tx o)) mp).
Proof.
  intros [Hh Hi He] Ho. destruct (unindexInputs_spec h (o_tx o) mp) as [Hw Hne]. split; [exact Hh| |by apply Hne].
  intros op h' tx. rewrite Hw. change (orphans (unindexInputs _ _ _)) with (orphans mp).
  destruct (decide (h' = h /\ op ∈ spends (o_tx o))) as [[-> Hop]|Hn].
  - split; [done|]. intros [Hn _]. set_solver.
  - rewrite Hi. split.
    + intros [HS (o' & Ho' & Htx & Hop)]. split; [|by exists o'].
      intros [->%elem_of_singleton|?]%elem_of_union; [|done]. apply Hn. split; [done|]. rewrite Ho in Ho'. by injection Ho' as ->; subst.
    + intros [HS Hex]. split; [set_solver|done].
Qed.

(** And out of the pool of orphans. *)
Lemma orphan_inv_delete S mp h : h ∉ S -> orphan_inv ({[h]} ∪ S) mp -> orphan_inv S (setOrphans (delete h (orphans mp)) mp).
Proof.
  intros HhS [Hh Hi He]. split; [|intros op h' tx|exact He].
  - intros h' o Ho. cbn in Ho. apply lookup_delete_Some in Ho as [_ Ho]. by apply Hh.
  - change (orphansByPrev (setOrphans _ _)) with (orphansByPrev mp). rewrite Hi. cbn [orphans setOrphans]. split.
    + intros [HS (o & Ho & Hr)]. split; [set_solver|]. exists o. split; [|done]. rewrite lookup_delete_ne; [done|]. set_solver.
    + intros [HS (o & [Hne Ho]%lookup_delete_Some & Hr)]. split; [set_solver|]. by exists o.
Qed.

Lemma removeOrphanRec_runs fuel : forall S tx redeemers mp, orphan_inv S mp -> TxHash tx ∉ S ->
  (size (dom (orphans mp) ∖ S) < fuel)%nat ->
  runs (fun _ mp' => orphan_inv S mp' /\ shrunk S mp mp' /\ orphans mp' !! TxHash tx = None)
    (removeOrphanRec fuel tx redeemers) mp.
Proof.
  induction fuel as [|fuel IH]; intros S tx redeemers mp Hinv HS Hf; [lia|]. cbn [removeOrphanRec]. apply ends_gets.
  destruct (orphans mp !! TxHash tx) as [otx|] eqn:Hotx; [|by split_and!; [|done|]].
  apply ends_modify. set (mp1 := unindexInputs _ _ mp). set (S' := {[TxHash tx]} ∪ S).
  pose proof (orphan_inv_unindex S mp _ otx Hinv Hotx) as Hinv1. fold mp1 S' in Hinv1.
  assert (Hsize : (size (dom (orphans mp) ∖ S') < fuel)%nat).
  { enough (size (dom (orphans mp) ∖ S') < size (dom (orphans mp) ∖ S))%nat by lia.
    apply subset_size. split; [set_solver|]. intros Hsub.
    assert (Hin : TxHash tx ∈ dom (orphans mp) ∖ S) by (apply elem_of_difference; split; [by apply elem_of_dom; eexists|done]).
    apply Hsub in Hin. set_solver. }
  eapply (ends_step _ _ (fun _ mp' => orphan_inv S' mp' /\ shrunk S' mp1 mp')).
  - destruct redeemers; [|by split]. apply (forOutputs_ends (fun mp' => orphan_inv S' mp' /\ shrunk S' mp1 mp')); [|by split].
    intros op mp2 [Hinv2 Hsh2]. unfold rangeRedeemers. apply ends_ranging. intros order Hord.
    apply (forRedeemers_ends (fun mp' => orphan_inv S' mp' /\ shrunk S' mp1 mp') _ _ _
      (fun p => TxHash p.2 ∉ S')).
    + intros h orphan mp3 [Hinv3 Hsh3] Hk. eapply runs_ends, runs_mono; [apply (IH S'); [done|done|]|].
      * eapply Nat.le_lt_trans; [|exact Hsize]. apply subseteq_size. pose proof (subseteq_dom _ _ (sh_orphans _ _ _ Hsh3)) as Hd.
        change (orphans mp1) with (orphans mp) in Hd. set_solver.
      * intros _ mp4 (H1 & H2 & _). split; [done|by etrans].
    + split; [by apply orphan_inv_tick|by apply shrunk_tick].
    + rewrite Hord. apply list.Forall_forall. intros [h orphan] Hin. apply elem_of_map_to_list in Hin.
      rewrite waiting_redeemers in Hin. apply (oi_index _ _ Hinv2) in Hin as [Hh (o & Ho & <- & _)]. cbn.
      by rewrite (oi_hash _ _ Hinv2 _ _ Ho).
  - intros _ mp2 [Hinv2 Hsh2]. split_and!.
    + by apply orphan_inv_delete.
    + destruct Hsh2 as [H1 H2 H3]. split; [|intros h Hh|].
      * cbn. etrans; [apply delete_subseteq|exact H1].
      * cbn. rewrite lookup_delete_ne by set_solver. rewrite H2 by set_solver. done.
      * destruct H3 as [H3 H4 H5]. split; cbn; [by rewrite H3|by rewrite H4|done].
    + cbn. apply lookup_delete_eq.
Qed.

(** The operations on orphans. *)
Section OrphanOps.
Context (mp0 : TxPool).
(** Orphans of [mp0] are left, and the index agrees with them. *)
Let kept (mp : TxPool) : Prop := orphan_inv ∅ mp /\ shrunk ∅ mp0 mp.

Lemma removeOrphan_runs tx redeemers mp : kept mp ->
  runs (fun _ mp' => kept mp' /\ shrunk ∅ mp mp' /\ orphans mp' !! TxHash tx = None) (removeOrphan tx redeemers) mp.
Proof using.
  intros [Hinv Hsh]. unfold removeOrphan. apply ends_gets. eapply runs_mono.
  - apply (removeOrphanRec_runs _ ∅); [done|set_solver|]. rewrite difference_empty_L, size_dom. lia.
  - intros _ mp' (H1 & H2 & H3). split; [split; [done|by etrans]|done].
Qed.

Lemma rangeOrphans_runs {A} (f : orphanTx -> A -> stateful PoolError TxPool A) (a : A) mp :
  (forall o a mp, kept mp -> runs (fun _ => kept) (f o a) mp) -> kept mp -> runs (fun _ => kept) (rangeOrphans f a) mp.
Proof using.
  intros Hf Hk. apply ends_ranging. intros order _. apply (forOrphans_ends kept); [exact Hf|].
  destruct Hk. split; [by apply orphan_inv_tick|by apply shrunk_tick].
Qed.

Lemma RemoveOrphansByTag_runs t mp : kept mp -> runs (fun _ => kept) (RemoveOrphansByTag t) mp.
Proof using.
  apply rangeOrphans_runs. intros o a mp1 Hk. destruct (tag o =? t); [|exact Hk].
  apply (ends_step _ _ (fun _ => kept)); [|intros ? ? Hk'; exact Hk'].
  eapply runs_mono; [by apply removeOrphan_runs|]. by intros _ mp' [? _].
Qed.

Lemma expireOrphans_runs now mp : kept mp -> runs (fun _ => kept) (expireOrphans now) mp.
Proof using.
  apply rangeOrphans_runs. intros o a mp1 Hk. destruct (o_expiration o <? now); [|exact Hk].
  eapply runs_mono; [by apply removeOrphan_runs|]. by intros _ mp' [? _].
Qed.

Lemma removeOrphanDoubleSpends_runs tx mp : kept mp -> runs (fun _ => kept) (removeOrphanDoubleSpends tx) mp.
Proof using.
  unfold removeOrphanDoubleSpends. generalize (TxIns tx). intros ins. revert mp.
  induction ins as [|ti ins IH]; intros mp Hk; cbn [removeOrphanDoubleSpendsOf]; [exact Hk|].
  apply (ends_step _ _ (fun _ => kept)); [|intros ? ? Hk'; by apply IH].
  apply ends_ranging. intros order _. apply (forRedeemers_ends kept _ _ _ (fun _ => True)).
  - intros h orphan mp1 Hk1 _. eapply runs_mono; [by apply removeOrphan_runs|]. by intros _ mp' [? _].
  - destruct Hk. split; [by apply orphan_inv_tick|by apply shrunk_tick].
  - by apply list.Forall_forall.
Qed.

(** There is room for one more orphan afterwards, if the limit held before. *)
Lemma limitNumOrphans_runs cfg mp : kept mp -> 1 <= MaxOrphanTxs (policy cfg) ->
  Z.of_nat (size (orphans mp)) <= MaxOrphanTxs (policy cfg) ->
  runs (fun _ mp' => kept mp' /\ Z.of_nat (size (orphans mp')) + 1 <= MaxOrphanTxs (policy cfg)) (limitNumOrphans cfg) mp.
Proof using.
  intros Hk H1 Hle. unfold limitNumOrphans. apply ends_now. intros now. apply ends_gets.
  assert (Hkt : kept (tick mp)) by (destruct Hk; split; [by apply orphan_inv_tick|by apply shrunk_tick]).
  apply (ends_step _ _ (fun _ mp' => kept mp' /\ Z.of_nat (size (orphans mp')) <= MaxOrphanTxs (policy cfg))).
  - destruct (nextExpireScan _ <? now); [|by split].
    assert (Hexp : runs (fun _ mp' => kept mp' /\ orphans mp' ⊆ orphans mp) (expireOrphans now) (tick mp)).
    { clear -Hk Hkt. set (kept' := fun mp' => kept mp' /\ orphans mp' ⊆ orphans mp).
      apply ends_ranging. intros order _. apply (forOrphans_ends kept').
      - intros o a mp1 [Hk1 Hs1]. destruct (o_expiration o <? now); [|by split].
        eapply runs_mono; [by apply removeOrphan_runs|]. intros _ mp' (H1 & [H2 _ _] & _). split; [done|by etrans].
      - destruct Hkt. split; [split; [by apply orphan_inv_tick|by apply shrunk_tick]|done]. }
    eapply ends_step; [exact Hexp|]. intros ? mp' [Hk' Hs']. apply map_subseteq_size in Hs'.
    destruct Hk' as [[A1 A2 A3] [B1 B2 [B3 B4]]]. split; [|cbn; lia]. split; [by split|by split; [..|split]].
  - intros _ mp1 [Hk1 Hle1]. apply ends_gets. destruct (Z.leb_spec (Z.of_nat (size (orphans mp1)) + 1) (MaxOrphanTxs (policy cfg))); [by split|].
    apply ends_ranging. intros order Hord. destruct order as [|[h otx] order].
    { symmetry in Hord. apply Permutation_nil_r in Hord. apply map_to_list_empty_iff in Hord.
      exfalso. rewrite Hord, map_size_empty in *. lia. }
    assert (Hin : orphans mp1 !! h = Some otx) by (apply elem_of_map_to_list; rewrite <- Hord; by left).
    assert (Hk2 : kept (tick mp1)) by (destruct Hk1; split; [by apply orphan_inv_tick|by apply shrunk_tick]).
    eapply runs_mono; [by apply removeOrphan_runs|]. intros _ mp' (Hk' & [Hsub _ _] & Hnone). split; [done|].
    rewrite (oi_hash _ _ (proj1 Hk1) _ _ Hin) in Hnone.
    assert (size (dom (orphans mp')) < size (dom (orphans mp1)))%nat as Hlt; [|rewrite !size_dom in Hlt; lia].
    apply subset_size. split; [by apply subseteq_dom|]. intros Hsub2.
    assert (h ∈ dom (orphans mp1)) as Hd by (by apply elem_of_dom; eexists). apply Hsub2, elem_of_dom in Hd as [? Hd]. congruence.
Qed.

End OrphanOps.

Lemma size_insert_le {A} (m : gmap (list Z) A) k x : (size (<[k := x]> m) <= S (size m))%nat.
Proof.
  destruct (m !! k) eqn:Hk; [rewrite map_size_insert_Some by (by eexists); lia|by rewrite map_size_insert_None].
Qed.

(** An orphan is added where it was not yet. *)
Lemma addOrphan_runs cfg tx t mp : orphan_inv ∅ mp -> orphans mp !! TxHash tx = None ->
  Z.of_nat (size (orphans mp)) <= Z.max 0 (MaxOrphanTxs (policy cfg)) ->
  runs (fun _ mp' => orphan_inv ∅ mp' /\ sameTxs mp mp' /\ Z.of_nat (size (orphans mp')) <= Z.max 0 (MaxOrphanTxs (policy cfg)) /\
    forall h o, orphans mp' !! h = Some o -> orphans mp !! h = Some o \/ o_tx o = tx) (addOrphan cfg tx t) mp.
Proof.
  intros Hinv Hnone Hle. unfold addOrphan. destruct (Z.leb_spec (MaxOrphanTxs (policy cfg)) 0).
  { split_and!; [done|done|done|auto]. }
  eapply ends_step; [apply (limitNumOrphans_runs mp); [by split|lia|lia]|]. intros _ mp1 [[Hinv1 [Hsub _ Hsame]] Hroom].
  apply ends_now. intros now. apply ends_modify. set (mp2 := setOrphans _ _).
  assert (Hn1 : orphans mp1 !! TxHash tx = None).
  { destruct (orphans mp1 !! TxHash tx) as [o|] eqn:Ho; [|done]. eapply lookup_weaken in Ho; [|exact Hsub]. congruence. }
  destruct (indexInputs_spec tx mp2) as [Hw Hne]. destruct Hinv1 as [A1 A2 A3]. change (runs ?Q (modify ?f) ?s) with (Q () (f s)).
  split_and!.
  - split; [|intros op h tx'|apply Hne, A3].
    + intros h o Ho. cbn in Ho. apply lookup_insert_Some in Ho as [[<- <-]|[_ Ho]]; [done|by apply A1].
    + rewrite Hw. change (orphansByPrev mp2) with (orphansByPrev mp1). cbn [orphans indexInputs setOrphansByPrev mp2 setOrphans].
      destruct (decide (h = TxHash tx /\ op ∈ spends tx)) as [[-> Hop]|Hn].
      * rewrite lookup_insert_eq. split; [intros [= <-]; split; [set_solver|]; by eexists|]. by intros [_ (o & [= <-] & <- & _)].
      * rewrite A2. destruct (decide (h = TxHash tx)) as [->|Hneq]; [|by rewrite lookup_insert_ne].
        rewrite lookup_insert_eq, Hn1. split; [by intros [_ (o & ? & _)]|]. intros [_ (o & [= <-] & <- & Hop)]. exfalso. by apply Hn.
  - etrans; [exact Hsame|]. by split.
  - cbn. pose proof (size_insert_le (orphans mp1) (TxHash tx) (mkOrphanTx tx t (now + orphanTTL))). lia.
  - intros h o Ho. cbn in Ho. apply lookup_insert_Some in Ho as [[<- <-]|[_ Ho]]; [by right|left]. by eapply lookup_weaken.
Qed.

(** ** The pool *)
Section Ranked.
Context (rank : list Z -> nat).

(** Parents come before children. *)
Definition ranked (tx : MsgTx) : Prop :=
  Forall (fun ti => (rank (Hash (PreviousOutPoint ti)) < rank (TxHash tx))%nat) (TxIns tx).

Lemma ranked_spends tx op : ranked tx -> op ∈ spends tx -> (rank (Hash op) < rank (TxHash tx))%nat.
Proof.
  unfold ranked, spends. rewrite list.Forall_forall. intros Hr Hop. apply list_elem_of_fmap in Hop as (ti & -> & Hti). by apply Hr.
Qed.

(** A transaction of the pool, and the index of what is spent. *)
Definition inPool (mp : TxPool) (tx : MsgTx) : Prop := exists d, pool mp !! TxHash tx = Some d /\ d_Tx d = tx.

Record pool_inv (mp : TxPool) : Prop := {
  pi_hash : forall h d, pool mp !! h = Some d -> TxHash (d_Tx d) = h;
  pi_spent : forall op tx, outpoints mp !! op = Some tx <-> inPool mp tx /\ op ∈ spends tx;
  pi_ranked : forall h d, pool mp !! h = Some d -> ranked (d_Tx d);
}.

Lemma pool_inv_tick mp : pool_inv mp -> pool_inv (tick mp).
Proof. by intros [H1 H2 H3]. Qed.

Lemma inPool_ranked mp tx : pool_inv mp -> inPool mp tx -> ranked tx.
Proof. intros Hinv (d & Hd & <-). by eapply pi_ranked. Qed.

(** No two transactions of the pool spend the same output. *)
Lemma no_double_spend mp tx tx' op : pool_inv mp -> inPool mp tx -> inPool mp tx' -> op ∈ spends tx -> op ∈ spends tx' -> tx = tx'.
Proof.
  intros Hinv H1 H2 Ho1 Ho2. assert (Hs : outpoints mp !! op = Some tx) by (by apply (pi_spent _ Hinv)).
  assert (Hs' : outpoints mp !! op = Some tx') by (by apply (pi_spent _ Hinv)). congruence.
Qed.

(** The transactions of the pool that spend an output of [tx], and all that
    build on them. *)
Definition outputsOf (tx : MsgTx) : list OutPoint :=
  imap (fun i _ => mkOutPoint (TxHash tx) (u32 (Z.of_nat i))) (TxOuts tx).
Definition child (mp : TxPool) (tx tx' : MsgTx) : Prop := exists op, op ∈ outputsOf tx /\ outpoints mp !! op = Some tx'.
Definition descendant (mp : TxPool) : MsgTx -> MsgTx -> Prop := tc (child mp).

Lemma outputsOf_hash tx op : op ∈ outputsOf tx -> Hash op = TxHash tx.
Proof.
  unfold outputsOf. intros Hin. apply list_elem_of_lookup in Hin as [i Hi]. rewrite list_lookup_imap in Hi.
  destruct (TxOuts tx !! i); [|done]. by injection Hi as <-.
Qed.

Lemma child_inPool mp tx tx' : pool_inv mp -> child mp tx tx' -> inPool mp tx'.
Proof. intros Hinv (op & _ & Hop). by apply (pi_spent _ Hinv) in Hop as [? _]. Qed.

Lemma child_rank mp tx tx' : pool_inv mp -> child mp tx tx' -> (rank (TxHash tx) < rank (TxHash tx'))%nat.
Proof.
  intros Hinv (op & Hin & Hop). apply (pi_spent _ Hinv) in Hop as [Hp Hop]. rewrite <- (outputsOf_hash _ _ Hin).
  apply ranked_spends; [by eapply inPool_ranked|done].
Qed.

Lemma descendant_inPool mp tx tx' : pool_inv mp -> descendant mp tx tx' -> inPool mp tx'.
Proof. intros Hinv H. induction H as [a b Hab|a b c _ _ IH]; [by eapply child_inPool|done]. Qed.

Lemma descendant_rank mp tx tx' : pool_inv mp -> descendant mp tx tx' -> (rank (TxHash tx) < rank (TxHash tx'))%nat.
Proof.
  intros Hinv H. induction H as [a b Hab|a b c Hab _ IH]; [by eapply child_rank|].
  etrans; [by eapply child_rank|done].
Qed.

Record sameOrphans (mp mp' : TxPool) : Prop := {
  so_orphans : orphans mp' = orphans mp;
  so_index : orphansByPrev mp' = orphansByPrev mp;
  so_cache : is_Some (hashCache mp) -> is_Some (hashCache mp');
}.
#[export] Instance sameOrphans_preorder : PreOrder sameOrphans.
Proof. split; [by split|]. intros a b c [H1 H2 H3] [H4 H5 H6]. split; [congruence|congruence|auto]. Qed.

Lemma orphan_inv_same S mp mp' : sameOrphans mp mp' -> orphan_inv S mp -> orphan_inv S mp'.
Proof. intros [H1 H2 _] [H3 H4 H5]. split; by rewrite ?H1, ?H2. Qed.

Lemma pool_inv_same mp mp' : sameTxs mp mp' -> pool_inv mp -> pool_inv mp'.
Proof.
  intros [H1 H2 _] [H3 H4 H5]. split; [by rewrite H1| |by rewrite H1]. intros op tx. unfold inPool. rewrite H1, H2. apply H4.
Qed.

(** Taking one transaction out of the pool. *)
Lemma pool_inv_delete mp h d : pool_inv mp -> pool mp !! h = Some d ->
  pool_inv (setPool (delete h (pool mp)) (setOutpoints (freeInputs (d_Tx d) (outpoints mp)) mp)).
Proof.
  intros [Hh Hs Hr] Hd. pose proof (Hh _ _ Hd) as Hhd. split; cbn [pool outpoints setPool setOutpoints].
  - intros h' d' [_ Hd']%lookup_delete_Some. by apply Hh.
  - intros op tx. rewrite freeInputs_lookup. unfold inPool. cbn [pool outpoints setPool setOutpoints].
    assert (Hin : inPool mp (d_Tx d)) by (exists d; by rewrite Hhd).
    destruct (decide (op ∈ spends (d_Tx d))) as [Hop|Hop].
    + split; [done|]. intros [(d' & Hd' & Htx) Hop']. apply lookup_delete_Some in Hd' as [Hne Hd'].
      exfalso. apply Hne. rewrite <- Hhd. f_equal.
      assert (H1 : outpoints mp !! op = Some (d_Tx d)) by (by apply Hs).
      assert (H2 : outpoints mp !! op = Some tx) by (apply Hs; split; [by exists d'|done]). congruence.
    + rewrite Hs. split; intros [(d' & Hd' & Htx) Hop']; (split; [|done]); exists d'; (split; [|done]).
      * rewrite lookup_delete_ne; [done|]. intros ->. rewrite Hd in Hd'. injection Hd' as ->. by subst.
      * by apply lookup_delete_Some in Hd' as [_ Hd'].
  - intros h' d' [_ Hd']%lookup_delete_Some. by eapply Hr.
Qed.

(** Transactions left the pool; with one that left, all that spend it. *)
Record left (mp mp' : TxPool) : Prop := {
  lf_pool : pool mp' ⊆ pool mp;
  lf_same : sameOrphans mp mp';
}.
#[export] Instance left_preorder : PreOrder left.
Proof. split; [by split|]. intros a b c [H1 H2] [H3 H4]. split; by etrans. Qed.

Definition gone (mp : TxPool) (tx : MsgTx) : Prop := pool mp !! TxHash tx = None.

Lemma left_gone mp mp' tx : left mp mp' -> gone mp tx -> gone mp' tx.
Proof. intros [Hs _] Hg. by eapply lookup_weaken_None. Qed.

Lemma left_inPool mp mp' tx : left mp mp' -> inPool mp' tx -> inPool mp tx.
Proof. intros [Hs _] (d & Hd & Htx). exists d. split; [|done]. by eapply lookup_weaken. Qed.

Lemma left_child mp mp' tx tx' : pool_inv mp -> pool_inv mp' -> left mp mp' -> child mp' tx tx' -> child mp tx tx'.
Proof.
  intros H1 H2 Hl (op & Hin & Hop). exists op. split; [done|]. apply (pi_spent _ H2) in Hop as [Hp Hop].
  apply (pi_spent _ H1). split; [by eapply left_inPool|done].
Qed.

Lemma left_descendant mp mp' tx tx' : pool_inv mp -> pool_inv mp' -> left mp mp' -> descendant mp' tx tx' -> descendant mp tx tx'.
Proof.
  intros H1 H2 Hl H. induction H as [a b Hab|a b c Hab _ IH]; [by apply tc_once, (left_child mp mp')|].
  eapply tc_l; [by eapply left_child|done].
Qed.

(** What is still there still spends what it spent. *)
Lemma spent_left mp mp' op tx : pool_inv mp -> pool_inv mp' -> left mp mp' -> outpoints mp !! op = Some tx ->
  outpoints mp' !! op = Some tx \/ gone mp' tx.
Proof.
  intros H1 H2 Hl Hop. pose proof Hop as Hop'. apply (pi_spent _ H1) in Hop' as [(d & Hd & Htx) Hs].
  destruct (pool mp' !! TxHash tx) as [d'|] eqn:Hd'; [left|by right].
  apply (pi_spent _ H2). split; [|done]. exists d'. split; [done|].
  pose proof (lookup_weaken _ _ _ _ Hd' (lf_pool _ _ Hl)). congruence.
Qed.

Lemma child_left mp mp' tx tx' : pool_inv mp -> pool_inv mp' -> left mp mp' -> child mp tx tx' -> child mp' tx tx' \/ gone mp' tx'.
Proof.
  intros H1 H2 Hl (op & Hin & Hop). destruct (spent_left mp mp' op tx' H1 H2 Hl Hop) as [?|?]; [left|by right]. by exists op.
Qed.

Lemma inPool_left mp mp' tx : left mp mp' -> inPool mp tx -> inPool mp' tx \/ gone mp' tx.
Proof.
  intros [Hs _] (d & Hd & Htx). unfold gone, inPool. destruct (pool mp' !! TxHash tx) as [d'|] eqn:Hd'; [left|by right].
  exists d'. split; [done|]. pose proof (lookup_weaken _ _ _ _ Hd' Hs). congruence.
Qed.

Lemma inPool_inj mp tx tx' : inPool mp tx -> inPool mp tx' -> TxHash tx = TxHash tx' -> tx = tx'.
Proof. intros (d & Hd & <-) (d' & Hd' & <-) He. rewrite He in Hd. congruence. Qed.

Record closed (mp mp' : TxPool) : Prop := {
  cl_left : left mp mp';
  cl_children : forall tx tx', inPool mp tx -> gone mp' tx -> child mp tx tx' -> gone mp' tx';
}.

Lemma closed_trans mp mp1 mp2 : pool_inv mp -> pool_inv mp1 -> closed mp mp1 -> closed mp1 mp2 -> closed mp mp2.
Proof.
  intros Hi Hi1 [L1 C1] [L2 C2]. split; [by etrans|]. intros tx tx' Hin Hg Hc.
  destruct (inPool_left mp mp1 tx L1 Hin) as [Hin1|Hg1]; [|eapply left_gone; [exact L2|]; by eapply C1].
  destruct (child_left mp mp1 tx tx' Hi Hi1 L1 Hc) as [Hc1|Hg1]; [by eapply C2|by eapply left_gone].
Qed.

Lemma forOutputs_visit (J : TxPool -> Prop) (V : OutPoint -> TxPool -> Prop) f h outs :
  (forall op mp mp', left mp mp' -> V op mp -> V op mp') ->
  forall i, (forall op mp, op ∈ imap (fun k _ => mkOutPoint h (u32 (i + Z.of_nat k))) outs -> J mp ->
    runs (fun _ mp' => J mp' /\ left mp mp' /\ V op mp') (f op) mp) ->
  forall mp, J mp -> runs (fun _ mp' => J mp' /\ left mp mp' /\
    forall op, op ∈ imap (fun k _ => mkOutPoint h (u32 (i + Z.of_nat k))) outs -> V op mp') (forOutputs f h i outs) mp.
Proof.
  intros HV. induction outs as [|o outs IH]; intros i Hf mp HJ; cbn [forOutputs].
  { split_and!; [done|done|by intros op ?%not_elem_of_nil]. }
  assert (Himap : imap (fun k _ => mkOutPoint h (u32 (i + Z.of_nat k))) (o :: outs)
                = mkOutPoint h (u32 i) :: imap (fun k _ => mkOutPoint h (u32 (i + 1 + Z.of_nat k))) outs).
  { cbn. rewrite Z.add_0_r. f_equal. apply imap_ext. intros k x _. cbn. do 2 f_equal. lia. }
  rewrite Himap in *. eapply ends_step; [apply Hf; [by left|done]|]. intros _ mp1 (HJ1 & Hl1 & HV1).
  eapply runs_mono; [apply IH; [|done]|].
  - intros op mp2 Hin. apply Hf. by right.
  - intros _ mp2 (HJ2 & Hl2 & HV2). split_and!; [done|by etrans|]. intros op [->|Hin]%list.elem_of_cons; [by eapply HV|by apply HV2].
Qed.

(** Removing a transaction with what builds on it. *)
Record removedTree (mp : TxPool) (tx : MsgTx) (mp' : TxPool) : Prop := {
  rt_inv : pool_inv mp';
  rt_closed : closed mp mp';
  rt_gone : gone mp' tx;
  rt_children : forall tx', child mp tx tx' -> gone mp' tx';
  rt_only : forall tx', inPool mp tx' -> gone mp' tx' -> TxHash tx' = TxHash tx \/ descendant mp tx tx';
}.

(** A transaction that the pool holds under this hash has the same
    outputs. *)
Definition agrees (mp : TxPool) (tx : MsgTx) : Prop := forall d, pool mp !! TxHash tx = Some d -> outputsOf (d_Tx d) = outputsOf tx.

Lemma agrees_left mp mp' tx : left mp mp' -> agrees mp tx -> agrees mp' tx.
Proof. intros [Hs _] Ha d Hd. apply Ha. by eapply lookup_weaken. Qed.

Lemma inPool_agrees mp tx : inPool mp tx -> agrees mp tx.
Proof. intros (d & Hd & Htx) d' Hd'. rewrite Hd in Hd'. injection Hd' as <-. by rewrite Htx. Qed.

(** The descriptor itself leaves. *)
Lemma removeDesc_runs mp d tx : pool_inv mp -> pool mp !! TxHash tx = Some d ->
  runs (fun _ mp' => pool_inv mp' /\ left mp mp' /\ pool mp' = delete (TxHash tx) (pool mp))
    (_ ← modify (fun mp => setOutpoints (freeInputs (d_Tx d) (outpoints mp)) mp);
     _ ← modify (fun mp => setPool (delete (TxHash tx) (pool mp)) mp);
     now ← Now; modify (setLastUpdated (Unix now))) mp.
Proof.
  intros Hinv Hd. apply ends_modify, ends_modify, ends_now. intros t.
  pose proof (pool_inv_delete mp _ d Hinv Hd) as Hi. split_and!; [..|done].
  - eapply pool_inv_same; [|exact Hi]. by split.
  - split; [cbn; apply delete_subseteq|by split].
Qed.

Definition above (mp : TxPool) (tx : MsgTx) : gset (list Z) := filter (fun h => (rank (TxHash tx) < rank h)%nat) (dom (pool mp)).

Lemma above_child mp mp' tx tx' fuel : pool_inv mp -> left mp mp' -> child mp tx tx' -> (size (above mp tx) < S fuel)%nat ->
  (size (above mp' tx') < fuel)%nat.
Proof.
  intros Hinv [Hs _] Hc Hf. enough (size (above mp' tx') < size (above mp tx))%nat by lia. apply subset_size.
  pose proof (child_rank _ _ _ Hinv Hc) as Hr. destruct (child_inPool _ _ _ Hinv Hc) as (d & Hd & _). unfold above. split.
  - intros h [Hh Hin]%elem_of_filter. apply elem_of_filter. split; [lia|]. by apply (subseteq_dom _ _ Hs).
  - intros Hsub. assert (Hin : TxHash tx' ∈ filter (fun h => (rank (TxHash tx) < rank h)%nat) (dom (pool mp))).
    { apply elem_of_filter. split; [done|]. apply elem_of_dom. by eexists. }
    apply Hsub, elem_of_filter in Hin as [Hin _]. lia.
Qed.

Lemma removeTransactionRec_runs fuel : forall tx mp, pool_inv mp -> agrees mp tx -> (size (above mp tx) < fuel)%nat ->
  runs (fun _ mp' => removedTree mp tx mp') (removeTransactionRec fuel tx true) mp.
Proof.
  induction fuel as [|fuel IH]; intros tx mp Hinv Hag Hf; [lia|]. cbn [removeTransactionRec].
  set (J := fun mp1 => pool_inv mp1 /\ closed mp mp1 /\ forall y, inPool mp y -> gone mp1 y -> descendant mp tx y).
  set (V := fun op mp1 => forall y, outpoints mp !! op = Some y -> gone mp1 y).
  assert (HJ : J mp).
  { split_and!; [done|split; [done|]|]; [|intros y (d & Hd & _) Hg; unfold gone in Hg; congruence].
    intros x y (d & Hd & _) Hg. unfold gone in Hg. congruence. }
  eapply ends_step.
  { apply (forOutputs_visit J V _ (TxHash tx) (TxOuts tx)) with (i := 0); [| |exact HJ].
    - intros op a b Hl Hv y Hy. eapply left_gone; [done|by apply Hv].
    - intros op mp1 Hop (Hi1 & Hc1 & Ho1). pose proof (cl_left _ _ Hc1) as Hl1. apply ends_gets.
      assert (Hopin : op ∈ outputsOf tx) by exact Hop.
      destruct (outpoints mp1 !! op) as [r|] eqn:Hr.
      + assert (Hcr : child mp1 tx r) by (by exists op).
        assert (Hcr0 : child mp tx r) by (by eapply left_child).
        pose proof (child_inPool _ _ _ Hi1 Hcr) as Hrin.
        eapply runs_mono; [apply IH; [done|by apply inPool_agrees|exact (above_child mp mp1 tx r fuel Hinv Hl1 Hcr0 Hf)]|].
        intros _ mp2 [Hi2 Hc2 Hg2 _ Ho2]. split; [split_and!; [done|by apply (closed_trans mp mp1)|]|split; [by apply Hc2|]].
        * intros y Hy Hg. destruct (inPool_left mp mp1 y Hl1 Hy) as [Hy1|?]; [|by apply Ho1].
          destruct (Ho2 y Hy1 Hg) as [He|Hd]; [rewrite (inPool_inj mp1 y r) by done; by apply tc_once|].
          eapply tc_l; [done|by apply (left_descendant mp mp1)].
        * intros y Hy. destruct (spent_left mp mp1 op y Hinv Hi1 Hl1 Hy) as [Hy1|Hg]; [congruence|]. eapply left_gone; [apply Hc2|done].
      + split; [done|split; [done|]]. intros y Hy.
        destruct (spent_left mp mp1 op y Hinv Hi1 Hl1 Hy) as [?|?]; [congruence|done]. }
  intros _ mp1 ((Hi1 & Hc1 & Ho1) & _ & Hv1). apply ends_gets.
  assert (Hch : forall y, child mp tx y -> gone mp1 y) by (intros y (op & Hin & Hop); by eapply Hv1).
  destruct (pool mp1 !! TxHash tx) as [d|] eqn:Hd; last first.
  { split; [done|done|done|done|]. intros y Hy Hg. right. by apply Ho1. }
  eapply runs_mono; [by apply removeDesc_runs|]. intros _ mp2 (Hi2 & Hl2 & Hp2).
  pose proof (cl_left _ _ Hc1) as Hl1.
  assert (Hcase : forall y, gone mp2 y -> gone mp1 y \/ TxHash y = TxHash tx).
  { intros y Hg. unfold gone in *. rewrite Hp2 in Hg. destruct (decide (TxHash y = TxHash tx)); [by right|left].
    by rewrite lookup_delete_ne in Hg. }
  split; [done| | |intros y Hy; by eapply left_gone; [|by apply Hch]|].
  - split; [by etrans|]. intros x y Hx Hg Hc. destruct (Hcase x Hg) as [Hg1|He].
    + eapply left_gone; [done|]. by eapply (cl_children _ _ Hc1).
    + eapply left_gone; [done|]. apply Hch. destruct Hc as (op & Hin & Hop). exists op. split; [|done].
      destruct Hx as (dx & Hdx & <-). rewrite He in Hdx. by rewrite <- (Hag _ Hdx).
  - unfold gone. rewrite Hp2. apply lookup_delete_eq.
  - intros y Hy Hg. destruct (Hcase y Hg) as [Hg1|He]; [right; by apply Ho1|by left].
Qed.

End Ranked.

End Invariant.
End MempoolInv.
