(* ===== verification/MempoolRbf.v ===== *)
(** * Ancestors, descendants and replacement in the transaction pool

    The walks of [Mempool] along the transactions of the pool, with their
    caches, against the closure of the relation they follow: txAncestors and
    txDescendants return exactly what can be reached, signalsReplacement says
    whether the transaction or something it builds on signals replacement.
    What a replacement evicts and what it has to pay follows. *)

From S2P Require Import Prelude ScriptNum Wire Tokenizer Builder SigHash SigCheck Opcodes Engine Merkle Difficulty Utxo TxRules ScriptVal Standard MempoolPolicy Mempool MempoolInv.

Module MempoolRbf.
Import ScriptNum Wire Tokenizer Builder SigHash SigCheck Opcodes Engine Merkle Difficulty Utxo TxRules ScriptVal Standard MempoolPolicy Mempool MempoolInv.

(** ** Maps of what can be reached *)
Section Closure.
Context {C : Crypto} {W : World} (mp : TxPool) (next : MsgTx -> MsgTx -> Prop).
(** The relation leads into the pool. *)
Context (Hnext : forall x y, next x y -> inPool mp y).

Lemma reach_inPool x y : tc next x y -> inPool mp y.
Proof using Hnext. intros H. induction H as [a b Hab|a b c _ _ IH]; [by eapply Hnext|done]. Qed.

(** The map holds, under its hash, each transaction that [P] holds of. *)
Definition holds (P : MsgTx -> Prop) (m : gmap (list Z) MsgTx) : Prop := forall h y, m !! h = Some y <-> TxHash y = h /\ P y.

Definition reachedFrom (l : list MsgTx) (y : MsgTx) : Prop := exists c, c ∈ l /\ (y = c \/ tc next c y).

Definition cache_ok (cache : gmap (list Z) (gmap (list Z) MsgTx)) : Prop :=
  forall h m, cache !! h = Some m -> exists x, inPool mp x /\ TxHash x = h /\ holds (tc next x) m.

Lemma holds_hash P m : holds P m -> forall h y, m !! h = Some y -> TxHash y = h.
Proof using. intros Hm h y Hy. by apply Hm in Hy as [? _]. Qed.

Lemma holds_empty : holds (reachedFrom []) ∅.
Proof using. intros h y. rewrite lookup_empty. split; [done|]. by intros [_ (c & ?%not_elem_of_nil & _)]. Qed.

Lemma cache_empty : cache_ok ∅.
Proof using. intros h m Hm. by rewrite lookup_empty in Hm. Qed.

Lemma cache_insert cache c m : inPool mp c -> holds (tc next c) m -> cache_ok cache -> cache_ok (<[TxHash c := m]> cache).
Proof using.
  intros Hc Hm Hca h m' Hl. apply lookup_insert_Some in Hl as [[<- <-]|[_ Hl]]; [by exists c|by apply Hca].
Qed.

(** What the cache has under the hash of [c] is about [c]. *)
Lemma cache_lookup cache c m : inPool mp c -> cache_ok cache -> cache !! TxHash c = Some m -> holds (tc next c) m.
Proof using.
  intros Hc Hca Hm. destruct (Hca _ _ Hm) as (x & Hx & He & Hh). by rewrite <- (inPool_inj mp x c).
Qed.

(** One more transaction and what is reached from it. *)
Lemma holds_add l acc c more : Forall (inPool mp) l -> inPool mp c -> holds (reachedFrom l) acc -> holds (tc next c) more ->
  holds (reachedFrom (l ++ [c])) (more ∪ <[TxHash c := c]> acc).
Proof using Hnext.
  intros Hl Hc Hacc Hmore h y. rewrite lookup_union_Some_raw. split.
  - intros [Hy|[_ Hy]].
    + apply Hmore in Hy as [He Hr]. split; [done|]. exists c. split; [apply elem_of_app; right; by left|by right].
    + apply lookup_insert_Some in Hy as [[<- <-]|[_ Hy]].
      * split; [done|]. exists c. split; [apply elem_of_app; right; by left|by left].
      * apply Hacc in Hy as [He (c' & Hc' & Hr)]. split; [done|]. exists c'. split; [apply elem_of_app; by left|done].
  - intros [He (c' & Hc' & Hr)].
    assert (Hy : inPool mp y).
    { destruct Hr as [->|Hr]; [|by eapply reach_inPool]. apply elem_of_app in Hc' as [Hc'| ->%list_elem_of_singleton]; [|done].
      rewrite list.Forall_forall in Hl. by apply Hl. }
    destruct (more !! h) as [y'|] eqn:Hm.
    { left. apply Hmore in Hm as [He' Hr']. f_equal. apply (inPool_inj mp); [by eapply reach_inPool|done|congruence]. }
    right. split; [done|]. apply lookup_insert_Some. destruct (decide (TxHash c = h)) as [Hch|Hch].
    { left. split; [done|]. apply (inPool_inj mp); [done|done|congruence]. }
    right. split; [done|]. apply Hacc. split; [done|]. exists c'. split; [|done].
    apply elem_of_app in Hc' as [Hc'| ->%list_elem_of_singleton]; [done|]. exfalso.
    destruct Hr as [->|Hr]; [done|]. assert (more !! h = Some y) by (by apply Hmore). congruence.
Qed.

Lemma holds_closure x l acc : (forall y, next x y <-> y ∈ l) -> holds (reachedFrom l) acc -> holds (tc next x) acc.
Proof using.
  intros Hl Hacc h y. rewrite (Hacc h y). apply and_iff_compat_l. split.
  - intros (c & Hc & [->|Hr]); [by apply tc_once, Hl|]. eapply tc_l; [by apply Hl|done].
  - intros Hr. inversion Hr as [a b Hab|a b d Hab Hbd]; subst.
    + exists y. split; [by apply Hl|by left].
    + exists b. split; [by apply Hl|by right].
Qed.

Lemma addByHash_union (more acc : gmap (list Z) MsgTx) : (forall h y, more !! h = Some y -> TxHash y = h) ->
  addByHash more acc = more ∪ acc.
Proof using.
  intros Hk. unfold addByHash. revert Hk.
  apply (map_fold_weak_ind (fun r more => (forall h y, more !! h = Some y -> TxHash y = h) -> r = more ∪ acc)).
  - intros _. by rewrite (left_id_L ∅ (∪)).
  - intros h y more' r Hn IH Hk. rewrite IH.
    + rewrite (Hk h y) by apply lookup_insert_eq. by rewrite insert_union_l.
    + intros h' y' Hy'. apply Hk. rewrite lookup_insert_ne; [done|]. intros <-. congruence.
Qed.

End Closure.

Section Walks.
Context {C : Crypto} {W : World} (rank : list Z -> nat) (mp : TxPool) (Hinv : pool_inv rank mp).

(** ** Descendants *)

(** What spends the outputs from the [i]th on. *)
Definition spenders (h : list Z) (i : Z) (outs : list TxOut) : list MsgTx :=
  omap (fun op => outpoints mp !! op) (imap (fun k _ => mkOutPoint h (u32 (i + Z.of_nat k))) outs).

Lemma spenders_cons h i o outs :
  spenders h i (o :: outs) = option_list (outpoints mp !! mkOutPoint h (u32 i)) ++ spenders h (i + 1) outs.
Proof using.
  unfold spenders. cbn [imap omap list_omap]. rewrite Z.add_0_r.
  assert (Himap : imap ((fun k _ => mkOutPoint h (u32 (i + Z.of_nat k))) ∘ S) outs
                = imap (fun k _ => mkOutPoint h (u32 (i + 1 + Z.of_nat k))) outs).
  { apply imap_ext. intros k x _. cbn. do 2 f_equal. lia. }
  rewrite Himap. by destruct (outpoints mp !! _).
Qed.

Lemma child_spenders tx y : child mp tx y <-> y ∈ spenders (TxHash tx) 0 (TxOuts tx).
Proof using. unfold spenders, child. rewrite list_elem_of_omap. done. Qed.

Lemma below x y : child mp x y -> inPool mp y.
Proof using Hinv. by apply (child_inPool rank). Qed.

Lemma descendantsLoop_spec fuel tx
    (IH : forall c cache, child mp tx c -> cache_ok mp (child mp) cache ->
      exists m cache', txDescendantsRec fuel mp c cache = Ok (m, cache') /\ holds (descendant mp c) m /\ cache_ok mp (child mp) cache') :
  forall outs i acc l cache, (forall c, c ∈ spenders (TxHash tx) i outs -> child mp tx c) ->
    Forall (inPool mp) l -> holds (reachedFrom (child mp) l) acc -> cache_ok mp (child mp) cache ->
    exists m cache', descendantsLoop (txDescendantsRec fuel mp) mp (TxHash tx) i outs acc cache = Ok (m, cache') /\
      holds (reachedFrom (child mp) (l ++ spenders (TxHash tx) i outs)) m /\ cache_ok mp (child mp) cache'.
Proof using Hinv.
  induction outs as [|o outs IHo]; intros i acc l cache Hch Hl Hacc Hca; cbn [descendantsLoop].
  { exists acc, cache. split_and!; [done|by rewrite app_nil_r|done]. }
  rewrite spenders_cons in *. destruct (outpoints mp !! mkOutPoint (TxHash tx) (u32 i)) as [c|]; [|by apply IHo].
  cbn [option_list app] in *. assert (Hc : child mp tx c) by (apply Hch; by left). pose proof (below _ _ Hc) as Hcin.
  assert (Hch' : forall c, c ∈ spenders (TxHash tx) (i + 1) outs -> child mp tx c) by (intros c' Hc'; apply Hch; by right).
  assert (Hl2 : Forall (inPool mp) (l ++ [c])) by (apply list.Forall_app; split; [done|by constructor]).
  change (l ++ option_list (Some c) ++ ?r) with (l ++ [c] ++ r). rewrite app_assoc. destruct (cache !! TxHash c) as [more|] eqn:Hm.
  - pose proof (cache_lookup mp (child mp) _ _ _ Hcin Hca Hm) as Hmore.
    rewrite addByHash_union by (by eapply holds_hash). apply IHo; try done. by apply (holds_add mp (child mp) below).
  - destruct (IH c cache Hc Hca) as (more & ca1 & -> & Hmore & Hca1). cbn [mbind outcome_bind].
    rewrite addByHash_union by (by eapply holds_hash). apply IHo; try done; [by apply (holds_add mp (child mp) below)|by apply cache_insert].
Qed.

Lemma txDescendantsRec_spec fuel : forall tx cache, cache_ok mp (child mp) cache -> (size (above rank mp tx) < fuel)%nat ->
  exists m cache', txDescendantsRec fuel mp tx cache = Ok (m, cache') /\ holds (descendant mp tx) m /\ cache_ok mp (child mp) cache'.
Proof using Hinv.
  induction fuel as [|fuel IH]; intros tx cache Hca Hf; [lia|]. cbn [txDescendantsRec].
  destruct (descendantsLoop_spec fuel tx) with (outs := TxOuts tx) (i := 0) (acc := ∅ : gmap (list Z) MsgTx) (l := @nil MsgTx) (cache := cache)
    as (m & ca & -> & Hm & Hca'); [|by intros c ?%child_spenders|constructor|apply holds_empty|done|].
  - intros c ca Hc Hca1. apply IH; [done|]. by apply (above_child rank mp mp tx c).
  - exists m, ca. split_and!; [done| |done]. eapply holds_closure; [|exact Hm]. apply child_spenders.
Qed.

Lemma above_size tx : (size (above rank mp tx) < S (size (pool mp)))%nat.
Proof using.
  clear Hinv. unfold above. assert (size (filter (fun h => (rank (TxHash tx) < rank h)%nat) (dom (pool mp))) <= size (dom (pool mp)))%nat as H; [|rewrite size_dom in H; lia].
  apply subseteq_size. set_solver.
Qed.

Lemma txDescendants_spec tx : exists m, txDescendants mp tx = Ok m /\ holds (descendant mp tx) m.
Proof using Hinv.
  unfold txDescendants. destruct (txDescendantsRec_spec (S (size (pool mp))) tx ∅) as (m & ca & -> & Hm & _);
    [apply cache_empty|apply above_size|]. by exists m.
Qed.

(** ** Ancestors *)
Definition parents (ins : list TxIn) : list MsgTx := omap (fun ti => d_Tx <$> pool mp !! Hash (PreviousOutPoint ti)) ins.
Definition parent (tx p : MsgTx) : Prop := p ∈ parents (TxIns tx).
Definition ancestor : MsgTx -> MsgTx -> Prop := tc parent.

Lemma parent_iff tx p : parent tx p <-> exists ti d, ti ∈ TxIns tx /\ pool mp !! Hash (PreviousOutPoint ti) = Some d /\ d_Tx d = p.
Proof using.
  unfold parent, parents. rewrite list_elem_of_omap. split.
  - intros (ti & Hti & Hp). destruct (pool mp !! _) as [d|] eqn:Hd; [|done]. injection Hp as <-. by exists ti, d.
  - intros (ti & d & Hti & Hd & <-). exists ti. by rewrite Hd.
Qed.

Lemma parent_inPool tx p : parent tx p -> inPool mp p.
Proof using Hinv. intros (ti & d & _ & Hd & <-)%parent_iff. exists d. by rewrite (pi_hash _ _ Hinv _ _ Hd). Qed.

Lemma parent_rank tx p : ranked rank tx -> parent tx p -> (rank (TxHash p) < rank (TxHash tx))%nat.
Proof using Hinv.
  intros Hr (ti & d & Hti & Hd & <-)%parent_iff. rewrite (pi_hash _ _ Hinv _ _ Hd).
  unfold ranked in Hr. rewrite list.Forall_forall in Hr. by apply Hr.
Qed.

Definition under (tx : MsgTx) : gset (list Z) := filter (fun h => (rank h < rank (TxHash tx))%nat) (dom (pool mp)).

Lemma under_size tx : (size (under tx) < S (size (pool mp)))%nat.
Proof using.
  clear Hinv. unfold under. assert (size (filter (fun h => (rank h < rank (TxHash tx))%nat) (dom (pool mp))) <= size (dom (pool mp)))%nat as H; [|rewrite size_dom in H; lia].
  apply subseteq_size. set_solver.
Qed.

Lemma under_parent tx p fuel : ranked rank tx -> parent tx p -> (size (under tx) < S fuel)%nat -> (size (under p) < fuel)%nat.
Proof using Hinv.
  intros Hr Hp Hf. enough (size (under p) < size (under tx))%nat by lia. apply subset_size.
  pose proof (parent_rank _ _ Hr Hp) as Hlt. destruct (parent_inPool _ _ Hp) as (d & Hd & _). unfold under. split.
  - intros h [Hh Hin]%elem_of_filter. apply elem_of_filter. split; [lia|done].
  - intros Hsub. assert (Hin : TxHash p ∈ filter (fun h => (rank h < rank (TxHash tx))%nat) (dom (pool mp))).
    { apply elem_of_filter. split; [done|]. apply elem_of_dom. by eexists. }
    apply Hsub, elem_of_filter in Hin as [Hin _]. lia.
Qed.

Lemma parents_cons ti ins : parents (ti :: ins) = option_list (d_Tx <$> pool mp !! Hash (PreviousOutPoint ti)) ++ parents ins.
Proof using. unfold parents. cbn [omap list_omap]. by destruct (d_Tx <$> _). Qed.

Lemma ancestorsLoop_spec fuel tx
    (IH : forall c cache, parent tx c -> cache_ok mp parent cache ->
      exists m cache', txAncestorsRec fuel mp c cache = Ok (m, cache') /\ holds (ancestor c) m /\ cache_ok mp parent cache') :
  forall ins acc l cache, (forall c, c ∈ parents ins -> parent tx c) ->
    Forall (inPool mp) l -> holds (reachedFrom parent l) acc -> cache_ok mp parent cache ->
    exists m cache', ancestorsLoop (txAncestorsRec fuel mp) mp ins acc cache = Ok (m, cache') /\
      holds (reachedFrom parent (l ++ parents ins)) m /\ cache_ok mp parent cache'.
Proof using Hinv.
  induction ins as [|ti ins IHi]; intros acc l cache Hp Hl Hacc Hca; cbn [ancestorsLoop].
  { exists acc, cache. split_and!; [done|by rewrite app_nil_r|done]. }
  rewrite parents_cons in *. destruct (pool mp !! Hash (PreviousOutPoint ti)) as [d|]; [|by apply IHi]. cbn [fmap option_fmap option_map] in *.
  set (c := d_Tx d) in *. assert (Hc : parent tx c) by (apply Hp; by left). pose proof (parent_inPool _ _ Hc) as Hcin.
  assert (Hp' : forall c, c ∈ parents ins -> parent tx c) by (intros c' Hc'; apply Hp; by right).
  assert (Hl2 : Forall (inPool mp) (l ++ [c])) by (apply list.Forall_app; split; [done|by constructor]).
  change (l ++ option_list (Some c) ++ ?r) with (l ++ [c] ++ r). rewrite app_assoc. destruct (cache !! TxHash c) as [more|] eqn:Hm.
  - pose proof (cache_lookup mp parent _ _ _ Hcin Hca Hm) as Hmore. apply IHi; try done. by apply (holds_add mp parent parent_inPool).
  - destruct (IH c cache Hc Hca) as (more & ca1 & -> & Hmore & Hca1). cbn [mbind outcome_bind].
    apply IHi; try done; [by apply (holds_add mp parent parent_inPool)|by apply cache_insert].
Qed.

Lemma txAncestorsRec_spec fuel : forall tx cache, ranked rank tx -> cache_ok mp parent cache -> (size (under tx) < fuel)%nat ->
  exists m cache', txAncestorsRec fuel mp tx cache = Ok (m, cache') /\ holds (ancestor tx) m /\ cache_ok mp parent cache'.
Proof using Hinv.
  induction fuel as [|fuel IH]; intros tx cache Hr Hca Hf; [lia|]. cbn [txAncestorsRec].
  destruct (ancestorsLoop_spec fuel tx) with (ins := TxIns tx) (acc := ∅ : gmap (list Z) MsgTx) (l := @nil MsgTx) (cache := cache)
    as (m & ca & -> & Hm & Hca'); [|done|constructor|apply holds_empty|done|].
  - intros c ca Hc Hca1. apply IH; [|done|by eapply under_parent]. eapply inPool_ranked; [done|by eapply parent_inPool].
  - exists m, ca. split_and!; [done| |done]. eapply holds_closure; [|exact Hm]. done.
Qed.

Lemma txAncestors_spec tx : ranked rank tx -> exists m, txAncestors mp tx = Ok m /\ holds (ancestor tx) m.
Proof using Hinv.
  intros Hr. unfold txAncestors. destruct (txAncestorsRec_spec (S (size (pool mp))) tx ∅) as (m & ca & -> & Hm & _);
    [done|apply cache_empty|apply under_size|]. by exists m.
Qed.

(** ** Signals *)
Definition signalled (tx : MsgTx) : Prop := exists ti, ti ∈ TxIns tx /\ Sequence ti <= MaxRBFSequence.
(** A transaction can be replaced when it or something it builds on in the
    pool says so. *)
Definition replaceable (tx : MsgTx) : Prop := signalled tx \/ exists p, ancestor tx p /\ signalled p.

Definition quiet (cache : gset (list Z)) : Prop := forall h d, h ∈ cache -> pool mp !! h = Some d -> ~ replaceable (d_Tx d).

Definition signalling (ins : list TxIn) : Prop :=
  exists ti, ti ∈ ins /\ (Sequence ti <= MaxRBFSequence \/
    exists d, pool mp !! Hash (PreviousOutPoint ti) = Some d /\ replaceable (d_Tx d)).

Lemma replaceable_iff tx : replaceable tx <-> signalling (TxIns tx).
Proof using.
  unfold signalling. split.
  - intros [(ti & Hti & Hs)|(p & Hp & Hs)]; [exists ti; split; [done|by left]|].
    inversion Hp as [a b Hab|a b c Hab Hbc]; subst; apply parent_iff in Hab as (ti & d & Hti & Hd & <-);
      exists ti; (split; [done|right]); exists d; (split; [done|]); [by left|right; by exists p].
  - intros (ti & Hti & [Hs|(d & Hd & [Hs|(p & Hp & Hs)])]).
    + left. by exists ti.
    + right. exists (d_Tx d). split; [|done]. apply tc_once, parent_iff. by exists ti, d.
    + right. exists p. split; [|done]. eapply tc_l; [|done]. apply parent_iff. by exists ti, d.
Qed.

Lemma signalling_cons ti ins : signalling (ti :: ins) <->
  (Sequence ti <= MaxRBFSequence \/ exists d, pool mp !! Hash (PreviousOutPoint ti) = Some d /\ replaceable (d_Tx d)) \/ signalling ins.
Proof using.
  unfold signalling. split.
  - intros (t & [->|Ht]%list.elem_of_cons & H); [by left|right; by exists t].
  - intros [H|(t & Ht & H)]; [exists ti; split; [by left|done]|exists t; split; [by right|done]].
Qed.

Lemma signalsLoop_spec fuel tx
    (IH : forall c cache, parent tx c -> quiet cache ->
      exists b cache', signalsReplacementRec fuel mp c cache = Ok (b, cache') /\ (b = true <-> replaceable c) /\ quiet cache') :
  forall ins cache, (forall c, c ∈ parents ins -> parent tx c) -> quiet cache ->
    exists b cache', signalsLoop (signalsReplacementRec fuel mp) mp ins cache = Ok (b, cache') /\ (b = true <-> signalling ins) /\ quiet cache'.
Proof using.
  induction ins as [|ti ins IHi]; intros cache Hp Hq; cbn [signalsLoop].
  { exists false, cache. split_and!; [done| |done]. split; [done|]. by intros (ti & ?%not_elem_of_nil & _). }
  rewrite parents_cons in Hp. destruct (Z.leb_spec (Sequence ti) MaxRBFSequence) as [Hs|Hs].
  { exists true, cache. split_and!; [done| |done]. split; [|done]. intros _. apply signalling_cons. by left; left. }
  assert (Hskip : (forall d, pool mp !! Hash (PreviousOutPoint ti) = Some d -> ~ replaceable (d_Tx d)) ->
    forall b, (b = true <-> signalling ins) -> (b = true <-> signalling (ti :: ins))).
  { intros Hn b ->. rewrite signalling_cons. split; [by right|]. intros [[?|(d & Hd & Hr)]|?]; [lia| |done]. by destruct (Hn d). }
  assert (Hp' : forall c, c ∈ parents ins -> parent tx c) by (intros c Hc; apply Hp, elem_of_app; by right).
  destruct (pool mp !! Hash (PreviousOutPoint ti)) as [d|] eqn:Hd; last first.
  { destruct (IHi cache Hp' Hq) as (b & ca & H1 & H2 & H3). exists b, ca. split_and!; [done|by apply Hskip|done]. }
  case_bool_decide as Hin.
  { destruct (IHi cache Hp' Hq) as (b & ca & H1 & H2 & H3). exists b, ca. split_and!; [done| |done].
    apply Hskip; [|done]. intros d' [= <-]. by apply (Hq _ _ Hin). }
  destruct (IH (d_Tx d) cache) as (b & ca & -> & Hb & Hca); [apply Hp; by left|done|]. cbn [mbind outcome_bind].
  destruct b.
  - exists true, ca. split_and!; [done| |done]. split; [|done]. intros _. apply signalling_cons. left; right. exists d. split; [done|by apply Hb].
  - assert (Hn : ~ replaceable (d_Tx d)) by (intros Hr; by apply Hb in Hr).
    destruct (IHi ({[Hash (PreviousOutPoint ti)]} ∪ ca) Hp') as (b & ca' & H1 & H2 & H3).
    { intros h d' [->%elem_of_singleton|Hh]%elem_of_union Hd'; [|by apply (Hca _ _ Hh)]. rewrite Hd in Hd'. by injection Hd' as <-. }
    exists b, ca'. split_and!; [done| |done]. apply Hskip; [|done]. by intros d' [= <-].
Qed.

Lemma signalsReplacementRec_spec fuel : forall tx cache, ranked rank tx -> quiet cache -> (size (under tx) < fuel)%nat ->
  exists b cache', signalsReplacementRec fuel mp tx cache = Ok (b, cache') /\ (b = true <-> replaceable tx) /\ quiet cache'.
Proof using Hinv.
  induction fuel as [|fuel IH]; intros tx cache Hr Hq Hf; [lia|]. cbn [signalsReplacementRec].
  destruct (signalsLoop_spec fuel tx) with (ins := TxIns tx) (cache := cache) as (b & ca & H1 & H2 & H3); [|done|done|].
  2: { exists b, ca. by rewrite replaceable_iff. }
  intros c ca Hc Hca. apply IH; [|done|by eapply under_parent]. eapply inPool_ranked; [done|by eapply parent_inPool].
Qed.

Lemma signalsReplacement_spec tx : ranked rank tx -> exists b, signalsReplacement mp tx = Ok b /\ (b = true <-> replaceable tx).
Proof using Hinv.
  intros Hr. unfold signalsReplacement. destruct (signalsReplacementRec_spec (S (size (pool mp))) tx ∅) as (b & ca & -> & Hb & _);
    [done|by intros h d ?%elem_of_empty|apply under_size|]. by exists b.
Qed.

(** ** Conflicts *)

(** The transactions of the pool that spend what [tx] spends, and what a
    replacement by [tx] evicts: these and all that builds on them. *)
Definition conflictors (tx : MsgTx) : list MsgTx := omap (fun op => outpoints mp !! op) (spends tx).
Definition evicted (tx : MsgTx) : MsgTx -> Prop := reachedFrom (child mp) (conflictors tx).

Lemma conflictors_inPool tx : Forall (inPool mp) (conflictors tx).
Proof using Hinv.
  apply list.Forall_forall. intros c Hc. apply list_elem_of_omap in Hc as (op & _ & Hop). by apply (pi_spent _ _ Hinv) in Hop as [? _].
Qed.

Lemma evicted_inPool tx y : evicted tx y -> inPool mp y.
Proof using Hinv.
  intros (c & Hc & Hr). pose proof (conflictors_inPool tx) as Hf. rewrite list.Forall_forall in Hf.
  destruct Hr as [->|Hr]; [by apply Hf|]. by eapply (descendant_inPool rank).
Qed.

Lemma conflictsLoop_spec ins : forall l acc, Forall (inPool mp) l -> holds (reachedFrom (child mp) l) acc ->
  exists m, conflictsLoop mp ins acc = Ok m /\ holds (reachedFrom (child mp) (l ++ omap (fun op => outpoints mp !! op) (PreviousOutPoint <$> ins))) m.
Proof using Hinv.
  induction ins as [|ti ins IH]; intros l acc Hl Hacc; cbn [conflictsLoop fmap list_fmap omap list_omap].
  { exists acc. by rewrite app_nil_r. }
  destruct (outpoints mp !! PreviousOutPoint ti) as [c|] eqn:Hc; [|by apply IH].
  assert (Hcin : inPool mp c) by (by apply (pi_spent _ _ Hinv) in Hc as [? _]).
  destruct (txDescendants_spec c) as (more & -> & Hmore). cbn [mbind outcome_bind].
  rewrite cons_middle, app_assoc. apply IH; [apply list.Forall_app; split; [done|by constructor]|].
  by apply (holds_add mp (child mp) below).
Qed.

Lemma txConflicts_spec tx : exists m, txConflicts mp tx = Ok m /\ holds (evicted tx) m.
Proof using Hinv.
  unfold txConflicts. destruct (conflictsLoop_spec (TxIns tx) [] ∅) as (m & Hm & Hh); [constructor|apply holds_empty|]. by exists m.
Qed.

Lemma poolDoubleSpends_spec cfg ins : forall b,
  let cs := omap (fun op => outpoints mp !! op) (PreviousOutPoint <$> ins) in
  poolDoubleSpends cfg mp ins b = Err (TxRuleError RejectDuplicate) \/
  (poolDoubleSpends cfg mp ins b = Ok (b || negb (bool_decide (cs = []))) /\
   (cs <> [] -> RejectReplacement (policy cfg) = false) /\ Forall replaceable cs).
Proof using Hinv.
  induction ins as [|ti ins IH]; intros b; cbn [poolDoubleSpends fmap list_fmap omap list_omap].
  { right. split_and!; [by rewrite bool_decide_true, orb_false_r|done|constructor]. }
  destruct (outpoints mp !! PreviousOutPoint ti) as [c|] eqn:Hc; [|by apply IH].
  destruct (RejectReplacement (policy cfg)) eqn:Hrej; [by left|].
  destruct (signalsReplacement_spec c) as (signals & -> & Hs).
  { eapply inPool_ranked; [done|]. by apply (pi_spent _ _ Hinv) in Hc as [? _]. }
  cbn [mbind outcome_bind]. destruct signals; cbn [negb]; [|by left].
  destruct (IH true) as [->|(-> & _ & Hf)]; [by left|right]. split_and!; [|done|].
  - rewrite orb_true_l, bool_decide_false by done. by destruct b.
  - constructor; [by apply Hs|done].
Qed.

Lemma checkPoolDoubleSpend_spec cfg tx :
  checkPoolDoubleSpend cfg mp tx = Err (TxRuleError RejectDuplicate) \/
  (checkPoolDoubleSpend cfg mp tx = Ok (negb (bool_decide (conflictors tx = []))) /\
   (conflictors tx <> [] -> RejectReplacement (policy cfg) = false) /\ Forall replaceable (conflictors tx)).
Proof using Hinv. apply (poolDoubleSpends_spec cfg (TxIns tx) false). Qed.

(** ** What a replacement pays *)

(** Every fee of the pool is an amount. *)
Definition fees_ok : Prop := map_Forall (fun _ d => 0 <= Fee d <= MaxSatoshi) (pool mp).

(** The descriptors of the transactions of a map. *)
Definition descriptors (ds : list TxDesc) (order : list (list Z * MsgTx)) : Prop :=
  (fun d => (TxHash (d_Tx d), d_Tx d)) <$> ds = order /\ Forall (fun d => pool mp !! TxHash (d_Tx d) = Some d) ds.

Lemma descriptors_exist P m order : holds P m -> (forall y, P y -> inPool mp y) -> order ≡ₚ map_to_list m ->
  exists ds, descriptors ds order.
Proof using.
  intros Hm HP Hord. assert (Hall : Forall (fun p => exists d, pool mp !! TxHash (d_Tx d) = Some d /\ (TxHash (d_Tx d), d_Tx d) = p) order).
  { rewrite Hord. apply list.Forall_forall. intros [h y] Hin. apply elem_of_map_to_list in Hin. apply Hm in Hin as [<- Hy].
    destruct (HP y Hy) as (d & Hd & <-). by exists d. }
  clear -Hall. induction Hall as [|p order (d & Hd & <-) _ (ds & <- & Hds)]; [by exists []|].
  exists (d :: ds). split; [done|by constructor].
Qed.

Lemma conflictFees_spec rate ds order : descriptors ds order -> Forall (fun d => 0 <= Fee d <= MaxSatoshi) ds -> Zlen ds <= 100 ->
  forall fee seen, 0 <= fee -> fee + MaxSatoshi * Zlen ds <= 100 * MaxSatoshi ->
  conflictFees mp rate order fee seen = Err (TxRuleError RejectInsufficientFee) \/
  (Forall (fun d => FeePerKB d < rate) ds /\ 0 <= sum (Fee <$> ds) <= MaxSatoshi * Zlen ds /\
   exists seen', conflictFees mp rate order fee seen = Ok (fee + sum (Fee <$> ds), seen')).
Proof using.
  intros [<- Hds] Hfees H100. induction ds as [|d ds IH]; intros fee seen Hf Hle; cbn [conflictFees fmap list_fmap].
  { right. split_and!; [constructor|done|done|]. exists seen. by rewrite Z.add_0_r. }
  apply list.Forall_cons in Hds as [Hd Hds], Hfees as [Hfd Hfees]. rewrite Zlen_cons in *. pose proof (Zlen_nonneg ds).
  rewrite Hd. destruct (Z.leb_spec rate (FeePerKB d)); [by left|]. rewrite i64_small by money.
  edestruct (IH Hds Hfees ltac:(lia) (fee + Fee d)) as [->|(Hrate & Hsum & seen' & ->)]; [money|money|by left|right].
  unfold sum in *. cbn [foldr]. split_and!; [by constructor|lia|money|]. exists seen'. do 2 f_equal. lia.
Qed.

Record pays (cfg : Config) (tx : MsgTx) (txFee : Z) (m : gmap (list Z) MsgTx) : Prop := {
  py_count : Z.of_nat (size m) <= MaxReplacementEvictions;
  py_ancestors : forall p, ancestor tx p -> ~ evicted tx p;
  py_fee : exists ds, (fun d => (TxHash (d_Tx d), d_Tx d)) <$> ds ≡ₚ map_to_list m /\
    Forall (fun d => pool mp !! TxHash (d_Tx d) = Some d) ds /\
    Forall (fun d => FeePerKB d < Z.quot (txFee * 1000) (GetTxVirtualSize tx)) ds /\
    sum (Fee <$> ds) + calcMinRequiredTxRelayFee (GetTxVirtualSize tx) (MinRelayTxFee (policy cfg)) <= txFee;
}.

Lemma calcMinRequiredTxRelayFee_range size fee : 0 <= calcMinRequiredTxRelayFee size fee <= MaxSatoshi.
Proof using.
  unfold calcMinRequiredTxRelayFee. set (m := if _ && _ then fee else _).
  destruct (Z.ltb_spec m 0), (Z.ltb_spec MaxSatoshi m); cbn [orb]; money.
Qed.

End Walks.

Section Replacement.
Context {C : Crypto} {W : World} (rank : list Z -> nat).

(** Nothing but the rate limiter, the hash cache and [round] changed. *)
Record same (mp mp' : TxPool) : Prop := {
  sm_txs : sameTxs mp mp';
  sm_orphans : sameOrphans mp mp';
}.
#[export] Instance same_preorder : PreOrder same.
Proof. split; [by split|]. intros a b c [H1 H2] [H3 H4]. split; by etrans. Qed.

Lemma same_tick mp mp' : same mp mp' -> same mp (tick mp').
Proof. intros [[H1 H2] [H3 H4]]. by split; split. Qed.

Lemma validateReplacement_ends cfg tx txFee mp : pool_inv rank mp -> fees_ok mp -> ranked rank tx -> 0 <= txFee <= MaxSatoshi ->
  ends False (fun _ mp' => same mp mp')
    (fun m mp' => same mp mp' /\ holds (evicted mp tx) m /\ pays mp cfg tx txFee m)
    (validateReplacement cfg tx txFee) mp.
Proof.
  intros Hinv Hfees Hr Hfee. unfold validateReplacement. apply ends_gets. change (id mp) with mp.
  destruct (txConflicts_spec rank mp Hinv tx) as (m & -> & Hm). change (lift (Ok m) ≫= ?k) with (fun s => k m s). cbn beta.
  destruct (Z.ltb_spec MaxReplacementEvictions (Z.of_nat (size m))) as [Hn|Hn]; [done|].
  destruct (txAncestors_spec rank mp Hinv tx Hr) as (a & -> & Ha). change (lift (Ok a) ≫= ?k) with (fun s => k a s). cbn beta.
  destruct (existsb _ _) eqn:Hdis; [done|]. apply ends_ranging. intros order Hord.
  destruct (descriptors_exist mp _ m order Hm (fun y => evicted_inPool rank mp Hinv tx y) Hord) as (ds & Hds).
  assert (Hlen : Zlen ds <= 100).
  { unfold Zlen, MaxReplacementEvictions in *. destruct Hds as [Heq _]. apply (f_equal length) in Heq. rewrite length_fmap in Heq.
    apply Permutation_length in Hord. rewrite length_map_to_list in Hord. lia. }
  assert (Hdf : Forall (fun d => 0 <= Fee d <= MaxSatoshi) ds).
  { destruct Hds as [_ Hp]. eapply list.Forall_impl; [exact Hp|]. intros d Hd. by apply (Hfees _ _ Hd). }
  pose proof (Zlen_nonneg ds) as Hlz.
  destruct (conflictFees_spec mp (Z.quot (i64 (txFee * 1000)) (GetTxVirtualSize tx)) ds order Hds Hdf Hlen 0 ∅ ltac:(lia)) as [->|(Hrate & Hsum & seen & ->)];
    [money|by apply same_tick|].
  change (lift (Ok ?x) ≫= ?k) with (fun s => k x s). cbn beta iota.
  set (minFee := calcMinRequiredTxRelayFee _ _). pose proof (calcMinRequiredTxRelayFee_range (GetTxVirtualSize tx) (MinRelayTxFee (policy cfg))) as Hmin.
  fold minFee in Hmin. rewrite Z.add_0_l. rewrite (i64_small (_ + minFee)) by money.
  destruct (Z.ltb_spec txFee (sum (Fee <$> ds) + minFee)); [by apply same_tick|].
  destruct (newUnconfirmed mp seen tx); [by apply same_tick|].
  split_and!; [by apply same_tick|done|]. destruct Hds as [Heq Hp]. split; [done| |].
  - intros p Hp' He. apply not_true_iff_false in Hdis. apply Hdis, existsb_exists. exists (TxHash p, p). split.
    + apply list_elem_of_In, elem_of_map_to_list. by apply Ha.
    + apply bool_decide_eq_true_2. exists p. by apply Hm.
  - exists ds. split_and!; [by rewrite Heq|done| |done]. rewrite i64_small in Hrate by money. done.
Qed.

End Replacement.
End MempoolRbf.
