(* ===== verification/MempoolRun.v ===== *)
(** * Runs of the transaction pool

    Acceptance, replacement and the orphans of [Mempool] put together: what
    one call does to the pool, and the invariant over any sequence of calls.
    A call returns a value or an error when the functions of the chain that
    the pool is given do and its transactions hold bytes ([fit]): it neither
    panics nor runs for ever. *)

From Stdlib Require Import Floats.SpecFloat.
From S2P Require Import Prelude ScriptNum Wire Tokenizer Builder SigHash SigCheck Opcodes Engine Merkle Difficulty Utxo TxRules ScriptVal Deployments BlockRules Standard MempoolPolicy Returns Mempool MempoolInv MempoolRbf.

Module MempoolRun.
Import ScriptNum Wire Tokenizer Builder SigHash SigCheck Opcodes Engine Merkle Difficulty Utxo TxRules ScriptVal Standard MempoolPolicy Returns Mempool MempoolInv MempoolRbf.

(** ** Fees are amounts *)
Lemma sumInputs_range ins height view params : forall t t', 0 <= t <= MaxSatoshi -> sumInputs ins height view params t = Ok t' ->
  0 <= t' <= MaxSatoshi.
Proof.
  induction ins as [|ti ins IH]; intros t t' Ht; cbn [sumInputs]; [by intros [= <-]|].
  destruct (LookupEntry _ _) as [utxo|]; [|done]. destruct (IsSpent utxo); [done|]. destruct (_ && _); [done|].
  destruct (Z.ltb_spec (amount utxo) 0); [done|]. destruct (Z.ltb_spec MaxSatoshi (amount utxo)); [done|].
  rewrite i64_small by money. destruct ((_ <? t) || _) eqn:Hc; [done|]. intros Hrun.
  apply orb_false_iff in Hc as [_ Hc]. apply Z.ltb_ge in Hc. refine (IH _ _ _ Hrun). lia.
Qed.

Lemma CheckTransactionInputs_range tx height view params fee : sane tx -> IsCoinBaseTx tx = false ->
  CheckTransactionInputs tx height view params = Ok fee -> 0 <= fee <= MaxSatoshi.
Proof.
  intros Hs Hcb. unfold CheckTransactionInputs. rewrite Hcb, totalOut_sum by apply Hs.
  pose proof (outSum_nonneg (TxOuts tx) ltac:(apply Hs)). intros Hrun. apply outcome_bind_ok in Hrun as (t & Hsum & Hrun).
  apply sumInputs_range in Hsum; [|money]. destruct (Z.ltb_spec t (outSum (TxOuts tx))); [done|].
  injection Hrun as <-. rewrite i64_small by money. lia.
Qed.

Section Run.
Context {C : Crypto} {W : World} (Pow : float64 -> float64 -> float64) (fuel : nat) (sigCache : option SigCache).

(** Neither a value nor an error. *)
Definition crashes {E A} (m : outcome E A) : Prop := m = Panic \/ m = Hang.

(** What a transaction and the chain must be for a call on the transaction to
    end: scripts of bytes, no program nested in a P2SH output that makes the
    engine panic ([EngineFacts.nested_v1_panics]), as many steps as its
    longest script takes, and functions of the chain that return; its views
    hold bytes and have an entry for every input. *)
Record fit (cfg : Config) (tx : MsgTx) : Prop := {
  ft_laws : HashLaws crypto_hashes;
  ft_decoded : decoded tx;
  ft_plain : plain tx;
  ft_steps : enough fuel tx;
  ft_deployment : safe (IsDeploymentActive cfg Deployments.DeploymentSegwit) (fun _ => True);
  ft_view : safe (FetchUtxoView cfg tx) (fun view => view_ok view /\
    Forall (fun ti => is_Some (entries view !! PreviousOutPoint ti)) (TxIns tx));
  ft_lock view : view_ok view -> knows view tx -> safe (CalcSequenceLock cfg tx view) (fun _ => True);
}.

(** And the pool: it has the cache of midstates, and outputs of bytes. *)
Record sound (mp : TxPool) : Prop := {
  sd_cache : is_Some (hashCache mp);
  sd_outs : map_Forall (fun _ d => outs_ok (TxOuts (d_Tx d))) (pool mp);
}.
Definition stuckOn (cfg : Config) (tx : MsgTx) (mp : TxPool) : Prop := ~ (fit cfg tx /\ sound mp).

Lemma safe_calm {E A} (m : outcome E A) P : safe m P -> ~ (m = Panic \/ m = Hang).
Proof. by destruct m; [intros _ [?|?]|intros _ [?|?]|..]. Qed.
Lemma ofChain_safe {A} (m : outcome RuleError A) P : safe m P -> safe (ofChain m : outcome PoolError A) P.
Proof. by destruct m. Qed.

Lemma ofChain_crash {A} (m : outcome RuleError A) : ofChain m = Panic \/ ofChain m = Hang -> crashes m.
Proof. unfold crashes. destruct m; cbn; intros [?|?]; auto; done. Qed.

Lemma sumOutputs_calm outs : forall t, ~ crashes (sumOutputs outs t).
Proof.
  unfold crashes. induction outs as [|o outs IH]; intros t; cbn [sumOutputs]; [by intros [?|?]|].
  repeat (case_match; [by intros [?|?]|]). apply IH.
Qed.
Lemma duplicateInputs_calm ins : forall seen, ~ crashes (duplicateInputs ins seen).
Proof.
  unfold crashes. induction ins as [|ti ins IH]; intros seen; cbn [duplicateInputs]; [by intros [?|?]|].
  case_bool_decide; [by intros [?|?]|apply IH].
Qed.

Lemma CheckTransactionSanity_calm tx : ~ crashes (CheckTransactionSanity tx).
Proof.
  unfold crashes, CheckTransactionSanity. destruct (Zlen (TxIns tx) =? 0) eqn:Hi; [by intros [?|?]|]. do 2 (case_match; [by intros [?|?]|]).
  pose proof (sumOutputs_calm (TxOuts tx) 0) as H1. pose proof (duplicateInputs_calm (TxIns tx) ∅) as H2. unfold crashes in *.
  destruct (sumOutputs (TxOuts tx) 0); try (exfalso; auto; fail); cbn [mbind outcome_bind]; [|by intros [?|?]].
  destruct (duplicateInputs (TxIns tx) ∅); try (exfalso; auto; fail); cbn [mbind outcome_bind]; [|by intros [?|?]].
  destruct (IsCoinBaseTx tx).
  - destruct (TxIns tx) as [|ti ins]; [done|]. rewrite index_cons_0, bind_Ok. case_match; by intros [?|?].
  - case_match; by intros [?|?].
Qed.

Lemma sumInputs_calm ins height view params : forall t, ~ crashes (sumInputs ins height view params t).
Proof.
  unfold crashes. induction ins as [|ti ins IH]; intros t; cbn [sumInputs]; [by intros [?|?]|].
  destruct (LookupEntry _ _); [|by intros [?|?]]. repeat (case_match; [by intros [?|?]|]). apply IH.
Qed.

Lemma CheckTransactionInputs_calm tx height view params : ~ crashes (CheckTransactionInputs tx height view params).
Proof.
  unfold crashes, CheckTransactionInputs. destruct (IsCoinBaseTx tx); [by intros [?|?]|].
  pose proof (sumInputs_calm (TxIns tx) height view params 0) as H. unfold crashes in H.
  destruct (sumInputs _ _ _ _ _); try (exfalso; auto; fail); cbn [mbind outcome_bind]; [|by intros [?|?]]. case_match; by intros [?|?].
Qed.

(** ** Acceptance *)
Section Accept.
Context (rank : list Z -> nat).

Lemma same_child mp mp' : sameTxs mp mp' -> child mp' = child mp.
Proof. intros [_ H]. unfold child. by rewrite H. Qed.
Lemma same_evicted mp mp' tx : sameTxs mp mp' -> evicted mp' tx = evicted mp tx.
Proof. intros Hs. unfold evicted, conflictors. by rewrite (same_child _ _ Hs), (st_outpoints _ _ Hs). Qed.
Lemma same_ancestor mp mp' : sameTxs mp mp' -> ancestor mp' = ancestor mp.
Proof. intros [H _]. unfold ancestor, parent, parents. by rewrite H. Qed.
Lemma same_pays mp mp' cfg tx fee m : sameTxs mp mp' -> pays mp' cfg tx fee m -> pays mp cfg tx fee m.
Proof.
  intros Hs [H1 H2 (ds & H3 & H4 & H5 & H6)]. split; [done| |].
  - by rewrite <- (same_evicted mp mp'), <- (same_ancestor mp mp').
  - exists ds. rewrite <- (st_pool _ _ Hs). done.
Qed.
Lemma same_fees mp mp' : sameTxs mp mp' -> fees_ok mp -> fees_ok mp'.
Proof. intros [H _]. unfold fees_ok. by rewrite H. Qed.

Lemma rateLimiter_ends cfg txSize mp :
  ends False (fun _ mp' => same mp mp') (fun _ mp' => same mp mp') (rateLimiter Pow cfg txSize) mp.
Proof.
  unfold rateLimiter. apply ends_now. intros now. apply ends_gets, ends_modify. destruct (SFleb _ _); by split; split.
Qed.

Lemma validateRelayFeeMet_ends cfg tx fee size view height isNew rateLimit mp :
  ends False (fun _ mp' => same mp mp') (fun _ mp' => same mp mp') (validateRelayFeeMet Pow cfg tx fee size view height isNew rateLimit) mp.
Proof.
  unfold validateRelayFeeMet. repeat (match goal with |- ends _ _ _ (if ?b then _ else _) _ => destruct b; [done|] end). apply rateLimiter_ends.
Qed.

Lemma standard_flags : segwitActive StandardVerifyFlags = true.
Proof. reflexivity. Qed.

Lemma validateScripts_ends (G : Prop) cfg tx view mp : (G -> fit cfg tx /\ is_Some (hashCache mp) /\ view_ok view /\ knows view tx) ->
  ends (~ G) (fun _ mp' => same mp mp') (fun _ mp' => same mp mp') (validateScripts fuel sigCache tx view) mp.
Proof.
  intros HG. unfold validateScripts. apply ends_gets.
  assert (Hsafe : G ->
    safe (ValidateTransactionScripts fuel view StandardVerifyFlags sigCache tx (hashCache mp)) (fun r => is_Some r.2)).
  { intros (Hf & Hc & Hv & Hk)%HG. destruct Hf as [HL Hd Hp Hst _ _ _].
    apply ValidateTransactionScripts_safe; try done. left. exact standard_flags. }
  unfold ends. destruct (ValidateTransactionScripts _ _ _ _ _ _) as [[err h]|e| |] eqn:Hval; unfold lift, mbind, stateful_bind; cbn [ofChain];
    [|done|exact Hsafe..].
  assert (Hs : same mp (setHashCache h mp)) by (split; split; try done; by eapply ValidateTransactionScripts_cache).
  by destruct err.
Qed.

(** What is known of an accepted transaction. *)
Record accepted (cfg : Config) (mp : TxPool) (tx : MsgTx) (r : MempoolAcceptResult) : Prop := {
  ac_fee : 0 <= TxFee r <= MaxSatoshi;
  ac_conflicts : holds (evicted mp tx) (Conflicts r);
  ac_pays : conflictors mp tx <> [] -> pays mp cfg tx (TxFee r) (Conflicts r);
}.

Lemma validateStandardness_safe cfg tx height past view : decoded tx -> sane tx -> view_ok view -> knows view tx ->
  safe (validateStandardness cfg tx height past view) (fun _ => True).
Proof.
  intros Hd Hs Hv Hk. unfold validateStandardness. apply safe_if; [done|intros _].
  assert (Hret : forall A (m : outcome PoolError A), safe m (fun _ => True) -> safe (retained m) (fun _ => True)) by (by intros A []).
  eapply safe_bind; [by apply Hret, CheckTransactionStandard_safe|]. intros _ _ _. apply Hret, inputsStandard_safe; [done|apply Hd|exact Hk].
Qed.

Lemma checkComplete_ends cfg tx isNew rateLimit view mp : pool_inv rank mp -> fees_ok mp -> ranked rank tx -> sane tx -> IsCoinBaseTx tx = false ->
  (fit cfg tx /\ sound mp -> view_ok view /\ knows view tx) ->
  ends (stuckOn cfg tx mp) (fun _ mp' => same mp mp')
    (fun r mp' => same mp mp' /\ MissingParents r = [] /\ accepted cfg mp tx r)
    (checkComplete Pow fuel sigCache cfg tx (negb (bool_decide (conflictors mp tx = []))) isNew rateLimit view) mp.
Proof.
  intros Hinv Hfees Hr Hs Hcb Hview. unfold checkComplete.
  apply (ends_step _ _ (fun fee mp' => mp' = mp /\ 0 <= fee <= MaxSatoshi)).
  { apply ends_lift; [|done|].
    - intros Hc. apply ofChain_crash in Hc. by apply CheckTransactionInputs_calm in Hc.
    - intros fee Hf. split; [done|]. destruct (CheckTransactionInputs _ _ _ _) as [fee'| | |] eqn:Hci; try done. injection Hf as <-.
      by eapply CheckTransactionInputs_range. }
  intros fee ? [-> Hfee]. apply (ends_step _ _ (fun _ mp' => mp' = mp)).
  { apply ends_lift; [|done|done]. intros Hc Hg. destruct (Hview Hg) as [Hv Hk]. destruct Hg as [Hf _].
    refine (safe_calm _ _ (validateStandardness_safe cfg tx _ _ view _ Hs Hv Hk) Hc). apply Hf. }
  intros [] ? ->. apply (ends_step _ _ (fun _ mp' => mp' = mp)).
  { apply ends_lift; [|done|done]. intros Hc Hg. destruct (Hview Hg) as [Hv Hk]. destruct Hg as [Hf _].
    exact (safe_calm _ _ (ofChain_safe _ _ (ft_lock _ _ Hf view Hv Hk)) Hc). }
  intros lock ? ->. destruct (negb (SequenceLockActive _ _ _)); [done|]. apply (ends_step _ _ (fun _ mp' => mp' = mp)).
  { apply ends_lift; [|done|done]. unfold validateSigCost. intros Hc Hg. destruct (Hview Hg) as [Hv Hk]. destruct Hg as [Hf _].
    refine (safe_calm _ (fun _ => True) _ Hc).
    eapply safe_bind with (P := fun _ => True); [apply ofChain_safe, GetSigOpCost_safe; [done|apply Hf]|].
    intros n _ _. by apply safe_if. }
  intros [] ? ->. apply (ends_step _ _ (fun _ mp' => same mp mp')).
  { eapply ends_mono; [apply validateRelayFeeMet_ends|done|done|done]. }
  intros [] mp1 Hs1. apply (ends_step _ _ (fun m mp' => same mp mp' /\ holds (evicted mp tx) m /\ (conflictors mp tx <> [] -> pays mp cfg tx fee m))).
  { case_bool_decide as Hc; cbn [negb].
    - split_and!; [done| |done]. unfold evicted. rewrite Hc. apply holds_empty.
    - eapply ends_mono; [apply (validateReplacement_ends rank)|done| |].
      + by eapply pool_inv_same; [apply Hs1|].
      + by eapply same_fees; [apply Hs1|].
      + done.
      + done.
      + intros ? mp2 H2. by etrans.
      + intros m mp2 (H2 & Hm & Hp). rewrite (same_evicted mp mp1) in Hm by apply Hs1.
        split_and!; [by etrans|done|]. intros _. eapply same_pays; [apply Hs1|done]. }
  intros m mp2 (Hs2 & Hm & Hp). apply (ends_step _ _ (fun _ mp' => same mp mp')).
  { eapply ends_mono; [apply (validateScripts_ends (fit cfg tx /\ sound mp) cfg tx)|done| |]; try (intros ? mp3 H3; by etrans).
    intros Hg. destruct (Hview Hg) as [Hv Hk]. destruct Hg as [Hf Hsd]. split_and!; [done| |done|done].
    by apply (st_cache _ _ (sm_txs _ _ Hs2)), Hsd. }
  intros [] mp3 Hs3. split_and!; [done|done|]. by split.
Qed.

(** The view of the pool, and without the outputs of the transaction. *)
Lemma poolInputs_safe mp ins : sound mp -> Forall in_ok ins -> forall view, view_ok view ->
  safe (poolInputs mp ins view) (fun view' => view_ok view' /\ grows view view').
Proof.
  intros Hsd Hins. induction Hins as [|ti ins (_ & _ & _ & Hi) _ IH]; intros view Hv; cbn [poolInputs]; [by split; [|intros ?]|].
  destruct (match LookupEntry _ _ with Some _ => _ | None => _ end); [by apply IH|].
  destruct (pool mp !! _) as [d|] eqn:Hd; [|by apply IH].
  destruct (AddTxOut_returns (d_Tx d) (Index (PreviousOutPoint ti)) UnminedHeight view (sd_outs _ Hsd _ _ Hd) Hi Hv) as (v & -> & Hv' & Hg).
  cbn [ofChain]. rewrite bind_Ok. eapply safe_mono; [by apply IH|]. intros v' _ [H1 H2]. split; [done|]. intros op Hop. by apply H2, Hg.
Qed.

Lemma dropOwnOutputs_ok h outs : forall i view view', view_ok view -> dropOwnOutputs h i outs view = Ok view' ->
  view_ok view' /\ forall op, Hash op <> h -> entries view' !! op = entries view !! op.
Proof.
  induction outs as [|o outs IH]; intros i view view' Hv; cbn [dropOwnOutputs]; [by intros [= <-]|].
  destruct (match LookupEntry _ _ with Some _ => _ | None => _ end); [done|]. intros [H1 H2]%IH; [|by apply view_ok_remove].
  split; [done|]. intros op Hne. rewrite H2 by done. unfold RemoveEntry. cbn [entries]. apply lookup_delete_ne. by intros <-.
Qed.

Lemma dropOwnOutputs_calm h outs : forall i view, ~ crashes (dropOwnOutputs h i outs view).
Proof.
  unfold crashes. induction outs as [|o outs IH]; intros i view; cbn [dropOwnOutputs]; [by intros [?|?]|].
  destruct (match LookupEntry _ _ with Some _ => _ | None => _ end); [by intros [?|?]|apply IH].
Qed.

Lemma fetchInputUtxos_safe cfg mp tx : fit cfg tx -> sound mp ->
  safe (fetchInputUtxos cfg mp tx) (fun view => view_ok view /\ Forall (fun ti => is_Some (entries view !! PreviousOutPoint ti)) (TxIns tx)).
Proof.
  intros Hf Hsd. unfold fetchInputUtxos. eapply safe_bind; [apply ofChain_safe, (ft_view _ _ Hf)|]. intros view _ [Hv Hall].
  eapply safe_mono; [apply poolInputs_safe; [done|apply Hf|done]|]. intros view' _ [H1 H2]. split; [done|].
  eapply list.Forall_impl; [exact Hall|]. intros ti. apply H2.
Qed.

(** What the checks are made on, when no parent is missing. *)
Lemma complete_view cfg mp tx view0 view order : ranked rank tx -> sound mp -> fetchInputUtxos cfg mp tx = Ok view0 ->
  dropOwnOutputs (TxHash tx) 0 (TxOuts tx) view0 = Ok view -> order ≡ₚ map_to_list (entries view) ->
  filter (fun e => missing e = true) order = [] -> fit cfg tx -> view_ok view /\ knows view tx.
Proof.
  intros Hr Hsd Hfetch Hdrop Hord Hnone Hf. destruct (safe_ok _ _ _ (fetchInputUtxos_safe cfg mp tx Hf Hsd) Hfetch) as [Hv Hall].
  destruct (dropOwnOutputs_ok _ _ _ _ _ Hv Hdrop) as [Hv' Hkept]. split; [done|]. unfold knows.
  rewrite list.Forall_forall in Hall |- *. intros ti Hti. destruct (Hall ti Hti) as [e He]. rewrite <- Hkept in He.
  - destruct (missing (PreviousOutPoint ti, e)) eqn:Hm.
    + exfalso. apply (not_elem_of_nil (PreviousOutPoint ti, e)). rewrite <- Hnone. apply list_elem_of_filter. split; [done|].
      rewrite Hord. by apply elem_of_map_to_list.
    + unfold LookupEntry. rewrite He. cbn. unfold missing in Hm. cbn in Hm. destruct e; [by eexists|done].
  - intros Heq. pose proof (ranked_spends rank tx (PreviousOutPoint ti) Hr) as Hlt. rewrite Heq in Hlt.
    assert (PreviousOutPoint ti ∈ spends tx) by (by apply list_elem_of_fmap_2). specialize (Hlt H). lia.
Qed.

(** A transaction as Go's types allow it. *)
Definition values_ok (tx : MsgTx) : Prop := Forall (fun o => - 2 ^ 63 <= Value o < 2 ^ 63) (TxOuts tx).

Lemma checkMempoolAcceptance_ends cfg tx isNew rateLimit rejectDup mp : pool_inv rank mp -> fees_ok mp -> ranked rank tx -> values_ok tx ->
  ends (stuckOn cfg tx mp) (fun _ mp' => same mp mp')
    (fun r mp' => same mp mp' /\ pool mp !! TxHash tx = None /\ (rejectDup = true -> orphans mp !! TxHash tx = None) /\
       (conflictors mp tx <> [] -> RejectReplacement (policy cfg) = false) /\ Forall (replaceable mp) (conflictors mp tx) /\
       (MissingParents r = [] -> accepted cfg mp tx r))
    (checkMempoolAcceptance Pow fuel sigCache cfg tx isNew rateLimit rejectDup) mp.
Proof.
  intros Hinv Hfees Hr Hv. unfold checkMempoolAcceptance. apply (ends_step _ _ (fun _ mp' => mp' = mp)).
  { apply ends_lift; [|done|done]. unfold validateSegWitDeployment. intros Hc. destruct (negb _); [by destruct Hc|].
    intros [Hf _]. pose proof (ft_deployment _ _ Hf) as Hd. by destruct (IsDeploymentActive _ _) as [[]|e| |]; destruct Hc. }
  intros [] ? ->. apply ends_gets. unfold isTransactionInPool, isOrphanInPool.
  destruct (bool_decide (is_Some (pool mp !! TxHash tx)) || _) eqn:Hdup; [done|]. apply orb_false_iff in Hdup as [Hnew Horph].
  apply bool_decide_eq_false in Hnew. rewrite <- eq_None_not_Some in Hnew.
  apply (ends_step _ _ (fun _ mp' => mp' = mp /\ sane tx)).
  { apply ends_lift; [|done|].
    - intros Hc. apply ofChain_crash in Hc. by apply CheckTransactionSanity_calm in Hc.
    - intros [] Hok. split; [done|]. apply CheckTransactionSanity_iff; [exact Hv|]. by destruct (CheckTransactionSanity tx) as [[]| | |]. }
  intros [] ? [-> Hs]. destruct (IsCoinBaseTx tx) eqn:Hcb; [done|]. apply ends_gets. change (id mp) with mp.
  destruct (checkPoolDoubleSpend_spec rank mp Hinv cfg tx) as [->|(-> & Hrr & Hsig)]; [done|].
  change (lift (Ok ?b) ≫= ?k) with (fun s => k b s). cbn beta.
  apply (ends_step _ _ (fun view mp' => mp' = mp /\ fetchInputUtxos cfg mp tx = Ok view)).
  { apply ends_lift; [|done|by intros view Hview]. intros Hc [Hf Hsd]. exact (safe_calm _ _ (fetchInputUtxos_safe cfg mp tx Hf Hsd) Hc). }
  intros view0 ? [-> Hview0]. apply (ends_step _ _ (fun view mp' => mp' = mp /\ dropOwnOutputs (TxHash tx) 0 (TxOuts tx) view0 = Ok view)).
  { apply ends_lift; [|done|by intros view Hview]. intros Hc. by apply dropOwnOutputs_calm in Hc. }
  intros view ? [-> Hview]. apply ends_ranging. intros order Hperm.
  assert (Hst : same mp (tick mp)) by (by split; split).
  assert (Ho : rejectDup = true -> orphans mp !! TxHash tx = None).
  { intros ->. cbn in Horph. apply bool_decide_eq_false in Horph. by rewrite <- eq_None_not_Some in Horph. }
  destruct (Z.ltb_spec 0 (Zlen ((fun e => Hash e.1) <$> filter (fun e => missing e = true) order))) as [Hm|Hm].
  - split_and!; [done..|]. cbn [MissingParents]. intros Hz. rewrite Hz in Hm. unfold Zlen in Hm. cbn in Hm. lia.
  - change (conflictors mp tx) with (conflictors (tick mp) tx).
    assert (Hnone : filter (fun e => missing e = true) order = []).
    { destruct (filter _ order) as [|e l]; [done|]. rewrite fmap_cons, Zlen_cons in Hm. pose proof (Zlen_nonneg ((fun e => Hash e.1) <$> l)). lia. }
    eapply ends_mono; [apply (checkComplete_ends cfg tx isNew rateLimit view (tick mp))| | |]; try done.
    + by apply pool_inv_tick.
    + intros [Hf Hsd]. apply (complete_view cfg mp tx view0 view order); try done. by destruct Hsd.
    + intros Hn [Hf Hsd]. apply Hn. split; [done|]. by destruct Hsd.
    + intros ? mp' H1. by etrans.
    + intros r mp' (H1 & H2 & [H3 H4 H5]). split_and!; [by etrans|done|done|done|done|]. intros _.
      split; [done|done|]. intros Hc. apply (same_pays mp (tick mp)); [by split|by apply H5].
Qed.

(** The conflicts leave, and nothing else. *)
Lemma removeTransaction_one tx d mp : pool_inv rank mp -> pool mp !! TxHash tx = Some d ->
  runs (fun _ mp' => pool_inv rank mp' /\ left mp mp' /\ pool mp' = delete (TxHash tx) (pool mp)) (removeTransaction tx false) mp.
Proof.
  intros Hinv Hd. unfold removeTransaction. apply ends_gets. cbn [removeTransactionRec]. change (mret () ≫= ?k) with (k ()).
  apply ends_gets. rewrite Hd. by apply removeDesc_runs.
Qed.

Lemma removeConflicts_runs order : forall mp, pool_inv rank mp -> NoDup order.*1 ->
  Forall (fun p => TxHash p.2 = p.1 /\ is_Some (pool mp !! p.1)) order ->
  runs (fun _ mp' => pool_inv rank mp' /\ left mp mp' /\
    forall h, pool mp' !! h = if decide (h ∈ order.*1) then None else pool mp !! h) (removeConflicts order) mp.
Proof.
  induction order as [|[h c] order IH]; intros mp Hinv Hnd Hf; cbn [removeConflicts].
  { split_and!; [done|done|]. intros h. by rewrite decide_False by (by intros ?%not_elem_of_nil). }
  cbn in Hnd. apply list.NoDup_cons in Hnd as [Hn Hnd]. apply list.Forall_cons in Hf as [[Hh [d Hd]] Hf]. cbn in Hh, Hd. rewrite <- Hh in Hd.
  apply ends_gets. rewrite Hd. eapply ends_step; [by eapply removeTransaction_one|].
  intros _ mp1 (Hi1 & Hl1 & Hp1). eapply runs_mono; [apply IH; [done|done|]|].
  - rewrite list.Forall_forall in Hf |- *. intros [h' c'] Hin. destruct (Hf _ Hin) as [He Hs]. split; [done|]. cbn in *.
    rewrite Hp1, lookup_delete_ne; [done|]. rewrite Hh. intros <-. apply Hn. apply list_elem_of_fmap. by exists (h, c').
  - intros _ mp2 (Hi2 & Hl2 & Hp2). split_and!; [done|by etrans|]. intros h'. rewrite Hp2, Hp1. cbn [fmap list_fmap fst].
    destruct (decide (h' ∈ order.*1)) as [Hin|Hin]; [by rewrite decide_True by (by right)|].
    destruct (decide (h' = h)) as [->|Hne].
    + rewrite decide_True by (by left). rewrite Hh. apply lookup_delete_eq.
    + rewrite lookup_delete_ne by congruence. by rewrite decide_False by (by intros [?|?]%list.elem_of_cons).
Qed.

Lemma addTransaction_runs view tx height fee mp : pool_inv rank mp -> ranked rank tx -> pool mp !! TxHash tx = None ->
  (forall op, op ∈ spends tx -> outpoints mp !! op = None) ->
  runs (fun d mp' => pool_inv rank mp' /\ sameOrphans mp mp' /\ pool mp' = <[TxHash tx := d]> (pool mp) /\
    d_Tx d = tx /\ Fee d = fee /\ FeePerKB d = Z.quot (i64 (fee * 1000)) (GetTxVirtualSize tx)) (addTransaction view tx height fee) mp.
Proof.
  intros [Hh Hs Hr] Hrk Hnew Hfree. unfold addTransaction. apply ends_now. intros added. apply ends_modify, ends_modify, ends_now. intros now.
  apply ends_modify. split_and!; try done. split; cbn [pool outpoints setLastUpdated setOutpoints setPool tick].
  - intros h d Hd. apply lookup_insert_Some in Hd as [[<- <-]|[_ Hd]]; [done|by apply Hh].
  - intros op tx'. rewrite takeInputs_lookup. unfold inPool. cbn [pool outpoints setLastUpdated setOutpoints setPool tick].
    destruct (decide (op ∈ spends tx)) as [Hop|Hop].
    + split; [intros [= <-]; split; [eexists; split; [apply lookup_insert_eq|done]|done]|].
      intros [(d & Hd & Htx) Hop']. apply lookup_insert_Some in Hd as [[He <-]|[_ Hd]]; [by subst|].
      exfalso. specialize (Hfree op Hop). assert (outpoints mp !! op = Some tx') by (apply Hs; split; [by exists d|done]). congruence.
    + rewrite Hs. split; intros [(d & Hd & Htx) Hop']; (split; [|done]).
      * exists d. split; [|done]. rewrite lookup_insert_ne; [done|]. intros He. by rewrite <- He, Hnew in Hd.
      * apply lookup_insert_Some in Hd as [[He <-]|[_ Hd]]; [subst; done|by exists d].
  - intros h d Hd. apply lookup_insert_Some in Hd as [[<- <-]|[_ Hd]]; [done|by eapply Hr].
Qed.

(** An accepted transaction in the place of what it evicts. *)
Record replaced (cfg : Config) (mp : TxPool) (tx : MsgTx) (d : TxDesc) (mp' : TxPool) : Prop := {
  rp_inv : pool_inv rank mp';
  rp_orphans : sameOrphans mp mp';
  rp_new : pool mp !! TxHash tx = None;
  rp_tx : d_Tx d = tx;
  rp_fee : 0 <= Fee d <= MaxSatoshi;
  rp_rate : FeePerKB d = Z.quot (Fee d * 1000) (GetTxVirtualSize tx);
  rp_pool : forall h d', pool mp' !! h = Some d' <->
    (h = TxHash tx /\ d' = d) \/ (pool mp !! h = Some d' /\ ~ evicted mp tx (d_Tx d'));
  rp_allowed : conflictors mp tx <> [] -> RejectReplacement (policy cfg) = false;
  rp_signals : Forall (replaceable mp) (conflictors mp tx);
  rp_pays : conflictors mp tx <> [] -> exists m, holds (evicted mp tx) m /\ pays mp cfg tx (Fee d) m;
}.

Lemma maybeAcceptTransaction_ends cfg tx isNew rateLimit rejectDup mp : pool_inv rank mp -> fees_ok mp -> ranked rank tx -> values_ok tx ->
  ends (stuckOn cfg tx mp) (fun _ mp' => same mp mp')
    (fun r mp' => (rejectDup = true -> orphans mp !! TxHash tx = None) /\
       match r with
       | (missing, None) => missing <> [] /\ same mp mp'
       | (missing, Some d) => missing = [] /\ replaced cfg mp tx d mp'
       end)
    (maybeAcceptTransaction Pow fuel sigCache cfg tx isNew rateLimit rejectDup) mp.
Proof.
  intros Hinv Hfees Hr Hv. unfold maybeAcceptTransaction. eapply ends_step; [by apply checkMempoolAcceptance_ends|].
  intros r mp1 (Hs1 & Hnew & Ho & Hrr & Hsig & Hacc). cbn beta in Hs1.
  destruct (Z.ltb_spec 0 (Zlen (MissingParents r))) as [Hm|Hm].
  { split_and!; [done|intros Hz; rewrite Hz in Hm; unfold Zlen in Hm; cbn in Hm; lia|done]. }
  assert (Hnone : MissingParents r = []) by (destruct (MissingParents r); [done|unfold Zlen in Hm; cbn in Hm; lia]).
  destruct (Hacc Hnone) as [Hfee Hconf Hpay]. apply ends_ranging. intros order Hord.
  pose proof (sm_txs _ _ Hs1) as Ht1. pose proof (pool_inv_same rank _ _ Ht1 Hinv) as Hinv1.
  assert (Hord1 : forall h, h ∈ order.*1 <-> exists y, TxHash y = h /\ evicted mp tx y).
  { intros h. rewrite Hord. rewrite list_elem_of_fmap. split.
    - intros ([h' y] & -> & Hin). apply elem_of_map_to_list, Hconf in Hin as [<- Hy]. by exists y.
    - intros (y & <- & Hy). exists (TxHash y, y). split; [done|]. apply elem_of_map_to_list. by apply Hconf. }
  eapply ends_step.
  { apply runs_ends, (removeConflicts_runs order); [by apply pool_inv_tick|rewrite Hord; apply NoDup_fst_map_to_list|].
    rewrite Hord. apply list.Forall_forall. intros [h y] Hin. apply elem_of_map_to_list, Hconf in Hin as [He Hy]. split; [done|]. cbn.
    destruct (evicted_inPool rank mp Hinv tx y Hy) as (d & Hd & _). rewrite (st_pool _ _ Ht1), <- He. by exists d. }
  intros [] mp2 (Hinv2 & Hl2 & Hp2). cbn [pool tick] in Hp2. rewrite (st_pool _ _ Ht1) in Hp2.
  assert (Hnew2 : pool mp2 !! TxHash tx = None) by (rewrite Hp2; by destruct (decide _)).
  eapply ends_step.
  { apply runs_ends, (addTransaction_runs (r_utxoView r) tx (r_bestHeight r) (TxFee r)); [done|done|done|].
    intros op Hop. destruct (outpoints mp2 !! op) as [y|] eqn:Hy; [exfalso|done].
    pose proof Hy as Hy'. apply (pi_spent _ _ Hinv2) in Hy' as [(d & Hd & Htx) Hsp].
    assert (Hdm : pool mp !! TxHash y = Some d) by (rewrite Hp2 in Hd; by destruct (decide _)).
    assert (Hev : evicted mp tx y).
    { exists y. split; [|by left]. apply list_elem_of_omap. exists op. split; [done|]. apply (pi_spent _ _ Hinv). split; [by exists d|done]. }
    rewrite Hp2, decide_True in Hd; [done|]. apply Hord1. by exists y. }
  intros d mp3 (Hinv3 & Hso3 & Hp3 & Htx & Hf & Hrate). change (mret ([], Some d)) with (fun s : TxPool => (@Ok PoolError _ ([] : list (list Z), Some d), s)).
  split; [done|]. split; [done|]. split; rewrite ?Hf in *; try done.
  - etrans; [apply Hs1|]. etrans; [|exact Hso3]. etrans; [|apply Hl2]. by split.
  - rewrite Hrate. by rewrite i64_small by money.
  - intros h d'. rewrite Hp3, lookup_insert_Some, Hp2. split.
    + intros [[<- <-]|[Hne Hd]]; [by left|right]. destruct (decide (h ∈ order.*1)) as [|Hn]; [done|]. split; [done|].
      intros He. apply Hn, Hord1. exists (d_Tx d'). split; [by apply (pi_hash _ _ Hinv)|done].
    + intros [[-> ->]|[Hd Hn]]; [by left|right]. split; [congruence|]. rewrite decide_False; [done|].
      intros Hin. apply Hord1 in Hin as (y & He & Hy). apply Hn. destruct (evicted_inPool rank mp Hinv tx y Hy) as (dy & Hdy & <-).
      rewrite He in Hdy. rewrite Hd in Hdy. by injection Hdy as ->.
  - intros Hc. exists (Conflicts r). split; [done|by apply Hpay].
Qed.

End Accept.

(** ** The whole pool *)
Section Whole.
(** The transactions that come, and the policy's limit on orphans. *)
Context (rank : list Z -> nat) (known : MsgTx -> Prop) (limit : Z).

(** A transaction names its parents by hash, and its hash tells its
    outputs. *)
Record universe : Prop := {
  un_ranked : forall tx, known tx -> ranked rank tx;
  un_values : forall tx, known tx -> values_ok tx;
  un_outputs : forall tx tx', known tx -> known tx' -> TxHash tx = TxHash tx' -> length (TxOuts tx) = length (TxOuts tx');
}.
Context (Huniverse : universe).

Record mp_inv (mp : TxPool) : Prop := {
  mi_pool : pool_inv rank mp;
  mi_orphans : orphan_inv ∅ mp;
  mi_fees : fees_ok mp;
  mi_limit : Z.of_nat (size (orphans mp)) <= Z.max 0 limit;
  mi_known : forall h d, pool mp !! h = Some d -> known (d_Tx d);
  mi_known_orphan : forall h o, orphans mp !! h = Some o -> known (o_tx o);
}.

Lemma mp_inv_same mp mp' : same mp mp' -> mp_inv mp -> mp_inv mp'.
Proof using.
  intros [Ht Ho] [H1 H2 H3 H4 H5 H6]. split.
  - by eapply pool_inv_same.
  - by eapply orphan_inv_same.
  - by eapply same_fees.
  - by rewrite (so_orphans _ _ Ho).
  - by rewrite (st_pool _ _ Ht).
  - by rewrite (so_orphans _ _ Ho).
Qed.

Lemma mp_inv_tick mp : mp_inv mp -> mp_inv (tick mp).
Proof using. apply mp_inv_same. by split; split. Qed.

(** Fewer orphans. *)
Lemma mp_inv_shrunk mp mp' : shrunk ∅ mp mp' -> orphan_inv ∅ mp' -> mp_inv mp -> mp_inv mp'.
Proof using.
  intros [Hsub _ Ht] Ho [H1 H2 H3 H4 H5 H6]. split.
  - by eapply pool_inv_same.
  - done.
  - by eapply same_fees.
  - apply map_subseteq_size in Hsub. lia.
  - by rewrite (st_pool _ _ Ht).
  - intros h o Hh. apply (H6 h). by eapply lookup_weaken.
Qed.

(** Fewer transactions. *)
Lemma mp_inv_left mp mp' : left mp mp' -> pool_inv rank mp' -> mp_inv mp -> mp_inv mp'.
Proof using.
  intros [Hsub Ho] Hp [H1 H2 H3 H4 H5 H6]. split.
  - done.
  - by eapply orphan_inv_same.
  - intros h d Hh. apply (H3 h). by eapply lookup_weaken.
  - by rewrite (so_orphans _ _ Ho).
  - intros h d Hh. apply (H5 h). by eapply lookup_weaken.
  - by rewrite (so_orphans _ _ Ho).
Qed.

Lemma mp_inv_replaced cfg mp tx d mp' : known tx -> replaced rank cfg mp tx d mp' -> mp_inv mp -> mp_inv mp'.
Proof using.
  intros Hk [R1 R2 _ Rt Rf _ Rp _ _ _] [H1 H2 H3 H4 H5 H6]. split.
  - done.
  - by eapply orphan_inv_same.
  - intros h d' Hd. apply Rp in Hd as [[-> ->]|[Hd _]]; [done|by apply (H3 h)].
  - by rewrite (so_orphans _ _ R2).
  - intros h d' Hd. apply Rp in Hd as [[-> ->]|[Hd _]]; [by rewrite Rt|by apply (H5 h)].
  - by rewrite (so_orphans _ _ R2).
Qed.

Lemma known_agrees mp tx : mp_inv mp -> known tx -> agrees mp tx.
Proof using Huniverse.
  intros Hinv Hk d Hd. pose proof (pi_hash _ _ (mi_pool _ Hinv) _ _ Hd) as He. unfold outputsOf. rewrite He.
  assert (Hlen : length (TxOuts (d_Tx d)) = length (TxOuts tx)) by (apply (un_outputs Huniverse); [by eapply mi_known|done|done]).
  apply (list_eq_same_length _ _ (length (TxOuts tx))); [by rewrite length_imap|by rewrite length_imap|].
  intros i x y Hi Hx Hy. rewrite list_lookup_imap in Hx, Hy.
  destruct (TxOuts (d_Tx d) !! i); [|done]. destruct (TxOuts tx !! i); [|done]. cbn in *. congruence.
Qed.

(** The chain answers on every transaction that may come. *)
Definition answers (cfg : Config) : Prop := forall tx, known tx -> fit cfg tx.
Definition cached (mp mp' : TxPool) : Prop := is_Some (hashCache mp) -> is_Some (hashCache mp').
Definition stuckIn (cfg : Config) (mp : TxPool) : Prop := ~ (answers cfg /\ is_Some (hashCache mp)).

Lemma stuckIn_later cfg mp mp' : cached mp mp' -> stuckIn cfg mp' -> stuckIn cfg mp.
Proof using. intros Hc Hs [Ha Hm]. apply Hs. split; [done|by apply Hc]. Qed.
Lemma cached_orphans mp mp' : sameOrphans mp mp' -> cached mp mp'.
Proof using. intros Hs Hc. by apply (so_cache _ _ Hs). Qed.
Lemma cached_shrunk keep mp mp' : shrunk keep mp mp' -> cached mp mp'.
Proof using. intros Hs Hc. by apply (st_cache _ _ (sh_txs _ _ _ Hs)). Qed.
Lemma cached_trans mp1 mp2 mp3 : cached mp1 mp2 -> cached mp2 mp3 -> cached mp1 mp3.
Proof using. unfold cached. auto. Qed.

Lemma ends_later {A} cfg mp mp' P Q (m : stateful PoolError TxPool A) : cached mp mp' ->
  ends (stuckIn cfg mp') P Q m mp' -> ends (stuckIn cfg mp) P Q m mp'.
Proof using. intros Hc H. eapply ends_mono; [exact H|by apply stuckIn_later|done|done]. Qed.

Lemma answers_sound cfg mp : mp_inv mp -> answers cfg -> is_Some (hashCache mp) -> sound mp.
Proof using.
  intros Hinv Ha Hc. split; [done|]. intros h d Hd. apply BlockRules.ok_outs, de_ok, (ft_decoded cfg), Ha. by eapply mi_known.
Qed.

Lemma accept_ends cfg tx isNew rateLimit rejectDup mp : mp_inv mp -> known tx ->
  ends (stuckIn cfg mp) (fun _ mp' => mp_inv mp' /\ sameOrphans mp mp')
    (fun r mp' => mp_inv mp' /\ sameOrphans mp mp' /\ (rejectDup = true -> orphans mp !! TxHash tx = None))
    (maybeAcceptTransaction Pow fuel sigCache cfg tx isNew rateLimit rejectDup) mp.
Proof using Huniverse.
  intros Hinv Hk. eapply ends_mono; [apply maybeAcceptTransaction_ends| | |].
  - apply Hinv.
  - apply Hinv.
  - by apply Huniverse.
  - by apply Huniverse.
  - intros Hn [Ha Hc]. apply Hn. split; [by apply Ha|by eapply answers_sound].
  - intros e mp' Hs. split; [by apply (mp_inv_same mp)|apply Hs].
  - intros [missing [d|]] mp' [Ho Hr].
    + destruct Hr as [_ Hr]. split_and!; [by apply (mp_inv_replaced cfg mp tx d)|by destruct Hr|done].
    + destruct Hr as [_ Hs]. split_and!; [by apply (mp_inv_same mp)|apply Hs|done].
Qed.

Lemma removeOrphan_keeps tx redeemers mp : mp_inv mp ->
  runs (fun _ mp' => mp_inv mp' /\ shrunk ∅ mp mp' /\ orphans mp' !! TxHash tx = None) (removeOrphan tx redeemers) mp.
Proof using.
  intros Hinv. eapply runs_mono; [apply (removeOrphan_runs mp); split; [apply Hinv|done]|].
  intros ? mp' ([Ho _] & Hs & Hn). split_and!; [by apply (mp_inv_shrunk mp)|done|done].
Qed.

(** ** Orphans that are orphans no longer *)

Lemma ends_try {A D} (B : Prop) P (Q : A -> TxPool -> Prop) (Q' : D -> TxPool -> Prop) P' (m : stateful PoolError TxPool A) k mp :
  ends B P Q m mp -> (forall e mp', P e mp' -> ends B P' Q' (k (inr e)) mp') ->
  (forall a mp', Q a mp' -> ends B P' Q' (k (inl a)) mp') -> ends B P' Q' (try m ≫= k) mp.
Proof using.
  unfold ends at 1, try. intros H He Ha. unfold ends, mbind, stateful_bind. destruct (m mp) as [[a|e| |] mp1]; [by apply Ha|by apply He|done|done].
Qed.

Lemma size_lost mp mp' h o : shrunk ∅ mp mp' -> orphans mp !! h = Some o -> orphans mp' !! h = None ->
  (size (orphans mp') < size (orphans mp))%nat.
Proof using.
  intros [Hsub _ _] Ho Hn. rewrite <- !size_dom. apply subset_size. split; [by apply subseteq_dom|].
  intros Hs. assert (Hd : h ∈ dom (orphans mp)) by (by apply elem_of_dom; eexists). apply Hs, elem_of_dom in Hd as [? ?]. congruence.
Qed.

Lemma tryOrphans_ends cfg order : forall mp, mp_inv mp ->
  Forall (fun p => known p.2 /\ is_Some (orphans mp !! TxHash p.2)) order ->
  ends (stuckIn cfg mp) (fun _ _ => False)
    (fun r mp' => mp_inv mp' /\ cached mp mp' /\
       match r with
       | None => (size (orphans mp') <= size (orphans mp))%nat
       | Some (tx, _) => known tx /\ (size (orphans mp') < size (orphans mp))%nat
       end)
    (tryOrphans Pow fuel sigCache cfg order) mp.
Proof using Huniverse.
  induction order as [|[h tx] order IH]; intros mp Hinv Hf; cbn [tryOrphans]; [split; [done|by split; [intros ?|]]|].
  apply list.Forall_cons in Hf as [[Hk [o Ho]] Hf]. cbn in Hk, Ho.
  eapply ends_try; [by apply accept_ends| |].
  - intros e mp1 [Hi1 Hs1]. eapply ends_step; [by apply runs_ends, removeOrphan_keeps|]. intros ? mp2 (Hi2 & Hsh2 & _).
    split; [done|]. split; [by eapply cached_trans; [by apply cached_orphans|by eapply cached_shrunk]|]. rewrite <- (so_orphans _ _ Hs1). apply map_subseteq_size, Hsh2.
  - intros [missing [d|]] mp1 (Hi1 & Hs1 & _).
    + eapply ends_step; [by apply runs_ends, removeOrphan_keeps|]. intros ? mp2 (Hi2 & Hsh2 & Hn).
      split; [done|]. split; [by eapply cached_trans; [by apply cached_orphans|by eapply cached_shrunk]|]. split; [done|]. rewrite <- (so_orphans _ _ Hs1). eapply size_lost; [done| |done]. by rewrite (so_orphans _ _ Hs1).
    + rewrite <- (so_orphans _ _ Hs1). apply (ends_later _ _ mp1); [by apply cached_orphans|].
      eapply ends_mono; [apply IH; [done|by rewrite (so_orphans _ _ Hs1)]|done|done|].
      intros r mp2 (H1 & H2 & H3). split_and!; [done|by eapply cached_trans; [by apply cached_orphans|]|done].
Qed.

Lemma tryOutputs_ends cfg hash outs : forall i mp, mp_inv mp ->
  ends (stuckIn cfg mp) (fun _ _ => False)
    (fun acc mp' => mp_inv mp' /\ cached mp mp' /\ Forall (fun p => known p.1) acc /\ (size (orphans mp') + length acc <= size (orphans mp))%nat)
    (tryOutputs Pow fuel sigCache cfg hash i outs) mp.
Proof using Huniverse.
  induction outs as [|o outs IH]; intros i mp Hinv; cbn [tryOutputs]; [split_and!; [done|by intros ?|constructor|cbn; lia]|].
  apply ends_ranging. intros order Hord. eapply ends_step.
  { apply (tryOrphans_ends cfg order (tick mp)); [by apply mp_inv_tick|]. rewrite Hord. apply list.Forall_forall. intros [h tx] Hin.
    apply elem_of_map_to_list in Hin. rewrite waiting_redeemers in Hin.
    apply (oi_index _ _ (mi_orphans _ Hinv)) in Hin as [_ (otx & Ho & <- & _)]. cbn.
    rewrite (oi_hash _ _ (mi_orphans _ Hinv) _ _ Ho). split; [by eapply mi_known_orphan|by exists otx]. }
  intros r mp1 (Hi1 & Hc1 & Hr). eapply ends_step; [by eapply ends_later; [exact Hc1|apply IH]|]. intros more mp2 (Hi2 & Hc2 & Hk & Hle).
  change (orphans (tick mp)) with (orphans mp) in Hr. split; [done|]. split; [by eapply cached_trans|]. destruct r as [[tx d]|]; cbn [option_list app length].
  - destruct Hr as [Hkt Hlt]. split; [by constructor|]. change (length _) with (S (length more)). lia.
  - split; [done|]. change (length _) with (length more). lia.
Qed.

Lemma processList_ends cfg n : forall items acc mp, mp_inv mp -> (size (orphans mp) + length items <= n)%nat ->
  ends (stuckIn cfg mp) (fun _ _ => False) (fun _ => mp_inv) (processList Pow fuel sigCache n cfg items acc) mp.
Proof using Huniverse.
  induction n as [|n IH]; intros [|x items] acc mp Hinv Hn; cbn [length] in Hn; try done; [lia|]. cbn [processList].
  eapply ends_step; [by apply tryOutputs_ends|]. intros accepted mp1 (Hi1 & Hc & _ & Hle). apply (ends_later _ _ mp1 _ _ _ Hc), IH; [done|].
  rewrite length_app, length_fmap. lia.
Qed.

Lemma removeOrphanDoubleSpends_keeps tx mp : mp_inv mp -> runs (fun _ => mp_inv) (removeOrphanDoubleSpends tx) mp.
Proof using.
  intros Hinv. eapply runs_mono; [apply (removeOrphanDoubleSpends_runs mp); split; [apply Hinv|done]|].
  intros ? mp' [Ho Hs]. by apply (mp_inv_shrunk mp).
Qed.

Lemma processOrphans_ends cfg tx mp : mp_inv mp ->
  ends (stuckIn cfg mp) (fun _ _ => False) (fun _ => mp_inv) (processOrphans Pow fuel sigCache cfg tx) mp.
Proof using Huniverse.
  intros Hinv. unfold processOrphans. apply ends_gets. eapply ends_step; [apply processList_ends; [done|cbn; lia]|].
  intros txs mp1 Hi1. cbn beta in Hi1. apply (ends_step _ _ (fun _ => mp_inv)); [|intros ? mp2 H2; exact H2].
  apply runs_ends. generalize (tx :: (d_Tx <$> txs)). intros l. clear Hinv mp. revert mp1 Hi1.
  induction l as [|y l IH]; intros mp Hi; cbn [removeAllDoubleSpends]; [exact Hi|].
  eapply ends_step; [by apply removeOrphanDoubleSpends_keeps|]. intros ? mp' H. by apply IH.
Qed.

(** ** The operations of the pool *)

(** The policy does not change; the chain does. *)
Definition limited (cfg : Config) : Prop := MaxOrphanTxs (policy cfg) = limit.

Lemma maybeAddOrphan_ends cfg tx t mp : limited cfg -> mp_inv mp -> known tx -> orphans mp !! TxHash tx = None ->
  ends False (fun _ => mp_inv) (fun _ => mp_inv) (maybeAddOrphan cfg tx t) mp.
Proof using.
  intros Hl Hinv Hk Hn. unfold maybeAddOrphan. destruct (_ <? _); [exact Hinv|]. pose proof (mi_limit _ Hinv) as Hle. rewrite <- Hl in Hle.
  eapply runs_ends, runs_mono; [apply addOrphan_runs; [apply Hinv|done|done]|]. intros ? mp' (Ho & Ht & Hle' & Hnew).
  destruct Hinv as [H1 H2 H3 H4 H5 H6]. split.
  - by eapply pool_inv_same.
  - done.
  - by eapply same_fees.
  - by rewrite <- Hl.
  - by rewrite (st_pool _ _ Ht).
  - intros h o Hh. destruct (Hnew _ _ Hh) as [?| ->]; [by apply (H6 h)|done].
Qed.

Lemma ProcessTransaction_ends cfg tx allowOrphan rateLimit t mp : limited cfg -> mp_inv mp -> known tx ->
  ends (stuckIn cfg mp) (fun _ => mp_inv) (fun _ => mp_inv) (ProcessTransaction Pow fuel sigCache cfg tx allowOrphan rateLimit t) mp.
Proof using Huniverse.
  intros Hl Hinv Hk. unfold ProcessTransaction. eapply ends_step.
  { eapply ends_mono; [by apply accept_ends|done|by intros ? ? [? _]|intros r mp' H; exact H]. }
  intros [missing d] mp1 (Hi1 & Hs1 & Hn). destruct (Zlen missing =? 0).
  - apply (ends_step _ _ (fun _ => mp_inv)); [|intros ? ? H; exact H].
    apply (ends_later _ mp mp1); [by apply cached_orphans|]. by eapply ends_mono; [by apply processOrphans_ends|..].
  - destruct allowOrphan; [|exact Hi1]. cbn [negb]. apply (ends_step _ _ (fun _ => mp_inv)); [|intros ? ? H; exact H].
    eapply ends_mono; [apply maybeAddOrphan_ends| | |]; try done. rewrite (so_orphans _ _ Hs1). by apply Hn.
Qed.

Lemma MaybeAcceptTransaction_ends cfg tx isNew rateLimit mp : mp_inv mp -> known tx ->
  ends (stuckIn cfg mp) (fun _ => mp_inv) (fun _ => mp_inv) (MaybeAcceptTransaction Pow fuel sigCache cfg tx isNew rateLimit) mp.
Proof using Huniverse. intros Hinv Hk. eapply ends_mono; [by apply accept_ends|done|by intros ? ? [? _]|by intros ? ? [? _]]. Qed.

Lemma CheckMempoolAcceptance_ends cfg tx mp : mp_inv mp -> known tx ->
  ends (stuckIn cfg mp) (fun _ => mp_inv) (fun _ => mp_inv) (CheckMempoolAcceptance Pow fuel sigCache cfg tx) mp.
Proof using Huniverse.
  intros Hinv Hk. unfold CheckMempoolAcceptance. eapply ends_mono; [apply (checkMempoolAcceptance_ends rank)| | |].
  - apply Hinv.
  - apply Hinv.
  - by apply Huniverse.
  - by apply Huniverse.
  - intros Hn [Ha Hc]. apply Hn. split; [by apply Ha|by eapply answers_sound].
  - intros e mp' Hs. by apply (mp_inv_same mp).
  - intros r mp' (Hs & _). by apply (mp_inv_same mp).
Qed.

(** Removal takes the transaction, and with [removeRedeemers] all that
    builds on it. *)
Lemma RemoveTransaction_tree tx mp : mp_inv mp -> known tx -> runs (fun _ mp' => removedTree rank mp tx mp') (RemoveTransaction tx true) mp.
Proof using Huniverse.
  intros Hinv Hk. unfold RemoveTransaction, removeTransaction. apply ends_gets.
  apply removeTransactionRec_runs; [apply Hinv|by apply known_agrees|apply above_size].
Qed.

Lemma RemoveTransaction_one tx mp : mp_inv mp ->
  runs (fun _ mp' => pool_inv rank mp' /\ left mp mp' /\ pool mp' = delete (TxHash tx) (pool mp)) (RemoveTransaction tx false) mp.
Proof using.
  intros Hinv. destruct (pool mp !! TxHash tx) as [d|] eqn:Hd; [eapply removeTransaction_one; [apply Hinv|done]|].
  unfold RemoveTransaction, removeTransaction. apply ends_gets. cbn [removeTransactionRec].
  change (mret () ≫= ?k) with (k ()). apply ends_gets. rewrite Hd. split_and!; [apply Hinv|done|by rewrite delete_id].
Qed.

Lemma RemoveTransaction_keeps tx redeemers mp : mp_inv mp -> known tx -> runs (fun _ => mp_inv) (RemoveTransaction tx redeemers) mp.
Proof using Huniverse.
  intros Hinv Hk. destruct redeemers.
  - eapply runs_mono; [by apply RemoveTransaction_tree|]. intros ? mp' [H1 [H2 _] _ _ _]. by apply (mp_inv_left mp).
  - eapply runs_mono; [by apply RemoveTransaction_one|]. intros ? mp' (H1 & H2 & _). by apply (mp_inv_left mp).
Qed.

Lemma RemoveDoubleSpends_keeps tx mp : mp_inv mp -> runs (fun _ => mp_inv) (RemoveDoubleSpends tx) mp.
Proof using Huniverse.
  unfold RemoveDoubleSpends. generalize (TxHash tx), (TxIns tx). intros h ins. revert mp.
  induction ins as [|ti ins IH]; intros mp Hinv; cbn [removeDoubleSpendsOf]; [exact Hinv|]. apply ends_gets.
  apply (ends_step _ _ (fun _ => mp_inv)); [|intros ? ? H; by apply IH].
  destruct (outpoints mp !! _) as [y|] eqn:Hy; [|exact Hinv]. case_bool_decide; [exact Hinv|].
  apply (pi_spent _ _ (mi_pool _ Hinv)) in Hy as [(d & Hd & <-) _]. apply (RemoveTransaction_keeps _ true); [done|by eapply mi_known].
Qed.

Lemma RemoveOrphan_keeps tx mp : mp_inv mp -> runs (fun _ => mp_inv) (RemoveOrphan tx) mp.
Proof using. intros Hinv. eapply runs_mono; [by apply removeOrphan_keeps|]. by intros ? mp' [? _]. Qed.

Lemma RemoveOrphansByTag_keeps t mp : mp_inv mp -> runs (fun _ => mp_inv) (RemoveOrphansByTag t) mp.
Proof using.
  intros Hinv. eapply runs_mono; [apply (RemoveOrphansByTag_runs mp); split; [apply Hinv|done]|].
  intros ? mp' [Ho Hs]. by apply (mp_inv_shrunk mp).
Qed.

(** A call of the pool. *)
Inductive op :=
| OpProcess (cfg : Config) (tx : MsgTx) (allowOrphan rateLimit : bool) (t : Z)
| OpMaybeAccept (cfg : Config) (tx : MsgTx) (isNew rateLimit : bool)
| OpCheck (cfg : Config) (tx : MsgTx)
| OpProcessOrphans (cfg : Config) (tx : MsgTx)
| OpRemove (tx : MsgTx) (removeRedeemers : bool)
| OpRemoveDoubleSpends (tx : MsgTx)
| OpRemoveOrphan (tx : MsgTx)
| OpRemoveOrphansByTag (t : Z).

Definition run (o : op) : stateful PoolError TxPool () :=
  match o with
  | OpProcess cfg tx allowOrphan rateLimit t => _ ← ProcessTransaction Pow fuel sigCache cfg tx allowOrphan rateLimit t; mret ()
  | OpMaybeAccept cfg tx isNew rateLimit => _ ← MaybeAcceptTransaction Pow fuel sigCache cfg tx isNew rateLimit; mret ()
  | OpCheck cfg tx => _ ← CheckMempoolAcceptance Pow fuel sigCache cfg tx; mret ()
  | OpProcessOrphans cfg tx => _ ← ProcessOrphans Pow fuel sigCache cfg tx; mret ()
  | OpRemove tx removeRedeemers => RemoveTransaction tx removeRedeemers
  | OpRemoveDoubleSpends tx => RemoveDoubleSpends tx
  | OpRemoveOrphan tx => RemoveOrphan tx
  | OpRemoveOrphansByTag t => _ ← RemoveOrphansByTag t; mret ()
  end.

(** The transactions of a call are known, and its policy is the one of the
    pool. *)
Definition allowed (o : op) : Prop :=
  match o with
  | OpProcess cfg tx _ _ _ | OpMaybeAccept cfg tx _ _ | OpCheck cfg tx | OpProcessOrphans cfg tx => limited cfg /\ known tx
  | OpRemove tx _ | OpRemoveDoubleSpends tx | OpRemoveOrphan tx => known tx
  | OpRemoveOrphansByTag _ => True
  end.

(** The chain of a call answers, and the pool has its cache. *)
Definition answering (o : op) (mp : TxPool) : Prop :=
  match o with
  | OpProcess cfg _ _ _ _ | OpMaybeAccept cfg _ _ _ | OpCheck cfg _ | OpProcessOrphans cfg _ => answers cfg /\ is_Some (hashCache mp)
  | _ => True
  end.

Lemma run_ends o mp : mp_inv mp -> allowed o -> ends (~ answering o mp) (fun _ => mp_inv) (fun _ => mp_inv) (run o) mp.
Proof using Huniverse.
  intros Hinv Ha. destruct o; cbn [run answering allowed] in *;
    try (apply (ends_step _ _ (fun _ => mp_inv)); [|intros ? ? H; exact H]).
  - destruct Ha. by apply ProcessTransaction_ends.
  - destruct Ha. by apply MaybeAcceptTransaction_ends.
  - destruct Ha. by apply CheckMempoolAcceptance_ends.
  - by eapply ends_mono; [apply processOrphans_ends|..].
  - by apply runs_ends, RemoveTransaction_keeps.
  - by apply runs_ends, RemoveDoubleSpends_keeps.
  - by apply runs_ends, RemoveOrphan_keeps.
  - by apply runs_ends, RemoveOrphansByTag_keeps.
Qed.

(** The states of a pool: a new one, and those after calls that returned a
    value or an error. *)
Inductive reached : TxPool -> Prop :=
| reached_new h now : reached (New h now)
| reached_ok mp o mp' : reached mp -> allowed o -> run o mp = (Ok (), mp') -> reached mp'
| reached_err mp o e mp' : reached mp -> allowed o -> run o mp = (Err e, mp') -> reached mp'.

Lemma New_inv h now : mp_inv (New h now).
Proof using.
  split; try (by apply map_Forall_empty).
  - split; try (by apply map_Forall_empty). intros op tx. unfold inPool. cbn. rewrite lookup_empty. split; [done|].
    intros [(d & Hd & _) _]. by rewrite lookup_empty in Hd.
  - split; try (by apply map_Forall_empty). intros op k tx. cbn. split; [done|].
    intros [_ (o & Ho & _)]. by rewrite lookup_empty in Ho.
  - change (Z.of_nat 0 <= Z.max 0 limit). lia.
Qed.

Lemma reached_inv mp : reached mp -> mp_inv mp.
Proof using Huniverse.
  induction 1 as [h now|mp o mp' _ IH Ha Hrun|mp o e mp' _ IH Ha Hrun]; [apply New_inv|..];
    pose proof (run_ends o mp IH Ha) as He; unfold ends in He; by rewrite Hrun in He.
Qed.

(** ** What the pool promises *)

Lemma gone_descendant mp tx mp' : pool_inv rank mp -> removedTree rank mp tx mp' -> forall y, descendant mp tx y -> gone mp' y.
Proof using.
  intros Hinv Hr y Hd. pose proof (rt_children _ _ _ _ Hr) as Hch. pose proof (cl_children _ _ (rt_closed _ _ _ _ Hr)) as Hcl.
  clear Hr. revert Hch. induction Hd as [x y Hc|x y z Hc _ IH]; intros Hch; [by apply Hch|].
  apply IH. intros w. apply Hcl; [by eapply child_inPool|by apply Hch].
Qed.

Lemma removedTree_lookup mp tx mp' : pool_inv rank mp -> removedTree rank mp tx mp' -> forall h d,
  pool mp' !! h = Some d <-> pool mp !! h = Some d /\ h <> TxHash tx /\ ~ descendant mp tx (d_Tx d).
Proof using.
  intros Hinv Hr h d. pose proof (lf_pool _ _ (cl_left _ _ (rt_closed _ _ _ _ Hr))) as Hsub. split.
  - intros Hd. pose proof (lookup_weaken _ _ _ _ Hd Hsub) as Hd0. split; [done|]. pose proof (pi_hash _ _ Hinv _ _ Hd0) as He. split.
    + intros ->. pose proof (rt_gone _ _ _ _ Hr) as Hg. unfold gone in Hg. congruence.
    + intros Hdesc. pose proof (gone_descendant _ _ _ Hinv Hr _ Hdesc) as Hg. unfold gone in Hg. rewrite He in Hg. congruence.
  - intros (Hd & Hne & Hnd). pose proof (pi_hash _ _ Hinv _ _ Hd) as He. destruct (pool mp' !! h) as [d'|] eqn:Hd'.
    + pose proof (lookup_weaken _ _ _ _ Hd' Hsub). congruence.
    + exfalso. destruct (rt_only _ _ _ _ Hr (d_Tx d)) as [H|H]; [exists d; by rewrite He|by unfold gone; rewrite He|congruence|done].
Qed.

Lemma pays_descriptors mp cfg tx fee m : holds (evicted mp tx) m -> pays mp cfg tx fee m -> exists ds,
  (forall y, evicted mp tx y <-> y ∈ d_Tx <$> ds) /\ NoDup (d_Tx <$> ds) /\ Zlen ds <= MaxReplacementEvictions /\
  Forall (fun d => pool mp !! TxHash (d_Tx d) = Some d /\ FeePerKB d < Z.quot (fee * 1000) (GetTxVirtualSize tx)) ds /\
  sum (Fee <$> ds) + calcMinRequiredTxRelayFee (GetTxVirtualSize tx) (MinRelayTxFee (policy cfg)) <= fee.
Proof using.
  intros Hm [Hsize _ (ds & Hord & Hp & Hrate & Hpay)]. exists ds.
  assert (Hin : forall y, y ∈ d_Tx <$> ds <-> (TxHash y, y) ∈ map_to_list m).
  { intros y. rewrite <- Hord, !list_elem_of_fmap. split; [intros (d & -> & Hd); by exists d|]. intros (d & [= _ ->] & Hd). by exists d. }
  split_and!; [| | |by apply list.Forall_and|done].
  - intros y. rewrite Hin, elem_of_map_to_list, (Hm (TxHash y) y). by split; [|intros [_ ?]].
  - assert (Hnd : NoDup ((fun d => (TxHash (d_Tx d), d_Tx d)) <$> ds)) by (rewrite Hord; apply NoDup_map_to_list).
    change (fun d => (TxHash (d_Tx d), d_Tx d)) with ((fun y => (TxHash y, y)) ∘ d_Tx) in Hnd.
    rewrite list_fmap_compose in Hnd. by eapply NoDup_fmap_1.
  - apply Permutation_length in Hord. rewrite length_fmap, length_map_to_list in Hord. unfold Zlen. lia.
Qed.

(** C8. In every state of the pool, after any sequence of calls from a new
    one: the transactions are under their hashes, the index of what they
    spend is exact, so no two of them spend the same coin; the index of the
    orphans is exact and there are no more of them than the policy allows.
    And the next call returns, with a value or an error.  A call that only
    removes does so always; one that may accept, when the transactions that
    come hold bytes and none nests a witness program of version 1 or higher
    in a P2SH input, the functions of the chain that the pool is given
    return on them, the pool has the cache of midstates of its
    configuration, and the fuel is the steps of the longest script. *)
Theorem mempool_invariant mp : reached mp ->
  (forall h d, pool mp !! h = Some d -> TxHash (d_Tx d) = h) /\
  (forall o tx, CheckSpend o mp = Some tx <-> inPool mp tx /\ o ∈ spends tx) /\
  (forall tx tx' o, inPool mp tx -> inPool mp tx' -> o ∈ spends tx -> o ∈ spends tx' -> tx = tx') /\
  (forall o h tx, redeemersOf o mp !! h = Some tx <-> exists otx, orphans mp !! h = Some otx /\ o_tx otx = tx /\ o ∈ spends tx) /\
  Z.of_nat (size (orphans mp)) <= Z.max 0 limit /\
  (forall call, allowed call -> answering call mp -> exists mp', reached mp' /\
     (run call mp = (Ok (), mp') \/ exists e, run call mp = (Err e, mp'))).
Proof using Huniverse.
  intros Hr. pose proof (reached_inv mp Hr) as Hinv. split_and!.
  - apply Hinv.
  - apply Hinv.
  - intros tx tx' o. by apply (no_double_spend rank), Hinv.
  - intros o h tx. rewrite waiting_redeemers, (oi_index _ _ (mi_orphans _ Hinv)). split; [by intros [_ H]|by split; [apply not_elem_of_empty|]].
  - apply Hinv.
  - intros call Ha Hans. pose proof (run_ends call mp Hinv Ha) as He. unfold ends in He.
    destruct (run call mp) as [[[]|e| |] mp'] eqn:Hrun; [exists mp'..|done|done].
    + split; [by eapply reached_ok|by left].
    + split; [by eapply reached_err|right; by exists e].
Qed.

(** C9. When the pool accepts a transaction, what leaves the pool are the
    transactions that spend a coin it spends with all that builds on them,
    and nothing else.  A replacement needs the policy to allow it, every
    transaction it conflicts with to signal it (itself or through something
    it builds on), at most 100 evictions, none of them an ancestor; and it
    pays more per kilobyte than each evicted transaction and, in all, what
    they pay and the relay fee of its own size. *)
Theorem replacement_pays cfg tx isNew rateLimit mp d mp' : mp_inv mp -> known tx ->
  MaybeAcceptTransaction Pow fuel sigCache cfg tx isNew rateLimit mp = (Ok ([], Some d), mp') ->
  d_Tx d = tx /\ pool mp !! TxHash tx = None /\
  (forall h d', pool mp' !! h = Some d' <->
     (h = TxHash tx /\ d' = d) \/ (pool mp !! h = Some d' /\ ~ evicted mp tx (d_Tx d'))) /\
  (conflictors mp tx <> [] ->
     RejectReplacement (policy cfg) = false /\ Forall (replaceable mp) (conflictors mp tx) /\
     (forall p, ancestor mp tx p -> ~ evicted mp tx p) /\
     exists ds, (forall y, evicted mp tx y <-> y ∈ d_Tx <$> ds) /\ NoDup (d_Tx <$> ds) /\ Zlen ds <= MaxReplacementEvictions /\
       Forall (fun d' => pool mp !! TxHash (d_Tx d') = Some d' /\ FeePerKB d' < FeePerKB d) ds /\
       sum (Fee <$> ds) + calcMinRequiredTxRelayFee (GetTxVirtualSize tx) (MinRelayTxFee (policy cfg)) <= Fee d).
Proof using Huniverse.
  intros Hinv Hk Hrun.
  pose proof (maybeAcceptTransaction_ends rank cfg tx isNew rateLimit true mp (mi_pool _ Hinv) (mi_fees _ Hinv)
    (un_ranked Huniverse _ Hk) (un_values Huniverse _ Hk)) as He.
  unfold ends in He. unfold MaybeAcceptTransaction in Hrun. rewrite Hrun in He. destruct He as (_ & _ & [R1 R2 R3 R4 R5 R6 R7 R8 R9 R10]).
  split_and!; [done|done|done|]. intros Hc. destruct (R10 Hc) as (m & Hm & Hp). rewrite R6.
  split_and!; [by apply R8|done|apply Hp|]. by apply (pays_descriptors mp cfg tx (Fee d) m).
Qed.

(** C19. Removing a transaction with what builds on it leaves exactly the
    transactions that are neither it nor reached from its outputs, with
    their descriptors; without, only the transaction itself leaves.  It
    always ends. *)
Theorem RemoveTransaction_exact tx mp : mp_inv mp -> known tx ->
  (exists mp', RemoveTransaction tx true mp = (Ok (), mp') /\ mp_inv mp' /\
     forall h d, pool mp' !! h = Some d <-> pool mp !! h = Some d /\ h <> TxHash tx /\ ~ descendant mp tx (d_Tx d)) /\
  (exists mp', RemoveTransaction tx false mp = (Ok (), mp') /\ mp_inv mp' /\ pool mp' = delete (TxHash tx) (pool mp)).
Proof using Huniverse.
  intros Hinv Hk. split.
  - pose proof (RemoveTransaction_tree tx mp Hinv Hk) as He. unfold runs, ends in He.
    destruct (RemoveTransaction tx true mp) as [[[]|e| |] mp'] eqn:Hrun; [|done..]. exists mp'. split_and!; [done| |].
    + apply (mp_inv_left mp); [apply He|apply He|done].
    + by apply removedTree_lookup; [apply Hinv|].
  - pose proof (RemoveTransaction_one tx mp Hinv) as He. unfold runs, ends in He.
    destruct (RemoveTransaction tx false mp) as [[[]|e| |] mp'] eqn:Hrun; [|done..]. destruct He as (H1 & H2 & H3).
    exists mp'. split_and!; [done|by apply (mp_inv_left mp)|done].
Qed.

End Whole.

End Run.
(** ** A small pool *)
Module Toy.

(** A hash of four bytes, and the curve that accepts everything. *)
Definition poly (b : list Z) : Z := foldl (fun h x => (h * 31 + x + 7) `mod` 2 ^ 32) 5 b.
Definition polyHash (n : nat) (b : list Z) : list Z :=
  [poly b `mod` 256; (poly b / 256) `mod` 256; (poly b / 65536) `mod` 256; poly b / 16777216] ++ replicate (n - 4) 0.
#[local] Instance toy_crypto : Crypto := {|
  crypto_hashes := {| sha256 := polyHash 32; sha1 := polyHash 20; ripemd160 := polyHash 20 |};
  PublicKey := list Z; Signature := list Z;
  ParsePubKey b := Some b; ParseDERSignature b := Some b; ParseSignature b := Some b;
  Verify sig hash pk := true; halfOrder := 2 ^ 255;
  SchnorrSignature := list Z; SchnorrParsePubKey b := Some b; SchnorrParseSignature b := Some b;
  SchnorrVerify sig hash pk := true;
  ComputeTaprootOutputKey pk root := (root, false);
  firstKey m := fst <$> head (map_to_list m);
|}.

#[local] Instance toy_world : World := {|
  clock n := Z.of_nat n * Second; shuffle n A l := rev l; shuffle_perm n A l := Permutation_sym (Permutation_rev l);
|}.
(** Any function does for math.Pow. *)
Definition Pow (a b : float64) : float64 := a.

(** A coin, a payment of it that signals replacement, a payment that builds
    on it, and two that spend the coin again, with a fee that is high
    enough and with one that is too low. *)
Definition coin0 : OutPoint := mkOutPoint (replicate 32 0) 0.
Definition pay1 : MsgTx := mkMsgTx 1 [mkTxIn coin0 [] [] 0] [mkTxOut 9000 [0x51]] 0.
Definition kid : MsgTx := mkMsgTx 1 [mkTxIn (mkOutPoint (TxHash pay1) 0) [] [] MaxUint32] [mkTxOut 8000 [0x51]] 0.
Definition pay2 : MsgTx := mkMsgTx 1 [mkTxIn coin0 [] [] MaxUint32] [mkTxOut 5000 [0x51]] 0.
Definition pay3 : MsgTx := mkMsgTx 1 [mkTxIn coin0 [] [] MaxUint32] [mkTxOut 8001 [0x51]] 0.

Definition cfg : Config := {|
  policy := mkPolicy 2 true true (float_of 15) 2 100000 80000 1000 false;
  ChainParams := FreshNetParams;
  FetchUtxoView tx := Ok (mkView (list_to_map ((fun ti => (PreviousOutPoint ti,
    if decide (PreviousOutPoint ti = coin0) then Some (mkEntry 10000 [0x51] 1 0) else None)) <$> TxIns tx)) zeroHash);
  BestHeight := 10; MedianTimePast := 0;
  CalcSequenceLock _ _ := Ok (mkSequenceLock (-1) (-1));
  IsDeploymentActive _ := Ok true;
|}.

Definition incoming (tx : MsgTx) : Prop := tx ∈ [pay1; kid; pay2; pay3].
Definition rank (h : list Z) : nat := if decide (h = Hash coin0) then 0 else if decide (h = TxHash kid) then 2 else 1.

(** The steps of the longest script that a transaction may spend. *)
Definition steps : nat := Z.to_nat (5 * (MaxScriptSize + 1)).
Abbreviation call := (run Pow steps None).
(** The child comes first, as an orphan. *)
Definition one : TxPool := (call (OpProcess cfg kid true false 7) (New (Some (NewHashCache 100)) 0)).2.
Definition two : TxPool := (call (OpProcess cfg pay1 true false 7) one).2.

Example orphan_is_accepted : size (pool one) = 0%nat /\ size (orphans one) = 1%nat /\
  size (orphans two) = 0%nat /\ (Fee <$> pool two !! TxHash kid) = Some 1000 /\ (Fee <$> pool two !! TxHash pay1) = Some 1000.
Proof. by vm_compute. Qed.

Lemma known_universe : universe rank incoming.
Proof.
  assert (Hf : Forall (fun tx => ranked rank tx /\ values_ok tx /\ length (TxOuts tx) = 1%nat) [pay1; kid; pay2; pay3])
    by (apply (bool_decide_unpack _); vm_compute; exact I).
  rewrite list.Forall_forall in Hf. split; [intros tx Htx; by apply Hf|intros tx Htx; by apply Hf|].
  intros tx tx' Htx Htx' _. by rewrite (proj2 (proj2 (Hf _ Htx))), (proj2 (proj2 (Hf _ Htx'))).
Qed.

(** The functions of this chain return, and its views know every input. *)
Lemma polyHash_ok n b : (4 <= n)%nat -> length (polyHash n b) = n /\ bytes_ok (polyHash n b).
Proof.
  intros Hn. unfold polyHash. split; [rewrite length_app, length_replicate; cbn; lia|].
  assert (Hr : 0 <= poly b < 2 ^ 32).
  { unfold poly. induction b as [|x b _] using rev_ind; [by vm_compute|]. rewrite foldl_app. cbn. apply Z.mod_pos_bound. lia. }
  pose proof (Z.mod_pos_bound (poly b) 256). pose proof (Z.mod_pos_bound (poly b / 256) 256). pose proof (Z.mod_pos_bound (poly b / 65536) 256).
  apply list.Forall_app. split; [|by apply Forall_replicate; unfold byte_ok; lia].
  pose proof (Z.div_pos (poly b) 16777216). pose proof (Z.div_lt_upper_bound (poly b) 16777216 256).
  unfold byte_ok. repeat (apply list.Forall_cons; split; [lia|]). by constructor.
Qed.

Lemma toy_laws : HashLaws crypto_hashes.
Proof. split; intros b; apply polyHash_ok; lia. Qed.

Definition simple (tx : MsgTx) : Prop := length (TxIns tx) = 1%nat /\
  Forall (fun ti => SignatureScript ti = [] /\ Witness ti = [] /\ 0 <= Wire.Index (PreviousOutPoint ti)) (TxIns tx) /\
  length (TxOuts tx) = 1%nat /\ Forall (fun o => PkScript o = [0x51]) (TxOuts tx) /\ values_ok tx /\
  Forall (fun ti => match FetchUtxoView cfg tx with Ok v => bool_decide (is_Some (entries v !! PreviousOutPoint ti)) | _ => false end = true) (TxIns tx).

Lemma incoming_simple tx : incoming tx -> simple tx.
Proof.
  assert (Hf : Forall simple [pay1; kid; pay2; pay3]) by (apply (bool_decide_unpack _); vm_compute; exact I).
  rewrite list.Forall_forall in Hf. apply Hf.
Qed.

Lemma simple_fit tx : simple tx -> fit steps cfg tx.
Proof.
  intros (H1 & H2 & H3 & H4 & H5 & H6). split.
  - exact toy_laws.
  - split; [split|].
    + eapply list.Forall_impl; [exact H2|]. intros ti (Hs & _ & _). rewrite Hs. split; [constructor|by vm_compute].
    + eapply list.Forall_impl; [exact H4|]. intros o Ho. cbn beta in Ho. rewrite Ho. split; [by repeat constructor|by vm_compute].
    + exact H5.
    + unfold Zlen. lia.
    + eapply list.Forall_impl; [exact H2|]. intros ti (Hs & Hw & Hi). unfold in_ok. rewrite Hs, Hw. split_and!; [by split|constructor|by vm_compute|exact Hi].
  - eapply list.Forall_impl; [exact H2|]. intros ti (Hs & _ & _) (v & p & Hv & _). rewrite Hs in Hv. by vm_compute in Hv.
  - eapply list.Forall_impl; [exact H2|]. intros ti (_ & Hw & _). rewrite Hw. unfold steps. rewrite Z2Nat.id by done. done.
  - exact I.
  - cbn [FetchUtxoView cfg safe] in *. split.
    + intros op e He. unfold LookupEntry in He. cbn in He. destruct (list_to_map _ !! op) as [x|] eqn:Hx; [|done]. cbn in He. subst x.
      apply elem_of_list_to_map_2, list_elem_of_fmap in Hx as (ti & Heq & _). injection Heq as _ Heq.
      destruct (decide _); [|done]. injection Heq as ->. split; [by repeat constructor|by vm_compute].
    + eapply list.Forall_impl; [exact H6|]. intros ti Hs. by apply bool_decide_eq_true in Hs.
  - exact (fun _ _ _ => I).
Qed.

Lemma toy_answers : answers steps incoming cfg.
Proof. intros tx Htx. by apply simple_fit, incoming_simple. Qed.

Lemma known_pay1 : incoming pay1.
Proof. by left. Qed.
Lemma known_kid : incoming kid.
Proof. by right; left. Qed.
Lemma known_pay2 : incoming pay2.
Proof. by right; right; left. Qed.

Lemma pool_two_reached : reached Pow steps None incoming 2 two.
Proof.
  apply (reached_ok _ _ _ _ _ one (OpProcess cfg pay1 true false 7)).
  - apply (reached_ok _ _ _ _ _ (New (Some (NewHashCache 100)) 0) (OpProcess cfg kid true false 7)); [apply reached_new| |by vm_compute].
    by split; [|apply known_kid].
  - by split; [|apply known_pay1].
  - by vm_compute.
Qed.

Lemma two_inv : mp_inv rank incoming 2 two.
Proof. apply (reached_inv Pow steps None rank incoming 2 known_universe), pool_two_reached. Qed.

Lemma mempool_invariant_witness : CheckSpend coin0 two = Some pay1 /\ (forall tx, inPool two tx -> coin0 ∈ spends tx -> tx = pay1) /\
  Z.of_nat (size (orphans two)) <= 2 /\
  exists mp', call (OpProcess cfg pay2 true false 7) two = (Ok (), mp') \/ exists e, call (OpProcess cfg pay2 true false 7) two = (Err e, mp').
Proof.
  destruct (mempool_invariant Pow steps None rank incoming 2 known_universe two pool_two_reached) as (_ & Hs & Hu & _ & Hl & Hc).
  destruct (Hc (OpProcess cfg pay2 true false 7)) as (mp' & _ & Hret);
    [by split; [|apply known_pay2]|split; [exact toy_answers|vm_compute; by eexists]|].
  split; [by vm_compute|]. split; [|split; [exact Hl|by exists mp']].
  intros tx Hin Hop. apply (Hu tx pay1 coin0 Hin); [|exact Hop|]; apply (Hs coin0 pay1); by vm_compute.
Defined.

(** The replacement evicts both, and pays for both. *)
Definition replaced2 := MaybeAcceptTransaction Pow steps None cfg pay2 true false two.

Lemma replacement_pays_witness : exists d mp', replaced2 = (Ok ([], Some d), mp') /\ Fee d = 5000 /\ size (pool mp') = 1%nat /\
  Forall (replaceable two) (conflictors two pay2) /\ exists ds, (forall y, evicted two pay2 y <-> y ∈ d_Tx <$> ds) /\
  sum (Fee <$> ds) + 61 <= 5000.
Proof.
  destruct replaced2 as [[[[|] [d|]]|?| |] mp'] eqn:Hrun; try (exfalso; by vm_compute in Hrun).
  pose proof Hrun as Hacc. unfold replaced2 in Hacc.
  destruct (replacement_pays Pow steps None rank incoming 2 known_universe cfg pay2 true false two d mp') as (_ & _ & _ & Hrep);
    [exact two_inv|exact known_pay2|exact Hacc|].
  clear Hacc. destruct Hrep as (_ & Hsig & _ & ds & Hev & _ & _ & _ & Hpay); [by vm_compute|]. exists d, mp'.
  assert (Hfee : Fee d = 5000 /\ size (pool mp') = 1%nat) by (vm_compute in Hrun; injection Hrun as <- <-; by vm_compute).
  destruct Hfee as [Hfee Hsize]. split_and!; [done|exact Hfee|exact Hsize|exact Hsig|]. exists ds. split; [exact Hev|].
  rewrite <- Hfee. exact Hpay.
Defined.

(** Paying what the two paid is not enough. *)
Example relay_fee_is_missing : (MaybeAcceptTransaction Pow steps None cfg pay3 true false two).1 = Err (TxRuleError RejectInsufficientFee).
Proof. by vm_compute. Qed.

Lemma RemoveTransaction_exact_witness : exists mp', RemoveTransaction pay1 true two = (Ok (), mp') /\
  forall h d, pool mp' !! h = Some d <-> pool two !! h = Some d /\ h <> TxHash pay1 /\ ~ descendant two pay1 (d_Tx d).
Proof.
  destruct (RemoveTransaction_exact rank incoming 2 known_universe pay1 two) as [(mp' & Hrun & _ & Hpool) _];
    [exact two_inv|exact known_pay1|]. exists mp'. split; [exact Hrun|exact Hpool].
Defined.

(** An orphan that spends the same output and is invalid hides the valid one
    when the range over the map visits it first: the loop stops there, and
    the valid orphan stays an orphan of an accepted parent. *)
Definition greedy : MsgTx := mkMsgTx 1 [mkTxIn (mkOutPoint (TxHash pay1) 0) [] [] MaxUint32] [mkTxOut 9501 [0x51]] 0.
Definition both : TxPool := (call (OpProcess cfg greedy true false 7) one).2.
Definition after : TxPool := (call (OpProcess cfg pay1 true false 7) both).2.

Example invalid_orphan_hides_valid : size (orphans both) = 2%nat /\ (d_Tx <$> pool after !! TxHash pay1) = Some pay1 /\
  pool after !! TxHash kid = None /\ (o_tx <$> orphans after !! TxHash kid) = Some kid /\ orphans after !! TxHash greedy = None.
Proof. by vm_compute. Qed.

End Toy.

End MempoolRun.
