(* ===== verification/PrioQueue.v ===== *)
(** * The queue of a block template

    Models txPriorityQueue of coin/OrcaNet/mining/mining.go and what it uses
    of container/heap of the Go standard library: a binary heap in a slice,
    ordered by the priority of a transaction or by the fee it pays per
    kilobyte.  Whatever is pushed is popped, the highest first.

    The comparisons read floating-point priorities; they order them as long
    as none of them is NaN. *)

From Stdlib Require Import Floats.SpecFloat Sorting.Sorted.
From S2P Require Import Prelude Wire MempoolPolicy.

Module PrioQueue.
Import Wire MempoolPolicy.

(** ** A heap in a slice *)
Section Heap.
Context {E A : Type} (less : A -> A -> bool).

Definition Less (l : list A) (i j : nat) : outcome E bool :=
  match l !! i, l !! j with
  | Some x, Some y => Ok (less x y)
  | _, _ => Panic
  end.
Definition Swap (i j : nat) (l : list A) : outcome E (list A) :=
  match l !! i, l !! j with
  | Some x, Some y => Ok (<[i := y]> (<[j := x]> l))
  | _, _ => Panic
  end.

(** heap.up; the division of -1 by 2 is 0. *)
Fixpoint up (fuel j : nat) (l : list A) : outcome E (list A) :=
  match fuel with
  | O => Hang
  | S fuel =>
      let i := ((j - 1) / 2)%nat in
      if (i =? j)%nat then Ok l
      else
        b ← Less l j i;
        if negb b then Ok l else l ← Swap i j l; up fuel i l
  end.

Fixpoint down (fuel i n : nat) (l : list A) : outcome E (list A) :=
  match fuel with
  | O => Hang
  | S fuel =>
      let j1 := (2 * i + 1)%nat in
      if (n <=? j1)%nat then Ok l
      else
        right ← (if (j1 + 1 <? n)%nat then Less l (j1 + 1) j1 else Ok false);
        let j := if right : bool then (j1 + 1)%nat else j1 in
        b ← Less l j i;
        if negb b then Ok l else l ← Swap i j l; down fuel j n l
  end.

(** for i := n/2 - 1; i >= 0; i-- *)
Fixpoint initLoop (k n : nat) (l : list A) : outcome E (list A) :=
  match k with
  | O => Ok l
  | S i => l ← down (S n) i n l; initLoop i n l
  end.
Definition Init (l : list A) : outcome E (list A) := initLoop (length l / 2) (length l) l.

Definition Push (x : A) (l : list A) : outcome E (list A) := up (S (length l)) (length l) (l ++ [x]).

Definition Pop (l : list A) : outcome E (A * list A) :=
  match l with
  | [] => Panic
  | _ =>
      let n := (length l - 1)%nat in
      l ← Swap 0 n l;
      l ← down (S n) 0 n l;
      match l !! n with
      | Some item => Ok (item, take n l)
      | None => Panic
      end
  end.

(** *** Positions *)
Definition parent (k : nat) : nat := ((k - 1) / 2)%nat.

Lemma parent_place k p : (0 < k)%nat -> parent k = p <-> k = (2 * p + 1)%nat \/ k = (2 * p + 2)%nat.
Proof using. intros Hk. unfold parent. pose proof (Nat.div_mod_eq (k - 1) 2). pose proof (Nat.mod_upper_bound (k - 1) 2). lia. Qed.
Lemma parent_lt k : (0 < k)%nat -> (parent k < k)%nat.
Proof using. intros Hk. pose proof (proj1 (parent_place k (parent k) Hk) eq_refl). lia. Qed.

Lemma Swap_ok i j (l : list A) (x y : A) : l !! i = Some x -> l !! j = Some y -> Swap i j l = Ok (<[i := y]> (<[j := x]> l)).
Proof using. intros Hi Hj. unfold Swap. by rewrite Hi, Hj. Qed.

Definition swapped (i j : nat) (l l' : list A) : Prop :=
  l' !! i = l !! j /\ l' !! j = l !! i /\ (forall k, k <> i -> k <> j -> l' !! k = l !! k) /\ l' ≡ₚ l.

Lemma swap_perm i j (l : list A) (x y : A) : l !! i = Some x -> l !! j = Some y -> <[i := y]> (<[j := x]> l) ≡ₚ l.
Proof using.
  intros Hi Hj. pose proof (lookup_lt_Some _ _ _ Hi). pose proof (lookup_lt_Some _ _ _ Hj). apply Permutation_inj. split; [by rewrite !length_insert|].
  exists (fun k => if decide (k = i) then j else if decide (k = j) then i else k). split.
  - intros a b. repeat case_decide; congruence.
  - intros k. destruct (decide (k = i)) as [->|Hki]; [by rewrite list_lookup_insert_eq by (by rewrite length_insert)|].
    rewrite list_lookup_insert_ne by done. destruct (decide (k = j)) as [->|Hkj]; [by rewrite list_lookup_insert_eq|].
    by rewrite list_lookup_insert_ne.
Qed.

Lemma Swap_swapped i j (l : list A) : (i < length l)%nat -> (j < length l)%nat -> exists l', Swap i j l = Ok l' /\ swapped i j l l'.
Proof using.
  intros Hi Hj. destruct (lookup_lt_is_Some_2 _ _ Hi) as [x Hx], (lookup_lt_is_Some_2 _ _ Hj) as [y Hy].
  eexists. split; [by apply Swap_ok|]. split_and!; [| | |by apply swap_perm].
  - rewrite list_lookup_insert_eq by (by rewrite length_insert). done.
  - destruct (decide (i = j)) as [->|Hne]; [rewrite list_lookup_insert_eq by (by rewrite length_insert); done|].
    rewrite list_lookup_insert_ne by done. by rewrite list_lookup_insert_eq.
  - intros k Hki Hkj. by rewrite !list_lookup_insert_ne.
Qed.

Lemma Less_ok (l : list A) i j : (i < length l)%nat -> (j < length l)%nat ->
  exists x y, l !! i = Some x /\ l !! j = Some y /\ Less l i j = Ok (less x y).
Proof using.
  intros Hi Hj. destruct (lookup_lt_is_Some_2 _ _ Hi) as [x Hx], (lookup_lt_is_Some_2 _ _ Hj) as [y Hy].
  exists x, y. unfold Less. by rewrite Hx, Hy.
Qed.

(** ** The order of the heap *)
Section Order.
(** [less] is the strict part of a total preorder on what the heap holds. *)
Context (P : A -> Prop).
Context (less_asym : forall x y, P x -> P y -> less x y = true -> less y x = false).
Context (less_trans : forall x y z, P x -> P y -> P z -> less y x = false -> less z y = false -> less z x = false).

(** Position [k] is not before [p]. *)
Definition notBefore (l : list A) (k p : nat) : Prop :=
  forall x y, l !! k = Some x -> l !! p = Some y -> less x y = false.
Definition ordered (l : list A) (k : nat) : Prop := notBefore l k (parent k).
Definition heap (l : list A) : Prop := forall k, (0 < k < length l)%nat -> ordered l k.

Lemma notBefore_swapped i j l l' k p k' p' : swapped i j l l' ->
  l' !! k = l !! k' -> l' !! p = l !! p' -> notBefore l k' p' -> notBefore l' k p.
Proof using. intros _ Hk Hp H x y Hx Hy. rewrite Hk in Hx. rewrite Hp in Hy. by apply H. Qed.

Lemma notBefore_trans l a b c : Forall P l -> (b < length l)%nat -> notBefore l b a -> notBefore l c b -> notBefore l c a.
Proof using less_trans.
  intros HP Hb Hba Hcb z x Hz Hx. destruct (lookup_lt_is_Some_2 _ _ Hb) as [y Hy]. rewrite list.Forall_forall in HP.
  apply (less_trans x y z); [by apply HP, (list_elem_of_lookup_2 _ a)|by apply HP, (list_elem_of_lookup_2 _ b)
    |by apply HP, (list_elem_of_lookup_2 _ c)|by apply Hba|by apply Hcb].
Qed.

(** A heap but for position [j], which may have to go up. *)
Record upInv (l : list A) (j : nat) : Prop := {
  ui_lt : (j < length l)%nat;
  ui_ordered : forall k, (0 < k < length l)%nat -> k <> j -> ordered l k;
  ui_above : forall k, (0 < k < length l)%nat -> parent k = j -> (0 < j)%nat -> notBefore l k (parent j);
}.

Lemma up_spec fuel : forall j l, Forall P l -> upInv l j -> (j < fuel)%nat -> exists l', up fuel j l = Ok l' /\ l' ≡ₚ l /\ heap l'.
Proof using less_asym less_trans.
  induction fuel as [|fuel IH]; intros j l HP [Hj Hord Habove] Hf; [lia|]. cbn [up]. fold (parent j).
  destruct (Nat.eqb_spec (parent j) j) as [He|Hne].
  { exists l. split_and!; [done|done|]. intros k Hk. apply Hord; [done|]. intros ->. pose proof (parent_lt j). lia. }
  assert (Hj0 : (0 < j)%nat) by (destruct j; [done|lia]). pose proof (parent_lt j Hj0) as Hpj.
  destruct (Less_ok l j (parent j)) as (x & y & Hx & Hy & ->); [lia|lia|]. rewrite bind_Ok.
  destruct (less x y) eqn:Hl; cbn [negb]; last first.
  { exists l. split_and!; [done|done|]. intros k Hk. destruct (decide (k = j)) as [->|]; [|by apply Hord].
    intros x' y' Hx' Hy'. rewrite Hx in Hx'. rewrite Hy in Hy'. by injection Hx' as <-; injection Hy' as <-. }
  assert (Hasym : notBefore l (parent j) j).
  { rewrite list.Forall_forall in HP. intros y' x' Hy' Hx'. rewrite Hx in Hx'. rewrite Hy in Hy'. injection Hx' as <-. injection Hy' as <-.
    apply less_asym; [by apply HP, (list_elem_of_lookup_2 _ j)|by apply HP, (list_elem_of_lookup_2 _ (parent j))|done]. }
  destruct (Swap_swapped (parent j) j l) as (l' & -> & Hsw); [lia|lia|]. rewrite bind_Ok.
  pose proof Hsw as (Hi & Hj' & Hoth & Hperm). pose proof (Permutation_length Hperm) as Hlen. set (i := parent j) in *.
  destruct (IH i l') as (l2 & -> & Hp2 & Hh2); [by rewrite Hperm| |lia|by exists l2; split_and!; [done|etrans|done]].
  split; [lia| |].
  - intros k Hk Hki. rewrite Hlen in Hk. unfold ordered. destruct (decide (k = j)) as [->|Hkj].
    { fold i. by apply (notBefore_swapped i j l l' _ _ i j). }
    destruct (decide (parent k = j)) as [Hpk|Hpk].
    { rewrite Hpk. apply (notBefore_swapped i j l l' _ _ k i); [done|by apply Hoth|done|by apply Habove]. }
    destruct (decide (parent k = i)) as [Hpi|Hpi].
    { rewrite Hpi. apply (notBefore_swapped i j l l' _ _ k j); [done|by apply Hoth|done|].
      apply (notBefore_trans l j i k); [done|lia|done|]. specialize (Hord k Hk Hkj). unfold ordered in Hord. by rewrite Hpi in Hord. }
    apply (notBefore_swapped i j l l' _ _ k (parent k)); [done|by apply Hoth|by apply Hoth|by apply Hord].
  - intros k Hk Hpk Hi0. rewrite Hlen in Hk. pose proof (parent_lt i Hi0) as Hpi.
    assert (Hup : notBefore l i (parent i)) by (apply Hord; lia). rewrite <- Hpk. clearbody i. subst i.
    destruct (decide (k = j)) as [->|Hkj].
    + apply (notBefore_swapped (parent j) j l l' _ _ (parent j) (parent (parent j))); [done|done|apply Hoth; lia|done].
    + apply (notBefore_swapped (parent k) j l l' _ _ k (parent (parent k))); [done|apply Hoth; [|done]; pose proof (parent_lt k); lia|apply Hoth; lia|].
      apply (notBefore_trans l _ (parent k) k); [done|lia|done|by apply Hord].
Qed.

(** Below position [n] a heap from the children of [lo] on, but for position
    [h], which may have to go down. *)
Record downInv (lo h n : nat) (l : list A) : Prop := {
  di_n : (n <= length l)%nat;
  di_lo : (lo <= h)%nat;
  di_ordered : forall k, (0 < k < n)%nat -> (lo <= parent k)%nat -> parent k <> h -> ordered l k;
  di_above : forall k, (0 < k < n)%nat -> parent k = h -> (lo < h)%nat -> (lo <= parent h)%nat -> notBefore l k (parent h);
}.
Definition heapFrom (lo n : nat) (l : list A) : Prop := forall k, (0 < k < n)%nat -> (lo <= parent k)%nat -> ordered l k.

(** The child that the other one is not before. *)
Lemma best_child l h n : Forall P l -> (n <= length l)%nat -> (2 * h + 1 < n)%nat -> exists right : bool,
  (if (2 * h + 1 + 1 <? n)%nat then Less l (2 * h + 1 + 1) (2 * h + 1) else Ok false) = Ok right /\
  let j := if right then (2 * h + 1 + 1)%nat else (2 * h + 1)%nat in
  (j < n)%nat /\ parent j = h /\ forall k, (0 < k < n)%nat -> parent k = h -> k <> j -> notBefore l k j.
Proof using less_asym.
  intros HP Hn Hh. rewrite list.Forall_forall in HP.
  assert (Hp1 : parent (2 * h + 1) = h) by (apply parent_place; lia). assert (Hp2 : parent (2 * h + 1 + 1) = h) by (apply parent_place; lia).
  destruct (Nat.ltb_spec (2 * h + 1 + 1) n) as [H2|H2]; last first.
  { exists false. cbn zeta. split_and!; [done|lia|done|]. intros k Hk Hpk Hne. apply parent_place in Hpk; lia. }
  destruct (Less_ok l (2 * h + 1 + 1) (2 * h + 1)) as (x & y & Hx & Hy & ->); [lia|lia|]. exists (less x y).
  destruct (less x y) eqn:Hl; cbn zeta; (split_and!; [done|lia|done|]); intros k Hk Hpk Hne; apply parent_place in Hpk as [->| ->]; try lia.
  - intros y' x' Hy' Hx'. rewrite Hx in Hx'. rewrite Hy in Hy'. injection Hx' as <-. injection Hy' as <-.
    apply less_asym; [by eapply HP, list_elem_of_lookup_2|by eapply HP, list_elem_of_lookup_2|done].
  - replace (2 * h + 2)%nat with (2 * h + 1 + 1)%nat in * by lia. intros x' y' Hx' Hy'. rewrite Hx in Hx'. rewrite Hy in Hy'.
    by injection Hx' as <-; injection Hy' as <-.
Qed.

Lemma down_spec fuel : forall lo h n l, Forall P l -> downInv lo h n l -> (n <= h + fuel)%nat -> (0 < fuel)%nat ->
  exists l', down fuel h n l = Ok l' /\ l' ≡ₚ l /\ heapFrom lo n l' /\ (forall k, (n <= k)%nat -> l' !! k = l !! k).
Proof using less_asym less_trans.
  induction fuel as [|fuel IH]; intros lo h n l HP [Hn Hlo Hord Habove] Hf H0; [lia|]. cbn [down].
  destruct (Nat.leb_spec n (2 * h + 1)) as [Hleaf|Hh].
  { exists l. split_and!; [done|done| |done]. intros k Hk Hlok. apply Hord; [done|done|]. intros Hpk. apply parent_place in Hpk; lia. }
  destruct (best_child l h n HP Hn Hh) as (right & -> & Hj & Hpj & Hbest). rewrite bind_Ok.
  set (j := if right then (2 * h + 1 + 1)%nat else (2 * h + 1)%nat) in *.
  assert (Hjh : (h < j)%nat) by (unfold j; destruct right; lia).
  destruct (Less_ok l j h) as (x & y & Hx & Hy & ->); [lia|lia|]. rewrite bind_Ok.
  destruct (less x y) eqn:Hl; cbn [negb]; last first.
  { exists l. split_and!; [done|done| |done]. intros k Hk Hlok. destruct (decide (parent k = h)) as [Hpk|]; [|by apply Hord].
    assert (Hjy : notBefore l j h).
    { intros x' y' Hx' Hy'. rewrite Hx in Hx'. rewrite Hy in Hy'. by injection Hx' as <-; injection Hy' as <-. }
    unfold ordered. rewrite Hpk. destruct (decide (k = j)) as [->|Hkj]; [done|].
    apply (notBefore_trans l h j k); [done|lia|done|by apply Hbest]. }
  assert (Hasym : notBefore l h j).
  { rewrite list.Forall_forall in HP. intros y' x' Hy' Hx'. rewrite Hx in Hx'. rewrite Hy in Hy'. injection Hx' as <-. injection Hy' as <-.
    apply less_asym; [by eapply HP, list_elem_of_lookup_2|by eapply HP, list_elem_of_lookup_2|done]. }
  destruct (Swap_swapped h j l) as (l' & -> & Hsw); [lia|lia|]. rewrite bind_Ok.
  pose proof Hsw as (Hi & Hj' & Hoth & Hperm). pose proof (Permutation_length Hperm) as Hlen.
  destruct (IH lo j n l') as (l2 & -> & Hp2 & Hh2 & Hk2); [by rewrite Hperm| |lia|lia|].
  2: { exists l2. split_and!; [done|by etrans|done|]. intros k Hk. rewrite Hk2 by done. apply Hoth; lia. }
  split; [lia|lia| |].
  - intros k Hk Hlok Hpk. unfold ordered. destruct (decide (parent k = h)) as [Hph|Hph].
    + rewrite Hph. destruct (decide (k = j)) as [->|Hkj].
      * by apply (notBefore_swapped h j l l' _ _ h j).
      * assert (k <> h) by (pose proof (parent_lt k); lia).
        apply (notBefore_swapped h j l l' _ _ k j); [done|by apply Hoth|done|by apply Hbest].
    + assert (Hkj : k <> j) by congruence. destruct (decide (k = h)) as [->|Hkh].
      * apply (notBefore_swapped h j l l' _ _ j (parent h)); [done|done|apply Hoth; [pose proof (parent_lt h); lia|done]|].
        apply Habove; [lia|done|pose proof (parent_lt h); lia|done].
      * apply (notBefore_swapped h j l l' _ _ k (parent k)); [done|by apply Hoth|by apply Hoth|by apply Hord].
  - intros k Hk Hpk _ _. rewrite Hpj.
    assert (Hkj : (j < k)%nat) by (pose proof (parent_lt k); lia).
    apply (notBefore_swapped h j l l' _ _ k j); [done|apply Hoth; lia|done|].
    assert (Ho : ordered l k) by (apply Hord; [done|lia|lia]). unfold ordered in Ho. by rewrite Hpk in Ho.
Qed.

Lemma initLoop_spec n : forall k l, Forall P l -> (n <= length l)%nat -> heapFrom k n l ->
  exists l', initLoop k n l = Ok l' /\ l' ≡ₚ l /\ heapFrom 0 n l'.
Proof using less_asym less_trans.
  induction k as [|i IH]; intros l HP Hn Hh; cbn [initLoop]; [by exists l|].
  destruct (down_spec (S n) i i n l HP) as (l1 & -> & Hp1 & Hh1 & _); [|lia|lia|].
  { split; [done|done| |lia]. intros k Hk Hik Hne. apply Hh; [done|lia]. }
  rewrite bind_Ok. destruct (IH l1) as (l2 & -> & Hp2 & Hh2); [by rewrite Hp1|by rewrite Hp1|done|]. exists l2. split_and!; [done|by etrans|done].
Qed.

Lemma Init_spec l : Forall P l -> exists l', Init l = Ok l' /\ l' ≡ₚ l /\ heap l'.
Proof using less_asym less_trans.
  intros HP. unfold Init. destruct (initLoop_spec (length l) (length l / 2) l HP) as (l' & -> & Hp & Hh); [done| |].
  { intros k Hk Hlo. pose proof (proj1 (parent_place k (parent k) ltac:(lia)) eq_refl).
    pose proof (Nat.div_mod_eq (length l) 2). pose proof (Nat.mod_upper_bound (length l) 2). lia. }
  exists l'. split_and!; [done|done|]. intros k Hk. rewrite (Permutation_length Hp) in Hk. apply Hh; lia.
Qed.

Lemma Push_spec x l : P x -> Forall P l -> heap l -> exists l', Push x l = Ok l' /\ l' ≡ₚ x :: l /\ heap l'.
Proof using less_asym less_trans.
  intros Hx HP Hh. unfold Push. destruct (up_spec (S (length l)) (length l) (l ++ [x])) as (l' & -> & Hp & Hh').
  - apply list.Forall_app. split; [done|by constructor].
  - split; [rewrite length_app; cbn; lia| |].
    + intros k Hk Hne. rewrite length_app in Hk. cbn in Hk. pose proof (parent_lt k). intros a b Ha Hb.
      rewrite lookup_app_l in Ha by lia. rewrite lookup_app_l in Hb by lia. by apply (Hh k); [lia|..].
    + intros k Hk Hpk. rewrite length_app in Hk. cbn in Hk. pose proof (parent_lt k). lia.
  - lia.
  - exists l'. split_and!; [done| |done]. rewrite Hp. by rewrite Permutation_app_comm.
Qed.

Lemma root_first l : Forall P l -> heap l -> forall k, (k < length l)%nat -> k <> 0%nat -> notBefore l k 0.
Proof using less_trans.
  intros HP Hh k. induction (Nat.lt_wf_0 k) as [k _ IH]. intros Hk Hk0. pose proof (parent_lt k).
  destruct (decide (parent k = 0)%nat) as [Hp|Hp].
  - assert (Ho : ordered l k) by (apply Hh; lia). unfold ordered in Ho. by rewrite Hp in Ho.
  - apply (notBefore_trans l 0 (parent k) k); [done|lia|apply IH; lia|]. apply Hh. lia.
Qed.

(** Pop returns an item that none of the others is before. *)
Lemma Pop_spec l : Forall P l -> heap l -> l <> [] -> exists x l', Pop l = Ok (x, l') /\ l ≡ₚ x :: l' /\ heap l' /\
  Forall (fun y => less y x = false) l'.
Proof using less_asym less_trans.
  intros HP Hh Hne. assert (Hlen : (0 < length l)%nat) by (destruct l; [done|cbn; lia]). unfold Pop. destruct l as [|a l0]; [done|].
  set (l := a :: l0) in *. set (n := (length l - 1)%nat). pose proof (root_first l HP Hh) as Hroot.
  destruct (Swap_swapped 0 n l) as (l1 & -> & H0 & Hn & Hoth & Hp1); [lia|lia|]. rewrite bind_Ok.
  pose proof (Permutation_length Hp1) as Hl1.
  destruct (down_spec (S n) 0 0 n l1) as (l2 & -> & Hp2 & Hh2 & Hk2); [by rewrite Hp1| |lia|lia|].
  { split; [lia|lia| |lia]. intros k Hk _ Hpk. pose proof (parent_lt k).
    apply (notBefore_swapped 0 n l l1 _ _ k (parent k)); [by split_and!|apply Hoth; lia|apply Hoth; lia|apply Hh; lia]. }
  rewrite bind_Ok. rewrite (Hk2 n) by lia. rewrite Hn. exists a. change (l !! 0%nat) with (Some a). exists (take n l2).
  pose proof (Permutation_length Hp2) as Hl2.
  assert (Hsplit : l2 = take n l2 ++ [a]).
  { rewrite <- (take_drop n l2) at 1. f_equal. apply (list_eq_same_length _ _ 1); [done|rewrite length_drop; lia|].
    intros i x y Hi Hx Hy. assert (i = 0%nat) as -> by lia. rewrite lookup_drop, Nat.add_0_r, (Hk2 n) in Hx by lia.
    rewrite Hn in Hx. cbn in Hx, Hy. congruence. }
  assert (Hperm : l ≡ₚ a :: take n l2).
  { rewrite <- Hp1, <- Hp2. rewrite Hsplit at 1. by rewrite Permutation_app_comm. }
  split_and!; [done|done| |].
  - intros k Hk. rewrite length_take in Hk. pose proof (parent_lt k). intros x y Hx Hy.
    rewrite lookup_take_lt in Hx by lia. rewrite lookup_take_lt in Hy by lia. by apply (Hh2 k); [lia|lia|..].
  - apply Permutation_cons_inv in Hperm. rewrite <- Hperm. apply list.Forall_forall. intros y Hy. apply list_elem_of_lookup in Hy as [k Hk].
    pose proof (lookup_lt_Some _ _ _ Hk). apply (Hroot (S k)); [cbn; lia|done|done|done].
Qed.

End Order.

(** Without any order: what is in the slice stays in it. *)
Lemma up_perm fuel : forall j l, (j < length l)%nat -> (j < fuel)%nat -> exists l', up fuel j l = Ok l' /\ l' ≡ₚ l.
Proof using.
  induction fuel as [|fuel IH]; intros j l Hj Hf; [lia|]. cbn [up]. fold (parent j).
  destruct (Nat.eqb_spec (parent j) j) as [He|Hne]; [by exists l|].
  assert (Hj0 : (0 < j)%nat) by (destruct j; [done|lia]). pose proof (parent_lt j Hj0) as Hpj.
  destruct (Less_ok l j (parent j)) as (x & y & _ & _ & ->); [lia|lia|]. rewrite bind_Ok. destruct (less x y); cbn [negb]; [|by exists l].
  destruct (Swap_swapped (parent j) j l) as (l' & -> & (_ & _ & _ & Hperm)); [lia|lia|]. rewrite bind_Ok.
  destruct (IH (parent j) l') as (l2 & -> & Hp2); [rewrite Hperm; lia|lia|]. exists l2. split; [done|by etrans].
Qed.

Lemma down_perm fuel : forall h n l, (n <= length l)%nat -> (n <= h + fuel)%nat -> (0 < fuel)%nat ->
  exists l', down fuel h n l = Ok l' /\ l' ≡ₚ l.
Proof using.
  induction fuel as [|fuel IH]; intros h n l Hn Hf H0; [lia|]. cbn [down].
  destruct (Nat.leb_spec n (2 * h + 1)) as [Hleaf|Hh]; [by exists l|].
  assert (Hr : exists right : bool, (if (2 * h + 1 + 1 <? n)%nat then Less l (2 * h + 1 + 1) (2 * h + 1) else Ok false) = Ok right /\
    ((if right then 2 * h + 1 + 1 else 2 * h + 1) < n)%nat).
  { destruct (Nat.ltb_spec (2 * h + 1 + 1) n) as [H2|H2]; [|by exists false].
    destruct (Less_ok l (2 * h + 1 + 1) (2 * h + 1)) as (x & y & _ & _ & ->); [lia|lia|]. exists (less x y). split; [done|]. destruct (less x y); lia. }
  destruct Hr as (right & -> & Hj). rewrite bind_Ok. set (j := if right then (2 * h + 1 + 1)%nat else (2 * h + 1)%nat) in *.
  assert (Hjh : (h < j)%nat) by (unfold j; destruct right; lia).
  destruct (Less_ok l j h) as (x & y & _ & _ & ->); [lia|lia|]. rewrite bind_Ok. destruct (less x y); cbn [negb]; [|by exists l].
  destruct (Swap_swapped h j l) as (l' & -> & (_ & _ & _ & Hperm)); [lia|lia|]. rewrite bind_Ok.
  destruct (IH j n l') as (l2 & -> & Hp2); [rewrite Hperm; lia|lia|lia|]. exists l2. split; [done|by etrans].
Qed.

Lemma Push_perm x l : exists l', Push x l = Ok l' /\ l' ≡ₚ x :: l.
Proof using.
  unfold Push. destruct (up_perm (S (length l)) (length l) (l ++ [x])) as (l' & -> & Hp); [rewrite length_app; cbn; lia|lia|].
  exists l'. split; [done|]. rewrite Hp. by rewrite Permutation_app_comm.
Qed.

Lemma Pop_perm l : l <> [] -> exists x l', Pop l = Ok (x, l') /\ l ≡ₚ x :: l'.
Proof using.
  intros Hne. assert (Hlen : (0 < length l)%nat) by (destruct l; [done|cbn; lia]). unfold Pop. destruct l as [|a l0]; [done|].
  set (l := a :: l0) in *. set (n := (length l - 1)%nat).
  destruct (Swap_swapped 0 n l) as (l1 & -> & (_ & _ & _ & Hp1)); [lia|lia|]. rewrite bind_Ok.
  destruct (down_perm (S n) 0 n l1) as (l2 & -> & Hp2); [rewrite Hp1; lia|lia|lia|]. rewrite bind_Ok.
  assert (Hl2 : length l2 = S n) by (rewrite Hp2, Hp1; lia). destruct (lookup_lt_is_Some_2 l2 n) as [x Hx]; [lia|]. rewrite Hx.
  exists x, (take n l2). split; [done|]. rewrite <- Hp1, <- Hp2. rewrite <- (take_drop n l2) at 1.
  rewrite (drop_S _ _ _ Hx), drop_ge by lia. by rewrite Permutation_app_comm.
Qed.

Lemma Init_perm l : exists l', Init l = Ok l' /\ l' ≡ₚ l.
Proof using.
  unfold Init. assert (H : forall k l', (length l <= length l')%nat -> exists l2, initLoop k (length l) l' = Ok l2 /\ l2 ≡ₚ l'); [|by apply H].
  induction k as [|i IH]; intros l' Hl; cbn [initLoop]; [by exists l'|].
  destruct (down_perm (S (length l)) i (length l) l') as (l1 & -> & Hp1); [done|lia|lia|]. rewrite bind_Ok.
  destruct (IH l1) as (l2 & -> & Hp2); [rewrite Hp1; lia|]. exists l2. split; [done|by etrans].
Qed.

End Heap.

(** ** The items of the queue *)

(** [ref] tells the items apart, as their pointers do.  Their dependsOn
    changes while they wait and is kept by the generator of templates. *)
Record txPrioItem := mkPrioItem {
  p_tx : MsgTx;
  p_fee : Z;
  priority : float64;
  p_feePerKB : Z;
  ref : nat;
}.

Definition txPQByPriority (x y : txPrioItem) : bool :=
  if SFeqb (priority x) (priority y) then p_feePerKB y <? p_feePerKB x else SFltb (priority y) (priority x).
Definition txPQByFee (x y : txPrioItem) : bool :=
  if p_feePerKB x =? p_feePerKB y then SFltb (priority y) (priority x) else p_feePerKB y <? p_feePerKB x.

Record txPriorityQueue := mkQueue {
  lessFunc : txPrioItem -> txPrioItem -> bool;
  items : list txPrioItem;
}.

Section Queue.
Context {E : Type}.

Definition SetLessFunc (f : txPrioItem -> txPrioItem -> bool) (pq : txPriorityQueue) : outcome E txPriorityQueue :=
  l ← Init f (items pq); mret (mkQueue f l).
Definition newTxPriorityQueue (sortByFee : bool) : outcome E txPriorityQueue :=
  SetLessFunc (if sortByFee then txPQByFee else txPQByPriority) (mkQueue txPQByFee []).
Definition heapPush (item : txPrioItem) (pq : txPriorityQueue) : outcome E txPriorityQueue :=
  l ← Push (lessFunc pq) item (items pq); mret (mkQueue (lessFunc pq) l).
Definition heapPop (pq : txPriorityQueue) : outcome E (txPrioItem * txPriorityQueue) :=
  '(item, l) ← Pop (lessFunc pq) (items pq); mret (item, mkQueue (lessFunc pq) l).
End Queue.

(** ** The order of floating-point numbers *)
Definition fkey (x : float64) : Z * Z * Z :=
  match x with
  | S754_infinity true => (-2, 0, 0)
  | S754_finite true m e => (-1, - e, - Z.pos m)
  | S754_zero _ | S754_nan => (0, 0, 0)
  | S754_finite false m e => (1, e, Z.pos m)
  | S754_infinity false => (2, 0, 0)
  end.
Definition keyLt (a b : Z * Z * Z) : Prop :=
  a.1.1 < b.1.1 \/ (a.1.1 = b.1.1 /\ (a.1.2 < b.1.2 \/ (a.1.2 = b.1.2 /\ a.2 < b.2))).

Definition keyEq (a b : Z * Z * Z) : Prop := a.1.1 = b.1.1 /\ a.1.2 = b.1.2 /\ a.2 = b.2.

Lemma SFcompare_key x y : x <> S754_nan -> y <> S754_nan ->
  match SFcompare x y with
  | Some Lt => keyLt (fkey x) (fkey y)
  | Some Eq => keyEq (fkey x) (fkey y)
  | Some Gt => keyLt (fkey y) (fkey x)
  | None => False
  end.
Proof.
  intros Hx Hy. unfold keyLt, keyEq. destruct x as [sx|[]| |[] mx ex], y as [sy|[]| |[] my ey]; cbn; try done; try lia;
    destruct (Z.compare_spec ex ey) as [->|H|H]; try (cbn; lia);
    (change (Pos.compare_cont Eq mx my) with (mx ?= my)%positive; destruct (Pos.compare_spec mx my) as [->|H|H]; cbn; try done; lia).
Qed.

Lemma SFltb_key x y : x <> S754_nan -> y <> S754_nan -> SFltb x y = true <-> keyLt (fkey x) (fkey y).
Proof.
  intros Hx Hy. pose proof (SFcompare_key x y Hx Hy) as H. unfold SFltb, keyLt, keyEq in *.
  destruct (SFcompare x y) as [[]|]; [|by split| |done]; (split; [done|]; intros Hk; exfalso; lia).
Qed.
Lemma SFeqb_key x y : x <> S754_nan -> y <> S754_nan -> SFeqb x y = true <-> keyEq (fkey x) (fkey y).
Proof.
  intros Hx Hy. pose proof (SFcompare_key x y Hx Hy) as H. unfold SFeqb, keyLt, keyEq in *.
  destruct (SFcompare x y) as [[]|]; [by split| | |done]; (split; [done|]; intros Hk; exfalso; lia).
Qed.

Definition ordinary (x : txPrioItem) : Prop := priority x <> S754_nan.

(** What the two orders say. *)
Lemma byPriority_iff x y : ordinary x -> ordinary y -> txPQByPriority x y = true <->
  keyLt (fkey (priority y)) (fkey (priority x)) \/ (keyEq (fkey (priority x)) (fkey (priority y)) /\ p_feePerKB y < p_feePerKB x).
Proof.
  intros Hx Hy. unfold txPQByPriority. destruct (SFeqb _ _) eqn:He.
  - apply SFeqb_key in He; [|done|done]. rewrite Z.ltb_lt. unfold keyLt, keyEq in *. lia.
  - apply not_true_iff_false in He. rewrite (SFeqb_key _ _ Hx Hy) in He. rewrite (SFltb_key _ _ Hy Hx). tauto.
Qed.
Lemma byFee_iff x y : ordinary x -> ordinary y -> txPQByFee x y = true <->
  p_feePerKB y < p_feePerKB x \/ (p_feePerKB x = p_feePerKB y /\ keyLt (fkey (priority y)) (fkey (priority x))).
Proof.
  intros Hx Hy. unfold txPQByFee. destruct (Z.eqb_spec (p_feePerKB x) (p_feePerKB y)) as [He|He].
  - rewrite (SFltb_key _ _ Hy Hx). split; [by right|by intros [?|[_ ?]]; [lia|]].
  - rewrite Z.ltb_lt. split; [by left|by intros [?|[? _]]].
Qed.

Definition orderOf (sortByFee : bool) : txPrioItem -> txPrioItem -> bool := if sortByFee then txPQByFee else txPQByPriority.

Ltac orders b := destruct b; cbn [orderOf]; rewrite <- ?not_true_iff_false, ?byFee_iff, ?byPriority_iff by done; unfold keyLt, keyEq.

Lemma order_asym b x y : ordinary x -> ordinary y -> orderOf b x y = true -> orderOf b y x = false.
Proof. intros Hx Hy. orders b; lia. Qed.

Lemma order_trans b x y z : ordinary x -> ordinary y -> ordinary z -> orderOf b y x = false -> orderOf b z y = false -> orderOf b z x = false.
Proof. intros Hx Hy Hz. orders b; lia. Qed.

(** ** The queue sorts *)
Section Sorts.
Context {E : Type}.

(** A queue in one of the two orders. *)
Record queue_ok (sortByFee : bool) (pq : txPriorityQueue) : Prop := {
  qo_less : lessFunc pq = orderOf sortByFee;
  qo_items : Forall ordinary (items pq);
  qo_heap : heap (orderOf sortByFee) (items pq);
}.

Lemma SetLessFunc_ok b pq : Forall ordinary (items pq) ->
  exists pq', SetLessFunc (orderOf b) pq = (Ok pq' : outcome E _) /\ queue_ok b pq' /\ items pq' ≡ₚ items pq.
Proof using.
  intros Ho. unfold SetLessFunc. destruct (@Init_spec E _ (orderOf b) ordinary (order_asym b) (order_trans b) (items pq) Ho) as (l & -> & Hp & Hh).
  rewrite bind_Ok. eexists. split; [done|]. split; [|done]. split; [done|by cbn; rewrite Hp|done].
Qed.

Lemma heapPush_ok b item pq : ordinary item -> queue_ok b pq ->
  exists pq', heapPush item pq = (Ok pq' : outcome E _) /\ queue_ok b pq' /\ items pq' ≡ₚ item :: items pq.
Proof using.
  intros Hi [Hl Ho Hh]. unfold heapPush. rewrite Hl.
  destruct (@Push_spec E _ (orderOf b) ordinary (order_asym b) (order_trans b) item (items pq) Hi Ho Hh) as (l & -> & Hp & Hh').
  rewrite bind_Ok. eexists. split; [done|]. split; [|done]. split; [done|cbn; rewrite Hp; by constructor|done].
Qed.

Lemma heapPop_ok b pq : queue_ok b pq -> items pq <> [] ->
  exists x pq', heapPop pq = (Ok (x, pq') : outcome E _) /\ queue_ok b pq' /\ items pq ≡ₚ x :: items pq' /\
    Forall (fun y => orderOf b y x = false) (items pq').
Proof using.
  intros [Hl Ho Hh] Hne. unfold heapPop. rewrite Hl.
  destruct (@Pop_spec E _ (orderOf b) ordinary (order_asym b) (order_trans b) (items pq) Ho Hh Hne) as (x & l & -> & Hp & Hh' & Hall).
  rewrite bind_Ok. eexists _, _. split; [done|]. split; [|done]. rewrite Hp in Ho. apply list.Forall_cons in Ho as [_ Ho]. by split.
Qed.

Fixpoint pushAll (l : list txPrioItem) (pq : txPriorityQueue) : outcome E txPriorityQueue :=
  match l with
  | [] => Ok pq
  | item :: l => pq ← heapPush item pq; pushAll l pq
  end.
Fixpoint popAll (n : nat) (pq : txPriorityQueue) : outcome E (list txPrioItem) :=
  match n with
  | O => Ok []
  | S n => '(item, pq) ← heapPop pq; l ← popAll n pq; mret (item :: l)
  end.

Lemma pushAll_ok b l : forall pq, Forall ordinary l -> queue_ok b pq ->
  exists pq', pushAll l pq = Ok pq' /\ queue_ok b pq' /\ items pq' ≡ₚ l ++ items pq.
Proof using.
  induction l as [|x l IH]; intros pq Hl Hq; cbn [pushAll app]; [by exists pq|]. apply list.Forall_cons in Hl as [Hx Hl].
  destruct (heapPush_ok b x pq Hx Hq) as (pq1 & -> & Hq1 & Hp1). rewrite bind_Ok.
  destruct (IH pq1 Hl Hq1) as (pq2 & -> & Hq2 & Hp2). exists pq2. split_and!; [done|done|]. rewrite Hp2, Hp1. by rewrite Permutation_middle.
Qed.

Lemma popAll_ok b n : forall pq, queue_ok b pq -> n = length (items pq) ->
  exists l, popAll n pq = Ok l /\ l ≡ₚ items pq /\ StronglySorted (fun x y => orderOf b y x = false) l.
Proof using.
  induction n as [|n IH]; intros pq Hq Hn; cbn [popAll].
  { exists []. split_and!; [done| |constructor]. by destruct (items pq). }
  destruct (heapPop_ok b pq Hq) as (x & pq1 & -> & Hq1 & Hp1 & Hall); [by destruct (items pq)|]. rewrite bind_Ok.
  destruct (IH pq1 Hq1) as (l & -> & Hp & Hs); [rewrite Hp1 in Hn; cbn in Hn; lia|]. rewrite bind_Ok.
  exists (x :: l). split_and!; [done|by rewrite Hp, Hp1|]. constructor; [done|]. by rewrite Hp.
Qed.

(** C21. Whatever is pushed into a queue, in whatever order, and after a
    change of the order with SetLessFunc, is popped once each, sorted: no
    item is popped before one that is better by priority, or by fee per
    kilobyte.  No index is ever out of range. *)
Theorem queue_sorts b b' l (Hl : Forall ordinary l) : exists pq0 pq pq' out,
  newTxPriorityQueue b = (Ok pq0 : outcome E _) /\ pushAll l pq0 = Ok pq /\
  SetLessFunc (orderOf b') pq = (Ok pq' : outcome E _) /\ popAll (length l) pq' = Ok out /\
  out ≡ₚ l /\ StronglySorted (fun x y => orderOf b' y x = false) out.
Proof using.
  destruct (SetLessFunc_ok b (mkQueue txPQByFee [])) as (pq0 & H0 & Hq0 & Hp0); [constructor|]. cbn in Hp0.
  destruct (pushAll_ok b l pq0 Hl Hq0) as (pq & H1 & Hq & Hp).
  assert (Hpl : items pq ≡ₚ l) by (rewrite Hp; apply Permutation_nil_r in Hp0; rewrite Hp0; by rewrite app_nil_r).
  destruct (SetLessFunc_ok b' pq) as (pq' & H2 & Hq' & Hp'); [by rewrite Hpl|].
  destruct (popAll_ok b' (length l) pq' Hq') as (out & H3 & Hout & Hs); [by rewrite Hp', Hpl|].
  exists pq0, pq, pq', out. split_and!; [by destruct b|done|done|done|by rewrite Hout, Hp'|done].
Qed.
End Sorts.

(** Free and old, paying and new. *)
Definition item (n : nat) (prio fee : Z) : txPrioItem := mkPrioItem (mkMsgTx 1 [] [] 0) fee (float_of prio) fee n.

Definition some : list txPrioItem := [item 1 5 10; item 2 9 3; item 3 9 4; item 4 1 10; item 5 7 0].
Definition refs (b : bool) : list nat :=
  match newTxPriorityQueue (E := ()) b with
  | Ok pq => match pushAll (E := ()) some pq with Ok pq => match popAll (E := ()) 5 pq with Ok l => ref <$> l | _ => [] end | _ => [] end
  | _ => []
  end.

Example two_orders : refs true = [1; 4; 3; 2; 5]%nat /\ refs false = [3; 2; 5; 1; 4]%nat.
Proof. by vm_compute. Qed.

Lemma queue_sorts_witness : exists pq0 pq pq' out, newTxPriorityQueue false = (Ok pq0 : outcome () _) /\
  pushAll [item 2 9 3; item 1 5 10] pq0 = (Ok pq : outcome () _) /\ SetLessFunc (orderOf true) pq = (Ok pq' : outcome () _) /\ popAll 2 pq' = (Ok out : outcome () _) /\
  out ≡ₚ [item 2 9 3; item 1 5 10] /\ StronglySorted (fun x y => orderOf true y x = false) out.
Proof.
  apply (queue_sorts false true [item 2 9 3; item 1 5 10]). apply Forall_cons_2; [by vm_compute|apply Forall_cons_2; [by vm_compute|apply Forall_nil_2]].
Defined.

End PrioQueue.
