(* ===== verification/Mining.v ===== *)
(** * Block templates

    Models coin/OrcaNet/mining/mining.go: the generator of block templates.
    It asks a source of transactions for what waits, queues what spends
    coins of the chain, lets the rest wait for the transactions it spends,
    and fills the block from the queue, first by priority and then by fee.

    The source and the chain are records of what the generator calls on
    them; [TxSource] is implemented by the transaction pool.  An item of the
    queue is told apart by its place in the source, as its pointer does; the
    maps of dependencies hold the places.  The log is left out. *)

From Stdlib Require Import Floats.SpecFloat.
From S2P Require Import Prelude ScriptNum Wire Tokenizer Builder SigHash SigCheck Engine Merkle Difficulty Chain Utxo TxRules ScriptVal Deployments Standard MempoolPolicy Mempool PrioQueue.

Module Mining.
Import ScriptNum Wire Tokenizer Builder SigHash SigCheck Engine Merkle Difficulty Utxo TxRules ScriptVal Standard MempoolPolicy PrioQueue.
Import Mempool (World, shuffle, shuffle_perm, TxDesc, d_Tx, Fee, FeePerKB, StandardVerifyFlags, TxPool).

Definition MaxBlockHeaderPayload := 80.
Definition MaxVarIntPayload := 9.
Definition blockHeaderOverhead := MaxBlockHeaderPayload + MaxVarIntPayload.
(** "/P2SH/btcd/" *)
Definition CoinbaseFlags : list Z := [47; 80; 50; 83; 72; 47; 98; 116; 99; 100; 47].

(** An error of txscript, one of the chain, or of the length of a coinbase. *)
Inductive TemplateError :=
| ScriptErr (e : ErrorCode)
| ChainErr (e : RuleError)
| CoinbaseLength.

Definition ofScript {A} (m : outcome ErrorCode A) : outcome TemplateError A :=
  match m with Ok a => Ok a | Err e => Err (ScriptErr e) | Panic => Panic | Hang => Hang end.
Definition ofChain {A} (m : outcome RuleError A) : outcome TemplateError A :=
  match m with Ok a => Ok a | Err e => Err (ChainErr e) | Panic => Panic | Hang => Hang end.

(** ** What the generator is given *)
Record Policy := mkGenPolicy {
  BlockMinWeight : Z;
  BlockMaxWeight : Z;
  BlockPrioritySize : Z;
  TxMinFreeFee : Z;
}.

(** What the generator calls on the pool. *)
Class TxSource (S : Type) := {
  MiningDescs : S -> list TxDesc;
  HaveTransaction : list Z -> S -> bool;
}.

(** And on the chain; the clock gives the reading for each place in the
    source, and one after the last. *)
Record TemplateChain := mkTemplateChain {
  best_Hash : list Z;
  best_Height : Z;
  best_MedianTime : Z;
  FetchUtxoView : MsgTx -> outcome RuleError UtxoViewpoint;
  segwitState : outcome RuleError Deployments.ThresholdState;
  CalcNextRequiredDifficulty : Z -> outcome RuleError Z;
  CalcNextBlockVersion : outcome RuleError Z;
  CheckConnectBlockTemplate : MsgBlock -> Z -> outcome RuleError ();
  AdjustedTime : nat -> Z;
}.

Record BlockTemplate := mkTemplate {
  Block : MsgBlock;
  Fees : list Z;
  SigOpCosts : list Z;
  t_Height : Z;
  ValidPayAddress : bool;
  WitnessCommitment : list Z;
}.

Section Generator.
Context {C : Crypto} {W : World}.

(** ** The coinbase *)
Definition standardCoinbaseScript (nextBlockHeight extraNonce : Z) : outcome TemplateError (list Z) :=
  ofScript (b ← AddInt64 nextBlockHeight NewScriptBuilder; b ← AddInt64 (i64 extraNonce) b; Script (AddData CoinbaseFlags b)).

Definition createCoinbaseTx (params : Params) (coinbaseScript : list Z) (nextBlockHeight : Z) (addr : option Address)
    : outcome TemplateError MsgTx :=
  pkScript ← ofScript (match addr with
                       | Some addr => PayToAddrScript addr
                       | None => Script (AddOp OP_1 NewScriptBuilder)
                       end);
  mret (mkMsgTx 1 [mkTxIn (mkOutPoint zeroHash MaxUint32) coinbaseScript [] MaxUint32]
          [mkTxOut (CalcBlockSubsidy nextBlockHeight params) pkScript] 0).

(** The coinbase pays the fees too. *)
Definition addFees (totalFees : Z) (coinbaseTx : MsgTx) : outcome TemplateError MsgTx :=
  match TxOuts coinbaseTx with
  | [] => Panic
  | out :: outs => Ok (mkMsgTx (Version coinbaseTx) (TxIns coinbaseTx) (mkTxOut (i64 (Value out + totalFees)) (PkScript out) :: outs)
                         (LockTime coinbaseTx))
  end.

Definition setFirstInput (f : TxIn -> TxIn) (tx : MsgTx) : outcome TemplateError MsgTx :=
  match TxIns tx with
  | [] => Panic
  | ti :: ins => Ok (mkMsgTx (Version tx) (f ti :: ins) (TxOuts tx) (LockTime tx))
  end.
Definition withWitness (w : list (list Z)) (ti : TxIn) : TxIn := mkTxIn (PreviousOutPoint ti) (SignatureScript ti) w (Sequence ti).
Definition withScript (script : list Z) (ti : TxIn) : TxIn := mkTxIn (PreviousOutPoint ti) script (Witness ti) (Sequence ti).
Definition addOutput (out : TxOut) (tx : MsgTx) : MsgTx := mkMsgTx (Version tx) (TxIns tx) (TxOuts tx ++ [out]) (LockTime tx).

(** The coinbase with a commitment of the right size. *)
Definition coinbaseModel (coinbaseTx : MsgTx) : outcome TemplateError MsgTx :=
  coinbaseCopy ← setFirstInput (withWitness [replicate (Z.to_nat CoinbaseWitnessDataLen) 97]) coinbaseTx;
  mret (addOutput (mkTxOut 0 (replicate (Z.to_nat CoinbaseWitnessPkScriptLength) 97)) coinbaseCopy).

(** [rest] are the transactions after the coinbase. *)
Definition AddWitnessCommitment (coinbaseTx : MsgTx) (rest : list MsgTx) : outcome TemplateError (MsgTx * list Z) :=
  let witnessNonce := replicate (Z.to_nat CoinbaseWitnessDataLen) 0 in
  coinbaseTx ← setFirstInput (withWitness [witnessNonce]) coinbaseTx;
  witnessMerkleRoot ← ofChain (CalcMerkleRoot (coinbaseTx :: rest) true);
  let witnessCommitment := DoubleHashB (witnessMerkleRoot ++ witnessNonce) in
  mret (addOutput (mkTxOut 0 (WitnessMagicBytes ++ witnessCommitment)) coinbaseTx, witnessCommitment).

(** ** Views *)
Definition mergeUtxoView (viewA viewB : UtxoViewpoint) : UtxoViewpoint :=
  mkView (map_fold (fun outpoint entryB entriesA =>
            match entries viewA !! outpoint with
            | Some (Some entryA) => if IsSpent entryA then <[outpoint := entryB]> entriesA else entriesA
            | _ => <[outpoint := entryB]> entriesA
            end) (entries viewA) (entries viewB)) (bestHash viewA).

Definition spendEntry (view : UtxoViewpoint) (txIn : TxIn) : UtxoViewpoint :=
  match LookupEntry view (PreviousOutPoint txIn) with
  | Some entry => setEntry (PreviousOutPoint txIn) (Spend entry) view
  | None => view
  end.
Definition spendTransaction (utxoView : UtxoViewpoint) (tx : MsgTx) (height : Z) : outcome RuleError UtxoViewpoint :=
  AddTxOuts tx height (foldl spendEntry utxoView (TxIns tx)).

Definition MinimumMedianTime (chain : TemplateChain) : Z := best_MedianTime chain + 1.
(** [now] is the adjusted time. *)
Definition medianAdjustedTime (chain : TemplateChain) (now : Z) : Z :=
  if now <? MinimumMedianTime chain then MinimumMedianTime chain else now.

(** ** What waits *)

(** The queue, the view of the block, and who waits for whom: by the hash of
    a parent, the places of those that spend it under their hashes; and by
    place, the parents that are still missing. *)
Record gathered := mkGathered {
  g_queue : txPriorityQueue;
  g_utxos : UtxoViewpoint;
  dependers : gmap (list Z) (gmap (list Z) nat);
  dependsOn : gmap nat (gset (list Z));
  prioItems : gmap nat txPrioItem;
}.

(** The inputs of a transaction: false when one is neither in the chain nor
    in the source. *)
Fixpoint linkInputs (have : list Z -> bool) (utxos : UtxoViewpoint) (txHash : list Z) (r : nat) (ins : list TxIn)
    (deps : gmap (list Z) (gmap (list Z) nat)) (on : gset (list Z)) : bool * gmap (list Z) (gmap (list Z) nat) * gset (list Z) :=
  match ins with
  | [] => (true, deps, on)
  | txIn :: ins =>
      let originHash := Hash (PreviousOutPoint txIn) in
      let available := match LookupEntry utxos (PreviousOutPoint txIn) with Some entry => negb (IsSpent entry) | None => false end in
      if available then linkInputs have utxos txHash r ins deps on
      else if negb (have originHash) then (false, deps, on)
      else linkInputs have utxos txHash r ins (<[originHash := <[txHash := r]> (default ∅ (deps !! originHash))]> deps)
             ({[originHash]} ∪ on)
  end.

Section Source.
Context {S : Type} {T : TxSource S}.
Context (policy : Policy) (params : Params) (source : S) (chain : TemplateChain).

Definition nextBlockHeight : Z := i32 (best_Height chain + 1).

(** One transaction of the source.  One that is skipped because of a later
    input keeps the links of the earlier ones. *)
Definition consider (r : nat) (txDesc : TxDesc) (g : gathered) : outcome TemplateError gathered :=
  let tx := d_Tx txDesc in
  if IsCoinBaseTx tx then Ok g
  else if negb (IsFinalizedTransaction tx nextBlockHeight (AdjustedTime chain r)) then Ok g
  else
    match FetchUtxoView chain tx with
    | Err _ => Ok g
    | Panic => Panic
    | Hang => Hang
    | Ok utxos =>
        let '(complete, deps, on) := linkInputs (fun h => HaveTransaction h source) utxos (TxHash tx) r (TxIns tx) (dependers g) ∅ in
        let missing := if decide (on = ∅) then dependsOn g else <[r := on]> (dependsOn g) in
        if negb complete then
          Ok (mkGathered (g_queue g) (g_utxos g) deps missing (<[r := mkPrioItem tx 0 (float_of 0) 0 r]> (prioItems g)))
        else
          let item := mkPrioItem tx (Fee txDesc) (CalcPriority tx utxos nextBlockHeight) (FeePerKB txDesc) r in
          queue ← (if decide (on = ∅) then heapPush item (g_queue g) else Ok (g_queue g));
          Ok (mkGathered queue (mergeUtxoView (g_utxos g) utxos) deps missing (<[r := item]> (prioItems g)))
    end.

Fixpoint mempoolLoop (r : nat) (descs : list TxDesc) (g : gathered) : outcome TemplateError gathered :=
  match descs with
  | [] => Ok g
  | txDesc :: descs => g ← consider r txDesc g; mempoolLoop (Datatypes.S r) descs g
  end.

(** ** What is chosen *)
Record selection := mkSelection {
  queue : txPriorityQueue;
  sortedByFee : bool;
  blockUtxos : UtxoViewpoint;
  (** the items after the coinbase, and the costs of their signatures *)
  blockTxns : list txPrioItem;
  txSigOpCosts : list Z;
  blockWeight : Z;
  blockSigOpCost : Z;
  totalFees : Z;
  witnessIncluded : bool;
  waits : gmap nat (gset (list Z));
  hashCache : option HashCache;
}.

Definition setQueue (q : txPriorityQueue) (s : selection) : selection :=
  mkSelection q (sortedByFee s) (blockUtxos s) (blockTxns s) (txSigOpCosts s) (blockWeight s) (blockSigOpCost s) (totalFees s)
    (witnessIncluded s) (waits s) (hashCache s).
Definition setHashCache (h : option HashCache) (s : selection) : selection :=
  mkSelection (queue s) (sortedByFee s) (blockUtxos s) (blockTxns s) (txSigOpCosts s) (blockWeight s) (blockSigOpCost s) (totalFees s)
    (witnessIncluded s) (waits s) h.
Definition sortByFee (q : txPriorityQueue) (s : selection) : selection :=
  mkSelection q true (blockUtxos s) (blockTxns s) (txSigOpCosts s) (blockWeight s) (blockSigOpCost s) (totalFees s)
    (witnessIncluded s) (waits s) (hashCache s).
(** The weight of a commitment in the coinbase is accounted for. *)
Definition withCommitment (weightDiff : Z) (s : selection) : selection :=
  mkSelection (queue s) (sortedByFee s) (blockUtxos s) (blockTxns s) (txSigOpCosts s) (u32 (blockWeight s + u32 weightDiff))
    (blockSigOpCost s) (totalFees s) true (waits s) (hashCache s).

(** Those that waited for a transaction that is in the block now. *)
Fixpoint release (all : gmap nat txPrioItem) (txHash : list Z) (order : list (list Z * nat)) (ws : gmap nat (gset (list Z)))
    (q : txPriorityQueue) : outcome TemplateError (gmap nat (gset (list Z)) * txPriorityQueue) :=
  match order with
  | [] => Ok (ws, q)
  | (_, r) :: order =>
      let on := default ∅ (ws !! r) ∖ {[txHash]} in
      q ← (if decide (on = ∅) then match all !! r with Some item => heapPush item q | None => Panic end else Ok q);
      release all txHash order (<[r := on]> ws) q
  end.

(** The steps that an engine may take, and the caches of the generator. *)
Context (fuel : nat) (sigCache : option SigCache).

(** The last checks of an item, and its place in the block. *)
Definition includeTx (g : gathered) (item : txPrioItem) (txWeight sigOpCost : Z) (s : selection) : outcome TemplateError selection :=
  let tx := p_tx item in
  match CheckTransactionInputs tx nextBlockHeight (blockUtxos s) params with
  | Err _ => Ok s
  | Panic => Panic
  | Hang => Hang
  | Ok _ =>
      match ValidateTransactionScripts fuel (blockUtxos s) StandardVerifyFlags sigCache tx (hashCache s) with
      | Err _ => Ok s
      | Panic => Panic
      | Hang => Hang
      | Ok (Some _, h) => Ok (setHashCache h s)
      | Ok (None, h) =>
          utxos ← ofChain (spendTransaction (blockUtxos s) tx nextBlockHeight);
          let order := shuffle (length (blockTxns s)) (map_to_list (default ∅ (dependers g !! TxHash tx))) in
          '(ws, q) ← release (prioItems g) (TxHash tx) order (waits s) (queue s);
          Ok (mkSelection q (sortedByFee s) utxos (blockTxns s ++ [item]) (txSigOpCosts s ++ [sigOpCost])
                (u32 (blockWeight s + txWeight)) (i64 (blockSigOpCost s + sigOpCost)) (i64 (totalFees s + p_fee item))
                (witnessIncluded s) ws h)
      end
  end.

Definition selectTx (g : gathered) (segwitActive : bool) (coinbaseTx : MsgTx) (s : selection) : outcome TemplateError selection :=
  '(prioItem, q) ← heapPop (queue s);
  let s := setQueue q s in
  let tx := p_tx prioItem in
  if negb segwitActive && HasWitness tx then Ok s
  else
    s ← (if segwitActive && negb (witnessIncluded s) && HasWitness tx then
           coinbaseCopy ← coinbaseModel coinbaseTx;
           Ok (withCommitment (GetTransactionWeight coinbaseCopy - GetTransactionWeight coinbaseTx) s)
         else Ok s);
    let txWeight := u32 (GetTransactionWeight tx) in
    let blockPlusTxWeight := u32 (blockWeight s + txWeight) in
    if (blockPlusTxWeight <? blockWeight s) || (BlockMaxWeight policy <=? blockPlusTxWeight) then Ok s
    else
      match GetSigOpCost tx false (blockUtxos s) true segwitActive with
      | Err _ => Ok s
      | Panic => Panic
      | Hang => Hang
      | Ok sigOpCost =>
          if (i64 (blockSigOpCost s + sigOpCost) <? blockSigOpCost s) || (MaxBlockSigOpsCost <? i64 (blockSigOpCost s + sigOpCost))
          then Ok s
          else if sortedByFee s && (p_feePerKB prioItem <? TxMinFreeFee policy) && (BlockMinWeight policy <=? blockPlusTxWeight)
          then Ok s
          else if negb (sortedByFee s)
                  && ((BlockPrioritySize policy <=? blockPlusTxWeight) || SFleb (priority prioItem) MinHighPriority)
          then
            q ← SetLessFunc txPQByFee (queue s);
            let s := sortByFee q s in
            if (BlockPrioritySize policy <? blockPlusTxWeight) || SFltb (priority prioItem) MinHighPriority
            then q ← heapPush prioItem (queue s); Ok (setQueue q s)
            else includeTx g prioItem txWeight sigOpCost s
          else includeTx g prioItem txWeight sigOpCost s
      end.

(** One pop for each item of the queue, and one more for the item that is put
    back when the order changes. *)
Fixpoint selectLoop (n : nat) (g : gathered) (segwitActive : bool) (coinbaseTx : MsgTx) (s : selection)
    : outcome TemplateError selection :=
  match items (queue s) with
  | [] => Ok s
  | _ =>
      match n with
      | O => Hang
      | Datatypes.S n => s ← selectTx g segwitActive coinbaseTx s; selectLoop n g segwitActive coinbaseTx s
      end
  end.

(** ** The template *)
Definition finishTemplate (hasAddress : bool) (coinbaseTx : MsgTx) (coinbaseSigOpCost : Z) (s : selection)
    : outcome TemplateError BlockTemplate :=
  let txns := p_tx <$> blockTxns s in
  coinbaseTx ← addFees (totalFees s) coinbaseTx;
  '(coinbaseTx, witnessCommitment) ← (if witnessIncluded s then AddWitnessCommitment coinbaseTx txns else Ok (coinbaseTx, []));
  let ts := medianAdjustedTime chain (AdjustedTime chain (length (MiningDescs source))) in
  reqDifficulty ← ofChain (CalcNextRequiredDifficulty chain ts);
  nextBlockVersion ← ofChain (CalcNextBlockVersion chain);
  merkleRoot ← ofChain (CalcMerkleRoot (coinbaseTx :: txns) false);
  let msgBlock := mkMsgBlock (mkBlockHeader nextBlockVersion (best_Hash chain) merkleRoot ts reqDifficulty 0) (coinbaseTx :: txns) in
  _ ← ofChain (CheckConnectBlockTemplate chain msgBlock nextBlockHeight);
  mret (mkTemplate msgBlock (i64 (- totalFees s) :: (p_fee <$> blockTxns s)) (coinbaseSigOpCost :: txSigOpCosts s) nextBlockHeight
          hasAddress witnessCommitment).

Definition NewBlockTemplate (payToAddress : option Address) (h : option HashCache) : outcome TemplateError BlockTemplate :=
  coinbaseScript ← standardCoinbaseScript nextBlockHeight 0;
  coinbaseTx ← createCoinbaseTx params coinbaseScript nextBlockHeight payToAddress;
  numSigOps ← ofChain (CountSigOps coinbaseTx);
  let coinbaseSigOpCost := numSigOps * WitnessScaleFactor in
  let sourceTxns := MiningDescs source in
  let byFee := BlockPrioritySize policy =? 0 in
  priorityQueue ← newTxPriorityQueue byFee;
  g ← mempoolLoop 0 sourceTxns (mkGathered priorityQueue NewUtxoViewpoint ∅ ∅ ∅);
  let weight := u32 (blockHeaderOverhead * WitnessScaleFactor + GetTransactionWeight coinbaseTx) in
  segwit ← ofChain (segwitState chain);
  let segwitActive := match segwit with Deployments.ThresholdActive => true | _ => false end in
  s ← selectLoop (2 + length sourceTxns) g segwitActive coinbaseTx
        (mkSelection (g_queue g) byFee (g_utxos g) [] [] weight coinbaseSigOpCost 0 false (dependsOn g) h);
  finishTemplate (bool_decide (is_Some payToAddress)) coinbaseTx coinbaseSigOpCost s.

(** ** Changes to a template while it is solved *)
Definition setTime (t : Z) (msgBlock : MsgBlock) : MsgBlock :=
  let h := Header msgBlock in
  mkMsgBlock (mkBlockHeader (bh_Version h) (PrevBlock h) (MerkleRoot h) t (Wire.Bits h) (Nonce h)) (Transactions msgBlock).
Definition setBits (bits : Z) (msgBlock : MsgBlock) : MsgBlock :=
  let h := Header msgBlock in
  mkMsgBlock (mkBlockHeader (bh_Version h) (PrevBlock h) (MerkleRoot h) (Wire.Timestamp h) bits (Nonce h)) (Transactions msgBlock).

Definition UpdateBlockTime (now : Z) : stateful TemplateError MsgBlock () :=
  let newTime := medianAdjustedTime chain now in
  _ ← modify (setTime newTime);
  if ReduceMinDifficulty params then
    difficulty ← lift (ofChain (CalcNextRequiredDifficulty chain newTime)); modify (setBits difficulty)
  else mret ().

Definition UpdateExtraNonce (blockHeight extraNonce : Z) (msgBlock : MsgBlock) : outcome TemplateError MsgBlock :=
  coinbaseScript ← standardCoinbaseScript blockHeight extraNonce;
  if MaxCoinbaseScriptLen <? Zlen coinbaseScript then Err CoinbaseLength
  else
    match Transactions msgBlock with
    | [] => Panic
    | coinbaseTx :: txns =>
        coinbaseTx ← setFirstInput (withScript coinbaseScript) coinbaseTx;
        merkleRoot ← ofChain (CalcMerkleRoot (coinbaseTx :: txns) false);
        let h := Header msgBlock in
        mret (mkMsgBlock (mkBlockHeader (bh_Version h) (PrevBlock h) merkleRoot (Wire.Timestamp h) (Wire.Bits h) (Nonce h)) (coinbaseTx :: txns))
    end.

End Source.

(** The pool, with the order in which a range visits it. *)
Definition poolDescs (order : list (list Z * TxDesc)) : list TxDesc := snd <$> order.
#[export] Instance pool_source : TxSource (TxPool * list (list Z * TxDesc)) := {|
  MiningDescs p := poolDescs p.2;
  HaveTransaction h p := Mempool.haveTransaction h p.1;
|}.

End Generator.
End Mining.
