(* ===== verification/MiningRun.v ===== *)
(** * Runs of the generator of block templates

    What [Mining.NewBlockTemplate] gives: the invariant of the gathering of
    transactions, the invariant and the measure of the choice among them,
    and what every template satisfies.  A call returns when the transactions
    of the source hold bytes and the functions that the generator is given
    return ([workable]). *)

From Stdlib Require Import Floats.SpecFloat.
From S2P Require Import Prelude ScriptNum Wire Tokenizer Builder SigHash SigCheck Engine Merkle Difficulty Chain Utxo TxRules ScriptVal Deployments BlockRules ConnectSafe Standard MempoolPolicy Returns Mempool MempoolInv MempoolRun PrioQueue Mining.

Module MiningRun.
Import ScriptNum Wire Tokenizer Builder SigHash SigCheck Engine Merkle Difficulty Utxo TxRules ScriptVal Standard MempoolPolicy Returns PrioQueue Mining.
Import Mempool (World, shuffle, shuffle_perm, TxDesc, d_Tx, Fee, FeePerKB, StandardVerifyFlags, TxPool).
Import ConnectSafe (addOuts_entries).

(** [P] holds of the value that the call returns, if it returns one; only
    for the reason [B] does it crash. *)
Definition yields {E A} (B : Prop) (m : outcome E A) (P : A -> Prop) : Prop :=
  match m with
  | Ok a => P a
  | Err _ => True
  | Panic | Hang => B
  end.

Lemma yields_safe {E A} (G : Prop) (m : outcome E A) P : (G -> safe m P) -> yields (~ G) m (fun a => G -> P a).
Proof. intros H. destruct m; cbn in *; auto. Qed.
Lemma yields_bind {E A D} B (m : outcome E A) (f : A -> outcome E D) (P : A -> Prop) (Q : D -> Prop) :
  yields B m P -> (forall a, m = Ok a -> P a -> yields B (f a) Q) -> yields B (m ≫= f) Q.
Proof. destruct m; naive_solver. Qed.
Lemma yields_chain {A} (G : Prop) (m : outcome RuleError A) (P : A -> Prop) : (G -> safe m (fun _ => True)) -> (forall a, m = Ok a -> P a) ->
  yields (~ G) (ofChain m) P.
Proof. intros Hc Hp. destruct m; cbn in *; auto. Qed.
Lemma yields_mono {E A} (B : Prop) (m : outcome E A) (P Q : A -> Prop) : yields B m P -> (forall a, m = Ok a -> P a -> Q a) -> yields B m Q.
Proof. destruct m; naive_solver. Qed.

(** ** The queue *)
Lemma heapPush_perm {E} item pq : exists pq' : txPriorityQueue, (heapPush item pq : outcome E _) = Ok pq' /\ items pq' ≡ₚ item :: items pq.
Proof.
  unfold heapPush. destruct (Push_perm (E := E) (lessFunc pq) item (items pq)) as (l & -> & Hp). rewrite bind_Ok. by eexists.
Qed.
Lemma heapPop_perm {E} pq : items pq <> [] -> exists x (pq' : txPriorityQueue), (heapPop pq : outcome E _) = Ok (x, pq') /\ items pq ≡ₚ x :: items pq'.
Proof.
  intros Hne. unfold heapPop. destruct (Pop_perm (E := E) (lessFunc pq) (items pq) Hne) as (x & l & -> & Hp). rewrite bind_Ok. by eexists _, _.
Qed.
Lemma SetLessFunc_perm {E} f pq : exists pq' : txPriorityQueue, (SetLessFunc f pq : outcome E _) = Ok pq' /\ items pq' ≡ₚ items pq.
Proof. unfold SetLessFunc. destruct (Init_perm (E := E) f (items pq)) as (l & -> & Hp). rewrite bind_Ok. by eexists. Qed.

(** ** Weights *)
Lemma sizes_nonneg {A} (f : A -> Z) l : (forall x, 0 <= f x) -> 0 <= sum (f <$> l).
Proof. intros Hf. induction l as [|x l IH]; [done|]. rewrite fmap_cons, sum_cons. specialize (Hf x). lia. Qed.
Lemma VarInt_nonneg v : 0 <= VarIntSerializeSize v.
Proof. unfold VarIntSerializeSize. repeat case_match; lia. Qed.
Lemma TxIn_size_nonneg ti : 0 <= TxIn_SerializeSize ti.
Proof. unfold TxIn_SerializeSize. pose proof (VarInt_nonneg (Zlen (SignatureScript ti))). pose proof (Zlen_nonneg (SignatureScript ti)). lia. Qed.
Lemma TxOut_size_nonneg o : 0 <= TxOut_SerializeSize o.
Proof. unfold TxOut_SerializeSize. pose proof (VarInt_nonneg (Zlen (PkScript o))). pose proof (Zlen_nonneg (PkScript o)). lia. Qed.
Lemma TxWitness_size_nonneg w : 0 <= TxWitness_SerializeSize w.
Proof.
  apply Z.add_nonneg_nonneg; [apply VarInt_nonneg|]. apply sizes_nonneg. intros x.
  pose proof (VarInt_nonneg (Zlen x)). pose proof (Zlen_nonneg x). lia.
Qed.
Lemma GetTransactionWeight_nonneg tx : 0 <= GetTransactionWeight tx.
Proof.
  unfold GetTransactionWeight, SerializeSizeStripped, SerializeSize, WitnessScaleFactor, baseSize.
  pose proof (VarInt_nonneg (Zlen (TxIns tx))). pose proof (VarInt_nonneg (Zlen (TxOuts tx))).
  pose proof (sizes_nonneg TxIn_SerializeSize (TxIns tx) TxIn_size_nonneg). pose proof (sizes_nonneg TxOut_SerializeSize (TxOuts tx) TxOut_size_nonneg).
  pose proof (sizes_nonneg (fun ti => TxWitness_SerializeSize (Witness ti)) (TxIns tx) (fun ti => TxWitness_size_nonneg (Witness ti))).
  destruct (HasWitness tx); lia.
Qed.

(** ** Views *)
Lemma mergeUtxoView_entries va vb op : entries (mergeUtxoView va vb) !! op = entries va !! op \/
  is_Some (entries vb !! op) /\ entries (mergeUtxoView va vb) !! op = entries vb !! op.
Proof.
  unfold mergeUtxoView. cbn [entries].
  apply (map_fold_weak_ind (fun r (m : gmap OutPoint (option UtxoEntry)) => r !! op = entries va !! op \/ is_Some (m !! op) /\ r !! op = m !! op)); [by left|].
  intros o e m r Hm IH. destruct (decide (o = op)) as [->|Hne].
  - rewrite lookup_insert_eq. assert (Hl : r !! op = entries va !! op) by (destruct IH as [?|[[? ?] _]]; congruence).
    destruct (entries va !! op) as [[ea|]|]; [destruct (IsSpent ea)| |]; rewrite ?lookup_insert_eq; eauto.
  - rewrite (lookup_insert_ne m o op) by done. destruct (entries va !! o) as [[ea|]|]; [destruct (IsSpent ea)| |]; by rewrite ?(lookup_insert_ne r o op).
Qed.
Lemma mergeUtxoView_coins va vb op c : coins (mergeUtxoView va vb) !! op = Some c -> coins va !! op = Some c \/ coins vb !! op = Some c.
Proof.
  rewrite !coins_lookup. unfold LookupEntry. destruct (mergeUtxoView_entries va vb op) as [->|[_ ->]]; [by left|by right].
Qed.

Lemma spendEntry_coins view ti : coins (spendEntry view ti) = delete (PreviousOutPoint ti) (coins view).
Proof.
  unfold spendEntry. destruct (LookupEntry view (PreviousOutPoint ti)) as [e|] eqn:He.
  - by rewrite coins_set_spent by apply Spend_spent.
  - symmetry. apply delete_id. by rewrite coins_lookup, He.
Qed.
Lemma spendEntries_coins ins : forall view op c, coins (foldl spendEntry view ins) !! op = Some c ->
  coins view !! op = Some c /\ forall ti, ti ∈ ins -> PreviousOutPoint ti <> op.
Proof.
  induction ins as [|ti ins IH]; intros view op c; cbn [foldl]; [intros H; split; [done|by intros ? ?%not_elem_of_nil]|].
  intros [Hc Hins]%IH. rewrite spendEntry_coins in Hc. apply lookup_delete_Some in Hc as [Hne Hc].
  split; [done|]. intros ti' [->|Hin]%list.elem_of_cons; [done|by apply Hins].
Qed.
(** The views go on holding bytes. *)
Lemma mergeUtxoView_ok va vb : view_ok va -> view_ok vb -> view_ok (mergeUtxoView va vb).
Proof.
  intros Ha Hb op e. unfold LookupEntry. destruct (mergeUtxoView_entries va vb op) as [->|[_ ->]]; [apply Ha|apply Hb].
Qed.
Lemma spendEntries_ok ins : forall view, view_ok view -> view_ok (foldl spendEntry view ins).
Proof.
  induction ins as [|ti ins IH]; intros view Hv; cbn [foldl]; [done|]. apply IH. unfold spendEntry.
  destruct (LookupEntry view (PreviousOutPoint ti)) as [e|] eqn:He; [|done]. apply view_ok_set; [done|].
  unfold Spend. destruct (IsSpent e); by apply (Hv _ _ He).
Qed.
Lemma sumInputs_knows ins h view params : forall t t', sumInputs ins h view params t = Ok t' ->
  Forall (fun ti => is_Some (LookupEntry view (PreviousOutPoint ti))) ins.
Proof.
  induction ins as [|ti ins IH]; intros t t'; cbn [sumInputs]; [by constructor|].
  destruct (LookupEntry view (PreviousOutPoint ti)) as [e|] eqn:He; [|done]. repeat (case_match; [done|]). intros Hrun.
  constructor; [by exists e|by eapply IH].
Qed.
Lemma CheckTransactionInputs_knows {H : Hashes} tx h view params fee : IsCoinBaseTx tx = false -> CheckTransactionInputs tx h view params = Ok fee ->
  knows view tx.
Proof.
  unfold CheckTransactionInputs. intros ->. intros Hrun. apply outcome_bind_ok in Hrun as (t & Hsum & _). by eapply sumInputs_knows.
Qed.

(** A sum of int64, when the test for a wrap passed. *)
Definition int64 (c : Z) : Prop := - 2 ^ 63 <= c < 2 ^ 63.
Lemma i64_grows b c : 0 <= b < 2 ^ 63 -> int64 c -> b <= i64 (b + c) -> i64 (b + c) = b + c.
Proof.
  unfold int64. intros Hb Hc Hle. destruct (Z.lt_ge_cases (b + c) (2 ^ 63)) as [?|Hge]; [apply i64_small; lia|].
  assert (i64 (b + c) = b + c - 2 ^ 64); [|lia].
  unfold i64. rewrite <- (Z.mod_add _ (-1)) by lia. rewrite Z.mod_small; lia.
Qed.

Section Run.
Context {C : Crypto} {W : World}.

Lemma spendTransaction_coins view tx height view' op c : spendTransaction view tx height = Ok view' -> coins view' !! op = Some c ->
  op ∈ added (TxHash tx) 0 (TxOuts tx) \/ coins view !! op = Some c /\ forall ti, ti ∈ TxIns tx -> PreviousOutPoint ti <> op.
Proof using.
  unfold spendTransaction, AddTxOuts. intros Hadd Hc. destruct (addOuts_entries _ _ _ _ op _ _ _ Hadd) as [Heq|[Hin _]]; [right|by left].
  rewrite coins_lookup in Hc. unfold LookupEntry in Hc. rewrite Heq in Hc. apply spendEntries_coins. rewrite coins_lookup. exact Hc.
Qed.

Lemma spendTransaction_ok view tx height : outs_ok (TxOuts tx) -> exists view', spendTransaction view tx height = Ok view'.
Proof using.
  intros Hok. unfold spendTransaction, AddTxOuts.
  destruct (addOuts_coins (TxHash tx) (TxOuts tx) Hok 0 (IsCoinBaseTx tx) height (foldl spendEntry view (TxIns tx))) as (v & -> & _). by exists v.
Qed.

Lemma spendTransaction_view_ok view tx height view' : outs_ok (TxOuts tx) -> view_ok view -> spendTransaction view tx height = Ok view' -> view_ok view'.
Proof using.
  unfold spendTransaction, AddTxOuts. intros Ho Hv. apply (addOuts_view_ok (TxHash tx) (TxOuts tx)); [done|]. by apply spendEntries_ok.
Qed.

(** ** What waits *)
Section Source.
Context {S : Type} {T : TxSource S}.
Context (policy : Policy) (params : Params) (source : S) (chain : TemplateChain) (fuel : nat) (sigCache : option SigCache)
  (h0 : option HashCache).
Abbreviation descs := (MiningDescs source).
Abbreviation height := (nextBlockHeight chain).

(** No two transactions of the source have one hash, their outputs hold
    bytes, and their weights are numbers of 32 bits: so it is of a pool. *)
Record source_ok : Prop := {
  so_nodup : NoDup ((fun d => TxHash (d_Tx d)) <$> descs);
  so_outs d : d ∈ descs -> outs_ok (TxOuts (d_Tx d));
  so_weight d : d ∈ descs -> GetTransactionWeight (d_Tx d) < 2 ^ 32;
}.

(** What makes a call end: transactions of bytes, of which none nests a
    program that makes the engine panic and each has the steps of its longest
    script; a chain whose functions return, and give views of bytes; and the
    cache of midstates. *)
Record workable : Prop := {
  wk_txs d : d ∈ descs -> decoded (d_Tx d) /\ plain (d_Tx d) /\ enough fuel (d_Tx d);
  wk_view d : d ∈ descs -> safe (FetchUtxoView chain (d_Tx d)) view_ok;
  wk_state : safe (segwitState chain) (fun _ => True);
  wk_difficulty ts : safe (Mining.CalcNextRequiredDifficulty chain ts) (fun _ => True);
  wk_version : safe (Mining.CalcNextBlockVersion chain) (fun _ => True);
  wk_connect block : safe (CheckConnectBlockTemplate chain block height) (fun _ => True);
  wk_cache : is_Some h0;
}.
Abbreviation stuck := (~ workable).

(** A coin of the chain, as far as the generator was told. *)
Definition chain_coin (op : OutPoint) (c : coin) : Prop :=
  exists tx v, FetchUtxoView chain tx = Ok v /\ coins v !! op = Some c.

(** Every input was found; or one of them is nowhere. *)
Definition whole (d : TxDesc) (item : txPrioItem) : Prop :=
  p_fee item = Fee d /\ p_feePerKB item = FeePerKB d /\
  exists v, FetchUtxoView chain (d_Tx d) = Ok v /\ priority item = CalcPriority (d_Tx d) v height.
Definition lost (tx : MsgTx) : Prop :=
  exists v ti, FetchUtxoView chain tx = Ok v /\ ti ∈ TxIns tx /\ coins v !! PreviousOutPoint ti = None /\
    HaveTransaction (Wire.Hash (PreviousOutPoint ti)) source = false.

(** An item of a transaction of the source that a block may hold. *)
Definition drawn (r : nat) (item : txPrioItem) : Prop :=
  ref item = r /\ exists d, descs !! r = Some d /\ p_tx item = d_Tx d /\ IsCoinBaseTx (p_tx item) = false /\
    IsFinalizedTransaction (p_tx item) height (AdjustedTime chain r) = true /\ (whole d item \/ lost (p_tx item)).

Record gathers (k : nat) (g : gathered) : Prop := {
  ga_items r item : prioItems g !! r = Some item -> (r < k)%nat /\ drawn r item;
  ga_queue item : item ∈ items (g_queue g) -> prioItems g !! ref item = Some item /\ dependsOn g !! ref item = None;
  ga_nodup : NoDup (ref <$> items (g_queue g));
  ga_on r on : dependsOn g !! r = Some on -> is_Some (prioItems g !! r);
  ga_dep h m key r : dependers g !! h = Some m -> m !! key = Some r ->
    exists item on, prioItems g !! r = Some item /\ TxHash (p_tx item) = key /\ dependsOn g !! r = Some on /\ h ∈ on;
  ga_view op c : coins (g_utxos g) !! op = Some c -> chain_coin op c;
  ga_ok : workable -> view_ok (g_utxos g);
}.

Lemma linkInputs_spec have utxos h r ins : forall deps on c deps' on', linkInputs have utxos h r ins deps on = (c, deps', on') ->
  on ⊆ on' /\
  (forall o m key r', deps' !! o = Some m -> m !! key = Some r' ->
     (exists m0, deps !! o = Some m0 /\ m0 !! key = Some r') \/ (key = h /\ r' = r /\ o ∈ on')) /\
  (c = false -> exists ti, ti ∈ ins /\ coins utxos !! PreviousOutPoint ti = None /\ have (Wire.Hash (PreviousOutPoint ti)) = false).
Proof using.
  induction ins as [|ti ins IH]; intros deps on c deps' on'; cbn [linkInputs].
  - intros [= <- <- <-]. split_and!; [done| |done]. intros o m key r' Hm Hk. left. by exists m.
  - destruct (LookupEntry utxos (PreviousOutPoint ti)) as [e|] eqn:He.
    1: destruct (IsSpent e) eqn:Hs; cbn [negb].
    2: { intros (Hsub & Hdep & Hc)%IH. split_and!; [done|done|]. intros (ti' & Hin & Hr)%Hc. exists ti'. split; [by right|done]. }
    all: assert (Hnone : coins utxos !! PreviousOutPoint ti = None) by (rewrite coins_lookup, He; unfold live; by rewrite ?Hs).
    all: destruct (have _) eqn:Hh; cbn [negb].
    2, 4: intros [= <- <- <-]; split_and!; [done| |intros _; exists ti; split; [by left|done]]; intros o m key r' Hm Hk; left; by exists m.
    all: intros (Hsub & Hdep & Hc)%IH; split_and!; [set_solver| |intros (ti' & Hin & Hr)%Hc; exists ti'; split; [by right|done]].
    all: intros o m key r' Hm Hk; destruct (Hdep _ _ _ _ Hm Hk) as [(m0 & Hm0 & Hk0)|Hr]; [|by right].
    all: destruct (decide (o = Wire.Hash (PreviousOutPoint ti))) as [->|Hne]; [|rewrite lookup_insert_ne in Hm0 by done; left; by exists m0].
    all: rewrite lookup_insert_eq in Hm0; injection Hm0 as <-; destruct (decide (key = h)) as [->|Hkey].
    1, 3: rewrite lookup_insert_eq in Hk0; injection Hk0 as <-; right; split_and!; [done|done|set_solver].
    all: rewrite lookup_insert_ne in Hk0 by done; left.
    all: destruct (deps !! Wire.Hash (PreviousOutPoint ti)) as [m1|] eqn:Hd; cbn [default] in Hk0; [by exists m1|done].
Qed.

Lemma gathers_later k g : gathers k g -> gathers (Datatypes.S k) g.
Proof using. intros []. split; try done. intros r item Hr. destruct (ga_items0 r item Hr). split; [lia|done]. Qed.

(** The facts of a gathering that do not concern the transaction at hand. *)
Lemma gathers_fresh (r : nat) (g : gathered) (on : gset (list Z)) : gathers r g -> let missing := if decide (on = ∅) then dependsOn g else <[r := on]> (dependsOn g) in
  prioItems g !! r = None /\ dependsOn g !! r = None /\ (forall r', r' <> r -> missing !! r' = dependsOn g !! r') /\
  (on <> ∅ -> missing !! r = Some on) /\ (on = ∅ -> missing = dependsOn g).
Proof using.
  intros [Hi _ _ Ho _ _ _]. cbn zeta. assert (Hr : prioItems g !! r = None).
  { destruct (prioItems g !! r) as [item|] eqn:He; [|done]. apply Hi in He as [? _]. lia. }
  split_and!; [done| | | |].
  - destruct (dependsOn g !! r) as [on'|] eqn:He; [|done]. apply Ho in He as [? He]. congruence.
  - intros r' Hne. case_decide; [done|]. by rewrite lookup_insert_ne.
  - intros Hon. rewrite decide_False by done. by rewrite lookup_insert_eq.
  - intros ->. by rewrite decide_True.
Qed.

(** One more item, linked to the transactions that it waits for. *)
Lemma gathers_link (r : nat) (g : gathered) (item : txPrioItem) (deps : gmap (list Z) (gmap (list Z) nat)) (on : gset (list Z)) q utxos : gathers r g -> drawn r item ->
  (forall o m key r', deps !! o = Some m -> m !! key = Some r' ->
     (exists m0, dependers g !! o = Some m0 /\ m0 !! key = Some r') \/ (key = TxHash (p_tx item) /\ r' = r /\ o ∈ on)) ->
  (items q ≡ₚ items (g_queue g) \/ on = ∅ /\ items q ≡ₚ item :: items (g_queue g)) ->
  (forall op c, coins utxos !! op = Some c -> chain_coin op c) -> (workable -> view_ok utxos) ->
  gathers (Datatypes.S r)
    (mkGathered q utxos deps (if decide (on = ∅) then dependsOn g else <[r := on]> (dependsOn g)) (<[r := item]> (prioItems g))).
Proof using.
  intros Hg Hd Hdeps Hq Hv Hvok. destruct (gathers_fresh r g on Hg) as (Hpi & Hdo & Hother & Hmine & Hsame).
  set (missing := if decide _ then _ else _) in *. destruct Hg as [Hi Hqu Hnd Ho Hdep _ _]. pose proof (proj1 Hd) as Href.
  assert (Hrefs : forall x, x ∈ items (g_queue g) -> ref x <> r) by (intros x [Hx _]%Hqu Heq; rewrite Heq in Hx; congruence).
  assert (Hin : forall x, x ∈ items q -> x ∈ items (g_queue g) \/ on = ∅ /\ x = item).
  { intros x Hx. destruct Hq as [Hq|[-> Hq]]; rewrite Hq in Hx; [by left|]. apply list.elem_of_cons in Hx as [->|Hx]; [by right|by left]. }
  split; cbn [g_queue g_utxos dependers dependsOn prioItems].
  - intros r' x. destruct (decide (r = r')) as [<-|Hne]; [rewrite lookup_insert_eq; intros [= <-]; split; [lia|done]|].
    rewrite lookup_insert_ne by done. intros [? ?]%Hi. split; [lia|done].
  - intros x [Hx|[-> ->]]%Hin.
    + rewrite lookup_insert_ne by (intros Heq; by apply (Hrefs x Hx)). rewrite Hother by by apply Hrefs. by apply Hqu.
    + by rewrite Href, lookup_insert_eq, Hsame.
  - destruct Hq as [->|[_ ->]]; [done|]. rewrite fmap_cons, Href. apply list.NoDup_cons. split; [|done].
    intros (x & Heq & Hx)%list_elem_of_fmap. by apply (Hrefs x Hx).
  - intros r' on' Hr'. destruct (decide (r = r')) as [<-|Hne]; [by rewrite lookup_insert_eq|]. rewrite lookup_insert_ne by done.
    rewrite Hother in Hr' by done. by apply (Ho r' on').
  - intros o m key r' Hm Hk. destruct (Hdeps o m key r' Hm Hk) as [(m0 & Hm0 & Hk0)|(-> & -> & Hon)].
    + destruct (Hdep o m0 key r' Hm0 Hk0) as (x & on' & Hx & Hh & Hr & Hin'). assert (r' <> r) by congruence.
      exists x, on'. rewrite lookup_insert_ne by done. by rewrite Hother.
    + exists item, on. rewrite lookup_insert_eq. split_and!; [done|done|apply Hmine; set_solver|done].
  - exact Hv.
  - exact Hvok.
Qed.

Lemma consider_yields r d g : gathers r g -> descs !! r = Some d -> yields stuck (consider source chain r d g) (gathers (Datatypes.S r)).
Proof using.
  intros Hg Hd. unfold consider. destruct (IsCoinBaseTx (d_Tx d)) eqn:Hcb; [by apply gathers_later|].
  destruct (IsFinalizedTransaction _ _ _) eqn:Hfin; cbn [negb]; [|by apply gathers_later].
  assert (Hfetch : workable -> safe (FetchUtxoView chain (d_Tx d)) view_ok) by (intros Hw; apply (wk_view Hw); by eapply list_elem_of_lookup_2).
  destruct (FetchUtxoView chain (d_Tx d)) as [utxos|e| |] eqn:Hu; [|by apply gathers_later|exact Hfetch..].
  destruct (linkInputs _ _ _ _ _ _ _) as [[complete deps] on] eqn:Hl. apply linkInputs_spec in Hl as (_ & Hdeps & Hlost).
  destruct complete; cbn [negb].
  - assert (Hdraw : drawn r (mkPrioItem (d_Tx d) (Fee d) (CalcPriority (d_Tx d) utxos height) (FeePerKB d) r)).
    { split; [done|]. exists d. split_and!; try done. left. split_and!; [done..|]. by exists utxos. }
    assert (Hview : forall op c, coins (mergeUtxoView (g_utxos g) utxos) !! op = Some c -> chain_coin op c).
    { intros op c [Hc|Hc]%mergeUtxoView_coins; [by apply Hg|]. by exists (d_Tx d), utxos. }
    assert (Hbytes : workable -> view_ok (mergeUtxoView (g_utxos g) utxos)).
    { intros Hw. apply mergeUtxoView_ok; [by apply (ga_ok r g Hg)|exact (Hfetch Hw)]. }
    destruct (decide (on = ∅)) as [Hon|Hon].
    + destruct (heapPush_perm (E := TemplateError) (mkPrioItem (d_Tx d) (Fee d) (CalcPriority (d_Tx d) utxos height) (FeePerKB d) r) (g_queue g))
        as (q & -> & Hq). rewrite bind_Ok. pose proof (gathers_link r g _ deps on q _ Hg Hdraw Hdeps (or_intror (conj Hon Hq)) Hview Hbytes) as H.
      rewrite decide_True in H by done. exact H.
    + rewrite bind_Ok. pose proof (gathers_link r g _ deps on (g_queue g) _ Hg Hdraw Hdeps (or_introl (reflexivity _)) Hview Hbytes) as H.
      rewrite decide_False in H by done. exact H.
  - assert (Hdraw : drawn r (mkPrioItem (d_Tx d) 0 (float_of 0) 0 r)).
    { split; [done|]. exists d. split_and!; try done. right. destruct (Hlost eq_refl) as (ti & Hin & Hnone & Hhave). by exists utxos, ti. }
    exact (gathers_link r g _ deps on (g_queue g) _ Hg Hdraw Hdeps (or_introl (reflexivity _)) (ga_view r g Hg) (ga_ok r g Hg)).
Qed.

Lemma mempoolLoop_yields l : forall r g, gathers r g -> drop r descs = l -> yields stuck (mempoolLoop source chain r l g) (gathers (r + length l)).
Proof using.
  induction l as [|d l IH]; intros r g Hg Hd; cbn [mempoolLoop]; [rewrite Nat.add_0_r; exact Hg|].
  assert (Hr : descs !! r = Some d) by (rewrite <- (Nat.add_0_r r), <- lookup_drop, Hd; done).
  eapply yields_bind; [by apply consider_yields|]. intros g' _ Hg'. cbn [length]. rewrite Nat.add_succ_r. apply (IH _ _ Hg').
  replace (Datatypes.S r) with (r + 1)%nat by lia. rewrite <- drop_drop, Hd. done.
Qed.

(** ** What is chosen *)

(** A block under construction over what was gathered, with what the
    signatures of its transactions cost: each satisfies the rules, and is
    counted, on the view that the earlier ones left. *)
Inductive fills (segwit : bool) (base : UtxoViewpoint) : list txPrioItem -> list Z -> UtxoViewpoint -> Prop :=
| fills_none : fills segwit base [] [] base
| fills_one chosen costs view item cost fee h h' view' :
    fills segwit base chosen costs view ->
    GetSigOpCost (p_tx item) false view true segwit = Ok cost ->
    CheckTransactionInputs (p_tx item) height view params = Ok fee ->
    ValidateTransactionScripts fuel view StandardVerifyFlags sigCache (p_tx item) h = Ok (None, h') ->
    spendTransaction view (p_tx item) height = Ok view' ->
    fills segwit base (chosen ++ [item]) (costs ++ [cost]) view'.

Definition waitsFor (ws : gmap nat (gset (list Z))) (r : nat) : gset (list Z) := default ∅ (ws !! r).
Definition waiting (ws : gmap nat (gset (list Z))) : nat := size (filter (fun p => p.2 <> ∅) ws).

(** One wait less. *)
Lemma waiting_step ws r h (on := waitsFor ws r ∖ {[h]}) : h ∈ waitsFor ws r ->
  (waiting (<[r := on]> ws) + (if decide (on = ∅) then 1 else 0) = waiting ws)%nat.
Proof using.
  intros Hin. assert (Hr : exists on0, ws !! r = Some on0 /\ on0 <> ∅).
  { unfold waitsFor in Hin. destruct (ws !! r) as [on0|]; cbn in Hin; [|set_solver]. exists on0. split; [done|set_solver]. }
  destruct Hr as (on0 & Hr & Hne). assert (Hf : filter (fun p : nat * gset (list Z) => p.2 <> ∅) ws !! r = Some on0) by (by apply map_lookup_filter_Some_2).
  unfold waiting. case_decide as Ho.
  - rewrite map_filter_insert_False by (cbn; tauto). rewrite map_filter_delete, map_size_delete, Hf.
    assert (size (filter (fun p : nat * gset (list Z) => p.2 <> ∅) ws) <> 0%nat); [|lia].
    intros H0%map_size_empty_iff. by rewrite H0 in Hf.
  - rewrite map_filter_insert_True by done. rewrite map_size_insert_Some by by exists on0. by rewrite Nat.add_0_r.
Qed.

Section Select.
Context (g : gathered) (Hg : gathers (length descs) g).

Definition known (item : txPrioItem) : Prop := prioItems g !! ref item = Some item.

(** The queue and the block hold different items, none of which waits. *)
Record placed (chosen queued : list txPrioItem) (ws : gmap nat (gset (list Z))) : Prop := {
  pl_known item : item ∈ queued ++ chosen -> known item;
  pl_nodup : NoDup (ref <$> queued ++ chosen);
  pl_apart item : item ∈ queued ++ chosen -> waitsFor ws (ref item) = ∅;
}.

Lemma placed_perm chosen queued queued' ws : queued' ≡ₚ queued -> placed chosen queued ws -> placed chosen queued' ws.
Proof using.
  intros Hp [Hk Hn Ha]. split; [|by rewrite Hp|].
  - intros item Hin. apply Hk. by rewrite Hp in Hin.
  - intros item Hin. apply Ha. by rewrite Hp in Hin.
Qed.

Lemma release_spec h chosen order : forall ws q, placed chosen (items q) ws ->
  (forall p, p ∈ order -> h ∈ waitsFor ws p.2 /\ is_Some (prioItems g !! p.2)) -> NoDup (snd <$> order) ->
  exists ws' q', release (prioItems g) h order ws q = Ok (ws', q') /\ placed chosen (items q') ws' /\
    (length (items q') + waiting ws' = length (items q) + waiting ws)%nat /\
    (forall h' r, h' <> h -> h' ∈ waitsFor ws r -> h' ∈ waitsFor ws' r).
Proof using Hg.
  induction order as [|[key r] order IH]; intros ws q Hp Hin Hnd; cbn [release]; [by exists ws, q|].
  cbn [fmap list_fmap snd] in Hnd. apply list.NoDup_cons in Hnd as [Hr Hnd].
  destruct (Hin (key, r)) as [Hh [item Hitem]]; [by left|]. cbn [snd] in Hh, Hitem. fold (waitsFor ws r). set (on := waitsFor ws r ∖ {[h]}).
  pose proof (ga_items _ _ Hg _ _ Hitem) as [_ [Href _]].
  assert (Hws : forall r', r' <> r -> waitsFor (<[r := on]> ws) r' = waitsFor ws r') by (intros r' Hne; unfold waitsFor; by rewrite lookup_insert_ne by done).
  assert (Hon : waitsFor (<[r := on]> ws) r = on) by (unfold waitsFor; by rewrite lookup_insert_eq).
  assert (Hfree : forall x, x ∈ items q ++ chosen -> ref x <> r).
  { intros x Hx Heq. pose proof (pl_apart _ _ _ Hp _ Hx) as He. rewrite Heq in He. set_solver. }
  assert (Hq : exists q1, (if decide (on = ∅) then match prioItems g !! r with Some item => heapPush item q | None => Panic end else Ok q : outcome TemplateError _)
      = Ok q1 /\ placed chosen (items q1) (<[r := on]> ws) /\ length (items q1) = (length (items q) + (if decide (on = ∅) then 1 else 0))%nat).
  { rewrite Hitem. case_decide as Ho.
    - destruct (heapPush_perm (E := TemplateError) item q) as (q1 & -> & Hq1). exists q1. split; [done|]. split; [|rewrite Hq1; cbn; lia].
      apply (placed_perm chosen (item :: items q)); [done|]. destruct Hp as [Hk Hn Ha]. split; cbn [app].
      + intros x [->|Hx]%list.elem_of_cons; [unfold known; by rewrite Href|by apply Hk].
      + rewrite fmap_cons, Href. apply list.NoDup_cons. split; [|done]. intros (x & Heq & Hx)%list_elem_of_fmap. by apply (Hfree x Hx).
      + intros x [->|Hx]%list.elem_of_cons; [by rewrite Href, Hon|]. rewrite Hws by by apply Hfree. by apply Ha.
    - exists q. split; [done|]. split; [|lia]. destruct Hp as [Hk Hn Ha]. split; [done|done|].
      intros x Hx. rewrite Hws by by apply Hfree. by apply Ha. }
  destruct Hq as (q1 & -> & Hp1 & Hl1). rewrite bind_Ok.
  destruct (IH (<[r := on]> ws) q1 Hp1) as (ws' & q' & -> & Hp' & Hl' & Hkeep); [|done|].
  { intros p Hpin. rewrite Hws by (intros <-; apply Hr; apply list_elem_of_fmap; by exists p). apply Hin. by right. }
  exists ws', q'. split_and!; [done|done| |].
  - pose proof (waiting_step ws r h Hh) as Hw. fold on in Hw. lia.
  - intros h' r' Hne Hh'. apply Hkeep; [done|]. destruct (decide (r' = r)) as [->|Hr']; [rewrite Hon; set_solver|by rewrite Hws].
Qed.

Lemma known_drawn item : known item -> exists d, d ∈ descs /\ descs !! ref item = Some d /\ p_tx item = d_Tx d.
Proof using Hg.
  intros Hk. apply (ga_items _ _ Hg) in Hk as [_ (_ & d & Hd & Htx & _)]. exists d. split; [by eapply list_elem_of_lookup_2|done].
Qed.

Lemma known_normal item : known item -> IsCoinBaseTx (p_tx item) = false.
Proof using Hg. intros Hk. by apply (ga_items _ _ Hg) in Hk as [_ (_ & d & _ & _ & Hcb & _)]. Qed.

Context (Hok : source_ok).

(** Two items of one hash are one. *)
Lemma known_unique x y : known x -> known y -> TxHash (p_tx x) = TxHash (p_tx y) -> x = y.
Proof using Hg Hok.
  intros Hx Hy Heq. destruct (known_drawn x Hx) as (dx & _ & Hdx & Htx), (known_drawn y Hy) as (dy & _ & Hdy & Hty).
  assert (ref x = ref y) as Href.
  { apply (NoDup_lookup _ _ _ (TxHash (d_Tx dx)) (so_nodup Hok)); rewrite list_lookup_fmap; [by rewrite Hdx|]. rewrite Hdy. cbn. congruence. }
  unfold known in *. congruence.
Qed.

Lemma dependers_order n h m : dependers g !! h = Some m -> let order := shuffle n (map_to_list m) in
  NoDup (snd <$> order) /\ forall p, p ∈ order -> m !! p.1 = Some p.2 /\ is_Some (prioItems g !! p.2).
Proof using Hg.
  intros Hm. cbn zeta. rewrite shuffle_perm.
  assert (Hin : forall p, p ∈ shuffle n (map_to_list m) <-> m !! p.1 = Some p.2) by (intros [k r]; rewrite shuffle_perm; apply elem_of_map_to_list).
  split; [|intros p Hp%Hin; split; [done|]; by destruct (ga_dep _ _ Hg _ _ _ _ Hm Hp) as (x & _ & Hx & _); exists x].
  apply NoDup_fmap_2_strong; [|apply NoDup_map_to_list]. intros [k1 r1] [k2 r2] H1%elem_of_map_to_list H2%elem_of_map_to_list. cbn. intros <-.
  destruct (ga_dep _ _ Hg _ _ _ _ Hm H1) as (x & _ & Hx & <- & _), (ga_dep _ _ Hg _ _ _ _ Hm H2) as (y & _ & Hy & <- & _). congruence.
Qed.

(** *** The state of the choice *)
Definition weights (chosen : list txPrioItem) : Z := sum ((fun item => GetTransactionWeight (p_tx item)) <$> chosen).
(** The fees, as int64 adds them up. *)
Definition sum64 (a : Z) (l : list Z) : Z := foldl (fun a x => i64 (a + x)) a l.

Lemma weights_snoc chosen item : weights (chosen ++ [item]) = weights chosen + GetTransactionWeight (p_tx item).
Proof using. unfold weights. rewrite fmap_app, sum_app. cbn. lia. Qed.
Lemma weights_nonneg chosen : 0 <= weights chosen.
Proof using. apply sizes_nonneg. intros item. apply GetTransactionWeight_nonneg. Qed.
Lemma sum64_snoc a l x : sum64 a (l ++ [x]) = i64 (sum64 a l + x).
Proof using. unfold sum64. by rewrite foldl_app. Qed.

(** The coinbase, its weight with the header, the cost of its signatures, and
    the weight that a commitment adds. *)
Context (segwitActive : bool) (coinbaseTx : MsgTx) (start cost commitment : Z).
Context (Hmodel : exists cb, coinbaseModel coinbaseTx = Ok cb /\ GetTransactionWeight cb - GetTransactionWeight coinbaseTx = commitment).
Context (Hroom : 0 <= start /\ 0 <= commitment /\ Z.max start (BlockMaxWeight policy) + commitment < 2 ^ 32 /\ 0 <= cost < 2 ^ 63).

Definition withWitnesses (s : selection) : Z := if witnessIncluded s then commitment else 0.

Record chosen_ok (s : selection) : Prop := {
  ch_placed : placed (blockTxns s) (items (queue s)) (waits s);
  ch_linked h m key r : dependers g !! h = Some m -> m !! key = Some r ->
    (forall item, item ∈ blockTxns s -> TxHash (p_tx item) <> h) -> h ∈ waitsFor (waits s) r;
  ch_fills : fills segwitActive (g_utxos g) (blockTxns s) (txSigOpCosts s) (blockUtxos s);
  ch_weight : blockWeight s = start + withWitnesses s + weights (blockTxns s);
  ch_bound : blockWeight s <= Z.max start (BlockMaxWeight policy) + withWitnesses s;
  ch_max : blockTxns s <> [] -> start + weights (blockTxns s) < BlockMaxWeight policy;
  ch_costs : Forall int64 (txSigOpCosts s) -> blockSigOpCost s = cost + sum (txSigOpCosts s);
  ch_range : 0 <= blockSigOpCost s < 2 ^ 63;
  ch_cost : blockTxns s <> [] -> blockSigOpCost s <= MaxBlockSigOpsCost;
  ch_fees : totalFees s = sum64 0 (p_fee <$> blockTxns s);
  ch_witness item : item ∈ blockTxns s -> HasWitness (p_tx item) = true -> witnessIncluded s = true;
  ch_segwit : witnessIncluded s = true -> segwitActive = true;
  ch_bytes : workable -> view_ok (blockUtxos s);
  ch_cache : workable -> is_Some (hashCache s);
}.

(** What the loop uses up. *)
Definition measure (s : selection) : nat :=
  ((if sortedByFee s then 0 else 1) + length (items (queue s)) + waiting (waits s))%nat.

Lemma chosen_queue q s : placed (blockTxns s) (items q) (waits s) -> chosen_ok s -> chosen_ok (setQueue q s).
Proof using. intros Hp []. split; done. Qed.
Lemma chosen_cache h s : (workable -> is_Some h) -> chosen_ok s -> chosen_ok (setHashCache h s).
Proof using. intros Hh []. split; done. Qed.
Lemma chosen_byFee q s : placed (blockTxns s) (items q) (waits s) -> chosen_ok s -> chosen_ok (sortByFee q s).
Proof using. intros Hp []. split; done. Qed.

Lemma chosen_commitment s : segwitActive = true -> witnessIncluded s = false -> chosen_ok s -> chosen_ok (withCommitment commitment s).
Proof using Hroom policy start.
  intros Hseg Hw [Hp Hl Hf Hwt Hb Hm Hc Hrg Hcm Hfe Hwit Hs Hby Hca]. pose proof (weights_nonneg (blockTxns s)).
  unfold withWitnesses in *. rewrite Hw in Hwt, Hb.
  assert (Hbw : u32 (blockWeight s + u32 commitment) = blockWeight s + commitment) by (rewrite (u32_small commitment), u32_small by lia; done).
  split; try done; unfold withWitnesses; cbn [blockWeight withCommitment witnessIncluded blockTxns]; rewrite ?Hbw; lia.
Qed.

Lemma placed_tail chosen item queued ws : placed chosen (item :: queued) ws -> placed chosen queued ws.
Proof using.
  intros [Hk Hn Ha]. cbn [app] in *. rewrite fmap_cons in Hn. apply list.NoDup_cons in Hn as [_ Hn]. split; [|done|]; intros x Hx; [apply Hk|apply Ha]; by right.
Qed.
Lemma placed_move chosen item queued ws : placed chosen (item :: queued) ws -> placed (chosen ++ [item]) queued ws.
Proof using.
  intros [Hk Hn Ha]. assert (Hp : queued ++ chosen ++ [item] ≡ₚ (item :: queued) ++ chosen).
  { rewrite (Permutation_app_comm chosen [item]). cbn [app]. by rewrite <- Permutation_middle. }
  split; [|by rewrite Hp|]; intros x Hx; rewrite Hp in Hx; [by apply Hk|by apply Ha].
Qed.

(** *** One step *)
Lemma known_weight item : known item -> 0 <= GetTransactionWeight (p_tx item) < 2 ^ 32.
Proof using Hg Hok.
  intros (d & Hd & _ & ->)%known_drawn. split; [apply GetTransactionWeight_nonneg|by apply (so_weight Hok)].
Qed.

(** The test for a wrap of the weight is exact. *)
Lemma weight_fits s w : chosen_ok s -> 0 <= w < 2 ^ 32 -> blockWeight s <= u32 (blockWeight s + w) -> u32 (blockWeight s + w) = blockWeight s + w.
Proof using Hroom policy start.
  intros Hs Hw Hle. pose proof (weights_nonneg (blockTxns s)). pose proof (ch_weight _ Hs) as H1. pose proof (ch_bound _ Hs) as H2. unfold withWitnesses in *.
  destruct (Z.lt_ge_cases (blockWeight s + w) (2 ^ 32)) as [?|Hge]; [apply u32_small; destruct (witnessIncluded s); lia|].
  assert (u32 (blockWeight s + w) = blockWeight s + w - 2 ^ 32); [|destruct (witnessIncluded s); lia].
  unfold u32. rewrite <- (Z.mod_add _ (-1)) by lia. apply Z.mod_small. destruct (witnessIncluded s); lia.
Qed.

(** Who waits for an item that is about to enter the block. *)
Lemma waiters item s n : chosen_ok s -> placed (blockTxns s) (item :: items (queue s)) (waits s) ->
  let order := shuffle n (map_to_list (default ∅ (dependers g !! TxHash (p_tx item)))) in
  NoDup (snd <$> order) /\ forall p, p ∈ order -> TxHash (p_tx item) ∈ waitsFor (waits s) p.2 /\ is_Some (prioItems g !! p.2).
Proof using Hg Hok.
  intros Hs Hheld. cbn zeta. destruct (dependers g !! TxHash (p_tx item)) as [m|] eqn:Hm; cbn [default].
  - destruct (dependers_order n _ m Hm) as [Hn Hin]. split; [done|]. intros p Hp. destruct (Hin p Hp) as [Hk Hsome].
    split; [|done]. apply (ch_linked _ Hs _ _ _ _ Hm Hk). intros x Hx Heq. pose proof (pl_nodup _ _ _ Hheld) as Hnd.
    cbn [app] in Hnd. rewrite fmap_cons in Hnd. apply list.NoDup_cons in Hnd as [Hnot _].
    assert (x = item) as ->; [|apply Hnot, list_elem_of_fmap; exists item; split; [done|]; apply elem_of_app; by right].
    apply (known_unique); [|apply (pl_known _ _ _ Hheld); by left|done]. apply (pl_known _ _ _ Hheld), elem_of_app. by right.
  - rewrite map_to_list_empty. pose proof (shuffle_perm n _ ([] : list (list Z * nat))) as Hnil. apply Permutation_nil_r in Hnil as ->.
    split; [constructor|]. by intros p ?%not_elem_of_nil.
Qed.

Context {L : HashLaws crypto_hashes}.
Lemma includeTx_yields item sigOpCost s (w := GetTransactionWeight (p_tx item)) : chosen_ok s ->
  placed (blockTxns s) (item :: items (queue s)) (waits s) ->
  u32 (blockWeight s + w) = blockWeight s + w -> blockWeight s + w < BlockMaxWeight policy ->
  (HasWitness (p_tx item) = true -> witnessIncluded s = true) ->
  GetSigOpCost (p_tx item) false (blockUtxos s) true segwitActive = Ok sigOpCost -> blockSigOpCost s <= i64 (blockSigOpCost s + sigOpCost) <= MaxBlockSigOpsCost ->
  yields stuck (includeTx params chain fuel sigCache g item w sigOpCost s) (fun s' => chosen_ok s' /\ (measure s' <= measure s)%nat).
Proof using Hg Hok Hroom L.
  intros Hs Hheld Hplus Hmax Hwit Hcount Hcost. unfold includeTx. pose proof (placed_tail _ _ _ _ Hheld) as Hrest.
  destruct (known_drawn item) as (d & Hd & _ & Htx); [apply (pl_known _ _ _ Hheld); by left|].
  pose proof (MempoolRun.CheckTransactionInputs_calm (p_tx item) height (blockUtxos s) params) as Hcalm.
  destruct (CheckTransactionInputs _ _ _ _) as [fee|e| |] eqn:Hinputs; [|by split|exfalso; apply Hcalm; by left|exfalso; apply Hcalm; by right].
  assert (Hvalid : workable -> safe (ValidateTransactionScripts fuel (blockUtxos s) StandardVerifyFlags sigCache (p_tx item) (hashCache s)) (fun r => is_Some r.2)).
  { intros Hw. destruct (wk_txs Hw d Hd) as (Hdec & Hpl & Hst). rewrite <- Htx in *. apply ValidateTransactionScripts_safe; try done.
    - by apply (ch_bytes _ Hs).
    - eapply CheckTransactionInputs_knows; [|exact Hinputs]. apply known_normal, (pl_known _ _ _ Hheld). by left.
    - by left.
    - by apply (ch_cache _ Hs). }
  destruct (ValidateTransactionScripts _ _ _ _ _ _) as [[[err|] h]|e| |] eqn:Hscripts;
    [by split; [apply chosen_cache|]| |by split|exact Hvalid..].
  destruct (spendTransaction_ok (blockUtxos s) (p_tx item) height) as [v' Hspend]; [rewrite Htx; by apply (so_outs Hok)|].
  rewrite Hspend. cbn [ofChain]. rewrite bind_Ok.
  destruct (waiters item s (length (blockTxns s)) Hs Hheld) as [Hn Hin]. set (order := shuffle _ _) in *.
  destruct (release_spec (TxHash (p_tx item)) (blockTxns s ++ [item]) order (waits s) (queue s) (placed_move _ _ _ _ Hheld) Hin Hn)
    as (ws' & q' & -> & Hp' & Hlen & Hkeep). rewrite bind_Ok. cbn [yields].
  destruct Hs as [_ Hl Hf Hwt Hb Hm Hc Hrg Hcm Hfe Hwi Hsg Hby Hca]. split; [|unfold measure; cbn [sortedByFee queue waits]; lia].
  assert (Hsnoc : blockTxns s ++ [item] <> []) by (by intros [_ ?]%app_eq_nil).
  split; cbn [queue blockTxns waits blockUtxos txSigOpCosts blockWeight blockSigOpCost totalFees witnessIncluded]; unfold withWitnesses in *; cbn [witnessIncluded].
  - exact Hp'.
  - intros h' m key r Hm' Hk Hnone. apply Hkeep; [|apply (Hl _ _ _ _ Hm' Hk)].
    + intros ->. apply (Hnone item); [|done]. apply elem_of_app. right. by left.
    + intros x Hx. apply Hnone. apply elem_of_app. by left.
  - by eapply fills_one.
  - rewrite weights_snoc, Hplus, Hwt. unfold w. lia.
  - rewrite Hplus. destruct (witnessIncluded s); lia.
  - intros _. rewrite weights_snoc. fold w. destruct (witnessIncluded s); lia.
  - intros [Hi Hx]%list.Forall_app. apply Forall_inv in Hx. rewrite i64_grows, (Hc Hi), sum_app; [cbn; lia|done|done|lia].
  - unfold MaxBlockSigOpsCost in *. lia.
  - intros _. lia.
  - rewrite fmap_app. cbn [fmap list_fmap]. by rewrite sum64_snoc, <- Hfe.
  - intros x [Hx|Hx]%elem_of_app; [by apply Hwi|]. apply list_elem_of_singleton in Hx as ->. done.
  - exact Hsg.
  - intros Hw. apply (spendTransaction_view_ok (blockUtxos s) (p_tx item) height); [rewrite Htx; by apply (so_outs Hok)|by apply Hby|done].
  - exact Hvalid.
Qed.

Lemma measure_queue s q l : items (queue s) ≡ₚ l ++ items q -> measure s = (length l + measure (setQueue q s))%nat.
Proof using. clear. intros Hp. unfold measure. rewrite Hp, length_app. cbn [sortedByFee queue waits setQueue]. lia. Qed.

(** The weight of a commitment, with the first transaction that has a
    witness. *)
Lemma commitment_step item s : chosen_ok s -> segwitActive = true \/ HasWitness (p_tx item) = false ->
  exists s', (if segwitActive && negb (witnessIncluded s) && HasWitness (p_tx item) then
           coinbaseCopy ← coinbaseModel coinbaseTx;
           Ok (withCommitment (GetTransactionWeight coinbaseCopy - GetTransactionWeight coinbaseTx) s)
         else Ok s) = (Ok s' : outcome TemplateError _) /\ chosen_ok s' /\ measure s' = measure s /\
    queue s' = queue s /\ waits s' = waits s /\ blockTxns s' = blockTxns s /\
    (HasWitness (p_tx item) = true -> witnessIncluded s' = true).
Proof using Hmodel Hroom policy start.
  intros Hs Hor. destruct (segwitActive && negb (witnessIncluded s) && HasWitness (p_tx item)) eqn:Hb.
  - destruct Hmodel as (cb & -> & Hc). rewrite bind_Ok, Hc. exists (withCommitment commitment s). split_and!; try done.
    apply andb_true_iff in Hb as [[? Hw%negb_true_iff]%andb_true_iff _]. by apply chosen_commitment.
  - exists s. split_and!; try done. intros Hw. rewrite Hw, andb_true_r in Hb. destruct Hor as [Hor|?]; [|congruence].
    rewrite Hor in Hb. by apply negb_false_iff in Hb.
Qed.

(** A turn of the loop, after the item was taken and the commitment was
    accounted for. *)
Lemma decide_yields item s (w := GetTransactionWeight (p_tx item)) sigOpCost : chosen_ok s ->
  placed (blockTxns s) (item :: items (queue s)) (waits s) ->
  u32 (blockWeight s + w) = blockWeight s + w -> blockWeight s + w < BlockMaxWeight policy ->
  (HasWitness (p_tx item) = true -> witnessIncluded s = true) ->
  GetSigOpCost (p_tx item) false (blockUtxos s) true segwitActive = Ok sigOpCost -> blockSigOpCost s <= i64 (blockSigOpCost s + sigOpCost) <= MaxBlockSigOpsCost ->
  yields stuck (q ← SetLessFunc txPQByFee (queue s);
            let s := sortByFee q s in
            if (BlockPrioritySize policy <? blockWeight s + w) || SFltb (priority item) MinHighPriority
            then q ← heapPush item (queue s); Ok (setQueue q s)
            else includeTx params chain fuel sigCache g item w sigOpCost s)
    (fun s' => chosen_ok s' /\ (sortedByFee s = false -> (measure s' <= measure s)%nat)).
Proof using Hg Hok Hroom L.
  intros Hs Hheld Hplus Hmax Hwit Hcount Hcost. destruct (SetLessFunc_perm (E := TemplateError) txPQByFee (queue s)) as (q & -> & Hq).
  rewrite bind_Ok. cbn zeta. assert (Hheld' : placed (blockTxns s) (item :: items q) (waits s)) by (eapply placed_perm; [|exact Hheld]; by rewrite Hq).
  assert (Hs' : chosen_ok (sortByFee q s)) by (apply chosen_byFee; [by eapply placed_tail|done]).
  assert (Hm : sortedByFee s = false -> (measure s = 1 + measure (sortByFee q s))%nat).
  { intros Hby. unfold measure. cbn [sortedByFee sortByFee queue waits]. rewrite Hby, Hq. lia. }
  destruct (_ || _).
  - destruct (heapPush_perm (E := TemplateError) item q) as (q2 & Hpush & Hq2). cbn [queue sortByFee]. rewrite Hpush, bind_Ok. split.
    + apply chosen_queue; [|done]. cbn [blockTxns waits sortByFee]. by eapply placed_perm.
    + intros Hby. specialize (Hm Hby). unfold measure in *. cbn [sortedByFee sortByFee setQueue queue waits] in *. rewrite Hq2. cbn [length]. lia.
  - eapply yields_mono; [by apply (includeTx_yields item sigOpCost (sortByFee q s))|]. intros s' _ [Hs2 Hle]. split; [done|]. intros Hby.
    specialize (Hm Hby). lia.
Qed.

Lemma selectTx_yields s : chosen_ok s -> items (queue s) <> [] ->
  yields stuck (selectTx policy params chain fuel sigCache g segwitActive coinbaseTx s) (fun s' => chosen_ok s' /\ (measure s' < measure s)%nat).
Proof using Hg Hok Hroom Hmodel L.
  intros Hs Hne. unfold selectTx. destruct (heapPop_perm (E := TemplateError) (queue s) Hne) as (item & q & -> & Hq). rewrite bind_Ok. cbn zeta.
  assert (Hheld : placed (blockTxns s) (item :: items q) (waits s)) by (apply (placed_perm _ (items (queue s))); [by rewrite Hq|apply (ch_placed _ Hs)]).
  assert (Hs1 : chosen_ok (setQueue q s)) by (apply chosen_queue; [by eapply placed_tail|done]).
  pose proof (measure_queue s q [item] Hq) as Hm1. cbn [length] in Hm1.
  destruct (negb segwitActive && HasWitness (p_tx item)) eqn:Hskip; [by split; [|lia]|].
  destruct (commitment_step item (setQueue q s) Hs1) as (s2 & -> & Hs2 & Hm2 & Hq2 & Hw2 & Hb2 & Hwit).
  { destruct segwitActive; [by left|right]. by destruct (HasWitness _). }
  rewrite bind_Ok. cbn [setQueue queue waits blockTxns] in Hq2, Hw2, Hb2. rewrite <- Hb2, <- Hw2, <- Hq2 in Hheld.
  pose proof (known_weight item (pl_known _ _ _ Hheld item ltac:(by left))) as Hw. rewrite (u32_small _ Hw).
  set (w := GetTransactionWeight (p_tx item)) in *.
  destruct ((_ <? blockWeight s2) || _) eqn:Hover; [by split; [|lia]|].
  apply orb_false_iff in Hover as [Hge%Z.ltb_ge Hlt%Z.leb_gt]. pose proof (weight_fits s2 w Hs2 Hw Hge) as Hplus. rewrite Hplus in *.
  destruct (known_drawn item) as (d & Hd & _ & Htx); [apply (pl_known _ _ _ Hheld); by left|].
  assert (Hcounts : workable -> safe (GetSigOpCost (p_tx item) false (blockUtxos s2) true segwitActive) (fun _ => True)).
  { intros Hwk. rewrite Htx. apply GetSigOpCost_safe; [by apply (ch_bytes _ Hs2)|by apply (wk_txs Hwk)]. }
  destruct (GetSigOpCost _ _ _ _ _) as [sigOpCost|e| |] eqn:Hcount; [|by split; [|lia]|exact Hcounts..].
  destruct ((_ <? blockSigOpCost s2) || _) eqn:Hcost; [by split; [|lia]|]. apply orb_false_iff in Hcost as [Hwrap%Z.ltb_ge Hcost%Z.ltb_ge].
  destruct (sortedByFee s2) eqn:Hby; cbn [andb negb].
  - destruct ((p_feePerKB item <? _) && _); [split; [done|lia]|]. eapply yields_mono; [by apply (includeTx_yields item sigOpCost s2)|]. intros s' _ [? ?]. split; [done|lia].
  - destruct (_ || _).
    + eapply yields_mono; [by apply (decide_yields item s2 sigOpCost)|]. intros s' _ [? Hle]. split; [done|]. specialize (Hle Hby). lia.
    + eapply yields_mono; [by apply (includeTx_yields item sigOpCost s2)|]. intros s' _ [? ?]. split; [done|lia].
Qed.

Lemma selectLoop_yields n : forall s, chosen_ok s -> (measure s <= n)%nat ->
  yields stuck (selectLoop policy params chain fuel sigCache n g segwitActive coinbaseTx s) (fun s' => chosen_ok s' /\ items (queue s') = []).
Proof using Hg Hok Hroom Hmodel L.
  induction n as [|n IH]; intros s Hs Hm; cbn [selectLoop].
  - destruct (items (queue s)) as [|x l] eqn:Hi; [done|]. unfold measure in Hm. rewrite Hi in Hm. cbn in Hm. lia.
  - destruct (items (queue s)) as [|x l] eqn:Hi; [done|].
    eapply yields_bind; [apply (selectTx_yields s Hs); by rewrite Hi|]. intros s' _ [Hs' Hlt]. apply IH; [done|lia].
Qed.

End Select.

End Source.
End Run.
End MiningRun.
