(* ===== verification/Templates.v ===== *)
(** * Templates of blocks

    What every template of [Mining.NewBlockTemplate] satisfies, from the runs
    of [MiningRun]: the coinbase and its weight, where the coins that the
    block spends come from, the limits of the policy, and the acceptance of
    the chain. *)

From Stdlib Require Import Floats.SpecFloat.
From S2P Require Import Prelude ScriptNum Wire Tokenizer Builder SigHash SigCheck Engine Merkle Difficulty Chain Utxo TxRules ScriptVal Deployments BlockRules ConnectSafe Standard MempoolPolicy Returns Mempool MempoolInv MempoolRbf MempoolRun PrioQueue Mining MiningRun.

Module Templates.
Import ScriptNum Wire Tokenizer Builder SigHash SigCheck Engine Merkle Difficulty Utxo TxRules ScriptVal Standard MempoolPolicy Returns PrioQueue Mining MiningRun.
Import Mempool (World, shuffle, shuffle_perm, TxDesc, d_Tx, Fee, FeePerKB, StandardVerifyFlags, TxPool).
Import BlockRules (tx_ok, CountSigOps_ok).

(** ** Scripts of the coinbase *)
Lemma canonicalToken_bytes data : bytes_ok data -> byte_ok (canonicalToken data).1 /\ bytes_ok (canonicalToken data).2.
Proof.
  intros Hb. destruct data as [|x [|y data]]; cbn [canonicalToken].
  - split; [by unfold byte_ok, OP_0; cbn|constructor].
  - pose proof (Forall_inv Hb) as Hx. unfold byte_ok in Hx.
    destruct (Z.eqb_spec x 0); [split; [by unfold byte_ok, OP_0; cbn|constructor]|].
    destruct (Z.leb_spec x 16); [split; [unfold byte_ok, OP_1; cbn; lia|constructor]|].
    destruct (Z.eqb_spec x 0x81); (split; [by unfold byte_ok; cbn|]); [constructor|done].
  - pose proof (Zlen_nonneg (x :: y :: data)). destruct (Z.ltb_spec (Zlen (x :: y :: data)) OP_PUSHDATA1) as [Hl|Hl];
      [split; [unfold byte_ok, OP_PUSHDATA1 in *; cbn [fst]; lia|done]|].
    destruct (_ <=? 255); [|destruct (_ <=? 65535)]; (split; [by unfold byte_ok; cbn|done]).
Qed.
Lemma stepToken_bytes st : step_ok st -> bytes_ok (printToken (stepToken st)).
Proof.
  assert (H : forall tk, byte_ok tk.1 -> bytes_ok tk.2 -> bytes_ok (printToken tk)).
  { intros [op data] Hop Hd. unfold printToken. apply Forall_cons_2; [done|]. apply list.Forall_app. split; [|done].
    destruct (_ <? 0); [apply le_bytes_ok|constructor]. }
  destruct st as [op|data|n]; cbn [step_ok stepToken]; intros Hok.
  - apply H; [apply Hok|constructor].
  - destruct Hok; apply H; by apply canonicalToken_bytes.
  - destruct (Bytes_total n Hok) as (v & Hv & Hvb & _). unfold numBytes. rewrite Hv. apply H; by apply canonicalToken_bytes.
Qed.
Lemma steps_bytes steps : Forall step_ok steps -> bytes_ok (printTokens (stepToken <$> steps)).
Proof.
  induction 1 as [|st steps Hst _ IH]; [constructor|]. rewrite !fmap_cons. cbn [concat]. apply list.Forall_app. split; [|done].
  by apply stepToken_bytes.
Qed.

Definition short_script (script : list Z) : Prop := bytes_ok script /\ Zlen script <= MaxScriptSize.
Lemma built steps : Forall step_ok steps -> safe (b ← build steps NewScriptBuilder; Script b) short_script.
Proof.
  intros Hok. destruct (build_spec steps NewScriptBuilder Hok) as (Htoks & b & -> & Hb); [done|done|]. rewrite bind_Ok. unfold Script.
  case_decide as Hd; [subst b; cbn|by destruct Hb as [-> _]]. split; [by apply steps_bytes|apply Hd].
Qed.

Ltac steps_ok := repeat apply Forall_cons_2; try apply Forall_nil_2; try done; try (split; [by unfold byte_ok; cbn|done]).

Lemma standardCoinbaseScript_safe height extraNonce : - 2 ^ 63 < height < 2 ^ 63 -> - 2 ^ 63 < i64 extraNonce < 2 ^ 63 ->
  safe (standardCoinbaseScript height extraNonce) short_script.
Proof.
  intros Hh He. pose proof (built [BInt height; BInt (i64 extraNonce); BData CoinbaseFlags]) as Hb. unfold standardCoinbaseScript.
  cbn [build runStep] in Hb. rewrite !outcome_bind_assoc in Hb.
  assert (Hok : Forall step_ok [BInt height; BInt (i64 extraNonce); BData CoinbaseFlags]).
  { steps_ok. split; [by apply (bool_decide_unpack _)|done]. }
  specialize (Hb Hok). destruct (AddInt64 height NewScriptBuilder) as [b| | |]; [|done..]. rewrite bind_Ok in *. rewrite outcome_bind_assoc in Hb.
  destruct (AddInt64 (i64 extraNonce) b) as [b2| | |]; [|done..]. rewrite !bind_Ok in *. by destruct (Script _).
Qed.

(** What an address is made of. *)
Definition payload (addr : Address) : list Z :=
  match addr with
  | AddressPubKeyHash l | AddressScriptHash l | AddressPubKey l | AddressWitnessPubKeyHash l | AddressWitnessScriptHash l | AddressTaproot l => l
  | OtherAddress => []
  end.
Definition address_ok (addr : option Address) : Prop :=
  match addr with Some addr => bytes_ok (payload addr) /\ Zlen (payload addr) < 2 ^ 31 | None => True end.

Lemma payTo_safe addr : address_ok addr ->
  safe (match addr with Some addr => PayToAddrScript addr | None => Script (AddOp OP_1 NewScriptBuilder) end) short_script.
Proof.
  assert (H : forall steps m, Forall step_ok steps -> m = (b ← build steps NewScriptBuilder; Script b) -> safe m short_script)
    by (intros steps m Hs ->; by apply built).
  destruct addr as [addr|]; cbn [address_ok]; [destruct addr as [l|l|l|l|l|l|]; cbn [payload PayToAddrScript]; intros [Hb Hl]|intros _].
  - apply (H [BOp OP_DUP; BOp OP_HASH160; BData l; BOp OP_EQUALVERIFY; BOp OP_CHECKSIG]); [|done]; steps_ok.
  - apply (H [BOp OP_HASH160; BData l; BOp OP_EQUAL]); [|done]; steps_ok.
  - apply (H [BData l; BOp OP_CHECKSIG]); [|done]; steps_ok.
  - apply (H [BOp OP_0; BData l]); [|done]; steps_ok.
  - apply (H [BOp OP_0; BData l]); [|done]; steps_ok.
  - apply (H [BOp OP_1; BData l]); [|done]; steps_ok.
  - done.
  - apply (H [BOp OP_1]); [|done]; steps_ok.
Qed.

(** ** The coinbase *)
Definition plainCoinbase (params : Params) (height : Z) (script pkScript : list Z) : MsgTx :=
  mkMsgTx 1 [mkTxIn (mkOutPoint zeroHash MaxUint32) script [] MaxUint32] [mkTxOut (CalcBlockSubsidy height params) pkScript] 0.

Lemma createCoinbaseTx_safe params script height addr : address_ok addr ->
  safe (createCoinbaseTx params script height addr) (fun cb => exists pkScript, short_script pkScript /\ cb = plainCoinbase params height script pkScript).
Proof.
  intros Ha%payTo_safe. unfold createCoinbaseTx. eapply safe_bind with (P := short_script); [by destruct (match addr with Some _ => _ | None => _ end)|].
  intros pk _ Hpk. by exists pk.
Qed.

Lemma VarInt_one {A} (x : A) : VarIntSerializeSize (Zlen [x]) = 1.
Proof. done. Qed.
Lemma VarInt_two {A} (x y : A) : VarIntSerializeSize (Zlen [x; y]) = 1.
Proof. done. Qed.

Lemma plainCoinbase_size params height script pk : baseSize (plainCoinbase params height script pk) =
  58 + VarIntSerializeSize (Zlen script) + Zlen script + VarIntSerializeSize (Zlen pk) + Zlen pk.
Proof. unfold baseSize, plainCoinbase. cbn. rewrite !VarInt_one. unfold TxIn_SerializeSize, TxOut_SerializeSize. cbn. lia. Qed.
Lemma plainCoinbase_weight params height script pk : short_script script -> short_script pk ->
  0 <= GetTransactionWeight (plainCoinbase params height script pk) <= 100000.
Proof.
  intros [_ Hs] [_ Hp]. unfold MaxScriptSize in *. split; [apply GetTransactionWeight_nonneg|].
  unfold GetTransactionWeight, SerializeSizeStripped, SerializeSize, WitnessScaleFactor. change (HasWitness _) with false. rewrite plainCoinbase_size.
  assert (Hv : forall v, VarIntSerializeSize v <= 9) by (intros v; unfold VarIntSerializeSize; repeat case_match; lia).
  pose proof (Hv (Zlen script)). pose proof (Hv (Zlen pk)). lia.
Qed.

(** The weight of a commitment: 47 bytes of an output, and 36 of a witness. *)
Definition commitmentWeight : Z := 224.
Lemma coinbaseModel_weight params height script pk (cb := plainCoinbase params height script pk) :
  exists cb', coinbaseModel cb = Ok cb' /\ GetTransactionWeight cb' - GetTransactionWeight cb = commitmentWeight.
Proof.
  set (wit := [replicate (Z.to_nat CoinbaseWitnessDataLen) 97]). set (out := mkTxOut 0 (replicate (Z.to_nat CoinbaseWitnessPkScriptLength) 97)).
  set (cb' := addOutput out (mkMsgTx 1 [mkTxIn (mkOutPoint zeroHash MaxUint32) script wit MaxUint32] (TxOuts cb) 0)).
  exists cb'. split; [reflexivity|]. assert (Hsize : baseSize cb' = baseSize cb + 47).
  { unfold cb', cb, plainCoinbase, addOutput, baseSize. cbn [TxIns TxOuts app]. rewrite !VarInt_one, VarInt_two, !fmap_cons, !sum_cons.
    change (TxOut_SerializeSize out) with 47. unfold TxIn_SerializeSize. cbn. lia. }
  unfold GetTransactionWeight, SerializeSizeStripped, SerializeSize, WitnessScaleFactor.
  change (HasWitness cb) with false. change (HasWitness cb') with true. cbv iota. rewrite Hsize. change (sum _) with 34. unfold commitmentWeight. lia.
Qed.

(** The weight of a block: its transactions, and a count of at most nine
    bytes. *)
Lemma GetBlockWeight_bound block :
  GetBlockWeight block <= blockHeaderOverhead * WitnessScaleFactor + sum (GetTransactionWeight <$> Transactions block).
Proof.
  unfold GetBlockWeight, MsgBlock_SerializeSize, MsgBlock_SerializeSizeStripped, blockHeaderOverhead, MaxBlockHeaderPayload, MaxVarIntPayload, blockHeaderLen, WitnessScaleFactor.
  assert (Hs : forall txs, sum (SerializeSizeStripped <$> txs) * 3 + sum (SerializeSize <$> txs) = sum (GetTransactionWeight <$> txs)).
  { induction txs as [|tx txs IH]; [done|]. rewrite !fmap_cons, !sum_cons. unfold GetTransactionWeight at 1, WitnessScaleFactor. lia. }
  rewrite <- Hs. assert (VarIntSerializeSize (Zlen (Transactions block)) <= 9) by (unfold VarIntSerializeSize; repeat case_match; lia). lia.
Qed.

(** Fees do not change the weight of a coinbase; a commitment does. *)
Lemma addFees_weight fees base paid : addFees fees base = Ok paid -> GetTransactionWeight paid = GetTransactionWeight base.
Proof.
  unfold addFees. destruct base as [v ins [|out outs] lt]; [done|]. cbn [TxOuts TxIns Version LockTime]. intros [= <-]. reflexivity.
Qed.

Lemma commitment_weight {C : Crypto} {L : HashLaws crypto_hashes} params height script pk fees paid rest coinbase commitment :
  addFees fees (plainCoinbase params height script pk) = Ok paid -> AddWitnessCommitment paid rest = Ok (coinbase, commitment) ->
  GetTransactionWeight coinbase = GetTransactionWeight (plainCoinbase params height script pk) + commitmentWeight /\ commitment <> [].
Proof.
  intros Hpaid Hadd. cbn in Hpaid. injection Hpaid as <-. unfold AddWitnessCommitment in Hadd. cbn [setFirstInput TxIns] in Hadd. rewrite bind_Ok in Hadd.
  apply outcome_bind_ok in Hadd as (root & _ & Hadd). injection Hadd as <- <-.
  assert (Hc : forall b, length (DoubleHashB b) = 32%nat) by (intros b; apply sha256_len).
  match goal with |- context [DoubleHashB ?b] => generalize (Hc b); generalize (DoubleHashB b) end.
  clear Hc. intros c Hc. split; [|by intros ->]. destruct (coinbaseModel_weight params height script pk) as (cb & Hcb & <-). injection Hcb as <-.
  match goal with |- _ = ?a + (?b - ?a) => replace (a + (b - a)) with b by lia end.
  do 32 (destruct c as [|? c]; [done|]). by destruct c.
Qed.

Section Template.
Context {C : Crypto} {W : World} {S : Type} {T : TxSource S}.
Context (policy : Policy) (params : Params) (source : S) (chain : TemplateChain) (fuel : nat) (sigCache : option SigCache) (h0 : option HashCache).
Abbreviation descs := (MiningDescs source).
Abbreviation height := (nextBlockHeight chain).
Abbreviation fills := (MiningRun.fills params chain fuel sigCache).

(** ** Where the coins come from *)
Definition spentBy (item : txPrioItem) (op : OutPoint) : Prop := exists ti, ti ∈ TxIns (p_tx item) /\ PreviousOutPoint ti = op.

(** Before its [j]-th transaction the block can spend [op]: a coin of the
    chain that none of the earlier transactions spends, or an output of an
    earlier one that none after it spends. *)
Definition supplied (chosen : list txPrioItem) (j : nat) (op : OutPoint) : Prop :=
  (exists c, chain_coin chain op c) /\ (forall i x, (i < j)%nat -> chosen !! i = Some x -> ~ spentBy x op) \/
  exists k parent, (k < j)%nat /\ chosen !! k = Some parent /\ op ∈ added (TxHash (p_tx parent)) 0 (TxOuts (p_tx parent)) /\
    forall i x, (k < i < j)%nat -> chosen !! i = Some x -> ~ spentBy x op.

Lemma supplied_snoc chosen x j op : (j <= length chosen)%nat -> supplied chosen j op -> supplied (chosen ++ [x]) j op.
Proof using.
  assert (Hl : (j <= length chosen)%nat -> forall i y, (i < j)%nat -> (chosen ++ [x]) !! i = Some y -> chosen !! i = Some y).
  { intros Hj i y Hi. by rewrite lookup_app_l by lia. }
  intros Hj [[Hc Hno]|(k & parent & Hk & Hp & Hadd & Hno)]; [left|right].
  - split; [done|]. intros i y Hi Hy. by apply (Hno i); [|apply Hl].
  - exists k, parent. split_and!; [done|by rewrite lookup_app_l by lia|done|]. intros i y Hi Hy. apply (Hno i); [done|]. apply Hl; [done|lia|done].
Qed.

Lemma sumInputs_live ins h view : forall t t', sumInputs ins h view params t = Ok t' -> forall ti, ti ∈ ins -> is_Some (coins view !! PreviousOutPoint ti).
Proof using.
  induction ins as [|ti ins IH]; intros t t'; cbn [sumInputs]; [by intros _ ? ?%not_elem_of_nil|].
  destruct (LookupEntry view (PreviousOutPoint ti)) as [e|] eqn:He; [|done]. destruct (IsSpent e) eqn:Hs; [done|].
  repeat (case_match; [done|]). intros Hrun ti' [->|Hin]%list.elem_of_cons; [|by eapply IH]. rewrite coins_lookup, He. unfold live. by rewrite Hs.
Qed.

Section Base.
Context (segwit : bool) (base : UtxoViewpoint) (Hbase : forall op c, coins base !! op = Some c -> chain_coin chain op c).

Lemma fills_coins chosen costs view : fills segwit base chosen costs view -> forall op c, coins view !! op = Some c -> supplied chosen (length chosen) op.
Proof using Hbase.
  induction 1 as [|chosen costs view item cost fee h h' view' _ IH _ _ _ Hspend]; intros op c Hc.
  - left. split; [exists c; by apply Hbase|]. intros i x Hi. cbn in Hi. lia.
  - rewrite length_app. cbn [length]. destruct (spendTransaction_coins _ _ _ _ _ _ Hspend Hc) as [Hadd|[Hc' Hno]].
    + right. exists (length chosen), item. split_and!; [lia|by rewrite lookup_app_r, Nat.sub_diag by lia|done|]. intros i x Hi. lia.
    + apply IH in Hc'. apply (supplied_snoc _ item) in Hc'; [|lia].
      assert (Hlast : forall i x, (i < length chosen + 1)%nat -> (chosen ++ [item]) !! i = Some x -> (i < length chosen)%nat \/ ~ spentBy x op).
      { intros i x Hi Hx. destruct (decide (i < length chosen)%nat); [by left|right]. assert (i = length chosen) as -> by lia.
        rewrite lookup_app_r, Nat.sub_diag in Hx by lia. injection Hx as <-. intros (ti & Hin & Heq). by apply (Hno ti). }
      destruct Hc' as [[Hch Hn]|(k & parent & Hk & Hp & Hadd & Hn)]; [left|right].
      * split; [done|]. intros i x Hi Hx. destruct (Hlast i x Hi Hx) as [?|?]; [by apply (Hn i)|done].
      * exists k, parent. split_and!; [lia|done|done|]. intros i x Hi Hx. destruct (Hlast i x) as [?|?]; [lia|done|apply (Hn i); [lia|done]|done].
Qed.

Lemma fills_inputs chosen costs view : fills segwit base chosen costs view -> forall j item op, chosen !! j = Some item -> IsCoinBaseTx (p_tx item) = false ->
  spentBy item op -> supplied chosen j op.
Proof using Hbase.
  induction 1 as [|chosen costs view item cost fee h h' view' Hfills IH _ Hin _ _]; intros j x op Hx Hcb Hsp; [done|].
  destruct (decide (j < length chosen)%nat) as [Hj|Hj].
  - rewrite lookup_app_l in Hx by done. apply supplied_snoc; [lia|]. by apply (IH j x).
  - rewrite lookup_app_r in Hx by lia. destruct (j - length chosen)%nat eqn:Hd; [|done]. injection Hx as <-.
    assert (j = length chosen) as -> by lia. apply supplied_snoc; [lia|]. destruct Hsp as (ti & Hti & <-).
    unfold CheckTransactionInputs in Hin. rewrite Hcb in Hin. apply outcome_bind_ok in Hin as (t & Hsum & _).
    destruct (sumInputs_live _ _ _ _ _ Hsum ti Hti) as [c Hc]. by eapply fills_coins.
Qed.
End Base.

(** ** The source and the chain *)

(** A view of the chain tells of every input of its transaction that any
    other view tells of, and the source knows its own transactions. *)
Record steady : Prop := {
  st_view tx v ti c : FetchUtxoView chain tx = Ok v -> ti ∈ TxIns tx -> chain_coin chain (PreviousOutPoint ti) c -> is_Some (coins v !! PreviousOutPoint ti);
  st_have d : d ∈ descs -> HaveTransaction (TxHash (d_Tx d)) source = true;
}.

Definition isActive (state : Deployments.ThresholdState) : bool := match state with Deployments.ThresholdActive => true | _ => false end.

(** ** What a template is *)
Record template_ok (addr : option Address) (t : BlockTemplate) (base : MsgTx) (chosen : list txPrioItem) : Prop := {
  (** the coinbase pays the subsidy and the fees, and may commit to witnesses *)
  te_base : exists script, standardCoinbaseScript height 0 = Ok script /\ createCoinbaseTx params script height addr = Ok base;
  te_txs : exists paid coinbase, addFees (sum64 0 (p_fee <$> chosen)) base = Ok paid /\
    Transactions (Block t) = coinbase :: (p_tx <$> chosen) /\
    ((forall x, x ∈ chosen -> HasWitness (p_tx x) = false) /\ coinbase = paid /\ WitnessCommitment t = [] \/
     AddWitnessCommitment paid (p_tx <$> chosen) = Ok (coinbase, WitnessCommitment t));
  te_fees : Fees t = i64 (- sum64 0 (p_fee <$> chosen)) :: (p_fee <$> chosen);
  (** the header builds on the best block, and the chain accepts the block *)
  te_height : t_Height t = height;
  te_prev : PrevBlock (Header (Block t)) = best_Hash chain;
  te_root : CalcMerkleRoot (Transactions (Block t)) false = Ok (MerkleRoot (Header (Block t)));
  te_time : MinimumMedianTime chain <= Wire.Timestamp (Header (Block t));
  te_accepted : CheckConnectBlockTemplate chain (Block t) height = Ok ();
  (** the transactions are of the source, each at most once, and final *)
  te_nodup : NoDup (ref <$> chosen);
  te_items x : x ∈ chosen -> exists d, descs !! ref x = Some d /\ p_tx x = d_Tx d /\ p_fee x = Fee d /\ p_feePerKB x = FeePerKB d /\
    IsCoinBaseTx (p_tx x) = false /\ IsFinalizedTransaction (p_tx x) height (AdjustedTime chain (ref x)) = true;
  (** each satisfies the rules after the earlier ones, and spends what they
      and the chain supply; the signatures, counted there and those of the
      coinbase, are within the limit *)
  te_fills : exists state numSigOps costs view0 view, segwitState chain = Ok state /\ CountSigOps base = Ok numSigOps /\
    SigOpCosts t = numSigOps * WitnessScaleFactor :: costs /\ (forall op c, coins view0 !! op = Some c -> chain_coin chain op c) /\
    fills (isActive state) view0 chosen costs view /\
    (chosen <> [] -> Forall int64 costs -> numSigOps * WitnessScaleFactor + sum costs <= MaxBlockSigOpsCost);
  te_inputs j x op : chosen !! j = Some x -> spentBy x op -> supplied chosen j op;
  (** the weight: below the limit of the policy with room for the largest
      count of transactions, and not counting a commitment to witnesses *)
  te_weight : chosen <> [] -> blockHeaderOverhead * WitnessScaleFactor + GetTransactionWeight base + weights chosen < BlockMaxWeight policy;
  te_commitment : chosen <> [] -> GetBlockWeight (Block t) < BlockMaxWeight policy + (if decide (WitnessCommitment t = []) then 0 else commitmentWeight);
}.

(** *** The parts of the run *)
Lemma gathers_none queue : items queue = [] -> gathers source chain fuel h0 0 (mkGathered queue NewUtxoViewpoint ∅ ∅ ∅).
Proof using.
  intros Hq. split; cbn [g_queue g_utxos dependers dependsOn prioItems]; try (intros *; by rewrite lookup_empty).
  - intros item. rewrite Hq. by intros ?%not_elem_of_nil.
  - rewrite Hq. constructor.
  - intros op c. by rewrite coins_lookup.
  - intros _ op e. done.
Qed.

(** What was gathered waits or is queued. *)
Lemma gathers_measure k g : gathers source chain fuel h0 k g -> (length (items (g_queue g)) + waiting (dependsOn g) <= k)%nat.
Proof using.
  intros [Hi Hq Hn Ho _ _ _]. unfold waiting.
  assert (Hsub : (list_to_set (ref <$> items (g_queue g)) ∪ dom (dependsOn g) : gset nat) ⊆ set_seq 0 k).
  { intros r Hr. apply elem_of_set_seq. split; [lia|]. apply elem_of_union in Hr as [Hr|Hr].
    - apply elem_of_list_to_set, list_elem_of_fmap in Hr as (x & -> & Hx). apply Hq in Hx as [Hx _]. by apply Hi in Hx as [? _].
    - apply elem_of_dom in Hr as [on Hr]. destruct (Ho _ _ Hr) as [x Hx]. by apply Hi in Hx as [? _]. }
  apply subseteq_size in Hsub. rewrite size_set_seq, size_union, size_list_to_set, size_dom, length_fmap in Hsub; [|done|].
  - pose proof (map_size_filter (fun p : nat * gset (list Z) => p.2 <> ∅) (dependsOn g)). lia.
  - intros r Hr1 Hr2. apply elem_of_list_to_set, list_elem_of_fmap in Hr1 as (x & -> & Hx). apply Hq in Hx as [_ Hx].
    apply elem_of_dom in Hr2. rewrite Hx in Hr2. by apply is_Some_None in Hr2.
Qed.

Lemma safe_yields {E A} (B : Prop) (m : outcome E A) (P : A -> Prop) : safe m P -> yields B m P.
Proof using. by destruct m. Qed.

(** The state in which the choice begins. *)
Lemma chosen_none g segwit base cost byFee (start := blockHeaderOverhead * WitnessScaleFactor + GetTransactionWeight base) :
  gathers source chain fuel h0 (length descs) g -> 0 <= start < 2 ^ 32 -> 0 <= cost < 2 ^ 63 ->
  chosen_ok policy params source chain fuel sigCache h0 g segwit start cost commitmentWeight
    (mkSelection (g_queue g) byFee (g_utxos g) [] [] (u32 start) cost 0 false (dependsOn g) h0).
Proof using.
  intros [Hi Hq Hn Ho Hd _ Hb] Hs Hcost. rewrite u32_small by done.
  split; cbn [queue blockTxns waits blockUtxos txSigOpCosts blockWeight blockSigOpCost totalFees witnessIncluded]; unfold withWitnesses;
    cbn [witnessIncluded]; try done; try lia.
  - split; rewrite app_nil_r; [intros x Hx; by apply Hq|done|]. intros x Hx. apply Hq in Hx as [_ Hx]. unfold waitsFor. by rewrite Hx.
  - intros o m key r Hm Hk _. destruct (Hd _ _ _ _ Hm Hk) as (x & on & _ & _ & Hon & Hin). unfold waitsFor. by rewrite Hon.
  - constructor.
  - unfold weights. cbn. lia.
  - cbn. lia.
  - by intros x ?%not_elem_of_nil.
  - intros Hw. apply (wk_cache _ _ _ _ Hw).
Qed.

(** An item whose inputs are not all known never enters a block. *)
Lemma never_lost chosen j x : steady -> (forall k y, chosen !! k = Some y -> exists d, d ∈ descs /\ p_tx y = d_Tx d) ->
  chosen !! j = Some x -> (forall op, spentBy x op -> supplied chosen j op) -> ~ lost source chain (p_tx x).
Proof using.
  intros Hst Hknown Hx Hsup (v & ti & Hv & Hti & Hnone & Hhave).
  destruct (Hsup (PreviousOutPoint ti)) as [[[c Hc] _]|(k & parent & _ & Hp & Hadd & _)]; [by exists ti| |].
  - destruct (st_view Hst _ _ _ _ Hv Hti Hc) as [? ?]. congruence.
  - destruct (Hknown _ _ Hp) as (d & Hd & Htx). apply (st_have Hst) in Hd. rewrite <- Htx in Hd.
    apply added_hash in Hadd. congruence.
Qed.

Lemma AddWitnessCommitment_returns coinbaseTx txns : TxIns coinbaseTx <> [] -> Z.of_nat (length txns) < 2 ^ 59 ->
  exists r, AddWitnessCommitment coinbaseTx txns = Ok r.
Proof using.
  intros Hne Hl. unfold AddWitnessCommitment, setFirstInput. destruct (TxIns coinbaseTx) as [|ti ins]; [done|]. rewrite bind_Ok.
  rewrite CalcMerkleRoot_spec; [|done|rewrite Zlen_cons; unfold Zlen; lia]. cbn [ofChain]. rewrite bind_Ok. by eexists.
Qed.

Section Finish.
Context (g : gathered) (Hg : gathers source chain fuel h0 (length descs) g) (Hst : steady) (Hdescs : Z.of_nat (length descs) < 2 ^ 59).
Context (addr : option Address) (base : MsgTx) (cost : Z).
Context (Hbase : exists script, standardCoinbaseScript height 0 = Ok script /\ createCoinbaseTx params script height addr = Ok base).
Context (Hplain : exists script pk, base = plainCoinbase params height script pk) (Hcount : exists n, CountSigOps base = Ok n /\ cost = n * WitnessScaleFactor).
Context {L : HashLaws crypto_hashes}.

Lemma drawn_items chosen : (forall x, x ∈ chosen -> known g x) -> (forall j x op, chosen !! j = Some x -> spentBy x op -> supplied chosen j op) ->
  forall x, x ∈ chosen -> exists d, descs !! ref x = Some d /\ p_tx x = d_Tx d /\ p_fee x = Fee d /\ p_feePerKB x = FeePerKB d /\
    IsCoinBaseTx (p_tx x) = false /\ IsFinalizedTransaction (p_tx x) height (AdjustedTime chain (ref x)) = true.
Proof using Hg Hst.
  intros Hknown Hsup x Hx. pose proof (Hknown x Hx) as Hk. apply (ga_items _ _ _ _ _ _ Hg) in Hk as [_ (_ & d & Hd & Htx & Hcb & Hfin & Hw)].
  exists d. destruct Hw as [(Hf & Hkb & _)|Hlost]; [by split_and!|]. exfalso.
  apply list_elem_of_lookup in Hx as [j Hj]. revert Hlost. apply (never_lost chosen j x Hst); [|done|by intros op; apply Hsup].
  intros k y Hy. destruct (known_drawn source chain fuel h0 g Hg y) as (d' & Hd' & _ & Hty); [by apply Hknown, (list_elem_of_lookup_2 _ k)|]. by exists d'.
Qed.

Context (state : Deployments.ThresholdState) (Hstate : segwitState chain = Ok state).
Abbreviation segwit := (isActive state).
Abbreviation start := (blockHeaderOverhead * WitnessScaleFactor + GetTransactionWeight base).
Abbreviation chosenOk := (chosen_ok policy params source chain fuel sigCache h0 g segwit start cost commitmentWeight).

Lemma chosen_few s : chosenOk s -> (length (blockTxns s) <= length descs)%nat.
Proof using Hg.
  intros Hs. pose proof (ch_placed _ _ _ _ _ _ _ _ _ _ _ _ _ Hs) as [Hk Hn _]. rewrite fmap_app in Hn. apply list.NoDup_app in Hn as (_ & _ & Hn).
  rewrite <- (length_fmap ref), <- (length_seq (length descs) 0). apply submseteq_length, NoDup_submseteq; [done|].
  intros r (x & -> & Hx)%list_elem_of_fmap. apply elem_of_seq. split; [lia|].
  apply (ga_items _ _ _ _ _ _ Hg (ref x) x), Hk, elem_of_app. by right.
Qed.

(** The weight of the block, by whether it has a commitment. *)
Lemma template_weight s paid coinbase commitment header : chosenOk s -> blockTxns s <> [] ->
  addFees (totalFees s) base = Ok paid ->
  (coinbase = paid /\ commitment = [] \/ AddWitnessCommitment paid (p_tx <$> blockTxns s) = Ok (coinbase, commitment)) ->
  GetBlockWeight (mkMsgBlock header (coinbase :: (p_tx <$> blockTxns s))) < BlockMaxWeight policy + (if decide (commitment = []) then 0 else commitmentWeight).
Proof using Hplain L.
  intros Hs Hne Hpaid Hc. pose proof (ch_max _ _ _ _ _ _ _ _ _ _ _ _ _ Hs Hne) as Hmax. unfold weights in Hmax.
  pose proof (GetBlockWeight_bound (mkMsgBlock header (coinbase :: (p_tx <$> blockTxns s)))) as Hb. cbn [Transactions] in Hb.
  rewrite fmap_cons, sum_cons, <- list_fmap_compose in Hb. unfold compose in Hb.
  assert (Hcb : GetTransactionWeight coinbase = GetTransactionWeight base + (if decide (commitment = []) then 0 else commitmentWeight)); [|lia].
  destruct Hc as [[-> ->]|Hc].
  - rewrite decide_True by done. rewrite (addFees_weight _ _ _ Hpaid). lia.
  - destruct Hplain as (script & pk & Hp). rewrite Hp in Hpaid |- *. destruct (commitment_weight _ _ _ _ _ _ _ _ _ Hpaid Hc) as [-> Hn]. by rewrite decide_False.
Qed.

Lemma finish_yields s : chosenOk s -> items (queue s) = [] ->
  yields (~ workable source chain fuel h0) (finishTemplate source chain (bool_decide (is_Some addr)) base cost s)
    (fun t => exists chosen, template_ok addr t base chosen).
Proof using Hg Hst Hdescs Hbase Hplain Hcount Hstate L.
  intros Hs Hq. unfold finishTemplate. destruct (addFees (totalFees s) base) as [paid| | |] eqn:Hpaid;
    try (exfalso; by destruct Hplain as (? & ? & ->)). rewrite bind_Ok.
  pose proof (chosen_few s Hs) as Hlen.
  eapply yields_bind with (P := fun r => (forall x, x ∈ blockTxns s -> HasWitness (p_tx x) = false) /\ r = (paid, []) \/
     AddWitnessCommitment paid (p_tx <$> blockTxns s) = Ok r).
  { destruct (witnessIncluded s) eqn:Hw.
    - destruct (AddWitnessCommitment_returns paid (p_tx <$> blockTxns s)) as [r Hr];
        [destruct Hplain as (? & ? & ->); by injection Hpaid as <-|rewrite length_fmap; lia|]. rewrite Hr. by right.
    - left. split; [|done]. intros x Hx. destruct (HasWitness (p_tx x)) eqn:Hx2; [|done]. apply (ch_witness _ _ _ _ _ _ _ _ _ _ _ _ _ Hs) in Hx2; [congruence|done]. }
  intros [coinbase commitment] _ Hc. cbn zeta. set (ts := medianAdjustedTime _ _).
  eapply yields_bind; [apply (yields_chain _ _ (fun _ => True)); [intros Hw; apply (wk_difficulty _ _ _ _ Hw)|done]|]. intros bits _ _.
  eapply yields_bind; [apply (yields_chain _ _ (fun _ => True)); [intros Hw; apply (wk_version _ _ _ _ Hw)|done]|]. intros version _ _.
  eapply yields_bind with (P := fun r => CalcMerkleRoot (coinbase :: (p_tx <$> blockTxns s)) false = Ok r).
  { rewrite CalcMerkleRoot_spec; [done|done|]. rewrite Zlen_cons. unfold Zlen. rewrite length_fmap. lia. }
  intros root _ Hroot. set (block := mkMsgBlock _ _).
  eapply yields_bind; [apply (yields_chain _ _ (fun _ => CheckConnectBlockTemplate chain block height = Ok ())); [intros Hw; apply (wk_connect _ _ _ _ Hw)|by intros []]|].
  intros [] _ Hacc. exists (blockTxns s).
  pose proof (ch_placed _ _ _ _ _ _ _ _ _ _ _ _ _ Hs) as [Hk Hn _]. rewrite Hq in Hk, Hn. cbn [app] in Hk, Hn.
  pose proof (ch_fills _ _ _ _ _ _ _ _ _ _ _ _ _ Hs) as Hfills.
  assert (Hin : forall j x op, blockTxns s !! j = Some x -> spentBy x op -> supplied (blockTxns s) j op).
  { intros j x op Hj. apply (fills_inputs segwit (g_utxos g) (ga_view _ _ _ _ _ _ Hg) _ _ _ Hfills j x op Hj).
    destruct (ga_items _ _ _ _ _ _ Hg (ref x) x) as [_ (_ & d & _ & _ & Hcb & _)]; [by apply Hk, (list_elem_of_lookup_2 _ j)|done]. }
  split; cbn [Fees SigOpCosts t_Height Block Header Transactions PrevBlock MerkleRoot Wire.Timestamp WitnessCommitment]; try done.
  - exists paid, coinbase. rewrite <- (ch_fees _ _ _ _ _ _ _ _ _ _ _ _ _ Hs). split_and!; [done|done|]. destruct Hc as [[Hn' [= -> ->]]|Hc]; [by left|by right].
  - by rewrite <- (ch_fees _ _ _ _ _ _ _ _ _ _ _ _ _ Hs).
  - unfold block. cbn. unfold ts, medianAdjustedTime. case_match; lia.
  - by apply drawn_items.
  - destruct Hcount as (n & Hn1 & Hn2). exists state, n, (txSigOpCosts s), (g_utxos g), (blockUtxos s).
    rewrite <- Hn2. split_and!; [done|done|done|apply (ga_view _ _ _ _ _ _ Hg)|done|]. intros Hne Hints.
    rewrite <- (ch_costs _ _ _ _ _ _ _ _ _ _ _ _ _ Hs Hints). by apply (ch_cost _ _ _ _ _ _ _ _ _ _ _ _ _ Hs).
  - intros Hne. by apply (ch_max _ _ _ _ _ _ _ _ _ _ _ _ _ Hs).
  - intros Hne. apply (template_weight s paid coinbase commitment); [done|done|done|]. destruct Hc as [[_ [= -> ->]]|Hc]; [by left|by right].
Qed.

End Finish.

Lemma plainCoinbase_ok script pk : short_script script -> short_script pk -> tx_ok (plainCoinbase params height script pk).
Proof using.
  intros [Hs Hsl] [Hp Hpl]. unfold MaxScriptSize in *. split; cbn [TxIns TxOuts plainCoinbase].
  - apply Forall_singleton. cbn [SignatureScript PkScript]; split; [done|lia].
  - apply Forall_singleton. cbn [SignatureScript PkScript]; split; [done|lia].
  - apply Forall_singleton. pose proof (ConnectSafe.subsidy_nonneg height params). change baseSubsidy with 5000000000 in *. cbn [Value]. lia.
  - done.
Qed.

Lemma NewBlockTemplate_yields {L : HashLaws crypto_hashes} addr (Hok : source_ok source) (Hst : steady) (Haddr : address_ok addr)
    (Hdescs : Z.of_nat (length descs) < 2 ^ 59) (Hmax : BlockMaxWeight policy <= MaxBlockWeight) :
  yields (~ workable source chain fuel h0) (NewBlockTemplate policy params source chain fuel sigCache addr h0)
    (fun t => exists base chosen, template_ok addr t base chosen).
Proof using.
  unfold NewBlockTemplate.
  assert (Hh : - 2 ^ 63 < height < 2 ^ 63) by (unfold nextBlockHeight, i32; pose proof (Z.mod_pos_bound (best_Height chain + 1 + 2 ^ 31) (2 ^ 32)); lia).
  pose proof (standardCoinbaseScript_safe height 0 Hh ltac:(done)) as Hscript.
  eapply yields_bind; [by apply safe_yields|]. intros script Hs1 Hs2.
  pose proof (createCoinbaseTx_safe params script height addr Haddr) as Hcb.
  eapply yields_bind; [by apply safe_yields|]. intros base Hb1 (pk & Hpk & Hb2).
  assert (Hweight : 0 <= GetTransactionWeight base <= 100000) by (subst base; by apply plainCoinbase_weight).
  destruct (CountSigOps_ok base) as [Hcount Hops]; [subst base; by apply plainCoinbase_ok|]. rewrite Hcount. cbn [ofChain]. rewrite bind_Ok.
  unfold newTxPriorityQueue. destruct (SetLessFunc_perm (E := TemplateError) (if BlockPrioritySize policy =? 0 then txPQByFee else txPQByPriority) (mkQueue txPQByFee []))
    as (queue0 & -> & Hq0). rewrite bind_Ok. apply Permutation_nil_r in Hq0.
  eapply yields_bind; [by apply (mempoolLoop_yields source chain fuel h0 descs 0 _ (gathers_none queue0 Hq0))|]. intros g _ Hg. cbn [Nat.add] in Hg.
  eapply yields_bind; [apply (yields_chain _ _ (fun state => segwitState chain = Ok state)); [intros Hw; apply (wk_state _ _ _ _ Hw)|done]|].
  intros state _ Hstate. cbn beta in Hstate. cbn zeta. fold (isActive state).
  set (cost := BlockRules.sigOps base * WitnessScaleFactor).
  set (start := blockHeaderOverhead * WitnessScaleFactor + GetTransactionWeight base).
  assert (Hroom : 0 <= start /\ 0 <= commitmentWeight /\ Z.max start (BlockMaxWeight policy) + commitmentWeight < 2 ^ 32 /\ 0 <= cost < 2 ^ 63).
  { unfold cost, start, commitmentWeight, MaxBlockWeight, blockHeaderOverhead, MaxBlockHeaderPayload, MaxVarIntPayload, WitnessScaleFactor in *. lia. }
  eapply yields_bind.
  - apply (selectLoop_yields policy params source chain fuel sigCache h0 g Hg Hok (isActive state) base start cost commitmentWeight); [|exact Hroom|exact L| |].
    + rewrite Hb2. apply coinbaseModel_weight.
    + apply chosen_none; [exact Hg| |apply Hroom]. unfold commitmentWeight in Hroom. fold start. lia.
    + pose proof (gathers_measure _ g Hg). unfold measure. cbn [sortedByFee queue waits]. case_match; lia.
  - intros s _ [Hs Hq]. eapply yields_mono; [apply (finish_yields g Hg Hst Hdescs addr base cost) with (state := state)|]; try done.
    + by exists script.
    + by exists script, pk.
    + by exists (BlockRules.sigOps base).
    + intros t _ [chosen Ht]. by exists base, chosen.
Qed.

(** C10. A template is a block that the chain accepts: its coinbase pays the
    subsidy and the fees and commits to the witnesses that there are; its
    other transactions are of the source, none twice, each final and valid
    after the earlier ones, and each spends coins of the chain or of earlier
    transactions that nothing before it spends.  The costs it lists are those
    of their signatures, counted where they stand, and with the coinbase's
    they are within the limit of a block; its weight is below the limit of
    the policy, not counting a commitment to witnesses, which adds 224.
    When the transactions of the source hold bytes and none nests a program
    of version 1 or higher, and the functions of the chain return, the call
    returns a template or an error. *)
Theorem NewBlockTemplate_valid {L : HashLaws crypto_hashes} addr (Hok : source_ok source) (Hst : steady) (Haddr : address_ok addr)
    (Hdescs : Z.of_nat (length descs) < 2 ^ 59) (Hmax : BlockMaxWeight policy <= MaxBlockWeight) :
  (forall t, NewBlockTemplate policy params source chain fuel sigCache addr h0 = Ok t -> exists base chosen, template_ok addr t base chosen) /\
  (workable source chain fuel h0 ->
     (exists t, NewBlockTemplate policy params source chain fuel sigCache addr h0 = Ok t) \/
     exists e, NewBlockTemplate policy params source chain fuel sigCache addr h0 = Err e).
Proof using.
  pose proof (NewBlockTemplate_yields addr Hok Hst Haddr Hdescs Hmax) as Hy. split.
  - intros t Ht. by rewrite Ht in Hy.
  - intros Hw. destruct (NewBlockTemplate _ _ _ _ _ _ _ _) as [t|e| |]; [left; by exists t|right; by exists e|by destruct (Hy Hw)..].
Qed.

End Template.
(** ** While a template is solved *)

(** A new extra nonce changes the script of the coinbase and the merkle root,
    which stays that of the transactions. *)
Lemma UpdateExtraNonce_root {C : Crypto} blockHeight extraNonce block block' : UpdateExtraNonce blockHeight extraNonce block = Ok block' ->
  CalcMerkleRoot (Transactions block') false = Ok (MerkleRoot (Header block')) /\
  drop 1 (Transactions block') = drop 1 (Transactions block) /\
  Header block' = mkBlockHeader (bh_Version (Header block)) (PrevBlock (Header block)) (MerkleRoot (Header block')) (Wire.Timestamp (Header block))
    (Wire.Bits (Header block)) (Nonce (Header block)) /\
  exists script ti ins outs, Transactions block' !! 0%nat = Some (mkMsgTx (Version (hd (mkMsgTx 0 [] [] 0) (Transactions block))) (withScript script ti :: ins) outs
    (LockTime (hd (mkMsgTx 0 [] [] 0) (Transactions block)))) /\ standardCoinbaseScript blockHeight extraNonce = Ok script /\ Zlen script <= MaxCoinbaseScriptLen.
Proof.
  unfold UpdateExtraNonce. intros Hrun. apply outcome_bind_ok in Hrun as (script & Hscript & Hrun).
  destruct (Z.ltb_spec MaxCoinbaseScriptLen (Zlen script)) as [|Hlen]; [done|]. destruct (Transactions block) as [|cb txns] eqn:Htxs; [done|].
  unfold setFirstInput in Hrun. destruct (TxIns cb) as [|ti ins]; [done|]. rewrite bind_Ok in Hrun. apply outcome_bind_ok in Hrun as (root & Hroot & Hrun).
  injection Hrun as <-. cbn [Transactions Header MerkleRoot]. split_and!; [by destruct (CalcMerkleRoot _ _); [injection Hroot as ->| | |]|done|done|].
  by exists script, ti, ins, (TxOuts cb).
Qed.

(** ** Small templates *)
Module Toy.
Import MempoolRun.Toy.
#[local] Instance crypto : Crypto := toy_crypto.
#[local] Instance laws : HashLaws crypto_hashes := toy_laws.
#[local] Instance world : World := toy_world.

Definition view (known : list OutPoint) (tx : MsgTx) : UtxoViewpoint :=
  mkView (list_to_map ((fun ti => (PreviousOutPoint ti,
    if decide (PreviousOutPoint ti ∈ known) then Some (mkEntry 10000 [0x51] 1 0) else None)) <$> TxIns tx)) zeroHash.
Definition chain (known : list OutPoint) : TemplateChain := {|
  best_Hash := replicate 32 7; best_Height := 10; best_MedianTime := 50;
  FetchUtxoView tx := Ok (view known tx);
  segwitState := Ok Deployments.ThresholdActive;
  Mining.CalcNextRequiredDifficulty _ := Ok 0x207fffff; Mining.CalcNextBlockVersion := Ok 0x20000000;
  CheckConnectBlockTemplate _ _ := Ok (); AdjustedTime _ := 100;
|}.
Definition generous : Mining.Policy := mkGenPolicy 0 4000000 50000 1000.

(** The pool of [MempoolRun.Toy], visited child first. *)
Definition pooled : TxPool * list (list Z * TxDesc) := (two, rev (map_to_list (Mempool.pool two))).
Definition template := NewBlockTemplate generous FreshNetParams pooled (chain [coin0]) steps None None (Some (NewHashCache 100)).

Lemma view_lookup known op ins : entries (view known (mkMsgTx 1 ins [] 0)) !! op =
  if decide (op ∈ PreviousOutPoint <$> ins) then Some (if decide (op ∈ known) then Some (mkEntry 10000 [0x51] 1 0) else None) else None.
Proof.
  induction ins as [|ti ins IH]; [done|]. cbn [view entries TxIns] in *. rewrite fmap_cons. cbn [list_to_map foldr].
  destruct (decide (op = PreviousOutPoint ti)) as [->|Hne].
  - cbn. rewrite lookup_insert_eq, (decide_True (P := PreviousOutPoint ti ∈ _ :: _)) by by left. done.
  - cbn. rewrite lookup_insert_ne by done. etrans; [exact IH|]. destruct (decide (op ∈ PreviousOutPoint <$> ins)) as [Hin|Hin].
    + by rewrite (decide_True (P := op ∈ _ :: _)) by by right.
    + rewrite (decide_False (P := op ∈ _ :: _)); [done|]. by intros [?|?]%list.elem_of_cons.
Qed.
Lemma view_coins known tx op c : coins (view known tx) !! op = Some c -> op ∈ known.
Proof.
  rewrite coins_lookup. unfold LookupEntry. change (entries (view known tx)) with (entries (view known (mkMsgTx 1 (TxIns tx) [] 0))).
  rewrite view_lookup. destruct (decide (op ∈ _)); [|done]. by destruct (decide (op ∈ known)).
Qed.
Lemma view_known known tx ti : ti ∈ TxIns tx -> PreviousOutPoint ti ∈ known -> is_Some (coins (view known tx) !! PreviousOutPoint ti).
Proof.
  intros Hti Hk. rewrite coins_lookup. unfold LookupEntry. change (entries (view known tx)) with (entries (view known (mkMsgTx 1 (TxIns tx) [] 0))).
  rewrite view_lookup, !decide_True; [by eexists|done|]. by apply list_elem_of_fmap_2.
Qed.

Lemma pooled_ok : source_ok pooled.
Proof.
  assert (Hf : Forall (fun d => outs_ok (TxOuts (d_Tx d)) /\ GetTransactionWeight (d_Tx d) < 2 ^ 32) (MiningDescs pooled))
    by (apply (bool_decide_unpack _); vm_compute; exact I).
  rewrite list.Forall_forall in Hf. split; [apply (bool_decide_unpack _); vm_compute; exact I|intros d Hd; by apply Hf|intros d Hd; by apply Hf].
Qed.
Lemma pooled_steady : steady pooled (chain [coin0]).
Proof.
  split.
  - intros tx v ti c [= <-] Hti (tx' & v' & [= <-] & Hc). apply view_known; [done|]. by eapply view_coins.
  - assert (Hf : Forall (fun d => HaveTransaction (TxHash (d_Tx d)) pooled = true) (MiningDescs pooled))
      by (apply (bool_decide_unpack _); vm_compute; exact I). by rewrite list.Forall_forall in Hf.
Qed.

(** The pool's transactions are those of [incoming], which hold bytes. *)
Lemma pooled_workable : workable pooled (chain [coin0]) steps (Some (NewHashCache 100)).
Proof.
  assert (Hf : Forall (fun d => simple (d_Tx d)) (MiningDescs pooled)) by (apply (bool_decide_unpack _); vm_compute; exact I).
  rewrite list.Forall_forall in Hf. split; try done.
  - intros d Hd. destruct (simple_fit _ (Hf d Hd)). by split_and!.
  - intros d _ op e. cbn [FetchUtxoView chain]. unfold LookupEntry.
    change (entries (view [coin0] (d_Tx d))) with (entries (view [coin0] (mkMsgTx 1 (TxIns (d_Tx d)) [] 0))).
    rewrite view_lookup. destruct (decide _); [|done]. destruct (decide _); [|done]. cbn. intros [= <-]. split; [by repeat constructor|by vm_compute].
Qed.

(** The parent goes before the child that was visited first. *)
Definition summary (m : outcome TemplateError BlockTemplate) : option (list MsgTx * list Z) :=
  match m with Ok t => Some (drop 1 (Transactions (Block t)), Fees t) | _ => None end.
Lemma NewBlockTemplate_valid_witness : (d_Tx <$> MiningDescs pooled) = [kid; pay1] /\ exists t base chosen, template = Ok t /\
  Fees t = [-2000; 1000; 1000] /\ p_tx <$> chosen = [pay1; kid] /\
  template_ok generous FreshNetParams pooled (chain [coin0]) steps None None t base chosen.
Proof.
  split; [by vm_compute|].
  assert (Hs : summary template = Some ([pay1; kid], [-2000; 1000; 1000])) by by vm_compute.
  destruct (NewBlockTemplate_valid generous FreshNetParams pooled (chain [coin0]) steps None (Some (NewHashCache 100)) None pooled_ok pooled_steady I
    ltac:(exact eq_refl) ltac:(by vm_compute)) as [Hvalid Hends].
  fold template in Hvalid, Hends.
  destruct (Hends pooled_workable) as [[t Ht]|[e He]]; [|rewrite He in Hs; discriminate Hs].
  destruct (Hvalid t Ht) as (base & chosen & Hok). exists t, base, chosen. rewrite Ht in Hs.
  cbn [summary] in Hs. injection Hs as Htxs Hfees. split_and!; [exact Ht|exact Hfees| |exact Hok].
  destruct (te_txs _ _ _ _ _ _ _ _ _ _ Hok) as (paid & cb & _ & Hall & _). rewrite Hall in Htxs. exact Htxs.
Defined.

(** A transaction with a witness that does not fit leaves its commitment in
    the coinbase; the block, which has no witness to commit to, is heavier
    than the policy allows by what the commitment weighs. *)
#[local] Instance listed : TxSource (list TxDesc) := {|
  MiningDescs l := l;
  HaveTransaction h l := existsb (fun d => bool_decide (TxHash (d_Tx d) = h)) l;
|}.
Definition coin1 : OutPoint := mkOutPoint (replicate 32 0) 1.
Definition wide : MsgTx := mkMsgTx 1 [mkTxIn coin1 [] [[1; 2; 3]] MaxUint32] [mkTxOut 9000 [0x51]] 0.
Definition desc (tx : MsgTx) (rate : Z) : TxDesc := Mempool.mkDesc tx 0 10 1000 rate (float_of 0).
Definition limit : Z := 960.
Definition narrow (descs : list TxDesc) := NewBlockTemplate (mkGenPolicy 0 limit 0 1) FreshNetParams descs (chain [coin0; coin1]) steps None None None.

Example commitment_without_witness : match narrow [desc pay1 5000; desc wide 4000] with
  | Ok t => drop 1 (Transactions (Block t)) = [pay1] /\ HasWitness pay1 = false /\ WitnessCommitment t <> [] /\ limit < GetBlockWeight (Block t)
  | _ => False
  end.
Proof. vm_compute. by split_and!. Qed.

End Toy.
End Templates.
